(* ===== verification/_CoqProject ===== *)
-Q . S2P
Prelude.v
Order.v
Keyed.v
TableSync.v
Ident.v
StateText.v
Capability.v
Addressing.v
SegmentAllocator.v
Topology.v
TopologySearch.v
GraphInvariant.v
Routes.v
RoutePlanner.v
RouteReconcile.v
TopologyPolicy.v
TopologyPlan.v
TopologyExec.v
Stability.v
HubLoss.v
Recovery.v
NapAdmission.v
Membership.v
Neighbor.v
ConnectionDeadline.v
SessionRegistry.v
ReconnectScheduler.v
ControlFrame.v
ControlStream.v
PeerPins.v
ControlIo.v
Handshake.v
SessionStream.v
SessionActivity.v
LinuxRoutes.v
LinuxRouteExec.v
Forwarding.v
AttemptSocket.v
MembershipFile.v
PinFile.v
HostFs.v
SecretStore.v
DurableStores.v
PeerTrust.v
PinnedIngress.v
TlsIdentity.v
ActiveSession.v
RegisteredSession.v
NapControl.v
StarHost.v
SingleStar.v
ControlEndpoint.v
ControlListener.v
ControlTls.v
ApprovedTransport.v
InboundListener.v
JoinNetwork.v
OutboundControl.v
PanuSupervision.v
EnrollmentTransport.v
ControlWorker.v
LocalApi.v
DaemonService.v
NapServer.v
PanuLink.v
NmProfile.v
NmBackend.v
RuntimeHealth.v
BluezObjects.v
BluezPairing.v
KernelAddress.v
NetworkDiscovery.v
Ipv4Observation.v
StarDiscovery.v
