(* ===== verification/Prelude.v ===== *)
(** * BlueRoute: a verification library for its core, its control protocol and its daemon

    BlueRoute joins Bluetooth devices into an IP network.  Each device hosts or
    joins PAN segments (a NAP hub with PANU clients); the daemon keeps a graph
    of the active links, chooses hubs, moves from one star topology to another
    one link at a time, plans and installs routes, hands out IPv4 segments, and
    talks to its peers over authenticated control sessions.  The decisions are
    made in two crates without I/O, [crates/blueroute-core] and
    [crates/blueroute-protocol]; [crates/blueroute-linux] applies them to a host
    and keeps the durable files, and [apps/daemon] composes all three.  This
    library models what they compute and in which order they act, and proves it
    correct; kernels, D-Bus services and TLS are interfaces.  Paths below are
    relative to [src/].

    ** How the code is rendered

    - A [Result] is [result] of this file with its monad; an early return is
      [guard_err].  A method on [&mut self] that can fail is a function
      [S -> result E A * S] ([stres]): a failing call keeps the state it left.
      One that cannot fail returns its value and the new state.  Calls that
      could also wait forever add an [option] ([io] of ControlIo), and the
      theorems prove that they answer.
    - An [async] operation is the sequence of its awaited calls.  What other
      tasks, threads and processes do in between is part of the state where it
      matters: the registry and the ledger under a mutex ([Shared] of
      RegisteredSession), the stores of PeerTrust and HostFs, the world between
      two polls of ControlListener.
    - Dropping a value is written out where its destructor acts: sessions,
      leases, pending sockets, listeners, transition guards.
    - A [BTreeMap] or [BTreeSet] is a [gmap] or [gset]; where the code iterates,
      the order matters, so iteration is [iter_map], [keys], [values] or
      [iter_set] of file Order: the sorted list for the derived [Ord], itself a
      class with its laws ([RustOrd]).
    - Machine integers are [Z] with the width written in the operation
      ([checked_add], [saturating_add], [saturating_mul], [shl], ...).  A byte
      array [[u8; n]] is [bytes n], a list of [n] numbers below 256.
    - Error values keep their kind and message; a diagnostic that interpolates
      values is the format string, or the parts of it that carry other errors.
    - A [while] or [loop] that is not structural is a [Fixpoint] with fuel, and
      the theorems prove that the fuel used never runs out: breadth-first
      search has two iterations per link and two more ([bfs_fuel]), Dijkstra's
      one per entry that can be pushed ([dijkstra_fuel]), hub selection one
      more than the candidates, a topology transition one more than the links
      that differ ([diff_fuel]), the stream decoder one more than the bytes of
      the chunk, bounded frame I/O more than the longest frame and the
      interruptions to come ([enough]).  The allocator's probing is a list of
      at most [MAX_PREFIX_PROBES] offsets; the search for a conflict-free
      segment has the sixteen rounds of the code.
    - A backend the code reaches through a trait is a type class over an
      arbitrary state: the safety theorems hold for every instance, the
      liveness theorems for lawful ones (separate classes state the laws, which
      let a failing call stop half way), and concrete instances witness that
      the laws can hold.

    ** The files: foundations and [crates/blueroute-core/src]

    - Prelude (this file): results, state and error, machine integers, loops
      and their invariants.  Order: the [Ord] class, ordered iteration, sorting.
      Keyed: maps built from slices.  TableSync: reconciling a table by a plan
      and by an executor, once for the core's and once for the kernel's routes.
      StateText: UTF-8, lines and fields of the durable files.
    - Ident: [error.rs], [id.rs].  Capability: [capability.rs], [health.rs].
      Addressing: [config.rs], [addressing.rs] and the prefixes of [route.rs].
      SegmentAllocator: [segment_allocator.rs], no two segments ever share an
      address.
    - Topology: [topology.rs] and [forwarding_policy.rs]; TopologySearch: the
      breadth-first search finds shortest paths; GraphInvariant: what every
      sequence of graph operations preserves, and what it leaves of the cross
      references when a segment is replaced.
    - Routes: [route.rs].  RoutePlanner: [route_planner.rs]; Dijkstra's routes
      are the cheapest walks and following next hops terminates.
      RouteReconcile: [route_reconciliation.rs], [route_executor.rs],
      [route_recovery.rs]; the plan is the exact difference, and execution converges over
      an operator that refuses a destination another owner holds, when no
      destination the plan installs is held by one.
    - TopologyPolicy: [topology_policy.rs].  TopologyPlan: [topology_plan.rs].
      TopologyExec: [topology_executor.rs], a plan's run call by call.  Stability: [topology_stability.rs].
      HubLoss: [topology_loss.rs].  Recovery: [topology_recovery.rs] and
      [topology_recovery_flow.rs], over all of these.
    - NapAdmission: [nap_admission.rs], [nap_admission_ledger.rs] and
      [nap_admission_scope.rs].  Membership: [membership.rs].  Neighbor:
      [neighbor.rs].

    ** [crates/blueroute-protocol/src]

    - ConnectionDeadline, SessionRegistry, ReconnectScheduler: the three parts
      of [session.rs].  The scheduler's contract is a protocol over its
      observable events ([retry_trace]) that every slot follows.
    - ControlFrame: [control.rs].  ControlStream: [control_stream.rs], a
      refinement of splitting the whole buffer.  PeerPins: [peer_pin.rs].
    - ControlIo: [control_io.rs], frame I/O under a deadline over any stream
      that keeps its contracts.  Handshake: [handshake.rs], the Hello exchange
      seen from one end and from both.  SessionStream: [session_stream.rs] and
      [session_writer.rs]; what one end encodes the other hands out, in order.
      SessionActivity: [session_activity.rs], the life of a received session.

    ** [crates/blueroute-linux/src] and the durable files

    - LinuxRoutes: [route_projection.rs], [route_reconciliation.rs];
      LinuxRouteExec: [route_executor.rs]; Forwarding: [forwarding.rs],
      [forwarding_reconciliation.rs], the lease on the host's switch.
    - HostFs: a directory whose files have a volatile and a durable content,
      with faults and other processes at every call.  MembershipFile,
      DurableStores: [membership_store.rs], [identity.rs]; SecretStore:
      [secret_store.rs]; PinFile: [apps/daemon/src/peer_pin_store.rs].  A save
      is atomic, a load returns what was saved, older schemas are migrated.
    - NapServer, PanuLink: the two halves of [pan.rs] over the system bus
      ([SystemBus], [PanuBus]): who owns a NAP registration while starts and
      stops interleave, and which link an attachment is.  NmProfile, NmBackend:
      [networkmanager.rs]; profiles as they are written and read, and the
      operations over [NetworkManagerBus], which touch only what their network
      owns.  RuntimeHealth: [capability_report.rs] and the daemon's
      [runtime_health.rs].
    - BluezObjects, BluezPairing: [bluez.rs] over the same bus.  What is listed
      and told of adapters and peers; who may be paired when, what the agent
      answers BlueZ meanwhile, and the switches a window gives back.
    - KernelAddress: [kernel_address.rs], rtnetlink messages byte by byte, and
      what the kernel is asked for to set and withdraw an address.
    - NetworkDiscovery: [network_discovery.rs], the advertisement of a hosted
      network and the networks seen.  Ipv4Observation: [ipv4_observation.rs],
      the prefixes in use.

    ** [apps/daemon/src]

    - PeerTrust: [peer_trust.rs], approval, enrollment and revocation.
      PinnedIngress: [pinned_ingress.rs], every chunk passes the trust gate.
      TlsIdentity: the certificates, pins and persisted identity of
      [control_tls.rs], over the interface [X509]; ActiveSession: its
      [ActiveControlSession]; ControlTls: its certificate preface, TLS handshake
      loop, authenticated Hello and activation, over [TlsStack].
      RegisteredSession: [registered_transport.rs] with its generation guard,
      over the interface [OwnedSession] that ActiveSession implements.
      ApprovedTransport: [approved_transport.rs], from a plain socket to a
      registered session.
    - NapControl: [nap_control_admission.rs], radio capacity held by an
      authenticated session and kept while its link is attached.
      AttemptSocket: [attempt_socket.rs], pending handshakes coupled with the
      scheduler.
    - StarHost: [LinuxStarHostRuntime] of [single_star.rs], the start and stop
      of a NAP host with their rollbacks, and what a failed start leaves when a
      bridge is refused or a removal fails, over [HostBackends].  SingleStar: the
      creation, leave and startup reconciliation of [single_star.rs] over the
      runtime interface [StarHostRuntime], which StarHost implements.
      StarDiscovery: its discovery, its listing of networks and the host's
      interfaces.
      ControlEndpoint: the control address of [control_listener.rs] and the
      operations of [single_star.rs] that observe and bind it.
      ControlListener: [ObservedControlListener] of [control_listener.rs],
      composed with the observations of ControlEndpoint and the sessions of
      RegisteredSession; InboundListener: its tick that ends in a released
      session of ApprovedTransport.
    - JoinNetwork: [join_network.rs], the join transaction over the runtime
      interface [JoinRuntime], and the production runtime.  OutboundControl,
      PanuSupervision: [outbound_control.rs], the session over a joined link and
      its supervision until a stop.
    - EnrollmentTransport: [enrollment_transport.rs], the proof of a confirmed
      key before it is pinned.  ControlWorker: [control_worker.rs], the thread
      that owns the listener and its sessions, over [NapOperations], which the
      stores, operations and listeners above implement.
    - LocalApi: [blueroute-protocol/src/lib.rs] and [authorization.rs], the
      commands of local clients and who may issue them.  DaemonService:
      [lib.rs], the D-Bus service; one request, and requests side by side.

    ** Theorems by kind

    Refinement and equivalence: routes against walks, search against paths,
    hub loss and the retry scheduler against their state machines, the stream
    decoder against the buffer splitter.  Invariants over every history of
    operations: the graph, the allocator, the admission ledger, membership,
    the session registry, the forwarding lease, NAP owners, the polls of a listener, the network
    operations of the daemon, its requests side by side, NAP registrations,
    pairings.  Safety and liveness over abstract backends: the
    route and topology executors, recovery, the NAP host.  Exact functional
    behaviour and error behaviour: parsing, validation, admission, planning,
    the change gate, saves, revocation, rollbacks.  Termination: frame I/O and
    the exchanges over it, TLS handshakes, supervision until a stop.  Round trips:
    identifiers, frames, sessions, the membership file, the TLS identity record.

    Findings.  [SingleStar.leave_restarts_a_left_network]: a leave whose save
    fails after it replaced the membership file (its directory could not be
    synced; [DurableStores.ms_saved] shows that this happens) restarts the host
    of a network the file no longer names.  [NapServer.nap_restart_forgets]: a
    BlueZ restart during a start of a NAP can leave a server that is served and
    not recorded.  [NmBackend.nm_requests_rightful] claims of a
    deactivation only that the device was seen with an owned profile active: the
    connection taken down is read again after that, and is not compared again.

    ** Not modelled

    [serde_json] is a pair of functions in ControlFrame with the hypothesis
    that a valid envelope is read back as written.  Cancelling a future half
    way, a poisoned mutex (except the registry's, which the code tests),
    advisory file locks and logging are left out.  Interfaces only: the
    sockets of [tcp_connect.rs], rustls with its certificate parser and key
    generation.  The client library and the user
    interfaces are presentation and outside the library. *)

From Stdlib Require Export ZArith Lia.
From stdpp Require Export prelude gmap sorting strings.

#[global] Set Default Goal Selector "!".

Declare Scope rust_scope.
Delimit Scope rust_scope with rust.
Open Scope rust_scope.

(** ** Rust's [Result] *)

Inductive result (E A : Type) : Type :=
| Ok (a : A)
| Err (e : E).
Arguments Ok {E A} a.
Arguments Err {E A} e.

#[global] Instance result_ret (E : Type) : MRet (result E) := fun _ a => Ok a.
#[global] Instance result_bind (E : Type) : MBind (result E) :=
  fun _ _ f r => match r with Ok a => f a | Err e => Err e end.
#[global] Instance result_eq_dec (E A : Type) `{EqDecision E} `{EqDecision A} :
  EqDecision (result E A).
Proof. solve_decision. Defined.

(** [Option::ok_or] and [Result::map_err]. *)
Definition ok_or {E A : Type} (o : option A) (e : E) : result E A :=
  match o with Some a => Ok a | None => Err e end.

Definition map_err {E F A : Type} (f : E -> F) (r : result E A) : result F A :=
  match r with Ok a => Ok a | Err e => Err (f e) end.

Definition is_ok {E A : Type} (r : result E A) : bool :=
  match r with Ok _ => true | Err _ => false end.

(** An early return [if b { return Err(e) }] followed by the rest of the
    function. *)
Definition guard_err {E A : Type} (b : bool) (e : E) (k : result E A) : result E A :=
  if b then Err e else k.

Lemma result_bind_Ok {E A B : Type} (r : result E A) (f : A -> result E B) (b : B) :
  mbind f r = Ok b <-> exists a, r = Ok a /\ f a = Ok b.
Proof. destruct r; simpl; naive_solver. Qed.

Lemma guard_err_Ok {E A : Type} (b : bool) (e : E) (k : result E A) (a : A) :
  guard_err b e k = Ok a <-> b = false /\ k = Ok a.
Proof. destruct b; simpl; naive_solver. Qed.

Lemma ok_or_Ok {E A : Type} (o : option A) (e : E) (a : A) :
  ok_or o e = Ok a <-> o = Some a.
Proof. destruct o; simpl; naive_solver. Qed.

(** Fallible iteration over a list, stopping at the first error. *)
Fixpoint try_for_each {E A S : Type} (f : S -> A -> result E S) (s : S) (l : list A) :
  result E S :=
  match l with
  | [] => Ok s
  | x :: l' => s' ← f s x; try_for_each f s' l'
  end.

(** [iter.map(f).collect::<Result<Vec<_>, _>>()]. *)
Fixpoint try_map {E A B : Type} (f : A -> result E B) (l : list A) : result E (list B) :=
  match l with
  | [] => Ok []
  | x :: l' => y ← f x; ys ← try_map f l'; Ok (y :: ys)
  end.

Lemma try_map_Ok {E A B : Type} (f : A -> result E B) (l : list A) (k : list B) :
  try_map f l = Ok k <-> Forall2 (fun x y => f x = Ok y) l k.
Proof.
  revert k; induction l as [|x l IH]; intros k; simpl.
  - split; [intros [= <-]; constructor | by inversion 1].
  - rewrite result_bind_Ok. split.
    + intros (y & Hy & (ys & Hys & [= <-])%result_bind_Ok).
      constructor; [done | by apply IH].
    + inversion 1 as [|? y ? ys Hy Hys]; subst. exists y; split; [done|].
      apply result_bind_Ok. exists ys. split; [by apply IH | done].
Qed.

Lemma try_for_each_app {E A S : Type} (f : S -> A -> result E S) (s : S) (l k : list A) :
  try_for_each f s (l ++ k) = (s' ← try_for_each f s l; try_for_each f s' k).
Proof.
  revert s; induction l as [|x l IH]; intros s; simpl; [done|].
  destruct (f s x); simpl; [apply IH | done].
Qed.

Lemma try_for_each_Err {E A S : Type} (f : S -> A -> result E S) (s : S) (l : list A) (e : E) :
  try_for_each f s l = Err e -> exists t x, x ∈ l /\ f t x = Err e.
Proof.
  revert s; induction l as [|x l IH]; intros s; simpl; [done|].
  destruct (f s x) as [t|e'] eqn:Hf; simpl.
  - intros (u & y & Hy & He)%IH. exists u, y. split; [by right | done].
  - intros [= ->]. exists s, x. split; [by left | done].
Qed.

(** A loop that only checks. *)
Lemma try_all_Ok {E A : Type} (f : () -> A -> result E ()) (l : list A) :
  try_for_each f () l = Ok () <-> Forall (fun x => f () x = Ok ()) l.
Proof.
  induction l as [|x l IH]; simpl; [split; constructor|]. rewrite Forall_cons, <- IH.
  destruct (f () x) as [[]|e]; simpl; naive_solver.
Qed.

(** A loop invariant for [try_for_each]: [P] relates the already consumed
    prefix to the accumulator. *)
Lemma try_for_each_inv {E A S : Type} (P : list A -> S -> Prop)
    (f : S -> A -> result E S) (s s' : S) (l : list A) :
  P [] s ->
  (forall pre x t t', P pre t -> f t x = Ok t' -> x ∈ l -> P (pre ++ [x]) t') ->
  try_for_each f s l = Ok s' -> P l s'.
Proof.
  intros H0 Hstep.
  enough (forall pre t, P pre t -> try_for_each f t l = Ok s' -> P (pre ++ l) s') as Hgen.
  { exact (Hgen [] s H0). }
  revert Hstep. induction l as [|x l IH]; intros Hstep pre t HP; simpl.
  - intros [= <-]. by rewrite app_nil_r.
  - intros (t' & Ht' & Hok)%result_bind_Ok.
    rewrite (cons_middle x pre l), app_assoc. eapply IH; [| | done].
    + intros pre' y u u' HPu Hu Hin. eapply Hstep; [done | done |].
      by apply elem_of_cons; right.
    + eapply Hstep; [done | done |]. by apply elem_of_cons; left.
Qed.

(** ** State and error: methods on [&mut self] that return a [Result] *)

(** [stres S E A] is the type of a method that mutates [S] and may fail; a
    failing call keeps the mutations it made before it failed. *)
Definition stres (S E A : Type) : Type := S -> result E A * S.

Definition st_ret {S E A : Type} (a : A) : stres S E A := fun s => (Ok a, s).
Definition st_fail {S E A : Type} (e : E) : stres S E A := fun s => (Err e, s).
Definition st_bind {S E A B : Type} (m : stres S E A) (k : A -> stres S E B) : stres S E B :=
  fun s => match m s with (Ok a, s') => k a s' | (Err e, s') => (Err e, s') end.
Definition st_lift {S E A : Type} (r : result E A) : stres S E A := fun s => (r, s).

(** [Result::map_err] on a method call. *)
Definition st_map_err {S E F A : Type} (f : E -> F) (m : stres S E A) : stres S F A := fun s =>
  let (r, s') := m s in (map_err f r, s').

Notation "'let!' x := m 'in' k" := (st_bind m (fun x => k))
  (at level 10, x pattern, m at level 100, k at level 200) : rust_scope.

Lemma st_bind_Ok {S E A B : Type} (m : stres S E A) (k : A -> stres S E B) s b s' :
  st_bind m k s = (Ok b, s') <-> exists a t, m s = (Ok a, t) /\ k a t = (Ok b, s').
Proof. unfold st_bind. destruct (m s) as [[a|e] t]; naive_solver. Qed.

Lemma st_bind_lift {S E A B : Type} (r : result E A) (k : A -> stres S E B) (s : S) :
  st_bind (st_lift r) k s = match r with Ok a => k a s | Err e => (Err e, s) end.
Proof. done. Qed.

(** A [for] loop whose body may fail, over an accumulator. *)
Fixpoint st_for_each {S E A T : Type} (f : T -> A -> stres S E T) (t : T) (l : list A) : stres S E T :=
  match l with
  | [] => st_ret t
  | x :: l' => let! t' := f t x in st_for_each f t' l'
  end.

(** Reasoning about every outcome: [st_post I Q m] says that [m] started in a
    state satisfying [I] ends in one, and that a value it returns satisfies
    [Q] together with the final state. *)
Definition st_post {S E A : Type} (I : S -> Prop) (Q : A -> S -> Prop) (m : stres S E A) (s : S) : Prop :=
  match m s with (Ok a, s') => I s' /\ Q a s' | (Err _, s') => I s' end.

Lemma st_post_bind {S E A B : Type} (I : S -> Prop) (P : A -> S -> Prop) (Q : B -> S -> Prop)
    (m : stres S E A) (k : A -> stres S E B) s :
  st_post I P m s -> (forall a s', I s' -> P a s' -> st_post I Q (k a) s') ->
  st_post I Q (st_bind m k) s.
Proof.
  unfold st_post, st_bind. destruct (m s) as [[a|e] t]; [|done]. intros [HI HP] Hk. by apply Hk.
Qed.

Lemma st_post_for_each {S E A T : Type} (I : S -> Prop) (P : list A -> T -> S -> Prop)
    (f : T -> A -> stres S E T) (l : list A) :
  (forall pre x t s, x ∈ l -> I s -> P pre t s -> st_post I (P (pre ++ [x])) (f t x) s) ->
  forall pre t s, I s -> P pre t s -> st_post I (P (pre ++ l)) (st_for_each f t l) s.
Proof.
  induction l as [|x l IH]; intros Hf pre t s HI HP; simpl.
  - rewrite app_nil_r. done.
  - eapply st_post_bind; [apply (Hf pre x t s); [by left|done|done]|].
    intros t' s' HI' HP'. rewrite (cons_middle x pre l), app_assoc. apply IH; [|done|done].
    intros pre' y u v Hy. apply Hf. by right.
Qed.

(** ** Machine integers

    A [w]-bit unsigned integer is a [Z]; the operations below are the
    standard library's, with the width as first argument. *)

Definition u_max (w : Z) : Z := 2 ^ w - 1.
Definition u_ok (w x : Z) : bool := (0 <=? x)%Z && (x <=? u_max w)%Z.

Definition checked_add (w a b : Z) : option Z :=
  if (a + b <=? u_max w)%Z then Some (a + b)%Z else None.
Definition saturating_add (w a b : Z) : Z := Z.min (a + b) (u_max w).
Definition saturating_mul (w a b : Z) : Z := Z.min (a * b) (u_max w).
Definition saturating_sub (a b : Z) : Z := Z.max (a - b) 0.

(** [a << n] keeps the low [w] bits; [checked_shl] refuses [n >= w]. *)
Definition shl (w a n : Z) : Z := Z.land (Z.shiftl a n) (u_max w).
Definition checked_shl (w a n : Z) : option Z :=
  if (n <? w)%Z then Some (shl w a n) else None.

(** [u32::from_be_bytes] on a slice. *)
Definition from_be_bytes (l : list Z) : Z :=
  fold_left (fun acc b => Z.lor (Z.shiftl acc 8) b) l 0%Z.

Lemma u_ok_spec w x : u_ok w x = true <-> (0 <= x <= u_max w)%Z.
Proof. unfold u_ok. rewrite andb_true_iff, !Z.leb_le. lia. Qed.

Lemma checked_add_Some w a b c :
  checked_add w a b = Some c <-> c = (a + b)%Z /\ (a + b <= u_max w)%Z.
Proof.
  unfold checked_add. destruct (Z.leb_spec (a + b) (u_max w)); naive_solver lia.
Qed.

Lemma shl_mod w a n : (0 <= w)%Z -> (0 <= n)%Z -> shl w a n = ((a * 2 ^ n) mod 2 ^ w)%Z.
Proof.
  intros Hw Hn. unfold shl, u_max.
  replace (2 ^ w - 1)%Z with (Z.ones w) by (rewrite Z.ones_equiv; lia).
  by rewrite Z.land_ones, Z.shiftl_mul_pow2 by lia.
Qed.

(** ** Finite sets *)

Lemma size_list_to_set_le {A : Type} `{Countable A} (l : list A) :
  size (list_to_set l : gset A) <= length l.
Proof.
  induction l as [|x l IH]; [done|]. cbn [list_to_set foldr length].
  change (size ({[x]} ∪ (list_to_set l : gset A)) <= S (length l)).
  rewrite size_union_alt, size_singleton.
  assert (size ((list_to_set l : gset A) ∖ {[x]}) <= size (list_to_set l : gset A));
    [apply subseteq_size; set_solver | lia].
Qed.
