(* ===== verification/Order.v ===== *)
(** Rust's [Ord] as a type class with its laws, the instances that
    [#[derive(Ord)]] builds, and the ordered iteration of [BTreeMap] and
    [BTreeSet].

    A [BTreeMap<K, V>] is a stdpp [gmap K V] and a [BTreeSet<K>] a [gset K]:
    both have extensional equality, so a collection is determined by its
    entries.  What a [gmap] does not fix is the iteration order, which the
    code relies on for determinism; [iter_map] and [iter_set] give it, as the
    sorted list of the entries. *)

From S2P Require Import Prelude.

(** ** The class *)

Class RustOrd (A : Type) := {
  cmp : A -> A -> comparison;
  cmp_eq : forall x y, cmp x y = Eq <-> x = y;
  cmp_flip : forall x y, cmp y x = CompOpp (cmp x y);
  cmp_trans : forall x y z, cmp x y = Lt -> cmp y z = Lt -> cmp x z = Lt;
}.

Definition ord_lt {A : Type} `{RustOrd A} (x y : A) : Prop := cmp x y = Lt.
Definition ord_le {A : Type} `{RustOrd A} (x y : A) : Prop := cmp x y <> Gt.

Infix "<ᵣ" := ord_lt (at level 70, no associativity) : rust_scope.
Infix "≤ᵣ" := ord_le (at level 70, no associativity) : rust_scope.

Section ord_facts.
Context {A : Type} `{RustOrd A}.

#[global] Instance ord_lt_dec : RelDecision (ord_lt (A:=A)).
Proof. intros x y. unfold ord_lt. apply _. Defined.
#[global] Instance ord_le_dec : RelDecision (ord_le (A:=A)).
Proof. intros x y. unfold ord_le. apply _. Defined.

Lemma cmp_refl (x : A) : cmp x x = Eq.
Proof. by apply cmp_eq. Qed.

Lemma ord_lt_irrefl (x : A) : ~ x <ᵣ x.
Proof. unfold ord_lt. by rewrite cmp_refl. Qed.

Lemma ord_lt_trans (x y z : A) : x <ᵣ y -> y <ᵣ z -> x <ᵣ z.
Proof. apply cmp_trans. Qed.

Lemma ord_le_lt_or_eq (x y : A) : x ≤ᵣ y <-> x <ᵣ y \/ x = y.
Proof.
  unfold ord_le, ord_lt. rewrite <- (cmp_eq x y).
  destruct (cmp x y); naive_solver.
Qed.

Lemma ord_not_le_lt (x y : A) : ~ x ≤ᵣ y <-> y <ᵣ x.
Proof.
  unfold ord_le, ord_lt. rewrite (cmp_flip x y). destruct (cmp x y); naive_solver.
Qed.

Lemma ord_not_lt_le (x y : A) : ~ x <ᵣ y <-> y ≤ᵣ x.
Proof.
  unfold ord_le, ord_lt. rewrite (cmp_flip x y). destruct (cmp x y); naive_solver.
Qed.

#[global] Instance ord_lt_strict : StrictOrder (ord_lt (A:=A)).
Proof.
  split; [intros x; apply ord_lt_irrefl | intros x y z; apply ord_lt_trans].
Qed.

#[global] Instance ord_le_total_order : TotalOrder (ord_le (A:=A)).
Proof.
  split; [split; [split|]|].
  - intros x. apply ord_le_lt_or_eq. by right.
  - intros x y z [Hxy| ->]%ord_le_lt_or_eq [Hyz| ->]%ord_le_lt_or_eq;
      apply ord_le_lt_or_eq; eauto using ord_lt_trans.
  - intros x y [Hxy| ->]%ord_le_lt_or_eq [Hyx|Heq]%ord_le_lt_or_eq; try done.
    exfalso. by apply (ord_lt_irrefl x), (ord_lt_trans x y x).
  - intros x y. unfold strict. destruct (cmp x y) eqn:Hc.
    + right; left. by apply cmp_eq.
    + left. split; [apply ord_le_lt_or_eq; by left | by apply ord_not_le_lt].
    + right; right. assert (y <ᵣ x) as Hlt by (unfold ord_lt; by rewrite cmp_flip, Hc).
      split; [apply ord_le_lt_or_eq; by left | by apply ord_not_le_lt].
Qed.

Lemma ord_le_refl (x : A) : x ≤ᵣ x.
Proof. apply ord_le_lt_or_eq. by right. Qed.

Lemma ord_le_trans (x y z : A) : x ≤ᵣ y -> y ≤ᵣ z -> x ≤ᵣ z.
Proof. apply (transitivity (R:=ord_le)). Qed.

Lemma ord_le_lt_trans (x y z : A) : x ≤ᵣ y -> y <ᵣ z -> x <ᵣ z.
Proof. intros [?| ->]%ord_le_lt_or_eq; eauto using ord_lt_trans. Qed.

Lemma ord_lt_le_trans (x y z : A) : x <ᵣ y -> y ≤ᵣ z -> x <ᵣ z.
Proof. intros ? [?| ->]%ord_le_lt_or_eq; eauto using ord_lt_trans. Qed.

Lemma ord_lt_le (x y : A) : x <ᵣ y -> x ≤ᵣ y.
Proof. intros. apply ord_le_lt_or_eq. by left. Qed.

Lemma ord_le_antisymm (x y : A) : x ≤ᵣ y -> y ≤ᵣ x -> x = y.
Proof. apply (anti_symm ord_le). Qed.

Lemma ord_le_or_lt (x y : A) : x ≤ᵣ y \/ y <ᵣ x.
Proof. destruct (decide (x ≤ᵣ y)); [by left | right; by apply ord_not_le_lt]. Qed.

Lemma sorted_lt_NoDup (l : list A) : StronglySorted ord_lt l -> NoDup l.
Proof.
  induction 1 as [|x l Hs IH Hall]; constructor; [|done].
  intros Hx. rewrite Forall_forall in Hall. by apply (ord_lt_irrefl x), Hall.
Qed.

End ord_facts.

Create HintDb ord.
#[export] Hint Resolve ord_le_refl ord_lt_le ord_le_trans ord_lt_trans
  ord_le_lt_trans ord_lt_le_trans ord_lt_irrefl : ord.

(** ** Instances *)

#[global] Program Instance Z_ord : RustOrd Z := {| cmp := Z.compare |}.
Next Obligation. apply Z.compare_eq_iff. Qed.
Next Obligation. apply Z.compare_antisym. Qed.
Next Obligation. intros x y z. rewrite !Z.compare_lt_iff. lia. Qed.

#[global] Program Instance nat_ord : RustOrd nat := {| cmp := Nat.compare |}.
Next Obligation. apply Nat.compare_eq_iff. Qed.
Next Obligation. apply Nat.compare_antisym. Qed.
Next Obligation. intros x y z. rewrite !Nat.compare_lt_iff. lia. Qed.

#[global] Program Instance bool_ord : RustOrd bool :=
  {| cmp x y := match x, y with
                | false, false | true, true => Eq
                | false, true => Lt | true, false => Gt end |}.
Next Obligation. intros [] []; naive_solver. Qed.
Next Obligation. by intros [] []. Qed.
Next Obligation. by intros [] [] []. Qed.

#[global] Program Instance unit_ord : RustOrd () := {| cmp _ _ := Eq |}.
Next Obligation. intros [] []; naive_solver. Qed.
Next Obligation. done. Qed.
Next Obligation. done. Qed.

(** Tuples and structs compare their fields in order. *)
#[global] Program Instance prod_ord {A B : Type} `{RustOrd A} `{RustOrd B} : RustOrd (A * B) :=
  {| cmp x y := match cmp x.1 y.1 with Eq => cmp x.2 y.2 | Lt => Lt | Gt => Gt end |}.
Next Obligation.
  intros A B ? ? [a b] [a' b']; simpl. destruct (cmp a a') eqn:Ha.
  - apply cmp_eq in Ha as ->. rewrite cmp_eq. naive_solver.
  - split; [done|]. intros [= -> ->]. by rewrite cmp_refl in Ha.
  - split; [done|]. intros [= -> ->]. by rewrite cmp_refl in Ha.
Qed.
Next Obligation.
  intros A B ? ? [a b] [a' b']; simpl. rewrite (cmp_flip a a').
  destruct (cmp a a'); simpl; [apply cmp_flip | done | done].
Qed.
Next Obligation.
  intros A B ? ? [a b] [a' b'] [a'' b'']; simpl.
  destruct (cmp a a') eqn:H1; [apply cmp_eq in H1 as -> | | done];
    (destruct (cmp a' a'') eqn:H2; [apply cmp_eq in H2 as -> | | done]).
  - rewrite ?cmp_refl. apply cmp_trans.
  - done.
  - by rewrite H1.
  - by rewrite (cmp_trans _ _ _ H1 H2).
Qed.

(** Enumerations compare their variants in order of declaration, then their
    payloads; a nested [sum] spells the variants out. *)
#[global] Program Instance sum_ord {A B : Type} `{RustOrd A} `{RustOrd B} : RustOrd (A + B) :=
  {| cmp x y := match x, y with
                | inl a, inl a' => cmp a a'
                | inl _, inr _ => Lt
                | inr _, inl _ => Gt
                | inr b, inr b' => cmp b b'
                end |}.
Next Obligation. intros A B ? ? [] []; rewrite ?cmp_eq; naive_solver. Qed.
Next Obligation. intros A B ? ? [] []; simpl; auto using cmp_flip. Qed.
Next Obligation. intros A B ? ? [] [] []; simpl; try done; apply cmp_trans. Qed.

#[global] Program Instance option_ord {A : Type} `{RustOrd A} : RustOrd (option A) :=
  {| cmp x y := match x, y with
                | None, None => Eq | None, Some _ => Lt | Some _, None => Gt
                | Some a, Some b => cmp a b end |}.
Next Obligation. intros A ? [] []; rewrite ?cmp_eq; naive_solver. Qed.
Next Obligation. intros A ? [] []; simpl; auto using cmp_flip. Qed.
Next Obligation. intros A ? [] [] []; simpl; try done; apply cmp_trans. Qed.

(** Arrays and slices compare lexicographically. *)
Fixpoint list_cmp {A : Type} `{RustOrd A} (l k : list A) : comparison :=
  match l, k with
  | [], [] => Eq
  | [], _ :: _ => Lt
  | _ :: _, [] => Gt
  | x :: l', y :: k' => match cmp x y with Eq => list_cmp l' k' | c => c end
  end.

#[global] Program Instance list_ord {A : Type} `{RustOrd A} : RustOrd (list A) :=
  {| cmp := list_cmp |}.
Next Obligation.
  intros A ? l. induction l as [|x l IH]; intros [|y k]; simpl; try done.
  destruct (cmp x y) eqn:Hc.
  - apply cmp_eq in Hc as ->. rewrite IH. naive_solver.
  - split; [done|]. intros [= -> ->]. by rewrite cmp_refl in Hc.
  - split; [done|]. intros [= -> ->]. by rewrite cmp_refl in Hc.
Qed.
Next Obligation.
  intros A ? l. induction l as [|x l IH]; intros [|y k]; simpl; try done.
  rewrite (cmp_flip x y). destruct (cmp x y); simpl; [apply IH | done | done].
Qed.
Next Obligation.
  intros A ? l. induction l as [|x l IH]; intros [|y k] [|z j]; simpl; try done.
  destruct (cmp x y) eqn:H1; [apply cmp_eq in H1 as -> | | done];
    (destruct (cmp y z) eqn:H2; [apply cmp_eq in H2 as -> | | done]).
  - rewrite ?cmp_refl. apply IH.
  - done.
  - by rewrite H1.
  - by rewrite (cmp_trans _ _ _ H1 H2).
Qed.

(** [std::cmp::Reverse]. *)
Record Reverse (A : Type) := mkReverse { reverse_val : A }.
Arguments mkReverse {A} _.
Arguments reverse_val {A} _.

#[global] Program Instance reverse_ord {A : Type} `{RustOrd A} : RustOrd (Reverse A) :=
  {| cmp x y := cmp (reverse_val y) (reverse_val x) |}.
Next Obligation. intros A ? [x] [y]; simpl. rewrite cmp_eq. naive_solver. Qed.
Next Obligation. intros A ? [x] [y]; simpl. apply cmp_flip. Qed.
Next Obligation. intros A ? [x] [y] [z]; simpl. eauto using cmp_trans. Qed.

(** An order pulled back along an injection: how a derived [Ord] on a struct
    or an enum is read off its fields. *)
Program Definition ord_via {A B : Type} `{RustOrd B} (f : A -> B) (Hf : forall x y, f x = f y -> x = y) :
  RustOrd A := {| cmp x y := cmp (f x) (f y) |}.
Next Obligation.
  intros A B ? f Hf x y; simpl. rewrite cmp_eq. split; [apply Hf | by intros ->].
Qed.
Next Obligation. intros; simpl; apply cmp_flip. Qed.
Next Obligation. intros A B ? f Hf x y z; simpl. apply cmp_trans. Qed.

(** ** Ordered iteration *)

Section iteration.
Context {K : Type} `{Countable K} `{RustOrd K}.

Definition key_le {V : Type} (p q : K * V) : Prop := p.1 ≤ᵣ q.1.

#[global] Instance key_le_dec {V : Type} : RelDecision (key_le (V:=V)).
Proof. intros p q. unfold key_le. apply _. Defined.

#[global] Instance key_le_trans {V : Type} : Transitive (key_le (V:=V)).
Proof. intros p q r. unfold key_le. apply ord_le_trans. Qed.
#[global] Instance key_le_total {V : Type} : Total (key_le (V:=V)).
Proof. intros p q. unfold key_le. apply (total ord_le). Qed.

(** [BTreeMap::iter], [keys], [values] and [BTreeSet::iter]. *)
Definition iter_map {V : Type} (m : gmap K V) : list (K * V) :=
  merge_sort key_le (map_to_list m).
Definition keys {V : Type} (m : gmap K V) : list K := (iter_map m).*1.
Definition values {V : Type} (m : gmap K V) : list V := (iter_map m).*2.
Definition iter_set (s : gset K) : list K := merge_sort ord_le (elements s).

Lemma iter_map_perm {V : Type} (m : gmap K V) : iter_map m ≡ₚ map_to_list m.
Proof. apply merge_sort_Permutation. Qed.

Lemma elem_of_iter_map {V : Type} (m : gmap K V) (k : K) (v : V) :
  (k, v) ∈ iter_map m <-> m !! k = Some v.
Proof. rewrite iter_map_perm. apply elem_of_map_to_list. Qed.

Lemma elem_of_keys {V : Type} (m : gmap K V) (k : K) : k ∈ keys m <-> is_Some (m !! k).
Proof.
  unfold keys. rewrite list_elem_of_fmap. split.
  - intros ([k' v] & -> & Hin). exists v. by apply elem_of_iter_map.
  - intros [v Hv]. exists (k, v). split; [done | by apply elem_of_iter_map].
Qed.

Lemma elem_of_values {V : Type} (m : gmap K V) (v : V) :
  v ∈ values m <-> exists k, m !! k = Some v.
Proof.
  unfold values. rewrite list_elem_of_fmap. split.
  - intros ([k v'] & -> & Hin). exists k. by apply elem_of_iter_map.
  - intros [k Hv]. exists (k, v). split; [done | by apply elem_of_iter_map].
Qed.

Lemma NoDup_keys {V : Type} (m : gmap K V) : NoDup (keys m).
Proof.
  unfold keys, iter_map. rewrite merge_sort_Permutation. apply NoDup_fst_map_to_list.
Qed.

Lemma keys_sorted {V : Type} (m : gmap K V) : StronglySorted ord_lt (keys m).
Proof.
  assert (StronglySorted key_le (iter_map m)) as Hs.
  { apply (StronglySorted_merge_sort _). }
  pose proof (NoDup_keys m) as Hnd. unfold keys in *.
  induction Hs as [|p l Hs IH Hall]; csimpl in *; [constructor|].
  apply NoDup_cons in Hnd as [Hp Hnd]. constructor; [by apply IH|].
  apply Forall_forall. intros k Hk. apply list_elem_of_fmap in Hk as (q & -> & Hq).
  rewrite Forall_forall in Hall. specialize (Hall q Hq). unfold key_le in Hall.
  apply ord_le_lt_or_eq in Hall as [|Heq]; [done|]. destruct Hp. rewrite Heq.
  apply list_elem_of_fmap. eauto.
Qed.

(** Inserting entries one by one; the entries of a map, in order, rebuild it. *)
Definition insert_all {V : Type} (acc : gmap K V) (l : list (K * V)) : gmap K V :=
  foldl (fun acc kv => <[kv.1 := kv.2]> acc) acc l.

Lemma lookup_insert_all {V : Type} (l : list (K * V)) (acc : gmap K V) (k : K) :
  NoDup l.*1 -> insert_all acc l !! k = (list_to_map l : gmap K V) !! k ∪ acc !! k.
Proof.
  unfold insert_all. revert acc. induction l as [|[k' v] l IH]; intros acc Hnd; csimpl in *.
  - rewrite lookup_empty. by destruct (acc !! k).
  - apply NoDup_cons in Hnd as [Hk Hnd]. rewrite IH by done.
    destruct (decide (k = k')) as [->|Hne].
    + rewrite !lookup_insert_eq, not_elem_of_list_to_map_1 by done. by destruct (acc !! k').
    + by rewrite !lookup_insert_ne.
Qed.

Lemma insert_all_iter_map {V : Type} (m : gmap K V) : insert_all ∅ (iter_map m) = m.
Proof.
  apply map_eq. intros k. pose proof (NoDup_keys m) as Hnd. rewrite lookup_insert_all, lookup_empty by done.
  rewrite (list_to_map_proper (iter_map m) (map_to_list m)) by (done || apply iter_map_perm).
  rewrite list_to_map_to_list. by destruct (m !! k).
Qed.

Lemma length_iter_map {V : Type} (m : gmap K V) : length (iter_map m) = size m.
Proof. rewrite iter_map_perm. apply length_map_to_list. Qed.

Lemma iter_set_perm (s : gset K) : iter_set s ≡ₚ elements s.
Proof. apply merge_sort_Permutation. Qed.

Lemma elem_of_iter_set (s : gset K) (k : K) : k ∈ iter_set s <-> k ∈ s.
Proof. rewrite iter_set_perm. apply elem_of_elements. Qed.

Lemma NoDup_iter_set (s : gset K) : NoDup (iter_set s).
Proof. rewrite iter_set_perm. apply NoDup_elements. Qed.

Lemma length_iter_set (s : gset K) : length (iter_set s) = size s.
Proof. by rewrite iter_set_perm. Qed.

Lemma iter_set_sorted (s : gset K) : StronglySorted ord_le (iter_set s).
Proof. apply (StronglySorted_merge_sort _). Qed.

(** Filtering keeps a list sorted. *)
Lemma sorted_filter {A : Type} (R : relation A) (f : A -> bool) (l : list A) :
  StronglySorted R l -> StronglySorted R (List.filter f l).
Proof.
  induction 1 as [|x l Hs IH Hall]; simpl; [constructor|]. destruct (f x); [|done].
  constructor; [done|]. rewrite Forall_forall in Hall. apply Forall_forall. intros y Hy.
  apply list_elem_of_In, filter_In in Hy as [Hy _]. apply Hall. by apply list_elem_of_In.
Qed.

Lemma sorted_fmap_filter {A B : Type} (R : relation B) (h : A -> B) (f : A -> bool) (l : list A) :
  StronglySorted R (h <$> l) -> StronglySorted R (h <$> List.filter f l).
Proof.
  induction l as [|x l IH]; csimpl; [done|].
  intros [Hs Hall]%StronglySorted_inv. destruct (f x); csimpl; [|by apply IH].
  constructor; [by apply IH|]. rewrite Forall_forall in Hall. apply Forall_forall. intros y Hy.
  apply list_elem_of_fmap in Hy as (z & -> & Hz). apply Hall, list_elem_of_fmap_2.
  by apply list_elem_of_In, filter_In in Hz as [Hz%list_elem_of_In _].
Qed.

Lemma fmap_filter_comm {A B : Type} (h : A -> B) (f : B -> bool) (l : list A) :
  h <$> List.filter (fun x => f (h x)) l = List.filter f (h <$> l).
Proof. induction l as [|x l IH]; csimpl; [done|]. destruct (f (h x)); csimpl; by rewrite IH. Qed.

End iteration.

(** ** Reading the orders *)

Lemma prod_ord_lt {A B : Type} `{RustOrd A} `{RustOrd B} (x y : A * B) :
  x <ᵣ y <-> x.1 <ᵣ y.1 \/ (x.1 = y.1 /\ x.2 <ᵣ y.2).
Proof.
  unfold ord_lt. simpl. rewrite <- (cmp_eq x.1 y.1). destruct (cmp x.1 y.1); naive_solver.
Qed.

Lemma prod_ord_le {A B : Type} `{RustOrd A} `{RustOrd B} (x y : A * B) :
  x ≤ᵣ y <-> x.1 <ᵣ y.1 \/ (x.1 = y.1 /\ x.2 ≤ᵣ y.2).
Proof.
  unfold ord_lt, ord_le. simpl. rewrite <- (cmp_eq x.1 y.1). destruct (cmp x.1 y.1); naive_solver.
Qed.

Lemma Z_ord_lt (x y : Z) : x <ᵣ y <-> (x < y)%Z.
Proof. unfold ord_lt. simpl. apply Z.compare_lt_iff. Qed.

Lemma Z_ord_le (x y : Z) : x ≤ᵣ y <-> (x <= y)%Z.
Proof. unfold ord_le. simpl. apply Z.compare_le_iff. Qed.

Lemma nat_ord_lt (x y : nat) : x <ᵣ y <-> x < y.
Proof. unfold ord_lt. simpl. apply Nat.compare_lt_iff. Qed.
