(* ===== verification/Keyed.v ===== *)
(** Maps that index a list by a key of its elements: the shape of the
    [BTreeMap]s that the route planners build from slices, with the loop that
    builds one and refuses duplicates. *)

From S2P Require Import Prelude Order.

(** The loop body [if map.insert(key, value).is_some() { return Err(..) }],
    after the element was checked. *)
Definition index_unique {E K V : Type} `{Countable K} (key : V -> K) (check : V -> result E ()) (dup : E)
    (m : gmap K V) (v : V) : result E (gmap K V) :=
  _ ← check v;
  match m !! key v with
  | Some _ => Err dup
  | None => Ok (<[key v := v]> m)
  end.

Section keyed.
Context {K V : Type} `{Countable K} `{RustOrd K} (key : V -> K).

(** [m] indexes the elements of [l] by their keys, which are distinct. *)
Definition indexes (m : gmap K V) (l : list V) : Prop :=
  NoDup (key <$> l) /\ forall k v, m !! k = Some v <-> v ∈ l /\ key v = k.

Lemma indexes_nil : indexes ∅ [].
Proof.
  split; [constructor|]. intros k v. rewrite lookup_empty, elem_of_nil. naive_solver.
Qed.

Lemma indexes_None m l k : indexes m l -> m !! k = None <-> k ∉ key <$> l.
Proof.
  intros [_ Hm]. rewrite list_elem_of_fmap, eq_None_not_Some. split; intros Ha Hb; apply Ha.
  - destruct Hb as (v & -> & Hv). exists v. by apply Hm.
  - destruct Hb as [v [Hv <-]%Hm]. eauto.
Qed.

Lemma indexes_snoc m l v : indexes m l -> m !! key v = None -> indexes (<[key v := v]> m) (l ++ [v]).
Proof.
  intros Hi Hn. pose proof (proj1 (indexes_None _ _ _ Hi) Hn) as Hnin. destruct Hi as [Hnd Hm]. split.
  - rewrite fmap_app, NoDup_app. split_and!; [done| |apply NoDup_singleton].
    intros k Hk ->%list_elem_of_singleton. done.
  - intros k x. rewrite lookup_insert_Some, elem_of_app, list_elem_of_singleton, Hm. split.
    + intros [[<- <-]|[_ [? <-]]]; auto.
    + intros [[Hx| ->] <-]; [right|by left]. split; [|done]. intros Heq. apply Hnin. rewrite Heq.
      apply list_elem_of_fmap. eauto.
Qed.

Lemma indexes_key m l k v : indexes m l -> m !! k = Some v -> key v = k.
Proof. intros [_ Hm] Hv%Hm. by destruct Hv. Qed.

Lemma indexes_self m l v : indexes m l -> m !! key v = Some v <-> v ∈ l.
Proof. intros [_ Hm]. rewrite Hm. naive_solver. Qed.

(** A key that is taken. *)
Lemma indexes_taken m l v x : indexes m l -> m !! key v = Some x -> ~ NoDup (key <$> l ++ [v]).
Proof.
  intros [_ Hm] [Hx Hk]%Hm. rewrite fmap_app, NoDup_app. intros (_ & Hdis & _).
  apply (Hdis (key v)); [|by left]. rewrite <- Hk. by apply list_elem_of_fmap_2.
Qed.

Lemma NoDup_key_prefix l k : NoDup (key <$> l ++ k) -> NoDup (key <$> l).
Proof. rewrite fmap_app, NoDup_app. by intros (? & _ & _). Qed.

(** The loop, from any prefix on. *)
Lemma index_all {E : Type} (check : V -> result E ()) (dup : E) m pre l :
  indexes m pre ->
  match try_for_each (index_unique key check dup) m l with
  | Ok m' => indexes m' (pre ++ l) /\ Forall (fun v => check v = Ok ()) l
  | Err _ => ~ (NoDup (key <$> pre ++ l) /\ Forall (fun v => check v = Ok ()) l)
  end.
Proof.
  revert m pre. induction l as [|v l IH]; intros m pre Hi; simpl; [by rewrite app_nil_r|].
  unfold index_unique at 2. destruct (check v) as [[]|e] eqn:Hv; simpl.
  2:{ intros [_ Hall]. inversion Hall. congruence. }
  rewrite (cons_middle v pre l), app_assoc.
  destruct (m !! key v) as [x|] eqn:Hx; simpl.
  - intros [Hnd _]. by eapply (indexes_taken m pre v x Hi Hx), NoDup_key_prefix.
  - specialize (IH _ (pre ++ [v]) (indexes_snoc _ _ _ Hi Hx)).
    destruct (try_for_each _ _ l); rewrite Forall_cons; naive_solver.
Qed.

(** ** Selecting from an index in key order *)

Lemma elem_of_selected (f : K * V -> bool) m v :
  (forall k x, m !! k = Some x -> key x = k) ->
  v ∈ snd <$> List.filter f (iter_map m) <-> m !! key v = Some v /\ f (key v, v) = true.
Proof.
  intros Hm. rewrite list_elem_of_fmap. split.
  - intros ([k x] & -> & Hin). apply list_elem_of_In, filter_In in Hin as [Hin Hf].
    apply list_elem_of_In, elem_of_iter_map in Hin. simpl. by rewrite (Hm k x Hin).
  - intros [Hv Hf]. exists (key v, v). split; [done|].
    apply list_elem_of_In, filter_In. split; [|done]. by apply list_elem_of_In, elem_of_iter_map.
Qed.

Lemma selected_sorted (f : K * V -> bool) m :
  (forall k x, m !! k = Some x -> key x = k) ->
  StronglySorted ord_lt (key <$> (snd <$> List.filter f (iter_map m))).
Proof.
  intros Hm.
  assert (key <$> (snd <$> List.filter f (iter_map m)) = fst <$> List.filter f (iter_map m)) as ->.
  { rewrite <- list_fmap_compose. apply list_fmap_ext. intros i [k x] Hi.
    apply list_elem_of_lookup_2, list_elem_of_In, filter_In in Hi as [Hi _]. simpl.
    apply Hm. by apply elem_of_iter_map, list_elem_of_In. }
  apply sorted_fmap_filter, keys_sorted.
Qed.

Lemma key_inj l v x : NoDup (key <$> l) -> v ∈ l -> x ∈ l -> key v = key x -> v = x.
Proof.
  intros Hnd [i Hi]%list_elem_of_lookup [j Hj]%list_elem_of_lookup Heq.
  assert (i = j) as ->; [|congruence]. apply (NoDup_lookup (key <$> l) i j (key v)); [done| |].
  - by rewrite list_lookup_fmap, Hi.
  - rewrite list_lookup_fmap, Hj. simpl. by rewrite Heq.
Qed.

End keyed.
