(* ===== verification/TableSync.v ===== *)
(** Reconciling an observed table with desired entries: what the core's and
    the Linux backend's route planners and executors have in common.

    A table holds entries of several owners; one of them reconciles its own.
    The planner compares the desired entries with an observation; the executor
    applies the plan one entry at a time and observes the table before and
    after every change.  [RouteReconcile] and [LinuxRoutes] translate the two
    sources and instantiate the facts proved here. *)

From S2P Require Import Prelude Order Keyed.

(** The reconciling owner's view of a table. *)
Record TableSpec (E K V : Type) := mkTableSpec {
  ts_key : V -> K;
  ts_owned : V -> Prop;
  ts_owned_dec v : Decision (ts_owned v);
  ts_canon : V -> result E K;
  ts_valid : V -> result E ();
  ts_check : V -> result E ();
  err_duplicate : E;
  err_conflict : E;
  err_noncanonical : E;
  err_observed_twice : E;
  err_collision : E;
}.
Arguments ts_key {E K V}.
Arguments ts_owned {E K V}.
Arguments ts_owned_dec {E K V}.
Arguments ts_canon {E K V}.
Arguments ts_valid {E K V}.
Arguments ts_check {E K V}.
Arguments err_duplicate {E K V}.
Arguments err_conflict {E K V}.
Arguments err_noncanonical {E K V}.
Arguments err_observed_twice {E K V}.
Arguments err_collision {E K V}.
#[global] Existing Instance ts_owned_dec.

(** ** The planner *)

Section planner.
Context {E K V : Type} `{EqDecision V} `{Countable K} `{RustOrd K} (T : TableSpec E K V).

(** One observed entry: foreign ones must not take a desired key, owned ones
    must be well formed, canonical and distinct. *)
Definition index_observed (wanted : gmap K V) (st : gmap K V * gset K) (v : V) : result E (gmap K V * gset K) :=
  let '(existing, foreign) := st in
  k ← ts_canon T v;
  if negb (bool_decide (ts_owned T v)) then
    match wanted !! k with
    | Some _ => Err (err_conflict T)
    | None => Ok (existing, {[k]} ∪ foreign)
    end
  else
    _ ← ts_check T v;
    guard_err (negb (bool_decide (k = ts_key T v))) (err_noncanonical T)
    match existing !! k with
    | Some _ => Err (err_observed_twice T)
    | None => Ok (<[k := v]> existing, foreign)
    end.

Definition sync_plan (desired observed : list V) : result E (list V * list V) :=
  wanted ← try_for_each (index_unique (ts_key T) (ts_valid T) (err_duplicate T)) ∅ desired;
  st ← try_for_each (index_observed wanted) (∅, ∅) observed;
  let '(existing, foreign) := st in
  guard_err (existsb (fun k => bool_decide (k ∈ foreign)) (keys existing)) (err_collision T)
  (Ok (snd <$> List.filter (fun kv => negb (bool_decide (existing !! kv.1 = Some kv.2))) (iter_map wanted),
       snd <$> List.filter (fun kv => bool_decide (wanted !! kv.1 = None)) (iter_map existing))).

Definition key_list (l : list V) : list K := ts_key T <$> l.
Definition own_part (l : list V) : list V := filter (ts_owned T) l.
Definition foreign_part (l : list V) : list V := filter (fun v => ~ ts_owned T v) l.

(** What the loop accepts of one observed entry. *)
Definition observed_ok (wanted : gmap K V) (v : V) : Prop :=
  exists k, ts_canon T v = Ok k /\
    if decide (ts_owned T v) then ts_check T v = Ok () /\ k = ts_key T v else wanted !! k = None.

Definition observed_inv (st : gmap K V * gset K) (pre : list V) : Prop :=
  indexes (ts_key T) st.1 (own_part pre) /\
  forall k, k ∈ st.2 <-> exists v, v ∈ pre /\ ~ ts_owned T v /\ ts_canon T v = Ok k.

Lemma index_observed_ok wanted st pre v :
  observed_inv st pre ->
  match index_observed wanted st v with
  | Ok st' => observed_inv st' (pre ++ [v]) /\ observed_ok wanted v
  | Err _ => ~ (NoDup (key_list (own_part (pre ++ [v]))) /\ observed_ok wanted v)
  end.
Proof.
  destruct st as [ex fr]. intros [Hi Hf]. unfold index_observed, observed_ok.
  destruct (ts_canon T v) as [k|e] eqn:Hk; cbn [mbind result_bind]; [|naive_solver].
  unfold observed_inv, own_part, key_list in *. rewrite filter_app.
  destruct (decide (ts_owned T v)) as [Ho|Ho].
  - rewrite filter_cons_True, filter_nil, bool_decide_eq_true_2 by done. cbn [negb].
    destruct (ts_check T v) as [[]|e] eqn:Hc; cbn [mbind result_bind]; [|naive_solver].
    case_bool_decide as Hkv; [subst k|]; simpl; [|naive_solver].
    destruct (ex !! ts_key T v) as [x|] eqn:Hx; simpl in *.
    + intros [Hnd _]. by apply (indexes_taken _ _ _ _ _ Hi Hx).
    + split_and!; [by apply indexes_snoc| |eauto]. intros k. rewrite Hf. clear -Ho.
      split; intros (y & Hy & ? & ?); exists y; split_and!; try done.
      * set_solver.
      * apply elem_of_app in Hy as [| ->%list_elem_of_singleton]; done.
  - rewrite filter_cons_False, filter_nil, app_nil_r, bool_decide_eq_false_2 by done. cbn [negb].
    destruct (wanted !! k) eqn:Hw; [naive_solver|].
    simpl in *. split_and!; [done| |eauto]. intros k'. rewrite elem_of_union, elem_of_singleton, Hf. split.
    + intros [->|(y & Hy & ? & ?)]; [exists v | exists y]; set_solver.
    + intros (y & [Hy| ->%list_elem_of_singleton]%elem_of_app & ? & ?); [eauto|]. left. congruence.
Qed.

Lemma index_observed_all wanted st pre l :
  observed_inv st pre ->
  match try_for_each (index_observed wanted) st l with
  | Ok st' => observed_inv st' (pre ++ l) /\ Forall (observed_ok wanted) l
  | Err _ => ~ (NoDup (key_list (own_part (pre ++ l))) /\ Forall (observed_ok wanted) l)
  end.
Proof.
  revert st pre. induction l as [|v l IH]; intros st pre Hi; simpl; [by rewrite app_nil_r|].
  pose proof (index_observed_ok wanted st pre v Hi) as Hv.
  rewrite (cons_middle v pre l), app_assoc.
  destruct (index_observed wanted st v) as [st'|e]; simpl.
  - destruct Hv as [Hi' Hv]. specialize (IH st' (pre ++ [v]) Hi').
    destruct (try_for_each _ st' l); rewrite Forall_cons; naive_solver.
  - rewrite Forall_cons. unfold own_part, key_list in *. rewrite filter_app, fmap_app, NoDup_app. naive_solver.
Qed.

(** When a plan exists. *)
Definition syncable (desired observed : list V) : Prop :=
  Forall (fun v => ts_valid T v = Ok ()) desired /\
  NoDup (key_list desired) /\ NoDup (key_list (own_part observed)) /\
  forall v, v ∈ observed -> exists k, ts_canon T v = Ok k /\
    if decide (ts_owned T v) then ts_check T v = Ok () /\ k = ts_key T v
    else (k ∉ key_list desired) /\ k ∉ key_list (own_part observed).

Lemma sync_plan_spec desired observed :
  match sync_plan desired observed with
  | Ok (up, rm) => syncable desired observed /\
      exists wanted existing, indexes (ts_key T) wanted desired /\ indexes (ts_key T) existing (own_part observed) /\
        up = snd <$> List.filter (fun kv => negb (bool_decide (existing !! kv.1 = Some kv.2))) (iter_map wanted) /\
        rm = snd <$> List.filter (fun kv => bool_decide (wanted !! kv.1 = None)) (iter_map existing)
  | Err _ => ~ syncable desired observed
  end.
Proof.
  unfold sync_plan, syncable.
  pose proof (index_all (ts_key T) (ts_valid T) (err_duplicate T) ∅ [] desired (indexes_nil _)) as Hw.
  destruct (try_for_each (index_unique _ _ _) ∅ desired) as [w|e]; simpl in *; [|naive_solver].
  destruct Hw as [Hw Hval].
  assert (observed_inv (∅, ∅) []) as H00 by (split; [apply indexes_nil|simpl; set_solver]).
  pose proof (index_observed_all w (∅, ∅) [] observed H00) as Ho.
  destruct (try_for_each (index_observed w) (∅, ∅) observed) as [[ex fr]|e]; simpl in *.
  - destruct Ho as [[Hex Hfr] Hok]; simpl in *. rewrite Forall_forall in Hok.
    assert (existsb (fun k => bool_decide (k ∈ fr)) (keys ex) = true <->
      exists k, k ∈ fr /\ k ∈ key_list (own_part observed)) as Hconf.
    { rewrite existsb_exists. setoid_rewrite bool_decide_eq_true. setoid_rewrite <- list_elem_of_In.
      setoid_rewrite elem_of_keys. unfold key_list. setoid_rewrite list_elem_of_fmap.
      destruct Hex as [_ Hex]. split.
      - intros (k & [v Hv] & Hk). apply Hex in Hv as [Hv <-]. eauto.
      - intros (k & Hk & v & -> & Hv). exists (ts_key T v). split; [exists v; by apply Hex | done]. }
    destruct (existsb _ (keys ex)); simpl.
    + destruct Hconf as [Hconf _]. destruct Hconf as (k & Hk & Hin); [done|].
      intros (_ & _ & _ & Hall). apply Hfr in Hk as (v & Hv & Hfor & Hcan).
      destruct (Hall v Hv) as (k' & Hk' & Hcase). rewrite decide_False in Hcase by done.
      destruct Hcase as [_ Hcase]. rewrite Hcan in Hk'. injection Hk' as <-. done.
    + split; [|eauto 10]. split_and!; [done|apply Hw|apply Hex|].
      intros v Hv. destruct (Hok v Hv) as (k & Hk & Hcase). exists k. split; [done|].
      case_decide; [done|]. split; [by apply (indexes_None _ w)|].
      intros Hin. enough (false = true) by done. apply Hconf. exists k. split; [|done]. apply Hfr. eauto.
  - intros (_ & _ & Hnd & Hall). apply Ho. split; [done|]. apply Forall_forall. intros v Hv.
    destruct (Hall v Hv) as (k & Hk & Hcase). exists k. split; [done|].
    case_decide; [done|]. apply (indexes_None (ts_key T) w desired); [done | by destruct Hcase].
Qed.

(** The plan in terms of its inputs. *)
Record sync_plan_ok (desired observed : list V) (p : list V * list V) : Prop := {
  sp_inputs : syncable desired observed;
  sp_upsert v : v ∈ p.1 <-> v ∈ desired /\ v ∉ observed;
  sp_remove v : v ∈ p.2 <-> v ∈ observed /\ ts_owned T v /\ ts_key T v ∉ key_list desired;
  sp_upsert_sorted : StronglySorted ord_lt (key_list p.1);
  sp_remove_sorted : StronglySorted ord_lt (key_list p.2);
}.

Context (Hvalid : forall v, ts_valid T v = Ok () -> ts_owned T v).

Lemma sync_plan_is_ok desired observed p : sync_plan desired observed = Ok p -> sync_plan_ok desired observed p.
Proof.
  pose proof (sync_plan_spec desired observed) as Hspec. intros Hp. rewrite Hp in Hspec. destruct p as [up rm].
  destruct Hspec as (Hrec & w & ex & Hw & Hex & Hu & Hr).
  pose proof (fun k x => indexes_key _ w desired k x Hw) as Kw.
  pose proof (fun k x => indexes_key _ ex _ k x Hex) as Kex.
  split; simpl; [done| | |rewrite Hu; by apply selected_sorted|rewrite Hr; by apply selected_sorted].
  - intros v. rewrite Hu, (elem_of_selected (ts_key T)), (indexes_self _ w desired) by done. simpl.
    rewrite negb_true_iff, bool_decide_eq_false, (indexes_self _ _ _ _ Hex).
    unfold own_part. rewrite list_elem_of_filter. destruct Hrec as (Hval & _).
    rewrite Forall_forall in Hval. split; [|naive_solver].
    intros [Hin Hnin]. split; [done|]. intros Ho. apply Hnin. split; [by apply Hvalid, Hval|done].
  - intros v. rewrite Hr, (elem_of_selected (ts_key T)), (indexes_self _ _ _ _ Hex) by done. simpl.
    rewrite bool_decide_eq_true, (indexes_None _ _ _ _ Hw).
    unfold own_part. rewrite list_elem_of_filter. unfold key_list. naive_solver.
Qed.

Lemma sync_plan_spares_foreign desired observed p f v :
  sync_plan_ok desired observed p -> f ∈ observed -> ~ ts_owned T f -> v ∈ p.1 ++ p.2 ->
  ts_canon T f <> Ok (ts_key T v).
Proof.
  intros [(_ & _ & _ & Hall) Hu Hr _ _] Hf Hfor Hin Hcan.
  destruct (Hall f Hf) as (k & Hk & Hcase). rewrite decide_False in Hcase by done.
  rewrite Hcan in Hk. injection Hk as <-. destruct Hcase as [Hdes Hown].
  apply elem_of_app in Hin as [[Hin _]%Hu|(Hin & Ho & _)%Hr].
  - by apply Hdes, list_elem_of_fmap_2.
  - apply Hown, list_elem_of_fmap_2. by apply list_elem_of_filter.
Qed.

Lemma sync_plan_owned desired observed p :
  sync_plan_ok desired observed p -> Forall (ts_owned T) desired /\ Forall (ts_owned T) p.1 /\ Forall (ts_owned T) p.2.
Proof.
  intros [(Hval & _) Hu Hr _ _]. rewrite !Forall_forall in *. split_and!.
  - intros v Hin. by apply Hvalid, Hval.
  - intros v [Hin _]%Hu. by apply Hvalid, Hval.
  - intros v (_ & Ho & _)%Hr. done.
Qed.

End planner.

(** ** The effect of a plan on a table *)

Lemma filter_all {A : Type} (P : A -> Prop) `{forall x, Decision (P x)} (l : list A) : Forall P l -> filter P l = l.
Proof. induction 1 as [|x l Hx _ IH]; [done|]. by rewrite filter_cons_True, IH. Qed.

Lemma filter_none {A : Type} (P : A -> Prop) `{forall x, Decision (P x)} (l : list A) :
  Forall (fun x => ~ P x) l -> filter P l = [].
Proof. induction 1 as [|x l Hx _ IH]; [done|]. by rewrite filter_cons_False. Qed.

Lemma list_eq_nil {A : Type} (l : list A) : (forall x, ~ x ∈ l) -> l = [].
Proof. destruct l as [|x l]; [done|]. intros Hn. destruct (Hn x). by left. Qed.

Lemma foldl_perm {A : Type} (f : list A -> A -> list A) (l k xs : list A) :
  Proper ((≡ₚ) ==> (=) ==> (≡ₚ)) f -> l ≡ₚ k -> foldl f l xs ≡ₚ foldl f k xs.
Proof.
  intros Hf. revert l k. induction xs as [|x xs IH]; intros l k Hlk; simpl; [done|].
  apply IH. by apply Hf.
Qed.

Lemma filter_comm {A : Type} (P Q : A -> Prop) `{forall x, Decision (P x)} `{forall x, Decision (Q x)} (l : list A) :
  filter P (filter Q l) = filter Q (filter P l).
Proof. rewrite !list_filter_filter. apply list_filter_iff. naive_solver. Qed.

Lemma sorted_filter_dec {A : Type} (R : relation A) (P : A -> Prop) `{forall x, Decision (P x)} (l : list A) :
  StronglySorted R l -> StronglySorted R (filter P l).
Proof.
  induction 1 as [|x l Hs IH Hall]; [constructor|]. destruct (decide (P x)).
  - rewrite filter_cons_True by done. constructor; [done|]. rewrite Forall_forall in *.
    intros y [_ Hy]%list_elem_of_filter. auto.
  - by rewrite filter_cons_False.
Qed.

Lemma filter_complement_cons {A : Type} (P : A -> Prop) `{forall x, Decision (P x)} l x :
  filter P l = [x] -> l ≡ₚ x :: filter (fun r => ~ P r) l.
Proof. intros Hf. pose proof (filter_app_complement P l) as Hc. rewrite Hf in Hc. by symmetry. Qed.

Section effect.
Context {E K V : Type} `{EqDecision V} `{Countable K} `{RustOrd K} (T : TableSpec E K V).

Definition same_slot (new v : V) : Prop := ts_owned T v /\ ts_key T v = ts_key T new.
#[global] Instance same_slot_dec new v : Decision (same_slot new v).
Proof. unfold same_slot. apply _. Defined.

(** The expected observations after one change. *)
Definition put (observed : list V) (new : V) : list V := filter (fun v => ~ same_slot new v) observed ++ [new].
Definition drop_entry (observed : list V) (old : V) : list V := filter (fun v => v <> old) observed.
Definition apply_sync (p : list V * list V) (observed : list V) : list V :=
  foldl drop_entry (foldl put observed p.1) p.2.

#[global] Instance put_proper : Proper ((≡ₚ) ==> (=) ==> (≡ₚ)) put.
Proof. intros l k Hlk x y ->. unfold put. by rewrite Hlk. Qed.
#[global] Instance drop_entry_proper : Proper ((≡ₚ) ==> (=) ==> (≡ₚ)) drop_entry.
Proof. intros l k Hlk x y ->. unfold drop_entry. by rewrite Hlk. Qed.

Lemma put_split fo own new :
  Forall (fun v => ~ ts_owned T v) fo -> put (fo ++ own) new = fo ++ put own new.
Proof.
  intros Hf. unfold put. rewrite filter_app, <- app_assoc. f_equal.
  apply filter_all. rewrite Forall_forall in *. intros v Hv [Ho _]. by apply (Hf v).
Qed.

Lemma drop_split fo own old :
  Forall (fun v => ~ ts_owned T v) fo -> ts_owned T old -> drop_entry (fo ++ own) old = fo ++ drop_entry own old.
Proof.
  intros Hf Ho. unfold drop_entry. rewrite filter_app. f_equal.
  apply filter_all. rewrite Forall_forall in *. intros v Hv ->. by apply (Hf old).
Qed.

Lemma puts_split fo own news :
  Forall (fun v => ~ ts_owned T v) fo -> foldl put (fo ++ own) news = fo ++ foldl put own news.
Proof.
  intros Hf. revert own. induction news as [|x news IH]; intros own; simpl; [done|].
  by rewrite put_split, IH.
Qed.

Lemma drops_split fo own olds :
  Forall (fun v => ~ ts_owned T v) fo -> Forall (ts_owned T) olds ->
  foldl drop_entry (fo ++ own) olds = fo ++ foldl drop_entry own olds.
Proof.
  intros Hf Ho. revert own. induction Ho as [|x olds Hx Ho IH]; intros own; simpl; [done|].
  by rewrite drop_split, IH.
Qed.

(** What the owned part becomes, as long as keys are distinct. *)
Lemma puts_owned own news :
  Forall (ts_owned T) own -> Forall (ts_owned T) news ->
  NoDup (key_list T own) -> NoDup (key_list T news) ->
  let own' := foldl put own news in
  NoDup (key_list T own') /\
  forall v, v ∈ own' <-> v ∈ news \/ (v ∈ own /\ ts_key T v ∉ key_list T news).
Proof.
  intros Ho Hn Hnd. revert own Ho Hnd.
  induction Hn as [|x news Hx Hn IH]; intros own Ho Hnd Hnews; csimpl in *.
  { split; [done|]. intros v. rewrite !elem_of_nil. naive_solver. }
  apply NoDup_cons in Hnews as [Hxn Hnews]. rewrite Forall_forall in Ho.
  assert (forall v, v ∈ put own x <-> v = x \/ (v ∈ own /\ ts_key T v <> ts_key T x)) as Hel.
  { intros v. unfold put, same_slot. rewrite elem_of_app, list_elem_of_filter, list_elem_of_singleton.
    naive_solver. }
  destruct (IH (put own x)) as [Hnd' Hel'].
  - apply Forall_forall. intros v [-> |[Hv _]]%Hel; auto.
  - unfold put, key_list. rewrite fmap_app, NoDup_app. split_and!.
    + eapply sublist_NoDup; [exact Hnd|]. apply fmap_sublist, sublist_filter.
    + intros d (v & -> & [Hv Hown]%list_elem_of_filter)%list_elem_of_fmap Hd.
      apply list_elem_of_singleton in Hd. apply Hv. split; auto.
    + apply NoDup_singleton.
  - done.
  - split; [done|]. intros v. rewrite Hel', Hel, !elem_of_cons. split.
    + intros [?|[[->|[? ?]] ?]]; [by left; right|by left; left|]. right. naive_solver.
    + intros [[->|?]|[? Hnot]]; [right; auto|by left|]. right. naive_solver.
Qed.

Lemma drops_elem own olds v : v ∈ foldl drop_entry own olds <-> v ∈ own /\ v ∉ olds.
Proof.
  revert own. induction olds as [|x olds IH]; intros own; simpl; [rewrite elem_of_nil; naive_solver|].
  rewrite IH. unfold drop_entry. rewrite list_elem_of_filter, elem_of_cons. naive_solver.
Qed.

Lemma drops_NoDup own olds : NoDup (key_list T own) -> NoDup (key_list T (foldl drop_entry own olds)).
Proof.
  revert own. induction olds as [|x olds IH]; intros own Hnd; simpl; [done|].
  apply IH. eapply sublist_NoDup; [exact Hnd|]. apply fmap_sublist, sublist_filter.
Qed.

Lemma split_own l : l ≡ₚ foreign_part T l ++ own_part T l.
Proof.
  unfold foreign_part, own_part. rewrite (Permutation_app_comm (filter _ l)).
  symmetry. apply filter_app_complement.
Qed.

Lemma foreign_part_all l : Forall (fun v => ~ ts_owned T v) (foreign_part T l).
Proof. apply Forall_forall. by intros v [Hv _]%list_elem_of_filter. Qed.

Lemma own_part_all l : Forall (ts_owned T) (own_part T l).
Proof. apply Forall_forall. by intros v [Hv _]%list_elem_of_filter. Qed.

Context (Hvalid : forall v, ts_valid T v = Ok () -> ts_owned T v).

Lemma apply_sync_result desired observed p :
  sync_plan_ok T desired observed p -> apply_sync p observed ≡ₚ foreign_part T observed ++ desired.
Proof.
  intros Hp. destruct (sync_plan_owned T Hvalid _ _ _ Hp) as (Hdes & Hup & Hre).
  pose proof (foreign_part_all observed) as Hfor. pose proof (own_part_all observed) as Hown.
  destruct Hp as [(_ & Hnd & Hndo & _) Hu Hr Hsu _]. unfold apply_sync.
  rewrite (foldl_perm drop_entry _ _ p.2 _ (foldl_perm put _ _ p.1 _ (split_own observed))).
  rewrite puts_split, drops_split by done. apply Permutation_app_head.
  destruct (puts_owned (own_part T observed) p.1) as [Hnd' Hel]; try done.
  { by apply sorted_lt_NoDup. }
  apply NoDup_Permutation.
  - by eapply NoDup_fmap_1, drops_NoDup.
  - by eapply NoDup_fmap_1.
  - intros v. rewrite drops_elem, Hel, Hr, Hu. unfold own_part. rewrite list_elem_of_filter. split.
    + intros [[[Hd _]|[[Ho Hobs] Hnot]] Hnr]; [done|].
      destruct (decide (ts_key T v ∈ key_list T desired)) as [Hin|]; [|naive_solver].
      apply list_elem_of_fmap in Hin as (x & Hx & Hxd).
      destruct (decide (x ∈ observed)) as [Hxo|Hxo].
      * rewrite (key_inj (ts_key T) _ v x Hndo); try done; apply list_elem_of_filter; [done|].
        rewrite Forall_forall in Hdes. auto.
      * destruct Hnot. rewrite Hx. apply list_elem_of_fmap_2. by apply Hu.
    + intros Hd. assert (ts_key T v ∈ key_list T desired) by (by apply list_elem_of_fmap_2).
      rewrite Forall_forall in Hdes.
      split; [|naive_solver]. destruct (decide (v ∈ observed)) as [Ho|]; [right|by left].
      split; [auto|]. intros (x & Hx & [Hxd Hxo]%Hu)%list_elem_of_fmap.
      by rewrite (key_inj (ts_key T) _ v x Hnd) in Ho.
Qed.

(** An entry to remove is still there after the upserts. *)
Lemma removed_present desired obs p v :
  sync_plan_ok T desired obs p -> v ∈ p.2 -> v ∈ foldl put obs p.1.
Proof.
  intros Hp Hr. pose proof (sync_plan_owned T Hvalid _ _ _ Hp) as (_ & Hup & _).
  destruct Hp as [(_ & _ & Hnd & _) Hu Hrm Hsu _].
  apply Hrm in Hr as (Hobs & Ho & Hd).
  rewrite (foldl_perm put _ _ p.1 _ (split_own obs)).
  rewrite puts_split by apply foreign_part_all. apply elem_of_app. right.
  destruct (puts_owned (own_part T obs) p.1) as [_ Hel]; [apply own_part_all|done|done|by apply sorted_lt_NoDup|].
  apply Hel. right. split; [by apply list_elem_of_filter|].
  intros (x & Hx & [Hxd _]%Hu)%list_elem_of_fmap. apply Hd. rewrite Hx. by apply list_elem_of_fmap_2.
Qed.

(** *** Planning again *)

Context (Hself : forall v, ts_valid T v = Ok () -> ts_canon T v = Ok (ts_key T v) /\ ts_check T v = Ok ()).

Lemma syncable_perm desired l k : l ≡ₚ k -> syncable T desired l -> syncable T desired k.
Proof.
  intros Hp (Hv & Hd & Ho & Hall). unfold syncable, key_list, own_part in *.
  split_and!; try done; [by rewrite <- Hp|]. intros v Hin. rewrite <- Hp in Hin.
  destruct (Hall v Hin) as (d & Hcan & Hc). exists d. split; [done|]. case_decide; [done|].
  by rewrite <- Hp.
Qed.

Lemma own_part_split fo own :
  Forall (fun v => ~ ts_owned T v) fo -> Forall (ts_owned T) own -> own_part T (fo ++ own) = own.
Proof. intros Hf Ho. unfold own_part. by rewrite filter_app, (filter_all _ own), filter_none. Qed.

(** A synchronised table synchronises again, with nothing to do. *)
Lemma synced_again desired obs : syncable T desired obs -> syncable T desired (foreign_part T obs ++ desired).
Proof.
  intros (Hv & Hd & Ho & Hall).
  assert (Forall (ts_owned T) desired) as Hdo by (eapply Forall_impl; [exact Hv|apply Hvalid]).
  pose proof (foreign_part_all obs) as Hfo.
  unfold syncable. rewrite own_part_split by done. split_and!; try done.
  intros v [[Hf Hr]%list_elem_of_filter|Hr]%elem_of_app.
  - destruct (Hall v Hr) as (k & Hcan & Hc). exists k. split; [done|].
    rewrite decide_False in Hc |- * by done. by destruct Hc.
  - rewrite Forall_forall in Hv, Hdo. exists (ts_key T v). rewrite decide_True by auto.
    destruct (Hself v (Hv v Hr)) as [Hc Hk]. done.
Qed.

Lemma syncable_plan desired obs :
  syncable T desired obs -> exists p, sync_plan T desired obs = Ok p /\ sync_plan_ok T desired obs p.
Proof.
  intros Hr. pose proof (sync_plan_spec T desired obs) as Hs.
  destruct (sync_plan T desired obs) as [p|e] eqn:Hp; [|done].
  exists p. split; [done | by apply sync_plan_is_ok].
Qed.

(** Nothing to do on a table that has the desired entries. *)
Lemma synced_plan_empty desired obs p :
  sync_plan_ok T desired obs p -> Forall (fun v => v ∈ obs) desired ->
  Forall (fun v => v ∈ desired) (own_part T obs) -> p = ([], []).
Proof.
  intros [_ Hu Hr _ _] Hin Hown. rewrite Forall_forall in Hin, Hown. rewrite (surjective_pairing p). f_equal.
  - apply list_eq_nil. intros v [Hd Hn]%Hu. by apply Hn, Hin.
  - apply list_eq_nil. intros v (Ho & Hv & Hd)%Hr. apply Hd, list_elem_of_fmap_2, Hown.
    by apply list_elem_of_filter.
Qed.

End effect.

(** ** The executor *)

(** A table behind an interface: observation and conditional changes. *)
Class TableOperator (S E V : Type) := {
  observe_table : stres S E (list V);
  replace_entry : option V -> V -> stres S E ();
  remove_entry : V -> stres S E ();
}.

Section executor.
Context {S E K V : Type} `{TableOperator S E V} `{EqDecision V} `{RustOrd V} `{Countable K} `{RustOrd K}.
Context (T : TableSpec E K V) (err_stale err_put err_drop : E).
Context {P R C : Type} (plan : list V -> result E P) (ups rms : P -> list V) (cput cdrop : V -> C)
  (report : list C -> list V -> R).

Definition sort_table (l : list V) : list V := merge_sort ord_le l.

Lemma sort_table_perm l : sort_table l ≡ₚ l.
Proof. apply merge_sort_Permutation. Qed.

Lemma sort_table_sorted l : StronglySorted ord_le (sort_table l).
Proof. apply (StronglySorted_merge_sort _). Qed.

Lemma sort_table_unique l k : l ≡ₚ k -> sort_table l = sort_table k.
Proof.
  intros Hp. apply (StronglySorted_unique ord_le); [apply sort_table_sorted..|].
  by rewrite !sort_table_perm.
Qed.

Lemma sort_table_id l : StronglySorted ord_le l -> sort_table l = l.
Proof. intros Hl. apply (StronglySorted_unique ord_le); [apply sort_table_sorted|done|apply sort_table_perm]. Qed.

Lemma sort_table_twice l : sort_table (sort_table l) = sort_table l.
Proof. apply sort_table_id, sort_table_sorted. Qed.

Definition observe_sorted_table : stres S E (list V) := let! l := observe_table in st_ret (sort_table l).

Definition put_step (st : list V * list C) (new : V) : stres S E (list V * list C) :=
  let '(observed, applied) := st in
  let! actual := observe_sorted_table in
  if decide (actual = observed) then
    let previous := List.find (fun r => bool_decide (same_slot T new r)) observed in
    let! _ := replace_entry previous new in
    let! post := observe_sorted_table in
    if decide (post = sort_table (put T observed new))
    then st_ret (post, applied ++ [cput new])
    else st_fail err_put
  else st_fail err_stale.

Definition drop_step (st : list V * list C) (old : V) : stres S E (list V * list C) :=
  let '(observed, applied) := st in
  let! actual := observe_sorted_table in
  if decide (actual = observed) then
    let! _ := remove_entry old in
    let! post := observe_sorted_table in
    if decide (post = drop_entry observed old)
    then st_ret (post, applied ++ [cdrop old])
    else st_fail err_drop
  else st_fail err_stale.

Definition sync_execute : stres S E R :=
  let! observed := observe_table in
  let! p := st_lift (plan observed) in
  let! st := st_for_each put_step (sort_table observed, []) (ups p) in
  let! st := st_for_each drop_step st (rms p) in
  st_ret (report st.2 st.1).

(** [l], sorted, is the last thing the operator reported. *)
Definition last_observed (l : list V) (s : S) : Prop :=
  exists s0 k, observe_table s0 = (Ok k, s) /\ sort_table k = l.

Lemma observe_sorted_post (s : S) :
  st_post (fun _ => True) (fun l s' => last_observed l s' /\ sort_table l = l) observe_sorted_table s.
Proof.
  unfold st_post, observe_sorted_table, st_bind. destruct (observe_table s) as [[l|e] s'] eqn:Ho; [|done].
  simpl. split_and!; [done|by exists s, l|]. apply sort_table_twice.
Qed.

Definition progress (ch : V -> C) (f : list V -> V -> list V) (start : list V) (done : list C) (pre : list V)
    (st : list V * list C) (s : S) : Prop :=
  st.1 = sort_table (foldl f start pre) /\ st.2 = done ++ (ch <$> pre) /\ last_observed st.1 s.

Lemma put_step_post start pre new st s :
  progress cput (put T) start [] pre st s ->
  st_post (fun _ => True) (progress cput (put T) start [] (pre ++ [new])) (put_step st new) s.
Proof.
  destruct st as [obs app]. intros (Hobs & Happ & _); simpl in *. unfold put_step.
  eapply st_post_bind; [apply observe_sorted_post|]. intros actual s1 _ _. case_decide; [|done].
  eapply (st_post_bind _ (fun _ _ => True)); [unfold st_post; by destruct (replace_entry _ _ _) as [[] ?]|].
  intros _ s2 _ _. eapply st_post_bind; [apply observe_sorted_post|]. intros post s3 _ [Hlast _].
  case_decide as Hpost; [|done]. split; [done|]. split_and!; simpl.
  - rewrite Hpost, foldl_snoc, Hobs. apply sort_table_unique. by rewrite sort_table_perm.
  - by rewrite fmap_app, Happ.
  - done.
Qed.

Lemma drop_step_post start done pre old st s :
  progress cdrop drop_entry start done pre st s ->
  st_post (fun _ => True) (progress cdrop drop_entry start done (pre ++ [old])) (drop_step st old) s.
Proof.
  destruct st as [obs app]. intros (Hobs & Happ & _); simpl in *. unfold drop_step.
  eapply st_post_bind; [apply observe_sorted_post|]. intros actual s1 _ _. case_decide; [|done].
  eapply (st_post_bind _ (fun _ _ => True)); [unfold st_post; by destruct (remove_entry _ _) as [[] ?]|].
  intros _ s2 _ _. eapply st_post_bind; [apply observe_sorted_post|]. intros post s3 _ [Hlast Hsort].
  case_decide as Hpost; [|done]. split; [done|]. split_and!; simpl.
  - rewrite <- Hsort, Hpost, foldl_snoc, Hobs. apply sort_table_unique. by rewrite sort_table_perm.
  - by rewrite fmap_app, Happ, app_assoc.
  - done.
Qed.

Context (desired : list V) (Hvalid : forall v, ts_valid T v = Ok () -> ts_owned T v).
Context (Hplan : forall obs p, plan obs = Ok p -> sync_plan_ok T desired obs (ups p, rms p)).

Lemma sync_execute_post (s : S) :
  st_post (fun _ => True) (fun rep s' =>
    exists obs p s1, observe_table s = (Ok obs, s1) /\ plan obs = Ok p /\
      rep = report ((cput <$> ups p) ++ (cdrop <$> rms p)) (sort_table (foreign_part T obs ++ desired)) /\
      last_observed (sort_table (foreign_part T obs ++ desired)) s') sync_execute s.
Proof.
  unfold sync_execute.
  eapply (st_post_bind _ (fun l s1 => observe_table s = (Ok l, s1))).
  { unfold st_post. by destruct (observe_table s) as [[] ?]. }
  intros obs s1 _ Hobs.
  eapply (st_post_bind _ (fun p s2 => plan obs = Ok p /\ s2 = s1)).
  { unfold st_post, st_lift. by destruct (plan obs). }
  intros p s2 _ [Hp ->]. eapply st_post_bind.
  { apply (st_post_for_each _ (progress cput (put T) obs [])) with (pre := []); [|done|].
    - intros pre x t s' _ _. apply put_step_post.
    - split_and!; [done|done|]. by exists s, obs. }
  intros [mid app] s3 _ (Hmid & Happ & Hlast); simpl in *. eapply st_post_bind.
  { apply (st_post_for_each _ (progress cdrop drop_entry mid app)) with (pre := []); [|done|].
    - intros pre x t s' _ _. apply drop_step_post.
    - split_and!; simpl; [|by rewrite app_nil_r|done]. rewrite Hmid. by rewrite sort_table_twice. }
  intros [fin app'] s4 _ (Hfin & Happ' & Hlast'); simpl in *. split; [done|]. simpl.
  assert (fin = sort_table (foreign_part T obs ++ desired)) as ->.
  { rewrite Hfin. apply sort_table_unique. rewrite <- (apply_sync_result T Hvalid _ _ _ (Hplan _ _ Hp)).
    apply foldl_perm; [apply _|]. by rewrite Hmid, sort_table_perm. }
  exists obs, p, s1. split_and!; [done|done|by rewrite Happ', Happ|done].
Qed.

(** *** Which changes are requested *)

Definition keeps {A : Type} (I : S -> Prop) (m : stres S E A) : Prop := forall s, I s -> I (m s).2.

Lemma keeps_bind {A B : Type} I (m : stres S E A) (k : A -> stres S E B) :
  keeps I m -> (forall a, keeps I (k a)) -> keeps I (st_bind m k).
Proof.
  intros Hm Hk s Hs. specialize (Hm s Hs). unfold st_bind. destruct (m s) as [[a|e] s']; [|done].
  by apply Hk.
Qed.

Lemma keeps_lift {A B : Type} I (r : result E A) (k : A -> stres S E B) :
  (forall a, r = Ok a -> keeps I (k a)) -> keeps I (st_bind (st_lift r) k).
Proof. intros Hk s Hs. unfold st_bind, st_lift. destruct r as [a|e]; [by apply Hk | done]. Qed.

Lemma keeps_for_each {A X : Type} I (f : X -> A -> stres S E X) l :
  (forall t x, x ∈ l -> keeps I (f t x)) -> forall t, keeps I (st_for_each f t l).
Proof.
  induction l as [|x l IH]; intros Hf t; simpl; [by intros s|].
  apply keeps_bind; [apply Hf; by left|]. intros t'. apply IH. intros u y Hy. apply Hf. by right.
Qed.

Lemma sync_execute_keeps (I : S -> Prop) :
  keeps I observe_table ->
  (forall previous new, new ∈ desired -> ts_owned T new ->
     (forall r, previous = Some r -> ts_owned T r /\ ts_key T r = ts_key T new) -> keeps I (replace_entry previous new)) ->
  (forall old, ts_owned T old -> ts_key T old ∉ key_list T desired -> keeps I (remove_entry old)) ->
  keeps I sync_execute.
Proof.
  intros keeps_observe keeps_replace keeps_remove.
  assert (keeps I observe_sorted_table) as Hobs by (apply keeps_bind; [done|]; by intros a s).
  apply keeps_bind; [done|]. intros obs. apply keeps_lift. intros p Hp%Hplan.
  destruct (sync_plan_owned T Hvalid _ _ _ Hp) as (Hdes & _ & _). destruct Hp as [_ Hu Hr _ _]. simpl in Hu, Hr.
  rewrite Forall_forall in Hdes. apply keeps_bind; [|intros st; apply keeps_bind; [|by intros st' s]].
  - apply keeps_for_each. intros [observed applied] new Hnew. apply Hu in Hnew as [Hin _].
    apply keeps_bind; [done|]. intros actual. case_decide; [|by intros s].
    apply keeps_bind; [|intros ?; apply keeps_bind; [done|]; intros post; case_decide; by intros s].
    apply keeps_replace; [done|auto|]. intros r Hfind.
    apply List.find_some in Hfind as [_ Hsame%bool_decide_eq_true]. done.
  - apply keeps_for_each. intros [observed applied] old Hold. apply Hr in Hold as (_ & Ho & Hd).
    apply keeps_bind; [done|]. intros actual. case_decide; [|by intros s].
    apply keeps_bind; [|intros ?; apply keeps_bind; [done|]; intros post; case_decide; by intros s].
    by apply keeps_remove.
Qed.

End executor.

(** ** Progress over a lawful table *)

(** No entry of any owner stands, in canonical form, where [new] is to go. *)
Definition unoccupied {E K V : Type} (T : TableSpec E K V) (new : V) (l : list V) : Prop :=
  forall v, v ∈ l -> ts_canon T v <> Ok (ts_key T new).

(** What a faithful backend promises to the owner: an observation reports the
    table and leaves it, and a change whose precondition holds is made, and
    nothing else.  The preconditions are a compare-and-swap of ownership and of
    the key: a valid entry replaces an owned one with its key when nothing else
    stands there, is inserted when nothing at all does, and an owned entry is
    removed when it stands alone. *)
Class LawfulTable {S E K V : Type} `{TableOperator S E V} (T : TableSpec E K V) := {
  table_of : S -> list V;
  table_observe s : exists l s', observe_table s = (Ok l, s') /\ l ≡ₚ table_of s /\ table_of s' ≡ₚ table_of s;
  table_replace s old new rest :
    table_of s ≡ₚ old :: rest -> ts_owned T old -> ts_valid T new = Ok () -> ts_key T old = ts_key T new ->
    unoccupied T new rest ->
    exists s', replace_entry (Some old) new s = (Ok (), s') /\ table_of s' ≡ₚ new :: rest;
  table_insert s new :
    ts_valid T new = Ok () -> unoccupied T new (table_of s) ->
    exists s', replace_entry None new s = (Ok (), s') /\ table_of s' ≡ₚ new :: table_of s;
  table_remove s old rest :
    table_of s ≡ₚ old :: rest -> ts_owned T old -> old ∉ rest -> unoccupied T old rest ->
    exists s', remove_entry old s = (Ok (), s') /\ table_of s' ≡ₚ rest;
}.
Arguments table_of {S E K V _} T {_}.

Section lawful.
Context {S E K V : Type} `{TableOperator S E V} `{EqDecision V} `{RustOrd V} `{Countable K} `{RustOrd K}.
Context (T : TableSpec E K V) `{!LawfulTable T} (err_stale err_put err_drop : E).
Context (desired : list V) (Hvalid : forall v, ts_valid T v = Ok () -> ts_owned T v).
Context (Hself : forall v, ts_valid T v = Ok () -> ts_canon T v = Ok (ts_key T v) /\ ts_check T v = Ok ()).
Context {P R C : Type} (plan : list V -> result E P) (ups rms : P -> list V) (cput cdrop : V -> C)
  (report : list C -> list V -> R).

Abbreviation put_step := (put_step T err_stale err_put cput).
Abbreviation drop_step := (drop_step err_stale err_drop cdrop).
Abbreviation sync_execute := (sync_execute T err_stale err_put err_drop plan ups rms cput cdrop report).

Lemma singleton_filter (Q : V -> Prop) `{forall v, Decision (Q v)} l x :
  NoDup (key_list T (own_part T l)) -> (forall v, Q v -> ts_owned T v /\ ts_key T v = ts_key T x) ->
  x ∈ l -> Q x -> filter Q l = [x].
Proof.
  intros Hnd HQ Hx Qx.
  assert (forall y, y ∈ filter Q l -> y = x) as Hall.
  { intros y [Qy Hy]%list_elem_of_filter. destruct (HQ _ Qx) as [Hox _], (HQ _ Qy) as [Hoy Hd].
    apply (key_inj (ts_key T) _ _ _ Hnd); try done; by apply list_elem_of_filter. }
  assert (NoDup (filter Q l)) as Hnd'.
  { apply NoDup_fmap_1 in Hnd. eapply sublist_NoDup; [exact Hnd|]. clear -HQ.
    induction l as [|y l IH]; [done|]. unfold own_part in *.
    destruct (decide (Q y)) as [Qy|Qy].
    - rewrite !filter_cons_True by (try apply HQ; done). by constructor.
    - rewrite filter_cons_False by done. destruct (decide (ts_owned T y)).
      + rewrite filter_cons_True by done. by constructor.
      + by rewrite filter_cons_False. }
  assert (x ∈ filter Q l) as Hin by (by apply list_elem_of_filter).
  destruct (filter Q l) as [|a [|b k]].
  - by apply elem_of_nil in Hin.
  - f_equal. apply Hall. by left.
  - exfalso. apply NoDup_cons in Hnd' as [Hn _]. apply Hn.
    rewrite (Hall a), (Hall b) by set_solver. by left.
Qed.

Lemma observe_sorted_run s obs :
  table_of T s ≡ₚ obs -> exists s', observe_sorted_table s = (Ok (sort_table obs), s') /\ table_of T s' ≡ₚ obs.
Proof.
  intros Hs. unfold observe_sorted_table, st_bind. destruct (table_observe (T:=T) s) as (l & s' & -> & Hl & Hs').
  exists s'. split; [|by rewrite Hs']. unfold st_ret. do 2 f_equal.
  apply sort_table_unique. by rewrite Hl.
Qed.

(** What stands where a desired entry goes is the owner's, with its key. *)
Definition settled (obs : list V) : Prop :=
  forall v new, v ∈ obs -> new ∈ desired -> ts_canon T v = Ok (ts_key T new) -> same_slot T new v.

Lemma syncable_settled obs : syncable T desired obs -> settled obs.
Proof.
  intros (_ & _ & _ & Hall) v new Hv Hnew Hcan. destruct (Hall v Hv) as (k & Hk & Hc).
  rewrite Hcan in Hk. injection Hk as <-. case_decide as Ho.
  - split; [done|]. symmetry. apply Hc.
  - destruct Hc as [[] _]. unfold key_list. by apply list_elem_of_fmap_2.
Qed.

Lemma settled_perm obs obs' : obs ≡ₚ obs' -> settled obs -> settled obs'.
Proof. intros Hp Hs v new Hv. apply Hs. by rewrite Hp. Qed.

Lemma put_settled obs x : x ∈ desired -> ts_valid T x = Ok () -> settled obs -> settled (put T obs x).
Proof.
  intros Hx Hv Hs v new Hin Hnew Hcan. unfold put in Hin.
  apply elem_of_app in Hin as [[_ Hin]%list_elem_of_filter|Hin]; [by apply Hs|].
  apply list_elem_of_singleton in Hin as ->.
  destruct (Hself x Hv) as [Hcx _]. rewrite Hcx in Hcan. injection Hcan as Hk. split; [by apply Hvalid|done].
Qed.

(** Nothing else stands where an owned entry does. *)
Definition apart (obs : list V) : Prop :=
  forall v w, v ∈ obs -> w ∈ obs -> ts_owned T w -> ts_canon T v = Ok (ts_key T w) -> v = w.

Lemma syncable_apart obs : syncable T desired obs -> apart obs.
Proof.
  intros (_ & _ & Hnd & Hall) v w Hv Hw Ho Hcan. destruct (Hall v Hv) as (k & Hk & Hc).
  rewrite Hcan in Hk. injection Hk as <-. case_decide as Hov.
  - apply (key_inj (ts_key T) _ _ _ Hnd); [by apply list_elem_of_filter..|]. symmetry. apply Hc.
  - destruct Hc as [_ []]. unfold key_list, own_part. apply list_elem_of_fmap_2. by apply list_elem_of_filter.
Qed.

Lemma apart_perm obs obs' : obs ≡ₚ obs' -> apart obs -> apart obs'.
Proof. intros Hp Ha v w Hv Hw. rewrite <- Hp in Hv, Hw. by apply Ha. Qed.

Lemma put_apart obs x : x ∈ desired -> ts_valid T x = Ok () -> settled obs -> apart obs -> apart (put T obs x).
Proof.
  intros Hx Hval Hs Ha v w Hv Hw Ho Hcan. unfold put in Hv, Hw. destruct (Hself x Hval) as [Hcx _].
  apply elem_of_app in Hv as [[Hnv Hv]%list_elem_of_filter|Hv], Hw as [[Hnw Hw]%list_elem_of_filter|Hw];
    rewrite ?list_elem_of_singleton in *; subst; [by apply Ha| | |done].
  - by destruct Hnv; apply Hs.
  - rewrite Hcx in Hcan. injection Hcan as Hk. by destruct Hnw.
Qed.

(** The operator's answer to the change [put] stands for. *)
Lemma replace_run s obs new :
  table_of T s ≡ₚ obs -> new ∈ desired -> ts_valid T new = Ok () -> settled obs -> NoDup (key_list T (own_part T obs)) ->
  exists s', replace_entry (List.find (fun r => bool_decide (same_slot T new r)) obs) new s = (Ok (), s') /\
    table_of T s' ≡ₚ put T obs new.
Proof.
  intros Hs Hin Hv Hset Hnd. unfold put. destruct (List.find _ obs) as [old|] eqn:Hfind.
  - apply List.find_some in Hfind as [Hold Hsame%bool_decide_eq_true].
    apply list_elem_of_In in Hold. destruct Hsame as [Ho Hd].
    assert (filter (same_slot T new) obs = [old]) as Hf.
    { apply singleton_filter; [done| |done|done]. intros r [? ?]. split; [done|congruence]. }
    apply filter_complement_cons in Hf.
    destruct (table_replace s old new (filter (fun r => ~ same_slot T new r) obs))
      as (s2 & Hrun & Hres); [by rewrite Hs|done..| |].
    { intros v [Hn Hr]%list_elem_of_filter Hcan. by apply Hn, Hset. }
    exists s2. split; [done|]. rewrite Hres. apply Permutation_cons_append.
  - assert (forall r, r ∈ obs -> ~ same_slot T new r) as Hnone.
    { intros r Hr Hsame. pose proof (List.find_none _ _ Hfind r (proj1 (list_elem_of_In _ _) Hr)) as Hb.
      simpl in Hb. by rewrite bool_decide_eq_false in Hb. }
    destruct (table_insert s new Hv) as (s2 & Hrun & Hres).
    { intros r Hr Hcan. rewrite Hs in Hr. by apply (Hnone r Hr), Hset. }
    exists s2. split; [done|]. rewrite Hres, Hs, filter_all by (by apply Forall_forall).
    apply Permutation_cons_append.
Qed.

Lemma put_step_run s obs applied new :
  sort_table obs = obs -> table_of T s ≡ₚ obs -> new ∈ desired -> ts_valid T new = Ok () -> settled obs ->
  NoDup (key_list T (own_part T obs)) ->
  exists s', put_step (obs, applied) new s = (Ok (sort_table (put T obs new), applied ++ [cput new]), s') /\
    table_of T s' ≡ₚ put T obs new.
Proof.
  intros Hsort Hs Hin Hv Hset Hnd. unfold TableSync.put_step, st_bind.
  destruct (observe_sorted_run s obs Hs) as (s1 & -> & Hs1). rewrite Hsort, decide_True by done.
  destruct (replace_run s1 obs new Hs1 Hin Hv Hset Hnd) as (s2 & -> & Hs2).
  destruct (observe_sorted_run s2 _ Hs2) as (s3 & -> & Hs3). rewrite decide_True by done. eauto.
Qed.

Lemma drop_sorted (obs : list V) old : sort_table obs = obs -> sort_table (drop_entry obs old) = drop_entry obs old.
Proof.
  intros Hs. apply sort_table_id. unfold drop_entry. apply sorted_filter_dec.
  rewrite <- Hs. apply sort_table_sorted.
Qed.

Lemma drops_sorted (obs olds : list V) :
  sort_table obs = obs -> sort_table (foldl drop_entry obs olds) = foldl drop_entry obs olds.
Proof.
  revert obs. induction olds as [|x olds IH]; intros obs Hs; simpl; [done|].
  by apply IH, drop_sorted.
Qed.

Lemma drop_step_run s obs applied old :
  sort_table obs = obs -> table_of T s ≡ₚ obs -> ts_owned T old -> old ∈ obs -> apart obs ->
  NoDup (key_list T (own_part T obs)) ->
  exists s', drop_step (obs, applied) old s = (Ok (drop_entry obs old, applied ++ [cdrop old]), s') /\
    table_of T s' ≡ₚ drop_entry obs old.
Proof.
  intros Hsort Hs Hold Hin Hapart Hnd. unfold TableSync.drop_step, st_bind.
  destruct (observe_sorted_run s obs Hs) as (s1 & -> & Hs1). rewrite Hsort, decide_True by done.
  assert (filter (fun r => r = old) obs = [old]) as Hf.
  { apply singleton_filter; [done| |done|done]. by intros r ->. }
  apply filter_complement_cons in Hf.
  destruct (table_remove (T:=T) s1 old (drop_entry obs old)) as (s2 & -> & Hs2); [by rewrite Hs1|done| | |].
  { intros [Hne _]%list_elem_of_filter. by destruct Hne. }
  { intros v [Hne Hv]%list_elem_of_filter Hcan. by apply Hne, Hapart. }
  destruct (observe_sorted_run s2 _ Hs2) as (s3 & -> & Hs3).
  rewrite drop_sorted, decide_True by done. eauto.
Qed.

Lemma put_keeps_distinct obs new :
  ts_owned T new -> NoDup (key_list T (own_part T obs)) -> NoDup (key_list T (own_part T (put T obs new))).
Proof.
  intros Ho Hnd.
  assert (own_part T (put T obs new) = put T (own_part T obs) new) as ->.
  { unfold own_part, put. rewrite filter_app, filter_cons_True, filter_nil by done. f_equal. apply filter_comm. }
  destruct (puts_owned T (own_part T obs) [new]) as [Hnd' _]; [| |done| |done].
  - apply own_part_all.
  - by constructor.
  - apply NoDup_singleton.
Qed.

Lemma distinct_perm obs obs' :
  obs ≡ₚ obs' -> NoDup (key_list T (own_part T obs)) -> NoDup (key_list T (own_part T obs')).
Proof. unfold key_list, own_part. by intros ->. Qed.

Lemma puts_run news s obs applied :
  sort_table obs = obs -> table_of T s ≡ₚ obs -> Forall (fun v => v ∈ desired /\ ts_valid T v = Ok ()) news ->
  settled obs -> apart obs -> NoDup (key_list T (own_part T obs)) ->
  exists s' obs', st_for_each put_step (obs, applied) news s = (Ok (obs', applied ++ (cput <$> news)), s') /\
    sort_table obs' = obs' /\ table_of T s' ≡ₚ obs' /\ obs' ≡ₚ foldl (put T) obs news /\
    apart obs' /\ NoDup (key_list T (own_part T obs')).
Proof.
  intros Hsort Hs Hn. revert s obs applied Hsort Hs.
  induction Hn as [|x news [Hx Hv] Hn IH]; intros s obs applied Hsort Hs Hset Hapart Hnd.
  - exists s, obs. simpl. rewrite app_nil_r. done.
  - cbn [st_for_each]. unfold st_bind. destruct (put_step_run s obs applied x) as (s1 & -> & Hs1); try done.
    destruct (IH s1 (sort_table (put T obs x)) (applied ++ [cput x])) as (s' & obs' & -> & Ho & Hs' & Hp & Ha & Hd).
    + apply sort_table_twice.
    + by rewrite sort_table_perm.
    + eapply settled_perm; [symmetry; apply sort_table_perm|]. by apply put_settled.
    + eapply apart_perm; [symmetry; apply sort_table_perm|]. by apply put_apart.
    + eapply distinct_perm; [symmetry; apply sort_table_perm|]. apply put_keeps_distinct; [by apply Hvalid|done].
    + exists s', obs'. rewrite <- app_assoc. split_and!; try done. rewrite Hp. cbn [foldl].
      apply foldl_perm; [apply _|apply sort_table_perm].
Qed.

Lemma drops_run olds s obs applied :
  sort_table obs = obs -> table_of T s ≡ₚ obs -> Forall (ts_owned T) olds -> NoDup olds ->
  Forall (fun r => r ∈ obs) olds -> apart obs -> NoDup (key_list T (own_part T obs)) ->
  exists s', st_for_each drop_step (obs, applied) olds s =
      (Ok (foldl drop_entry obs olds, applied ++ (cdrop <$> olds)), s') /\
    table_of T s' ≡ₚ foldl drop_entry obs olds.
Proof.
  intros Hsort Hs Hn. revert s obs applied Hsort Hs.
  induction Hn as [|x olds Hx Hn IH]; intros s obs applied Hsort Hs Hnd Hin Hapart Hdist.
  - exists s. simpl. rewrite app_nil_r. done.
  - apply NoDup_cons in Hnd as [Hxn Hnd]. apply Forall_cons in Hin as [Hxin Hin].
    cbn [st_for_each]. unfold st_bind. destruct (drop_step_run s obs applied x) as (s1 & -> & Hs1); try done.
    destruct (IH s1 (drop_entry obs x) (applied ++ [cdrop x])) as (s' & -> & Hs'); try done.
    + by apply drop_sorted.
    + rewrite Forall_forall in *. intros r Hr. apply list_elem_of_filter. split; [|auto]. by intros ->.
    + intros v w [_ Hv]%list_elem_of_filter [_ Hw]%list_elem_of_filter. by apply Hapart.
    + unfold drop_entry, own_part. rewrite filter_comm.
      eapply sublist_NoDup; [exact Hdist|]. apply fmap_sublist, sublist_filter.
    + exists s'. rewrite <- app_assoc. done.
Qed.

Context (Hplan : forall obs p, plan obs = Ok p -> sync_plan_ok T desired obs (ups p, rms p)).
Context (Htotal : forall obs, syncable T desired obs -> exists p, plan obs = Ok p).

Lemma sync_execute_run (s : S) :
  syncable T desired (table_of T s) ->
  exists obs p s', obs ≡ₚ table_of T s /\ sync_plan_ok T desired obs (ups p, rms p) /\
    sync_execute s = (Ok (report ((cput <$> ups p) ++ (cdrop <$> rms p))
                                 (sort_table (foreign_part T (table_of T s) ++ desired))), s') /\
    table_of T s' ≡ₚ foreign_part T (table_of T s) ++ desired.
Proof.
  intros Hrec. unfold TableSync.sync_execute, st_bind, st_lift.
  destruct (table_observe (T:=T) s) as (obs & s1 & -> & Hobs & Hs1).
  destruct (Htotal obs) as [p Hp]; [eapply syncable_perm; [symmetry; exact Hobs | exact Hrec]|].
  rewrite Hp. apply Hplan in Hp.
  exists obs, p. pose proof (apply_sync_result T Hvalid _ _ _ Hp) as Hres.
  pose proof (sync_plan_owned T Hvalid _ _ _ Hp) as (_ & Hup & Hre). pose proof (sp_inputs _ _ _ _ Hp) as (_ & _ & Hnd & _).
  destruct (puts_run (ups p) s1 (sort_table obs) []) as (s2 & mid & -> & Hmid & Hs2 & Hfold & Hapart & Hdist).
  { apply sort_table_twice. } { by rewrite sort_table_perm, Hs1, Hobs. }
  { apply Forall_forall. intros v [Hv _]%(sp_upsert _ _ _ _ Hp). split; [done|].
    destruct Hrec as [Hd _]. rewrite Forall_forall in Hd. by apply Hd. }
  { eapply settled_perm; [|by apply syncable_settled]. by rewrite sort_table_perm, Hobs. }
  { eapply apart_perm; [|by apply syncable_apart]. by rewrite sort_table_perm, Hobs. }
  { eapply distinct_perm; [symmetry; apply sort_table_perm | exact Hnd]. }
  destruct (drops_run (rms p) s2 mid (cput <$> ups p)) as (s3 & Hrun & Hs3); try done.
  { apply (NoDup_fmap_1 (ts_key T)), sorted_lt_NoDup, (sp_remove_sorted _ _ _ _ Hp). }
  { apply Forall_forall. intros r Hr. rewrite Hfold, (foldl_perm _ _ _ _ _ (sort_table_perm obs)).
    by apply (removed_present T Hvalid desired _ _ _ Hp). }
  simpl app. rewrite Hrun. exists s3.
  assert (foldl drop_entry mid (rms p) ≡ₚ foreign_part T (table_of T s) ++ desired) as Hfin.
  { unfold foreign_part in *. rewrite <- Hobs, <- Hres. unfold apply_sync. simpl.
    rewrite (foldl_perm _ _ _ _ _ Hfold). apply foldl_perm; [apply _|].
    apply foldl_perm; [apply _|apply sort_table_perm]. }
  split_and!; [done|done| |by rewrite Hs3].
  unfold st_ret. do 3 f_equal. rewrite <- (sort_table_unique _ _ Hfin). symmetry.
  by apply drops_sorted.
Qed.

(** One execution synchronises the table, and the next has nothing to do. *)
Lemma sync_execute_converges (s : S) :
  syncable T desired (table_of T s) ->
  exists applied s' l, sync_execute s = (Ok (report applied l), s') /\
    l = sort_table (foreign_part T (table_of T s) ++ desired) /\
    table_of T s' ≡ₚ foreign_part T (table_of T s) ++ desired /\
    exists s'', sync_execute s' = (Ok (report [] l), s'') /\ table_of T s'' ≡ₚ table_of T s'.
Proof.
  intros Hrec. destruct (sync_execute_run s Hrec) as (obs & p & s' & Hobs & Hp & Hrun & Hs').
  eexists _, s', _. split; [exact Hrun|]. split; [done|]. split; [done|].
  assert (syncable T desired (table_of T s')) as Hrec'.
  { eapply syncable_perm; [symmetry; exact Hs' | by apply (synced_again T Hvalid Hself)]. }
  destruct (sync_execute_run s' Hrec') as (obs' & p' & s'' & Hobs' & Hp' & Hrun' & Hs'').
  exists s''. pose proof (sync_plan_owned T Hvalid _ _ _ Hp) as (Hdo & _ & _).
  assert (foreign_part T (table_of T s') ≡ₚ foreign_part T (table_of T s)) as Hfor.
  { unfold foreign_part in *. rewrite Hs', filter_app, (filter_none _ desired), app_nil_r.
    - by rewrite list_filter_filter_l.
    - eapply Forall_impl; [exact Hdo|]. naive_solver. }
  assert ((ups p', rms p') = ([], [])) as [= Hu Hr].
  { apply (synced_plan_empty T desired obs' _ Hp').
    - apply Forall_forall. intros v Hv. rewrite Hobs', Hs', elem_of_app. by right.
    - apply Forall_forall. intros v Hv. unfold own_part in Hv.
      rewrite Hobs', Hs', filter_app in Hv. rewrite filter_none in Hv by apply foreign_part_all.
      simpl in Hv. by apply list_elem_of_filter in Hv as [_ ?]. }
  rewrite Hrun', Hu, Hr. simpl. split; [|by rewrite Hs'', Hfor, Hs'].
  do 3 f_equal. apply sort_table_unique. by rewrite Hfor.
Qed.

End lawful.

(** ** A table with compare-and-swap, in memory *)

Record table (V : Type) := mkTable { entries : list V }.
Arguments mkTable {V} _.
Arguments entries {V} _.

Section memory_table.
Context {E V : Type} `{EqDecision V} (err_changed : E).

Fixpoint take_out (r : V) (l : list V) : option (list V) :=
  match l with
  | [] => None
  | x :: l' => if decide (x = r) then Some l' else cons x <$> take_out r l'
  end.

Definition swap (old : V) (new : list V) : stres (table V) E () := fun t =>
  match take_out old (entries t) with
  | Some rest => (Ok (), mkTable (new ++ rest))
  | None => (Err err_changed, t)
  end.

(** [new] goes where [previous] was and nothing else stands. *)
Definition table_put (err_exists : E) (same : V -> V -> bool) (previous : option V) (new : V) : stres (table V) E () := fun t =>
  match previous with
  | Some old =>
      match take_out old (entries t) with
      | Some rest => if existsb (same new) rest then (Err err_exists, t) else (Ok (), mkTable (new :: rest))
      | None => (Err err_changed, t)
      end
  | None => if existsb (same new) (entries t) then (Err err_exists, t) else (Ok (), mkTable (new :: entries t))
  end.

Lemma take_out_perm r l rest : l ≡ₚ r :: rest -> exists k, take_out r l = Some k /\ k ≡ₚ rest.
Proof.
  intros Hp. assert (exists k, take_out r l = Some k /\ l ≡ₚ r :: k) as (k & Hk & Hl).
  { assert (r ∈ l) as Hin by (rewrite Hp; by left). clear Hp. induction l as [|x l IH]; simpl.
    - by apply elem_of_nil in Hin.
    - case_decide as Hx; [subst; eauto|]. destruct IH as (k & -> & Hk); [set_solver|].
      exists (x :: k). split; [done|]. rewrite Hk. apply Permutation_swap. }
  exists k. split; [done|]. apply (Permutation_cons_inv (a := r)). by rewrite <- Hl.
Qed.

Lemma take_out_Some r l k : take_out r l = Some k -> l ≡ₚ r :: k.
Proof.
  revert k. induction l as [|x l IH]; intros k; simpl; [done|]. case_decide as Hx.
  - intros [= <-]. by subst.
  - intros (k' & Hk & ->)%fmap_Some. rewrite (IH k' Hk). apply Permutation_swap.
Qed.

Lemma swap_law t old rest new :
  entries t ≡ₚ old :: rest -> exists t', swap old new t = (Ok (), t') /\ entries t' ≡ₚ new ++ rest.
Proof.
  intros Hp. unfold swap. destruct (take_out_perm _ _ _ Hp) as (k & -> & Hk).
  eexists. split; [done|]. simpl. by rewrite Hk.
Qed.

Lemma existsb_all_false (f : V -> bool) l : (forall r, r ∈ l -> f r = false) -> existsb f l = false.
Proof.
  intros Hno. destruct (existsb f l) eqn:Hex; [|done].
  apply existsb_exists in Hex as (r & Hr%list_elem_of_In & Hb). by rewrite Hno in Hb.
Qed.

Lemma table_put_fresh err_exists same t new :
  (forall r, r ∈ entries t -> same new r = false) -> table_put err_exists same None new t = (Ok (), mkTable (new :: entries t)).
Proof. intros Hno. unfold table_put. by rewrite existsb_all_false. Qed.

Lemma table_put_over err_exists same t old new rest :
  entries t ≡ₚ old :: rest -> (forall r, r ∈ rest -> same new r = false) ->
  exists t', table_put err_exists same (Some old) new t = (Ok (), t') /\ entries t' ≡ₚ new :: rest.
Proof.
  intros Hp Hno. unfold table_put. destruct (take_out_perm _ _ _ Hp) as (k & -> & Hk).
  rewrite existsb_all_false by (intros r; rewrite Hk; apply Hno). eexists. split; [done|]. simpl. by rewrite Hk.
Qed.

Lemma swap_keeps_others (Q : V -> Prop) `{forall v, Decision (Q v)} old new t :
  ~ Q old -> Forall (fun v => ~ Q v) new -> filter Q (entries (swap old new t).2) ≡ₚ filter Q (entries t).
Proof.
  intros Ho Hn. unfold swap. destruct (take_out old (entries t)) as [k|] eqn:Hk; [|done].
  apply take_out_Some in Hk. simpl. rewrite Hk, filter_app, (filter_none _ new) by done.
  by rewrite filter_cons_False.
Qed.

Lemma put_keeps_others err_exists same (Q : V -> Prop) `{forall v, Decision (Q v)} previous new t :
  ~ Q new -> (forall old, previous = Some old -> ~ Q old) ->
  filter Q (entries (table_put err_exists same previous new t).2) ≡ₚ filter Q (entries t).
Proof.
  intros Hn Ho. unfold table_put. destruct previous as [old|].
  - destruct (take_out old (entries t)) as [k|] eqn:Hk; [|done]. apply take_out_Some in Hk.
    destruct (existsb _ k); [done|]. simpl. rewrite Hk, !filter_cons_False; [done| |done]. by apply Ho.
  - destruct (existsb _ _); [done|]. simpl. by rewrite filter_cons_False.
Qed.

End memory_table.
