(* ===== verification/Ident.v ===== *)
(** Errors, identifiers and display names: [crates/blueroute-core/src/error.rs]
    and [id.rs].

    Byte strings are lists of [Z]; a fixed-size array [[u8; n]] is a list that
    carries the (boolean, hence proof-irrelevant) fact that it has [n] elements
    in range.  The macro [define_id!] makes four distinct types with the same
    body: here one record indexed by a tag.  A [&str] is its list of Unicode
    scalar values when the code iterates [chars], and its list of UTF-8 bytes
    when the code indexes [as_bytes]. *)

From S2P Require Import Prelude Order.

(** ** error.rs *)

Inductive ErrorKind :=
| UnsupportedRuntime | MissingAdapter | AdapterDisabled | CapabilityUnavailable
| BluezUnavailable | NetworkBackendUnavailable | PairingFailed | AuthenticationFailed
| PanFailure | AddressConflict | RouteFailure | TopologyFailure | ProtocolError
| InvalidState | InvalidInput | PersistenceError | Internal.

#[global] Instance ErrorKind_eq_dec : EqDecision ErrorKind.
Proof. solve_decision. Defined.

(** [ErrorKind::is_retryable_transport_failure] *)
Definition is_retryable_transport_failure (k : ErrorKind) : bool :=
  match k with
  | BluezUnavailable | NetworkBackendUnavailable | PanFailure => true
  | _ => false
  end.

(** The message of a formatted error is its format string. *)
Record CoreError := mkCoreError {
  kind : ErrorKind;
  message : string;
  diagnostic : option string;
}.

#[global] Instance CoreError_eq_dec : EqDecision CoreError.
Proof. solve_decision. Defined.

Definition core_error (k : ErrorKind) (m : string) : CoreError := mkCoreError k m None.
Definition core_error_with_diagnostic (k : ErrorKind) (m d : string) : CoreError :=
  mkCoreError k m (Some d).

Abbreviation CoreResult := (result CoreError).

(** ** Fixed-size byte arrays *)

Definition bytes_okb (n : nat) (l : list Z) : bool :=
  (length l =? n)%nat && forallb (u_ok 8) l.

Record bytes (n : nat) := mkBytes {
  bytes_list : list Z;
  bytes_ok : Is_true (bytes_okb n bytes_list);
}.
Arguments mkBytes {n} _ _.
Arguments bytes_list {n} _.
Arguments bytes_ok {n} _.

Lemma bytes_list_inj {n : nat} (x y : bytes n) : bytes_list x = bytes_list y -> x = y.
Proof.
  destruct x as [l Hl], y as [k Hk]; simpl. intros ->. f_equal. apply proof_irrel.
Qed.

#[global] Instance bytes_eq_dec (n : nat) : EqDecision (bytes n).
Proof.
  intros x y. destruct (decide (bytes_list x = bytes_list y)) as [H|H].
  - left. by apply bytes_list_inj.
  - right. by intros ->.
Defined.

(** The checked conversion from a slice. *)
Definition bytes_of_list (n : nat) (l : list Z) : option (bytes n) :=
  match decide (Is_true (bytes_okb n l)) with
  | left H => Some (mkBytes l H)
  | right _ => None
  end.

Lemma bytes_of_list_Some (n : nat) (x : bytes n) : bytes_of_list n (bytes_list x) = Some x.
Proof.
  unfold bytes_of_list. destruct (decide _) as [H|H]; [|by destruct x].
  f_equal. by apply bytes_list_inj.
Qed.

#[global] Program Instance bytes_countable (n : nat) : Countable (bytes n) :=
  inj_countable bytes_list (bytes_of_list n) _.
Next Obligation. intros n x. apply bytes_of_list_Some. Qed.

#[global] Instance bytes_ord (n : nat) : RustOrd (bytes n) :=
  ord_via bytes_list bytes_list_inj.

Lemma bytes_length {n : nat} (x : bytes n) : length (bytes_list x) = n.
Proof.
  destruct x as [l Hl]; simpl. apply Is_true_true, andb_true_iff in Hl as [Hl _].
  by apply Nat.eqb_eq.
Qed.

Lemma bytes_range {n : nat} (x : bytes n) : Forall (fun b => 0 <= b < 256)%Z (bytes_list x).
Proof.
  destruct x as [l Hl]; simpl. apply Is_true_true, andb_true_iff in Hl as [_ Hl].
  apply Forall_forall. intros b Hb. rewrite forallb_forall in Hl.
  specialize (Hl b (proj1 (list_elem_of_In _ _) Hb)). apply u_ok_spec in Hl.
  unfold u_max in Hl. lia.
Qed.

(** [iter().all(|byte| *byte == 0)] *)
Definition all_zero {n : nat} (x : bytes n) : bool := forallb (Z.eqb 0) (bytes_list x).

(** ** id.rs: identifiers *)

Inductive IdTag := TNode | TNetwork | TLink | TSegment.

Definition ID_BYTES : nat := 16.
Definition ID_HEX_CHARS : nat := ID_BYTES * 2.

Record Id (t : IdTag) := from_bytes { as_bytes : bytes ID_BYTES }.
Arguments from_bytes {t} _.
Arguments as_bytes {t} _.

Abbreviation NodeId := (Id TNode).
Abbreviation NetworkId := (Id TNetwork).
Abbreviation LinkId := (Id TLink).
Abbreviation SegmentId := (Id TSegment).

Lemma as_bytes_inj {t : IdTag} (x y : Id t) : as_bytes x = as_bytes y -> x = y.
Proof. destruct x, y; simpl; congruence. Qed.

#[global] Instance Id_eq_dec (t : IdTag) : EqDecision (Id t).
Proof. solve_decision. Defined.
#[global] Program Instance Id_countable (t : IdTag) : Countable (Id t) :=
  inj_countable as_bytes (fun b => Some (from_bytes b)) _.
Next Obligation. by intros t []. Qed.
#[global] Instance Id_ord (t : IdTag) : RustOrd (Id t) := ord_via as_bytes as_bytes_inj.

(** [from_bytes([v; 16])] *)
Abbreviation fill_bytes n v := (mkBytes (n:=n) (replicate n v%Z) I).
Abbreviation fill_id v := (from_bytes (fill_bytes ID_BYTES v)).

Definition zero_id {t : IdTag} : Id t := fill_id 0.

Lemma all_zero_spec {n : nat} (x : bytes n) :
  all_zero x = true <-> bytes_list x = replicate n 0%Z.
Proof.
  unfold all_zero. rewrite forallb_forall. split.
  - intros Hall. symmetry. apply replicate_as_Forall. split; [apply bytes_length|].
    apply Forall_forall. intros b Hb. apply Z.eqb_eq, Hall, list_elem_of_In, Hb.
  - intros -> b Hb%list_elem_of_In%elem_of_replicate. by destruct Hb as [-> _].
Qed.

Lemma all_zero_id {t : IdTag} (x : Id t) : all_zero (as_bytes x) = true <-> x = zero_id.
Proof.
  rewrite all_zero_spec. split; [|by intros ->].
  intros H. apply as_bytes_inj, bytes_list_inj. by rewrite H.
Qed.

(** *** Hexadecimal text *)

(** [b"0123456789abcdef"[n]] *)
Definition hex_digit (n : Z) : Z := if (n <? 10)%Z then (48 + n)%Z else (87 + n)%Z.

Fixpoint encode_hex (l : list Z) : list Z :=
  match l with
  | [] => []
  | b :: l' => hex_digit (Z.shiftr b 4) :: hex_digit (Z.land b 15) :: encode_hex l'
  end.

Definition decode_nibble (v : Z) : option Z :=
  if (48 <=? v)%Z && (v <=? 57)%Z then Some (v - 48)%Z
  else if (97 <=? v)%Z && (v <=? 102)%Z then Some (v - 97 + 10)%Z
  else if (65 <=? v)%Z && (v <=? 70)%Z then Some (v - 65 + 10)%Z
  else None.

Definition non_hex : CoreError := core_error InvalidInput "identifier contains non-hexadecimal data".

(** The loop over [bytes.iter_mut().enumerate()], two input bytes a step. *)
Fixpoint decode_pairs (nibble : Z -> option Z) (input : list Z) : option (list Z) :=
  match input with
  | hi :: lo :: rest =>
      h ← nibble hi; l ← nibble lo; bs ← decode_pairs nibble rest;
      Some (Z.lor (Z.shiftl h 4) l :: bs)
  | _ => Some []
  end.

Definition decode_hex (value : list Z) : CoreResult (bytes ID_BYTES) :=
  guard_err (negb (length value =? ID_HEX_CHARS)%nat)
    (core_error InvalidInput
       "identifier must contain exactly {ID_HEX_CHARS} hexadecimal characters")
  (bs ← ok_or (decode_pairs decode_nibble value) non_hex;
   ok_or (bytes_of_list ID_BYTES bs) non_hex).

(** [Display] (and [Serialize]) and [FromStr] (and [Deserialize]). *)
Definition id_to_string {t : IdTag} (x : Id t) : list Z := encode_hex (bytes_list (as_bytes x)).
Definition id_from_str {t : IdTag} (value : list Z) : CoreResult (Id t) :=
  b ← decode_hex value; Ok (from_bytes b).

(** ** id.rs: display names *)

(** [char::is_control]: the Unicode category Cc. *)
Definition is_control (c : Z) : bool := (c <=? 31)%Z || ((127 <=? c)%Z && (c <=? 159)%Z).

(** [char::is_whitespace]: the Unicode property White_Space. *)
Definition is_whitespace (c : Z) : bool :=
  ((9 <=? c)%Z && (c <=? 13)%Z) || (c =? 32)%Z || (c =? 133)%Z || (c =? 160)%Z
  || (c =? 5760)%Z || ((8192 <=? c)%Z && (c <=? 8202)%Z) || (c =? 8232)%Z
  || (c =? 8233)%Z || (c =? 8239)%Z || (c =? 8287)%Z || (c =? 12288)%Z.

Fixpoint trim_start (l : list Z) : list Z :=
  match l with
  | c :: l' => if is_whitespace c then trim_start l' else l
  | [] => []
  end.
(** [str::trim] *)
Definition trim (l : list Z) : list Z := reverse (trim_start (reverse (trim_start l))).

(** The characters [DisplayName::new] refuses: U+061C, U+200E, U+200F,
    U+2028 to U+202E, U+2066 to U+2069 and the control characters. *)
Definition unsafe_char (c : Z) : bool :=
  is_control c || (c =? 1564)%Z || (c =? 8206)%Z || (c =? 8207)%Z
  || ((8232 <=? c)%Z && (c <=? 8238)%Z) || ((8294 <=? c)%Z && (c <=? 8297)%Z).

Record DisplayName := mkDisplayName { display_str : list Z }.

#[global] Instance DisplayName_eq_dec : EqDecision DisplayName.
Proof. solve_decision. Defined.

Definition DISPLAY_MAX_CHARS : nat := 64.

Definition display_name_new (value : list Z) : CoreResult DisplayName :=
  guard_err (existsb unsafe_char value)
    (core_error InvalidInput
       "display name contains control or bidirectional formatting characters")
  (let trimmed := trim value in
   let char_count := length trimmed in
   guard_err (char_count =? 0)%nat
     (core_error InvalidInput "display name cannot be empty")
   (guard_err (DISPLAY_MAX_CHARS <? char_count)%nat
      (core_error InvalidInput "display name cannot exceed {} characters")
    (Ok (mkDisplayName trimmed)))).

(** ** Facts about hexadecimal text *)

Definition is_hex_byte (v : Z) : bool := if decode_nibble v is Some _ then true else false.
Definition ascii_lower (v : Z) : Z := if (65 <=? v)%Z && (v <=? 90)%Z then (v + 32)%Z else v.

Lemma decode_nibble_spec v n :
  decode_nibble v = Some n -> (0 <= n < 16)%Z /\ hex_digit n = ascii_lower v.
Proof.
  unfold decode_nibble, hex_digit, ascii_lower.
  repeat case_match; intros [= <-]; lia.
Qed.

Lemma decode_hex_digit n : (0 <= n < 16)%Z -> decode_nibble (hex_digit n) = Some n.
Proof.
  intros Hn. unfold decode_nibble, hex_digit.
  repeat case_match; first [f_equal; lia | exfalso; lia].
Qed.

Lemma nibble_join h l :
  (0 <= h < 16)%Z -> (0 <= l < 16)%Z ->
  let b := Z.lor (Z.shiftl h 4) l in
  (0 <= b < 256)%Z /\ Z.shiftr b 4 = h /\ Z.land b 15 = l.
Proof.
  intros Hh Hl.
  assert (forallb (fun h => forallb (fun l =>
    let b := Z.lor (Z.shiftl h 4) l in
    (0 <=? b)%Z && (b <? 256)%Z && (Z.shiftr b 4 =? h)%Z && (Z.land b 15 =? l)%Z)
    (seqZ 0 16)) (seqZ 0 16) = true) as Hall by (vm_compute; reflexivity).
  rewrite forallb_forall in Hall.
  specialize (Hall h ltac:(apply list_elem_of_In, elem_of_seqZ; lia)).
  rewrite forallb_forall in Hall.
  specialize (Hall l ltac:(apply list_elem_of_In, elem_of_seqZ; lia)).
  simpl in *. lia.
Qed.

Lemma nibble_split b :
  (0 <= b < 256)%Z ->
  (0 <= Z.shiftr b 4 < 16)%Z /\ (0 <= Z.land b 15 < 16)%Z /\
  Z.lor (Z.shiftl (Z.shiftr b 4) 4) (Z.land b 15) = b.
Proof.
  intros Hb.
  assert (forallb (fun b =>
    (0 <=? Z.shiftr b 4)%Z && (Z.shiftr b 4 <? 16)%Z && (0 <=? Z.land b 15)%Z
    && (Z.land b 15 <? 16)%Z && (Z.lor (Z.shiftl (Z.shiftr b 4) 4) (Z.land b 15) =? b)%Z)
    (seqZ 0 256) = true) as Hall by (vm_compute; reflexivity).
  rewrite forallb_forall in Hall.
  specialize (Hall b ltac:(apply list_elem_of_In, elem_of_seqZ; lia)). lia.
Qed.

Lemma decode_encode_pairs l :
  Forall (fun b => 0 <= b < 256)%Z l -> decode_pairs decode_nibble (encode_hex l) = Some l.
Proof.
  induction 1 as [|b l Hb _ IH]; simpl; [done|].
  destruct (nibble_split b Hb) as (Hh & Hlo & Hj).
  rewrite !decode_hex_digit by done. simpl. rewrite IH. simpl. by rewrite Hj.
Qed.

Lemma length_encode_hex l : length (encode_hex l) = length l * 2.
Proof. induction l; simpl; lia. Qed.

(** Decoding an even number of bytes: exactly the hexadecimal texts decode, and
    encoding the outcome gives the text back in lower case. *)
Lemma decode_pairs_spec n value :
  length value = n * 2 ->
  match decode_pairs decode_nibble value with
  | Some bs => Forall (fun v => is_hex_byte v = true) value /\
      Forall (fun b => 0 <= b < 256)%Z bs /\ length bs = n /\
      encode_hex bs = map ascii_lower value
  | None => Exists (fun v => is_hex_byte v = false) value
  end.
Proof.
  revert value. induction n as [|n IH]; intros value Hlen.
  { destruct value; [simpl; by auto | simpl in Hlen; lia]. }
  destruct value as [|hi [|lo value]]; [simpl in Hlen; lia .. |].
  specialize (IH value ltac:(simpl in Hlen; lia)). simpl.
  destruct (decode_nibble hi) as [h|] eqn:Hh; simpl; [|left; unfold is_hex_byte; by rewrite Hh].
  destruct (decode_nibble lo) as [l|] eqn:Hl; simpl;
    [|right; left; unfold is_hex_byte; by rewrite Hl].
  destruct (decode_pairs decode_nibble value) as [bs|]; simpl; [|by do 2 right].
  destruct IH as (Hhex & Hb & <- & Henc).
  destruct (decode_nibble_spec _ _ Hh) as [Hhr Hhd], (decode_nibble_spec _ _ Hl) as [Hlr Hld].
  destruct (nibble_join h l Hhr Hlr) as (Hr & -> & ->).
  repeat split; [| by constructor | by rewrite Hhd, Hld, Henc].
  repeat constructor; [by unfold is_hex_byte; rewrite Hh | by unfold is_hex_byte; rewrite Hl | done].
Qed.

Lemma bytes_of_list_wf (n : nat) (l : list Z) :
  length l = n -> Forall (fun b => 0 <= b < 256)%Z l ->
  exists x, bytes_of_list n l = Some x /\ bytes_list x = l.
Proof.
  intros Hlen Hr. unfold bytes_of_list. destruct (decide _) as [H|H]; [by eexists|].
  destruct H. apply Is_true_true, andb_true_iff. split; [by apply Nat.eqb_eq|].
  apply forallb_forall. intros b Hb%list_elem_of_In. rewrite Forall_forall in Hr.
  apply u_ok_spec. specialize (Hr b Hb). simpl in Hr. unfold u_max. lia.
Qed.

(** Parsing is total and exact: a text parses to an identifier precisely
    when it has 32 bytes, all hexadecimal digits of either case, and the
    identifier is then the one whose canonical lower-case text it spells. *)
Theorem id_from_str_exact {t : IdTag} (value : list Z) (x : Id t) :
  id_from_str value = Ok x <->
  length value = ID_HEX_CHARS /\ Forall (fun v => is_hex_byte v = true) value /\
  id_to_string x = map ascii_lower value.
Proof.
  unfold id_from_str, decode_hex. rewrite result_bind_Ok. split.
  - intros (b & [Hlen (bs & Hbs%ok_or_Ok & Hb%ok_or_Ok)%result_bind_Ok]%guard_err_Ok & [= <-]).
    apply negb_false_iff, Nat.eqb_eq in Hlen.
    pose proof (decode_pairs_spec ID_BYTES value Hlen) as Hspec. rewrite Hbs in Hspec.
    destruct Hspec as (Hhex & Hr & Hl & Henc).
    destruct (bytes_of_list_wf _ _ Hl Hr) as (b' & Hb' & <-). simplify_eq. done.
  - intros (Hlen & Hhex & Hstr).
    pose proof (decode_pairs_spec ID_BYTES value Hlen) as Hspec.
    destruct (decode_pairs decode_nibble value) as [bs|] eqn:Hbs; simpl.
    + destruct Hspec as (_ & Hr & Hl & Henc).
      destruct (bytes_of_list_wf _ _ Hl Hr) as (b' & Hb' & Hl').
      exists b'. split.
      { apply guard_err_Ok. split; [by rewrite Hlen|]. simpl. by rewrite Hb'. }
      f_equal. destruct x as [b]; f_equal. apply bytes_list_inj.
      rewrite <- Henc in Hstr. apply (f_equal (decode_pairs decode_nibble)) in Hstr.
      unfold id_to_string in Hstr; simpl in Hstr.
      rewrite !decode_encode_pairs in Hstr by (apply bytes_range || done). congruence.
    + exfalso. apply Exists_exists in Hspec as (v & Hv & Hf).
      rewrite Forall_forall in Hhex. specialize (Hhex v Hv). simpl in *. congruence.
Qed.

(** Printing an identifier and parsing the text gives the identifier back
    (the serialization round trip). *)
Theorem id_string_roundtrip {t : IdTag} (x : Id t) : id_from_str (id_to_string x) = Ok x.
Proof.
  unfold id_from_str, decode_hex, id_to_string.
  rewrite length_encode_hex, bytes_length, decode_encode_pairs by apply bytes_range.
  simpl. rewrite bytes_of_list_Some. by destruct x.
Qed.

(** ** Facts about display names *)

Lemma trim_start_spec l :
  exists ws, l = ws ++ trim_start l /\ Forall (fun c => is_whitespace c = true) ws /\
    (forall c l', trim_start l = c :: l' -> is_whitespace c = false).
Proof.
  induction l as [|c l (ws & Hl & Hws & Hhd)]; simpl; [by exists []|].
  destruct (is_whitespace c) eqn:Hc.
  - exists (c :: ws). simpl. rewrite <- Hl. split; [done|]. split; [by constructor|done].
  - exists []. split; [done|]. split; [done|]. by intros ? ? [= <- <-].
Qed.

Lemma trim_start_id l :
  (forall c l', l = c :: l' -> is_whitespace c = false) -> trim_start l = l.
Proof. destruct l as [|c l]; simpl; [done|]. intros H. by rewrite (H c l). Qed.

(** [trim] removes exactly a prefix and a suffix of whitespace. *)
Lemma trim_spec l :
  exists pre post, l = pre ++ trim l ++ post /\
    Forall (fun c => is_whitespace c = true) pre /\
    Forall (fun c => is_whitespace c = true) post /\
    (forall c l', trim l = c :: l' -> is_whitespace c = false) /\
    (forall c l', trim l = l' ++ [c] -> is_whitespace c = false).
Proof.
  unfold trim.
  destruct (trim_start_spec l) as (pre & Hl & Hpre & Hhd).
  destruct (trim_start_spec (reverse (trim_start l))) as (post & Hr & Hpost & Htl).
  set (mid := trim_start (reverse (trim_start l))) in *.
  assert (trim_start l = reverse mid ++ reverse post) as Hts.
  { rewrite <- reverse_app, <- Hr. by rewrite reverse_involutive. }
  exists pre, (reverse post). split; [by rewrite <- Hts|]. split; [done|].
  split; [by apply Forall_reverse|]. split.
  - intros c l' Hm. apply (Hhd c (l' ++ reverse post)). by rewrite Hts, Hm.
  - intros c l' Hm. apply (Htl c (reverse l')).
    apply (f_equal reverse) in Hm. by rewrite reverse_involutive, reverse_snoc in Hm.
Qed.

Lemma trim_idemp l : trim (trim l) = trim l.
Proof.
  destruct (trim_spec l) as (_ & _ & _ & _ & _ & Hhd & Htl).
  unfold trim at 1. rewrite (trim_start_id (trim l)) by done.
  rewrite trim_start_id, reverse_involutive; [done|].
  intros c l' Hc. apply (Htl c (reverse l')).
  apply (f_equal reverse) in Hc. by rewrite reverse_involutive, reverse_cons in Hc.
Qed.

Lemma trim_existsb (p : Z -> bool) l : existsb p l = false -> existsb p (trim l) = false.
Proof.
  destruct (trim_spec l) as (pre & post & Hl & _). rewrite Hl at 1.
  rewrite !existsb_app. intros H. apply orb_false_iff in H as [_ H].
  by apply orb_false_iff in H as [H _].
Qed.

(** What every [DisplayName] satisfies. *)
Definition display_name_ok (n : DisplayName) : Prop :=
  let s := display_str n in
  1 <= length s <= DISPLAY_MAX_CHARS /\ existsb unsafe_char s = false /\ trim s = s.

(** A display name built from untrusted text is between 1 and 64
    characters, has no control or bidirectional formatting character and no
    outer whitespace; it is accepted exactly when the raw text has no such
    character anywhere (outer whitespace included) and its trimmed form has an
    admissible length; and reading a stored name back gives the same name. *)
Theorem display_name_new_exact (value : list Z) (n : DisplayName) :
  (display_name_new value = Ok n <->
     existsb unsafe_char value = false /\ 1 <= length (trim value) <= DISPLAY_MAX_CHARS /\
     n = mkDisplayName (trim value)) /\
  (display_name_new value = Ok n ->
     display_name_ok n /\ display_name_new (display_str n) = Ok n).
Proof.
  assert (forall v m, display_name_new v = Ok m <->
     existsb unsafe_char v = false /\ 1 <= length (trim v) <= DISPLAY_MAX_CHARS /\
     m = mkDisplayName (trim v)) as Hiff.
  { intros v m. unfold display_name_new. rewrite !guard_err_Ok, Nat.eqb_neq, Nat.ltb_ge.
    naive_solver lia. }
  split; [apply Hiff|]. intros (Hu & Hlen & ->)%Hiff. unfold display_name_ok; simpl.
  rewrite Hiff, trim_idemp. auto 10 using trim_existsb.
Qed.
