(* ===== verification/StateText.v ===== *)
(** Text of the durable state files: UTF-8, lines and tab-separated fields.

    A [&str] is its list of UTF-8 bytes.  The functions here are the Rust
    standard library's as the state files use them ([String::from_utf8],
    [str::lines], [str::split], [str::push_str]), with the inversion lemmas the
    formats share. *)

From S2P Require Import Prelude Ident.

#[local] Ltac Zify.zify_post_hook ::= Z.div_mod_to_equations.

(** ** UTF-8 *)

Definition in_range (lo hi c : Z) : bool := (lo <=? c)%Z && (c <=? hi)%Z.

(** A [char]: a Unicode scalar value. *)
Definition is_scalar (c : Z) : bool := in_range 0 55295 c || in_range 57344 1114111 c.

Definition utf8_char (c : Z) : list Z :=
  if (c <? 128)%Z then [c]
  else if (c <? 2048)%Z then [192 + c / 64; 128 + c mod 64]%Z
  else if (c <? 65536)%Z then [224 + c / 4096; 128 + c / 64 mod 64; 128 + c mod 64]%Z
  else [240 + c / 262144; 128 + c / 4096 mod 64; 128 + c / 64 mod 64; 128 + c mod 64]%Z.

(** [str::as_bytes] of a string given by its [chars]. *)
Definition utf8_encode (s : list Z) : list Z := concat (utf8_char <$> s).

(** The second byte a lead byte admits: no overlong form, no surrogate, nothing
    above U+10FFFF. *)
Definition second_ok (lead b : Z) : bool :=
  if (lead =? 224)%Z then in_range 160 191 b
  else if (lead =? 237)%Z then in_range 128 159 b
  else if (lead =? 240)%Z then in_range 144 191 b
  else if (lead =? 244)%Z then in_range 128 143 b
  else in_range 128 191 b.
Definition continuation (b : Z) : bool := in_range 128 191 b.

Definition utf8_next (l : list Z) : option (Z * list Z) :=
  match l with
  | a :: l1 =>
    if in_range 0 127 a then Some (a, l1)
    else match l1 with
    | b :: l2 =>
      if in_range 194 223 a then
        if continuation b then Some ((a - 192) * 64 + (b - 128), l2)%Z else None
      else match l2 with
      | c :: l3 =>
        if in_range 224 239 a then
          if second_ok a b && continuation c
          then Some ((a - 224) * 4096 + (b - 128) * 64 + (c - 128), l3)%Z else None
        else match l3 with
        | d :: l4 =>
          if in_range 240 244 a && second_ok a b && continuation c && continuation d
          then Some ((a - 240) * 262144 + (b - 128) * 4096 + (c - 128) * 64 + (d - 128), l4)%Z else None
        | [] => None
        end
      | [] => None
      end
    | [] => None
    end
  | [] => None
  end.

Fixpoint utf8_decode_fuel (fuel : nat) (l : list Z) : option (list Z) :=
  match fuel, l with
  | _, [] => Some []
  | S fuel', _ => p ← utf8_next l; s ← utf8_decode_fuel fuel' p.2; Some (p.1 :: s)
  | O, _ => None
  end.

(** [String::from_utf8]: the [chars] of valid text. *)
Definition utf8_decode (l : list Z) : option (list Z) := utf8_decode_fuel (length l) l.

Lemma in_range_spec lo hi c : in_range lo hi c = true <-> (lo <= c <= hi)%Z.
Proof. unfold in_range. rewrite andb_true_iff, !Z.leb_le. lia. Qed.
Lemma in_range_false lo hi c : in_range lo hi c = false <-> (c < lo \/ hi < c)%Z.
Proof. rewrite <- not_true_iff_false, in_range_spec. lia. Qed.

Ltac range_cases :=
  repeat match goal with
  | |- context [in_range ?lo ?hi ?c] =>
      let H := fresh "Hr" in destruct (in_range lo hi c) eqn:H;
      [apply in_range_spec in H | apply in_range_false in H]
  | |- context [(?a =? ?b)%Z] => destruct (Z.eqb_spec a b)
  | |- context [(?a <? ?b)%Z] => destruct (Z.ltb_spec a b)
  end; cbn [andb orb].

Lemma is_scalar_spec c : is_scalar c = true <-> (0 <= c <= 55295 \/ 57344 <= c <= 1114111)%Z.
Proof. unfold is_scalar. rewrite orb_true_iff, !in_range_spec. lia. Qed.

Lemma utf8_char_bytes c : is_scalar c = true -> Forall (fun b => 0 <= b < 256)%Z (utf8_char c).
Proof.
  rewrite is_scalar_spec. intros Hc. unfold utf8_char. range_cases; repeat constructor; lia.
Qed.

Lemma utf8_encode_bytes s :
  Forall (fun c => is_scalar c = true) s -> Forall (fun b => 0 <= b < 256)%Z (utf8_encode s).
Proof.
  induction 1 as [|c s Hc _ IH]; [constructor|]. unfold utf8_encode in *. cbn.
  apply Forall_app. split; [by apply utf8_char_bytes|done].
Qed.

Lemma second_ok_spec a b c :
  is_scalar c = true ->
  ((2048 <= c < 65536 /\ a = 224 + c / 4096 /\ b = 128 + c / 64 mod 64) \/
   (65536 <= c /\ a = 240 + c / 262144 /\ b = 128 + c / 4096 mod 64))%Z -> second_ok a b = true.
Proof. rewrite is_scalar_spec. intros Hc Hab. unfold second_ok. range_cases; lia. Qed.

Lemma utf8_next_char c l : is_scalar c = true -> utf8_next (utf8_char c ++ l) = Some (c, l).
Proof.
  intros Hc. pose proof (second_ok_spec) as Hsec. pose proof (proj1 (is_scalar_spec c) Hc) as Hr.
  unfold utf8_char. range_cases; cbn [app utf8_next].
  - by rewrite (proj2 (in_range_spec 0 127 c)) by lia.
  - rewrite (proj2 (in_range_false 0 127 _)), (proj2 (in_range_spec 194 223 _)) by lia. unfold continuation.
    rewrite (proj2 (in_range_spec 128 191 _)) by lia. do 2 f_equal. lia.
  - rewrite (proj2 (in_range_false 0 127 _)), (proj2 (in_range_false 194 223 _)), (proj2 (in_range_spec 224 239 _)) by lia.
    rewrite (Hsec _ _ c) by (done || lia). unfold continuation.
    rewrite (proj2 (in_range_spec 128 191 _)) by lia. cbn [andb]. do 2 f_equal. lia.
  - rewrite (proj2 (in_range_false 0 127 _)), (proj2 (in_range_false 194 223 _)), (proj2 (in_range_false 224 239 _)),
      (proj2 (in_range_spec 240 244 _)) by lia.
    rewrite (Hsec _ _ c) by (done || lia). unfold continuation.
    rewrite !(proj2 (in_range_spec 128 191 _)) by lia. cbn [andb]. do 2 f_equal. lia.
Qed.

Lemma utf8_char_sound_2 a b :
  (194 <= a <= 223 -> 128 <= b <= 191 ->
   let c := (a - 192) * 64 + (b - 128) in is_scalar c = true /\ [a; b] = utf8_char c)%Z.
Proof.
  intros Ha Hb c. subst c. rewrite is_scalar_spec. split; [lia|].
  unfold utf8_char. range_cases; [lia| |lia..]. f_equal; [lia|f_equal; lia].
Qed.

Lemma utf8_char_sound_3 a b c :
  (224 <= a <= 239)%Z -> second_ok a b = true -> (128 <= c <= 191)%Z ->
  let s := ((a - 224) * 4096 + (b - 128) * 64 + (c - 128))%Z in is_scalar s = true /\ [a; b; c] = utf8_char s.
Proof.
  intros Ha Hb Hc s.
  assert (2048 <= s < 65536 /\ (s <= 55295 \/ 57344 <= s) /\ 128 <= b <= 191)%Z as (Hs & Hsc & Hb').
  { subst s. revert Hb. unfold second_ok. range_cases; intros [=]; lia. }
  rewrite is_scalar_spec. split; [lia|]. unfold utf8_char. range_cases; try lia.
  subst s. f_equal; [lia|f_equal; [lia|f_equal; lia]].
Qed.

Lemma utf8_char_sound_4 a b c d :
  (240 <= a <= 244)%Z -> second_ok a b = true -> (128 <= c <= 191)%Z -> (128 <= d <= 191)%Z ->
  let s := ((a - 240) * 262144 + (b - 128) * 4096 + (c - 128) * 64 + (d - 128))%Z in
  is_scalar s = true /\ [a; b; c; d] = utf8_char s.
Proof.
  intros Ha Hb Hc Hd s.
  assert (65536 <= s <= 1114111 /\ 128 <= b <= 191)%Z as [Hs Hb'].
  { subst s. revert Hb. unfold second_ok. range_cases; intros [=]; lia. }
  rewrite is_scalar_spec. split; [lia|]. unfold utf8_char. range_cases; try lia.
  subst s. f_equal; [lia|f_equal; [lia|f_equal; [lia|f_equal; lia]]].
Qed.

Lemma utf8_next_sound l c l' : utf8_next l = Some (c, l') -> is_scalar c = true /\ l = utf8_char c ++ l'.
Proof.
  unfold utf8_next, continuation. destruct l as [|a l1]; [done|].
  destruct (in_range 0 127 a) eqn:Ha0.
  { apply in_range_spec in Ha0. intros [= <- <-]. rewrite is_scalar_spec. split; [lia|].
    unfold utf8_char. destruct (Z.ltb_spec a 128); [done|lia]. }
  destruct l1 as [|b l2]; [done|]. destruct (in_range 194 223 a) eqn:Ha1.
  { destruct (in_range 128 191 b) eqn:Hb; [|done]. apply in_range_spec in Ha1, Hb. intros [= <- <-].
    destruct (utf8_char_sound_2 a b Ha1 Hb) as [? <-]. done. }
  destruct l2 as [|c2 l3]; [done|]. destruct (in_range 224 239 a) eqn:Ha2.
  { destruct (second_ok a b) eqn:Hb; [|done]. destruct (in_range 128 191 c2) eqn:Hc; [|done].
    apply in_range_spec in Ha2, Hc. intros [= <- <-].
    destruct (utf8_char_sound_3 a b c2 Ha2 Hb Hc) as [? <-]. done. }
  destruct l3 as [|d l4]; [done|]. destruct (in_range 240 244 a) eqn:Ha3; [|done].
  destruct (second_ok a b) eqn:Hb; [|done]. destruct (in_range 128 191 c2) eqn:Hc; [|done].
  destruct (in_range 128 191 d) eqn:Hd; [|done]. apply in_range_spec in Ha3, Hc, Hd. intros [= <- <-].
  destruct (utf8_char_sound_4 a b c2 d Ha3 Hb Hc Hd) as [? <-]. done.
Qed.

Lemma utf8_char_nonempty c : exists b l, utf8_char c = b :: l.
Proof. unfold utf8_char. range_cases; by eexists _, _. Qed.

Lemma utf8_decode_fuel_encode s fuel :
  Forall (fun c => is_scalar c = true) s -> length s <= fuel -> utf8_decode_fuel fuel (utf8_encode s) = Some s.
Proof.
  intros Hs. revert fuel. induction Hs as [|c s Hc _ IH]; intros fuel Hf; [by destruct fuel|].
  destruct fuel as [|fuel]; [simpl in Hf; lia|]. simpl in Hf.
  change (utf8_encode (c :: s)) with (utf8_char c ++ utf8_encode s).
  pose proof (utf8_next_char c (utf8_encode s) Hc) as Hn.
  destruct (utf8_char_nonempty c) as (b & l & Hbl). rewrite Hbl in *. cbn [app utf8_decode_fuel] in *.
  rewrite Hn. cbn. by rewrite IH by lia.
Qed.

Lemma length_utf8_encode s : length s <= length (utf8_encode s).
Proof.
  induction s as [|c s IH]; [done|]. change (utf8_encode (c :: s)) with (utf8_char c ++ utf8_encode s).
  destruct (utf8_char_nonempty c) as (b & l & ->). rewrite length_app. simpl. lia.
Qed.

Lemma utf8_decode_encode s : Forall (fun c => is_scalar c = true) s -> utf8_decode (utf8_encode s) = Some s.
Proof. intros Hs. apply utf8_decode_fuel_encode; [done|apply length_utf8_encode]. Qed.

Lemma utf8_decode_sound l s :
  utf8_decode l = Some s -> Forall (fun c => is_scalar c = true) s /\ utf8_encode s = l.
Proof.
  unfold utf8_decode. generalize (length l) as fuel. intros fuel. revert l s.
  induction fuel as [|fuel IH]; intros [|a l] s; try (by intros [= <-]). cbn [utf8_decode_fuel].
  destruct (utf8_next (a :: l)) as [[c l']|] eqn:Hn; [|done]. cbn. destruct (utf8_decode_fuel fuel l') as [s'|] eqn:Hs; [|done].
  intros [= <-]. apply utf8_next_sound in Hn as [Hc ->]. destruct (IH _ _ Hs) as [Hs' <-]. split; [by constructor|done].
Qed.

(** ** Lines and fields *)

(** An ASCII string literal. *)
Definition code_points (s : string) : list Z :=
  (fun a => Z.of_N (Ascii.N_of_ascii a)) <$> String.list_ascii_of_string s.

Definition NEWLINE : Z := 10.
Definition CARRIAGE_RETURN : Z := 13.
Definition TAB : Z := 9.

Definition strip_return (l : list Z) : list Z :=
  match last l with Some c => if (c =? CARRIAGE_RETURN)%Z then removelast l else l | None => l end.

(** [str::lines]: a final line feed ends the last line, a carriage return in
    front of a line feed belongs to it. *)
Fixpoint lines_from (cur l : list Z) : list (list Z) :=
  match l with
  | [] => match cur with [] => [] | _ => [cur] end
  | c :: l' => if (c =? NEWLINE)%Z then strip_return cur :: lines_from [] l' else lines_from (cur ++ [c]) l'
  end.
Definition lines (text : list Z) : list (list Z) := lines_from [] text.

(** [str::split] by a one-byte separator. *)
Fixpoint split_from (sep : Z) (cur l : list Z) : list (list Z) :=
  match l with
  | [] => [cur]
  | c :: l' => if (c =? sep)%Z then cur :: split_from sep [] l' else split_from sep (cur ++ [c]) l'
  end.
Definition split (sep : Z) (text : list Z) : list (list Z) := split_from sep [] text.

(** Writing: each line ended by a line feed, fields separated by tabs. *)
Definition unlines (ls : list (list Z)) : list Z := concat ((fun l => l ++ [NEWLINE]) <$> ls).
Fixpoint join (sep : Z) (fs : list (list Z)) : list Z :=
  match fs with
  | [] => []
  | [f] => f
  | f :: fs' => f ++ sep :: join sep fs'
  end.

(** A line that reads back. *)
Definition plain_line (l : list Z) : Prop := Forall (fun c => c <> NEWLINE /\ c <> CARRIAGE_RETURN) l.

Lemma lines_from_app cur l rest :
  Forall (fun c => c <> NEWLINE) l -> lines_from cur (l ++ NEWLINE :: rest) = strip_return (cur ++ l) :: lines rest.
Proof.
  intros Hl. revert cur. induction Hl as [|c l Hc _ IH]; intros cur; cbn [lines_from app].
  - by rewrite Z.eqb_refl, app_nil_r.
  - rewrite (proj2 (Z.eqb_neq _ _) Hc), IH. by rewrite <- app_assoc.
Qed.

Lemma strip_return_plain l : plain_line l -> strip_return l = l.
Proof.
  intros Hl. unfold strip_return. destruct (last l) as [c|] eqn:Hc; [|done]. apply last_Some in Hc as [l' ->].
  apply Forall_app in Hl as [_ Hl]. apply Forall_singleton in Hl as [_ Hc]. by rewrite (proj2 (Z.eqb_neq _ _) Hc).
Qed.

Lemma lines_cons l rest : plain_line l -> lines (l ++ NEWLINE :: rest) = l :: lines rest.
Proof.
  intros Hl. unfold lines at 1. rewrite lines_from_app; [|by eapply Forall_impl; [exact Hl|intros ? []]].
  by rewrite strip_return_plain.
Qed.

Lemma lines_unlines ls : Forall plain_line ls -> lines (unlines ls) = ls.
Proof.
  induction 1 as [|l ls Hl _ IH]; [done|]. change (unlines (l :: ls)) with ((l ++ [NEWLINE]) ++ unlines ls).
  rewrite <- app_assoc. cbn [app]. rewrite lines_cons by done. by rewrite IH.
Qed.

Lemma split_from_app sep cur f rest :
  sep ∉ f -> split_from sep cur (f ++ sep :: rest) = (cur ++ f) :: split sep rest.
Proof.
  intros Hf. revert cur. induction f as [|c f IH]; intros cur; cbn [split_from app].
  - by rewrite Z.eqb_refl, app_nil_r.
  - apply not_elem_of_cons in Hf as [Hc Hf]. rewrite (proj2 (Z.eqb_neq c sep)) by done.
    by rewrite IH, <- app_assoc.
Qed.

Lemma split_from_last sep cur f : sep ∉ f -> split_from sep cur f = [cur ++ f].
Proof.
  intros Hf. revert cur. induction f as [|c f IH]; intros cur; cbn [split_from]; [by rewrite app_nil_r|].
  apply not_elem_of_cons in Hf as [Hc Hf]. rewrite (proj2 (Z.eqb_neq c sep)) by done. by rewrite IH, <- app_assoc.
Qed.

Lemma split_join sep fs : fs <> [] -> Forall (fun f => sep ∉ f) fs -> split sep (join sep fs) = fs.
Proof.
  intros Hne Hfs. induction fs as [|f fs IH]; [done|]. apply Forall_cons in Hfs as [Hf Hfs].
  destruct fs as [|g fs].
  - unfold split. by rewrite split_from_last.
  - change (join sep (f :: g :: fs)) with (f ++ sep :: join sep (g :: fs)). unfold split at 1.
    rewrite split_from_app by done. cbn [app]. f_equal. by apply IH.
Qed.

(** Fields made of characters above the control characters. *)
Definition printable (f : list Z) : Prop := Forall (fun c => 13 < c)%Z f.

Lemma printable_plain f : printable f -> plain_line f.
Proof. intros Hf. eapply Forall_impl; [exact Hf|]. unfold NEWLINE, CARRIAGE_RETURN. simpl. lia. Qed.
Lemma printable_no_tab f : printable f -> TAB ∉ f.
Proof. intros Hf Hin. unfold printable in Hf. rewrite Forall_forall in Hf. specialize (Hf _ Hin). unfold TAB in Hf. lia. Qed.

Lemma join_plain fs : Forall printable fs -> plain_line (join TAB fs).
Proof.
  induction 1 as [|f fs Hf Hfs IH]; [constructor|]. destruct fs as [|g fs]; [by apply printable_plain|].
  change (join TAB (f :: g :: fs)) with (f ++ TAB :: join TAB (g :: fs)).
  apply Forall_app. split; [by apply printable_plain|]. constructor; [|done]. unfold TAB, NEWLINE, CARRIAGE_RETURN. lia.
Qed.

(** Fields of printable ASCII: hexadecimal text, literals. *)
Definition ascii_printable (f : list Z) : Prop := Forall (fun c => 13 < c < 128)%Z f.
Definition ascii (l : list Z) : Prop := Forall (fun c => 0 <= c < 128)%Z l.

Lemma ascii_is_printable f : ascii_printable f -> printable f.
Proof. intros Hf. eapply Forall_impl; [exact Hf|]. simpl. lia. Qed.
Lemma ascii_printable_ascii f : ascii_printable f -> ascii f.
Proof. intros Hf. eapply Forall_impl; [exact Hf|]. simpl. lia. Qed.

Lemma hex_ascii l : Forall (fun b => 0 <= b < 256)%Z l -> ascii_printable (encode_hex l).
Proof.
  induction 1 as [|b l Hb _ IH]; [constructor|]. destruct (nibble_split b Hb) as (Hh & Hl & _).
  cbn [encode_hex]. repeat constructor; [..|done].
  all: unfold hex_digit; case_match; lia.
Qed.
Lemma id_ascii {t : IdTag} (x : Id t) : ascii_printable (id_to_string x).
Proof. apply hex_ascii, bytes_range. Qed.

Lemma literal_ascii s :
  forallb (fun c => (13 <? c)%Z && (c <? 128)%Z) (code_points s) = true -> ascii_printable (code_points s).
Proof.
  rewrite forallb_forall. intros Hall. apply Forall_forall. intros c Hc%list_elem_of_In.
  specialize (Hall c Hc). apply andb_true_iff in Hall as [H1%Z.ltb_lt H2%Z.ltb_lt]. done.
Qed.

Lemma join_ascii fs : Forall ascii_printable fs -> ascii (join TAB fs).
Proof.
  induction 1 as [|f fs Hf Hfs IH]; [constructor|]. destruct fs as [|g fs]; [by apply ascii_printable_ascii|].
  change (join TAB (f :: g :: fs)) with (f ++ TAB :: join TAB (g :: fs)).
  apply Forall_app. split; [by apply ascii_printable_ascii|]. constructor; [unfold TAB; lia|done].
Qed.

Lemma unlines_ascii ls : Forall ascii ls -> ascii (unlines ls).
Proof.
  intros Hls. apply Forall_concat, Forall_fmap. eapply Forall_impl; [exact Hls|]. intros l Hl. cbn.
  apply Forall_app. split; [done|]. repeat constructor; unfold NEWLINE; lia.
Qed.

(** ASCII text is valid UTF-8. *)
Lemma utf8_ascii l : ascii l -> utf8_decode l = Some l.
Proof.
  intros Hl. assert (utf8_encode l = l) as Henc.
  { unfold utf8_encode. induction Hl as [|c l Hc _ IH]; [done|]. csimpl. rewrite IH. unfold utf8_char.
    by rewrite (proj2 (Z.ltb_lt c 128)) by lia. }
  rewrite <- Henc at 1. apply utf8_decode_encode. eapply Forall_impl; [exact Hl|].
  intros c Hc. apply is_scalar_spec. simpl in Hc. lia.
Qed.

(** A record line reads back as its fields. *)
Lemma split_record fs : fs <> [] -> Forall printable fs -> split TAB (join TAB fs) = fs.
Proof. intros Hne Hfs. apply split_join; [done|]. by eapply Forall_impl; [exact Hfs|apply printable_no_tab]. Qed.

(** Lines of a file with a trailing line feed can be rewritten one by one. *)
Lemma unlines_app ls ks : unlines (ls ++ ks) = unlines ls ++ unlines ks.
Proof. unfold unlines. by rewrite fmap_app, concat_app. Qed.
