(* ===== verification/Capability.v ===== *)
(** Node capabilities and health: [crates/blueroute-core/src/capability.rs] and
    [health.rs]. *)

From S2P Require Import Prelude Order Ident.

(** ** capability.rs *)

Inductive CapabilitySource := Discovered | Measured | Configured | ConservativeDefault.

Record Sourced (T : Type) := mkSourced { value : T; source : CapabilitySource }.
Arguments mkSourced {T} _ _.
Arguments value {T} _.
Arguments source {T} _.

Inductive NetworkBackend :=
| NetworkManager | SystemdNetworkd | DirectNetlink | OtherBackend (name : list Z).

Record LinkQuality := mkLinkQuality { score : Z }.

Inductive PowerState := AcPowered | Battery (percent : Z).

#[global] Instance CapabilitySource_eq_dec : EqDecision CapabilitySource.
Proof. solve_decision. Defined.
#[global] Instance Sourced_eq_dec (T : Type) `{EqDecision T} : EqDecision (Sourced T).
Proof. solve_decision. Defined.
#[global] Instance NetworkBackend_eq_dec : EqDecision NetworkBackend.
Proof. solve_decision. Defined.
#[global] Instance LinkQuality_eq_dec : EqDecision LinkQuality.
Proof. solve_decision. Defined.
#[global] Instance PowerState_eq_dec : EqDecision PowerState.
Proof. solve_decision. Defined.

Record NodeCapabilities := mkCaps {
  adapter_usable : option (Sourced bool);
  panu : option (Sourced bool);
  nap : option (Sourced bool);
  routing : option (Sourced bool);
  network_backend : option (Sourced NetworkBackend);
  connection_policy_ceiling : option (Sourced Z);
  link_quality : option (Sourced LinkQuality);
  power_state : option (Sourced PowerState);
  has_internet : option (Sourced bool);
  willing_to_share_internet : option (Sourced bool);
}.

#[global] Instance NodeCapabilities_eq_dec : EqDecision NodeCapabilities.
Proof. solve_decision. Defined.

Definition caps_default : NodeCapabilities :=
  mkCaps None None None None None None None None None None.

Definition can_join_pan (c : NodeCapabilities) : option bool := value <$> panu c.
Definition can_host_pan (c : NodeCapabilities) : option bool := value <$> nap c.
Definition can_route (c : NodeCapabilities) : option bool := value <$> routing c.

(** [capabilities.adapter_usable.as_ref().map(|v| v.value)], written out at each
    use in the code. *)
Definition adapter_usable_value (c : NodeCapabilities) : option bool :=
  value <$> adapter_usable c.

(** Unknown is not affirmative: [cap != Some(true)] is the code's denial test. *)
Definition affirmative (o : option bool) : bool := bool_decide (o = Some true).

(** ** health.rs *)

Inductive HealthLevel := Healthy | Degraded | Reconnecting | HealthError.

#[global] Instance HealthLevel_eq_dec : EqDecision HealthLevel.
Proof. solve_decision. Defined.

Definition severity (l : HealthLevel) : Z :=
  match l with Healthy => 0 | Degraded => 1 | Reconnecting => 2 | HealthError => 3 end.

Record HealthComponent := mkHealth { level : HealthLevel; required : bool }.

Record NodeHealth := mkNodeHealth {
  h_adapter : option HealthComponent;
  h_runtime_prerequisites : option HealthComponent;
  h_membership : option HealthComponent;
  h_links : option HealthComponent;
  h_topology : option HealthComponent;
  h_gateway : option HealthComponent;
}.

(** The array the loop of [aggregate] runs over, flattened. *)
Definition health_components (h : NodeHealth) : list HealthComponent :=
  omap id [h_adapter h; h_runtime_prerequisites h; h_membership h; h_links h;
           h_topology h; h_gateway h].

Definition aggregate_step (r : HealthLevel) (c : HealthComponent) : HealthLevel :=
  if negb (required c) && bool_decide (level c = HealthError) then
    if (severity r <? severity Degraded)%Z then Degraded else r
  else if (severity r <? severity (level c))%Z then level c else r.

Definition aggregate (h : NodeHealth) : HealthLevel :=
  fold_left aggregate_step (health_components h) Healthy.

(** *** Specification *)

(** An optional component never reports worse than degraded because of an
    error. *)
Definition effective_level (c : HealthComponent) : HealthLevel :=
  if required c then level c
  else match level c with HealthError => Degraded | l => l end.

Lemma severity_inj l k : severity l = severity k -> l = k.
Proof. by destruct l, k. Qed.

Lemma aggregate_step_max r c :
  severity (aggregate_step r c) = Z.max (severity r) (severity (effective_level c)).
Proof. destruct c as [[] []], r; reflexivity. Qed.

Lemma aggregate_fold_max l r :
  severity (fold_left aggregate_step l r) =
  fold_left (fun m c => Z.max m (severity (effective_level c))) l (severity r).
Proof.
  revert r; induction l as [|c l IH]; intros r; simpl; [done|].
  by rewrite IH, aggregate_step_max.
Qed.

Lemma fold_max_spec {A : Type} (f : A -> Z) (l : list A) (z : Z) :
  let m := fold_left (fun m x => Z.max m (f x)) l z in
  (z <= m)%Z /\ (forall x, x ∈ l -> (f x <= m)%Z) /\ (m = z \/ exists x, x ∈ l /\ f x = m).
Proof.
  revert z; induction l as [|a l IH]; intros z; simpl.
  { split; [lia|]. split; [by intros ? ?%not_elem_of_nil|by left]. }
  destruct (IH (Z.max z (f a))) as (H1 & H2 & H3).
  split; [lia|]. split.
  - intros x [->|Hx]%elem_of_cons; [lia | by apply H2].
  - destruct H3 as [H3|(x & Hx & H3)].
    + destruct (Z.max_spec z (f a)) as [[_ E]|[_ E]]; rewrite E in H3 |- *; [right|by left].
      exists a. split; [by left | done].
    + right. exists x. split; [by right | done].
Qed.

(** The aggregate health is the worst effective level over the components
    that are present (healthy when there is none): an upper bound of all of
    them, attained by one of them, whatever their order; an optional component
    in error counts as degraded. *)
Theorem aggregate_worst (h : NodeHealth) :
  (forall c, c ∈ health_components h ->
     (severity (effective_level c) <= severity (aggregate h))%Z) /\
  (aggregate h = Healthy \/
   exists c, c ∈ health_components h /\ effective_level c = aggregate h).
Proof.
  unfold aggregate.
  destruct (fold_max_spec (fun c => severity (effective_level c)) (health_components h)
              (severity Healthy)) as (_ & Hub & Hatt).
  rewrite <- (aggregate_fold_max (health_components h) Healthy) in Hub, Hatt.
  split; [done|]. destruct Hatt as [H|(c & Hc & H)].
  - left. by apply severity_inj.
  - right. exists c. split; [done | by apply severity_inj].
Qed.
