(* ===== verification/Addressing.v ===== *)
(** IPv4 prefixes, the address pool and the single-star address plan:
    [crates/blueroute-core/src/route.rs] (prefixes), [config.rs] and
    [addressing.rs].

    An [Ipv4Addr] is the number [u32::from(address)], an [Ipv6Addr] the number
    [u128::from(address)]; [ip_ok] is the range every such value has. *)

From S2P Require Import Prelude Order Ident.

Local Open Scope Z_scope.

(** ** route.rs: prefixes *)

Inductive IpAddr := V4 (a : Z) | V6 (a : Z).

Record IpPrefix := mkPrefix { address : IpAddr; prefix_len : Z }.

#[global] Instance IpAddr_eq_dec : EqDecision IpAddr.
Proof. solve_decision. Defined.
#[global] Instance IpPrefix_eq_dec : EqDecision IpPrefix.
Proof. solve_decision. Defined.

#[global] Instance IpAddr_ord : RustOrd IpAddr.
Proof.
  refine (ord_via (fun x => match x with V4 a => inl a | V6 a => inr a end) _).
  abstract (intros [] []; simpl; congruence).
Defined.
#[global] Instance IpPrefix_ord : RustOrd IpPrefix.
Proof.
  refine (ord_via (fun p => (address p, prefix_len p)) _).
  abstract (intros [] []; simpl; congruence).
Defined.

Definition max_prefix_len (a : IpAddr) : Z := match a with V4 _ => 32 | V6 _ => 128 end.

(** [IpPrefix::new] *)
Definition ip_prefix_new (a : IpAddr) (len : Z) : CoreResult IpPrefix :=
  guard_err (max_prefix_len a <? len)
    (core_error InvalidInput "prefix length {prefix_len} is invalid for {address}")
  (Ok (mkPrefix a len)).

Definition is_ipv4 (a : IpAddr) : bool := match a with V4 _ => true | V6 _ => false end.

Definition ip_ok (a : IpAddr) : Prop :=
  match a with V4 n => 0 <= n <= u_max 32 | V6 n => 0 <= n <= u_max 128 end.
(** A prefix as Rust can represent it: an address, and a [u8]. *)
Definition prefix_rep (p : IpPrefix) : Prop := ip_ok (address p) /\ 0 <= prefix_len p <= u_max 8.

(** ** config.rs: the address pool *)

Record Ipv4AddressPool := mkPool {
  network : Z;
  pool_prefix_len : Z;
  segment_prefix_len : Z;
}.

(** [pool_is_rfc1918], over [PRIVATE_RANGES]. *)
Definition PRIVATE_RANGES : list (Z * Z) :=
  [(0x0a000000, 8); (0xac100000, 12); (0xc0a80000, 16)].

Definition pool_is_rfc1918 (net len : Z) : bool :=
  existsb (fun '(private_network, private_prefix) =>
    if len <? private_prefix then false
    else Z.land net (shl 32 (u_max 32) (32 - private_prefix)) =? private_network)
  PRIVATE_RANGES.

(** The host mask, computed the same way in [config.rs] and [addressing.rs]. *)
Definition host_mask (host_bits : Z) : Z :=
  if host_bits =? 32 then u_max 32
  else if host_bits =? 0 then 0
  else shl 32 1 host_bits - 1.

Definition pool_validate (p : Ipv4AddressPool) : CoreResult () :=
  guard_err (32 <? pool_prefix_len p)
    (core_error InvalidInput "IPv4 pool prefix length cannot exceed 32")
  (guard_err (30 <? segment_prefix_len p)
    (core_error InvalidInput "PAN segment prefix must leave room for host addresses")
  (guard_err (segment_prefix_len p <? pool_prefix_len p)
    (core_error InvalidInput "PAN segment prefix cannot be broader than the BlueRoute address pool")
  (guard_err (negb (Z.land (network p) (host_mask (32 - pool_prefix_len p)) =? 0))
    (core_error InvalidInput "IPv4 pool address must be aligned to its prefix")
  (guard_err (negb (pool_is_rfc1918 (network p) (pool_prefix_len p)))
    (core_error InvalidInput
       "BlueRoute IPv4 address pool must be fully contained in RFC1918 private space")
  (Ok ()))))).

Definition pool_new (net pool_len seg_len : Z) : CoreResult Ipv4AddressPool :=
  let pool := mkPool net pool_len seg_len in
  _ ← pool_validate pool; Ok pool.

Definition pool_default : Ipv4AddressPool := mkPool 0x0ac90000 16 24.

(** ** config.rs: the daemon configuration *)

Inductive BackendPreference :=
| PreferAuto | PreferNetworkManager | PreferSystemdNetworkd | PreferDirectNetlink
| PreferOther (name : list Z).

Record TopologyPolicy := mkTopologyPolicy {
  automatic_role_selection : bool;
  max_active_links : option Z;
  prefer_ac_powered_hubs : bool;
}.

Record DaemonConfig := mkConfig {
  version : Z;
  display_name : DisplayName;
  ipv4_address_pool : Ipv4AddressPool;
  topology : TopologyPolicy;
  backend : BackendPreference;
  sharing_enabled : bool;
}.

Definition CONFIG_VERSION_CURRENT : Z := 1.

Definition config_validate (c : DaemonConfig) : CoreResult () :=
  guard_err (negb (version c =? CONFIG_VERSION_CURRENT))
    (core_error InvalidInput "unsupported configuration version {}; expected {}")
  (_ ← pool_validate (ipv4_address_pool c);
   guard_err (bool_decide (max_active_links (topology c) = Some 0))
     (core_error InvalidInput "maximum active links must be greater than zero when configured")
  (guard_err (match backend c with
              | PreferOther name => match trim name with [] => true | _ => false end
              | _ => false end)
     (core_error InvalidInput "custom network backend name cannot be empty")
  (guard_err (sharing_enabled c)
     (core_error CapabilityUnavailable
        "Internet sharing is reserved but not implemented in configuration version 1")
  (Ok ())))).

(** The characters of ["BlueRoute Device"]. *)
Definition builtin_name : list Z :=
  [66; 108; 117; 101; 82; 111; 117; 116; 101; 32; 68; 101; 118; 105; 99; 101].

Definition topology_policy_default : TopologyPolicy := mkTopologyPolicy true None true.

(** [DaemonConfig::default]; the [expect] on the built-in name is the [Err]
    branch of the match. *)
Definition config_default : CoreResult DaemonConfig :=
  n ← display_name_new builtin_name;
  Ok (mkConfig CONFIG_VERSION_CURRENT n pool_default topology_policy_default PreferAuto false).

(** ** addressing.rs *)

Definition ipv4_mask (len : Z) : CoreResult Z :=
  guard_err (32 <? len) (core_error InvalidInput "IPv4 prefix length cannot exceed 32")
  (Ok (if len =? 0 then 0 else shl 32 (u_max 32) (32 - len))).

Definition normalized_ipv4_prefix (p : IpPrefix) : CoreResult IpPrefix :=
  match address p with
  | V6 _ => Err (core_error InvalidInput "expected an IPv4 prefix")
  | V4 a =>
      mask ← ipv4_mask (prefix_len p);
      ip_prefix_new (V4 (Z.land a mask)) (prefix_len p)
  end.

Definition ipv4_prefixes_overlap (left right : IpPrefix) : bool :=
  match address left, address right with
  | V4 left_start, V4 right_start =>
      let left_end := Z.lor left_start (host_mask (32 - prefix_len left)) in
      let right_end := Z.lor right_start (host_mask (32 - prefix_len right)) in
      (left_start <=? right_end) && (right_start <=? left_end)
  | _, _ => false
  end.

Definition segment_conflict : CoreError :=
  core_error_with_diagnostic AddressConflict
    "BlueRoute IPv4 segment overlaps an active local network"
    "candidate={}/{} conflicting={}/{}".

(** The loop of [ensure_ipv4_segment_available]. *)
Fixpoint ensure_available_loop (candidate : IpPrefix) (active : list IpPrefix) : CoreResult () :=
  match active with
  | [] => Ok ()
  | prefix :: rest =>
      if negb (is_ipv4 (address prefix)) || (prefix_len prefix =? 0)
      then ensure_available_loop candidate rest
      else
        normal ← normalized_ipv4_prefix prefix;
        if ipv4_prefixes_overlap candidate normal then Err segment_conflict
        else ensure_available_loop candidate rest
  end.

Definition ensure_ipv4_segment_available (candidate : IpPrefix) (active : list IpPrefix) :
  CoreResult () :=
  candidate' ← normalized_ipv4_prefix candidate;
  ensure_available_loop candidate' active.

Record Ipv4StarAddressPlan := mkPlan {
  segment : IpPrefix;
  host : IpPrefix;
  first_client : IpPrefix;
}.

(** [Ipv4StarAddressPlan::for_network] *)
Definition for_network (net : NetworkId) (pool : Ipv4AddressPool) : CoreResult Ipv4StarAddressPlan :=
  _ ← pool_validate pool;
  let segment_bits := segment_prefix_len pool - pool_prefix_len pool in
  let segment_count := shl 32 1 segment_bits in
  let selector := from_be_bytes (take 4 (bytes_list (as_bytes net))) mod segment_count in
  let segment_host_bits := 32 - segment_prefix_len pool in
  let segment_offset := shl 32 selector segment_host_bits in
  segment_network ← ok_or (checked_add 32 (network pool) segment_offset)
    (core_error InvalidInput "IPv4 pool overflow");
  host ← ok_or (checked_add 32 segment_network 1)
    (core_error InvalidInput "IPv4 host address overflow");
  first_client ← ok_or (checked_add 32 segment_network 2)
    (core_error InvalidInput "IPv4 client address overflow");
  seg ← ip_prefix_new (V4 segment_network) (segment_prefix_len pool);
  h ← ip_prefix_new (V4 host) (segment_prefix_len pool);
  c ← ip_prefix_new (V4 first_client) (segment_prefix_len pool);
  Ok (mkPlan seg h c).

(** ** Bit masks as arithmetic *)

Lemma u_max_ones w : 0 <= w -> u_max w = Z.ones w.
Proof. intros. unfold u_max. rewrite Z.ones_equiv. lia. Qed.

Lemma in_range_testbit w a i :
  0 <= a <= u_max w -> 0 <= w <= i -> Z.testbit a i = false.
Proof.
  intros Ha Hi. destruct (decide (a = 0)) as [->|Hne]; [apply Z.testbit_0_l|].
  apply Z.bits_above_log2; [lia|]. unfold u_max in Ha.
  apply Z.log2_lt_pow2; [lia|].
  apply Z.lt_le_trans with (2 ^ w); [lia|]. apply Z.pow_le_mono_r; lia.
Qed.

(** [a & (MAX << h)] clears the low [h] bits. *)
Lemma land_high_mask w a h :
  0 <= a <= u_max w -> 0 <= h <= w ->
  Z.land a (shl w (u_max w) h) = a - a mod 2 ^ h.
Proof.
  intros Ha Hh. replace (a - a mod 2 ^ h) with (Z.ldiff a (Z.ones h)).
  2:{ rewrite Z.ldiff_ones_r, Z.shiftl_mul_pow2, Z.shiftr_div_pow2 by lia.
      pose proof (Z.div_mod a (2 ^ h) ltac:(apply Z.pow_nonzero; lia)). lia. }
  apply Z.bits_inj'. intros i Hi. unfold shl.
  rewrite Z.ldiff_spec, !Z.land_spec, !(u_max_ones w), Z.shiftl_spec by lia.
  destruct (Z.lt_ge_cases i w) as [Hiw|Hiw].
  - rewrite (Z.ones_spec_low w i), andb_true_r by lia.
    destruct (Z.lt_ge_cases i h).
    + rewrite (Z.ones_spec_low h), (Z.testbit_neg_r _ (i - h)) by lia. done.
    + rewrite (Z.ones_spec_high h), Z.ones_spec_low by lia. done.
  - by rewrite (in_range_testbit w a i) by lia.
Qed.

Lemma host_mask_ones h : 0 <= h <= 32 -> host_mask h = Z.ones h.
Proof.
  intros Hh. unfold host_mask. destruct (Z.eqb_spec h 32) as [->|H1]; [done|].
  destruct (Z.eqb_spec h 0) as [->|H0]; [done|].
  rewrite shl_mod by lia. rewrite Z.mul_1_l, Z.mod_small, Z.ones_equiv; [lia|].
  split; [apply Z.pow_nonneg; lia | apply Z.pow_lt_mono_r; lia].
Qed.

(** [start | host_mask] is the last address of an aligned block. *)
Lemma lor_host_mask a h :
  0 <= h <= 32 -> a mod 2 ^ h = 0 -> Z.lor a (host_mask h) = a + 2 ^ h - 1.
Proof.
  intros Hh Ha. rewrite host_mask_ones by done.
  pose proof (Z.add_lor_land a (Z.ones h)) as Hadd.
  rewrite Z.land_ones, Ha in Hadd by lia. rewrite Z.ones_equiv in *. lia.
Qed.

Lemma land_host_mask a h : 0 <= h <= 32 -> Z.land a (host_mask h) = a mod 2 ^ h.
Proof. intros Hh. by rewrite host_mask_ones, Z.land_ones by lia. Qed.

(** ** What a prefix denotes *)

(** The addresses of an IPv4 prefix: those that share its network part. *)
Definition in_prefix (p : IpPrefix) (ip : Z) : Prop :=
  match address p with
  | V4 a => 0 <= ip <= u_max 32 /\
            ip / 2 ^ (32 - prefix_len p) = a / 2 ^ (32 - prefix_len p)
  | V6 _ => False
  end.

(** Two prefixes share an address. *)
Definition prefixes_meet (p q : IpPrefix) : Prop := exists ip, in_prefix p ip /\ in_prefix q ip.

Lemma pow2_pos h : 0 <= h -> 0 < 2 ^ h.
Proof. intros. apply Z.pow_pos_nonneg; lia. Qed.

Lemma block_le w a h : 0 <= a <= u_max w -> 0 <= h <= w -> a mod 2 ^ h = 0 ->
  a + 2 ^ h - 1 <= u_max w.
Proof.
  unfold u_max. intros Ha Hh Hm.
  assert (2 ^ w = 2 ^ (w - h) * 2 ^ h) as Hw by (rewrite <- Z.pow_add_r by lia; f_equal; lia).
  pose proof (pow2_pos h ltac:(lia)). apply Z.mod_divide in Hm as [q ->]; [|lia].
  assert (q < 2 ^ (w - h)) by nia. nia.
Qed.

Lemma same_block a ip h :
  0 <= h -> a mod 2 ^ h = 0 -> (ip / 2 ^ h = a / 2 ^ h <-> a <= ip <= a + 2 ^ h - 1).
Proof.
  intros Hh Hm. pose proof (pow2_pos h Hh) as Hp.
  pose proof (Z.div_mod a (2 ^ h) ltac:(lia)). pose proof (Z.div_mod ip (2 ^ h) ltac:(lia)).
  pose proof (Z.mod_pos_bound ip (2 ^ h) Hp). split; [intros; nia|].
  intros Hr. symmetry. apply Z.div_unique with (ip - a); lia.
Qed.

Lemma sub_mod_aligned a h : 0 <= h -> (a - a mod 2 ^ h) mod 2 ^ h = 0.
Proof.
  intros Hh. pose proof (pow2_pos h Hh).
  rewrite Zminus_mod, Zmod_mod, Z.sub_diag. apply Z.mod_0_l. lia.
Qed.

Lemma sub_mod_div a h : 0 <= h -> (a - a mod 2 ^ h) / 2 ^ h = a / 2 ^ h.
Proof.
  intros Hh. pose proof (pow2_pos h Hh). pose proof (Z.div_mod a (2 ^ h) ltac:(lia)).
  symmetry. apply Z.div_unique_exact; lia.
Qed.

(** Normalization of a well-formed IPv4 prefix: the same addresses, with an
    aligned base. *)
Lemma normalized_ok a len :
  0 <= a <= u_max 32 -> 0 <= len <= 32 ->
  normalized_ipv4_prefix (mkPrefix (V4 a) len) =
  Ok (mkPrefix (V4 (a - a mod 2 ^ (32 - len))) len).
Proof.
  intros Ha Hl. unfold normalized_ipv4_prefix, ipv4_mask, ip_prefix_new; simpl.
  replace (32 <? len) with false by (symmetry; apply Z.ltb_ge; lia). simpl.
  do 3 f_equal. destruct (Z.eqb_spec len 0) as [->|Hne].
  - rewrite Z.land_0_r, Z.mod_small; [lia|]. unfold u_max in Ha. lia.
  - apply land_high_mask; lia.
Qed.

Lemma normalized_Ok_inv p q :
  normalized_ipv4_prefix p = Ok q ->
  exists a, address p = V4 a /\ prefix_len p <= 32 /\ prefix_len q = prefix_len p.
Proof.
  unfold normalized_ipv4_prefix. destruct (address p) as [a|]; [|done].
  intros (m & (Hl & _)%guard_err_Ok & (_ & [= <-])%guard_err_Ok)%result_bind_Ok.
  exists a. simpl. apply Z.ltb_ge in Hl. done.
Qed.

(** The overlap test on aligned prefixes decides whether they share an
    address. *)
Lemma overlap_aligned a la b lb :
  0 <= a <= u_max 32 -> 0 <= la <= 32 -> a mod 2 ^ (32 - la) = 0 ->
  0 <= b <= u_max 32 -> 0 <= lb <= 32 -> b mod 2 ^ (32 - lb) = 0 ->
  ipv4_prefixes_overlap (mkPrefix (V4 a) la) (mkPrefix (V4 b) lb) = true <->
  prefixes_meet (mkPrefix (V4 a) la) (mkPrefix (V4 b) lb).
Proof.
  intros Ha Hla Hma Hb Hlb Hmb. unfold ipv4_prefixes_overlap, prefixes_meet, in_prefix; simpl.
  rewrite !lor_host_mask, andb_true_iff, !Z.leb_le by lia.
  setoid_rewrite same_block; [|lia..].
  pose proof (block_le 32 a (32 - la) Ha ltac:(lia) Hma).
  pose proof (block_le 32 b (32 - lb) Hb ltac:(lia) Hmb).
  pose proof (pow2_pos (32 - la) ltac:(lia)). pose proof (pow2_pos (32 - lb) ltac:(lia)).
  split.
  - intros [Hab Hba]. exists (Z.max a b). lia.
  - intros (ip & Hip). lia.
Qed.

Lemma in_prefix_normal a len ip :
  0 <= len <= 32 ->
  in_prefix (mkPrefix (V4 (a - a mod 2 ^ (32 - len))) len) ip <-> in_prefix (mkPrefix (V4 a) len) ip.
Proof. intros Hl. unfold in_prefix; simpl. by rewrite sub_mod_div by lia. Qed.

Lemma overlap_normal p q a b :
  prefix_rep p -> prefix_rep q -> address p = V4 a -> address q = V4 b ->
  prefix_len p <= 32 -> prefix_len q <= 32 ->
  exists p' q', normalized_ipv4_prefix p = Ok p' /\ normalized_ipv4_prefix q = Ok q' /\
    (ipv4_prefixes_overlap p' q' = true <-> prefixes_meet p q).
Proof.
  destruct p as [? lp], q as [? lq]; intros [Hp Hlp] [Hq Hlq]; simpl in *; intros -> -> Hlp' Hlq'.
  simpl in Hp, Hq. eexists _, _. split; [by apply normalized_ok; lia|].
  split; [by apply normalized_ok; lia|].
  assert (forall x l, 0 <= x <= u_max 32 -> 0 <= l <= 32 ->
    0 <= x - x mod 2 ^ (32 - l) <= u_max 32) as Hr.
  { intros x l Hx Hl. pose proof (pow2_pos (32 - l) ltac:(lia)) as Hpos.
    pose proof (Z.mod_pos_bound x (2 ^ (32 - l)) Hpos).
    pose proof (Z.mod_le x (2 ^ (32 - l)) ltac:(lia) Hpos). lia. }
  rewrite overlap_aligned by (try apply Hr; try apply sub_mod_aligned; lia).
  unfold prefixes_meet. setoid_rewrite in_prefix_normal; [done | lia..].
Qed.

Lemma ensure_available_loop_exact c c' a active :
  prefix_rep c -> address c = V4 a -> prefix_len c <= 32 ->
  normalized_ipv4_prefix c = Ok c' -> Forall prefix_rep active ->
  ensure_available_loop c' active = Ok () <->
  Forall (fun p => is_ipv4 (address p) = true -> prefix_len p <> 0 ->
                   prefix_len p <= 32 /\ ~ prefixes_meet c p) active.
Proof.
  intros Hc Ha Hl Hn. induction 1 as [|p active Hp _ IH]; simpl; [by split|].
  rewrite Forall_cons. destruct (address p) as [b|b] eqn:Hb; simpl; [|rewrite IH; naive_solver].
  destruct (Z.eqb_spec (prefix_len p) 0) as [H0|H0]; simpl; [rewrite IH; naive_solver|].
  destruct (Z.le_gt_cases (prefix_len p) 32) as [Hlp|Hlp].
  - destruct (overlap_normal c p a b) as (c'' & p' & Hc'' & Hp' & Hov); try done.
    assert (c'' = c') as -> by congruence.
    rewrite Hp'. simpl. destruct (ipv4_prefixes_overlap c' p').
    + split; [done|]. intros [Hmeet _]. destruct Hmeet as [_ Hmeet]; [done..|]. naive_solver.
    + rewrite IH. naive_solver.
  - split.
    + intros (q & (? & _ & ? & _)%normalized_Ok_inv & _)%result_bind_Ok. lia.
    + intros [Hlen _]. destruct Hlen; [done..|]. lia.
Qed.

Lemma ensure_available_iff (c : IpPrefix) (active : list IpPrefix) :
  prefix_rep c -> Forall prefix_rep active ->
  ensure_ipv4_segment_available c active = Ok () <->
  (is_ipv4 (address c) = true /\ prefix_len c <= 32 /\
   Forall (fun p => is_ipv4 (address p) = true -> prefix_len p <> 0 ->
                    prefix_len p <= 32 /\ ~ prefixes_meet c p) active).
Proof.
  intros Hc Hactive. unfold ensure_ipv4_segment_available. rewrite result_bind_Ok. split.
  - intros (c' & Hn & Hloop). destruct (normalized_Ok_inv _ _ Hn) as (a & Ha & Hl & _).
    rewrite Ha. split; [done|]. split; [done|]. by apply (ensure_available_loop_exact c c' a).
  - destruct (address c) as [a|a] eqn:Ha; [|naive_solver]. intros (_ & Hl & Hall).
    destruct (overlap_normal c c a a) as (c' & _ & Hn & _); try done.
    exists c'. split; [done|]. by apply (ensure_available_loop_exact c c' a).
Qed.

(** The availability check accepts a candidate segment exactly when the
    candidate is an IPv4 prefix and every active IPv4 prefix other than a
    default route is well formed and shares no address with it.  IPv6 prefixes
    and default routes never matter. *)
Theorem ensure_ipv4_segment_available_exact (c : IpPrefix) (active : list IpPrefix)
    (Hc : prefix_rep c) (Hactive : Forall prefix_rep active) :
  ensure_ipv4_segment_available c active = Ok () <->
  (is_ipv4 (address c) = true /\ prefix_len c <= 32 /\
   Forall (fun p => is_ipv4 (address p) = true -> prefix_len p <> 0 ->
                    prefix_len p <= 32 /\ ~ prefixes_meet c p) active).
Proof. by apply ensure_available_iff. Qed.

(** The conflict the check is for, and a default route beside it. *)
Lemma ensure_ipv4_segment_available_exact_witness :
  ensure_ipv4_segment_available (mkPrefix (V4 0x0ac90100) 24)
    [mkPrefix (V4 0) 0; mkPrefix (V4 0x0ac90205) 24] = Ok () /\
  ensure_ipv4_segment_available (mkPrefix (V4 0x0ac90100) 24)
    [mkPrefix (V4 0) 0; mkPrefix (V4 0x0ac901fe) 31] <> Ok () /\
  Forall (fun p => is_ipv4 (address p) = true -> prefix_len p <> 0 ->
                   prefix_len p <= 32 /\ ~ prefixes_meet (mkPrefix (V4 0x0ac90100) 24) p)
    [mkPrefix (V4 0) 0; mkPrefix (V4 0x0ac90205) 24].
Proof.
  split; [vm_compute; reflexivity|]. split; [vm_compute; discriminate|].
  apply (ensure_ipv4_segment_available_exact (mkPrefix (V4 0x0ac90100) 24)
           [mkPrefix (V4 0) 0; mkPrefix (V4 0x0ac90205) 24]).
  - unfold prefix_rep, ip_ok, u_max; simpl. lia.
  - repeat constructor; unfold ip_ok, u_max; simpl; lia.
  - vm_compute. reflexivity.
Defined.

(** ** The pool and the star plan *)

(** A pool [pool_validate] accepts, as numbers. *)
Definition pool_wf (p : Ipv4AddressPool) : Prop :=
  0 <= pool_prefix_len p <= segment_prefix_len p /\ segment_prefix_len p <= 30 /\
  0 <= network p <= u_max 32 /\ network p mod 2 ^ (32 - pool_prefix_len p) = 0 /\
  pool_is_rfc1918 (network p) (pool_prefix_len p) = true.

(** The field ranges of the Rust types ([u32], [u8], [u8]). *)
Definition pool_rep (p : Ipv4AddressPool) : Prop :=
  0 <= network p <= u_max 32 /\ 0 <= pool_prefix_len p <= u_max 8 /\
  0 <= segment_prefix_len p <= u_max 8.

Lemma pool_validate_wf p : pool_rep p -> pool_validate p = Ok () <-> pool_wf p.
Proof.
  intros (Hn & Hp & Hs). unfold pool_validate, pool_wf.
  rewrite !guard_err_Ok, !negb_false_iff, !Z.ltb_ge, Z.eqb_eq. split.
  - intros (H32 & H30 & Hle & Hal & Hr & _). rewrite land_host_mask in Hal by lia.
    repeat split; lia || done.
  - intros (Hle & H30 & _ & Hal & Hr). rewrite land_host_mask by lia.
    repeat split; lia || done.
Qed.

(** The private ranges of RFC 1918. *)
Definition rfc1918 (ip : Z) : Prop :=
  0x0a000000 <= ip <= 0x0affffff \/ 0xac100000 <= ip <= 0xac1fffff \/
  0xc0a80000 <= ip <= 0xc0a8ffff.

Lemma div_coarser a b h k : 0 <= h <= k -> a / 2 ^ h = b / 2 ^ h -> a / 2 ^ k = b / 2 ^ k.
Proof.
  intros Hhk Heq. replace k with (h + (k - h)) by lia.
  rewrite Z.pow_add_r by lia. pose proof (pow2_pos h ltac:(lia)).
  pose proof (pow2_pos (k - h) ltac:(lia)). rewrite <- !Z.div_div by lia. by rewrite Heq.
Qed.

Lemma rfc1918_block net len ip :
  0 <= net <= u_max 32 -> 0 <= len <= 32 -> pool_is_rfc1918 net len = true ->
  ip / 2 ^ (32 - len) = net / 2 ^ (32 - len) -> rfc1918 ip.
Proof.
  intros Hn Hl Hp Hip. unfold pool_is_rfc1918 in Hp; simpl in Hp.
  assert (forall q m, 0 <= q <= 32 ->
    (if len <? q then false else Z.land net (shl 32 (u_max 32) (32 - q)) =? m) = true ->
    ip / 2 ^ (32 - q) * 2 ^ (32 - q) = m) as Hrange.
  { intros q m Hq. destruct (Z.ltb_spec len q); [done|]. rewrite Z.eqb_eq.
    rewrite land_high_mask by lia. intros <-.
    rewrite (div_coarser ip net (32 - len) (32 - q)) by lia.
    pose proof (Z.div_mod net (2 ^ (32 - q)) ltac:(pose proof (pow2_pos (32 - q)); lia)). lia. }
  rewrite !orb_true_iff in Hp. unfold rfc1918.
  destruct Hp as [Hp|[Hp|[Hp|Hp]]]; [| | |done];
    apply Hrange in Hp; [|lia| |lia| |lia]; simpl in Hp.
  - left. Z.div_mod_to_equations. lia.
  - right; left. Z.div_mod_to_equations. lia.
  - right; right. Z.div_mod_to_equations. lia.
Qed.

(** The number of segments of a pool and the base address of each slot. *)
Definition segment_slots (p : Ipv4AddressPool) : Z :=
  2 ^ (segment_prefix_len p - pool_prefix_len p).
Definition slot_base (p : Ipv4AddressPool) (slot : Z) : Z :=
  network p + slot * 2 ^ (32 - segment_prefix_len p).

Lemma segment_count_slots p : pool_wf p ->
  shl 32 1 (segment_prefix_len p - pool_prefix_len p) = segment_slots p /\ 0 < segment_slots p.
Proof.
  intros (Hle & H30 & _). unfold segment_slots. pose proof (pow2_pos (segment_prefix_len p - pool_prefix_len p)) as Hpos.
  rewrite shl_mod, Z.mul_1_l by lia. rewrite Z.mod_small; [lia|].
  split; [lia|]. apply Z.pow_lt_mono_r; lia.
Qed.

Lemma rfc1918_len net len : pool_is_rfc1918 net len = true -> 8 <= len.
Proof.
  unfold pool_is_rfc1918; simpl.
  destruct (Z.ltb_spec len 8); [|done]. destruct (Z.ltb_spec len 12); [|lia].
  destruct (Z.ltb_spec len 16); [done|lia].
Qed.

(** Every slot of a valid pool is an aligned block inside the pool, so neither
    the shift nor the addition overflows. *)
Lemma slot_base_spec p slot :
  pool_wf p -> 0 <= slot < segment_slots p ->
  let h := 32 - segment_prefix_len p in
  shl 32 slot h = slot * 2 ^ h /\ checked_shl 32 slot h = Some (slot * 2 ^ h) /\
  checked_add 32 (network p) (slot * 2 ^ h) = Some (slot_base p slot) /\
  0 <= slot_base p slot /\ slot_base p slot + 2 ^ h - 1 <= u_max 32 /\ 4 <= 2 ^ h /\
  slot_base p slot mod 2 ^ h = 0 /\
  (forall ip, slot_base p slot <= ip <= slot_base p slot + 2 ^ h - 1 ->
     ip / 2 ^ (32 - pool_prefix_len p) = network p / 2 ^ (32 - pool_prefix_len p)).
Proof.
  intros (Hle & H30 & Hn & Hal & Hrfc) Hslot h. unfold segment_slots, slot_base in *. fold h.
  apply rfc1918_len in Hrfc.
  set (k := segment_prefix_len p - pool_prefix_len p) in *.
  assert (2 ^ (32 - pool_prefix_len p) = 2 ^ k * 2 ^ h) as Hpow.
  { rewrite <- Z.pow_add_r by lia. f_equal. lia. }
  assert (0 < 2 ^ h) as Hh by (apply pow2_pos; lia).
  assert (4 <= 2 ^ h) as H4 by (change 4 with (2 ^ 2); apply Z.pow_le_mono_r; lia).
  pose proof (block_le 32 (network p) (32 - pool_prefix_len p) Hn ltac:(lia) Hal) as Hblk.
  assert (shl 32 slot h = slot * 2 ^ h) as Hshl.
  { rewrite shl_mod by lia. apply Z.mod_small. unfold u_max in *. nia. }
  split; [done|]. split.
  { unfold checked_shl. by replace (h <? 32) with true by (symmetry; apply Z.ltb_lt; lia);
      rewrite Hshl. }
  split; [apply checked_add_Some; split; [done|nia]|].
  split; [nia|]. split; [nia|]. split; [done|]. split.
  - rewrite Z.mod_add by lia. rewrite Hpow in Hal. apply Z.mod_divide in Hal as [q Hq]; [|nia].
    rewrite Hq, Z.mul_assoc. apply Z.mod_mul. lia.
  - intros ip Hip. apply same_block; [lia|done|]. nia.
Qed.

Lemma ip_prefix_new_ok a len : len <= max_prefix_len a -> ip_prefix_new a len = Ok (mkPrefix a len).
Proof. intros H. unfold ip_prefix_new, guard_err. by replace (max_prefix_len a <? len) with false by (symmetry; apply Z.ltb_ge; lia). Qed.

(** For every pool the validator accepts, the single-star plan of any
    network exists: no shift or addition overflows, the segment is a canonical
    block of the pool, the host and the first client are two further addresses
    of that block below its broadcast address, and the whole block is private
    (RFC 1918). *)
Theorem for_network_plan (net : NetworkId) (pool : Ipv4AddressPool)
    (Hrep : pool_rep pool) (Hvalid : pool_validate pool = Ok ()) :
  exists base len, let size := 2 ^ (32 - len) in
    for_network net pool = Ok (mkPlan (mkPrefix (V4 base) len) (mkPrefix (V4 (base + 1)) len)
                                      (mkPrefix (V4 (base + 2)) len)) /\
    len = segment_prefix_len pool /\ base mod size = 0 /\ base + 2 < base + size - 1 /\
    (forall ip, base <= ip <= base + size - 1 ->
       0 <= ip <= u_max 32 /\ rfc1918 ip /\ in_prefix (mkPrefix (V4 base) len) ip /\
       ip / 2 ^ (32 - pool_prefix_len pool) = network pool / 2 ^ (32 - pool_prefix_len pool)).
Proof.
  pose proof (proj1 (pool_validate_wf pool Hrep) Hvalid) as Hwf.
  pose proof Hwf as (Hle & H30 & Hn & Hal & Hrfc).
  destruct (segment_count_slots pool Hwf) as [Hcount Hpos].
  set (sel := from_be_bytes (take 4 (bytes_list (as_bytes net))) mod segment_slots pool).
  assert (0 <= sel < segment_slots pool) as Hsel by (apply Z.mod_pos_bound; lia).
  destruct (slot_base_spec pool sel Hwf Hsel) as (Hshl & _ & Hadd & H0 & Hmax & H4 & Hmod & Hin).
  exists (slot_base pool sel), (segment_prefix_len pool). cbv zeta. split.
  - unfold for_network. rewrite Hvalid. cbn [mbind result_bind]. rewrite Hcount. fold sel.
    rewrite Hshl, Hadd. simpl.
    rewrite (proj2 (checked_add_Some 32 (slot_base pool sel) 1 _)) by (split; [done|lia]).
    simpl. rewrite (proj2 (checked_add_Some 32 (slot_base pool sel) 2 _)) by (split; [done|lia]).
    simpl. by rewrite !ip_prefix_new_ok by (simpl; lia).
  - split; [done|]. split; [done|]. split; [lia|]. intros ip Hip.
    specialize (Hin ip Hip). split; [lia|].
    split; [by apply (rfc1918_block (network pool) (pool_prefix_len pool)); [|lia|..]|].
    split; [|done]. split; [lia|]. simpl. apply same_block; [lia|done|lia].
Qed.

(** The built-in pool is one of those pools. *)
Lemma for_network_plan_witness :
  pool_rep pool_default /\ pool_validate pool_default = Ok () /\
  for_network (fill_id 7) pool_default =
    Ok (mkPlan (mkPrefix (V4 0x0ac90700) 24) (mkPrefix (V4 0x0ac90701) 24)
               (mkPrefix (V4 0x0ac90702) 24)) /\
  exists base, base mod 2 ^ (32 - 24) = 0.
Proof.
  assert (pool_rep pool_default) as Hrep by (unfold pool_rep, u_max; simpl; lia).
  split; [exact Hrep|]. split; [vm_compute; reflexivity|]. split; [vm_compute; reflexivity|].
  destruct (for_network_plan (fill_id 7) pool_default Hrep ltac:(vm_compute; reflexivity))
    as (base & len & _ & Hlen & Hmod & _).
  exists base. rewrite Hlen in Hmod. exact Hmod.
Defined.
