(* ===== verification/SegmentAllocator.v ===== *)
(** IPv4 prefix reservations for routed PAN segments:
    [crates/blueroute-core/src/segment_allocator.rs].

    A method on [&mut self] returns its [Result] together with the allocator
    it leaves behind. *)

From S2P Require Import Prelude Order Ident Addressing.

Local Open Scope Z_scope.

Definition MAX_RESERVED_PAN_SEGMENTS : nat := 256.
Definition MAX_PREFIX_PROBES : Z := 4096.

Record SegmentIpv4Allocator := mkAllocator {
  alloc_pool : Ipv4AddressPool;
  reservations : gmap SegmentId IpPrefix;
}.

Definition alloc_new (pool : Ipv4AddressPool) : CoreResult SegmentIpv4Allocator :=
  _ ← pool_validate pool; Ok (mkAllocator pool ∅).

Definition alloc_get (a : SegmentIpv4Allocator) (seg : SegmentId) : option IpPrefix :=
  reservations a !! seg.

Definition ensure_room (a : SegmentIpv4Allocator) : CoreResult () :=
  guard_err (MAX_RESERVED_PAN_SEGMENTS <=? size (reservations a))%nat
    (core_error CapabilityUnavailable "PAN segment allocator reservation limit reached")
  (Ok ()).

Definition segment_count (a : SegmentIpv4Allocator) : Z :=
  shl 32 1 (segment_prefix_len (alloc_pool a) - pool_prefix_len (alloc_pool a)).

Definition prefix_at (a : SegmentIpv4Allocator) (slot : Z) : CoreResult IpPrefix :=
  let host_bits := 32 - segment_prefix_len (alloc_pool a) in
  offset ← ok_or (checked_shl 32 slot host_bits)
    (core_error InvalidInput "IPv4 segment shift overflow");
  number ← ok_or (checked_add 32 (network (alloc_pool a)) offset)
    (core_error InvalidInput "IPv4 segment pool overflow");
  ip_prefix_new (V4 number) (segment_prefix_len (alloc_pool a)).

(** The first test is [len differs || normalized(prefix)? != prefix]: the
    normalization, and its error, are reached only when the lengths agree. *)
Definition ensure_prefix_in_pool (a : SegmentIpv4Allocator) (prefix : IpPrefix) : CoreResult () :=
  let not_canonical := core_error InvalidInput "not a canonical PAN segment prefix" in
  let pool := alloc_pool a in
  guard_err (negb (prefix_len prefix =? segment_prefix_len pool)) not_canonical
  (normal ← normalized_ipv4_prefix prefix;
   guard_err (negb (bool_decide (normal = prefix))) not_canonical
   match address prefix with
   | V6 _ => Err (core_error InvalidInput "PAN segment must be IPv4")
   | V4 addr =>
       let base := network pool in
       let sz := shl 32 1 (32 - segment_prefix_len pool) in
       guard_err ((addr <? base) || negb ((addr - base) mod sz =? 0)
                  || (segment_count a <=? (addr - base) / sz))
         (core_error InvalidInput "prefix outside BlueRoute address pool")
       (Ok ())
   end).

Definition set_reservations (a : SegmentIpv4Allocator) (r : gmap SegmentId IpPrefix) :
  SegmentIpv4Allocator := mkAllocator (alloc_pool a) r.

Definition reserve_exact (seg : SegmentId) (prefix : IpPrefix) (foreign : list IpPrefix) :
  stres SegmentIpv4Allocator CoreError IpPrefix := fun a =>
  match ensure_prefix_in_pool a prefix with
  | Err e => (Err e, a)
  | Ok _ =>
    match alloc_get a seg with
    | Some existing =>
        (if decide (existing = prefix)
         then (_ ← ensure_ipv4_segment_available existing foreign; Ok existing)
         else Err (core_error AddressConflict "segment already owns a different IPv4 prefix"), a)
    | None =>
        match (_ ← ensure_room a;
               _ ← ensure_ipv4_segment_available prefix (values (reservations a));
               ensure_ipv4_segment_available prefix foreign) with
        | Err e => (Err e, a)
        | Ok _ => (Ok prefix, set_reservations a (<[seg := prefix]> (reservations a)))
        end
    end
  end.

Definition reserve_bootstrap (net : NetworkId) (seg : SegmentId) (foreign : list IpPrefix) :
  stres SegmentIpv4Allocator CoreError IpPrefix := fun a =>
  match for_network net (alloc_pool a) with
  | Err e => (Err e, a)
  | Ok plan => reserve_exact seg (segment plan) foreign a
  end.

(** The probe loop of [allocate] over the remaining offsets. *)
Fixpoint probe (a : SegmentIpv4Allocator) (choices first : Z) (foreign : list IpPrefix)
    (offsets : list Z) : CoreResult (option IpPrefix) :=
  match offsets with
  | [] => Ok None
  | offset :: rest =>
      let slot := (first + offset) mod choices in
      candidate ← prefix_at a slot;
      if negb (is_ok (ensure_ipv4_segment_available candidate (values (reservations a))))
         || negb (is_ok (ensure_ipv4_segment_available candidate foreign))
      then probe a choices first foreign rest
      else Ok (Some candidate)
  end.

Definition first_slot (a : SegmentIpv4Allocator) (seg : SegmentId) : Z :=
  from_be_bytes (take 4 (bytes_list (as_bytes seg))) mod segment_count a.
Definition probe_offsets (a : SegmentIpv4Allocator) : list Z :=
  seqZ 0 (Z.min (segment_count a) MAX_PREFIX_PROBES).

Definition allocate (seg : SegmentId) (foreign : list IpPrefix) :
  stres SegmentIpv4Allocator CoreError IpPrefix := fun a =>
  match alloc_get a seg with
  | Some prefix => ((_ ← ensure_ipv4_segment_available prefix foreign; Ok prefix), a)
  | None =>
      match (_ ← ensure_room a;
             probe a (segment_count a) (first_slot a seg) foreign (probe_offsets a)) with
      | Err e => (Err e, a)
      | Ok (Some candidate) =>
          (Ok candidate, set_reservations a (<[seg := candidate]> (reservations a)))
      | Ok None =>
          (Err (core_error AddressConflict
                  "no conflict-free PAN prefix found in bounded IPv4 pool search"), a)
      end
  end.

Definition release (a : SegmentIpv4Allocator) (seg : SegmentId) :
  option IpPrefix * SegmentIpv4Allocator :=
  (reservations a !! seg, set_reservations a (delete seg (reservations a))).

(** ** The allocator's invariant *)

Definition slot_prefix (pool : Ipv4AddressPool) (slot : Z) : IpPrefix :=
  mkPrefix (V4 (slot_base pool slot)) (segment_prefix_len pool).

Definition in_pool (pool : Ipv4AddressPool) (p : IpPrefix) : Prop :=
  exists slot, 0 <= slot < segment_slots pool /\ p = slot_prefix pool slot.

Record alloc_inv (a : SegmentIpv4Allocator) : Prop := {
  inv_pool_rep : pool_rep (alloc_pool a);
  inv_pool_wf : pool_wf (alloc_pool a);
  inv_bounded : (size (reservations a) <= MAX_RESERVED_PAN_SEGMENTS)%nat;
  inv_in_pool : forall seg p, reservations a !! seg = Some p -> in_pool (alloc_pool a) p;
  inv_disjoint : forall seg seg' p p', seg <> seg' ->
    reservations a !! seg = Some p -> reservations a !! seg' = Some p' -> ~ prefixes_meet p p';
}.

Lemma in_pool_rep pool p :
  pool_wf pool -> in_pool pool p ->
  prefix_rep p /\ is_ipv4 (address p) = true /\ 8 <= prefix_len p <= 30.
Proof.
  intros Hwf (slot & Hslot & ->).
  destruct (slot_base_spec pool slot Hwf Hslot) as (_ & _ & _ & H0 & Hmax & H4 & _).
  destruct Hwf as (Hle & H30 & _ & _ & Hr%rfc1918_len).
  unfold prefix_rep, u_max in *; simpl. unfold u_max. lia.
Qed.

Lemma prefix_at_ok a slot :
  pool_wf (alloc_pool a) -> 0 <= slot < segment_slots (alloc_pool a) ->
  prefix_at a slot = Ok (slot_prefix (alloc_pool a) slot).
Proof.
  intros Hwf Hslot. destruct (slot_base_spec _ slot Hwf Hslot) as (_ & Hs & Ha & _).
  unfold prefix_at. rewrite Hs. simpl. rewrite Ha. simpl.
  apply ip_prefix_new_ok. simpl. destruct Hwf; lia.
Qed.

Lemma prefixes_meet_sym p q : prefixes_meet p q -> prefixes_meet q p.
Proof. intros (ip & ? & ?). by exists ip. Qed.

(** The reservation lookup accepts exactly the prefixes of the pool's slots. *)
Lemma ensure_prefix_in_pool_iff a p :
  pool_wf (alloc_pool a) -> prefix_rep p ->
  ensure_prefix_in_pool a p = Ok () <-> in_pool (alloc_pool a) p.
Proof.
  intros Hwf Hrep. unfold ensure_prefix_in_pool, segment_count.
  destruct (segment_count_slots _ Hwf) as [-> Hpos].
  pose proof Hwf as (Hle & H30 & _). set (pool := alloc_pool a) in *.
  assert (shl 32 1 (32 - segment_prefix_len pool) = 2 ^ (32 - segment_prefix_len pool)) as ->.
  { destruct Hwf as (_ & _ & _ & _ & Hr%rfc1918_len). rewrite shl_mod, Z.mul_1_l by lia.
    apply Z.mod_small. split; [apply Z.pow_nonneg; lia | apply Z.pow_lt_mono_r; lia]. }
  set (sz := 2 ^ (32 - segment_prefix_len pool)).
  assert (0 < sz) as Hsz by (apply pow2_pos; lia).
  rewrite guard_err_Ok, negb_false_iff, Z.eqb_eq, result_bind_Ok. split.
  - intros (Hlen & n & Hn & [Heq Hrest]%guard_err_Ok).
    apply negb_false_iff, bool_decide_eq_true in Heq as ->.
    destruct p as [[addr|] len]; simpl in *; [|done]. subst len.
    apply guard_err_Ok in Hrest as [Hr _].
    rewrite !orb_false_iff, negb_false_iff, Z.ltb_ge, Z.eqb_eq, Z.leb_gt in Hr.
    exists ((addr - network pool) / sz). split; [split; [apply Z.div_pos; lia | lia]|].
    unfold slot_prefix, slot_base. fold sz. do 2 f_equal.
    pose proof (Z.div_mod (addr - network pool) sz ltac:(lia)). lia.
  - intros (slot & Hslot & ->).
    destruct (slot_base_spec pool slot Hwf Hslot) as (_ & _ & _ & H0 & Hmax & _ & Hmod & _).
    split; [done|]. exists (slot_prefix pool slot). fold sz in Hmod, Hmax. split.
    + unfold slot_prefix at 1. rewrite normalized_ok by (fold sz; lia).
      fold sz. by rewrite Hmod, Z.sub_0_r.
    + rewrite bool_decide_eq_true_2 by done. simpl.
      assert (slot_base pool slot - network pool = slot * sz) as -> by (unfold slot_base; fold sz; lia).
      rewrite Z.mod_mul, Z.div_mul by lia. apply guard_err_Ok. split; [|done].
      rewrite !orb_false_iff, negb_false_iff, Z.ltb_ge, Z.eqb_eq, Z.leb_gt.
      unfold slot_base. fold sz. nia.
Qed.

(** A pool prefix clears the check against the reservations exactly when it
    shares no address with any of them. *)
Lemma available_reserved a p :
  alloc_inv a -> in_pool (alloc_pool a) p ->
  ensure_ipv4_segment_available p (values (reservations a)) = Ok () <->
  (forall seg q, reservations a !! seg = Some q -> ~ prefixes_meet p q).
Proof.
  intros [_ Hwf _ Hin _] Hp. destruct (in_pool_rep _ _ Hwf Hp) as (Hrep & H4 & Hlen).
  rewrite ensure_available_iff; [| done |].
  - rewrite Forall_forall. setoid_rewrite elem_of_values. split.
    + intros (_ & _ & Hall) seg q Hq.
      destruct (in_pool_rep _ _ Hwf (Hin _ _ Hq)) as (_ & Hq4 & Hql).
      destruct (Hall q) as [_ Hn]; [by exists seg|done|lia|done].
    + intros Hall. split; [done|]. split; [lia|]. intros q (seg & Hq) _ _.
      destruct (in_pool_rep _ _ Hwf (Hin _ _ Hq)) as (_ & _ & Hql).
      split; [lia | by eapply Hall].
  - apply Forall_forall. intros q (seg & Hq)%elem_of_values.
    by destruct (in_pool_rep _ _ Hwf (Hin _ _ Hq)).
Qed.

Lemma ensure_room_Ok a :
  ensure_room a = Ok () <-> (size (reservations a) < MAX_RESERVED_PAN_SEGMENTS)%nat.
Proof. unfold ensure_room. rewrite guard_err_Ok, Nat.leb_gt. naive_solver. Qed.

(** Adding one more disjoint pool prefix. *)
Lemma alloc_inv_insert a seg p :
  alloc_inv a -> in_pool (alloc_pool a) p -> reservations a !! seg = None ->
  (size (reservations a) < MAX_RESERVED_PAN_SEGMENTS)%nat ->
  (forall s q, reservations a !! s = Some q -> ~ prefixes_meet p q) ->
  alloc_inv (set_reservations a (<[seg := p]> (reservations a))).
Proof.
  intros [Hrep Hwf Hb Hin Hdis] Hp Hnone Hroom Hfree. split; simpl; [done|done| | |].
  - rewrite map_size_insert_None by done. lia.
  - intros s q. rewrite lookup_insert_Some. intros [[-> ->]|[_ Hq]]; eauto.
  - intros s s' q q' Hne. rewrite !lookup_insert_Some.
    intros [[<- <-]|[_ Hq]] [[<- <-]|[_ Hq']]; [done|by eapply Hfree| |by eapply Hdis].
    intros Hm%prefixes_meet_sym. by eapply Hfree.
Qed.

(** ** Preservation by every operation *)

Lemma alloc_new_inv pool a :
  pool_rep pool -> alloc_new pool = Ok a -> alloc_inv a.
Proof.
  unfold alloc_new. intros Hrep ([] & Hv & [= <-])%result_bind_Ok.
  split; simpl; [done | by apply pool_validate_wf | | |].
  - rewrite map_size_empty. lia.
  - intros ? ?. by rewrite lookup_empty.
  - intros ? ? ? ? ?. by rewrite lookup_empty.
Qed.

(** A successful reservation is a pool prefix that is now held by the segment;
    a failed one leaves the allocator as it was. *)
Lemma reserve_exact_spec a seg p foreign r a' :
  alloc_inv a -> prefix_rep p -> reserve_exact seg p foreign a = (r, a') ->
  alloc_inv a' /\ alloc_pool a' = alloc_pool a /\
  match r with
  | Ok q => q = p /\ in_pool (alloc_pool a) p /\
      ensure_ipv4_segment_available p foreign = Ok () /\
      reservations a' = <[seg := p]> (reservations a)
  | Err _ => a' = a
  end.
Proof.
  intros Hinv Hrep. unfold reserve_exact, alloc_get.
  destruct (ensure_prefix_in_pool a p) as [[]|e] eqn:Hpool; [|by intros [= <- <-]].
  apply ensure_prefix_in_pool_iff in Hpool; [|apply Hinv|done].
  destruct (reservations a !! seg) as [old|] eqn:Hold.
  - intros [= <- <-]. destruct (decide (old = p)) as [->|]; [|done].
    split; [done|]. split; [done|].
    destruct (ensure_ipv4_segment_available p foreign) as [[]|]; simpl; [|done].
    by rewrite insert_id.
  - destruct (ensure_room a) as [[]|] eqn:Hroom; simpl; [|by intros [= <- <-]].
    destruct (ensure_ipv4_segment_available p (values (reservations a))) as [[]|] eqn:Hav; simpl;
      [|by intros [= <- <-]].
    destruct (ensure_ipv4_segment_available p foreign) as [[]|] eqn:Hf; simpl;
      intros [= <- <-]; [|done].
    split; [|done]. apply alloc_inv_insert; try done.
    + by apply ensure_room_Ok.
    + by apply available_reserved.
Qed.

(** The base address and length of the bootstrap prefix are those of a pool
    slot, so its representation is in range. *)
Lemma for_network_segment_rep net pool plan :
  pool_rep pool -> for_network net pool = Ok plan -> prefix_rep (segment plan).
Proof.
  intros Hrep. unfold for_network.
  intros ([] & Hv & Hrest)%result_bind_Ok. cbv zeta in Hrest.
  apply pool_validate_wf in Hv; [|done].
  destruct (segment_count_slots pool Hv) as [Hcount Hpos]. rewrite Hcount in Hrest.
  set (sel := from_be_bytes _ mod _) in Hrest.
  assert (0 <= sel < segment_slots pool) as Hsel by (apply Z.mod_pos_bound; lia).
  destruct (slot_base_spec pool sel Hv Hsel) as (Hshl & _ & Hadd & H0 & Hmax & H4 & _).
  rewrite Hshl, Hadd in Hrest. simpl in Hrest.
  apply result_bind_Ok in Hrest as (h & _ & Hrest).
  apply result_bind_Ok in Hrest as (c & _ & Hrest).
  apply result_bind_Ok in Hrest as (s & [_ [= <-]]%guard_err_Ok & Hrest).
  apply result_bind_Ok in Hrest as (? & _ & Hrest).
  apply result_bind_Ok in Hrest as (? & _ & [= <-]).
  destruct Hrep as (_ & _ & Hs). unfold prefix_rep; simpl. lia.
Qed.

Lemma reserve_bootstrap_inv a net seg foreign r a' :
  alloc_inv a -> reserve_bootstrap net seg foreign a = (r, a') ->
  alloc_inv a' /\ alloc_pool a' = alloc_pool a.
Proof.
  intros Hinv. unfold reserve_bootstrap.
  destruct (for_network net (alloc_pool a)) as [plan|e] eqn:Hplan; [|by intros [= <- <-]].
  intros H. apply reserve_exact_spec in H as (? & ? & _); [done..|].
  eapply for_network_segment_rep; [apply Hinv | done].
Qed.

(** What a probe decides about one slot. *)
Definition slot_free (a : SegmentIpv4Allocator) (foreign : list IpPrefix) (slot : Z) : Prop :=
  (forall seg q, reservations a !! seg = Some q ->
     ~ prefixes_meet (slot_prefix (alloc_pool a) slot) q) /\
  Forall (fun p => is_ipv4 (address p) = true -> prefix_len p <> 0 ->
     prefix_len p <= 32 /\ ~ prefixes_meet (slot_prefix (alloc_pool a) slot) p) foreign.

Lemma is_ok_unit {E : Type} (r : result E ()) : is_ok r = true <-> r = Ok ().
Proof. destruct r as [[]|]; simpl; split; congruence. Qed.

Lemma slot_free_check a foreign slot :
  alloc_inv a -> Forall prefix_rep foreign -> 0 <= slot < segment_slots (alloc_pool a) ->
  let c := slot_prefix (alloc_pool a) slot in
  negb (is_ok (ensure_ipv4_segment_available c (values (reservations a))))
    || negb (is_ok (ensure_ipv4_segment_available c foreign)) = false <-> slot_free a foreign slot.
Proof.
  intros Hinv Hfor Hslot c. rewrite orb_false_iff, !negb_false_iff, !is_ok_unit.
  assert (in_pool (alloc_pool a) c) as Hin by (by exists slot).
  destruct (in_pool_rep _ _ (inv_pool_wf a Hinv) Hin) as (Hrep & H4 & Hlen).
  rewrite (available_reserved a c Hinv Hin), (ensure_available_iff c foreign Hrep Hfor).
  unfold slot_free, c. naive_solver lia.
Qed.

(** The probe loop returns the first free slot of its list of offsets. *)
Lemma probe_spec a first foreign offsets :
  alloc_inv a -> Forall prefix_rep foreign ->
  let slot_of off := (first + off) mod segment_slots (alloc_pool a) in
  match probe a (segment_slots (alloc_pool a)) first foreign offsets with
  | Ok (Some p) => exists pre off post, offsets = pre ++ off :: post /\
      p = slot_prefix (alloc_pool a) (slot_of off) /\ slot_free a foreign (slot_of off) /\
      Forall (fun o => ~ slot_free a foreign (slot_of o)) pre
  | Ok None => Forall (fun o => ~ slot_free a foreign (slot_of o)) offsets
  | Err _ => False
  end.
Proof.
  intros Hinv Hfor slot_of. pose proof (inv_pool_wf a Hinv) as Hwf.
  destruct (segment_count_slots _ Hwf) as [_ Hpos].
  induction offsets as [|off rest IH]; simpl; [done|].
  assert (0 <= slot_of off < segment_slots (alloc_pool a)) as Hslot by (apply Z.mod_pos_bound; lia).
  fold (slot_of off). rewrite prefix_at_ok by done. simpl.
  pose proof (slot_free_check a foreign (slot_of off) Hinv Hfor Hslot) as Hchk. cbv zeta in Hchk.
  destruct (_ || _).
  - assert (~ slot_free a foreign (slot_of off)) as Hnf by (intros ?%Hchk; done).
    destruct (probe _ _ _ _ rest) as [[p|]|]; [|by constructor|done].
    destruct IH as (pre & o & post & -> & Hp & Hf & Hall).
    exists (off :: pre), o, post. split; [done|]. split; [done|]. split; [done|by constructor].
  - exists [], off, rest. split; [done|]. split; [done|]. split; [by apply Hchk | done].
Qed.

Lemma allocate_spec a seg foreign :
  alloc_inv a -> Forall prefix_rep foreign -> reservations a !! seg = None ->
  (size (reservations a) < MAX_RESERVED_PAN_SEGMENTS)%nat ->
  let slot_of off := (first_slot a seg + off) mod segment_slots (alloc_pool a) in
  match allocate seg foreign a with
  | (Ok p, a') => exists pre off post, probe_offsets a = pre ++ off :: post /\
      p = slot_prefix (alloc_pool a) (slot_of off) /\ slot_free a foreign (slot_of off) /\
      Forall (fun o => ~ slot_free a foreign (slot_of o)) pre /\
      a' = set_reservations a (<[seg := p]> (reservations a))
  | (Err e, a') => a' = a /\ kind e = AddressConflict /\
      Forall (fun o => ~ slot_free a foreign (slot_of o)) (probe_offsets a)
  end.
Proof.
  intros Hinv Hfor Hnone Hroom. unfold allocate, alloc_get. rewrite Hnone. cbv zeta.
  rewrite (proj2 (ensure_room_Ok a) Hroom). cbn [mbind result_bind].
  pose proof (probe_spec a (first_slot a seg) foreign (probe_offsets a) Hinv Hfor) as Hp.
  cbv zeta in Hp. destruct (segment_count_slots _ (inv_pool_wf a Hinv)) as [Hcount _].
  unfold segment_count at 1. rewrite Hcount.
  destruct (probe _ _ _ _ _) as [[p|]|]; [|done|done].
  destruct Hp as (pre & off & post & Ho & -> & Hf & Hall).
  exists pre, off, post. done.
Qed.

Lemma allocate_inv a seg foreign r a' :
  alloc_inv a -> Forall prefix_rep foreign -> allocate seg foreign a = (r, a') ->
  alloc_inv a' /\ alloc_pool a' = alloc_pool a.
Proof.
  intros Hinv Hfor Ha. destruct (reservations a !! seg) as [p|] eqn:Hs.
  { unfold allocate, alloc_get in Ha. rewrite Hs in Ha. by injection Ha as _ <-. }
  destruct (decide (size (reservations a) < MAX_RESERVED_PAN_SEGMENTS)%nat) as [Hroom|Hfull].
  - pose proof (allocate_spec a seg foreign Hinv Hfor Hs Hroom) as Hspec. cbv zeta in Hspec.
    rewrite Ha in Hspec. destruct r as [p|e].
    + destruct Hspec as (pre & off & post & _ & -> & [Hfree _] & _ & ->). split; [|done].
      apply alloc_inv_insert; try done. eexists. split; [|done]. apply Z.mod_pos_bound.
      apply (segment_count_slots _ (inv_pool_wf a Hinv)).
    + by destruct Hspec as (-> & _).
  - unfold allocate, alloc_get in Ha. rewrite Hs in Ha.
    destruct (ensure_room a) as [[]|] eqn:Hr; [by apply ensure_room_Ok in Hr|].
    by injection Ha as _ <-.
Qed.

Lemma release_inv a seg : alloc_inv a -> alloc_inv (release a seg).2.
Proof.
  intros [Hrep Hwf Hb Hin Hdis]. split; simpl; [done|done| | |].
  - etrans; [apply map_subseteq_size, delete_subseteq | done].
  - intros s p [_ Hp]%lookup_delete_Some. eauto.
  - intros s s' p p' Hne [_ Hp]%lookup_delete_Some [_ Hp']%lookup_delete_Some. eauto.
Qed.

(** ** Reachable allocators *)

(** One call of the public interface; the arguments are any values the Rust
    types can hold. *)
Inductive alloc_step (a : SegmentIpv4Allocator) : SegmentIpv4Allocator -> Prop :=
| step_reserve_exact seg p foreign r a' :
    prefix_rep p -> reserve_exact seg p foreign a = (r, a') -> alloc_step a a'
| step_reserve_bootstrap net seg foreign r a' :
    reserve_bootstrap net seg foreign a = (r, a') -> alloc_step a a'
| step_allocate seg foreign r a' :
    Forall prefix_rep foreign -> allocate seg foreign a = (r, a') -> alloc_step a a'
| step_release seg : alloc_step a (release a seg).2.

Lemma alloc_step_inv a a' :
  alloc_inv a -> alloc_step a a' -> alloc_inv a' /\ alloc_pool a' = alloc_pool a.
Proof.
  intros Hinv [seg p foreign r a'' Hp H|net seg foreign r a'' H|seg foreign r a'' Hf H|seg].
  - by apply reserve_exact_spec in H as (? & ? & _).
  - by eapply reserve_bootstrap_inv.
  - by eapply allocate_inv.
  - split; [by apply release_inv | done].
Qed.

Lemma alloc_reachable_inv a a' :
  alloc_inv a -> rtc alloc_step a a' -> alloc_inv a' /\ alloc_pool a' = alloc_pool a.
Proof.
  intros Hinv Hr. revert Hinv. induction Hr as [a|a a' a'' Hstep _ IH]; [done|].
  intros Hinv. destruct (alloc_step_inv _ _ Hinv Hstep) as [Hinv' Heq].
  destruct (IH Hinv') as [? ->]. done.
Qed.

(** C6. Whatever sequence of reservations, allocations and releases is issued
    on an allocator made from a valid pool: at most 256 prefixes are held, each
    one is a slot of the pool made of private addresses only, and the prefixes
    of two different segments never share an address. *)
Theorem reachable_reservations_disjoint (pool : Ipv4AddressPool) (a0 a : SegmentIpv4Allocator)
    (Hrep : pool_rep pool) (Hnew : alloc_new pool = Ok a0) (Hreach : rtc alloc_step a0 a) :
  (size (reservations a) <= MAX_RESERVED_PAN_SEGMENTS)%nat /\
  (forall seg p, reservations a !! seg = Some p ->
     in_pool pool p /\ forall ip, in_prefix p ip -> rfc1918 ip) /\
  (forall seg seg' p p', seg <> seg' -> reservations a !! seg = Some p ->
     reservations a !! seg' = Some p' -> ~ prefixes_meet p p').
Proof.
  pose proof (alloc_new_inv pool a0 Hrep Hnew) as Hinv0.
  assert (alloc_pool a0 = pool) as Hpool0.
  { unfold alloc_new in Hnew. apply result_bind_Ok in Hnew as (_ & _ & [= <-]). done. }
  destruct (alloc_reachable_inv a0 a Hinv0 Hreach) as [[_ Hwf Hb Hin Hdis] Hpool].
  rewrite Hpool, Hpool0 in *. split; [done|]. split; [|done].
  intros seg p Hp. specialize (Hin seg p Hp). split; [done|].
  destruct Hin as (slot & Hslot & ->). intros ip [Hr Hip]. simpl in *.
  destruct (slot_base_spec pool slot Hwf Hslot) as (_ & _ & _ & H0 & Hmax & _ & Hmod & Hblk).
  pose proof Hwf as (Hle & H30 & Hn & _ & Hrfc).
  apply same_block in Hip; [|lia|done].
  apply (rfc1918_block (network pool) (pool_prefix_len pool)); [done|lia|done|by apply Hblk].
Qed.

Definition demo_alloc0 : SegmentIpv4Allocator := mkAllocator pool_default ∅.
Definition demo_alloc1 : SegmentIpv4Allocator := (allocate (fill_id 1) [] demo_alloc0).2.
Definition demo_alloc2 : SegmentIpv4Allocator :=
  (reserve_bootstrap (fill_id 7) (fill_id 2) [] demo_alloc1).2.

Lemma pool_default_rep : pool_rep pool_default.
Proof. unfold pool_rep, u_max; simpl. lia. Qed.

Lemma reachable_reservations_disjoint_witness :
  alloc_new pool_default = Ok demo_alloc0 /\
  reservations demo_alloc2 !! fill_id 1 = Some (mkPrefix (V4 0x0ac90100) 24) /\
  reservations demo_alloc2 !! fill_id 2 = Some (mkPrefix (V4 0x0ac90700) 24) /\
  ~ prefixes_meet (mkPrefix (V4 0x0ac90100) 24) (mkPrefix (V4 0x0ac90700) 24).
Proof.
  assert (alloc_new pool_default = Ok demo_alloc0) as Hnew by (vm_compute; reflexivity).
  assert (rtc alloc_step demo_alloc0 demo_alloc2) as Hreach.
  { apply rtc_l with demo_alloc1.
    - apply (step_allocate _ (fill_id 1) [] (allocate (fill_id 1) [] demo_alloc0).1);
        [constructor | apply surjective_pairing].
    - apply rtc_once.
      apply (step_reserve_bootstrap _ (fill_id 7) (fill_id 2) []
               (reserve_bootstrap (fill_id 7) (fill_id 2) [] demo_alloc1).1).
      apply surjective_pairing. }
  assert (reservations demo_alloc2 !! fill_id 1 = Some (mkPrefix (V4 0x0ac90100) 24)) as H1
    by (vm_compute; reflexivity).
  assert (reservations demo_alloc2 !! fill_id 2 = Some (mkPrefix (V4 0x0ac90700) 24)) as H2
    by (vm_compute; reflexivity).
  split; [exact Hnew|]. split; [exact H1|]. split; [exact H2|].
  destruct (reachable_reservations_disjoint pool_default demo_alloc0 demo_alloc2
              pool_default_rep Hnew Hreach) as (_ & _ & Hdis).
  apply (Hdis (fill_id 1) (fill_id 2)); [|exact H1|exact H2].
  by apply (bool_decide_unpack _).
Defined.

(** Allocation for a new segment is a complete bounded search: it returns
    the first free slot in probing order (starting at the slot the segment's
    identity selects, wrapping around the pool) and records it; it fails only
    with an address conflict, leaving the allocator unchanged, when every probed
    slot is taken, which for a pool of at most 4096 segments means every slot of
    the pool. *)
Theorem allocate_first_free (a : SegmentIpv4Allocator) (seg : SegmentId) (foreign : list IpPrefix)
    (Hinv : alloc_inv a) (Hforeign : Forall prefix_rep foreign)
    (Hnew : reservations a !! seg = None)
    (Hroom : (size (reservations a) < MAX_RESERVED_PAN_SEGMENTS)%nat) :
  let slots := segment_slots (alloc_pool a) in
  let slot_of off := (first_slot a seg + off) mod slots in
  let probes := Z.min slots MAX_PREFIX_PROBES in
  match allocate seg foreign a with
  | (Ok p, a') => exists off, 0 <= off < probes /\
      p = slot_prefix (alloc_pool a) (slot_of off) /\ slot_free a foreign (slot_of off) /\
      (forall o, 0 <= o < off -> ~ slot_free a foreign (slot_of o)) /\
      a' = set_reservations a (<[seg := p]> (reservations a))
  | (Err e, a') => a' = a /\ kind e = AddressConflict /\
      (forall o, 0 <= o < probes -> ~ slot_free a foreign (slot_of o)) /\
      (slots <= MAX_PREFIX_PROBES -> forall s, 0 <= s < slots -> ~ slot_free a foreign s)
  end.
Proof.
  intros slots slot_of probes.
  destruct (segment_count_slots _ (inv_pool_wf a Hinv)) as [Hcount Hpos].
  assert (probe_offsets a = seqZ 0 probes) as Hoffs.
  { unfold probe_offsets, segment_count. by rewrite Hcount. }
  pose proof (allocate_spec a seg foreign Hinv Hforeign Hnew Hroom) as Hspec.
  cbv zeta in Hspec. rewrite Hoffs in Hspec. fold slots in Hspec.
  destruct (allocate seg foreign a) as [[p|e] a'].
  - destruct Hspec as (pre & off & post & Hsplit & -> & Hfree & Hpre & ->).
    assert (forall i o, (pre ++ off :: post) !! i = Some o -> o = Z.of_nat i /\ 0 <= o < probes) as Hlk.
    { intros i o. rewrite <- Hsplit. rewrite lookup_seqZ. lia. }
    assert (off = Z.of_nat (length pre) /\ 0 <= off < probes) as [Hoff Hr].
    { apply Hlk. by rewrite list_lookup_middle. }
    exists off. split; [done|]. split; [done|]. split; [done|]. split; [|done].
    intros o Ho. rewrite Forall_forall in Hpre. apply (Hpre o).
    destruct (lookup_lt_is_Some_2 pre (Z.to_nat o)) as [o' Ho']; [lia|].
    assert (o' = o) as <-; [|by eapply list_elem_of_lookup_2].
    destruct (Hlk (Z.to_nat o) o') as [-> _]; [by apply lookup_app_l_Some | lia].
  - destruct Hspec as (-> & Hk & Hall). split; [done|]. split; [done|].
    assert (forall o, 0 <= o < probes -> ~ slot_free a foreign (slot_of o)) as Hno.
    { intros o Ho. rewrite Forall_forall in Hall. apply (Hall o), elem_of_seqZ. lia. }
    split; [done|]. intros Hsmall s Hs. unfold probes in Hno. rewrite Z.min_l in Hno by done.
    specialize (Hno ((s - first_slot a seg) mod slots)).
    assert (slot_of ((s - first_slot a seg) mod slots) = s) as Heq.
    { unfold slot_of. rewrite Zplus_mod_idemp_r.
      replace (first_slot a seg + (s - first_slot a seg)) with s by lia. by apply Z.mod_small. }
    rewrite Heq in Hno. apply Hno, Z.mod_pos_bound. lia.
Qed.

(** The preferred slot of segment [01..] is taken by a live host route, so the
    next one is used. *)
Lemma allocate_first_free_witness :
  alloc_inv demo_alloc0 /\
  (allocate (fill_id 1) [mkPrefix (V4 0x0ac90117) 32] demo_alloc0).1 =
    Ok (mkPrefix (V4 0x0ac90200) 24) /\
  exists off, 0 <= off < 256 /\
    slot_free demo_alloc0 [mkPrefix (V4 0x0ac90117) 32]
      ((first_slot demo_alloc0 (fill_id 1) + off) mod segment_slots pool_default).
Proof.
  assert (alloc_inv demo_alloc0) as Hinv.
  { apply (alloc_new_inv pool_default); [apply pool_default_rep | vm_compute; reflexivity]. }
  assert ((allocate (fill_id 1) [mkPrefix (V4 0x0ac90117) 32] demo_alloc0).1 =
          Ok (mkPrefix (V4 0x0ac90200) 24)) as Hok by (vm_compute; reflexivity).
  split; [exact Hinv|]. split; [exact Hok|].
  pose proof (allocate_first_free demo_alloc0 (fill_id 1) [mkPrefix (V4 0x0ac90117) 32] Hinv
    ltac:(repeat constructor; unfold u_max; simpl; lia) ltac:(vm_compute; reflexivity)
    ltac:(vm_compute; lia)) as H. cbv zeta in H.
  destruct (allocate _ _ _) as [[p|e] a']; [|discriminate].
  destruct H as (off & Hoff & _ & Hfree & _). exists off. split; [|exact Hfree].
  change (segment_slots (alloc_pool demo_alloc0)) with 256 in Hoff. unfold MAX_PREFIX_PROBES in Hoff. lia.
Defined.

(** A reservation is stable: once a segment holds a prefix, allocating for
    it again, or reserving the same prefix again, returns that prefix and
    changes nothing as long as no live host prefix collides with it; reserving
    a different prefix for it is refused; and after release the segment holds
    nothing. *)
Theorem reservation_stable (a : SegmentIpv4Allocator) (seg : SegmentId) (p q : IpPrefix)
    (foreign : list IpPrefix) (Hinv : alloc_inv a) (Hheld : reservations a !! seg = Some p)
    (Hq : prefix_rep q) :
  (ensure_ipv4_segment_available p foreign = Ok () ->
     allocate seg foreign a = (Ok p, a) /\ reserve_exact seg p foreign a = (Ok p, a)) /\
  (q <> p -> exists e, reserve_exact seg q foreign a = (Err e, a)) /\
  alloc_get (release a seg).2 seg = None.
Proof.
  assert (forall x, prefix_rep x -> exists r, reserve_exact seg x foreign a = (r, a) /\
     (x = p -> ensure_ipv4_segment_available p foreign = Ok () -> r = Ok p) /\
     (x <> p -> exists e, r = Err e)) as Hres.
  { intros x Hx. unfold reserve_exact, alloc_get. rewrite Hheld.
    destruct (ensure_prefix_in_pool a x) as [[]|e] eqn:Hpool.
    - eexists. split; [done|]. destruct (decide (p = x)) as [->|Hne].
      + split; [by intros _ ->|done].
      + split; [by intros ->|by eexists].
    - exists (Err e). split; [done|]. split; [|by eexists]. intros ->.
      apply (inv_in_pool a Hinv), (ensure_prefix_in_pool_iff a p (inv_pool_wf a Hinv) Hx) in Hheld.
      congruence. }
  split; [|split].
  - intros Hf. split; [unfold allocate, alloc_get; by rewrite Hheld, Hf|].
    destruct (in_pool_rep _ _ (inv_pool_wf a Hinv) (inv_in_pool a Hinv _ _ Hheld)) as [Hp _].
    destruct (Hres p Hp) as (r & Hr & Hok & _). by rewrite Hr, (Hok eq_refl Hf).
  - intros Hne. destruct (Hres q Hq) as (r & Hr & _ & Herr).
    destruct (Herr Hne) as [e ->]. by exists e.
  - unfold alloc_get, release; simpl. apply lookup_delete_eq.
Qed.

Lemma reservation_stable_witness :
  reservations demo_alloc1 !! fill_id 1 = Some (mkPrefix (V4 0x0ac90100) 24) /\
  exists e, reserve_exact (fill_id 1) (mkPrefix (V4 0x0ac90200) 24) [] demo_alloc1 =
            (Err e, demo_alloc1).
Proof.
  assert (alloc_inv demo_alloc0) as Hinv0.
  { apply (alloc_new_inv pool_default); [apply pool_default_rep | vm_compute; reflexivity]. }
  assert (alloc_inv demo_alloc1) as Hinv.
  { apply (allocate_inv demo_alloc0 (fill_id 1) [] (allocate (fill_id 1) [] demo_alloc0).1);
      [exact Hinv0 | constructor | apply surjective_pairing]. }
  assert (reservations demo_alloc1 !! fill_id 1 = Some (mkPrefix (V4 0x0ac90100) 24)) as H1
    by (vm_compute; reflexivity).
  split; [exact H1|].
  apply (reservation_stable demo_alloc1 (fill_id 1) (mkPrefix (V4 0x0ac90100) 24)
           (mkPrefix (V4 0x0ac90200) 24) [] Hinv H1).
  - unfold prefix_rep, ip_ok, u_max; simpl. lia.
  - discriminate.
Defined.
