(* ===== verification/Topology.v ===== *)
(** The PAN topology graph: [crates/blueroute-core/src/topology.rs] and the
    forwarding decision of [forwarding_policy.rs]. *)

From S2P Require Import Prelude Order Ident Capability.

(** ** Data *)

Inductive LinkState := Planned | Connecting | Active | Disconnected | LinkStateFailed.
Inductive LinkHealth := HealthUnknown | LinkHealthy | LinkDegraded | LinkHealthFailed.
Inductive Reachability := Local | DirectLink | SamePanSegment | Routed | Unreachable.

#[global] Instance LinkState_eq_dec : EqDecision LinkState.
Proof. solve_decision. Defined.
#[global] Instance LinkHealth_eq_dec : EqDecision LinkHealth.
Proof. solve_decision. Defined.
#[global] Instance Reachability_eq_dec : EqDecision Reachability.
Proof. solve_decision. Defined.

Record PanLink := mkLink {
  link_id : LinkId;
  link_segment : SegmentId;
  link_nap : NodeId;
  link_panu : NodeId;
  link_state : LinkState;
  link_health : LinkHealth;
  link_cost : Z;
}.

Definition is_forwarding_candidate (l : PanLink) : bool :=
  bool_decide (link_state l = Active) && bool_decide (link_health l <> LinkHealthFailed).

Definition other_endpoint (l : PanLink) (node : NodeId) : option NodeId :=
  if decide (node = link_nap l) then Some (link_panu l)
  else if decide (node = link_panu l) then Some (link_nap l)
  else None.

Record PanSegment := mkSegment {
  segment_id : SegmentId;
  segment_nap : NodeId;
  members : gset NodeId;
}.

Definition segment_new (id : SegmentId) (nap : NodeId) : PanSegment := mkSegment id nap {[nap]}.
Definition with_members (s : PanSegment) (m : gset NodeId) : PanSegment :=
  mkSegment (segment_id s) (segment_nap s) m.
Definition add_member (s : PanSegment) (node : NodeId) : PanSegment :=
  with_members s ({[node]} ∪ members s).
Definition remove_member (s : PanSegment) (node : NodeId) : PanSegment :=
  with_members s (members s ∖ {[node]}).

Record TopologyGraph := mkGraph {
  g_nodes : gmap NodeId NodeCapabilities;
  g_links : gmap LinkId PanLink;
  g_segments : gmap SegmentId PanSegment;
}.

Definition graph_default : TopologyGraph := mkGraph ∅ ∅ ∅.

(** ** Operations *)

Definition topology_error (m : string) : CoreError := core_error TopologyFailure m.

(** Returns whether the node was new. *)
Definition add_node (g : TopologyGraph) (id : NodeId) (caps : NodeCapabilities) :
  bool * TopologyGraph :=
  (bool_decide (g_nodes g !! id = None),
   mkGraph (<[id := caps]> (g_nodes g)) (g_links g) (g_segments g)).

Definition link_avoids (id : NodeId) (l : PanLink) : Prop := link_nap l <> id /\ link_panu l <> id.
#[global] Instance link_avoids_dec id l : Decision (link_avoids id l).
Proof. unfold link_avoids. apply _. Defined.

Definition remove_node (g : TopologyGraph) (id : NodeId) :
  option NodeCapabilities * TopologyGraph :=
  match g_nodes g !! id with
  | None => (None, g)
  | Some removed =>
      (Some removed,
       mkGraph (delete id (g_nodes g))
               (filter (fun kv => link_avoids id kv.2) (g_links g))
               ((fun s => remove_member s id) <$>
                  filter (fun kv => segment_nap kv.2 <> id) (g_segments g)))
  end.

Definition add_segment (g : TopologyGraph) (s : PanSegment) : CoreResult bool * TopologyGraph :=
  match g_nodes g !! segment_nap s with
  | None => (Err (topology_error "PAN segment NAP is not present in the topology"), g)
  | Some _ =>
      (Ok (bool_decide (g_segments g !! segment_id s = None)),
       mkGraph (g_nodes g) (g_links g) (<[segment_id s := s]> (g_segments g)))
  end.

Definition add_link (g : TopologyGraph) (l : PanLink) : CoreResult bool * TopologyGraph :=
  if decide (link_nap l = link_panu l)
  then (Err (topology_error "PAN link endpoints must be different nodes"), g)
  else match g_nodes g !! link_nap l, g_nodes g !! link_panu l with
  | Some _, Some _ =>
      match g_segments g !! link_segment l with
      | None => (Err (topology_error "PAN link references an unknown segment"), g)
      | Some s =>
          if decide (segment_nap s = link_nap l)
          then (Ok (bool_decide (g_links g !! link_id l = None)),
                mkGraph (g_nodes g) (<[link_id l := l]> (g_links g))
                        (<[link_segment l := add_member s (link_panu l)]> (g_segments g)))
          else (Err (topology_error "PAN link NAP does not match the segment NAP"), g)
      end
  | _, _ => (Err (topology_error "PAN link endpoint is not present in the topology"), g)
  end.

Definition remove_link (g : TopologyGraph) (id : LinkId) : option PanLink * TopologyGraph :=
  match g_links g !! id with
  | None => (None, g)
  | Some removed =>
      let links := delete id (g_links g) in
      let still_attached := existsb (fun l =>
        bool_decide (link_segment l = link_segment removed)
        && bool_decide (link_panu l = link_panu removed)) (values links) in
      let segments := match g_segments g !! link_segment removed with
        | Some s => if still_attached then g_segments g
                    else <[link_segment removed := remove_member s (link_panu removed)]> (g_segments g)
        | None => g_segments g
        end in
      (Some removed, mkGraph (g_nodes g) links segments)
  end.

Definition direct_neighbors (g : TopologyGraph) (node : NodeId) : gset NodeId :=
  list_to_set (omap (fun l => other_endpoint l node)
    (List.filter is_forwarding_candidate (values (g_links g)))).

(** *** Breadth-first search *)

(** The [while let Some(parent)] loop that rebuilds the path; the fuel bounds
    the number of parents followed.  [acc] is the path already reversed. *)
Fixpoint rebuild_path (fuel : nat) (previous : gmap NodeId NodeId) (start cursor : NodeId)
    (acc : list NodeId) : option (list NodeId) :=
  match fuel with
  | O => None
  | S fuel =>
      match previous !! cursor with
      | None => None
      | Some parent =>
          if decide (parent = start) then Some (parent :: acc)
          else rebuild_path fuel previous start parent (parent :: acc)
      end
  end.

Record bfs_state := mkBfs {
  bfs_queue : list NodeId;
  bfs_previous : gmap NodeId NodeId;
  bfs_visited : gset NodeId;
}.

(** The [for neighbor in self.direct_neighbors(current)] loop: either the path
    is found, or the search state goes on. *)
Fixpoint bfs_neighbors (start goal current : NodeId) (ns : list NodeId) (s : bfs_state) :
  list NodeId + bfs_state :=
  match ns with
  | [] => inr s
  | n :: ns' =>
      if decide (n ∈ bfs_visited s) then bfs_neighbors start goal current ns' s
      else
        let previous := <[n := current]> (bfs_previous s) in
        let s' := mkBfs (bfs_queue s ++ [n]) previous ({[n]} ∪ bfs_visited s) in
        if decide (n = goal) then
          match rebuild_path (S (size previous)) previous start goal [goal] with
          | Some path => inl path
          | None => bfs_neighbors start goal current ns' s'
          end
        else bfs_neighbors start goal current ns' s'
  end.

(** The [while let Some(current) = queue.pop_front()] loop; [None] is running
    out of fuel. *)
Fixpoint bfs (fuel : nat) (g : TopologyGraph) (start goal : NodeId) (s : bfs_state) :
  option (option (list NodeId)) :=
  match fuel with
  | O => None
  | S fuel =>
      match bfs_queue s with
      | [] => Some None
      | current :: rest =>
          match bfs_neighbors start goal current (iter_set (direct_neighbors g current))
                  (mkBfs rest (bfs_previous s) (bfs_visited s)) with
          | inl path => Some (Some path)
          | inr s' => bfs fuel g start goal s'
          end
      end
  end.

(** Every iteration takes a node off the queue and a node is queued at most
    once, so one iteration per link endpoint, one for the start and a last one
    on the empty queue suffice. *)
Definition bfs_fuel (g : TopologyGraph) : nat := 2 * size (g_links g) + 2.

Definition bfs_init (start : NodeId) : bfs_state := mkBfs [start] ∅ {[start]}.

Definition shortest_path (g : TopologyGraph) (start goal : NodeId) : option (list NodeId) :=
  match g_nodes g !! start, g_nodes g !! goal with
  | Some _, Some _ =>
      if decide (start = goal) then Some [start]
      else default None (bfs (bfs_fuel g) g start goal (bfs_init start))
  | _, _ => None
  end.

(** *** Reachability *)

Definition is_directly_reachable (g : TopologyGraph) (start goal : NodeId) : bool :=
  bool_decide (goal ∈ direct_neighbors g start).

Definition node_is_active_in_segment (g : TopologyGraph) (node : NodeId) (seg : SegmentId) : bool :=
  match g_segments g !! seg with
  | None => false
  | Some s =>
      bool_decide (node = segment_nap s)
      || existsb (fun l => bool_decide (link_segment l = seg) && bool_decide (link_panu l = node)
                           && is_forwarding_candidate l) (values (g_links g))
  end.

Definition reachability (g : TopologyGraph) (start goal : NodeId) : Reachability :=
  match shortest_path g start goal with
  | None => Unreachable
  | Some path =>
      if (length path =? 1)%nat then Local
      else if (length path =? 2)%nat then DirectLink
      else if existsb (fun s => node_is_active_in_segment g start (segment_id s)
                                && node_is_active_in_segment g goal (segment_id s))
                (values (g_segments g))
      then SamePanSegment else Routed
  end.

Definition is_routed_reachable (g : TopologyGraph) (start goal : NodeId) : bool :=
  bool_decide (reachability g start goal = Routed).

(** ** forwarding_policy.rs *)

Definition desired_ipv4_forwarding (g : TopologyGraph) (local : NodeId) : CoreResult bool :=
  caps ← ok_or (g_nodes g !! local) (core_error InvalidInput "local node is not in topology");
  if affirmative (can_route caps) then
    let active_segments : gset SegmentId := list_to_set (link_segment <$>
      List.filter (fun l => is_forwarding_candidate l
                            && (bool_decide (link_nap l = local) || bool_decide (link_panu l = local)))
        (values (g_links g))) in
    Ok (2 <=? size active_segments)%nat
  else Ok false.
