(* ===== verification/TopologySearch.v ===== *)
(** Correctness of the breadth-first search of [TopologyGraph::shortest_path]
    and of the reachability classes built on it. *)

From S2P Require Import Prelude Order Ident Capability Topology.

(** ** Paths in the active graph *)

(** A path follows links that forward. *)
Inductive path (g : TopologyGraph) : list NodeId -> Prop :=
| path_one u : path g [u]
| path_cons u v p : v ∈ direct_neighbors g u -> path g (v :: p) -> path g (u :: v :: p).

(** [walk g n u v]: there is a walk of [n] links from [u] to [v]. *)
Inductive walk (g : TopologyGraph) (u : NodeId) : nat -> NodeId -> Prop :=
| walk_0 : walk g u 0 u
| walk_S n v w : walk g u n v -> w ∈ direct_neighbors g v -> walk g u (S n) w.

Lemma path_snoc g p u v :
  path g (p ++ [u]) -> v ∈ direct_neighbors g u -> path g (p ++ [u; v]).
Proof.
  induction p as [|x p IH]; intros Hp Hv.
  - repeat constructor. done.
  - destruct p as [|y p]; simpl in *; inversion Hp; subst; constructor; auto.
Qed.

Lemma path_walk g p u v :
  path g p -> head p = Some u -> last p = Some v -> walk g u (length p - 1) v.
Proof.
  intros Hp Hh Hl. revert v Hp Hl. induction p as [|w p IH] using rev_ind; intros v Hp Hl; [done|].
  rewrite last_snoc in Hl. injection Hl as ->.
  destruct p as [|x p _] using rev_ind; [simpl in *; simplify_eq; constructor|].
  rewrite <- app_assoc in Hp. simpl in Hp.
  assert (path g (p ++ [x]) /\ v ∈ direct_neighbors g x) as [Hpx Hv].
  { clear IH Hh. revert Hp. induction p as [|y p IHp]; simpl.
    - inversion 1; subst. split; [constructor | done].
    - destruct p as [|z p]; simpl in *; inversion 1; subst.
      + destruct IHp; [done|]. split; [by constructor|done].
      + destruct IHp; [done|]. split; [by constructor|done]. }
  rewrite !length_app; simpl. replace (length p + 1 + 1 - 1) with (S (length p)) by lia.
  econstructor; [|done]. replace (length p) with (length (p ++ [x]) - 1) by (rewrite length_app; simpl; lia).
  apply IH; [|done|by rewrite last_snoc].
  destruct p; simpl in *; done.
Qed.

(** ** The search invariant *)

(** [d] gives every visited node its distance from the start. *)
Record bfs_inv (g : TopologyGraph) (start goal : NodeId) (d : gmap NodeId nat) (m : nat)
    (s : bfs_state) : Prop := {
  bi_dom : dom d = bfs_visited s;
  bi_start : d !! start = Some 0;
  bi_prev : forall v k, d !! v = Some k -> v <> start ->
    exists u j, bfs_previous s !! v = Some u /\ d !! u = Some j /\ k = S j /\
                v ∈ direct_neighbors g u;
  bi_min : forall v k n, d !! v = Some k -> walk g start n v -> k <= n;
  bi_prev_dom : dom (bfs_previous s) ⊆ bfs_visited s;
  bi_size : forall v k, d !! v = Some k -> k <= size (bfs_previous s);
  bi_queue : exists q1 q2, bfs_queue s = q1 ++ q2 /\
    Forall (fun v => d !! v = Some m) q1 /\ Forall (fun v => d !! v = Some (S m)) q2;
  bi_closed : forall v w, v ∈ bfs_visited s -> v ∉ bfs_queue s ->
    w ∈ direct_neighbors g v -> w ∈ bfs_visited s;
  bi_goal : goal ∉ bfs_visited s;
}.

Lemma bi_queue_depth g start goal d m s v :
  bfs_inv g start goal d m s -> v ∈ bfs_queue s -> d !! v = Some m \/ d !! v = Some (S m).
Proof.
  intros Hi Hv. destruct (bi_queue _ _ _ _ _ _ Hi) as (q1 & q2 & Hq & H1 & H2).
  rewrite Hq in Hv. rewrite Forall_forall in H1, H2.
  apply elem_of_app in Hv as [Hv|Hv]; [left; by apply H1 | right; by apply H2].
Qed.

(** A node that was not visited is farther than the frontier. *)
Lemma unvisited_far g start goal d m s n w :
  bfs_inv g start goal d m s -> walk g start n w -> w ∉ bfs_visited s -> S m <= n.
Proof.
  intros Hi. induction 1 as [|n v w Hw IH Hvw]; intros Hun.
  - destruct Hun. rewrite <- (bi_dom _ _ _ _ _ _ Hi). apply elem_of_dom.
    eexists. apply (bi_start _ _ _ _ _ _ Hi).
  - destruct (decide (v ∈ bfs_visited s)) as [Hv|Hv]; [|specialize (IH Hv); lia].
    destruct (decide (v ∈ bfs_queue s)) as [Hq|Hq].
    + destruct (bi_queue_depth _ _ _ _ _ _ _ Hi Hq) as [Hd|Hd];
        apply (bi_min _ _ _ _ _ _ Hi _ _ n Hd) in Hw; lia.
    + destruct Hun. by apply (bi_closed _ _ _ _ _ _ Hi v w).
Qed.

(** Following parents from a node at distance [S k] rebuilds a path with [S k]
    links. *)
Lemma rebuild_path_ok g start (d : gmap NodeId nat) prev :
  d !! start = Some 0 ->
  (forall v k, d !! v = Some k -> v <> start ->
     exists u j, prev !! v = Some u /\ d !! u = Some j /\ k = S j /\ v ∈ direct_neighbors g u) ->
  forall k fuel cursor acc, d !! cursor = Some (S k) -> S k <= fuel ->
  path g (cursor :: acc) ->
  exists q, rebuild_path fuel prev start cursor (cursor :: acc) = Some (start :: q ++ cursor :: acc) /\
    path g (start :: q ++ cursor :: acc) /\ length q = k.
Proof.
  intros H0 Hprev. induction k as [|k IH]; intros [|fuel] cursor acc Hd Hf Hp; try lia; simpl.
  - destruct (Hprev cursor 1 Hd) as (u & j & Hu & Hdu & [= <-] & Hadj); [congruence|].
    rewrite Hu. destruct (decide (u = start)) as [->|Hne].
    + exists []. split; [done|]. split; [by constructor | done].
    + destruct (Hprev u 0 Hdu Hne) as (? & ? & _ & _ & ? & _). lia.
  - destruct (Hprev cursor _ Hd) as (u & j & Hu & Hdu & [= <-] & Hadj); [congruence|].
    rewrite Hu. destruct (decide (u = start)) as [->|Hne]; [congruence|].
    destruct (IH fuel u (cursor :: acc) Hdu ltac:(lia) ltac:(by constructor)) as (q & Hq & Hpath & Hlen).
    exists (q ++ [u]). rewrite <- app_assoc. simpl.
    split; [done|]. split; [done|]. rewrite length_app. simpl. lia.
Qed.

(** Visiting a new neighbor of the node at the head of the queue keeps the
    invariant (with the head still counted as queued). *)
Lemma bfs_visit g start goal d m s current n :
  bfs_inv g start goal d m s -> d !! current = Some m ->
  n ∈ direct_neighbors g current -> n ∉ bfs_visited s -> n <> goal ->
  bfs_inv g start goal (<[n := S m]> d) m
    (mkBfs (bfs_queue s ++ [n]) (<[n := current]> (bfs_previous s)) ({[n]} ∪ bfs_visited s)).
Proof.
  intros Hi Hc Hadj Hun Hng. pose proof Hi as [Hdom Hst Hprev Hmin Hpd Hsz Hq Hcl Hgoal].
  assert (d !! n = None) as Hdn by (apply not_elem_of_dom; by rewrite Hdom).
  assert (bfs_previous s !! n = None) as Hpn.
  { apply not_elem_of_dom. set_solver. }
  assert (n <> start) as Hns by (intros ->; congruence).
  split; simpl.
  - rewrite dom_insert_L, Hdom. done.
  - by rewrite lookup_insert_ne.
  - intros v k. rewrite lookup_insert_Some. intros [[<- <-]|[Hne Hv]] Hvs.
    + exists current, m. rewrite lookup_insert_eq, lookup_insert_ne by congruence. done.
    + destruct (Hprev v k Hv Hvs) as (u & j & Hu & Hdu & -> & Ha). exists u, j.
      rewrite !lookup_insert_ne by congruence. done.
  - intros v k n'. rewrite lookup_insert_Some. intros [[<- <-]|[Hne Hv]] Hw; [|by eapply Hmin].
    by eapply unvisited_far.
  - rewrite dom_insert_L. set_solver.
  - intros v k. rewrite map_size_insert_None by done. rewrite lookup_insert_Some.
    intros [[<- <-]|[Hne Hv]]; [|apply Hsz in Hv; lia]. apply Hsz in Hc. lia.
  - destruct Hq as (q1 & q2 & -> & H1 & H2). exists q1, (q2 ++ [n]).
    split; [by rewrite app_assoc|].
    assert (forall l k, Forall (fun v => d !! v = Some k) l ->
              Forall (fun v => <[n := S m]> d !! v = Some k) l) as Hmono.
    { intros l k Hl. eapply Forall_impl; [exact Hl|]. simpl. intros v Hv.
      rewrite lookup_insert_ne; [done|congruence]. }
    split; [by apply Hmono|]. apply Forall_app. split; [by apply Hmono|].
    constructor; [|done]. apply lookup_insert_eq.
  - intros v w [->%elem_of_singleton|Hv]%elem_of_union Hnq Hvw.
    + destruct Hnq. apply elem_of_app. right. by left.
    + apply elem_of_union. right. eapply Hcl; [done| |done].
      intros Hin. apply Hnq, elem_of_app. by left.
  - set_solver.
Qed.

(** What the neighbor loop ends with: a minimum-length path, or a state that
    satisfies the invariant and has visited all the neighbors it went through. *)
Definition neighbors_post (g : TopologyGraph) (start goal current : NodeId) (m : nat)
    (ns : list NodeId) (s : bfs_state) (r : list NodeId + bfs_state) : Prop :=
  match r with
  | inl p => path g p /\ head p = Some start /\ last p = Some goal /\
      (forall k, walk g start k goal -> length p - 1 <= k)
  | inr s' => exists d' new, bfs_queue s' = bfs_queue s ++ new /\
      bfs_inv g start goal d' m (mkBfs (current :: bfs_queue s') (bfs_previous s') (bfs_visited s')) /\
      d' !! current = Some m /\ (forall n, n ∈ ns -> n ∈ bfs_visited s') /\
      bfs_visited s ⊆ bfs_visited s' /\ (forall n, n ∈ new -> n ∈ direct_neighbors g current) /\
      size (bfs_visited s') = size (bfs_visited s) + length new /\
      bfs_visited s' = bfs_visited s ∪ list_to_set new
  end.

Lemma bfs_neighbors_ok g start goal current m ns s d :
  bfs_inv g start goal d m (mkBfs (current :: bfs_queue s) (bfs_previous s) (bfs_visited s)) ->
  d !! current = Some m -> (forall n, n ∈ ns -> n ∈ direct_neighbors g current) ->
  neighbors_post g start goal current m ns s (bfs_neighbors start goal current ns s).
Proof.
  revert s d. induction ns as [|n ns IH]; intros s d Hi Hc Hns; cbn [bfs_neighbors].
  { exists d, []. rewrite app_nil_r. split; [done|]. split; [done|]. split; [done|].
    split; [by intros ? ?%not_elem_of_nil|]. split; [done|].
    split; [by intros ? ?%not_elem_of_nil|]. simpl. split; [lia | set_solver]. }
  assert (n ∈ direct_neighbors g current) as Hadj by (apply Hns; by left).
  assert (forall x, x ∈ ns -> x ∈ direct_neighbors g current) as Hns' by (intros; apply Hns; by right).
  destruct (decide (n ∈ bfs_visited s)) as [Hvis|Hvis].
  { specialize (IH s d Hi Hc Hns'). unfold neighbors_post in *.
    destruct (bfs_neighbors start goal current ns s) as [p|s']; [done|].
    destruct IH as (d' & new & Hq & Hi' & Hc' & Hall & Hsub & Hnew).
    exists d', new. split; [done|]. split; [done|]. split; [done|].
    split; [|done]. intros x [->|Hx]%elem_of_cons; [set_solver | by apply Hall]. }
  destruct (decide (n = goal)) as [->|Hng].
  - set (prev := <[goal := current]> (bfs_previous s)).
    pose proof Hi as [Hdom Hst Hprev Hmin Hpd Hsz _ _ _].
    cbn [bfs_queue bfs_previous bfs_visited] in Hdom, Hprev, Hpd, Hsz.
    assert (d !! goal = None) as Hdn by (apply not_elem_of_dom; by rewrite Hdom).
    assert (bfs_previous s !! goal = None) as Hpn by (apply not_elem_of_dom; set_solver).
    assert (goal <> start) as Hgs by (intros ->; congruence).
    destruct (rebuild_path_ok g start (<[goal := S m]> d) prev) with
      (k := m) (fuel := S (size prev)) (cursor := goal) (acc := @nil NodeId)
      as (q & Hq & Hpath & Hlen).
    + by rewrite lookup_insert_ne.
    + intros v k. rewrite lookup_insert_Some. intros [[<- <-]|[Hne Hv]] Hvs.
      * exists current, m. unfold prev.
        rewrite lookup_insert_eq, lookup_insert_ne by congruence. done.
      * destruct (Hprev v k Hv Hvs) as (u & j & Hu & Hdu & -> & Ha). exists u, j.
        unfold prev. rewrite !lookup_insert_ne by congruence. done.
    + apply lookup_insert_eq.
    + unfold prev. rewrite map_size_insert_None by done. apply Hsz in Hc. lia.
    + constructor.
    + rewrite Hq. simpl. split; [done|]. split; [done|]. split.
      * rewrite app_comm_cons. apply last_snoc.
      * intros k Hk. rewrite length_app; simpl. rewrite Hlen.
        pose proof (unvisited_far _ _ _ _ _ _ _ _ Hi Hk Hvis). lia.
  - specialize (IH (mkBfs (bfs_queue s ++ [n]) (<[n := current]> (bfs_previous s))
                      ({[n]} ∪ bfs_visited s)) (<[n := S m]> d)).
    assert (n <> current) as Hnc.
    { intros ->. apply Hvis. apply elem_of_dom_2 in Hc. by rewrite (bi_dom _ _ _ _ _ _ Hi) in Hc. }
    ospecialize (IH _ _ Hns');
      [by apply (bfs_visit _ _ _ _ _ _ current n Hi) | by rewrite lookup_insert_ne |].
    unfold neighbors_post in *.
    destruct (bfs_neighbors start goal current ns _) as [p|s']; [done|].
    destruct IH as (d' & new & Hq & Hi' & Hc' & Hall & Hsub & Hnew & Hsz & Hun). simpl in *.
    exists d', (n :: new). split; [by rewrite Hq, <- app_assoc|]. split; [done|]. split; [done|].
    split; [intros x [->|Hx]%elem_of_cons; [set_solver | by apply Hall]|].
    split; [set_solver|]. split; [intros x [->|Hx]%elem_of_cons; [done | by apply Hnew]|].
    split; [|set_solver]. rewrite Hsz, size_union, size_singleton by set_solver. simpl. lia.
Qed.

(** ** The search loop *)

Definition endpoints (g : TopologyGraph) : list NodeId :=
  flat_map (fun l => [link_nap l; link_panu l]) (values (g_links g)).

Lemma elem_of_direct_neighbors g u v :
  v ∈ direct_neighbors g u <->
  exists id l, g_links g !! id = Some l /\ is_forwarding_candidate l = true /\
               other_endpoint l u = Some v.
Proof.
  unfold direct_neighbors. rewrite elem_of_list_to_set, list_elem_of_omap. split.
  - intros (l & Hl & Ho). apply list_elem_of_In, filter_In in Hl as [Hl Hf].
    apply list_elem_of_In, elem_of_values in Hl as [id Hl]. eauto.
  - intros (id & l & Hl & Hf & Ho). exists l. split; [|done].
    apply list_elem_of_In, filter_In. split; [|done].
    apply list_elem_of_In, elem_of_values. eauto.
Qed.

Lemma other_endpoint_Some l u v :
  other_endpoint l u = Some v <->
  (u = link_nap l /\ v = link_panu l) \/ (u <> link_nap l /\ u = link_panu l /\ v = link_nap l).
Proof.
  unfold other_endpoint. destruct (decide _) as [->|]; [naive_solver|].
  destruct (decide _) as [->|]; naive_solver.
Qed.

Lemma neighbor_endpoint g u v : v ∈ direct_neighbors g u -> v ∈ endpoints g.
Proof.
  intros (id & l & Hl & _ & Ho)%elem_of_direct_neighbors.
  apply list_elem_of_In, in_flat_map. exists l. split.
  - apply list_elem_of_In, elem_of_values. eauto.
  - apply other_endpoint_Some in Ho. simpl. naive_solver.
Qed.

Lemma length_endpoints g : length (endpoints g) = 2 * size (g_links g).
Proof.
  unfold endpoints. rewrite <- (length_iter_map (g_links g)).
  unfold values. induction (iter_map (g_links g)) as [|p l IH]; csimpl in *; [done|].
  rewrite IH. lia.
Qed.

Lemma bfs_head g start goal d m s current rest :
  bfs_inv g start goal d m s -> bfs_queue s = current :: rest ->
  exists m', bfs_inv g start goal d m' s /\ d !! current = Some m'.
Proof.
  intros Hi Hq. pose proof Hi as [? ? ? ? ? ? (q1 & q2 & Hs & H1 & H2) ? ?].
  rewrite Hs in Hq. destruct q1 as [|x q1]; simpl in *.
  - subst q2. exists (S m). inversion H2; subst. split; [|done]. split; try done.
    exists (bfs_queue s), []. rewrite app_nil_r, Hs. done.
  - injection Hq as -> <-. inversion H1; subst. by exists m.
Qed.

Lemma bfs_pop g start goal d m s current :
  bfs_inv g start goal d m (mkBfs (current :: bfs_queue s) (bfs_previous s) (bfs_visited s)) ->
  d !! current = Some m ->
  (forall w, w ∈ direct_neighbors g current -> w ∈ bfs_visited s) ->
  bfs_inv g start goal d m s.
Proof.
  intros [? ? ? ? ? ? (q1 & q2 & Hs & H1 & H2) Hcl ?] Hc Hall. simpl in *. split; try done.
  - destruct q1 as [|x q1]; simpl in *.
    + subst q2. inversion H2; subst. simplify_eq. lia.
    + injection Hs as <- Hs. inversion H1; subst. by exists q1, q2.
  - intros v w Hv Hnq Hw. destruct (decide (v = current)) as [->|Hne]; [by apply Hall|].
    apply (Hcl v w); [done| |done]. rewrite not_elem_of_cons. done.
Qed.

Lemma bfs_ok g start goal (U : gset NodeId) fuel s d m :
  start ∈ U -> (forall v, v ∈ endpoints g -> v ∈ U) ->
  bfs_inv g start goal d m s -> bfs_visited s ⊆ U ->
  length (bfs_queue s) + (size U - size (bfs_visited s)) < fuel ->
  match bfs fuel g start goal s with
  | Some (Some p) => path g p /\ head p = Some start /\ last p = Some goal /\
      (forall k, walk g start k goal -> length p - 1 <= k)
  | Some None => forall k, ~ walk g start k goal
  | None => False
  end.
Proof.
  intros HsU HU. revert s d m. induction fuel as [|fuel IH]; intros s d m Hi Hsub Hf; [lia|].
  cbn [bfs]. destruct (bfs_queue s) as [|current rest] eqn:Hq.
  - assert (forall k x, walk g start k x -> x ∈ bfs_visited s) as Hvis.
    { intros k x. induction 1 as [|k v w _ IHk Hvw].
      - rewrite <- (bi_dom _ _ _ _ _ _ Hi). eapply elem_of_dom_2, (bi_start _ _ _ _ _ _ Hi).
      - apply (bi_closed _ _ _ _ _ _ Hi v w); [done| |done]. rewrite Hq. apply not_elem_of_nil. }
    intros k Hk. by apply (bi_goal _ _ _ _ _ _ Hi), (Hvis k).
  - destruct (bfs_head _ _ _ _ _ _ _ _ Hi Hq) as (m' & Hi' & Hc).
    assert (s = mkBfs (current :: rest) (bfs_previous s) (bfs_visited s)) as Hs
      by (rewrite <- Hq; by destruct s).
    rewrite Hs in Hi'.
    pose proof (bfs_neighbors_ok g start goal current m' (iter_set (direct_neighbors g current))
      (mkBfs rest (bfs_previous s) (bfs_visited s)) d Hi' Hc
      (fun n => proj1 (elem_of_iter_set _ n))) as Hpost.
    unfold neighbors_post in Hpost.
    destruct (bfs_neighbors start goal current _ _) as [p|s']; [done|].
    destruct Hpost as (d' & new & Hq' & Hinv & Hc' & Hall & Hsub' & Hnew & Hsz & Hun).
    cbn [bfs_queue bfs_previous bfs_visited] in *.
    assert (bfs_visited s' ⊆ U) as HsubU.
    { rewrite Hun. apply union_least; [done|]. intros x Hx%elem_of_list_to_set.
      eapply HU, neighbor_endpoint, Hnew, Hx. }
    apply (IH s' d' m').
    + eapply bfs_pop; [done..|]. intros w Hw. by apply Hall, elem_of_iter_set.
    + done.
    + apply subseteq_size in HsubU. rewrite Hq', length_app. simpl in Hf. lia.
Qed.

Lemma bfs_init_inv g start goal :
  start <> goal -> bfs_inv g start goal {[start := 0]} 0 (bfs_init start).
Proof.
  intros Hne. split; simpl.
  - by rewrite dom_singleton_L.
  - apply lookup_singleton_eq.
  - intros v k [<- <-]%lookup_singleton_Some. done.
  - intros v k n [<- <-]%lookup_singleton_Some _. lia.
  - rewrite dom_empty_L. set_solver.
  - intros v k [<- <-]%lookup_singleton_Some. lia.
  - exists [start], []. split; [done|]. split; [|done]. constructor; [|done]. apply lookup_singleton_eq.
  - intros v w ->%elem_of_singleton Hn. destruct Hn. by left.
  - by apply not_elem_of_singleton.
Qed.

(** The search of a graph never runs out of fuel. *)
Lemma bfs_start_ok g start goal :
  start <> goal ->
  match bfs (bfs_fuel g) g start goal (bfs_init start) with
  | Some (Some p) => path g p /\ head p = Some start /\ last p = Some goal /\
      (forall k, walk g start k goal -> length p - 1 <= k)
  | Some None => forall k, ~ walk g start k goal
  | None => False
  end.
Proof.
  intros Hne. set (U := {[start]} ∪ list_to_set (endpoints g) : gset NodeId).
  apply (bfs_ok g start goal U _ _ {[start := 0]} 0).
  - set_solver.
  - intros v Hv. apply elem_of_union. right. by apply elem_of_list_to_set.
  - by apply bfs_init_inv.
  - simpl. set_solver.
  - unfold bfs_init. cbn [bfs_queue bfs_visited length]. rewrite size_singleton.
    assert (size U <= 1 + 2 * size (g_links g)); [|unfold bfs_fuel; lia].
    unfold U. rewrite size_union_alt, size_singleton.
    pose proof (size_list_to_set_le (endpoints g)) as Hle. rewrite length_endpoints in Hle.
    assert (size ((list_to_set (endpoints g) : gset NodeId) ∖ {[start]})
            <= size (list_to_set (endpoints g) : gset NodeId)) by (apply subseteq_size; set_solver).
    lia.
Qed.

(** ** Shortest paths *)

Lemma path_not_nil g p u : path g p -> head p = Some u -> 1 <= length p.
Proof. destruct p; simpl; [done|lia]. Qed.

Lemma shortest_path_spec g start goal :
  match shortest_path g start goal with
  | Some p => is_Some (g_nodes g !! start) /\ is_Some (g_nodes g !! goal) /\
      path g p /\ head p = Some start /\ last p = Some goal /\
      (forall q, path g q -> head q = Some start -> last q = Some goal -> length p <= length q)
  | None => is_Some (g_nodes g !! start) -> is_Some (g_nodes g !! goal) ->
      forall q, path g q -> head q = Some start -> last q = Some goal -> False
  end.
Proof.
  unfold shortest_path.
  destruct (g_nodes g !! start) eqn:Hs; [|by intros [? ?]].
  destruct (g_nodes g !! goal) eqn:Hg; [|by intros ? [? ?]].
  destruct (decide (start = goal)) as [->|Hne].
  { repeat split; eauto using path_one, path_not_nil. }
  pose proof (bfs_start_ok g start goal Hne) as Hbfs.
  destruct (bfs (bfs_fuel g) g start goal (bfs_init start)) as [[p|]|]; simpl; [| |done].
  - destruct Hbfs as (Hp & Hh & Hl & Hmin). repeat split; eauto.
    intros q Hq Hqh Hql. pose proof (Hmin _ (path_walk g q start goal Hq Hqh Hql)).
    pose proof (path_not_nil g q start Hq Hqh). pose proof (path_not_nil g p start Hp Hh). lia.
  - intros _ _ q Hq Hqh Hql. by eapply Hbfs, (path_walk g q).
Qed.

(** C11. [shortest_path] is a sound, complete and optimal search that always
    terminates: a returned path starts and ends at the two nodes, every step
    of it is an active link that has not failed, and no path between them is
    shorter; [None] is returned only when an endpoint is not in the topology
    or no path of such links joins them. *)
Theorem shortest_path_correct (g : TopologyGraph) (start goal : NodeId) :
  match shortest_path g start goal with
  | Some p => is_Some (g_nodes g !! start) /\ is_Some (g_nodes g !! goal) /\
      path g p /\ head p = Some start /\ last p = Some goal /\
      (forall q, path g q -> head q = Some start -> last q = Some goal -> length p <= length q)
  | None => is_Some (g_nodes g !! start) -> is_Some (g_nodes g !! goal) ->
      forall q, path g q -> head q = Some start -> last q = Some goal -> False
  end.
Proof. apply shortest_path_spec. Qed.

(** ** Reachability classes *)

Lemma direct_neighbors_sym g u v : v ∈ direct_neighbors g u -> u ∈ direct_neighbors g v.
Proof.
  rewrite !elem_of_direct_neighbors. intros (id & l & Hl & Hf & Ho).
  exists id, l. split; [done|]. split; [done|]. apply other_endpoint_Some.
  apply other_endpoint_Some in Ho as [[-> ->]|(Hne & -> & ->)]; [|naive_solver].
  destruct (decide (link_panu l = link_nap l)); naive_solver.
Qed.

Lemma path_reverse g p : path g p -> path g (reverse p).
Proof.
  induction 1 as [u|u v p Huv Hp IH]; [constructor|].
  rewrite reverse_cons, reverse_cons in *. rewrite <- app_assoc. apply path_snoc; [done|].
  by apply direct_neighbors_sym.
Qed.

Lemma head_reverse' {A : Type} (p : list A) : head (reverse p) = last p.
Proof. destruct p as [|x p _] using rev_ind; [done|]. by rewrite reverse_snoc, last_snoc. Qed.

Lemma last_reverse' {A : Type} (p : list A) : last (reverse p) = head p.
Proof. by rewrite <- head_reverse', reverse_involutive. Qed.

Lemma shortest_path_length_sym g a b :
  length <$> shortest_path g a b = length <$> shortest_path g b a.
Proof.
  assert (forall a b p, shortest_path g a b = Some p ->
    exists q, shortest_path g b a = Some q /\ length q <= length p) as Hhalf.
  { intros x y p Hp. pose proof (shortest_path_spec g x y) as H. rewrite Hp in H.
    destruct H as (Hx & Hy & Hpath & Hh & Hl & _).
    pose proof (shortest_path_spec g y x) as H'. destruct (shortest_path g y x) as [q|].
    - exists q. split; [done|]. destruct H' as (_ & _ & _ & _ & _ & Hmin).
      rewrite <- (length_reverse p). apply Hmin; [by apply path_reverse|..].
      + by rewrite head_reverse'.
      + by rewrite last_reverse'.
    - exfalso. apply (H' Hy Hx (reverse p)); [by apply path_reverse|..].
      + by rewrite head_reverse'.
      + by rewrite last_reverse'. }
  destruct (shortest_path g a b) as [p|] eqn:Hp.
  - destruct (Hhalf _ _ _ Hp) as (q & Hq & Hle). rewrite Hq. simpl. f_equal.
    destruct (Hhalf _ _ _ Hq) as (p' & Hp' & Hle'). simplify_eq. lia.
  - destruct (shortest_path g b a) as [q|] eqn:Hq; [|done].
    destruct (Hhalf _ _ _ Hq) as (p' & Hp' & _). congruence.
Qed.

(** Reachability is symmetric, and its classes mean what they say:
    unreachable when no path of active links exists (or a node is unknown),
    local for a node and itself, direct for two nodes joined by an active link,
    and one of the two multi-hop classes otherwise. *)
Theorem reachability_classes (g : TopologyGraph) (a b : NodeId) :
  reachability g a b = reachability g b a /\
  (reachability g a b = Unreachable <->
     ~ (is_Some (g_nodes g !! a) /\ is_Some (g_nodes g !! b) /\
        exists p, path g p /\ head p = Some a /\ last p = Some b)) /\
  (reachability g a b = Local <-> a = b /\ is_Some (g_nodes g !! a)) /\
  (reachability g a b = DirectLink <->
     a <> b /\ is_Some (g_nodes g !! a) /\ is_Some (g_nodes g !! b) /\
     is_directly_reachable g a b = true).
Proof.
  split.
  { unfold reachability. pose proof (shortest_path_length_sym g a b) as Hlen.
    destruct (shortest_path g a b) as [p|], (shortest_path g b a) as [q|]; simplify_eq/=; try done.
    rewrite Hlen.
    assert (forall l, existsb (fun s => node_is_active_in_segment g a (segment_id s)
                && node_is_active_in_segment g b (segment_id s)) l =
            existsb (fun s => node_is_active_in_segment g b (segment_id s)
                && node_is_active_in_segment g a (segment_id s)) l) as ->; [|done].
    intros l. induction l as [|s l IH]; simpl; [done|]. by rewrite IH, andb_comm. }
  unfold reachability, is_directly_reachable. rewrite bool_decide_eq_true.
  pose proof (shortest_path_spec g a b) as H. destruct (shortest_path g a b) as [p|] eqn:Hp.
  - destruct H as (Ha & Hb & Hpath & Hh & Hl & Hmin).
    pose proof (path_not_nil g p a Hpath Hh) as Hlen.
    assert (a = b <-> length p = 1) as Hloc.
    { split; [intros ->; specialize (Hmin [b] (path_one g b) eq_refl eq_refl); simpl in Hmin; lia|].
      destruct p as [|x [|]]; simpl in *; try lia; congruence. }
    assert (a <> b -> b ∈ direct_neighbors g a <-> length p = 2) as Hdir.
    { intros Hne. split.
      - intros Hn. specialize (Hmin [a; b]). simpl in Hmin.
        ospecialize (Hmin _ eq_refl eq_refl); [repeat constructor; done|]. 
        assert (length p <> 1) by naive_solver. lia.
      - destruct p as [|x [|y [|]]]; simpl in *; try lia. intros _. simplify_eq.
        by inversion Hpath. }
    destruct (Nat.eqb_spec (length p) 1), (Nat.eqb_spec (length p) 2); try lia;
      repeat case_match; repeat split; try naive_solver.
  - repeat split; try naive_solver.
    + intros [-> Hs]. exfalso. apply (H Hs Hs [b]); [constructor|done|done].
    + intros (Hne & Ha & Hb & Hn). exfalso. apply (H Ha Hb [a; b]); [repeat constructor; done|done|done].
Qed.
