(* ===== verification/GraphInvariant.v ===== *)
(** The well-formedness invariant of the topology graph, its preservation by
    every mutation of [topology.rs], and what it gives the forwarding decision
    of [forwarding_policy.rs]. *)

From S2P Require Import Prelude Order Ident Capability Topology TopologySearch.

(** Every link joins two known, distinct nodes inside a known segment whose NAP
    is the link's NAP and which counts the client among its members; every
    segment's NAP is known. *)
Record graph_wf (g : TopologyGraph) : Prop := {
  wf_link : forall id l, g_links g !! id = Some l ->
    link_id l = id /\ link_nap l <> link_panu l /\
    is_Some (g_nodes g !! link_nap l) /\ is_Some (g_nodes g !! link_panu l) /\
    exists s, g_segments g !! link_segment l = Some s /\ segment_nap s = link_nap l /\
              link_panu l ∈ members s;
  wf_segment : forall id s, g_segments g !! id = Some s ->
    segment_id s = id /\ is_Some (g_nodes g !! segment_nap s);
}.

Lemma graph_default_wf : graph_wf graph_default.
Proof. split; intros id x; simpl; by rewrite lookup_empty. Qed.

Lemma add_node_wf g id caps : graph_wf g -> graph_wf (add_node g id caps).2.
Proof.
  intros [Hl Hs]. split; simpl.
  - intros i l Hi. destruct (Hl i l Hi) as (? & ? & ? & ? & ?).
    repeat split; try done; apply lookup_insert_is_Some'; by right.
  - intros i s Hi. destruct (Hs i s Hi). split; [done|]. apply lookup_insert_is_Some'. by right.
Qed.

Lemma remove_node_wf g id : graph_wf g -> graph_wf (remove_node g id).2.
Proof.
  intros Hwf. pose proof Hwf as [Hl Hs]. unfold remove_node.
  destruct (g_nodes g !! id); [|done]. split; simpl.
  - intros i l [Hi [Hn Hp]]%map_lookup_filter_Some. simpl in *.
    destruct (Hl i l Hi) as (? & ? & ? & ? & s & Hseg & Hnap & Hmem).
    rewrite !lookup_delete_ne by done. repeat split; try done.
    exists (remove_member s id). split; [|simpl; split; [done|set_solver]].
    rewrite lookup_fmap, (proj2 (map_lookup_filter_Some _ _ _ s)); [done|].
    simpl. split; [done|congruence].
  - intros i s. rewrite lookup_fmap_Some. intros (s0 & <- & [Hi Hn]%map_lookup_filter_Some).
    simpl in *. destruct (Hs i s0 Hi). by rewrite lookup_delete_ne.
Qed.

(** A segment that may stand for the links recorded under its identifier. *)
Definition agrees (g : TopologyGraph) (s : PanSegment) : Prop :=
  forall id l, g_links g !! id = Some l -> link_segment l = segment_id s ->
    segment_nap s = link_nap l /\ link_panu l ∈ members s.

(** Adding a segment, or replacing the one under its identifier, keeps the
    graph well formed exactly when it agrees with the links that are there. *)
Lemma add_segment_wf g s :
  graph_wf g ->
  (graph_wf (add_segment g s).2 <-> (is_Some (g_nodes g !! segment_nap s) -> agrees g s)).
Proof.
  intros Hwf. pose proof Hwf as [Hl Hs]. unfold add_segment.
  destruct (g_nodes g !! segment_nap s) eqn:Hn; [|by split; [intros _ []|]]. split; simpl.
  - intros [Hl' _] _ id l Hi Heq. destruct (Hl' id l Hi) as (_ & _ & _ & _ & s' & Hseg & ? & ?).
    simpl in Hseg. rewrite Heq, lookup_insert_eq in Hseg. by injection Hseg as <-.
  - intros Hag. specialize (Hag ltac:(eauto)). split; simpl.
    + intros i l Hi. destruct (Hl i l Hi) as (? & ? & ? & ? & s' & Hseg & ? & ?). repeat split; try done.
      destruct (decide (segment_id s = link_segment l)) as [Heq|Hne].
      * exists s. rewrite Heq, lookup_insert_eq. split; [done|]. by eapply Hag.
      * exists s'. by rewrite lookup_insert_ne.
    + intros i s'. rewrite lookup_insert_Some. intros [[<- <-]|[_ Hi]]; [split; eauto|by apply Hs].
Qed.

Lemma add_link_wf g l : graph_wf g -> graph_wf (add_link g l).2.
Proof.
  intros Hwf. pose proof Hwf as [Hl Hs]. unfold add_link.
  destruct (decide _) as [|Hne]; [done|].
  destruct (g_nodes g !! link_nap l) eqn:Hn; [|done].
  destruct (g_nodes g !! link_panu l) eqn:Hp; [|done].
  destruct (g_segments g !! link_segment l) as [s|] eqn:Hseg; [|done].
  destruct (decide _) as [Hnap|]; [|done]. split; simpl.
  - intros i k. rewrite lookup_insert_Some. intros [[<- <-]|[_ Hi]].
    + repeat split; eauto. exists (add_member s (link_panu l)).
      rewrite lookup_insert_eq. split; [done|]. split; [done|]. simpl. set_solver.
    + destruct (Hl i k Hi) as (? & ? & ? & ? & s' & Hs' & Hn' & Hm).
      repeat split; try done.
      destruct (decide (link_segment l = link_segment k)) as [Heq|Heq].
      * exists (add_member s (link_panu l)). rewrite Heq, lookup_insert_eq.
        assert (s' = s) as -> by congruence. split; [done|]. split; [done|]. simpl. set_solver.
      * exists s'. by rewrite lookup_insert_ne.
  - intros i s'. rewrite lookup_insert_Some. intros [[<- <-]|[_ Hi]]; [|by apply Hs].
    simpl. by apply Hs.
Qed.

Lemma remove_link_wf g id : graph_wf g -> graph_wf (remove_link g id).2.
Proof.
  intros Hwf. pose proof Hwf as [Hl Hs]. unfold remove_link.
  destruct (g_links g !! id) as [r|] eqn:Hr; [|done]. simpl.
  destruct (Hl id r Hr) as (_ & _ & _ & _ & sr & Hsr & _). rewrite Hsr.
  set (still := existsb _ _). split; simpl.
  - intros i k [Hik Hi]%lookup_delete_Some.
    destruct (Hl i k Hi) as (? & ? & ? & ? & s' & Hs' & Hn' & Hm). repeat split; try done.
    destruct still eqn:Hstill; [by exists s'|].
    destruct (decide (link_segment r = link_segment k)) as [Heq|Heq];
      [|exists s'; by rewrite lookup_insert_ne].
    exists (remove_member sr (link_panu r)). rewrite Heq, lookup_insert_eq.
    assert (s' = sr) as -> by congruence. split; [done|]. split; [done|]. simpl.
    apply elem_of_difference. split; [done|]. rewrite elem_of_singleton. intros Hpk.
    assert (still = true) as Hst; [|congruence]. apply existsb_exists. exists k. split.
    + apply list_elem_of_In, elem_of_values. exists i. by apply lookup_delete_Some.
    + by rewrite !bool_decide_eq_true_2.
  - intros i s'. destruct still; [by apply Hs|].
    rewrite lookup_insert_Some. intros [[<- <-]|[_ Hi]]; [|by apply Hs].
    simpl. by apply Hs.
Qed.

(** *** What every mutation keeps, replaced segments included *)

(** Every link joins two known, distinct nodes, and every segment's NAP is
    known. *)
Record graph_sound (g : TopologyGraph) : Prop := {
  sound_link : forall id l, g_links g !! id = Some l ->
    link_id l = id /\ link_nap l <> link_panu l /\
    is_Some (g_nodes g !! link_nap l) /\ is_Some (g_nodes g !! link_panu l);
  sound_segment : forall id s, g_segments g !! id = Some s ->
    segment_id s = id /\ is_Some (g_nodes g !! segment_nap s);
}.

Lemma wf_sound g : graph_wf g -> graph_sound g.
Proof. intros [Hl Hs]. split; [|done]. intros id l Hi. destruct (Hl id l Hi) as (? & ? & ? & ? & _). done. Qed.

Lemma add_node_sound g id caps : graph_sound g -> graph_sound (add_node g id caps).2.
Proof.
  intros [Hl Hs]. split; simpl.
  - intros i l Hi. destruct (Hl i l Hi) as (? & ? & ? & ?).
    repeat split; try done; apply lookup_insert_is_Some'; by right.
  - intros i s Hi. destruct (Hs i s Hi). split; [done|]. apply lookup_insert_is_Some'. by right.
Qed.

Lemma remove_node_sound g id : graph_sound g -> graph_sound (remove_node g id).2.
Proof.
  intros [Hl Hs]. unfold remove_node. destruct (g_nodes g !! id); [|done]. split; simpl.
  - intros i l [Hi [Hn Hp]]%map_lookup_filter_Some. simpl in *.
    destruct (Hl i l Hi) as (? & ? & ? & ?). by rewrite !lookup_delete_ne.
  - intros i s. rewrite lookup_fmap_Some. intros (s0 & <- & [Hi Hn]%map_lookup_filter_Some).
    simpl in *. destruct (Hs i s0 Hi). by rewrite lookup_delete_ne.
Qed.

Lemma insert_segment_sound g ls s :
  graph_sound g -> is_Some (g_nodes g !! segment_nap s) ->
  (forall id l, ls !! id = Some l -> link_id l = id /\ link_nap l <> link_panu l /\
    is_Some (g_nodes g !! link_nap l) /\ is_Some (g_nodes g !! link_panu l)) ->
  graph_sound (mkGraph (g_nodes g) ls (<[segment_id s := s]> (g_segments g))).
Proof.
  intros [_ Hs] Hn Hls. split; simpl; [done|]. intros i s'. rewrite lookup_insert_Some.
  intros [[<- <-]|[_ Hi]]; [done|by apply Hs].
Qed.

Lemma add_segment_sound g s : graph_sound g -> graph_sound (add_segment g s).2.
Proof.
  intros Hg. unfold add_segment. destruct (g_nodes g !! segment_nap s) eqn:Hn; [|done].
  apply insert_segment_sound; [done|by eexists|apply Hg].
Qed.

Lemma add_link_sound g l : graph_sound g -> graph_sound (add_link g l).2.
Proof.
  intros Hg. pose proof Hg as [Hl Hs]. unfold add_link. destruct (decide _) as [|Hne]; [done|].
  destruct (g_nodes g !! link_nap l) eqn:Hn; [|done]. destruct (g_nodes g !! link_panu l) eqn:Hp; [|done].
  destruct (g_segments g !! link_segment l) as [s|] eqn:Hseg; [|done]. destruct (decide _) as [Hnap|]; [|done].
  destruct (Hs _ _ Hseg) as [Hid Hk]. simpl. rewrite <- Hid.
  apply (insert_segment_sound g _ (add_member s (link_panu l))); [done..|].
  intros i k. rewrite lookup_insert_Some. intros [[<- <-]|[_ Hi]]; [repeat split; eauto|by apply Hl].
Qed.

Lemma remove_link_sound g id : graph_sound g -> graph_sound (remove_link g id).2.
Proof.
  intros Hg. pose proof Hg as [Hl Hs]. unfold remove_link.
  destruct (g_links g !! id) as [r|] eqn:Hr; [|done]. simpl.
  assert (forall i k, delete id (g_links g) !! i = Some k -> link_id k = i /\ link_nap k <> link_panu k /\
    is_Some (g_nodes g !! link_nap k) /\ is_Some (g_nodes g !! link_panu k)) as Hls.
  { intros i k [_ Hi]%lookup_delete_Some. by apply Hl. }
  destruct (g_segments g !! link_segment r) as [s|] eqn:Hseg; [|by split].
  destruct (existsb _ _); [by split|]. destruct (Hs _ _ Hseg) as [Hid Hk]. rewrite <- Hid.
  by apply (insert_segment_sound g _ (remove_member s (link_panu r))).
Qed.

(** ** Reachable graphs *)

Inductive GraphOp :=
  | AddNode (id : NodeId) (caps : NodeCapabilities)
  | RemoveNode (id : NodeId)
  | AddSegment (s : PanSegment)
  | AddLink (l : PanLink)
  | RemoveLink (id : LinkId).

Definition graph_apply (g : TopologyGraph) (o : GraphOp) : TopologyGraph :=
  match o with
  | AddNode id caps => (add_node g id caps).2
  | RemoveNode id => (remove_node g id).2
  | AddSegment s => (add_segment g s).2
  | AddLink l => (add_link g l).2
  | RemoveLink id => (remove_link g id).2
  end.

(** An operation that does not put a segment in the place of another whose
    links it contradicts.  A segment under a new identifier never does. *)
Definition tidy (g : TopologyGraph) (o : GraphOp) : Prop :=
  match o with AddSegment s => is_Some (g_nodes g !! segment_nap s) -> agrees g s | _ => True end.

Lemma graph_apply_wf g o : graph_wf g -> (graph_wf (graph_apply g o) <-> tidy g o).
Proof.
  intros Hwf. destruct o as [id caps|id|s|l|id]; cbn [graph_apply tidy]; [| |by apply add_segment_wf|..];
    (split; [done|intros _]);
    auto using add_node_wf, remove_node_wf, add_link_wf, remove_link_wf.
Qed.

Lemma graph_apply_sound g o : graph_sound g -> graph_sound (graph_apply g o).
Proof. destruct o; cbn [graph_apply]; auto using add_node_sound, remove_node_sound, add_segment_sound, add_link_sound, remove_link_sound. Qed.

Lemma new_segment_tidy g s : graph_wf g -> g_segments g !! segment_id s = None -> tidy g (AddSegment s).
Proof.
  intros Hwf Hnew _ id l Hi Heq. destruct (wf_link g Hwf id l Hi) as (_ & _ & _ & _ & s' & Hs' & _). congruence.
Qed.

(** Any sequence of operations, and one of tidy operations. *)
Definition graph_step (g g' : TopologyGraph) : Prop := exists o, g' = graph_apply g o.
Definition tidy_step (g g' : TopologyGraph) : Prop := exists o, tidy g o /\ g' = graph_apply g o.

Lemma graph_steps_sound g g' : graph_sound g -> rtc graph_step g g' -> graph_sound g'.
Proof. intros Hg. induction 1 as [|g h k [o ->]]; eauto using graph_apply_sound. Qed.

Lemma tidy_steps_wf g g' : graph_wf g -> rtc tidy_step g g' -> graph_wf g'.
Proof. intros Hg. induction 1 as [|g h k (o & Ho & ->)]; [done|]. by apply IHrtc, graph_apply_wf. Qed.

Lemma sound_neighbor_nodes g u v :
  graph_sound g -> v ∈ direct_neighbors g u ->
  u <> v /\ is_Some (g_nodes g !! u) /\ is_Some (g_nodes g !! v).
Proof.
  intros Hg (id & l & Hl & _ & Ho)%elem_of_direct_neighbors.
  destruct (sound_link g Hg id l Hl) as (_ & Hne & ? & ?).
  apply other_endpoint_Some in Ho as [[-> ->]|(_ & -> & ->)]; auto.
Qed.

Lemma sound_path_nodes g a b p n :
  graph_sound g -> shortest_path g a b = Some p -> n ∈ p -> is_Some (g_nodes g !! n).
Proof.
  intros Hg Hp Hn. pose proof (shortest_path_spec g a b) as H. rewrite Hp in H.
  destruct H as (Ha & _ & Hpath & Hh & _ & _).
  assert (is_Some (head p ≫= fun x => g_nodes g !! x)) as Hhd by (by rewrite Hh).
  clear Hp Hh Ha. induction Hpath as [u|u v p Huv Hp IH]; simpl in *.
  - by apply list_elem_of_singleton in Hn as ->.
  - apply elem_of_cons in Hn as [->|Hn]; [done|]. apply IH; [done|].
    by apply (sound_neighbor_nodes g u v Hg Huv).
Qed.

(** C12. Whatever sequence of operations built a graph from the empty topology,
    replaced segments included, its links join distinct known nodes, every
    segment's NAP is known, and so are all nodes on any path of active links.
    When no step replaced a segment by one that contradicts the links recorded
    under its identifier (another NAP, or a client missing), the graph is well
    formed: every link lies in a segment of the same NAP that lists its client
    as a member.  The condition is exact: from a well-formed graph an operation
    gives a well-formed graph exactly when it is no such replacement. *)
Theorem reachable_graph_wf (g : TopologyGraph) (Hreach : rtc graph_step graph_default g) :
  graph_sound g /\
  (forall u v, v ∈ direct_neighbors g u ->
     u <> v /\ is_Some (g_nodes g !! u) /\ is_Some (g_nodes g !! v)) /\
  (forall a b p n, shortest_path g a b = Some p -> n ∈ p -> is_Some (g_nodes g !! n)) /\
  (rtc tidy_step graph_default g -> graph_wf g) /\
  (forall o, graph_wf g -> (graph_wf (graph_apply g o) <-> tidy g o)).
Proof.
  assert (graph_sound g) as Hg by (eapply graph_steps_sound, Hreach; apply wf_sound, graph_default_wf).
  split_and!; [done|intros u v; by apply sound_neighbor_nodes|intros a b p n; by apply sound_path_nodes| |].
  - apply tidy_steps_wf, graph_default_wf.
  - intros o. apply graph_apply_wf.
Qed.

(** The two-star graph of the unit tests: 2 - 1 - 3 - 4. *)
Definition demo_link (id seg nap panu : Z) (Hi : Is_true (bytes_okb 16 (replicate 16 id)))
    (Hs : Is_true (bytes_okb 16 (replicate 16 seg))) (Hn : Is_true (bytes_okb 16 (replicate 16 nap)))
    (Hp : Is_true (bytes_okb 16 (replicate 16 panu))) : PanLink :=
  mkLink (from_bytes (mkBytes _ Hi)) (from_bytes (mkBytes _ Hs)) (from_bytes (mkBytes _ Hn))
         (from_bytes (mkBytes _ Hp)) Active LinkHealthy 1.

Definition demo_ops : list GraphOp :=
  [AddNode (fill_id 1) caps_default; AddNode (fill_id 2) caps_default;
   AddNode (fill_id 3) caps_default; AddNode (fill_id 4) caps_default;
   AddSegment (segment_new (fill_id 1) (fill_id 1)); AddSegment (segment_new (fill_id 2) (fill_id 3));
   AddLink (demo_link 1 1 1 2 I I I I); AddLink (demo_link 2 1 1 3 I I I I); AddLink (demo_link 3 2 3 4 I I I I)].

Definition demo_graph : TopologyGraph := foldl graph_apply graph_default demo_ops.

(** Operations that only add segments under new identifiers. *)
Definition fresh_op (g : TopologyGraph) (o : GraphOp) : bool :=
  match o with AddSegment s => bool_decide (g_segments g !! segment_id s = None) | _ => true end.

Fixpoint fresh_run (g : TopologyGraph) (ops : list GraphOp) : bool :=
  match ops with [] => true | o :: ops' => fresh_op g o && fresh_run (graph_apply g o) ops' end.

Lemma fresh_run_tidy ops : forall g, graph_wf g -> fresh_run g ops = true -> rtc tidy_step g (foldl graph_apply g ops).
Proof.
  induction ops as [|o ops IH]; intros g Hg; simpl; [by intros _; apply rtc_refl|].
  intros [Ho Hops]%andb_true_iff.
  assert (tidy g o) as Ht by (destruct o; try done; apply new_segment_tidy; [done|by apply bool_decide_eq_true in Ho]).
  eapply rtc_l; [by exists o|]. apply IH; [by apply graph_apply_wf|done].
Qed.

Lemma demo_graph_tidy : rtc tidy_step graph_default demo_graph.
Proof. apply (fresh_run_tidy demo_ops graph_default graph_default_wf). vm_compute. reflexivity. Qed.

Lemma tidy_steps_reachable g h : rtc tidy_step g h -> rtc graph_step g h.
Proof. induction 1 as [|x y z (o & _ & ->) _ IH]; [apply rtc_refl|]. eapply rtc_l; [by exists o|done]. Qed.

(** The demonstration graph, and what is left of it when its first segment is
    replaced by one with another NAP. *)
Lemma reachable_graph_wf_witness :
  shortest_path demo_graph (fill_id 2) (fill_id 4) =
    Some [fill_id 2; fill_id 1; fill_id 3; fill_id 4] /\
  reachability demo_graph (fill_id 2) (fill_id 4) = Routed /\
  reachability demo_graph (fill_id 2) (fill_id 3) = SamePanSegment /\
  graph_wf demo_graph /\
  graph_sound (graph_apply demo_graph (AddSegment (segment_new (fill_id 1) (fill_id 4)))).
Proof.
  split; [vm_compute; reflexivity|]. split; [vm_compute; reflexivity|].
  split; [vm_compute; reflexivity|]. pose proof (tidy_steps_reachable _ _ demo_graph_tidy) as Hr.
  destruct (reachable_graph_wf demo_graph Hr) as (_ & _ & _ & Hwf & _). split; [exact (Hwf demo_graph_tidy)|].
  refine (proj1 (reachable_graph_wf _ _)). eapply rtc_r; [exact Hr|]. eexists. reflexivity.
Defined.

(** Re-adding a segment under an identifier in use replaces it, members and
    NAP, and keeps the links: a link whose NAP is no longer its segment's, which
    [add_link] itself refuses to create. *)
Example replaced_segment_mismatch :
  let g := (add_segment demo_graph (segment_new (fill_id 1) (fill_id 4))).2 in
  (add_segment demo_graph (segment_new (fill_id 1) (fill_id 4))).1 = Ok false /\
  ~ graph_wf g /\
  (add_link g (demo_link 1 1 1 2 I I I I)).1 =
    Err (topology_error "PAN link NAP does not match the segment NAP").
Proof.
  split; [vm_compute; reflexivity|]. split; [|vm_compute; reflexivity].
  intros [Hl _]. destruct (Hl (fill_id 1) (demo_link 1 1 1 2 I I I I)) as (_ & _ & _ & _ & s & Hs & Hn & _);
    [vm_compute; reflexivity|].
  assert (segment_nap s = fill_id 4) as Hn' by (vm_compute in Hs; injection Hs as <-; reflexivity).
  rewrite Hn' in Hn. discriminate Hn.
Qed.

(** ** The forwarding decision *)

Lemma two_elements {A : Type} `{Countable A} (X : gset A) :
  2 <= size X <-> exists x y, x ∈ X /\ y ∈ X /\ x <> y.
Proof.
  split.
  - intros Hsz. unfold size, set_size in Hsz; simpl in Hsz.
    pose proof (NoDup_elements X) as Hnd.
    destruct (elements X) as [|x [|y l]] eqn:He; simpl in Hsz; [lia..|].
    exists x, y. rewrite <- !elem_of_elements, He.
    apply NoDup_cons in Hnd as [Hx _]. set_solver.
  - intros (x & y & Hx & Hy & Hne).
    assert (size ({[x; y]} : gset A) = 2) as <-.
    { rewrite size_union, !size_singleton; [done|set_solver]. }
    apply subseteq_size. set_solver.
Qed.

(** The node has a forwarding link in the segment. *)
Definition live_in_segment (g : TopologyGraph) (n : NodeId) (seg : SegmentId) : Prop :=
  exists id l, g_links g !! id = Some l /\ link_segment l = seg /\
    is_forwarding_candidate l = true /\ (link_nap l = n \/ link_panu l = n).

(** Forwarding is requested exactly for a node that is affirmatively known
    to route (unknown is a denial) and has live links in two distinct PAN
    segments; the only error is an unknown local node. *)
Theorem desired_ipv4_forwarding_exact (g : TopologyGraph) (local : NodeId) :
  match g_nodes g !! local with
  | None => exists e, desired_ipv4_forwarding g local = Err e /\ kind e = InvalidInput
  | Some caps => exists b, desired_ipv4_forwarding g local = Ok b /\
      (b = true <-> can_route caps = Some true /\
         exists s s', s <> s' /\ live_in_segment g local s /\ live_in_segment g local s')
  end.
Proof.
  unfold desired_ipv4_forwarding. destruct (g_nodes g !! local) as [caps|]; simpl; [|by eexists].
  unfold affirmative. destruct (bool_decide_reflect (can_route caps = Some true)) as [Hr|Hr].
  2:{ exists false. split; [done|]. naive_solver. }
  set (X := list_to_set _ : gset SegmentId).
  assert (forall s, s ∈ X <-> live_in_segment g local s) as HX.
  { intros s. unfold X, live_in_segment. rewrite elem_of_list_to_set, list_elem_of_fmap. split.
    - intros (l & -> & Hl). apply list_elem_of_In, filter_In in Hl as [Hl Hf].
      apply list_elem_of_In, elem_of_values in Hl as [id Hl].
      apply andb_true_iff in Hf as [Hf Hi]. apply orb_true_iff in Hi.
      rewrite !bool_decide_eq_true in Hi. eauto 10.
    - intros (id & l & Hl & <- & Hf & Hi). exists l. split; [done|].
      apply list_elem_of_In, filter_In. split; [apply list_elem_of_In, elem_of_values; eauto|].
      rewrite Hf. simpl. apply orb_true_iff. by rewrite !bool_decide_eq_true. }
  exists (2 <=? size X). split; [done|]. rewrite Nat.leb_le, two_elements.
  setoid_rewrite HX. naive_solver.
Qed.
