(* ===== verification/Routes.v ===== *)
(** Routes: [crates/blueroute-core/src/route.rs], with the derived equality and
    order (variants in order of declaration, then fields). *)

From S2P Require Import Prelude Order Ident Addressing.

Inductive RouteDestination :=
| DestNode (n : NodeId)
| DestSegment (s : SegmentId)
| DestPrefix (p : IpPrefix)
| DestInternet.

Inductive RouteOwner := BlueRouteNetwork (n : NetworkId).

Record Route := mkRoute {
  destination : RouteDestination;
  next_hop : NodeId;
  cost : Z;
  owner : RouteOwner;
}.

#[global] Instance RouteDestination_eq_dec : EqDecision RouteDestination.
Proof. solve_decision. Defined.
#[global] Instance RouteOwner_eq_dec : EqDecision RouteOwner.
Proof. solve_decision. Defined.
#[global] Instance Route_eq_dec : EqDecision Route.
Proof. solve_decision. Defined.

#[global] Program Instance IpAddr_countable : Countable IpAddr :=
  inj_countable' (fun a => match a with V4 n => inl n | V6 n => inr n end)
    (fun s => match s with inl n => V4 n | inr n => V6 n end) _.
Next Obligation. by intros []. Qed.
#[global] Program Instance IpPrefix_countable : Countable IpPrefix :=
  inj_countable' (fun p => (address p, prefix_len p)) (fun q => mkPrefix q.1 q.2) _.
Next Obligation. by intros []. Qed.

(** The variants as a nested sum. *)
Definition dest_sum (d : RouteDestination) : NodeId + (SegmentId + (IpPrefix + ())) :=
  match d with
  | DestNode n => inl n
  | DestSegment s => inr (inl s)
  | DestPrefix p => inr (inr (inl p))
  | DestInternet => inr (inr (inr ()))
  end.
Definition sum_dest (x : NodeId + (SegmentId + (IpPrefix + ()))) : RouteDestination :=
  match x with
  | inl n => DestNode n
  | inr (inl s) => DestSegment s
  | inr (inr (inl p)) => DestPrefix p
  | inr (inr (inr _)) => DestInternet
  end.

Lemma dest_sum_inj x y : dest_sum x = dest_sum y -> x = y.
Proof. destruct x, y; simpl; congruence. Qed.

#[global] Program Instance RouteDestination_countable : Countable RouteDestination :=
  inj_countable' dest_sum sum_dest _.
Next Obligation. by intros []. Qed.
#[global] Instance RouteDestination_ord : RustOrd RouteDestination := ord_via dest_sum dest_sum_inj.

Definition route_tuple (r : Route) : RouteDestination * (NodeId * (Z * NetworkId)) :=
  (destination r, (next_hop r, (cost r, match owner r with BlueRouteNetwork n => n end))).

Lemma route_tuple_inj x y : route_tuple x = route_tuple y -> x = y.
Proof. destruct x as [? ? ? []], y as [? ? ? []]; unfold route_tuple; simpl; congruence. Qed.

#[global] Instance Route_ord : RustOrd Route := ord_via route_tuple route_tuple_inj.

(** [Vec::sort] on a totally ordered type: equal elements are identical, so the
    sorted list is determined by the multiset. *)
Definition sort_routes (l : list Route) : list Route := merge_sort ord_le l.

Lemma sort_routes_perm l : sort_routes l ≡ₚ l.
Proof. apply merge_sort_Permutation. Qed.

Lemma sort_routes_sorted l : StronglySorted ord_le (sort_routes l).
Proof. apply (StronglySorted_merge_sort _). Qed.

Lemma sort_routes_unique l k : l ≡ₚ k -> sort_routes l = sort_routes k.
Proof.
  intros H. apply (StronglySorted_unique ord_le); try apply sort_routes_sorted.
  by rewrite !sort_routes_perm.
Qed.

Lemma sort_routes_id l : StronglySorted ord_le l -> sort_routes l = l.
Proof.
  intros H. apply (StronglySorted_unique ord_le); [apply sort_routes_sorted|done|].
  apply sort_routes_perm.
Qed.

Lemma sort_routes_eq l k : sort_routes l = sort_routes k <-> l ≡ₚ k.
Proof.
  split; [|apply sort_routes_unique]. intros H.
  by rewrite <- (sort_routes_perm l), H, sort_routes_perm.
Qed.
