(* ===== verification/RoutePlanner.v ===== *)
(** Weighted route computation: [crates/blueroute-core/src/route_planner.rs].

    The binary heap of [Reverse] tuples is the multiset of its entries; [pop]
    takes the least one.  Entries that compare equal are equal, so the heap's
    internal order is not observable. *)

From S2P Require Import Prelude Order Ident Capability Topology TopologySearch Routes.

Local Open Scope Z_scope.

Definition DEGRADED_LINK_COST_PENALTY : Z := 100.

(** (total cost, hop count, first hop), as stored in [best]. *)
Abbreviation Label := (Z * (nat * NodeId))%type.
(** (total cost, hop count, first hop, node), as queued. *)
Abbreviation Entry := (Z * (nat * (NodeId * NodeId)))%type.

Definition entry (l : Label) (n : NodeId) : Entry := (l.1, (l.2.1, (l.2.2, n))).
Definition entry_label (e : Entry) : Label := (e.1, (e.2.1, e.2.2.1)).
Definition entry_node (e : Entry) : NodeId := e.2.2.2.

(** [BinaryHeap::pop]: a least entry and the rest. *)
Fixpoint heap_min (e : Entry) (l : list Entry) : Entry * list Entry :=
  match l with
  | [] => (e, [])
  | x :: l' =>
      let '(m, rest) := heap_min x l' in
      if decide (ord_le e m) then (e, x :: l') else (m, e :: rest)
  end.
Definition heap_pop (h : list Entry) : option (Entry * list Entry) :=
  match h with [] => None | e :: l => Some (heap_min e l) end.

Definition route_cost_overflow : CoreError := core_error TopologyFailure "route cost overflow".

Definition link_weight (l : PanLink) : Z :=
  Z.max (link_cost l) 1
  + (if decide (link_health l = LinkDegraded) then DEGRADED_LINK_COST_PENALTY else 0).

Record dijkstra := mkDijkstra { best : gmap NodeId Label; heap : list Entry }.

(** The body of [for (_, link) in graph.links()]. *)
Definition relax (source current : NodeId) (lab : Label) (d : dijkstra) (l : PanLink) :
  CoreResult dijkstra :=
  if negb (is_forwarding_candidate l) then Ok d
  else match other_endpoint l current with
  | None => Ok d
  | Some next =>
      next_cost ← ok_or (checked_add 64 lab.1 (link_weight l)) route_cost_overflow;
      let candidate : Label :=
        (next_cost, (S lab.2.1, if decide (current = source) then next else lab.2.2)) in
      if match best d !! next with None => true | Some previous => bool_decide (ord_lt candidate previous) end
      then Ok (mkDijkstra (<[next := candidate]> (best d)) (entry candidate next :: heap d))
      else Ok d
  end.

(** One iteration of [while let Some(Reverse(..)) = queue.pop()] after the
    pop. *)
Definition process (g : TopologyGraph) (source : NodeId) (e : Entry) (d : dijkstra) :
  CoreResult dijkstra :=
  let current := entry_node e in
  if decide (best d !! current = Some (entry_label e)) then
    if negb (bool_decide (current = source))
       && negb (affirmative (g_nodes g !! current ≫= can_route))
    then Ok d
    else try_for_each (relax source current (entry_label e)) d (values (g_links g))
  else Ok d.

(** [None] is running out of fuel. *)
Fixpoint dijkstra_loop (fuel : nat) (g : TopologyGraph) (source : NodeId) (d : dijkstra) :
  option (CoreResult (gmap NodeId Label)) :=
  match fuel with
  | O => None
  | S fuel =>
      match heap_pop (heap d) with
      | None => Some (Ok (best d))
      | Some (e, rest) =>
          match process g source e (mkDijkstra (best d) rest) with
          | Err err => Some (Err err)
          | Ok d' => dijkstra_loop fuel g source d'
          end
      end
  end.

(** A node is expanded at most once and pushes at most one entry per link, so
    the loop runs at most [1 + (1 + 2L) * L] times before the last test. *)
Definition dijkstra_fuel (g : TopologyGraph) : nat :=
  (2 + (1 + 2 * size (g_links g)) * size (g_links g))%nat.

Definition dijkstra_init (source : NodeId) : dijkstra :=
  let zero : Label := (0, (0%nat, source)) in
  mkDijkstra {[source := zero]} [entry zero source].

Definition fuel_exhausted : CoreError := core_error Internal "search fuel exhausted".

Definition route_of (net : NetworkId) (kv : NodeId * Label) : CoreResult Route :=
  c ← ok_or (if kv.2.1 <=? u_max 32 then Some kv.2.1 else None)
    (core_error TopologyFailure "route metric exceeds u32");
  Ok (mkRoute (DestNode kv.1) kv.2.2.2 c (BlueRouteNetwork net)).

Definition desired_node_routes (g : TopologyGraph) (source : NodeId) (net : NetworkId) :
  CoreResult (list Route) :=
  match g_nodes g !! source with
  | None => Err (core_error InvalidInput "source is not in the topology")
  | Some _ =>
      bst ← default (Err fuel_exhausted) (dijkstra_loop (dijkstra_fuel g) g source (dijkstra_init source));
      try_map (route_of net) (List.filter (fun kv => negb (bool_decide (kv.1 = source))) (iter_map bst))
  end.

(** ** Specification: admissible walks

    [route_walk g s v lab]: a walk from [s] to [v] over forwarding-candidate
    links whose inner nodes all route; [lab] is its cost, length and first
    hop.  [least_label g s v lab] is the best such label. *)

Definition extend (s u v : NodeId) (l : PanLink) (lab : Label) : Label :=
  (lab.1 + link_weight l, (S lab.2.1, if decide (u = s) then v else lab.2.2)).

Definition expandable (g : TopologyGraph) (s u : NodeId) : Prop :=
  u = s \/ (g_nodes g !! u ≫= can_route) = Some true.

Definition edge (g : TopologyGraph) (l : PanLink) (u v : NodeId) : Prop :=
  l ∈ values (g_links g) /\ is_forwarding_candidate l = true /\ other_endpoint l u = Some v.

Inductive route_walk (g : TopologyGraph) (s : NodeId) : NodeId -> Label -> Prop :=
| route_here : route_walk g s s (0, (0%nat, s))
| route_step u v l lab :
    route_walk g s u lab -> expandable g s u -> edge g l u v ->
    route_walk g s v (extend s u v l lab).

Definition least_label (g : TopologyGraph) (s v : NodeId) (lab : Label) : Prop :=
  route_walk g s v lab /\ forall lab', route_walk g s v lab' -> lab ≤ᵣ lab'.

(** ** Facts about labels and the heap *)

Lemma link_weight_pos l : 1 <= link_weight l.
Proof. unfold link_weight, DEGRADED_LINK_COST_PENALTY. case_decide; lia. Qed.

Lemma entry_roundtrip e : entry (entry_label e) (entry_node e) = e.
Proof. by destruct e as [? [? [? ?]]]. Qed.

Lemma entry_inj a m b n : entry a m = entry b n -> a = b /\ m = n.
Proof. destruct a as [? [? ?]], b as [? [? ?]]. unfold entry. simpl. by intros [= -> -> -> ->]. Qed.

Lemma expandable_dec g s u :
  negb (bool_decide (u = s)) && negb (affirmative (g_nodes g !! u ≫= can_route)) = false
  <-> expandable g s u.
Proof.
  unfold expandable, affirmative.
  destruct (bool_decide_reflect (u = s)); simpl; [naive_solver|].
  destruct (g_nodes g !! u ≫= can_route) as [[]|]; simpl; naive_solver.
Qed.

Lemma extend_mono s u v l a b : a ≤ᵣ b -> extend s u v l a ≤ᵣ extend s u v l b.
Proof.
  destruct a as [c [h f]], b as [c' [h' f']]. unfold extend. rewrite !prod_ord_le; simpl.
  rewrite !Z_ord_lt, !nat_ord_lt.
  intros [?|[-> [?|[-> ?]]]]; [left; lia | right | right].
  - split; [done|]. left. lia.
  - split; [done|]. right. split; [done|]. case_decide; auto with ord.
Qed.

Lemma label_le_cost (a b : Label) : a ≤ᵣ b -> a.1 <= b.1.
Proof. rewrite prod_ord_le, Z_ord_lt. lia. Qed.

Lemma heap_min_perm e l : (heap_min e l).1 :: (heap_min e l).2 ≡ₚ e :: l.
Proof.
  revert e; induction l as [|x l IH]; intros e; simpl; [done|].
  specialize (IH x). destruct (heap_min x l) as [m rest]; simpl in *.
  case_decide; simpl; [done|]. by rewrite Permutation_swap, IH.
Qed.

Lemma heap_min_le e l x : x ∈ e :: l -> (heap_min e l).1 ≤ᵣ x.
Proof.
  revert e x; induction l as [|y l IH]; intros e x; simpl.
  - intros ->%list_elem_of_singleton. auto with ord.
  - specialize (IH y). destruct (heap_min y l) as [m rest]; simpl in *.
    intros [->|Hx]%elem_of_cons; case_decide as Hle; simpl; auto with ord.
    + apply ord_lt_le. by apply ord_not_le_lt.
    + eauto with ord.
Qed.

Lemma heap_pop_Some h e rest :
  heap_pop h = Some (e, rest) -> h ≡ₚ e :: rest /\ (forall x, x ∈ h -> e.1 <= x.1).
Proof.
  destruct h as [|y l]; simpl; [done|]. intros [= Hp].
  pose proof (heap_min_perm y l) as Hperm. pose proof (fun x => heap_min_le y l x) as Hle.
  rewrite Hp in Hperm, Hle. simpl in *. split; [done|]. intros x Hx.
  specialize (Hle x Hx). apply prod_ord_le in Hle. rewrite Z_ord_lt in Hle. lia.
Qed.

(** ** The loop invariant

    [done] are the nodes already taken off the heap with their final label,
    [c] the cost of the last one, [R u] the links already relaxed from [u] and
    [U] the nodes the search can meet. *)

Section search.
Context (g : TopologyGraph) (s : NodeId).

Definition universe : gset NodeId := {[s]} ∪ list_to_set (endpoints g).

Record search_inv (R : NodeId -> list PanLink) (done : gset NodeId) (c : Z) (d : dijkstra) : Prop := {
  si_walk v lab : best d !! v = Some lab -> route_walk g s v lab;
  si_hops v lab : best d !! v = Some lab -> (lab.2.1 <= size done)%nat;
  si_dom v lab : best d !! v = Some lab -> v ∈ universe;
  si_source : best d !! s = Some (0, (0%nat, s));
  si_open v lab : best d !! v = Some lab -> v ∈ done \/ entry lab v ∈ heap d;
  si_heap lab v : entry lab v ∈ heap d -> c <= lab.1 /\ exists b, best d !! v = Some b /\ b ≤ᵣ lab;
  si_nodup : NoDup (heap d);
  si_done u : u ∈ done -> exists lab, best d !! u = Some lab /\ lab.1 <= c /\ entry lab u ∉ heap d;
  si_relaxed u lab l v : u ∈ done -> best d !! u = Some lab -> expandable g s u -> l ∈ R u ->
    edge g l u v -> exists b, best d !! v = Some b /\ b ≤ᵣ extend s u v l lab;
}.

(** What relaxing one link does, when the cost does not overflow. *)
Lemma relax_cases cur lab d l d' :
  relax s cur lab d l = Ok d' ->
  (d' = d /\ forall v, is_forwarding_candidate l = true -> other_endpoint l cur = Some v ->
     exists b, best d !! v = Some b /\ b ≤ᵣ extend s cur v l lab) \/
  (exists v, is_forwarding_candidate l = true /\ other_endpoint l cur = Some v /\
     (forall b, best d !! v = Some b -> extend s cur v l lab <ᵣ b) /\
     d' = mkDijkstra (<[v := extend s cur v l lab]> (best d))
            (entry (extend s cur v l lab) v :: heap d)).
Proof.
  unfold relax. destruct (is_forwarding_candidate l) eqn:Hf; simpl; [|intros [= <-]; left; naive_solver].
  destruct (other_endpoint l cur) as [v|] eqn:Ho; simpl; [|intros [= <-]; left; naive_solver].
  intros (nc & Hnc & Hd')%result_bind_Ok. apply ok_or_Ok, checked_add_Some in Hnc as [-> _].
  change (lab.1 + link_weight l, _) with (extend s cur v l lab) in Hd'.
  destruct (best d !! v) as [b|] eqn:Hb.
  - case_bool_decide as Hlt; injection Hd' as <-.
    + right. exists v. naive_solver.
    + left. split; [done|]. intros v' _ [= <-]. exists b. split; [done|]. by apply ord_not_lt_le.
  - injection Hd' as <-. right. exists v. naive_solver.
Qed.

Lemma edge_universe l u v : edge g l u v -> v ∈ universe.
Proof.
  intros (Hl & Hf & Ho). apply elem_of_union_r, elem_of_list_to_set, (neighbor_endpoint g u).
  apply elem_of_direct_neighbors. apply elem_of_values in Hl as [k Hk]. eauto.
Qed.

Lemma route_walk_cost v lab : route_walk g s v lab -> 0 <= lab.1.
Proof.
  induction 1 as [|u v l lab _ IH _ _]; simpl; [done|]. pose proof (link_weight_pos l). lia.
Qed.

Definition relaxed_also (cur : NodeId) (l : PanLink) (R : NodeId -> list PanLink) (u : NodeId) :
  list PanLink := if decide (u = cur) then R u ++ [l] else R u.

Lemma relaxed_skip R done c d cur lab l :
  search_inv R done c d -> best d !! cur = Some lab ->
  (forall v, is_forwarding_candidate l = true -> other_endpoint l cur = Some v ->
     exists b, best d !! v = Some b /\ b ≤ᵣ extend s cur v l lab) ->
  search_inv (relaxed_also cur l R) done c d.
Proof.
  intros H Hb Hl. destruct H. split; try done.
  intros u lab' l' v Hu Hb' He Hin Hedge. unfold relaxed_also in Hin. case_decide; [subst u|eauto].
  apply elem_of_app in Hin as [Hin| ->%list_elem_of_singleton]; [eauto|].
  simplify_eq. destruct Hedge as (_ & Hf & Ho). eauto.
Qed.

Lemma relaxed_improve R done d cur lab l v :
  search_inv R done lab.1 d -> cur ∈ done -> best d !! cur = Some lab -> expandable g s cur ->
  (S lab.2.1 <= size done)%nat -> edge g l cur v ->
  (forall b, best d !! v = Some b -> extend s cur v l lab <ᵣ b) ->
  (v ∉ done) /\
  search_inv (relaxed_also cur l R) done lab.1
    (mkDijkstra (<[v := extend s cur v l lab]> (best d)) (entry (extend s cur v l lab) v :: heap d)).
Proof.
  intros H Hcur Hlab Hexp Hhops Hedge Hlt. set (new := extend s cur v l lab) in *.
  pose proof (link_weight_pos l) as Hw. assert (lab.1 < new.1) as Hnew by (simpl; lia).
  pose proof (route_walk_cost _ _ (si_walk _ _ _ _ H _ _ Hlab)) as Hlab0.
  assert (forall b, best d !! v = Some b -> lab.1 < b.1) as Hgt.
  { intros b Hb. pose proof (label_le_cost _ _ (ord_lt_le _ _ (Hlt b Hb))). lia. }
  assert (v ∉ done) as Hv.
  { intros Hv. destruct (si_done _ _ _ _ H v Hv) as (b & Hb & Hc & _). specialize (Hgt b Hb). lia. }
  assert (forall x b, best d !! x = Some b -> exists b', <[v:=new]> (best d) !! x = Some b' /\ b' ≤ᵣ b) as Hmono.
  { intros x b Hb. destruct (decide (x = v)) as [->|]; [rewrite lookup_insert_eq | rewrite lookup_insert_ne by done];
      eauto with ord. }
  split; [done|]. destruct H as [Iwalk Ihops Idom Isrc Iopen Iheap Inodup Idone Irel]. split; simpl.
  - intros x b [[<- <-]|[_ Hb]]%lookup_insert_Some; [|eauto]. eapply route_step; eauto.
  - intros x b [[<- <-]|[_ Hb]]%lookup_insert_Some; [done|eauto].
  - intros x b [[<- <-]|[_ Hb]]%lookup_insert_Some; [by eapply edge_universe|eauto].
  - rewrite lookup_insert_ne; [done|]. intros ->. specialize (Hgt _ Isrc). simpl in Hgt. lia.
  - intros x b [[<- <-]|[_ Hb]]%lookup_insert_Some; [right; by left|].
    destruct (Iopen x b Hb); [by left | right; by right].
  - intros lab' x [[<- <-]%entry_inj|Hin]%elem_of_cons.
    + split; [lia|]. rewrite lookup_insert_eq. eauto with ord.
    + destruct (Iheap lab' x Hin) as (Hc & b & Hb & Hle). split; [done|].
      destruct (Hmono x b Hb) as (b' & Hb' & Hle'). eauto with ord.
  - constructor; [|done]. intros Hin. destruct (Iheap _ _ Hin) as (_ & b & Hb & Hle).
    apply (ord_lt_irrefl new). eauto with ord.
  - intros u Hu. destruct (Idone u Hu) as (b & Hb & Hc & Hnin). exists b.
    assert (u <> v) by congruence. rewrite lookup_insert_ne by done. split_and!; try done.
    intros [[_ ->]%entry_inj|]%elem_of_cons; done.
  - intros u b l' x Hu. assert (u <> v) by congruence. rewrite lookup_insert_ne by done.
    intros Hb He Hin Hed. unfold relaxed_also in Hin.
    assert (l' ∈ R u \/ (u = cur /\ l' = l)) as [Hin'|[-> ->]].
    { case_decide; [|by left]. apply elem_of_app in Hin as [|?%list_elem_of_singleton]; auto. }
    + destruct (Irel u b l' x Hu Hb He Hin' Hed) as (y & Hy & Hle).
      destruct (Hmono x y Hy) as (y' & ? & ?). eauto with ord.
    + destruct Hed as (_ & _ & Hx), Hedge as (_ & _ & Hv'). simplify_eq.
      rewrite lookup_insert_eq. eauto with ord.
Qed.

Lemma relax_inv R done d d' cur lab l :
  search_inv R done lab.1 d -> cur ∈ done -> best d !! cur = Some lab -> expandable g s cur ->
  (S lab.2.1 <= size done)%nat -> l ∈ values (g_links g) -> relax s cur lab d l = Ok d' ->
  search_inv (relaxed_also cur l R) done lab.1 d' /\ best d' !! cur = Some lab /\
  (length (heap d') <= S (length (heap d)))%nat.
Proof.
  intros H Hcur Hlab Hexp Hhops Hl [[-> Hskip]|(v & Hf & Ho & Hlt & ->)]%relax_cases.
  - split; [by eapply relaxed_skip|]. auto with lia.
  - destruct (relaxed_improve R done d cur lab l v) as [Hv Hinv]; try done.
    split_and!; [done| |simpl; lia]. simpl. rewrite lookup_insert_ne; [done|congruence].
Qed.

Definition all_links : NodeId -> list PanLink := fun _ => values (g_links g).
(** The links relaxed so far while [cur] is being expanded. *)
Definition links_so_far (cur : NodeId) (pre : list PanLink) (u : NodeId) : list PanLink :=
  if decide (u = cur) then pre else values (g_links g).

Lemma search_inv_links R R' done c d :
  (forall u l, u ∈ done -> l ∈ R' u -> l ∈ R u) -> search_inv R done c d -> search_inv R' done c d.
Proof. intros HR []. split; eauto. Qed.

Lemma relax_all_inv done d d' cur lab :
  search_inv (links_so_far cur []) done lab.1 d -> cur ∈ done -> best d !! cur = Some lab ->
  expandable g s cur -> (S lab.2.1 <= size done)%nat ->
  try_for_each (relax s cur lab) d (values (g_links g)) = Ok d' ->
  search_inv all_links done lab.1 d' /\
  (length (heap d') <= length (heap d) + size (g_links g))%nat.
Proof.
  intros H Hcur Hlab Hexp Hhops Hok.
  apply (try_for_each_inv (fun pre t => search_inv (links_so_far cur pre) done lab.1 t /\
    best t !! cur = Some lab /\ (length (heap t) <= length (heap d) + length pre)%nat)) in Hok.
  - destruct Hok as (Hinv & _ & Hlen). split.
    + eapply search_inv_links; [|done]. intros u l _. unfold links_so_far, all_links. by case_decide.
    + unfold values in Hlen. by rewrite length_fmap, length_iter_map in Hlen.
  - simpl. auto with lia.
  - intros pre x t t' (Hinv & Hbest & Hlen) Hr Hx.
    destruct (relax_inv _ _ _ _ _ _ _ Hinv Hcur Hbest Hexp Hhops Hx Hr) as (Hinv' & Hbest' & Hlen').
    split_and!; [|done|rewrite length_app; simpl; lia].
    eapply search_inv_links; [|done]. intros u l _. unfold links_so_far, relaxed_also. by case_decide.
Qed.

(** Taking the least entry off the heap: either it is stale, or its node is
    new and gets its final label. *)
Lemma pop_stale done c d e rest :
  search_inv all_links done c d -> heap d ≡ₚ e :: rest ->
  best d !! entry_node e <> Some (entry_label e) ->
  search_inv all_links done c (mkDijkstra (best d) rest).
Proof.
  intros [Iwalk Ihops Idom Isrc Iopen Iheap Inodup Idone Irel] Hperm Hst. split; simpl; eauto.
  - intros v lab Hb. destruct (Iopen v lab Hb) as [|Hin]; [by left|]. right.
    rewrite Hperm in Hin. apply elem_of_cons in Hin as [<-|]; [|done].
    destruct Hst. by destruct lab as [? [? ?]].
  - intros lab v Hin. apply Iheap. rewrite Hperm. by right.
  - rewrite Hperm in Inodup. by inversion Inodup.
  - intros u Hu. destruct (Idone u Hu) as (lab & ? & ? & Hn). exists lab. split_and!; try done.
    contradict Hn. rewrite Hperm. by right.
Qed.

Lemma pop_fresh done c d e rest :
  search_inv all_links done c d -> heap d ≡ₚ e :: rest -> (forall x, x ∈ heap d -> e.1 <= x.1) ->
  best d !! entry_node e = Some (entry_label e) ->
  (entry_node e ∉ done) /\ entry_node e ∈ universe /\ (e.2.1 <= size done)%nat /\
  search_inv (links_so_far (entry_node e) []) ({[entry_node e]} ∪ done) e.1
    (mkDijkstra (best d) rest).
Proof.
  intros [Iwalk Ihops Idom Isrc Iopen Iheap Inodup Idone Irel] Hperm Hmin Hb.
  assert (e ∈ heap d) as He by (rewrite Hperm; by left).
  assert (entry_node e ∉ done) as Hn.
  { intros Hn. destruct (Idone _ Hn) as (lab & Hl & _ & Hnin). rewrite Hb in Hl. injection Hl as <-.
    by rewrite entry_roundtrip in Hnin. }
  assert (c <= e.1) as Hce. { rewrite <- (entry_roundtrip e) in He. apply (Iheap _ _ He). }
  rewrite Hperm in Inodup. apply NoDup_cons in Inodup as [Hnotin Hnd].
  split_and!; [done|eauto|by apply (Ihops _ _ Hb)|]. split; simpl; try done.
  - intros v lab Hv. rewrite size_union_alt, size_singleton. specialize (Ihops v lab Hv).
    assert (done ∖ {[entry_node e]} = done) as -> by set_solver. lia.
  - intros v lab Hv. destruct (Iopen v lab Hv) as [|Hin]; [set_solver|].
    rewrite Hperm in Hin. apply elem_of_cons in Hin as [<-|]; [|by right]. left. by apply elem_of_union_l, elem_of_singleton.
  - intros lab v Hin. split; [|apply Iheap; rewrite Hperm; by right].
    apply (Hmin (entry lab v)). rewrite Hperm. by right.
  - intros u [->%elem_of_singleton|Hu]%elem_of_union.
    + exists (entry_label e). rewrite entry_roundtrip. done.
    + destruct (Idone u Hu) as (lab & ? & ? & Hnin). exists lab. split_and!; [done|lia|].
      contradict Hnin. rewrite Hperm. by right.
  - intros u lab l v Hu Hl Hexp. unfold links_so_far. case_decide as Hcase; [by intros ?%elem_of_nil|].
    apply Irel; set_solver.
Qed.

Definition weight_overflows : Prop :=
  exists v lab l, route_walk g s v lab /\ (lab.2.1 <= size universe)%nat /\
    l ∈ values (g_links g) /\ u_max 64 < lab.1 + link_weight l.

Lemma relax_Err cur lab t l e :
  relax s cur lab t l = Err e -> e = route_cost_overflow /\ u_max 64 < lab.1 + link_weight l.
Proof.
  unfold relax. destruct (is_forwarding_candidate l); simpl; [|done].
  destruct (other_endpoint l cur) as [v|]; simpl; [|done]. unfold checked_add.
  destruct (Z.leb_spec (lab.1 + link_weight l) (u_max 64)) as [|Hlt]; csimpl.
  - by destruct (match best t !! v with None => true | Some _ => _ end).
  - intros [= <-]. done.
Qed.

Lemma done_universe R done c d : search_inv R done c d -> done ⊆ universe.
Proof. intros H u Hu. destruct (si_done _ _ _ _ H u Hu) as (lab & Hb & _). by eapply si_dom. Qed.

Definition measure (done : gset NodeId) (d : dijkstra) : nat :=
  (length (heap d) + (size universe - size done) * size (g_links g))%nat.

(** A node that does not route needs no relaxation. *)
Lemma leaf_done cur done c d :
  ~ expandable g s cur -> search_inv (links_so_far cur []) done c d -> search_inv all_links done c d.
Proof.
  intros Hn [Iwalk Ihops Idom Isrc Iopen Iheap Inodup Idone Irel]. split; eauto.
  intros u lab l v Hu Hb He Hl Hed. eapply Irel; try done.
  unfold links_so_far. case_decide; [congruence|done].
Qed.

Lemma process_ok done c d e rest :
  search_inv all_links done c d -> heap_pop (heap d) = Some (e, rest) ->
  match process g s e (mkDijkstra (best d) rest) with
  | Ok d' => exists done' c', search_inv all_links done' c' d' /\ (measure done' d' < measure done d)%nat
  | Err err => err = route_cost_overflow /\ weight_overflows
  end.
Proof.
  intros H [Hperm Hmin]%heap_pop_Some. unfold process. simpl.
  assert (length (heap d) = S (length rest)) as Hlen by (by rewrite Hperm).
  case_decide as Hb; [|exists done, c; split; [by eapply pop_stale | unfold measure; simpl; lia]].
  destruct (pop_fresh _ _ _ _ _ H Hperm Hmin Hb) as (Hn & Hu & Hhops & Hinv).
  assert (size ({[entry_node e]} ∪ done) = S (size done)) as Hsize
    by (rewrite size_union_alt, size_singleton; f_equal; f_equal; set_solver).
  assert (S (size done) <= size universe)%nat as HsU.
  { rewrite <- Hsize. apply subseteq_size. apply done_universe in H. set_solver. }
  assert (forall k, (k + (size universe - S (size done)) * size (g_links g) + size (g_links g)
            = k + (size universe - size done) * size (g_links g))%nat) as Hmeas.
  { intros k. replace (size universe - size done)%nat with (S (size universe - S (size done)))%nat by lia.
    simpl. lia. }
  assert (forall d', search_inv all_links ({[entry_node e]} ∪ done) e.1 d' ->
    (length (heap d') <= length rest + size (g_links g))%nat ->
    exists done' c', search_inv all_links done' c' d' /\ (measure done' d' < measure done d)%nat) as Hfin.
  { intros d' Hinv' Hlen'. exists ({[entry_node e]} ∪ done), e.1. split; [done|].
    unfold measure. rewrite Hsize, Hlen, <- Hmeas. lia. }
  destruct (negb _ && _) eqn:Hexp.
  - apply Hfin; [|simpl; lia]. apply leaf_done with (entry_node e); [|done].
    intros Hex%expandable_dec. congruence.
  - apply expandable_dec in Hexp. destruct (try_for_each _ _ _) as [d'|err] eqn:Hr.
    + apply relax_all_inv with (done := {[entry_node e]} ∪ done) in Hr as [Hinv' Hlen']; try done.
      * by apply Hfin.
      * set_solver.
      * rewrite Hsize. simpl. lia.
    + apply try_for_each_Err in Hr as (t & l & Hl & [-> Hover]%relax_Err). split; [done|].
      exists (entry_node e), (entry_label e), l. split_and!; try done.
      * by apply (si_walk _ _ _ _ H).
      * simpl. lia.
Qed.

Lemma dijkstra_loop_ok fuel done c d :
  search_inv all_links done c d -> (measure done d < fuel)%nat ->
  exists r, dijkstra_loop fuel g s d = Some r /\ match r with
    | Ok b => exists done' c', search_inv all_links done' c' (mkDijkstra b [])
    | Err err => err = route_cost_overflow /\ weight_overflows
    end.
Proof.
  revert done c d. induction fuel as [|fuel IH]; intros done c d Hinv Hm; [lia|]. simpl.
  destruct (heap_pop (heap d)) as [[e rest]|] eqn:Hpop.
  - pose proof (process_ok _ _ _ _ _ Hinv Hpop) as Hp.
    destruct (process g s e (mkDijkstra (best d) rest)) as [d'|err]; [|eauto].
    destruct Hp as (done' & c' & Hinv' & Hm'). apply (IH done' c' d' Hinv'). lia.
  - exists (Ok (best d)). split; [done|]. exists done, c. destruct d as [b [|]]; done.
Qed.

Lemma dijkstra_init_inv : search_inv all_links ∅ 0 (dijkstra_init s).
Proof.
  unfold dijkstra_init. split; simpl.
  - intros v lab [<- <-]%lookup_singleton_Some. constructor.
  - intros v lab [<- <-]%lookup_singleton_Some. simpl. lia.
  - intros v lab [<- <-]%lookup_singleton_Some. unfold universe. set_solver.
  - by rewrite lookup_singleton_eq.
  - intros v lab [<- <-]%lookup_singleton_Some. right. by left.
  - intros lab v [-> ->]%list_elem_of_singleton%(entry_inj _ _ (0, (0%nat, s))).
    split; [done|]. rewrite lookup_singleton_eq. eauto with ord.
  - apply NoDup_singleton.
  - by intros u ?%elem_of_empty.
  - by intros u lab l v ?%elem_of_empty.
Qed.

Lemma size_universe : (size universe <= 1 + 2 * size (g_links g))%nat.
Proof.
  unfold universe. rewrite size_union_alt, size_singleton, <- length_endpoints.
  pose proof (size_list_to_set_le (endpoints g)).
  assert (size (list_to_set (endpoints g) ∖ {[s]}) <= size (list_to_set (endpoints g) : gset NodeId))%nat
    by (apply subseteq_size; set_solver). lia.
Qed.

Lemma measure_init : (measure ∅ (dijkstra_init s) < dijkstra_fuel g)%nat.
Proof.
  unfold measure, dijkstra_fuel. rewrite size_empty. simpl length. pose proof size_universe. nia.
Qed.

(** With the heap empty every label is the least one. *)
Definition least_labels (b : gmap NodeId Label) : Prop :=
  (forall v lab, b !! v = Some lab <-> least_label g s v lab) /\
  (forall v lab, route_walk g s v lab -> is_Some (b !! v)).

Lemma final_least done c b : search_inv all_links done c (mkDijkstra b []) -> least_labels b.
Proof.
  intros [Iwalk _ _ Isrc Iopen _ _ _ Irel]; simpl in *.
  assert (forall v lab, route_walk g s v lab -> exists y, b !! v = Some y /\ y ≤ᵣ lab) as Hall.
  { induction 1 as [|u w l lu _ (y & Hy & Hle) Hexp Hedge]; [eauto with ord|].
    destruct (Iopen u y Hy) as [Hu|?%elem_of_nil]; [|done].
    destruct (Irel u y l w Hu Hy Hexp) as (z & Hz & Hle'); [apply Hedge|done|].
    exists z. split; [done|]. eapply ord_le_trans; [done|]. by apply extend_mono. }
  split; [intros v lab; split | intros v lab (y & Hy & _)%Hall; by exists y].
  - intros Hb. split; [eauto|]. intros lab' (y & Hy & Hle)%Hall. congruence.
  - intros [Hw Hmin]. destruct (Hall _ _ Hw) as (y & Hy & Hle). rewrite Hy. f_equal.
    apply ord_le_antisymm; [done|eauto].
Qed.

End search.

(** ** The public function *)

Definition route_to (net : NetworkId) (v : NodeId) (lab : Label) : Route :=
  mkRoute (DestNode v) lab.2.2 lab.1 (BlueRouteNetwork net).

Definition metric_error : CoreError := core_error TopologyFailure "route metric exceeds u32".

Definition remote (s : NodeId) (b : gmap NodeId Label) : list (NodeId * Label) :=
  List.filter (fun kv => negb (bool_decide (kv.1 = s))) (iter_map b).

Lemma elem_of_remote s b v lab : (v, lab) ∈ remote s b <-> v <> s /\ b !! v = Some lab.
Proof.
  unfold remote. rewrite list_elem_of_In, filter_In, <- list_elem_of_In, elem_of_iter_map. simpl.
  rewrite negb_true_iff, bool_decide_eq_false. naive_solver.
Qed.

Lemma remote_sorted s b : StronglySorted ord_lt (remote s b).*1.
Proof.
  pose proof (fmap_filter_comm fst (fun k => negb (bool_decide (k = s))) (iter_map b)) as Heq.
  unfold remote. simpl in *. rewrite Heq. apply sorted_filter, keys_sorted.
Qed.

Lemma desired_node_routes_cases g s net caps :
  g_nodes g !! s = Some caps ->
  (exists b, least_labels g s b /\
     desired_node_routes g s net = try_map (route_of net) (remote s b)) \/
  (desired_node_routes g s net = Err route_cost_overflow /\ weight_overflows g s).
Proof.
  intros Hs. unfold desired_node_routes. rewrite Hs.
  destruct (dijkstra_loop_ok g s (dijkstra_fuel g) ∅ 0 (dijkstra_init s)) as (r & -> & Hr);
    [apply dijkstra_init_inv | apply measure_init |].
  destruct r as [b|err]; simpl.
  - left. destruct Hr as (done & c & Hinv). exists b. split; [|done].
    by eapply final_least.
  - right. by destruct Hr as [-> ?].
Qed.

Lemma route_of_Ok net kv r :
  route_of net kv = Ok r <-> kv.2.1 <= u_max 32 /\ r = route_to net kv.1 kv.2.
Proof.
  unfold route_of. destruct (Z.leb_spec kv.2.1 (u_max 32)); simpl.
  - split; [intros [= <-]; done | by intros [_ ->]].
  - split; [done | lia].
Qed.

Lemma desired_node_routes_Ok g s net routes :
  desired_node_routes g s net = Ok routes ->
  exists b, least_labels g s b /\
    Forall2 (fun kv r => kv.2.1 <= u_max 32 /\ r = route_to net kv.1 kv.2) (remote s b) routes.
Proof.
  destruct (g_nodes g !! s) as [caps|] eqn:Hs; [|unfold desired_node_routes; by rewrite Hs].
  destruct (desired_node_routes_cases g s net caps Hs) as [(b & Hb & ->)|[-> _]]; [|done].
  intros H%try_map_Ok. exists b. split; [done|]. eapply Forall2_impl; [done|].
  intros kv r. apply route_of_Ok.
Qed.

Lemma elem_of_Forall2_r {A B : Type} (R : A -> B -> Prop) l k y :
  Forall2 R l k -> y ∈ k -> exists x, x ∈ l /\ R x y.
Proof.
  intros HR [i Hi]%list_elem_of_lookup. destruct (Forall2_lookup_r _ _ _ _ _ HR Hi) as (x & Hx & ?).
  exists x. split; [by eapply list_elem_of_lookup_2 | done].
Qed.

Lemma elem_of_Forall2_l {A B : Type} (R : A -> B -> Prop) l k x :
  Forall2 R l k -> x ∈ l -> exists y, y ∈ k /\ R x y.
Proof.
  intros HR [i Hi]%list_elem_of_lookup. destruct (Forall2_lookup_l _ _ _ _ _ HR Hi) as (y & Hy & ?).
  exists y. split; [by eapply list_elem_of_lookup_2 | done].
Qed.

Lemma elem_of_routes g s net routes r :
  desired_node_routes g s net = Ok routes ->
  r ∈ routes <-> exists v lab, v <> s /\ least_label g s v lab /\ r = route_to net v lab.
Proof.
  intros (b & [Hb _] & HF)%desired_node_routes_Ok. split.
  - intros Hr. destruct (elem_of_Forall2_r _ _ _ _ HF Hr) as ([v lab] & Hin & _ & ->).
    apply elem_of_remote in Hin as [Hv Hin%Hb]. eauto.
  - intros (v & lab & Hv & Hl & ->).
    assert ((v, lab) ∈ remote s b) as Hin by (apply elem_of_remote; split; [done | by apply Hb]).
    destruct (elem_of_Forall2_l _ _ _ _ HF Hin) as (r & Hr & _ & ->). done.
Qed.

(** The first hop of a walk that leaves the source is a direct neighbour of
    it, and the rest of the walk is admissible and cheaper from there. *)
Lemma first_hop g s v lab :
  route_walk g s v lab ->
  (v = s /\ lab = (0, (0%nat, s))) \/
  (lab.2.2 ∈ direct_neighbors g s /\ exists lab', route_walk g lab.2.2 v lab' /\ lab'.1 < lab.1).
Proof.
  induction 1 as [|u v l lab Hw IH Hexp Hedge]; [by left|]. right.
  pose proof (link_weight_pos l) as Hpos. pose proof (route_walk_cost _ _ _ _ Hw) as Hc.
  unfold extend; simpl. case_decide as Hus.
  - subst u. split.
    + destruct Hedge as (Hl & Hf & Ho). apply elem_of_values in Hl as [k Hk].
      apply elem_of_direct_neighbors. eauto.
    + exists (0, (0%nat, v)). split; [constructor | simpl; lia].
  - destruct IH as [[? _]|(Hn & lab' & Hw' & Hlt)]; [done|]. split; [done|].
    exists (extend lab.2.2 u v l lab'). split; [|simpl; lia].
    apply route_step; [done| |done]. destruct Hexp; [done | by right].
Qed.

(** C1. The routes computed for a source are exactly its remote reachable
    nodes, one route each in ascending order of destination: a route to [v]
    carries the least (cost, hops, first hop) label over all walks from the
    source to [v] on active, non-failed links whose inner nodes explicitly
    route, where a degraded link costs 100 more and no link costs less than 1.
    The next hop is a direct neighbour of the source. *)
Theorem desired_node_routes_optimal (g : TopologyGraph) (s : NodeId) (net : NetworkId)
    (routes : list Route) :
  desired_node_routes g s net = Ok routes ->
  (forall r, r ∈ routes <->
     exists v lab, v <> s /\ least_label g s v lab /\ r = route_to net v lab) /\
  (forall v, v <> s -> (exists lab, route_walk g s v lab) ->
     exists r, r ∈ routes /\ destination r = DestNode v) /\
  (exists vs, destination <$> routes = DestNode <$> vs /\ StronglySorted ord_lt vs) /\
  (forall r, r ∈ routes -> next_hop r ∈ direct_neighbors g s /\ 1 <= cost r <= u_max 32).
Proof.
  intros Hok. pose proof (elem_of_routes g s net routes) as Hel.
  destruct (desired_node_routes_Ok _ _ _ _ Hok) as (b & [Hb Htot] & HF). split_and!.
  - intros r. by apply Hel.
  - intros v Hv [lab Hw]. destruct (Htot v lab Hw) as [lb Hlb].
    exists (route_to net v lb). split; [|done]. apply Hel; [done|]. exists v, lb. by rewrite <- Hb.
  - exists (remote s b).*1. split; [|apply remote_sorted].
    clear -HF. induction HF as [|kv r l k [_ ->] _ IH]; csimpl; [done | by rewrite IH].
  - intros r Hr. destruct (elem_of_Forall2_r _ _ _ _ HF Hr) as ([v lab] & Hin & Hle & ->).
    apply elem_of_remote in Hin as [Hv [Hw _]%Hb]. simpl in *.
    destruct (first_hop _ _ _ _ Hw) as [[? _]|(Hn & lab' & Hw' & Hlt)]; [done|].
    split; [done|]. apply route_walk_cost in Hw'. lia.
Qed.

(** *** Bounds *)

Definition costs_are_u32 (g : TopologyGraph) : Prop :=
  forall id l, g_links g !! id = Some l -> link_cost l <= u_max 32.

Lemma link_weight_bound g l :
  costs_are_u32 g -> l ∈ values (g_links g) -> link_weight l <= u_max 32 + 100.
Proof.
  intros Hc [k Hk]%elem_of_values. specialize (Hc _ _ Hk). unfold link_weight, DEGRADED_LINK_COST_PENALTY.
  assert (1 <= u_max 32) by (unfold u_max; lia). case_decide; lia.
Qed.

Lemma route_walk_bound g s v lab :
  costs_are_u32 g -> route_walk g s v lab -> lab.1 <= Z.of_nat lab.2.1 * (u_max 32 + 100).
Proof.
  intros Hc. induction 1 as [|u v l lab _ IH _ [Hl _]]; simpl; [lia|].
  pose proof (link_weight_bound _ _ Hc Hl). lia.
Qed.

Lemma no_overflow g s :
  costs_are_u32 g -> Z.of_nat (size (g_links g)) <= 2 ^ 30 -> ~ weight_overflows g s.
Proof.
  intros Hc Hsz (v & lab & l & Hw & Hh & Hl & Hover).
  pose proof (route_walk_bound _ _ _ _ Hc Hw) as Hb. pose proof (link_weight_bound _ _ Hc Hl) as Hwl.
  pose proof (size_universe g s) as Hu. unfold u_max in *. lia.
Qed.

Lemma try_map_Err {E A B : Type} (f : A -> result E B) l e :
  try_map f l = Err e -> exists x, x ∈ l /\ f x = Err e.
Proof.
  induction l as [|x l IH]; simpl; [done|]. destruct (f x) as [y|e'] eqn:Hf; simpl.
  - destruct (try_map f l); simpl; [done|]. intros [= ->]. destruct IH as (z & ? & ?); [done|].
    exists z. split; [by right | done].
  - intros [= ->]. exists x. split; [by left | done].
Qed.

(** On a graph with 32-bit link costs and at most 2^30 links the 64-bit
    cost additions never overflow: route computation fails only for an unknown
    source or when the least cost to some remote node does not fit the 32-bit
    route metric, and succeeds in every other case. *)
Theorem desired_node_routes_total (g : TopologyGraph) (s : NodeId) (net : NetworkId) :
  costs_are_u32 g -> Z.of_nat (size (g_links g)) <= 2 ^ 30 ->
  match desired_node_routes g s net with
  | Ok _ => is_Some (g_nodes g !! s) /\
      forall v lab, v <> s -> least_label g s v lab -> lab.1 <= u_max 32
  | Err e =>
      (g_nodes g !! s = None /\ e = core_error InvalidInput "source is not in the topology") \/
      (is_Some (g_nodes g !! s) /\ e = metric_error /\
       exists v lab, v <> s /\ least_label g s v lab /\ u_max 32 < lab.1)
  end.
Proof.
  intros Hc Hsz. destruct (g_nodes g !! s) as [caps|] eqn:Hs;
    [|unfold desired_node_routes; rewrite Hs; by left].
  destruct (desired_node_routes_cases g s net caps Hs) as [(b & [Hb _] & Hd)|[_ Hov]];
    [|by apply no_overflow in Hov].
  rewrite Hd. destruct (try_map _ _) as [routes|e] eqn:Hm.
  - split; [done|]. intros v lab Hv Hl%Hb. apply try_map_Ok in Hm.
    destruct (elem_of_Forall2_l _ _ _ (v, lab) Hm) as (r & _ & [Hle _]%route_of_Ok); [|done].
    by apply elem_of_remote.
  - right. split; [done|]. apply try_map_Err in Hm as ([v lab] & [Hv Hl%Hb]%elem_of_remote & He).
    unfold route_of in He. simpl in He. destruct (Z.leb_spec lab.1 (u_max 32)) as [|Hlt]; simpl in He; [done|].
    injection He as <-. eauto 10.
Qed.

(** Hop-by-hop forwarding makes progress: if the source's table sends
    traffic for a destination to a next hop, that next hop is the destination
    itself or its own table has a route to the destination of strictly smaller
    cost.  Tables computed from one graph are therefore free of loops. *)
Theorem next_hop_progress (g : TopologyGraph) (s : NodeId) (net net' : NetworkId)
    (routes routes' : list Route) (r : Route) :
  desired_node_routes g s net = Ok routes -> r ∈ routes ->
  desired_node_routes g (next_hop r) net' = Ok routes' ->
  destination r = DestNode (next_hop r) \/
  exists r', r' ∈ routes' /\ destination r' = destination r /\ cost r' < cost r.
Proof.
  intros Hok Hr Hok'.
  apply (elem_of_routes _ _ _ _ _ Hok) in Hr as (v & lab & Hv & [Hw Hmin] & ->). simpl in *.
  destruct (decide (v = lab.2.2)) as [->|Hne]; [by left | right].
  destruct (first_hop _ _ _ _ Hw) as [[? _]|(Hn & lab' & Hw' & Hlt)]; [done|].
  destruct (desired_node_routes_Ok _ _ _ _ Hok') as (b & [Hb Htot] & _).
  destruct (Htot v lab' Hw') as [lb Hlb]. apply Hb in Hlb as Hleast.
  exists (route_to net' v lb). split_and!; [|done|].
  - apply (elem_of_routes _ _ _ _ _ Hok'). eauto.
  - simpl. pose proof (label_le_cost _ _ (proj2 Hleast _ Hw')). lia.
Qed.

(** *** A star of three nodes around a router, one link degraded *)

Definition router_caps : NodeCapabilities :=
  mkCaps None None None (Some (mkSourced true Configured)) None None None None None None.

Definition demo_star : TopologyGraph :=
  mkGraph
    {[fill_id 1 := caps_default; fill_id 2 := router_caps; fill_id 3 := caps_default]}
    {[fill_id 1 := mkLink (fill_id 1) (fill_id 1) (fill_id 2) (fill_id 1) Active LinkHealthy 5;
      fill_id 2 := mkLink (fill_id 2) (fill_id 1) (fill_id 2) (fill_id 3) Active LinkDegraded 0]}
    {[fill_id 1 := mkSegment (fill_id 1) (fill_id 2) {[fill_id 1; fill_id 2; fill_id 3]}]}.

Definition demo_routes : list Route :=
  [mkRoute (DestNode (fill_id 2)) (fill_id 2) 5 (BlueRouteNetwork (fill_id 9));
   mkRoute (DestNode (fill_id 3)) (fill_id 2) 106 (BlueRouteNetwork (fill_id 9))].

Lemma desired_node_routes_optimal_witness :
  exists lab, least_label demo_star (fill_id 1) (fill_id 3) lab /\ lab.1 = 106.
Proof.
  destruct (desired_node_routes_optimal demo_star (fill_id 1) (fill_id 9) demo_routes)
    as [Hel _]; [vm_compute; reflexivity|].
  destruct (Hel (mkRoute (DestNode (fill_id 3)) (fill_id 2) 106 (BlueRouteNetwork (fill_id 9))))
    as [(v & lab & _ & Hl & Heq) _].
  - right. by left.
  - injection Heq as Hv Hn Hc. subst v. by exists lab.
Defined.

Lemma desired_node_routes_total_witness :
  desired_node_routes demo_star (fill_id 1) (fill_id 9) = Ok demo_routes /\
  forall v lab, v <> fill_id 1 -> least_label demo_star (fill_id 1) v lab -> lab.1 <= u_max 32.
Proof.
  assert (desired_node_routes demo_star (fill_id 1) (fill_id 9) = Ok demo_routes) as Hok
    by (vm_compute; reflexivity).
  assert (map_Forall (fun _ l => link_cost l <= u_max 32) (g_links demo_star)) as Hc
    by (apply (bool_decide_unpack _); vm_compute; exact I).
  split; [exact Hok|].
  pose proof (desired_node_routes_total demo_star (fill_id 1) (fill_id 9)) as H.
  rewrite Hok in H. apply H; [exact Hc | vm_compute; discriminate].
Defined.

Lemma next_hop_progress_witness :
  exists r', r' ∈ [mkRoute (DestNode (fill_id 1)) (fill_id 1) 5 (BlueRouteNetwork (fill_id 9));
                   mkRoute (DestNode (fill_id 3)) (fill_id 3) 101 (BlueRouteNetwork (fill_id 9))] /\
    destination r' = DestNode (fill_id 3) /\ cost r' < 106.
Proof.
  destruct (next_hop_progress demo_star (fill_id 1) (fill_id 9) (fill_id 9) demo_routes
    [mkRoute (DestNode (fill_id 1)) (fill_id 1) 5 (BlueRouteNetwork (fill_id 9));
     mkRoute (DestNode (fill_id 3)) (fill_id 3) 101 (BlueRouteNetwork (fill_id 9))]
    (mkRoute (DestNode (fill_id 3)) (fill_id 2) 106 (BlueRouteNetwork (fill_id 9)))) as [Heq|H].
  - vm_compute; reflexivity.
  - right. by left.
  - vm_compute; reflexivity.
  - discriminate Heq.
  - exact H.
Defined.
