(* ===== verification/RouteReconcile.v ===== *)
(** Route reconciliation: [route_reconciliation.rs] (the plan),
    [route_executor.rs] (its observation-gated execution) and
    [route_recovery.rs] of [crates/blueroute-core/src].

    The kernel's routing table is behind the trait [OwnedRouteOperator]; it is
    a type class over the operator's state here, and the laws a faithful
    backend satisfies are a second class, so the executor's safety is proved
    for every operator and its progress for every lawful one. *)

From S2P Require Import Prelude Order Keyed TableSync Ident Addressing Topology Routes RoutePlanner.

Local Open Scope Z_scope.

(** ** The plan *)

Record RouteReconciliationPlan := mkRoutePlan { upsert : list Route; remove : list Route }.

Definition route_invalid (m : string) : CoreError := core_error InvalidInput m.

Definition canonical_observed_destination (d : RouteDestination) : CoreResult RouteDestination :=
  match d with
  | DestPrefix p =>
      _ ← ip_prefix_new (address p) (prefix_len p);
      let a := match address p with
        | V4 n => V4 (Z.land n (default 0 (checked_shl 32 (u_max 32) (32 - prefix_len p))))
        | V6 n => V6 (Z.land n (default 0 (checked_shl 128 (u_max 128) (128 - prefix_len p))))
        end in
      q ← ip_prefix_new a (prefix_len p);
      Ok (DestPrefix q)
  | _ => Ok d
  end.

Definition canonical_prefix (p : IpPrefix) : bool :=
  match address p with
  | V4 bits => Z.land bits (shl 32 (u_max 32) (32 - prefix_len p)) =? bits
  | V6 bits => Z.land bits (shl 128 (u_max 128) (128 - prefix_len p)) =? bits
  end.

Definition validate_desired (r : Route) (net : NetworkId) : CoreResult () :=
  guard_err (negb (bool_decide (owner r = BlueRouteNetwork net)))
    (route_invalid "desired route belongs to another network")
  (guard_err (all_zero (as_bytes (next_hop r))) (route_invalid "route next hop has zero identity")
  (guard_err (cost r =? 0) (route_invalid "route cost must be positive")
  match destination r with
  | DestInternet => Err (route_invalid "default/Internet route is outside local LAN policy")
  | DestNode n =>
      guard_err (all_zero (as_bytes n)) (route_invalid "route destination has zero identity") (Ok ())
  | DestSegment sg =>
      guard_err (all_zero (as_bytes sg)) (route_invalid "route segment has zero identity") (Ok ())
  | DestPrefix p =>
      _ ← ip_prefix_new (address p) (prefix_len p);
      guard_err (prefix_len p =? 0) (route_invalid "zero-length prefix is not a local route")
      (guard_err (negb (canonical_prefix p))
         (route_invalid "route prefix contains noncanonical host bits") (Ok ()))
  end)).

Abbreviation RouteMap := (gmap RouteDestination Route).

(** The body of [for route in desired]. *)
Definition want (net : NetworkId) : RouteMap -> Route -> CoreResult RouteMap :=
  index_unique destination (fun r => validate_desired r net) (route_invalid "duplicate desired route destination").

(** The body of [for route in observed]. *)
Definition note_observed (net : NetworkId) (wanted : RouteMap)
    (st : RouteMap * gset RouteDestination) (r : Route) :
  CoreResult (RouteMap * gset RouteDestination) :=
  let '(existing, foreign_destinations) := st in
  d ← canonical_observed_destination (destination r);
  if negb (bool_decide (owner r = BlueRouteNetwork net)) then
    match wanted !! d with
    | Some _ => Err (route_invalid "desired destination conflicts with foreign route")
    | None => Ok (existing, {[d]} ∪ foreign_destinations)
    end
  else
    guard_err (negb (bool_decide (d = destination r)))
      (route_invalid "observed owned route has noncanonical prefix")
    match existing !! d with
    | Some _ => Err (route_invalid "duplicate observed owned route destination")
    | None => Ok (<[d := r]> existing, foreign_destinations)
    end.

Definition plan_route_reconciliation (net : NetworkId) (desired observed : list Route) :
  CoreResult RouteReconciliationPlan :=
  guard_err (all_zero (as_bytes net)) (route_invalid "route reconciliation requires a nonzero network")
  (wanted ← try_for_each (want net) ∅ desired;
   st ← try_for_each (note_observed net wanted) (∅, ∅) observed;
   let '(existing, foreign_destinations) := st in
   guard_err (existsb (fun k => bool_decide (k ∈ foreign_destinations)) (keys existing))
     (route_invalid "owned destination conflicts with foreign route")
   (Ok (mkRoutePlan
      (snd <$> List.filter (fun kv => negb (bool_decide (existing !! kv.1 = Some kv.2))) (iter_map wanted))
      (snd <$> List.filter (fun kv => bool_decide (wanted !! kv.1 = None)) (iter_map existing))))).

(** ** As a table *)

Definition owned_by (net : NetworkId) (r : Route) : Prop := owner r = BlueRouteNetwork net.
#[global] Instance owned_by_dec net r : Decision (owned_by net r).
Proof. unfold owned_by. apply _. Defined.

Definition route_table (net : NetworkId) : TableSpec CoreError RouteDestination Route := {|
  ts_key := destination;
  ts_owned := owned_by net;
  ts_owned_dec := owned_by_dec net;
  ts_canon r := canonical_observed_destination (destination r);
  ts_valid r := validate_desired r net;
  ts_check _ := Ok ();
  err_duplicate := route_invalid "duplicate desired route destination";
  err_conflict := route_invalid "desired destination conflicts with foreign route";
  err_noncanonical := route_invalid "observed owned route has noncanonical prefix";
  err_observed_twice := route_invalid "duplicate observed owned route destination";
  err_collision := route_invalid "owned destination conflicts with foreign route";
|}.

Lemma note_observed_eq net wanted st r : note_observed net wanted st r = index_observed (route_table net) wanted st r.
Proof. by destruct st. Qed.

Lemma try_for_each_ext {E A S : Type} (f g : S -> A -> result E S) s l :
  (forall s a, f s a = g s a) -> try_for_each f s l = try_for_each g s l.
Proof.
  intros Hfg. revert s. induction l as [|a l IH]; intros s; simpl; [done|]. rewrite Hfg.
  destruct (g s a); simpl; [apply IH|done].
Qed.

Lemma plan_route_eq net desired observed :
  plan_route_reconciliation net desired observed =
    guard_err (all_zero (as_bytes net)) (route_invalid "route reconciliation requires a nonzero network")
      ('(up, rm) ← sync_plan (route_table net) desired observed; Ok (mkRoutePlan up rm)).
Proof.
  unfold plan_route_reconciliation, sync_plan. destruct (all_zero _); [done|]. cbn [guard_err].
  change (index_unique _ _ _) with (want net).
  destruct (try_for_each (want net) ∅ desired) as [w|e]; [|done]. cbn [mbind result_bind].
  rewrite (try_for_each_ext _ (index_observed (route_table net) w)) by apply note_observed_eq.
  destruct (try_for_each _ (∅, ∅) observed) as [[ex fr]|e]; [|done]. cbn [mbind result_bind].
  by destruct (existsb _ _).
Qed.

(** ** When a plan exists, and what it contains *)

Definition dests (l : list Route) : list RouteDestination := destination <$> l.
Definition owned_routes (net : NetworkId) (l : list Route) : list Route := filter (owned_by net) l.
Definition foreign_routes (net : NetworkId) (l : list Route) : list Route :=
  filter (fun r => ~ owned_by net r) l.

Definition reconcilable (net : NetworkId) (desired observed : list Route) : Prop :=
  net <> zero_id /\
  Forall (fun r => validate_desired r net = Ok ()) desired /\
  NoDup (dests desired) /\ NoDup (dests (owned_routes net observed)) /\
  forall r, r ∈ observed -> exists d, canonical_observed_destination (destination r) = Ok d /\
    if decide (owned_by net r) then d = destination r
    else (d ∉ dests desired) /\ d ∉ dests (owned_routes net observed).

Lemma reconcilable_syncable net desired observed :
  reconcilable net desired observed <-> net <> zero_id /\ syncable (route_table net) desired observed.
Proof.
  unfold reconcilable, syncable. simpl. split; intros (Hn & Hv & Hd & Ho & Hall); split_and!; try done;
    intros r Hr; destruct (Hall r Hr) as (d & Hd' & Hcase); exists d; (split; [done|]); case_decide; naive_solver.
Qed.

Lemma validate_desired_owned r net : validate_desired r net = Ok () -> owned_by net r.
Proof.
  unfold validate_desired. intros [Ho _]%guard_err_Ok.
  by apply negb_false_iff, bool_decide_eq_true in Ho.
Qed.

Lemma route_valid_owned net r : ts_valid (route_table net) r = Ok () -> ts_owned (route_table net) r.
Proof. apply validate_desired_owned. Qed.

Lemma plan_spec net desired observed :
  match plan_route_reconciliation net desired observed with
  | Ok p => reconcilable net desired observed /\ sync_plan_ok (route_table net) desired observed (upsert p, remove p)
  | Err _ => ~ reconcilable net desired observed
  end.
Proof.
  rewrite plan_route_eq. destruct (all_zero (as_bytes net)) eqn:Hz; cbn [guard_err].
  { intros [Hn _]%reconcilable_syncable. by apply all_zero_id in Hz. }
  assert (net <> zero_id) as Hnz by (intros Heq; apply all_zero_id in Heq; congruence).
  pose proof (sync_plan_spec (route_table net) desired observed) as Hspec.
  destruct (sync_plan _ desired observed) as [[up rm]|e] eqn:Hp; cbn [mbind result_bind];
    [|by intros [_ ?]%reconcilable_syncable].
  split; [apply reconcilable_syncable; split; [done|apply Hspec]|]. apply (sync_plan_is_ok _ (route_valid_owned net)). exact Hp.
Qed.

Lemma plan_is_ok net desired observed p :
  plan_route_reconciliation net desired observed = Ok p ->
  sync_plan_ok (route_table net) desired observed (upsert p, remove p).
Proof. intros Hp. pose proof (plan_spec net desired observed) as Hs. rewrite Hp in Hs. apply Hs. Qed.

Lemma plan_total net desired observed :
  reconcilable net desired observed -> exists p, plan_route_reconciliation net desired observed = Ok p.
Proof.
  intros Hr. pose proof (plan_spec net desired observed) as Hs.
  destruct (plan_route_reconciliation net desired observed); [by eexists|done].
Qed.

(** Reconciliation plans exactly the difference.  A plan exists precisely
    for reconcilable inputs: a nonzero network, valid desired routes with
    distinct destinations, well-formed observations, canonical and distinct
    owned ones, and no foreign route on a desired or owned destination.  It then
    upserts exactly the desired routes that are not observed as they are,
    removes exactly the observed owned routes with no desired destination, each
    in ascending order of destination, and names no destination that a foreign
    route has. *)
Theorem plan_route_reconciliation_exact (net : NetworkId) (desired observed : list Route) :
  match plan_route_reconciliation net desired observed with
  | Ok p =>
      reconcilable net desired observed /\
      (forall r, r ∈ upsert p <-> r ∈ desired /\ r ∉ observed) /\
      (forall r, r ∈ remove p <-> r ∈ observed /\ owned_by net r /\ destination r ∉ dests desired) /\
      StronglySorted ord_lt (dests (upsert p)) /\ StronglySorted ord_lt (dests (remove p)) /\
      (forall f r, f ∈ observed -> ~ owned_by net f -> r ∈ upsert p ++ remove p ->
         canonical_observed_destination (destination f) <> Ok (destination r))
  | Err _ => ~ reconcilable net desired observed
  end.
Proof.
  pose proof (plan_spec net desired observed) as Hspec.
  destruct (plan_route_reconciliation net desired observed) as [p|e]; [|done].
  destruct Hspec as [Hrec Hp]. pose proof Hp as [_ Hu Hr Hsu Hsr]. split_and!; try done.
  intros f r Hf Hfor Hin. by apply (sync_plan_spares_foreign _ _ _ _ f r Hp).
Qed.

(** ** The executor *)

Class OwnedRouteOperator (S : Type) := {
  observe_routes : stres S CoreError (list Route);
  replace_owned_route : option Route -> Route -> stres S CoreError ();
  remove_owned_route : Route -> stres S CoreError ();
}.

Inductive RouteChange := Upsert (r : Route) | Remove (r : Route).

Record RouteExecutionReport := mkRouteReport {
  route_applied : list RouteChange;
  route_observed : list Route;
}.

Definition stale : CoreError :=
  core_error InvalidState "observed routes changed during reconciliation; replan".
Definition upsert_mismatch : CoreError :=
  core_error RouteFailure "route upsert did not produce the exact observed state".
Definition removal_mismatch : CoreError :=
  core_error RouteFailure "route removal did not produce the exact observed state".

Section executor.
Context {S : Type} `{OwnedRouteOperator S} (net : NetworkId).

Definition same_owned (new r : Route) : Prop := owned_by net r /\ destination r = destination new.
#[global] Instance same_owned_dec new r : Decision (same_owned new r).
Proof. unfold same_owned. apply _. Defined.

(** [let mut actual = operator.observe_routes()?; actual.sort()]. *)
Definition observe_sorted : stres S CoreError (list Route) :=
  let! l := observe_routes in st_ret (sort_routes l).

(** The expected observations after one change. *)
Definition after_upsert (observed : list Route) (new : Route) : list Route :=
  filter (fun r => ~ same_owned new r) observed ++ [new].
Definition after_remove (observed : list Route) (old : Route) : list Route :=
  filter (fun r => r <> old) observed.

Definition upsert_step (st : list Route * list RouteChange) (new : Route) :
  stres S CoreError (list Route * list RouteChange) :=
  let '(observed, applied) := st in
  let! actual := observe_sorted in
  if decide (actual = observed) then
    let previous := List.find (fun r => bool_decide (same_owned new r)) observed in
    let! _ := replace_owned_route previous new in
    let! post := observe_sorted in
    if decide (post = sort_routes (after_upsert observed new))
    then st_ret (post, applied ++ [Upsert new])
    else st_fail upsert_mismatch
  else st_fail stale.

Definition remove_step (st : list Route * list RouteChange) (old : Route) :
  stres S CoreError (list Route * list RouteChange) :=
  let '(observed, applied) := st in
  let! actual := observe_sorted in
  if decide (actual = observed) then
    let! _ := remove_owned_route old in
    let! post := observe_sorted in
    if decide (post = after_remove observed old)
    then st_ret (post, applied ++ [Remove old])
    else st_fail removal_mismatch
  else st_fail stale.

Definition execute_route_reconciliation (desired : list Route) : stres S CoreError RouteExecutionReport :=
  let! observed := observe_routes in
  let! p := st_lift (plan_route_reconciliation net desired observed) in
  let! st := st_for_each upsert_step (sort_routes observed, []) (upsert p) in
  let! st := st_for_each remove_step st (remove p) in
  st_ret (mkRouteReport st.2 st.1).

(** [route_recovery.rs] *)
Definition reconcile_observed_topology_routes (g : TopologyGraph) (source : NodeId) :
  stres S CoreError RouteExecutionReport :=
  let! desired := st_lift (desired_node_routes g source net) in
  execute_route_reconciliation desired.

End executor.

#[global] Instance route_operator {S : Type} `{OwnedRouteOperator S} : TableOperator S CoreError Route := {|
  observe_table := observe_routes;
  replace_entry := replace_owned_route;
  remove_entry := remove_owned_route;
|}.

Lemma execute_eq {S : Type} `{OwnedRouteOperator S} net desired :
  execute_route_reconciliation net desired =
    sync_execute (S := S) (route_table net) stale upsert_mismatch removal_mismatch
      (plan_route_reconciliation net desired) upsert remove Upsert Remove mkRouteReport.
Proof. reflexivity. Qed.

(** ** Progress over a lawful operator *)

(** What the trait's documentation asks of a backend that serves [net]:
    observations report the table without changing it, and a mutation is an
    atomic comparison of the owner and of the destination at the change itself.
    A valid route of the network takes the place of the network's own route to
    its destination only when no other route, of any owner, leads there; without
    a previous route it is honoured only when no route at all does, so that a
    backend that refuses to write over another owner's route is lawful; and a
    route of the network is removed when it is the only one to its destination. *)
Definition vacant (new : Route) (l : list Route) : Prop :=
  forall r, r ∈ l -> canonical_observed_destination (destination r) <> Ok (destination new).

Class LawfulRouteOperator (S : Type) (net : NetworkId) `{OwnedRouteOperator S} := {
  routes_of : S -> list Route;
  observe_law s : exists l s', observe_routes s = (Ok l, s') /\ l ≡ₚ routes_of s /\ routes_of s' ≡ₚ routes_of s;
  replace_law s old new rest :
    routes_of s ≡ₚ old :: rest -> owned_by net old -> validate_desired new net = Ok () ->
    destination old = destination new -> vacant new rest ->
    exists s', replace_owned_route (Some old) new s = (Ok (), s') /\ routes_of s' ≡ₚ new :: rest;
  insert_law s new :
    validate_desired new net = Ok () -> vacant new (routes_of s) ->
    exists s', replace_owned_route None new s = (Ok (), s') /\ routes_of s' ≡ₚ new :: routes_of s;
  remove_law s old rest :
    routes_of s ≡ₚ old :: rest -> owned_by net old -> old ∉ rest -> vacant old rest ->
    exists s', remove_owned_route old s = (Ok (), s') /\ routes_of s' ≡ₚ rest;
}.
Arguments routes_of {S} net {_ _}.

#[global] Instance lawful_route_table {S : Type} `{LawfulRouteOperator S net} : LawfulTable (S := S) (route_table net).
Proof.
  refine {| table_of := routes_of net |}; [apply observe_law|..]; simpl.
  - intros s old new rest Hs Ho Hn Hk Hfree. by apply replace_law.
  - intros s new Hn Hfree. by apply insert_law.
  - intros s old rest Hs Ho Hr Hfree. by apply remove_law.
Defined.

(** ** Reconciling twice *)

Lemma checked_shl_default w a h : 0 <= w -> default 0 (checked_shl w a h) = shl w a h.
Proof.
  intros Hw. unfold checked_shl. destruct (Z.ltb_spec h w) as [|Hge]; simpl; [done|].
  rewrite shl_mod by lia. replace h with (h - w + w) by lia.
  rewrite Z.pow_add_r, Z.mul_assoc by lia. symmetry. apply Z_mod_mult.
Qed.

Lemma canonical_desired r net :
  validate_desired r net = Ok () -> canonical_observed_destination (destination r) = Ok (destination r).
Proof.
  unfold validate_desired. intros Hv. apply guard_err_Ok in Hv as [_ Hv].
  apply guard_err_Ok in Hv as [_ Hv]. apply guard_err_Ok in Hv as [_ Hv].
  destruct (destination r) as [| |[a len]|]; try done. simpl in *.
  apply result_bind_Ok in Hv as (q & Hq & Hv). rewrite Hq. simpl.
  apply guard_err_Ok in Hv as [Hlen Hv]. apply guard_err_Ok in Hv as [Hcan _].
  apply Z.eqb_neq in Hlen. apply negb_false_iff in Hcan. unfold canonical_prefix in Hcan. simpl in Hcan.
  apply guard_err_Ok in Hq as [Hmax [= <-]].
  destruct a as [n|n]; simpl in *; rewrite checked_shl_default by lia; apply Z.eqb_eq in Hcan;
    unfold ip_prefix_new; simpl; rewrite Hmax; csimpl; by rewrite Hcan.
Qed.

Lemma route_valid_self net r :
  ts_valid (route_table net) r = Ok () ->
  ts_canon (route_table net) r = Ok (ts_key (route_table net) r) /\ ts_check (route_table net) r = Ok ().
Proof. simpl. intros Hv. split; [by eapply canonical_desired|done]. Qed.

(** ** Theorems about the executor *)

(** Whatever the backend does, a successful execution means: a plan existed
    for the first observation, every change of it was applied, upserts before
    removals, and the last thing the backend reported is exactly the foreign
    routes first observed together with the desired ones. *)
Theorem execute_route_reconciliation_sound {S : Type} `{OwnedRouteOperator S} (net : NetworkId)
    (desired : list Route) (s s' : S) (rep : RouteExecutionReport) :
  execute_route_reconciliation net desired s = (Ok rep, s') ->
  exists obs p s1,
    observe_routes s = (Ok obs, s1) /\
    plan_route_reconciliation net desired obs = Ok p /\
    route_applied rep = (Upsert <$> upsert p) ++ (Remove <$> remove p) /\
    route_observed rep = sort_routes (foreign_routes net obs ++ desired) /\
    exists s0 k, observe_routes s0 = (Ok k, s') /\ sort_routes k = route_observed rep.
Proof.
  rewrite execute_eq. intros Hrun.
  pose proof (sync_execute_post (route_table net) stale upsert_mismatch removal_mismatch
    (plan_route_reconciliation net desired) upsert remove Upsert Remove mkRouteReport desired
    (route_valid_owned net) (plan_is_ok net desired) s) as Hp. unfold st_post in Hp. rewrite Hrun in Hp.
  destruct Hp as (_ & obs & p & s1 & Hobs & Hplan & -> & Hlast). exists obs, p, s1. by split_and!.
Qed.

(** Success or failure, the only mutations the executor requests are
    replacements by a desired route of this network, whose previous value is
    absent or an owned route to the same destination, and removals of owned
    routes to destinations that are not desired: a predicate on the backend's
    state that those requests and observations keep, such as the foreign part of
    the table, holds after every execution. *)
Theorem execute_mutates_only_owned {S : Type} `{OwnedRouteOperator S} (net : NetworkId)
    (desired : list Route) (I : S -> Prop) (s : S) :
  (forall s, I s -> I (observe_routes s).2) ->
  (forall previous new, new ∈ desired -> owned_by net new ->
     (forall r, previous = Some r -> owned_by net r /\ destination r = destination new) ->
     forall s, I s -> I (replace_owned_route previous new s).2) ->
  (forall old, owned_by net old -> destination old ∉ dests desired ->
     forall s, I s -> I (remove_owned_route old s).2) ->
  I s -> I (execute_route_reconciliation net desired s).2.
Proof.
  intros Hobs Hrep Hrem. rewrite execute_eq.
  apply (sync_execute_keeps (route_table net) _ _ _ _ _ _ _ _ _ desired (route_valid_owned net) (plan_is_ok net desired));
    [exact Hobs|exact Hrep|exact Hrem].
Qed.

(** C2. Over a backend that is only lawful for routes that lead where no other
    route leads (it may refuse, as the kernel's comparison must, to write over
    a route of another owner) reconciliation converges: from any reconcilable
    table one execution succeeds and leaves exactly the foreign routes and the
    desired ones, and a second execution succeeds and applies nothing. *)
Theorem execute_route_reconciliation_converges {S : Type} {net : NetworkId} `{LawfulRouteOperator S net}
    (desired : list Route) (s : S) :
  reconcilable net desired (routes_of net s) ->
  exists rep s', execute_route_reconciliation net desired s = (Ok rep, s') /\
    routes_of net s' ≡ₚ foreign_routes net (routes_of net s) ++ desired /\
    exists s'', execute_route_reconciliation net desired s' =
      (Ok (mkRouteReport [] (route_observed rep)), s'') /\ routes_of net s'' ≡ₚ routes_of net s'.
Proof.
  rewrite reconcilable_syncable. intros [Hn Hrec]. rewrite execute_eq.
  destruct (sync_execute_converges (route_table net) stale upsert_mismatch removal_mismatch
    desired (route_valid_owned net) (route_valid_self net) (plan_route_reconciliation net desired) upsert remove
    Upsert Remove mkRouteReport (plan_is_ok net desired)) with (s := s)
    as (applied & s' & l & Hrun & _ & Hs' & Hagain).
  - intros obs Hobs. by apply plan_total, reconcilable_syncable.
  - exact Hrec.
  - by exists (mkRouteReport applied l), s'.
Qed.

(** ** A backend that satisfies the laws: a table with compare-and-swap *)

#[global] Instance table_operator : OwnedRouteOperator (table Route) := {|
  observe_routes := fun t => (Ok (entries t), t);
  replace_owned_route := table_put (core_error RouteFailure "route changed") (core_error RouteFailure "route exists")
    (fun new r => bool_decide (destination r = destination new));
  remove_owned_route := fun old => swap (core_error RouteFailure "route changed") old [];
|}.

Lemma vacant_raw net new l :
  validate_desired new net = Ok () -> vacant new l -> forall r, r ∈ l -> destination r <> destination new.
Proof. intros Hv Hfree r Hr Heq. apply (Hfree r Hr). rewrite Heq. by eapply canonical_desired. Qed.

#[global] Instance table_lawful net : LawfulRouteOperator (table Route) net.
Proof.
  refine {| routes_of := entries |}; cbn [observe_routes replace_owned_route remove_owned_route table_operator].
  - intros t. by exists (entries t), t.
  - intros t old new rest Hp _ Hv _ Hfree. apply table_put_over; [done|]. intros r Hr.
    apply bool_decide_eq_false. by eapply vacant_raw.
  - intros t new Hv Hfree. exists (mkTable (new :: entries t)). split; [|done]. apply table_put_fresh. intros r Hr.
    apply bool_decide_eq_false. by eapply vacant_raw.
  - intros t old rest Hp _ _ _. by apply (swap_law _ t old rest []).
Defined.

(** *** The backend of the repository's own tests ([FakeRoutes]), without its
    injected faults *)

Record fake_routes := mkFake { fake_table : list Route }.

Definition same_destination (new r : Route) : bool := bool_decide (destination r = destination new).
Definition cas_mismatch (what : string) : CoreError := core_error InvalidState what.

#[global] Instance fake_operator : OwnedRouteOperator fake_routes := {|
  observe_routes := fun f => (Ok (fake_table f), f);
  replace_owned_route := fun previous new f =>
    let prior := List.find (same_destination new) (fake_table f) in
    if bool_decide (prior <> previous) || bool_decide (owner new = BlueRouteNetwork (fill_id 0))
    then (Err (cas_mismatch "kernel compare-and-swap route ownership mismatch"), f)
    else (Ok (), mkFake (List.filter (fun r => negb (same_destination new r)) (fake_table f) ++ [new]));
  remove_owned_route := fun previous f =>
    if decide (previous ∈ fake_table f)
    then (Ok (), mkFake (List.filter (fun r => negb (bool_decide (r = previous))) (fake_table f)))
    else (Err (cas_mismatch "kernel compare-and-swap route removal mismatch"), f);
|}.

Lemma filter_true_all {A : Type} (f : A -> bool) l : (forall x, x ∈ l -> f x = true) -> List.filter f l = l.
Proof.
  induction l as [|x l IH]; intros Hf; simpl; [done|]. rewrite (Hf x) by (by left).
  f_equal. apply IH. intros y Hy. apply Hf. by right.
Qed.

Lemma filter_perm {A : Type} (f : A -> bool) l k : l ≡ₚ k -> List.filter f l ≡ₚ List.filter f k.
Proof.
  induction 1 as [|x l k _ IH|x y l|l m k _ IH1 _ IH2]; simpl; [done| | |by rewrite IH1].
  - by destruct (f x); rewrite ?IH.
  - destruct (f x), (f y); try done. apply Permutation_swap.
Qed.

Lemma find_only {A : Type} (f : A -> bool) l x rest :
  l ≡ₚ x :: rest -> f x = true -> (forall y, y ∈ rest -> f y = false) -> List.find f l = Some x.
Proof.
  intros Hp Hx Hrest. destruct (List.find f l) as [y|] eqn:Hf.
  - apply List.find_some in Hf as [Hy%list_elem_of_In Hfy]. rewrite Hp in Hy.
    apply elem_of_cons in Hy as [->|Hy]; [done|]. by rewrite Hrest in Hfy.
  - apply (List.find_none _ _) with (x := x) in Hf; [congruence|]. apply list_elem_of_In. rewrite Hp. by left.
Qed.

#[global] Instance fake_lawful net : net <> fill_id 0 -> LawfulRouteOperator fake_routes net.
Proof.
  intros Hnet.
  assert (forall new r, validate_desired new net = Ok () -> vacant new [r] -> same_destination new r = false) as Hfar.
  { intros new r Hv Hfree. apply bool_decide_eq_false. eapply vacant_raw; [done..|by left]. }
  assert (forall new, validate_desired new net = Ok () -> bool_decide (owner new = BlueRouteNetwork (fill_id 0)) = false) as Hown.
  { intros new Hv. apply bool_decide_eq_false. rewrite (route_valid_owned net new Hv). by intros [= ->]. }
  refine {| routes_of := fake_table |}; cbn [observe_routes replace_owned_route remove_owned_route fake_operator].
  - intros t. by exists (fake_table t), t.
  - intros t old new rest Hp Ho Hv Hd Hfree.
    assert (forall r, r ∈ rest -> same_destination new r = false) as Hrest.
    { intros r Hr. apply Hfar; [done|]. intros q ->%list_elem_of_singleton. by apply Hfree. }
    assert (same_destination new old = true) as Hsame by (by apply bool_decide_eq_true).
    rewrite (find_only _ _ _ _ Hp Hsame Hrest), (bool_decide_eq_false_2 (Some old <> Some old)), Hown by naive_solver.
    eexists. split; [reflexivity|]. simpl. rewrite (filter_perm _ _ _ Hp). simpl. rewrite Hsame. simpl.
    rewrite filter_true_all; [by rewrite <- Permutation_cons_append|]. intros r Hr. by rewrite Hrest.
  - intros t new Hv Hfree.
    assert (forall r, r ∈ fake_table t -> same_destination new r = false) as Hno.
    { intros r Hr. apply Hfar; [done|]. intros q ->%list_elem_of_singleton. by apply Hfree. }
    assert (List.find (same_destination new) (fake_table t) = None) as ->.
    { destruct (List.find _ _) as [r|] eqn:Hf; [|done]. apply List.find_some in Hf as [Hr%list_elem_of_In Hs].
      by rewrite Hno in Hs. }
    rewrite (bool_decide_eq_false_2 (None <> None)), Hown by naive_solver. eexists. split; [reflexivity|]. simpl.
    rewrite filter_true_all; [by rewrite <- Permutation_cons_append|]. intros r Hr. by rewrite Hno.
  - intros t old rest Hp Ho Hr _. rewrite decide_True by (rewrite Hp; by left). eexists. split; [reflexivity|]. simpl.
    rewrite (filter_perm _ _ _ Hp). simpl. rewrite bool_decide_eq_true_2 by done. simpl.
    rewrite filter_true_all; [done|]. intros r Hin. apply negb_true_iff, bool_decide_eq_false. by intros ->.
Defined.

(** *** Node 1 of the star, whose table holds a stale owned route, an outdated
    one and a foreign one *)

Definition demo_net : NetworkId := fill_id 9.
Definition demo_foreign : Route :=
  mkRoute (DestNode (fill_id 7)) (fill_id 7) 1 (BlueRouteNetwork (fill_id 8)).
Definition demo_table : table Route := mkTable
  [mkRoute (DestNode (fill_id 3)) (fill_id 3) 4 (BlueRouteNetwork demo_net);
   demo_foreign;
   mkRoute (DestNode (fill_id 6)) (fill_id 3) 4 (BlueRouteNetwork demo_net)].

Definition demo_report : RouteExecutionReport := mkRouteReport
  [Upsert (mkRoute (DestNode (fill_id 2)) (fill_id 2) 5 (BlueRouteNetwork demo_net));
   Upsert (mkRoute (DestNode (fill_id 3)) (fill_id 2) 106 (BlueRouteNetwork demo_net));
   Remove (mkRoute (DestNode (fill_id 6)) (fill_id 3) 4 (BlueRouteNetwork demo_net))]
  (demo_routes ++ [demo_foreign]).

Lemma execute_route_reconciliation_sound_witness :
  (reconcile_observed_topology_routes demo_net demo_star (fill_id 1) demo_table).1 = Ok demo_report /\
  exists obs, obs = entries demo_table /\
    route_observed demo_report = sort_routes (foreign_routes demo_net obs ++ demo_routes).
Proof.
  split; [vm_compute; reflexivity|].
  destruct (execute_route_reconciliation_sound demo_net demo_routes demo_table
    (execute_route_reconciliation demo_net demo_routes demo_table).2 demo_report)
    as (obs & p & s1 & Hobs & _ & _ & Hrep & _); [vm_compute; reflexivity|].
  exists obs. split; [|exact Hrep]. injection Hobs as <- _. reflexivity.
Defined.

Lemma demo_net_served : demo_net <> fill_id 0.
Proof. discriminate. Qed.

(** Over the repository's test backend, with a foreign route in the table. *)
Lemma execute_route_reconciliation_converges_witness :
  exists rep t, execute_route_reconciliation demo_net demo_routes (mkFake (entries demo_table)) = (Ok rep, t) /\
    fake_table t ≡ₚ [demo_foreign] ++ demo_routes.
Proof.
  destruct (@execute_route_reconciliation_converges fake_routes demo_net _ (fake_lawful demo_net demo_net_served)
    demo_routes (mkFake (entries demo_table))) as (rep & t & Hrun & Ht & _).
  - pose proof (plan_spec demo_net demo_routes (entries demo_table)) as Hs.
    destruct (plan_route_reconciliation demo_net demo_routes (entries demo_table)) eqn:Hp;
      [exact (proj1 Hs) | vm_compute in Hp; discriminate Hp].
  - exists rep, t. split; [exact Hrun | exact Ht].
Defined.

(** The foreign part of the table is such a predicate. *)
Lemma execute_mutates_only_owned_witness :
  foreign_routes demo_net (entries (execute_route_reconciliation demo_net demo_routes demo_table).2)
    ≡ₚ [demo_foreign].
Proof.
  apply (execute_mutates_only_owned demo_net demo_routes
    (fun t => foreign_routes demo_net (entries t) ≡ₚ [demo_foreign]) demo_table).
  - intros t Ht. exact Ht.
  - intros previous new _ Hn Hprev t Ht. cbn [replace_owned_route table_operator]. unfold foreign_routes.
    rewrite put_keeps_others; [exact Ht|naive_solver|]. intros old Hold. specialize (Hprev old Hold). naive_solver.
  - intros old Ho _ t Ht. cbn [remove_owned_route table_operator]. unfold foreign_routes.
    rewrite swap_keeps_others; [exact Ht|naive_solver|constructor].
  - vm_compute. reflexivity.
Defined.
