(* ===== verification/TopologyPolicy.v ===== *)
(** NAP hub selection: [crates/blueroute-core/src/topology_policy.rs].

    [BTreeMap]s are [gmap]s iterated in key order; the greedy loop is a
    recursion on fuel, and a selection needs at most one round per candidate. *)

From S2P Require Import Prelude Order Ident Capability.

Local Open Scope Z_scope.

(** ** Inputs *)

Record CandidateLink := mkCandLink {
  path_cost : Z;
  quality : option LinkQuality;
  stable : bool;
}.

Record TopologyCandidate := mkCandidate {
  cand_id : NodeId;
  capabilities : NodeCapabilities;
  neighbors : gmap NodeId CandidateLink;
  currently_hosting : bool;
  gateway_preferred : bool;
}.

Record TopologyPolicyInputs := mkInputs { candidates : gmap NodeId TopologyCandidate }.

Definition policy_invalid (m : string) : CoreError := core_error InvalidInput m.

(** The body of the inner loop of [validate]. *)
Definition validate_neighbor (inputs : TopologyPolicyInputs) (id : NodeId) (_ : ())
    (nl : NodeId * CandidateLink) : CoreResult () :=
  guard_err (bool_decide (nl.1 = id) || bool_decide (candidates inputs !! nl.1 = None))
    (policy_invalid "unknown or self-referential topology neighbor")
  (guard_err ((path_cost nl.2 =? 0)
              || match quality nl.2 with Some q => 100 <? score q | None => false end)
    (policy_invalid "invalid topology link metric") (Ok ())).

Definition validate_candidate (inputs : TopologyPolicyInputs) (_ : ())
    (kv : NodeId * TopologyCandidate) : CoreResult () :=
  let '(id, c) := kv in
  guard_err (bool_decide (id = zero_id) || negb (bool_decide (id = cand_id c)))
    (policy_invalid "invalid or mismatched topology node identity")
  (guard_err match connection_policy_ceiling (capabilities c) with
             | Some ceiling => value ceiling =? 0 | None => false end
    (policy_invalid "zero NAP connection ceiling")
  (guard_err match power_state (capabilities c) with
             | Some p => match value p with Battery percent => 100 <? percent | AcPowered => false end
             | None => false end
    (policy_invalid "battery percentage exceeds 100")
  (try_for_each (validate_neighbor inputs id) () (iter_map (neighbors c))))).

Definition inputs_validate (inputs : TopologyPolicyInputs) : CoreResult () :=
  try_for_each (validate_candidate inputs) () (iter_map (candidates inputs)).

(** ** Selection *)

Record NapAssignment := mkStar { hub : NodeId; clients : list NodeId }.
Record NapSelection := mkSelection { stars : list NapAssignment; unserved : gset NodeId }.

Definition can_host (c : TopologyCandidate) : bool :=
  affirmative (can_host_pan (capabilities c)) && affirmative (adapter_usable_value (capabilities c)).
Definition can_join (c : TopologyCandidate) : bool :=
  affirmative (can_join_pan (capabilities c)) && affirmative (adapter_usable_value (capabilities c)).

(** [connection_policy_ceiling.as_ref().map(|v| usize::from(v.value))]. *)
Definition nap_capacity (c : TopologyCandidate) : option nat :=
  (fun v => Z.to_nat (value v)) <$> connection_policy_ceiling (capabilities c).

(** The link as both ends see it: the worse of the two observations. *)
Definition reciprocal_link (link reverse : CandidateLink) : CandidateLink :=
  mkCandLink (Z.max (path_cost link) (path_cost reverse))
    match quality link, quality reverse with
    | Some local, Some remote => Some (mkLinkQuality (Z.min (score local) (score remote)))
    | _, _ => None
    end
    (stable link && stable reverse).

(** The [filter_map] over a hub's neighbours. *)
Definition client_offer (inputs : TopologyPolicyInputs) (un : gset NodeId) (id : NodeId)
    (nl : NodeId * CandidateLink) : option (NodeId * CandidateLink) :=
  let '(peer, link) := nl in
  remote ← candidates inputs !! peer;
  if negb (bool_decide (peer ∈ un)) || negb (can_join remote) then None
  else reverse ← neighbors remote !! id; Some (peer, reciprocal_link link reverse).

Definition quality_score (l : CandidateLink) : Z :=
  match quality l with Some q => score q | None => 0 end.

(** The key of [sort_by_key]. *)
Definition client_key (c : NodeId * CandidateLink) : Reverse bool * (Reverse Z * (Z * NodeId)) :=
  (mkReverse (stable c.2), (mkReverse (quality_score c.2), (path_cost c.2, c.1))).
Definition client_le (a b : NodeId * CandidateLink) : Prop := client_key a ≤ᵣ client_key b.
#[global] Instance client_le_dec : RelDecision client_le.
Proof. intros a b. unfold client_le. apply _. Defined.

Definition ranked_clients (inputs : TopologyPolicyInputs) (un : gset NodeId) (id : NodeId)
    (c : TopologyCandidate) (capacity : nat) : list (NodeId * CandidateLink) :=
  take capacity (merge_sort client_le (omap (client_offer inputs un id) (iter_map (neighbors c)))).

Abbreviation Score := (nat * (bool * (nat * (Z * (bool * (bool * (Reverse Z * Reverse NodeId)))))))%type.

Definition sum_by {A : Type} (f : A -> Z) (l : list A) : Z := foldr (fun x acc => f x + acc) 0 l.

Definition hub_score (id : NodeId) (c : TopologyCandidate) (cs : list (NodeId * CandidateLink)) : Score :=
  (length cs,
   (currently_hosting c,
    (length (List.filter (fun x => stable x.2) cs),
     (sum_by (fun x => quality_score x.2) cs,
      (match power_state (capabilities c) with
       | Some p => bool_decide (value p = AcPowered) | None => false end,
       (gateway_preferred c,
        (mkReverse (sum_by (fun x => path_cost x.2) cs), mkReverse id))))))).

(** The proposal of one candidate, [None] where the loop body [continue]s. *)
Definition proposal (inputs : TopologyPolicyInputs) (selected un : gset NodeId)
    (kv : NodeId * TopologyCandidate) : option (NodeId * (list (NodeId * CandidateLink) * Score)) :=
  let '(id, c) := kv in
  if bool_decide (id ∈ selected) || negb (can_host c) then None
  else capacity ← nap_capacity c;
  if (capacity =? 0)%nat then None
  else match ranked_clients inputs un id c capacity with
  | [] => None
  | cs => Some (id, (cs, hub_score id c cs))
  end.

(** [best] after the [for] loop: later proposals replace it only when their
    score is greater. *)
Definition better (best : option (NodeId * (list (NodeId * CandidateLink) * Score)))
    (p : option (NodeId * (list (NodeId * CandidateLink) * Score))) :=
  match p with
  | None => best
  | Some q => match best with
              | None => Some q
              | Some b => if decide (b.2.2 <ᵣ q.2.2) then Some q else Some b
              end
  end.
Definition best_proposal (inputs : TopologyPolicyInputs) (selected un : gset NodeId) :=
  foldl (fun best kv => better best (proposal inputs selected un kv)) None (iter_map (candidates inputs)).

(** The [loop]; [None] is running out of fuel. *)
Fixpoint select_loop (fuel : nat) (inputs : TopologyPolicyInputs) (selected un : gset NodeId)
    (acc : list NapAssignment) : option NapSelection :=
  match fuel with
  | O => None
  | S fuel =>
      match best_proposal inputs selected un with
      | None => Some (mkSelection acc un)
      | Some (h, (cs, _)) =>
          select_loop fuel inputs ({[h]} ∪ selected) (un ∖ {[h]} ∖ list_to_set cs.*1)
            (acc ++ [mkStar h cs.*1])
      end
  end.

Definition selection_fuel_error : CoreError := core_error Internal "selection fuel exhausted".

Definition select_nap_hubs (inputs : TopologyPolicyInputs) : CoreResult NapSelection :=
  _ ← inputs_validate inputs;
  ok_or (select_loop (S (size (candidates inputs))) inputs ∅ (dom (candidates inputs)) [])
    selection_fuel_error.

(** ** Validation *)

Lemma inputs_validate_ok inputs :
  inputs_validate inputs = Ok () -> forall id c, candidates inputs !! id = Some c ->
    id <> zero_id /\ id = cand_id c /\
    (forall v, connection_policy_ceiling (capabilities c) = Some v -> value v <> 0) /\
    forall n l, neighbors c !! n = Some l -> n <> id /\ is_Some (candidates inputs !! n) /\ path_cost l <> 0.
Proof.
  unfold inputs_validate. rewrite try_all_Ok, Forall_forall. intros Hall id c Hc.
  specialize (Hall (id, c)). rewrite elem_of_iter_map in Hall. specialize (Hall Hc).
  apply guard_err_Ok in Hall as [Hid Hall]. apply guard_err_Ok in Hall as [Hceil Hall].
  apply guard_err_Ok in Hall as [_ Hall]. rewrite try_all_Ok, Forall_forall in Hall.
  rewrite orb_false_iff, negb_false_iff, bool_decide_eq_true, bool_decide_eq_false in Hid.
  destruct Hid as [Hz Hid]. split_and!; try done.
  - intros v Hv. rewrite Hv in Hceil. by apply Z.eqb_neq in Hceil.
  - intros n l Hn. apply elem_of_iter_map, Hall in Hn. simpl in Hn.
    apply guard_err_Ok in Hn as [Hn Hm]. apply guard_err_Ok in Hm as [Hm _].
    rewrite orb_false_iff, !bool_decide_eq_false in Hn. rewrite orb_false_iff, Z.eqb_neq in Hm.
    destruct Hn as [? Hn], Hm as [? _]. split_and!; try done.
    by apply not_eq_None_Some.
Qed.

(** ** Proposals *)

Lemma client_offer_Some inputs un id peer link q :
  client_offer inputs un id (peer, link) = Some q <->
  exists remote reverse, candidates inputs !! peer = Some remote /\ peer ∈ un /\ can_join remote = true /\
    neighbors remote !! id = Some reverse /\ q = (peer, reciprocal_link link reverse).
Proof.
  unfold client_offer. rewrite bind_Some. split.
  - intros (remote & Hr & H). destruct (negb _ || _) eqn:Hg; [done|].
    rewrite orb_false_iff, !negb_false_iff, bool_decide_eq_true in Hg.
    apply bind_Some in H as (reverse & Hrev & [= <-]). naive_solver.
  - intros (remote & reverse & Hr & Hun & Hj & Hrev & ->). exists remote. split; [done|].
    rewrite bool_decide_eq_true_2, Hj by done. simpl. by rewrite Hrev.
Qed.

Lemma NoDup_omap_fst {A B C : Type} (f : A * B -> option (A * C)) (l : list (A * B)) :
  (forall x y, f x = Some y -> y.1 = x.1) -> NoDup l.*1 -> NoDup (omap f l).*1.
Proof.
  intros Hf. induction l as [|x l IH]; csimpl; [constructor|]. intros [Hx Hnd]%NoDup_cons.
  destruct (f x) as [y|] eqn:Hy; csimpl; [|auto]. constructor; [|auto].
  rewrite (Hf x y Hy). contradict Hx. apply list_elem_of_fmap in Hx as (z & Hz & Hin).
  apply list_elem_of_omap in Hin as (w & Hw & Hfw). apply list_elem_of_fmap. exists w.
  by rewrite Hz, (Hf w z Hfw).
Qed.

Lemma ranked_clients_elem inputs un id c cap p l :
  (p, l) ∈ ranked_clients inputs un id c cap ->
  exists link, neighbors c !! p = Some link /\ client_offer inputs un id (p, link) = Some (p, l).
Proof.
  unfold ranked_clients. intros Hin. eapply elem_of_sublist in Hin; [|apply sublist_take].
  rewrite merge_sort_Permutation in Hin. apply list_elem_of_omap in Hin as ([q link] & Hq & Ho).
  apply elem_of_iter_map in Hq. apply client_offer_Some in Ho as Ho'.
  destruct Ho' as (? & ? & _ & _ & _ & _ & Heq). injection Heq as <- _. eauto.
Qed.

Lemma ranked_clients_NoDup inputs un id c cap : NoDup (ranked_clients inputs un id c cap).*1.
Proof.
  unfold ranked_clients. eapply sublist_NoDup; [|apply fmap_sublist, sublist_take].
  rewrite merge_sort_Permutation. apply NoDup_omap_fst; [|apply NoDup_keys].
  intros [p link] y Hy. apply client_offer_Some in Hy as (? & ? & _ & _ & _ & _ & ->). done.
Qed.

Lemma ranked_clients_length inputs un id c cap : (length (ranked_clients inputs un id c cap) <= cap)%nat.
Proof. unfold ranked_clients. rewrite length_take. lia. Qed.

Lemma ranked_clients_nil inputs un id c cap p link :
  cap <> 0%nat -> ranked_clients inputs un id c cap = [] -> neighbors c !! p = Some link ->
  client_offer inputs un id (p, link) = None.
Proof.
  intros Hcap Hnil Hn. destruct (client_offer inputs un id (p, link)) as [q|] eqn:Ho; [|done].
  assert (q ∈ omap (client_offer inputs un id) (iter_map (neighbors c))) as Hin.
  { apply list_elem_of_omap. exists (p, link). by rewrite elem_of_iter_map. }
  rewrite <- (merge_sort_Permutation client_le) in Hin. unfold ranked_clients in Hnil.
  destruct (merge_sort client_le _) as [|x l]; [by apply elem_of_nil in Hin|].
  by destruct cap.
Qed.

Lemma proposal_Some inputs selected un id c q :
  proposal inputs selected un (id, c) = Some q <->
  (id ∉ selected) /\ can_host c = true /\ exists cap, nap_capacity c = Some cap /\ cap <> 0%nat /\
    let cs := ranked_clients inputs un id c cap in cs <> [] /\ q = (id, (cs, hub_score id c cs)).
Proof.
  unfold proposal. destruct (bool_decide (id ∈ selected)) eqn:Hs; simpl.
  { apply bool_decide_eq_true in Hs. naive_solver. }
  apply bool_decide_eq_false in Hs. destruct (can_host c); simpl; [|naive_solver].
  rewrite bind_Some. split.
  - intros (cap & Hcap & H). destruct (Nat.eqb_spec cap 0); [done|].
    split_and!; [done|done|]. exists cap. split; [done|]. split; [done|].
    destruct (ranked_clients inputs un id c cap); [done|]. by injection H as <-.
  - intros (_ & _ & cap & Hcap & Hz & Hne & ->). exists cap. split; [done|].
    destruct (Nat.eqb_spec cap 0); [done|]. by destruct (ranked_clients inputs un id c cap).
Qed.

(** The fold keeps a proposal of greatest score. *)
Lemma better_fold (f : NodeId * TopologyCandidate -> option (NodeId * (list (NodeId * CandidateLink) * Score))) l best0 :
  let r := foldl (fun best kv => better best (f kv)) best0 l in
  (r = None <-> best0 = None /\ Forall (fun kv => f kv = None) l) /\
  (forall q, r = Some q -> (best0 = Some q \/ exists kv, kv ∈ l /\ f kv = Some q) /\
     (forall b, best0 = Some b -> b.2.2 ≤ᵣ q.2.2) /\
     (forall kv q', kv ∈ l -> f kv = Some q' -> q'.2.2 ≤ᵣ q.2.2)).
Proof.
  revert best0. induction l as [|kv l IH]; intros best0; simpl.
  - split; [naive_solver|]. intros q ->. split_and!; [by left| |by intros ? ? ?%elem_of_nil].
    intros b [= ->]. auto with ord.
  - destruct (IH (better best0 (f kv))) as [Hnone Hsome]. split.
    + rewrite Hnone, Forall_cons. unfold better.
      destruct (f kv) as [q|], best0 as [b|]; [case_decide| | |]; naive_solver.
    + intros q Hq. destruct (Hsome q Hq) as (Hin & Hb & Hmax).
      assert (forall q', f kv = Some q' -> q'.2.2 ≤ᵣ q.2.2) as Hkv.
      { intros q' Hq'. rewrite Hq' in Hb. unfold better in Hb.
        destruct best0 as [b|]; [|by apply Hb]. destruct (decide (b.2.2 <ᵣ q'.2.2)) as [|Hnlt]; [by apply Hb|].
        apply ord_not_lt_le in Hnlt. eapply ord_le_trans; [exact Hnlt | by apply Hb]. }
      split_and!.
      * destruct Hin as [Hin|(kv' & ? & ?)]; [|right; exists kv'; set_solver].
        unfold better in Hin. destruct (f kv) as [q'|] eqn:Hf; [|by left].
        destruct best0 as [b|]; [destruct (decide _)|]; simplify_eq; auto;
          right; exists kv; (split; [by left | done]).
      * intros b ->. unfold better in Hb. destruct (f kv) as [q'|]; [|by apply Hb].
        destruct (decide (b.2.2 <ᵣ q'.2.2)) as [Hlt|]; [|by apply Hb].
        eapply ord_le_trans; [apply ord_lt_le; exact Hlt | by apply Hb].
      * intros kv' q' [->|Hin']%elem_of_cons Hf; [by apply Hkv | by eapply Hmax].
Qed.

(** ** Valid selections *)

Definition all_clients (l : list NapAssignment) : list NodeId := l ≫= clients.

(** A star whose hub can host within its capacity and whose clients can join
    and are neighbours of the hub in both directions. *)
Record star_ok (inputs : TopologyPolicyInputs) (st : NapAssignment) : Prop := {
  so_nonempty : clients st <> [];
  so_hub : exists h cap, candidates inputs !! hub st = Some h /\ can_host h = true /\
    nap_capacity h = Some cap /\ (length (clients st) <= cap)%nat;
  so_client c : c ∈ clients st -> c <> hub st /\ exists h p,
    candidates inputs !! hub st = Some h /\ candidates inputs !! c = Some p /\ can_join p = true /\
    is_Some (neighbors h !! c) /\ is_Some (neighbors p !! hub st);
}.

Record valid_selection (inputs : TopologyPolicyInputs) (sel : NapSelection) : Prop := {
  vs_hubs : NoDup (hub <$> stars sel);
  vs_stars : Forall (star_ok inputs) (stars sel);
  vs_once : NoDup (all_clients (stars sel));
  vs_unserved n : n ∈ unserved sel <->
    is_Some (candidates inputs !! n) /\ n ∉ (hub <$> stars sel) ++ all_clients (stars sel);
}.

Lemma all_clients_snoc l st : all_clients (l ++ [st]) = all_clients l ++ clients st.
Proof. unfold all_clients. rewrite bind_app. simpl. by rewrite app_nil_r. Qed.

Section selection.
Context (inputs : TopologyPolicyInputs) (Hvalid : inputs_validate inputs = Ok ()).

Lemma best_proposal_Some selected un h cs sc :
  best_proposal inputs selected un = Some (h, (cs, sc)) ->
  exists c cap, candidates inputs !! h = Some c /\ (h ∉ selected) /\ can_host c = true /\
    nap_capacity c = Some cap /\ cap <> 0%nat /\ cs = ranked_clients inputs un h c cap /\ cs <> [] /\
    sc = hub_score h c cs /\
    forall id' c' q, candidates inputs !! id' = Some c' -> proposal inputs selected un (id', c') = Some q ->
      q.2.2 ≤ᵣ sc.
Proof.
  unfold best_proposal. intros Hb.
  destruct (better_fold (proposal inputs selected un) (iter_map (candidates inputs)) None) as [_ Hs].
  destruct (Hs _ Hb) as ([|([id c] & Hin & Hp)] & _ & Hmax); [done|].
  apply elem_of_iter_map in Hin. apply proposal_Some in Hp as (Hsel & Hhost & cap & Hcap & Hz & Hne & Heq).
  injection Heq as -> -> ->. exists c, cap. split_and!; try done.
  intros id' c' q Hc' Hq. apply (Hmax (id', c') q); [by apply elem_of_iter_map | done].
Qed.

Lemma proposed_star_ok selected un h cs sc :
  best_proposal inputs selected un = Some (h, (cs, sc)) ->
  star_ok inputs (mkStar h cs.*1) /\ NoDup cs.*1 /\ (forall p, p ∈ cs.*1 -> p ∈ un).
Proof.
  intros (c & cap & Hc & _ & Hhost & Hcap & _ & -> & Hne & _)%best_proposal_Some.
  assert (forall p, p ∈ (ranked_clients inputs un h c cap).*1 -> p ∈ un /\ p <> h /\ exists remote,
    candidates inputs !! p = Some remote /\ can_join remote = true /\
    is_Some (neighbors c !! p) /\ is_Some (neighbors remote !! h)) as Hel.
  { intros p ([p' l] & -> & Hin)%list_elem_of_fmap.
    apply ranked_clients_elem in Hin as (link & Hn & Ho). simpl.
    apply client_offer_Some in Ho as (remote & reverse & Hr & Hun & Hj & Hrev & _).
    destruct (inputs_validate_ok _ Hvalid h c Hc) as (_ & _ & _ & Hnb).
    destruct (Hnb p' link Hn) as [Hne' _]. split_and!; [done|done|]. exists remote. split_and!; eauto. }
  split_and!; [|apply ranked_clients_NoDup|intros p Hp; by apply Hel]. split; simpl.
  - destruct (ranked_clients inputs un h c cap); [done|]. by csimpl.
  - exists c, cap. rewrite length_fmap. split_and!; try done. apply ranked_clients_length.
  - intros p Hp. destruct (Hel p Hp) as (_ & Hph & remote & ? & ? & ? & ?). split; [done|].
    exists c, remote. split_and!; done.
Qed.

Lemma select_step acc un selected h cs sc :
  valid_selection inputs (mkSelection acc un) -> selected = list_to_set (hub <$> acc) ->
  best_proposal inputs selected un = Some (h, (cs, sc)) ->
  valid_selection inputs (mkSelection (acc ++ [mkStar h cs.*1]) (un ∖ {[h]} ∖ list_to_set cs.*1)).
Proof.
  intros [Hh Hs Ho Hu] Hsel Hb; simpl in *.
  destruct (proposed_star_ok _ _ _ _ _ Hb) as (Hstar & Hnd & Hun).
  apply best_proposal_Some in Hb as (c & cap & Hc & Hnew & _). split; simpl.
  - rewrite fmap_app. apply NoDup_app. split_and!; [done| |apply NoDup_singleton].
    intros x Hx ->%list_elem_of_singleton. apply Hnew. subst selected. by apply elem_of_list_to_set.
  - apply Forall_app. split; [done | by apply Forall_singleton].
  - rewrite all_clients_snoc. apply NoDup_app. split_and!; [done| |done].
    intros x Hx Hx'%Hun%Hu. apply (proj2 Hx'). apply elem_of_app. by right.
  - intros n. rewrite all_clients_snoc, fmap_app, !elem_of_difference, elem_of_singleton, elem_of_list_to_set, Hu.
    rewrite !elem_of_app. csimpl. rewrite list_elem_of_singleton. tauto.
Qed.

(** Nothing more can be served: what the loop's exit means. *)
Definition maximal (sel : NapSelection) : Prop :=
  forall h c p remote link, candidates inputs !! h = Some c -> h ∉ hub <$> stars sel ->
    can_host c = true -> is_Some (nap_capacity c) -> nap_capacity c <> Some 0%nat ->
    neighbors c !! p = Some link -> candidates inputs !! p = Some remote -> p ∈ unserved sel ->
    can_join remote = true -> neighbors remote !! h = None.

Lemma select_loop_ok fuel acc un selected :
  valid_selection inputs (mkSelection acc un) -> selected = list_to_set (hub <$> acc) ->
  (size (candidates inputs) < fuel + length acc)%nat ->
  exists sel, select_loop fuel inputs selected un acc = Some sel /\
    valid_selection inputs sel /\ maximal sel /\ acc `prefix_of` stars sel.
Proof.
  revert acc un selected. induction fuel as [|fuel IH]; intros acc un selected Hv Hsel Hfuel.
  { exfalso. assert (length acc <= size (candidates inputs))%nat; [|lia].
    rewrite <- (length_fmap hub acc), <- (size_dom (D := gset NodeId)).
    rewrite <- (size_list_to_set (C := gset NodeId) (hub <$> acc)) by apply (vs_hubs _ _ Hv).
    apply subseteq_size. intros x (st & -> & Hin)%elem_of_list_to_set%list_elem_of_fmap.
    pose proof (vs_stars _ _ Hv) as Hst. rewrite Forall_forall in Hst.
    destruct (so_hub _ _ (Hst st Hin)) as (h & cap & Hh & _). apply elem_of_dom. by exists h. }
  cbn [select_loop]. destruct (best_proposal inputs selected un) as [[h [cs sc]]|] eqn:Hb.
  - destruct (IH (acc ++ [mkStar h cs.*1]) (un ∖ {[h]} ∖ list_to_set cs.*1) ({[h]} ∪ selected))
      as (sel & Hrun & Hval & Hmax & Hpre).
    + by eapply select_step.
    + subst selected. rewrite fmap_app, list_to_set_app_L. simpl. set_solver.
    + rewrite length_app. simpl. lia.
    + exists sel. split_and!; try done. by eapply prefix_app_l.
  - exists (mkSelection acc un). split_and!; [done|done| |done].
    destruct (better_fold (proposal inputs selected un) (iter_map (candidates inputs)) None) as [[Hn _] _].
    destruct (Hn Hb) as [_ Hall]. rewrite Forall_forall in Hall.
    intros h c p remote link Hc Hh Hhost [cap Hcap] Hz Hl Hr Hp Hj; simpl in *.
    assert (proposal inputs selected un (h, c) = None) as Hnone by (apply Hall, elem_of_iter_map; done).
    destruct (decide (ranked_clients inputs un h c cap = [])) as [Hnil|Hne].
    + destruct (neighbors remote !! h) as [rev|] eqn:Hrev; [|done].
      pose proof (ranked_clients_nil inputs un h c cap p link ltac:(congruence) Hnil Hl) as Ho.
      assert (client_offer inputs un h (p, link) = Some (p, reciprocal_link link rev)) as Ho'.
      { apply client_offer_Some. exists remote, rev. done. }
      congruence.
    + exfalso. enough (is_Some (proposal inputs selected un (h, c))) as [? ?] by congruence.
      eexists. apply proposal_Some. split_and!; [|done|].
      * subst selected. by rewrite elem_of_list_to_set.
      * exists cap. split; [done|]. split; [congruence|]. split; [done|reflexivity].
Qed.

End selection.

Lemma empty_selection_valid inputs : valid_selection inputs (mkSelection [] (dom (candidates inputs))).
Proof.
  split; simpl; [constructor|constructor|constructor|].
  intros n. rewrite elem_of_dom, elem_of_nil. tauto.
Qed.

Lemma select_nap_hubs_run inputs :
  inputs_validate inputs = Ok () ->
  exists sel, select_nap_hubs inputs = Ok sel /\
    select_loop (S (size (candidates inputs))) inputs ∅ (dom (candidates inputs)) [] = Some sel /\
    valid_selection inputs sel /\ maximal inputs sel.
Proof.
  intros Hv.
  destruct (select_loop_ok inputs Hv (S (size (candidates inputs))) [] (dom (candidates inputs)) ∅)
    as (sel & Hrun & Hval & Hmax & _); [apply empty_selection_valid|done|simpl; lia|].
  exists sel. split_and!; try done. unfold select_nap_hubs. rewrite Hv. cbn [mbind result_bind].
  by rewrite Hrun.
Qed.

(** C8. Hub selection is total on valid inputs and refuses the others with the
    validator's error.  The selection it returns is valid: distinct hubs that
    can host, no more clients per hub than its ceiling, each client able to join
    and a neighbour of its hub in both directions, no client twice, and
    [unserved] exactly the candidates left over.  It is maximal: a hub not
    selected has no unserved reciprocal neighbour able to join. *)
Theorem select_nap_hubs_valid (inputs : TopologyPolicyInputs) :
  match inputs_validate inputs with
  | Ok _ => exists sel, select_nap_hubs inputs = Ok sel /\ valid_selection inputs sel /\ maximal inputs sel
  | Err e => select_nap_hubs inputs = Err e
  end.
Proof.
  destruct (inputs_validate inputs) as [[]|e] eqn:Hv.
  - destruct (select_nap_hubs_run inputs Hv) as (sel & ? & _ & ? & ?). eauto.
  - unfold select_nap_hubs. by rewrite Hv.
Qed.

Definition offers (inputs : TopologyPolicyInputs) (id : NodeId) (c : TopologyCandidate) :
  list (NodeId * CandidateLink) :=
  omap (client_offer inputs (dom (candidates inputs)) id) (iter_map (neighbors c)).

Lemma ranked_clients_offers inputs id c cap :
  length (ranked_clients inputs (dom (candidates inputs)) id c cap) = (cap `min` length (offers inputs id c))%nat.
Proof. unfold ranked_clients, offers. by rewrite length_take, merge_sort_Permutation. Qed.

Lemma first_star_best inputs (Hv : inputs_validate inputs = Ok ()) sel st rest :
  select_nap_hubs inputs = Ok sel -> stars sel = st :: rest ->
  exists cs sc, best_proposal inputs ∅ (dom (candidates inputs)) = Some (hub st, (cs, sc)) /\ clients st = cs.*1.
Proof.
  intros Hsel Hst. destruct (select_nap_hubs_run inputs Hv) as (sel' & Hsel' & Hrun & _).
  rewrite Hsel in Hsel'. injection Hsel' as <-. cbn [select_loop] in Hrun.
  destruct (best_proposal inputs ∅ (dom (candidates inputs))) as [[h [cs sc]]|] eqn:Hb.
  - destruct (select_loop_ok inputs Hv (size (candidates inputs)) ([] ++ [mkStar h cs.*1])
      (dom (candidates inputs) ∖ {[h]} ∖ list_to_set cs.*1) ({[h]} ∪ ∅)) as (sel' & Hrun' & _ & _ & Hpre).
    + eapply (select_step inputs Hv []); [apply empty_selection_valid|done|exact Hb].
    + simpl. set_solver.
    + simpl. lia.
    + rewrite Hrun in Hrun'. injection Hrun' as <-. rewrite Hst in Hpre. simpl in Hpre.
      apply prefix_cons_inv_1 in Hpre as <-. eauto.
  - injection Hrun as <-. done.
Qed.

(** The first star is the best one: no capable hub could serve more
    clients than it does, and among hubs that could serve as many a hub that is
    hosting now is never passed over for one that is not. *)
Theorem select_first_star (inputs : TopologyPolicyInputs) (sel : NapSelection) (st : NapAssignment)
    (rest : list NapAssignment) (id : NodeId) (c chosen : TopologyCandidate) (cap : nat) :
  select_nap_hubs inputs = Ok sel -> stars sel = st :: rest ->
  candidates inputs !! id = Some c -> can_host c = true -> nap_capacity c = Some cap -> cap <> 0%nat ->
  candidates inputs !! hub st = Some chosen ->
  (cap `min` length (offers inputs id c) <= length (clients st))%nat /\
  ((cap `min` length (offers inputs id c))%nat = length (clients st) ->
   currently_hosting c = true -> currently_hosting chosen = true).
Proof.
  intros Hsel Hst Hc Hhost Hcap Hz Hch.
  assert (inputs_validate inputs = Ok ()) as Hv.
  { unfold select_nap_hubs in Hsel. apply result_bind_Ok in Hsel as ([] & Hv & _). done. }
  destruct (first_star_best inputs Hv sel st rest) as (cs & sc & Hb & Hcl); [done|done|].
  apply best_proposal_Some in Hb as (hc & hcap & Hhc & _ & _ & _ & _ & Hcs & Hne & -> & Hmax).
  rewrite Hch in Hhc. injection Hhc as <-. rewrite Hcl, length_fmap, <- ranked_clients_offers.
  set (mine := ranked_clients inputs (dom (candidates inputs)) id c cap) in *.
  destruct (decide (mine = [])) as [Hnil|Hnn].
  { rewrite Hnil. simpl. split; [lia|]. by destruct cs. }
  specialize (Hmax id c (id, (mine, hub_score id c mine)) Hc).
  assert (proposal inputs ∅ (dom (candidates inputs)) (id, c) = Some (id, (mine, hub_score id c mine))) as Hp.
  { apply proposal_Some. split; [set_solver|]. split; [done|]. exists cap. split; [done|]. split; [done|]. done. }
  specialize (Hmax Hp). unfold hub_score in Hmax. simpl in Hmax. rewrite !prod_ord_le in Hmax. simpl in Hmax.
  rewrite nat_ord_lt in Hmax. split; [lia|]. intros Hlen Hcur.
  destruct Hmax as [?|[_ [Hlt|[Heq _]]]]; [lia| |congruence].
  rewrite Hcur in Hlt. by destruct (currently_hosting chosen).
Qed.

(** *** Four candidates: 1 and 2 can host, everybody sees 1, only 1 sees 2 *)

Definition yes : option (Sourced bool) := Some (mkSourced true Measured).
Definition demo_caps (ceiling : option Z) : NodeCapabilities :=
  mkCaps yes yes (if ceiling is Some _ then yes else None) None None
    ((fun v => mkSourced v Configured) <$> ceiling) None None None None.
Definition demo_edge (cost : Z) : CandidateLink := mkCandLink cost None true.
Definition demo_candidate (id : NodeId) (ceiling : option Z) (ns : gmap NodeId CandidateLink) :
  NodeId * TopologyCandidate := (id, mkCandidate id (demo_caps ceiling) ns false false).

Definition demo_inputs : TopologyPolicyInputs := mkInputs (list_to_map [
  demo_candidate (fill_id 1) (Some 2)
    {[fill_id 2 := demo_edge 1; fill_id 3 := demo_edge 5; fill_id 4 := demo_edge 2]};
  demo_candidate (fill_id 2) (Some 3) {[fill_id 1 := demo_edge 1; fill_id 3 := demo_edge 1]};
  demo_candidate (fill_id 3) None {[fill_id 1 := demo_edge 1; fill_id 2 := demo_edge 9]};
  demo_candidate (fill_id 4) None {[fill_id 1 := demo_edge 1]}]).

Definition demo_selection : NapSelection := mkSelection
  [mkStar (fill_id 1) [fill_id 2; fill_id 4]; mkStar (fill_id 2) [fill_id 3]] ∅.

Lemma select_first_star_witness :
  select_nap_hubs demo_inputs = Ok demo_selection /\
  (3 `min` length (offers demo_inputs (fill_id 2) (demo_candidate (fill_id 2) (Some 3%Z)
     {[fill_id 1 := demo_edge 1%Z; fill_id 3 := demo_edge 1%Z]}).2) <= 2)%nat.
Proof.
  assert (select_nap_hubs demo_inputs = Ok demo_selection) as Hsel by (vm_compute; reflexivity).
  split; [exact Hsel|].
  apply (select_first_star demo_inputs demo_selection
    (mkStar (fill_id 1) [fill_id 2; fill_id 4]) [mkStar (fill_id 2) [fill_id 3]] (fill_id 2)
    (demo_candidate (fill_id 2) (Some 3%Z) {[fill_id 1 := demo_edge 1%Z; fill_id 3 := demo_edge 1%Z]}).2
    (demo_candidate (fill_id 1) (Some 2%Z)
       {[fill_id 2 := demo_edge 1%Z; fill_id 3 := demo_edge 5; fill_id 4 := demo_edge 2]}).2 3 Hsel);
    vm_compute; try reflexivity; discriminate.
Defined.
