(* ===== verification/TopologyPlan.v ===== *)
(** NAP topology reconciliation plans: [crates/blueroute-core/src/topology_plan.rs].

    [inputs.candidates[&hub]] panics on an unknown hub; every use follows a
    check that the hub is known, and the theorems cover those uses. *)

From S2P Require Import Prelude Order Ident Capability TopologyPolicy.

Record NapLink := mkNapLink { nl_hub : NodeId; nl_client : NodeId }.

#[global] Instance NapLink_eq_dec : EqDecision NapLink.
Proof. solve_decision. Defined.
#[global] Program Instance NapLink_countable : Countable NapLink :=
  inj_countable' (fun l => (nl_hub l, nl_client l)) (fun p => mkNapLink p.1 p.2) _.
Next Obligation. by intros []. Qed.

Lemma nap_link_inj x y : (nl_hub x, nl_client x) = (nl_hub y, nl_client y) -> x = y.
Proof. destruct x, y; simpl. congruence. Qed.
#[global] Instance NapLink_ord : RustOrd NapLink :=
  ord_via (fun l => (nl_hub l, nl_client l)) nap_link_inj.

Inductive NapPlanStep := Connect (l : NapLink) | Disconnect (l : NapLink).

Record NapPlanDiff := mkDiff {
  steps : list NapPlanStep;
  reconnect_interruptions : gset NodeId;
}.

(** ** link_set *)

Record link_acc := mkAcc {
  la_links : gset NapLink;
  la_hubs : gset NodeId;
  la_client_hubs : gmap NodeId NodeId;
  la_served : gset NodeId;
}.

(** The [if desired] block on the hub of a star. *)
Definition check_hub (inputs : TopologyPolicyInputs) (st : NapAssignment) : CoreResult () :=
  h ← ok_or (candidates inputs !! hub st) (policy_invalid "unknown desired NAP hub");
  guard_err (negb (can_host h)) (policy_invalid "desired NAP host lacks affirmative capability")
  (capacity ← ok_or (nap_capacity h) (policy_invalid "desired NAP host capacity is unknown");
   guard_err (capacity <? length (clients st)) (policy_invalid "desired NAP host exceeds capacity") (Ok ())).

Definition index_panic : CoreError := core_error Internal "no entry found for key".

(** The [if desired] block on a client. *)
Definition check_client (inputs : TopologyPolicyInputs) (h client : NodeId) : CoreResult () :=
  host ← ok_or (candidates inputs !! h) index_panic;
  peer ← ok_or (candidates inputs !! client) (policy_invalid "unknown desired PANU client");
  guard_err (negb (can_join peer) || bool_decide (neighbors host !! client = None)
             || bool_decide (neighbors peer !! h = None))
    (policy_invalid "desired link lacks reciprocal, capable neighbors") (Ok ()).

(** The body of [for client in &star.clients]. *)
Definition client_step (inputs : TopologyPolicyInputs) (desired : bool) (h : NodeId)
    (acc : link_acc) (client : NodeId) : CoreResult link_acc :=
  guard_err (bool_decide (client = h) || negb (bool_decide (la_client_hubs acc !! client = None)))
    (policy_invalid "self-link or multiply assigned PANU client")
  (_ ← (if desired then check_client inputs h client else Ok ());
   Ok (mkAcc ({[mkNapLink h client]} ∪ la_links acc) (la_hubs acc)
         (<[client := h]> (la_client_hubs acc)) ({[client]} ∪ la_served acc))).

(** The body of [for star in &plan.stars]. *)
Definition star_step (inputs : TopologyPolicyInputs) (desired : bool)
    (acc : link_acc) (st : NapAssignment) : CoreResult link_acc :=
  guard_err (bool_decide (hub st ∈ la_hubs acc) || bool_decide (clients st = []))
    (policy_invalid "duplicate or empty NAP assignment")
  (_ ← (if desired then check_hub inputs st else Ok ());
   try_for_each (client_step inputs desired (hub st))
     (mkAcc (la_links acc) ({[hub st]} ∪ la_hubs acc) (la_client_hubs acc) ({[hub st]} ∪ la_served acc))
     (clients st)).

Definition link_set (plan : NapSelection) (inputs : TopologyPolicyInputs) (desired : bool) :
  CoreResult (gset NapLink) :=
  acc ← try_for_each (star_step inputs desired) (mkAcc ∅ ∅ ∅ ∅) (stars plan);
  let known : gset NodeId := dom (candidates inputs) in
  guard_err (desired && (negb (bool_decide (unserved plan ## la_served acc))
                         || negb (bool_decide (unserved plan ⊆ known))
                         || negb (bool_decide (la_served acc ∪ unserved plan = known))))
    (policy_invalid "desired topology has inconsistent unserved nodes")
  (Ok (la_links acc)).

(** ** diff_nap_topology *)

(** [inputs.candidates[&hub].capabilities.connection_policy_ceiling...unwrap_or(0)]. *)
Definition hub_capacity (inputs : TopologyPolicyInputs) (h : NodeId) : nat :=
  match candidates inputs !! h with Some c => default 0 (nap_capacity c) | None => 0 end.

Definition occupied (current : gset NapLink) (h : NodeId) : nat :=
  length (List.filter (fun old => bool_decide (nl_hub old = h)) (iter_set current)).
Definition attached (current : gset NapLink) (client : NodeId) : bool :=
  existsb (fun old => bool_decide (nl_client old = client)) (iter_set current).

Definition is_ready (inputs : TopologyPolicyInputs) (current : gset NapLink) (l : NapLink) : bool :=
  negb (attached current (nl_client l)) && (occupied current (nl_hub l) <? hub_capacity inputs (nl_hub l)).

(** The obsolete link that blocks an addition. *)
Definition blocker (current target : gset NapLink) (l : NapLink) : option NapLink :=
  let obsolete := iter_set (current ∖ target) in
  match List.find (fun old => bool_decide (nl_client old = nl_client l)) obsolete with
  | Some old => Some old
  | None => List.find (fun old => bool_decide (nl_hub old = nl_hub l)) obsolete
  end.

Fixpoint find_map {A B : Type} (f : A -> option B) (l : list A) : option B :=
  match l with [] => None | x :: l' => match f x with Some y => Some y | None => find_map f l' end end.

Record diff_state := mkDiffState {
  ds_current : gset NapLink;
  ds_pending : gset NapLink;
  ds_result : NapPlanDiff;
}.

Definition push_step (r : NapPlanDiff) (s : NapPlanStep) : NapPlanDiff :=
  mkDiff (steps r ++ [s]) (reconnect_interruptions r).

(** The [while !pending.is_empty()] loop; [None] is running out of fuel. *)
Fixpoint diff_loop (fuel : nat) (inputs : TopologyPolicyInputs) (target : gset NapLink) (s : diff_state) :
  option (CoreResult diff_state) :=
  match fuel with
  | O => None
  | S fuel =>
      if decide (ds_pending s = ∅) then Some (Ok s)
      else match List.find (is_ready inputs (ds_current s)) (iter_set (ds_pending s)) with
      | Some l =>
          diff_loop fuel inputs target
            (mkDiffState ({[l]} ∪ ds_current s) (ds_pending s ∖ {[l]}) (push_step (ds_result s) (Connect l)))
      | None =>
          match find_map (blocker (ds_current s) target) (iter_set (ds_pending s)) with
          | None => Some (Err (policy_invalid "topology transition cannot free a safe slot"))
          | Some old =>
              let r := ds_result s in
              let interrupted :=
                if existsb (fun new => bool_decide (nl_client new = nl_client old)) (iter_set target)
                then {[nl_client old]} ∪ reconnect_interruptions r else reconnect_interruptions r in
              diff_loop fuel inputs target
                (mkDiffState (ds_current s ∖ {[old]}) (ds_pending s)
                   (push_step (mkDiff (steps r) interrupted) (Disconnect old)))
          end
      end
  end.

Definition diff_fuel (current target : gset NapLink) : nat :=
  S (size (target ∖ current) + size (current ∖ target)).

Definition diff_nap_topology (inputs : TopologyPolicyInputs) (active desired : NapSelection) :
  CoreResult NapPlanDiff :=
  _ ← inputs_validate inputs;
  current ← link_set active inputs false;
  target ← link_set desired inputs true;
  s ← default (Err selection_fuel_error)
    (diff_loop (diff_fuel current target) inputs target
       (mkDiffState current (target ∖ current) (mkDiff [] ∅)));
  Ok (mkDiff (steps (ds_result s) ++ (Disconnect <$> iter_set (ds_current s ∖ target)))
        (reconnect_interruptions (ds_result s))).

(** ** What link_set accepts *)

Definition star_links (st : NapAssignment) : list NapLink := mkNapLink (hub st) <$> clients st.
Definition plan_links (l : list NapAssignment) : gset NapLink := list_to_set (l ≫= star_links).

Definition client_ok (inputs : TopologyPolicyInputs) (h c : NodeId) : Prop :=
  exists host peer, candidates inputs !! h = Some host /\ candidates inputs !! c = Some peer /\
    can_join peer = true /\ is_Some (neighbors host !! c) /\ is_Some (neighbors peer !! h).

Lemma check_client_Ok inputs h c : check_client inputs h c = Ok () <-> client_ok inputs h c.
Proof.
  unfold check_client, client_ok. rewrite result_bind_Ok. setoid_rewrite ok_or_Ok.
  setoid_rewrite result_bind_Ok. setoid_rewrite ok_or_Ok. setoid_rewrite guard_err_Ok. split.
  - intros (host & Hh & peer & Hp & Hg & _). exists host, peer.
    rewrite !orb_false_iff, negb_false_iff, !bool_decide_eq_false, !not_eq_None_Some in Hg. tauto.
  - intros (host & peer & Hh & Hp & Hj & Hn1 & Hn2). exists host. split; [done|]. exists peer.
    split_and!; [done| |done]. rewrite !orb_false_iff, negb_false_iff, !bool_decide_eq_false.
    rewrite !not_eq_None_Some. tauto.
Qed.

Lemma check_hub_Ok inputs st :
  check_hub inputs st = Ok () <->
  exists h cap, candidates inputs !! hub st = Some h /\ can_host h = true /\
    nap_capacity h = Some cap /\ length (clients st) <= cap.
Proof.
  unfold check_hub. rewrite result_bind_Ok. setoid_rewrite ok_or_Ok. setoid_rewrite guard_err_Ok.
  setoid_rewrite result_bind_Ok. setoid_rewrite ok_or_Ok. setoid_rewrite guard_err_Ok. split.
  - intros (h & Hh & Hhost & cap & Hcap & Hlen & _). exists h, cap.
    apply negb_false_iff in Hhost. apply Nat.ltb_ge in Hlen. done.
  - intros (h & cap & Hh & Hhost & Hcap & Hlen). exists h. split; [done|].
    rewrite Hhost. split; [done|]. exists cap. split_and!; [done|by apply Nat.ltb_ge|done].
Qed.

(** The accumulator after the stars [pre] and the clients [cs] of [h]. *)
Record acc_inv (pre : list NapAssignment) (h : NodeId) (cs : list NodeId) (acc : link_acc) : Prop := {
  ai_links : la_links acc = plan_links pre ∪ list_to_set (mkNapLink h <$> cs);
  ai_clients c : is_Some (la_client_hubs acc !! c) <-> c ∈ all_clients pre ++ cs;
  ai_served c : c ∈ la_served acc <-> c ∈ (hub <$> pre) ++ [h] ++ all_clients pre ++ cs;
  ai_once : NoDup (all_clients pre ++ cs);
}.

Section loops.
Context (inputs : TopologyPolicyInputs) (desired : bool).

Definition client_cond (h c : NodeId) : Prop := c <> h /\ (desired = true -> client_ok inputs h c).

Lemma client_step_ok pre h cs acc c :
  acc_inv pre h cs acc ->
  match client_step inputs desired h acc c with
  | Ok acc' => acc_inv pre h (cs ++ [c]) acc' /\ la_hubs acc' = la_hubs acc /\ client_cond h c
  | Err _ => ~ (NoDup (all_clients pre ++ cs ++ [c]) /\ client_cond h c)
  end.
Proof.
  intros [Hl Hc Hs Ho]. unfold client_step, client_cond.
  destruct (decide (c = h)) as [->|Hne]; [rewrite bool_decide_eq_true_2 by done; simpl; naive_solver|].
  rewrite bool_decide_eq_false_2 by done.
  destruct (la_client_hubs acc !! c) as [x|] eqn:Hx; cbn [orb negb guard_err].
  { intros [Hnd _]. assert (c ∈ all_clients pre ++ cs) as Hin by (apply Hc; eauto).
    rewrite app_assoc, NoDup_app in Hnd. destruct Hnd as (_ & Hd & _). apply (Hd c Hin). by left. }
  assert (c ∉ all_clients pre ++ cs) as Hnin by (rewrite <- Hc, Hx; by intros [? ?]).
  assert (forall r, r = (if desired then check_client inputs h c else Ok ()) ->
    r = Ok () <-> (desired = true -> client_ok inputs h c)) as Hr.
  { intros r ->. destruct desired; [rewrite check_client_Ok; naive_solver | naive_solver]. }
  specialize (Hr _ eq_refl). rewrite bool_decide_eq_true_2 by done. cbn [negb guard_err].
  destruct (if desired then _ else _) as [[]|e]; cbn [mbind result_bind]; [|naive_solver].
  split_and!; [|done|done|by apply Hr]. split; simpl.
  - rewrite Hl, fmap_app, list_to_set_app_L. set_solver.
  - intros d. rewrite lookup_insert_is_Some, Hc, !elem_of_app, list_elem_of_singleton.
    split; [|destruct (decide (c = d))]; naive_solver.
  - intros d. rewrite elem_of_union, elem_of_singleton, Hs. rewrite !elem_of_app, !elem_of_cons, !elem_of_app, !elem_of_nil. rewrite list_elem_of_singleton. tauto.
  - rewrite app_assoc. apply NoDup_app. split_and!; [done| |apply NoDup_singleton].
    intros d Hd ->%list_elem_of_singleton. done.
Qed.

Lemma clients_loop_ok pre h cs acc l :
  acc_inv pre h cs acc ->
  match try_for_each (client_step inputs desired h) acc l with
  | Ok acc' => acc_inv pre h (cs ++ l) acc' /\ la_hubs acc' = la_hubs acc /\ Forall (client_cond h) l
  | Err _ => ~ (NoDup (all_clients pre ++ cs ++ l) /\ Forall (client_cond h) l)
  end.
Proof.
  revert cs acc. induction l as [|c l IH]; intros cs acc Hi; simpl; [by rewrite app_nil_r|].
  pose proof (client_step_ok pre h cs acc c Hi) as Hc. rewrite (cons_middle c cs l), app_assoc.
  destruct (client_step inputs desired h acc c) as [acc'|e]; simpl.
  - destruct Hc as (Hi' & Hh & Hcc). specialize (IH (cs ++ [c]) acc' Hi').
    destruct (try_for_each _ acc' l); rewrite Forall_cons; [|naive_solver].
    destruct IH as (? & ? & ?). split_and!; try done. congruence.
  - rewrite Forall_cons, (app_assoc _ (cs ++ [c]) l), NoDup_app. naive_solver.
Qed.

Definition star_cond (st : NapAssignment) : Prop :=
  clients st <> [] /\ Forall (client_cond (hub st)) (clients st) /\
  (desired = true -> check_hub inputs st = Ok ()).

Definition well_shaped (l : list NapAssignment) : Prop :=
  NoDup (hub <$> l) /\ NoDup (all_clients l) /\ Forall star_cond l.

Record stars_inv (pre : list NapAssignment) (acc : link_acc) : Prop := {
  sv_links : la_links acc = plan_links pre;
  sv_hubs : la_hubs acc = list_to_set (hub <$> pre);
  sv_clients c : is_Some (la_client_hubs acc !! c) <-> c ∈ all_clients pre;
  sv_served c : c ∈ la_served acc <-> c ∈ (hub <$> pre) ++ all_clients pre;
  sv_shape : well_shaped pre;
}.

Lemma plan_links_snoc pre st : plan_links (pre ++ [st]) = plan_links pre ∪ list_to_set (star_links st).
Proof. unfold plan_links. rewrite bind_app, list_to_set_app_L. simpl. by rewrite app_nil_r. Qed.

Lemma star_step_ok pre acc st :
  stars_inv pre acc ->
  match star_step inputs desired acc st with
  | Ok acc' => stars_inv (pre ++ [st]) acc'
  | Err _ => ~ well_shaped (pre ++ [st])
  end.
Proof.
  intros [Hl Hh Hc Hs (Hnh & Hnc & Hf)]. unfold star_step, well_shaped.
  rewrite fmap_app, all_clients_snoc. csimpl.
  destruct (decide (hub st ∈ la_hubs acc)) as [Hin|Hnin].
  { rewrite bool_decide_eq_true_2 by done. simpl. intros (Hnd & _ & _).
    apply NoDup_app in Hnd as (_ & Hd & _). apply (Hd (hub st)); [|by left].
    rewrite Hh in Hin. by apply elem_of_list_to_set in Hin. }
  rewrite bool_decide_eq_false_2 by done. simpl.
  destruct (decide (clients st = [])) as [He|Hne].
  { rewrite bool_decide_eq_true_2 by done. simpl. intros (_ & _ & Hall).
    apply Forall_app in Hall as [_ [Hst _]%Forall_cons_1]. destruct Hst as [Hst _]. by apply Hst. }
  rewrite bool_decide_eq_false_2 by done. simpl.
  assert (forall r, r = (if desired then check_hub inputs st else Ok ()) ->
    r = Ok () <-> (desired = true -> check_hub inputs st = Ok ())) as Hr.
  { intros r ->. destruct desired; naive_solver. }
  specialize (Hr _ eq_refl). destruct (if desired then _ else _) as [[]|e]; cbn [mbind result_bind].
  2:{ intros (_ & _ & Hall). apply Forall_app in Hall as [_ [Hst _]%Forall_cons_1].
      destruct Hst as (_ & _ & Hst). by apply Hr in Hst. }
  pose proof (clients_loop_ok pre (hub st) []
    (mkAcc (la_links acc) ({[hub st]} ∪ la_hubs acc) (la_client_hubs acc) ({[hub st]} ∪ la_served acc))
    (clients st)) as Hloop.
  assert (acc_inv pre (hub st) [] (mkAcc (la_links acc) ({[hub st]} ∪ la_hubs acc)
    (la_client_hubs acc) ({[hub st]} ∪ la_served acc))) as Hi0.
  { split; simpl; rewrite ?app_nil_r; try done; [set_solver|]. intros c.
    rewrite elem_of_union, elem_of_singleton, Hs, !elem_of_app, elem_of_cons. tauto. }
  specialize (Hloop Hi0). destruct (try_for_each _ _ (clients st)) as [acc'|e].
  - destruct Hloop as ([Hl' Hc' Hs' Ho'] & Hhub & Hcc). simpl in *. split.
    + by rewrite plan_links_snoc.
    + rewrite Hhub, Hh, fmap_app, list_to_set_app_L. simpl. set_solver.
    + intros c. by rewrite Hc', all_clients_snoc.
    + intros c. rewrite Hs', fmap_app, all_clients_snoc. csimpl.
      rewrite !elem_of_app, elem_of_cons, list_elem_of_singleton, elem_of_app. tauto.
    + unfold well_shaped. rewrite fmap_app, all_clients_snoc, Forall_app, Forall_singleton. csimpl.
      split_and!; try done.
      * apply NoDup_app. split_and!; [done| |apply NoDup_singleton].
        intros x Hx ->%list_elem_of_singleton. apply Hnin. rewrite Hh. by apply elem_of_list_to_set.
      * split_and!; [done|done|by apply Hr].
  - intros (_ & Hnd & Hall). apply Hloop. apply Forall_app in Hall as [_ [Hst _]%Forall_cons_1].
    split; [done | by destruct Hst as (_ & ? & _)].
Qed.

Lemma stars_loop_ok pre acc l :
  stars_inv pre acc ->
  match try_for_each (star_step inputs desired) acc l with
  | Ok acc' => stars_inv (pre ++ l) acc'
  | Err _ => ~ well_shaped (pre ++ l)
  end.
Proof.
  revert pre acc. induction l as [|st l IH]; intros pre acc Hi; simpl; [by rewrite app_nil_r|].
  pose proof (star_step_ok pre acc st Hi) as Hst. rewrite (cons_middle st pre l), app_assoc.
  destruct (star_step inputs desired acc st) as [acc'|e]; simpl; [by apply IH|].
  intros (Hh & Hc & Hf). apply Hst. unfold well_shaped.
  rewrite fmap_app in Hh. unfold all_clients in Hc. rewrite bind_app in Hc.
  apply NoDup_app in Hh as (? & _ & _). apply NoDup_app in Hc as (? & _ & _).
  apply Forall_app in Hf as [? _]. done.
Qed.

Lemma stars_inv_nil : stars_inv [] (mkAcc ∅ ∅ ∅ ∅).
Proof.
  split; try done; simpl.
  - intros c. rewrite lookup_empty, elem_of_nil. split; [by intros [? ?]|done].
  - intros c. rewrite elem_of_nil. set_solver.
  - split_and!; constructor.
Qed.

End loops.

Lemma star_cond_ok inputs st : star_cond inputs true st <-> star_ok inputs st.
Proof.
  unfold star_cond, client_cond, client_ok. rewrite check_hub_Ok, Forall_forall. split.
  - intros (Hne & Hc & Hh). split; [done|by apply Hh|]. intros c Hin. destruct (Hc c Hin) as [? Hok].
    split; [done|]. destruct (Hok eq_refl) as (h & p & ?). by exists h, p.
  - intros [Hne Hh Hc]. split_and!; [done| |done]. intros c Hin. destruct (Hc c Hin) as [? (h & p & ?)].
    split; [done|]. intros _. by exists h, p.
Qed.

Definition active_ok (inputs : TopologyPolicyInputs) (plan : NapSelection) : Prop :=
  well_shaped inputs false (stars plan).

Lemma link_set_active inputs plan :
  match link_set plan inputs false with
  | Ok links => active_ok inputs plan /\ links = plan_links (stars plan)
  | Err _ => ~ active_ok inputs plan
  end.
Proof.
  unfold link_set, active_ok. pose proof (stars_loop_ok inputs false [] _ (stars plan) (stars_inv_nil inputs false)) as H.
  destruct (try_for_each _ _ (stars plan)) as [acc|e]; simpl in *; [|done].
  split; [apply H | apply (sv_links _ _ _ _ H)].
Qed.

Lemma link_set_desired inputs plan :
  match link_set plan inputs true with
  | Ok links => valid_selection inputs plan /\ links = plan_links (stars plan)
  | Err _ => ~ valid_selection inputs plan
  end.
Proof.
  assert (well_shaped inputs true (stars plan) <->
    NoDup (hub <$> stars plan) /\ NoDup (all_clients (stars plan)) /\ Forall (star_ok inputs) (stars plan)) as Hws.
  { unfold well_shaped. rewrite (Forall_iff (star_cond inputs true) (stars plan) (star_ok inputs)) by apply star_cond_ok. done. }
  unfold link_set. pose proof (stars_loop_ok inputs true [] _ (stars plan) (stars_inv_nil inputs true)) as H.
  destruct (try_for_each _ _ (stars plan)) as [acc|e]; cbn [mbind result_bind andb] in *.
  2:{ intros [Hh Hs Ho _]. apply H. simpl. by apply Hws. }
  simpl in H. destruct H as [Hl _ _ Hserv Hshape]. apply Hws in Hshape as (Hh & Ho & Hs).
  assert (la_served acc ⊆ dom (candidates inputs)) as Hsub.
  { intros n Hn%Hserv. rewrite Forall_forall in Hs. apply elem_of_dom.
    apply elem_of_app in Hn as [(st & -> & Hst)%list_elem_of_fmap|(st & Hn & Hst)%list_elem_of_bind].
    - destruct (so_hub _ _ (Hs st Hst)) as (h & cap & Hhub & _). by exists h.
    - destruct (so_client _ _ (Hs st Hst) n Hn) as (_ & h & p & _ & Hp & _). by exists p. }
  assert ((forall n, n ∈ unserved plan <-> is_Some (candidates inputs !! n) /\
             n ∉ (hub <$> stars plan) ++ all_clients (stars plan)) <->
    unserved plan ## la_served acc /\ unserved plan ⊆ dom (candidates inputs) /\
    la_served acc ∪ unserved plan = dom (candidates inputs)) as Hun.
  { setoid_rewrite <- Hserv. setoid_rewrite <- elem_of_dom. split.
    - intros Hu. split_and!; [set_solver|set_solver|]. apply set_eq. intros n.
      rewrite elem_of_union, Hu. destruct (decide (n ∈ la_served acc)); set_solver.
    - intros (Hd & Hk & <-). set_solver. }
  destruct (negb _ || _ || _) eqn:Hg; cbn [guard_err].
  - intros [_ _ _ Hu]. apply Hun in Hu as (Hd & Hk & He).
    rewrite !bool_decide_eq_true_2 in Hg by done. done.
  - rewrite !orb_false_iff, !negb_false_iff, !bool_decide_eq_true in Hg. split; [|done].
    split; try done. apply Hun. tauto.
Qed.

(** ** Facts about link sets *)

Definition of_hub (h : NodeId) (s : gset NapLink) : gset NapLink := filter (fun l => nl_hub l = h) s.

(** A client is attached at most once. *)
Definition unique_clients (s : gset NapLink) : Prop :=
  forall l l', l ∈ s -> l' ∈ s -> nl_client l = nl_client l' -> l = l'.

Lemma occupied_size s h : occupied s h = size (of_hub h s).
Proof.
  unfold occupied. rewrite <- (size_list_to_set (C := gset NapLink)).
  - f_equal. apply set_eq. intros l. unfold of_hub.
    rewrite elem_of_list_to_set, list_elem_of_In, filter_In, <- list_elem_of_In, elem_of_iter_set,
      elem_of_filter, bool_decide_eq_true. tauto.
  - apply NoDup_ListNoDup, List.NoDup_filter, NoDup_ListNoDup, NoDup_iter_set.
Qed.

Lemma attached_spec s c : attached s c = true <-> exists l, l ∈ s /\ nl_client l = c.
Proof.
  unfold attached. rewrite existsb_exists. setoid_rewrite <- list_elem_of_In.
  setoid_rewrite elem_of_iter_set. by setoid_rewrite bool_decide_eq_true.
Qed.

Lemma elem_of_plan_links l x :
  x ∈ plan_links l <-> exists st, st ∈ l /\ hub st = nl_hub x /\ nl_client x ∈ clients st.
Proof.
  unfold plan_links, star_links. rewrite elem_of_list_to_set, list_elem_of_bind. split.
  - intros (st & (c & -> & Hc)%list_elem_of_fmap & Hst). eauto.
  - intros (st & Hst & Hh & Hc). exists st. split; [|done]. apply list_elem_of_fmap.
    exists (nl_client x). split; [|done]. destruct x; simpl in *. by subst.
Qed.

Lemma bind_NoDup_inj {A B : Type} (f : A -> list B) (l : list A) a b x :
  NoDup (l ≫= f) -> a ∈ l -> b ∈ l -> x ∈ f a -> x ∈ f b -> a = b.
Proof.
  induction l as [|y l IH]; simpl; [by intros _ ?%elem_of_nil|].
  intros (_ & Hd & Hnd)%NoDup_app [->|Ha]%elem_of_cons [->|Hb]%elem_of_cons Hxa Hxb; [done| | |auto].
  - destruct (Hd x Hxa). apply list_elem_of_bind. eauto.
  - destruct (Hd x Hxb). apply list_elem_of_bind. eauto.
Qed.

Lemma plan_links_unique l : NoDup (all_clients l) -> unique_clients (plan_links l).
Proof.
  intros Hnd x y (st & Hst & Hh & Hc)%elem_of_plan_links (st' & Hst' & Hh' & Hc')%elem_of_plan_links Heq.
  rewrite Heq in Hc. pose proof (bind_NoDup_inj _ _ _ _ _ Hnd Hst Hst' Hc Hc') as <-.
  destruct x, y; simpl in *. congruence.
Qed.

(** A valid plan stays within the capacity of every hub. *)
Lemma plan_links_capacity inputs sel h :
  valid_selection inputs sel -> size (of_hub h (plan_links (stars sel))) <= hub_capacity inputs h.
Proof.
  intros [Hh Hs Ho _]. destruct (decide (h ∈ hub <$> stars sel)) as [Hin|Hn].
  - apply list_elem_of_fmap in Hin as (st & -> & Hst). rewrite Forall_forall in Hs.
    destruct (so_hub _ _ (Hs st Hst)) as (c & cap & Hc & _ & Hcap & Hlen).
    unfold hub_capacity. rewrite Hc, Hcap. simpl. etrans; [|exact Hlen].
    assert (of_hub (hub st) (plan_links (stars sel)) ⊆ list_to_set (star_links st)) as Hsub.
    { intros x [Hx (st' & Hst' & Hh' & Hc')%elem_of_plan_links]%elem_of_filter.
      assert (st' = st) as ->.
      { apply list_elem_of_lookup in Hst as [i Hi], Hst' as [j Hj].
        assert (i = j) as ->; [|congruence]. apply (NoDup_lookup (hub <$> stars sel) i j (hub st)); [done| |];
          rewrite list_lookup_fmap; [by rewrite Hi | rewrite Hj; simpl; congruence]. }
      apply elem_of_list_to_set, list_elem_of_fmap. exists (nl_client x). split; [|done].
      destruct x; simpl in *; by subst. }
    etrans; [apply (subseteq_size _ _ Hsub)|].
    etrans; [apply size_list_to_set_le|]. unfold star_links. by rewrite length_fmap.
  - assert (of_hub h (plan_links (stars sel)) = ∅) as ->; [|rewrite size_empty; lia].
    apply set_eq. intros x. unfold of_hub. rewrite elem_of_filter, elem_of_empty. split; [|done].
    intros [<- (st & Hst & Hh' & _)%elem_of_plan_links]. apply Hn. rewrite <- Hh'. by apply list_elem_of_fmap_2.
Qed.

(** ** Safe runs: the specification of a plan

    Every connection is to a free client of a hub below its capacity, and only
    links the target does not keep are ever cut. *)

Inductive safe_step (inputs : TopologyPolicyInputs) (target : gset NapLink) :
  gset NapLink -> NapPlanStep -> gset NapLink -> Prop :=
| safe_connect cur l :
    l ∈ target -> (forall o, o ∈ cur -> nl_client o <> nl_client l) ->
    size (of_hub (nl_hub l) cur) < hub_capacity inputs (nl_hub l) ->
    safe_step inputs target cur (Connect l) ({[l]} ∪ cur)
| safe_disconnect cur l :
    l ∈ cur -> l ∉ target -> safe_step inputs target cur (Disconnect l) (cur ∖ {[l]}).

Inductive safe_run (inputs : TopologyPolicyInputs) (target : gset NapLink) :
  gset NapLink -> list NapPlanStep -> gset NapLink -> Prop :=
| run_nil cur : safe_run inputs target cur [] cur
| run_snoc cur ss mid s last :
    safe_run inputs target cur ss mid -> safe_step inputs target mid s last ->
    safe_run inputs target cur (ss ++ [s]) last.

Lemma find_Some_iff {A : Type} (f : A -> bool) (l : list A) : is_Some (List.find f l) <-> exists x, x ∈ l /\ f x = true.
Proof.
  split.
  - intros [x Hx]. apply List.find_some in Hx as [Hin Hf]. exists x. by rewrite list_elem_of_In.
  - intros (x & Hin & Hf). destruct (List.find f l) as [y|] eqn:Hn; [by exists y|].
    pose proof (List.find_none _ _ Hn x (proj1 (list_elem_of_In _ _) Hin)). congruence.
Qed.

Lemma find_map_Some {A B : Type} (f : A -> option B) l y :
  find_map f l = Some y -> exists x, x ∈ l /\ f x = Some y.
Proof.
  induction l as [|x l IH]; simpl; [done|]. destruct (f x) eqn:Hf.
  - intros [= ->]. exists x. split; [by left | done].
  - intros (z & Hz & ?)%IH. exists z. split; [by right | done].
Qed.

Lemma find_map_None {A B : Type} (f : A -> option B) l x : find_map f l = None -> x ∈ l -> f x = None.
Proof.
  induction l as [|y l IH]; simpl; [by intros _ ?%elem_of_nil|]. destruct (f y) eqn:Hf; [done|].
  intros Hn [->|Hin]%elem_of_cons; [done | by apply IH].
Qed.

Section diff.
Context (inputs : TopologyPolicyInputs) (active target : gset NapLink).
Context (Hact : unique_clients active) (Htar : unique_clients target).
Context (Hcap : forall h, size (of_hub h target) <= hub_capacity inputs h).

Definition total_steps : nat := size (target ∖ active) + size (active ∖ target).

Record diff_inv (s : diff_state) : Prop := {
  di_pending : ds_pending s = target ∖ ds_current s;
  di_unique : unique_clients (ds_current s);
  di_obsolete : ds_current s ∖ target ⊆ active ∖ target;
  di_run : safe_run inputs target active (steps (ds_result s)) (ds_current s);
  di_count : length (steps (ds_result s)) + size (ds_pending s) + size (ds_current s ∖ target) = total_steps;
  di_intr c : c ∈ reconnect_interruptions (ds_result s) <->
    exists old new, old ∈ active ∖ target /\ (old ∉ ds_current s) /\ nl_client old = c /\
      new ∈ target /\ nl_client new = c;
}.

Lemma is_ready_spec cur l :
  is_ready inputs cur l = true <->
  (forall o, o ∈ cur -> nl_client o <> nl_client l) /\ size (of_hub (nl_hub l) cur) < hub_capacity inputs (nl_hub l).
Proof.
  unfold is_ready. rewrite andb_true_iff, negb_true_iff, Nat.ltb_lt, occupied_size.
  rewrite <- not_true_iff_false, attached_spec. naive_solver.
Qed.

Lemma blocker_Some cur l old : blocker cur target l = Some old -> old ∈ cur /\ old ∉ target.
Proof.
  unfold blocker. assert (forall f, List.find f (iter_set (cur ∖ target)) = Some old -> old ∈ cur /\ old ∉ target) as Hf.
  { intros f [Hin _]%List.find_some. apply list_elem_of_In, elem_of_iter_set in Hin. set_solver. }
  destruct (List.find _ _) eqn:H1; [intros [= ->]; eauto | apply Hf].
Qed.

(** A pending link that is not ready has an obsolete link in its way. *)
Lemma blocked_has_blocker cur l :
  l ∈ target -> l ∉ cur -> is_ready inputs cur l = false -> is_Some (blocker cur target l).
Proof.
  intros Hl Hn Hready. unfold blocker.
  destruct (List.find _ _) as [old|] eqn:Hfind; [by eexists|]. apply find_Some_iff.
  apply not_true_iff_false in Hready. rewrite is_ready_spec in Hready.
  assert (forall o, o ∈ cur -> nl_client o <> nl_client l) as Hfree.
  { intros o Ho Heq. destruct (decide (o ∈ target)) as [Ht|Hnt].
    - rewrite (Htar o l Ht Hl Heq) in Ho. done.
    - pose proof (List.find_none _ _ Hfind o) as Hnone. rewrite <- list_elem_of_In, elem_of_iter_set in Hnone.
      specialize (Hnone ltac:(set_solver)). simpl in Hnone. by rewrite bool_decide_eq_false in Hnone. }
  destruct (decide (size (of_hub (nl_hub l) cur) < hub_capacity inputs (nl_hub l))) as [|Hfull]; [naive_solver|].
  destruct (decide (of_hub (nl_hub l) cur ∖ of_hub (nl_hub l) target = ∅)) as [Hsub|Hnsub].
  - exfalso. assert (of_hub (nl_hub l) cur ⊆ of_hub (nl_hub l) target) as Hsub' by (by apply empty_difference_subseteq_L).
    assert (of_hub (nl_hub l) cur ⊂ of_hub (nl_hub l) target) as Hstrict.
    { split; [exact Hsub'|]. intros Hrev. apply Hn. assert (l ∈ of_hub (nl_hub l) target) as Hin by (by apply elem_of_filter).
      apply Hrev in Hin. by apply elem_of_filter in Hin as [_ ?]. }
    apply subset_size in Hstrict. specialize (Hcap (nl_hub l)). lia.
  - apply set_choose_L in Hnsub as (o & [[Ho Hoc]%elem_of_filter Hnot]%elem_of_difference).
    exists o. rewrite elem_of_iter_set, bool_decide_eq_true. split; [|done].
    apply elem_of_difference. split; [done|]. contradict Hnot. by apply elem_of_filter.
Qed.

Lemma connect_inv s l :
  diff_inv s -> l ∈ ds_pending s -> is_ready inputs (ds_current s) l = true ->
  diff_inv (mkDiffState ({[l]} ∪ ds_current s) (ds_pending s ∖ {[l]}) (push_step (ds_result s) (Connect l))) /\
  size (ds_pending s) = S (size (ds_pending s ∖ {[l]})).
Proof.
  intros [Hp Hu Ho Hr Hc Hi] Hl [Hfree Hroom]%is_ready_spec.
  assert (l ∈ target /\ l ∉ ds_current s) as [Hlt Hln] by (rewrite Hp in Hl; set_solver).
  assert (size (ds_pending s) = S (size (ds_pending s ∖ {[l]}))) as Hsz.
  { replace (ds_pending s) with ({[l]} ∪ ds_pending s ∖ {[l]}) at 1
      by (symmetry; apply union_difference_singleton_L; exact Hl).
    rewrite size_union, size_singleton by set_solver. done. }
  split; [|done].
  assert (({[l]} ∪ ds_current s) ∖ target = ds_current s ∖ target) as Hsame by set_solver.
  split; simpl.
  - rewrite Hp. set_solver.
  - intros x y [->%elem_of_singleton|Hx]%elem_of_union [->%elem_of_singleton|Hy]%elem_of_union Heq; [done| | |by apply Hu].
    + by destruct (Hfree y Hy).
    + by destruct (Hfree x Hx).
  - by rewrite Hsame.
  - eapply run_snoc; [exact Hr|]. by constructor.
  - rewrite Hsame, length_app. simpl. lia.
  - intros c. rewrite Hi. split; intros (old & new & Hold & Hnot & Hrest); exists old, new; set_solver.
Qed.

Lemma disconnect_inv s l old :
  diff_inv s -> blocker (ds_current s) target l = Some old ->
  let r := ds_result s in
  let interrupted :=
    if existsb (fun new => bool_decide (nl_client new = nl_client old)) (iter_set target)
    then {[nl_client old]} ∪ reconnect_interruptions r else reconnect_interruptions r in
  diff_inv (mkDiffState (ds_current s ∖ {[old]}) (ds_pending s)
              (push_step (mkDiff (steps r) interrupted) (Disconnect old))) /\
  size (ds_current s ∖ target) = S (size ((ds_current s ∖ {[old]}) ∖ target)).
Proof.
  intros [Hp Hu Ho Hr Hc Hi] [Hold Hnt]%blocker_Some r interrupted.
  assert (size (ds_current s ∖ target) = S (size ((ds_current s ∖ {[old]}) ∖ target))) as Hsz.
  { replace (ds_current s ∖ target) with ({[old]} ∪ (ds_current s ∖ {[old]}) ∖ target).
    - rewrite size_union, size_singleton by set_solver. done.
    - apply set_eq. intros x. destruct (decide (x = old)); set_solver. }
  split; [|done]. assert (existsb (fun new => bool_decide (nl_client new = nl_client old)) (iter_set target) = true
    <-> exists new, new ∈ target /\ nl_client new = nl_client old) as Hex.
  { exact (attached_spec target (nl_client old)). }
  split; simpl.
  - rewrite Hp. set_solver.
  - intros x y Hx Hy. apply Hu; set_solver.
  - set_solver.
  - eapply run_snoc; [exact Hr|]. by constructor.
  - subst r. rewrite length_app. simpl. lia.
  - intros c. subst interrupted. transitivity (c ∈ reconnect_interruptions r \/
      (c = nl_client old /\ exists new, new ∈ target /\ nl_client new = nl_client old)).
    + destruct (existsb _ _); [set_solver|]. split; [auto|]. intros [?|[_ Hn%Hex]]; done.
    + subst r. rewrite Hi. split.
      * intros [(o & n & H1 & H2 & H3)|[-> (n & Hn & Heq)]].
        { exists o, n. split; [done|]. split; [|done]. intros [? _]%elem_of_difference. done. }
        exists old, n. split; [apply Ho; by apply elem_of_difference|]. split; [|done].
        intros [_ Hx]%elem_of_difference. by apply Hx, elem_of_singleton.
      * intros (o & n & H1 & H2 & H3 & H4 & H5). destruct (decide (o = old)) as [->|Hne].
        { right. subst c. eauto. }
        left. exists o, n. split; [done|]. split; [|done]. contradict H2.
        apply elem_of_difference. split; [done|]. by rewrite elem_of_singleton.
Qed.

Lemma diff_loop_ok fuel s :
  diff_inv s -> size (ds_pending s) + size (ds_current s ∖ target) < fuel ->
  exists s', diff_loop fuel inputs target s = Some (Ok s') /\ diff_inv s' /\ ds_pending s' = ∅.
Proof.
  revert s. induction fuel as [|fuel IH]; intros s Hinv Hfuel; [lia|]. cbn [diff_loop].
  case_decide as Hpend; [eauto|].
  destruct (List.find _ _) as [l|] eqn:Hfind.
  - apply List.find_some in Hfind as [Hl Hready]. apply list_elem_of_In, elem_of_iter_set in Hl.
    destruct (connect_inv s l Hinv Hl Hready) as [Hinv' Hsz]. apply IH; [done|]. simpl.
    replace (({[l]} ∪ ds_current s) ∖ target) with (ds_current s ∖ target); [lia|].
    rewrite (di_pending _ Hinv) in Hl. set_solver.
  - destruct (find_map _ _) as [old|] eqn:Hmap.
    + apply find_map_Some in Hmap as (l & Hl & Hb).
      destruct (disconnect_inv s l old Hinv Hb) as [Hinv' Hsz]. apply IH; [done|]. simpl. lia.
    + exfalso. apply set_choose_L in Hpend as [l Hl].
      pose proof (find_map_None _ _ l Hmap ltac:(by apply elem_of_iter_set)) as Hnone.
      pose proof (List.find_none _ _ Hfind l) as Hnr. rewrite <- list_elem_of_In, elem_of_iter_set in Hnr.
      rewrite (di_pending _ Hinv) in Hl. apply elem_of_difference in Hl as [Hlt Hln].
      destruct (blocked_has_blocker (ds_current s) l Hlt Hln) as [x Hx]; [|congruence].
      apply Hnr. rewrite (di_pending _ Hinv). set_solver.
Qed.

End diff.

Lemma disconnect_all inputs target start ss cur l :
  safe_run inputs target start ss cur -> NoDup l -> (forall x, x ∈ l -> x ∈ cur /\ x ∉ target) ->
  safe_run inputs target start (ss ++ (Disconnect <$> l)) (cur ∖ list_to_set l).
Proof.
  intros Hrun Hnd. revert ss cur Hrun. induction Hnd as [|x l Hx Hnd IH]; intros ss cur Hrun Hin.
  - simpl. rewrite app_nil_r. by replace (cur ∖ ∅) with cur by set_solver.
  - csimpl. rewrite (cons_middle (Disconnect x) ss), app_assoc.
    replace (cur ∖ ({[x]} ∪ list_to_set l)) with ((cur ∖ {[x]}) ∖ list_to_set l) by set_solver.
    apply IH.
    + eapply run_snoc; [exact Hrun|]. destruct (Hin x ltac:(by left)). by constructor.
    + intros y Hy. destruct (Hin y ltac:(by right)). split; [|done].
      apply elem_of_difference. split; [done|]. intros ->%elem_of_singleton. done.
Qed.

Definition moving_clients (active target : gset NapLink) : NodeId -> Prop := fun c =>
  exists old new, old ∈ active /\ new ∈ target /\ old <> new /\ nl_client old = c /\ nl_client new = c.

Lemma diff_spec (inputs : TopologyPolicyInputs) (active desired : NapSelection) :
  let from := plan_links (stars active) in
  let to := plan_links (stars desired) in
  match diff_nap_topology inputs active desired with
  | Ok d =>
      safe_run inputs to from (steps d) to /\
      length (steps d) = size (to ∖ from) + size (from ∖ to) /\
      (forall c, c ∈ reconnect_interruptions d <-> moving_clients from to c)
  | Err _ =>
      ~ (inputs_validate inputs = Ok () /\ active_ok inputs active /\ valid_selection inputs desired)
  end.
Proof.
  intros from to. unfold diff_nap_topology.
  destruct (inputs_validate inputs) as [[]|e]; cbn [mbind result_bind]; [|naive_solver].
  pose proof (link_set_active inputs active) as Ha. destruct (link_set active inputs false) as [cur|e];
    cbn [mbind result_bind]; [|naive_solver]. destruct Ha as [Hact ->].
  pose proof (link_set_desired inputs desired) as Hd. destruct (link_set desired inputs true) as [tar|e];
    cbn [mbind result_bind]; [|naive_solver]. destruct Hd as [Hdes ->]. fold from to.
  assert (unique_clients from) as Hfu by (apply plan_links_unique, Hact).
  assert (unique_clients to) as Htu by (apply plan_links_unique, Hdes).
  destruct (diff_loop_ok inputs from to Hfu Htu (fun h => plan_links_capacity inputs desired h Hdes)
    (diff_fuel from to) (mkDiffState from (to ∖ from) (mkDiff [] ∅))) as (s & -> & Hinv & Hdone).
  { split; simpl; try done; [constructor|]. intros c. set_solver. }
  { unfold diff_fuel. simpl. lia. }
  cbn [default from_option]. destruct Hinv as [Hp Hu Ho Hr Hc Hi]. simpl.
  assert (to ⊆ ds_current s) as Hsub. { rewrite Hdone in Hp. by apply empty_difference_subseteq_L. }
  split_and!.
  - replace to with (ds_current s ∖ list_to_set (iter_set (ds_current s ∖ to))) at 3.
    + apply disconnect_all; [done|apply NoDup_iter_set|]. intros x [? ?]%elem_of_iter_set%elem_of_difference. done.
    + apply set_eq. intros x. rewrite elem_of_difference, elem_of_list_to_set, elem_of_iter_set, elem_of_difference.
      destruct (decide (x ∈ to)) as [Hx|]; [|tauto]. split; [done|]. intros _. split; [by apply Hsub|tauto].
  - rewrite length_app, length_fmap, length_iter_set. rewrite Hdone, size_empty in Hc. unfold total_steps in Hc. lia.
  - intros c. rewrite Hi. unfold moving_clients. split.
    + intros (old & new & [Hof Hot]%elem_of_difference & _ & Hoc & Hn & Hnc). exists old, new. split_and!; try done.
      by intros ->.
    + intros (old & new & Hof & Hn & Hne & Hoc & Hnc). exists old, new.
      assert (old ∉ to) as Hot. { intros Hot. apply Hne, Htu; congruence. }
      split_and!; try done; [by apply elem_of_difference|]. intros Hcur. apply Hne, Hu; [done|by apply Hsub|congruence].
Qed.

(** C3. Planning a transition between NAP topologies.  On valid inputs, a
    well-shaped active plan and a valid desired one, planning always succeeds
    (the no-safe-slot error cannot occur and the loop terminates); otherwise it
    fails.  The steps take the active links to exactly the desired ones; every
    connection is made to a client that is attached nowhere, by a hub below its
    capacity; no link the desired plan keeps is ever cut; there are no more steps
    than links that differ; and the reported interruptions are exactly the
    clients that move from one hub to another. *)
Theorem diff_nap_topology_safe (inputs : TopologyPolicyInputs) (active desired : NapSelection) :
  let from := plan_links (stars active) in
  let to := plan_links (stars desired) in
  match diff_nap_topology inputs active desired with
  | Ok d =>
      safe_run inputs to from (steps d) to /\
      length (steps d) = size (to ∖ from) + size (from ∖ to) /\
      (forall c, c ∈ reconnect_interruptions d <-> moving_clients from to c)
  | Err _ =>
      ~ (inputs_validate inputs = Ok () /\ active_ok inputs active /\ valid_selection inputs desired)
  end.
Proof. exact (diff_spec inputs active desired). Qed.

(** The two stages fit: on valid inputs hub selection always yields a plan,
    and a transition to it from any well-shaped active plan always exists and
    ends with exactly the selected links. *)
Theorem select_then_diff (inputs : TopologyPolicyInputs) (active : NapSelection) :
  inputs_validate inputs = Ok () -> active_ok inputs active ->
  exists sel d, select_nap_hubs inputs = Ok sel /\ diff_nap_topology inputs active sel = Ok d /\
    safe_run inputs (plan_links (stars sel)) (plan_links (stars active)) (steps d) (plan_links (stars sel)).
Proof.
  intros Hv Ha. destruct (select_nap_hubs_run inputs Hv) as (sel & Hsel & _ & Hval & _).
  pose proof (diff_spec inputs active sel) as Hd. simpl in Hd.
  destruct (diff_nap_topology inputs active sel) as [d|e] eqn:Hrun; [|naive_solver].
  exists sel, d. split; [exact Hsel|]. split; [exact Hrun|]. apply Hd.
Qed.

(** *** Node 3 moves from hub 1 to hub 2 of the candidates above *)

Definition demo_active : NapSelection := mkSelection [mkStar (fill_id 1) [fill_id 3; fill_id 4]] ∅.

Lemma select_then_diff_witness :
  diff_nap_topology demo_inputs demo_active demo_selection =
    Ok (mkDiff [Disconnect (mkNapLink (fill_id 1) (fill_id 3));
                Connect (mkNapLink (fill_id 1) (fill_id 2));
                Connect (mkNapLink (fill_id 2) (fill_id 3))] {[fill_id 3]}) /\
  exists sel d, select_nap_hubs demo_inputs = Ok sel /\ diff_nap_topology demo_inputs demo_active sel = Ok d.
Proof.
  split; [vm_compute; reflexivity|].
  destruct (select_then_diff demo_inputs demo_active) as (sel & d & Hs & Hd & _).
  - vm_compute. reflexivity.
  - pose proof (link_set_active demo_inputs demo_active) as H.
    assert (is_ok (link_set demo_active demo_inputs false) = true) as Hl by (vm_compute; reflexivity).
    destruct (link_set demo_active demo_inputs false); [exact (proj1 H) | discriminate Hl].
  - exists sel, d. split; [exact Hs | exact Hd].
Defined.
