(* ===== verification/TopologyExec.v ===== *)
(** Executing a NAP plan: [crates/blueroute-core/src/topology_executor.rs].

    The Bluetooth backend is behind the trait [NapTopologyOperator], a type
    class over the operator's state here, with the laws a faithful backend
    satisfies in a second class. *)

From S2P Require Import Prelude Order Ident TopologyPolicy TopologyPlan.

(** ** The executor *)

Class NapTopologyOperator (S : Type) := {
  observe_links : stres S CoreError (gset NapLink);
  connect_link : NapLink -> stres S CoreError ();
  disconnect_link : NapLink -> stres S CoreError ();
  reconcile_routes : gset NapLink -> stres S CoreError ();
}.

Record NapExecutionReport := mkNapReport {
  nap_applied : list NapPlanStep;
  nap_observed : gset NapLink;
}.

Definition observations_changed : CoreError :=
  core_error InvalidState "PAN observations changed; replan before execution".
Definition duplicate_connect : CoreError := core_error InvalidState "duplicate PAN connect".
Definition missing_disconnect : CoreError := core_error InvalidState "missing PAN disconnect".
Definition unexpected_topology : CoreError :=
  core_error TopologyFailure "PAN operation did not produce the expected observed topology".

Section executor.
Context {S : Type} `{NapTopologyOperator S}.

(** [if let Err(error) = operation { ... return Err(error) }]. *)
Definition repair_on_error (m : stres S CoreError ()) : stres S CoreError () := fun s =>
  match m s with
  | (Ok a, s') => (Ok a, s')
  | (Err e, s') =>
      match observe_links s' with
      | (Ok actual, s'') => (Err e, (reconcile_routes actual s'').2)
      | (Err _, s'') => (Err e, s'')
      end
  end.

(** Observe, compare with the expected links, reconcile the routes. *)
Definition verify_step (expected : gset NapLink) (step : NapPlanStep)
    (applied : list NapPlanStep) : stres S CoreError (gset NapLink * list NapPlanStep) :=
  let! actual := observe_links in
  if decide (actual = expected) then
    let! _ := reconcile_routes actual in
    st_ret (actual, applied ++ [step])
  else
    let! _ := reconcile_routes actual in
    st_fail unexpected_topology.

(** The body of [for step in diff.steps]. *)
Definition execute_step (st : gset NapLink * list NapPlanStep) (step : NapPlanStep) :
  stres S CoreError (gset NapLink * list NapPlanStep) :=
  let '(observed, applied) := st in
  match step with
  | Connect l =>
      if decide (l ∈ observed) then st_fail duplicate_connect
      else let! _ := repair_on_error (connect_link l) in
           verify_step ({[l]} ∪ observed) step applied
  | Disconnect l =>
      if decide (l ∈ observed) then
        let! _ := repair_on_error (disconnect_link l) in
        verify_step (observed ∖ {[l]}) step applied
      else st_fail missing_disconnect
  end.

(** [links(plan)] is [plan_links (stars plan)]. *)
Definition execute_nap_plan (inputs : TopologyPolicyInputs) (active desired : NapSelection) :
  stres S CoreError NapExecutionReport :=
  let! d := st_lift (diff_nap_topology inputs active desired) in
  let! observed := observe_links in
  if decide (observed = plan_links (stars active)) then
    let! _ := (if decide (steps d = []) then reconcile_routes observed else st_ret ()) in
    let! st := st_for_each execute_step (observed, []) (steps d) in
    st_ret (mkNapReport st.2 st.1)
  else st_fail observations_changed.

End executor.

(** ** Soundness over any operator *)

Definition apply_step (cur : gset NapLink) (step : NapPlanStep) : gset NapLink :=
  match step with Connect l => {[l]} ∪ cur | Disconnect l => cur ∖ {[l]} end.

Lemma safe_step_apply inputs target cur x mid : safe_step inputs target cur x mid -> mid = apply_step cur x.
Proof. by destruct 1. Qed.

Lemma safe_run_apply inputs target cur ss last :
  safe_run inputs target cur ss last -> last = foldl apply_step cur ss.
Proof.
  induction 1 as [|cur ss mid x last _ -> Hs]; [done|]. rewrite foldl_snoc. by eapply safe_step_apply.
Qed.

Lemma safe_run_cons inputs target cur x ss last :
  safe_run inputs target cur (x :: ss) last ->
  exists mid, safe_step inputs target cur x mid /\ safe_run inputs target mid ss last.
Proof.
  intros Hrun. remember (x :: ss) as k eqn:Hk. revert x ss Hk.
  induction Hrun as [|cur k mid y last Hrun IH Hstep]; intros x ss Hk; [done|].
  destruct k as [|z k]; simpl in Hk; injection Hk as -> <-.
  - apply safe_run_apply in Hrun. simpl in Hrun. subst mid. exists last. split; [done|constructor].
  - destruct (IH x k eq_refl) as (m & Hm & Hrest). exists m. split; [done|]. by eapply run_snoc.
Qed.

(** What the executor asked of the operator and what it was told. *)
Inductive nap_event :=
  | Observed (r : CoreResult (gset NapLink))
  | Connected (l : NapLink) (r : CoreResult ())
  | Disconnected (l : NapLink) (r : CoreResult ())
  | Routed (ls : gset NapLink) (r : CoreResult ()).

(** The call of the operator a step of a plan stands for, and its answer. *)
Definition step_event (x : NapPlanStep) (r : CoreResult ()) : nap_event :=
  match x with Connect l => Connected l r | Disconnect l => Disconnected l r end.

(** A step carried out from [cur]: it is asked for, the links it was meant to
    give are observed, and the routes are reconciled with them. *)
Definition completed_step (cur : gset NapLink) (x : NapPlanStep) : list nap_event :=
  [step_event x (Ok ()); Observed (Ok (apply_step cur x)); Routed (apply_step cur x) (Ok ())].

Fixpoint completed (cur : gset NapLink) (ss : list NapPlanStep) : list nap_event :=
  match ss with [] => [] | x :: ss' => completed_step cur x ++ completed (apply_step cur x) ss' end.

(** A step from [cur] that stops the plan with [e]: refused by the backend,
    which is then observed and its routes repaired as far as it answers; not
    observable afterwards; not routable; or observed to have given other
    links, with which the routes are reconciled. *)
Inductive stopped_step (cur : gset NapLink) (x : NapPlanStep) (e : CoreError) : list nap_event -> Prop :=
  | stopped_refused actual r : stopped_step cur x e [step_event x (Err e); Observed (Ok actual); Routed actual r]
  | stopped_blind e' : stopped_step cur x e [step_event x (Err e); Observed (Err e')]
  | stopped_unseen : stopped_step cur x e [step_event x (Ok ()); Observed (Err e)]
  | stopped_unrouted actual :
      stopped_step cur x e [step_event x (Ok ()); Observed (Ok actual); Routed actual (Err e)]
  | stopped_astray actual : actual <> apply_step cur x -> e = unexpected_topology ->
      stopped_step cur x e [step_event x (Ok ()); Observed (Ok actual); Routed actual (Ok ())].

(** A plan with the steps [ss] that stops with [e]: at the first look at the
    links, at the routes when there is nothing to do, or at one of its steps,
    the ones before it carried out and the ones after it never asked for. *)
Inductive stopped_plan (start : gset NapLink) (ss : list NapPlanStep) (e : CoreError) : list nap_event -> Prop :=
  | stopped_first : stopped_plan start ss e [Observed (Err e)]
  | stopped_changed now : now <> start -> e = observations_changed -> stopped_plan start ss e [Observed (Ok now)]
  | stopped_idle : ss = [] -> stopped_plan start ss e [Observed (Ok start); Routed start (Err e)]
  | stopped_at pre x post k : ss = pre ++ x :: post -> stopped_step (foldl apply_step start pre) x e k ->
      stopped_plan start ss e (Observed (Ok start) :: completed start pre ++ k).

(** A plan carried out to its end. *)
Definition finished_plan (start : gset NapLink) (ss : list NapPlanStep) : list nap_event :=
  Observed (Ok start) :: (if decide (ss = []) then [Routed start (Ok ())] else completed start ss).

Section soundness.
Context {S : Type} `{NapTopologyOperator S}.

Definition answered (ev : nap_event) (s s' : S) : Prop :=
  match ev with
  | Observed r => observe_links s = (r, s')
  | Connected l r => connect_link l s = (r, s')
  | Disconnected l r => disconnect_link l s = (r, s')
  | Routed ls r => reconcile_routes ls s = (r, s')
  end.

(** From [s] exactly these calls were made, in this order and with these
    answers, each in the state the one before it left. *)
Fixpoint asked (s : S) (k : list nap_event) (s' : S) : Prop :=
  match k with [] => s' = s | ev :: k' => exists s1, answered ev s s1 /\ asked s1 k' s' end.

Lemma asked_app k1 k2 s s1 s2 : asked s k1 s1 -> asked s1 k2 s2 -> asked s (k1 ++ k2) s2.
Proof. revert s. induction k1 as [|ev k1 IH]; simpl; [intros s -> ?; done|naive_solver]. Qed.

(** A step that may be taken from [cur]. *)
Definition possible (cur : gset NapLink) (x : NapPlanStep) : Prop :=
  match x with Connect l => l ∉ cur | Disconnect l => l ∈ cur end.

Lemma safe_step_possible inputs target cur x mid : safe_step inputs target cur x mid -> possible cur x.
Proof. destruct 1 as [? l ? Hfree|]; simpl; [intros Hin; by apply (Hfree l Hin)|done]. Qed.

Lemma verify_step_trace cur x applied (m : stres S CoreError ()) s :
  (forall r s', m s = (r, s') -> answered (step_event x r) s s') ->
  match (let! _ := repair_on_error m in verify_step (apply_step cur x) x applied) s with
  | (Ok st, s') => st = (apply_step cur x, applied ++ [x]) /\ asked s (completed_step cur x) s'
  | (Err e, s') => exists k, stopped_step cur x e k /\ asked s k s'
  end.
Proof.
  intros Hm. unfold st_bind, repair_on_error, verify_step.
  destruct (m s) as [[[]|e] s1] eqn:E1; specialize (Hm _ _ eq_refl).
  - unfold st_bind. destruct (observe_links s1) as [[actual|e] s2] eqn:E2.
    + case_decide as Heq; destruct (reconcile_routes actual s2) as [[[]|e] s3] eqn:E3.
      * subst actual. split; [done|]. simpl. eauto 8.
      * eexists. split; [by apply stopped_unrouted|]. simpl. eauto 8.
      * eexists. split; [by apply stopped_astray|]. simpl. eauto 8.
      * eexists. split; [by apply stopped_unrouted|]. simpl. eauto 8.
    + eexists. split; [by apply stopped_unseen|]. simpl. eauto 8.
  - destruct (observe_links s1) as [[actual|e'] s2] eqn:E2.
    + destruct (reconcile_routes actual s2) as [r s3] eqn:E3.
      eexists. split; [by apply (stopped_refused _ _ _ actual r)|]. simpl. eauto 8.
    + eexists. split; [by apply (stopped_blind _ _ _ e')|]. simpl. eauto 8.
Qed.

Lemma execute_step_trace cur x applied s :
  possible cur x ->
  match execute_step (cur, applied) x s with
  | (Ok st, s') => st = (apply_step cur x, applied ++ [x]) /\ asked s (completed_step cur x) s'
  | (Err e, s') => exists k, stopped_step cur x e k /\ asked s k s'
  end.
Proof.
  intros Hx. destruct x as [l|l]; simpl in Hx; unfold execute_step.
  - rewrite decide_False by done. by apply (verify_step_trace cur (Connect l)).
  - rewrite decide_True by done. by apply (verify_step_trace cur (Disconnect l)).
Qed.

Lemma execute_steps_trace inputs target ss : forall cur last applied s,
  safe_run inputs target cur ss last ->
  match st_for_each execute_step (cur, applied) ss s with
  | (Ok st, s') => st = (last, applied ++ ss) /\ asked s (completed cur ss) s'
  | (Err e, s') => exists pre x post k, ss = pre ++ x :: post /\
      stopped_step (foldl apply_step cur pre) x e k /\ asked s (completed cur pre ++ k) s'
  end.
Proof.
  induction ss as [|x ss IH]; intros cur last applied s Hrun.
  - apply safe_run_apply in Hrun as ->. simpl. by rewrite app_nil_r.
  - apply safe_run_cons in Hrun as (mid & Hstep & Hrun).
    pose proof (execute_step_trace cur x applied s (safe_step_possible _ _ _ _ _ Hstep)) as Hx.
    apply safe_step_apply in Hstep as ->. cbn [st_for_each]. unfold st_bind.
    destruct (execute_step (cur, applied) x s) as [[st|e] s1].
    + destruct Hx as [-> Hx]. specialize (IH _ _ (applied ++ [x]) s1 Hrun).
      destruct (st_for_each execute_step _ ss s1) as [[st|e] s2].
      * destruct IH as [-> IH]. rewrite <- app_assoc. split; [done|]. by eapply asked_app.
      * destruct IH as (pre & y & post & k & -> & Hk & IH). exists (x :: pre), y, post, k. split; [done|].
        split; [done|]. cbn [completed]. rewrite <- app_assoc. by eapply asked_app.
    + destruct Hx as (k & Hk & Hx). by exists [], x, ss, k.
Qed.

End soundness.

(** The calls of a whole execution, and its outcome. *)
Definition nap_transcript {S : Type} `{NapTopologyOperator S} (inputs : TopologyPolicyInputs)
    (active desired : NapSelection) (s : S) : Prop :=
  match diff_nap_topology inputs active desired, execute_nap_plan inputs active desired s with
  | Err e, (r, s') => r = Err e /\ s' = s
  | Ok d, (Ok rep, s') =>
      nap_applied rep = steps d /\ nap_observed rep = plan_links (stars desired) /\
      asked s (finished_plan (plan_links (stars active)) (steps d)) s'
  | Ok d, (Err e, s') => exists k, stopped_plan (plan_links (stars active)) (steps d) e k /\ asked s k s'
  end.

Lemma execute_nap_plan_transcript {S : Type} `{NapTopologyOperator S} inputs active desired (s : S) :
  nap_transcript inputs active desired s.
Proof.
  unfold nap_transcript, execute_nap_plan. rewrite st_bind_lift.
  pose proof (diff_spec inputs active desired) as Hspec. simpl in Hspec.
  destruct (diff_nap_topology inputs active desired) as [d|e]; [|done]. destruct Hspec as (Hsafe & _ & _).
  unfold st_bind. destruct (observe_links s) as [[now|e] s1] eqn:E1.
  2:{ eexists. split; [by apply stopped_first|]. simpl. eauto. }
  case_decide as Hnow; [subst now|]; cycle 1.
  { eexists. split; [by apply (stopped_changed _ _ _ now)|]. simpl. eauto. }
  destruct (decide (steps d = [])) as [Hnil|Hne].
  - rewrite Hnil in *. apply safe_run_apply in Hsafe. simpl in Hsafe.
    destruct (reconcile_routes _ s1) as [[[]|e] s2] eqn:E2.
    + simpl. split; [done|]. split; [done|]. simpl. eauto.
    + eexists. split; [by apply stopped_idle|]. simpl. eauto.
  - pose proof (execute_steps_trace inputs _ (steps d) _ _ [] s1 Hsafe) as Hloop. simpl.
    destruct (st_for_each execute_step _ (steps d) s1) as [[st|e] s2].
    + destruct Hloop as [-> Hloop]. split; [done|]. split; [done|]. unfold finished_plan.
      rewrite decide_False by done. simpl. eauto.
    + destruct Hloop as (pre & x & post & k & Heq & Hk & Hloop).
      eexists. split; [by eapply stopped_at|]. simpl. eauto.
Qed.

Lemma execute_nap_plan_Ok {S : Type} `{NapTopologyOperator S} inputs active desired (s s' : S) rep :
  execute_nap_plan inputs active desired s = (Ok rep, s') ->
  exists d, diff_nap_topology inputs active desired = Ok d /\
    nap_applied rep = steps d /\ nap_observed rep = plan_links (stars desired) /\
    asked s (finished_plan (plan_links (stars active)) (steps d)) s'.
Proof.
  intros Hrun. pose proof (execute_nap_plan_transcript inputs active desired s) as Ht. unfold nap_transcript in Ht.
  rewrite Hrun in Ht. destruct (diff_nap_topology inputs active desired) as [d|e]; [by exists d|naive_solver].
Qed.

(** C9. Whatever the backend answers, the calls [execute_nap_plan] makes on it
    are exactly those of the plan: nothing is asked when the transition is
    refused; otherwise the links are observed once, and every step is asked
    for by its own call ([connect_link] of the link for [Connect],
    [disconnect_link] for [Disconnect]), in the plan's order, each followed by
    an observation of exactly the links it was meant to give and by the
    routes for them.  Success means all of that was answered [Ok], the report
    lists all the steps and the last observation is the desired links; a
    failure is that of one call, after which only the repair of the routes
    from an observation is tried and no later step is asked for. *)
Theorem execute_nap_plan_sound {S : Type} `{NapTopologyOperator S} (inputs : TopologyPolicyInputs)
    (active desired : NapSelection) (s : S) :
  match diff_nap_topology inputs active desired, execute_nap_plan inputs active desired s with
  | Err e, (r, s') => r = Err e /\ s' = s
  | Ok d, (Ok rep, s') =>
      nap_applied rep = steps d /\ nap_observed rep = plan_links (stars desired) /\
      asked s (finished_plan (plan_links (stars active)) (steps d)) s'
  | Ok d, (Err e, s') => exists k, stopped_plan (plan_links (stars active)) (steps d) e k /\ asked s k s'
  end.
Proof. apply execute_nap_plan_transcript. Qed.

(** ** Progress over a lawful operator *)

(** A backend that reports its links, accepts a link for a free client of a
    hub below its own limit, and cuts links it has. *)
Class LawfulNapOperator (S : Type) `{NapTopologyOperator S} := {
  links_of : S -> gset NapLink;
  hub_limit : NodeId -> nat;
  observe_links_law s : exists s', observe_links s = (Ok (links_of s), s') /\ links_of s' = links_of s;
  connect_law s l :
    (forall o, o ∈ links_of s -> nl_client o <> nl_client l) ->
    size (of_hub (nl_hub l) (links_of s)) < hub_limit (nl_hub l) ->
    exists s', connect_link l s = (Ok (), s') /\ links_of s' = {[l]} ∪ links_of s;
  disconnect_law s l :
    l ∈ links_of s -> exists s', disconnect_link l s = (Ok (), s') /\ links_of s' = links_of s ∖ {[l]};
  reconcile_law s r : exists s', reconcile_routes r s = (Ok (), s') /\ links_of s' = links_of s;
}.

Section lawful.
Context {S : Type} `{LawfulNapOperator S} (inputs : TopologyPolicyInputs) (target : gset NapLink).
Context (Hlimit : forall h, hub_capacity inputs h <= hub_limit h).

Lemma verify_step_run s expected step applied :
  links_of s = expected ->
  exists s', verify_step expected step applied s = (Ok (expected, applied ++ [step]), s') /\ links_of s' = expected.
Proof.
  intros Hs. unfold verify_step, st_bind. destruct (observe_links_law s) as (s1 & -> & Hs1).
  rewrite Hs, decide_True by done. destruct (reconcile_law s1 expected) as (s2 & -> & Hs2).
  exists s2. split; [done|]. congruence.
Qed.

Lemma execute_step_run s cur x mid applied :
  links_of s = cur -> safe_step inputs target cur x mid ->
  exists s', execute_step (cur, applied) x s = (Ok (mid, applied ++ [x]), s') /\ links_of s' = mid.
Proof.
  intros Hs Hstep. destruct Hstep as [cur l Ht Hfree Hroom|cur l Hin Hnt]; unfold execute_step.
  - rewrite decide_False by (intros Hin; by apply (Hfree l Hin)). unfold st_bind, repair_on_error.
    destruct (connect_law s l) as (s1 & -> & Hs1); [by rewrite Hs|rewrite Hs; specialize (Hlimit (nl_hub l)); lia|].
    apply verify_step_run. by rewrite Hs1, Hs.
  - rewrite decide_True by done. unfold st_bind, repair_on_error.
    destruct (disconnect_law s l) as (s1 & -> & Hs1); [by rewrite Hs|].
    apply verify_step_run. by rewrite Hs1, Hs.
Qed.

Lemma execute_steps_run ss s cur last applied :
  links_of s = cur -> safe_run inputs target cur ss last ->
  exists s', st_for_each execute_step (cur, applied) ss s = (Ok (last, applied ++ ss), s') /\ links_of s' = last.
Proof.
  revert s cur applied. induction ss as [|x ss IH]; intros s cur applied Hs Hrun.
  - apply safe_run_apply in Hrun. simpl in Hrun. subst last. exists s. simpl. by rewrite app_nil_r.
  - apply safe_run_cons in Hrun as (mid & Hstep & Hrun). cbn [st_for_each]. unfold st_bind.
    destruct (execute_step_run s cur x mid applied Hs Hstep) as (s1 & -> & Hs1).
    destruct (IH s1 mid (applied ++ [x]) Hs1 Hrun) as (s2 & -> & Hs2).
    exists s2. by rewrite <- app_assoc.
Qed.

End lawful.

Lemma execute_nap_plan_run {S : Type} `{LawfulNapOperator S} inputs active desired (s : S) :
  (forall h, hub_capacity inputs h <= hub_limit h) ->
  inputs_validate inputs = Ok () -> active_ok inputs active -> valid_selection inputs desired ->
  links_of s = plan_links (stars active) ->
  exists rep s', execute_nap_plan inputs active desired s = (Ok rep, s') /\
    nap_observed rep = plan_links (stars desired) /\ links_of s' = plan_links (stars desired).
Proof.
  intros Hlimit Hv Ha Hd Hs. pose proof (diff_spec inputs active desired) as Hspec. simpl in Hspec.
  unfold execute_nap_plan, st_bind, st_lift.
  destruct (diff_nap_topology inputs active desired) as [d|e]; [|tauto]. destruct Hspec as (Hsafe & _ & _).
  destruct (observe_links_law s) as (s1 & -> & Hs1). rewrite Hs, decide_True by done.
  assert (exists s2, (if decide (steps d = []) then reconcile_routes (plan_links (stars active)) else st_ret ()) s1
    = (Ok (), s2) /\ links_of s2 = plan_links (stars active)) as (s2 & -> & Hs2).
  { case_decide; [|exists s1; split; [done|congruence]].
    destruct (reconcile_law s1 (plan_links (stars active))) as (s2 & -> & Hs2). exists s2. split; [done|congruence]. }
  destruct (execute_steps_run inputs _ Hlimit (steps d) s2 _ _ [] Hs2 Hsafe) as (s3 & -> & Hs3).
  eexists _, s3. split; [reflexivity|]. done.
Qed.

(** Over a lawful backend whose hubs accept at least their advertised
    capacity, executing a transition between a well-shaped active plan and a
    valid desired one always succeeds, and the backend ends with exactly the
    desired links.  In particular no step of the plan is ever refused as a
    duplicate or a missing link. *)
Theorem execute_nap_plan_succeeds {S : Type} `{LawfulNapOperator S} (inputs : TopologyPolicyInputs)
    (active desired : NapSelection) (s : S) :
  (forall h, hub_capacity inputs h <= hub_limit h) ->
  inputs_validate inputs = Ok () -> active_ok inputs active -> valid_selection inputs desired ->
  links_of s = plan_links (stars active) ->
  exists rep s', execute_nap_plan inputs active desired s = (Ok rep, s') /\
    nap_observed rep = plan_links (stars desired) /\ links_of s' = plan_links (stars desired).
Proof. apply execute_nap_plan_run. Qed.

(** ** A backend that satisfies the laws *)

Module PanRadio.

Record radio := mkRadio { radio_links : gset NapLink; routed : gset NapLink }.

Definition radio_limit : nat := 255.

Definition refuse {A : Type} (r : radio) : CoreResult A * radio :=
  (Err (core_error TopologyFailure "link refused"), r).

#[global] Instance radio_operator : NapTopologyOperator radio := {|
  observe_links := fun r => (Ok (radio_links r), r);
  connect_link := fun l r =>
    if attached (radio_links r) (nl_client l) || (radio_limit <=? occupied (radio_links r) (nl_hub l))
    then refuse r else (Ok (), mkRadio ({[l]} ∪ radio_links r) (routed r));
  disconnect_link := fun l r =>
    if decide (l ∈ radio_links r) then (Ok (), mkRadio (radio_links r ∖ {[l]}) (routed r)) else refuse r;
  reconcile_routes := fun ls r => (Ok (), mkRadio (radio_links r) ls);
|}.

#[global] Program Instance radio_lawful : LawfulNapOperator radio :=
  {| links_of := radio_links; hub_limit := fun _ => radio_limit |}.
Next Obligation. intros r. by exists r. Qed.
Next Obligation.
  intros r l Hfree Hroom. cbn [connect_link radio_operator]. rewrite occupied_size.
  destruct (attached (radio_links r) (nl_client l)) eqn:Ha.
  { apply attached_spec in Ha as (o & Ho & Heq). by destruct (Hfree o Ho). }
  destruct (Nat.leb_spec radio_limit (size (of_hub (nl_hub l) (radio_links r)))); [lia|]. eauto.
Qed.
Next Obligation. intros r l Hin. simpl. rewrite decide_True by done. eauto. Qed.
Next Obligation. intros r ls. simpl. eauto. Qed.

End PanRadio.

Import PanRadio.

Lemma demo_capacity h : hub_capacity demo_inputs h <= radio_limit.
Proof.
  assert (map_Forall (fun _ c => default 0 (nap_capacity c) <= radio_limit) (candidates demo_inputs)) as Hall
    by (apply (bool_decide_unpack _); vm_compute; exact I).
  unfold hub_capacity. destruct (candidates demo_inputs !! h) as [c|] eqn:Hc; [exact (Hall h c Hc) | lia].
Qed.

Lemma demo_active_ok : active_ok demo_inputs demo_active.
Proof.
  pose proof (link_set_active demo_inputs demo_active) as H.
  assert (is_ok (link_set demo_active demo_inputs false) = true) as Hl by (vm_compute; reflexivity).
  destruct (link_set demo_active demo_inputs false); [exact (proj1 H) | discriminate Hl].
Qed.

Lemma demo_selection_valid : valid_selection demo_inputs demo_selection.
Proof.
  pose proof (link_set_desired demo_inputs demo_selection) as H.
  assert (is_ok (link_set demo_selection demo_inputs true) = true) as Hl by (vm_compute; reflexivity).
  destruct (link_set demo_selection demo_inputs true); [exact (proj1 H) | discriminate Hl].
Qed.

Definition demo_radio : radio := mkRadio (plan_links (stars demo_active)) ∅.

Lemma execute_nap_plan_succeeds_witness :
  exists rep r, execute_nap_plan demo_inputs demo_active demo_selection demo_radio = (Ok rep, r) /\
    radio_links r = plan_links (stars demo_selection).
Proof.
  destruct (execute_nap_plan_succeeds demo_inputs demo_active demo_selection demo_radio)
    as (rep & r & Hrun & _ & Hr).
  - exact demo_capacity.
  - vm_compute. reflexivity.
  - exact demo_active_ok.
  - exact demo_selection_valid.
  - reflexivity.
  - exists rep, r. split; [exact Hrun | exact Hr].
Defined.

(** The three steps of the demonstration plan, as the backend sees them. *)
Lemma execute_nap_plan_sound_witness :
  exists d r, diff_nap_topology demo_inputs demo_active demo_selection = Ok d /\ length (steps d) = 3 /\
    asked demo_radio (finished_plan (plan_links (stars demo_active)) (steps d)) r.
Proof.
  destruct (execute_nap_plan_run demo_inputs demo_active demo_selection demo_radio)
    as (rep & r & Hrun & _); [exact demo_capacity | vm_compute; reflexivity | exact demo_active_ok
    | exact demo_selection_valid | reflexivity |].
  pose proof (execute_nap_plan_sound demo_inputs demo_active demo_selection demo_radio) as Hs.
  assert (length <$> (match diff_nap_topology demo_inputs demo_active demo_selection with
    Ok d => Some (steps d) | Err _ => None end) = Some 3) as Hlen by (vm_compute; reflexivity).
  rewrite Hrun in Hs. destruct (diff_nap_topology demo_inputs demo_active demo_selection) as [d|e];
    [|destruct Hs as [Hs _]; discriminate Hs].
  injection Hlen as Hlen. exists d, r. destruct Hs as (_ & _ & Hs). split; [reflexivity|].
  split; [exact Hlen | exact Hs].
Defined.
