(* ===== verification/Stability.v ===== *)
(** The topology anti-flap gate:
    [crates/blueroute-core/src/topology_stability.rs]. *)

From S2P Require Import Prelude Ident.

Local Open Scope Z_scope.

Record TopologyStabilityPolicy := mkStability {
  min_dwell_ms : Z;
  min_cost_improvement : Z;
  retry_base_ms : Z;
  retry_max_ms : Z;
}.

Record TopologyChangeObservation := mkChange {
  now_ms : Z;
  last_change_ms : Z;
  current_viable : bool;
  proposed_viable : bool;
  current_cost : Z;
  proposed_cost : Z;
  consecutive_failures : Z;
  last_failure_ms : option Z;
}.

Inductive TopologyChangeDecision :=
| KeepCurrent | DeferUntil (t : Z) | Apply | NoViableProposal.

Definition stability_error : CoreError :=
  core_error InvalidInput "invalid topology stability policy or observation".

(** The delay after [failures > 0] consecutive failures. *)
Definition retry_delay (p : TopologyStabilityPolicy) (failures : Z) : Z :=
  let exponent := Z.min (saturating_sub failures 1) 63 in
  let factor := default (u_max 64) (checked_shl 64 1 exponent) in
  Z.min (saturating_mul 64 (retry_base_ms p) factor) (retry_max_ms p).

Definition invalid_change (p : TopologyStabilityPolicy) (o : TopologyChangeObservation) : bool :=
  (min_dwell_ms p =? 0) || (min_cost_improvement p =? 0) || (retry_base_ms p =? 0)
  || (retry_max_ms p <? retry_base_ms p) || (now_ms o <? last_change_ms o)
  || match last_failure_ms o with Some t => now_ms o <? t | None => false end
  || ((0 <? consecutive_failures o) && bool_decide (last_failure_ms o = None)).

Definition decide_topology_change (p : TopologyStabilityPolicy) (o : TopologyChangeObservation) :
  CoreResult TopologyChangeDecision :=
  guard_err (invalid_change p o) stability_error
  (if negb (proposed_viable o) then Ok NoViableProposal
   else if current_viable o && (saturating_sub (current_cost o) (proposed_cost o) <? min_cost_improvement p)
   then Ok KeepCurrent
   else
     let after_backoff :=
       if current_viable o then
         let deadline := saturating_add 64 (last_change_ms o) (min_dwell_ms p) in
         if now_ms o <? deadline then Ok (DeferUntil deadline) else Ok Apply
       else Ok Apply in
     match last_failure_ms o with
     | Some last_failure =>
         if 0 <? consecutive_failures o then
           let deadline := saturating_add 64 last_failure (retry_delay p (consecutive_failures o)) in
           if now_ms o <? deadline then Ok (DeferUntil deadline) else after_backoff
         else after_backoff
     | None => after_backoff
     end).

(** ** Facts *)

Lemma retry_delay_closed p n :
  1 <= n -> 0 <= retry_base_ms p -> retry_max_ms p <= u_max 64 ->
  retry_delay p n = Z.min (retry_base_ms p * 2 ^ Z.min (n - 1) 63) (retry_max_ms p).
Proof.
  intros Hn Hb Hm. unfold retry_delay, saturating_sub, saturating_mul.
  rewrite (Z.max_l (n - 1) 0) by lia. set (e := Z.min (n - 1) 63).
  assert (0 <= e <= 63) as He by (subst e; lia). unfold checked_shl.
  destruct (Z.ltb_spec e 64); [|lia]. simpl. rewrite shl_mod, Z.mul_1_l, Z.mod_small.
  - lia.
  - split; [apply Z.pow_nonneg; lia | apply Z.pow_lt_mono_r; lia].
  - lia.
  - lia.
Qed.

(** The first moment at which a change that is worth it may be applied. *)
Definition earliest (p : TopologyStabilityPolicy) (o : TopologyChangeObservation) : Z :=
  Z.max
    (match last_failure_ms o with
     | Some f => if 0 <? consecutive_failures o
                 then f + Z.min (retry_base_ms p * 2 ^ Z.min (consecutive_failures o - 1) 63) (retry_max_ms p)
                 else 0
     | None => 0 end)
    (if current_viable o then last_change_ms o + min_dwell_ms p else 0).

Definition worthwhile (p : TopologyStabilityPolicy) (o : TopologyChangeObservation) : Prop :=
  proposed_viable o = true /\
  (current_viable o = true -> min_cost_improvement p <= current_cost o - proposed_cost o).

Record observation_rep (p : TopologyStabilityPolicy) (o : TopologyChangeObservation) : Prop := {
  or_now : 0 <= now_ms o < u_max 64;
  or_max : retry_max_ms p <= u_max 64;
  or_base : 0 <= retry_base_ms p;
  or_gain : 0 <= min_cost_improvement p;
  or_dwell : 0 <= min_dwell_ms p;
}.

Lemma saturating_deadline now a b :
  now < u_max 64 -> (now <? saturating_add 64 a b) = (now <? a + b).
Proof.
  intros Hn. unfold saturating_add.
  destruct (Z.ltb_spec now (a + b)), (Z.ltb_spec now (Z.min (a + b) (u_max 64))); lia.
Qed.

Definition dwell (p : TopologyStabilityPolicy) (o : TopologyChangeObservation) : CoreResult TopologyChangeDecision :=
  if current_viable o
  then if now_ms o <? saturating_add 64 (last_change_ms o) (min_dwell_ms p)
       then Ok (DeferUntil (saturating_add 64 (last_change_ms o) (min_dwell_ms p))) else Ok Apply
  else Ok Apply.

(** The dwell test once everything up to [x] has passed. *)
Lemma dwell_decision p o (H0 : 0 <= now_ms o) (Hn : now_ms o < u_max 64) x :
  x <= now_ms o ->
  let e := Z.max x (if current_viable o then last_change_ms o + min_dwell_ms p else 0) in
  (e <= now_ms o -> dwell p o = Ok Apply) /\
  (now_ms o < e -> exists t, dwell p o = Ok (DeferUntil t) /\ now_ms o < t <= e).
Proof.
  intros Hx e. subst e. unfold dwell. destruct (current_viable o); [|split; [done|lia]].
  rewrite saturating_deadline by done.
  destruct (Z.ltb_spec (now_ms o) (last_change_ms o + min_dwell_ms p)) as [Hlt|Hge]; (split; [lia || done|]).
  - intros _. eexists. split; [done|]. unfold saturating_add. lia.
  - lia.
Qed.

Lemma decide_threshold (p : TopologyStabilityPolicy) (o : TopologyChangeObservation)
    (Hrep : observation_rep p o) (Hvalid : invalid_change p o = false) :
  (proposed_viable o = false <-> decide_topology_change p o = Ok NoViableProposal) /\
  (proposed_viable o = true -> ~ worthwhile p o -> decide_topology_change p o = Ok KeepCurrent) /\
  (worthwhile p o ->
     (earliest p o <= now_ms o -> decide_topology_change p o = Ok Apply) /\
     (now_ms o < earliest p o -> exists t, decide_topology_change p o = Ok (DeferUntil t) /\
        now_ms o < t <= earliest p o)).
Proof.
  destruct Hrep as [Hnow Hmax Hbase Hgain Hdwell].
  assert (forall b, (saturating_sub (current_cost o) (proposed_cost o) <? min_cost_improvement p) = b ->
    b = false <-> min_cost_improvement p <= current_cost o - proposed_cost o) as Hg.
  { intros b <-. rewrite Z.ltb_ge. unfold saturating_sub.
    unfold invalid_change in Hvalid. rewrite !orb_false_iff, Z.eqb_neq, Z.eqb_neq in Hvalid. lia. }
  specialize (Hg _ eq_refl). unfold decide_topology_change, worthwhile, earliest.
  rewrite Hvalid. cbn [guard_err].
  destruct (proposed_viable o); cbn [negb]; [|split_and!; [done|done|naive_solver]].
  split_and!.
  - split; [done|]. destruct (current_viable o && _); [done|].
    destruct (last_failure_ms o); repeat case_match; done.
  - intros _ Hnot. destruct (current_viable o); cbn [andb]; [|naive_solver].
    destruct (_ <? min_cost_improvement p) eqn:Hlt; [done|]. naive_solver.
  - intros [_ Hw].
    assert (current_viable o && (saturating_sub (current_cost o) (proposed_cost o) <? min_cost_improvement p) = false) as ->.
    { destruct (current_viable o); [|done]. cbn [andb]. apply Hg. by apply Hw. }
    pose proof (fun a b => saturating_deadline (now_ms o) a b (proj2 Hnow)) as Hsat.
    assert (forall a b, saturating_add 64 a b <= a + b) as Hle by (intros; unfold saturating_add; lia).
    rewrite !Hsat. clear Hg Hw.
    pose proof (dwell_decision p o (proj1 Hnow) (proj2 Hnow)) as Hdw. unfold dwell in Hdw. rewrite Hsat in Hdw.
    destruct (last_failure_ms o) as [f|] eqn:Hf; [|apply Hdw; lia].
    destruct (Z.ltb_spec 0 (consecutive_failures o)) as [Hpos|]; [|apply Hdw; lia].
    rewrite Hsat, retry_delay_closed by lia.
    set (d := Z.min _ (retry_max_ms p)).
    destruct (Z.ltb_spec (now_ms o) (f + d)) as [Hlt|Hge]; [|apply Hdw; lia].
    split; [lia|]. intros _. eexists. split; [done|].
    pose proof (Hsat f d) as Hs. apply Z.ltb_lt in Hlt. rewrite Hlt in Hs. apply Z.ltb_lt in Hs.
    specialize (Hle f d). lia.
Qed.

(** The gate decides by an exact threshold.  For a valid policy and
    observation: nothing is applied without a viable proposal; a viable current
    path is kept when the improvement is below the threshold; any other change
    is applied exactly from the moment both the retry backoff (the base delay
    doubled per further failure, never above the maximum) and, when the current
    path still works, the dwell time since the last change have passed; before
    that it is deferred to a later deadline that is not past that moment. *)
Theorem decide_topology_change_threshold (p : TopologyStabilityPolicy) (o : TopologyChangeObservation)
    (Hrep : observation_rep p o) (Hvalid : invalid_change p o = false) :
  (proposed_viable o = false <-> decide_topology_change p o = Ok NoViableProposal) /\
  (proposed_viable o = true -> ~ worthwhile p o -> decide_topology_change p o = Ok KeepCurrent) /\
  (worthwhile p o ->
     (earliest p o <= now_ms o -> decide_topology_change p o = Ok Apply) /\
     (now_ms o < earliest p o -> exists t, decide_topology_change p o = Ok (DeferUntil t) /\
        now_ms o < t <= earliest p o)).
Proof. by apply decide_threshold. Qed.

Definition demo_policy : TopologyStabilityPolicy := mkStability 1000 10 100 1000.
Definition demo_change (now : Z) : TopologyChangeObservation :=
  mkChange now 0 false true 0 0 3 (Some 5000).

Lemma decide_topology_change_threshold_witness :
  decide_topology_change demo_policy (demo_change 5300) = Ok (DeferUntil 5400) /\
  decide_topology_change demo_policy (demo_change 5400) = Ok Apply.
Proof.
  assert (forall t, 5000 <= t < 10000 -> observation_rep demo_policy (demo_change t)) as Hrep.
  { intros t Ht. split; simpl; unfold u_max; lia. }
  split; [vm_compute; reflexivity|].
  apply (decide_topology_change_threshold demo_policy (demo_change 5400)).
  - apply Hrep. lia.
  - vm_compute. reflexivity.
  - split; [reflexivity | discriminate].
  - vm_compute. discriminate.
Defined.
