(* ===== verification/HubLoss.v ===== *)
(** Debounced hub-loss detection: [crates/blueroute-core/src/topology_loss.rs]. *)

From S2P Require Import Prelude Order Ident TopologyPlan.

Local Open Scope Z_scope.

Record HubLossTracker := mkTracker {
  min_absence_ms : Z;
  last_sample_ms : option Z;
  seen_hubs : gset NodeId;
  missing_since : gmap NodeId Z;
  lost_hubs : gset NodeId;
}.

Definition tracker_new (min : Z) : CoreResult HubLossTracker :=
  guard_err (min =? 0) (core_error InvalidInput "hub-loss confirmation interval must be positive")
  (Ok (mkTracker min None ∅ ∅ ∅)).

Definition forget_hub (tr : HubLossTracker) (h : NodeId) : HubLossTracker :=
  mkTracker (min_absence_ms tr) (last_sample_ms tr)
    (seen_hubs tr ∖ {[h]}) (delete h (missing_since tr)) (lost_hubs tr ∖ {[h]}).

(** The loop that checks the observed links and collects hubs and clients. *)
Definition check_link (st : gset NodeId * gset NodeId) (l : NapLink) : CoreResult (gset NodeId * gset NodeId) :=
  let '(active, clients) := st in
  guard_err (bool_decide (nl_hub l = zero_id) || bool_decide (nl_client l = zero_id)
             || bool_decide (nl_hub l = nl_client l) || bool_decide (nl_client l ∈ clients))
    (core_error InvalidInput "invalid or conflicting observed PAN links")
  (Ok ({[nl_hub l]} ∪ active, {[nl_client l]} ∪ clients)).

(** [for hub in &active]. *)
Definition note_active (tr : HubLossTracker) (h : NodeId) : HubLossTracker :=
  mkTracker (min_absence_ms tr) (last_sample_ms tr)
    ({[h]} ∪ seen_hubs tr) (delete h (missing_since tr)) (lost_hubs tr ∖ {[h]}).

(** [for hub in self.seen_hubs.difference(&active)]. *)
Definition age_hub (now : Z) (tr : HubLossTracker) (h : NodeId) : HubLossTracker :=
  if decide (h ∈ lost_hubs tr) then tr
  else match missing_since tr !! h with
  | Some since =>
      if min_absence_ms tr <=? now - since
      then mkTracker (min_absence_ms tr) (last_sample_ms tr) (seen_hubs tr)
             (delete h (missing_since tr)) ({[h]} ∪ lost_hubs tr)
      else tr
  | None => mkTracker (min_absence_ms tr) (last_sample_ms tr) (seen_hubs tr)
              (<[h := now]> (missing_since tr)) (lost_hubs tr)
  end.

Definition observe (now : Z) (links : gset NapLink) : stres HubLossTracker CoreError (gset NodeId) := fun tr =>
  if match last_sample_ms tr with Some previous => now <=? previous | None => false end
  then (Err (core_error InvalidState "stale or regressed hub-loss observation timestamp"), tr)
  else match try_for_each check_link (∅, ∅) (iter_set links) with
  | Err e => (Err e, tr)
  | Ok (active, clients) =>
      let tr := mkTracker (min_absence_ms tr) (Some now) (seen_hubs tr) (missing_since tr) (lost_hubs tr) in
      let tr := foldl note_active tr (iter_set active) in
      let demoted := List.filter (fun h => bool_decide (h ∈ clients)) (iter_set (seen_hubs tr ∖ active)) in
      let tr := foldl forget_hub tr demoted in
      let tr := foldl (age_hub now) tr (iter_set (seen_hubs tr ∖ active)) in
      (Ok (lost_hubs tr), tr)
  end.

(** ** The specification: one state machine per hub *)

Inductive hub_status := Untracked | Hosting | Missing (since : Z) | Lost.

Definition status (tr : HubLossTracker) (h : NodeId) : hub_status :=
  if decide (h ∈ lost_hubs tr) then Lost
  else match missing_since tr !! h with
  | Some t => Missing t
  | None => if decide (h ∈ seen_hubs tr) then Hosting else Untracked
  end.

Definition hosts (h : NodeId) (links : gset NapLink) : Prop := exists l, l ∈ links /\ nl_hub l = h.
Definition joins (h : NodeId) (links : gset NapLink) : Prop := exists l, l ∈ links /\ nl_client l = h.

(** What a tracked hub's absence from a sample does. *)
Definition absence (min now : Z) (st : hub_status) : hub_status :=
  match st with
  | Untracked => Untracked
  | Hosting => Missing now
  | Missing since => if min <=? now - since then Lost else Missing since
  | Lost => Lost
  end.

(** The successor of a hub's status after an accepted sample. *)
Inductive hub_next (min now : Z) (links : gset NapLink) (h : NodeId) (st : hub_status) : hub_status -> Prop :=
| next_hosting : hosts h links -> hub_next min now links h st Hosting
| next_demoted : ~ hosts h links -> joins h links -> hub_next min now links h st Untracked
| next_absent : ~ hosts h links -> ~ joins h links -> hub_next min now links h st (absence min now st).

Definition sample_ok (tr : HubLossTracker) (now : Z) (links : gset NapLink) : Prop :=
  (forall t, last_sample_ms tr = Some t -> t < now) /\
  (forall l, l ∈ links -> nl_hub l <> zero_id /\ nl_client l <> zero_id /\ nl_hub l <> nl_client l) /\
  unique_clients links.

Record tracker_wf (tr : HubLossTracker) : Prop := {
  tw_missing h t : missing_since tr !! h = Some t -> h ∈ seen_hubs tr;
  tw_lost : lost_hubs tr ⊆ seen_hubs tr;
  tw_time h t : missing_since tr !! h = Some t -> exists l, last_sample_ms tr = Some l /\ t <= l;
}.

(** ** Checking a sample *)

Definition link_ok (l : NapLink) : Prop :=
  nl_hub l <> zero_id /\ nl_client l <> zero_id /\ nl_hub l <> nl_client l.

Lemma check_links_ok l a c :
  match try_for_each check_link (a, c) l with
  | Ok (a', c') =>
      (forall h, h ∈ a' <-> h ∈ a \/ h ∈ nl_hub <$> l) /\ (forall h, h ∈ c' <-> h ∈ c \/ h ∈ nl_client <$> l) /\
      Forall link_ok l /\ NoDup (nl_client <$> l) /\ Forall (fun x => nl_client x ∉ c) l
  | Err _ => ~ (Forall link_ok l /\ NoDup (nl_client <$> l) /\ Forall (fun x => nl_client x ∉ c) l)
  end.
Proof.
  revert a c. induction l as [|x l IH]; intros a c; csimpl.
  { split_and!; try constructor; intros; set_solver. }
  unfold check_link at 1. destruct (_ || _) eqn:Hg; cbn [guard_err mbind result_bind].
  - rewrite !Forall_cons. rewrite !orb_true_iff, !bool_decide_eq_true in Hg. unfold link_ok. tauto.
  - rewrite !orb_false_iff, !bool_decide_eq_false in Hg. destruct Hg as [[[H1 H2] H3] H4].
    specialize (IH ({[nl_hub x]} ∪ a) ({[nl_client x]} ∪ c)).
    destruct (try_for_each _ _ l) as [[a' c']|e].
    + destruct IH as (Ha & Hc & Hok & Hnd & Hfresh). rewrite Forall_forall in Hfresh.
      split_and!.
      * intros h. rewrite Ha. set_solver.
      * intros h. rewrite Hc. set_solver.
      * constructor; [done|done].
      * constructor; [|done]. intros (y & Heq & Hy)%list_elem_of_fmap. apply (Hfresh y Hy). set_solver.
      * constructor; [done|]. apply Forall_forall. intros y Hy Hin. apply (Hfresh y Hy). set_solver.
    + rewrite !Forall_cons, NoDup_cons. intros ((_ & Hok) & (Hx & Hnd) & (_ & Hfresh)). apply IH.
      split_and!; [done|done|]. rewrite Forall_forall in *. intros y Hy [Heq%elem_of_singleton|Hin]%elem_of_union.
      * apply Hx. rewrite <- Heq. by apply list_elem_of_fmap_2.
      * by apply (Hfresh y Hy).
Qed.

Lemma unique_clients_NoDup links : unique_clients links <-> NoDup (nl_client <$> iter_set links).
Proof.
  split.
  - intros Hu. pose proof (NoDup_iter_set links) as Hnd.
    assert (forall x, x ∈ iter_set links -> x ∈ links) as Hin by (intros x; apply elem_of_iter_set).
    induction Hnd as [|x l Hx Hnd IH]; csimpl; constructor.
    + intros (y & Heq & Hy)%list_elem_of_fmap. apply Hx.
      rewrite (Hu x y); [done|apply Hin; by left|apply Hin; by right|done].
    + apply IH. intros y Hy. apply Hin. by right.
  - intros Hnd x y Hx Hy Heq. apply elem_of_iter_set, list_elem_of_lookup in Hx as [i Hi], Hy as [j Hj].
    assert (i = j) as ->; [|congruence].
    apply (NoDup_lookup (nl_client <$> iter_set links) i j (nl_client x)); [done| |];
      rewrite list_lookup_fmap; [by rewrite Hi | by rewrite Hj, Heq].
Qed.

Lemma hosts_iter h links : hosts h links <-> h ∈ nl_hub <$> iter_set links.
Proof.
  unfold hosts. rewrite list_elem_of_fmap. setoid_rewrite elem_of_iter_set. naive_solver.
Qed.
Lemma joins_iter h links : joins h links <-> h ∈ nl_client <$> iter_set links.
Proof.
  unfold joins. rewrite list_elem_of_fmap. setoid_rewrite elem_of_iter_set. naive_solver.
Qed.

(** ** One hub at a time *)

Lemma status_untracked tr h : tracker_wf tr -> status tr h = Untracked <-> h ∉ seen_hubs tr.
Proof.
  intros [Hm Hl _]. unfold status. split.
  - case_decide; [done|]. destruct (missing_since tr !! h); [done|]. by case_decide.
  - intros Hn. rewrite decide_False by set_solver. destruct (missing_since tr !! h) eqn:Hmh.
    + by apply Hm in Hmh.
    + by rewrite decide_False.
Qed.

Lemma status_lost tr h : status tr h = Lost <-> h ∈ lost_hubs tr.
Proof.
  unfold status. destruct (decide (h ∈ lost_hubs tr)); [done|]. destruct (missing_since tr !! h); [done|].
  by case_decide.
Qed.

Section fold.
Context (h : NodeId) (f : HubLossTracker -> NodeId -> HubLossTracker) (g : hub_status -> hub_status).
Context (P : HubLossTracker -> Prop).

Lemma foldl_status l tr :
  (forall tr x, x ∈ l -> P tr ->
     P (f tr x) /\ status (f tr x) h = if decide (h = x) then g (status tr h) else status tr h) ->
  NoDup l -> P tr ->
  P (foldl f tr l) /\ status (foldl f tr l) h = if decide (h ∈ l) then g (status tr h) else status tr h.
Proof.
  intros Hf Hnd. revert tr. induction Hnd as [|x l Hx Hnd IH]; intros tr HP; simpl; [done|].
  destruct (Hf tr x ltac:(by left) HP) as [HP' Hs].
  destruct (IH (fun tr y Hy => Hf tr y ltac:(by right)) _ HP') as [HP'' Hs'].
  split; [done|]. rewrite Hs', Hs. destruct (decide (h = x)) as [->|Hne].
  - rewrite decide_False, decide_True by (done || by left). done.
  - destruct (decide (h ∈ l)).
    + by rewrite decide_True by (by right).
    + by rewrite decide_False by (intros [|]%elem_of_cons; done).
Qed.

End fold.

Lemma note_active_status h tr x :
  tracker_wf tr -> tracker_wf (note_active tr x) /\
  status (note_active tr x) h = if decide (h = x) then Hosting else status tr h.
Proof.
  intros [Hm Hl Ht]. split.
  - split; simpl; [|set_solver|].
    + intros k t [_ Hk]%lookup_delete_Some. apply Hm in Hk. set_solver.
    + intros k t [_ Hk]%lookup_delete_Some. by eapply Ht.
  - unfold status. simpl. destruct (decide (h = x)) as [->|Hne].
    + rewrite decide_False, lookup_delete_eq, decide_True by set_solver. done.
    + rewrite lookup_delete_ne by done. destruct (decide (h ∈ lost_hubs tr)).
      * by rewrite decide_True by set_solver.
      * rewrite decide_False by set_solver. destruct (missing_since tr !! h); [done|].
        destruct (decide (h ∈ seen_hubs tr)); [rewrite decide_True|rewrite decide_False]; set_solver.
Qed.

Lemma forget_hub_status h tr x :
  tracker_wf tr -> tracker_wf (forget_hub tr x) /\
  status (forget_hub tr x) h = if decide (h = x) then Untracked else status tr h.
Proof.
  intros [Hm Hl Ht]. split.
  - split; simpl; [|set_solver|].
    + intros k t [Hne Hk]%lookup_delete_Some. apply Hm in Hk. set_solver.
    + intros k t [_ Hk]%lookup_delete_Some. by eapply Ht.
  - unfold status. simpl. destruct (decide (h = x)) as [->|Hne].
    + rewrite decide_False, lookup_delete_eq, decide_False by set_solver. done.
    + rewrite lookup_delete_ne by done. destruct (decide (h ∈ lost_hubs tr)).
      * by rewrite decide_True by set_solver.
      * rewrite decide_False by set_solver. destruct (missing_since tr !! h); [done|].
        destruct (decide (h ∈ seen_hubs tr)); [rewrite decide_True|rewrite decide_False]; set_solver.
Qed.

Lemma age_hub_status now h tr x :
  last_sample_ms tr = Some now -> x ∈ seen_hubs tr -> tracker_wf tr ->
  let tr' := age_hub now tr x in
  tracker_wf tr' /\ seen_hubs tr' = seen_hubs tr /\ last_sample_ms tr' = last_sample_ms tr /\
  min_absence_ms tr' = min_absence_ms tr /\
  status tr' h = if decide (h = x) then absence (min_absence_ms tr) now (status tr h) else status tr h.
Proof.
  intros Hlast Hx [Hm Hl Ht]. unfold age_hub, status.
  destruct (decide (x ∈ lost_hubs tr)) as [Hxl|Hxl].
  { split_and!; try done. destruct (decide (h = x)) as [->|]; [by rewrite decide_True | done]. }
  destruct (missing_since tr !! x) as [since|] eqn:Hs.
  - destruct (min_absence_ms tr <=? now - since) eqn:Hmin; simpl.
    + split_and!; try done.
      * split; simpl; [|set_solver|].
        { intros k t [_ Hk]%lookup_delete_Some. by eapply Hm. }
        { intros k t [_ Hk]%lookup_delete_Some. by eapply Ht. }
      * destruct (decide (h = x)) as [->|Hne].
        { rewrite decide_True, decide_False, Hs by set_solver. simpl. by rewrite Hmin. }
        rewrite lookup_delete_ne by done. destruct (decide (h ∈ lost_hubs tr)).
        { by rewrite decide_True by set_solver. }
        by rewrite decide_False by set_solver.
    + split_and!; try done. destruct (decide (h = x)) as [->|]; [|done].
      rewrite decide_False, Hs by done. simpl. by rewrite Hmin.
  - simpl. split_and!; try done.
    + split; simpl; [|done|].
      * intros k t [[<- <-]|[_ Hk]]%lookup_insert_Some; [done|by eapply Hm].
      * intros k t [[<- <-]|[_ Hk]]%lookup_insert_Some; [|by eapply Ht]. exists now. split; [done|lia].
    + destruct (decide (h = x)) as [->|Hne].
      * rewrite !(decide_False (P := x ∈ lost_hubs tr)), lookup_insert_eq, Hs, decide_True by done. done.
      * by rewrite lookup_insert_ne.
Qed.

(** ** A whole sample *)

Lemma check_sample links :
  match try_for_each check_link (∅, ∅) (iter_set links) with
  | Ok (a, c) => (forall h, h ∈ a <-> hosts h links) /\ (forall h, h ∈ c <-> joins h links) /\
      (forall l, l ∈ links -> link_ok l) /\ unique_clients links
  | Err _ => ~ ((forall l, l ∈ links -> link_ok l) /\ unique_clients links)
  end.
Proof.
  pose proof (check_links_ok (iter_set links) ∅ ∅) as H.
  assert (Forall link_ok (iter_set links) <-> forall l, l ∈ links -> link_ok l) as Hall.
  { rewrite Forall_forall. split; intros Hf l Hl; apply Hf; by apply elem_of_iter_set. }
  destruct (try_for_each _ _ _) as [[a c]|e]; rewrite unique_clients_NoDup.
  - destruct H as (Ha & Hc & Hok & Hnd & _). rewrite Hall in Hok. split_and!; try done.
    + intros h. rewrite Ha, hosts_iter. set_solver.
    + intros h. rewrite Hc, joins_iter. set_solver.
  - rewrite <- Hall. intros [Hok Hnd]. apply H. split_and!; try done.
    apply Forall_forall. intros x _ Hin. by apply elem_of_empty in Hin.
Qed.

Lemma frame_note tr l :
  last_sample_ms (foldl note_active tr l) = last_sample_ms tr /\
  min_absence_ms (foldl note_active tr l) = min_absence_ms tr.
Proof. revert tr. induction l as [|x l IH]; intros tr; simpl; [done|]. by destruct (IH (note_active tr x)). Qed.
Lemma frame_forget tr l :
  last_sample_ms (foldl forget_hub tr l) = last_sample_ms tr /\
  min_absence_ms (foldl forget_hub tr l) = min_absence_ms tr.
Proof. revert tr. induction l as [|x l IH]; intros tr; simpl; [done|]. by destruct (IH (forget_hub tr x)). Qed.

Definition aging (now : Z) (seen : gset NodeId) (min : Z) (tr : HubLossTracker) : Prop :=
  tracker_wf tr /\ seen_hubs tr = seen /\ last_sample_ms tr = Some now /\ min_absence_ms tr = min.

Lemma sample_status tr now links tr' h :
  tracker_wf tr -> sample_ok tr now links -> (observe now links tr).2 = tr' ->
  tracker_wf tr' /\ last_sample_ms tr' = Some now /\ min_absence_ms tr' = min_absence_ms tr /\
  hub_next (min_absence_ms tr) now links h (status tr h) (status tr' h).
Proof.
  intros Hwf (Htime & Hok & Huniq) Hobs. unfold observe in Hobs.
  assert (match last_sample_ms tr with Some previous => now <=? previous | None => false end = false) as Hlate.
  { destruct (last_sample_ms tr) as [t|]; [|done]. apply Z.leb_gt. by apply Htime. }
  rewrite Hlate in Hobs. pose proof (check_sample links) as Hc.
  destruct (try_for_each _ _ _) as [[a c]|e]; [|by destruct Hc]. destruct Hc as (Ha & Hcl & _).
  cbn zeta in Hobs. set (tr1 := mkTracker _ _ _ _ _) in Hobs.
  assert (tracker_wf tr1) as Hwf1.
  { destruct Hwf as [Hm Hl Ht]. split; simpl; [done|done|]. intros k t Hk. exists now. split; [done|].
    destruct (Ht k t Hk) as (l & Hl' & Hle). specialize (Htime l Hl'). lia. }
  assert (status tr1 h = status tr h) as Hs1 by done.
  destruct (foldl_status h note_active (fun _ => Hosting) tracker_wf (iter_set a) tr1) as [Hwf2 Hs2];
    [intros t x _; apply note_active_status|apply NoDup_iter_set|done|].
  destruct (frame_note tr1 (iter_set a)) as [Hl2 Hm2].
  set (tr2 := foldl note_active tr1 (iter_set a)) in *.
  set (demoted := List.filter _ _) in Hobs.
  destruct (foldl_status h forget_hub (fun _ => Untracked) tracker_wf demoted tr2) as [Hwf3 Hs3];
    [intros t x _; apply forget_hub_status|by apply NoDup_ListNoDup, List.NoDup_filter, NoDup_ListNoDup, NoDup_iter_set|done|].
  destruct (frame_forget tr2 demoted) as [Hl3 Hm3].
  set (tr3 := foldl forget_hub tr2 demoted) in *.
  destruct (foldl_status h (age_hub now) (absence (min_absence_ms tr) now)
    (aging now (seen_hubs tr3) (min_absence_ms tr)) (iter_set (seen_hubs tr3 ∖ a)) tr3) as [(Hwf4 & _ & Hl4 & Hm4) Hs4].
  { intros t x Hx%elem_of_iter_set (Hw & Hse & Hla & Hmi). rewrite elem_of_difference, <- Hse in Hx.
    destruct (age_hub_status now h t x Hla (proj1 Hx) Hw) as (? & ? & ? & ? & Hst).
    rewrite Hmi in Hst. split; [|done]. unfold aging. split_and!; congruence. }
  { apply NoDup_iter_set. }
  { split_and!; try done; [by rewrite Hl3, Hl2 | by rewrite Hm3, Hm2]. }
  cbn [snd] in Hobs. subst tr'. split_and!; try done.
  assert (h ∈ demoted <-> h ∈ seen_hubs tr2 /\ ~ hosts h links /\ joins h links) as Hdem.
  { subst demoted. rewrite list_elem_of_In, filter_In, <- list_elem_of_In, elem_of_iter_set, bool_decide_eq_true,
      elem_of_difference, Ha, Hcl. tauto. }
  assert (h ∈ iter_set (seen_hubs tr3 ∖ a) <-> h ∈ seen_hubs tr3 /\ ~ hosts h links) as Haged.
  { rewrite elem_of_iter_set, elem_of_difference, Ha. tauto. }
  pose proof (status_untracked tr2 h Hwf2) as Hu2. pose proof (status_untracked tr3 h Hwf3) as Hu3.
  destruct (decide (h ∈ iter_set a)) as [Hh|Hh]; rewrite elem_of_iter_set, Ha in Hh.
  { rewrite decide_False in Hs3 by tauto. rewrite decide_False in Hs4 by tauto.
    rewrite Hs4, Hs3, Hs2. by apply next_hosting. }
  rewrite Hs1 in Hs2. destruct (decide (h ∈ c)) as [Hj|Hj]; rewrite Hcl in Hj.
  - assert (status tr3 h = Untracked) as Hunt.
    { destruct (decide (h ∈ demoted)) as [Hd|Hd]; [exact Hs3|]. rewrite Hs3. apply Hu2. tauto. }
    apply Hu3 in Hunt as Hns. rewrite decide_False in Hs4 by tauto. rewrite Hs4, Hunt. by apply next_demoted.
  - rewrite decide_False in Hs3 by tauto. rewrite Hs2 in Hs3. rewrite Hs3 in Hs4, Hu3.
    rewrite Hs4. destruct (decide (h ∈ iter_set (seen_hubs tr3 ∖ a))) as [Hag|Hag]; [by apply next_absent|].
    assert (status tr h = Untracked) as Hun by (apply Hu3; tauto).
    replace (status tr h) with (absence (min_absence_ms tr) now (status tr h)) at 2 by (by rewrite Hun).
    by apply next_absent.
Qed.

Lemma observe_cases tr now links :
  match observe now links tr with
  | (Ok lost, tr') => sample_ok tr now links /\ lost = lost_hubs tr'
  | (Err _, tr') => ~ sample_ok tr now links /\ tr' = tr
  end.
Proof.
  unfold observe, sample_ok. pose proof (check_sample links) as Hc. unfold link_ok in Hc.
  destruct (match last_sample_ms tr with Some previous => now <=? previous | None => false end) eqn:Hlate.
  - split; [|done]. intros (Ht & _). destruct (last_sample_ms tr) as [t|]; [|done].
    apply Z.leb_le in Hlate. specialize (Ht t eq_refl). lia.
  - destruct (try_for_each _ _ _) as [[a c]|e].
    + split; [|done]. destruct Hc as (_ & _ & Hok & Hu). split_and!; [|done|done].
      intros t Ht. rewrite Ht in Hlate. by apply Z.leb_gt in Hlate.
    + split; [|done]. intros (_ & Hok). by apply Hc.
Qed.

Lemma tracker_new_wf min tr : tracker_new min = Ok tr ->
  tracker_wf tr /\ min_absence_ms tr = min /\ forall h, status tr h = Untracked.
Proof.
  intros [_ [= <-]]%guard_err_Ok. split_and!; [|done|].
  - split; simpl; [|done|]; intros h t; by rewrite lookup_empty.
  - intros h. unfold status. simpl. by rewrite decide_False, lookup_empty, decide_False by set_solver.
Qed.

(** C10. One sample refines the per-hub state machine.  An observation is
    accepted exactly when its time is later than the last one and its links are
    sound (no zero or self link, each client once); a refused one changes
    nothing.  An accepted one moves every hub to its successor status: hosting
    when it is the hub of a link, untracked when it is only a client, and
    otherwise one step further towards lost, the elapsed time being at least the
    confirmation interval and never negative.  The answer is the set of lost
    hubs. *)
Theorem observe_refines (tr : HubLossTracker) (now : Z) (links : gset NapLink) :
  tracker_wf tr ->
  match observe now links tr with
  | (Ok lost, tr') =>
      sample_ok tr now links /\ tracker_wf tr' /\ last_sample_ms tr' = Some now /\
      (forall h, hub_next (min_absence_ms tr) now links h (status tr h) (status tr' h)) /\
      (forall h, h ∈ lost <-> status tr' h = Lost) /\
      (forall h t, status tr' h = Missing t -> t <= now)
  | (Err _, tr') => ~ sample_ok tr now links /\ tr' = tr
  end.
Proof.
  intros Hwf. pose proof (observe_cases tr now links) as Hc.
  pose proof (fun h Hok => sample_status tr now links _ h Hwf Hok eq_refl) as Hs.
  destruct (observe now links tr) as [[lost|e] tr']; [|done]. destruct Hc as [Hok ->]. simpl in Hs.
  destruct (Hs zero_id Hok) as (Hwf' & Hlast & _). split_and!; [done|done|done| | |].
  - intros h. by destruct (Hs h Hok) as (_ & _ & _ & ?).
  - intros h. by rewrite status_lost.
  - intros h t Hm. unfold status in Hm. case_decide; [done|].
    destruct (missing_since tr' !! h) as [t'|] eqn:Hmh; [|by case_decide]. injection Hm as ->.
    destruct (tw_time _ Hwf' h t Hmh) as (l & Hl & Hle). rewrite Hlast in Hl. injection Hl as <-. done.
Qed.

(** *** Histories *)

Inductive event := Sample (now : Z) (links : gset NapLink) | Forget (h : NodeId).

(** The accepted samples and the forgotten hubs so far, newest first. *)
Inductive tracked (min : Z) : list event -> HubLossTracker -> Prop :=
| tracked_new tr : tracker_new min = Ok tr -> tracked min [] tr
| tracked_sample hist tr now links lost tr' :
    tracked min hist tr -> observe now links tr = (Ok lost, tr') -> tracked min (Sample now links :: hist) tr'
| tracked_forget hist tr h : tracked min hist tr -> tracked min (Forget h :: hist) (forget_hub tr h).

Definition absent (h : NodeId) (e : event) : Prop :=
  match e with Sample _ links => ~ hosts h links /\ ~ joins h links | Forget x => x <> h end.

Definition hosted (h : NodeId) (e : event) : Prop :=
  match e with Sample _ links => hosts h links | Forget _ => False end.

(** [h] has been absent since the sample at [t], before which it hosted. *)
Definition missing_in (h : NodeId) (t : Z) (hist : list event) : Prop :=
  exists later links earlier, hist = later ++ Sample t links :: earlier /\
    Forall (absent h) (later ++ [Sample t links]) /\ Exists (hosted h) earlier.

Definition lost_in (min : Z) (h : NodeId) (hist : list event) : Prop :=
  exists later t2 links2 before t1, hist = later ++ Sample t2 links2 :: before /\
    Forall (absent h) (later ++ [Sample t2 links2]) /\ missing_in h t1 before /\ min <= t2 - t1.

Definition status_in (min : Z) (h : NodeId) (hist : list event) (st : hub_status) : Prop :=
  match st with
  | Untracked => True
  | Hosting => Exists (hosted h) hist
  | Missing t => missing_in h t hist
  | Lost => lost_in min h hist
  end.

Lemma status_in_absent min h e hist st :
  absent h e -> st <> Hosting -> status_in min h hist st -> status_in min h (e :: hist) st.
Proof.
  intros Ha Hne. destruct st as [| |t|]; simpl; [done|done| |].
  - intros (later & links & earlier & -> & Hall & Hex). exists (e :: later), links, earlier.
    split_and!; [done|by constructor|done].
  - intros (later & t2 & links2 & before & t1 & -> & Hall & Hm & Hle).
    exists (e :: later), t2, links2, before, t1. split_and!; [done|by constructor|done|done].
Qed.

Lemma tracked_status min hist tr :
  tracked min hist tr ->
  tracker_wf tr /\ min_absence_ms tr = min /\ forall h, status_in min h hist (status tr h).
Proof.
  induction 1 as [tr Hnew|hist tr now links lost tr' _ (Hwf & Hmin & Hst) Hobs|hist tr x _ (Hwf & Hmin & Hst)].
  - destruct (tracker_new_wf _ _ Hnew) as (Hwf & Hmin & Hu). split_and!; try done. intros h. by rewrite Hu.
  - pose proof (observe_cases tr now links) as Hc. rewrite Hobs in Hc. destruct Hc as [Hok _].
    assert ((observe now links tr).2 = tr') as Htr' by (by rewrite Hobs).
    split_and!; [by destruct (sample_status tr now links tr' zero_id Hwf Hok Htr')| |].
    { destruct (sample_status tr now links tr' zero_id Hwf Hok Htr') as (_ & _ & ? & _). congruence. }
    intros h. destruct (sample_status tr now links tr' h Hwf Hok Htr') as (_ & _ & _ & Hnext).
    specialize (Hst h). rewrite Hmin in Hnext. destruct Hnext as [Hh|Hh Hj|Hh Hj]; [by left|done|].
    destruct (status tr h) as [| |t|] eqn:Heq; simpl absence; [done| | |].
    + exists [], links, hist. split_and!; [done|by constructor|done].
    + destruct (Z.leb_spec min (now - t)) as [Hle|_].
      * exists [], now, links, hist, t. split_and!; [done|by constructor|done|done].
      * by apply (status_in_absent min h (Sample now links) hist (Missing t)).
    + by apply (status_in_absent min h (Sample now links) hist Lost).
  - split_and!; [by apply (forget_hub_status x)|done|]. intros h.
    destruct (forget_hub_status h tr x Hwf) as [_ Hs]. rewrite Hs. case_decide as Hne; [done|].
    specialize (Hst h). destruct (status tr h) as [| |t|] eqn:Heq; [done|by right| |];
      (apply status_in_absent; [simpl; congruence|done|done]).
Qed.

(** No hub is declared lost without evidence.  In any history of accepted
    samples and forgotten hubs, a hub in the lost set hosted in an earlier
    sample and then was absent, as hub and as client, from two samples at least
    the confirmation interval apart and from every sample since the first of
    them, and was not forgotten since. *)
Theorem lost_hub_confirmed (min : Z) (hist : list event) (tr : HubLossTracker) (h : NodeId) :
  tracked min hist tr -> h ∈ lost_hubs tr -> lost_in min h hist.
Proof.
  intros Ht Hl. destruct (tracked_status _ _ _ Ht) as (_ & _ & Hst).
  specialize (Hst h). apply status_lost in Hl. by rewrite Hl in Hst.
Qed.

(** *** Hub 1 seen, then silent for ten milliseconds *)

Definition demo_link : gset NapLink := {[mkNapLink (fill_id 1) (fill_id 2)]}.
Definition demo_tracker : HubLossTracker := mkTracker 10 None ∅ ∅ ∅.
Definition demo_seen : HubLossTracker := (observe 1 demo_link demo_tracker).2.
Definition demo_missing : HubLossTracker := (observe 2 ∅ demo_seen).2.
Definition demo_lost : HubLossTracker := (observe 12 ∅ demo_missing).2.

Lemma observe_Ok_run now links tr :
  is_ok (observe now links tr).1 = true -> exists lost, observe now links tr = (Ok lost, (observe now links tr).2).
Proof. destruct (observe now links tr) as [[lost|e] tr']; [|done]. intros _. by exists lost. Qed.

Lemma demo_missing_tracked : tracked 10 [Sample 2 ∅; Sample 1 demo_link] demo_missing.
Proof.
  assert (tracked 10 [Sample 1 demo_link] demo_seen) as H1.
  { destruct (observe_Ok_run 1 demo_link demo_tracker) as [l Hl]; [vm_compute; reflexivity|].
    eapply tracked_sample; [by apply tracked_new|exact Hl]. }
  destruct (observe_Ok_run 2 ∅ demo_seen) as [l Hl]; [vm_compute; reflexivity|].
  eapply tracked_sample; [exact H1|exact Hl].
Qed.

Lemma demo_tracked : tracked 10 [Sample 12 ∅; Sample 2 ∅; Sample 1 demo_link] demo_lost.
Proof.
  destruct (observe_Ok_run 12 ∅ demo_missing) as [l Hl]; [vm_compute; reflexivity|].
  eapply tracked_sample; [exact demo_missing_tracked|exact Hl].
Qed.

Lemma lost_hub_confirmed_witness :
  bool_decide (fill_id 1 ∈ lost_hubs demo_lost) = true /\
  lost_in 10 (fill_id 1) [Sample 12 ∅; Sample 2 ∅; Sample 1 demo_link].
Proof.
  assert (bool_decide (fill_id 1 ∈ lost_hubs demo_lost) = true) as Hin by (vm_compute; reflexivity).
  split; [exact Hin|]. apply (lost_hub_confirmed 10 _ demo_lost (fill_id 1)).
  - exact demo_tracked.
  - exact (bool_decide_eq_true_1 _ Hin).
Defined.

Lemma observe_refines_witness :
  exists st, hub_next 10 12 ∅ (fill_id 1) (status demo_missing (fill_id 1)) st /\ st = Lost.
Proof.
  pose proof (observe_refines demo_missing 12 ∅) as H.
  destruct (observe_Ok_run 12 ∅ demo_missing) as [l Hl]; [vm_compute; reflexivity|].
  rewrite Hl in H. destruct H as (_ & _ & _ & Hnext & _).
  - exact (proj1 (tracked_status _ _ _ demo_missing_tracked)).
  - exists (status demo_lost (fill_id 1)). split; [exact (Hnext (fill_id 1)) | vm_compute; reflexivity].
Defined.
