(* ===== verification/Recovery.v ===== *)
(** Hub-loss recovery: the proposal of
    [crates/blueroute-core/src/topology_recovery.rs] and the flow of
    [topology_recovery_flow.rs] that detects the loss, backs off and executes. *)

From S2P Require Import Prelude Order Ident Capability TopologyPolicy TopologyPlan TopologyExec Stability HubLoss.

(** ** The proposal *)

Record HubLossRecoveryPlan := mkRecovery {
  rp_desired : NapSelection;
  rp_transition : NapPlanDiff;
  rp_unavailable : gset NodeId;
}.

(** [stars.entry(link.hub).or_default().push(link.client)]. *)
Definition push_client (m : gmap NodeId (list NodeId)) (l : NapLink) : gmap NodeId (list NodeId) :=
  <[nl_hub l := default [] (m !! nl_hub l) ++ [nl_client l]]> m.

Definition group_stars (m : gmap NodeId (list NodeId)) : NapSelection :=
  mkSelection ((fun kv => mkStar kv.1 kv.2) <$> iter_map m) ∅.

(** The body of [for link in observed_links]. *)
Definition recovery_link (inputs : TopologyPolicyInputs) (lost : gset NodeId)
    (st : gmap NodeId (list NodeId) * gset NodeId) (l : NapLink) :
  CoreResult (gmap NodeId (list NodeId) * gset NodeId) :=
  let '(active_stars, attached_clients) := st in
  guard_err (bool_decide (nl_hub l = nl_client l)
             || bool_decide (candidates inputs !! nl_hub l = None)
             || bool_decide (candidates inputs !! nl_client l = None)
             || bool_decide (nl_hub l ∈ lost) || bool_decide (nl_client l ∈ lost)
             || bool_decide (nl_client l ∈ attached_clients))
    (policy_invalid "stale, unknown or conflicting PAN observations")
  (Ok (push_client active_stars l, {[nl_client l]} ∪ attached_clients)).

(** [inputs] without the lost nodes and the edges to them. *)
Definition available_candidate (lost : gset NodeId) (observed : gset NapLink) (id : NodeId)
    (c : TopologyCandidate) : TopologyCandidate :=
  mkCandidate (cand_id c) (capabilities c)
    (filter (fun kv => kv.1 ∉ lost) (neighbors c))
    (existsb (fun l => bool_decide (nl_hub l = id)) (iter_set observed))
    (gateway_preferred c).
Definition available_inputs (inputs : TopologyPolicyInputs) (lost : gset NodeId) (observed : gset NapLink) :
  TopologyPolicyInputs :=
  mkInputs (map_imap (fun id c => Some (available_candidate lost observed id c))
              (filter (fun kv => kv.1 ∉ lost) (candidates inputs))).

Definition plan_hub_loss_recovery (inputs : TopologyPolicyInputs) (observed : gset NapLink)
    (lost : gset NodeId) : CoreResult HubLossRecoveryPlan :=
  _ ← inputs_validate inputs;
  guard_err (bool_decide (lost = ∅) || negb (bool_decide (lost ⊆ dom (candidates inputs))))
    (policy_invalid "hub loss requires known failed node identities")
  (st ← try_for_each (recovery_link inputs lost) (∅, ∅) (iter_set observed);
   let active := group_stars st.1 in
   selected ← select_nap_hubs (available_inputs inputs lost observed);
   let desired := mkSelection (stars selected) (unserved selected ∪ lost) in
   transition ← diff_nap_topology inputs active desired;
   Ok (mkRecovery desired transition (unserved desired))).

(** ** The flow *)

Record HubLossRecoveryExecution := mkRecoveryExec {
  re_confirmed_lost : gset NodeId;
  re_plan : HubLossRecoveryPlan;
  re_execution : NapExecutionReport;
}.

Definition observed_selection (observed : gset NapLink) : NapSelection :=
  group_stars (foldl push_client ∅ (iter_set observed)).

Record HubRecoveryRetryState := mkRetry {
  rs_policy : TopologyStabilityPolicy;
  rs_failures : Z;
  rs_last_failure : option Z;
}.

Definition is_due (r : HubRecoveryRetryState) (now : Z) : CoreResult bool :=
  d ← decide_topology_change (rs_policy r)
        (mkChange now 0 false true 0 0 (rs_failures r) (rs_last_failure r));
  Ok (match d with Apply => true | _ => false end).

Definition retry_new (p : TopologyStabilityPolicy) : CoreResult HubRecoveryRetryState :=
  let r := mkRetry p 0 None in
  _ ← is_due r 0; Ok r.

Definition retry_failed (r : HubRecoveryRetryState) (now : Z) : HubRecoveryRetryState :=
  mkRetry (rs_policy r) (saturating_add 32 (rs_failures r) 1) (Some now).
Definition retry_reset (r : HubRecoveryRetryState) : HubRecoveryRetryState := mkRetry (rs_policy r) 0 None.

Definition recovery_observations_changed : CoreError :=
  core_error InvalidState "PAN observations changed before route reconciliation; replan".

Section flow.
Context {S : Type} `{NapTopologyOperator S}.

Definition recover_from_observation (inputs : TopologyPolicyInputs) (observed : gset NapLink)
    (lost : gset NodeId) : stres S CoreError HubLossRecoveryExecution :=
  let! p := st_lift (plan_hub_loss_recovery inputs observed lost) in
  let! current := observe_links in
  if decide (current = observed) then
    let! _ := reconcile_routes current in
    let! execution := execute_nap_plan inputs (observed_selection current) (rp_desired p) in
    st_ret (mkRecoveryExec lost p execution)
  else st_fail recovery_observations_changed.

Definition execute_confirmed_hub_loss_recovery (inputs : TopologyPolicyInputs) (now : Z) :
  stres (HubLossTracker * S) CoreError (option HubLossRecoveryExecution) := fun '(tr, s) =>
  match observe_links s with
  | (Err e, s) => (Err e, (tr, s))
  | (Ok observed, s) =>
      match observe now observed tr with
      | (Err e, tr) => (Err e, (tr, s))
      | (Ok lost, tr) =>
          if decide (lost = ∅) then (Ok None, (tr, s))
          else match recover_from_observation inputs observed lost s with
               | (Ok ex, s) => (Ok (Some ex), (tr, s))
               | (Err e, s) => (Err e, (tr, s))
               end
      end
  end.

Definition execute_confirmed_hub_loss_recovery_with_backoff (inputs : TopologyPolicyInputs) (now : Z) :
  stres (HubLossTracker * HubRecoveryRetryState * S) CoreError (option HubLossRecoveryExecution) :=
  fun '(tr, retry, s) =>
  match observe_links s with
  | (Err e, s) => (Err e, (tr, retry, s))
  | (Ok observed, s) =>
      match observe now observed tr with
      | (Err e, tr) => (Err e, (tr, retry, s))
      | (Ok lost, tr) =>
          if decide (lost = ∅) then (Ok None, (tr, retry_reset retry, s))
          else match is_due retry now with
          | Err e => (Err e, (tr, retry, s))
          | Ok false => (Ok None, (tr, retry, s))
          | Ok true =>
              match recover_from_observation inputs observed lost s with
              | (Ok ex, s) => (Ok (Some ex), (tr, retry_reset retry, s))
              | (Err e, s) => (Err e, (tr, retry_failed retry now, s))
              end
          end
      end
  end.

End flow.

(** ** The active plan rebuilt from observed links *)

Definition clients_of (h : NodeId) (l : list NapLink) : list NodeId :=
  nl_client <$> List.filter (fun x => bool_decide (nl_hub x = h)) l.

Definition grouped (m : gmap NodeId (list NodeId)) (l : list NapLink) : Prop :=
  forall h, m !! h = match clients_of h l with [] => None | cs => Some cs end.

Lemma clients_of_snoc h l x :
  clients_of h (l ++ [x]) = clients_of h l ++ (if decide (nl_hub x = h) then [nl_client x] else []).
Proof.
  unfold clients_of. rewrite List.filter_app, fmap_app. f_equal. simpl.
  destruct (decide (nl_hub x = h)) as [Heq|Hne].
  - by rewrite bool_decide_eq_true_2.
  - by rewrite bool_decide_eq_false_2.
Qed.

Lemma grouped_push m l x : grouped m l -> grouped (push_client m x) (l ++ [x]).
Proof.
  intros Hg h. unfold push_client. rewrite clients_of_snoc. destruct (decide (nl_hub x = h)) as [<-|Hne].
  - rewrite lookup_insert_eq, (Hg (nl_hub x)).
    destruct (clients_of (nl_hub x) l) as [|c cs]; simpl; [done|]. done.
  - by rewrite lookup_insert_ne, app_nil_r.
Qed.

Lemma grouped_foldl l : grouped (foldl push_client ∅ l) l.
Proof.
  induction l as [|x l IH] using rev_ind; [intros h; apply lookup_empty|].
  rewrite foldl_snoc. by apply grouped_push.
Qed.

Lemma grouped_inj m m' l : grouped m l -> grouped m' l -> m = m'.
Proof. intros Hm Hm'. apply map_eq. intros h. by rewrite (Hm h), (Hm' h). Qed.

Lemma elem_of_clients_of h c l : c ∈ clients_of h l <-> mkNapLink h c ∈ l.
Proof.
  unfold clients_of. rewrite list_elem_of_fmap. split.
  - intros (x & -> & Hx). apply list_elem_of_In, filter_In in Hx as [Hx <-%bool_decide_eq_true].
    apply list_elem_of_In in Hx. by destruct x.
  - intros Hin. exists (mkNapLink h c). split; [done|]. apply list_elem_of_In, filter_In.
    split; [by apply list_elem_of_In | by apply bool_decide_eq_true].
Qed.

Section grouping.
Context (links : gset NapLink) (m : gmap NodeId (list NodeId)) (Hm : grouped m (iter_set links)).

Lemma group_star st :
  st ∈ stars (group_stars m) <-> clients st = clients_of (hub st) (iter_set links) /\ clients st <> [].
Proof.
  simpl. rewrite list_elem_of_fmap. split.
  - intros ([h cs] & -> & Hin). apply elem_of_iter_map in Hin. simpl. rewrite (Hm h) in Hin.
    destruct (clients_of h (iter_set links)); [done|]. by injection Hin as <-.
  - intros [Hc Hne]. exists (hub st, clients st). split; [by destruct st|].
    apply elem_of_iter_map. rewrite (Hm (hub st)), <- Hc. by destruct (clients st).
Qed.

Lemma group_hubs : NoDup (hub <$> stars (group_stars m)).
Proof.
  simpl. rewrite <- list_fmap_compose. apply (NoDup_keys m).
Qed.

Lemma group_links : plan_links (stars (group_stars m)) = links.
Proof.
  apply set_eq. intros x. rewrite elem_of_plan_links. split.
  - intros (st & [Hc _]%group_star & Hh & Hin). rewrite Hc in Hin.
    apply elem_of_clients_of, elem_of_iter_set in Hin. rewrite Hh in Hin. by destruct x.
  - intros Hx. exists (mkStar (nl_hub x) (clients_of (nl_hub x) (iter_set links))).
    assert (nl_client x ∈ clients_of (nl_hub x) (iter_set links)) as Hin.
    { apply elem_of_clients_of, elem_of_iter_set. by destruct x. }
    split; [|done]. apply group_star. simpl. split; [done|]. intros Hnil. rewrite Hnil in Hin.
    by apply elem_of_nil in Hin.
Qed.

Lemma group_clients : unique_clients links -> NoDup (all_clients (stars (group_stars m))).
Proof.
  intros Hu. apply NoDup_bind.
  - intros st st' c Hst Hst' Hc Hc'. pose proof group_hubs as Hnd.
    apply group_star in Hst as [He Hn], Hst' as [He' Hn']. rewrite He in Hc. rewrite He' in Hc'.
    apply elem_of_clients_of, elem_of_iter_set in Hc, Hc'.
    pose proof (Hu _ _ Hc Hc' eq_refl) as Heq. injection Heq as Heq.
    destruct st as [h cs], st' as [h' cs']; simpl in *. congruence.
  - intros st [-> _]%group_star. apply unique_clients_NoDup in Hu. unfold clients_of.
    eapply sublist_NoDup; [exact Hu|]. apply fmap_sublist. clear.
    induction (iter_set links) as [|x l IH]; simpl; [done|].
    destruct (bool_decide _); [by constructor|by constructor].
  - eapply NoDup_fmap_1, group_hubs.
Qed.

Lemma group_active inputs :
  unique_clients links -> (forall l, l ∈ links -> nl_hub l <> nl_client l) -> active_ok inputs (group_stars m).
Proof.
  intros Hu Hne. split; [apply group_hubs|]. split; [by apply group_clients|].
  apply Forall_forall. intros st [Hc Hn]%group_star. split; [done|]. split; [|done].
  apply Forall_forall. intros c Hin. rewrite Hc in Hin. apply elem_of_clients_of, elem_of_iter_set in Hin.
  split; [|done]. specialize (Hne _ Hin). simpl in Hne. congruence.
Qed.

End grouping.

(** ** When recovery can be planned *)

Definition link_recoverable (inputs : TopologyPolicyInputs) (lost : gset NodeId) (l : NapLink) : Prop :=
  nl_hub l <> nl_client l /\ is_Some (candidates inputs !! nl_hub l) /\
  is_Some (candidates inputs !! nl_client l) /\ (nl_hub l ∉ lost) /\ nl_client l ∉ lost.

Definition recoverable (inputs : TopologyPolicyInputs) (observed : gset NapLink) (lost : gset NodeId) : Prop :=
  inputs_validate inputs = Ok () /\ lost <> ∅ /\ lost ⊆ dom (candidates inputs) /\
  (forall l, l ∈ observed -> link_recoverable inputs lost l) /\ unique_clients observed.

Lemma recovery_links_ok inputs lost l pre m a :
  grouped m pre -> (forall c, c ∈ a <-> c ∈ nl_client <$> pre) ->
  match try_for_each (recovery_link inputs lost) (m, a) l with
  | Ok (m', _) => grouped m' (pre ++ l) /\ Forall (link_recoverable inputs lost) l /\
      (NoDup (nl_client <$> pre) -> NoDup (nl_client <$> pre ++ l))
  | Err _ => ~ (Forall (link_recoverable inputs lost) l /\ NoDup (nl_client <$> pre ++ l))
  end.
Proof.
  revert pre m a. induction l as [|x l IH]; intros pre m a Hg Ha; simpl; [by rewrite app_nil_r|].
  unfold recovery_link at 1, link_recoverable at 1. destruct (_ || _) eqn:Hb; cbn [guard_err mbind result_bind].
  - rewrite Forall_cons, fmap_app. csimpl. intros [[Hx _] Hnd].
    apply NoDup_app in Hnd as (_ & Hd & _). unfold link_recoverable in Hx. rewrite <- !not_eq_None_Some in Hx.
    rewrite !orb_true_iff, !bool_decide_eq_true in Hb. destruct Hx as (H1 & H2 & H3 & H4 & H5).
    destruct Hb as [[[[[?|?]|?]|?]|?]|Hin]; try tauto. apply Ha in Hin. apply (Hd _ Hin). by left.
  - rewrite !orb_false_iff, !bool_decide_eq_false in Hb. destruct Hb as [[[[[H1 H2] H3] H4] H5] H6].
    specialize (IH (pre ++ [x]) (push_client m x) ({[nl_client x]} ∪ a) (grouped_push _ _ _ Hg)).
    rewrite <- app_assoc in IH. simpl in IH.
    assert (forall c, c ∈ {[nl_client x]} ∪ a <-> c ∈ nl_client <$> pre ++ [x]) as Ha'.
    { intros c. rewrite elem_of_union, elem_of_singleton, Ha, fmap_app, elem_of_app. csimpl.
      rewrite list_elem_of_singleton. tauto. }
    specialize (IH Ha'). destruct (try_for_each _ _ l) as [[m' a']|e].
    + destruct IH as (Hg' & Hall & Hnd). split_and!; [done| |].
      * constructor; [|done]. unfold link_recoverable. rewrite <- !not_eq_None_Some. done.
      * intros Hpre. apply Hnd. rewrite fmap_app, NoDup_app. split_and!; [done| |apply NoDup_singleton].
        intros c Hc ->%list_elem_of_singleton. by apply H6, Ha.
    + rewrite Forall_cons. tauto.
Qed.

Lemma available_lookup inputs lost observed id c' :
  candidates (available_inputs inputs lost observed) !! id = Some c' <->
  exists c, candidates inputs !! id = Some c /\ (id ∉ lost) /\ c' = available_candidate lost observed id c.
Proof.
  unfold available_inputs. cbn [candidates]. rewrite map_lookup_imap, bind_Some.
  setoid_rewrite map_lookup_filter_Some. naive_solver.
Qed.

(** The restricted inputs are valid again. *)
Lemma available_valid inputs lost observed :
  inputs_validate inputs = Ok () -> inputs_validate (available_inputs inputs lost observed) = Ok ().
Proof.
  unfold inputs_validate. rewrite !try_all_Ok, !Forall_forall. intros Hall [id c'] Hin.
  apply elem_of_iter_map, available_lookup in Hin as (c & Hc & Hid & ->).
  assert ((id, c) ∈ iter_map (candidates inputs)) as Hin by (by apply elem_of_iter_map).
  specialize (Hall _ Hin). unfold validate_candidate in *.
  apply guard_err_Ok in Hall as [H1 Hall]. apply guard_err_Ok in Hall as [H2 Hall].
  apply guard_err_Ok in Hall as [H3 Hall]. rewrite try_all_Ok, Forall_forall in Hall.
  apply guard_err_Ok. split; [done|]. apply guard_err_Ok. split; [done|].
  apply guard_err_Ok. split; [done|]. apply try_all_Ok, Forall_forall. intros [n l] Hn.
  apply elem_of_iter_map in Hn. cbn [neighbors available_candidate] in Hn.
  apply map_lookup_filter_Some in Hn as [Hn Hnl]. simpl in Hnl.
  assert ((n, l) ∈ iter_map (neighbors c)) as Hn' by (by apply elem_of_iter_map).
  specialize (Hall _ Hn'). unfold validate_neighbor in *. simpl in *.
  apply guard_err_Ok in Hall as [H4 H5]. apply guard_err_Ok. split; [|done].
  rewrite orb_false_iff, !bool_decide_eq_false in H4 |- *. destruct H4 as [H4 H6]. split; [done|].
  apply not_eq_None_Some in H6 as [r Hr]. apply not_eq_None_Some.
  exists (available_candidate lost observed n r). apply available_lookup. eauto.
Qed.

(** A selection among the available nodes, with the lost ones unserved. *)
Lemma available_selection inputs lost observed sel :
  lost ⊆ dom (candidates inputs) ->
  valid_selection (available_inputs inputs lost observed) sel ->
  valid_selection inputs (mkSelection (stars sel) (unserved sel ∪ lost)) /\
  forall n, n ∈ (hub <$> stars sel) ++ all_clients (stars sel) -> n ∉ lost.
Proof.
  intros Hlost [Hh Hs Ho Hu].
  assert (Forall (star_ok inputs) (stars sel) /\ forall n, n ∈ (hub <$> stars sel) ++ all_clients (stars sel) ->
    n ∉ lost) as [Hs' Hn].
  { rewrite !Forall_forall in *. split.
    - intros st Hst. destruct (Hs st Hst) as [Hne (h & cap & Hhub & Hhost & Hcap & Hlen) Hc].
      apply available_lookup in Hhub as (c & Hc' & _ & ->). split; [done|by exists c, cap|].
      intros x Hx. destruct (Hc x Hx) as (Hxh & h & p & Hl1 & Hl2 & Hj & [l1 Hn1] & [l2 Hn2]). split; [done|].
      apply available_lookup in Hl1 as (ch & Hch & _ & ->), Hl2 as (cp & Hcp & _ & ->).
      apply map_lookup_filter_Some in Hn1 as [Hn1 _], Hn2 as [Hn2 _]. exists ch, cp. eauto 10.
    - intros n [(st & -> & Hst)%list_elem_of_fmap|(st & Hc & Hst)%list_elem_of_bind]%elem_of_app.
      + destruct (so_hub _ _ (Hs st Hst)) as (h & cap & Hhub & _).
        apply available_lookup in Hhub as (c & _ & ? & _). done.
      + destruct (so_client _ _ (Hs st Hst) n Hc) as (_ & h & p & _ & Hp & _).
        apply available_lookup in Hp as (c & _ & ? & _). done. }
  split; [|done]. split; simpl; try done. intros n. rewrite elem_of_union, Hu.
  assert (is_Some (candidates (available_inputs inputs lost observed) !! n) <->
    is_Some (candidates inputs !! n) /\ n ∉ lost) as ->.
  { split.
    - intros [c' (c & Hc & ? & _)%available_lookup]. eauto.
    - intros [[c Hc] ?]. eexists. apply available_lookup. eauto. }
  destruct (decide (n ∈ lost)) as [Hin|]; [|tauto]. split; [|tauto]. intros _.
  split; [apply elem_of_dom; by apply Hlost|]. intros Hserved. by apply (Hn n).
Qed.

Record recovery_plan_ok (inputs : TopologyPolicyInputs) (observed : gset NapLink) (lost : gset NodeId)
    (r : HubLossRecoveryPlan) : Prop := {
  ro_valid : valid_selection inputs (rp_desired r);
  ro_avoids n : n ∈ (hub <$> stars (rp_desired r)) ++ all_clients (stars (rp_desired r)) -> n ∉ lost;
  ro_unavailable : rp_unavailable r = unserved (rp_desired r) /\ lost ⊆ rp_unavailable r;
  ro_run : safe_run inputs (plan_links (stars (rp_desired r))) observed
             (steps (rp_transition r)) (plan_links (stars (rp_desired r)));
}.

Lemma recovery_spec inputs observed lost :
  match plan_hub_loss_recovery inputs observed lost with
  | Ok r => recoverable inputs observed lost /\ recovery_plan_ok inputs observed lost r
  | Err _ => ~ recoverable inputs observed lost
  end.
Proof.
  unfold plan_hub_loss_recovery, recoverable.
  destruct (inputs_validate inputs) as [[]|e] eqn:Hv; cbn [mbind result_bind]; [|naive_solver].
  destruct (decide (lost = ∅)) as [->|Hne]; [rewrite bool_decide_eq_true_2 by done; simpl; naive_solver|].
  rewrite bool_decide_eq_false_2 by done. cbn [orb].
  destruct (decide (lost ⊆ dom (candidates inputs))) as [Hsub|Hns];
    [|rewrite bool_decide_eq_false_2 by done; simpl; naive_solver].
  rewrite bool_decide_eq_true_2 by done. cbn [negb guard_err].
  pose proof (recovery_links_ok inputs lost (iter_set observed) [] ∅ ∅ (fun h => lookup_empty h)) as Hl.
  specialize (Hl ltac:(intros c; simpl; set_solver)). simpl in Hl.
  assert (Forall (link_recoverable inputs lost) (iter_set observed) <->
    forall l, l ∈ observed -> link_recoverable inputs lost l) as Hall.
  { rewrite Forall_forall. split; intros Hf l Hin; apply Hf; by apply elem_of_iter_set. }
  destruct (try_for_each _ _ (iter_set observed)) as [[m a]|e]; cbn [mbind result_bind fst].
  2:{ intros (_ & _ & _ & Hf & Hu). apply Hl. split; [by apply Hall | by apply unique_clients_NoDup]. }
  destruct Hl as (Hg & Hf & Hnd). specialize (Hnd ltac:(constructor)).
  apply unique_clients_NoDup in Hnd. rewrite Hall in Hf.
  destruct (select_nap_hubs_run _ (available_valid inputs lost observed Hv)) as (sel & -> & _ & Hval & _).
  cbn [mbind result_bind]. destruct (available_selection _ _ _ _ Hsub Hval) as [Hval' Havoid].
  set (desired := mkSelection _ _) in *.
  assert (active_ok inputs (group_stars m)) as Hact.
  { apply (group_active observed m Hg); [done|]. intros l Hin. by apply Hf. }
  pose proof (diff_spec inputs (group_stars m) desired) as Hd. cbv zeta in Hd.
  rewrite (group_links observed m Hg) in Hd.
  destruct (diff_nap_topology inputs (group_stars m) desired) as [d|e]; [|tauto]. cbn [mbind result_bind].
  split; [done|]. split; simpl; try done; [set_solver | apply Hd].
Qed.

(** Recovery from the loss of hubs.  A proposal is made exactly when the
    inputs are valid, the lost nodes are known and not none, and the observed
    links join known surviving nodes with each client attached once; in that case
    planning cannot fail.  The proposal is a valid selection that uses no lost
    node, as hub or as client; everything it leaves unserved, the lost nodes
    included, is reported unavailable; and its steps take the observed links to
    the proposed ones safely, never cutting a link that is kept. *)
Theorem plan_hub_loss_recovery_exact (inputs : TopologyPolicyInputs) (observed : gset NapLink)
    (lost : gset NodeId) :
  match plan_hub_loss_recovery inputs observed lost with
  | Ok r => recoverable inputs observed lost /\ recovery_plan_ok inputs observed lost r
  | Err _ => ~ recoverable inputs observed lost
  end.
Proof. exact (recovery_spec inputs observed lost). Qed.

(** ** The flow *)

Section flow_facts.
Context {S : Type} `{NapTopologyOperator S}.

Lemma recover_from_observation_Ok inputs observed lost (s s' : S) ex :
  recover_from_observation inputs observed lost s = (Ok ex, s') ->
  recoverable inputs observed lost /\ recovery_plan_ok inputs observed lost (re_plan ex) /\
  re_confirmed_lost ex = lost /\ nap_observed (re_execution ex) = plan_links (stars (rp_desired (re_plan ex))).
Proof.
  unfold recover_from_observation. intros Hrun.
  apply st_bind_Ok in Hrun as (p & s0 & Hp & Hrun). unfold st_lift in Hp. injection Hp as Hp <-.
  apply st_bind_Ok in Hrun as (cur & s1 & Hobs & Hrun). case_decide as Heq; [subst cur|done].
  apply st_bind_Ok in Hrun as ([] & s2 & _ & Hrun).
  apply st_bind_Ok in Hrun as (rep & s3 & Hexec & [= <- <-]). simpl.
  pose proof (recovery_spec inputs observed lost) as Hspec. rewrite Hp in Hspec.
  destruct Hspec as [Hr Hok]. split_and!; try done.
  by destruct (execute_nap_plan_Ok _ _ _ _ _ _ Hexec) as (d & _ & _ & ? & _).
Qed.

End flow_facts.

(** *** The retry gate *)

Definition policy_ok (p : TopologyStabilityPolicy) : Prop :=
  1 <= Z.to_nat (min_dwell_ms p) /\ 1 <= Z.to_nat (min_cost_improvement p) /\
  (1 <= retry_base_ms p <= retry_max_ms p)%Z /\ (retry_max_ms p <= u_max 64)%Z.

(** What holds of the tracker and the retry state between calls. *)
Definition retry_inv (tr : HubLossTracker) (r : HubRecoveryRetryState) : Prop :=
  policy_ok (rs_policy r) /\ (0 <= rs_failures r <= u_max 32)%Z /\
  match rs_last_failure r with
  | Some f => (0 < rs_failures r)%Z /\ (0 <= f)%Z /\ exists l, last_sample_ms tr = Some l /\ (f <= l)%Z
  | None => rs_failures r = 0%Z
  end.

(** The first moment a retry is due. *)
Definition retry_at (r : HubRecoveryRetryState) : Z :=
  match rs_last_failure r with
  | Some f => f + Z.min (retry_base_ms (rs_policy r) * 2 ^ Z.min (rs_failures r - 1) 63) (retry_max_ms (rs_policy r))
  | None => 0
  end.

Lemma is_due_spec tr r now :
  retry_inv tr r -> (0 <= now < u_max 64)%Z ->
  (forall l, last_sample_ms tr = Some l -> (l <= now)%Z) ->
  is_due r now = Ok (bool_decide (retry_at r <= now)%Z).
Proof.
  intros ((Hp1 & Hp2 & Hp3 & Hp4) & Hf & Hlast) Hnow Hle. unfold is_due.
  set (o := mkChange now 0 false true 0 0 (rs_failures r) (rs_last_failure r)).
  assert (invalid_change (rs_policy r) o = false) as Hvalid.
  { unfold invalid_change. subst o. simpl. rewrite !orb_false_iff, !Z.eqb_neq, !Z.ltb_ge.
    destruct (rs_last_failure r) as [f|] eqn:Hr.
    - destruct Hlast as (Hpos & H0 & l & Hl & Hfl). specialize (Hle l Hl).
      rewrite bool_decide_eq_false_2 by done. rewrite andb_false_r. split_and!; try lia; try done.
    - rewrite Hlast. simpl. split_and!; lia || done. }
  assert (observation_rep (rs_policy r) o) as Hrep by (split; subst o; simpl; lia).
  destruct (decide_threshold _ _ Hrep Hvalid) as (_ & _ & Hw).
  destruct Hw as [Happly Hdefer]; [by split|].
  assert (earliest (rs_policy r) o = Z.max (retry_at r) 0) as He.
  { unfold earliest, retry_at. subst o. simpl. destruct (rs_last_failure r) as [f|]; [|lia].
    destruct Hlast as (Hpos & _). by apply Z.ltb_lt in Hpos as ->. }
  rewrite He in *. change (now_ms o) with now in *.
  destruct (Z.le_gt_cases (retry_at r) now) as [Hd|Hd].
  - rewrite Happly by lia. by rewrite bool_decide_eq_true_2.
  - destruct Hdefer as (t & -> & _); [lia|]. simpl. rewrite bool_decide_eq_false_2; [done|lia].
Qed.

(** The recovery flow with backoff, over any backend.  A call that is not
    followed by an attempt, because no loss is confirmed or because a retry is
    not yet due, makes nothing but its one observation.  An attempt is made only
    for a confirmed loss and only from the retry moment on, the due test itself
    never failing; success clears the failure history and leaves the last observed
    links exactly the proposed ones, without any lost node; a failed attempt
    counts a failure at the current time.  The invariant between the tracker's
    clock and the retry state is preserved on every path. *)
Theorem recovery_with_backoff {S : Type} `{NapTopologyOperator S} (inputs : TopologyPolicyInputs)
    (now : Z) (tr : HubLossTracker) (r : HubRecoveryRetryState) (s : S) :
  tracker_wf tr -> retry_inv tr r -> (0 <= now < u_max 64)%Z ->
  let '(res, (tr', r', s')) := execute_confirmed_hub_loss_recovery_with_backoff inputs now (tr, r, s) in
  tracker_wf tr' /\ retry_inv tr' r' /\
  match res with
  | Ok None => (exists obs, observe_links s = (Ok obs, s')) /\
      ((lost_hubs tr' = ∅ /\ r' = retry_reset r) \/ (lost_hubs tr' <> ∅ /\ r' = r /\ (now < retry_at r)%Z))
  | Ok (Some ex) => (retry_at r <= now)%Z /\ r' = retry_reset r /\
      re_confirmed_lost ex = lost_hubs tr' /\ lost_hubs tr' <> ∅ /\
      nap_observed (re_execution ex) = plan_links (stars (rp_desired (re_plan ex))) /\
      (forall l, l ∈ nap_observed (re_execution ex) -> (nl_hub l ∉ lost_hubs tr') /\ nl_client l ∉ lost_hubs tr')
  | Err _ => (exists o, observe_links s = (o, s') /\ r' = r) \/
      (lost_hubs tr' <> ∅ /\ (retry_at r <= now)%Z /\ r' = retry_failed r now)
  end.
Proof.
  intros Hwf Hinv Hnow. unfold execute_confirmed_hub_loss_recovery_with_backoff.
  destruct (observe_links s) as [[obs|e] s1] eqn:Hobs; [|split_and!; eauto].
  pose proof (observe_cases tr now obs) as Hc.
  destruct (observe now obs tr) as [[lost|e] tr'] eqn:Ho; [|destruct Hc as [_ ->]; split_and!; eauto].
  destruct Hc as [Hok ->].
  destruct (sample_status tr now obs tr' zero_id Hwf Hok ltac:(by rewrite Ho)) as (Hwf' & Hlast & _ & _).
  assert (retry_inv tr' r) as Hinv'.
  { destruct Hinv as (? & ? & Hl). split_and!; try done; try lia. destruct (rs_last_failure r) as [f|]; [|done].
    destruct Hl as (? & ? & l & Hl & Hle). split_and!; try lia. exists now. split; [done|].
    destruct Hok as (Ht & _). specialize (Ht l Hl). lia. }
  assert (retry_inv tr' (retry_reset r)) as Hreset.
  { destruct Hinv' as (? & _ & _). split; [done|]. simpl. split; [|done]. unfold u_max. lia. }
  case_decide as Hlost; [split_and!; eauto|].
  rewrite (is_due_spec tr' r now Hinv' Hnow) by (intros l Hl; rewrite Hlast in Hl; injection Hl as <-; lia).
  case_bool_decide as Hdue; [|split_and!; eauto; right; split_and!; [done|done|lia]].
  destruct (recover_from_observation inputs obs (lost_hubs tr') s1) as [[ex|e] s2] eqn:Hrec.
  - apply recover_from_observation_Ok in Hrec as (_ & Hplan & Hconf & Hfin).
    split_and!; try done. rewrite Hfin. intros l (st & Hst & Hh & Hcl)%elem_of_plan_links.
    split; apply (ro_avoids _ _ _ _ Hplan), elem_of_app.
    + left. rewrite <- Hh. by apply list_elem_of_fmap_2.
    + right. apply list_elem_of_bind. eauto.
  - split_and!; [done| |right; done]. destruct Hinv' as (Hp & Hf & _). split; [done|].
    unfold retry_failed, saturating_add. simpl. split; [unfold u_max in *; lia|].
    split_and!; [unfold u_max in *; lia|lia|]. exists now. split; [done|lia].
Qed.

(** *** Hub 1 lost: node 2 takes node 3 over, node 4 has no other hub *)

Import PanRadio.

Definition demo_retry : HubRecoveryRetryState := mkRetry demo_policy 0 None.
Definition demo_silent : radio := mkRadio ∅ ∅.

Definition demo_recovery :=
  execute_confirmed_hub_loss_recovery_with_backoff demo_inputs 12 (demo_missing, demo_retry, demo_silent).

Lemma recovery_with_backoff_witness :
  (match demo_recovery.1 with
   | Ok (Some ex) => bool_decide (((fun st => (hub st, clients st)) <$> stars (rp_desired (re_plan ex)))
                                   = [(fill_id 2, [fill_id 3])])
   | _ => false end) = true /\
  tracker_wf demo_recovery.2.1.1 /\ retry_inv demo_recovery.2.1.1 demo_recovery.2.1.2.
Proof.
  split; [vm_compute; reflexivity|].
  pose proof (recovery_with_backoff demo_inputs 12 demo_missing demo_retry demo_silent) as H.
  unfold demo_recovery.
  destruct (execute_confirmed_hub_loss_recovery_with_backoff demo_inputs 12 (demo_missing, demo_retry, demo_silent))
    as [res [[tr' r'] s']].
  destruct H as (Hwf & Hinv & _).
  - exact (proj1 (tracked_status _ _ _ demo_missing_tracked)).
  - split; [|split; [|reflexivity]].
    + unfold policy_ok, demo_retry, demo_policy, u_max. simpl. lia.
    + unfold u_max. simpl. lia.
  - unfold u_max. lia.
  - split; [exact Hwf | exact Hinv].
Defined.
