(* ===== verification/NapAdmission.v ===== *)
(** NAP client admission: the policy of [crates/blueroute-core/src/nap_admission.rs],
    the reservation ledger of [nap_admission_ledger.rs] and the owner scope of
    [nap_admission_scope.rs].

    Every ledger method runs under one mutex, so concurrent callers are a
    sequence of method calls, in any order; a call is a function of the state,
    and the theorems quantify over all sequences.  No method panics while it
    holds the lock, so it is never poisoned. *)

From S2P Require Import Prelude Order Ident Capability.
From stdpp Require Import relations.

Local Open Scope Z_scope.

(** ** Policy *)

Record NapAdmissionDecision := mkDecision {
  candidate : NodeId;
  already_attached : bool;
  connected_before : Z;
  remaining_after : Z;
  policy_ceiling : Sourced Z;
}.

Definition adm_invalid (m : string) : CoreError := core_error InvalidInput m.
Definition adm_unavailable (m : string) : CoreError := core_error CapabilityUnavailable m.
Definition adm_state (m : string) : CoreError := core_error InvalidState m.

Definition valid_id (n : NodeId) : bool := negb (all_zero (as_bytes n)).

(** The body of [for node in active_clients]. *)
Definition see_client (seen : gset NodeId) (n : NodeId) : CoreResult (gset NodeId) :=
  guard_err (negb (valid_id n) || bool_decide (n ∈ seen))
    (adm_invalid "invalid or duplicate active PANU identity")
  (Ok ({[n]} ∪ seen)).

Definition plan_nap_client_admission (host : NodeCapabilities) (active_clients : list NodeId)
    (cand : NodeId) : CoreResult NapAdmissionDecision :=
  guard_err (negb (valid_id cand)) (adm_invalid "NAP admission requires a nonzero candidate identity")
  (guard_err (negb (affirmative (adapter_usable_value host)) || negb (affirmative (can_host_pan host)))
    (adm_unavailable "local adapter or NAP capability is unavailable")
  (ceiling ← ok_or (connection_policy_ceiling host) (adm_unavailable "NAP client ceiling is unknown");
   guard_err (value ceiling =? 0) (adm_invalid "NAP client ceiling must be positive")
   (seen ← try_for_each see_client ∅ active_clients;
    before ← ok_or (if Z.of_nat (size seen) <=? u_max 16 then Some (Z.of_nat (size seen)) else None)
      (adm_invalid "observed PANU count exceeds supported range");
    guard_err (value ceiling <? before)
      (adm_state "observed PANU count exceeds local policy ceiling")
    (let attached := bool_decide (cand ∈ seen) in
     guard_err (negb attached && (before =? value ceiling))
       (adm_unavailable "local NAP client ceiling reached")
     (let after := before + (if attached then 0 else 1) in
      Ok (mkDecision cand attached before (value ceiling - after) ceiling)))))).

(** ** Ledger *)

Record NapAdmissionTicket := mkTicket { t_candidate : NodeId; generation : Z }.

Record ledger := mkLedger {
  l_host : NodeCapabilities;
  l_active : gmap NodeId Z;
  l_pending : gmap NodeId Z;
  next_generation : Z;
  closed : bool;
}.

Definition ledger_new (host : NodeCapabilities) : ledger := mkLedger host ∅ ∅ 0 false.

Definition close : stres ledger CoreError () := fun l =>
  (Ok (), mkLedger (l_host l) ∅ ∅ (next_generation l) true).

Definition owner_closed : CoreError := adm_state "NAP admission owner is closed".

Definition update_capabilities (host : NodeCapabilities) : stres ledger CoreError () := fun l =>
  if closed l then (Err owner_closed, l)
  else (Ok (), mkLedger host (l_active l) (l_pending l) (next_generation l) (closed l)).

(** [state.active.keys().chain(state.pending.keys())]. *)
Definition reserved (l : ledger) : list NodeId := keys (l_active l) ++ keys (l_pending l).

Definition reserve (cand : NodeId) : stres ledger CoreError (NapAdmissionTicket * NapAdmissionDecision) := fun l =>
  if closed l then (Err owner_closed, l)
  else if decide (is_Some (l_pending l !! cand))
  then (Err (adm_state "NAP peer admission already pending"), l)
  else if decide (is_Some (l_active l !! cand))
  then (Err (adm_state "NAP peer already attached; cannot transfer reservation ownership"), l)
  else match plan_nap_client_admission (l_host l) (reserved l) cand with
  | Err e => (Err e, l)
  | Ok d =>
      match checked_add 64 (next_generation l) 1 with
      | None => (Err (adm_state "NAP admission generation exhausted"), l)
      | Some g => (Ok (mkTicket cand g, d),
                   mkLedger (l_host l) (l_active l) (<[cand := g]> (l_pending l)) g (closed l))
      end
  end.

Definition stale_ticket : CoreError := adm_state "NAP admission ticket is stale or unknown".

Definition activate (t : NapAdmissionTicket) : stres ledger CoreError bool := fun l =>
  if closed l then (Err owner_closed, l)
  else if decide (l_active l !! t_candidate t = Some (generation t)) then (Ok false, l)
  else if decide (l_pending l !! t_candidate t = Some (generation t)) then
    match plan_nap_client_admission (l_host l) (reserved l) (t_candidate t) with
    | Err e => (Err e, l)
    | Ok _ => (Ok true, mkLedger (l_host l) (<[t_candidate t := generation t]> (l_active l))
                          (delete (t_candidate t) (l_pending l)) (next_generation l) (closed l))
    end
  else (Err stale_ticket, l).

Definition retire (t : NapAdmissionTicket) : stres ledger CoreError bool := fun l =>
  if decide (l_pending l !! t_candidate t = Some (generation t)) then
    (Ok true, mkLedger (l_host l) (l_active l) (delete (t_candidate t) (l_pending l)) (next_generation l) (closed l))
  else if decide (l_active l !! t_candidate t = Some (generation t)) then
    (Ok true, mkLedger (l_host l) (delete (t_candidate t) (l_active l)) (l_pending l) (next_generation l) (closed l))
  else (Ok false, l).

Definition counts (l : ledger) : nat * nat := (size (l_active l), size (l_pending l)).

(** ** Scope: one owner token per NAP instance *)

(** An [Arc<()>] is its address, which is not reused while a clone is held:
    [ptr_eq] is equality of tokens, and [new] gets a fresh one. *)
Record NetworkNapTicket := mkNetTicket {
  nt_network : NetworkId;
  nt_owner : positive;
  nt_inner : NapAdmissionTicket;
}.

Record NetworkNapAdmission := mkScope {
  sc_network : NetworkId;
  sc_owner : positive;
  sc_ledger : ledger;
}.

Definition scope_new (token : positive) (net : NetworkId) (host : NodeCapabilities) :
  CoreResult NetworkNapAdmission :=
  guard_err (all_zero (as_bytes net)) (adm_invalid "NAP admission requires a nonzero network identity")
  (Ok (mkScope net token (ledger_new host))).

Definition owns (s : NetworkNapAdmission) (t : NetworkNapTicket) : bool :=
  bool_decide (nt_network t = sc_network s) && bool_decide (nt_owner t = sc_owner s).

(** A method of the inner ledger. *)
Definition on_ledger {A : Type} (m : stres ledger CoreError A) : stres NetworkNapAdmission CoreError A := fun s =>
  let '(r, l) := m (sc_ledger s) in (r, mkScope (sc_network s) (sc_owner s) l).

Definition scope_reserve (cand : NodeId) :
  stres NetworkNapAdmission CoreError (NetworkNapTicket * NapAdmissionDecision) := fun s =>
  match on_ledger (reserve cand) s with
  | (Ok (t, d), s') => (Ok (mkNetTicket (sc_network s) (sc_owner s) t, d), s')
  | (Err e, s') => (Err e, s')
  end.

Definition foreign_ticket : CoreError := adm_state "NAP ticket belongs to a different network owner".

Definition scope_activate (t : NetworkNapTicket) : stres NetworkNapAdmission CoreError bool := fun s =>
  if owns s t then on_ledger (activate (nt_inner t)) s else (Err foreign_ticket, s).
Definition scope_retire (t : NetworkNapTicket) : stres NetworkNapAdmission CoreError bool := fun s =>
  if owns s t then on_ledger (retire (nt_inner t)) s else (Ok false, s).
Definition scope_close : stres NetworkNapAdmission CoreError () := on_ledger close.
Definition scope_update (host : NodeCapabilities) : stres NetworkNapAdmission CoreError () :=
  on_ledger (update_capabilities host).

(** ** The policy, exactly *)

Lemma see_clients_ok l seen :
  match try_for_each see_client seen l with
  | Ok s => s = seen ∪ list_to_set l /\ Forall (fun n => valid_id n = true) l /\ NoDup l /\
      forall n, n ∈ l -> n ∉ seen
  | Err _ => ~ (Forall (fun n => valid_id n = true) l /\ NoDup l /\ forall n, n ∈ l -> n ∉ seen)
  end.
Proof.
  revert seen. induction l as [|x l IH]; intros seen; simpl.
  { split_and!; [set_solver|constructor|constructor|by intros n ?%elem_of_nil]. }
  unfold see_client at 2. destruct (_ || _) eqn:Hg; cbn [guard_err mbind result_bind].
  - apply orb_true_iff in Hg. rewrite negb_true_iff, bool_decide_eq_true in Hg.
    intros (Hv & _ & Hs). apply Forall_cons in Hv as [Hv _]. destruct Hg as [Hg|Hg]; [congruence|].
    apply (Hs x); [by left|done].
  - apply orb_false_iff in Hg. rewrite negb_false_iff, bool_decide_eq_false in Hg. destruct Hg as [Hv Hx].
    specialize (IH ({[x]} ∪ seen)). destruct (try_for_each _ _ l) as [s|e].
    + destruct IH as (-> & Hval & Hnd & Hfresh). split_and!; [set_solver|by constructor| |].
      * constructor; [|done]. intros Hin. apply (Hfresh x Hin). set_solver.
      * intros n [->|Hin]%elem_of_cons; [done|]. intros Hs. apply (Hfresh n Hin). set_solver.
    + intros (Hval & Hnd & Hs). apply IH. apply Forall_cons in Hval as [_ Hval].
      apply NoDup_cons in Hnd as [Hxl Hnd]. split_and!; [done|done|].
      intros n Hin [->%elem_of_singleton|Hn]%elem_of_union; [done|]. apply (Hs n); [by right|done].
Qed.

(** The conditions under which a candidate is admitted. *)
Record admissible (host : NodeCapabilities) (active : list NodeId) (cand : NodeId) (c : Sourced Z) : Prop := {
  ad_cand : valid_id cand = true;
  ad_usable : adapter_usable_value host = Some true;
  ad_host : can_host_pan host = Some true;
  ad_ceiling : connection_policy_ceiling host = Some c;
  ad_positive : value c <> 0;
  ad_valid : Forall (fun n => valid_id n = true) active;
  ad_distinct : NoDup active;
  ad_range : Z.of_nat (length active) <= u_max 16;
  ad_within : Z.of_nat (length active) <= value c;
  ad_room : cand ∉ active -> Z.of_nat (length active) < value c;
}.

Lemma admission_spec host active cand :
  match plan_nap_client_admission host active cand with
  | Ok d => exists c, admissible host active cand c /\
      d = mkDecision cand (bool_decide (cand ∈ active)) (Z.of_nat (length active))
            (value c - (Z.of_nat (length active) + if decide (cand ∈ active) then 0 else 1)) c
  | Err _ => forall c, ~ admissible host active cand c
  end.
Proof.
  unfold plan_nap_client_admission.
  destruct (valid_id cand) eqn:Hc; cbn [negb guard_err]; [|intros c []; congruence].
  unfold affirmative at 1 2. destruct (decide (adapter_usable_value host = Some true)) as [Hu|Hu];
    [rewrite bool_decide_eq_true_2 by done | rewrite bool_decide_eq_false_2 by done; intros c []; congruence].
  destruct (decide (can_host_pan host = Some true)) as [Hh|Hh];
    [rewrite bool_decide_eq_true_2 by done | rewrite bool_decide_eq_false_2 by done; intros c []; congruence].
  cbn [negb orb guard_err]. destruct (connection_policy_ceiling host) as [c|] eqn:Hceil;
    cbn [ok_or mbind result_bind]; [|intros c []; congruence].
  destruct (Z.eqb_spec (value c) 0) as [Hz|Hz]; cbn [guard_err]; [intros c' []; congruence|].
  pose proof (see_clients_ok active ∅) as Hs. destruct (try_for_each _ _ active) as [s|e]; cbn [mbind result_bind].
  2:{ intros c' []. apply Hs. split_and!; [done|done|set_solver]. }
  destruct Hs as (-> & Hval & Hnd & _). rewrite (left_id_L ∅ (∪)).
  rewrite size_list_to_set by done.
  destruct (Z.leb_spec (Z.of_nat (length active)) (u_max 16)); cbn [ok_or mbind result_bind];
    [|intros c' []; lia].
  destruct (Z.ltb_spec (value c) (Z.of_nat (length active))); cbn [guard_err];
    [intros c' []; replace c' with c in * by congruence; lia|].
  destruct (decide (cand ∈ active)) as [Hin|Hnin].
  - rewrite (bool_decide_eq_true_2 (cand ∈ list_to_set active)) by (by apply elem_of_list_to_set).
    rewrite (bool_decide_eq_true_2 (cand ∈ active)) by done. cbn [negb andb guard_err].
    exists c. split; [by split|done].
  - rewrite (bool_decide_eq_false_2 (cand ∈ list_to_set active)) by (by rewrite elem_of_list_to_set).
    rewrite (bool_decide_eq_false_2 (cand ∈ active)) by done. cbn [negb andb].
    destruct (Z.eqb_spec (Z.of_nat (length active)) (value c)); cbn [guard_err].
    + intros c' []. replace c' with c in * by congruence. specialize (ad_room0 Hnin). lia.
    + exists c. split; [|done]. split; try done. intros _. lia.
Qed.

(** A NAP admits a candidate exactly when the candidate is a real identity,
    the adapter and NAP roles are affirmatively usable, the ceiling is known and
    positive, the attachments are real, distinct and no more than the ceiling,
    and there is room for the candidate or it is attached already.  The
    remaining room is then what the ceiling leaves and is never negative. *)
Theorem plan_nap_client_admission_exact (host : NodeCapabilities) (active : list NodeId) (cand : NodeId) :
  match plan_nap_client_admission host active cand with
  | Ok d => exists c, admissible host active cand c /\ policy_ceiling d = c /\
      connected_before d = Z.of_nat (length active) /\ (already_attached d = true <-> cand ∈ active) /\
      0 <= remaining_after d /\
      remaining_after d = value c - connected_before d - (if already_attached d then 0 else 1)
  | Err _ => forall c, ~ admissible host active cand c
  end.
Proof.
  pose proof (admission_spec host active cand) as H.
  destruct (plan_nap_client_admission host active cand) as [d|e]; [|done].
  destruct H as (c & Ha & ->). exists c. simpl. split_and!; try done.
  - by rewrite bool_decide_eq_true.
  - destruct Ha. case_decide as Hin; [lia|]. specialize (ad_room0 Hin). lia.
  - destruct (decide (cand ∈ active)); [rewrite bool_decide_eq_true_2 by done|rewrite bool_decide_eq_false_2 by done]; lia.
Qed.

(** ** The ledger *)

(** One call of any method, whatever it returns. *)
Inductive ledger_step (l : ledger) : ledger -> Prop :=
| step_close : ledger_step l (close l).2
| step_update host : ledger_step l (update_capabilities host l).2
| step_reserve c : ledger_step l (reserve c l).2
| step_activate t : ledger_step l (activate t l).2
| step_retire t : ledger_step l (retire t l).2.

Record ledger_inv (l : ledger) : Prop := {
  li_disjoint n : is_Some (l_active l !! n) -> l_pending l !! n = None;
  li_active n g : l_active l !! n = Some g -> 1 <= g <= next_generation l /\ valid_id n = true;
  li_pending n g : l_pending l !! n = Some g -> 1 <= g <= next_generation l /\ valid_id n = true;
  li_unique n m g : (l_active l !! n = Some g \/ l_pending l !! n = Some g) ->
    (l_active l !! m = Some g \/ l_pending l !! m = Some g) -> n = m;
  li_range : 0 <= next_generation l <= u_max 64;
  li_closed : closed l = true -> l_active l = ∅ /\ l_pending l = ∅;
}.

Lemma length_reserved l : length (reserved l) = (size (l_active l) + size (l_pending l))%nat.
Proof. unfold reserved, keys. by rewrite length_app, !length_fmap, !length_iter_map. Qed.

Lemma elem_of_reserved l n : n ∈ reserved l <-> is_Some (l_active l !! n) \/ is_Some (l_pending l !! n).
Proof. unfold reserved. by rewrite elem_of_app, !elem_of_keys. Qed.

Lemma reserve_cases c l :
  match reserve c l with
  | (Ok (t, d), l') => closed l = false /\ l_pending l !! c = None /\ l_active l !! c = None /\
      plan_nap_client_admission (l_host l) (reserved l) c = Ok d /\
      t = mkTicket c (next_generation l + 1) /\ next_generation l + 1 <= u_max 64 /\
      l' = mkLedger (l_host l) (l_active l) (<[c := next_generation l + 1]> (l_pending l))
             (next_generation l + 1) (closed l)
  | (Err _, l') => l' = l
  end.
Proof.
  unfold reserve. destruct (closed l) eqn:Hcl; [done|]. case_decide as Hp; [done|]. case_decide as Ha; [done|].
  destruct (plan_nap_client_admission _ _ _) as [d|e]; [|done].
  destruct (checked_add 64 (next_generation l) 1) as [g|] eqn:Hg; [|done].
  apply checked_add_Some in Hg as [-> Hle].
  rewrite <- eq_None_not_Some in Hp, Ha. done.
Qed.

Lemma activate_cases t l :
  match activate t l with
  | (Ok true, l') => closed l = false /\ l_pending l !! t_candidate t = Some (generation t) /\
      l_active l !! t_candidate t <> Some (generation t) /\
      (exists d, plan_nap_client_admission (l_host l) (reserved l) (t_candidate t) = Ok d) /\
      l' = mkLedger (l_host l) (<[t_candidate t := generation t]> (l_active l))
             (delete (t_candidate t) (l_pending l)) (next_generation l) (closed l)
  | (_, l') => l' = l
  end.
Proof.
  unfold activate. destruct (closed l); [done|]. case_decide; [done|]. case_decide; [|done].
  destruct (plan_nap_client_admission _ _ _) as [d|e]; [|done]. eauto 10.
Qed.

Lemma retire_cases t l :
  match retire t l with
  | (Ok true, l') =>
      (l_pending l !! t_candidate t = Some (generation t) /\
       l' = mkLedger (l_host l) (l_active l) (delete (t_candidate t) (l_pending l)) (next_generation l) (closed l)) \/
      (l_active l !! t_candidate t = Some (generation t) /\ l_pending l !! t_candidate t <> Some (generation t) /\
       l' = mkLedger (l_host l) (delete (t_candidate t) (l_active l)) (l_pending l) (next_generation l) (closed l))
  | (Ok false, l') => l' = l /\ l_pending l !! t_candidate t <> Some (generation t) /\
      l_active l !! t_candidate t <> Some (generation t)
  | (Err _, l') => False
  end.
Proof. unfold retire. case_decide; [auto|]. case_decide; auto. Qed.

Lemma ledger_new_inv host : ledger_inv (ledger_new host).
Proof.
  split; simpl; try (unfold u_max; lia); try done; intros *; rewrite ?lookup_empty; naive_solver.
Qed.

Lemma admitted_valid host active c d : plan_nap_client_admission host active c = Ok d -> valid_id c = true.
Proof.
  intros Hp. pose proof (admission_spec host active c) as H. rewrite Hp in H.
  destruct H as (ceil & Ha & _). apply Ha.
Qed.

Lemma reserve_inv c l : ledger_inv l -> ledger_inv (reserve c l).2.
Proof.
  intros Hinv. pose proof (reserve_cases c l) as Hc. destruct (reserve c l) as [[[t d]|e] l']; [|by subst].
  destruct Hc as (Hopen & Hp & Ha & Hd & _ & Hle & ->). destruct Hinv as [Id Ia Ip Iu Ir Icl]. simpl.
  split; simpl.
  - intros n Hn. rewrite lookup_insert_ne; [by apply Id|]. intros ->. rewrite Ha in Hn. by destruct Hn.
  - intros n g Hn. destruct (Ia n g Hn). split; [lia|done].
  - intros n g [[<- <-]|[_ Hn]]%lookup_insert_Some.
    + split; [lia|by eapply admitted_valid].
    + destruct (Ip n g Hn). split; [lia|done].
  - intros n m g Hn Hm.
    assert (forall k, l_active l !! k = Some g \/ <[c:=next_generation l + 1]> (l_pending l) !! k = Some g ->
      (k = c /\ g = next_generation l + 1) \/
      ((l_active l !! k = Some g \/ l_pending l !! k = Some g) /\ g <= next_generation l)) as Hk.
    { intros k [Hk|[[<- <-]|[_ Hk]]%lookup_insert_Some]; [right|by left|right].
      - split; [by left|]. destruct (Ia k g Hk). lia.
      - split; [by right|]. destruct (Ip k g Hk). lia. }
    destruct (Hk n Hn) as [[-> ?]|[Hn' ?]], (Hk m Hm) as [[-> ?]|[Hm' ?]]; [done|lia|lia|by eapply Iu].
  - lia.
  - congruence.
Qed.

Lemma activate_inv t l : ledger_inv l -> ledger_inv (activate t l).2.
Proof.
  intros Hinv. pose proof (activate_cases t l) as Hc. destruct (activate t l) as [[[]|e] l']; [|by subst|by subst].
  destruct Hc as (Hopen & Hp & _ & _ & ->). destruct Hinv as [Id Ia Ip Iu Ir Icl].
  set (c := t_candidate t) in *. set (g0 := generation t) in *. simpl.
  assert (forall k g, <[c:=g0]> (l_active l) !! k = Some g \/ delete c (l_pending l) !! k = Some g ->
    l_active l !! k = Some g \/ l_pending l !! k = Some g) as Hk.
  { intros k g [[[<- <-]|[_ Hk]]%lookup_insert_Some|[_ Hk]%lookup_delete_Some]; auto. }
  split; simpl.
  - intros n Hn. destruct (decide (n = c)) as [->|]; [apply lookup_delete_eq|].
    rewrite lookup_insert_ne in Hn by done. rewrite lookup_delete_ne by done. by apply Id.
  - intros n g [[<- <-]|[_ Hn]]%lookup_insert_Some; [by apply Ip|by apply Ia].
  - intros n g [_ Hn]%lookup_delete_Some. by apply Ip.
  - intros n m g Hn%Hk Hm%Hk. by eapply Iu.
  - done.
  - congruence.
Qed.

Lemma retire_inv t l : ledger_inv l -> ledger_inv (retire t l).2.
Proof.
  intros Hinv. pose proof (retire_cases t l) as Hc.
  destruct (retire t l) as [[[]|e] l']; [|by destruct Hc as [-> _]|done].
  destruct Hinv as [Id Ia Ip Iu Ir Icl]. simpl. destruct Hc as [[Hp ->]|(Ha & _ & ->)]; split; simpl; try done.
  - intros n Hn. apply lookup_delete_None. right. by apply Id.
  - intros n g [_ Hn]%lookup_delete_Some. by apply Ip.
  - intros n m g Hn Hm. apply (Iu n m g).
    + destruct Hn as [?|[_ ?]%lookup_delete_Some]; auto.
    + destruct Hm as [?|[_ ?]%lookup_delete_Some]; auto.
  - intros Hcl. destruct (Icl Hcl) as [-> ->]. by rewrite delete_empty.
  - intros n [g [_ Hn]%lookup_delete_Some]. apply Id. by exists g.
  - intros n g [_ Hn]%lookup_delete_Some. by apply Ia.
  - intros n m g Hn Hm. apply (Iu n m g).
    + destruct Hn as [[_ ?]%lookup_delete_Some|?]; auto.
    + destruct Hm as [[_ ?]%lookup_delete_Some|?]; auto.
  - intros Hcl. destruct (Icl Hcl) as [-> ->]. by rewrite delete_empty.
Qed.

Lemma ledger_step_inv l l' : ledger_inv l -> ledger_step l l' -> ledger_inv l'.
Proof.
  intros Hinv []; [| |by apply reserve_inv|by apply activate_inv|by apply retire_inv].
  - destruct Hinv as [_ _ _ _ Ir _]. split; simpl; try done; intros *; rewrite ?lookup_empty; naive_solver.
  - unfold update_capabilities. destruct (closed l) eqn:Hcl; [done|].
    destruct Hinv as [Id Ia Ip Iu Ir Icl]. by split; simpl.
Qed.

Lemma ledger_reach_inv host l : rtc ledger_step (ledger_new host) l -> ledger_inv l.
Proof.
  intros Hr. assert (forall a b, rtc ledger_step a b -> ledger_inv a -> ledger_inv b) as Hgen.
  { induction 1 as [|a b c Hs _ IH]; [done|]. intros Ha. apply IH. by eapply ledger_step_inv. }
  eapply Hgen; [exact Hr|apply ledger_new_inv].
Qed.

(** Admission control holds over every sequence of calls on a ledger.  A
    reservation is granted only while the ledger is open, to a peer that holds
    none, and the slots held afterwards, attached and pending, fit the ceiling in
    force; its ticket's generation is larger than that of any slot held, so
    tickets in circulation are distinct.  A refused reservation changes
    nothing. *)
Theorem reserve_within_ceiling (host : NodeCapabilities) (l : ledger) (c : NodeId) :
  rtc ledger_step (ledger_new host) l ->
  match reserve c l with
  | (Ok (t, d), l') =>
      closed l = false /\ (c ∉ reserved l) /\
      (exists ceil, connection_policy_ceiling (l_host l) = Some ceil /\
         Z.of_nat ((counts l').1 + (counts l').2) <= value ceil) /\
      counts l' = ((counts l).1, S (counts l).2) /\
      t_candidate t = c /\ l_pending l' !! c = Some (generation t) /\
      (forall n g, l_active l !! n = Some g \/ l_pending l !! n = Some g -> g < generation t)
  | (Err _, l') => l' = l
  end.
Proof.
  intros Hreach%ledger_reach_inv. pose proof (reserve_cases c l) as Hc.
  destruct (reserve c l) as [[[t d]|e] l']; [|done].
  destruct Hc as (Hopen & Hp & Ha & Hd & -> & _ & ->). simpl.
  pose proof (admission_spec (l_host l) (reserved l) c) as Hs. rewrite Hd in Hs.
  destruct Hs as (ceil & Hadm & _).
  assert (c ∉ reserved l) as Hnin.
  { rewrite elem_of_reserved, Ha, Hp. by intros [[? ?]|[? ?]]. }
  assert (size (<[c:=next_generation l + 1]> (l_pending l)) = S (size (l_pending l))) as Hsz
    by (by apply map_size_insert_None).
  split_and!; try done.
  - exists ceil. split; [apply Hadm|]. pose proof (ad_room _ _ _ _ Hadm Hnin) as Hr.
    rewrite length_reserved in Hr. unfold counts. simpl. rewrite Hsz. lia.
  - unfold counts. simpl. by rewrite Hsz.
  - by rewrite lookup_insert_eq.
  - intros n g [Hn|Hn]; [destruct (li_active _ Hreach n g Hn) | destruct (li_pending _ Hreach n g Hn)]; lia.
Qed.

(** *** Tickets *)

Record dead (t : NapAdmissionTicket) (l : ledger) : Prop := {
  de_old : generation t <= next_generation l;
  de_active : l_active l !! t_candidate t <> Some (generation t);
  de_pending : l_pending l !! t_candidate t <> Some (generation t);
}.

Lemma dead_step t l l' : ledger_step l l' -> dead t l -> dead t l'.
Proof.
  intros Hstep [Ho Ha Hp]. destruct Hstep as [|host|c|t'|t'].
  - by split; simpl; rewrite ?lookup_empty.
  - unfold update_capabilities. by destruct (closed l); split.
  - pose proof (reserve_cases c l) as Hc. destruct (reserve c l) as [[[t' d]|e] l']; [|simpl; by subst].
    destruct Hc as (_ & _ & _ & _ & _ & _ & ->). split; simpl; [lia|done|].
    intros [[_ Heq]|[_ Heq]]%lookup_insert_Some; [lia|done].
  - pose proof (activate_cases t' l) as Hc. destruct (activate t' l) as [[[]|e] l']; simpl; [|by subst|by subst].
    destruct Hc as (_ & Hp' & _ & _ & ->). split; simpl; [done| |].
    + intros [[Heq Hg]|[_ Heq]]%lookup_insert_Some; [|done]. rewrite Heq, Hg in Hp'. done.
    + by intros [_ Heq]%lookup_delete_Some.
  - pose proof (retire_cases t' l) as Hc. destruct (retire t' l) as [[[]|e] l']; simpl; [|by destruct Hc as [-> _]|done].
    destruct Hc as [[_ ->]|(_ & _ & ->)]; split; simpl; try done; by intros [_ Heq]%lookup_delete_Some.
Qed.

Lemma dead_rtc t l l' : rtc ledger_step l l' -> dead t l -> dead t l'.
Proof. induction 1 as [|a b c Hs _ IH]; [done|]. intros Hd. by apply IH, (dead_step t a). Qed.

Lemma dead_inert t l : dead t l -> retire t l = (Ok false, l) /\ exists e, activate t l = (Err e, l).
Proof.
  intros [_ Ha Hp]. unfold retire, activate. rewrite !decide_False by done. split; [done|].
  destruct (closed l); eauto.
Qed.

(** A ticket is used up by its retirement: whatever happens to the ledger
    afterwards, the peer reserving and attaching again included, retiring the
    same ticket does nothing and activating it fails without effect.  Delayed
    teardown of an old connection therefore never retires its replacement. *)
Theorem retired_ticket_inert (host : NodeCapabilities) (l l' : ledger) (t : NapAdmissionTicket) :
  rtc ledger_step (ledger_new host) l -> (retire t l).1 = Ok true -> rtc ledger_step (retire t l).2 l' ->
  retire t l' = (Ok false, l') /\ exists e, activate t l' = (Err e, l').
Proof.
  intros Hreach%ledger_reach_inv Hret Hrun. apply dead_inert, (dead_rtc t _ _ Hrun).
  pose proof (retire_cases t l) as Hc. destruct (retire t l) as [[[]|e] l1]; simpl in *; try done.
  destruct Hreach as [Id Ia Ip _ _ _].
  destruct Hc as [[Hp ->]|(Ha & Hnp & ->)]; split; simpl; try (by rewrite lookup_delete_eq); try done.
  - apply (Ip _ _ Hp).
  - intros Ha. rewrite Id in Hp; [done|]. by eexists.
  - apply (Ia _ _ Ha).
Qed.

(** Closing is final: after it no sequence of calls makes the ledger hold a
    slot again; every reservation, activation and policy update is refused with
    the closed error and retiring finds nothing. *)
Theorem closed_ledger_final (l l' : ledger) :
  rtc ledger_step (close l).2 l' ->
  closed l' = true /\ counts l' = (0%nat, 0%nat) /\
  (forall c, reserve c l' = (Err owner_closed, l')) /\ (forall t, activate t l' = (Err owner_closed, l')) /\
  (forall h, update_capabilities h l' = (Err owner_closed, l')) /\ (forall t, retire t l' = (Ok false, l')).
Proof.
  intros Hrun. assert (closed l' = true /\ l_active l' = ∅ /\ l_pending l' = ∅) as (Hcl & Ha & Hp).
  { assert (closed (close l).2 = true /\ l_active (close l).2 = ∅ /\ l_pending (close l).2 = ∅) as H0 by done.
    induction Hrun as [|a b c Hs _ IH]; [done|]. apply IH. destruct H0 as (Hc & Ha & Hp). destruct Hs; simpl; try done.
    - unfold update_capabilities. by rewrite Hc.
    - unfold reserve. by rewrite Hc.
    - unfold activate. by rewrite Hc.
    - unfold retire. by rewrite !decide_False by (by rewrite ?Ha, ?Hp, lookup_empty). }
  unfold counts, reserve, activate, update_capabilities, retire. rewrite Hcl, Ha, Hp, !map_size_empty.
  by split_and!.
Qed.

(** *** The scope: tickets of another owner *)

Inductive scope_step (s : NetworkNapAdmission) : NetworkNapAdmission -> Prop :=
| sstep_reserve c : scope_step s (scope_reserve c s).2
| sstep_activate t : scope_step s (scope_activate t s).2
| sstep_retire t : scope_step s (scope_retire t s).2
| sstep_close : scope_step s (scope_close s).2
| sstep_update h : scope_step s (scope_update h s).2.

Lemma on_ledger_owner {A : Type} (m : stres ledger CoreError A) s :
  sc_owner (on_ledger m s).2 = sc_owner s /\ sc_network (on_ledger m s).2 = sc_network s.
Proof. unfold on_ledger. by destruct (m (sc_ledger s)). Qed.

Lemma scope_step_owner s s' : scope_step s s' -> sc_owner s' = sc_owner s /\ sc_network s' = sc_network s.
Proof.
  intros [c|t|t| |h].
  - unfold scope_reserve. pose proof (on_ledger_owner (reserve c) s) as H.
    by destruct (on_ledger (reserve c) s) as [[[]|] ?].
  - unfold scope_activate. destruct (owns s t); [apply on_ledger_owner|done].
  - unfold scope_retire. destruct (owns s t); [apply on_ledger_owner|done].
  - apply on_ledger_owner.
  - apply on_ledger_owner.
Qed.

(** A restarted NAP is safe from its predecessor's callbacks: a ticket that
    any state of one owner issued is refused by every state of another owner of
    the same or another network, even for equal peers and generations. *)
Theorem foreign_owner_ticket_inert (tok tok' : positive) (net net' : NetworkId) (host host' : NodeCapabilities)
    (a0 a a' b0 b : NetworkNapAdmission) (c : NodeId) (t : NetworkNapTicket) (d : NapAdmissionDecision) :
  tok <> tok' -> scope_new tok net host = Ok a0 -> scope_new tok' net' host' = Ok b0 ->
  rtc scope_step a0 a -> scope_reserve c a = (Ok (t, d), a') -> rtc scope_step b0 b ->
  scope_activate t b = (Err foreign_ticket, b) /\ scope_retire t b = (Ok false, b).
Proof.
  intros Hne [_ [= <-]]%guard_err_Ok [_ [= <-]]%guard_err_Ok Ha Hres Hb.
  assert (forall x y, rtc scope_step x y -> sc_owner y = sc_owner x) as Hown.
  { induction 1 as [|x y z Hs _ IH]; [done|]. apply scope_step_owner in Hs as [Hs _]. congruence. }
  apply Hown in Ha, Hb. simpl in *.
  assert (nt_owner t = tok) as Ht.
  { unfold scope_reserve in Hres. destruct (on_ledger (reserve c) a) as [[[t' d']|] ?]; [|done].
    by injection Hres as <- _ _. }
  unfold scope_activate, scope_retire. assert (owns b t = false) as ->; [|done].
  unfold owns. rewrite Ht, Hb. apply andb_false_iff. right. by apply bool_decide_eq_false.
Qed.

(** *** A NAP with room for two *)

Definition nap_caps : NodeCapabilities :=
  let yes := Some (mkSourced true Measured) in
  mkCaps yes None yes None None (Some (mkSourced 2 Configured)) None None None None.
Definition demo_ledger : ledger := (activate (mkTicket (fill_id 1) 1) (reserve (fill_id 1) (ledger_new nap_caps)).2).2.

Lemma demo_ledger_reach : rtc ledger_step (ledger_new nap_caps) demo_ledger.
Proof.
  eapply rtc_l; [apply (step_reserve _ (fill_id 1))|].
  eapply rtc_l; [apply (step_activate _ (mkTicket (fill_id 1) 1))|]. apply rtc_refl.
Qed.

Lemma reserve_within_ceiling_witness :
  exists l', counts l' = (1%nat, 1%nat) /\ l' = (reserve (fill_id 2) demo_ledger).2.
Proof.
  pose proof (reserve_within_ceiling nap_caps demo_ledger (fill_id 2) demo_ledger_reach) as H.
  assert (is_ok (reserve (fill_id 2) demo_ledger).1 = true) as Hok by (vm_compute; reflexivity).
  destruct (reserve (fill_id 2) demo_ledger) as [[[t d]|e] l']; [|discriminate Hok].
  exists l'. split; [|reflexivity]. destruct H as (_ & _ & _ & Hc & _). rewrite Hc. vm_compute. reflexivity.
Defined.

Lemma retired_ticket_inert_witness :
  let t := mkTicket (fill_id 1) 1 in
  let again := (reserve (fill_id 1) (retire t demo_ledger).2).2 in
  counts again = (0%nat, 1%nat) /\ retire t again = (Ok false, again).
Proof.
  split; [vm_compute; reflexivity|].
  apply (retired_ticket_inert nap_caps demo_ledger _ (mkTicket (fill_id 1) 1)).
  - exact demo_ledger_reach.
  - vm_compute. reflexivity.
  - eapply rtc_l; [apply (step_reserve _ (fill_id 1))|]. apply rtc_refl.
Defined.

Lemma closed_ledger_final_witness :
  reserve (fill_id 2) (close demo_ledger).2 = (Err owner_closed, (close demo_ledger).2).
Proof.
  exact (proj1 (proj2 (proj2 (closed_ledger_final demo_ledger (close demo_ledger).2 (rtc_refl _ _)))) (fill_id 2)).
Defined.

Lemma foreign_owner_ticket_inert_witness :
  let old := mkScope (fill_id 9) 1 (ledger_new nap_caps) in
  let new := mkScope (fill_id 9) 2 demo_ledger in
  scope_retire (mkNetTicket (fill_id 9) 1 (mkTicket (fill_id 1) 1)) new = (Ok false, new).
Proof.
  intros old new.
  assert (is_ok (scope_reserve (fill_id 1) old).1 = true) as Hok by (vm_compute; reflexivity).
  assert (match scope_reserve (fill_id 1) old with (Ok (t, _), _) => Some t | _ => None end
    = Some (mkNetTicket (fill_id 9) 1 (mkTicket (fill_id 1) 1))) as Ht by (vm_compute; reflexivity).
  destruct (scope_reserve (fill_id 1) old) as [[[t d]|e] old'] eqn:Hres; [|discriminate Hok].
  injection Ht as Ht.
  enough (scope_retire t new = (Ok false, new)) as Hr by (rewrite Ht in Hr; exact Hr).
  apply (foreign_owner_ticket_inert 1 2 (fill_id 9) (fill_id 9) nap_caps nap_caps old old old'
    (mkScope (fill_id 9) 2 (ledger_new nap_caps)) new (fill_id 1) t d); [discriminate|reflexivity|reflexivity
    |apply rtc_refl|exact Hres|].
  eapply rtc_l; [apply (sstep_reserve _ (fill_id 1))|].
  eapply rtc_l; [apply (sstep_activate _ (mkNetTicket (fill_id 9) 2 (mkTicket (fill_id 1) 1)))|]. apply rtc_refl.
Defined.
