(* ===== verification/Membership.v ===== *)
(** Membership and trust facts: [crates/blueroute-core/src/membership.rs]. *)

From S2P Require Import Prelude Order Ident.

(** ** The membership state machine *)

Inductive MembershipState := NotMember | Joining | Member | Leaving.
#[global] Instance MembershipState_eq_dec : EqDecision MembershipState.
Proof. solve_decision. Defined.

Definition transition (self next : MembershipState) : CoreResult MembershipState :=
  let allowed := match self, next with
    | NotMember, Joining | Joining, Member | Joining, NotMember
    | Member, Leaving | Leaving, NotMember | Leaving, Member => true
    | _, _ => false
    end in
  if allowed || bool_decide (self = next) then Ok next
  else Err (core_error InvalidState "invalid membership transition from {self:?} to {next:?}").

(** ** Peers of one network *)

Record PeerMembership := mkPeer { pm_node : NodeId; member : bool; trusted : bool }.
Definition peer_new (n : NodeId) : PeerMembership := mkPeer n false false.

Record NetworkMembership := mkMembership {
  network_id : NetworkId;
  network_name : DisplayName;
  m_state : MembershipState;
  peers : gmap NodeId PeerMembership;
}.

Definition membership_new (id : NetworkId) (name : DisplayName) : NetworkMembership :=
  mkMembership id name NotMember ∅.

Definition with_peers (m : NetworkMembership) (p : gmap NodeId PeerMembership) : NetworkMembership :=
  mkMembership (network_id m) (network_name m) (m_state m) p.

Definition remember_peer (p : NodeId) (m : NetworkMembership) : bool * NetworkMembership :=
  match peers m !! p with
  | Some _ => (false, m)
  | None => (true, with_peers m (<[p := peer_new p]> (peers m)))
  end.

(** [entry(peer).or_insert(PeerMembership::new(peer))]. *)
Definition peer_or_new (p : NodeId) (m : NetworkMembership) : PeerMembership :=
  default (peer_new p) (peers m !! p).

Definition set_peer_member (p : NodeId) (b : bool) (m : NetworkMembership) : bool * NetworkMembership :=
  let e := peer_or_new p m in
  (negb (Bool.eqb (member e) b), with_peers m (<[p := mkPeer (pm_node e) b (trusted e)]> (peers m))).

Definition trust_peer (p : NodeId) (m : NetworkMembership) : bool * NetworkMembership :=
  let e := peer_or_new p m in
  (negb (trusted e), with_peers m (<[p := mkPeer (pm_node e) (member e) true]> (peers m))).

Definition untrust_peer (p : NodeId) (m : NetworkMembership) : bool * NetworkMembership :=
  match peers m !! p with
  | None => (false, m)
  | Some e => (trusted e, with_peers m (<[p := mkPeer (pm_node e) (member e) false]> (peers m)))
  end.

Definition forget_peer (p : NodeId) (m : NetworkMembership) : bool * NetworkMembership :=
  (bool_decide (is_Some (peers m !! p)), with_peers m (delete p (peers m))).

Definition is_peer_known (p : NodeId) (m : NetworkMembership) : bool := bool_decide (is_Some (peers m !! p)).
Definition is_peer_member (p : NodeId) (m : NetworkMembership) : bool :=
  match peers m !! p with Some e => member e | None => false end.
Definition is_peer_trusted (p : NodeId) (m : NetworkMembership) : bool :=
  match peers m !! p with Some e => trusted e | None => false end.
Definition trusted_peers (m : NetworkMembership) : list NodeId :=
  omap (fun kv => if trusted kv.2 then Some kv.1 else None) (iter_map (peers m)).

(** ** Remembered networks *)

Record MembershipRegistry := mkRegistry { networks : gmap NetworkId NetworkMembership }.

Definition remember_network (m : NetworkMembership) (r : MembershipRegistry) :
  option NetworkMembership * MembershipRegistry :=
  (networks r !! network_id m, mkRegistry (<[network_id m := m]> (networks r))).
Definition forget_network (id : NetworkId) (r : MembershipRegistry) :
  option NetworkMembership * MembershipRegistry :=
  (networks r !! id, mkRegistry (delete id (networks r))).

Definition network_of (id : NetworkId) (r : MembershipRegistry) : option NetworkMembership := networks r !! id.

(** A caller's change through the reference [network_mut] hands out. *)
Definition network_mut (id : NetworkId) (f : NetworkMembership -> NetworkMembership) (r : MembershipRegistry) :
  MembershipRegistry := mkRegistry (alter f id (networks r)).

(** ** The specification: what the history says of a peer *)

Inductive peer_op :=
| OpRemember (p : NodeId) | OpSetMember (p : NodeId) (b : bool)
| OpTrust (p : NodeId) | OpUntrust (p : NodeId) | OpForget (p : NodeId).

Definition run_op (o : peer_op) (m : NetworkMembership) : bool * NetworkMembership :=
  match o with
  | OpRemember p => remember_peer p m
  | OpSetMember p b => set_peer_member p b m
  | OpTrust p => trust_peer p m
  | OpUntrust p => untrust_peer p m
  | OpForget p => forget_peer p m
  end.

Definition run_ops (m : NetworkMembership) (l : list peer_op) : NetworkMembership :=
  foldl (fun m o => (run_op o m).2) m l.

Definition op_peer (o : peer_op) : NodeId :=
  match o with OpRemember p | OpSetMember p _ | OpTrust p | OpUntrust p | OpForget p => p end.

(** Known, member and trusted are three independent facts; each operation sets
    one of them, forgetting clears all, and setting membership or trust makes
    the peer known. *)
Definition fact_known (known : bool) (o : peer_op) : bool :=
  match o with OpRemember _ | OpSetMember _ _ | OpTrust _ => true | OpUntrust _ => known | OpForget _ => false end.
Definition fact_member (mem : bool) (o : peer_op) : bool :=
  match o with OpSetMember _ b => b | OpForget _ => false | _ => mem end.
Definition fact_trusted (tr : bool) (o : peer_op) : bool :=
  match o with OpTrust _ => true | OpUntrust _ | OpForget _ => false | _ => tr end.

Definition about (p : NodeId) (l : list peer_op) : list peer_op :=
  List.filter (fun o => bool_decide (op_peer o = p)) l.

Definition peers_keyed (m : NetworkMembership) : Prop :=
  forall p e, peers m !! p = Some e -> pm_node e = p.

(** ** Facts *)

Lemma run_op_same p o m :
  op_peer o = p ->
  is_peer_known p (run_op o m).2 = fact_known (is_peer_known p m) o /\
  is_peer_member p (run_op o m).2 = fact_member (is_peer_member p m) o /\
  is_peer_trusted p (run_op o m).2 = fact_trusted (is_peer_trusted p m) o.
Proof.
  intros <-. unfold is_peer_known, is_peer_member, is_peer_trusted.
  destruct o as [p|p b|p|p|p]; simpl;
    unfold remember_peer, set_peer_member, trust_peer, untrust_peer, forget_peer, peer_or_new;
    destruct (peers m !! p) as [[n mb tr]|] eqn:Hp; simpl;
    rewrite ?lookup_insert_eq, ?lookup_delete_eq, ?Hp; simpl; done.
Qed.

Lemma run_op_other p o m : op_peer o <> p -> peers (run_op o m).2 !! p = peers m !! p.
Proof.
  intros Hne. destruct o as [q|q b|q|q|q]; simpl in *;
    unfold remember_peer, set_peer_member, trust_peer, untrust_peer, forget_peer; simpl;
    try (destruct (peers m !! q)); simpl; rewrite ?lookup_insert_ne, ?lookup_delete_ne by done; done.
Qed.

Lemma run_op_keyed o m : peers_keyed m -> peers_keyed (run_op o m).2.
Proof.
  intros Hk p e. destruct (decide (op_peer o = p)) as [<-|Hne].
  - destruct o as [q|q b|q|q|q]; simpl;
      unfold remember_peer, set_peer_member, trust_peer, untrust_peer, forget_peer, peer_or_new;
      destruct (peers m !! q) as [e'|] eqn:Hq; simpl;
      rewrite ?lookup_insert_eq, ?lookup_delete_eq, ?Hq; intros [= <-]; simpl; eauto.
  - rewrite run_op_other by done. apply Hk.
Qed.

(** What a network remembers of a peer is what the history of operations on
    that peer says: trust comes only from an explicit trust that was not
    withdrawn or forgotten since, membership is the last value set since the
    peer was last forgotten, and neither ever implies the other.  The listed
    trusted peers are exactly those, in ascending order, and every entry is
    stored under its own identity. *)
Theorem peer_facts_from_history (id : NetworkId) (name : DisplayName) (l : list peer_op) (p : NodeId) :
  let m := run_ops (membership_new id name) l in
  is_peer_known p m = foldl fact_known false (about p l) /\
  is_peer_member p m = foldl fact_member false (about p l) /\
  is_peer_trusted p m = foldl fact_trusted false (about p l) /\
  (p ∈ trusted_peers m <-> is_peer_trusted p m = true) /\
  peers_keyed m /\ network_id m = id /\ m_state m = NotMember.
Proof.
  intros m. assert (forall k, is_peer_known p (run_ops (membership_new id name) k) = foldl fact_known false (about p k) /\
    is_peer_member p (run_ops (membership_new id name) k) = foldl fact_member false (about p k) /\
    is_peer_trusted p (run_ops (membership_new id name) k) = foldl fact_trusted false (about p k) /\
    peers_keyed (run_ops (membership_new id name) k)) as Hall.
  { induction k as [|o k (Hk & Hm & Ht & Hkey)] using rev_ind; [by split_and!|].
    unfold run_ops in *. rewrite foldl_snoc. unfold about. rewrite List.filter_app. simpl.
    destruct (decide (op_peer o = p)) as [Heq|Hne].
    - rewrite bool_decide_eq_true_2 by done. rewrite !foldl_snoc.
      destruct (run_op_same p o (foldl (fun m o => (run_op o m).2) (membership_new id name) k) Heq) as (-> & -> & ->).
      rewrite Hk, Hm, Ht. split_and!; [done|done|done|by apply run_op_keyed].
    - rewrite bool_decide_eq_false_2, app_nil_r by done.
      unfold is_peer_known, is_peer_member, is_peer_trusted in *. rewrite run_op_other by done.
      split_and!; [done|done|done|by apply run_op_keyed]. }
  destruct (Hall l) as (Hk & Hm & Ht & Hkey). fold m in Hk, Hm, Ht, Hkey. split_and!; try done.
  - unfold trusted_peers, is_peer_trusted. rewrite list_elem_of_omap. split.
    + intros ([q e] & Hin & He). apply elem_of_iter_map in Hin. simpl in He.
      destruct (trusted e) eqn:Hte; [|done]. injection He as ->. by rewrite Hin.
    + destruct (peers m !! p) as [e|] eqn:Hp; [|done]. intros Hte. exists (p, e).
      split; [by apply elem_of_iter_map | simpl; by rewrite Hte].
  - subst m. unfold run_ops. clear. induction l as [|o l IH] using rev_ind; [done|]. rewrite foldl_snoc.
    rewrite <- IH at 2. destruct o; simpl; unfold remember_peer, untrust_peer; try done; by case_match.
  - subst m. unfold run_ops. clear. induction l as [|o l IH] using rev_ind; [done|]. rewrite foldl_snoc.
    rewrite <- IH. destruct o; simpl; unfold remember_peer, untrust_peer; try done; by case_match.
Qed.
