(* ===== verification/Neighbor.v ===== *)
(** Untrusted candidate observations:
    [crates/blueroute-core/src/neighbor.rs]. *)

From S2P Require Import Prelude Order Ident Capability Topology.

(** ** The table *)

Definition CANDIDATE_LIFETIME_MS : Z := 120000.
Definition MAX_CANDIDATES : nat := 256.

Inductive CandidateSource := BluetoothDiscovery | PeerAdvertisement.

Record CandidateObservation := mkObservation {
  o_node : NodeId;
  o_source : CandidateSource;
  o_capabilities : NodeCapabilities;
  observed_at_ms : Z;
  expires_at_ms : Z;
}.

(** [NeighborObservations]: its one field is the candidate map. *)
Abbreviation NeighborObservations := (gmap NodeId CandidateObservation).
Definition neighbor_new : NeighborObservations := ∅.

Definition observe_candidate (local peer : NodeId) (src : CandidateSource) (caps : NodeCapabilities) (at_ms : Z)
  (t : NeighborObservations) : CoreResult bool * NeighborObservations :=
  if bool_decide (local = peer) then (Err (core_error InvalidInput "self-discovery candidate is invalid"), t)
  else match checked_add 64 at_ms CANDIDATE_LIFETIME_MS with
  | None => (Err (core_error InvalidInput "candidate timestamp overflow"), t)
  | Some expires =>
    let insert := (Ok true, <[peer := mkObservation peer src caps at_ms expires]> t) in
    match t !! peer with
    | Some previous => if (at_ms <=? observed_at_ms previous)%Z then (Ok false, t) else insert
    | None => if MAX_CANDIDATES <=? size t
              then (Err (core_error CapabilityUnavailable "candidate discovery table is full"), t)
              else insert
    end
  end.

Definition live_at (now_ms : Z) (c : CandidateObservation) : bool := (now_ms <? expires_at_ms c)%Z.

Definition candidates_at (now_ms : Z) (t : NeighborObservations) : list CandidateObservation :=
  List.filter (live_at now_ms) ((iter_map t).*2).

Definition expire (now_ms : Z) (t : NeighborObservations) : nat * NeighborObservations :=
  let kept := filter (fun kc => live_at now_ms kc.2 = true) t in
  (size t - size kept, kept).

Definition active_direct_peers (g : TopologyGraph) (local : NodeId) : gset NodeId :=
  direct_neighbors g local.

(** ** Histories *)

Inductive neighbor_op :=
| OpObserve (local peer : NodeId) (src : CandidateSource) (caps : NodeCapabilities) (at_ms : Z)
| OpExpire (now_ms : Z).

Definition run_neighbor_op (o : neighbor_op) (t : NeighborObservations) : NeighborObservations :=
  match o with
  | OpObserve local peer src caps at_ms => (observe_candidate local peer src caps at_ms t).2
  | OpExpire now_ms => (expire now_ms t).2
  end.

Definition run_neighbor_ops (l : list neighbor_op) : NeighborObservations :=
  foldl (fun t o => run_neighbor_op o t) neighbor_new l.

(** An entry comes from an observation of that very peer, by another node. *)
Definition entry_observed (l : list neighbor_op) (p : NodeId) (c : CandidateObservation) : Prop :=
  o_node c = p /\ expires_at_ms c = (observed_at_ms c + CANDIDATE_LIFETIME_MS)%Z /\
  (expires_at_ms c <= u_max 64)%Z /\
  exists local, local <> p /\ OpObserve local p (o_source c) (o_capabilities c) (observed_at_ms c) ∈ l.

Definition table_ok (l : list neighbor_op) (t : NeighborObservations) : Prop :=
  size t <= MAX_CANDIDATES /\ map_Forall (entry_observed l) t.

(** ** Facts *)

Lemma observe_candidate_cases local peer src caps at_ms t r t' :
  observe_candidate local peer src caps at_ms t = (r, t') ->
  (r <> Ok true /\ t' = t) \/
  (r = Ok true /\ local <> peer /\ (at_ms + CANDIDATE_LIFETIME_MS <= u_max 64)%Z /\
   t' = <[peer := mkObservation peer src caps at_ms (at_ms + CANDIDATE_LIFETIME_MS)]> t /\
   match t !! peer with
   | Some old => (observed_at_ms old < at_ms)%Z
   | None => size t < MAX_CANDIDATES
   end).
Proof.
  unfold observe_candidate. case_bool_decide as Hself; [intros [= <- <-]; by left|].
  destruct (checked_add 64 at_ms CANDIDATE_LIFETIME_MS) as [x|] eqn:Hadd; [|intros [= <- <-]; by left].
  apply checked_add_Some in Hadd as [-> Hle].
  destruct (t !! peer) as [old|].
  - destruct (Z.leb_spec at_ms (observed_at_ms old)); intros [= <- <-]; [by left|]. right. by split_and!.
  - destruct (Nat.leb_spec MAX_CANDIDATES (size t)); intros [= <- <-]; [by left|]. right. by split_and!.
Qed.

Lemma entry_observed_more l o p c : entry_observed l p c -> entry_observed (l ++ [o]) p c.
Proof.
  intros (Hn & He & Hm & local & Hl & Hin). split_and!; try done. exists local. split; [done|].
  apply elem_of_app. by left.
Qed.

Lemma run_neighbor_op_ok l o t : table_ok l t -> table_ok (l ++ [o]) (run_neighbor_op o t).
Proof.
  intros [Hsz Hall].
  assert (map_Forall (entry_observed (l ++ [o])) t) as Hall'.
  { intros p c Hp. by apply entry_observed_more, Hall. }
  destruct o as [local peer src caps at_ms|now_ms]; cbn [run_neighbor_op].
  - destruct (observe_candidate local peer src caps at_ms t) as [r t'] eqn:Ho.
    apply observe_candidate_cases in Ho as [[_ ->]|(_ & Hne & Hle & -> & Hcap)]; [by split|].
    split; cbn [snd].
    + rewrite map_size_insert. destruct (t !! peer); simpl; lia.
    + apply map_Forall_insert_2; [|done]. split_and!; try done. exists local. split; [done|].
      apply elem_of_app. right. by apply list_elem_of_singleton.
  - split; cbn [expire snd].
    + etrans; [|exact Hsz]. apply map_subseteq_size, map_filter_subseteq.
    + intros p c [Hp _]%map_lookup_filter_Some. by apply Hall'.
Qed.

Lemma run_neighbor_ops_ok l : table_ok l (run_neighbor_ops l).
Proof.
  induction l as [|o l IH] using rev_ind; [split; [by apply Nat.leb_le; vm_compute | apply map_Forall_empty]|].
  unfold run_neighbor_ops in *. rewrite foldl_snoc. by apply run_neighbor_op_ok.
Qed.

Lemma elem_of_candidates_at now_ms t c :
  c ∈ candidates_at now_ms t <-> live_at now_ms c = true /\ exists p, t !! p = Some c.
Proof.
  unfold candidates_at. rewrite list_elem_of_In, filter_In, <- list_elem_of_In, list_elem_of_fmap.
  split.
  - intros [([p c'] & -> & Hin%elem_of_iter_map) Hl]. eauto.
  - intros [Hl [p Hp]]. split; [|done]. exists (p, c). split; [done|]. by apply elem_of_iter_map.
Qed.

(** Whatever devices are discovered and whatever peers claim, the candidate
    table holds at most 256 entries, each stored under its own node, each from
    an observation of that node by some other node, and each expiring 120
    seconds after it was observed, within 64 bits.  A further observation
    either changes nothing or stores a strictly newer entry for that one peer;
    expiry drops exactly the entries that are no longer offered at that time,
    reports how many, and offering candidates uses the same rule. *)
Theorem neighbor_table_from_history (l : list neighbor_op) (local peer : NodeId) (src : CandidateSource)
    (caps : NodeCapabilities) (at_ms now_ms : Z) :
  let t := run_neighbor_ops l in
  let (r, t') := observe_candidate local peer src caps at_ms t in
  let (gone, kept) := expire now_ms t in
  size t <= MAX_CANDIDATES /\ map_Forall (entry_observed l) t /\
  (r <> Ok true -> t' = t) /\
  (r = Ok true -> (forall p, p <> peer -> t' !! p = t !! p) /\
     exists c, t' !! peer = Some c /\ observed_at_ms c = at_ms /\
       forall old, t !! peer = Some old -> (observed_at_ms old < at_ms)%Z) /\
  (forall p c, kept !! p = Some c <-> t !! p = Some c /\ (now_ms < observed_at_ms c + CANDIDATE_LIFETIME_MS)%Z) /\
  gone + size kept = size t /\
  (forall c, c ∈ candidates_at now_ms t <-> exists p, kept !! p = Some c).
Proof.
  intros t. destruct (run_neighbor_ops_ok l) as [Hsz Hall]. fold t in Hsz, Hall.
  destruct (observe_candidate local peer src caps at_ms t) as [r t'] eqn:Ho.
  destruct (expire now_ms t) as [gone kept] eqn:He. unfold expire in He. injection He as <- <-.
  split_and!; try done.
  - intros Hr. by apply observe_candidate_cases in Ho as [[_ ->]|[? _]].
  - intros Hr. apply observe_candidate_cases in Ho as [[? _]|(_ & _ & _ & -> & Hold)]; [done|].
    split; [intros p Hp; by rewrite lookup_insert_ne|].
    eexists. split_and!; [by apply lookup_insert_eq|done|].
    intros old Ht. by rewrite Ht in Hold.
  - intros p c. rewrite map_lookup_filter_Some. split; intros [Hp Hc]; (split; [done|]);
      destruct (Hall p c Hp) as (_ & Hexp & _); unfold live_at in *; simpl in *.
    + apply Z.ltb_lt in Hc. lia.
    + apply Z.ltb_lt. lia.
  - assert (size (filter (fun kc : NodeId * CandidateObservation => live_at now_ms kc.2 = true) t) <= size t);
      [apply map_subseteq_size, map_filter_subseteq | lia].
  - intros c. rewrite elem_of_candidates_at. setoid_rewrite map_lookup_filter_Some. naive_solver.
Qed.
