(* ===== verification/ConnectionDeadline.v ===== *)
(** Connection deadlines and reconnect backoff:
    [crates/blueroute-protocol/src/session.rs], first half. *)

From S2P Require Import Prelude.

(** ** Stages *)

Inductive ConnectionStage := Connecting | TlsHandshake | Hello | Active | Closing.
#[global] Instance ConnectionStage_eq_dec : EqDecision ConnectionStage.
Proof. solve_decision. Defined.

Definition timeout_ms (s : ConnectionStage) : Z :=
  match s with
  | Connecting | Hello | Closing => 5000
  | TlsHandshake => 10000
  | Active => 30000
  end.

Definition MAX_CONNECT_AUTH_ATTEMPT_MS : Z :=
  timeout_ms Connecting + timeout_ms TlsHandshake + timeout_ms Hello.

Inductive DeadlineError := Expired | ClockRegression | InvalidTransition.

Record ConnectionDeadline := mkDeadline { stage : ConnectionStage; last_ms : Z; expires_ms : Z }.

(** The deadline of a stage entered at [now_ms]. *)
Definition entered (s : ConnectionStage) (now_ms : Z) : ConnectionDeadline :=
  mkDeadline s now_ms (saturating_add 64 now_ms (timeout_ms s)).

Definition deadline_new (now_ms : Z) : ConnectionDeadline := entered Connecting now_ms.

Definition check (now_ms : Z) (d : ConnectionDeadline) : result DeadlineError () :=
  guard_err (now_ms <? last_ms d)%Z ClockRegression
  (guard_err (expires_ms d <=? now_ms)%Z Expired
  (Ok ())).

Definition advance_allowed (s next : ConnectionStage) : bool :=
  match s, next with
  | Connecting, TlsHandshake | TlsHandshake, Hello | Hello, Active | Active, Closing => true
  | _, _ => false
  end.

Definition advance (next : ConnectionStage) (now_ms : Z) : stres ConnectionDeadline DeadlineError () :=
  fun d =>
  match check now_ms d with
  | Err e => (Err e, d)
  | Ok _ =>
    if advance_allowed (stage d) next then (Ok (), entered next now_ms)
    else (Err InvalidTransition, d)
  end.

Definition abort (now_ms : Z) : stres ConnectionDeadline DeadlineError () :=
  fun d =>
  if (now_ms <? last_ms d)%Z then (Err ClockRegression, d)
  else if bool_decide (stage d = Closing) then (Ok (), d)
  else (Ok (), entered Closing now_ms).

Definition authenticated_activity (now_ms : Z) : stres ConnectionDeadline DeadlineError () :=
  fun d =>
  match check now_ms d with
  | Err e => (Err e, d)
  | Ok _ =>
    if bool_decide (stage d = Active)
    then (Ok (), mkDeadline (stage d) now_ms (saturating_add 64 now_ms (timeout_ms Active)))
    else (Err InvalidTransition, d)
  end.

(** ** Backoff *)

Definition MAX_RECONNECT_ATTEMPTS : Z := 8.

Record ReconnectBackoff := mkBackoff { failed_attempts : Z }.
Definition backoff_new : ReconnectBackoff := mkBackoff 0.

(** The delay in milliseconds. *)
Definition after_failure (b : ReconnectBackoff) : option Z * ReconnectBackoff :=
  if (MAX_RECONNECT_ATTEMPTS <=? failed_attempts b)%Z then (None, b)
  else
    let multiplier := shl 64 1 (failed_attempts b) in
    let milliseconds := Z.min (250 * multiplier) 30000 in
    (Some milliseconds, mkBackoff (failed_attempts b + 1)).

Definition backoff_reset (b : ReconnectBackoff) : ReconnectBackoff := mkBackoff 0.

(** The closed form: 250 ms doubled per failure, capped at 30 s. *)
Definition retry_delay_ms (n : Z) : Z := Z.min (250 * 2 ^ n) 30000.

Lemma after_failure_spec (b : ReconnectBackoff) :
  (0 <= failed_attempts b)%Z ->
  after_failure b =
    if (failed_attempts b <? MAX_RECONNECT_ATTEMPTS)%Z
    then (Some (retry_delay_ms (failed_attempts b)), mkBackoff (failed_attempts b + 1))
    else (None, b).
Proof.
  intros Hb. unfold after_failure, retry_delay_ms, MAX_RECONNECT_ATTEMPTS in *.
  destruct (Z.leb_spec 8 (failed_attempts b)), (Z.ltb_spec (failed_attempts b) 8); try done; try lia.
  rewrite shl_mod, Z.mul_1_l, Z.mod_small; [done| |lia|lia].
  split; [lia|]. apply Z.pow_lt_mono_r; lia.
Qed.

(** ** Histories of one connection *)

Inductive deadline_op :=
| OpAdvance (next : ConnectionStage) (now_ms : Z)
| OpAbort (now_ms : Z)
| OpActivity (now_ms : Z).

Definition run_deadline_op (o : deadline_op) : stres ConnectionDeadline DeadlineError () :=
  match o with
  | OpAdvance next now_ms => advance next now_ms
  | OpAbort now_ms => abort now_ms
  | OpActivity now_ms => authenticated_activity now_ms
  end.

Definition run_deadline (start_ms : Z) (l : list deadline_op) : ConnectionDeadline :=
  foldl (fun d o => (run_deadline_op o d).2) (deadline_new start_ms) l.

(** When the connection became authenticated: the time of the accepted
    advance from [Hello] to [Active]. *)
Definition authenticated_step (acc : ConnectionDeadline * option Z) (o : deadline_op) :
  ConnectionDeadline * option Z :=
  let (r, d') := run_deadline_op o acc.1 in
  (d', match o with
       | OpAdvance Active now_ms => if is_ok r then Some now_ms else acc.2
       | _ => acc.2
       end).

Definition authenticated_at (start_ms : Z) (l : list deadline_op) : option Z :=
  (foldl authenticated_step (deadline_new start_ms, None) l).2.

(** The time after the start at which a stage has run out at the latest. *)
Definition stage_budget (s : ConnectionStage) : Z :=
  match s with
  | Connecting => timeout_ms Connecting
  | TlsHandshake => timeout_ms Connecting + timeout_ms TlsHandshake
  | Hello | Active | Closing => MAX_CONNECT_AUTH_ATTEMPT_MS
  end.

Definition deadline_ok (start_ms : Z) (d : ConnectionDeadline) (auth : option Z) : Prop :=
  (start_ms <= last_ms d)%Z /\ (expires_ms d <= last_ms d + timeout_ms (stage d))%Z /\
  match stage d with
  | Connecting | TlsHandshake | Hello =>
      auth = None /\ (expires_ms d <= start_ms + stage_budget (stage d))%Z
  | Active => exists ta, auth = Some ta /\ (start_ms <= ta < start_ms + MAX_CONNECT_AUTH_ATTEMPT_MS)%Z /\
      (ta <= last_ms d)%Z
  | Closing => True
  end.

(** ** Facts *)

Lemma check_Ok now_ms d : check now_ms d = Ok () <-> (last_ms d <= now_ms < expires_ms d)%Z.
Proof. unfold check. rewrite !guard_err_Ok, Z.ltb_ge, Z.leb_gt. naive_solver lia. Qed.

Lemma run_deadline_op_Err o d e d' : run_deadline_op o d = (Err e, d') -> d' = d.
Proof.
  destruct o as [next t|t|t]; simpl; unfold advance, abort, authenticated_activity;
    repeat case_match; intros [= <-]; done.
Qed.

Lemma run_deadline_op_Ok o d d' :
  run_deadline_op o d = (Ok (), d') ->
  match o with
  | OpAdvance next t => (last_ms d <= t < expires_ms d)%Z /\ advance_allowed (stage d) next = true /\ d' = entered next t
  | OpAbort t => (last_ms d <= t)%Z /\ d' = if bool_decide (stage d = Closing) then d else entered Closing t
  | OpActivity t => (last_ms d <= t < expires_ms d)%Z /\ stage d = Active /\ d' = entered Active t
  end.
Proof.
  destruct o as [next t|t|t]; simpl; unfold advance, abort, authenticated_activity.
  - destruct (check t d) as [[]|e] eqn:Hc; [|done]. apply check_Ok in Hc.
    destruct (advance_allowed _ _); [|done]. by intros [= <-].
  - destruct (Z.ltb_spec t (last_ms d)); [done|]. case_bool_decide; intros [= <-]; done.
  - destruct (check t d) as [[]|e] eqn:Hc; [|done]. apply check_Ok in Hc.
    case_bool_decide as Hs; [|done]. intros [= <-]. rewrite Hs. done.
Qed.

Lemma entered_expires s t : (expires_ms (entered s t) <= t + timeout_ms s)%Z.
Proof. unfold entered, saturating_add; simpl. lia. Qed.

Lemma authenticated_step_ok start_ms acc o :
  deadline_ok start_ms acc.1 acc.2 ->
  deadline_ok start_ms (authenticated_step acc o).1 (authenticated_step acc o).2.
Proof.
  destruct acc as [d auth]. unfold authenticated_step; simpl. intros (Hlast & Hexp & Hst).
  destruct (run_deadline_op o d) as [[[]|e] d'] eqn:Ho; simpl.
  2:{ apply run_deadline_op_Err in Ho as ->. by destruct o as [[]| |]. }
  apply run_deadline_op_Ok in Ho. destruct o as [next t|t|t].
  - destruct Ho as (Ht & Ha & ->). pose proof (entered_expires next t) as He.
    destruct (stage d), next; simpl in Ha; try done; simpl in *;
      (split_and!; simpl; [lia|done|]);
      unfold MAX_CONNECT_AUTH_ATTEMPT_MS in *; simpl in *; destruct_and?; try done;
      try (split; [done|lia]).
    exists t. split; [done|lia].
  - destruct Ho as [Ht ->]. case_bool_decide as Hc; [by split_and!|].
    split_and!; simpl; [lia|apply (entered_expires Closing)|done].
  - destruct Ho as (Ht & Hs & ->). rewrite Hs in Hst. destruct Hst as (ta & -> & Hta & Hle).
    split_and!; simpl; [lia|apply (entered_expires Active)|]. exists ta. split_and!; [done|lia|lia|lia].
Qed.

Lemma authenticated_run start_ms l :
  (foldl authenticated_step (deadline_new start_ms, None) l).1 = run_deadline start_ms l.
Proof.
  unfold run_deadline. induction l as [|o l IH] using rev_ind; [done|].
  rewrite !foldl_snoc, <- IH. unfold authenticated_step. by destruct (run_deadline_op _ _).
Qed.

Lemma run_deadline_ok start_ms l :
  deadline_ok start_ms (run_deadline start_ms l) (authenticated_at start_ms l).
Proof.
  rewrite <- authenticated_run. unfold authenticated_at.
  induction l as [|o l IH] using rev_ind; [|rewrite foldl_snoc; by apply authenticated_step_ok].
  pose proof (entered_expires Connecting start_ms). by split_and!.
Qed.

Lemma closing_final o d : stage d = Closing -> (run_deadline_op o d).2 = d.
Proof.
  intros Hs. destruct (run_deadline_op o d) as [[[]|e] d'] eqn:Ho; simpl.
  - apply run_deadline_op_Ok in Ho. destruct o as [next t|t|t].
    + destruct Ho as (_ & Ha & _). rewrite Hs in Ha. by destruct next.
    + destruct Ho as [_ ->]. by rewrite bool_decide_eq_true_2.
    + destruct Ho as (_ & Ha & _). by rewrite Hs in Ha.
  - by apply run_deadline_op_Err in Ho.
Qed.

(** However a connection is driven, it is authenticated only less than 20
    seconds after it was started (the sum of the three stage budgets), an
    unauthenticated stage passes its check only inside its share of that
    budget, and an active one only within 30 seconds of its last
    authenticated message.  A refused operation changes nothing, the recorded
    clock never goes back, and once closing, nothing extends the cleanup
    deadline. *)
Theorem connection_deadline_budget (start_ms now_ms : Z) (l : list deadline_op) (o : deadline_op) :
  let d := run_deadline start_ms l in
  let (r, d') := run_deadline_op o d in
  (stage d = Active -> exists ta, authenticated_at start_ms l = Some ta /\
     (start_ms <= ta < start_ms + MAX_CONNECT_AUTH_ATTEMPT_MS)%Z) /\
  (check now_ms d = Ok () -> (last_ms d <= now_ms < last_ms d + timeout_ms (stage d))%Z /\
     (stage d <> Active -> stage d <> Closing -> (now_ms < start_ms + stage_budget (stage d))%Z)) /\
  (forall e, r = Err e -> d' = d) /\
  (last_ms d <= last_ms d')%Z /\
  (stage d = Closing -> d' = d).
Proof.
  intros d. destruct (run_deadline_ok start_ms l) as (Hlast & Hexp & Hst). fold d in Hlast, Hexp, Hst.
  destruct (run_deadline_op o d) as [r d'] eqn:Ho. split_and!.
  - intros Ha. rewrite Ha in Hst. naive_solver.
  - intros Hc%check_Ok. split; [lia|]. intros Ha Hcl. destruct (stage d); try done; destruct_and?; lia.
  - intros e ->. by apply run_deadline_op_Err in Ho.
  - destruct r as [[]|e]; [|apply run_deadline_op_Err in Ho as ->; lia].
    apply run_deadline_op_Ok in Ho. destruct o; destruct_and?; subst; simpl; try lia.
    case_bool_decide; simpl; lia.
  - intros Hs. pose proof (closing_final o d Hs) as Hc. by rewrite Ho in Hc.
Qed.
