(* ===== verification/SessionRegistry.v ===== *)
(** The control-session registry: [crates/blueroute-protocol/src/session.rs],
    [PeerSessionKey] to [ControlSessionRegistry]. *)

From S2P Require Import Prelude Ident.

Definition MAX_CONTROL_SESSIONS : nat := 128.
Definition MAX_RECENT_SESSION_IDS : nat := 4096.

(** ** Keys and entries *)

Record PeerSessionKey := mkKey { k_network : NetworkId; k_peer : NodeId }.
#[global] Instance PeerSessionKey_eq_dec : EqDecision PeerSessionKey.
Proof. solve_decision. Defined.
#[global] Program Instance PeerSessionKey_countable : Countable PeerSessionKey :=
  inj_countable' (fun k => (k_network k, k_peer k)) (fun p => mkKey p.1 p.2) _.
Next Obligation. by intros []. Qed.

Definition key_is_valid (k : PeerSessionKey) : bool :=
  negb (bool_decide (k_network k = zero_id)) && negb (bool_decide (k_peer k = zero_id)).

Abbreviation SessionId := (bytes 16).

Inductive SessionPhase := Active | Lost | Reconnecting.
#[global] Instance SessionPhase_eq_dec : EqDecision SessionPhase.
Proof. solve_decision. Defined.

Record SessionEntry := mkEntry { e_session : SessionId; phase : SessionPhase }.

Inductive SessionRegistration := New | AlreadyActive | Recovered.
Inductive SessionRegistryError :=
| InvalidPeerIdentity | ZeroSessionId | DuplicateActiveSession | SessionLimitReached | ReusedSessionId.

Record ControlSessionRegistry := mkSessions {
  sessions : gmap PeerSessionKey SessionEntry;
  recent_session_ids : list SessionId;
  seen_session_ids : gset SessionId;
}.
Definition registry_new : ControlSessionRegistry := mkSessions ∅ [] ∅.
Definition with_sessions (r : ControlSessionRegistry) (m : gmap PeerSessionKey SessionEntry) :=
  mkSessions m (recent_session_ids r) (seen_session_ids r).

(** ** Operations *)

Definition remember_session_id (id : SessionId) (r : ControlSessionRegistry) : ControlSessionRegistry :=
  let '(recent, seen) :=
    if length (recent_session_ids r) =? MAX_RECENT_SESSION_IDS
    then match recent_session_ids r with
         | oldest :: rest => (rest, seen_session_ids r ∖ {[oldest]})
         | [] => ([], seen_session_ids r)
         end
    else (recent_session_ids r, seen_session_ids r) in
  mkSessions (sessions r) (recent ++ [id]) ({[id]} ∪ seen).

(** [sessions.iter().any(|(other, existing)| ...)] *)
Definition held_by_other (key : PeerSessionKey) (id : SessionId) (r : ControlSessionRegistry) : bool :=
  existsb (fun ke => negb (bool_decide (ke.1 = key)) && bool_decide (e_session ke.2 = id)) (map_to_list (sessions r)).

Definition activate_after_authentication (key : PeerSessionKey) (id : SessionId) :
  stres ControlSessionRegistry SessionRegistryError SessionRegistration := fun r =>
  if negb (key_is_valid key) then (Err InvalidPeerIdentity, r)
  else if all_zero id then (Err ZeroSessionId, r)
  else
    let fresh :=
      if held_by_other key id r then (Err DuplicateActiveSession, r)
      else if bool_decide (id ∈ seen_session_ids r) then (Err ReusedSessionId, r)
      else
        let r' := remember_session_id id (with_sessions r (<[key := mkEntry id Active]> (sessions r))) in
        match sessions r !! key with
        | Some _ => (Ok Recovered, r')
        | None => if MAX_CONTROL_SESSIONS <=? size (sessions r) then (Err SessionLimitReached, r) else (Ok New, r')
        end in
    match sessions r !! key with
    | Some existing =>
      if bool_decide (phase existing = Active)
      then (if bool_decide (e_session existing = id) then Ok AlreadyActive else Err DuplicateActiveSession, r)
      else if bool_decide (e_session existing = id) then (Err DuplicateActiveSession, r)
      else fresh
    | None => fresh
    end.

Definition set_phase (key : PeerSessionKey) (e : SessionEntry) (p : SessionPhase) (r : ControlSessionRegistry) :=
  with_sessions r (<[key := mkEntry (e_session e) p]> (sessions r)).

Definition mark_lost (key : PeerSessionKey) (id : SessionId) (r : ControlSessionRegistry) :
  bool * ControlSessionRegistry :=
  match sessions r !! key with
  | None => (false, r)
  | Some e =>
    if negb (bool_decide (e_session e = id)) || bool_decide (phase e = Lost) then (false, r)
    else (true, set_phase key e Lost r)
  end.

Definition mark_reconnecting (key : PeerSessionKey) (id : SessionId) (r : ControlSessionRegistry) :
  bool * ControlSessionRegistry :=
  match sessions r !! key with
  | None => (false, r)
  | Some e =>
    if negb (bool_decide (e_session e = id)) || negb (bool_decide (phase e = Lost)) then (false, r)
    else (true, set_phase key e Reconnecting r)
  end.

Definition remove_if_current (key : PeerSessionKey) (id : SessionId) (r : ControlSessionRegistry) :
  bool * ControlSessionRegistry :=
  match sessions r !! key with
  | Some e => if bool_decide (e_session e = id) then (true, with_sessions r (delete key (sessions r))) else (false, r)
  | None => (false, r)
  end.

(** ** Histories *)

Inductive session_op :=
| OpActivate (key : PeerSessionKey) (id : SessionId)
| OpLost (key : PeerSessionKey) (id : SessionId)
| OpReconnecting (key : PeerSessionKey) (id : SessionId)
| OpRemove (key : PeerSessionKey) (id : SessionId).

(** The registry and the identifiers it has freshly activated, oldest first. *)
Definition session_step (acc : ControlSessionRegistry * list SessionId) (o : session_op) :
  ControlSessionRegistry * list SessionId :=
  let (r, log) := acc in
  match o with
  | OpActivate key id =>
    let (res, r') := activate_after_authentication key id r in
    (r', match res with Ok New | Ok Recovered => log ++ [id] | _ => log end)
  | OpLost key id => ((mark_lost key id r).2, log)
  | OpReconnecting key id => ((mark_reconnecting key id r).2, log)
  | OpRemove key id => ((remove_if_current key id r).2, log)
  end.

Definition run_sessions (l : list session_op) : ControlSessionRegistry * list SessionId :=
  foldl session_step (registry_new, []) l.

Definition last_n {A : Type} (n : nat) (l : list A) : list A := drop (length l - n) l.

Definition sessions_ok (r : ControlSessionRegistry) (log : list SessionId) : Prop :=
  size (sessions r) <= MAX_CONTROL_SESSIONS /\
  map_Forall (fun k e => key_is_valid k = true /\ all_zero (e_session e) = false /\ e_session e ∈ log) (sessions r) /\
  (forall k k' e e', sessions r !! k = Some e -> sessions r !! k' = Some e' -> e_session e = e_session e' -> k = k') /\
  recent_session_ids r = last_n MAX_RECENT_SESSION_IDS log /\ NoDup (recent_session_ids r) /\
  seen_session_ids r = list_to_set (recent_session_ids r).

(** ** Facts *)

Lemma held_by_other_false key id r :
  held_by_other key id r = false <->
  forall k e, sessions r !! k = Some e -> e_session e = id -> k = key.
Proof.
  unfold held_by_other. rewrite <- not_true_iff_false, existsb_exists. split.
  - intros Hno k e Hk He. destruct (decide (k = key)) as [|Hne]; [done|]. exfalso. apply Hno.
    exists (k, e). rewrite <- list_elem_of_In, elem_of_map_to_list. split; [done|].
    simpl. by rewrite bool_decide_eq_false_2, bool_decide_eq_true_2.
  - intros Hall ([k e] & Hin%list_elem_of_In%elem_of_map_to_list & [Hk He]%andb_true_iff). simpl in *.
    apply bool_decide_eq_true in He. by rewrite bool_decide_eq_true_2 in Hk by eauto.
Qed.

Lemma last_n_snoc {A : Type} (n : nat) (l : list A) (x : A) :
  0 < n ->
  last_n n (l ++ [x]) =
    (if length (last_n n l) =? n then tail (last_n n l) else last_n n l) ++ [x].
Proof.
  intros Hn. unfold last_n. rewrite length_drop, length_app. simpl.
  destruct (Nat.eqb_spec (length l - (length l - n)) n) as [Heq|Hne].
  - replace (length l + 1 - n) with (S (length l - n)) by lia.
    rewrite drop_app_le by lia. f_equal.
    replace (S (length l - n)) with (length l - n + 1) by lia. rewrite <- drop_drop.
    by destruct (drop (length l - n) l).
  - replace (length l + 1 - n) with 0 by lia. by replace (length l - n) with 0 by lia.
Qed.

Lemma remember_session_id_spec id r :
  seen_session_ids r = list_to_set (recent_session_ids r) -> NoDup (recent_session_ids r) ->
  id ∉ seen_session_ids r ->
  let r' := remember_session_id id r in
  sessions r' = sessions r /\
  recent_session_ids r' =
    (if length (recent_session_ids r) =? MAX_RECENT_SESSION_IDS
     then tail (recent_session_ids r) else recent_session_ids r) ++ [id] /\
  NoDup (recent_session_ids r') /\ seen_session_ids r' = list_to_set (recent_session_ids r').
Proof.
  intros Hseen Hnd Hid. unfold remember_session_id. rewrite Hseen in *. apply not_elem_of_list_to_set in Hid.
  destruct (length (recent_session_ids r) =? MAX_RECENT_SESSION_IDS).
  - destruct (recent_session_ids r) as [|old rest] eqn:Hrec; simpl.
    + split_and!; try done; apply NoDup_singleton.
    + apply NoDup_cons in Hnd as [Hold Hnd]. apply not_elem_of_cons in Hid as [Hne Hid].
      split_and!; try done.
      * apply NoDup_app. split_and!; [done|set_solver|apply NoDup_singleton].
      * rewrite list_to_set_app_L. simpl. set_solver.
  - simpl. split_and!; try done.
    + apply NoDup_app. split_and!; [done|set_solver|apply NoDup_singleton].
    + rewrite list_to_set_app_L. simpl. set_solver.
Qed.

(** What a fresh activation requires and does. *)
Definition activates (key : PeerSessionKey) (id : SessionId) (r : ControlSessionRegistry) : Prop :=
  key_is_valid key = true /\ all_zero id = false /\
  (forall k e, sessions r !! k = Some e -> e_session e <> id) /\
  (id ∉ seen_session_ids r) /\
  match sessions r !! key with
  | Some e => phase e <> Active
  | None => size (sessions r) < MAX_CONTROL_SESSIONS
  end.

Definition activated_registry (key : PeerSessionKey) (id : SessionId) (r : ControlSessionRegistry) :=
  remember_session_id id (with_sessions r (<[key := mkEntry id Active]> (sessions r))).

Lemma activate_spec key id r res r' :
  activate_after_authentication key id r = (res, r') ->
  (activates key id r /\ r' = activated_registry key id r /\
   res = Ok (if sessions r !! key is Some _ then Recovered else New)) \/
  (~ activates key id r /\ r' = r /\
   forall x, res = Ok x -> x = AlreadyActive /\ sessions r !! key = Some (mkEntry id Active)).
Proof.
  unfold activate_after_authentication, activates.
  destruct (key_is_valid key) eqn:Hk; cbn [negb].
  2:{ intros [= <- <-]. right. split_and!; [intros (? & _)|done|]; done. }
  destruct (all_zero id) eqn:Hz.
  { intros [= <- <-]. right. split_and!; [intros (_ & ? & _)|done|]; done. }
  assert (held_by_other key id r = true ->
    ~ forall k e, sessions r !! k = Some e -> e_session e <> id) as Hheld.
  { intros Ht Hno. rewrite (proj2 (held_by_other_false key id r)) in Ht; [done|].
    intros k e Hke He. by destruct (Hno k e Hke). }
  destruct (sessions r !! key) as [[old ph]|] eqn:He; cbn [phase e_session].
  - case_bool_decide as Hph; [|case_bool_decide as Hold].
    + case_bool_decide as Hold; intros [= <- <-]; right; split_and!; try done;
        try (intros (_ & _ & _ & _ & Hno); done). intros x [= <-]. by subst.
    + intros [= <- <-]. right. split_and!; try done. intros (_ & _ & Hno & _). by destruct (Hno key _ He).
    + destruct (held_by_other key id r) eqn:Hh.
      { intros [= <- <-]. right. split_and!; try done. intros (_ & _ & Hno & _). by apply Hheld. }
      rewrite held_by_other_false in Hh. case_bool_decide as Hseen.
      { intros [= <- <-]. right. split_and!; try done. intros (_ & _ & _ & Hno & _). done. }
      intros [= <- <-]. left. split_and!; try done. intros k e Hke Heq.
      pose proof (Hh k e Hke Heq); subst k. by simplify_eq.
  - destruct (held_by_other key id r) eqn:Hh.
    { intros [= <- <-]. right. split_and!; try done. intros (_ & _ & Hno & _). by apply Hheld. }
    rewrite held_by_other_false in Hh. case_bool_decide as Hseen.
    { intros [= <- <-]. right. split_and!; try done. intros (_ & _ & _ & Hno & _). done. }
    destruct (Nat.leb_spec MAX_CONTROL_SESSIONS (size (sessions r))).
    { intros [= <- <-]. right. split_and!; try done. intros (_ & _ & _ & _ & Hno). lia. }
    intros [= <- <-]. left. split_and!; try done. intros k e Hke Heq.
    pose proof (Hh k e Hke Heq); subst k. by simplify_eq.
Qed.

Lemma mark_lost_spec key id r :
  mark_lost key id r =
    match sessions r !! key with
    | Some e => if decide (e_session e = id /\ phase e <> Lost) then (true, set_phase key e Lost r) else (false, r)
    | None => (false, r)
    end.
Proof.
  unfold mark_lost. destruct (sessions r !! key) as [e|]; [|done].
  case_bool_decide; case_bool_decide; destruct (decide _); naive_solver.
Qed.

Lemma mark_reconnecting_spec key id r :
  mark_reconnecting key id r =
    match sessions r !! key with
    | Some e => if decide (e_session e = id /\ phase e = Lost) then (true, set_phase key e Reconnecting r) else (false, r)
    | None => (false, r)
    end.
Proof.
  unfold mark_reconnecting. destruct (sessions r !! key) as [e|]; [|done].
  case_bool_decide; case_bool_decide; destruct (decide _); naive_solver.
Qed.

(** The entries of [m] hold sessions that [r] holds under the same keys. *)
Definition same_sessions (m : gmap PeerSessionKey SessionEntry) (r : ControlSessionRegistry) : Prop :=
  size m <= size (sessions r) /\
  forall k e, m !! k = Some e -> exists e', sessions r !! k = Some e' /\ e_session e' = e_session e.

Lemma same_sessions_ok m r log : same_sessions m r -> sessions_ok r log -> sessions_ok (with_sessions r m) log.
Proof.
  intros [Hsz Hm] (Hle & Hent & Huniq & Hrec & Hnd & Hseen). split_and!; [simpl; lia| | |done|done|done].
  - intros k e (e' & He' & Heq)%Hm. rewrite <- Heq. by apply Hent.
  - intros k k' e e' (f & Hf & Hfe)%Hm (f' & Hf' & Hfe')%Hm Heq. eapply Huniq; [exact Hf|exact Hf'|congruence].
Qed.

Lemma set_phase_same key e p r :
  sessions r !! key = Some e -> same_sessions (sessions (set_phase key e p r)) r.
Proof.
  intros He. split; simpl.
  - rewrite map_size_insert, He. done.
  - intros k f [[<- <-]|[Hne Hf]]%lookup_insert_Some; eauto.
Qed.

Lemma delete_same key r : same_sessions (delete key (sessions r)) r.
Proof.
  split; [apply map_subseteq_size, delete_subseteq|].
  intros k e [_ He]%lookup_delete_Some. eauto.
Qed.

Lemma session_step_ok r log o :
  sessions_ok r log -> sessions_ok (session_step (r, log) o).1 (session_step (r, log) o).2.
Proof.
  intros Hok. destruct o as [key id|key id|key id|key id]; simpl.
  - destruct (activate_after_authentication key id r) as [res r'] eqn:Ha.
    apply activate_spec in Ha as [(Hact & -> & ->)|(_ & -> & Hno)].
    2:{ destruct res as [[]|]; simpl; try done; by destruct (Hno _ eq_refl). }
    destruct Hok as (Hle & Hent & Huniq & Hrec & Hnd & Hseen).
    destruct Hact as (Hk & Hz & Hother & Hfresh & Hcap).
    assert (match (if sessions r !! key is Some _ then Recovered else New) with
            | New | Recovered => log ++ [id] | AlreadyActive => log end = log ++ [id]) as Hlog
      by (by destruct (sessions r !! key)).
    cbn [fst snd]. rewrite Hlog. unfold activated_registry.
    destruct (remember_session_id_spec id (with_sessions r (<[key := mkEntry id Active]> (sessions r))))
      as (Hs & Hr & Hn & Hse); [done|done|done|].
    set (r' := remember_session_id _ _) in *. simpl in Hs, Hr.
    split_and!; [| | | |done|done].
    + rewrite Hs, map_size_insert. destruct (sessions r !! key); simpl; lia.
    + rewrite Hs. apply map_Forall_insert_2.
      * split_and!; [done|done|simpl; set_solver].
      * intros k e He. destruct (Hent k e He) as (? & ? & ?). split_and!; [done|done|set_solver].
    + rewrite Hs. intros k k' e e' [[<- <-]|[Hk1 He]]%lookup_insert_Some
        [[<- <-]|[Hk2 He']]%lookup_insert_Some Heq; simpl in *.
      * done.
      * by destruct (Hother k' e').
      * by destruct (Hother k e).
      * by eapply Huniq.
    + rewrite Hr, Hrec. symmetry. apply last_n_snoc. apply Nat.ltb_lt. by vm_compute.
  - rewrite mark_lost_spec. destruct (sessions r !! key) as [e|] eqn:He; [|done].
    destruct (decide _); [|done]. apply (same_sessions_ok (sessions (set_phase key e Lost r))), Hok. by apply set_phase_same.
  - rewrite mark_reconnecting_spec. destruct (sessions r !! key) as [e|] eqn:He; [|done].
    destruct (decide _); [|done]. apply (same_sessions_ok (sessions (set_phase key e Reconnecting r))), Hok. by apply set_phase_same.
  - unfold remove_if_current. destruct (sessions r !! key) as [e|] eqn:He; [|done].
    case_bool_decide; [|done]. apply same_sessions_ok, Hok. apply delete_same.
Qed.

Lemma run_sessions_ok l : sessions_ok (run_sessions l).1 (run_sessions l).2.
Proof.
  unfold run_sessions. induction l as [|o l IH] using rev_ind.
  - split_and!; try done; [apply Nat.leb_le; by vm_compute | apply NoDup_nil_2].
  - rewrite foldl_snoc. destruct (foldl _ _ l) as [r log]. by apply session_step_ok.
Qed.

Definition op_target (o : session_op) : PeerSessionKey * SessionId :=
  match o with OpActivate k i | OpLost k i | OpReconnecting k i | OpRemove k i => (k, i) end.

(** The life of one peer's entry. *)
Inductive entry_step : session_op -> option SessionEntry -> option SessionEntry -> Prop :=
| es_same o e : entry_step o e e
| es_new key id : entry_step (OpActivate key id) None (Some (mkEntry id Active))
| es_recover key id old p : old <> id -> p <> Active ->
    entry_step (OpActivate key id) (Some (mkEntry old p)) (Some (mkEntry id Active))
| es_lost key id p : p <> Lost -> entry_step (OpLost key id) (Some (mkEntry id p)) (Some (mkEntry id Lost))
| es_reconnecting key id :
    entry_step (OpReconnecting key id) (Some (mkEntry id Lost)) (Some (mkEntry id Reconnecting))
| es_remove key id p : entry_step (OpRemove key id) (Some (mkEntry id p)) None.

Lemma session_step_entries r log o k :
  let r' := (session_step (r, log) o).1 in
  if decide (k = (op_target o).1) then entry_step o (sessions r !! k) (sessions r' !! k)
  else sessions r' !! k = sessions r !! k.
Proof.
  destruct o as [key id|key id|key id|key id]; simpl.
  - destruct (activate_after_authentication key id r) as [res r'] eqn:Ha. simpl.
    apply activate_spec in Ha as [(Hact & -> & _)|(_ & -> & _)].
    2:{ case_decide; [constructor|done]. }
    unfold activated_registry. replace (sessions (remember_session_id id _)) with (<[key := mkEntry id Active]> (sessions r))
      by (unfold remember_session_id; by repeat case_match).
    case_decide as Hk; [subst k; rewrite lookup_insert_eq | by rewrite lookup_insert_ne].
    destruct Hact as (_ & _ & Hother & _ & Hph). destruct (sessions r !! key) as [[old p]|] eqn:He; [|constructor].
    constructor; [by apply (Hother key (mkEntry old p)) | done].
  - rewrite mark_lost_spec. destruct (sessions r !! key) as [[old p]|] eqn:He;
      [|case_decide; subst; [constructor|done]].
    destruct (decide (e_session _ = id /\ _)) as [[Hid Hp]|]; simpl in *; subst;
      [|case_decide; subst; [constructor|done]].
    case_decide as Hk; [subst k; rewrite lookup_insert_eq, He; by constructor | by rewrite lookup_insert_ne].
  - rewrite mark_reconnecting_spec. destruct (sessions r !! key) as [[old p]|] eqn:He;
      [|case_decide; subst; [constructor|done]].
    destruct (decide (e_session _ = id /\ _)) as [[Hid Hp]|]; simpl in *; subst;
      [|case_decide; subst; [constructor|done]].
    case_decide as Hk; [subst k; rewrite lookup_insert_eq, He; by constructor | by rewrite lookup_insert_ne].
  - unfold remove_if_current. destruct (sessions r !! key) as [[old p]|] eqn:He;
      [|case_decide; subst; [constructor|done]].
    case_bool_decide as Hid; simpl in *; subst; [|case_decide; subst; [constructor|done]].
    case_decide as Hk; [subst k; rewrite lookup_delete_eq, He; by constructor | by rewrite lookup_delete_ne].
Qed.

(** C5. Over any history of authentications, losses, retries and removals, at
    most 128 peers hold a session, every one under a valid identity with a
    nonzero session identifier that was activated in this history, and no two
    peers share one.  A fresh activation is accepted exactly when the peer has
    no active session, no other entry holds the identifier, and it is not one
    of the last 4096 activated ones, so an identifier cannot be replayed within
    that horizon even after its session was removed.  Every operation changes
    at most the entry of its own peer, and only along the life cycle: an event
    that carries a superseded identifier is inert. *)
Theorem session_registry_safe (l : list session_op) (o : session_op) (key : PeerSessionKey) (id : SessionId) :
  let (r, log) := run_sessions l in
  let (res, _) := activate_after_authentication key id r in
  size (sessions r) <= MAX_CONTROL_SESSIONS /\
  map_Forall (fun k e => key_is_valid k = true /\ all_zero (e_session e) = false /\ e_session e ∈ log) (sessions r) /\
  (forall k k' e e', sessions r !! k = Some e -> sessions r !! k' = Some e' -> e_session e = e_session e' -> k = k') /\
  ((res = Ok New \/ res = Ok Recovered) <->
     key_is_valid key = true /\ all_zero id = false /\
     (forall k e, sessions r !! k = Some e -> e_session e <> id) /\
     (id ∉ last_n MAX_RECENT_SESSION_IDS log) /\
     match sessions r !! key with Some e => phase e <> Active | None => size (sessions r) < MAX_CONTROL_SESSIONS end) /\
  (forall k, if decide (k = (op_target o).1)
     then entry_step o (sessions r !! k) (sessions (session_step (r, log) o).1 !! k)
     else sessions (session_step (r, log) o).1 !! k = sessions r !! k).
Proof.
  pose proof (run_sessions_ok l) as Hok. destruct (run_sessions l) as [r log]. simpl in Hok.
  destruct (activate_after_authentication key id r) as [res r'] eqn:Ha.
  destruct Hok as (Hle & Hent & Huniq & Hrec & Hnd & Hseen).
  split_and!; [done|done|done| |intros k; apply session_step_entries].
  assert (id ∉ last_n MAX_RECENT_SESSION_IDS log <-> id ∉ seen_session_ids r) as ->
    by (by rewrite <- Hrec, Hseen, not_elem_of_list_to_set).
  apply activate_spec in Ha as [(Hact & _ & ->)|(Hno & _ & Hres)].
  - split; [intros _; exact Hact|intros _]. destruct (sessions r !! key); [by right|by left].
  - split; [|intros Hact; by destruct Hno]. intros [-> | ->]; by destruct (Hres _ eq_refl).
Qed.
