(* ===== verification/ReconnectScheduler.v ===== *)
(** The reconnect scheduler: [crates/blueroute-protocol/src/session.rs],
    [RetrySlot] and [ReconnectScheduler]. *)

From S2P Require Import Prelude Ident ConnectionDeadline SessionRegistry.

Inductive ReconnectScheduleError := CapacityReached | RetryClockRegression.

Record RetrySlot := mkSlot {
  s_session : SessionId;
  backoff : ReconnectBackoff;
  next_attempt_ms : option Z;
  in_flight : bool;
  in_flight_started_ms : option Z;
  cancel_requested : bool;
  s_last_ms : Z;
}.

(** [ReconnectScheduler]: its one field is the slot map. *)
Abbreviation ReconnectScheduler := (gmap PeerSessionKey RetrySlot).
Abbreviation sched := (stres ReconnectScheduler ReconnectScheduleError).

(** ** Operations *)

Definition schedule_loss (key : PeerSessionKey) (id : SessionId) (now_ms : Z) : sched bool := fun s =>
  if negb (key_is_valid key) || all_zero id then (Ok false, s)
  else match s !! key with
  | Some existing =>
    if negb (bool_decide (s_session existing = id)) then (Ok false, s)
    else if (now_ms <? s_last_ms existing)%Z then (Err RetryClockRegression, s)
    else (Ok false, s)
  | None =>
    if MAX_CONTROL_SESSIONS <=? size s then (Err CapacityReached, s)
    else
      let (delay, b) := after_failure backoff_new in
      (Ok true, <[key := mkSlot id b (saturating_add 64 now_ms <$> delay) false None false now_ms]> s)
  end.

(** The prologue the three operations on a slot share: no slot or another
    generation is inert, an earlier timestamp is refused. *)
Definition with_current {A : Type} (key : PeerSessionKey) (id : SessionId) (now_ms : Z) (inert : A)
  (k : RetrySlot -> A * RetrySlot) : sched A := fun s =>
  match s !! key with
  | None => (Ok inert, s)
  | Some slot =>
    if negb (bool_decide (s_session slot = id)) then (Ok inert, s)
    else if (now_ms <? s_last_ms slot)%Z then (Err RetryClockRegression, s)
    else let (a, slot') := k slot in (Ok a, <[key := slot']> s)
  end.

Definition touch (now_ms : Z) (slot : RetrySlot) : RetrySlot :=
  mkSlot (s_session slot) (backoff slot) (next_attempt_ms slot) (in_flight slot) (in_flight_started_ms slot)
    (cancel_requested slot) now_ms.

Definition take_due (key : PeerSessionKey) (id : SessionId) (now_ms : Z) : sched bool :=
  with_current key id now_ms false (fun slot =>
    if in_flight slot || match next_attempt_ms slot with None => true | Some due => (now_ms <? due)%Z end
    then (false, touch now_ms slot)
    else (true, mkSlot (s_session slot) (backoff slot) None true (Some now_ms) false now_ms)).

Definition take_expired_attempt (key : PeerSessionKey) (id : SessionId) (now_ms : Z) : sched bool :=
  with_current key id now_ms false (fun slot =>
    let overdue := match in_flight_started_ms slot with
      | Some started => (saturating_add 64 started MAX_CONNECT_AUTH_ATTEMPT_MS <=? now_ms)%Z
      | None => false
      end in
    if negb (in_flight slot) || negb overdue || cancel_requested slot then (false, touch now_ms slot)
    else (true, mkSlot (s_session slot) (backoff slot) (next_attempt_ms slot) (in_flight slot)
                  (in_flight_started_ms slot) true now_ms)).

Definition attempt_failed (key : PeerSessionKey) (id : SessionId) (now_ms : Z) : sched (option Z) :=
  with_current key id now_ms None (fun slot =>
    if negb (in_flight slot) then (None, slot)
    else
      let (delay, b) := after_failure (backoff slot) in
      let next := saturating_add 64 now_ms <$> delay in
      (next, mkSlot (s_session slot) b next false None false now_ms)).

Definition cancel_if_current (key : PeerSessionKey) (id : SessionId) (s : ReconnectScheduler) :
  bool * ReconnectScheduler :=
  match s !! key with
  | Some slot => if bool_decide (s_session slot = id) then (true, delete key s) else (false, s)
  | None => (false, s)
  end.

(** ** The retry protocol of one lost session

    What the scheduler promises per peer, as a machine over its observable
    events. *)

Inductive retry_event :=
| Scheduled (at_ms : Z) | Started (at_ms : Z) | CancelRequested (at_ms : Z) | Failed (at_ms : Z).

Inductive retry_state :=
| Waiting (failures : Z) (due : Z)
| InFlight (failures : Z) (started : Z) (cancelling : bool)
| Exhausted.

(** [failures] counts the loss itself and every failed attempt. *)
Definition after (failures now_ms : Z) : retry_state :=
  if (failures <? MAX_RECONNECT_ATTEMPTS)%Z
  then Waiting (failures + 1) (saturating_add 64 now_ms (retry_delay_ms failures)) else Exhausted.

Inductive retry_trace : list retry_event -> retry_state -> Prop :=
| rt_scheduled t : retry_trace [Scheduled t] (after 0 t)
| rt_started tr n due t : retry_trace tr (Waiting n due) -> (due <= t)%Z ->
    retry_trace (tr ++ [Started t]) (InFlight n t false)
| rt_cancel tr n started t : retry_trace tr (InFlight n started false) ->
    (saturating_add 64 started MAX_CONNECT_AUTH_ATTEMPT_MS <= t)%Z ->
    retry_trace (tr ++ [CancelRequested t]) (InFlight n started true)
| rt_failed tr n started c t : retry_trace tr (InFlight n started c) ->
    retry_trace (tr ++ [Failed t]) (after n t).

Definition is_started (e : retry_event) : bool := if e is Started _ then true else false.
Definition attempts (tr : list retry_event) : nat := length (List.filter is_started tr).

(** The protocol state a slot represents. *)
Definition slot_view (slot : RetrySlot) : option retry_state :=
  let n := failed_attempts (backoff slot) in
  match in_flight slot, in_flight_started_ms slot, next_attempt_ms slot with
  | true, Some started, None => Some (InFlight n started (cancel_requested slot))
  | false, None, Some due => Some (Waiting n due)
  | false, None, None => if (n =? MAX_RECONNECT_ATTEMPTS)%Z then Some Exhausted else None
  | _, _, _ => None
  end.

(** ** Histories *)

Inductive retry_op :=
| OpSchedule (key : PeerSessionKey) (id : SessionId) (now_ms : Z)
| OpDue (key : PeerSessionKey) (id : SessionId) (now_ms : Z)
| OpExpired (key : PeerSessionKey) (id : SessionId) (now_ms : Z)
| OpFailed (key : PeerSessionKey) (id : SessionId) (now_ms : Z)
| OpCancel (key : PeerSessionKey) (id : SessionId).

Definition op_slot (o : retry_op) : PeerSessionKey * SessionId :=
  match o with OpSchedule k i _ | OpDue k i _ | OpExpired k i _ | OpFailed k i _ | OpCancel k i => (k, i) end.

(** The events each peer's current slot has gone through. *)
Abbreviation retry_log := (gmap PeerSessionKey (list retry_event)).

Definition log_if (b : bool) (key : PeerSessionKey) (e : retry_event) (tr : retry_log) : retry_log :=
  if b then <[key := default [] (tr !! key) ++ [e]]> tr else tr.

Definition was_in_flight (key : PeerSessionKey) (s : ReconnectScheduler) : bool :=
  if s !! key is Some slot then in_flight slot else false.

Definition is_true_ok {E : Type} (r : result E bool) : bool := if r is Ok true then true else false.

Definition retry_step (acc : ReconnectScheduler * retry_log) (o : retry_op) : ReconnectScheduler * retry_log :=
  let (s, tr) := acc in
  match o with
  | OpSchedule key id t =>
    let (r, s') := schedule_loss key id t s in (s', if is_true_ok r then <[key := [Scheduled t]]> tr else tr)
  | OpDue key id t => let (r, s') := take_due key id t s in (s', log_if (is_true_ok r) key (Started t) tr)
  | OpExpired key id t =>
    let (r, s') := take_expired_attempt key id t s in (s', log_if (is_true_ok r) key (CancelRequested t) tr)
  | OpFailed key id t =>
    let (r, s') := attempt_failed key id t s in
    (s', log_if (was_in_flight key s && negb (was_in_flight key s')) key (Failed t) tr)
  | OpCancel key id => ((cancel_if_current key id s).2, tr)
  end.

Definition run_retry (l : list retry_op) : ReconnectScheduler * retry_log := foldl retry_step (∅, ∅) l.

Definition slot_ok (slot : RetrySlot) (tr : option (list retry_event)) : Prop :=
  exists st evs, tr = Some evs /\ slot_view slot = Some st /\ retry_trace evs st /\
    (1 <= failed_attempts (backoff slot) <= MAX_RECONNECT_ATTEMPTS)%Z.

Definition sched_ok (s : ReconnectScheduler) (tr : retry_log) : Prop :=
  size s <= MAX_CONTROL_SESSIONS /\ map_Forall (fun key slot => slot_ok slot (tr !! key)) s.

(** ** Facts *)

Lemma with_current_cases {A : Type} key id now_ms (inert : A) k s r s' :
  with_current key id now_ms inert k s = (r, s') ->
  (s' = s /\ (r = Ok inert \/ r = Err RetryClockRegression)) \/
  exists slot, s !! key = Some slot /\ s_session slot = id /\ (s_last_ms slot <= now_ms)%Z /\
    r = Ok (k slot).1 /\ s' = <[key := (k slot).2]> s.
Proof.
  unfold with_current. destruct (s !! key) as [slot|]; [|intros [= <- <-]; by auto].
  case_bool_decide as Hid; simpl; [|intros [= <- <-]; by auto].
  destruct (Z.ltb_spec now_ms (s_last_ms slot)); [intros [= <- <-]; by auto|].
  destruct (k slot) as [a slot'] eqn:Hk. intros [= <- <-]. right. exists slot. rewrite Hk. by split_and!.
Qed.

Lemma sched_ok_insert s tr key slot slot' evs :
  sched_ok s tr -> s !! key = Some slot -> slot_ok slot' (Some evs) ->
  sched_ok (<[key := slot']> s) (<[key := evs]> tr).
Proof.
  intros [Hsz Hall] Hkey Hok. split; [rewrite map_size_insert, Hkey; done|].
  intros k sl [[<- <-]|[Hne Hk]]%lookup_insert_Some; [by rewrite lookup_insert_eq|].
  rewrite lookup_insert_ne by done. by apply Hall.
Qed.

Lemma sched_ok_touch s tr key slot slot' :
  sched_ok s tr -> s !! key = Some slot -> slot_view slot' = slot_view slot -> backoff slot' = backoff slot ->
  sched_ok (<[key := slot']> s) tr.
Proof.
  intros [Hsz Hall] Hkey Hv Hb. split; [rewrite map_size_insert, Hkey; done|].
  apply map_Forall_insert_2; [|done]. destruct (Hall key slot Hkey) as (st & evs & Htr & Hst & Ht & Hn).
  exists st, evs. by rewrite Hv, Hb.
Qed.

Lemma log_if_true key e (tr : retry_log) evs :
  tr !! key = Some evs -> log_if true key e tr = <[key := evs ++ [e]]> tr.
Proof. intros H. unfold log_if. by rewrite H. Qed.

(** A fresh delay: the state after one more failure. *)
Lemma slot_after n id t b delay :
  (0 <= n <= MAX_RECONNECT_ATTEMPTS)%Z -> after_failure (mkBackoff n) = (delay, b) ->
  slot_view (mkSlot id b (saturating_add 64 t <$> delay) false None false t) = Some (after n t) /\
  (n < MAX_RECONNECT_ATTEMPTS -> failed_attempts b = n + 1)%Z /\
  (n = MAX_RECONNECT_ATTEMPTS -> failed_attempts b = n)%Z.
Proof.
  intros Hn. rewrite after_failure_spec by (simpl; lia). simpl. unfold after, slot_view.
  destruct (Z.ltb_spec n MAX_RECONNECT_ATTEMPTS) as [Hlt|Hge]; intros [= <- <-]; simpl.
  - split_and!; [done|done|lia].
  - assert (n = MAX_RECONNECT_ATTEMPTS) as -> by lia. by split_and!.
Qed.

Lemma schedule_loss_ok key id t s tr :
  sched_ok s tr -> let acc := retry_step (s, tr) (OpSchedule key id t) in sched_ok acc.1 acc.2.
Proof.
  intros Hok. cbn [retry_step]. unfold schedule_loss.
  destruct (negb (key_is_valid key) || all_zero id); [done|].
  destruct (s !! key) as [e|] eqn:He.
  - case_bool_decide; simpl; [|done]. by destruct (t <? s_last_ms e)%Z.
  - destruct (Nat.leb_spec MAX_CONTROL_SESSIONS (size s)) as [|Hlt]; [done|].
    destruct (after_failure backoff_new) as [delay b] eqn:Hb.
    destruct (slot_after 0 id t b delay) as (Hv & Hf & _); [unfold MAX_RECONNECT_ATTEMPTS; lia|done|].
    destruct Hok as [Hsz Hall]. cbn [fst snd is_true_ok]. split; [rewrite map_size_insert, He; simpl; lia|].
    intros k sl [[<- <-]|[Hne Hk]]%lookup_insert_Some.
    + rewrite lookup_insert_eq. eexists _, _. split_and!; [done|exact Hv|constructor| |]; simpl;
        unfold MAX_RECONNECT_ATTEMPTS in *; lia.
    + rewrite lookup_insert_ne by done. by apply Hall.
Qed.

Lemma take_due_ok key id t s tr :
  sched_ok s tr -> let acc := retry_step (s, tr) (OpDue key id t) in sched_ok acc.1 acc.2.
Proof.
  intros Hok. cbn [retry_step]. destruct (take_due key id t s) as [r s'] eqn:Hr.
  apply with_current_cases in Hr as [[-> [-> | ->]]|(slot & Hs & _ & _ & -> & ->)]; [done..|].
  destruct (in_flight slot) eqn:Hfl; [by eapply sched_ok_touch|].
  destruct (next_attempt_ms slot) as [due|] eqn:Hdue; [|by eapply sched_ok_touch].
  destruct (Z.ltb_spec t due); cbn [orb fst snd]; [by eapply sched_ok_touch|].
  destruct (proj2 Hok key slot Hs) as (st & evs & Htr & Hv & Ht & Hn).
  erewrite log_if_true by done. eapply sched_ok_insert; [done..|].
  unfold slot_view in Hv. rewrite Hfl, Hdue in Hv.
  destruct (in_flight_started_ms slot); [done|]. injection Hv as <-.
  eexists _, _. split_and!; [done|done|by eapply rt_started|apply Hn|apply Hn].
Qed.

Lemma take_expired_ok key id t s tr :
  sched_ok s tr -> let acc := retry_step (s, tr) (OpExpired key id t) in sched_ok acc.1 acc.2.
Proof.
  intros Hok. cbn [retry_step]. destruct (take_expired_attempt key id t s) as [r s'] eqn:Hr.
  apply with_current_cases in Hr as [[-> [-> | ->]]|(slot & Hs & _ & _ & -> & ->)]; [done..|].
  destruct (in_flight slot) eqn:Hfl; [|by eapply sched_ok_touch].
  destruct (in_flight_started_ms slot) as [started|] eqn:Hst; [|by eapply sched_ok_touch].
  destruct (Z.leb_spec (saturating_add 64 started MAX_CONNECT_AUTH_ATTEMPT_MS) t); [|by eapply sched_ok_touch].
  destruct (cancel_requested slot) eqn:Hc; [by eapply sched_ok_touch|]. cbn [negb orb fst snd].
  destruct (proj2 Hok key slot Hs) as (st & evs & Htr & Hv & Ht & Hn).
  erewrite log_if_true by done. eapply sched_ok_insert; [done..|].
  unfold slot_view in Hv. rewrite Hfl, Hst, Hc in Hv.
  destruct (next_attempt_ms slot) eqn:Hnext; [done|]. injection Hv as <-.
  eexists _, _. split_and!; [done|unfold slot_view; simpl; reflexivity|by eapply rt_cancel|apply Hn|apply Hn].
Qed.

Lemma attempt_failed_ok key id t s tr :
  sched_ok s tr -> let acc := retry_step (s, tr) (OpFailed key id t) in sched_ok acc.1 acc.2.
Proof.
  intros Hok. cbn [retry_step]. destruct (attempt_failed key id t s) as [r s'] eqn:Hr.
  apply with_current_cases in Hr as [[-> _]|(slot & Hs & _ & _ & _ & ->)].
  { by rewrite andb_negb_r. }
  unfold was_in_flight. rewrite Hs, lookup_insert_eq.
  destruct (in_flight slot) eqn:Hfl; cbn [negb andb fst snd]; [|by eapply sched_ok_touch].
  destruct (proj2 Hok key slot Hs) as (st & evs & Htr & Hv & Ht & Hn).
  destruct (after_failure (backoff slot)) as [delay b] eqn:Hb. cbn [fst snd in_flight negb].
  erewrite log_if_true by done. eapply sched_ok_insert; [done..|].
  unfold slot_view in Hv. rewrite Hfl in Hv. destruct (in_flight_started_ms slot) as [started|]; [|done].
  destruct (next_attempt_ms slot) eqn:Hnext; [done|]. injection Hv as <-.
  destruct (backoff slot) as [n]. simpl in *.
  destruct (slot_after n (s_session slot) t b delay) as (Hview & Hf & Hf'); [lia|done|].
  eexists _, _. split; [done|]. split; [exact Hview|]. split; [by eapply rt_failed|].
  simpl. unfold MAX_RECONNECT_ATTEMPTS in *. lia.
Qed.

Lemma retry_step_ok acc o : sched_ok acc.1 acc.2 -> sched_ok (retry_step acc o).1 (retry_step acc o).2.
Proof.
  destruct acc as [s tr]. simpl. intros Hok. destruct o as [key id t|key id t|key id t|key id t|key id].
  - by apply schedule_loss_ok.
  - by apply take_due_ok.
  - by apply take_expired_ok.
  - by apply attempt_failed_ok.
  - simpl. unfold cancel_if_current. destruct (s !! key) as [slot|]; [|done]. case_bool_decide; [|done].
    destruct Hok as [Hsz Hall]. split.
    + etrans; [|exact Hsz]. apply map_subseteq_size, delete_subseteq.
    + by apply map_Forall_delete.
Qed.

Lemma run_retry_ok l : sched_ok (run_retry l).1 (run_retry l).2.
Proof.
  unfold run_retry. induction l as [|o l IH] using rev_ind; [|rewrite foldl_snoc; by apply retry_step_ok].
  split; [apply Nat.leb_le; by vm_compute | apply map_Forall_empty].
Qed.

Lemma attempts_snoc tr e : attempts (tr ++ [e]) = attempts tr + (if is_started e then 1 else 0).
Proof. unfold attempts. rewrite List.filter_app, length_app. simpl. by destruct (is_started e). Qed.

(** [a] attempts were started on the way to a state. *)
Definition attempts_in (a : Z) (st : retry_state) : Prop :=
  match st with
  | Waiting n _ => (a = n - 1 /\ 1 <= n <= MAX_RECONNECT_ATTEMPTS)%Z
  | InFlight n _ _ => (a = n /\ 1 <= n <= MAX_RECONNECT_ATTEMPTS)%Z
  | Exhausted => a = MAX_RECONNECT_ATTEMPTS
  end.

Lemma attempts_in_after n t : (0 <= n <= MAX_RECONNECT_ATTEMPTS)%Z -> attempts_in n (after n t).
Proof.
  intros Hn. unfold after, attempts_in. destruct (Z.ltb_spec n MAX_RECONNECT_ATTEMPTS); lia.
Qed.

Lemma retry_trace_attempts tr st : retry_trace tr st -> attempts_in (Z.of_nat (attempts tr)) st.
Proof.
  induction 1 as [t|tr n due t Htr IH Hd|tr n started t Htr IH Hd|tr n started c t Htr IH];
    rewrite ?attempts_snoc, ?Nat.add_0_r; cbn [is_started].
  - by apply (attempts_in_after 0).
  - unfold attempts_in in *. lia.
  - unfold attempts_in in *. lia.
  - destruct IH as [-> Hn]. apply attempts_in_after. lia.
Qed.

(** A due attempt is handed out to the current session. *)
Lemma take_due_ready key slot s n due t :
  s !! key = Some slot -> slot_view slot = Some (Waiting n due) -> (s_last_ms slot <= t)%Z -> (due <= t)%Z ->
  (take_due key (s_session slot) t s).1 = Ok true.
Proof.
  intros Hs Hv Hl Hd. unfold take_due, with_current. rewrite Hs, bool_decide_eq_true_2 by done. cbn [negb].
  destruct (Z.ltb_spec t (s_last_ms slot)); [lia|]. unfold slot_view in Hv.
  destruct (in_flight slot); [by repeat case_match; simplify_eq|].
  destruct (in_flight_started_ms slot); [done|].
  destruct (next_attempt_ms slot) as [d|]; [|by case_match]. injection Hv as <- ->.
  cbn [orb]. by rewrite (proj2 (Z.ltb_ge t due)).
Qed.

(** Operations of another peer, or of a superseded session, do not touch the
    slot of [key]. *)
Lemma retry_step_other acc o key slot :
  acc.1 !! key = Some slot -> op_slot o <> (key, s_session slot) ->
  (retry_step acc o).1 !! key = Some slot.
Proof.
  destruct acc as [s tr]. simpl. intros Hs Hne.
  assert (forall (A : Type) k id t (inert : A) f r s', with_current k id t inert f s = (r, s') ->
    (k, id) <> (key, s_session slot) -> s' !! key = Some slot) as Hwc.
  { intros A k id t inert f r s' [[-> _]|(sl & Hsl & Hid & _ & _ & ->)]%with_current_cases Hk; [done|].
    destruct (decide (k = key)) as [->|]; [|by rewrite lookup_insert_ne]. simplify_eq. }
  destruct o as [k id t|k id t|k id t|k id t|k id]; cbn [op_slot fst retry_step] in *.
  - destruct (schedule_loss k id t s) as [r s'] eqn:Hr. cbn [fst]. unfold schedule_loss in Hr.
    destruct (_ || _); [by simplify_eq|]. destruct (s !! k) as [e|] eqn:Hk.
    + repeat case_match; by simplify_eq.
    + destruct (decide (k = key)) as [->|]; [congruence|].
      destruct (MAX_CONTROL_SESSIONS <=? size s); [by simplify_eq|].
      destruct (after_failure backoff_new) as [delay b]. simplify_eq. by rewrite lookup_insert_ne.
  - destruct (take_due k id t s) as [r s'] eqn:Hr. by eapply Hwc.
  - destruct (take_expired_attempt k id t s) as [r s'] eqn:Hr. by eapply Hwc.
  - destruct (attempt_failed k id t s) as [r s'] eqn:Hr. by eapply Hwc.
  - unfold cancel_if_current. destruct (s !! k) as [sl|] eqn:Hk; [|done]. case_bool_decide as Hid; [|done].
    simpl. destruct (decide (k = key)) as [->|]; [by simplify_eq|]. by rewrite lookup_delete_ne.
Qed.

(** C7. The scheduler implements the retry protocol.  Over any history of
    losses, wake-ups, failures and cancellations at most 128 peers are retried,
    and what happened to a peer's slot since its loss is a run of the protocol
    that ends in the state the slot represents: attempts never overlap, each
    starts no earlier than the capped exponential backoff after the previous
    failure, a cancellation is requested only after the 20 second attempt
    budget, and at most eight attempts start before the entry is inert for
    good.  A due attempt is handed out to the session that waits for it; an event for another peer or a superseded session leaves the slot
    as it is. *)
Theorem reconnect_scheduler_refines (l : list retry_op) (o : retry_op) :
  let (s, tr) := run_retry l in
  size s <= MAX_CONTROL_SESSIONS /\
  forall key slot, s !! key = Some slot ->
    (exists evs st, tr !! key = Some evs /\ slot_view slot = Some st /\ retry_trace evs st /\
       (Z.of_nat (attempts evs) <= MAX_RECONNECT_ATTEMPTS)%Z) /\
    (op_slot o <> (key, s_session slot) -> (retry_step (s, tr) o).1 !! key = Some slot) /\
    (forall n due t, slot_view slot = Some (Waiting n due) -> (s_last_ms slot <= t)%Z -> (due <= t)%Z ->
       (take_due key (s_session slot) t s).1 = Ok true).
Proof.
  destruct (run_retry_ok l) as [Hsz Hall]. destruct (run_retry l) as [s tr]. simpl in Hsz, Hall.
  split; [done|]. intros key slot Hs.
  split_and!; [|by apply (retry_step_other (s, tr))|intros n due t; by apply take_due_ready].
  destruct (Hall key slot Hs) as (st & evs & Htr & Hv & Ht & _).
  exists evs, st. split_and!; [done..|].
  apply retry_trace_attempts in Ht. unfold attempts_in in Ht. destruct st; lia.
Qed.
