(* ===== verification/ControlFrame.v ===== *)
(** Control frames: [crates/blueroute-protocol/src/control.rs].

    Bytes are numbers in [0, 256).  The JSON codec is [serde_json] with the
    derived [Serialize] and [Deserialize] of [ControlEnvelope]: it is a
    parameter, a pair of partial functions. *)

From S2P Require Import Prelude Order Ident Capability Addressing.

Definition CONTROL_VERSION : Z := 1.
Definition MAX_CONTROL_FRAME_BYTES : Z := 16 * 1024.
Definition HEADER_LEN : nat := 4.

(** ** Messages *)

Record HelloFacts := mkFacts {
  software_version : list Z;
  capabilities : NodeCapabilities;
  segment : option IpPrefix;
  direct_neighbor_claims : list NodeId;
}.

Abbreviation Challenge := (bytes 16).

Inductive ControlMessage :=
| MsgHello (challenge : Challenge) (facts : HelloFacts)
| MsgHelloAck (challenge : Challenge) (facts : HelloFacts)
| MsgHeartbeat
| MsgGoodbye.

Record ControlEnvelope := mkEnvelope {
  version : Z;
  env_network : NetworkId;
  sender : NodeId;
  session_id : bytes 16;
  sequence : Z;
  message : ControlMessage;
}.

#[global] Instance HelloFacts_eq_dec : EqDecision HelloFacts.
Proof. solve_decision. Defined.
#[global] Instance ControlMessage_eq_dec : EqDecision ControlMessage.
Proof. solve_decision. Defined.
#[global] Instance ControlEnvelope_eq_dec : EqDecision ControlEnvelope.
Proof. solve_decision. Defined.

Record ControlFrameError := mkFrameError { frame_message : string }.
Definition invalid (m : string) : ControlFrameError := mkFrameError m.
Abbreviation FrameResult := (result ControlFrameError).

(** ** Validation *)

(** [is_ascii_alphanumeric() || matches!(b, b'.' | b'-' | b'+' | b'_')] *)
Definition version_byte (b : Z) : bool :=
  ((48 <=? b) && (b <=? 57) || (65 <=? b) && (b <=? 90) || (97 <=? b) && (b <=? 122)
   || (b =? 46) || (b =? 45) || (b =? 43) || (b =? 95))%Z.

Definition see_neighbor (snd : NodeId) (ids : gset NodeId) (node : NodeId) : FrameResult (gset NodeId) :=
  guard_err (bool_decide (node = zero_id)) (invalid "zero direct neighbor identity")
  (guard_err (bool_decide (node = snd) || bool_decide (node ∈ ids))
     (invalid "duplicated or self-referential neighbor")
  (Ok ({[node]} ∪ ids))).

Definition is_some_and {A : Type} (o : option A) (p : A -> bool) : bool :=
  match o with Some a => p a | None => false end.

Definition validate_facts (f : HelloFacts) (snd : NodeId) : FrameResult () :=
  guard_err (bool_decide (software_version f = []) || (64 <? length (software_version f))
             || negb (forallb version_byte (software_version f))) (invalid "invalid software version")
  (guard_err (32 <? length (direct_neighbor_claims f)) (invalid "too many direct neighbor claims")
  (_ ← try_for_each (see_neighbor snd) ∅ (direct_neighbor_claims f);
  guard_err (is_some_and (segment f) (fun s => negb (bool_decide (normalized_ipv4_prefix s = Ok s))))
    (invalid "hello requires canonical IPv4 segment")
  (guard_err (is_some_and (link_quality (capabilities f)) (fun q => 100 <? score (value q))%Z)
    (invalid "link quality exceeds valid range")
  (guard_err (is_some_and (connection_policy_ceiling (capabilities f)) (fun c => value c =? 0)%Z)
    (invalid "zero peer connection policy ceiling")
  (guard_err (is_some_and (power_state (capabilities f))
                (fun p => match value p with Battery percent => (100 <? percent)%Z | AcPowered => false end))
    (invalid "battery percentage exceeds valid range")
  (Ok ())))))).

Definition validate_hello (c : Challenge) (f : HelloFacts) (snd : NodeId) : FrameResult () :=
  guard_err (all_zero c) (invalid "zero hello challenge") (validate_facts f snd).

Definition validate (e : ControlEnvelope) : FrameResult () :=
  guard_err (negb (version e =? CONTROL_VERSION)%Z) (invalid "unsupported control protocol version")
  (guard_err (bool_decide (env_network e = zero_id)) (invalid "zero network identity")
  (guard_err (bool_decide (sender e = zero_id)) (invalid "zero sender identity")
  (guard_err (all_zero (session_id e)) (invalid "zero session identifier")
  (guard_err (sequence e =? 0)%Z (invalid "zero control sequence")
  (match message e with
   | MsgHello challenge facts | MsgHelloAck challenge facts => validate_hello challenge facts (sender e)
   | MsgHeartbeat | MsgGoodbye => Ok ()
   end))))).

(** ** Frames *)

(** [u32::to_be_bytes] *)
Definition to_be_bytes (n : Z) : list Z :=
  [Z.land (Z.shiftr n 24) 255; Z.land (Z.shiftr n 16) 255; Z.land (Z.shiftr n 8) 255; Z.land n 255].

Definition read_control_length (b : list Z) : FrameResult nat :=
  guard_err (length b <? HEADER_LEN) (invalid "truncated control length header")
  (let declared := from_be_bytes (take HEADER_LEN b) in
   guard_err ((declared =? 0)%Z || (MAX_CONTROL_FRAME_BYTES <? declared)%Z)
     (invalid "invalid or oversized control frame length")
  (Ok (Z.to_nat declared))).

Section frames.
Variable to_vec : ControlEnvelope -> option (list Z).
Variable from_slice : list Z -> option ControlEnvelope.

Definition encode_control_frame (e : ControlEnvelope) : FrameResult (list Z) :=
  _ ← validate e;
  payload ← ok_or (to_vec e) (invalid "{error}");
  guard_err (bool_decide (payload = []) || (MAX_CONTROL_FRAME_BYTES <? Z.of_nat (length payload))%Z)
    (invalid "control frame exceeds maximum length")
  (guard_err (negb (u_ok 32 (Z.of_nat (length payload)))) (invalid "length overflow")
  (Ok (to_be_bytes (Z.of_nat (length payload)) ++ payload))).

Definition decode_control_frame (framed : list Z) : FrameResult ControlEnvelope :=
  expected_len ← read_control_length framed;
  guard_err (negb (length framed =? HEADER_LEN + expected_len))
    (invalid "truncated control frame or trailing bytes")
  (m ← ok_or (from_slice (drop HEADER_LEN framed)) (invalid "invalid control payload: {error}");
   _ ← validate m;
   Ok m).

End frames.

(** ** Replay protection of one session *)

Record VerifiedSessionSequence := mkVerified {
  v_network : NetworkId; v_sender : NodeId; v_session : bytes 16; last_sequence : Z;
}.

Definition verified_new (n : NetworkId) (s : NodeId) (id : bytes 16) : FrameResult VerifiedSessionSequence :=
  guard_err (bool_decide (n = zero_id) || bool_decide (s = zero_id)) (invalid "zero verified session identity")
  (guard_err (all_zero id) (invalid "zero session identifier")
  (Ok (mkVerified n s id 0))).

Definition accept (e : ControlEnvelope) : stres VerifiedSessionSequence ControlFrameError () := fun v =>
  match validate e with
  | Err err => (Err err, v)
  | Ok _ =>
    if negb (bool_decide (env_network e = v_network v)) || negb (bool_decide (sender e = v_sender v))
       || negb (bool_decide (session_id e = v_session v))
    then (Err (invalid "message differs from verified session context"), v)
    else if (sequence e <=? last_sequence v)%Z
    then (Err (invalid "replayed or stale control sequence"), v)
    else (Ok (), mkVerified (v_network v) (v_sender v) (v_session v) (sequence e))
  end.

(** ** Facts *)

Lemma lor_shift8 a b : (0 <= b < 256)%Z -> Z.lor (Z.shiftl a 8) b = (a * 256 + b)%Z.
Proof.
  intros Hb. rewrite <- Z.add_nocarry_lor.
  - rewrite Z.shiftl_mul_pow2 by lia. lia.
  - apply Z.bits_inj'. intros n Hn. rewrite Z.land_spec, Z.bits_0. destruct (Z.lt_ge_cases n 8).
    + by rewrite Z.shiftl_spec_low.
    + assert (Z.testbit b n = false) as ->; [|by rewrite andb_false_r].
      apply Z.testbit_false; [lia|]. rewrite Z.div_small; [done|].
      split; [lia|]. apply Z.lt_le_trans with (2 ^ 8)%Z; [lia|apply Z.pow_le_mono_r; lia].
Qed.

Lemma from_to_be_bytes n : (0 <= n <= u_max 32)%Z -> from_be_bytes (to_be_bytes n) = n.
Proof.
  intros Hn. unfold u_max in Hn. unfold from_be_bytes, to_be_bytes. cbn [fold_left].
  change 255%Z with (Z.ones 8). rewrite !Z.land_ones, !Z.shiftr_div_pow2 by lia.
  change (2 ^ 8)%Z with 256%Z. change (2 ^ 16)%Z with 65536%Z. change (2 ^ 24)%Z with 16777216%Z.
  change (2 ^ 32 - 1)%Z with 4294967295%Z in Hn.
  rewrite !lor_shift8 by (apply Z.mod_pos_bound; lia).
  pose proof (Z.div_mod n 256). pose proof (Z.div_mod (n / 256) 256). pose proof (Z.div_mod (n / 65536) 256).
  assert (n / 65536 = n / 256 / 256)%Z by (by rewrite Z.div_div).
  assert (n / 16777216 = n / 65536 / 256)%Z by (by rewrite Z.div_div).
  rewrite (Z.mod_small (n / 16777216)); [lia|]. split; [apply Z.div_pos; lia|apply Z.div_lt_upper_bound; lia].
Qed.

Definition byte_ok (b : Z) : Prop := (0 <= b < 256)%Z.

Lemma from_be_bytes_nonneg l : Forall byte_ok l -> (0 <= from_be_bytes l)%Z.
Proof.
  unfold from_be_bytes. intros Hl.
  enough (forall acc, (0 <= acc)%Z -> (0 <= fold_left (fun acc b => Z.lor (Z.shiftl acc 8) b) l acc)%Z) as Hgen
    by (by apply Hgen).
  induction Hl as [|b l Hb Hl IH]; intros acc Hacc; simpl; [done|]. apply IH.
  rewrite lor_shift8 by done. unfold byte_ok in Hb. lia.
Qed.

Lemma to_be_bytes_ok n : Forall byte_ok (to_be_bytes n).
Proof.
  unfold to_be_bytes, byte_ok. change 255%Z with (Z.ones 8).
  repeat constructor; rewrite Z.land_ones by lia; apply Z.mod_pos_bound; lia.
Qed.

Lemma read_control_length_Ok b n :
  Forall byte_ok b ->
  read_control_length b = Ok n <->
  HEADER_LEN <= length b /\ from_be_bytes (take HEADER_LEN b) = Z.of_nat n /\
  (1 <= Z.of_nat n <= MAX_CONTROL_FRAME_BYTES)%Z.
Proof.
  intros Hb. pose proof (from_be_bytes_nonneg _ (Forall_take _ HEADER_LEN _ Hb)) as Hpos.
  unfold read_control_length. rewrite !guard_err_Ok, Nat.ltb_ge, orb_false_iff, Z.eqb_neq, Z.ltb_ge.
  split.
  - intros (Hl & (Hz & Hm) & [= <-]). split_and!; [done|lia|lia|lia].
  - intros (Hl & Heq & H1 & Hm). split_and!; [done|lia|lia|f_equal; lia].
Qed.

Lemma read_control_length_header n rest :
  (1 <= Z.of_nat n <= MAX_CONTROL_FRAME_BYTES)%Z ->
  read_control_length (to_be_bytes (Z.of_nat n) ++ rest) = Ok n.
Proof.
  intros Hn. unfold read_control_length.
  assert (take HEADER_LEN (to_be_bytes (Z.of_nat n) ++ rest) = to_be_bytes (Z.of_nat n)) as -> by done.
  rewrite from_to_be_bytes by (unfold MAX_CONTROL_FRAME_BYTES, u_max in *; lia).
  apply guard_err_Ok. split; [done|]. apply guard_err_Ok. split; [|f_equal; lia].
  apply orb_false_iff. rewrite Z.eqb_neq, Z.ltb_ge. lia.
Qed.

Lemma decode_control_frame_Ok from_slice f e :
  decode_control_frame from_slice f = Ok e <->
  exists n, read_control_length f = Ok n /\ length f = HEADER_LEN + n /\
    from_slice (drop HEADER_LEN f) = Some e /\ validate e = Ok ().
Proof.
  unfold decode_control_frame. rewrite result_bind_Ok. apply exist_proper. intros n.
  rewrite guard_err_Ok, negb_false_iff, Nat.eqb_eq, result_bind_Ok. setoid_rewrite ok_or_Ok.
  split.
  - intros (Hn & Hl & m & Hm & ([] & Hv & [= <-])%result_bind_Ok). done.
  - intros (Hn & Hl & Hm & Hv). split_and!; [done|done|]. exists e. split; [done|]. by rewrite Hv.
Qed.

Lemma encode_control_frame_Ok to_vec e f :
  encode_control_frame to_vec e = Ok f ->
  exists p, validate e = Ok () /\ to_vec e = Some p /\ f = to_be_bytes (Z.of_nat (length p)) ++ p /\
    (1 <= Z.of_nat (length p) <= MAX_CONTROL_FRAME_BYTES)%Z.
Proof.
  unfold encode_control_frame. intros ([] & Hv & (p & Hp%ok_or_Ok & Hrest)%result_bind_Ok)%result_bind_Ok.
  exists p. apply guard_err_Ok in Hrest as [[Hne%bool_decide_eq_false Hmax%Z.ltb_ge]%orb_false_iff Hrest].
  apply guard_err_Ok in Hrest as [_ [= <-]]. split_and!; try done; try lia.
  destruct p; [done|simpl; lia].
Qed.

(** The documented behaviour of the codec: what it writes for a valid
    envelope, it reads back. *)
Definition json_roundtrips (to_vec : ControlEnvelope -> option (list Z))
  (from_slice : list Z -> option ControlEnvelope) : Prop :=
  forall e p, validate e = Ok () -> to_vec e = Some p -> from_slice p = Some e.

Lemma encode_decode to_vec from_slice e f :
  json_roundtrips to_vec from_slice -> encode_control_frame to_vec e = Ok f ->
  decode_control_frame from_slice f = Ok e.
Proof.
  intros Hjson (p & Hv & Hp & -> & Hlen)%encode_control_frame_Ok.
  apply decode_control_frame_Ok. exists (length p). split_and!; [|done| |done].
  - by apply read_control_length_header.
  - by apply (Hjson e p).
Qed.

(** A concrete heartbeat, and a codec that knows only it. *)
Definition sample_heartbeat : ControlEnvelope :=
  mkEnvelope CONTROL_VERSION (fill_id 1) (fill_id 2) (fill_bytes 16 3) 1 MsgHeartbeat.
Definition sample_to_vec (e : ControlEnvelope) : option (list Z) :=
  if decide (e = sample_heartbeat) then Some [123; 125]%Z else None.
Definition sample_from_slice (l : list Z) : option ControlEnvelope :=
  if decide (l = [123; 125]%Z) then Some sample_heartbeat else None.

Lemma sample_roundtrips : json_roundtrips sample_to_vec sample_from_slice.
Proof. intros e p _. unfold sample_to_vec. case_decide; [|done]. intros [= <-]. subst. done. Qed.

(** C13. A frame that was encoded decodes to the envelope it was made from, and
    is a four-byte big-endian length of at most 16 KiB followed by exactly
    that many bytes; with anything appended or cut off it is refused.  Only
    envelopes that pass validation are ever encoded. *)
Theorem control_frame_roundtrip to_vec from_slice (e : ControlEnvelope) (f : list Z) :
  json_roundtrips to_vec from_slice ->
  encode_control_frame to_vec e = Ok f ->
  decode_control_frame from_slice f = Ok e /\ validate e = Ok () /\
  (exists p, to_vec e = Some p /\ f = to_be_bytes (Z.of_nat (length p)) ++ p /\
     (1 <= Z.of_nat (length p) <= MAX_CONTROL_FRAME_BYTES)%Z) /\
  (forall g, (exists x, x <> [] /\ (g = f ++ x \/ f = g ++ x)) -> is_ok (decode_control_frame from_slice g) = false).
Proof.
  intros Hjson He. split; [by eapply encode_decode|].
  apply encode_control_frame_Ok in He as (p & Hv & Hp & -> & Hlen). split; [done|]. split; [by eauto|].
  intros g (x & Hx & Hg). destruct (decode_control_frame from_slice g) as [m|] eqn:Hd; [|done].
  apply decode_control_frame_Ok in Hd as (n & Hr & Hl & _). exfalso.
  assert (length x <> 0) as Hx0 by (by destruct x).
  destruct Hg as [-> | Hg].
  - rewrite <- app_assoc, read_control_length_header in Hr by done. injection Hr as <-.
    rewrite !length_app in Hl. simpl in Hl. unfold HEADER_LEN in Hl. lia.
  - assert (HEADER_LEN <= length g) as Hg4.
    { unfold read_control_length in Hr. destruct (Nat.ltb_spec (length g) HEADER_LEN); [done|lia]. }
    assert (take HEADER_LEN g = to_be_bytes (Z.of_nat (length p))) as Ht.
    { apply (f_equal (take HEADER_LEN)) in Hg. rewrite (take_app_le g) in Hg by done. by rewrite <- Hg. }
    assert (read_control_length g = read_control_length (to_be_bytes (Z.of_nat (length p)) ++ drop HEADER_LEN g)) as Hrg
      by (by rewrite <- Ht, take_drop).
    rewrite Hrg, read_control_length_header in Hr by done. injection Hr as <-.
    apply (f_equal length) in Hg. rewrite !length_app in Hg. simpl in Hg. unfold HEADER_LEN in Hl. lia.
Qed.

Lemma control_frame_roundtrip_witness :
  encode_control_frame sample_to_vec sample_heartbeat = Ok [0; 0; 0; 2; 123; 125]%Z /\
  decode_control_frame sample_from_slice [0; 0; 0; 2; 123; 125]%Z = Ok sample_heartbeat.
Proof.
  assert (encode_control_frame sample_to_vec sample_heartbeat = Ok [0; 0; 0; 2; 123; 125]%Z) as He
    by (vm_compute; reflexivity).
  split; [exact He|]. apply (control_frame_roundtrip _ _ _ _ sample_roundtrips He).
Defined.

(** ** A session's accepted messages *)

(** The tracker fed with a list of envelopes, and those it accepted. *)
Definition accept_step (acc : VerifiedSessionSequence * list ControlEnvelope) (e : ControlEnvelope) :=
  let (r, v') := accept e acc.1 in (v', if is_ok r then acc.2 ++ [e] else acc.2).
Definition accept_all (v : VerifiedSessionSequence) (es : list ControlEnvelope) :
  VerifiedSessionSequence * list ControlEnvelope := foldl accept_step (v, []) es.

Lemma accept_Ok e v v' :
  accept e v = (Ok (), v') <->
  validate e = Ok () /\ env_network e = v_network v /\ sender e = v_sender v /\ session_id e = v_session v /\
  (last_sequence v < sequence e)%Z /\ v' = mkVerified (v_network v) (v_sender v) (v_session v) (sequence e).
Proof.
  unfold accept. destruct (validate e) as [[]|err]; [|split; [done|intros (? & _); done]].
  repeat case_bool_decide; cbn [negb orb]; try (split; [done|]; intros (_ & ? & ? & ? & _); done).
  destruct (Z.leb_spec (sequence e) (last_sequence v)).
  - split; [done|]. intros (_ & _ & _ & _ & ? & _). lia.
  - split; [intros [= <-]; by split_and!|]. by intros (_ & _ & _ & _ & _ & ->).
Qed.

Lemma accept_Err e v err v' : accept e v = (Err err, v') -> v' = v.
Proof. unfold accept. repeat case_match; intros [= _ <-]; done. Qed.

Definition sequences (es : list ControlEnvelope) : list Z := sequence <$> es.

Definition accepted_ok (v0 : VerifiedSessionSequence) (acc : VerifiedSessionSequence * list ControlEnvelope) : Prop :=
  let (v, out) := acc in
  v_network v = v_network v0 /\ v_sender v = v_sender v0 /\ v_session v = v_session v0 /\
  (last_sequence v0 <= last_sequence v)%Z /\
  Forall (fun e => validate e = Ok () /\ env_network e = v_network v0 /\ sender e = v_sender v0 /\
                   session_id e = v_session v0 /\ (last_sequence v0 < sequence e <= last_sequence v)%Z) out /\
  StronglySorted Z.lt (sequences out) /\
  last_sequence v = default (last_sequence v0) (last (sequences out)).

Lemma accept_step_ok v0 acc e : accepted_ok v0 acc -> accepted_ok v0 (accept_step acc e).
Proof.
  destruct acc as [v out]. intros (Hn & Hs & Hi & Hle & Hall & Hsort & Hlast). unfold accept_step. simpl.
  destruct (accept e v) as [[[]|err] v'] eqn:Ha; simpl.
  2:{ apply accept_Err in Ha as ->. by split_and!. }
  apply accept_Ok in Ha as (Hv & He1 & He2 & He3 & Hlt & ->). simpl. split_and!; try done; try lia.
  - apply Forall_app. split.
    + eapply Forall_impl; [exact Hall|]. intros x (? & ? & ? & ? & ?). split_and!; try done; lia.
    + apply Forall_singleton. split_and!; try congruence; lia.
  - unfold sequences in *. rewrite fmap_app. apply StronglySorted_app_2; [|done|by repeat constructor].
    intros x y Hx%list_elem_of_fmap Hy%list_elem_of_singleton. destruct Hx as (x' & -> & Hin). subst y.
    rewrite Forall_forall in Hall. destruct (Hall x' Hin) as (_ & _ & _ & _ & ?). simpl. lia.
  - unfold sequences. rewrite fmap_app. change (sequence <$> [e]) with [sequence e]. by rewrite last_snoc.
Qed.

Lemma accept_all_ok v0 es : accepted_ok v0 (accept_all v0 es).
Proof.
  unfold accept_all. induction es as [|e es IH] using rev_ind; [|rewrite foldl_snoc; by apply accept_step_ok].
  split_and!; try done; try lia; constructor.
Qed.

(** An authenticated session accepts only valid messages of its own network,
    peer and session identifier, in strictly increasing sequence: whatever
    arrives, a message is accepted exactly when its number is above zero and
    above every number accepted before, so nothing is accepted twice. *)
Theorem session_refuses_replay (n : NetworkId) (s : NodeId) (id : bytes 16) (es : list ControlEnvelope)
    (e : ControlEnvelope) :
  match verified_new n s id with
  | Err _ => n = zero_id \/ s = zero_id \/ all_zero id = true
  | Ok v0 =>
    let (v, out) := accept_all v0 es in
    let in_context m := validate m = Ok () /\ env_network m = n /\ sender m = s /\ session_id m = id in
    Forall in_context out /\ StronglySorted Z.lt (sequences out) /\
    (is_ok (accept e v).1 = true <->
       in_context e /\ (0 < sequence e)%Z /\ forall m, m ∈ out -> (sequence m < sequence e)%Z)
  end.
Proof.
  unfold verified_new. case_bool_decide as Hn; [by left|]. case_bool_decide as Hs; [by right; left|]. cbn [orb].
  cbn [guard_err]. destruct (all_zero id) eqn:Hz; cbn [guard_err]; [by right; right|].
  set (v0 := mkVerified n s id 0). pose proof (accept_all_ok v0 es) as Hok.
  destruct (accept_all v0 es) as [v out]. destruct Hok as (H1 & H2 & H3 & Hle & Hall & Hsort & Hlast).
  simpl in *. rewrite Forall_forall in Hall. split_and!; [|done|].
  - apply Forall_forall. intros m Hm. destruct (Hall m Hm) as (? & ? & ? & ? & _). by split_and!.
  - split.
    + destruct (accept e v) as [[[]|err] v'] eqn:Ha; [intros _|done].
      apply accept_Ok in Ha as (Hv & He1 & He2 & He3 & Hlt & _).
      split_and!; [done|congruence|congruence|congruence|lia|].
      intros m Hm. destruct (Hall m Hm) as (_ & _ & _ & _ & ?). lia.
    + intros ((Hv & He1 & He2 & He3) & Hpos & Hnew).
      assert (last_sequence v < sequence e)%Z as Hlt.
      { rewrite Hlast. destruct (last (sequences out)) as [q|] eqn:Hq; [|done].
        apply last_Some_elem_of, list_elem_of_fmap in Hq as (m & -> & Hm). by apply Hnew. }
      by rewrite (proj2 (accept_Ok e v (mkVerified (v_network v) (v_sender v) (v_session v) (sequence e))))
        by (split_and!; congruence || done).
Qed.
