(* ===== verification/ControlStream.v ===== *)
(** The incremental frame decoder:
    [crates/blueroute-protocol/src/control_stream.rs]. *)

From S2P Require Import Prelude Ident ControlFrame.

Definition HEADER_BYTES : nat := 4.
Definition MAX_STREAM_FEED_BYTES : Z := 64 * 1024.
Definition MAX_FRAMES_PER_FEED : nat := 64.

Inductive StreamDecodeError := ChunkTooLarge | FrameLimit | MalformedFrame | Finished | Poisoned.

Record ControlStreamDecoder := mkDecoder {
  partial : list Z;
  expected : option nat;
  poisoned : bool;
  finished : bool;
}.
Definition decoder_new : ControlStreamDecoder := mkDecoder [] None false false.

Definition reject (d : ControlStreamDecoder) : ControlStreamDecoder := mkDecoder [] None true (finished d).
Definition with_partial (p : list Z) (x : option nat) (d : ControlStreamDecoder) : ControlStreamDecoder :=
  mkDecoder p x (poisoned d) (finished d).

Section stream.
Variable from_slice : list Z -> option ControlEnvelope.

Abbreviation feed_result := (result StreamDecodeError (list ControlEnvelope) * ControlStreamDecoder)%type.

(** The [while] loop of [feed]; [None] when the fuel runs out. *)
Fixpoint feed_loop (fuel : nat) (input : list Z) (completed : list ControlEnvelope) (d : ControlStreamDecoder) :
  option feed_result :=
  match fuel with
  | 0 => None
  | S fuel =>
    if bool_decide (input = []) then Some (Ok completed, d) else
    let target := default HEADER_BYTES (expected d) in
    let needed := target - length (partial d) in
    let count := Nat.min needed (length input) in
    let p := partial d ++ take count input in
    let input := drop count input in
    if negb (length p =? target) then feed_loop fuel input completed (with_partial p (expected d) d)
    else match expected d with
    | None =>
      match read_control_length p with
      | Ok size => feed_loop fuel input completed (with_partial p (Some (HEADER_BYTES + size)) d)
      | Err _ => Some (Err MalformedFrame, reject d)
      end
    | Some _ =>
      match decode_control_frame from_slice p with
      | Err _ => Some (Err MalformedFrame, reject d)
      | Ok envelope =>
        if MAX_FRAMES_PER_FEED <=? length completed then Some (Err FrameLimit, reject d)
        else feed_loop fuel input (completed ++ [envelope]) (with_partial [] None d)
      end
    end
  end.

Definition feed (chunk : list Z) (d : ControlStreamDecoder) : option feed_result :=
  if poisoned d then Some (Err Poisoned, d)
  else if finished d then Some (Err Finished, d)
  else if (MAX_STREAM_FEED_BYTES <? Z.of_nat (length chunk))%Z then Some (Err ChunkTooLarge, reject d)
  else feed_loop (S (length chunk)) chunk [] d.

Definition finish : stres ControlStreamDecoder StreamDecodeError () := fun d =>
  if poisoned d then (Err Poisoned, d)
  else if finished d then (Err Finished, d)
  else if negb (bool_decide (partial d = [])) || bool_decide (is_Some (expected d))
  then (Err MalformedFrame, reject d)
  else (Ok (), mkDecoder (partial d) (expected d) (poisoned d) true).

(** ** The reference: split a whole buffer into frames

    At most [room] frames; what is left is a frame that is not complete. *)
Fixpoint split_frames (room : nat) (buf : list Z) : result StreamDecodeError (list ControlEnvelope * list Z) :=
  if length buf <? HEADER_BYTES then Ok ([], buf) else
  n ← map_err (fun _ => MalformedFrame) (read_control_length buf);
  if length buf <? HEADER_BYTES + n then Ok ([], buf) else
  e ← map_err (fun _ => MalformedFrame) (decode_control_frame from_slice (take (HEADER_BYTES + n) buf));
  match room with
  | 0 => Err FrameLimit
  | S room =>
    '(es, rest) ← split_frames room (drop (HEADER_BYTES + n) buf);
    Ok (e :: es, rest)
  end.

(** What the header of a pending frame announces. *)
Definition announced (p : list Z) : option nat :=
  if length p <? HEADER_BYTES then None
  else match read_control_length p with Ok n => Some (HEADER_BYTES + n) | Err _ => None end.

(** What a fresh or used decoder holds: a frame that is not complete yet. *)
Definition decoder_ok (d : ControlStreamDecoder) : Prop :=
  Forall byte_ok (partial d) /\
  match expected d with
  | None => length (partial d) < HEADER_BYTES
  | Some t => exists n, read_control_length (partial d) = Ok n /\ t = HEADER_BYTES + n /\
      HEADER_BYTES <= length (partial d) < t
  end.

(** ** Facts *)

Lemma read_prefix p x :
  HEADER_BYTES <= length p -> read_control_length (p ++ x) = read_control_length p.
Proof.
  intros Hp. unfold read_control_length. rewrite take_app_le by done.
  replace (length (p ++ x) <? HEADER_LEN) with (length p <? HEADER_LEN); [done|].
  rewrite length_app. destruct (Nat.ltb_spec (length p) HEADER_LEN), (Nat.ltb_spec (length p + length x) HEADER_LEN);
    unfold HEADER_LEN, HEADER_BYTES in *; lia || done.
Qed.

Lemma read_control_length_len p n : read_control_length p = Ok n -> HEADER_BYTES <= length p.
Proof. unfold read_control_length. by destruct (Nat.ltb_spec (length p) HEADER_LEN). Qed.

Lemma decoder_ok_announced d : decoder_ok d -> expected d = announced (partial d).
Proof.
  intros [_ Hd]. unfold announced. destruct (expected d) as [t|].
  - destruct Hd as (n & Hn & -> & Hl). destruct (Nat.ltb_spec (length (partial d)) HEADER_BYTES); [lia|].
    by rewrite Hn.
  - by destruct (Nat.ltb_spec (length (partial d)) HEADER_BYTES); [|lia].
Qed.

Lemma decoder_ok_split d room : decoder_ok d -> split_frames room (partial d) = Ok ([], partial d).
Proof.
  intros [_ Hd]. destruct room; cbn [split_frames].
  all: destruct (Nat.ltb_spec (length (partial d)) HEADER_BYTES) as [|Hge]; [done|].
  all: destruct (expected d) as [t|]; [|lia]; destruct Hd as (n & Hn & -> & Hl); rewrite Hn; cbn [map_err mbind result_bind].
  all: by destruct (Nat.ltb_spec (length (partial d)) (HEADER_BYTES + n)); [|lia].
Qed.

(** A complete frame at the head of a buffer. *)
Lemma split_frames_step room p x n :
  read_control_length p = Ok n -> length p = HEADER_BYTES + n ->
  split_frames room (p ++ x) =
    (e ← map_err (fun _ => MalformedFrame) (decode_control_frame from_slice p);
     match room with
     | 0 => Err FrameLimit
     | S room => '(es, rest) ← split_frames room x; Ok (e :: es, rest)
     end).
Proof.
  intros Hn Hl. pose proof (read_control_length_len p n Hn) as Hp.
  destruct room; cbn [split_frames]; rewrite read_prefix, Hn by done; cbn [map_err mbind result_bind].
  all: rewrite <- Hl, take_app_length, ?drop_app_length.
  all: destruct (Nat.ltb_spec (length (p ++ x)) HEADER_BYTES) as [Hc|]; [rewrite length_app in Hc; lia|].
  all: destruct (Nat.ltb_spec (length (p ++ x)) (length p)) as [Hc|]; [rewrite length_app in Hc; lia|done].
Qed.

Lemma split_frames_bad_header room p x err :
  HEADER_BYTES <= length p -> read_control_length p = Err err -> split_frames room (p ++ x) = Err MalformedFrame.
Proof.
  intros Hp Hn. destruct room; cbn [split_frames]; rewrite read_prefix, Hn by done; cbn [map_err mbind result_bind].
  all: destruct (Nat.ltb_spec (length (p ++ x)) HEADER_BYTES) as [Hc|]; [rewrite length_app in Hc; lia|done].
Qed.

(** The outcome of a feed, computed from the reference. *)
Definition feed_outcome (completed : list ControlEnvelope) (d : ControlStreamDecoder)
  (r : result StreamDecodeError (list ControlEnvelope * list Z)) : feed_result :=
  match r with
  | Ok (es, rest) => (Ok (completed ++ es), with_partial rest (announced rest) d)
  | Err e => (Err e, reject d)
  end.

Lemma decoder_ok_grow d c :
  decoder_ok d -> Forall byte_ok c ->
  length (partial d ++ c) < default HEADER_BYTES (expected d) ->
  decoder_ok (with_partial (partial d ++ c) (expected d) d).
Proof.
  intros [Hb Hd] Hc Hlt. split; [by apply Forall_app|]. simpl. destruct (expected d) as [t|]; [|done].
  destruct Hd as (n & Hn & -> & Hl). exists n. rewrite read_prefix by lia. split_and!; [done|done| |done].
  rewrite length_app. lia.
Qed.

Lemma decoder_ok_header p n d :
  Forall byte_ok p -> length p = HEADER_BYTES -> read_control_length p = Ok n ->
  decoder_ok (with_partial p (Some (HEADER_BYTES + n)) d).
Proof.
  intros Hb Hl Hn. split; [done|]. simpl. exists n. split_and!; [done|done|lia|].
  apply read_control_length_Ok in Hn as (_ & _ & ?); [unfold HEADER_BYTES in *; lia|done].
Qed.

Lemma feed_loop_spec fuel input completed d :
  decoder_ok d -> Forall byte_ok input -> length input < fuel -> length completed <= MAX_FRAMES_PER_FEED ->
  feed_loop fuel input completed d =
    Some (feed_outcome completed d (split_frames (MAX_FRAMES_PER_FEED - length completed) (partial d ++ input))).
Proof.
  revert input completed d. induction fuel as [|fuel IH]; intros input completed d Hok Hin Hfuel Hcap; [lia|].
  cbn [feed_loop]. case_bool_decide as Hnil.
  { subst. rewrite app_nil_r, decoder_ok_split by done. cbn [feed_outcome].
    rewrite app_nil_r, <- decoder_ok_announced by done. by destruct d. }
  assert (length input <> 0) as Hlen by (by destruct input).
  set (target := default HEADER_BYTES (expected d)).
  assert (length (partial d) < target) as Hlt.
  { destruct Hok as [_ Hd]. unfold target. destruct (expected d); [|done]. destruct Hd as (? & _ & _ & Hl). apply Hl. }
  set (count := Nat.min _ _). set (p := partial d ++ take count input). set (input' := drop count input).
  assert (partial d ++ input = p ++ input') as Hsplit by (unfold p, input'; by rewrite <- app_assoc, take_drop).
  assert (length p = Nat.min target (length (partial d) + length input)) as Hp.
  { unfold p. rewrite length_app, length_take. lia. }
  assert (Forall byte_ok (take count input)) as Hc by (by apply Forall_take).
  assert (Forall byte_ok p) as Hpb by (apply Forall_app; split; [apply Hok|done]).
  assert (Forall byte_ok input') as Hin' by (by apply Forall_drop).
  assert (length input' < fuel) as Hfuel' by (unfold input'; rewrite length_drop; lia).
  rewrite Hsplit. destruct (Nat.eqb_spec (length p) target) as [Heq|Hne]; cbn [negb].
  2:{ rewrite IH; [done| |done|done|done]. apply decoder_ok_grow; [done|done|].
      change (length p < target). lia. }
  destruct (expected d) as [t|] eqn:Hexp; cbn [default from_option] in target.
  - destruct Hok as [_ Hd]. rewrite Hexp in Hd. destruct Hd as (n & Hn & Ht & Hl).
    assert (read_control_length p = Ok n) as Hn' by (unfold p; rewrite read_prefix by lia; done).
    rewrite (split_frames_step _ p input' n) by (done || (unfold target in Heq; simpl in Heq; lia)).
    destruct (decode_control_frame from_slice p) as [e|err]; cbn [map_err mbind result_bind]; [|done].
    destruct (Nat.leb_spec MAX_FRAMES_PER_FEED (length completed)).
    + by replace (MAX_FRAMES_PER_FEED - length completed) with 0 by lia.
    + replace (MAX_FRAMES_PER_FEED - length completed) with (S (MAX_FRAMES_PER_FEED - length (completed ++ [e])))
        by (rewrite length_app; simpl; lia).
      rewrite IH; [|split; simpl; [done|unfold HEADER_BYTES; lia]|done|done|rewrite length_app; simpl; lia].
      cbn [partial with_partial app].
      destruct (split_frames _ input') as [[es rest]|err]; cbn [mbind result_bind feed_outcome]; [|done].
      by rewrite <- app_assoc.
  - destruct (read_control_length p) as [n|err] eqn:Hn.
    + rewrite IH; [done|by apply decoder_ok_header|done|done|done].
    + rewrite (split_frames_bad_header _ p input' err); [done| |done]. unfold target in Heq. simpl in Heq. lia.
Qed.

Lemma split_frames_rest room buf es rest d :
  Forall byte_ok buf -> split_frames room buf = Ok (es, rest) ->
  decoder_ok (with_partial rest (announced rest) d) /\ length es <= room.
Proof.
  revert buf es. induction room as [|room IH]; intros buf es Hb; cbn [split_frames];
    destruct (Nat.ltb_spec (length buf) HEADER_BYTES) as [Hlt|Hge].
  1,3: intros [= <- <-]; split; [|simpl; lia]; split; [done|]; simpl; unfold announced;
    by destruct (Nat.ltb_spec (length buf) HEADER_BYTES); [|lia].
  all: destruct (read_control_length buf) as [n|err] eqn:Hn; cbn [map_err mbind result_bind]; [|done].
  all: destruct (Nat.ltb_spec (length buf) (HEADER_BYTES + n)).
  1,3: intros [= <- <-]; split; [|simpl; lia]; split; [done|]; simpl; unfold announced;
    destruct (Nat.ltb_spec (length buf) HEADER_BYTES); [lia|]; rewrite Hn; by exists n.
  all: destruct (decode_control_frame from_slice _) as [e|err]; cbn [map_err mbind result_bind]; [|done].
  1: done.
  destruct (split_frames room (drop (HEADER_BYTES + n) buf)) as [[es' rest']|err] eqn:Hs; cbn [mbind result_bind]; [|done].
  intros [= <- <-]. apply IH in Hs as [Hok Hle]; [|by apply Forall_drop]. split; [done|simpl; lia].
Qed.

Definition decodes (f : list Z) (e : ControlEnvelope) : Prop := decode_control_frame from_slice f = Ok e.

Lemma decodes_header f e : decodes f e -> exists n, read_control_length f = Ok n /\ length f = HEADER_BYTES + n.
Proof. intros (n & Hn & Hl & _)%decode_control_frame_Ok. by exists n. Qed.

(** Splitting a prefix of a sequence of well-formed frames. *)
(** How many of the frames [fs] end within the first [p] bytes of their
    concatenation, and how many end in the [n] bytes from [off] on. *)
Fixpoint frames_within (fs : list (list Z)) (p : nat) : nat :=
  match fs with
  | [] => 0
  | f :: fs' => if length f <=? p then S (frames_within fs' (p - length f)) else 0
  end.
Definition completed_at (fs : list (list Z)) (off n : nat) : nat := frames_within fs (off + n) - frames_within fs off.

Lemma frames_within_app fs fs' x : frames_within (fs ++ fs') (length (concat fs) + x) = length fs + frames_within fs' x.
Proof.
  induction fs as [|f fs IH]; [done|]. cbn [app concat frames_within length]. rewrite length_app.
  destruct (Nat.leb_spec (length f) (length f + length (concat fs) + x)); [|lia]. cbn [plus]. f_equal.
  rewrite <- IH. f_equal. lia.
Qed.

Lemma completed_at_app fs fs' off n :
  completed_at (fs ++ fs') (length (concat fs) + off) n = completed_at fs' off n.
Proof. unfold completed_at. rewrite <- Nat.add_assoc, !frames_within_app. lia. Qed.

Lemma frames_within_le fs p : frames_within fs p <= length fs.
Proof.
  revert p. induction fs as [|f fs IH]; intros p; simpl; [done|]. destruct (length f <=? p); [|lia].
  specialize (IH (p - length f)). lia.
Qed.

Lemma split_frames_counted fs es :
  Forall2 decodes fs es ->
  forall room buf more, buf ++ more = concat fs ->
  match split_frames room buf with
  | Ok (out, rest) => exists fs0 fs' es', fs = fs0 ++ fs' /\ es = out ++ es' /\ Forall2 decodes fs' es' /\
      buf = concat fs0 ++ rest /\ rest ++ more = concat fs' /\
      frames_within fs (length buf) = length fs0 /\ length fs0 <= room
  | Err x => x = FrameLimit /\ room < frames_within fs (length buf)
  end.
Proof.
  induction 1 as [|f e fs es Hf Hfs IH]; intros room buf more Heq.
  { apply app_eq_nil in Heq as [-> ->]. destruct room; simpl; exists [], [], []; split_and!; (done || (simpl; lia)). }
  destruct (decodes_header f e Hf) as (n & Hn & Hl). simpl in Heq. cbn [frames_within].
  destruct (Nat.leb_spec (length f) (length buf)) as [Hge|Hlt].
  - assert (exists k, buf = f ++ k /\ k ++ more = concat fs) as (k & -> & Hk).
    { apply app_eq_inv in Heq as [(k & -> & Hk)|(k & -> & Hk)]; [by exists k|].
      rewrite length_app in Hge. destruct k; [|simpl in Hge; lia]. exists []. by rewrite !app_nil_r. }
    rewrite (split_frames_step _ f k n) by done. unfold decodes in Hf. rewrite Hf. cbn [map_err mbind result_bind].
    replace (length (f ++ k) - length f) with (length k) by (rewrite length_app; lia).
    destruct room as [|room]; [split; [done|lia]|].
    specialize (IH room k more Hk). destruct (split_frames room k) as [[out rest]|x]; cbn [mbind result_bind].
    + destruct IH as (fs0 & fs' & es' & -> & -> & Hd & -> & Hr & Hc & Hle). exists (f :: fs0), fs', es'.
      cbn [app concat length]. rewrite <- app_assoc, Hc. split_and!; (done || lia).
    + split; [apply IH|lia].
  - assert (split_frames room buf = Ok ([], buf)) as ->.
    { apply app_eq_inv in Heq as [(k & -> & _)|(k & -> & _)]; [rewrite length_app in Hlt; lia|].
      destruct room; cbn [split_frames]; (destruct (Nat.ltb_spec (length buf) HEADER_BYTES) as [|Hb]; [done|]);
        rewrite read_prefix in Hn by done; rewrite Hn; cbn [map_err mbind result_bind];
        by destruct (Nat.ltb_spec (length buf) (HEADER_BYTES + n)); [|lia]. }
    exists [], (f :: fs), (e :: es). split_and!; [done|done|by constructor|done|done|done|simpl; lia].
Qed.

Lemma split_frames_of_frames fs es :
  Forall2 decodes fs es ->
  forall room buf more, buf ++ more = concat fs ->
  match split_frames room buf with
  | Ok (out, rest) => exists fs' es', es = out ++ es' /\ Forall2 decodes fs' es' /\ rest ++ more = concat fs'
  | Err x => x = FrameLimit /\ room < length es
  end.
Proof.
  intros Hfs room buf more Heq. pose proof (split_frames_counted fs es Hfs room buf more Heq) as Hs.
  destruct (split_frames room buf) as [[out rest]|x]; [naive_solver|]. destruct Hs as [-> Hr]. split; [done|].
  rewrite <- (Forall2_length _ _ _ Hfs). pose proof (frames_within_le fs (length buf)). lia.
Qed.

(** Feeding chunks one after the other, stopping at the first error. *)
Fixpoint feed_all (chunks : list (list Z)) (d : ControlStreamDecoder) : option feed_result :=
  match chunks with
  | [] => Some (Ok [], d)
  | c :: chunks =>
    match feed c d with
    | Some (Ok es, d') =>
      match feed_all chunks d' with Some (Ok es', d'') => Some (Ok (es ++ es'), d'') | o => o end
    | o => o
    end
  end.

(** An open decoder, between two feeds. *)
Definition decoder_open (d : ControlStreamDecoder) : Prop :=
  decoder_ok d /\ poisoned d = false /\ finished d = false.

Lemma feed_spec chunk d :
  decoder_open d -> Forall byte_ok chunk ->
  feed chunk d = Some (if (MAX_STREAM_FEED_BYTES <? Z.of_nat (length chunk))%Z then (Err ChunkTooLarge, reject d)
                       else feed_outcome [] d (split_frames MAX_FRAMES_PER_FEED (partial d ++ chunk))).
Proof.
  intros (Hok & Hp & Hf) Hb. unfold feed. rewrite Hp, Hf. destruct (_ <? _)%Z; [done|].
  rewrite feed_loop_spec; [done|done|done|lia|simpl; lia].
Qed.

Lemma feed_open chunk d es d' :
  decoder_open d -> Forall byte_ok chunk -> feed chunk d = Some (Ok es, d') -> decoder_open d'.
Proof.
  intros Hd Hb. rewrite feed_spec by done. destruct (_ <? _)%Z; [done|].
  destruct (split_frames _ _) as [[out rest]|x] eqn:Hs; cbn [feed_outcome]; [|done].
  intros [= <- <-]. destruct Hd as (Hok & Hp & Hf). split; [|done].
  eapply split_frames_rest; [|exact Hs]. apply Forall_app. split; [apply Hok|done].
Qed.

Lemma feed_all_open chunks d es d' :
  decoder_open d -> Forall (Forall byte_ok) chunks -> feed_all chunks d = Some (Ok es, d') -> decoder_open d'.
Proof.
  revert d es. induction chunks as [|c chunks IH]; intros d es Hd; simpl; [by intros _ [= <- <-]|].
  intros [Hc Hcs]%Forall_cons. destruct (feed c d) as [[[es1|x] d1]|] eqn:Hf; [|done|done].
  destruct (feed_all chunks d1) as [[[es2|x] d2]|] eqn:Hfs; [|done|done].
  intros [= <- <-]. eapply IH; [|done|exact Hfs]. by eapply feed_open.
Qed.

Lemma decoder_new_open : decoder_open decoder_new.
Proof. split_and!; try done. split; [constructor|simpl; unfold HEADER_BYTES; lia]. Qed.

(** A rejected decoder stays rejected. *)
Lemma reject_final d chunk :
  feed chunk (reject d) = Some (Err Poisoned, reject d) /\ finish (reject d) = (Err Poisoned, reject d).
Proof. done. Qed.

Lemma feed_error_final chunk d x d' :
  decoder_open d -> Forall byte_ok chunk -> feed chunk d = Some (Err x, d') -> d' = reject d.
Proof.
  intros Hd Hb. rewrite feed_spec by done. destruct (_ <? _)%Z; [by intros [= _ <-]|].
  destruct (split_frames _ _) as [[out rest]|y]; cbn [feed_outcome]; [done|]. by intros [= _ <-].
Qed.

(** Chunks of a sequence of well-formed frames. *)
Lemma feed_all_frames chunks d fs es :
  decoder_open d -> Forall (Forall byte_ok) chunks ->
  Forall (fun c => Z.of_nat (length c) <= MAX_STREAM_FEED_BYTES)%Z chunks ->
  Forall2 decodes fs es -> partial d ++ concat chunks = concat fs ->
  exists r d', feed_all chunks d = Some (r, d') /\
    match r with
    | Ok out => out = es /\ decoder_open d' /\ partial d' = []
    | Err x => x = FrameLimit /\ MAX_FRAMES_PER_FEED < length es
    end.
Proof.
  revert d fs es. induction chunks as [|c chunks IH]; intros d fs es Hd Hb Hl Hfs Heq; cbn [feed_all concat] in *.
  - exists (Ok []), d. split; [done|]. rewrite app_nil_r in Heq.
    destruct Hfs as [|f e fs es Hf Hfs]; [done|]. exfalso. simpl in Heq.
    destruct (decodes_header f e Hf) as (n & Hn & Hlen).
    pose proof (decoder_ok_split d 0 (proj1 Hd)) as Hs. rewrite Heq, (split_frames_step _ f (concat fs) n) in Hs by done.
    unfold decodes in Hf. by rewrite Hf in Hs.
  - apply Forall_cons in Hb as [Hbc Hb]. apply Forall_cons in Hl as [Hlc Hl].
    pose proof (feed_spec c d Hd Hbc) as Hfeed. rewrite (proj2 (Z.ltb_ge _ _)) in Hfeed by done.
    rewrite app_assoc in Heq. pose proof (split_frames_of_frames fs es Hfs MAX_FRAMES_PER_FEED _ _ Heq) as Hs.
    destruct (split_frames MAX_FRAMES_PER_FEED (partial d ++ c)) as [[out rest]|x]; cbn [feed_outcome app] in Hfeed.
    + destruct Hs as (fs' & es' & -> & Hfs' & Hrest). rewrite Hfeed.
      edestruct (IH (with_partial rest (announced rest) d)) as (r & d' & -> & Hr);
        [by eapply feed_open|done|done|exact Hfs'|exact Hrest|].
      destruct r as [out'|x].
      * eexists _, d'. split; [done|]. destruct Hr as [-> Hr]. done.
      * eexists _, d'. split; [done|]. split; [apply Hr|]. rewrite length_app. destruct Hr. lia.
    + rewrite Hfeed. eexists _, _. by split.
Qed.

(** C4. The incremental decoder is a refinement of splitting the whole buffer:
    after any chunks it accepted, a further chunk gives exactly the frames that
    the reference splits off what was pending and the chunk together, leaves
    pending what the reference leaves, and fails with the reference's error.
    The loop always returns, what is pending is always an incomplete frame of
    at most 16 KiB and its header, and an error is final: nothing is decoded
    after it. *)
Theorem stream_decoder_refines (chunks : list (list Z)) (es : list ControlEnvelope) (d : ControlStreamDecoder)
    (chunk next : list Z) :
  Forall (Forall byte_ok) chunks -> Forall byte_ok chunk ->
  feed_all chunks decoder_new = Some (Ok es, d) ->
  exists r d', feed chunk d = Some (r, d') /\
    (Z.of_nat (length (partial d)) < 4 + MAX_CONTROL_FRAME_BYTES)%Z /\
    ((Z.of_nat (length chunk) <= MAX_STREAM_FEED_BYTES)%Z ->
       match split_frames MAX_FRAMES_PER_FEED (partial d ++ chunk) with
       | Ok (out, rest) => r = Ok out /\ partial d' = rest
       | Err x => r = Err x
       end) /\
    (is_ok r = false -> feed next d' = Some (Err Poisoned, d') /\ finish d' = (Err Poisoned, d') /\ partial d' = []).
Proof.
  intros Hbs Hb Hall. pose proof (feed_all_open _ _ _ _ decoder_new_open Hbs Hall) as Hd.
  destruct (feed chunk d) as [[r d']|] eqn:Hfeed; [|by rewrite feed_spec in Hfeed].
  exists r, d'. split; [done|]. split_and!.
  - destruct Hd as [[Hpb Hd] _]. destruct (expected d) as [t|].
    + destruct Hd as (n & Hn & -> & Hl). apply read_control_length_Ok in Hn as (_ & _ & Hn); [|done].
      unfold HEADER_BYTES in *. lia.
    + unfold HEADER_BYTES, MAX_CONTROL_FRAME_BYTES in *. lia.
  - intros Hlen. rewrite feed_spec, (proj2 (Z.ltb_ge _ _)) in Hfeed by done.
    destruct (split_frames _ _) as [[out rest]|x]; cbn [feed_outcome] in Hfeed; by injection Hfeed as <- <-.
  - destruct r as [|x]; [done|]. intros _. by rewrite (feed_error_final chunk d x d').
Qed.

(** Messages that were encoded arrive unchanged however the byte stream is
    cut: feeding any chunks of at most 64 KiB whose concatenation is the
    encoded frames yields exactly the messages in order, and the end of the
    stream is then a clean one.  The only way this can stop early is a chunk
    that completes more than 64 frames, which is refused as such. *)
Theorem stream_delivers_messages to_vec (es : list ControlEnvelope) (fs chunks : list (list Z)) :
  json_roundtrips to_vec from_slice ->
  Forall2 (fun e f => encode_control_frame to_vec e = Ok f) es fs ->
  concat chunks = concat fs -> Forall (Forall byte_ok) chunks ->
  Forall (fun c => Z.of_nat (length c) <= MAX_STREAM_FEED_BYTES)%Z chunks ->
  exists r d, feed_all chunks decoder_new = Some (r, d) /\
    match r with
    | Ok out => out = es /\ (finish d).1 = Ok ()
    | Err x => x = FrameLimit /\ MAX_FRAMES_PER_FEED < length es
    end.
Proof.
  intros Hjson Henc Heq Hb Hl.
  assert (Forall2 decodes fs es) as Hfs.
  { apply Forall2_flip. eapply Forall2_impl; [exact Henc|]. intros e f. by apply encode_decode. }
  destruct (feed_all_frames chunks decoder_new fs es decoder_new_open Hb Hl Hfs Heq) as (r & d & Hall & Hr).
  exists r, d. split; [done|]. destruct r as [out|x]; [|done]. destruct Hr as (-> & (Hok & Hp & Hf) & Hpart).
  split; [done|]. unfold finish. rewrite Hp, Hf, Hpart, decoder_ok_announced, Hpart by done. done.
Qed.

End stream.

Lemma stream_decoder_refines_witness :
  exists r d', feed sample_from_slice [2; 123; 125; 0]%Z (mkDecoder [0; 0; 0]%Z None false false) = Some (r, d') /\
    r = Ok [sample_heartbeat] /\ partial d' = [0]%Z.
Proof.
  destruct (stream_decoder_refines sample_from_slice [[0; 0]; [0]]%Z [] (mkDecoder [0; 0; 0]%Z None false false)
    [2; 123; 125; 0]%Z []) as (r & d' & Hf & _ & Hs & _).
  - repeat constructor; unfold byte_ok; lia.
  - repeat constructor; unfold byte_ok; lia.
  - vm_compute. reflexivity.
  - exists r, d'. split; [exact Hf|]. apply Hs. vm_compute. discriminate.
Defined.

Lemma stream_delivers_messages_witness :
  exists r d, feed_all sample_from_slice [[0; 0; 0]; [2; 123]; [125; 0; 0; 0; 2; 123; 125]]%Z decoder_new = Some (r, d) /\
    match r with
    | Ok out => out = [sample_heartbeat; sample_heartbeat] /\ (finish d).1 = Ok ()
    | Err x => x = FrameLimit /\ MAX_FRAMES_PER_FEED < 2
    end.
Proof.
  apply (stream_delivers_messages sample_from_slice sample_to_vec [sample_heartbeat; sample_heartbeat]
    [[0; 0; 0; 2; 123; 125]; [0; 0; 0; 2; 123; 125]]%Z).
  - exact sample_roundtrips.
  - repeat constructor; vm_compute; reflexivity.
  - reflexivity.
  - repeat constructor; unfold byte_ok; lia.
  - repeat constructor; vm_compute; discriminate.
Defined.
