(* ===== verification/PeerPins.v ===== *)
(** Public-key pins: [crates/blueroute-protocol/src/peer_pin.rs]. *)

From S2P Require Import Prelude Order Ident.

Inductive PeerPinError :=
| InvalidFingerprint | InvalidIdentity | UnknownEnrollment | KeyConflict | NotApprovedForNetwork | FingerprintMismatch.

(** ** Fingerprints *)

Record SpkiSha256 := mkSpki { spki : bytes 32 }.
#[global] Instance SpkiSha256_eq_dec : EqDecision SpkiSha256.
Proof. solve_decision. Defined.

Definition from_verified_certificate_digest (digest : bytes 32) : result PeerPinError SpkiSha256 :=
  guard_err (all_zero digest) InvalidFingerprint (Ok (mkSpki digest)).

(** The closure [hex]: lower case only. *)
Definition pin_nibble (v : Z) : option Z :=
  if (48 <=? v)%Z && (v <=? 57)%Z then Some (v - 48)%Z
  else if (97 <=? v)%Z && (v <=? 102)%Z then Some (v - 97 + 10)%Z
  else None.

(** [text] is the UTF-8 encoding of the string. *)
Definition parse_canonical_hex (text : list Z) : result PeerPinError SpkiSha256 :=
  guard_err (negb (length text =? 64)) InvalidFingerprint
  (l ← ok_or (decode_pairs pin_nibble text) InvalidFingerprint;
   digest ← ok_or (bytes_of_list 32 l) InvalidFingerprint;
   from_verified_certificate_digest digest).

Definition to_canonical_hex (p : SpkiSha256) : list Z := encode_hex (bytes_list (spki p)).

(** ** The pin table *)

Abbreviation PinKey := (NetworkId * NodeId)%type.
(** [PeerKeyPins]: its one field is the pin map. *)
Abbreviation PeerKeyPins := (gmap PinKey SpkiSha256).

Definition zero_identity (n : NetworkId) (s : NodeId) : bool :=
  bool_decide (n = zero_id) || bool_decide (s = zero_id).

(** [pins.iter().any(...)]: another node of the network holds this key. *)
Definition pin_taken (n : NetworkId) (s : NodeId) (pin : SpkiSha256) (t : PeerKeyPins) : bool :=
  existsb (fun kp => bool_decide (kp.1.1 = n) && negb (bool_decide (kp.1.2 = s)) && bool_decide (kp.2 = pin))
    (map_to_list t).

Definition enroll_verified (n : NetworkId) (s : NodeId) (pin : SpkiSha256) : stres PeerKeyPins PeerPinError bool :=
  fun t =>
  if zero_identity n s then (Err InvalidIdentity, t)
  else if pin_taken n s pin t then (Err KeyConflict, t)
  else match t !! (n, s) with
  | Some existing => if bool_decide (existing = pin) then (Ok false, t) else (Err KeyConflict, t)
  | None => (Ok true, <[(n, s) := pin]> t)
  end.

Definition revoke (n : NetworkId) (s : NodeId) (t : PeerKeyPins) : bool * PeerKeyPins :=
  (bool_decide (is_Some (t !! (n, s))), delete (n, s) t).

Definition authorize (n : NetworkId) (s : NodeId) (current_network_approval : bool) (verified : SpkiSha256)
  (t : PeerKeyPins) : result PeerPinError () :=
  guard_err (zero_identity n s) InvalidIdentity
  (guard_err (negb current_network_approval) NotApprovedForNetwork
  (expected ← ok_or (t !! (n, s)) UnknownEnrollment;
   guard_err (negb (bool_decide (expected = verified))) FingerprintMismatch (Ok ()))).

Definition entries (t : PeerKeyPins) : list (NetworkId * NodeId * SpkiSha256) :=
  (fun kp => (kp.1.1, kp.1.2, kp.2)) <$> iter_map t.

(** ** Histories *)

Inductive pin_op :=
| OpEnroll (n : NetworkId) (s : NodeId) (pin : SpkiSha256)
| OpRevoke (n : NetworkId) (s : NodeId).

Definition run_pin_op (t : PeerKeyPins) (o : pin_op) : PeerKeyPins :=
  match o with
  | OpEnroll n s pin => (enroll_verified n s pin t).2
  | OpRevoke n s => (revoke n s t).2
  end.
Definition run_pins (l : list pin_op) : PeerKeyPins := foldl run_pin_op ∅ l.

Definition pins_ok (t : PeerKeyPins) : Prop :=
  (forall n s p, t !! (n, s) = Some p -> zero_identity n s = false) /\
  (forall n s s' p, t !! (n, s) = Some p -> t !! (n, s') = Some p -> s = s').

(** What an operation does to one peer's pin: nothing, a first enrollment, or
    a revocation. *)
Inductive pin_step (k : PinKey) : pin_op -> option SpkiSha256 -> option SpkiSha256 -> Prop :=
| ps_same o p : o <> OpRevoke k.1 k.2 -> pin_step k o p p
| ps_enroll pin : pin_step k (OpEnroll k.1 k.2 pin) None (Some pin)
| ps_revoke p : pin_step k (OpRevoke k.1 k.2) p None.

(** ** Facts *)

Lemma pin_taken_false n s pin t :
  pin_taken n s pin t = false <-> forall s', t !! (n, s') = Some pin -> s' = s.
Proof.
  unfold pin_taken. rewrite <- not_true_iff_false, existsb_exists. split.
  - intros Hno s' Hs. destruct (decide (s' = s)) as [|Hne]; [done|]. exfalso. apply Hno.
    exists ((n, s'), pin). rewrite <- list_elem_of_In, elem_of_map_to_list. split; [done|]. cbn [fst snd].
    rewrite !andb_true_iff, negb_true_iff, !bool_decide_eq_true, bool_decide_eq_false. done.
  - intros Hall ([[n' s'] pin'] & Hin%list_elem_of_In%elem_of_map_to_list & Hb). simpl in Hb.
    apply andb_true_iff in Hb as [[Hn Hs]%andb_true_iff Hp]. apply bool_decide_eq_true in Hn, Hp. subst.
    by rewrite bool_decide_eq_true_2 in Hs by eauto.
Qed.

Lemma run_pin_op_ok t o : pins_ok t -> pins_ok (run_pin_op t o).
Proof.
  intros [Hz Hinj]. destruct o as [n s pin|n s]; simpl.
  - unfold enroll_verified. destruct (zero_identity n s) eqn:Hzs; [done|].
    destruct (pin_taken n s pin t) eqn:Ht; [done|]. rewrite pin_taken_false in Ht.
    destruct (t !! (n, s)) as [old|] eqn:Hold; [by case_bool_decide|]. simpl. split.
    + intros n' s' p [[[= <- <-] <-]|[_ Hp]]%lookup_insert_Some; [done|]. by eapply Hz.
    + intros n' s1 s2 p [[[= <- <-] <-]|[Hne1 Hp1]]%lookup_insert_Some
        [[Heq2 Hpin2]|[Hne2 Hp2]]%lookup_insert_Some.
      * congruence.
      * symmetry. by apply Ht.
      * simplify_eq. by apply Ht.
      * by eapply Hinj.
  - split.
    + intros n' s' p [_ Hp]%lookup_delete_Some. by eapply Hz.
    + intros n' s1 s2 p [_ Hp1]%lookup_delete_Some [_ Hp2]%lookup_delete_Some. by eapply Hinj.
Qed.

Lemma run_pins_ok l : pins_ok (run_pins l).
Proof.
  unfold run_pins. induction l as [|o l IH] using rev_ind; [|rewrite foldl_snoc; by apply run_pin_op_ok].
  split; intros; by simplify_map_eq.
Qed.

Lemma authorize_Ok n s a pin t :
  authorize n s a pin t = Ok () <-> zero_identity n s = false /\ a = true /\ t !! (n, s) = Some pin.
Proof.
  unfold authorize. rewrite !guard_err_Ok, result_bind_Ok, negb_false_iff. setoid_rewrite ok_or_Ok.
  setoid_rewrite guard_err_Ok. setoid_rewrite negb_false_iff. setoid_rewrite bool_decide_eq_true. naive_solver.
Qed.

Lemma run_pin_op_step t o k : pin_step k o (t !! k) (run_pin_op t o !! k).
Proof.
  destruct k as [n s], o as [n' s' pin|n' s']; simpl.
  - unfold enroll_verified. destruct (zero_identity n' s'); [by constructor|].
    destruct (pin_taken n' s' pin t); [by constructor|].
    destruct (t !! (n', s')) as [old|] eqn:Hold; [case_bool_decide; by constructor|]. simpl.
    destruct (decide ((n', s') = (n, s))) as [[= -> ->]|Hne].
    + rewrite lookup_insert_eq, Hold. apply (ps_enroll (n, s)).
    + rewrite lookup_insert_ne by done. by constructor.
  - destruct (decide ((n', s') = (n, s))) as [[= -> ->]|Hne].
    + rewrite lookup_delete_eq. apply (ps_revoke (n, s)).
    + rewrite lookup_delete_ne by done. apply ps_same. intros [= -> ->]. by apply Hne.
Qed.

Lemma pin_nibble_spec v n : pin_nibble v = Some n -> decode_nibble v = Some n /\ ascii_lower v = v.
Proof.
  unfold pin_nibble, decode_nibble, ascii_lower. repeat case_match; intros [= <-]; split; done || lia.
Qed.

Lemma pin_pairs_spec n l bs :
  length l = n * 2 -> decode_pairs pin_nibble l = Some bs ->
  decode_pairs decode_nibble l = Some bs /\ map ascii_lower l = l.
Proof.
  revert l bs. induction n as [|n IH]; intros l bs Hlen.
  { destruct l; [by intros [= <-] | done]. }
  destruct l as [|h [|o l]]; [done..|]. cbn [decode_pairs map].
  destruct (pin_nibble h) as [nh|] eqn:Hh; [|done]. destruct (pin_nibble o) as [no|] eqn:Ho; [|done]. simpl.
  destruct (decode_pairs pin_nibble l) as [b|] eqn:Hl; [|done]. intros [= <-].
  apply pin_nibble_spec in Hh as [-> ->], Ho as [-> ->].
  by destruct (IH l b ltac:(simpl in Hlen; lia) Hl) as [-> ->].
Qed.

Lemma pin_encode_pairs l :
  Forall (fun b => 0 <= b < 256)%Z l -> decode_pairs pin_nibble (encode_hex l) = Some l.
Proof.
  assert (forall n, (0 <= n < 16)%Z -> pin_nibble (hex_digit n) = Some n) as Hd.
  { intros n Hn. unfold pin_nibble, hex_digit. repeat case_match; first [f_equal; lia | exfalso; lia]. }
  induction 1 as [|b l Hb _ IH]; simpl; [done|]. destruct (nibble_split b Hb) as (Hh & Hlo & Hj).
  rewrite !Hd by done. simpl. rewrite IH. simpl. by rewrite Hj.
Qed.

(** Fingerprint text is canonical: a text parses to a pin exactly when it is the
    lower-case text of that pin, and the pin is not all zero. *)
Lemma parse_canonical_hex_exact (text : list Z) (p : SpkiSha256) :
  parse_canonical_hex text = Ok p <-> to_canonical_hex p = text /\ all_zero (spki p) = false.
Proof.
  unfold parse_canonical_hex, to_canonical_hex, from_verified_certificate_digest.
  rewrite guard_err_Ok, negb_false_iff, Nat.eqb_eq, result_bind_Ok. setoid_rewrite result_bind_Ok.
  setoid_rewrite ok_or_Ok. setoid_rewrite guard_err_Ok. split.
  - intros (Hlen & bs & Hbs & d & Hd & Hz & [= <-]). split; [|done]. simpl.
    apply (pin_pairs_spec 32) in Hbs as [Hbs Hlow]; [|done].
    pose proof (decode_pairs_spec 32 text Hlen) as Hspec. rewrite Hbs in Hspec.
    destruct Hspec as (_ & Hr & Hl & Henc). destruct (bytes_of_list_wf 32 bs Hl Hr) as (x & Hx & Hxl).
    simplify_eq. by rewrite Henc.
  - intros [<- Hz]. rewrite length_encode_hex, bytes_length. split; [done|].
    exists (bytes_list (spki p)). split; [apply pin_encode_pairs, bytes_range|].
    exists (spki p). split; [apply bytes_of_list_Some|]. split; [done|]. by destruct p.
Qed.

(** A pinned key binds: over any history of enrollments and revocations, a
    peer is authorized exactly when the network currently approves it and the
    key it proved is the one enrolled for it; no two peers of a network ever
    share a key and no zero identity is enrolled.  A peer's pin is only ever
    set when it had none and only ever cleared by its own revocation, so a key
    cannot be replaced silently. *)
Theorem pins_bind_keys (l : list pin_op) (o : pin_op) (n : NetworkId) (s : NodeId) (approval : bool)
    (pin : SpkiSha256) :
  let t := run_pins l in
  (authorize n s approval pin t = Ok () <-> approval = true /\ t !! (n, s) = Some pin) /\
  (forall s', t !! (n, s) = Some pin -> t !! (n, s') = Some pin -> s = s') /\
  (t !! (n, s) = Some pin -> n <> zero_id /\ s <> zero_id) /\
  (forall k, pin_step k o (t !! k) (run_pin_op t o !! k)) /\
  ((enroll_verified n s pin t).1 = Ok true <->
     n <> zero_id /\ s <> zero_id /\ t !! (n, s) = None /\ forall s', t !! (n, s') <> Some pin).
Proof.
  intros t. destruct (run_pins_ok l) as [Hz Hinj]. fold t in Hz, Hinj.
  assert (zero_identity n s = false <-> n <> zero_id /\ s <> zero_id) as Hzs.
  { unfold zero_identity. by rewrite orb_false_iff, !bool_decide_eq_false. }
  split_and!.
  - rewrite authorize_Ok. split; [by intros (_ & ? & ?)|]. intros [Ha Hp]. split_and!; [by eapply Hz|done|done].
  - intros s'. by apply Hinj.
  - intros Hp. by apply Hzs, (Hz n s pin).
  - intros k. apply run_pin_op_step.
  - unfold enroll_verified. destruct (zero_identity n s) eqn:Hzero.
    { split; [done|]. intros (H1 & H2 & _). exfalso. pose proof (proj2 Hzs (conj H1 H2)). discriminate. }
    destruct (pin_taken n s pin t) eqn:Htk.
    + split; [done|]. intros (_ & _ & _ & Hno). rewrite (proj2 (pin_taken_false n s pin t)) in Htk; [done|].
      intros s' Hs'. by destruct (Hno s').
    + rewrite pin_taken_false in Htk. destruct (t !! (n, s)) as [old|] eqn:Hold.
      * case_bool_decide; (split; [done|]); by intros (_ & _ & ? & _).
      * simpl. split; [intros _|done]. destruct (proj1 Hzs eq_refl). split_and!; [done..|].
        intros s' Hs'. pose proof (Htk s' Hs'). subst. congruence.
Qed.
