(* ===== verification/ControlIo.v ===== *)
(** Bounded frame I/O: [crates/blueroute-protocol/src/control_io.rs].

    A byte stream is whatever implements [Read], [Write] and the two timeout
    setters, over a state of its own; the clock is part of that state.  A loop
    over such a stream need not end, so an I/O computation is a function with
    fuel that may run out; [read_exact_until_total] and
    [write_until_total] give the fuel that is enough. *)

From S2P Require Import Prelude Ident ControlFrame.

Local Open Scope Z_scope.

(** ** Errors *)

(** [io::ErrorKind], as far as the code distinguishes it. *)
Inductive IoError := TimedOut | WouldBlock | Interrupted | UnexpectedEof | WriteZero | OtherIo (code : Z).
#[global] Instance IoError_eq_dec : EqDecision IoError.
Proof. solve_decision. Defined.

Inductive ControlIoError := Io (e : IoError) | Frame (e : ControlFrameError).

(** ** Computations over a stream *)

(** [None] is running out of fuel. *)
Definition io (S E A : Type) : Type := S -> option (result E A * S).

Definition io_ret {S E A : Type} (a : A) : io S E A := fun s => Some (Ok a, s).
Definition io_fail {S E A : Type} (e : E) : io S E A := fun s => Some (Err e, s).
Definition io_lift {S E A : Type} (r : result E A) : io S E A := fun s => Some (r, s).
Definition io_call {S E A : Type} (m : stres S E A) : io S E A := fun s => Some (m s).
Definition io_bind {S E A B : Type} (m : io S E A) (k : A -> io S E B) : io S E B := fun s =>
  match m s with
  | Some (Ok a, s') => k a s'
  | Some (Err e, s') => Some (Err e, s')
  | None => None
  end.
Definition io_map_err {S E F A : Type} (f : E -> F) (m : io S E A) : io S F A := fun s =>
  match m s with Some (r, s') => Some (map_err f r, s') | None => None end.

Notation "'let?' x := m 'in' k" := (io_bind m (fun x => k))
  (at level 10, x pattern, m at level 100, k at level 200) : rust_scope.

(** ** The stream *)

(** [DeadlineControlRead] and [DeadlineControlWrite] with the methods of [Read]
    and [Write] the code calls.  [read n] is a read into a buffer of [n] bytes
    and returns those it wrote there. *)
Class DeadlineStream (S : Type) := {
  now : S -> Z * S;
  set_control_read_timeout : Z -> stres S IoError ();
  set_control_write_timeout : Z -> stres S IoError ();
  read : nat -> stres S IoError (list Z);
  write : list Z -> stres S IoError nat;
}.

Section io.
Context {S : Type} `{DeadlineStream S}.
Variable to_vec : ControlEnvelope -> option (list Z).
Variable from_slice : list Z -> option ControlEnvelope.

(** [Instant::saturating_duration_since] and the test for zero. *)
Definition remaining_budget (deadline : Z) : stres S IoError Z := fun s =>
  let (t, s') := now s in
  let remaining := Z.max (deadline - t) 0 in
  (if remaining =? 0 then Err TimedOut else Ok remaining, s').

(** The [match] on the result of one read or write. *)
Definition retry_error (e : IoError) : option IoError :=
  match e with
  | Interrupted => None
  | TimedOut | WouldBlock => Some TimedOut
  | _ => Some e
  end.

(** Reads until [missing] more bytes have arrived. *)
Fixpoint read_exact_until (fuel : nat) (missing : nat) (deadline : Z) : io S IoError (list Z) :=
  match fuel with
  | O => fun _ => None
  | Datatypes.S fuel =>
    match missing with
    | O => let? _ := io_call (remaining_budget deadline) in io_ret []
    | _ =>
      let? budget := io_call (remaining_budget deadline) in
      let? _ := io_call (set_control_read_timeout budget) in
      fun s =>
      match read missing s with
      | (Ok [], s') => Some (Err UnexpectedEof, s')
      | (Ok got, s') =>
          (let? rest := read_exact_until fuel (missing - length got) deadline in io_ret (got ++ rest)) s'
      | (Err e, s') =>
          match retry_error e with
          | None => read_exact_until fuel missing deadline s'
          | Some e' => Some (Err e', s')
          end
      end
    end
  end.

Definition read_one_control_frame_with_deadline (fuel : nat) (deadline : Z) : io S ControlIoError ControlEnvelope :=
  let? prefix := io_map_err Io (read_exact_until fuel 4 deadline) in
  let? len := io_lift (map_err Frame (read_control_length prefix)) in
  let? body := io_map_err Io (read_exact_until fuel len deadline) in
  io_lift (map_err Frame (decode_control_frame from_slice (prefix ++ body))).

(** Writes what is left of a frame. *)
Fixpoint write_until (fuel : nat) (bytes : list Z) (deadline : Z) : io S IoError () :=
  match fuel with
  | O => fun _ => None
  | Datatypes.S fuel =>
    match bytes with
    | [] => let? _ := io_call (remaining_budget deadline) in io_ret ()
    | _ =>
      let? budget := io_call (remaining_budget deadline) in
      let? _ := io_call (set_control_write_timeout budget) in
      fun s =>
      match write bytes s with
      | (Ok O, s') => Some (Err WriteZero, s')
      | (Ok count, s') => write_until fuel (drop count bytes) deadline s'
      | (Err e, s') =>
          match retry_error e with
          | None => write_until fuel bytes deadline s'
          | Some e' => Some (Err e', s')
          end
      end
    end
  end.

Definition write_one_control_frame_with_deadline (fuel : nat) (frame : ControlEnvelope) (deadline : Z) :
  io S ControlIoError () :=
  let? bytes := io_lift (map_err Frame (encode_control_frame to_vec frame)) in
  io_map_err Io (write_until fuel bytes deadline).

(** [Read::read_exact] and [Write::write_all] of the standard library. *)
Fixpoint read_exact (fuel : nat) (missing : nat) : io S IoError (list Z) :=
  match fuel, missing with
  | O, _ => fun _ => None
  | _, O => io_ret []
  | Datatypes.S fuel, _ => fun s =>
    match read missing s with
    | (Ok [], s') => Some (Err UnexpectedEof, s')
    | (Ok got, s') => (let? rest := read_exact fuel (missing - length got) in io_ret (got ++ rest)) s'
    | (Err Interrupted, s') => read_exact fuel missing s'
    | (Err e, s') => Some (Err e, s')
    end
  end.

Fixpoint write_all (fuel : nat) (bytes : list Z) : io S IoError () :=
  match fuel, bytes with
  | O, _ => fun _ => None
  | _, [] => io_ret ()
  | Datatypes.S fuel, _ => fun s =>
    match write bytes s with
    | (Ok O, s') => Some (Err WriteZero, s')
    | (Ok count, s') => write_all fuel (drop count bytes) s'
    | (Err Interrupted, s') => write_all fuel bytes s'
    | (Err e, s') => Some (Err e, s')
    end
  end.

Definition read_one_control_frame (fuel : nat) : io S ControlIoError ControlEnvelope :=
  let? prefix := io_map_err Io (read_exact fuel 4) in
  let? len := io_lift (map_err Frame (read_control_length prefix)) in
  let? body := io_map_err Io (read_exact fuel len) in
  io_lift (map_err Frame (decode_control_frame from_slice (prefix ++ body))).

Definition write_one_control_frame (fuel : nat) (frame : ControlEnvelope) : io S ControlIoError () :=
  let? bytes := io_lift (map_err Frame (encode_control_frame to_vec frame)) in
  io_map_err Io (write_all fuel bytes).

End io.

(** A [TcpStream]: the timeouts can be read back and restored. *)
Class TimeoutSocket (S : Type) := {
  read_timeout : stres S IoError (option Z);
  set_read_timeout : option Z -> stres S IoError ();
  write_timeout : stres S IoError (option Z);
  set_write_timeout : option Z -> stres S IoError ();
}.

Section restore.
Context {S : Type} `{DeadlineStream S} `{TimeoutSocket S}.

(** Runs [m] between reading a timeout and putting it back; a failure to put it
    back takes precedence over the result. *)
Definition restoring {A : Type} (get : stres S IoError (option Z)) (set : option Z -> stres S IoError ())
  (m : io S ControlIoError A) : io S ControlIoError A :=
  let? original := io_map_err Io (io_call get) in
  fun s =>
  match m s with
  | None => None
  | Some (r, s') => (let? _ := io_map_err Io (io_call (set original)) in io_lift r) s'
  end.

Definition read_one_control_frame_until (from_slice : list Z -> option ControlEnvelope) (fuel : nat) (deadline : Z) :
  io S ControlIoError ControlEnvelope :=
  restoring read_timeout set_read_timeout (read_one_control_frame_with_deadline from_slice fuel deadline).

Definition write_one_control_frame_until (to_vec : ControlEnvelope -> option (list Z)) (fuel : nat)
  (frame : ControlEnvelope) (deadline : Z) : io S ControlIoError () :=
  restoring write_timeout set_write_timeout (write_one_control_frame_with_deadline to_vec fuel frame deadline).

End restore.

(** ** What a stream promises

    The documented contracts of [Read], [Write] and [Instant], as an interface:
    the bytes still to be read, the bytes written so far, the last clock
    reading, and how often calls will still be interrupted. *)
Class LawfulStream (S : Type) `{DeadlineStream S} := {
  incoming : S -> list Z;
  outgoing : S -> list Z;
  clock : S -> Z;
  interrupts : S -> nat;
  now_law : forall s t s', now s = (t, s') ->
    clock s <= t /\ clock s' = t /\ incoming s' = incoming s /\ outgoing s' = outgoing s /\
    (interrupts s' <= interrupts s)%nat;
  set_read_law : forall d s r s', set_control_read_timeout d s = (r, s') ->
    clock s <= clock s' /\ incoming s' = incoming s /\ outgoing s' = outgoing s /\
    (interrupts s' <= interrupts s)%nat;
  set_write_law : forall d s r s', set_control_write_timeout d s = (r, s') ->
    clock s <= clock s' /\ incoming s' = incoming s /\ outgoing s' = outgoing s /\
    (interrupts s' <= interrupts s)%nat;
  read_law : forall n s r s', read n s = (r, s') ->
    clock s <= clock s' /\ outgoing s' = outgoing s /\
    match r with
    | Ok got => (length got <= n)%nat /\ incoming s = got ++ incoming s' /\ (interrupts s' <= interrupts s)%nat
    | Err e => incoming s' = incoming s /\
        (if decide (e = Interrupted) then (interrupts s' < interrupts s)%nat else (interrupts s' <= interrupts s)%nat)
    end;
  write_law : forall bytes s r s', write bytes s = (r, s') ->
    clock s <= clock s' /\ incoming s' = incoming s /\
    match r with
    | Ok k => (k <= length bytes)%nat /\ outgoing s' = outgoing s ++ take k bytes /\ (interrupts s' <= interrupts s)%nat
    | Err e => outgoing s' = outgoing s /\
        (if decide (e = Interrupted) then (interrupts s' < interrupts s)%nat else (interrupts s' <= interrupts s)%nat)
    end;
}.

(** ** Facts *)

Lemma io_bind_Some {S E A B : Type} (m : io S E A) (k : A -> io S E B) s r s' :
  io_bind m k s = Some (r, s') <->
  (exists a t, m s = Some (Ok a, t) /\ k a t = Some (r, s')) \/
  (exists e, m s = Some (Err e, s') /\ r = Err e).
Proof. unfold io_bind. destruct (m s) as [[[a|e] t]|]; naive_solver. Qed.

Lemma io_map_err_Some {S E F A : Type} (f : E -> F) (m : io S E A) s r s' :
  io_map_err f m s = Some (r, s') <-> exists r0, m s = Some (r0, s') /\ r = map_err f r0.
Proof. unfold io_map_err. destruct (m s) as [[r0 t]|]; naive_solver. Qed.

Lemma io_bind_total {S E A B : Type} (m : io S E A) (k : A -> io S E B) s :
  (exists r t, m s = Some (r, t) /\ forall a, r = Ok a -> exists x, k a t = Some x) ->
  exists x, io_bind m k s = Some x.
Proof. intros ([a|e] & t & Hm & Hk); unfold io_bind; rewrite Hm; [by apply Hk | by eexists]. Qed.

Section facts.
Context {S : Type} `{LawfulStream S}.

(** Between two states of a stream [got] was read and [sent] was written. *)
Definition moved (s s' : S) (got sent : list Z) : Prop :=
  clock s <= clock s' /\ incoming s = got ++ incoming s' /\ outgoing s' = outgoing s ++ sent /\
  (interrupts s' <= interrupts s)%nat.

Lemma moved_refl s : moved s s [] [].
Proof. split_and!; [lia|done|by rewrite app_nil_r|done]. Qed.

Lemma moved_trans s1 s2 s3 g1 g2 o1 o2 :
  moved s1 s2 g1 o1 -> moved s2 s3 g2 o2 -> moved s1 s3 (g1 ++ g2) (o1 ++ o2).
Proof.
  intros (Hc & Hi & Ho & Hn) (Hc' & Hi' & Ho' & Hn').
  split_and!; [lia|by rewrite <- app_assoc, <- Hi'|by rewrite app_assoc, <- Ho|lia].
Qed.

Lemma budget_moved d s r s' :
  remaining_budget d s = (r, s') -> moved s s' [] [] /\ (is_ok r = true -> clock s' < d).
Proof.
  unfold remaining_budget. destruct (now s) as [t t'] eqn:Hn.
  destruct (now_law s t t' Hn) as (Hc & Ht & Hi & Ho & Hk).
  destruct (Z.eqb_spec (Z.max (d - t) 0) 0); intros [= <- <-].
  - split; [|done]. split_and!; [lia|done|by rewrite app_nil_r|done].
  - split; [|intros _; lia]. split_and!; [lia|done|by rewrite app_nil_r|done].
Qed.

Lemma set_read_moved d s r s' : set_control_read_timeout d s = (r, s') -> moved s s' [] [].
Proof.
  intros (Hc & Hi & Ho & Hk)%set_read_law. split_and!; [lia|done|by rewrite app_nil_r|done].
Qed.

Lemma set_write_moved d s r s' : set_control_write_timeout d s = (r, s') -> moved s s' [] [].
Proof.
  intros (Hc & Hi & Ho & Hk)%set_write_law. split_and!; [lia|done|by rewrite app_nil_r|done].
Qed.

Lemma read_moved n s r s' :
  read n s = (r, s') ->
  match r with
  | Ok got => moved s s' got [] /\ (length got <= n)%nat
  | Err e => moved s s' [] [] /\ (e = Interrupted -> (interrupts s' < interrupts s)%nat)
  end.
Proof.
  intros (Hc & Ho & Hr)%read_law. destruct r as [got|e].
  - destruct Hr as (Hl & Hi & Hk). split; [|done]. by split_and!; rewrite ?app_nil_r.
  - destruct Hr as (Hi & Hk). case_decide as He; (split; [|done]); (split_and!; [lia|done|by rewrite app_nil_r|lia]).
Qed.

Lemma write_moved bytes s r s' :
  write bytes s = (r, s') ->
  match r with
  | Ok k => moved s s' [] (take k bytes) /\ (k <= length bytes)%nat
  | Err e => moved s s' [] [] /\ (e = Interrupted -> (interrupts s' < interrupts s)%nat)
  end.
Proof.
  intros (Hc & Hi & Hr)%write_law. destruct r as [k|e].
  - destruct Hr as (Hl & Ho & Hk). split; [|done]. by split_and!.
  - destruct Hr as (Ho & Hk). case_decide as He; (split; [|done]); (split_and!; [lia|done|by rewrite app_nil_r|lia]).
Qed.

(** The outcome of reading exactly [n] bytes before a deadline. *)
Definition read_outcome (n : nat) (d : Z) (s : S) (r : result IoError (list Z)) (s' : S) : Prop :=
  match r with
  | Ok got => length got = n /\ moved s s' got [] /\ clock s' < d
  | Err _ => exists got, (length got <= n)%nat /\ moved s s' got []
  end.

(** Prefixing a read with what came before. *)
Lemma read_outcome_after n d s t r s' got :
  moved s t got [] -> (length got <= n)%nat -> read_outcome (n - length got) d t r s' ->
  read_outcome n d s (match r with Ok rest => Ok (got ++ rest) | Err e => Err e end) s'.
Proof.
  intros Hm Hl. destruct r as [rest|e]; simpl.
  - intros (Hlen & Hm' & Hc). split_and!; [rewrite length_app; lia|by eapply (moved_trans _ _ _ _ _ [] [])|done].
  - intros (rest & Hlen & Hm'). exists (got ++ rest). split; [rewrite length_app; lia|].
    by eapply (moved_trans _ _ _ _ _ [] []).
Qed.

Lemma read_exact_until_sound fuel n d s r s' :
  read_exact_until fuel n d s = Some (r, s') -> read_outcome n d s r s'.
Proof.
  revert n s r s'. induction fuel as [|fuel IH]; intros n s r s'; [done|].
  assert (forall e t, moved s t [] [] -> read_outcome n d s (Err e) t) as Herr.
  { intros e t Ht. exists []. split; [simpl; lia|done]. }
  cbn [read_exact_until]. destruct n as [|n].
  - intros [(b & t & Hb & [= <- <-])|(e & [= Hb] & ->)]%io_bind_Some.
    + injection Hb as Hb. apply budget_moved in Hb as [Hm Hc]. split_and!; [done|done|by apply Hc].
    + apply budget_moved in Hb as [Hm _]. by apply Herr.
  - intros [(b & t & [= Hb] & Hrest)|(e & [= Hb] & ->)]%io_bind_Some;
      [|by apply Herr; apply budget_moved in Hb as [Hm _]].
    apply budget_moved in Hb as [Hm1 _].
    apply io_bind_Some in Hrest as [(u & t2 & [= Hs] & Hrest)|(e & [= Hs] & ->)];
      apply set_read_moved in Hs; pose proof (moved_trans _ _ _ _ _ _ _ Hm1 Hs) as Hm2; [|by apply Herr].
    destruct (read (Datatypes.S n) t2) as [res t3] eqn:Hr. apply read_moved in Hr.
    destruct res as [got|e].
    + destruct Hr as [Hm3 Hl]. pose proof (moved_trans _ _ _ _ _ _ _ Hm2 Hm3) as Hm.
      destruct got as [|x got]; [injection Hrest as <- <-; by apply Herr|].
      unfold io_bind in Hrest. destruct (read_exact_until fuel _ d t3) as [[r0 t4]|] eqn:Hrec; [|done].
      apply IH in Hrec. pose proof (read_outcome_after _ _ _ _ _ _ _ Hm Hl Hrec) as Hout.
      by destruct r0; injection Hrest as <- <-.
    + destruct Hr as [Hm3 _]. pose proof (moved_trans _ _ _ _ _ _ _ Hm2 Hm3) as Hm.
      destruct (retry_error e); [injection Hrest as <- <-; by apply Herr|].
      apply IH in Hrest. eapply (read_outcome_after _ _ _ _ r _ []) in Hm; [|simpl; lia|by rewrite Nat.sub_0_r].
      by destruct r.
Qed.

(** Every iteration either delivers a byte or uses up an interruption. *)
Lemma read_exact_until_total fuel n d s :
  (n + interrupts s < fuel)%nat -> exists x, read_exact_until fuel n d s = Some x.
Proof.
  revert n s. induction fuel as [|fuel IH]; intros n s Hf; [lia|]. cbn [read_exact_until]. destruct n as [|n].
  - apply io_bind_total. destruct (remaining_budget d s) as [r t] eqn:Hb. exists r, t. split; [|by eexists].
    unfold io_call. by rewrite Hb.
  - apply io_bind_total. destruct (remaining_budget d s) as [r t] eqn:Hb. exists r, t.
    split; [unfold io_call; by rewrite Hb|]. intros b ->. apply budget_moved in Hb as [(_ & _ & _ & Hk) _].
    apply io_bind_total. destruct (set_control_read_timeout b t) as [r2 t2] eqn:Hs. exists r2, t2.
    split; [unfold io_call; by rewrite Hs|]. intros u ->. apply set_read_moved in Hs as (_ & _ & _ & Hk2).
    destruct (read (Datatypes.S n) t2) as [[got|e] t3] eqn:Hr; apply read_moved in Hr as [(_ & _ & _ & Hk3) Hr].
    + destruct got as [|x got]; [by eexists|]. destruct (IH (Datatypes.S n - length (x :: got))%nat t3) as [[r4 t4] Hrec].
      { simpl. lia. }
      apply io_bind_total. exists r4, t4. split; [done|]. by eexists.
    + destruct e; cbn [retry_error]; try by eexists. apply IH. specialize (Hr eq_refl). lia.
Qed.

(** The outcome of writing [bytes] before a deadline: everything, or a prefix. *)
Definition write_outcome (bytes : list Z) (d : Z) (s : S) (r : result IoError ()) (s' : S) : Prop :=
  match r with
  | Ok _ => moved s s' [] bytes /\ clock s' < d
  | Err _ => exists sent, sent `prefix_of` bytes /\ moved s s' [] sent
  end.

Lemma write_outcome_after bytes k d s t r s' :
  moved s t [] (take k bytes) -> write_outcome (drop k bytes) d t r s' -> write_outcome bytes d s r s'.
Proof.
  intros Hm. destruct r as [u|e]; simpl.
  - intros [Hm' Hc]. split; [|done]. rewrite <- (take_drop k bytes). by eapply (moved_trans _ _ _ [] []).
  - intros (sent & [x Hx] & Hm'). exists (take k bytes ++ sent). split.
    + exists x. by rewrite <- app_assoc, <- Hx, take_drop.
    + by eapply (moved_trans _ _ _ [] []).
Qed.

Lemma write_until_sound fuel bytes d s r s' :
  write_until fuel bytes d s = Some (r, s') -> write_outcome bytes d s r s'.
Proof.
  revert bytes s r s'. induction fuel as [|fuel IH]; intros bytes s r s'; [done|].
  assert (forall e t, moved s t [] [] -> write_outcome bytes d s (Err e) t) as Herr.
  { intros e t Ht. exists []. split; [apply prefix_nil|done]. }
  cbn [write_until]. destruct bytes as [|x bytes].
  - intros [(b & t & [= Hb] & [= <- <-])|(e & [= Hb] & ->)]%io_bind_Some; apply budget_moved in Hb as [Hm Hc];
      [|by apply Herr]. split; [done|by apply Hc].
  - intros [(b & t & [= Hb] & Hrest)|(e & [= Hb] & ->)]%io_bind_Some; apply budget_moved in Hb as [Hm1 _];
      [|by apply Herr].
    apply io_bind_Some in Hrest as [(u & t2 & [= Hs] & Hrest)|(e & [= Hs] & ->)];
      apply set_write_moved in Hs; pose proof (moved_trans _ _ _ _ _ _ _ Hm1 Hs) as Hm2; [|by apply Herr].
    destruct (write (x :: bytes) t2) as [res t3] eqn:Hw. apply write_moved in Hw.
    destruct res as [k|e].
    + destruct Hw as [Hm3 Hk]. pose proof (moved_trans _ _ _ _ _ _ _ Hm2 Hm3) as Hm. cbn [app] in Hm.
      eapply write_outcome_after; [exact Hm|].
      destruct k as [|k]; [injection Hrest as <- <-|by apply IH].
      exists []. split; [apply prefix_nil|apply moved_refl].
    + destruct Hw as [Hm3 _]. pose proof (moved_trans _ _ _ _ _ _ _ Hm2 Hm3) as Hm.
      destruct (retry_error e); [injection Hrest as <- <-; by apply Herr|].
      eapply (write_outcome_after _ 0); [exact Hm|by apply IH].
Qed.

Lemma write_until_total fuel bytes d s :
  (length bytes + interrupts s < fuel)%nat -> exists x, write_until fuel bytes d s = Some x.
Proof.
  revert bytes s. induction fuel as [|fuel IH]; intros bytes s Hf; [lia|]. cbn [write_until].
  destruct bytes as [|x bytes].
  - apply io_bind_total. destruct (remaining_budget d s) as [r t] eqn:Hb. exists r, t. split; [|by eexists].
    unfold io_call. by rewrite Hb.
  - apply io_bind_total. destruct (remaining_budget d s) as [r t] eqn:Hb. exists r, t.
    split; [unfold io_call; by rewrite Hb|]. intros b ->. apply budget_moved in Hb as [(_ & _ & _ & Hk) _].
    apply io_bind_total. destruct (set_control_write_timeout b t) as [r2 t2] eqn:Hs. exists r2, t2.
    split; [unfold io_call; by rewrite Hs|]. intros u ->. apply set_write_moved in Hs as (_ & _ & _ & Hk2).
    destruct (write (x :: bytes) t2) as [[k|e] t3] eqn:Hw; apply write_moved in Hw as [(_ & _ & _ & Hk3) Hw].
    + destruct k as [|k]; [by eexists|]. apply IH. rewrite length_drop. simpl in *. lia.
    + destruct e; cbn [retry_error]; try by eexists. apply IH. specialize (Hw eq_refl). lia.
Qed.

End facts.

(** ** Whole frames *)

Section frame_facts.
Context {S : Type} `{LawfulStream S}.
Variable to_vec : ControlEnvelope -> option (list Z).
Variable from_slice : list Z -> option ControlEnvelope.

Lemma read_control_length_max p n : read_control_length p = Ok n -> Z.of_nat n <= MAX_CONTROL_FRAME_BYTES.
Proof.
  unfold read_control_length. intros [_ [Hd [= <-]]%guard_err_Ok]%guard_err_Ok.
  apply orb_false_iff in Hd as [_ Hd%Z.ltb_ge]. unfold MAX_CONTROL_FRAME_BYTES in *. lia.
Qed.

(** One frame was read before the deadline, or the frame stopped somewhere. *)
Definition frame_read_outcome (d : Z) (s : S) (r : result ControlIoError ControlEnvelope) (s' : S) : Prop :=
  match r with
  | Ok e => exists f, decode_control_frame from_slice f = Ok e /\ moved s s' f [] /\ clock s' < d
  | Err _ => exists got, Z.of_nat (length got) <= 4 + MAX_CONTROL_FRAME_BYTES /\ moved s s' got []
  end.

Lemma frame_read_sound fuel d s r s' :
  read_one_control_frame_with_deadline from_slice fuel d s = Some (r, s') -> frame_read_outcome d s r s'.
Proof.
  unfold read_one_control_frame_with_deadline.
  intros [(p & t & (r0 & Hp & Heq)%io_map_err_Some & Hrest)|(e & (r0 & Hp & Heq)%io_map_err_Some & ->)]%io_bind_Some;
    apply read_exact_until_sound in Hp; destruct r0 as [p0|e0]; simplify_eq/=.
  2:{ destruct Hp as (got & Hl & Hm). exists got. split; [unfold MAX_CONTROL_FRAME_BYTES; lia|done]. }
  destruct Hp as (Hlen & Hm & _).
  assert (Z.of_nat (length p0) <= 4 + MAX_CONTROL_FRAME_BYTES) as Hmax by (unfold MAX_CONTROL_FRAME_BYTES; lia).
  destruct (read_control_length p0) as [n|err] eqn:Hn; cbn [map_err io_lift io_bind] in Hrest.
  2:{ injection Hrest as <- <-. by exists p0. }
  pose proof (read_control_length_max _ _ Hn) as Hnmax.
  apply io_bind_Some in Hrest as [(b & t2 & (r1 & Hb & Heq)%io_map_err_Some & Hrest)|(e & (r1 & Hb & Heq)%io_map_err_Some & ->)];
    apply read_exact_until_sound in Hb; destruct r1 as [b0|e1]; simplify_eq/=.
  - destruct Hb as (Hbl & Hm2 & Hc). pose proof (moved_trans _ _ _ _ _ _ _ Hm Hm2) as Hm3.
    injection Hrest as <- <-. destruct (decode_control_frame from_slice (p0 ++ b0)) as [e|err] eqn:Hd; simpl.
    + by exists (p0 ++ b0).
    + exists (p0 ++ b0). split; [rewrite length_app; lia|done].
  - destruct Hb as (got & Hl & Hm2). exists (p0 ++ got). split; [rewrite length_app; lia|].
    by eapply (moved_trans _ _ _ _ _ [] []).
Qed.

Lemma frame_read_total fuel d s :
  (4 + Z.to_nat MAX_CONTROL_FRAME_BYTES + interrupts s < fuel)%nat ->
  exists x, read_one_control_frame_with_deadline from_slice fuel d s = Some x.
Proof.
  intros Hf. unfold read_one_control_frame_with_deadline. apply io_bind_total.
  destruct (read_exact_until_total fuel 4 d s) as [[r t] Hr]; [lia|].
  exists (map_err Io r), t. split; [unfold io_map_err; by rewrite Hr|]. intros p Hp.
  apply read_exact_until_sound in Hr. destruct r as [p0|]; [|done]. injection Hp as ->.
  destruct Hr as (_ & (_ & _ & _ & Hk) & _). cbn [io_lift io_bind].
  destruct (read_control_length p) as [n|err] eqn:Hn; cbn [map_err]; [|by eexists].
  apply read_control_length_max in Hn. apply io_bind_total.
  destruct (read_exact_until_total fuel n d t) as [[r2 t2] Hr2]; [unfold MAX_CONTROL_FRAME_BYTES in *; lia|].
  exists (map_err Io r2), t2. split; [unfold io_map_err; by rewrite Hr2|]. intros b _. by eexists.
Qed.

(** One whole encoded frame was written before the deadline, or a prefix of it. *)
Definition frame_write_outcome (e : ControlEnvelope) (d : Z) (s : S) (r : result ControlIoError ()) (s' : S) : Prop :=
  match r with
  | Ok _ => exists f, encode_control_frame to_vec e = Ok f /\ moved s s' [] f /\ clock s' < d
  | Err (Frame err) => encode_control_frame to_vec e = Err err /\ s' = s
  | Err (Io _) => exists f sent, encode_control_frame to_vec e = Ok f /\ sent `prefix_of` f /\ moved s s' [] sent
  end.

Lemma frame_write_sound fuel e d s r s' :
  write_one_control_frame_with_deadline to_vec fuel e d s = Some (r, s') -> frame_write_outcome e d s r s'.
Proof.
  unfold write_one_control_frame_with_deadline, io_lift, io_bind.
  destruct (encode_control_frame to_vec e) as [f|err] eqn:He; cbn [map_err].
  2:{ by intros [= <- <-]. }
  intros (r0 & Hw & ->)%io_map_err_Some. apply write_until_sound in Hw. destruct r0 as [u|x]; simpl in *.
  - by exists f.
  - destruct Hw as (sent & Hp & Hm). by exists f, sent.
Qed.

Lemma frame_write_total fuel e d s :
  (4 + Z.to_nat MAX_CONTROL_FRAME_BYTES + interrupts s < fuel)%nat ->
  exists x, write_one_control_frame_with_deadline to_vec fuel e d s = Some x.
Proof.
  intros Hf. unfold write_one_control_frame_with_deadline, io_lift, io_bind.
  destruct (encode_control_frame to_vec e) as [f|err] eqn:He; cbn [map_err]; [|by eexists].
  apply encode_control_frame_Ok in He as (p & _ & _ & -> & Hl).
  destruct (write_until_total fuel (to_be_bytes (Z.of_nat (length p)) ++ p) d s) as [[r t] Hw].
  { rewrite length_app. unfold to_be_bytes, MAX_CONTROL_FRAME_BYTES in *. simpl length. lia. }
  unfold io_map_err. rewrite Hw. by eexists.
Qed.

End frame_facts.

(** C14. Bounded frame I/O always returns, and within the deadline or not at all.
    Over any stream that keeps the contracts of its operations, with fuel above
    the longest frame and the interruptions to come, reading a frame ends:
    either it consumed exactly the bytes of one frame that decodes to the
    envelope it returns, and its last clock reading is before the deadline, or
    it failed having consumed no more than the longest frame.  Writing ends too:
    either it wrote exactly the encoded frame before the deadline, or it wrote
    a prefix of it, and nothing at all when the envelope is invalid. *)
Theorem frame_io_within_deadline {S : Type} `{LawfulStream S} to_vec from_slice (fuel : nat) (e : ControlEnvelope)
    (d : Z) (s : S) :
  (4 + Z.to_nat MAX_CONTROL_FRAME_BYTES + interrupts s < fuel)%nat ->
  (exists r s', read_one_control_frame_with_deadline from_slice fuel d s = Some (r, s') /\
     frame_read_outcome from_slice d s r s') /\
  (exists r s', write_one_control_frame_with_deadline to_vec fuel e d s = Some (r, s') /\
     frame_write_outcome to_vec e d s r s').
Proof.
  intros Hf. split.
  - destruct (frame_read_total from_slice fuel d s Hf) as [[r s'] Hr]. exists r, s'. split; [done|].
    by eapply frame_read_sound.
  - destruct (frame_write_total to_vec fuel e d s Hf) as [[r s'] Hr]. exists r, s'. split; [done|].
    by eapply frame_write_sound.
Qed.

(** ** A stream in memory

    One byte per call, a clock that ticks on every reading, and a number of
    interruptions that come first. *)
Record memory := mkMemory { inbound : list Z; outbound : list Z; ticks : Z; pending_signals : nat }.

#[global] Instance memory_stream : DeadlineStream memory := {
  now m := (ticks m + 1, mkMemory (inbound m) (outbound m) (ticks m + 1) (pending_signals m));
  set_control_read_timeout _ m := (Ok (), m);
  set_control_write_timeout _ m := (Ok (), m);
  read n m :=
    match pending_signals m with
    | Datatypes.S k => (Err Interrupted, mkMemory (inbound m) (outbound m) (ticks m) k)
    | O => (Ok (take (Nat.min n 1) (inbound m)), mkMemory (drop (Nat.min n 1) (inbound m)) (outbound m) (ticks m) O)
    end;
  write bytes m :=
    match pending_signals m with
    | Datatypes.S k => (Err Interrupted, mkMemory (inbound m) (outbound m) (ticks m) k)
    | O => (Ok (length (take 1 bytes)), mkMemory (inbound m) (outbound m ++ take 1 bytes) (ticks m) O)
    end;
}.

#[global] Instance memory_lawful : LawfulStream memory.
Proof.
  refine {| incoming := inbound; outgoing := outbound; clock := ticks; interrupts := pending_signals |}.
  - intros m t m' [= <- <-]. simpl. split_and!; done || lia.
  - intros d m r m' [= <- <-]. split_and!; done || lia.
  - intros d m r m' [= <- <-]. split_and!; done || lia.
  - intros n m r m'. simpl. destruct (pending_signals m) as [|k]; intros [= <- <-]; simpl.
    + split_and!; [lia|done|rewrite length_take; lia|by rewrite take_drop|lia].
    + split_and!; [lia|done|done|lia].
  - intros bytes m r m'. simpl. destruct (pending_signals m) as [|k]; intros [= <- <-]; simpl.
    + split_and!; [lia|done|rewrite length_take; lia| |lia]. by destruct bytes.
    + split_and!; [lia|done|done|lia].
Defined.

Definition demo_fuel : nat := 4 + Z.to_nat MAX_CONTROL_FRAME_BYTES + 3.
Definition demo_memory : memory := mkMemory [0; 0; 0; 2; 123; 125; 7] [] 0 2.

Lemma frame_io_within_deadline_witness :
  exists r s', read_one_control_frame_with_deadline sample_from_slice demo_fuel 100 demo_memory = Some (r, s') /\
    frame_read_outcome sample_from_slice 100 demo_memory r s'.
Proof.
  apply (frame_io_within_deadline sample_to_vec sample_from_slice demo_fuel sample_heartbeat 100 demo_memory).
  change (interrupts demo_memory) with 2%nat. unfold demo_fuel. lia.
Defined.

Example demo_read :
  read_one_control_frame_with_deadline sample_from_slice 40 100 demo_memory =
    Some (Ok sample_heartbeat, mkMemory [7] [] 10 0).
Proof. vm_compute. reflexivity. Qed.
