(* ===== verification/Handshake.v ===== *)
(** The Hello exchange: [crates/blueroute-protocol/src/handshake.rs]. *)

From S2P Require Import Prelude Order Ident Capability ControlFrame ControlStream ControlIo.

(** ** The exporter context *)

Definition tls_control_exporter_context (net : NetworkId) (first second : NodeId) : result string (list Z) :=
  guard_err (bool_decide (net = zero_id) || bool_decide (first = zero_id) || bool_decide (second = zero_id))
    "control exporter requires nonzero network and node identities"%string
  (guard_err (bool_decide (first = second)) "control exporter requires two distinct nodes"%string
  (let '(low, high) := if bool_decide (ord_lt first second) then (first, second) else (second, first) in
   Ok (bytes_list (as_bytes net) ++ bytes_list (as_bytes low) ++ bytes_list (as_bytes high)))).

(** ** Transcripts *)

Section transcript.
Variable to_vec : ControlEnvelope -> option (list Z).

(** The body of the loop over the four frames. *)
Definition check_frame (net : NetworkId) (_ : ()) (frame : ControlEnvelope) : result string () :=
  _ ← map_err (fun _ => "malformed control frame"%string) (encode_control_frame to_vec frame);
  guard_err (negb (bool_decide (env_network frame = net))) "wrong network"%string (Ok ()).

Definition hello_of (m : ControlMessage) : option (Challenge * HelloFacts) :=
  if m is MsgHello c f then Some (c, f) else None.
Definition ack_of (m : ControlMessage) : option (Challenge * HelloFacts) :=
  if m is MsgHelloAck c f then Some (c, f) else None.

(** The checks of [validate_hello_transcript] after the messages are taken
    apart. *)
Definition check_claims (net : NetworkId) (remote : NodeId) (session : bytes 16)
  (remote_hello remote_ack : ControlEnvelope)
  (local_h remote_h local_a remote_a : Challenge * HelloFacts) : result string HelloFacts :=
  guard_err (all_zero local_h.1 || all_zero remote_h.1 || bool_decide (local_h.1 = remote_h.1)
             || negb (bool_decide (local_a.1 = remote_h.1)) || negb (bool_decide (remote_a.1 = local_h.1)))
    "challenge reflection or mismatch"%string
  (guard_err (negb (bool_decide (local_h.2 = local_a.2)) || negb (bool_decide (remote_h.2 = remote_a.2)))
    "peer changed capability claims during handshake"%string
  (inbound ← map_err (fun _ => "invalid session"%string) (verified_new net remote session);
   let '(r1, inbound) := accept remote_hello inbound in
   _ ← map_err (fun _ => "invalid hello replay"%string) r1;
   let '(r2, _) := accept remote_ack inbound in
   _ ← map_err (fun _ => "invalid acknowledgement replay"%string) r2;
   Ok remote_h.2)).

Definition validate_hello_transcript (net : NetworkId) (local remote : NodeId)
  (local_hello remote_hello local_ack remote_ack : ControlEnvelope) : result string HelloFacts :=
  let frames := [local_hello; remote_hello; local_ack; remote_ack] in
  let session := session_id local_hello in
  guard_err (bool_decide (local = remote)) "local and remote node must differ"%string
  (_ ← try_for_each (check_frame net) () frames;
   guard_err (negb (bool_decide (sender local_hello = local)) || negb (bool_decide (sender local_ack = local))
              || negb (bool_decide (sender remote_hello = remote)) || negb (bool_decide (sender remote_ack = remote)))
     "wrong sender"%string
   (guard_err (existsb (fun f => negb (bool_decide (session_id f = session))) frames) "wrong session"%string
   (guard_err (negb (sequence local_hello =? 1)%Z || negb (sequence remote_hello =? 1)%Z
               || negb (sequence local_ack =? 2)%Z || negb (sequence remote_ack =? 2)%Z)
      "unexpected handshake sequence"%string
   (local_h ← ok_or (hello_of (message local_hello)) "missing local hello"%string;
    remote_h ← ok_or (hello_of (message remote_hello)) "missing remote hello"%string;
    local_a ← ok_or (ack_of (message local_ack)) "missing local acknowledgement"%string;
    remote_a ← ok_or (ack_of (message remote_ack)) "missing remote acknowledgement"%string;
    check_claims net remote session remote_hello remote_ack local_h remote_h local_a remote_a)))).

Definition validate_exporter_bound_hello_transcript (net : NetworkId) (local remote : NodeId)
  (exported_session_id : bytes 16) (local_hello remote_hello local_ack remote_ack : ControlEnvelope) :
  result string HelloFacts :=
  guard_err (all_zero exported_session_id) "invalid zero TLS exporter session ID"%string
  (guard_err (negb (bool_decide (session_id local_hello = exported_session_id)))
    "control session is not bound to TLS exporter"%string
  (validate_hello_transcript net local remote local_hello remote_hello local_ack remote_ack)).

End transcript.

(** ** The exchange *)

Inductive HelloExchangeError := Transport (e : ControlIoError) | InvalidTranscript (m : string).

Record HelloExchangeRequest := mkRequest {
  rq_network : NetworkId;
  rq_local : NodeId;
  rq_remote : NodeId;
  exported_session_id : bytes 16;
  local_challenge : Challenge;
  local_facts : HelloFacts;
  rq_deadline : Z;
}.

Definition own_hello (rq : HelloExchangeRequest) : ControlEnvelope :=
  mkEnvelope CONTROL_VERSION (rq_network rq) (rq_local rq) (exported_session_id rq) 1
    (MsgHello (local_challenge rq) (local_facts rq)).
Definition own_ack (rq : HelloExchangeRequest) (echo : Challenge) : ControlEnvelope :=
  mkEnvelope CONTROL_VERSION (rq_network rq) (rq_local rq) (exported_session_id rq) 2
    (MsgHelloAck echo (local_facts rq)).

(** The guarded [match] on the peer's first frame. *)
Definition peer_challenge (rq : HelloExchangeRequest) (e : ControlEnvelope) : option Challenge :=
  match message e with
  | MsgHello c _ =>
    if bool_decide (env_network e = rq_network rq) && bool_decide (sender e = rq_remote rq)
       && bool_decide (session_id e = exported_session_id rq) && (sequence e =? 1)%Z
       && negb (all_zero c) && negb (bool_decide (c = local_challenge rq))
    then Some c else None
  | _ => None
  end.

Section exchange.
Context {S : Type} `{DeadlineStream S}.
Variable to_vec : ControlEnvelope -> option (list Z).
Variable from_slice : list Z -> option ControlEnvelope.

Definition check_request (rq : HelloExchangeRequest) : result HelloExchangeError () :=
  guard_err (bool_decide (rq_network rq = zero_id) || bool_decide (rq_local rq = zero_id)
             || bool_decide (rq_remote rq = zero_id))
    (InvalidTranscript "control exchange requires nonzero network and node identities")
  (guard_err (bool_decide (rq_local rq = rq_remote rq)) (InvalidTranscript "local and remote node must differ")
  (guard_err (all_zero (exported_session_id rq)) (InvalidTranscript "invalid zero TLS exporter session ID")
  (guard_err (all_zero (local_challenge rq)) (InvalidTranscript "invalid zero local hello challenge")
  (Ok ())))).

Definition exchange_hello_claims_with_deadline (fuel : nat) (rq : HelloExchangeRequest) :
  io S HelloExchangeError HelloFacts :=
  let deadline := rq_deadline rq in
  let? _ := io_lift (check_request rq) in
  let? _ := io_map_err Transport (write_one_control_frame_with_deadline to_vec fuel (own_hello rq) deadline) in
  let? remote_hello := io_map_err Transport (read_one_control_frame_with_deadline from_slice fuel deadline) in
  let? challenge := io_lift (ok_or (peer_challenge rq remote_hello)
    (InvalidTranscript "untrusted remote hello identity, session or challenge")) in
  let? _ := io_map_err Transport (write_one_control_frame_with_deadline to_vec fuel (own_ack rq challenge) deadline) in
  let? remote_ack := io_map_err Transport (read_one_control_frame_with_deadline from_slice fuel deadline) in
  io_lift (map_err InvalidTranscript
    (validate_exporter_bound_hello_transcript to_vec (rq_network rq) (rq_local rq) (rq_remote rq)
       (exported_session_id rq) (own_hello rq) remote_hello (own_ack rq challenge) remote_ack)).

End exchange.

(** ** Facts *)

Lemma validate_Ok e :
  validate e = Ok () <->
  version e = CONTROL_VERSION /\ env_network e <> zero_id /\ sender e <> zero_id /\ all_zero (session_id e) = false /\
  sequence e <> 0%Z /\
  match message e with
  | MsgHello c f | MsgHelloAck c f => all_zero c = false /\ validate_facts f (sender e) = Ok ()
  | MsgHeartbeat | MsgGoodbye => True
  end.
Proof.
  unfold validate, validate_hello. rewrite !guard_err_Ok, negb_false_iff, Z.eqb_eq, !bool_decide_eq_false, Z.eqb_neq.
  destruct (message e); rewrite ?guard_err_Ok; naive_solver.
Qed.

Definition encodable (to_vec : ControlEnvelope -> option (list Z)) (e : ControlEnvelope) : Prop :=
  exists f, encode_control_frame to_vec e = Ok f.

Lemma encodable_valid to_vec e : encodable to_vec e -> validate e = Ok ().
Proof. by intros [f (p & Hv & _)%encode_control_frame_Ok]. Qed.

Lemma check_frame_Ok to_vec net e :
  check_frame to_vec net () e = Ok () <-> encodable to_vec e /\ env_network e = net.
Proof.
  unfold check_frame, encodable. rewrite result_bind_Ok. setoid_rewrite guard_err_Ok.
  setoid_rewrite negb_false_iff. setoid_rewrite bool_decide_eq_true.
  destruct (encode_control_frame to_vec e) as [f|err]; simpl; naive_solver.
Qed.

(** The only transcripts there are: both sides say the same thing twice, each
    echoes the other's challenge, in one session. *)
Definition transcript_of (to_vec : ControlEnvelope -> option (list Z)) (net : NetworkId) (local remote : NodeId)
  (sid : bytes 16) (lh rh la ra : ControlEnvelope) (theirs : HelloFacts) : Prop :=
  exists c1 c2 ours,
    local <> remote /\ c1 <> c2 /\
    lh = mkEnvelope CONTROL_VERSION net local sid 1 (MsgHello c1 ours) /\
    rh = mkEnvelope CONTROL_VERSION net remote sid 1 (MsgHello c2 theirs) /\
    la = mkEnvelope CONTROL_VERSION net local sid 2 (MsgHelloAck c2 ours) /\
    ra = mkEnvelope CONTROL_VERSION net remote sid 2 (MsgHelloAck c1 theirs) /\
    Forall (encodable to_vec) [lh; rh; la; ra].

(** A valid envelope is determined by its fields. *)
Lemma envelope_eq e n s sid q m :
  validate e = Ok () -> env_network e = n -> sender e = s -> session_id e = sid -> sequence e = q -> message e = m ->
  e = mkEnvelope CONTROL_VERSION n s sid q m.
Proof. intros (Hv & _)%validate_Ok <- <- <- <- <-. rewrite <- Hv. by destruct e. Qed.

Lemma check_claims_Ok net remote sid rh ra (lh' rh' la' ra' : Challenge * HelloFacts) f :
  check_claims net remote sid rh ra lh' rh' la' ra' = Ok f ->
  lh'.1 <> rh'.1 /\ la'.1 = rh'.1 /\ ra'.1 = lh'.1 /\ lh'.2 = la'.2 /\ rh'.2 = ra'.2 /\ f = rh'.2.
Proof.
  unfold check_claims. rewrite !guard_err_Ok, !orb_false_iff, !negb_false_iff, !bool_decide_eq_true, bool_decide_eq_false.
  intros (((((_ & _) & ?) & ?) & ?) & (? & ?) & (v & _ & Hrest)%result_bind_Ok).
  destruct (accept rh v) as [r1 v1]. apply result_bind_Ok in Hrest as (u1 & _ & Hrest).
  destruct (accept ra v1) as [r2 v2]. apply result_bind_Ok in Hrest as (u2 & _ & [= <-]). done.
Qed.

Lemma hello_of_Some m p : hello_of m = Some p <-> m = MsgHello p.1 p.2.
Proof. destruct m, p; simpl; naive_solver. Qed.
Lemma ack_of_Some m p : ack_of m = Some p <-> m = MsgHelloAck p.1 p.2.
Proof. destruct m, p; simpl; naive_solver. Qed.

Lemma validate_hello_transcript_sound to_vec net local remote lh rh la ra f :
  validate_hello_transcript to_vec net local remote lh rh la ra = Ok f ->
  transcript_of to_vec net local remote (session_id lh) lh rh la ra f.
Proof.
  unfold validate_hello_transcript. intros [Hne%bool_decide_eq_false (u & Hframes & Hrest)%result_bind_Ok]%guard_err_Ok.
  destruct u. apply try_all_Ok in Hframes.
  rewrite !Forall_cons, !check_frame_Ok in Hframes. destruct Hframes as ((E1 & N1) & (E2 & N2) & (E3 & N3) & (E4 & N4) & _).
  apply guard_err_Ok in Hrest as [Hs Hrest]. rewrite !orb_false_iff, !negb_false_iff, !bool_decide_eq_true in Hs.
  destruct Hs as (((S1 & S2) & S3) & S4).
  apply guard_err_Ok in Hrest as [Hsid Hrest]. simpl in Hsid.
  rewrite !orb_false_iff, !negb_false_iff, !bool_decide_eq_true in Hsid. destruct Hsid as (_ & I2 & I3 & I4 & _).
  apply guard_err_Ok in Hrest as [Hq Hrest]. rewrite !orb_false_iff, !negb_false_iff, !Z.eqb_eq in Hq.
  destruct Hq as (((Q1 & Q2) & Q3) & Q4).
  apply result_bind_Ok in Hrest as (lh' & M1%ok_or_Ok%hello_of_Some & Hrest).
  apply result_bind_Ok in Hrest as (rh' & M2%ok_or_Ok%hello_of_Some & Hrest).
  apply result_bind_Ok in Hrest as (la' & M3%ok_or_Ok%ack_of_Some & Hrest).
  apply result_bind_Ok in Hrest as (ra' & M4%ok_or_Ok%ack_of_Some & Hrest).
  apply check_claims_Ok in Hrest as (Hc & Ha & Hr & Hf1 & Hf2 & ->).
  exists lh'.1, rh'.1, lh'.2. split_and!; [done|done| | | | |by repeat constructor];
    apply envelope_eq; try done; try (by eapply encodable_valid); congruence.
Qed.

Lemma accept_fresh v e :
  validate e = Ok () -> env_network e = v_network v -> sender e = v_sender v -> session_id e = v_session v ->
  (last_sequence v < sequence e)%Z ->
  accept e v = (Ok (), mkVerified (v_network v) (v_sender v) (v_session v) (sequence e)).
Proof. intros. by apply accept_Ok. Qed.

Lemma validate_hello_transcript_complete to_vec net local remote sid lh rh la ra f :
  transcript_of to_vec net local remote sid lh rh la ra f ->
  validate_hello_transcript to_vec net local remote lh rh la ra = Ok f.
Proof.
  intros (c1 & c2 & ours & Hne & Hc & -> & -> & -> & -> & Henc).
  pose proof Henc as Hval. eapply (Forall_impl _ (fun e => validate e = Ok ())) in Hval; [|by apply encodable_valid].
  rewrite !Forall_cons in Hval. destruct Hval as (V1 & V2 & V3 & V4 & _).
  unfold validate_hello_transcript. rewrite bool_decide_eq_false_2 by done. cbn [guard_err].
  assert (forall l, Forall (fun e => encodable to_vec e /\ env_network e = net) l ->
    try_for_each (check_frame to_vec net) () l = Ok ()) as Hall.
  { intros l Hl. apply try_all_Ok. eapply Forall_impl; [exact Hl|]. intros e. apply check_frame_Ok. }
  rewrite Hall by (rewrite !Forall_cons in *; naive_solver). cbn [mbind result_bind].
  cbn [sender session_id sequence message existsb hello_of ack_of ok_or]. rewrite !bool_decide_eq_true_2 by done.
  cbn [negb orb guard_err Z.eqb Pos.eqb mbind result_bind].
  apply validate_Ok in V1 as (_ & _ & _ & _ & _ & Z1 & _).
  pose proof V2 as (_ & HN & HS & Hsid & _ & Z2 & _)%validate_Ok. simpl in HN, HS, Hsid, Z1, Z2.
  unfold check_claims. cbn [fst snd]. rewrite Z1, Z2, bool_decide_eq_false_2, !bool_decide_eq_true_2 by done.
  cbn [negb orb guard_err]. unfold verified_new. rewrite !bool_decide_eq_false_2, Hsid by done.
  cbn [orb guard_err map_err mbind result_bind].
  rewrite accept_fresh; [|done|done|done|done|simpl; lia]. cbn [map_err mbind result_bind].
  rewrite accept_fresh; [|done|done|done|done|simpl; lia]. done.
Qed.

Lemma exporter_bound_exact to_vec net local remote sid lh rh la ra f :
  validate_exporter_bound_hello_transcript to_vec net local remote sid lh rh la ra = Ok f <->
  transcript_of to_vec net local remote sid lh rh la ra f.
Proof.
  unfold validate_exporter_bound_hello_transcript. rewrite !guard_err_Ok, negb_false_iff, bool_decide_eq_true. split.
  - intros (_ & <- & Hv). by apply validate_hello_transcript_sound.
  - intros Ht. pose proof Ht as (c1 & c2 & ours & _ & _ & Hlh & _ & _ & _ & Henc). apply Forall_cons in Henc as [Henc _].
    apply encodable_valid, validate_Ok in Henc as (_ & _ & _ & Hz & _). rewrite Hlh in Hz.
    split_and!; [exact Hz|by rewrite Hlh|by eapply validate_hello_transcript_complete].
Qed.

(** The transcript check accepts exactly one shape: two distinct nodes, one
    nonzero session identifier, the exporter's, in all four frames, sequence
    one for each Hello and two for each acknowledgement, each side repeating
    its own facts and echoing the other's challenge, and the challenges
    different.  It then returns the remote side's facts.  Anything reflected,
    mixed from two sessions, reordered or changed in between is refused. *)
Theorem hello_transcript_exact to_vec (net : NetworkId) (local remote : NodeId) (sid : bytes 16)
    (lh rh la ra : ControlEnvelope) (facts : HelloFacts) :
  validate_exporter_bound_hello_transcript to_vec net local remote sid lh rh la ra = Ok facts <->
  exists c1 c2 ours,
    local <> remote /\ c1 <> c2 /\
    lh = mkEnvelope CONTROL_VERSION net local sid 1 (MsgHello c1 ours) /\
    rh = mkEnvelope CONTROL_VERSION net remote sid 1 (MsgHello c2 facts) /\
    la = mkEnvelope CONTROL_VERSION net local sid 2 (MsgHelloAck c2 ours) /\
    ra = mkEnvelope CONTROL_VERSION net remote sid 2 (MsgHelloAck c1 facts) /\
    Forall (encodable to_vec) [lh; rh; la; ra].
Proof. apply exporter_bound_exact. Qed.

Lemma exporter_context_Ok net a b c :
  tls_control_exporter_context net a b = Ok c <->
  net <> zero_id /\ a <> zero_id /\ b <> zero_id /\ a <> b /\
  c = bytes_list (as_bytes net) ++
      (if bool_decide (ord_lt a b) then bytes_list (as_bytes a) ++ bytes_list (as_bytes b)
       else bytes_list (as_bytes b) ++ bytes_list (as_bytes a)).
Proof.
  unfold tls_control_exporter_context. rewrite !guard_err_Ok, !orb_false_iff, !bool_decide_eq_false.
  destruct (bool_decide (ord_lt a b)); naive_solver.
Qed.

Lemma three_ids_inj (n a b n' a' b' : bytes 16) :
  bytes_list n ++ bytes_list a ++ bytes_list b = bytes_list n' ++ bytes_list a' ++ bytes_list b' ->
  n = n' /\ a = a' /\ b = b'.
Proof.
  intros [Hn [Ha Hb]%app_inj_1]%app_inj_1; [|by rewrite !bytes_length..].
  split_and!; by apply bytes_list_inj.
Qed.

(** The exporter context binds the network and the unordered pair of nodes,
    and nothing else: both ends derive the same 48 bytes, contexts of different
    networks or pairs differ, and there is one exactly for nonzero identities
    of two distinct nodes. *)
Theorem exporter_context_binds (net net' : NetworkId) (a b a' b' : NodeId) :
  tls_control_exporter_context net a b = tls_control_exporter_context net b a /\
  (is_ok (tls_control_exporter_context net a b) = true <-> net <> zero_id /\ a <> zero_id /\ b <> zero_id /\ a <> b) /\
  (forall c, tls_control_exporter_context net a b = Ok c -> length c = 48%nat /\
     (tls_control_exporter_context net' a' b' = Ok c <->
        net' = net /\ ((a' = a /\ b' = b) \/ (a' = b /\ b' = a)))).
Proof.
  assert (tls_control_exporter_context net a b = tls_control_exporter_context net b a) as Hsym.
  { unfold tls_control_exporter_context. rewrite (bool_decide_ext (b = a) (a = b)) by done.
    rewrite <- !orb_assoc, (orb_comm (bool_decide (b = zero_id))).
    destruct (_ || _); [done|]. case_bool_decide as Hab; [done|]. cbn [guard_err].
    destruct (decide (ord_lt a b)) as [Hlt|Hlt]; [|destruct (decide (ord_lt b a)) as [Hlt'|Hlt']].
    - rewrite bool_decide_eq_true_2, bool_decide_eq_false_2; [done| |done].
      intros Hlt'. by apply (ord_lt_irrefl a), (ord_lt_trans a b a).
    - by rewrite bool_decide_eq_false_2, bool_decide_eq_true_2.
    - exfalso. apply Hab, ord_le_antisymm; by apply ord_not_lt_le. }
  split_and!; [done| |].
  - destruct (tls_control_exporter_context net a b) as [c|e] eqn:Hc; simpl.
    + apply exporter_context_Ok in Hc. naive_solver.
    + split; [done|]. intros (H1 & H2 & H3 & H4).
      assert (tls_control_exporter_context net a b = Err e) as Hc' by done.
      rewrite (proj2 (exporter_context_Ok net a b _)) in Hc' by (split_and!; done). done.
  - intros c Hc. split.
    + apply exporter_context_Ok in Hc as (_ & _ & _ & _ & ->). rewrite length_app, bytes_length.
      case_bool_decide; by rewrite length_app, !bytes_length.
    + split.
      * intros (_ & _ & _ & _ & Hc')%exporter_context_Ok. apply exporter_context_Ok in Hc as (_ & _ & _ & _ & ->).
        do 2 case_bool_decide; apply three_ids_inj in Hc' as (Hn & H1 & H2); apply as_bytes_inj in Hn, H1, H2; auto.
      * intros [-> [[-> ->]|[-> ->]]]; [done|by rewrite <- Hsym].
Qed.

Section exchange_facts.
Context {S : Type} `{LawfulStream S}.
Variable to_vec : ControlEnvelope -> option (list Z).
Variable from_slice : list Z -> option ControlEnvelope.

(** What a completed exchange did: it wrote its two frames, read two, in time,
    and the four are a transcript. *)
Definition exchanged (rq : HelloExchangeRequest) (s s' : S) (theirs : HelloFacts) : Prop :=
  exists echo rh ra fh fa gh ga,
    peer_challenge rq rh = Some echo /\
    encode_control_frame to_vec (own_hello rq) = Ok fh /\ encode_control_frame to_vec (own_ack rq echo) = Ok fa /\
    decode_control_frame from_slice gh = Ok rh /\ decode_control_frame from_slice ga = Ok ra /\
    moved s s' (gh ++ ga) (fh ++ fa) /\ (clock s' < rq_deadline rq)%Z /\
    transcript_of to_vec (rq_network rq) (rq_local rq) (rq_remote rq) (exported_session_id rq)
      (own_hello rq) rh (own_ack rq echo) ra theirs.

(** What a failed one can have sent: nothing if the request is refused, and the
    echo only in answer to an acceptable Hello. *)
Definition exchange_stopped (rq : HelloExchangeRequest) (s s' : S) : Prop :=
  exists got sent, moved s s' got sent /\
    (is_ok (check_request rq) = false -> s' = s) /\
    ((exists fh, encode_control_frame to_vec (own_hello rq) = Ok fh /\ sent `prefix_of` fh) \/ sent = [] \/
     (exists fh gh rh echo x, encode_control_frame to_vec (own_hello rq) = Ok fh /\ sent = fh ++ x /\
        gh `prefix_of` got /\ decode_control_frame from_slice gh = Ok rh /\ peer_challenge rq rh = Some echo)).

Definition exchange_outcome (rq : HelloExchangeRequest) (s : S) (r : result HelloExchangeError HelloFacts) (s' : S) :=
  match r with Ok f => exchanged rq s s' f | Err _ => exchange_stopped rq s s' end.

Lemma frame_write_Err e d s err s' :
  frame_write_outcome to_vec e d s (Err err) s' ->
  exists sent, moved s s' [] sent /\
    (sent = [] \/ exists f, encode_control_frame to_vec e = Ok f /\ sent `prefix_of` f).
Proof.
  destruct err as [x|x]; simpl.
  - intros (f & sent & Hf & Hp & Hm). exists sent. split; [done|]. right. by exists f.
  - intros [_ ->]. exists []. split; [apply moved_refl|by left].
Qed.

Lemma exchange_sound fuel rq s r s' :
  exchange_hello_claims_with_deadline to_vec from_slice fuel rq s = Some (r, s') -> exchange_outcome rq s r s'.
Proof.
  unfold exchange_hello_claims_with_deadline.
  intros [([] & t & [= Hck <-] & Hrest)|(e & [= Hck <-] & ->)]%io_bind_Some.
  2:{ exists [], []. split; [apply moved_refl|split; [done|by right; left]]. }
  assert (forall t, is_ok (check_request rq) = false -> t = s) as Hpre by (by rewrite Hck).
  apply io_bind_Some in Hrest as [(u & t1 & (r1 & Hw1 & Hr1)%io_map_err_Some & Hrest)|(e & (r1 & Hw1 & Hr1)%io_map_err_Some & ->)];
    apply frame_write_sound in Hw1; destruct r1 as [u1|e1]; cbn [map_err] in *; simplify_eq.
  2:{ apply frame_write_Err in Hw1 as (sent & Hm & Hs). exists [], sent. split; [done|split; [by apply Hpre|]].
      destruct Hs as [->|Hs]; [by right; left|by left]. }
  destruct Hw1 as (fh & Hfh & Hm1 & _).
  apply io_bind_Some in Hrest as [(rh & t2 & (r2 & Hw2 & Hr2)%io_map_err_Some & Hrest)|(e & (r2 & Hw2 & Hr2)%io_map_err_Some & ->)];
    apply frame_read_sound in Hw2; destruct r2 as [rh2|e2]; cbn [map_err] in *; simplify_eq.
  2:{ destruct Hw2 as (got & _ & Hm2). pose proof (moved_trans _ _ _ _ _ _ _ Hm1 Hm2) as Hm.
      rewrite app_nil_r in Hm. exists got, fh. split; [done|split; [by apply Hpre|left; by exists fh]]. }
  destruct Hw2 as (gh & Hgh & Hm2 & _). pose proof (moved_trans _ _ _ _ _ _ _ Hm1 Hm2) as Hm12.
  rewrite app_nil_r in Hm12. cbn [app] in Hm12.
  destruct (peer_challenge rq rh2) as [echo|] eqn:Hecho; cbn [ok_or io_lift io_bind] in Hrest.
  2:{ injection Hrest as <- <-. exists gh, fh. split; [done|split; [by apply Hpre|left; by exists fh]]. }
  assert (forall t x got, moved s t (gh ++ got) (fh ++ x) -> exchange_stopped rq s t) as Hstop.
  { intros t x got Hm. exists (gh ++ got), (fh ++ x). split; [done|split; [by apply Hpre|]].
    right; right. exists fh, gh, rh2, echo, x. split_and!; [done|done|by exists got|done|done]. }
  apply io_bind_Some in Hrest as [(u2 & t3 & (r3 & Hw3 & Hr3)%io_map_err_Some & Hrest)|(e & (r3 & Hw3 & Hr3)%io_map_err_Some & ->)];
    apply frame_write_sound in Hw3; destruct r3 as [u3|e3]; cbn [map_err] in *; simplify_eq.
  2:{ apply frame_write_Err in Hw3 as (sent & Hm3 & _). eapply Hstop. by eapply moved_trans. }
  destruct Hw3 as (fa & Hfa & Hm3 & _). pose proof (moved_trans _ _ _ _ _ _ _ Hm12 Hm3) as Hm123.
  apply io_bind_Some in Hrest as [(ra & t4 & (r4 & Hw4 & Hr4)%io_map_err_Some & Hrest)|(e & (r4 & Hw4 & Hr4)%io_map_err_Some & ->)];
    apply frame_read_sound in Hw4; destruct r4 as [ra4|e4]; cbn [map_err] in *; simplify_eq.
  2:{ destruct Hw4 as (got & _ & Hm4). pose proof (moved_trans _ _ _ _ _ _ _ Hm123 Hm4) as Hm.
      rewrite !app_nil_r in Hm. by eapply Hstop. }
  destruct Hw4 as (ga & Hga & Hm4 & Hc). pose proof (moved_trans _ _ _ _ _ _ _ Hm123 Hm4) as Hm.
  rewrite !app_nil_r in Hm. injection Hrest as <- <-.
  destruct (validate_exporter_bound_hello_transcript _ _ _ _ _ _ _ _ _) as [f|m] eqn:Hv; simpl.
  - apply exporter_bound_exact in Hv. by exists echo, rh2, ra4, fh, fa, gh, ga.
  - by eapply Hstop.
Qed.

Lemma exchange_total fuel rq s :
  (4 + Z.to_nat MAX_CONTROL_FRAME_BYTES + interrupts s < fuel)%nat ->
  exists x, exchange_hello_claims_with_deadline to_vec from_slice fuel rq s = Some x.
Proof.
  intros Hf. unfold exchange_hello_claims_with_deadline.
  assert (forall A B (m : io S ControlIoError A) (k : A -> io S HelloExchangeError B) t,
    (exists x, m t = Some x) ->
    (forall a t', m t = Some (Ok a, t') -> exists x, k a t' = Some x) ->
    exists x, io_bind (io_map_err Transport m) k t = Some x) as Hstep.
  { intros A B m k t [[r t'] Hm] Hk. apply io_bind_total. exists (map_err Transport r), t'.
    split; [unfold io_map_err; by rewrite Hm|]. intros a Ha. destruct r as [a'|e]; [|done]. injection Ha as ->. by apply Hk. }
  apply io_bind_total. eexists _, s. split; [done|]. intros u _.
  apply Hstep; [by apply frame_write_total|]. intros u1 t1 Hw1.
  apply frame_write_sound in Hw1 as (fh & _ & (_ & _ & _ & Hk1) & _).
  apply Hstep; [apply frame_read_total; lia|]. intros rh t2 Hr2.
  apply frame_read_sound in Hr2 as (gh & _ & (_ & _ & _ & Hk2) & _).
  apply io_bind_total. eexists _, t2. split; [done|]. intros echo _.
  apply Hstep; [apply frame_write_total; lia|]. intros u3 t3 Hw3.
  apply frame_write_sound in Hw3 as (fa & _ & (_ & _ & _ & Hk3) & _).
  apply Hstep; [apply frame_read_total; lia|]. intros ra t4 _. by eexists.
Qed.

(** C15. The Hello exchange always ends, and what it returns is warranted.  With
    enough fuel over a lawful stream it returns; success means that exactly
    two frames went out and two came in before the deadline, and the four are
    a transcript bound to the exporter's session identifier.  On failure
    nothing was sent for a refused request, and the acknowledgement, which
    reveals the echo, was started only after the peer's Hello had the expected
    network, identity and session and a fresh challenge. *)
Theorem hello_exchange_sound (fuel : nat) (rq : HelloExchangeRequest) (s : S) :
  (4 + Z.to_nat MAX_CONTROL_FRAME_BYTES + interrupts s < fuel)%nat ->
  exists r s', exchange_hello_claims_with_deadline to_vec from_slice fuel rq s = Some (r, s') /\
    match r with Ok theirs => exchanged rq s s' theirs | Err _ => exchange_stopped rq s s' end.
Proof.
  intros Hf. destruct (exchange_total fuel rq s Hf) as [[r s'] Hr]. exists r, s'. split; [done|].
  by apply (exchange_sound fuel).
Qed.

End exchange_facts.

(** The first frame of a stream is determined. *)
Lemma frame_unique from_slice f g x y e e' :
  decode_control_frame from_slice f = Ok e -> decode_control_frame from_slice g = Ok e' ->
  f ++ x = g ++ y -> f = g /\ x = y.
Proof.
  intros (n & Hn & Hl & _)%decode_control_frame_Ok (m & Hm & Hl' & _)%decode_control_frame_Ok Heq.
  apply app_inj_1 in Heq; [done|]. rewrite Hl, Hl'.
  pose proof (read_control_length_len _ _ Hn). pose proof (read_control_length_len _ _ Hm).
  rewrite <- (read_prefix f x) in Hn by done. rewrite <- (read_prefix g y) in Hm by done.
  rewrite Heq in Hn. congruence.
Qed.

(** Two ends that complete the exchange over one connection agree: if each
    read exactly what the other wrote, each obtained precisely the facts the
    other holds of itself, and they agree on the network, on the session
    identifier and on who is who. *)
Theorem hello_exchange_agreement {S1 S2 : Type} `{LawfulStream S1} `{LawfulStream S2} to_vec from_slice
    (fuelA fuelB : nat) (rqA rqB : HelloExchangeRequest) (sA sA' : S1) (sB sB' : S2) (factsA factsB : HelloFacts)
    (atob btoa : list Z) :
  json_roundtrips to_vec from_slice ->
  exchange_hello_claims_with_deadline to_vec from_slice fuelA rqA sA = Some (Ok factsA, sA') ->
  exchange_hello_claims_with_deadline to_vec from_slice fuelB rqB sB = Some (Ok factsB, sB') ->
  outgoing sA' = outgoing sA ++ atob -> incoming sB = atob ++ incoming sB' ->
  outgoing sB' = outgoing sB ++ btoa -> incoming sA = btoa ++ incoming sA' ->
  factsA = local_facts rqB /\ factsB = local_facts rqA /\ rq_network rqA = rq_network rqB /\
  exported_session_id rqA = exported_session_id rqB /\
  rq_remote rqA = rq_local rqB /\ rq_remote rqB = rq_local rqA.
Proof.
  intros Hjson HA HB HoA HiB HoB HiA.
  apply exchange_sound in HA as (ea & rhA & raA & fhA & faA & ghA & gaA & _ & EA & EA' & DA & DA' & (_ & IA & OA & _) & _ & TA).
  apply exchange_sound in HB as (eb & rhB & raB & fhB & faB & ghB & gaB & _ & EB & EB' & DB & DB' & (_ & IB & OB & _) & _ & TB).
  rewrite HoA in OA. apply (app_inv_head _) in OA. rewrite HiB in IB. apply (app_inv_tail _) in IB.
  rewrite HoB in OB. apply (app_inv_head _) in OB. rewrite HiA in IA. apply (app_inv_tail _) in IA.
  rewrite OA in IB. rewrite OB in IA.
  pose proof (encode_decode _ _ _ _ Hjson EA) as QA. pose proof (encode_decode _ _ _ _ Hjson EB) as QB.
  destruct (frame_unique from_slice fhA ghB faA gaB _ _ QA DB IB) as [-> _].
  destruct (frame_unique from_slice fhB ghA faB gaA _ _ QB DA IA) as [-> _].
  rewrite QA in DB. rewrite QB in DA. simplify_eq.
  destruct TA as (? & ? & ? & _ & _ & _ & HrA & _). destruct TB as (? & ? & ? & _ & _ & _ & HrB & _).
  unfold own_hello in HrA, HrB. by simplify_eq.
Qed.

(** ** Two ends in memory *)

(** A codec that knows the entries of a table. *)
Definition table_to_vec (t : list (ControlEnvelope * list Z)) (e : ControlEnvelope) : option (list Z) :=
  snd <$> List.find (fun p => bool_decide (p.1 = e)) t.
Definition table_from_slice (t : list (ControlEnvelope * list Z)) (l : list Z) : option ControlEnvelope :=
  fst <$> List.find (fun p => bool_decide (p.2 = l)) t.

Lemma table_roundtrips t : NoDup (t.*2) -> json_roundtrips (table_to_vec t) (table_from_slice t).
Proof.
  intros Hnd e p _. unfold table_to_vec, table_from_slice.
  induction t as [|[e0 p0] t IH]; [done|]. cbn [List.find fst snd fmap list_fmap] in *.
  apply NoDup_cons in Hnd as [Hni Hnd]. case_bool_decide as He.
  - intros [= <-]. by rewrite bool_decide_eq_true_2; subst.
  - intros Hp. case_bool_decide as Hpp; [|by apply IH]. exfalso. subst p0. apply Hni.
    apply fmap_Some in Hp as (q & Hq & ->). apply find_some in Hq as [Hq _].
    apply list_elem_of_fmap. exists q. split; [done|by apply list_elem_of_In].
Qed.

Definition demo_facts (v : Z) : HelloFacts := mkFacts [v] caps_default None [].
Definition demo_alice : HelloExchangeRequest :=
  mkRequest (fill_id 1) (fill_id 2) (fill_id 3) (fill_bytes 16 9) (fill_bytes 16 4) (demo_facts 49) 1000.
Definition demo_bob : HelloExchangeRequest :=
  mkRequest (fill_id 1) (fill_id 3) (fill_id 2) (fill_bytes 16 9) (fill_bytes 16 5) (demo_facts 50) 1000.

Definition demo_table : list (ControlEnvelope * list Z) :=
  [(own_hello demo_alice, [11]%Z); (own_hello demo_bob, [12; 12]%Z);
   (own_ack demo_alice (local_challenge demo_bob), [13]%Z); (own_ack demo_bob (local_challenge demo_alice), [14]%Z)].

Definition alice_bytes : list Z := [0; 0; 0; 1; 11; 0; 0; 0; 1; 13]%Z.
Definition bob_bytes : list Z := [0; 0; 0; 2; 12; 12; 0; 0; 0; 1; 14]%Z.
Definition demo_alice_stream : memory := mkMemory bob_bytes [] 0 1.
Definition demo_bob_stream : memory := mkMemory alice_bytes [] 0 0.

Lemma hello_exchange_sound_witness :
  exists r s', exchange_hello_claims_with_deadline (table_to_vec demo_table) (table_from_slice demo_table)
      demo_fuel demo_alice demo_alice_stream = Some (r, s') /\
    match r with
    | Ok theirs => exchanged (table_to_vec demo_table) (table_from_slice demo_table) demo_alice demo_alice_stream s' theirs
    | Err _ => exchange_stopped (table_to_vec demo_table) (table_from_slice demo_table) demo_alice demo_alice_stream s'
    end.
Proof.
  apply (hello_exchange_sound (table_to_vec demo_table) (table_from_slice demo_table) demo_fuel demo_alice).
  change (interrupts demo_alice_stream) with 1%nat. unfold demo_fuel. lia.
Defined.

Lemma hello_exchange_agreement_witness :
  exchange_hello_claims_with_deadline (table_to_vec demo_table) (table_from_slice demo_table) 40 demo_alice
    demo_alice_stream = Some (Ok (demo_facts 50), mkMemory [] alice_bytes 28 0) /\
  demo_facts 50 = local_facts demo_bob.
Proof.
  assert (exchange_hello_claims_with_deadline (table_to_vec demo_table) (table_from_slice demo_table) 40 demo_alice
    demo_alice_stream = Some (Ok (demo_facts 50), mkMemory [] alice_bytes 28 0)) as HA by (vm_compute; reflexivity).
  split; [exact HA|].
  apply (hello_exchange_agreement (table_to_vec demo_table) (table_from_slice demo_table) 40 40 demo_alice demo_bob
    demo_alice_stream (mkMemory [] alice_bytes 28 0) demo_bob_stream (mkMemory [] bob_bytes 27 0)
    (demo_facts 50) (demo_facts 49) alice_bytes bob_bytes);
    [|exact HA| |reflexivity..].
  - apply table_roundtrips. apply (bool_decide_eq_true_1 (NoDup _)). vm_compute. reflexivity.
  - vm_compute. reflexivity.
Defined.
