(* ===== verification/SessionStream.v ===== *)
(** The two ends of an authenticated session:
    [crates/blueroute-protocol/src/session_stream.rs] and
    [session_writer.rs]. *)

From S2P Require Import Prelude Ident ControlFrame ControlStream ControlIo Handshake.

(** ** session_stream.rs *)

Record SessionControlStream := mkStream {
  decoder : ControlStreamDecoder;
  ss_network : NetworkId;
  ss_peer : NodeId;
  exporter_session_id : bytes 16;
  ss_last_sequence : Z;
  ss_closed : bool;
  ss_poisoned : bool;
}.

Inductive SessionStreamError :=
| InvalidSession | Decode (e : StreamDecodeError) | WrongContext | Replay | UnexpectedHandshake | AfterGoodbye
| UnexpectedEofError | StreamPoisoned.

Inductive SessionReadIoError := ReadTransport (e : ControlIoError) | Scope (e : SessionStreamError)
| ReadInternalFrame (e : ControlFrameError).

Definition stream_after_verified_hello (net : NetworkId) (peer : NodeId) (exporter : bytes 16) :
  result SessionStreamError SessionControlStream :=
  guard_err (bool_decide (net = zero_id) || bool_decide (peer = zero_id) || all_zero exporter) InvalidSession
  (Ok (mkStream decoder_new net peer exporter 2 false false)).

Definition set_decoder (d : ControlStreamDecoder) (s : SessionControlStream) : SessionControlStream :=
  mkStream d (ss_network s) (ss_peer s) (exporter_session_id s) (ss_last_sequence s) (ss_closed s) (ss_poisoned s).
Definition poison (s : SessionControlStream) : SessionControlStream :=
  mkStream (decoder s) (ss_network s) (ss_peer s) (exporter_session_id s) (ss_last_sequence s) (ss_closed s) true.
Definition note_frame (q : Z) (closed : bool) (s : SessionControlStream) : SessionControlStream :=
  mkStream (decoder s) (ss_network s) (ss_peer s) (exporter_session_id s) q closed (ss_poisoned s).

Definition stream_reject {A : Type} (e : SessionStreamError) : stres SessionControlStream SessionStreamError A :=
  fun s => (Err e, poison s).

(** The body of the loop over the decoded frames. *)
Definition check_scope (_ : ()) (frame : ControlEnvelope) : stres SessionControlStream SessionStreamError () := fun s =>
  if negb (bool_decide (env_network frame = ss_network s)) || negb (bool_decide (sender frame = ss_peer s))
     || negb (bool_decide (session_id frame = exporter_session_id s))
  then stream_reject WrongContext s
  else if (sequence frame <=? ss_last_sequence s)%Z then stream_reject Replay s
  else if ss_closed s then stream_reject AfterGoodbye s
  else match message frame with
  | MsgHeartbeat => (Ok (), note_frame (sequence frame) (ss_closed s) s)
  | MsgGoodbye => (Ok (), note_frame (sequence frame) true s)
  | MsgHello _ _ | MsgHelloAck _ _ => stream_reject UnexpectedHandshake s
  end.

Section session.
Variable to_vec : ControlEnvelope -> option (list Z).
Variable from_slice : list Z -> option ControlEnvelope.

Definition stream_feed (chunk : list Z) : io SessionControlStream SessionStreamError (list ControlEnvelope) := fun s =>
  if ss_poisoned s then Some (Err StreamPoisoned, s)
  else if ss_closed s then
    Some (if bool_decide (chunk = []) then (Ok [], s) else stream_reject AfterGoodbye s)
  else
  match feed from_slice chunk (decoder s) with
  | None => None
  | Some (Err e, d) => Some (stream_reject (Decode e) (set_decoder d s))
  | Some (Ok frames, d) =>
    Some (match st_for_each check_scope () frames (set_decoder d s) with
    | (Err e, s') => (Err e, s')
    | (Ok _, s') =>
      if ss_closed s' && negb (length (partial (decoder s')) =? 0) then stream_reject AfterGoodbye s'
      else (Ok frames, s')
    end)
  end.

Definition stream_finish : stres SessionControlStream SessionStreamError () := fun s =>
  if ss_poisoned s then (Err StreamPoisoned, s)
  else match finish (decoder s) with
  | (Ok _, d) => if ss_closed s then (Ok (), poison (set_decoder d s)) else stream_reject UnexpectedEofError (set_decoder d s)
  | (Err e, d) => stream_reject (Decode e) (set_decoder d s)
  end.

(** Reading one frame from a source: both states change. *)
Definition read_one_with_deadline {S : Type} `{DeadlineStream S} (fuel : nat) (deadline : Z) :
  io (SessionControlStream * S) SessionReadIoError ControlEnvelope := fun '(st, src) =>
  if ss_poisoned st then Some (Err (Scope StreamPoisoned), (st, src))
  else if ss_closed st then Some (Err (Scope AfterGoodbye), (st, src))
  else
  match read_one_control_frame_with_deadline from_slice fuel deadline src with
  | None => None
  | Some (Err e, src') => Some (Err (ReadTransport e), (poison st, src'))
  | Some (Ok envelope, src') =>
    match encode_control_frame to_vec envelope with
    | Err e => Some (Err (ReadInternalFrame e), (poison st, src'))
    | Ok bytes =>
      match stream_feed bytes st with
      | None => None
      | Some (Err e, st') => Some (Err (Scope e), (st', src'))
      | Some (Ok [frame], st') => Some (Ok frame, (st', src'))
      | Some (Ok _, st') => Some (Err (Scope StreamPoisoned), (poison st', src'))
      end
    end
  end.

(** ** session_writer.rs *)

Record SessionControlWriter := mkWriter {
  w_network : NetworkId;
  w_local : NodeId;
  w_exporter : bytes 16;
  next_sequence : Z;
  w_closed : bool;
  w_poisoned : bool;
}.

Inductive SessionWriteError :=
| WriteInvalidSession | WriteAfterGoodbye | SequenceExhausted | Encode (e : ControlFrameError) | WritePoisoned.
Inductive SessionWriteIoError := State (e : SessionWriteError) | WriteTransport (e : ControlIoError)
| WriteInternalFrame (e : ControlFrameError).

Definition writer_after_verified_hello (net : NetworkId) (local peer : NodeId) (exporter : bytes 16) :
  result SessionWriteError SessionControlWriter :=
  guard_err (bool_decide (net = zero_id) || bool_decide (local = zero_id) || bool_decide (peer = zero_id)
             || bool_decide (local = peer) || all_zero exporter) WriteInvalidSession
  (Ok (mkWriter net local exporter 3 false false)).

Definition poison_writer (w : SessionControlWriter) : SessionControlWriter :=
  mkWriter (w_network w) (w_local w) (w_exporter w) (next_sequence w) (w_closed w) true.

Definition next_envelope (m : ControlMessage) (w : SessionControlWriter) : ControlEnvelope :=
  mkEnvelope CONTROL_VERSION (w_network w) (w_local w) (w_exporter w) (next_sequence w) m.

Definition writer_encode (m : ControlMessage) : stres SessionControlWriter SessionWriteError (list Z) := fun w =>
  if w_poisoned w then (Err WritePoisoned, w)
  else if w_closed w then (Err WriteAfterGoodbye, w)
  else match checked_add 64 (next_sequence w) 1 with
  | None => (Err SequenceExhausted, poison_writer w)
  | Some next =>
    match encode_control_frame to_vec (next_envelope m w) with
    | Err e => (Err (Encode e), poison_writer w)
    | Ok encoded =>
      (Ok encoded, mkWriter (w_network w) (w_local w) (w_exporter w) next
         (if m is MsgGoodbye then true else w_closed w) (w_poisoned w))
    end
  end.

Definition heartbeat : stres SessionControlWriter SessionWriteError (list Z) := writer_encode MsgHeartbeat.
Definition goodbye : stres SessionControlWriter SessionWriteError (list Z) := writer_encode MsgGoodbye.

Definition write_message_with_deadline {S : Type} `{DeadlineStream S} (fuel : nat) (deadline : Z) (m : ControlMessage) :
  io (SessionControlWriter * S) SessionWriteIoError () := fun '(w, dst) =>
  match writer_encode m w with
  | (Err e, w') => Some (Err (State e), (w', dst))
  | (Ok frame, w') =>
    match decode_control_frame from_slice frame with
    | Err e => Some (Err (WriteInternalFrame e), (poison_writer w', dst))
    | Ok envelope =>
      match write_one_control_frame_with_deadline to_vec fuel envelope deadline dst with
      | None => None
      | Some (Err e, dst') => Some (Err (WriteTransport e), (poison_writer w', dst'))
      | Some (Ok _, dst') => Some (Ok (), (w', dst'))
      end
    end
  end.

Definition write_heartbeat_with_deadline {S : Type} `{DeadlineStream S} (fuel : nat) (deadline : Z) :=
  write_message_with_deadline (S := S) fuel deadline MsgHeartbeat.
Definition write_goodbye_with_deadline {S : Type} `{DeadlineStream S} (fuel : nat) (deadline : Z) :=
  write_message_with_deadline (S := S) fuel deadline MsgGoodbye.

End session.

(** ** What a session accepts *)

Definition in_session (net : NetworkId) (peer : NodeId) (sid : bytes 16) (e : ControlEnvelope) : Prop :=
  env_network e = net /\ sender e = peer /\ session_id e = sid.

(** From sequence number [q], heartbeats in increasing order and at most one
    goodbye, the last. *)
Inductive accepts (net : NetworkId) (peer : NodeId) (sid : bytes 16) :
  Z -> bool -> list ControlEnvelope -> Z -> bool -> Prop :=
| acc_nil q c : accepts net peer sid q c [] q c
| acc_heartbeat q e es q' c' : in_session net peer sid e -> (q < sequence e)%Z -> message e = MsgHeartbeat ->
    accepts net peer sid (sequence e) false es q' c' -> accepts net peer sid q false (e :: es) q' c'
| acc_goodbye q e : in_session net peer sid e -> (q < sequence e)%Z -> message e = MsgGoodbye ->
    accepts net peer sid q false [e] (sequence e) true.

Section accept_facts.
Context (net : NetworkId) (peer : NodeId) (sid : bytes 16).

Lemma accepts_app q c es es' q' c' :
  accepts net peer sid q c (es ++ es') q' c' <->
  exists q1 c1, accepts net peer sid q c es q1 c1 /\ accepts net peer sid q1 c1 es' q' c'.
Proof.
  split.
  - revert q c. induction es as [|e es IH]; intros q c Ha; simpl in Ha.
    + exists q, c. split; [constructor|done].
    + inversion Ha; subst.
      * match goal with Hr : accepts _ _ _ _ _ (es ++ es') _ _ |- _ => destruct (IH _ _ Hr) as (q1 & c1 & Ha1 & Ha2) end.
        exists q1, c1. split; [by constructor|done].
      * match goal with Hn : [] = es ++ es' |- _ => symmetry in Hn; apply app_nil in Hn as [-> ->] end.
        exists (sequence e), true. split; by constructor.
  - intros (q1 & c1 & H1 & H2). induction H1 as [q c|q e es q1 c1 Hi Hq Hm Hr IH|q e Hi Hq Hm]; simpl; [done| |].
    + apply acc_heartbeat; [done..|by apply IH].
    + inversion H2; subst. by constructor.
Qed.

Lemma accepts_closed q es q' c' : accepts net peer sid q true es q' c' -> es = [] /\ q' = q /\ c' = true.
Proof. by inversion 1. Qed.

(** An open session of this context. *)
Definition session_at (q : Z) (c : bool) (s : SessionControlStream) : Prop :=
  ss_network s = net /\ ss_peer s = peer /\ exporter_session_id s = sid /\ ss_last_sequence s = q /\
  ss_closed s = c /\ ss_poisoned s = false.

Lemma check_scope_step q s e s' r :
  session_at q false s -> check_scope () e s = (r, s') ->
  match r with
  | Ok _ => in_session net peer sid e /\ (q < sequence e)%Z /\ decoder s' = decoder s /\
      ((message e = MsgHeartbeat /\ session_at (sequence e) false s') \/
       (message e = MsgGoodbye /\ session_at (sequence e) true s'))
  | Err _ => ss_poisoned s' = true /\
      ~ (in_session net peer sid e /\ (q < sequence e)%Z /\ (message e = MsgHeartbeat \/ message e = MsgGoodbye))
  end.
Proof.
  intros (Hn & Hpe & Hsi & Hl & Hc & Hp). unfold check_scope, in_session. rewrite Hn, Hpe, Hsi, Hl, Hc.
  destruct (_ || _) eqn:Hctx.
  { intros [= <- <-]. split; [done|]. intros ((Hi1 & Hi2 & Hi3) & _).
    rewrite !bool_decide_eq_true_2 in Hctx by done. done. }
  rewrite !orb_false_iff, !negb_false_iff, !bool_decide_eq_true in Hctx. destruct Hctx as ((Hi1 & Hi2) & Hi3).
  destruct (Z.leb_spec (sequence e) q) as [Hle|Hlt].
  { intros [= <- <-]. split; [done|]. intros (_ & ? & _). lia. }
  destruct (message e) as [c f|c f| |] eqn:Hm; intros [= <- <-].
  - split; [done|]. intros (_ & _ & [?|?]); done.
  - split; [done|]. intros (_ & _ & [?|?]); done.
  - split_and!; [done..|]. left. by split_and!.
  - split_and!; [done..|]. right. by split_and!.
Qed.

Lemma check_scope_closed q s e : session_at q true s -> exists err, check_scope () e s = (Err err, poison s).
Proof.
  intros (_ & _ & _ & _ & Hc & _). unfold check_scope, stream_reject. rewrite Hc.
  destruct (_ || _); [by eexists|]. destruct (_ <=? _)%Z; by eexists.
Qed.

Lemma check_frames q c es s r s' :
  session_at q c s -> st_for_each check_scope () es s = (r, s') ->
  match r with
  | Ok _ => exists q' c', accepts net peer sid q c es q' c' /\ session_at q' c' s' /\ decoder s' = decoder s
  | Err _ => ss_poisoned s' = true /\ forall q' c', ~ accepts net peer sid q c es q' c'
  end.
Proof.
  revert q c s. induction es as [|e es IH]; intros q c s Hs; simpl.
  { intros [= <- <-]. exists q, c. split_and!; [constructor|apply Hs..|done]. }
  unfold st_bind. destruct c.
  { destruct (check_scope_closed q s e Hs) as [err ->]. intros [= <- <-]. split; [done|].
    intros q' c' Ha%accepts_closed. by destruct Ha. }
  destruct (check_scope () e s) as [[[]|err] s1] eqn:He; pose proof (check_scope_step q s e s1 _ Hs He) as Hstep.
  - destruct Hstep as (Hin & Hq & Hd & Hm). intros Hrest. destruct Hm as [[Hm Hs1]|[Hm Hs1]].
    + specialize (IH _ _ _ Hs1 Hrest). destruct r as [u|x].
      * destruct IH as (q' & c' & Ha & Hs' & Hd'). exists q', c'. split_and!; [by constructor|apply Hs'..|congruence].
      * destruct IH as [Hp Hno]. split; [done|]. intros q' c' Ha. inversion Ha; subst; [by eapply Hno|congruence].
    + specialize (IH _ _ _ Hs1 Hrest). destruct r as [u|x].
      * destruct IH as (q' & c' & Ha & Hs' & Hd'). destruct (accepts_closed _ _ _ _ Ha) as (-> & -> & ->).
        exists (sequence e), true. split_and!; [by constructor|apply Hs'..|congruence].
      * destruct IH as [Hp Hno]. split; [done|]. intros q' c' Ha. inversion Ha; subst; [congruence|].
        eapply Hno. constructor.
  - destruct Hstep as [Hp Hno]. intros [= <- <-]. split; [done|]. intros q' c' Ha. apply Hno.
    inversion Ha; subst; auto.
Qed.

End accept_facts.

Section session_facts.
Context (net : NetworkId) (peer : NodeId) (sid : bytes 16).
Variable from_slice : list Z -> option ControlEnvelope.

Abbreviation accepts := (accepts net peer sid).
Abbreviation session_at := (session_at net peer sid).

(** A session that can go on: its decoder is open, and nothing is pending after
    a goodbye. *)
Definition session_open (q : Z) (c : bool) (s : SessionControlStream) : Prop :=
  session_at q c s /\ decoder_open (decoder s) /\ (c = true -> partial (decoder s) = []).

Lemma feed_nil d : decoder_open d -> feed from_slice [] d = Some (Ok [], d).
Proof. intros (_ & Hp & Hf). unfold feed. by rewrite Hp, Hf. Qed.

Lemma set_decoder_at q c d s : session_at q c s -> session_at q c (set_decoder d s).
Proof. done. Qed.

Lemma stream_feed_spec q c s chunk :
  session_open q c s -> Forall byte_ok chunk ->
  exists r s', stream_feed from_slice chunk s = Some (r, s') /\
    match r with
    | Ok out => exists q' c', feed from_slice chunk (decoder s) = Some (Ok out, decoder s') /\
        accepts q c out q' c' /\ session_open q' c' s'
    | Err _ => ss_poisoned s' = true
    end.
Proof.
  intros (Hat & Hd & Hcl) Hb. pose proof Hat as (_ & _ & _ & _ & Hc & Hp). unfold stream_feed. rewrite Hp, Hc.
  destruct c.
  { case_bool_decide as Hnil; [|by eexists _, _].
    subst chunk. eexists _, _. split; [done|]. exists q, true. split; [by apply feed_nil|]. split; [constructor|done]. }
  pose proof (feed_spec from_slice chunk _ Hd Hb) as Hfeed.
  destruct (feed from_slice chunk (decoder s)) as [[[out|x] d]|] eqn:Hf; [| |done].
  2:{ by eexists _, _. }
  clear Hfeed. pose proof (feed_open from_slice chunk _ out d Hd Hb Hf) as Hd'.
  destruct (st_for_each check_scope () out (set_decoder d s)) as [r s'] eqn:Hs.
  pose proof (check_frames net peer sid q false out _ r s' (set_decoder_at q false d s Hat) Hs) as Hcheck.
  destruct r as [u|x]; [|destruct Hcheck as [Hpo _]; by eexists _, _].
  destruct Hcheck as (q' & c' & Ha & Hat' & Hdec). pose proof Hat' as (_ & _ & _ & _ & Hc' & _).
  rewrite Hc'. destruct (Nat.eqb_spec (length (partial (decoder s'))) 0) as [Hz|Hnz]; cbn [negb].
  - rewrite andb_false_r. eexists _, _. split; [done|]. exists q', c'.
    split; [by rewrite Hdec|]. split; [done|]. split; [done|]. split; [by rewrite Hdec|].
    intros _. by apply length_zero_iff_nil.
  - rewrite andb_true_r. destruct c'; [by eexists _, _|]. eexists _, _. split; [done|]. exists q', false.
    split; [by rewrite Hdec|]. split; [done|]. split; [done|]. split; [by rewrite Hdec|done].
Qed.

(** Feeding chunks one after the other, stopping at the first error. *)
Fixpoint stream_feed_all (chunks : list (list Z)) : io SessionControlStream SessionStreamError (list ControlEnvelope) :=
  match chunks with
  | [] => io_ret []
  | c :: chunks => let? es := stream_feed from_slice c in let? rest := stream_feed_all chunks in io_ret (es ++ rest)
  end.

Lemma stream_feed_all_spec chunks q c s :
  session_open q c s -> Forall (Forall byte_ok) chunks ->
  exists r s', stream_feed_all chunks s = Some (r, s') /\
    match r with
    | Ok out => exists q' c', feed_all from_slice chunks (decoder s) = Some (Ok out, decoder s') /\
        accepts q c out q' c' /\ session_open q' c' s'
    | Err _ => ss_poisoned s' = true
    end.
Proof.
  revert q c s. induction chunks as [|ch chunks IH]; intros q c s Hs Hb; cbn [stream_feed_all feed_all].
  { eexists _, _. split; [done|]. exists q, c. split; [done|]. split; [constructor|done]. }
  apply Forall_cons in Hb as [Hb Hbs].
  destruct (stream_feed_spec q c s ch Hs Hb) as (r & s1 & Hr & Hout). unfold io_bind. rewrite Hr.
  destruct r as [out|x]; [|by eexists _, _]. destruct Hout as (q1 & c1 & Hf & Ha & Hs1).
  destruct (IH q1 c1 s1 Hs1 Hbs) as (r2 & s2 & Hr2 & Hout2). rewrite Hr2. destruct r2 as [out2|x]; [|by eexists _, _].
  destruct Hout2 as (q2 & c2 & Hf2 & Ha2 & Hs2). eexists _, _. split; [done|]. exists q2, c2.
  rewrite Hf, Hf2. split; [done|]. split; [|done]. apply accepts_app. by exists q1, c1.
Qed.

Lemma fresh_session s :
  stream_after_verified_hello net peer sid = Ok s -> session_open 2 false s /\ decoder s = decoder_new.
Proof.
  unfold stream_after_verified_hello. intros [_ [= <-]]%guard_err_Ok. split; [|done].
  split; [by split_and!|]. split; [apply decoder_new_open|done].
Qed.

Lemma finish_spec q c s :
  session_open q c s ->
  (stream_finish s).1 = (if c then Ok () else if bool_decide (partial (decoder s) = []) then Err UnexpectedEofError
                         else Err (Decode MalformedFrame)) /\ ss_poisoned (stream_finish s).2 = true.
Proof.
  intros ((_ & _ & _ & _ & Hc & Hp) & (Hok & Hdp & Hdf) & Hcl). unfold stream_finish, finish. rewrite Hp, Hdp, Hdf.
  rewrite (decoder_ok_announced _ Hok). destruct c.
  - rewrite Hcl, Hc by done. done.
  - rewrite Hc. case_bool_decide as Hn.
    + by rewrite Hn.
    + simpl. done.
Qed.

Lemma accepts_det q c es q1 c1 q2 c2 : accepts q c es q1 c1 -> accepts q c es q2 c2 -> q1 = q2 /\ c1 = c2.
Proof.
  intros H1. revert q2 c2. induction H1 as [q c|q e es q1 c1 Hi Hq Hm Hr IH|q e Hi Hq Hm]; intros q2 c2 H2;
    inversion H2; subst; auto; congruence.
Qed.

(** No chunk completes more than 64 frames of [fs], the first [off] bytes of
    which came before; and one does. *)
Definition chunks_within (fs : list (list Z)) (off : nat) (chunks : list (list Z)) : Prop :=
  forall pre ch post, chunks = pre ++ ch :: post ->
    completed_at fs (off + length (concat pre)) (length ch) <= MAX_FRAMES_PER_FEED.
Definition chunk_exceeds (fs : list (list Z)) (off : nat) (chunks : list (list Z)) : Prop :=
  exists pre ch post, chunks = pre ++ ch :: post /\
    MAX_FRAMES_PER_FEED < completed_at fs (off + length (concat pre)) (length ch).

Lemma chunks_within_cons fs0 fs' off (rest : list Z) ch chunks :
  off + length ch = length (concat fs0) + length rest ->
  completed_at (fs0 ++ fs') off (length ch) <= MAX_FRAMES_PER_FEED ->
  chunks_within fs' (length rest) chunks -> chunks_within (fs0 ++ fs') off (ch :: chunks).
Proof.
  intros Hoff Hch Hw [|c pre] x post; simpl; intros [= <- Heq]; [by rewrite Nat.add_0_r|].
  rewrite length_app, Nat.add_assoc, Hoff, <- Nat.add_assoc, completed_at_app. by eapply Hw.
Qed.

Lemma chunk_exceeds_cons fs0 fs' off (rest : list Z) ch chunks :
  off + length ch = length (concat fs0) + length rest ->
  chunk_exceeds fs' (length rest) chunks -> chunk_exceeds (fs0 ++ fs') off (ch :: chunks).
Proof.
  intros Hoff (pre & x & post & -> & Hx). exists (ch :: pre), x, post. split; [done|]. cbn [concat].
  by rewrite length_app, Nat.add_assoc, Hoff, <- Nat.add_assoc, completed_at_app.
Qed.

(** Chunks of a sequence of frames that the session accepts. *)
Lemma stream_feed_all_frames chunks q c s fs es q' c' :
  session_open q c s -> Forall (Forall byte_ok) chunks ->
  Forall (fun ch => Z.of_nat (length ch) <= MAX_STREAM_FEED_BYTES)%Z chunks ->
  Forall2 (decodes from_slice) fs es -> partial (decoder s) ++ concat chunks = concat fs -> accepts q c es q' c' ->
  frames_within fs (length (partial (decoder s))) = 0 ->
  exists r s', stream_feed_all chunks s = Some (r, s') /\
    match r with
    | Ok out => out = es /\ session_open q' c' s' /\ chunks_within fs (length (partial (decoder s))) chunks
    | Err x => x = Decode FrameLimit /\ chunk_exceeds fs (length (partial (decoder s))) chunks
    end.
Proof.
  revert q c s fs es. induction chunks as [|ch chunks IH]; intros q c s fs es Hs Hb Hl Hfs Heq Ha Hzero;
    cbn [stream_feed_all concat] in *.
  { exists (Ok []), s. split; [done|]. pose proof Hs as (_ & Hd & _).
    edestruct (feed_all_frames from_slice [] (decoder s) fs es Hd Hb Hl Hfs Heq) as (r & d & [= <- <-] & <- & _).
    inversion Ha; subst. split_and!; try done; try apply Hs. intros [] ? ?; discriminate. }
  apply Forall_cons in Hb as [Hbc Hb]. apply Forall_cons in Hl as [Hlc Hl].
  destruct (stream_feed_spec q c s ch Hs Hbc) as (r & s1 & Hr & Hout). unfold io_bind. rewrite Hr.
  rewrite app_assoc in Heq. pose proof (split_frames_counted from_slice fs es Hfs MAX_FRAMES_PER_FEED _ _ Heq) as Hsplit.
  destruct Hs as (Hat & Hd & Hcl). pose proof (feed_spec from_slice ch _ Hd Hbc) as Hfeed.
  rewrite (proj2 (Z.ltb_ge _ _)) in Hfeed by done.
  destruct r as [out|x].
  - destruct Hout as (q1 & c1 & Hf & Ha1 & Hs1). rewrite Hf in Hfeed.
    destruct (split_frames _ _ _) as [[out' rest]|y]; cbn [feed_outcome app] in Hfeed; [|done].
    injection Hfeed as -> Hdec. destruct Hsplit as (fs0 & fs' & es' & -> & -> & Hfs' & Hbuf & Hrest & Hcount & Hroom).
    apply accepts_app in Ha as (q2 & c2 & Ha2 & Ha').
    destruct (accepts_det _ _ _ _ _ _ _ Ha1 Ha2) as [<- <-].
    assert (length (partial (decoder s)) + length ch = length (concat fs0) + length rest) as Hoff
      by (rewrite <- !length_app; by rewrite Hbuf).
    assert (completed_at (fs0 ++ fs') (length (partial (decoder s))) (length ch) <= MAX_FRAMES_PER_FEED) as Hch.
    { unfold completed_at. rewrite Hzero, <- length_app, Hcount. lia. }
    assert (frames_within fs' (length rest) = 0) as Hzero'.
    { rewrite Hbuf, length_app, frames_within_app in Hcount. lia. }
    assert (partial (decoder s1) = rest) as Hpart by (by rewrite Hdec).
    destruct (IH q1 c1 s1 fs' es' Hs1 Hb Hl Hfs') as (r2 & s2 & Hr2 & Hout2); [by rewrite Hpart|done|by rewrite Hpart|].
    rewrite Hpart in Hout2. rewrite Hr2. destruct r2 as [out2|x]; eexists _, _; (split; [done|]).
    + destruct Hout2 as (-> & ? & ?). split_and!; [done..|]. by eapply chunks_within_cons.
    + destruct Hout2 as [-> ?]. split; [done|]. by eapply chunk_exceeds_cons.
  - eexists _, _. split; [done|]. revert Hr. unfold stream_feed.
    pose proof Hat as (_ & _ & _ & _ & Hc & Hp). rewrite Hp, Hc, Hfeed. destruct c.
    { apply accepts_closed in Ha as (-> & _ & _). inversion Hfs; subst fs. simpl in Heq.
      apply app_nil in Heq as [[_ ->]%app_nil _]. by rewrite bool_decide_eq_true_2. }
    destruct (split_frames _ _ _) as [[out' rest]|y]; cbn [feed_outcome app].
    2:{ intros [= <- _]. destruct Hsplit as [-> Hover]. split; [done|]. exists [], ch, chunks. split; [done|].
        unfold completed_at. cbn [concat length]. rewrite Nat.add_0_r, Hzero, Nat.sub_0_r, <- length_app. done. }
    destruct Hsplit as (fs0 & fs' & es' & -> & -> & Hfs' & _ & Hrest & _). apply accepts_app in Ha as (q2 & c2 & Ha2 & Ha').
    set (s0 := set_decoder _ s). destruct (st_for_each check_scope () out' s0) as [r s'] eqn:Hck.
    pose proof (check_frames net peer sid q false out' s0 r s' Hat Hck) as Hcheck.
    destruct r as [u|err]; [|destruct Hcheck as [_ Hno]; by destruct (Hno q2 c2)].
    destruct Hcheck as (q3 & c3 & Ha3 & Hat3 & Hdec). destruct (accepts_det _ _ _ _ _ _ _ Ha2 Ha3) as [<- <-].
    pose proof Hat3 as (_ & _ & _ & _ & -> & _). destruct c2; [|done].
    apply accepts_closed in Ha' as (-> & _ & _). inversion Hfs'; subst fs'. apply app_nil in Hrest as [-> _].
    by rewrite Hdec.
Qed.

Lemma decodes_nonempty f e : decodes from_slice f e -> 0 < length f.
Proof. intros (n & _ & ->)%decodes_header. unfold HEADER_BYTES. lia. Qed.

Lemma nothing_within fs es : Forall2 (decodes from_slice) fs es -> frames_within fs 0 = 0.
Proof.
  intros Hfs. destruct Hfs as [|f e fs es Hf _]; [done|]. cbn [frames_within].
  pose proof (decodes_nonempty f e Hf). by destruct (Nat.leb_spec (length f) 0); [lia|].
Qed.

End session_facts.

(** What an authenticated session lets through, and that it always answers.
    Any chunks fed to a fresh session return; if none was refused, what came
    out is exactly what the decoder splits off the bytes, all of it from this
    peer, network and exporter session, in increasing sequence from three on,
    heartbeats only and at most one goodbye, the last; and the end of the
    stream is then clean exactly if the goodbye came.  After a refusal nothing
    is let through again. *)
Theorem session_stream_accepts from_slice (net : NetworkId) (peer : NodeId) (sid : bytes 16) (s : SessionControlStream)
    (chunks : list (list Z)) (next : list Z) :
  stream_after_verified_hello net peer sid = Ok s -> Forall (Forall byte_ok) chunks ->
  exists r s', stream_feed_all from_slice chunks s = Some (r, s') /\
    match r with
    | Ok out => feed_all from_slice chunks decoder_new = Some (Ok out, decoder s') /\
        exists last closed, accepts net peer sid 2 false out last closed /\
          ((stream_finish s').1 = Ok () <-> closed = true)
    | Err _ => stream_feed from_slice next s' = Some (Err StreamPoisoned, s') /\
        stream_finish s' = (Err StreamPoisoned, s')
    end.
Proof.
  intros Hnew Hb. destruct (fresh_session net peer sid s Hnew) as [Hs Hd].
  destruct (stream_feed_all_spec net peer sid from_slice chunks 2 false s Hs Hb) as (r & s' & Hr & Hout).
  exists r, s'. split; [done|]. destruct r as [out|x].
  - destruct Hout as (q' & c' & Hf & Ha & Hs'). rewrite <- Hd. split; [done|]. exists q', c'. split; [done|].
    rewrite (proj1 (finish_spec _ _ _ q' c' s' Hs')). destruct c'; [done|]. by case_bool_decide.
  - unfold stream_feed, stream_finish. by rewrite Hout.
Qed.

(** ** Both ends *)

(** A writer's session: [n] heartbeats and the goodbye. *)
Fixpoint write_session (to_vec : ControlEnvelope -> option (list Z)) (n : nat) :
  stres SessionControlWriter SessionWriteError (list (list Z)) :=
  match n with
  | 0 => st_bind (goodbye to_vec) (fun f => st_ret [f])
  | S n => st_bind (heartbeat to_vec) (fun f => st_bind (write_session to_vec n) (fun fs => st_ret (f :: fs)))
  end.

Fixpoint session_envelopes (net : NetworkId) (local : NodeId) (sid : bytes 16) (q : Z) (n : nat) : list ControlEnvelope :=
  match n with
  | 0 => [mkEnvelope CONTROL_VERSION net local sid q MsgGoodbye]
  | S n => mkEnvelope CONTROL_VERSION net local sid q MsgHeartbeat :: session_envelopes net local sid (q + 1) n
  end.

Lemma session_envelopes_accepted net local sid n q last :
  (last < q)%Z -> accepts net local sid last false (session_envelopes net local sid q n) (q + Z.of_nat n) true.
Proof.
  revert q last. induction n as [|n IH]; intros q last Hq; cbn [session_envelopes].
  - rewrite Z.add_0_r. by apply (acc_goodbye net local sid last (mkEnvelope CONTROL_VERSION net local sid q MsgGoodbye)).
  - apply acc_heartbeat; [done..|]. replace (q + Z.of_nat (S n))%Z with (q + 1 + Z.of_nat n)%Z by lia.
    apply IH. simpl. lia.
Qed.

Lemma session_envelopes_length net local sid q n : length (session_envelopes net local sid q n) = S n.
Proof. revert q. induction n as [|n IH]; intros q; simpl; [done|by rewrite IH]. Qed.

Lemma writer_encode_Ok to_vec m w f w' :
  writer_encode to_vec m w = (Ok f, w') ->
  encode_control_frame to_vec (next_envelope m w) = Ok f /\ w_network w' = w_network w /\ w_local w' = w_local w /\
  w_exporter w' = w_exporter w /\ next_sequence w' = (next_sequence w + 1)%Z /\
  w_closed w' = bool_decide (m = MsgGoodbye).
Proof.
  unfold writer_encode. destruct (w_poisoned w); [done|]. destruct (w_closed w) eqn:Hc; [done|].
  destruct (checked_add 64 (next_sequence w) 1) as [next|] eqn:Hn; [|done].
  destruct (encode_control_frame to_vec (next_envelope m w)) as [f'|e]; [|done]. intros [= -> <-].
  apply checked_add_Some in Hn as [-> _]. split_and!; try done. simpl. by destruct m.
Qed.

Lemma write_session_frames to_vec n w fs w' :
  write_session to_vec n w = (Ok fs, w') ->
  Forall2 (fun e f => encode_control_frame to_vec e = Ok f)
    (session_envelopes (w_network w) (w_local w) (w_exporter w) (next_sequence w) n) fs /\
  writer_encode to_vec MsgHeartbeat w' = (Err WriteAfterGoodbye, w').
Proof.
  revert w fs. induction n as [|n IH]; intros w fs; cbn [write_session session_envelopes]; unfold st_bind, st_ret.
  - unfold goodbye. destruct (writer_encode to_vec MsgGoodbye w) as [[f|e] w1] eqn:Hf; [|done]. intros [= <- <-].
    pose proof (writer_encode_Ok _ _ _ _ _ Hf) as (He & _ & _ & _ & _ & Hc).
    split; [by repeat constructor|]. unfold writer_encode in *. rewrite Hc. simpl.
    destruct (w_poisoned w) eqn:Hp; [done|]. destruct (w_closed w); [done|].
    destruct (checked_add 64 _ 1); [|done]. rewrite He in Hf. injection Hf as <-. done.
  - unfold heartbeat. destruct (writer_encode to_vec MsgHeartbeat w) as [[f|e] w1] eqn:Hf; [|done].
    apply writer_encode_Ok in Hf as (He & Hn & Hlo & Hx & Hq & _).
    destruct (write_session to_vec n w1) as [[fs'|e] w2] eqn:Hrest; [|done]. intros [= <- <-].
    apply IH in Hrest as [Hfs Hlast]. rewrite Hn, Hlo, Hx, Hq in Hfs. split; [|done]. by constructor.
Qed.

(** C16. A session's messages arrive, through any cut of the byte stream: if a
    writer encodes [n] heartbeats and its goodbye, and the peer's session of the
    same context is fed the bytes in any chunks of at most 64 KiB, it hands out
    exactly those messages, numbered from three, and the end of the stream is
    clean; the writer can send nothing after its goodbye.  It stops early
    exactly when the last bytes of more than 64 of the frames lie in one chunk,
    and then with the frame limit: the count starts again at every chunk. *)
Theorem session_delivers to_vec from_slice (net : NetworkId) (local peer : NodeId) (sid : bytes 16) (n : nat)
    (w w' : SessionControlWriter) (s : SessionControlStream) (fs chunks : list (list Z)) :
  json_roundtrips to_vec from_slice ->
  writer_after_verified_hello net local peer sid = Ok w -> stream_after_verified_hello net local sid = Ok s ->
  write_session to_vec n w = (Ok fs, w') ->
  concat chunks = concat fs -> Forall (Forall byte_ok) chunks ->
  Forall (fun ch => Z.of_nat (length ch) <= MAX_STREAM_FEED_BYTES)%Z chunks ->
  exists r s', stream_feed_all from_slice chunks s = Some (r, s') /\
    heartbeat to_vec w' = (Err WriteAfterGoodbye, w') /\
    match r with
    | Ok out => out = session_envelopes net local sid 3 n /\ (stream_finish s').1 = Ok () /\
        forall before ch after, chunks = before ++ ch :: after ->
          completed_at fs (length (concat before)) (length ch) <= MAX_FRAMES_PER_FEED
    | Err x => x = Decode FrameLimit /\
        exists before ch after, chunks = before ++ ch :: after /\
          MAX_FRAMES_PER_FEED < completed_at fs (length (concat before)) (length ch)
    end.
Proof.
  intros Hjson Hw Hs Hrun Heq Hb Hl. destruct (write_session_frames to_vec n w fs w' Hrun) as [Hfs Hlast].
  unfold writer_after_verified_hello in Hw. apply guard_err_Ok in Hw as [_ [= <-]]. simpl in Hfs.
  destruct (fresh_session net local sid s Hs) as [Hopen Hd].
  assert (Forall2 (decodes from_slice) fs (session_envelopes net local sid 3 n)) as Hdec.
  { apply Forall2_flip. eapply Forall2_impl; [exact Hfs|]. intros e f. by apply encode_decode. }
  destruct (stream_feed_all_frames net local sid from_slice chunks 2 false s fs _ (3 + Z.of_nat n) true Hopen Hb Hl
    Hdec) as (r & s' & Hr & Hout);
    [by rewrite Hd|by apply session_envelopes_accepted|rewrite Hd; by eapply nothing_within|].
  rewrite Hd in Hout. exists r, s'. split; [done|]. split; [done|]. destruct r as [out|x]; [|done].
  destruct Hout as (-> & Hs' & Hwithin). split; [done|]. split; [by rewrite (proj1 (finish_spec _ _ _ _ _ _ Hs'))|done].
Qed.

Definition demo_stream : SessionControlStream :=
  mkStream decoder_new (fill_id 1) (fill_id 2) (fill_bytes 16 9) 2 false false.
Definition demo_writer : SessionControlWriter := mkWriter (fill_id 1) (fill_id 2) (fill_bytes 16 9) 3 false false.
Definition demo_session : list ControlEnvelope := session_envelopes (fill_id 1) (fill_id 2) (fill_bytes 16 9) 3 1.
Definition demo_session_table : list (ControlEnvelope * list Z) := combine demo_session [[21]; [22; 22]]%Z.

Lemma session_stream_accepts_witness :
  exists r s', stream_feed_all (table_from_slice demo_session_table) [[0; 0]; [0; 1; 21; 0]]%Z demo_stream = Some (r, s') /\
    match r with
    | Ok out => feed_all (table_from_slice demo_session_table) [[0; 0]; [0; 1; 21; 0]]%Z decoder_new = Some (Ok out, decoder s') /\
    exists last closed, accepts (fill_id 1) (fill_id 2) (fill_bytes 16 9) 2 false out last closed /\
    ((stream_finish s').1 = Ok () <-> closed = true)
    | Err _ => stream_feed (table_from_slice demo_session_table) [] s' = Some (Err StreamPoisoned, s') /\
    stream_finish s' = (Err StreamPoisoned, s')
    end.
Proof.
  apply (session_stream_accepts (table_from_slice demo_session_table) (fill_id 1) (fill_id 2) (fill_bytes 16 9)).
  - vm_compute. reflexivity.
  - repeat constructor; unfold byte_ok; lia.
Defined.

Lemma session_delivers_witness :
  exists r s', stream_feed_all (table_from_slice demo_session_table) [[0; 0; 0; 1; 21; 0; 0]; []; [0; 2; 22; 22]]%Z
      demo_stream = Some (r, s') /\
    heartbeat (table_to_vec demo_session_table)
      (mkWriter (fill_id 1) (fill_id 2) (fill_bytes 16 9) 5 true false) =
      (Err WriteAfterGoodbye, mkWriter (fill_id 1) (fill_id 2) (fill_bytes 16 9) 5 true false) /\
    match r with
    | Ok out => out = demo_session /\ (stream_finish s').1 = Ok ()
    | Err x => False
    end.
Proof.
  destruct (session_delivers (table_to_vec demo_session_table) (table_from_slice demo_session_table)
    (fill_id 1) (fill_id 2) (fill_id 3) (fill_bytes 16 9) 1 demo_writer (mkWriter (fill_id 1) (fill_id 2) (fill_bytes 16 9) 5 true false) demo_stream
    [[0; 0; 0; 1; 21]; [0; 0; 0; 2; 22; 22]]%Z
    [[0; 0; 0; 1; 21; 0; 0]; []; [0; 2; 22; 22]]%Z) as (r & s' & Hr & Hw & Hout).
  - apply table_roundtrips. apply (bool_decide_eq_true_1 (NoDup _)). vm_compute. reflexivity.
  - vm_compute. reflexivity.
  - vm_compute. reflexivity.
  - vm_compute. reflexivity.
  - reflexivity.
  - repeat constructor; unfold byte_ok; lia.
  - repeat constructor; vm_compute; discriminate.
  - exists r, s'. split; [exact Hr|]. split; [exact Hw|]. destruct r as [out|x].
    + split; [exact (proj1 Hout) | exact (proj1 (proj2 Hout))].
    + vm_compute in Hr. discriminate Hr.
Defined.
