(* ===== verification/SessionActivity.v ===== *)
(** The receiving end's lifecycle: a session's parser and its idle clock,
    [crates/blueroute-protocol/src/session_activity.rs]. *)

From S2P Require Import Prelude Ident ControlFrame ControlStream ControlIo Handshake SessionStream ConnectionDeadline.

Inductive InboundActivityError :=
| NotActive | DeadlineErr (e : DeadlineError) | ScopeErr (e : SessionStreamError) | Terminal.

Record AuthenticatedInboundActivity := mkActivity {
  ia_stream : SessionControlStream;
  deadline : ConnectionDeadline;
  terminal : bool;
  goodbye_seen : bool;
}.

Definition activity_after_verified_hello (net : NetworkId) (peer : NodeId) (exporter : bytes 16)
  (d : ConnectionDeadline) : result InboundActivityError AuthenticatedInboundActivity :=
  guard_err (negb (bool_decide (stage d = Active))) NotActive
  (stream ← map_err ScopeErr (stream_after_verified_hello net peer exporter);
   Ok (mkActivity stream d false false)).

Definition end_activity (a : AuthenticatedInboundActivity) : AuthenticatedInboundActivity :=
  mkActivity (ia_stream a) (deadline a) true (goodbye_seen a).
Definition with_stream (st : SessionControlStream) (a : AuthenticatedInboundActivity) : AuthenticatedInboundActivity :=
  mkActivity st (deadline a) (terminal a) (goodbye_seen a).

Definition check_before_read (now_ms : Z) : stres AuthenticatedInboundActivity InboundActivityError () := fun a =>
  if terminal a then (Err Terminal, a)
  else match check now_ms (deadline a) with
  | Err e => (Err (DeadlineErr e), end_activity a)
  | Ok _ => (Ok (), a)
  end.

Definition is_goodbye (frame : ControlEnvelope) : bool := bool_decide (message frame = MsgGoodbye).

Section activity.
Variable from_slice : list Z -> option ControlEnvelope.

(** After the frames were accepted: the goodbye starts the closing stage,
    anything else renews the idle deadline. *)
Definition note_activity (frames : list ControlEnvelope) (now_ms : Z) :
  stres AuthenticatedInboundActivity InboundActivityError (list ControlEnvelope) := fun a =>
  if bool_decide (frames = []) then (Ok frames, a)
  else if existsb is_goodbye frames then
    match abort now_ms (deadline a) with
    | (Err e, d) => (Err (DeadlineErr e), mkActivity (ia_stream a) d true (goodbye_seen a))
    | (Ok _, d) => (Ok frames, mkActivity (ia_stream a) d (terminal a) true)
    end
  else
    match authenticated_activity now_ms (deadline a) with
    | (Err e, d) => (Err (DeadlineErr e), mkActivity (ia_stream a) d true (goodbye_seen a))
    | (Ok _, d) => (Ok frames, mkActivity (ia_stream a) d (terminal a) (goodbye_seen a))
    end.

Definition feed_verified_plaintext (chunk : list Z) (now_ms : Z) :
  io AuthenticatedInboundActivity InboundActivityError (list ControlEnvelope) := fun a =>
  if terminal a then Some (Err Terminal, a)
  else if goodbye_seen a then Some (Err Terminal, end_activity a)
  else match check now_ms (deadline a) with
  | Err e => Some (Err (DeadlineErr e), end_activity a)
  | Ok _ =>
    match stream_feed from_slice chunk (ia_stream a) with
    | None => None
    | Some (Err e, st) => Some (Err (ScopeErr e), end_activity (with_stream st a))
    | Some (Ok frames, st) => Some (note_activity frames now_ms (with_stream st a))
    end
  end.

Definition finish_at (now_ms : Z) : stres AuthenticatedInboundActivity InboundActivityError () := fun a =>
  if terminal a then (Err Terminal, a)
  else match check now_ms (deadline a) with
  | Err e => (Err (DeadlineErr e), end_activity a)
  | Ok _ =>
    let (r, st) := stream_finish (ia_stream a) in
    (map_err ScopeErr r, end_activity (with_stream st a))
  end.

(** ** Histories *)

Inductive activity_op := OpCheck (now_ms : Z) | OpFeed (chunk : list Z) (now_ms : Z) | OpFinish (now_ms : Z).

Definition op_time (o : activity_op) : Z :=
  match o with OpCheck now_ms | OpFeed _ now_ms | OpFinish now_ms => now_ms end.
Definition op_bytes (o : activity_op) : list Z := if o is OpFeed chunk _ then chunk else [].

Definition no_frames (r : result InboundActivityError ()) : result InboundActivityError (list ControlEnvelope) :=
  match r with Ok _ => Ok [] | Err e => Err e end.

(** What an operation hands out: a feed its frames, the others nothing. *)
Definition run_activity_op (o : activity_op) : io AuthenticatedInboundActivity InboundActivityError (list ControlEnvelope) :=
  fun a =>
  match o with
  | OpCheck now_ms => let (r, a') := check_before_read now_ms a in Some (no_frames r, a')
  | OpFeed chunk now_ms => feed_verified_plaintext chunk now_ms a
  | OpFinish now_ms => let (r, a') := finish_at now_ms a in Some (no_frames r, a')
  end.

(** The frames each operation of a history handed out, with its time. *)
Fixpoint run_activity (ops : list activity_op) (a : AuthenticatedInboundActivity) :
  option (list (Z * list ControlEnvelope) * AuthenticatedInboundActivity) :=
  match ops with
  | [] => Some ([], a)
  | o :: ops =>
    match run_activity_op o a with
    | None => None
    | Some (r, a') =>
      match run_activity ops a' with
      | None => None
      | Some (hist, a'') => Some ((op_time o, match r with Ok out => out | Err _ => [] end) :: hist, a'')
      end
    end
  end.

End activity.

Definition delivered (hist : list (Z * list ControlEnvelope)) : list ControlEnvelope := concat (hist.*2).

(** When the deadline was last renewed: the last time frames were handed out. *)
Fixpoint renewed_at (start : option Z) (hist : list (Z * list ControlEnvelope)) : option Z :=
  match hist with
  | [] => start
  | (t, []) :: hist => renewed_at start hist
  | (t, _) :: hist => renewed_at (Some t) hist
  end.

(** ** Facts *)

Section activity_facts.
Context (net : NetworkId) (peer : NodeId) (sid : bytes 16).
Variable from_slice : list Z -> option ControlEnvelope.

Abbreviation accepts := (accepts net peer sid).
Abbreviation session_open := (session_open net peer sid).

Definition live_stage (closed : bool) : ConnectionStage := if closed then Closing else Active.

(** A session that has not ended. *)
Definition activity_live (q : Z) (a : AuthenticatedInboundActivity) : Prop :=
  terminal a = false /\ session_open q (goodbye_seen a) (ia_stream a) /\
  stage (deadline a) = live_stage (goodbye_seen a).

Lemma accepts_goodbye q es q' c' : accepts q false es q' c' -> c' = existsb is_goodbye es.
Proof.
  remember false as c eqn:Hc. induction 1 as [q c|q e es q' c' Hi Hq Hm Hr IH|q e Hi Hq Hm]; simpl; [done| |].
  - unfold is_goodbye at 1. rewrite Hm. simpl. by apply IH.
  - unfold is_goodbye. by rewrite Hm.
Qed.

Lemma note_activity_spec out now_ms q q' a :
  check now_ms (deadline a) = Ok () -> terminal a = false -> goodbye_seen a = false ->
  stage (deadline a) = Active -> accepts q false out q' (existsb is_goodbye out) ->
  session_open q' (existsb is_goodbye out) (ia_stream a) ->
  exists a', note_activity out now_ms a = (Ok out, a') /\ activity_live q' a' /\
    goodbye_seen a' = existsb is_goodbye out /\
    deadline a' = if bool_decide (out = []) then deadline a else entered (live_stage (goodbye_seen a')) now_ms.
Proof.
  intros Hck Ht Hg Hst Ha Hs. pose proof (proj1 (check_Ok _ _) Hck) as Hnow. unfold note_activity.
  case_bool_decide as Hnil.
  { subst out. exists a. split; [done|]. cbn [existsb] in *. split; [|done].
    split; [done|]. rewrite Hg. by split. }
  unfold abort, authenticated_activity. rewrite Hck, Hst. rewrite (proj2 (Z.ltb_ge _ _)) by lia.
  destruct (existsb is_goodbye out); simpl; eexists; (split; [done|]).
  - done.
  - rewrite Hg in *. done.
Qed.

Lemma run_activity_op_step q a o :
  activity_live q a -> Forall byte_ok (op_bytes o) ->
  exists r a', run_activity_op from_slice o a = Some (r, a') /\
    match r with
    | Ok out => (last_ms (deadline a) <= op_time o < expires_ms (deadline a))%Z /\
        (exists q', accepts q (goodbye_seen a) out q' (goodbye_seen a') /\ (terminal a' = false -> activity_live q' a')) /\
        deadline a' = (if bool_decide (out = []) then deadline a else entered (live_stage (goodbye_seen a')) (op_time o)) /\
        (if o is OpFinish _ then goodbye_seen a = true /\ terminal a' = true else terminal a' = false) /\
        (op_bytes o = [] -> out = [])
    | Err _ => terminal a' = true /\ goodbye_seen a' = goodbye_seen a
    end.
Proof.
  intros (Ht & Hs & Hst) Hb. destruct o as [now_ms|chunk now_ms|now_ms]; cbn [run_activity_op op_time op_bytes] in *.
  - unfold check_before_read. rewrite Ht. destruct (check now_ms (deadline a)) as [[]|e] eqn:Hck; simpl.
    + eexists _, _. split; [done|]. apply check_Ok in Hck. split; [done|]. split; [|done].
      exists q. split; [constructor|done].
    + by eexists _, _.
  - unfold feed_verified_plaintext. rewrite Ht. destruct (goodbye_seen a) eqn:Hg.
    { eexists _, _. split; [done|]. by split. }
    destruct (check now_ms (deadline a)) as [[]|e] eqn:Hck; simpl; [|by eexists _, _].
    destruct (stream_feed_spec net peer sid from_slice q false (ia_stream a) chunk Hs Hb) as (r & st & -> & Hout).
    destruct r as [out|x]; [|by eexists _, _]. destruct Hout as (q' & c' & Hfd & Ha & Hs').
    pose proof (accepts_goodbye _ _ _ _ Ha) as ->.
    destruct (note_activity_spec out now_ms q q' (with_stream st a)) as (a' & -> & Hl & Hg' & Hd); try done.
    eexists _, _. split; [done|]. apply check_Ok in Hck. split; [done|]. rewrite Hg'.
    split; [exists q'; by split|]. split; [by rewrite Hd, Hg'|]. split; [apply Hl|]. intros ->.
    destruct Hs as (_ & Hdo & _). rewrite feed_nil in Hfd by done. by injection Hfd.
  - unfold finish_at. rewrite Ht. destruct (check now_ms (deadline a)) as [[]|e] eqn:Hck; simpl; [|by eexists _, _].
    apply check_Ok in Hck. pose proof (finish_spec _ _ _ _ _ _ Hs) as [Hfin _].
    destruct (stream_finish (ia_stream a)) as [r st]. simpl in Hfin. rewrite Hfin. eexists _, _. split; [done|].
    destruct (goodbye_seen a) eqn:Hg; cbn [map_err no_frames end_activity with_stream terminal goodbye_seen deadline];
      [|by case_bool_decide].
    split; [done|]. rewrite Hg. split; [|done]. exists q. split; [constructor|done].
Qed.

Lemma terminal_op o a : terminal a = true -> run_activity_op from_slice o a = Some (Err Terminal, a).
Proof.
  intros Ht. destruct o; simpl; unfold check_before_read, feed_verified_plaintext, finish_at; by rewrite Ht.
Qed.

Lemma delivered_cons t out hist : delivered ((t, out) :: hist) = out ++ delivered hist.
Proof. done. Qed.

Lemma run_activity_terminal ops a :
  terminal a = true -> exists hist, run_activity from_slice ops a = Some (hist, a) /\ delivered hist = [] /\
    forall t, renewed_at t hist = t.
Proof.
  intros Ht. induction ops as [|o ops IH]; simpl; [by exists []|]. rewrite terminal_op by done.
  destruct IH as (hist & -> & Hd & Hr). eexists. split; [done|]. split; [done|]. intros t. simpl. apply Hr.
Qed.

(** What the deadline is, given when it was renewed last. *)
Definition deadline_since (d : ConnectionDeadline) (renewed : option Z) (closed : bool) : ConnectionDeadline :=
  match renewed with None => d | Some t => entered (live_stage closed) t end.

Lemma run_activity_spec ops q a d start :
  activity_live q a -> Forall (fun o => Forall byte_ok (op_bytes o)) ops ->
  deadline a = deadline_since d start (goodbye_seen a) ->
  exists hist a' q', run_activity from_slice ops a = Some (hist, a') /\
    accepts q (goodbye_seen a) (delivered hist) q' (goodbye_seen a') /\
    (terminal a' = false -> activity_live q' a' /\
       deadline a' = deadline_since d (renewed_at start hist) (goodbye_seen a')).
Proof.
  revert q a start. induction ops as [|o ops IH]; intros q a start Hl Hb Hd; cbn [run_activity].
  { exists [], a, q. split; [done|]. split; [constructor|done]. }
  apply Forall_cons in Hb as [Hbo Hb]. destruct (run_activity_op_step q a o Hl Hbo) as (r & a1 & -> & Hr).
  destruct (terminal a1) eqn:Ht.
  - destruct (run_activity_terminal ops a1 Ht) as (hist & -> & Hdel & _). destruct r as [out|x].
    + destruct Hr as (_ & (q' & Ha & _) & _). eexists _, a1, q'. split; [done|]. rewrite delivered_cons, Hdel, app_nil_r. split; [done|]. by rewrite Ht.
    + destruct Hr as [_ Hg]. eexists _, a1, q. split; [done|]. rewrite delivered_cons, Hdel, Hg.
      split; [constructor|]. by rewrite Ht.
  - destruct r as [out|x]; [|by destruct Hr]. destruct Hr as (_ & (q' & Ha & Hl1) & Hd1 & _).
    destruct (IH q' a1 (if bool_decide (out = []) then start else Some (op_time o)) (Hl1 eq_refl) Hb)
      as (hist & a2 & q2 & -> & Ha2 & Hend).
    { rewrite Hd1. case_bool_decide; [|done]. subst out. inversion Ha; subst. congruence. }
    eexists _, a2, q2. split; [done|]. rewrite delivered_cons. split; [apply accepts_app; by exists q', (goodbye_seen a1)|].
    intros Hne. destruct (Hend Hne) as [Hl2 Hd2]. split; [done|]. rewrite Hd2. f_equal. simpl. by destruct out.
Qed.

End activity_facts.

(** The life of a received session.  From a verified Hello on, in any
    history of reads, clock checks and ends: every operation answers; what was
    handed out is one session's frames, in increasing sequence, ended by at most
    one goodbye, and the goodbye is remembered.  While the session lives its
    deadline is 30 seconds after the last operation that handed out frames, or
    5 seconds after the goodbye; partial frames, empty reads and clock checks do
    not move it, and an operation succeeds only before it.  Any failure ends
    the session, the end of the stream is clean only after the goodbye and ends
    it too, and an ended session answers nothing but that it has ended. *)
Theorem inbound_activity_lifecycle from_slice (net : NetworkId) (peer : NodeId) (sid : bytes 16)
    (d : ConnectionDeadline) (a : AuthenticatedInboundActivity) (ops : list activity_op) (o : activity_op) :
  activity_after_verified_hello net peer sid d = Ok a ->
  Forall (fun o => Forall byte_ok (op_bytes o)) ops -> Forall byte_ok (op_bytes o) ->
  exists hist a' last, run_activity from_slice ops a = Some (hist, a') /\
    accepts net peer sid 2 false (delivered hist) last (goodbye_seen a') /\
    exists r a'', run_activity_op from_slice o a' = Some (r, a'') /\
      if terminal a' then r = Err Terminal /\ a'' = a'
      else
        deadline a' = match renewed_at None hist with
                      | None => d
                      | Some t => entered (if goodbye_seen a' then Closing else Active) t
                      end /\
        match r with
        | Ok out => (last_ms (deadline a') <= op_time o < expires_ms (deadline a'))%Z /\
            (if o is OpFinish _ then goodbye_seen a' = true /\ terminal a'' = true else terminal a'' = false)
        | Err _ => terminal a'' = true
        end.
Proof.
  unfold activity_after_verified_hello.
  intros [Hst%negb_false_iff%bool_decide_eq_true (st & Hnew & [= <-])%result_bind_Ok]%guard_err_Ok Hbs Hb.
  assert (stream_after_verified_hello net peer sid = Ok st) as [Hs _]%fresh_session
    by (by destruct (stream_after_verified_hello net peer sid); cbn [map_err] in Hnew; congruence).
  destruct (run_activity_spec net peer sid from_slice ops 2 (mkActivity st d false false) d None)
    as (hist & a' & last & Hrun & Ha & Hend); [by split|done|done|].
  exists hist, a', last. split; [done|]. split; [done|]. destruct (terminal a') eqn:Ht.
  { eexists _, _. split; [by apply terminal_op|done]. }
  destruct (Hend eq_refl) as [Hl Hd].
  destruct (run_activity_op_step net peer sid from_slice last a' o Hl Hb) as (r & a'' & Hr & Hout).
  exists r, a''. split; [done|]. split; [done|]. destruct r as [out|x]; [|by destruct Hout].
  destruct Hout as (Hnow & _ & _ & Hg & _). by split.
Qed.

Lemma inbound_activity_lifecycle_witness :
  exists hist a' last,
    run_activity (table_from_slice demo_session_table)
      [OpFeed [0; 0; 0; 1; 21; 0]%Z 1000; OpCheck 30999; OpFeed [0; 0; 2; 22; 22]%Z 30999]
      (mkActivity demo_stream (entered Active 0) false false) = Some (hist, a') /\
    accepts (fill_id 1) (fill_id 2) (fill_bytes 16 9) 2 false (delivered hist) last (goodbye_seen a') /\
    exists r a'', run_activity_op (table_from_slice demo_session_table) (OpFinish 35998) a' = Some (r, a'') /\
      if terminal a' then r = Err Terminal /\ a'' = a'
      else
        deadline a' = match renewed_at None hist with
                      | None => entered Active 0
                      | Some t => entered (if goodbye_seen a' then Closing else Active) t
                      end /\
        match r with
        | Ok out => (last_ms (deadline a') <= 35998 < expires_ms (deadline a'))%Z /\
            goodbye_seen a' = true /\ terminal a'' = true
        | Err _ => terminal a'' = true
        end.
Proof.
  apply (inbound_activity_lifecycle (table_from_slice demo_session_table) (fill_id 1) (fill_id 2) (fill_bytes 16 9)
    (entered Active 0)).
  - vm_compute. reflexivity.
  - repeat constructor; unfold byte_ok; lia.
  - constructor.
Defined.
