(* ===== verification/LinuxRoutes.v ===== *)
(** Linux routes: [route_projection.rs] (logical routes to kernel routes) and
    [route_reconciliation.rs] (the plan) of [crates/blueroute-linux/src]. *)

From S2P Require Import Prelude Order Keyed TableSync Ident Addressing Topology Routes.

Local Open Scope Z_scope.

(** ** Data *)

(** An opaque handle: a text of code points. *)
Record NetworkInterfaceHandle := mkInterface { as_str : list Z }.
#[global] Instance NetworkInterfaceHandle_eq_dec : EqDecision NetworkInterfaceHandle.
Proof. solve_decision. Defined.
Lemma as_str_inj x y : as_str x = as_str y -> x = y.
Proof. destruct x, y; simpl; congruence. Qed.
#[global] Instance NetworkInterfaceHandle_ord : RustOrd NetworkInterfaceHandle := ord_via as_str as_str_inj.

Definition interface_new (value : list Z) : CoreResult NetworkInterfaceHandle :=
  guard_err (bool_decide (trim value = [])) (core_error InvalidInput "NetworkInterfaceHandle cannot be empty")
  (Ok (mkInterface value)).

Record LinuxRoute := mkLinuxRoute {
  lr_destination : IpPrefix;
  via : option IpAddr;
  interface : NetworkInterfaceHandle;
  metric : Z;
  lr_owner : NetworkId;
}.
#[global] Instance LinuxRoute_eq_dec : EqDecision LinuxRoute.
Proof. solve_decision. Defined.

Record RouteDestinationBinding := mkDestBinding {
  db_network : NetworkId; db_destination : RouteDestination; db_prefix : IpPrefix;
}.
Record RouteNextHopBinding := mkHopBinding {
  hb_network : NetworkId; hb_node : NodeId; hb_address : Z; hb_interface : NetworkInterfaceHandle;
}.

Definition lr_invalid (m : string) : CoreError := core_error InvalidInput m.

(** ** Private prefixes *)

Definition lr_mask (len : Z) : Z := default 0 (checked_shl 32 (u_max 32) (32 - len)).

Definition private_prefix (p : IpPrefix) : CoreResult () :=
  match address p with
  | V6 _ => Err (lr_invalid "IPv6 routing is not enabled")
  | V4 bits =>
    let len := prefix_len p in
    guard_err ((len =? 0) || (32 <? len)) (lr_invalid "invalid or default route prefix")
    (guard_err (negb (Z.land bits (lr_mask len) =? bits)) (lr_invalid "noncanonical route prefix")
    (let private := (Z.land bits 0xff000000 =? 0x0a000000) && (8 <=? len)
                 || (Z.land bits 0xfff00000 =? 0xac100000) && (12 <=? len)
                 || (Z.land bits 0xffff0000 =? 0xc0a80000) && (16 <=? len) in
     guard_err (negb private) (lr_invalid "route is not wholly within RFC1918 space") (Ok ())))
  end.

Definition destination_valid (d : RouteDestination) : CoreResult () :=
  match d with
  | DestInternet => Err (lr_invalid "default routes are not supported")
  | DestNode n => guard_err (all_zero (as_bytes n)) (lr_invalid "zero destination node") (Ok ())
  | DestSegment s => guard_err (all_zero (as_bytes s)) (lr_invalid "zero destination segment") (Ok ())
  | DestPrefix p => private_prefix p
  end.

(** *** What the test means *)

Lemma lr_mask_shl len : 0 <= len <= 32 -> lr_mask len = shl 32 (u_max 32) (32 - len).
Proof.
  intros Hl. unfold lr_mask, checked_shl. destruct (Z.ltb_spec (32 - len) 32); simpl; [done|].
  replace len with 0 by lia. done.
Qed.

Lemma land_range bits h base :
  0 <= bits <= u_max 32 -> 0 <= h <= 32 -> base mod 2 ^ h = 0 ->
  Z.land bits (shl 32 (u_max 32) h) = base <-> base <= bits < base + 2 ^ h.
Proof.
  intros Hb Hh Hal. rewrite land_high_mask by lia. pose proof (pow2_pos h ltac:(lia)) as Hp.
  pose proof (Z.mod_pos_bound bits (2 ^ h) Hp). split; [lia|]. intros Hr.
  assert (bits mod 2 ^ h = bits - base) as ->; [|lia].
  rewrite <- (Z.mod_small (bits - base) (2 ^ h)) by lia. rewrite Zminus_mod, Hal, Z.sub_0_r, Z.mod_mod by lia. done.
Qed.

(** The addresses of an IPv4 block are consecutive. *)
Lemma in_prefix_block bits len ip :
  0 <= bits <= u_max 32 -> 0 <= len <= 32 -> bits mod 2 ^ (32 - len) = 0 ->
  in_prefix (mkPrefix (V4 bits) len) ip <-> bits <= ip <= bits + 2 ^ (32 - len) - 1.
Proof.
  intros Hb Hl Hal. unfold in_prefix; simpl. pose proof (pow2_pos (32 - len) ltac:(lia)) as Hp.
  assert (bits + 2 ^ (32 - len) <= u_max 32 + 1) as Htop.
  { unfold u_max in *. replace 32 with ((32 - len) + len) at 2 by lia. rewrite Z.pow_add_r by lia.
    assert (bits < 2 ^ (32 - len) * 2 ^ len) as Hlt.
    { rewrite <- Z.pow_add_r by lia. replace (32 - len + len) with 32 by lia. lia. }
    pose proof (Z.div_mod bits (2 ^ (32 - len)) ltac:(lia)) as Hdm. rewrite Hal in Hdm.
    assert (bits / 2 ^ (32 - len) < 2 ^ len) by nia. nia. }
  pose proof (Z.div_mod bits (2 ^ (32 - len)) ltac:(lia)) as Hdm. rewrite Hal in Hdm. split.
  - intros [Hr Heq]. pose proof (Z.div_mod ip (2 ^ (32 - len)) ltac:(lia)) as Hi.
    pose proof (Z.mod_pos_bound ip (2 ^ (32 - len)) Hp). rewrite Heq in Hi. lia.
  - intros Hr. split; [lia|]. symmetry. apply (Z.div_unique _ _ _ (ip - bits)); lia.
Qed.

Lemma pow_le_24 h k : 0 <= h -> 0 <= k -> 2 ^ h <= 2 ^ k -> h <= k.
Proof. intros Hh Hk Hp. apply (Z.pow_le_mono_r_iff 2); lia. Qed.

Lemma private_range bits len h base :
  0 <= bits <= u_max 32 -> 0 < len <= 32 -> bits mod 2 ^ (32 - len) = 0 -> 0 <= h <= 32 ->
  base mod 2 ^ h = 0 ->
  (Z.land bits (shl 32 (u_max 32) h) = base /\ 32 - h <= len) <->
  (base <= bits /\ bits + 2 ^ (32 - len) <= base + 2 ^ h).
Proof.
  intros Hb Hl Hal Hh Hbase. rewrite land_range by done. pose proof (pow2_pos (32 - len) ltac:(lia)) as Hp. split.
  - intros [[H1 H2] H3]. split; [done|].
    assert (2 ^ h = 2 ^ (32 - len) * 2 ^ (h - (32 - len))) as Hpow by (rewrite <- Z.pow_add_r by lia; f_equal; lia).
    pose proof (pow2_pos (h - (32 - len)) ltac:(lia)).
    pose proof (Z.div_mod bits (2 ^ (32 - len)) ltac:(lia)) as Hdm. rewrite Hal in Hdm.
    pose proof (Z.div_mod base (2 ^ h) ltac:(pose proof (pow2_pos h); lia)) as Hdb. rewrite Hbase in Hdb.
    rewrite Hpow in *. set (a := bits / 2 ^ (32 - len)) in *.
    set (b := base / (2 ^ (32 - len) * 2 ^ (h - (32 - len)))) in *.
    assert (a < 2 ^ (h - (32 - len)) * (b + 1)) by nia. nia.
  - intros [H1 H2]. split; [lia|].
    assert (2 ^ (32 - len) <= 2 ^ h) as Hle by lia. apply pow_le_24 in Hle; lia.
Qed.

(** Every address of the prefix is private. *)
Definition all_private (p : IpPrefix) : Prop := forall ip, in_prefix p ip -> rfc1918 ip.

Lemma private_prefix_Ok p :
  prefix_rep p ->
  private_prefix p = Ok () <->
    exists bits, address p = V4 bits /\ 1 <= prefix_len p <= 32 /\ bits mod 2 ^ (32 - prefix_len p) = 0 /\ all_private p.
Proof.
  destruct p as [[bits|bits] len]; intros [Hb Hlen]; simpl in *; [|split; [done|by intros (b & [=] & _)]].
  unfold private_prefix; simpl. rewrite !guard_err_Ok, orb_false_iff, Z.eqb_neq, Z.ltb_ge, !negb_false_iff, Z.eqb_eq.
  split.
  - intros ([Hl0 Hl] & Hcan & Hpriv & _). exists bits. split; [done|]. split; [lia|].
    rewrite lr_mask_shl, land_high_mask in Hcan by lia. assert (bits mod 2 ^ (32 - len) = 0) as Hal by lia.
    split; [done|]. intros ip Hip. rewrite in_prefix_block in Hip by (done || lia).
    rewrite !orb_true_iff, !andb_true_iff, !Z.eqb_eq, !Z.leb_le in Hpriv. unfold rfc1918.
    destruct Hpriv as [[Hpriv|Hpriv]|Hpriv].
    + apply (private_range bits len 24 0x0a000000) in Hpriv; [|done|lia|done|lia|done]. simpl in Hpriv. lia.
    + apply (private_range bits len 20 0xac100000) in Hpriv; [|done|lia|done|lia|done]. simpl in Hpriv. lia.
    + apply (private_range bits len 16 0xc0a80000) in Hpriv; [|done|lia|done|lia|done]. simpl in Hpriv. lia.
  - intros (b & [= <-] & Hl & Hal & Hpriv).
    split; [lia|]. split; [rewrite lr_mask_shl, land_high_mask by lia; lia|]. split; [|done].
    assert (forall ip, bits <= ip <= bits + 2 ^ (32 - len) - 1 -> rfc1918 ip) as Hall.
    { intros ip Hip. apply Hpriv, in_prefix_block; [done|lia|done|done]. }
    pose proof (pow2_pos (32 - len) ltac:(lia)) as Hp.
    pose proof (Hall bits ltac:(lia)) as Hfirst. pose proof (Hall (bits + 2 ^ (32 - len) - 1) ltac:(lia)) as Hlast.
    pose proof (Hall 0x0b000000) as Hg1. pose proof (Hall 0xac200000) as Hg2.
    rewrite !orb_true_iff, !andb_true_iff, !Z.eqb_eq, !Z.leb_le. unfold rfc1918 in *.
    destruct Hfirst as [Hf|[Hf|Hf]].
    + left; left. apply (private_range bits len 24 0x0a000000); try done; [lia|]. simpl. lia.
    + left; right. apply (private_range bits len 20 0xac100000); try done; [lia|]. simpl. lia.
    + right. apply (private_range bits len 16 0xc0a80000); try done; [lia|]. simpl. lia.
Qed.

(** ** Projection *)

(** [map.insert(key, value)] where a previous value is an error. *)
Definition insert_new {K V : Type} `{Countable K} (m : gmap K V) (k : K) (v : V) (e : CoreError) :
  CoreResult (gmap K V) :=
  match m !! k with Some _ => Err e | None => Ok (<[k := v]> m) end.

Section projection.
Context (net : NetworkId).

(** The body of the first [for binding in destinations]. *)
Definition bind_destination (st : gmap RouteDestination IpPrefix * gset IpPrefix) (b : RouteDestinationBinding) :
  CoreResult (gmap RouteDestination IpPrefix * gset IpPrefix) :=
  let '(destination_map, destination_prefixes) := st in
  guard_err (negb (bool_decide (db_network b = net))) (lr_invalid "foreign destination binding")
  (_ ← destination_valid (db_destination b);
   _ ← private_prefix (db_prefix b);
   guard_err ((if db_destination b is DestNode _ then true else false) && negb (prefix_len (db_prefix b) =? 32))
     (lr_invalid "node route requires an IPv4 host prefix")
   (guard_err (if db_destination b is DestPrefix p then negb (bool_decide (p = db_prefix b)) else false)
     (lr_invalid "prefix binding mismatch")
   (guard_err (bool_decide (db_prefix b ∈ destination_prefixes))
     (lr_invalid "duplicate destination IPv4 prefix binding")
   (m ← insert_new destination_map (db_destination b) (db_prefix b) (lr_invalid "duplicate destination binding");
    Ok (m, {[db_prefix b]} ∪ destination_prefixes))))).

(** The body of [for binding in next_hops]. *)
Definition bind_next_hop (st : gmap NodeId RouteNextHopBinding * gmap Z NodeId) (b : RouteNextHopBinding) :
  CoreResult (gmap NodeId RouteNextHopBinding * gmap Z NodeId) :=
  let '(hop_map, hop_addresses) := st in
  guard_err (negb (bool_decide (hb_network b = net)) || all_zero (as_bytes (hb_node b)))
    (lr_invalid "foreign or zero next-hop binding")
  (p ← ip_prefix_new (V4 (hb_address b)) 32;
   _ ← private_prefix p;
   a ← insert_new hop_addresses (hb_address b) (hb_node b) (lr_invalid "duplicate next-hop IPv4 address binding");
   m ← insert_new hop_map (hb_node b) b (lr_invalid "duplicate next-hop binding");
   Ok (m, a)).

(** The body of the second [for binding in destinations]. *)
Definition check_alias (hop_map : gmap NodeId RouteNextHopBinding) (hop_addresses : gmap Z NodeId) (_ : ())
    (b : RouteDestinationBinding) : CoreResult () :=
  match db_destination b with
  | DestNode node =>
    guard_err (if hop_map !! node is Some hop then negb (bool_decide (address (db_prefix b) = V4 (hb_address hop))) else false)
      (lr_invalid "observed peer destination disagrees with next-hop IPv4")
    (guard_err
       (if address (db_prefix b) is V4 a then
          if hop_addresses !! a is Some observed_node then negb (bool_decide (observed_node = node)) else false
        else false)
       (lr_invalid "destination aliases another next-hop identity") (Ok ()))
  | _ => Ok ()
  end.

(** The body of [for route in routes]. *)
Definition project_route (destination_map : gmap RouteDestination IpPrefix) (hop_map : gmap NodeId RouteNextHopBinding)
    (output : gmap IpPrefix LinuxRoute) (r : Route) : CoreResult (gmap IpPrefix LinuxRoute) :=
  guard_err (negb (bool_decide (owner r = BlueRouteNetwork net))) (lr_invalid "foreign route owner")
  (_ ← destination_valid (destination r);
   guard_err ((cost r =? 0) || all_zero (as_bytes (next_hop r))) (lr_invalid "invalid route cost or next hop")
   (prefix ← ok_or (destination_map !! destination r) (lr_invalid "unresolved destination");
    hop ← ok_or (hop_map !! next_hop r) (lr_invalid "unobserved next hop");
    let at_hop := bool_decide (address prefix = V4 (hb_address hop)) in
    let direct := bool_decide (destination r = DestNode (next_hop r)) in
    guard_err (direct && negb at_hop) (lr_invalid "direct peer route disagrees with observed IPv4 address")
    (via ← (if (prefix_len prefix =? 32) && at_hop
            then guard_err (negb direct) (lr_invalid "destination aliases another next-hop identity") (Ok None)
            else Ok (Some (V4 (hb_address hop))));
     insert_new output prefix (mkLinuxRoute prefix via (hb_interface hop) (cost r) net)
       (lr_invalid "multiple logical routes alias one kernel prefix")))).

Definition project_ipv4_route_intents (routes : list Route) (destinations : list RouteDestinationBinding)
    (next_hops : list RouteNextHopBinding) : CoreResult (list LinuxRoute) :=
  guard_err (all_zero (as_bytes net)) (lr_invalid "zero network identity")
  (d ← try_for_each bind_destination (∅, ∅) destinations;
   h ← try_for_each bind_next_hop (∅, ∅) next_hops;
   let '(destination_map, _) := d in
   let '(hop_map, hop_addresses) := h in
   _ ← try_for_each (check_alias hop_map hop_addresses) () destinations;
   output ← try_for_each (project_route destination_map hop_map) ∅ routes;
   Ok (values output)).

End projection.

(** ** The reconciliation plan *)

Record LinuxRouteReconciliationPlan := mkLinuxPlan { lp_upsert : list LinuxRoute; lp_remove : list LinuxRoute }.

Definition canonical (p : IpPrefix) : CoreResult IpPrefix :=
  _ ← ip_prefix_new (address p) (prefix_len p);
  let a := match address p with
    | V4 n => V4 (Z.land n (default 0 (checked_shl 32 (u_max 32) (32 - prefix_len p))))
    | V6 n => V6 (Z.land n (default 0 (checked_shl 128 (u_max 128) (128 - prefix_len p))))
    end in
  ip_prefix_new a (prefix_len p).

Definition validate_owned (r : LinuxRoute) (net : NetworkId) : CoreResult () :=
  guard_err (negb (bool_decide (lr_owner r = net))) (lr_invalid "Linux route is not owned by the requested network")
  (_ ← private_prefix (lr_destination r);
   guard_err (metric r =? 0) (lr_invalid "Linux route metric must be positive")
   match via r with
   | None => Ok ()
   | Some v =>
     p ← ip_prefix_new v 32;
     _ ← private_prefix p;
     guard_err ((prefix_len (lr_destination r) =? 32) && bool_decide (address (lr_destination r) = v))
       (lr_invalid "Linux host route cannot forward via itself") (Ok ())
   end).

Abbreviation LinuxRouteMap := (gmap IpPrefix LinuxRoute).

(** The body of [for route in desired]. *)
Definition lr_want (net : NetworkId) : LinuxRouteMap -> LinuxRoute -> CoreResult LinuxRouteMap :=
  index_unique lr_destination (fun r => validate_owned r net) (lr_invalid "duplicate desired Linux route destination").

(** The body of [for route in observed]. *)
Definition lr_note_observed (net : NetworkId) (wanted : LinuxRouteMap) (st : LinuxRouteMap * gset IpPrefix)
    (r : LinuxRoute) : CoreResult (LinuxRouteMap * gset IpPrefix) :=
  let '(existing, foreign_destinations) := st in
  key ← canonical (lr_destination r);
  if negb (bool_decide (lr_owner r = net)) then
    match wanted !! key with
    | Some _ => Err (lr_invalid "desired Linux route collides with foreign route")
    | None => Ok (existing, {[key]} ∪ foreign_destinations)
    end
  else
    _ ← validate_owned r net;
    guard_err (negb (bool_decide (key = lr_destination r))) (lr_invalid "owned Linux route has noncanonical destination")
    match existing !! key with
    | Some _ => Err (lr_invalid "duplicate observed owned Linux route destination")
    | None => Ok (<[key := r]> existing, foreign_destinations)
    end.

Definition plan_linux_route_reconciliation (net : NetworkId) (desired observed : list LinuxRoute) :
  CoreResult LinuxRouteReconciliationPlan :=
  guard_err (all_zero (as_bytes net)) (lr_invalid "Linux route reconciliation requires a network identity")
  (wanted ← try_for_each (lr_want net) ∅ desired;
   st ← try_for_each (lr_note_observed net wanted) (∅, ∅) observed;
   let '(existing, foreign_destinations) := st in
   guard_err (existsb (fun k => bool_decide (k ∈ foreign_destinations)) (keys existing))
     (lr_invalid "owned Linux route collides with foreign route")
   (Ok (mkLinuxPlan
      (snd <$> List.filter (fun kv => negb (bool_decide (existing !! kv.1 = Some kv.2))) (iter_map wanted))
      (snd <$> List.filter (fun kv => bool_decide (wanted !! kv.1 = None)) (iter_map existing))))).

(** ** The plan as a table *)

Definition linux_table (net : NetworkId) : TableSpec CoreError IpPrefix LinuxRoute := {|
  ts_key := lr_destination;
  ts_owned r := lr_owner r = net;
  ts_owned_dec r := _;
  ts_canon r := canonical (lr_destination r);
  ts_valid r := validate_owned r net;
  ts_check r := validate_owned r net;
  err_duplicate := lr_invalid "duplicate desired Linux route destination";
  err_conflict := lr_invalid "desired Linux route collides with foreign route";
  err_noncanonical := lr_invalid "owned Linux route has noncanonical destination";
  err_observed_twice := lr_invalid "duplicate observed owned Linux route destination";
  err_collision := lr_invalid "owned Linux route collides with foreign route";
|}.

Lemma validate_owned_Ok r net :
  validate_owned r net = Ok () <->
  lr_owner r = net /\ private_prefix (lr_destination r) = Ok () /\ metric r <> 0 /\
  match via r with
  | None => True
  | Some v => private_prefix (mkPrefix v 32) = Ok () /\
      ~ (prefix_len (lr_destination r) = 32 /\ address (lr_destination r) = v)
  end.
Proof.
  unfold validate_owned. rewrite guard_err_Ok, negb_false_iff, bool_decide_eq_true.
  destruct (private_prefix (lr_destination r)) as [[]|e]; cbn [mbind result_bind]; [|naive_solver].
  rewrite guard_err_Ok, Z.eqb_neq. destruct (via r) as [v|]; [|naive_solver].
  rewrite ip_prefix_new_ok by (by destruct v). cbn [mbind result_bind].
  destruct (private_prefix (mkPrefix v 32)) as [[]|e]; cbn [mbind result_bind]; [|naive_solver].
  rewrite guard_err_Ok, andb_false_iff, Z.eqb_neq, bool_decide_eq_false. split; [naive_solver|].
  intros (? & _ & ? & _ & Hn). split_and!; [done..| |done].
  destruct (decide (prefix_len (lr_destination r) = 32)); naive_solver.
Qed.

Lemma private_canonical p : private_prefix p = Ok () -> canonical p = Ok p.
Proof.
  destruct p as [[bits|bits] len]; [|done]. unfold private_prefix, canonical; cbn [address prefix_len].
  rewrite !guard_err_Ok, orb_false_iff, Z.eqb_neq, Z.ltb_ge, negb_false_iff, Z.eqb_eq.
  intros ([Hl0 Hl] & Hcan & _). rewrite !ip_prefix_new_ok by done. cbn [mbind result_bind].
  unfold lr_mask in Hcan. by rewrite Hcan.
Qed.

Lemma linux_valid_owned net r : ts_valid (linux_table net) r = Ok () -> ts_owned (linux_table net) r.
Proof. simpl. intros Hv%validate_owned_Ok. apply Hv. Qed.

Lemma linux_valid_self net r :
  ts_valid (linux_table net) r = Ok () ->
  ts_canon (linux_table net) r = Ok (ts_key (linux_table net) r) /\ ts_check (linux_table net) r = Ok ().
Proof. simpl. intros Hv. split; [|done]. apply validate_owned_Ok in Hv as (_ & Hp & _). by apply private_canonical. Qed.

Lemma plan_linux_eq net desired observed :
  plan_linux_route_reconciliation net desired observed =
    guard_err (all_zero (as_bytes net)) (lr_invalid "Linux route reconciliation requires a network identity")
      ('(up, rm) ← sync_plan (linux_table net) desired observed; Ok (mkLinuxPlan up rm)).
Proof.
  unfold plan_linux_route_reconciliation, sync_plan. destruct (all_zero _); [done|]. cbn [guard_err].
  change (index_unique _ _ _) with (lr_want net).
  destruct (try_for_each (lr_want net) ∅ desired) as [w|e]; [|done]. cbn [mbind result_bind].
  change (index_observed (linux_table net) w) with (lr_note_observed net w).
  destruct (try_for_each _ (∅, ∅) observed) as [[ex fr]|e]; [|done]. cbn [mbind result_bind].
  by destruct (existsb _ _).
Qed.

(** When a plan exists: valid desired routes with distinct destinations, owned
    observations valid, canonical and distinct, and no foreign route on one of
    those destinations. *)
Definition linux_reconcilable (net : NetworkId) (desired observed : list LinuxRoute) : Prop :=
  net <> zero_id /\ syncable (linux_table net) desired observed.

Lemma plan_linux_spec net desired observed :
  match plan_linux_route_reconciliation net desired observed with
  | Ok p => linux_reconcilable net desired observed /\
      sync_plan_ok (linux_table net) desired observed (lp_upsert p, lp_remove p)
  | Err _ => ~ linux_reconcilable net desired observed
  end.
Proof.
  rewrite plan_linux_eq. unfold linux_reconcilable. destruct (all_zero (as_bytes net)) eqn:Hz; cbn [guard_err].
  { intros [Hn _]. by apply all_zero_id in Hz. }
  assert (net <> zero_id) as Hnz by (intros Heq; apply all_zero_id in Heq; congruence).
  pose proof (sync_plan_spec (linux_table net) desired observed) as Hspec.
  destruct (sync_plan _ desired observed) as [[up rm]|e] eqn:Hp; cbn [mbind result_bind]; [|naive_solver].
  split; [split; [done|apply Hspec]|]. apply (sync_plan_is_ok _ (linux_valid_owned net)). exact Hp.
Qed.

(** ** What the projection produces *)

Definition projected (net : NetworkId) (destinations : list RouteDestinationBinding)
    (next_hops : list RouteNextHopBinding) (r : Route) (x : LinuxRoute) : Prop :=
  exists db hb, db ∈ destinations /\ db_destination db = destination r /\ hb ∈ next_hops /\ hb_node hb = next_hop r /\
    lr_destination x = db_prefix db /\ interface x = hb_interface hb /\ metric x = cost r /\ lr_owner x = net /\
    (via x = None /\ db_prefix db = mkPrefix (V4 (hb_address hb)) 32 /\ destination r = DestNode (next_hop r) \/
     via x = Some (V4 (hb_address hb)) /\ db_prefix db <> mkPrefix (V4 (hb_address hb)) 32).

Lemma insert_new_Ok {K V : Type} `{Countable K} (m m' : gmap K V) k v e :
  insert_new m k v e = Ok m' <-> m !! k = None /\ m' = <[k := v]> m.
Proof. unfold insert_new. destruct (m !! k); naive_solver. Qed.

Section projection_facts.
Context (net : NetworkId).

(** What the loops have established of a binding. *)
Definition dest_ok (b : RouteDestinationBinding) : Prop :=
  private_prefix (db_prefix b) = Ok () /\
  (forall n, db_destination b = DestNode n -> prefix_len (db_prefix b) = 32).

Definition dests_inv (pre : list RouteDestinationBinding) (st : gmap RouteDestination IpPrefix * gset IpPrefix) : Prop :=
  Forall dest_ok pre /\
  forall d p, st.1 !! d = Some p -> exists b, b ∈ pre /\ db_destination b = d /\ db_prefix b = p.

Lemma dests_done destinations st :
  try_for_each (bind_destination net) (∅, ∅) destinations = Ok st -> dests_inv destinations st.
Proof.
  apply (try_for_each_inv dests_inv); [split; [constructor|done]|].
  intros pre b [m s] st' [Hok Hm] Hb _. unfold bind_destination in Hb.
  apply guard_err_Ok in Hb as [_ ([] & _ & ([] & Hp & Hb)%result_bind_Ok)%result_bind_Ok].
  apply guard_err_Ok in Hb as [Hlen Hb]. apply guard_err_Ok in Hb as [_ Hb]. apply guard_err_Ok in Hb as [_ Hb].
  apply result_bind_Ok in Hb as (m' & [_ ->]%insert_new_Ok & [= <-]). split.
  - apply Forall_app. split; [done|]. constructor; [|done]. split; [done|]. intros n Hn. rewrite Hn in Hlen.
    simpl in Hlen. by apply negb_false_iff, Z.eqb_eq in Hlen.
  - simpl. intros d p [[<- <-]|[_ Hd]]%lookup_insert_Some; [exists b; set_solver|].
    destruct (Hm d p Hd) as (b' & ? & ? & ?). exists b'. set_solver.
Qed.

Definition hops_inv (pre : list RouteNextHopBinding) (st : gmap NodeId RouteNextHopBinding * gmap Z NodeId) : Prop :=
  Forall (fun b => private_prefix (mkPrefix (V4 (hb_address b)) 32) = Ok ()) pre /\
  (forall n b, st.1 !! n = Some b <-> b ∈ pre /\ hb_node b = n) /\
  (forall a n, st.2 !! a = Some n <-> exists b, b ∈ pre /\ hb_address b = a /\ hb_node b = n).

Lemma hops_done next_hops st :
  try_for_each (bind_next_hop net) (∅, ∅) next_hops = Ok st -> hops_inv next_hops st.
Proof.
  apply (try_for_each_inv hops_inv).
  { split; [constructor|]. split; intros; simpl; rewrite lookup_empty; set_solver. }
  intros pre b [m a] st' (Hok & Hm & Ha) Hb _. unfold bind_next_hop in Hb.
  apply guard_err_Ok in Hb as [_ Hb]. rewrite ip_prefix_new_ok in Hb by done. cbn [mbind result_bind] in Hb.
  apply result_bind_Ok in Hb as ([] & Hp & Hb).
  apply result_bind_Ok in Hb as (a' & [Hna ->]%insert_new_Ok & Hb).
  apply result_bind_Ok in Hb as (m' & [Hnm ->]%insert_new_Ok & [= <-]). simpl in *. split_and!.
  - apply Forall_app. split; [done|]. by constructor.
  - intros n x. simpl. rewrite lookup_insert_Some, Hm, elem_of_app, list_elem_of_singleton. split.
    + intros [[<- <-]|[? [? ?]]]; auto.
    + intros [[Hx| ->] <-]; [right|by left]. split; [|done]. intros Heq.
      assert (m !! hb_node b = Some x) by (by apply Hm). congruence.
  - intros ad n. simpl. rewrite lookup_insert_Some, Ha. split.
    + intros [[<- <-]|[_ (x & ? & ? & ?)]]; [exists b|exists x]; set_solver.
    + intros (x & [Hx| ->%list_elem_of_singleton]%elem_of_app & <- & <-); [right|by left]. split; [|by exists x].
      intros Heq. assert (a !! hb_address b = Some (hb_node x)) by (apply Ha; by exists x). congruence.
Qed.

(** An address and an identity that a binding of each kind names go together. *)
Definition no_alias (destinations : list RouteDestinationBinding) (next_hops : list RouteNextHopBinding) : Prop :=
  forall db hb n, db ∈ destinations -> hb ∈ next_hops -> db_destination db = DestNode n ->
    (address (db_prefix db) = V4 (hb_address hb) <-> n = hb_node hb).

Lemma aliases_done destinations next_hops st :
  hops_inv next_hops st -> try_for_each (check_alias st.1 st.2) () destinations = Ok () ->
  no_alias destinations next_hops.
Proof.
  intros (_ & Hm & Ha) Hall%try_all_Ok. intros db hb n Hdb Hhb Hn. rewrite Forall_forall in Hall.
  specialize (Hall db Hdb). unfold check_alias in Hall. rewrite Hn in Hall.
  apply guard_err_Ok in Hall as [H1 Hall]. apply guard_err_Ok in Hall as [H2 _]. split.
  - intros Had. rewrite Had in H2. assert (st.2 !! hb_address hb = Some (hb_node hb)) as Hb by (apply Ha; by exists hb).
    rewrite Hb in H2. by apply negb_false_iff, bool_decide_eq_true in H2.
  - intros ->. assert (st.1 !! hb_node hb = Some hb) as Hb by (by apply Hm). rewrite Hb in H1.
    by apply negb_false_iff, bool_decide_eq_true in H1.
Qed.

Definition output_inv (destinations : list RouteDestinationBinding) (next_hops : list RouteNextHopBinding)
    (pre : list Route) (out : gmap IpPrefix LinuxRoute) : Prop :=
  size out = length pre /\
  (forall p x, out !! p = Some x -> lr_destination x = p /\ validate_owned x net = Ok () /\
     exists r, r ∈ pre /\ projected net destinations next_hops r x) /\
  (forall r, r ∈ pre -> exists p x, out !! p = Some x /\ projected net destinations next_hops r x).

Lemma project_route_ok destinations next_hops dst hst out r out' :
  dests_inv destinations dst -> hops_inv next_hops hst ->
  project_route net dst.1 hst.1 out r = Ok out' ->
  exists x, projected net destinations next_hops r x /\ validate_owned x net = Ok () /\
    out !! lr_destination x = None /\ out' = <[lr_destination x := x]> out.
Proof.
  intros [Hdok Hd] (Hhok & Hh & _). unfold project_route.
  intros [_ ([] & _ & Hr)%result_bind_Ok]%guard_err_Ok. apply guard_err_Ok in Hr as [Hcost Hr].
  apply orb_false_iff in Hcost as [Hcost%Z.eqb_neq _].
  apply result_bind_Ok in Hr as (p & (db & Hdb & Hdd & Hpp)%ok_or_Ok%Hd & Hr). subst p.
  apply result_bind_Ok in Hr as (hb & [Hhb Hnode]%ok_or_Ok%Hh & Hr).
  apply guard_err_Ok in Hr as [Hdir Hr]. apply result_bind_Ok in Hr as (v & Hv & [Hn ->]%insert_new_Ok).
  rewrite Forall_forall in Hdok. rewrite Forall_forall in Hhok. destruct (Hdok db Hdb) as [Hpriv _]. specialize (Hhok hb Hhb).
  exists (mkLinuxRoute (db_prefix db) v (hb_interface hb) (cost r) net). split_and!; [|apply validate_owned_Ok|done|done].
  - exists db, hb. split_and!; try done. simpl. destruct (Z.eqb_spec (prefix_len (db_prefix db)) 32) as [Hl|Hl];
      case_bool_decide as Hat; cbn [andb] in Hv.
    + apply guard_err_Ok in Hv as [Hn2%negb_false_iff%bool_decide_eq_true [= <-]]. left. split_and!; [done| |done].
      destruct (db_prefix db); simpl in *; by subst.
    + injection Hv as <-. right. split; [done|]. intros Heq. apply Hat. by rewrite Heq.
    + injection Hv as <-. right. split; [done|]. intros Heq. apply Hl. by rewrite Heq.
    + injection Hv as <-. right. split; [done|]. intros Heq. apply Hl. by rewrite Heq.
  - simpl. split_and!; [done|done|done|]. destruct (prefix_len (db_prefix db) =? 32) eqn:Hl;
      case_bool_decide as Hat; cbn [andb] in Hv.
    + apply guard_err_Ok in Hv as [_ [= <-]]. done.
    + injection Hv as <-. split; [done|]. by intros [_ ?].
    + injection Hv as <-. split; [done|]. apply Z.eqb_neq in Hl. by intros [? _].
    + injection Hv as <-. split; [done|]. by intros [_ ?].
Qed.

Lemma outputs_done destinations next_hops dst hst routes out :
  dests_inv destinations dst -> hops_inv next_hops hst ->
  try_for_each (project_route net dst.1 hst.1) ∅ routes = Ok out -> output_inv destinations next_hops routes out.
Proof.
  intros Hd Hh. apply (try_for_each_inv (output_inv destinations next_hops)).
  { split; [apply map_size_empty|]. split; [|set_solver]. intros p x. by rewrite lookup_empty. }
  intros pre r out1 out2 (Hsize & Hall & Hcov) Hr _.
  destruct (project_route_ok _ _ _ _ _ _ _ Hd Hh Hr) as (x & Hx & Hv & Hn & ->). split_and!.
  - rewrite map_size_insert_None, Hsize, length_app by done. simpl. lia.
  - intros p y [[<- <-]|[_ Hy]]%lookup_insert_Some; [split_and!; [done|done|exists r; set_solver]|].
    destruct (Hall p y Hy) as (? & ? & r' & ? & ?). split_and!; [done|done|exists r'; set_solver].
  - intros r' [Hr'| ->%list_elem_of_singleton]%elem_of_app.
    + destruct (Hcov r' Hr') as (p & y & Hy & ?). exists p, y. split; [|done].
      rewrite lookup_insert_ne; [done|]. intros <-. congruence.
    + exists (lr_destination x), x. by rewrite lookup_insert_eq.
Qed.

End projection_facts.

Lemma destination_keys (m : gmap IpPrefix LinuxRoute) :
  (forall p x, m !! p = Some x -> lr_destination x = p) -> lr_destination <$> values m = keys m.
Proof.
  intros Hm. unfold values, keys. rewrite <- list_fmap_compose. apply list_fmap_ext. intros i [p x] Hi.
  apply list_elem_of_lookup_2, elem_of_iter_map in Hi. simpl. by apply Hm.
Qed.

(** Projection into kernel routes is faithful and unambiguous.  When it
    succeeds there is exactly one kernel route per requested route, in
    ascending order of distinct destinations: it has the prefix that a binding
    gives the route's destination, the interface of the next hop's binding and
    the route's cost, and it is on-link exactly if the destination is the next
    hop itself at its observed address, else it goes through that address.
    Every one of them is one that reconciliation accepts as desired for this
    network, and no bound node shares its address with another peer's. *)
Theorem project_ipv4_route_intents_sound (net : NetworkId) (routes : list Route)
    (destinations : list RouteDestinationBinding) (next_hops : list RouteNextHopBinding) (out : list LinuxRoute) :
  project_ipv4_route_intents net routes destinations next_hops = Ok out ->
  length out = length routes /\ StronglySorted ord_lt (lr_destination <$> out) /\
  (forall r, r ∈ routes -> exists x, x ∈ out /\ projected net destinations next_hops r x) /\
  (forall x, x ∈ out -> validate_owned x net = Ok () /\ exists r, r ∈ routes /\ projected net destinations next_hops r x) /\
  no_alias destinations next_hops.
Proof.
  unfold project_ipv4_route_intents. intros [_ (dst & Hd & (hst & Hh & Hrest)%result_bind_Ok)%result_bind_Ok]%guard_err_Ok.
  apply dests_done in Hd. apply hops_done in Hh. destruct dst as [dm ds], hst as [hm ha].
  apply result_bind_Ok in Hrest as ([] & Hal & (m & Hm & [= <-])%result_bind_Ok).
  apply (aliases_done _ _ (hm, ha) Hh) in Hal.
  destruct (outputs_done net _ _ _ _ _ _ Hd Hh Hm) as (Hsize & Hall & Hcov). split_and!; [| | | |done].
  - unfold values. by rewrite length_fmap, length_iter_map.
  - rewrite destination_keys; [apply keys_sorted|]. intros p x Hx. by apply (Hall p x).
  - intros r Hr. destruct (Hcov r Hr) as (p & x & Hx & Hp). exists x. split; [|done]. apply elem_of_values. eauto.
  - intros x (p & Hx)%elem_of_values. by apply (Hall p x).
Qed.

(** Planning for the kernel's table.  A plan exists precisely for a nonzero
    network, valid desired routes with distinct destinations, valid, canonical
    and distinct owned observations, and no foreign route, whatever its host
    bits, on a desired or an owned destination.  It then installs exactly the
    desired routes that are not observed as they are, and removes exactly the
    owned ones whose destination is no longer desired, in order. *)
Theorem plan_linux_route_reconciliation_exact (net : NetworkId) (desired observed : list LinuxRoute) :
  match plan_linux_route_reconciliation net desired observed with
  | Ok p =>
      linux_reconcilable net desired observed /\
      (forall r, r ∈ lp_upsert p <-> r ∈ desired /\ r ∉ observed) /\
      (forall r, r ∈ lp_remove p <-> r ∈ observed /\ lr_owner r = net /\ lr_destination r ∉ lr_destination <$> desired) /\
      StronglySorted ord_lt (lr_destination <$> lp_upsert p) /\ StronglySorted ord_lt (lr_destination <$> lp_remove p) /\
      (forall f r, f ∈ observed -> lr_owner f <> net -> r ∈ lp_upsert p ++ lp_remove p ->
         canonical (lr_destination f) <> Ok (lr_destination r))
  | Err _ => ~ linux_reconcilable net desired observed
  end.
Proof.
  pose proof (plan_linux_spec net desired observed) as Hspec.
  destruct (plan_linux_route_reconciliation net desired observed) as [p|e]; [|done].
  destruct Hspec as [Hrec Hp]. pose proof Hp as [_ Hu Hr Hsu Hsr]. split_and!; try done.
  intros f r Hf Hfor Hin. by apply (sync_plan_spares_foreign _ _ _ _ f r Hp).
Qed.

(** Two nodes behind one observed hop. *)
Definition demo_net : NetworkId := fill_id 1.
Definition demo_hop : RouteNextHopBinding := mkHopBinding demo_net (fill_id 2) 0x0ac90002 (mkInterface [98; 110; 101; 112; 48]).
Definition demo_dests : list RouteDestinationBinding :=
  [mkDestBinding demo_net (DestNode (fill_id 2)) (mkPrefix (V4 0x0ac90002) 32);
   mkDestBinding demo_net (DestNode (fill_id 3)) (mkPrefix (V4 0x0ac90103) 32)].
Definition demo_routes : list Route :=
  [mkRoute (DestNode (fill_id 3)) (fill_id 2) 20 (BlueRouteNetwork demo_net);
   mkRoute (DestNode (fill_id 2)) (fill_id 2) 10 (BlueRouteNetwork demo_net)].
Definition demo_linux_routes : list LinuxRoute :=
  [mkLinuxRoute (mkPrefix (V4 0x0ac90002) 32) None (mkInterface [98; 110; 101; 112; 48]) 10 demo_net;
   mkLinuxRoute (mkPrefix (V4 0x0ac90103) 32) (Some (V4 0x0ac90002)) (mkInterface [98; 110; 101; 112; 48]) 20 demo_net].

Lemma project_ipv4_route_intents_sound_witness :
  project_ipv4_route_intents demo_net demo_routes demo_dests [demo_hop] = Ok demo_linux_routes /\
  no_alias demo_dests [demo_hop].
Proof.
  assert (project_ipv4_route_intents demo_net demo_routes demo_dests [demo_hop] = Ok demo_linux_routes) as Hp
    by (vm_compute; reflexivity).
  split; [exact Hp|]. by apply (project_ipv4_route_intents_sound demo_net demo_routes demo_dests [demo_hop] demo_linux_routes).
Defined.
