(* ===== verification/LinuxRouteExec.v ===== *)
(** The execution of a kernel route plan:
    [crates/blueroute-linux/src/route_executor.rs].

    The kernel's table is behind the trait [LinuxOwnedRouteOperator]; the laws
    of a faithful backend are a second class, as in [RouteReconcile]. *)

From S2P Require Import Prelude Order Keyed TableSync Ident Addressing Topology Routes LinuxRoutes.

Class LinuxOwnedRouteOperator (S : Type) := {
  observe_all_routes : stres S CoreError (list LinuxRoute);
  replace_if_current : option LinuxRoute -> LinuxRoute -> stres S CoreError ();
  remove_if_current : LinuxRoute -> stres S CoreError ();
}.

Inductive LinuxRouteChange := LinuxUpsert (r : LinuxRoute) | LinuxRemove (r : LinuxRoute).

Record LinuxRouteExecutionReport := mkLinuxReport {
  lx_applied : list LinuxRouteChange;
  lx_observed : list LinuxRoute;
}.

Definition lx_stale : CoreError :=
  core_error InvalidState "Linux routing state changed during reconciliation; replan".
Definition lx_replace_failed : CoreError :=
  core_error RouteFailure "Linux route replacement did not produce the observed expected state".
Definition lx_remove_failed : CoreError :=
  core_error RouteFailure "Linux route removal did not produce the observed expected state".

(** The key of [snapshot_sort]; it has every field. *)
Definition snapshot_key (r : LinuxRoute) : IpPrefix * (NetworkInterfaceHandle * (option IpAddr * (Z * NetworkId))) :=
  (lr_destination r, (interface r, (via r, (metric r, lr_owner r)))).
Lemma snapshot_key_inj x y : snapshot_key x = snapshot_key y -> x = y.
Proof. destruct x, y; unfold snapshot_key; simpl; congruence. Qed.
#[global] Instance LinuxRoute_ord : RustOrd LinuxRoute := ord_via snapshot_key snapshot_key_inj.

Definition snapshot_sort (l : list LinuxRoute) : list LinuxRoute := merge_sort ord_le l.

Section executor.
Context {S : Type} `{LinuxOwnedRouteOperator S} (net : NetworkId).

Definition same_linux (next r : LinuxRoute) : Prop := lr_owner r = net /\ lr_destination r = lr_destination next.
#[global] Instance same_linux_dec next r : Decision (same_linux next r).
Proof. unfold same_linux. apply _. Defined.

Definition observe_snapshot : stres S CoreError (list LinuxRoute) :=
  let! l := observe_all_routes in st_ret (snapshot_sort l).

(** The body of [for next in plan.upsert]. *)
Definition linux_upsert_step (st : list LinuxRoute * list LinuxRouteChange) (next : LinuxRoute) :
  stres S CoreError (list LinuxRoute * list LinuxRouteChange) :=
  let '(observed, applied) := st in
  let! fresh := observe_snapshot in
  if decide (fresh = observed) then
    let previous := List.find (fun r => bool_decide (same_linux next r)) observed in
    let! _ := replace_if_current previous next in
    let! post := observe_snapshot in
    if decide (post = snapshot_sort (filter (fun r => ~ same_linux next r) observed ++ [next]))
    then st_ret (post, applied ++ [LinuxUpsert next])
    else st_fail lx_replace_failed
  else st_fail lx_stale.

(** The body of [for old in plan.remove]. *)
Definition linux_remove_step (st : list LinuxRoute * list LinuxRouteChange) (old : LinuxRoute) :
  stres S CoreError (list LinuxRoute * list LinuxRouteChange) :=
  let '(observed, applied) := st in
  let! fresh := observe_snapshot in
  if decide (fresh = observed) then
    let! _ := remove_if_current old in
    let! post := observe_snapshot in
    if decide (post = filter (fun r => r <> old) observed)
    then st_ret (post, applied ++ [LinuxRemove old])
    else st_fail lx_remove_failed
  else st_fail lx_stale.

Definition execute_linux_route_reconciliation (desired : list LinuxRoute) : stres S CoreError LinuxRouteExecutionReport :=
  let! observed := observe_all_routes in
  let! p := st_lift (plan_linux_route_reconciliation net desired observed) in
  let! st := st_for_each linux_upsert_step (snapshot_sort observed, []) (lp_upsert p) in
  let! st := st_for_each linux_remove_step st (lp_remove p) in
  st_ret (mkLinuxReport st.2 st.1).

End executor.

(** ** As a table *)

#[global] Instance linux_operator {S : Type} `{LinuxOwnedRouteOperator S} : TableOperator S CoreError LinuxRoute := {|
  observe_table := observe_all_routes;
  replace_entry := replace_if_current;
  remove_entry := remove_if_current;
|}.

Lemma execute_linux_eq {S : Type} `{LinuxOwnedRouteOperator S} net desired :
  execute_linux_route_reconciliation net desired =
    sync_execute (S := S) (linux_table net) lx_stale lx_replace_failed lx_remove_failed
      (plan_linux_route_reconciliation net desired) lp_upsert lp_remove LinuxUpsert LinuxRemove mkLinuxReport.
Proof. reflexivity. Qed.

Lemma linux_plan_ok net desired observed p :
  plan_linux_route_reconciliation net desired observed = Ok p ->
  sync_plan_ok (linux_table net) desired observed (lp_upsert p, lp_remove p).
Proof. intros Hp. pose proof (plan_linux_spec net desired observed) as Hs. rewrite Hp in Hs. apply Hs. Qed.

Lemma linux_plan_total net desired observed :
  linux_reconcilable net desired observed -> exists p, plan_linux_route_reconciliation net desired observed = Ok p.
Proof.
  intros Hr. pose proof (plan_linux_spec net desired observed) as Hs.
  destruct (plan_linux_route_reconciliation net desired observed); [by eexists|done].
Qed.

Definition foreign_linux (net : NetworkId) (l : list LinuxRoute) : list LinuxRoute := filter (fun r => ~ lr_owner r = net) l.

(** What the trait's documentation asks of a backend that serves [net]: as for
    [RouteReconcile.LawfulRouteOperator], a change is a comparison of the owner
    and of the destination at the change itself, and may be refused when any
    other route stands at the destination. *)
Definition vacant_linux (next : LinuxRoute) (l : list LinuxRoute) : Prop :=
  forall r, r ∈ l -> canonical (lr_destination r) <> Ok (lr_destination next).

Class LawfulLinuxOperator (S : Type) (net : NetworkId) `{LinuxOwnedRouteOperator S} := {
  linux_routes_of : S -> list LinuxRoute;
  linux_observe s : exists l s', observe_all_routes s = (Ok l, s') /\ l ≡ₚ linux_routes_of s /\
    linux_routes_of s' ≡ₚ linux_routes_of s;
  linux_replace s old next rest :
    linux_routes_of s ≡ₚ old :: rest -> lr_owner old = net -> validate_owned next net = Ok () ->
    lr_destination old = lr_destination next -> vacant_linux next rest ->
    exists s', replace_if_current (Some old) next s = (Ok (), s') /\ linux_routes_of s' ≡ₚ next :: rest;
  linux_create s next :
    validate_owned next net = Ok () -> vacant_linux next (linux_routes_of s) ->
    exists s', replace_if_current None next s = (Ok (), s') /\ linux_routes_of s' ≡ₚ next :: linux_routes_of s;
  linux_remove s old rest :
    linux_routes_of s ≡ₚ old :: rest -> lr_owner old = net -> old ∉ rest -> vacant_linux old rest ->
    exists s', remove_if_current old s = (Ok (), s') /\ linux_routes_of s' ≡ₚ rest;
}.
Arguments linux_routes_of {S} net {_ _}.

#[global] Instance lawful_linux_table {S : Type} `{LawfulLinuxOperator S net} : LawfulTable (S := S) (linux_table net).
Proof.
  refine {| table_of := linux_routes_of net |}; [apply linux_observe|..]; simpl.
  - intros s old next rest Hs Ho Hn Hk Hfree. by apply linux_replace.
  - intros s next Hn Hfree. by apply linux_create.
  - intros s old rest Hs Ho Hr Hfree. by apply linux_remove.
Defined.

(** Whatever the kernel's backend does, an execution that reports success
    planned the change from its first observation, applied all of it, and was
    last shown exactly the foreign routes of that observation and the desired
    routes; and whether it succeeds or fails, it only ever asks to replace or
    create routes that are desired and its network's own, over a previous value
    that is owned and has the same destination, and to remove owned routes to
    destinations that are not desired. *)
Theorem execute_linux_route_reconciliation_sound {S : Type} `{LinuxOwnedRouteOperator S} (net : NetworkId)
    (desired : list LinuxRoute) (I : S -> Prop) (s : S) :
  (forall s, I s -> I (observe_all_routes s).2) ->
  (forall previous next, next ∈ desired -> lr_owner next = net ->
     (forall r, previous = Some r -> lr_owner r = net /\ lr_destination r = lr_destination next) ->
     forall s, I s -> I (replace_if_current previous next s).2) ->
  (forall old, lr_owner old = net -> lr_destination old ∉ lr_destination <$> desired ->
     forall s, I s -> I (remove_if_current old s).2) ->
  I s ->
  I (execute_linux_route_reconciliation net desired s).2 /\
  forall rep s', execute_linux_route_reconciliation net desired s = (Ok rep, s') ->
    exists obs p s1, observe_all_routes s = (Ok obs, s1) /\ plan_linux_route_reconciliation net desired obs = Ok p /\
      lx_applied rep = (LinuxUpsert <$> lp_upsert p) ++ (LinuxRemove <$> lp_remove p) /\
      lx_observed rep = snapshot_sort (foreign_linux net obs ++ desired) /\
      exists s0 k, observe_all_routes s0 = (Ok k, s') /\ snapshot_sort k = lx_observed rep.
Proof.
  intros Hobs Hrep Hrem HI. rewrite execute_linux_eq. split.
  - apply (sync_execute_keeps (linux_table net) _ _ _ _ _ _ _ _ _ desired (linux_valid_owned net) (linux_plan_ok net desired));
      [exact Hobs|exact Hrep|exact Hrem|exact HI].
  - intros rep s' Hrun.
    pose proof (sync_execute_post (linux_table net) lx_stale lx_replace_failed lx_remove_failed
      (plan_linux_route_reconciliation net desired) lp_upsert lp_remove LinuxUpsert LinuxRemove mkLinuxReport desired
      (linux_valid_owned net) (linux_plan_ok net desired) s) as Hp. unfold st_post in Hp. rewrite Hrun in Hp.
    destruct Hp as (_ & obs & p & s1 & Ho & Hplan & -> & Hlast). exists obs, p, s1. by split_and!.
Qed.

(** Over a lawful kernel backend an execution from any reconcilable table
    succeeds and leaves exactly the foreign routes and the desired ones, and a
    second one succeeds and changes nothing. *)
Theorem execute_linux_route_reconciliation_converges {S : Type} {net : NetworkId} `{LawfulLinuxOperator S net}
    (desired : list LinuxRoute) (s : S) :
  linux_reconcilable net desired (linux_routes_of net s) ->
  exists rep s', execute_linux_route_reconciliation net desired s = (Ok rep, s') /\
    linux_routes_of net s' ≡ₚ foreign_linux net (linux_routes_of net s) ++ desired /\
    exists s'', execute_linux_route_reconciliation net desired s' = (Ok (mkLinuxReport [] (lx_observed rep)), s'') /\
      linux_routes_of net s'' ≡ₚ linux_routes_of net s'.
Proof.
  intros [Hn Hrec]. rewrite execute_linux_eq.
  destruct (sync_execute_converges (linux_table net) lx_stale lx_replace_failed lx_remove_failed
    desired (linux_valid_owned net) (linux_valid_self net) (plan_linux_route_reconciliation net desired)
    lp_upsert lp_remove LinuxUpsert LinuxRemove mkLinuxReport (linux_plan_ok net desired)) with (s := s)
    as (applied & s' & l & Hrun & _ & Hs' & Hagain).
  - intros obs Hobs. by apply linux_plan_total.
  - exact Hrec.
  - by exists (mkLinuxReport applied l), s'.
Qed.

(** ** A kernel in memory *)

#[global] Instance kernel_operator : LinuxOwnedRouteOperator (table LinuxRoute) := {|
  observe_all_routes := fun t => (Ok (entries t), t);
  replace_if_current := table_put (core_error RouteFailure "route changed") (core_error RouteFailure "route exists")
    (fun next r => bool_decide (lr_destination r = lr_destination next));
  remove_if_current := fun old => swap (core_error RouteFailure "route changed") old [];
|}.

Lemma vacant_linux_raw net next l :
  validate_owned next net = Ok () -> vacant_linux next l -> forall r, r ∈ l -> lr_destination r <> lr_destination next.
Proof. intros Hv Hfree r Hr Heq. apply (Hfree r Hr). rewrite Heq. by apply (linux_valid_self net next). Qed.

#[global] Instance kernel_lawful net : LawfulLinuxOperator (table LinuxRoute) net.
Proof.
  refine {| linux_routes_of := entries |}; cbn [observe_all_routes replace_if_current remove_if_current kernel_operator].
  - intros t. by exists (entries t), t.
  - intros t old next rest Hp _ Hv _ Hfree. apply table_put_over; [done|]. intros r Hr.
    apply bool_decide_eq_false. by eapply vacant_linux_raw.
  - intros t next Hv Hfree. exists (mkTable (next :: entries t)). split; [|done]. apply table_put_fresh. intros r Hr.
    apply bool_decide_eq_false. by eapply vacant_linux_raw.
  - intros t old rest Hp _ _ _. by apply (swap_law _ t old rest []).
Defined.

(** A foreign default route, an outdated owned route and a stale one. *)
Definition demo_default : LinuxRoute :=
  mkLinuxRoute (mkPrefix (V4 0) 0) (Some (V4 0xc0a80101)) (mkInterface [119; 108; 97; 110; 48])%Z 600 (fill_id 8).
Definition demo_kernel : table LinuxRoute := mkTable
  [demo_default;
   mkLinuxRoute (mkPrefix (V4 0x0ac90103) 32) (Some (V4 0x0ac90007)) (mkInterface [98; 110; 101; 112; 48])%Z 20 demo_net;
   mkLinuxRoute (mkPrefix (V4 0x0ac90200) 24) (Some (V4 0x0ac90002)) (mkInterface [98; 110; 101; 112; 48])%Z 20 demo_net].

Lemma execute_linux_route_reconciliation_converges_witness :
  exists rep t, execute_linux_route_reconciliation demo_net demo_linux_routes demo_kernel = (Ok rep, t) /\
    entries t ≡ₚ [demo_default] ++ demo_linux_routes.
Proof.
  destruct (execute_linux_route_reconciliation_converges (S := table LinuxRoute) (net := demo_net) demo_linux_routes demo_kernel)
    as (rep & t & Hrun & Ht & _).
  - pose proof (plan_linux_spec demo_net demo_linux_routes (entries demo_kernel)) as Hs.
    destruct (plan_linux_route_reconciliation demo_net demo_linux_routes (entries demo_kernel)) eqn:Hp;
      [exact (proj1 Hs) | vm_compute in Hp; discriminate Hp].
  - exists rep, t. split; [exact Hrun | exact Ht].
Defined.

Lemma execute_linux_route_reconciliation_sound_witness :
  foreign_linux demo_net (entries (execute_linux_route_reconciliation demo_net demo_linux_routes demo_kernel).2)
    ≡ₚ [demo_default].
Proof.
  apply (execute_linux_route_reconciliation_sound demo_net demo_linux_routes
    (fun t => foreign_linux demo_net (entries t) ≡ₚ [demo_default]) demo_kernel).
  - intros t Ht. exact Ht.
  - intros previous next _ Hn Hprev t Ht. cbn [replace_if_current kernel_operator]. unfold foreign_linux.
    rewrite put_keeps_others; [exact Ht|naive_solver|]. intros old Hold. specialize (Hprev old Hold). naive_solver.
  - intros old Ho _ t Ht. cbn [remove_if_current kernel_operator]. unfold foreign_linux.
    rewrite swap_keeps_others; [exact Ht|naive_solver|constructor].
  - vm_compute. reflexivity.
Defined.
