(* ===== verification/Forwarding.v ===== *)
(** The host's IPv4 forwarding switch and BlueRoute's lease on it:
    [forwarding.rs] and [forwarding_reconciliation.rs] of
    [crates/blueroute-linux/src].

    The two files, the kernel's switch under [/proc] and the lease under
    [/run], are behind a class of file operations, any of which may fail; what
    the operating system documents of them is a second class. *)

From S2P Require Import Prelude Order StateText Ident Capability Topology.

(** ** The lease *)

Record ForwardingLease := mkLease { baseline : bool }.
#[global] Instance ForwardingLease_eq_dec : EqDecision ForwardingLease.
Proof. solve_decision. Defined.

Definition serialize (l : ForwardingLease) : list Z :=
  code_points "schema=1" ++ [10%Z] ++ code_points "baseline=" ++ code_points (if baseline l then "1" else "0") ++ [10%Z].

Definition lease_parse (contents : list Z) : CoreResult ForwardingLease :=
  let schema := lines contents !! 0%nat in
  let base := lines contents !! 1%nat in
  guard_err (negb (bool_decide (schema = Some (code_points "schema=1"))) || bool_decide (is_Some (lines contents !! 2%nat)))
    (core_error_with_diagnostic InvalidState
       "BlueRoute IPv4 forwarding lease is malformed or uses an unsupported schema" "{contents}")
  (if bool_decide (base = Some (code_points "baseline=0")) then Ok (mkLease false)
   else if bool_decide (base = Some (code_points "baseline=1")) then Ok (mkLease true)
   else Err (core_error_with_diagnostic InvalidState
     "BlueRoute IPv4 forwarding lease has an invalid baseline value" "{contents}")).

(** ** The files *)

Inductive FileError := FileNotFound | FileExists | OtherFile (code : Z).

Class HostFiles (S : Type) := {
  read_sysctl : stres S FileError (list Z);
  write_sysctl : list Z -> stres S FileError ();
  lease_metadata : stres S FileError (bool * Z);
  chmod_lease : Z -> stres S FileError ();
  read_lease_file : stres S FileError (list Z);
  create_lease_parent : stres S FileError ();
  create_lease_file : stres S FileError ();
  write_lease_file : list Z -> stres S FileError ();
  sync_lease_file : stres S FileError ();
  remove_lease_file : stres S FileError ();
}.

Definition LEASE_FILE_MODE : Z := 0x180.

Definition file_error (m : string) (_ : FileError) : CoreError :=
  core_error_with_diagnostic NetworkBackendUnavailable m "path={path} error={error}".
Definition combined_rollback_error (primary cleanup : CoreError) : CoreError :=
  core_error_with_diagnostic NetworkBackendUnavailable
    "IPv4 forwarding operation failed and BlueRoute could not roll back its forwarding lease"
    "primary-error={primary}; lease-cleanup-error={cleanup}".

Section controller.
Context {S : Type} `{HostFiles S}.

Definition forwarding_value (text : list Z) : option bool :=
  if bool_decide (trim text = code_points "0") then Some false
  else if bool_decide (trim text = code_points "1") then Some true else None.

Definition read_forwarding_value : stres S CoreError bool :=
  let! text := st_map_err (file_error "failed to read kernel IPv4 forwarding state") read_sysctl in
  st_lift (ok_or (forwarding_value text)
    (core_error_with_diagnostic InvalidState "kernel IPv4 forwarding state is not 0 or 1" "path={path} value={value}")).

Definition switch_text (enabled : bool) : list Z := code_points (if enabled then "1" else "0") ++ [10%Z].

Definition write_forwarding_value (enabled : bool) : stres S CoreError () :=
  st_map_err (file_error (if enabled then "failed to enable kernel IPv4 forwarding"
                          else "failed to restore kernel IPv4 forwarding state"))
    (write_sysctl (switch_text enabled)).

Definition read_lease_contents : stres S CoreError (option ForwardingLease) := fun s =>
  match read_lease_file s with
  | (Ok contents, s') => (l ← lease_parse contents; Ok (Some l), s')
  | (Err FileNotFound, s') => (Ok None, s')
  | (Err e, s') => (Err (file_error "failed to read the BlueRoute IPv4 forwarding lease" e), s')
  end.

Definition read_lease : stres S CoreError (option ForwardingLease) := fun s =>
  match lease_metadata s with
  | (Ok (is_file, mode), s') =>
    if negb is_file
    then (Err (core_error InvalidState "BlueRoute IPv4 forwarding lease is not a regular file"), s')
    else if negb (Z.land mode 0x3f =? 0)%Z then
      st_bind (st_map_err (file_error "failed to secure the BlueRoute IPv4 forwarding lease") (chmod_lease LEASE_FILE_MODE))
        (fun _ => read_lease_contents) s'
    else read_lease_contents s'
  | (Err FileNotFound, s') => (Ok None, s')
  | (Err e, s') => (Err (file_error "failed to inspect the BlueRoute IPv4 forwarding lease" e), s')
  end.

Definition remove_lease : stres S CoreError () := fun s =>
  match remove_lease_file s with
  | (Ok _, s') | (Err FileNotFound, s') => (Ok (), s')
  | (Err e, s') => (Err (file_error "failed to remove the BlueRoute IPv4 forwarding lease" e), s')
  end.

(** The lease of a failed operation is removed again. *)
Definition rolled_back {A : Type} (primary : CoreError) : stres S CoreError A := fun s =>
  match remove_lease s with
  | (Ok _, s') => (Err primary, s')
  | (Err cleanup, s') => (Err (combined_rollback_error primary cleanup), s')
  end.

(** The closure that fills the new file. *)
Definition write_new_lease (base : bool) : stres S CoreError () :=
  let! _ := st_map_err (file_error "failed to write the BlueRoute IPv4 forwarding lease")
              (write_lease_file (serialize (mkLease base))) in
  st_map_err (file_error "failed to synchronize the BlueRoute IPv4 forwarding lease") sync_lease_file.

(** Whether this call created the lease. *)
Definition create_lease (base : bool) : stres S CoreError bool :=
  let! _ := st_map_err (file_error "failed to create the BlueRoute runtime directory for IPv4 forwarding")
              create_lease_parent in
  fun s =>
  match create_lease_file s with
  | (Ok _, s1) =>
    match write_new_lease base s1 with
    | (Ok _, s2) => (Ok true, s2)
    | (Err write_error, s2) => rolled_back write_error s2
    end
  | (Err FileExists, s1) =>
    match read_lease s1 with
    | (Ok (Some _), s2) => (Ok false, s2)
    | (Ok None, s2) =>
      (Err (core_error InvalidState "BlueRoute IPv4 forwarding lease disappeared during concurrent creation"), s2)
    | (Err e, s2) => (Err e, s2)
    end
  | (Err e, s1) => (Err (file_error "failed to create the BlueRoute IPv4 forwarding lease" e), s1)
  end.

(** After the switch was read as off and a lease is in place. *)
Definition finish_enable (created : bool) : stres S CoreError () := fun s =>
  match write_forwarding_value true s with
  | (Err write_error, s1) => if created then rolled_back write_error s1 else (Err write_error, s1)
  | (Ok _, s1) =>
    match read_forwarding_value s1 with
    | (Ok true, s2) => (Ok (), s2)
    | (Ok false, s2) =>
      st_bind (if created then remove_lease else st_ret ())
        (fun _ => st_fail (core_error NetworkBackendUnavailable
           "kernel IPv4 forwarding did not become enabled after the requested write")) s2
    | (Err e, s2) => (Err e, s2)
    end
  end.

Definition enable : stres S CoreError () :=
  let! current := read_forwarding_value in
  let! existing := read_lease in
  let! created := match existing with Some _ => st_ret false | None => create_lease current end in
  if current : bool then st_ret () else finish_enable created.

Definition release : stres S CoreError () :=
  let! existing := read_lease in
  match existing with
  | None => st_ret ()
  | Some lease =>
    let! current := read_forwarding_value in
    let! _ := (if current && negb (baseline lease) then
                 let! _ := write_forwarding_value false in
                 let! still := read_forwarding_value in
                 if still : bool then st_fail (core_error NetworkBackendUnavailable
                   "kernel IPv4 forwarding remained enabled while releasing the BlueRoute forwarding lease")
                 else st_ret ()
               else st_ret ()) in
    remove_lease
  end.

Definition set_ipv4_forwarding (enabled : bool) : stres S CoreError () := if enabled then enable else release.

(** ** forwarding_reconciliation.rs, over any backend *)

Definition forwarding_step (local : NodeId) (desired : bool) (g : TopologyGraph) : CoreResult bool :=
  match g_nodes g !! local with
  | None => Err (core_error InvalidInput "local node absent from a supplied BlueRoute network topology")
  | Some _ => d ← desired_ipv4_forwarding g local; Ok (desired || d)
  end.

Definition reconcile_ipv4_forwarding (set : bool -> stres S CoreError ()) (topologies : list TopologyGraph)
    (local : NodeId) : stres S CoreError bool :=
  let! desired := st_lift (try_for_each (forwarding_step local) false topologies) in
  let! _ := set desired in
  st_ret desired.

End controller.

(** ** What the operating system promises

    Failed operations change nothing, except that a failed write of the lease
    may leave a part of it; and a write to the kernel's switch may be accepted
    without effect. *)

Class LawfulFiles (S : Type) `{HostFiles S} := {
  switch_of : S -> list Z;
  lease_of : S -> option (list Z);
  quiet_ops s r s' : read_sysctl s = (r, s') -> switch_of s' = switch_of s /\ lease_of s' = lease_of s /\
    (forall v, r = Ok v -> v = switch_of s);
  write_switch v s r s' : write_sysctl v s = (r, s') -> lease_of s' = lease_of s /\
    (switch_of s' = switch_of s \/ is_ok r = true /\ switch_of s' = v);
  metadata_law s r s' : lease_metadata s = (r, s') -> switch_of s' = switch_of s /\ lease_of s' = lease_of s /\
    (r = Err FileNotFound -> lease_of s = None);
  chmod_law m s r s' : chmod_lease m s = (r, s') -> switch_of s' = switch_of s /\ lease_of s' = lease_of s;
  read_lease_law s r s' : read_lease_file s = (r, s') -> switch_of s' = switch_of s /\ lease_of s' = lease_of s /\
    (forall v, r = Ok v -> lease_of s = Some v) /\ (r = Err FileNotFound -> lease_of s = None);
  parent_law s r s' : create_lease_parent s = (r, s') -> switch_of s' = switch_of s /\ lease_of s' = lease_of s;
  create_law s r s' : create_lease_file s = (r, s') -> switch_of s' = switch_of s /\
    lease_of s' = (if is_ok r then Some [] else lease_of s) /\ (is_ok r = true -> lease_of s = None);
  write_lease_law v s r s' : write_lease_file v s = (r, s') -> switch_of s' = switch_of s /\
    exists x, x `prefix_of` v /\ lease_of s' = Some x /\ (is_ok r = true -> x = v);
  sync_law s r s' : sync_lease_file s = (r, s') -> switch_of s' = switch_of s /\ lease_of s' = lease_of s;
  remove_law s r s' : remove_lease_file s = (r, s') -> switch_of s' = switch_of s /\
    (lease_of s' = match r with Ok _ | Err FileNotFound => None | Err _ => lease_of s end);
}.

Lemma serialize_parse l : lease_parse (serialize l) = Ok l.
Proof. by destruct l as [[]]. Qed.

Lemma serialize_prefix l x l' : x `prefix_of` serialize l -> lease_parse x = Ok l' -> l' = l.
Proof.
  intros [k Hk] Hp.
  assert (x = take (length x) (serialize l)) as Hx by (by rewrite Hk, take_app_length).
  assert (length x <= 20) as Hlen.
  { assert (length (serialize l) = 20) as Hs by (by destruct l as [[]]). rewrite Hk, length_app in Hs. lia. }
  rewrite Hx in Hp. revert Hp. generalize (length x) Hlen. clear. intros n Hn.
  do 21 (destruct n as [|n]; [destruct l as [[]]; vm_compute; congruence|]). lia.
Qed.

Lemma switch_text_value b : forwarding_value (switch_text b) = Some b.
Proof. by destruct b. Qed.

Section lease_facts.
Context {S : Type} `{LawfulFiles S} (original : bool).

(** What the files say, with the value [original] that forwarding had before
    BlueRoute: without a lease the switch is as it was; a lease that can be
    read remembers it, and the switch was never turned off under it. *)
Definition lease_inv (s : S) : Prop :=
  match lease_of s with
  | None => forwarding_value (switch_of s) = Some original
  | Some c => exists v, forwarding_value (switch_of s) = Some v /\ (original = true -> v = true) /\
      match lease_parse c with Ok l => baseline l = original | Err _ => v = original end
  end.

(** Two states with the same files. *)
Definition same_files (s s' : S) : Prop := switch_of s' = switch_of s /\ lease_of s' = lease_of s.

Lemma same_files_inv s s' : same_files s s' -> lease_inv s -> lease_inv s'.
Proof. intros [Hs Hl]. unfold lease_inv. by rewrite Hs, Hl. Qed.

Lemma same_files_trans s1 s2 s3 : same_files s1 s2 -> same_files s2 s3 -> same_files s1 s3.
Proof. intros [? ?] [? ?]. split; congruence. Qed.

Lemma inv_value s : lease_inv s -> exists v, forwarding_value (switch_of s) = Some v.
Proof. unfold lease_inv. destruct (lease_of s); [|by eexists]. intros (v & ? & _). by exists v. Qed.

Lemma read_value_spec s r s' :
  read_forwarding_value s = (r, s') -> same_files s s' /\ (forall v, r = Ok v -> forwarding_value (switch_of s) = Some v).
Proof.
  unfold read_forwarding_value, st_bind, st_map_err, st_lift. destruct (read_sysctl s) as [r1 s1] eqn:Hr.
  apply quiet_ops in Hr as (Hs & Hl & Hv). destruct r1 as [text|e]; cbn [map_err]; intros [= <- <-]; (split; [done|]).
  - rewrite <- (Hv text eq_refl). intros v Hok%ok_or_Ok. done.
  - done.
Qed.

Lemma read_contents_spec s r s' :
  read_lease_contents s = (r, s') -> same_files s s' /\
    (forall o, r = Ok o -> match o with None => lease_of s = None | Some l => exists c, lease_of s = Some c /\ lease_parse c = Ok l end).
Proof.
  unfold read_lease_contents. destruct (read_lease_file s) as [r1 s1] eqn:Hr.
  apply read_lease_law in Hr as (Hs & Hl & Hv & Hn). destruct r1 as [c|[| |x]].
  - intros [= <- <-]. split; [done|]. intros o (l & Hp & [= <-])%result_bind_Ok. exists c. by rewrite (Hv c eq_refl).
  - intros [= <- <-]. split; [done|]. intros o [= <-]. by apply Hn.
  - by intros [= <- <-].
  - by intros [= <- <-].
Qed.

Lemma read_lease_spec s r s' :
  read_lease s = (r, s') -> same_files s s' /\
    (forall o, r = Ok o -> match o with None => lease_of s = None | Some l => exists c, lease_of s = Some c /\ lease_parse c = Ok l end).
Proof.
  unfold read_lease. destruct (lease_metadata s) as [r1 s1] eqn:Hr.
  apply metadata_law in Hr as (Hs & Hl & Hn). destruct r1 as [[is_file mode]|[| |x]].
  - destruct is_file; cbn [negb]; [|by intros [= <- <-]]. destruct (_ =? 0)%Z; cbn [negb].
    + intros Hc%read_contents_spec. destruct Hc as [Hc Hv]. split; [by eapply same_files_trans|].
      by rewrite <- Hl.
    + unfold st_bind, st_map_err. destruct (chmod_lease LEASE_FILE_MODE s1) as [r2 s2] eqn:Hm.
      apply chmod_law in Hm as [Hs2 Hl2]. destruct r2 as [[]|e]; cbn [map_err].
      * intros Hc%read_contents_spec. destruct Hc as [Hc Hv].
        split; [eapply same_files_trans; [|exact Hc]; split; congruence|]. by rewrite <- Hl, <- Hl2.
      * intros [= <- <-]. split; [split; congruence|done].
  - intros [= <- <-]. split; [done|]. intros o [= <-]. by apply Hn.
  - by intros [= <- <-].
  - by intros [= <- <-].
Qed.

Lemma remove_lease_spec s r s' :
  remove_lease s = (r, s') -> switch_of s' = switch_of s /\ (lease_of s' = if is_ok r then None else lease_of s).
Proof.
  unfold remove_lease. destruct (remove_lease_file s) as [r1 s1] eqn:Hr.
  apply remove_law in Hr as [Hs Hl]. destruct r1 as [[]|[| |x]]; by intros [= <- <-].
Qed.

(** Once the switch is as it was, the lease may go. *)
Lemma remove_inv s r s' :
  remove_lease s = (r, s') -> lease_inv s -> forwarding_value (switch_of s) = Some original -> lease_inv s'.
Proof.
  intros [Hs Hl]%remove_lease_spec Hinv Hv. unfold lease_inv in *. rewrite Hl, Hs.
  destruct (is_ok r); [done|]. exact Hinv.
Qed.

Lemma rolled_back_spec {A : Type} e s (r : result CoreError A) s' :
  rolled_back e s = (r, s') -> is_ok r = false /\ switch_of s' = switch_of s /\
    (lease_of s' = None \/ lease_of s' = lease_of s).
Proof.
  unfold rolled_back. destruct (remove_lease s) as [r1 s1] eqn:Hr. apply remove_lease_spec in Hr as [Hs Hl].
  destruct r1; intros [= <- <-]; rewrite Hl; auto.
Qed.

Lemma write_new_lease_spec b s r s' :
  write_new_lease b s = (r, s') -> switch_of s' = switch_of s /\
    exists x, x `prefix_of` serialize (mkLease b) /\ lease_of s' = Some x /\ (is_ok r = true -> x = serialize (mkLease b)).
Proof.
  unfold write_new_lease, st_bind, st_map_err. destruct (write_lease_file (serialize (mkLease b)) s) as [r1 s1] eqn:Hw.
  apply write_lease_law in Hw as (Hs & x & Hx & Hl & Hok). destruct r1 as [[]|e]; cbn [map_err].
  - destruct (sync_lease_file s1) as [r2 s2] eqn:Hy. apply sync_law in Hy as [Hs2 Hl2]. intros [= <- <-].
    split; [congruence|]. exists x. split_and!; [done|congruence|]. intros _. by apply Hok.
  - intros [= <- <-]. split; [done|]. by exists x.
Qed.

(** A file that holds a part of the right lease. *)
Lemma partial_lease_inv s x :
  x `prefix_of` serialize (mkLease original) -> forwarding_value (switch_of s) = Some original -> lease_of s = Some x ->
  lease_inv s.
Proof.
  intros Hx Hv Hl. unfold lease_inv. rewrite Hl. exists original. split; [done|]. split; [done|].
  destruct (lease_parse x) as [l|] eqn:Hp; [|done]. by rewrite (serialize_prefix _ _ _ Hx Hp).
Qed.

(** The lease that protects the original value. *)
Definition leased (s : S) : Prop := exists c l, lease_of s = Some c /\ lease_parse c = Ok l /\ baseline l = original.

Lemma create_lease_spec s r s' :
  create_lease original s = (r, s') -> lease_of s = None -> forwarding_value (switch_of s) = Some original ->
  lease_inv s' /\ switch_of s' = switch_of s /\ (is_ok r = true -> leased s').
Proof.
  unfold create_lease, st_bind, st_map_err. destruct (create_lease_parent s) as [r0 s0] eqn:Hp.
  apply parent_law in Hp as [Hs0 Hl0]. intros Hrun Hnone Hv.
  assert (forall t, switch_of t = switch_of s -> lease_of t = None -> lease_inv t) as Hfree.
  { intros t Hst Hlt. unfold lease_inv. by rewrite Hlt, Hst. }
  destruct r0 as [[]|e]; cbn [map_err] in Hrun; [|injection Hrun as <- <-; split_and!; [apply Hfree; congruence|congruence|done]].
  destruct (create_lease_file s0) as [r1 s1] eqn:Hc. apply create_law in Hc as (Hs1 & Hl1 & _).
  destruct r1 as [[]|[| |x]]; cbn [is_ok] in *.
  - destruct (write_new_lease original s1) as [r2 s2] eqn:Hw.
    apply write_new_lease_spec in Hw as (Hs2 & x & Hx & Hl2 & Hok). destruct r2 as [[]|e].
    + injection Hrun as <- <-. rewrite (Hok eq_refl) in Hl2.
      split; [apply (partial_lease_inv _ x); [done|congruence|by rewrite <- (Hok eq_refl) in Hl2]|].
      split; [congruence|]. intros _. exists (serialize (mkLease original)), (mkLease original).
      split_and!; [done|apply serialize_parse|done].
    + apply rolled_back_spec in Hrun as (Hr & Hs3 & Hl3). rewrite Hr. split_and!; [|congruence|done].
      destruct Hl3 as [Hl3|Hl3]; [apply Hfree; congruence|]. apply (partial_lease_inv _ x); congruence.
  - injection Hrun as <- <-. split_and!; [apply Hfree; congruence|congruence|done].
  - destruct (read_lease s1) as [r2 s2] eqn:Hr. apply read_lease_spec in Hr as [[Hs2 Hl2] Hv2].
    destruct r2 as [[l|]|e]; injection Hrun as <- <-; (split; [apply Hfree; congruence|]); split; try congruence; try done.
    intros _. destruct (Hv2 _ eq_refl) as (c & Hc & _). congruence.
  - injection Hrun as <- <-. split_and!; [apply Hfree; congruence|congruence|done].
Qed.

Lemma leased_inv s : lease_inv s -> (exists c l, lease_of s = Some c /\ lease_parse c = Ok l) -> leased s.
Proof.
  unfold lease_inv. intros Hinv (c & l & Hc & Hl). rewrite Hc in Hinv. destruct Hinv as (v & _ & _ & Hb).
  rewrite Hl in Hb. by exists c, l.
Qed.

(** Under the lease, any value that keeps an original [true] will do. *)
Lemma leased_any s v :
  leased s -> forwarding_value (switch_of s) = Some v -> (original = true -> v = true) -> lease_inv s.
Proof. intros (c & l & Hc & Hl & Hb) Hv Hm. unfold lease_inv. rewrite Hc. exists v. by rewrite Hl. Qed.

Lemma same_leased s s' : lease_of s' = lease_of s -> leased s -> leased s'.
Proof. intros Hl (c & l & ? & ?). exists c, l. by rewrite Hl. Qed.

Lemma write_value_spec b s r s' :
  write_forwarding_value b s = (r, s') -> lease_of s' = lease_of s /\
    (switch_of s' = switch_of s \/ is_ok r = true /\ switch_of s' = switch_text b).
Proof.
  unfold write_forwarding_value, st_map_err. destruct (write_sysctl (switch_text b) s) as [r1 s1] eqn:Hw.
  apply write_switch in Hw as [Hl Hs]. intros [= <- <-]. split; [done|]. by destruct r1.
Qed.

Lemma finish_enable_spec created s r s' :
  finish_enable created s = (r, s') -> leased s -> forwarding_value (switch_of s) = Some false -> original = false ->
  lease_inv s' /\ (is_ok r = true -> leased s' /\ forwarding_value (switch_of s') = Some true) /\
  (switch_of s' = switch_of s \/ switch_of s' = switch_text true).
Proof.
  intros Hrun Hlease Hv Horig. unfold finish_enable in Hrun.
  assert (forall t v, lease_of t = lease_of s -> forwarding_value (switch_of t) = Some v -> lease_inv t) as Hkeep.
  { intros t v Hl Hvt. apply (leased_any t v); [by apply (same_leased s)|done|congruence]. }
  assert (forall t, lease_of t = None -> forwarding_value (switch_of t) = Some false -> lease_inv t) as Hgone.
  { intros t Hl Hvt. unfold lease_inv. rewrite Hl. congruence. }
  destruct (write_forwarding_value true s) as [r1 s1] eqn:Hw. apply write_value_spec in Hw as [Hl1 Hs1].
  destruct r1 as [[]|e]; cbn [is_ok] in Hs1.
  - destruct (read_forwarding_value s1) as [r2 s2] eqn:Hr. apply read_value_spec in Hr as [[Hs2 Hl2] Hv2].
    assert (switch_of s2 = switch_of s \/ switch_of s2 = switch_text true) as Hsw by (rewrite Hs2; naive_solver).
    assert (exists v, forwarding_value (switch_of s2) = Some v) as [v Hv'].
    { destruct Hsw as [-> | ->]; [by eexists|rewrite switch_text_value; by eexists]. }
    destruct r2 as [[|]|e].
    + injection Hrun as <- <-. specialize (Hv2 _ eq_refl). split_and!; [eapply Hkeep; [congruence|done]| |done].
      intros _. split; [apply (same_leased s); [congruence|done]|congruence].
    + specialize (Hv2 _ eq_refl). unfold st_bind in Hrun. destruct created.
      * destruct (remove_lease s2) as [r3 s3] eqn:Hrm. apply remove_lease_spec in Hrm as [Hs3 Hl3].
        assert (is_ok r = false /\ s3 = s') as [-> <-] by (destruct r3; by injection Hrun as <- <-).
        split_and!; [|done|by rewrite Hs3]. destruct (is_ok r3).
        -- apply Hgone; [done|congruence].
        -- eapply Hkeep; [congruence|by rewrite Hs3].
      * injection Hrun as <- <-. split_and!; [eapply Hkeep; [congruence|done]|done|done].
    + injection Hrun as <- <-. split_and!; [eapply Hkeep; [congruence|done]|done|done].
  - destruct Hs1 as [Hs1|[? _]]; [|done]. destruct created.
    + apply rolled_back_spec in Hrun as (Hr & Hs2 & Hl2). rewrite Hr. split_and!; [|done|left; congruence].
      destruct Hl2 as [Hl2|Hl2]; [apply Hgone; congruence|eapply (Hkeep _ false); congruence].
    + injection Hrun as <- <-. split_and!; [eapply (Hkeep _ false); congruence|done|by left].
Qed.

Lemma enable_spec s r s' :
  enable s = (r, s') -> lease_inv s ->
  lease_inv s' /\ (is_ok r = true -> leased s' /\ forwarding_value (switch_of s') = Some true) /\
  (switch_of s' = switch_of s \/ switch_of s' = switch_text true).
Proof.
  intros Hrun Hinv. unfold enable, st_bind in Hrun.
  destruct (read_forwarding_value s) as [r1 s1] eqn:Hr1. apply read_value_spec in Hr1 as [Hf1 Hv1].
  pose proof (same_files_inv _ _ Hf1 Hinv) as Hinv1. destruct Hf1 as [Hs1 Hl1].
  destruct r1 as [current|e]; [|injection Hrun as <- <-; split_and!; [done|done|left; congruence]]. specialize (Hv1 _ eq_refl).
  destruct (read_lease s1) as [r2 s2] eqn:Hr2. apply read_lease_spec in Hr2 as [Hf2 Hv2].
  pose proof (same_files_inv _ _ Hf2 Hinv1) as Hinv2. destruct Hf2 as [Hs2 Hl2].
  destruct r2 as [existing|e]; [|injection Hrun as <- <-; split_and!; [done|done|left; congruence]].
  specialize (Hv2 _ eq_refl).
  assert (forall created t r s', leased t -> switch_of t = switch_of s -> lease_inv t ->
    (if current then st_ret () else finish_enable created) t = (r, s') ->
    lease_inv s' /\ (is_ok r = true -> leased s' /\ forwarding_value (switch_of s') = Some true) /\
    (switch_of s' = switch_of s \/ switch_of s' = switch_text true)) as Hend.
  { intros created t r0 t' Ht Hst Hit Hrest. destruct current.
    - injection Hrest as <- <-. split_and!; [done|intros _; by rewrite Hst|by left].
    - rewrite <- Hst. apply (finish_enable_spec created t); [done|done|by rewrite Hst|].
      apply not_true_is_false. intros Ho. destruct Ht as (c & l & Hc & _). unfold lease_inv in Hit.
      rewrite Hc, Hst, Hv1 in Hit. destruct Hit as (v & [= <-] & Hm & _). by specialize (Hm Ho). }
  destruct existing as [l|].
  - destruct Hv2 as (c & Hc & Hp). cbn in Hrun. apply (Hend false s2); [|congruence|done|exact Hrun].
    apply leased_inv; [done|]. exists c, l. by rewrite Hl2.
  - assert (current = original) as -> by (unfold lease_inv in Hinv2; rewrite Hl2, Hv2 in Hinv2; congruence).
    destruct (create_lease original s2) as [r3 s3] eqn:Hr3.
    apply create_lease_spec in Hr3 as (Hinv3 & Hs3 & Hok3); [|congruence|congruence].
    destruct r3 as [created|e]; [|injection Hrun as <- <-; split_and!; [done|done|left; congruence]].
    apply (Hend created s3); [by apply Hok3|congruence|done|exact Hrun].
Qed.

Lemma release_spec s r s' :
  release s = (r, s') -> lease_inv s ->
  lease_inv s' /\ (is_ok r = true -> lease_of s' = None) /\
  (switch_of s' = switch_of s \/ leased s /\ original = false /\ switch_of s' = switch_text false).
Proof.
  intros Hrun Hinv. unfold release, st_bind in Hrun.
  destruct (read_lease s) as [r1 s1] eqn:Hr1. apply read_lease_spec in Hr1 as [Hf1 Hv1].
  pose proof (same_files_inv _ _ Hf1 Hinv) as Hinv1. destruct Hf1 as [Hs1 Hl1].
  destruct r1 as [existing|e]; [|injection Hrun as <- <-; split_and!; [done|done|by left]]. specialize (Hv1 _ eq_refl).
  destruct existing as [l|]; [|injection Hrun as <- <-; split_and!; [done|intros _; congruence|by left]].
  destruct Hv1 as (c & Hc & Hp).
  assert (leased s) as Hlease by (apply leased_inv; [done|by exists c, l]).
  assert (baseline l = original) as Hbase.
  { destruct Hlease as (c' & l' & Hc' & Hp' & <-). congruence. }
  destruct (read_forwarding_value s1) as [r2 s2] eqn:Hr2. apply read_value_spec in Hr2 as [Hf2 Hv2].
  pose proof (same_files_inv _ _ Hf2 Hinv1) as Hinv2. destruct Hf2 as [Hs2 Hl2].
  destruct r2 as [current|e]; [|injection Hrun as <- <-; split_and!; [done|done|left; congruence]].
  specialize (Hv2 _ eq_refl).
  assert (forall t r t', remove_lease t = (r, t') -> lease_inv t -> forwarding_value (switch_of t) = Some original ->
    (switch_of t = switch_of s \/ leased s /\ original = false /\ switch_of t = switch_text false) ->
    lease_inv t' /\ (is_ok r = true -> lease_of t' = None) /\
    (switch_of t' = switch_of s \/ leased s /\ original = false /\ switch_of t' = switch_text false)) as Hend.
  { intros t r0 t' Hrm Hit Hvt Hst. split; [by eapply remove_inv|]. apply remove_lease_spec in Hrm as [-> ->].
    split; [by intros ->|done]. }
  destruct (current && negb (baseline l)) eqn:Hoff.
  - apply andb_true_iff in Hoff as [-> Hnb%negb_true_iff]. assert (original = false) as Horig by congruence.
    destruct (write_forwarding_value false s2) as [r3 s3] eqn:Hr3. apply write_value_spec in Hr3 as [Hl3 Hs3].
    assert (switch_of s3 = switch_of s \/ leased s /\ original = false /\ switch_of s3 = switch_text false) as Hsw.
    { destruct Hs3 as [Hs3|[_ Hs3]]; [left; congruence|by right]. }
    assert (exists v, forwarding_value (switch_of s3) = Some v) as [v Hv].
    { destruct Hsw as [-> |(_ & _ & ->)]; [exists true; congruence|rewrite switch_text_value; by eexists]. }
    assert (lease_inv s3) as Hinv3.
    { apply (leased_any s3 v); [|done|congruence]. apply (same_leased s); [congruence|done]. }
    destruct r3 as [[]|e]; [|injection Hrun as <- <-; by split_and!].
    destruct (read_forwarding_value s3) as [r4 s4] eqn:Hr4. apply read_value_spec in Hr4 as [Hf4 Hv4].
    pose proof (same_files_inv _ _ Hf4 Hinv3) as Hinv4. destruct Hf4 as [Hs4 Hl4]. rewrite <- Hs4 in Hsw.
    destruct r4 as [[|]|e]; [injection Hrun as <- <-; by split_and!| |injection Hrun as <- <-; by split_and!].
    apply (Hend s4); [exact Hrun|done| |done]. rewrite Hs4, (Hv4 _ eq_refl). congruence.
  - apply (Hend s2); [exact Hrun|done| |left; congruence]. rewrite Hs2, Hv2. f_equal.
    rewrite Hbase in Hoff. unfold lease_inv in Hinv1. rewrite Hl1, Hc in Hinv1. destruct Hinv1 as (v & Hv & Hm & _).
    rewrite Hv2 in Hv. injection Hv as <-. destruct current; [by destruct (original)|].
    symmetry. apply not_true_is_false. intros Ho. by specialize (Hm Ho).
Qed.

(** Any sequence of calls; an error does not stop the next call. *)
Fixpoint set_all (calls : list bool) (s : S) : S :=
  match calls with [] => s | b :: calls => set_all calls (set_ipv4_forwarding b s).2 end.

Lemma set_all_inv calls s : lease_inv s -> lease_inv (set_all calls s).
Proof.
  revert s. induction calls as [|b calls IH]; intros s Hs; simpl; [done|]. apply IH.
  destruct (set_ipv4_forwarding b s) as [r s'] eqn:Hr. unfold set_ipv4_forwarding in Hr. destruct b.
  - by apply (enable_spec s r s').
  - by apply (release_spec s r s').
Qed.

End lease_facts.

(** C17. BlueRoute gives the host's forwarding back.  From a host without a lease
    whose switch reads [original], after any sequence of enable and release
    requests, each of which may fail at any file operation: whenever there is no
    lease the switch reads [original]; a request to enable that succeeds leaves
    the switch on under a lease that remembers [original]; and a release that
    succeeds leaves no lease and the switch as it was, without touching it when
    there was no lease. *)
Theorem forwarding_lease_restores {S : Type} `{LawfulFiles S} (original : bool) (s : S) (calls : list bool) :
  lease_of s = None -> forwarding_value (switch_of s) = Some original ->
  let t := set_all calls s in
  (lease_of t = None -> forwarding_value (switch_of t) = Some original) /\
  (forall t', set_ipv4_forwarding true t = (Ok (), t') ->
     forwarding_value (switch_of t') = Some true /\
     exists c l, lease_of t' = Some c /\ lease_parse c = Ok l /\ baseline l = original) /\
  (forall t', set_ipv4_forwarding false t = (Ok (), t') ->
     lease_of t' = None /\ forwarding_value (switch_of t') = Some original /\
     (lease_of t = None -> switch_of t' = switch_of t)).
Proof.
  intros Hnone Hv. assert (lease_inv original (set_all calls s)) as Hinv.
  { apply set_all_inv. unfold lease_inv. by rewrite Hnone. }
  simpl. set (t := set_all calls s) in *. split_and!.
  - intros Ht. unfold lease_inv in Hinv. by rewrite Ht in Hinv.
  - intros t' Ht. destruct (enable_spec original t _ t' Ht Hinv) as (_ & Hok & _).
    by destruct (Hok eq_refl) as [Hl Hval].
  - intros t' Ht. destruct (release_spec original t _ t' Ht Hinv) as (Hinv' & Hok & Hsw).
    specialize (Hok eq_refl). split_and!; [done| |].
    + unfold lease_inv in Hinv'. by rewrite Hok in Hinv'.
    + intros Hl. destruct Hsw as [Hsw|[(c & l & Hc & _) _]]; [done|congruence].
Qed.

Lemma forwarding_steps local d topologies :
  match try_for_each (forwarding_step local) d topologies with
  | Ok b => Forall (fun g => is_Some (g_nodes g !! local)) topologies /\
      (b = true <-> d = true \/ exists g, g ∈ topologies /\ desired_ipv4_forwarding g local = Ok true)
  | Err e => kind e = InvalidInput /\ ~ Forall (fun g => is_Some (g_nodes g !! local)) topologies
  end.
Proof.
  revert d. induction topologies as [|g topologies IH]; intros d; simpl.
  { split; [constructor|]. split; [by left|]. intros [?|(g & Hg & _)]; [done|by apply elem_of_nil in Hg]. }
  unfold forwarding_step at 2. destruct (g_nodes g !! local) as [caps|] eqn:Hn; simpl.
  2:{ split; [done|]. rewrite Forall_cons, Hn. intros [[? ?] _]. done. }
  assert (exists b, desired_ipv4_forwarding g local = Ok b) as [b Hb].
  { unfold desired_ipv4_forwarding. rewrite Hn. simpl. destruct (affirmative _); by eexists. }
  rewrite Hb. simpl. specialize (IH (d || b)).
  destruct (try_for_each _ (d || b) topologies) as [b'|e]; rewrite Forall_cons, Hn.
  - destruct IH as [Hall Hiff]. split; [done|]. rewrite Hiff, orb_true_iff. setoid_rewrite elem_of_cons. split.
    + intros [[?|?]|(g' & ? & ?)]; [by left|right; exists g; subst; auto|right; exists g'; auto].
    + intros [?|(g' & [->|?] & Hg')]; [auto|left; right; congruence|right; eauto].
  - destruct IH as [He Hnot]. split; [done|]. naive_solver.
Qed.

(** Forwarding is decided for all of the host's networks at once: the
    backend is called exactly if every supplied topology knows the local node,
    once, and it is asked to forward exactly if some topology requires it;
    otherwise the input is refused and the backend is not touched. *)
Theorem reconcile_ipv4_forwarding_exact {S : Type} (set : bool -> stres S CoreError ()) (topologies : list TopologyGraph)
    (local : NodeId) (s : S) :
  if bool_decide (Forall (fun g => is_Some (g_nodes g !! local)) topologies) then
    exists d, (d = true <-> exists g, g ∈ topologies /\ desired_ipv4_forwarding g local = Ok true) /\
      reconcile_ipv4_forwarding set topologies local s =
        (let (r, s') := set d s in (match r with Ok _ => Ok d | Err e => Err e end, s'))
  else exists e, kind e = InvalidInput /\ reconcile_ipv4_forwarding set topologies local s = (Err e, s).
Proof.
  pose proof (forwarding_steps local false topologies) as Hsteps. unfold reconcile_ipv4_forwarding, st_bind, st_lift.
  destruct (try_for_each _ false topologies) as [d|e].
  - destruct Hsteps as [Hall Hiff]. rewrite bool_decide_eq_true_2 by done. exists d. split.
    + rewrite Hiff. split; [by intros [?|?]|by right].
    + by destruct (set d s) as [[[]|e] s'].
  - destruct Hsteps as [He Hnot]. rewrite bool_decide_eq_false_2 by done. by exists e.
Qed.

(** ** Files in memory *)

Record host := mkHost { switch : list Z; lease : option (list Z); faulty_writes : nat }.

#[global] Instance host_files : HostFiles host := {|
  read_sysctl h := (Ok (switch h), h);
  write_sysctl v h :=
    match faulty_writes h with
    | 0 => (Ok (), mkHost v (lease h) 0)
    | S n => (Err (OtherFile 5), mkHost (switch h) (lease h) n)
    end;
  lease_metadata h := (match lease h with Some _ => Ok (true, LEASE_FILE_MODE) | None => Err FileNotFound end, h);
  chmod_lease _ h := (Ok (), h);
  read_lease_file h := (match lease h with Some c => Ok c | None => Err FileNotFound end, h);
  create_lease_parent h := (Ok (), h);
  create_lease_file h :=
    match lease h with Some _ => (Err FileExists, h) | None => (Ok (), mkHost (switch h) (Some []) (faulty_writes h)) end;
  write_lease_file v h := (Ok (), mkHost (switch h) (Some v) (faulty_writes h));
  sync_lease_file h := (Ok (), h);
  remove_lease_file h :=
    match lease h with Some _ => (Ok (), mkHost (switch h) None (faulty_writes h)) | None => (Err FileNotFound, h) end;
|}.

#[global] Program Instance host_lawful : LawfulFiles host := {| switch_of := switch; lease_of := lease |}.
Next Obligation. intros h r h' [= <- <-]. split_and!; [done|done|]. by intros v [= ->]. Qed.
Next Obligation. intros v [sw le []] r h' [= <- <-]; simpl; auto. Qed.
Next Obligation. intros [sw [le|] n] r h' [= <- <-]; simpl; naive_solver. Qed.
Next Obligation. intros m h r h' [= <- <-]. done. Qed.
Next Obligation. intros [sw [le|] n] r h' [= <- <-]; simpl; naive_solver. Qed.
Next Obligation. intros h r h' [= <- <-]. done. Qed.
Next Obligation. intros [sw [le|] n] r h' [= <- <-]; simpl; naive_solver. Qed.
Next Obligation. intros v h r h' [= <- <-]. simpl. split; [done|]. by exists v. Qed.
Next Obligation. intros h r h' [= <- <-]. done. Qed.
Next Obligation. intros [sw [le|] n] r h' [= <- <-]; simpl; naive_solver. Qed.

(** The first write to the switch fails and is rolled back; then forwarding is
    enabled twice and released. *)
Lemma forwarding_lease_restores_witness :
  let t := set_all [true; true; true] (mkHost (code_points "0") None 1) in
  exists t', set_ipv4_forwarding false t = (Ok (), t') /\ lease_of t' = None /\
    forwarding_value (switch_of t') = Some false.
Proof.
  destruct (forwarding_lease_restores (S := host) false (mkHost (code_points "0") None 1) [true; true; true])
    as (_ & _ & Hrel); [reflexivity|reflexivity|].
  assert (set_ipv4_forwarding false (set_all [true; true; true] (mkHost (code_points "0") None 1))
    = (Ok (), mkHost (switch_text false) None 0)) as Hrun by (vm_compute; reflexivity).
  exists (mkHost (switch_text false) None 0). split; [exact Hrun|]. destruct (Hrel _ Hrun) as (Hl & Hv & _).
  split; [exact Hl|exact Hv].
Defined.
