(* ===== verification/AttemptSocket.v ===== *)
(** Pending handshake sockets: [apps/daemon/src/attempt_socket.rs].

    A socket is a value of any type; what happens to sockets is a log.  The
    owner couples the reconnect scheduler of [ReconnectScheduler] with the map
    of live sockets. *)

From S2P Require Import Prelude Ident SessionRegistry ConnectionDeadline ReconnectScheduler.

Inductive WatchdogResult := NotExpired | Cancelled (next_retry_ms : option Z).

Section sockets.
Context {Sock : Type}.

(** What the owner did to a socket it let go of. *)
Inductive socket_event := ShutDown (s : Sock) | Dropped (s : Sock).

Record PendingHandshakeSockets := mkPending {
  scheduler : ReconnectScheduler;
  sockets : gmap PeerSessionKey (SessionId * Sock);
  released : list socket_event;
}.
Definition pending_new : PendingHandshakeSockets := mkPending ∅ ∅ [].
Definition pending_len (p : PendingHandshakeSockets) : nat := size (sockets p).

Abbreviation pending := (stres PendingHandshakeSockets ReconnectScheduleError).

(** A call of the scheduler. *)
Definition scheduling {A : Type} (m : stres ReconnectScheduler ReconnectScheduleError A) : pending A := fun p =>
  let (r, s) := m (scheduler p) in (r, mkPending s (sockets p) (released p)).
Definition discard (key : PeerSessionKey) (id : SessionId) (p : PendingHandshakeSockets) : bool * PendingHandshakeSockets :=
  let (b, s) := cancel_if_current key id (scheduler p) in (b, mkPending s (sockets p) (released p)).
Definition drop_socket (s : Sock) (p : PendingHandshakeSockets) : PendingHandshakeSockets :=
  mkPending (scheduler p) (sockets p) (released p ++ [Dropped s]).

Definition sockets_schedule_loss (key : PeerSessionKey) (id : SessionId) (now_ms : Z) : pending bool :=
  scheduling (schedule_loss key id now_ms).

(** A socket that is not accepted is dropped with the call. *)
Definition begin_attempt (key : PeerSessionKey) (id : SessionId) (now_ms : Z) (socket : Sock) : pending bool := fun p =>
  if bool_decide (is_Some (sockets p !! key)) then (Ok false, drop_socket socket p)
  else match scheduling (take_due key id now_ms) p with
  | (Ok true, p') => (Ok true, mkPending (scheduler p') (<[key := (id, socket)]> (sockets p')) (released p'))
  | (Ok false, p') => (Ok false, drop_socket socket p')
  | (Err e, p') => (Err e, drop_socket socket p')
  end.

Definition close_if_current (key : PeerSessionKey) (id : SessionId) (p : PendingHandshakeSockets) :
  bool * PendingHandshakeSockets :=
  match sockets p !! key with
  | Some (current, socket) =>
    if bool_decide (current = id)
    then (true, mkPending (scheduler p) (delete key (sockets p)) (released p ++ [ShutDown socket; Dropped socket]))
    else (false, p)
  | None => (false, p)
  end.

Definition watchdog (key : PeerSessionKey) (id : SessionId) (now_ms : Z) : pending WatchdogResult := fun p =>
  match scheduling (take_expired_attempt key id now_ms) p with
  | (Err e, p') => (Err e, (discard key id (close_if_current key id p').2).2)
  | (Ok false, p') => (Ok NotExpired, p')
  | (Ok true, p') =>
    match scheduling (attempt_failed key id now_ms) (close_if_current key id p').2 with
    | (Ok next_retry_ms, p'') => (Ok (Cancelled next_retry_ms), p'')
    | (Err e, p'') => (Err e, p'')
    end
  end.

(** The failure of an attempt whose socket is closed already. *)
Definition retire_attempt (key : PeerSessionKey) (id : SessionId) (now_ms : Z) : pending (option Z) := fun p =>
  match scheduling (attempt_failed key id now_ms) p with
  | (Ok next_retry_ms, p') => (Ok next_retry_ms, p')
  | (Err e, p') => (Err e, (discard key id p').2)
  end.

Definition failed (key : PeerSessionKey) (id : SessionId) (now_ms : Z) : pending (option Z) := fun p =>
  let (closed, p') := close_if_current key id p in
  if negb closed then (Ok None, p') else retire_attempt key id now_ms p'.

Definition failed_with_kind (key : PeerSessionKey) (id : SessionId) (now_ms : Z) (k : ErrorKind) : pending (option Z) :=
  fun p =>
  let (closed, p') := close_if_current key id p in
  if negb closed then (Ok None, p')
  else if is_retryable_transport_failure k then retire_attempt key id now_ms p'
  else (Ok None, (discard key id p').2).

Definition cancel_attempt (key : PeerSessionKey) (id : SessionId) (p : PendingHandshakeSockets) :
  bool * PendingHandshakeSockets :=
  discard key id (close_if_current key id p).2.

(** [Drop]: the remaining sockets, in key order in the source, are shut down. *)
Definition drop_owner (p : PendingHandshakeSockets) : PendingHandshakeSockets :=
  mkPending (scheduler p) ∅
    (released p ++ concat ((fun ks => [ShutDown ks.2.2; Dropped ks.2.2]) <$> map_to_list (sockets p))).

(** ** Histories *)

Inductive pending_op :=
| PLoss (key : PeerSessionKey) (id : SessionId) (now_ms : Z)
| PBegin (key : PeerSessionKey) (id : SessionId) (now_ms : Z) (socket : Sock)
| PWatchdog (key : PeerSessionKey) (id : SessionId) (now_ms : Z)
| PFailed (key : PeerSessionKey) (id : SessionId) (now_ms : Z)
| PFailedKind (key : PeerSessionKey) (id : SessionId) (now_ms : Z) (k : ErrorKind)
| PCancel (key : PeerSessionKey) (id : SessionId).

Definition run_pending_op (p : PendingHandshakeSockets) (o : pending_op) : PendingHandshakeSockets :=
  match o with
  | PLoss key id t => (sockets_schedule_loss key id t p).2
  | PBegin key id t s => (begin_attempt key id t s p).2
  | PWatchdog key id t => (watchdog key id t p).2
  | PFailed key id t => (failed key id t p).2
  | PFailedKind key id t k => (failed_with_kind key id t k p).2
  | PCancel key id => (cancel_attempt key id p).2
  end.
Definition run_pending (l : list pending_op) : PendingHandshakeSockets := foldl run_pending_op pending_new l.

Definition given (o : pending_op) : list Sock := if o is PBegin _ _ _ s then [s] else [].
Definition let_go (e : socket_event) : list Sock := if e is Dropped s then [s] else [].
Definition owned_sockets (p : PendingHandshakeSockets) : list Sock := (fun ks => ks.2.2) <$> map_to_list (sockets p).

(** ** Facts *)

(** A socket is held exactly for the session of a slot whose attempt is in
    flight. *)
Definition coupled (p : PendingHandshakeSockets) : Prop :=
  size (scheduler p) <= MAX_CONTROL_SESSIONS /\
  forall key id, (exists s, sockets p !! key = Some (id, s)) <->
    exists slot, scheduler p !! key = Some slot /\ s_session slot = id /\ in_flight slot = true.

(** Where the sockets are: owned, or let go of. *)
Definition places (p : PendingHandshakeSockets) : list Sock := owned_sockets p ++ concat (let_go <$> released p).

Lemma with_current_slot {A : Type} key id now_ms (inert : A) k s r s' :
  with_current key id now_ms inert k s = (r, s') ->
  s' = s \/ exists slot, s !! key = Some slot /\ s_session slot = id /\ s' = <[key := (k slot).2]> s.
Proof. intros [[-> _]|(slot & ? & ? & _ & _ & ->)]%with_current_cases; [by left|right; by exists slot]. Qed.

Lemma size_insert_slot (s : ReconnectScheduler) key slot slot' :
  s !! key = Some slot -> size (<[key := slot']> s) = size s.
Proof. intros Hs. by rewrite map_size_insert, Hs. Qed.

(** A slot is replaced by one of the same session and flight. *)
Lemma coupled_same p key slot slot' :
  coupled p -> scheduler p !! key = Some slot -> s_session slot' = s_session slot -> in_flight slot' = in_flight slot ->
  coupled (mkPending (<[key := slot']> (scheduler p)) (sockets p) (released p)).
Proof.
  intros [Hsz Hiff] Hs Hid Hfl. split; simpl; [by rewrite (size_insert_slot _ _ slot)|].
  intros k id. rewrite Hiff. destruct (decide (k = key)) as [->|Hne].
  - rewrite lookup_insert_eq, Hs.
    split; intros (x & [= <-] & Hx1 & Hx2); eexists; (split; [done|]); split; congruence.
  - by rewrite lookup_insert_ne.
Qed.

(** The attempt of a slot ends and its socket goes. *)
Lemma coupled_landed p key slot slot' rel :
  coupled p -> scheduler p !! key = Some slot -> in_flight slot' = false ->
  coupled (mkPending (<[key := slot']> (scheduler p)) (delete key (sockets p)) rel).
Proof.
  intros [Hsz Hiff] Hs Hfl. split; simpl; [by rewrite (size_insert_slot _ _ slot)|].
  intros k id. destruct (decide (k = key)) as [->|Hne].
  - rewrite lookup_insert_eq, lookup_delete_eq. split; [by intros [? ?]|]. intros (x & [= <-] & _ & ?). congruence.
  - by rewrite lookup_insert_ne, lookup_delete_ne.
Qed.

Lemma coupled_removed p key rel :
  coupled p -> coupled (mkPending (delete key (scheduler p)) (delete key (sockets p)) rel).
Proof.
  intros [Hsz Hiff]. split; simpl; [etrans; [apply map_subseteq_size, delete_subseteq|done]|].
  intros k id. destruct (decide (k = key)) as [->|Hne].
  - rewrite !lookup_delete_eq. split; [by intros [? ?]|by intros (? & ? & _)].
  - by rewrite !lookup_delete_ne.
Qed.

Lemma coupled_released p rel : coupled p -> coupled (mkPending (scheduler p) (sockets p) rel).
Proof. done. Qed.

(** Closing in any case: what is left has no socket for this session. *)
Lemma close_cases key id p b p' :
  close_if_current key id p = (b, p') ->
  (b = false /\ p' = p /\ forall s, sockets p !! key <> Some (id, s)) \/
  (b = true /\ exists s, sockets p !! key = Some (id, s) /\
     p' = mkPending (scheduler p) (delete key (sockets p)) (released p ++ [ShutDown s; Dropped s])).
Proof.
  unfold close_if_current. destruct (sockets p !! key) as [[current s]|].
  - case_bool_decide as Hid; intros [= <- <-]; [right|left].
    + subst. split; [done|]. by exists s.
    + split_and!; [done|done|]. intros s' [= -> ->]. done.
  - intros [= <- <-]. by left.
Qed.

(** The scheduler on the slot of an attempt. *)
Lemma attempt_failed_run key id t (s : ReconnectScheduler) slot :
  s !! key = Some slot -> s_session slot = id -> in_flight slot = true ->
  exists next slot', in_flight slot' = false /\
    attempt_failed key id t s =
      if (t <? s_last_ms slot)%Z then (Err RetryClockRegression, s) else (Ok next, <[key := slot']> s).
Proof.
  intros Hs Hid Hfl. unfold attempt_failed, with_current. rewrite Hs, bool_decide_eq_true_2, Hfl by done. cbn [negb].
  destruct (after_failure (backoff slot)) as [delay b]. eexists _, _. by split; [|reflexivity].
Qed.

Lemma retire_coupled key id t p sk rel :
  coupled p -> sockets p !! key = Some (id, sk) ->
  coupled (retire_attempt key id t (mkPending (scheduler p) (delete key (sockets p)) rel)).2.
Proof.
  intros Hp Hsk. pose proof Hp as [_ Hiff]. destruct (proj1 (Hiff key id) (ex_intro _ sk Hsk)) as (slot & Hs & Hid & Hfl).
  destruct (attempt_failed_run key id t _ slot Hs Hid Hfl) as (next & slot' & Hfl' & Hrun).
  unfold retire_attempt, scheduling. cbn [scheduler]. rewrite Hrun. destruct (t <? s_last_ms slot)%Z; cbn [fst snd].
  - unfold discard, cancel_if_current. cbn [scheduler]. rewrite Hs, bool_decide_eq_true_2 by done.
    by apply coupled_removed.
  - by eapply coupled_landed.
Qed.

Lemma discard_coupled key id p sk rel :
  coupled p -> sockets p !! key = Some (id, sk) ->
  coupled (discard key id (mkPending (scheduler p) (delete key (sockets p)) rel)).2.
Proof.
  intros Hp Hsk. pose proof Hp as [_ Hiff]. destruct (proj1 (Hiff key id) (ex_intro _ sk Hsk)) as (slot & Hs & Hid & _).
  unfold discard, cancel_if_current. cbn [scheduler]. rewrite Hs, bool_decide_eq_true_2 by done. by apply coupled_removed.
Qed.

(** A session without a socket may be discarded too. *)
Lemma discard_free key id p : coupled p -> (forall s, sockets p !! key <> Some (id, s)) -> coupled (discard key id p).2.
Proof.
  intros [Hsz Hiff] Hfree. unfold discard, cancel_if_current.
  destruct (scheduler p !! key) as [slot|] eqn:Hs; [|done]. case_bool_decide as Hid; [|done]. cbn [fst snd].
  split; simpl; [etrans; [apply map_subseteq_size, delete_subseteq|done]|].
  intros k i. destruct (decide (k = key)) as [->|Hne]; [|by rewrite lookup_delete_ne].
  rewrite lookup_delete_eq. split; [|by intros (? & ? & _)].
  intros Hsk. exfalso. pose proof Hsk as (x & Hx & Hxi & _)%Hiff. rewrite Hs in Hx. injection Hx as <-.
  destruct Hsk as [sk Hsk]. apply (Hfree sk). congruence.
Qed.

Lemma watchdog_coupled key id t p : coupled p -> coupled (watchdog key id t p).2.
Proof.
  intros Hp. unfold watchdog. unfold scheduling at 1.
  destruct (take_expired_attempt key id t (scheduler p)) as [r s1] eqn:Hr.
  apply with_current_cases in Hr as [[-> Hr]|(slot & Hs & Hid & Hle & -> & ->)].
  - destruct Hr as [-> | ->]; cbn [fst snd]; [by destruct p|].
    assert (mkPending (scheduler p) (sockets p) (released p) = p) as -> by (by destruct p).
    destruct (close_if_current key id p) as [b p'] eqn:Hc. cbn [snd].
    apply close_cases in Hc as [(_ & -> & Hfree)|(_ & sk & Hsk & ->)]; [by apply discard_free|by eapply discard_coupled].
  - cbv zeta. match goal with |- context [negb (in_flight slot) || ?c1 || ?c2] =>
      destruct (negb (in_flight slot) || c1 || c2) eqn:Hcase end; cbn [fst snd]; [by eapply coupled_same|].
    apply orb_false_iff in Hcase as [Hcase _]. apply orb_false_iff in Hcase as [Hfl%negb_false_iff _].
    set (slot1 := mkSlot _ _ _ _ _ true t).
    assert (coupled (mkPending (<[key := slot1]> (scheduler p)) (sockets p) (released p))) as Hp1
      by (by eapply coupled_same).
    set (p1 := mkPending _ _ _) in *. pose proof Hp1 as [_ Hiff1].
    destruct (proj2 (Hiff1 key id)) as [sk Hsk].
    { exists slot1. split; [apply lookup_insert_eq|]. done. }
    unfold close_if_current. rewrite Hsk, bool_decide_eq_true_2 by done. cbn [snd].
    destruct (attempt_failed_run key id t (scheduler p1) slot1) as (next & slot' & Hfl' & Hrun);
      [apply lookup_insert_eq|done|done|].
    unfold scheduling. cbn [scheduler]. rewrite Hrun. cbn [s_last_ms slot1]. rewrite Z.ltb_irrefl. cbn [fst snd].
    eapply (coupled_landed p1); [done|apply lookup_insert_eq|done].
Qed.

Lemma begin_coupled key id t s p : coupled p -> coupled (begin_attempt key id t s p).2.
Proof.
  intros Hp. unfold begin_attempt. case_bool_decide as Hsome; [done|].
  unfold scheduling. destruct (take_due key id t (scheduler p)) as [r s1] eqn:Hr.
  apply with_current_cases in Hr as [[-> [-> | ->]]|(slot & Hs & Hid & _ & -> & ->)]; [done..|].
  cbv zeta. match goal with |- context [in_flight slot || ?c] => destruct (in_flight slot || c) eqn:Hcase end;
    cbn [fst snd]; [by eapply (coupled_released (mkPending _ _ _)), coupled_same|].
  destruct Hp as [Hsz Hiff]. split; simpl; [by rewrite (size_insert_slot _ _ slot)|].
  intros k i. destruct (decide (k = key)) as [->|Hne].
  - rewrite !lookup_insert_eq. split.
    + intros [s' [= <- <-]]. eexists. split; [done|]. by split.
    + intros (x & [= <-] & <- & _). exists s. by rewrite Hid.
  - by rewrite !lookup_insert_ne.
Qed.

Lemma schedule_coupled key id t p : coupled p -> coupled (sockets_schedule_loss key id t p).2.
Proof.
  intros [Hsz Hiff]. unfold sockets_schedule_loss, scheduling, schedule_loss.
  destruct (negb (key_is_valid key) || all_zero id); [done|].
  destruct (scheduler p !! key) as [e|] eqn:He.
  - case_bool_decide; simpl; [|done]. by destruct (t <? s_last_ms e)%Z.
  - destruct (Nat.leb_spec MAX_CONTROL_SESSIONS (size (scheduler p))) as [|Hlt]; [done|].
    destruct (after_failure backoff_new) as [delay b]. cbn [fst snd].
    split; simpl; [rewrite map_size_insert, He; simpl; lia|].
    intros k i. rewrite Hiff. destruct (decide (k = key)) as [->|Hne]; [|by rewrite lookup_insert_ne].
    rewrite He, lookup_insert_eq. split; [by intros (? & ? & _)|by intros (x & [= <-] & _ & ?)].
Qed.

Lemma run_pending_op_coupled p o : coupled p -> coupled (run_pending_op p o).
Proof.
  intros Hp. destruct o as [key id t|key id t s|key id t|key id t|key id t k|key id]; cbn [run_pending_op].
  - by apply schedule_coupled.
  - by apply begin_coupled.
  - by apply watchdog_coupled.
  - unfold failed. destruct (close_if_current key id p) as [b p'] eqn:Hc.
    apply close_cases in Hc as [(-> & -> & _)|(-> & sk & Hsk & ->)]; cbn [negb]; [done|by eapply retire_coupled].
  - unfold failed_with_kind. destruct (close_if_current key id p) as [b p'] eqn:Hc.
    apply close_cases in Hc as [(-> & -> & _)|(-> & sk & Hsk & ->)]; cbn [negb]; [done|].
    destruct (is_retryable_transport_failure k); [by eapply retire_coupled|by eapply discard_coupled].
  - unfold cancel_attempt. destruct (close_if_current key id p) as [b p'] eqn:Hc. cbn [snd].
    apply close_cases in Hc as [(_ & -> & Hfree)|(_ & sk & Hsk & ->)]; [by apply discard_free|by eapply discard_coupled].
Qed.

(** *** Sockets are conserved *)

Lemma places_scheduler p s : places (mkPending s (sockets p) (released p)) = places p.
Proof. done. Qed.

Lemma close_places key id p : places (close_if_current key id p).2 ≡ₚ places p.
Proof.
  destruct (close_if_current key id p) as [b p'] eqn:Hc. cbn [snd].
  apply close_cases in Hc as [(_ & -> & _)|(_ & sk & Hsk & ->)]; [done|].
  unfold places, owned_sockets. cbn [sockets released].
  rewrite <- (map_to_list_delete (sockets p) key _ Hsk). cbn [fmap list_fmap snd].
  rewrite fmap_app, concat_app. cbn. solve_Permutation.
Qed.

Lemma scheduling_places {A : Type} (f : sched A) p : places (scheduling f p).2 = places p.
Proof. unfold scheduling. by destruct (f (scheduler p)). Qed.

Lemma discard_places key id p : places (discard key id p).2 = places p.
Proof. unfold discard. by destruct (cancel_if_current key id (scheduler p)). Qed.

Lemma retire_places key id t p : places (retire_attempt key id t p).2 = places p.
Proof.
  unfold retire_attempt. pose proof (scheduling_places (attempt_failed key id t) p) as Hs.
  destruct (scheduling _ p) as [[next|e] p']; cbn [snd] in *; [done|]. by rewrite discard_places.
Qed.

Lemma drop_places s p : places (drop_socket s p) ≡ₚ places p ++ [s].
Proof. unfold places, owned_sockets, drop_socket. cbn. rewrite fmap_app, concat_app. cbn. by rewrite app_assoc. Qed.

Lemma begin_places key id t s p : places (begin_attempt key id t s p).2 ≡ₚ places p ++ [s].
Proof.
  unfold begin_attempt. case_bool_decide as Hsome; cbn [snd]; [apply drop_places|].
  apply eq_None_not_Some in Hsome. unfold scheduling.
  destruct (take_due key id t (scheduler p)) as [[[] | e] s1]; cbn [snd]; [|by rewrite drop_places..].
  unfold places, owned_sockets. cbn [sockets released]. rewrite map_to_list_insert by done. cbn. solve_Permutation.
Qed.

Lemma run_pending_op_places p o : places (run_pending_op p o) ≡ₚ places p ++ given o.
Proof.
  destruct o as [key id t|key id t s|key id t|key id t|key id t k|key id]; cbn [run_pending_op given];
    rewrite ?app_nil_r; [by unfold sockets_schedule_loss; rewrite scheduling_places|apply begin_places| | | |].
  - unfold watchdog. pose proof (scheduling_places (take_expired_attempt key id t) p) as Hs.
    destruct (scheduling _ p) as [[[] | e] p']; cbn [snd] in *; [|by rewrite Hs|].
    + pose proof (scheduling_places (attempt_failed key id t) (close_if_current key id p').2) as Hf.
      destruct (scheduling _ _) as [[next|e] p'']; cbn [snd] in *; by rewrite Hf, close_places, Hs.
    + by rewrite discard_places, close_places, Hs.
  - unfold failed. pose proof (close_places key id p) as Hc.
    destruct (close_if_current key id p) as [[] p']; cbn [negb snd] in *; [|done]. by rewrite retire_places.
  - unfold failed_with_kind. pose proof (close_places key id p) as Hc.
    destruct (close_if_current key id p) as [[] p']; cbn [negb snd] in *; [|done].
    destruct (is_retryable_transport_failure k); [by rewrite retire_places|cbn [snd]; by rewrite discard_places].
  - unfold cancel_attempt. by rewrite discard_places, close_places.
Qed.

Lemma drop_owner_places p : concat (let_go <$> released (drop_owner p)) ≡ₚ places p.
Proof.
  unfold drop_owner, places, owned_sockets. cbn [released]. rewrite fmap_app, concat_app.
  set (l := map_to_list (sockets p)).
  assert (concat (let_go <$> concat ((fun ks => [ShutDown ks.2.2; Dropped ks.2.2]) <$> l)) = (fun ks => ks.2.2) <$> l) as ->.
  { induction l as [|x l IH]; [done|]. cbn. by f_equal. }
  apply Permutation_app_comm.
Qed.

(** *** An attempt is ended only in its own name *)

Definition names_session (o : pending_op) : PeerSessionKey * SessionId :=
  match o with
  | PLoss key id _ | PBegin key id _ _ | PWatchdog key id _ | PFailed key id _ | PFailedKind key id _ _
  | PCancel key id => (key, id)
  end.

Definition keeps_other (key : PeerSessionKey) (id : SessionId) (p p' : PendingHandshakeSockets) : Prop :=
  forall k i s, (k, i) <> (key, id) -> sockets p !! k = Some (i, s) -> sockets p' !! k = Some (i, s).

Lemma close_keeps key id p : keeps_other key id p (close_if_current key id p).2.
Proof.
  intros k i s Hne Hk. destruct (close_if_current key id p) as [b p'] eqn:Hc. cbn [snd].
  apply close_cases in Hc as [(_ & -> & _)|(_ & sk & Hsk & ->)]; [done|]. cbn [sockets].
  rewrite lookup_delete_ne; [done|]. intros ->. congruence.
Qed.

Lemma scheduling_sockets {A : Type} (f : sched A) p : sockets (scheduling f p).2 = sockets p.
Proof. unfold scheduling. by destruct (f (scheduler p)). Qed.
Lemma discard_sockets key id p : sockets (discard key id p).2 = sockets p.
Proof. unfold discard. by destruct (cancel_if_current key id (scheduler p)). Qed.
Lemma retire_sockets key id t p : sockets (retire_attempt key id t p).2 = sockets p.
Proof.
  unfold retire_attempt. pose proof (scheduling_sockets (attempt_failed key id t) p) as Hs.
  destruct (scheduling _ p) as [[next|e] p']; cbn [snd] in *; [done|]. by rewrite discard_sockets.
Qed.

Lemma run_pending_op_keeps p o : keeps_other (names_session o).1 (names_session o).2 p (run_pending_op p o).
Proof.
  intros k i s Hne Hk. destruct o as [key id t|key id t s0|key id t|key id t|key id t c|key id];
    cbn [run_pending_op names_session fst snd] in *.
  - unfold sockets_schedule_loss. by rewrite scheduling_sockets.
  - unfold begin_attempt. case_bool_decide as Hsome; [done|]. unfold scheduling.
    destruct (take_due key id t (scheduler p)) as [[[] | e] s1]; cbn [snd sockets drop_socket]; [|done..].
    rewrite lookup_insert_ne; [done|]. intros ->. by destruct Hsome.
  - unfold watchdog. pose proof (scheduling_sockets (take_expired_attempt key id t) p) as Hs.
    destruct (scheduling _ p) as [[[] | e] p']; cbn [snd] in *; [|by rewrite Hs|].
    + pose proof (scheduling_sockets (attempt_failed key id t) (close_if_current key id p').2) as Hf.
      destruct (scheduling _ _) as [[next|e] p'']; cbn [snd] in *; rewrite Hf; (apply close_keeps; [done|by rewrite Hs]).
    + rewrite discard_sockets. apply close_keeps; [done|by rewrite Hs].
  - unfold failed. pose proof (close_keeps key id p k i s Hne Hk) as Hc.
    destruct (close_if_current key id p) as [[] p']; cbn [negb snd] in *; [|done]. by rewrite retire_sockets.
  - unfold failed_with_kind. pose proof (close_keeps key id p k i s Hne Hk) as Hc.
    destruct (close_if_current key id p) as [[] p']; cbn [negb snd] in *; [|done].
    destruct (is_retryable_transport_failure c); [by rewrite retire_sockets|cbn [snd]; by rewrite discard_sockets].
  - unfold cancel_attempt. rewrite discard_sockets. by apply close_keeps.
Qed.

Lemma run_pending_ok l :
  coupled (run_pending l) /\ places (run_pending l) ≡ₚ concat (given <$> l).
Proof.
  induction l as [|o l [IHc IHp]] using rev_ind.
  - split; [|done]. split; [cbn; rewrite map_size_empty; apply Nat.le_0_l|]. intros key id. cbn. rewrite !lookup_empty.
    split; [by intros [? ?]|by intros (? & ? & _)].
  - unfold run_pending in *. rewrite foldl_snoc, fmap_app, concat_app. split; [by apply run_pending_op_coupled|].
    rewrite run_pending_op_places, IHp. cbn. by rewrite app_nil_r.
Qed.

Lemma coupled_bound p : coupled p -> pending_len p <= MAX_CONTROL_SESSIONS.
Proof.
  intros [Hsz Hiff]. etrans; [|exact Hsz]. unfold pending_len. rewrite <- !size_dom. apply subseteq_size.
  intros key [[id s] Hs]%elem_of_dom. apply elem_of_dom.
  destruct (proj1 (Hiff key id) (ex_intro _ s Hs)) as (slot & Hslot & _). by exists slot.
Qed.

(** The owner of pending handshake sockets over any history of losses,
    attempts, watchdog calls, failures and cancellations: a socket is held for a
    peer exactly while the reconnect scheduler has an attempt of the same session
    in flight, so no retry ever waits or starts while a socket of the peer is
    open; at most 128 are held; every socket handed in is either owned or was
    dropped, and once; dropping the owner drops the rest; and an operation leaves
    alone every socket of another peer or session. *)
Theorem pending_sockets_safe (l : list pending_op) :
  let p := run_pending l in
  (forall key id, (exists s, sockets p !! key = Some (id, s)) <->
     exists slot, scheduler p !! key = Some slot /\ s_session slot = id /\ in_flight slot = true) /\
  pending_len p <= MAX_CONTROL_SESSIONS /\
  owned_sockets p ++ concat (let_go <$> released p) ≡ₚ concat (given <$> l) /\
  concat (let_go <$> released (drop_owner p)) ≡ₚ concat (given <$> l) /\
  (forall o, keeps_other (names_session o).1 (names_session o).2 p (run_pending_op p o)).
Proof.
  destruct (run_pending_ok l) as [Hc Hp]. split; [apply Hc|]. split; [by apply coupled_bound|].
  split; [exact Hp|]. split; [by rewrite drop_owner_places|apply run_pending_op_keeps].
Qed.

End sockets.
Arguments socket_event : clear implicits.
Arguments PendingHandshakeSockets : clear implicits.
Arguments pending_op : clear implicits.
