(* ===== verification/MembershipFile.v ===== *)
(** The text of the membership state file: serialization, parsing and schema
    migration of [crates/blueroute-linux/src/membership_store.rs].

    A document is its list of bytes.  [DurableFs] holds the file operations. *)

From stdpp Require Import pretty.
From S2P Require Import Prelude Order StateText Ident Membership.

Definition FORMAT_HEADER_PREFIX : list Z := code_points "BLUEROUTE_MEMBERSHIP_V".
Definition LEGACY_FORMAT_VERSION : Z := 1.
Definition CURRENT_FORMAT_VERSION : Z := 2.

Definition malformed_state (m : string) : CoreError :=
  core_error PersistenceError ("network membership state is malformed: " +:+ m).
Definition malformed_line (m : string) : CoreError := malformed_state ("line {line_number}: " +:+ m).
Definition malformed_value (m : string) : CoreError :=
  core_error_with_diagnostic PersistenceError
    ("network membership state is malformed: line {line_number}: " +:+ m) "{error}".

(** ** Writing *)

Definition format_header (version : Z) : list Z := FORMAT_HEADER_PREFIX ++ code_points (pretty version).

Definition durable_state_code (s : MembershipState) : CoreResult (list Z) :=
  match s with
  | NotMember => Ok (code_points "not-member")
  | Member => Ok (code_points "member")
  | Joining | Leaving =>
    Err (core_error PersistenceError "cannot persist a transient network membership state")
  end.

Definition bool_code (b : bool) : list Z := if b then code_points "1" else code_points "0".

Definition network_record (m : NetworkMembership) (state : list Z) : list Z :=
  join TAB [code_points "network"; id_to_string (network_id m); state;
            encode_hex (utf8_encode (display_str (network_name m)))].
Definition peer_record (m : NetworkMembership) (p : PeerMembership) : list Z :=
  join TAB [code_points "peer"; id_to_string (network_id m); id_to_string (pm_node p);
            bool_code (member p); bool_code (trusted p)].

Definition serialize_peer (m : NetworkMembership) (output : list Z) (p : PeerMembership) : CoreResult (list Z) :=
  guard_err (bool_decide (pm_node p = zero_id)) (malformed_state "cannot persist an all-zero peer identity")
  (Ok (output ++ peer_record m p ++ [NEWLINE])).

Definition serialize_network (output : list Z) (m : NetworkMembership) : CoreResult (list Z) :=
  guard_err (bool_decide (network_id m = zero_id)) (malformed_state "cannot persist an all-zero network identity")
  (state ← durable_state_code (m_state m);
   try_for_each (serialize_peer m) (output ++ network_record m state ++ [NEWLINE]) (values (peers m))).

Definition serialize_registry (r : MembershipRegistry) : CoreResult (list Z) :=
  try_for_each serialize_network (format_header CURRENT_FORMAT_VERSION ++ [NEWLINE]) (values (networks r)).

(** ** Parsing *)

Definition required_field (fields : list (list Z)) (name : string) : CoreResult (list Z * list (list Z)) :=
  match fields with
  | f :: rest => Ok (f, rest)
  | [] => Err (malformed_line ("missing " +:+ name))
  end.

Definition parse_durable_state (value : list Z) : CoreResult MembershipState :=
  if bool_decide (value = code_points "not-member") then Ok NotMember
  else if bool_decide (value = code_points "member") then Ok Member
  else Err (malformed_line "invalid membership state").

Definition parse_bool (value : list Z) : CoreResult bool :=
  if bool_decide (value = code_points "0") then Ok false
  else if bool_decide (value = code_points "1") then Ok true
  else Err (malformed_line "invalid boolean flag").

Definition decode_hex_field (value : list Z) : CoreResult (list Z) :=
  guard_err (negb (length value mod 2 =? 0)) (malformed_line "hex field has an odd length")
  (ok_or (decode_pairs decode_nibble value) (malformed_line "hex field contains invalid data")).

Definition parse_id {t : IdTag} (name : string) (f : list Z) : CoreResult (Id t) :=
  map_err (fun _ => malformed_value name) (id_from_str f).

Definition parse_network_record (r : MembershipRegistry) (fields : list (list Z)) :
  CoreResult (MembershipRegistry * list (list Z)) :=
  '(f, fields) ← required_field fields "network id";
  network_id ← parse_id "invalid network id" f;
  guard_err (bool_decide (network_id = zero_id)) (malformed_line "all-zero network identity is invalid")
  (guard_err (bool_decide (is_Some (network_of network_id r))) (malformed_line "duplicate network record")
  ('(f, fields) ← required_field fields "membership state";
   state ← parse_durable_state f;
   '(encoded_name, fields) ← required_field fields "network name";
   name_bytes ← decode_hex_field encoded_name;
   name ← ok_or (utf8_decode name_bytes) (malformed_value "network name is not valid UTF-8");
   display_name ← map_err (fun _ => malformed_value "invalid network name") (display_name_new name);
   Ok ((remember_network (mkMembership network_id display_name state (peers (membership_new network_id display_name))) r).2,
       fields))).

(** The peer's facts as the calls on the looked-up membership leave them. *)
Definition record_peer (p : NodeId) (member trusted : bool) (m : NetworkMembership) : NetworkMembership :=
  let m := (remember_peer p m).2 in
  let m := (set_peer_member p member m).2 in
  if trusted then (trust_peer p m).2 else m.

Definition parse_peer_record (r : MembershipRegistry) (fields : list (list Z)) :
  CoreResult (MembershipRegistry * list (list Z)) :=
  '(f, fields) ← required_field fields "network id";
  network_id ← parse_id "invalid network id" f;
  '(f, fields) ← required_field fields "peer node id";
  node_id ← parse_id "invalid peer node id" f;
  guard_err (bool_decide (network_id = zero_id) || bool_decide (node_id = zero_id))
    (malformed_line "all-zero network or peer identity is invalid")
  ('(f, fields) ← required_field fields "peer member flag";
   member ← parse_bool f;
   '(f, fields) ← required_field fields "peer trust flag";
   trusted ← parse_bool f;
   membership ← ok_or (network_of network_id r)
     (malformed_line "peer record refers to a network that has not been declared");
   guard_err (is_peer_known node_id membership) (malformed_line "duplicate peer record")
   (Ok (network_mut network_id (record_peer node_id member trusted) r, fields))).

Definition parse_line (r : MembershipRegistry) (line : list Z) : CoreResult MembershipRegistry :=
  guard_err (bool_decide (line = [])) (malformed_line "blank records are not allowed")
  ('(record_type, fields) ← ok_or (match split TAB line with f :: fs => Some (f, fs) | [] => None end)
     (malformed_line "missing record type");
   '(r, fields) ←
     (if bool_decide (record_type = code_points "network") then parse_network_record r fields
      else if bool_decide (record_type = code_points "peer") then parse_peer_record r fields
      else Err (malformed_line "unknown record type"));
   guard_err (negb (bool_decide (fields = []))) (malformed_line "record has too many fields") (Ok r)).

Definition parse_registry (serialized : list Z) : CoreResult MembershipRegistry :=
  let ls := lines serialized in
  guard_err (negb (bool_decide (head ls = Some (format_header CURRENT_FORMAT_VERSION))))
    (malformed_state "unsupported or missing current membership format header")
  (try_for_each parse_line (mkRegistry ∅) (tail ls)).

(** ** Migration *)

Definition is_ascii_digit (b : Z) : bool := in_range 48 57 b.

(** [str::parse::<u32>] on a text of ASCII digits: only overflow can fail. *)
Definition parse_u32 (digits : list Z) : option Z :=
  let v := fold_left (fun acc d => acc * 10 + (d - 48))%Z digits 0%Z in
  if (v <=? u_max 32)%Z then Some v else None.

Fixpoint strip_prefix (prefix l : list Z) : option (list Z) :=
  match prefix, l with
  | [], _ => Some l
  | p :: prefix', c :: l' => if (p =? c)%Z then strip_prefix prefix' l' else None
  | _ :: _, [] => None
  end.

Definition detect_format_version (serialized : list Z) : CoreResult Z :=
  header ← ok_or (head (lines serialized)) (malformed_state "missing membership format header");
  version ← ok_or (strip_prefix FORMAT_HEADER_PREFIX header)
    (malformed_state "unsupported or missing membership format header");
  guard_err (bool_decide (version = []) || negb (forallb is_ascii_digit version))
    (malformed_state "membership format version is invalid")
  (ok_or (parse_u32 version) (malformed_value "invalid membership format version")).

Definition migrate_v1_to_v2 (serialized : list Z) : CoreResult (list Z) :=
  let ls := lines serialized in
  guard_err (negb (bool_decide (head ls = Some (format_header LEGACY_FORMAT_VERSION))))
    (core_error PersistenceError "network membership v1 migration received the wrong source schema")
  (let migrated := format_header CURRENT_FORMAT_VERSION ++ [NEWLINE] ++ unlines (tail ls) in
   _ ← parse_registry migrated;
   Ok migrated).

(** The loop; each turn raises the version, so the difference to the current
    one bounds the turns. *)
Fixpoint migrate_loop (turns : nat) (version : Z) (current : list Z) : CoreResult (list Z) :=
  match turns with
  | O => Ok current
  | S turns' =>
    next ← (if (version =? LEGACY_FORMAT_VERSION)%Z then migrate_v1_to_v2 current
            else Err (core_error PersistenceError
              "no network membership migration path exists from schema version {version}"));
    migrate_loop turns' (version + 1) next
  end.

Record MigrationResult := mkMigration { serialized : list Z; migrated : bool }.

Definition migrate_to_current (document : list Z) : CoreResult MigrationResult :=
  original_version ← detect_format_version document;
  guard_err (CURRENT_FORMAT_VERSION <? original_version)%Z
    (core_error PersistenceError
       "network membership state uses unsupported future schema version {original_version}; current version is {CURRENT_FORMAT_VERSION}")
  (current ← migrate_loop (Z.to_nat (CURRENT_FORMAT_VERSION - original_version)) original_version document;
   Ok (mkMigration current (negb (original_version =? CURRENT_FORMAT_VERSION)%Z))).

(** What [load] makes of the text of a file: the registry, and the text it
    writes back when it migrated. *)
Definition load_document (document : list Z) : CoreResult (MembershipRegistry * bool) :=
  migration ← migrate_to_current document;
  r ← parse_registry (serialized migration);
  Ok (r, migrated migration).

(** ** What the file can hold *)

Record durable_network (id : NetworkId) (m : NetworkMembership) : Prop := {
  dn_id : network_id m = id;
  dn_nonzero : id <> zero_id;
  dn_stable : m_state m = NotMember \/ m_state m = Member;
  dn_name : display_name_ok (network_name m);
  dn_chars : Forall (fun c => is_scalar c = true) (display_str (network_name m));
  dn_peers : forall p e, peers m !! p = Some e -> pm_node e = p /\ p <> zero_id;
}.
Definition durable_registry (r : MembershipRegistry) : Prop := map_Forall durable_network (networks r).

(** What every registry in memory satisfies: the entries are under their own
    identities and names are [DisplayName]s. *)
Definition registry_keyed (r : MembershipRegistry) : Prop :=
  map_Forall (fun id m => network_id m = id /\ display_name_ok (network_name m) /\
    Forall (fun c => is_scalar c = true) (display_str (network_name m)) /\
    forall p e, peers m !! p = Some e -> pm_node e = p) (networks r).

(** The records of a network. *)
Definition state_text (s : MembershipState) : list Z :=
  if durable_state_code s is Ok t then t else [].
Definition network_lines (m : NetworkMembership) : list (list Z) :=
  network_record m (state_text (m_state m)) :: (peer_record m <$> values (peers m)).
Definition document_lines (r : MembershipRegistry) : list (list Z) :=
  format_header CURRENT_FORMAT_VERSION :: concat (network_lines <$> values (networks r)).

(** ** Facts *)

Lemma bool_ascii b : ascii_printable (bool_code b).
Proof. by destruct b; apply literal_ascii. Qed.
Lemma state_ascii s : ascii_printable (state_text s).
Proof.
  destruct s; [by apply (literal_ascii "not-member")|vm_compute; constructor|by apply (literal_ascii "member")|].
  vm_compute. constructor.
Qed.

Lemma network_record_ascii m s :
  Forall (fun c => is_scalar c = true) (display_str (network_name m)) -> ascii_printable s ->
  Forall ascii_printable [code_points "network"; id_to_string (network_id m); s;
                          encode_hex (utf8_encode (display_str (network_name m)))].
Proof.
  intros Hn Hs. rewrite !Forall_cons, Forall_nil.
  split_and!; [by apply literal_ascii|apply id_ascii|done|by apply hex_ascii, utf8_encode_bytes|done].
Qed.
Lemma peer_record_ascii m p :
  Forall ascii_printable [code_points "peer"; id_to_string (network_id m); id_to_string (pm_node p);
                          bool_code (member p); bool_code (trusted p)].
Proof.
  rewrite !Forall_cons, Forall_nil. split_and!; auto using id_ascii, bool_ascii. by apply literal_ascii.
Qed.

Lemma network_record_fields m s :
  Forall (fun c => is_scalar c = true) (display_str (network_name m)) -> ascii_printable s ->
  Forall printable [code_points "network"; id_to_string (network_id m); s;
                    encode_hex (utf8_encode (display_str (network_name m)))].
Proof. intros Hn Hs. eapply Forall_impl; [by apply network_record_ascii|apply ascii_is_printable]. Qed.
Lemma peer_record_fields m p :
  Forall printable [code_points "peer"; id_to_string (network_id m); id_to_string (pm_node p);
                    bool_code (member p); bool_code (trusted p)].
Proof. eapply Forall_impl; [apply peer_record_ascii|apply ascii_is_printable]. Qed.

Lemma network_lines_plain id m : durable_network id m -> Forall plain_line (network_lines m).
Proof.
  intros Hm. constructor.
  - apply join_plain, network_record_fields; [apply (dn_chars _ _ Hm)|apply state_ascii].
  - apply Forall_fmap, Forall_true. intros p. apply join_plain, peer_record_fields.
Qed.

Lemma document_lines_plain r : durable_registry r -> Forall plain_line (document_lines r).
Proof.
  intros Hr. constructor; [vm_compute; repeat constructor; by intros [=]|].
  apply Forall_concat, Forall_fmap, Forall_forall. intros m [id Hm]%elem_of_values.
  by eapply network_lines_plain, Hr.
Qed.

Lemma document_ascii r : durable_registry r -> ascii (unlines (document_lines r)).
Proof.
  intros Hr. apply unlines_ascii. constructor; [vm_compute; repeat constructor; by intros [=]|].
  apply Forall_concat, Forall_fmap, Forall_forall. intros m [id Hm]%elem_of_values. constructor.
  - apply join_ascii, network_record_ascii; [apply (dn_chars _ _ (Hr id m Hm))|apply state_ascii].
  - apply Forall_fmap, Forall_true. intros p. apply join_ascii, peer_record_ascii.
Qed.

(** *** Writing *)

Lemma serialize_peers_Ok m l out :
  (exists t, try_for_each (serialize_peer m) out l = Ok t) <-> Forall (fun p => pm_node p <> zero_id) l.
Proof.
  revert out. induction l as [|p l IH]; intros out; cbn [try_for_each]; [split; [by constructor|by eexists]|].
  rewrite Forall_cons, <- (IH (out ++ peer_record m p ++ [NEWLINE])).
  destruct (serialize_peer m out p) as [o|e] eqn:Hp; unfold serialize_peer in Hp;
    case_bool_decide; simplify_eq/=; naive_solver.
Qed.

Lemma serialize_peer_text m out p t : serialize_peer m out p = Ok t -> t = out ++ unlines [peer_record m p].
Proof. intros [_ Ht]%guard_err_Ok. unfold unlines. cbn [fmap list_fmap concat]. rewrite app_nil_r. congruence. Qed.

Lemma serialize_peers_text m l out t :
  try_for_each (serialize_peer m) out l = Ok t -> t = out ++ unlines (peer_record m <$> l).
Proof.
  revert out. induction l as [|p l IH]; intros out; cbn [try_for_each].
  - intros Ht. rewrite app_nil_r. congruence.
  - intros (out' & ->%serialize_peer_text & ->%IH)%result_bind_Ok.
    rewrite <- app_assoc, <- unlines_app. done.
Qed.

Lemma durable_state_Ok s : is_ok (durable_state_code s) = true <-> s = NotMember \/ s = Member.
Proof. destruct s; naive_solver. Qed.

Lemma serialize_network_text out m t : serialize_network out m = Ok t -> t = out ++ unlines (network_lines m).
Proof.
  unfold serialize_network. intros [_ (st & Hst & Ht%serialize_peers_text)%result_bind_Ok]%guard_err_Ok. subst t.
  unfold network_lines, state_text. rewrite Hst, <- app_assoc. f_equal.
Qed.

Lemma serialize_network_Ok out m :
  (exists t, serialize_network out m = Ok t) <->
  network_id m <> zero_id /\ (m_state m = NotMember \/ m_state m = Member) /\
  Forall (fun p => pm_node p <> zero_id) (values (peers m)).
Proof.
  unfold serialize_network. rewrite <- durable_state_Ok. setoid_rewrite guard_err_Ok.
  setoid_rewrite bool_decide_eq_false. destruct (durable_state_code (m_state m)) as [st|e]; simpl; [|naive_solver].
  rewrite <- (serialize_peers_Ok m (values (peers m)) (out ++ network_record m st ++ [NEWLINE])). naive_solver.
Qed.

Lemma serialize_networks_Ok l out :
  (exists t, try_for_each serialize_network out l = Ok t) <->
  Forall (fun m => network_id m <> zero_id /\ (m_state m = NotMember \/ m_state m = Member) /\
    Forall (fun p => pm_node p <> zero_id) (values (peers m))) l.
Proof.
  revert out. induction l as [|m l IH]; intros out; cbn [try_for_each]; [split; [by constructor|by eexists]|].
  rewrite Forall_cons, <- (serialize_network_Ok out m).
  destruct (serialize_network out m) as [o|e]; simpl; [rewrite (IH o)|]; naive_solver.
Qed.

Lemma serialize_networks_text l out t :
  try_for_each serialize_network out l = Ok t -> t = out ++ unlines (concat (network_lines <$> l)).
Proof.
  revert out. induction l as [|m l IH]; intros out; cbn [try_for_each].
  - intros [= <-]. by rewrite app_nil_r.
  - intros (out' & ->%serialize_network_text & ->%IH)%result_bind_Ok.
    rewrite <- app_assoc, <- unlines_app. done.
Qed.

Lemma serialize_registry_text r t : serialize_registry r = Ok t -> t = unlines (document_lines r).
Proof. intros ->%serialize_networks_text. unfold document_lines. cbn. by rewrite <- app_assoc. Qed.

Lemma serialize_registry_durable r :
  registry_keyed r -> ((exists t, serialize_registry r = Ok t) <-> durable_registry r).
Proof.
  intros Hr. unfold serialize_registry. rewrite serialize_networks_Ok. split.
  - intros Hall id m Hm. destruct (Hr id m Hm) as (Hid & Hname & Hchars & Hpeers).
    rewrite Forall_forall in Hall. destruct (Hall m) as (Hz & Hst & Hps); [apply elem_of_values; by exists id|].
    split; [done|by rewrite <- Hid|done..|]. intros p e He. pose proof (Hpeers p e He) as Hn. split; [done|].
    rewrite Forall_forall in Hps. rewrite <- Hn. apply Hps, elem_of_values. by exists p.
  - intros Hd. apply Forall_forall. intros m [id Hm]%elem_of_values. destruct (Hd id m Hm) as [Hid Hz Hst _ _ Hps].
    split; [by rewrite Hid|]. split; [done|]. apply Forall_forall. intros e [p He]%elem_of_values.
    by destruct (Hps p e He) as [-> ?].
Qed.

(** *** Reading *)

Lemma parse_id_string {t : IdTag} (name : string) (x : Id t) : parse_id name (id_to_string x) = Ok x.
Proof. unfold parse_id. by rewrite id_string_roundtrip. Qed.

Lemma parse_bool_code b : parse_bool (bool_code b) = Ok b.
Proof. by destruct b. Qed.

Lemma parse_state_text s : s = NotMember \/ s = Member -> parse_durable_state (state_text s) = Ok s.
Proof. by intros [-> | ->]. Qed.

Lemma decode_hex_text l : Forall (fun b => 0 <= b < 256)%Z l -> decode_hex_field (encode_hex l) = Ok l.
Proof.
  intros Hl. unfold decode_hex_field. rewrite length_encode_hex, Nat.Div0.mod_mul, decode_encode_pairs by done. done.
Qed.

Lemma display_name_again n : display_name_ok n -> display_name_new (display_str n) = Ok n.
Proof.
  intros (Hlen & Hu & Ht). unfold display_name_new. rewrite Hu, Ht. cbn [guard_err].
  rewrite (proj2 (Nat.eqb_neq _ _)), (proj2 (Nat.ltb_ge _ _)) by lia. by destruct n.
Qed.

(** A record line reads as its fields. *)
Lemma parse_line_fields r f fs :
  Forall printable (f :: fs) -> f <> [] ->
  parse_line r (join TAB (f :: fs)) =
    ('(r, fields) ←
       (if bool_decide (f = code_points "network") then parse_network_record r fs
        else if bool_decide (f = code_points "peer") then parse_peer_record r fs
        else Err (malformed_line "unknown record type"));
     guard_err (negb (bool_decide (fields = []))) (malformed_line "record has too many fields") (Ok r)).
Proof.
  intros Hp Hf. unfold parse_line. rewrite split_record by done.
  rewrite bool_decide_eq_false_2; [done|]. destruct f; [done|]. by destruct fs.
Qed.

Lemma parse_network_line id m nets :
  durable_network id m -> nets !! id = None ->
  parse_line (mkRegistry nets) (network_record m (state_text (m_state m))) = Ok (mkRegistry (<[id := with_peers m ∅]> nets)).
Proof.
  intros [Hid Hz Hst Hname Hchars _] Hnone. unfold network_record.
  rewrite parse_line_fields by first [by apply network_record_fields, state_ascii|done].
  rewrite bool_decide_eq_true_2 by done. unfold parse_network_record. cbn [required_field mbind result_bind].
  rewrite parse_id_string. cbn [mbind result_bind]. rewrite Hid, bool_decide_eq_false_2 by done. cbn [guard_err].
  unfold network_of. cbn [networks]. rewrite Hnone, bool_decide_eq_false_2 by (by intros [? ?]). cbn [guard_err].
  rewrite parse_state_text by done. cbn [mbind result_bind].
  rewrite decode_hex_text by (by apply utf8_encode_bytes). cbn [mbind result_bind].
  rewrite utf8_decode_encode by done. cbn [ok_or mbind result_bind].
  rewrite display_name_again by done. cbn. rewrite <- Hid. done.
Qed.

Lemma record_peer_fresh p m :
  peers m !! pm_node p = None ->
  record_peer (pm_node p) (member p) (trusted p) m = with_peers m (<[pm_node p := p]> (peers m)).
Proof.
  intros Hp. unfold record_peer, remember_peer. rewrite Hp.
  unfold set_peer_member, trust_peer, peer_or_new, with_peers. cbn [snd peers pm_node member trusted network_id network_name m_state].
  rewrite !lookup_insert_eq. cbn [default]. destruct p as [n mb tr].
  destruct tr; cbn [pm_node member trusted snd peers network_id network_name m_state] in *; by rewrite !insert_insert_eq.
Qed.

Lemma parse_peer_line m p nets m0 :
  nets !! network_id m = Some m0 -> network_id m <> zero_id -> pm_node p <> zero_id -> peers m0 !! pm_node p = None ->
  parse_line (mkRegistry nets) (peer_record m p) =
    Ok (mkRegistry (<[network_id m := with_peers m0 (<[pm_node p := p]> (peers m0))]> nets)).
Proof.
  intros Hnet Hz Hpz Hp. unfold peer_record.
  rewrite parse_line_fields by first [apply peer_record_fields|done].
  rewrite bool_decide_eq_false_2, bool_decide_eq_true_2 by done. unfold parse_peer_record. cbn [required_field mbind result_bind].
  rewrite ?parse_id_string. cbn [mbind result_bind]. rewrite ?parse_id_string. cbn [mbind result_bind].
  rewrite !bool_decide_eq_false_2 by done. cbn [orb guard_err].
  rewrite ?parse_bool_code. cbn [mbind result_bind]. rewrite ?parse_bool_code. cbn [mbind result_bind].
  unfold network_of. cbn [networks]. rewrite Hnet. cbn [ok_or mbind result_bind].
  unfold is_peer_known. rewrite Hp, bool_decide_eq_false_2 by (by intros [? ?]). cbn.
  unfold network_mut. cbn [networks]. do 2 f_equal. apply map_eq. intros k. destruct (decide (k = network_id m)) as [->|Hne].
  - rewrite lookup_alter_eq, lookup_insert_eq, Hnet. cbn. by rewrite record_peer_fresh.
  - by rewrite lookup_alter_ne, lookup_insert_ne.
Qed.

Lemma parse_peer_lines id m m0 l nets :
  durable_network id m -> nets !! id = Some m0 ->
  NoDup l.*1 -> Forall (fun kp => peers m !! kp.1 = Some kp.2 /\ peers m0 !! kp.1 = None) l ->
  try_for_each parse_line (mkRegistry nets) (peer_record m <$> l.*2) =
    Ok (mkRegistry (<[id := with_peers m0 (insert_all (peers m0) l)]> nets)).
Proof.
  intros [Hid Hz _ _ _ Hps] Hm0. revert m0 nets Hm0. induction l as [|[k p] l IH]; intros m0 nets Hm0 Hnd Hl; csimpl in *.
  - do 2 f_equal. rewrite insert_id; [done|]. rewrite Hm0. by destruct m0.
  - apply NoDup_cons in Hnd as [Hk Hnd]. apply Forall_cons in Hl as [[Hp Hfresh] Hl]. cbn [fst snd] in *.
    destruct (Hps k p Hp) as [Hn Hkz]. subst k.
    rewrite (parse_peer_line m p nets m0) by (by rewrite Hid || done). cbn [mbind result_bind]. rewrite Hid.
    rewrite (IH (with_peers m0 (<[pm_node p := p]> (peers m0)))); [by rewrite insert_insert_eq|by rewrite lookup_insert_eq|done|].
    rewrite Forall_forall in Hl. apply Forall_forall. intros [k q] Hq. destruct (Hl _ Hq) as [Hq1 Hq2].
    split; [done|]. cbn [fst snd peers with_peers] in *. rewrite lookup_insert_ne; [done|]. intros <-. apply Hk.
    apply list_elem_of_fmap. by exists (pm_node p, q).
Qed.

Lemma parse_network_lines id m nets :
  durable_network id m -> nets !! id = None ->
  try_for_each parse_line (mkRegistry nets) (network_lines m) = Ok (mkRegistry (<[id := m]> nets)).
Proof.
  intros Hm Hnone. unfold network_lines. cbn [try_for_each]. rewrite (parse_network_line id) by done. cbn [mbind result_bind].
  unfold values. rewrite (parse_peer_lines id m (with_peers m ∅)).
  - rewrite insert_insert_eq. cbn [peers with_peers]. rewrite insert_all_iter_map. by destruct m.
  - done.
  - by rewrite lookup_insert_eq.
  - apply (NoDup_keys (peers m)).
  - apply Forall_forall. intros [k p] Hkp%elem_of_iter_map. cbn. by rewrite lookup_empty.
Qed.

Lemma parse_networks_lines l nets :
  NoDup l.*1 -> Forall (fun im => durable_network im.1 im.2 /\ nets !! im.1 = None) l ->
  try_for_each parse_line (mkRegistry nets) (concat (network_lines <$> l.*2)) = Ok (mkRegistry (insert_all nets l)).
Proof.
  revert nets. induction l as [|[id m] l IH]; intros nets Hnd Hl; [done|].
  change (((id, m) :: l).*1) with (id :: l.*1) in Hnd.
  change (concat (network_lines <$> ((id, m) :: l).*2)) with (network_lines m ++ concat (network_lines <$> l.*2)).
  apply NoDup_cons in Hnd as [Hid Hnd]. apply Forall_cons in Hl as [[Hm Hnone] Hl]. cbn [fst snd] in *.
  rewrite try_for_each_app, (parse_network_lines id) by done. cbn [mbind result_bind]. rewrite IH; [done..|].
  rewrite Forall_forall in Hl. apply Forall_forall. intros [k q] Hq. destruct (Hl _ Hq) as [Hq1 Hq2].
  split; [done|]. cbn [fst snd] in *. rewrite lookup_insert_ne; [done|]. intros <-. apply Hid. apply list_elem_of_fmap.
  by exists (id, q).
Qed.

Lemma parse_document r : durable_registry r -> parse_registry (unlines (document_lines r)) = Ok r.
Proof.
  intros Hr. unfold parse_registry. rewrite lines_unlines by (by apply document_lines_plain).
  unfold document_lines. cbn [head tail]. rewrite bool_decide_eq_true_2 by done. cbn [negb guard_err].
  unfold values. rewrite parse_networks_lines.
  - rewrite insert_all_iter_map. by destruct r.
  - apply (NoDup_keys (networks r)).
  - apply Forall_forall. intros [k m] Hkm%elem_of_iter_map. split; [by apply Hr|apply lookup_empty].
Qed.

(** *** Whatever parses is a registry the file can hold *)

Lemma display_name_parsed value n :
  Forall (fun c => is_scalar c = true) value -> display_name_new value = Ok n ->
  display_name_ok n /\ Forall (fun c => is_scalar c = true) (display_str n).
Proof.
  intros Hv Hn. destruct (display_name_new_exact value n) as [Hiff Hok]. split; [by apply Hok|].
  apply Hiff in Hn as (_ & _ & ->). cbn [display_str].
  destruct (trim_spec value) as (a & b & Heq & _). rewrite Heq in Hv. apply Forall_app in Hv as [_ Hv].
  by apply Forall_app in Hv as [Hv _].
Qed.

Lemma durable_insert id m (nets : gmap NetworkId NetworkMembership) :
  map_Forall durable_network nets -> durable_network id m -> map_Forall durable_network (<[id := m]> nets).
Proof. intros Hn Hm. by apply map_Forall_insert_2. Qed.

Lemma parse_network_record_durable r fs r' fs' :
  parse_network_record r fs = Ok (r', fs') -> durable_registry r -> durable_registry r'.
Proof.
  intros H Hr. unfold parse_network_record in H.
  apply result_bind_Ok in H as ([f1 fs1] & _ & H). apply result_bind_Ok in H as (id & _ & H).
  apply guard_err_Ok in H as [Hz%bool_decide_eq_false H]. apply guard_err_Ok in H as [_ H].
  apply result_bind_Ok in H as ([f2 fs2] & _ & H). apply result_bind_Ok in H as (st & Hst & H).
  apply result_bind_Ok in H as ([f3 fs3] & _ & H). apply result_bind_Ok in H as (nb & _ & H).
  apply result_bind_Ok in H as (chars & Hc%ok_or_Ok & H). apply result_bind_Ok in H as (n & Hn & H).
  destruct (display_name_new chars) as [n'|] eqn:Hnew; [|done]. injection Hn as ->. injection H as <- _.
  apply utf8_decode_sound in Hc as [Hc _]. destruct (display_name_parsed chars n Hc Hnew) as [Hok Hchars].
  apply durable_insert; [done|]. split; cbn; try done.
  - unfold parse_durable_state in Hst. repeat case_bool_decide; simplify_eq; auto.
Qed.

Lemma record_peer_durable id p mb tr m :
  durable_network id m -> p <> zero_id -> peers m !! p = None -> durable_network id (record_peer p mb tr m).
Proof.
  intros [Hid Hz Hst Hn Hc Hps] Hp Hnone.
  pose proof (record_peer_fresh (mkPeer p mb tr) m Hnone) as Heq. cbn [pm_node member trusted] in Heq. rewrite Heq. split; try done.
  intros q e. cbn [peers with_peers]. intros [[<- <-]|[_ He]]%lookup_insert_Some; [done|by apply Hps].
Qed.

Lemma parse_peer_record_durable r fs r' fs' :
  parse_peer_record r fs = Ok (r', fs') -> durable_registry r -> durable_registry r'.
Proof.
  intros H Hr. unfold parse_peer_record in H.
  apply result_bind_Ok in H as ([f1 fs1] & _ & H). apply result_bind_Ok in H as (id & _ & H).
  apply result_bind_Ok in H as ([f2 fs2] & _ & H). apply result_bind_Ok in H as (node & _ & H).
  apply guard_err_Ok in H as [[_ Hz%bool_decide_eq_false]%orb_false_iff H].
  apply result_bind_Ok in H as ([f3 fs3] & _ & H). apply result_bind_Ok in H as (mb & _ & H).
  apply result_bind_Ok in H as ([f4 fs4] & _ & H). apply result_bind_Ok in H as (tr & _ & H).
  apply result_bind_Ok in H as (m & Hm%ok_or_Ok & H). apply guard_err_Ok in H as [Hk H]. injection H as <- _.
  unfold is_peer_known in Hk. apply bool_decide_eq_false, eq_None_not_Some in Hk.
  intros k m'. unfold network_mut. cbn [networks]. intros [[-> (m0 & Hm0 & ->)]|[Hne Hm']]%lookup_alter_Some.
  - unfold network_of in Hm. rewrite Hm in Hm0. injection Hm0 as <-. apply record_peer_durable; [by apply Hr|done..].
  - by apply Hr.
Qed.

Lemma parse_line_durable r l r' : parse_line r l = Ok r' -> durable_registry r -> durable_registry r'.
Proof.
  intros H Hr. unfold parse_line in H. apply guard_err_Ok in H as [_ H].
  apply result_bind_Ok in H as ([rt fs] & _ & H). apply result_bind_Ok in H as ([r1 fs1] & H1 & H).
  apply guard_err_Ok in H as [_ H]. injection H as <-.
  repeat case_bool_decide; [by eapply parse_network_record_durable|by eapply parse_peer_record_durable|done].
Qed.

Lemma parse_registry_durable t r : parse_registry t = Ok r -> durable_registry r.
Proof.
  unfold parse_registry. intros [_ H]%guard_err_Ok. eapply (try_for_each_inv (fun _ => durable_registry)); [| |exact H].
  - apply map_Forall_empty.
  - intros pre l u u' Hu Hl _. by eapply parse_line_durable.
Qed.

Lemma durable_keyed r : durable_registry r -> registry_keyed r.
Proof. intros Hr id m Hm. destruct (Hr id m Hm) as [Hid _ _ Hn Hc Hps]. split_and!; [done..|]. intros p e He. by apply Hps. Qed.

(** *** Versions *)

Lemma strip_prefix_app p l : strip_prefix p (p ++ l) = Some l.
Proof. induction p as [|c p IH]; cbn; [done|]. by rewrite Z.eqb_refl. Qed.

Lemma detect_header v document body :
  lines document = format_header v :: body -> v = LEGACY_FORMAT_VERSION \/ v = CURRENT_FORMAT_VERSION ->
  detect_format_version document = Ok v.
Proof.
  intros Hl Hv. unfold detect_format_version. rewrite Hl. cbn [head ok_or mbind result_bind]. unfold format_header.
  rewrite strip_prefix_app. by destruct Hv as [-> | ->].
Qed.

(** How a document is read, by its first line. *)
Definition load_by_header (document : list Z) (outcome : CoreResult (MembershipRegistry * bool)) : Prop :=
  match lines document with
  | h :: body =>
    if bool_decide (h = format_header CURRENT_FORMAT_VERSION)
    then outcome = (r ← parse_registry document; Ok (r, false))
    else if bool_decide (h = format_header LEGACY_FORMAT_VERSION)
    then outcome = (r ← parse_registry (unlines (format_header CURRENT_FORMAT_VERSION :: body)); Ok (r, true))
    else exists e, outcome = Err e /\ kind e = PersistenceError
  | [] => exists e, outcome = Err e /\ kind e = PersistenceError
  end.

Lemma parse_other_header document h body :
  lines document = h :: body -> h <> format_header CURRENT_FORMAT_VERSION ->
  exists e, parse_registry document = Err e /\ kind e = PersistenceError.
Proof.
  intros Hl Hh. unfold parse_registry. rewrite Hl. cbn [head].
  rewrite bool_decide_eq_false_2 by (intros [=]; done). by eexists.
Qed.

Lemma migrate_other_header document h body :
  lines document = h :: body -> h <> format_header LEGACY_FORMAT_VERSION ->
  exists e, migrate_v1_to_v2 document = Err e /\ kind e = PersistenceError.
Proof.
  intros Hl Hh. unfold migrate_v1_to_v2. rewrite Hl. cbn [head].
  rewrite bool_decide_eq_false_2 by (intros [=]; done). by eexists.
Qed.

Lemma load_unknown_header document h body :
  lines document = h :: body -> h <> format_header CURRENT_FORMAT_VERSION -> h <> format_header LEGACY_FORMAT_VERSION ->
  exists e, load_document document = Err e /\ kind e = PersistenceError.
Proof.
  intros Hl H2 H1. unfold load_document, migrate_to_current, detect_format_version. rewrite Hl. cbn [head ok_or mbind result_bind].
  destruct (strip_prefix FORMAT_HEADER_PREFIX h) as [v|]; [|by eexists]. cbn [ok_or mbind result_bind].
  destruct (bool_decide (v = []) || _); [by eexists|]. cbn [guard_err].
  destruct (parse_u32 v) as [n|]; [|by eexists]. cbn [ok_or mbind result_bind].
  destruct (Z.ltb_spec CURRENT_FORMAT_VERSION n); [by eexists|]. cbn [guard_err].
  destruct (parse_other_header document h body Hl H2) as (e2 & He2 & Hk2).
  destruct (migrate_other_header document h body Hl H1) as (e1 & He1 & Hk1).
  destruct (Z.to_nat (CURRENT_FORMAT_VERSION - n)) as [|turns]; cbn [migrate_loop mbind result_bind serialized].
  - rewrite He2. by eexists.
  - destruct (n =? LEGACY_FORMAT_VERSION)%Z; [rewrite He1|]; by eexists.
Qed.

Lemma load_document_by_header document : load_by_header document (load_document document).
Proof.
  unfold load_by_header. destruct (lines document) as [|h body] eqn:Hl.
  { unfold load_document, migrate_to_current, detect_format_version. rewrite Hl. by eexists. }
  case_bool_decide as H2; [subst h|case_bool_decide as H1; [subst h|by eapply load_unknown_header]].
  - unfold load_document, migrate_to_current. erewrite detect_header by eauto. done.
  - unfold load_document, migrate_to_current. erewrite detect_header by eauto. cbn [mbind result_bind guard_err].
    change (CURRENT_FORMAT_VERSION <? LEGACY_FORMAT_VERSION)%Z with false. cbn [guard_err].
    change (Z.to_nat (CURRENT_FORMAT_VERSION - LEGACY_FORMAT_VERSION)) with 1. cbn [migrate_loop].
    rewrite Z.eqb_refl. unfold migrate_v1_to_v2. rewrite Hl. cbn [head tail]. rewrite bool_decide_eq_true_2 by done.
    cbn [negb guard_err].
    assert (format_header CURRENT_FORMAT_VERSION ++ [NEWLINE] ++ unlines body
      = unlines (format_header CURRENT_FORMAT_VERSION :: body)) as ->.
    { change (unlines (format_header CURRENT_FORMAT_VERSION :: body))
        with ((format_header CURRENT_FORMAT_VERSION ++ [NEWLINE]) ++ unlines body). by rewrite <- app_assoc. }
    destruct (parse_registry _) as [r|e] eqn:Hp; cbn [mbind result_bind serialized]; [by rewrite Hp|done].
Qed.

Lemma load_serialized r t : durable_registry r -> serialize_registry r = Ok t -> load_document t = Ok (r, false).
Proof.
  intros Hr ->%serialize_registry_text. pose proof (load_document_by_header (unlines (document_lines r))) as Hl.
  unfold load_by_header in Hl. rewrite lines_unlines in Hl by (by apply document_lines_plain).
  unfold document_lines at 1 in Hl. rewrite bool_decide_eq_true_2 in Hl by done. rewrite Hl.
  by rewrite parse_document.
Qed.

Lemma load_document_durable document r migrated : load_document document = Ok (r, migrated) -> durable_registry r.
Proof.
  intros (m & _ & (r' & Hp & [= <- _])%result_bind_Ok)%result_bind_Ok. by eapply parse_registry_durable.
Qed.

(** C18. The membership file round-trips: a registry in memory can be written
    exactly when no network is in a transient state and no identity is zero, and
    reading what was written gives the registry back, with nothing to migrate. *)
Theorem membership_file_roundtrip (r : MembershipRegistry) (Hr : registry_keyed r) :
  ((exists text, serialize_registry r = Ok text) <-> durable_registry r) /\
  (forall text, serialize_registry r = Ok text -> load_document text = Ok (r, false)).
Proof.
  split; [by apply serialize_registry_durable|]. intros text Ht. apply load_serialized; [|done].
  apply serialize_registry_durable; [done|]. by exists text.
Qed.

(** Reading any document: the first line selects the schema, a version 1
    document reads as its records under the version 2 header and asks to be
    rewritten, anything else is refused as a persistence error; whatever is read
    is a registry without transient states or zero identities, and writing it
    gives a document that reads as the same registry unmigrated, so a migration
    that was rewritten is final. *)
Theorem membership_file_load_stable (document : list Z) :
  load_by_header document (load_document document) /\
  (forall r migrated, load_document document = Ok (r, migrated) ->
     durable_registry r /\
     exists text, serialize_registry r = Ok text /\ load_document text = Ok (r, false)).
Proof.
  split; [apply load_document_by_header|]. intros r migrated H.
  pose proof (load_document_durable _ _ _ H) as Hr. split; [done|]. destruct (proj2 (serialize_registry_durable r (durable_keyed r Hr)) Hr) as [t Ht].
  exists t. split; [done|]. by apply load_serialized.
Qed.

(** A network named "Büro" with a trusted member. *)
Definition demo_network : NetworkMembership :=
  mkMembership (fill_id 7) (mkDisplayName [66; 252; 114; 111]%Z) Member {[ fill_id 9 := mkPeer (fill_id 9) true true ]}.
Definition demo_registry : MembershipRegistry := mkRegistry {[ fill_id 7 := demo_network ]}.

Lemma demo_registry_keyed : registry_keyed demo_registry.
Proof.
  intros id m. cbn [networks demo_registry]. intros [<- <-]%lookup_singleton_Some. split_and!; [done| | |].
  - split; [by vm_compute; lia|]. by split; vm_compute.
  - repeat constructor.
  - intros p e. cbn [peers demo_network]. by intros [<- <-]%lookup_singleton_Some.
Qed.

Lemma membership_file_roundtrip_witness :
  registry_keyed demo_registry /\
  exists text, serialize_registry demo_registry = Ok text /\ load_document text = Ok (demo_registry, false).
Proof.
  pose proof demo_registry_keyed as Hk.
  split; [done|]. destruct (membership_file_roundtrip demo_registry Hk) as [_ Hrt].
  destruct (serialize_registry demo_registry) as [text|e] eqn:Ht; [|exfalso; revert Ht; by vm_compute].
  exists text. split; [done|]. by apply Hrt.
Defined.

Example migrates_v1 :
  load_document (code_points "BLUEROUTE_MEMBERSHIP_V1" ++ [NEWLINE] ++ network_record demo_network (code_points "member")
     ++ [NEWLINE] ++ peer_record demo_network (mkPeer (fill_id 9) true true))
  = Ok (demo_registry, true).
Proof. by vm_compute. Qed.
Lemma membership_file_load_stable_witness :
  let document := code_points "BLUEROUTE_MEMBERSHIP_V1" ++ [NEWLINE] ++ network_record demo_network (code_points "member")
     ++ [NEWLINE] ++ peer_record demo_network (mkPeer (fill_id 9) true true) in
  durable_registry demo_registry.
Proof. intros document. by apply (proj2 (membership_file_load_stable document) demo_registry true migrates_v1). Defined.
