(* ===== verification/PinFile.v ===== *)
(** The text of the peer-key pin file: [load] and [save] of
    [apps/daemon/src/peer_pin_store.rs].

    [DurableFs] holds the secret store the text goes to. *)

From S2P Require Import Prelude Order StateText Ident PeerPins.

Definition PIN_HEADER : list Z := code_points "BLUEROUTE_PEER_PINS_V1".
Definition PIN_MAX_BYTES : nat := 256 * 1024.
Definition PIN_MAX_RECORDS : nat := 128.

Definition pin_invalid (m : string) : CoreError := core_error PersistenceError m.

Definition decode_digest (text : list Z) : CoreResult SpkiSha256 :=
  map_err (fun _ => pin_invalid "peer key fingerprint must be canonical lowercase SHA-256 hex") (parse_canonical_hex text).

(** [fields.next().ok_or_else(...)?] *)
Definition pin_field (fields : list (list Z)) (m : string) : CoreResult (list Z * list (list Z)) :=
  match fields with f :: rest => Ok (f, rest) | [] => Err (pin_invalid m) end.

Definition load_pin_line (pins : PeerKeyPins) (line : list Z) : CoreResult PeerKeyPins :=
  guard_err (PIN_MAX_RECORDS <=? size pins) (pin_invalid "too many peer key pins")
  ('(f, fields) ← pin_field (split TAB line) "missing key pin network identity";
   network ← map_err (fun _ => pin_invalid "invalid key pin network identity") (id_from_str f);
   '(f, fields) ← pin_field fields "missing key pin node identity";
   node ← map_err (fun _ => pin_invalid "invalid key pin node identity") (id_from_str f);
   '(f, fields) ← pin_field fields "missing key pin fingerprint";
   fingerprint ← decode_digest f;
   guard_err (negb (bool_decide (fields = []))) (pin_invalid "unexpected key pin record fields")
   (match enroll_verified network node fingerprint pins with
    | (Ok true, pins) => Ok pins
    | (Ok false, _) => Err (pin_invalid "duplicate key pin record")
    | (Err _, _) => Err (pin_invalid "conflicting duplicate key pin")
    end)).

(** The stored bytes, if the file exists, to the pin table. *)
Definition load_pins (stored : option (list Z)) : CoreResult PeerKeyPins :=
  match stored with
  | None => Ok ∅
  | Some bytes =>
    guard_err (PIN_MAX_BYTES <? length bytes) (pin_invalid "peer-key pin file exceeds size limit")
    (_ ← ok_or (utf8_decode bytes) (pin_invalid "peer-key pin file is not valid UTF-8");
     let ls := lines bytes in
     guard_err (negb (bool_decide (head ls = Some PIN_HEADER)))
       (pin_invalid "missing or unsupported peer-key pin format version")
     (try_for_each load_pin_line ∅ (tail ls)))
  end.

Definition pin_record (e : NetworkId * NodeId * SpkiSha256) : list Z :=
  join TAB [id_to_string e.1.1; id_to_string e.1.2; to_canonical_hex e.2].

Definition pin_text (pins : PeerKeyPins) : list Z := unlines (PIN_HEADER :: (pin_record <$> entries pins)).

(** The bytes [save] hands to the secret store. *)
Definition save_pins (pins : PeerKeyPins) : CoreResult (list Z) :=
  guard_err (PIN_MAX_RECORDS <? size pins) (pin_invalid "too many peer key pins")
  (let text := pin_text pins in
   guard_err (PIN_MAX_BYTES <? length text) (pin_invalid "peer-key pin file exceeds size limit") (Ok text)).

(** ** Facts *)

(** A table the file can hold. *)
Definition storable (t : PeerKeyPins) : Prop :=
  pins_ok t /\ map_Forall (fun _ p => all_zero (spki p) = false) t /\ size t <= PIN_MAX_RECORDS.

Lemma pin_record_fields (e : NetworkId * NodeId * SpkiSha256) :
  Forall ascii_printable [id_to_string e.1.1; id_to_string e.1.2; to_canonical_hex e.2].
Proof.
  rewrite !Forall_cons, Forall_nil.
  split_and!; [apply hex_ascii, bytes_range|apply hex_ascii, bytes_range|apply hex_ascii, bytes_range|done].
Qed.

Lemma pin_record_printable (e : NetworkId * NodeId * SpkiSha256) : Forall printable [id_to_string e.1.1; id_to_string e.1.2; to_canonical_hex e.2].
Proof. eapply Forall_impl; [apply pin_record_fields|apply ascii_is_printable]. Qed.

Lemma pin_lines_plain pins : Forall plain_line (PIN_HEADER :: (pin_record <$> entries pins)).
Proof.
  constructor; [vm_compute; repeat constructor; by intros [=]|].
  apply Forall_fmap, Forall_true. intros e. apply join_plain, pin_record_printable.
Qed.

Lemma pin_text_ascii pins : ascii (pin_text pins).
Proof.
  apply unlines_ascii. constructor; [by apply ascii_printable_ascii, literal_ascii|].
  apply Forall_fmap, Forall_true. intros e. apply join_ascii, pin_record_fields.
Qed.

Lemma length_pin_record e : length (pin_record e) = 130.
Proof.
  unfold pin_record. cbn [join]. rewrite !length_app. cbn [length]. rewrite !length_app. cbn [length].
  unfold id_to_string, to_canonical_hex. rewrite !length_encode_hex, !bytes_length. done.
Qed.

Lemma length_pin_text pins : length (pin_text pins) = 23 + 131 * size pins.
Proof.
  assert (forall l, length (unlines (pin_record <$> l)) = 131 * length l) as Hl.
  { induction l as [|e l IH]; [done|]. change (unlines (pin_record <$> e :: l))
      with ((pin_record e ++ [NEWLINE]) ++ unlines (pin_record <$> l)).
    rewrite !length_app, IH, length_pin_record. cbn [length]. lia. }
  change (pin_text pins) with ((PIN_HEADER ++ [NEWLINE]) ++ unlines (pin_record <$> entries pins)).
  rewrite length_app, Hl. unfold entries. rewrite length_fmap, length_iter_map. done.
Qed.

Lemma load_pin_record acc n s p :
  size acc < PIN_MAX_RECORDS -> enroll_verified n s p acc = (Ok true, <[(n, s) := p]> acc) -> all_zero (spki p) = false ->
  load_pin_line acc (pin_record (n, s, p)) = Ok (<[(n, s) := p]> acc).
Proof.
  intros Hsz Hen Hz. unfold load_pin_line. rewrite (proj2 (Nat.leb_gt _ _)) by done. cbn [guard_err].
  unfold pin_record. rewrite split_record by first [apply (pin_record_printable (n, s, p))|done]. cbn [fst snd].
  cbn [pin_field mbind result_bind]. rewrite ?id_string_roundtrip. cbn [map_err mbind result_bind].
  rewrite ?id_string_roundtrip. cbn [map_err mbind result_bind]. unfold decode_digest.
  rewrite (proj2 (parse_canonical_hex_exact (to_canonical_hex p) p)) by done. cbn [map_err mbind result_bind].
  rewrite bool_decide_eq_true_2 by done. cbn [negb guard_err]. by rewrite Hen.
Qed.

(** The records of a table, read in any order into a part of it. *)
Lemma enroll_part t acc n s p :
  pins_ok t -> acc ⊆ t -> t !! (n, s) = Some p -> acc !! (n, s) = None ->
  enroll_verified n s p acc = (Ok true, <[(n, s) := p]> acc).
Proof.
  intros [Hz Hinj] Hsub Hp Hnone. unfold enroll_verified. rewrite (Hz n s p Hp).
  rewrite (proj2 (pin_taken_false n s p acc)).
  - by rewrite Hnone.
  - intros s' Hs'. symmetry. eapply (Hinj n s s' p); [done|]. by eapply lookup_weaken.
Qed.

Lemma load_pin_records t l acc :
  storable t -> acc ⊆ t -> NoDup l.*1 -> Forall (fun kp => t !! kp.1 = Some kp.2 /\ acc !! kp.1 = None) l ->
  size acc + length l <= PIN_MAX_RECORDS ->
  try_for_each load_pin_line acc (pin_record <$> ((fun kp => (kp.1.1, kp.1.2, kp.2)) <$> l)) = Ok (insert_all acc l).
Proof.
  intros (Hok & Hnz & _). revert acc. induction l as [|[[n s] p] l IH]; intros acc Hsub Hnd Hl Hlen; [done|].
  change ((((n, s), p) :: l).*1) with ((n, s) :: l.*1) in Hnd.
  apply NoDup_cons in Hnd as [Hk Hnd]. apply Forall_cons in Hl as [[Hp Hnone] Hl]. cbn [fst snd length] in *.
  cbn [fmap list_fmap try_for_each fst snd].
  rewrite load_pin_record; [|lia|by eapply enroll_part|by eapply (Hnz (n, s))]. cbn [mbind result_bind].
  change (insert_all acc (((n, s), p) :: l)) with (insert_all (<[(n, s) := p]> acc) l). apply IH; [|done| |].
  - by apply insert_subseteq_l.
  - rewrite Forall_forall in Hl. apply Forall_forall. intros [k q] Hq. destruct (Hl _ Hq) as [Hq1 Hq2]. split; [done|].
    cbn [fst snd] in *. rewrite lookup_insert_ne; [done|]. intros <-. apply Hk, list_elem_of_fmap. by exists ((n, s), q).
  - rewrite map_size_insert, Hnone. lia.
Qed.

Lemma load_pin_text t : storable t -> load_pins (Some (pin_text t)) = Ok t.
Proof.
  intros Ht. pose proof Ht as (_ & _ & Hsz). unfold load_pins.
  rewrite (proj2 (Nat.ltb_ge _ _)) by (rewrite length_pin_text; unfold PIN_MAX_BYTES, PIN_MAX_RECORDS in *; lia). cbn [guard_err].
  rewrite utf8_ascii by apply pin_text_ascii. cbn [ok_or mbind result_bind]. unfold pin_text.
  rewrite lines_unlines by apply pin_lines_plain. cbn [head tail]. rewrite bool_decide_eq_true_2 by done. cbn [negb guard_err].
  unfold entries. rewrite (load_pin_records t).
  - by rewrite insert_all_iter_map.
  - done.
  - apply map_empty_subseteq.
  - apply (NoDup_keys t).
  - apply Forall_forall. intros [k p] Hkp%elem_of_iter_map. split; [done|apply lookup_empty].
  - rewrite map_size_empty, length_iter_map. done.
Qed.

Lemma load_pin_line_storable t line t' : load_pin_line t line = Ok t' -> storable t -> storable t'.
Proof.
  intros H (Hok & Hnz & Hsz). unfold load_pin_line in H. apply guard_err_Ok in H as [Hlt%Nat.leb_gt H].
  apply result_bind_Ok in H as ([f1 fs1] & _ & H). apply result_bind_Ok in H as (n & _ & H).
  apply result_bind_Ok in H as ([f2 fs2] & _ & H). apply result_bind_Ok in H as (s & _ & H).
  apply result_bind_Ok in H as ([f3 fs3] & _ & H). apply result_bind_Ok in H as (p & Hp & H).
  apply guard_err_Ok in H as [_ H]. unfold decode_digest in Hp.
  destruct (parse_canonical_hex f3) as [p'|] eqn:Hhex; [|done]. injection Hp as ->.
  apply parse_canonical_hex_exact in Hhex as [_ Hz].
  pose proof (run_pin_op_ok t (OpEnroll n s p) Hok) as Hok'. cbn [run_pin_op] in Hok'.
  unfold enroll_verified in *. destruct (zero_identity n s); [done|]. destruct (pin_taken n s p t); [done|].
  destruct (t !! (n, s)) as [old|] eqn:Hold; [by case_bool_decide|]. injection H as <-. split; [exact Hok'|]. split.
  - by apply map_Forall_insert_2.
  - rewrite map_size_insert, Hold. simpl. lia.
Qed.

Lemma empty_storable : storable ∅.
Proof.
  split; [apply (run_pins_ok [])|]. split; [apply map_Forall_empty|]. rewrite map_size_empty. apply Nat.le_0_l.
Qed.

Lemma load_pins_storable stored t : load_pins stored = Ok t -> storable t.
Proof.
  unfold load_pins. destruct stored as [bytes|]; [|intros [= <-]; apply empty_storable].
  intros [_ (_ & _ & [_ H]%guard_err_Ok)%result_bind_Ok]%guard_err_Ok.
  eapply (try_for_each_inv (fun _ => storable)); [apply empty_storable| |exact H].
  intros pre l u u' Hu Hl _. by eapply load_pin_line_storable.
Qed.

(** The pin file round-trips and is canonical: every table of at most 128
    pins that enrollment can build is written, well below the size limit, and
    reads back as itself; a larger table is refused; and whatever the file
    holds, what is read from it is such a table: no zero identity, no zero
    fingerprint, and no two nodes of a network under one key. *)
Theorem pin_file_roundtrip (pins : PeerKeyPins) (Hok : pins_ok pins)
    (Hnz : map_Forall (fun _ p => all_zero (spki p) = false) pins) :
  ((exists text, save_pins pins = Ok text) <-> size pins <= PIN_MAX_RECORDS) /\
  (forall text, save_pins pins = Ok text -> length text <= 23 + 131 * PIN_MAX_RECORDS /\ load_pins (Some text) = Ok pins) /\
  (forall stored loaded, load_pins stored = Ok loaded -> storable loaded).
Proof.
  assert (forall text, save_pins pins = Ok text -> size pins <= PIN_MAX_RECORDS /\ text = pin_text pins) as Hs.
  { intros text [Hn%Nat.ltb_ge [_ [= <-]]%guard_err_Ok]%guard_err_Ok. done. }
  split_and!.
  - split; [by intros [text [? _]%Hs]|]. intros Hsz. exists (pin_text pins). unfold save_pins.
    rewrite (proj2 (Nat.ltb_ge _ _)) by done. cbn [guard_err].
    rewrite (proj2 (Nat.ltb_ge _ _)); [done|]. rewrite length_pin_text. unfold PIN_MAX_BYTES, PIN_MAX_RECORDS in *. lia.
  - intros text [Hsz ->]%Hs. split; [rewrite length_pin_text; unfold PIN_MAX_RECORDS in *; lia|]. by apply load_pin_text.
  - intros stored loaded. apply load_pins_storable.
Qed.

Definition demo_pins : PeerKeyPins := {[ (fill_id 1, fill_id 2) := mkSpki (fill_bytes 32 5) ]}.
Lemma pin_file_roundtrip_witness :
  pins_ok demo_pins /\ exists text, save_pins demo_pins = Ok text /\ load_pins (Some text) = Ok demo_pins.
Proof.
  assert (pins_ok demo_pins) as Hok by (change demo_pins with (run_pins [OpEnroll (fill_id 1) (fill_id 2) (mkSpki (fill_bytes 32 5))]); apply run_pins_ok).
  split; [done|]. destruct (pin_file_roundtrip demo_pins Hok) as (Hiff & Hrt & _).
  - by apply map_Forall_singleton.
  - destruct (proj2 Hiff) as [text Ht]; [by apply Nat.leb_le|]. exists text. split; [done|]. by apply Hrt.
Defined.
