(* ===== verification/HostFs.v ===== *)
(** The file system under the durable stores.

    A store owns one directory.  [FS] is what is visible there: the directory
    itself under [None] and its entries under [Some name].  Every system call is
    one step: other processes act first ([env]), then the call either fails with
    an error the operating system chose ([fault]; a failing write may have
    written a part) or does what POSIX says of it.  The log keeps the visible
    states before and after each of our own steps, so that a property of every
    intermediate state, and hence of every moment a crash may come, can be
    stated. *)

From S2P Require Import Prelude Ident.

Inductive IoError := IoNotFound | IoAlreadyExists | IoOther (code : Z).
#[global] Instance IoError_eq_dec : EqDecision IoError.
Proof. solve_decision. Defined.

(** A file has its permission bits, its bytes, and whether they were synced to
    the device; anything else that is not a directory only has what reading
    through it gives. *)
Inductive fs_node :=
| RegularFile (mode : Z) (data : list Z) (synced : bool)
| Directory (mode : Z)
| OtherNode (mode : Z) (behind : list Z).

Definition is_file (n : fs_node) : bool := if n is RegularFile _ _ _ then true else false.
Definition is_dir (n : fs_node) : bool := if n is Directory _ then true else false.
Definition node_mode (n : fs_node) : Z :=
  match n with RegularFile m _ _ | Directory m | OtherNode m _ => m end.
Definition with_mode (mode : Z) (n : fs_node) : fs_node :=
  match n with
  | RegularFile _ d s => RegularFile mode d s
  | Directory _ => Directory mode
  | OtherNode _ b => OtherNode mode b
  end.

Abbreviation path := (option string).
Abbreviation FS := (gmap path fs_node).

Record Host := mkHost {
  fs : FS;
  tick : nat;
  next_temp_file : Z;
  log : list (FS * FS);
}.

Abbreviation sys := (stres Host IoError).

(** [let _ = m;]: the outcome is ignored. *)
Definition ignore {E F A : Type} (m : stres Host E A) : stres Host F () := fun h => (Ok (), (m h).2).

(** The rest of the machine: what other processes do before our [n]-th call,
    which of our calls fail and how, how much a failing write has written, and
    the process's umask and identifier. *)
Class World := {
  env : nat -> FS -> FS;
  fault : nat -> option IoError;
  partial : nat -> nat;
  umask : Z;
  pid : Z;
}.

(** [match m { ... }] on the outcome of a call. *)
Definition st_try {E F A B : Type} (m : stres Host E A) (k : result E A -> stres Host F B) : stres Host F B := fun h =>
  let (r, h') := m h in k r h'.

Section calls.
Context `{World}.

Definition syscall {A : Type} (failed : FS -> FS) (f : FS -> result IoError A * FS) : sys A := fun h =>
  let pre := env (tick h) (fs h) in
  let (r, post) := match fault (tick h) with Some e => (Err e, failed pre) | None => f pre end in
  (r, mkHost post (S (tick h)) (next_temp_file h) (log h ++ [(pre, post)])).
Abbreviation call := (syscall (fun s => s)).

Definition symlink_metadata (p : path) : sys fs_node :=
  call (fun s => (ok_or (s !! p) IoNotFound, s)).
Definition set_permissions (p : path) (mode : Z) : sys () :=
  call (fun s => match s !! p with Some n => (Ok (), <[p := with_mode mode n]> s) | None => (Err IoNotFound, s) end).
Definition read_file (p : path) : sys (list Z) :=
  call (fun s => (match s !! p with
    | Some (RegularFile _ d _) => Ok d
    | Some (OtherNode _ b) => Ok b
    | Some (Directory _) => Err (IoOther 21)
    | None => Err IoNotFound end, s)).
(** [DirBuilder::recursive(true).mode(m).create]: an existing directory stays. *)
Definition create_dir_all (p : path) (mode : Z) : sys () :=
  call (fun s => match s !! p with
    | Some n => (if is_dir n then Ok () else Err IoAlreadyExists, s)
    | None => (Ok (), <[p := Directory (Z.land mode (Z.lnot umask))]> s) end).
(** [OpenOptions::write(true).create_new(true).mode(m).open]. *)
Definition create_new (p : path) (mode : Z) : sys () :=
  call (fun s => match s !! p with
    | Some _ => (Err IoAlreadyExists, s)
    | None => (Ok (), <[p := RegularFile (Z.land mode (Z.lnot umask)) [] false]> s) end).
Definition put_data (p : path) (data : list Z) (s : FS) : FS :=
  match s !! p with Some (RegularFile m _ _) => <[p := RegularFile m data false]> s | _ => s end.
(** [write_all] to a fresh file: it is complete or failed after a part. *)
Definition write_all (p : path) (data : list Z) : sys () := fun h =>
  syscall (put_data p (take (partial (tick h)) data)) (fun s => (Ok (), put_data p data s)) h.
Definition sync_all (p : path) : sys () :=
  call (fun s => match s !! p with
    | Some (RegularFile m d _) => (Ok (), <[p := RegularFile m d true]> s)
    | _ => (Ok (), s) end).
Definition rename (src dst : path) : sys () :=
  call (fun s => match s !! src with
    | None => (Err IoNotFound, s)
    | Some n => if (if s !! dst is Some d then is_dir d else false) then (Err (IoOther 21), s)
                else (Ok (), <[dst := n]> (delete src s)) end).
Definition hard_link (src dst : path) : sys () :=
  call (fun s => match s !! src, s !! dst with
    | None, _ => (Err IoNotFound, s)
    | Some _, Some _ => (Err IoAlreadyExists, s)
    | Some n, None => (Ok (), <[dst := n]> s) end).
Definition remove_file (p : path) : sys () :=
  call (fun s => match s !! p with
    | None => (Err IoNotFound, s)
    | Some n => if is_dir n then (Err (IoOther 21), s) else (Ok (), delete p s) end).
(** [File::open(directory)] and its [sync_all]. *)
Definition open_dir : sys () := call (fun s => (ok_or (if s !! None is Some n then Some () else None) IoNotFound, s)).
Definition sync_dir : sys () := let! _ := open_dir in call (fun s => (Ok (), s)).

(** [NEXT_TEMP_FILE.fetch_add(1)]: not a system call. *)
Definition fetch_temp_file {E : Type} : stres Host E Z := fun h =>
  (Ok (next_temp_file h), mkHost (fs h) (tick h) ((next_temp_file h + 1) mod 2 ^ 64) (log h)).

(** ** What our own steps do *)

(** [stepping R m]: every step [m] makes satisfies [R], whatever the other
    processes do and whichever calls fail. *)
Definition steps_of (R : FS -> FS -> Prop) (h h' : Host) : Prop :=
  exists l, log h' = log h ++ l /\ Forall (fun s => R s.1 s.2) l.
Definition stepping {E A : Type} (R : FS -> FS -> Prop) (m : stres Host E A) : Prop :=
  forall h, steps_of R h (m h).2.

Lemma steps_refl R h h' : log h' = log h -> steps_of R h h'.
Proof. intros Hl. exists []. by rewrite Hl, app_nil_r. Qed.
Lemma steps_trans R h1 h2 h3 : steps_of R h1 h2 -> steps_of R h2 h3 -> steps_of R h1 h3.
Proof.
  intros (l & Hl & HR) (k & Hk & HR'). exists (l ++ k). rewrite Hk, Hl, app_assoc. split; [done|by apply Forall_app].
Qed.
Lemma steps_weaken (R R' : FS -> FS -> Prop) h h' :
  (forall s t, R s t -> R' s t) -> steps_of R h h' -> steps_of R' h h'.
Proof. intros Hw (l & Hl & HR). exists l. split; [done|]. eapply Forall_impl; [exact HR|]. intros s. apply Hw. Qed.

Lemma stepping_bind {E A B : Type} R (m : stres Host E A) (k : A -> stres Host E B) :
  stepping R m -> (forall a, stepping R (k a)) -> stepping R (st_bind m k).
Proof.
  intros Hm Hk h. unfold st_bind. specialize (Hm h). destruct (m h) as [[a|e] h1]; [|done].
  eapply steps_trans; [exact Hm|]. apply Hk.
Qed.
Lemma stepping_map_err {E F A : Type} R (f : E -> F) (m : stres Host E A) : stepping R m -> stepping R (st_map_err f m).
Proof. intros Hm h. unfold st_map_err. specialize (Hm h). by destruct (m h). Qed.
Lemma stepping_try {E F A B : Type} R (m : stres Host E A) (k : result E A -> stres Host F B) :
  stepping R m -> (forall r, stepping R (k r)) -> stepping R (st_try m k).
Proof.
  intros Hm Hk h. unfold st_try. specialize (Hm h). destruct (m h) as [r h1]. eapply steps_trans; [exact Hm|]. apply Hk.
Qed.
Lemma stepping_ignore {E F A : Type} R (m : stres Host E A) : stepping R m -> stepping R (@ignore E F A m).
Proof. intros Hm h. apply Hm. Qed.
Lemma stepping_ret {E A : Type} R (a : A) : stepping R (@st_ret Host E A a).
Proof. intros h. by apply steps_refl. Qed.
Lemma stepping_lift {E A : Type} R (r : result E A) : stepping R (@st_lift Host E A r).
Proof. intros h. by apply steps_refl. Qed.
Lemma stepping_fail {E A : Type} R (e : E) : stepping R (@st_fail Host E A e).
Proof. intros h. by apply steps_refl. Qed.
Lemma stepping_fetch {E : Type} R : stepping R (@fetch_temp_file E).
Proof. intros h. by apply steps_refl. Qed.
Lemma stepping_weaken {E A : Type} (R R' : FS -> FS -> Prop) (m : stres Host E A) :
  (forall s t, R s t -> R' s t) -> stepping R m -> stepping R' m.
Proof. intros Hw Hm h. by eapply steps_weaken. Qed.

(** One call. *)
Lemma syscall_steps {A : Type} (R : FS -> FS -> Prop) (failed : FS -> FS) (f : FS -> result IoError A * FS) h :
  R (env (tick h) (fs h)) (syscall failed f h).2.(fs) -> steps_of R h (syscall failed f h).2.
Proof.
  unfold syscall. destruct (match fault (tick h) with Some e => _ | None => _ end) as [r post]. cbn [snd fs].
  intros HR. exists [(env (tick h) (fs h), post)]. split; [done|]. by constructor.
Qed.

(** A step changes only [p]. *)
Definition only (p : path) (s t : FS) : Prop := forall q, q <> p -> t !! q = s !! q.

Lemma only_refl p s : only p s s.
Proof. by intros q. Qed.
Lemma only_insert p n s : only p s (<[p := n]> s).
Proof. intros q Hq. by rewrite lookup_insert_ne. Qed.
Lemma only_delete p s : only p s (delete p s).
Proof. intros q Hq. by rewrite lookup_delete_ne. Qed.

Lemma stepping_syscall {A : Type} (R : FS -> FS -> Prop) (failed : FS -> FS) (f : FS -> result IoError A * FS) :
  (forall s, R s (failed s)) -> (forall s, R s (f s).2) -> stepping R (syscall failed f).
Proof.
  intros Hfail Hf h. apply syscall_steps. unfold syscall. destruct (fault (tick h)); [apply Hfail|].
  specialize (Hf (env (tick h) (fs h))). by destruct (f _).
Qed.

Lemma put_data_only p data s : only p s (put_data p data s).
Proof. unfold put_data. destruct (s !! p) as [[]|]; apply only_insert || apply only_refl. Qed.

Lemma symlink_metadata_steps p : stepping eq (symlink_metadata p).
Proof. by apply stepping_syscall. Qed.
Lemma read_file_steps p : stepping eq (read_file p).
Proof. by apply stepping_syscall. Qed.
Lemma sync_dir_steps : stepping eq sync_dir.
Proof. apply stepping_bind; [by apply stepping_syscall|]. intros _. by apply stepping_syscall. Qed.
Lemma set_permissions_steps p mode : stepping (only p) (set_permissions p mode).
Proof.
  apply stepping_syscall; [apply only_refl|]. intros s. destruct (s !! p); apply only_insert || apply only_refl.
Qed.
Lemma create_dir_all_steps p mode : stepping (only p) (create_dir_all p mode).
Proof.
  apply stepping_syscall; [apply only_refl|]. intros s. destruct (s !! p); apply only_insert || apply only_refl.
Qed.
Lemma create_new_steps p mode : stepping (only p) (create_new p mode).
Proof.
  apply stepping_syscall; [apply only_refl|]. intros s. destruct (s !! p); apply only_insert || apply only_refl.
Qed.
Lemma write_all_steps p data : stepping (only p) (write_all p data).
Proof. intros h. apply stepping_syscall; intros s; apply put_data_only. Qed.
Lemma sync_all_steps p : stepping (only p) (sync_all p).
Proof.
  apply stepping_syscall; [apply only_refl|]. intros s. destruct (s !! p) as [[]|]; apply only_insert || apply only_refl.
Qed.
Lemma remove_file_steps p : stepping (only p) (remove_file p).
Proof.
  apply stepping_syscall; [apply only_refl|]. intros s. destruct (s !! p) as [n|]; [|apply only_refl].
  destruct (is_dir n); apply only_delete || apply only_refl.
Qed.
End calls.

Create HintDb stepping.
#[export] Hint Resolve stepping_ret stepping_lift stepping_fail stepping_fetch symlink_metadata_steps read_file_steps
  sync_dir_steps set_permissions_steps create_dir_all_steps create_new_steps write_all_steps sync_all_steps
  remove_file_steps : stepping.

