(* ===== verification/SecretStore.v ===== *)
(** The secret store: [crates/blueroute-linux/src/secret_store.rs], over the
    file system of [HostFs]. *)

From stdpp Require Import pretty.
From S2P Require Import Prelude Ident HostFs.

Definition SECRET_DIRECTORY_MODE : Z := 0x1C0.
Definition SECRET_FILE_MODE : Z := 0x180.
Definition TEMP_ATTEMPTS : nat := 128.

Definition persistence_error (m : string) (_ : IoError) : CoreError :=
  core_error_with_diagnostic PersistenceError m "{error}".

(** One normal path component. *)
Definition valid_component (name : string) : bool :=
  negb (bool_decide (name = "")) && negb (bool_decide (name = ".")) && negb (bool_decide (name = ".."))
  && negb (existsb (Ascii.eqb (Ascii.ascii_of_nat 47)) (String.list_ascii_of_string name)).

Definition secret_path (name : string) : CoreResult path :=
  guard_err (negb (valid_component name)) (core_error InvalidInput "secret name must be one normal path component")
  (Ok (Some name)).

Section store.
Context `{World}.

Abbreviation host A := (stres Host CoreError A).

Definition enforce_directory_permissions (current_mode : Z) : host () :=
  if (Z.land current_mode 0x1FF =? SECRET_DIRECTORY_MODE)%Z then st_ret ()
  else st_map_err (persistence_error "failed to secure the secret store directory")
         (set_permissions None SECRET_DIRECTORY_MODE).

Definition enforce_file_permissions (p : path) (current_mode : Z) : host () :=
  if (Z.land current_mode 0x1FF =? SECRET_FILE_MODE)%Z then st_ret ()
  else st_map_err (persistence_error "failed to secure a persisted secret file") (set_permissions p SECRET_FILE_MODE).

Definition not_a_directory : CoreError := core_error PersistenceError "secret store path is not a directory".
Definition not_a_regular_file : CoreError := core_error PersistenceError "persisted secret path is not a regular file".

Definition ensure_secure_directory : host () :=
  st_try (symlink_metadata None) (fun r => match r with
  | Ok n => if is_dir n then enforce_directory_permissions (node_mode n) else st_fail not_a_directory
  | Err IoNotFound =>
    let! _ := st_map_err (persistence_error "failed to create the secret store directory")
      (create_dir_all None SECRET_DIRECTORY_MODE) in
    let! n := st_map_err (persistence_error "failed to inspect the secret store directory") (symlink_metadata None) in
    if is_dir n then enforce_directory_permissions (node_mode n) else st_fail not_a_directory
  | Err e => st_fail (persistence_error "failed to inspect the secret store directory" e)
  end).

Definition validate_destination (p : path) : host () :=
  st_try (symlink_metadata p) (fun r => match r with
  | Ok n => if is_file n then st_ret () else st_fail not_a_regular_file
  | Err IoNotFound => st_ret ()
  | Err e => st_fail (persistence_error "failed to inspect a persisted secret file" e)
  end).

Definition temp_name (name : string) (sequence : Z) : string :=
  "." +:+ name +:+ ".tmp-" +:+ pretty pid +:+ "-" +:+ pretty sequence.

Definition temporary_path (name : string) : host path :=
  let! _ := st_lift (secret_path name) in
  let! sequence := fetch_temp_file in
  st_ret (Some (temp_name name sequence)).

Fixpoint create_temporary_loop (attempts : nat) (name : string) : host path :=
  match attempts with
  | O => st_fail (core_error PersistenceError "could not allocate a unique temporary secret file")
  | S attempts' =>
    let! p := temporary_path name in
    st_try (create_new p SECRET_FILE_MODE) (fun r => match r with
    | Ok _ => st_ret p
    | Err IoAlreadyExists => let! _ := ignore (remove_file p) in create_temporary_loop attempts' name
    | Err e => st_fail (persistence_error "failed to create a temporary secret file" e)
    end)
  end.
Definition create_temporary_file (name : string) : host path := create_temporary_loop TEMP_ATTEMPTS name.

Definition sync_directory : host () :=
  st_map_err (persistence_error "failed to sync the secret store directory") sync_dir.

(** [file.write_all(secret).and_then(|()| file.sync_all())] *)
Definition write_and_sync (p : path) (secret : list Z) : sys () := let! _ := write_all p secret in sync_all p.

Definition write_temporary_and_replace (name : string) (destination : path) (secret : list Z) : host () :=
  let! temporary_path := create_temporary_file name in
  st_try (write_and_sync temporary_path secret) (fun r => match r with
  | Err e =>
    let! _ := ignore (remove_file temporary_path) in
    st_fail (persistence_error "failed to persist secret material" e)
  | Ok _ =>
    st_try (rename temporary_path destination) (fun r => match r with
    | Err e =>
      let! _ := ignore (remove_file temporary_path) in
      st_fail (persistence_error "failed to replace persisted secret" e)
    | Ok _ => sync_directory
    end)
  end).

Definition secret_load (name : string) : host (option (list Z)) :=
  let! p := st_lift (secret_path name) in
  let! _ := ensure_secure_directory in
  st_try (symlink_metadata p) (fun r => match r with
  | Err IoNotFound => st_ret None
  | Err e => st_fail (persistence_error "failed to inspect a persisted secret file" e)
  | Ok n =>
    if negb (is_file n) then st_fail not_a_regular_file
    else
      let! _ := enforce_file_permissions p (node_mode n) in
      let! bytes := st_map_err (persistence_error "failed to read a persisted secret") (read_file p) in
      st_ret (Some bytes)
  end).

Definition secret_save (name : string) (secret : list Z) : host () :=
  let! p := st_lift (secret_path name) in
  let! _ := ensure_secure_directory in
  let! _ := validate_destination p in
  write_temporary_and_replace name p secret.

Definition remove_temporary (p : path) : host () :=
  st_map_err (persistence_error "failed to remove the temporary secret file") (remove_file p).

Definition save_if_absent (name : string) (secret : list Z) : host bool :=
  let! p := st_lift (secret_path name) in
  let! _ := ensure_secure_directory in
  let! temporary_path := create_temporary_file name in
  st_try (write_and_sync temporary_path secret) (fun r => match r with
  | Err e =>
    let! _ := ignore (remove_file temporary_path) in
    st_fail (persistence_error "failed to persist secret material" e)
  | Ok _ =>
    st_try (hard_link temporary_path p) (fun r => match r with
    | Ok _ =>
      let! _ := remove_temporary temporary_path in
      let! _ := sync_directory in
      st_ret true
    | Err IoAlreadyExists => let! _ := remove_temporary temporary_path in st_ret false
    | Err e =>
      let! _ := ignore (remove_file temporary_path) in
      st_fail (persistence_error "failed to create a new secret file" e)
    end)
  end).

(** ** What a store may do to its directory *)

Definition temp_of (name : string) (p : path) : Prop := exists sequence, p = Some (temp_name name sequence).

(** Other processes leave this process's temporary files alone. *)
Definition spares_temporaries (name : string) : Prop :=
  forall n s p, temp_of name p -> env n s !! p = s !! p.

(** [secret] complete, synced and owner-only. *)
Definition complete (secret : list Z) (n : fs_node) : Prop :=
  exists mode, n = RegularFile mode secret true /\ Z.land mode 0x3F = 0%Z.

Definition elsewhere (name : string) (s t : FS) : Prop :=
  forall p, p <> None -> ~ temp_of name p -> p <> Some name -> t !! p = s !! p.

Definition installs (name : string) (secret : list Z) (s t : FS) : Prop :=
  exists n, t !! Some name = Some n /\ complete secret n.

(** A step of [save] and of [save_if_absent]. *)
Definition replaces (name : string) (secret : list Z) (s t : FS) : Prop :=
  elsewhere name s t /\ (t !! Some name = s !! Some name \/ installs name secret s t).
Definition fills (name : string) (secret : list Z) (s t : FS) : Prop :=
  elsewhere name s t /\ (t !! Some name = s !! Some name \/ (s !! Some name = None /\ installs name secret s t)).

Definition leaves (name : string) (s t : FS) : Prop := elsewhere name s t /\ t !! Some name = s !! Some name.

(** *** Facts *)

Lemma length_app_string (a b : string) : String.length (a +:+ b) = String.length a + String.length b.
Proof. induction a as [|c a IH]; simpl; [done|]. by rewrite IH. Qed.

Lemma temp_name_other name sequence : temp_name name sequence <> name.
Proof.
  intros Heq. apply (f_equal String.length) in Heq. unfold temp_name in Heq. rewrite !length_app_string in Heq.
  simpl in Heq. lia.
Qed.

Lemma only_leaves name p s t : only p s t -> p = None \/ temp_of name p -> leaves name s t.
Proof.
  intros Ho Hp. split.
  - intros q Hq1 Hq2 Hq3. apply Ho. intros ->. by destruct Hp.
  - apply Ho. intros <-. destruct Hp as [|[seq [= Heq]]]; [done|]. by destruct (temp_name_other name seq).
Qed.
Lemma eq_leaves name s t : s = t -> leaves name s t.
Proof. by intros <-. Qed.
Lemma leaves_replaces name secret s t : leaves name s t -> replaces name secret s t.
Proof. intros [??]. split; [done|by left]. Qed.
Lemma leaves_fills name secret s t : leaves name s t -> fills name secret s t.
Proof. intros [??]. split; [done|by left]. Qed.

Lemma stepping_dir {A : Type} name (m : sys A) : stepping (only None) m -> stepping (leaves name) m.
Proof. apply stepping_weaken. intros s t Ho. eapply only_leaves; [done|by left]. Qed.
Lemma stepping_temp {A : Type} name p (m : sys A) : temp_of name p -> stepping (only p) m -> stepping (leaves name) m.
Proof. intros Hp. apply stepping_weaken. intros s t Ho. eapply only_leaves; [done|by right]. Qed.
Lemma stepping_read {A : Type} name (m : sys A) : stepping eq m -> stepping (leaves name) m.
Proof. apply stepping_weaken, eq_leaves. Qed.

Lemma enforce_directory_leaves name mode : stepping (leaves name) (enforce_directory_permissions mode).
Proof.
  unfold enforce_directory_permissions. destruct (_ =? _)%Z; [apply stepping_ret|].
  apply stepping_map_err, stepping_dir, set_permissions_steps.
Qed.

Lemma ensure_secure_leaves name : stepping (leaves name) ensure_secure_directory.
Proof.
  unfold ensure_secure_directory. apply stepping_try; [apply stepping_read, symlink_metadata_steps|].
  intros [n|[| |c]]; try apply stepping_fail.
  - destruct (is_dir n); [apply enforce_directory_leaves|apply stepping_fail].
  - apply stepping_bind; [apply stepping_map_err, stepping_dir, create_dir_all_steps|]. intros _.
    apply stepping_bind; [apply stepping_map_err, stepping_read, symlink_metadata_steps|]. intros n.
    destruct (is_dir n); [apply enforce_directory_leaves|apply stepping_fail].
Qed.

Lemma validate_leaves name p : stepping (leaves name) (validate_destination p).
Proof.
  unfold validate_destination. apply stepping_try; [apply stepping_read, symlink_metadata_steps|].
  intros [n|[| |c]]; try apply stepping_fail; [destruct (is_file n)|]; apply stepping_ret || apply stepping_fail.
Qed.

Lemma remove_leaves {F : Type} name p : temp_of name p -> stepping (leaves name) (@ignore IoError F () (remove_file p)).
Proof. intros Hp. by eapply stepping_ignore, stepping_temp, remove_file_steps. Qed.

Lemma create_temporary_leaves attempts name : stepping (leaves name) (create_temporary_loop attempts name).
Proof.
  induction attempts as [|attempts IH]; cbn [create_temporary_loop]; [apply stepping_fail|].
  intros h. unfold temporary_path, st_bind, st_lift, fetch_temp_file, st_ret.
  destruct (secret_path name); [|by apply steps_refl].
  set (h0 := mkHost _ _ _ _). eapply (steps_trans _ _ h0); [by apply steps_refl|].
  assert (temp_of name (Some (temp_name name (next_temp_file h)))) as Ht by (by eexists).
  apply stepping_try; [eapply stepping_temp, create_new_steps; done|].
  intros [[]|[| |c]]; try apply stepping_fail; [apply stepping_ret|].
  apply stepping_bind; [by apply remove_leaves|done].
Qed.

(** *** A complete temporary file *)

Lemma private_mode : Z.land (Z.land SECRET_FILE_MODE (Z.lnot umask)) 0x3F = 0%Z.
Proof.
  rewrite <- Z.land_assoc, (Z.land_comm (Z.lnot umask)), Z.land_assoc. by change (Z.land SECRET_FILE_MODE 0x3F) with 0%Z.
Qed.

Lemma create_temporary_Ok attempts name h p h' :
  create_temporary_loop attempts name h = (Ok p, h') ->
  temp_of name p /\ fs h' !! p = Some (RegularFile (Z.land SECRET_FILE_MODE (Z.lnot umask)) [] false).
Proof.
  revert h. induction attempts as [|attempts IH]; intros h; cbn [create_temporary_loop]; [done|].
  unfold temporary_path, st_bind at 1, st_bind at 1, st_bind at 1, st_lift, fetch_temp_file, st_ret at 1.
  destruct (secret_path name); [|done]. set (h0 := mkHost _ _ _ _). set (q := Some (temp_name name (next_temp_file h))).
  unfold st_try, create_new, syscall. destruct (fault (tick h0)) as [[| |c]|]; try done.
  - unfold st_bind, ignore. intros Hrun. by eapply IH.
  - destruct (env (tick h0) (fs h0) !! q) as [n|] eqn:Hq.
    + unfold st_bind, ignore. intros Hrun. by eapply IH.
    + intros [= <- <-]. split; [by eexists|]. apply lookup_insert_eq.
Qed.

Lemma write_and_sync_Ok name p secret h h' mode d b :
  spares_temporaries name -> temp_of name p -> fs h !! p = Some (RegularFile mode d b) ->
  write_and_sync p secret h = (Ok (), h') -> fs h' !! p = Some (RegularFile mode secret true).
Proof.
  intros Hq Hp Hf. unfold write_and_sync, st_bind, write_all, sync_all, syscall.
  destruct (fault (tick h)); [done|]. cbn [tick fs]. unfold put_data. rewrite (Hq _ _ _ Hp), Hf.
  destruct (fault (S (tick h))); [done|]. rewrite (Hq _ _ _ Hp), lookup_insert_eq. intros [= <-]. apply lookup_insert_eq.
Qed.

Lemma write_and_sync_leaves name p secret : temp_of name p -> stepping (leaves name) (write_and_sync p secret).
Proof.
  intros Hp. apply stepping_bind; [by eapply stepping_temp, write_all_steps|]. intros _.
  by eapply stepping_temp, sync_all_steps.
Qed.

Definition installed (name : string) (secret : list Z) (h h' : Host) : Prop :=
  exists l, log h' = log h ++ l /\ Exists (fun s => installs name secret s.1 s.2) l.

Lemma installed_after R name secret h1 h2 h3 : steps_of R h1 h2 -> installed name secret h2 h3 -> installed name secret h1 h3.
Proof.
  intros (l & Hl & _) (k & Hk & Hin). exists (l ++ k). rewrite Hk, Hl, app_assoc. split; [done|].
  apply Exists_app. by right.
Qed.
Lemma installed_before R name secret h1 h2 h3 : installed name secret h1 h2 -> steps_of R h2 h3 -> installed name secret h1 h3.
Proof.
  intros (l & Hl & Hin) (k & Hk & _). exists (l ++ k). rewrite Hk, Hl, app_assoc. split; [done|].
  apply Exists_app. by left.
Qed.

Lemma temp_not_dest name p : temp_of name p -> p <> Some name.
Proof. intros [seq ->] [= Heq]. by apply (temp_name_other name seq). Qed.

(** The one step that touches the destination. *)
Lemma rename_replaces name p secret h mode :
  spares_temporaries name -> temp_of name p -> fs h !! p = Some (RegularFile mode secret true) -> Z.land mode 0x3F = 0%Z ->
  let '(r, h') := rename p (Some name) h in
  match r with
  | Ok _ => steps_of (replaces name secret) h h' /\ installed name secret h h'
  | Err _ => steps_of (leaves name) h h'
  end.
Proof.
  intros Hq Hp Hf Hm. unfold rename, syscall. set (pre := env (tick h) (fs h)).
  assert (leaves name pre pre) as Hsame by done.
  destruct (fault (tick h)); [exists [(pre, pre)]; by repeat constructor|].
  assert (pre !! p = Some (RegularFile mode secret true)) as Hpre by (unfold pre; by rewrite (Hq _ _ _ Hp)).
  rewrite Hpre. destruct (if pre !! Some name is Some d then is_dir d else false); [exists [(pre, pre)]; by repeat constructor|].
  assert (installs name secret pre (<[Some name := RegularFile mode secret true]> (delete p pre))) as Hinst.
  { exists (RegularFile mode secret true). split; [apply lookup_insert_eq|by exists mode]. }
  split; eexists; (split; [reflexivity|]); constructor; cbn [fst snd]; [|constructor|done].
  split; [|by right]. intros q _ Hq2 Hq3. rewrite lookup_insert_ne, lookup_delete_ne by congruence. done.
Qed.

Lemma hard_link_fills name p secret h mode :
  spares_temporaries name -> temp_of name p -> fs h !! p = Some (RegularFile mode secret true) -> Z.land mode 0x3F = 0%Z ->
  let '(r, h') := hard_link p (Some name) h in
  match r with
  | Ok _ => steps_of (fills name secret) h h' /\ installed name secret h h'
  | Err _ => steps_of (leaves name) h h'
  end.
Proof.
  intros Hq Hp Hf Hm. unfold hard_link, syscall. set (pre := env (tick h) (fs h)).
  assert (leaves name pre pre) as Hsame by done.
  destruct (fault (tick h)); [exists [(pre, pre)]; by repeat constructor|].
  assert (pre !! p = Some (RegularFile mode secret true)) as Hpre by (unfold pre; by rewrite (Hq _ _ _ Hp)).
  rewrite Hpre. destruct (pre !! Some name) as [d|] eqn:Hd; [exists [(pre, pre)]; by repeat constructor|].
  assert (installs name secret pre (<[Some name := RegularFile mode secret true]> pre)) as Hinst.
  { exists (RegularFile mode secret true). split; [apply lookup_insert_eq|by exists mode]. }
  split; eexists; (split; [reflexivity|]); constructor; cbn [fst snd]; [|constructor|done].
  split; [|by right]. intros q _ Hq2 Hq3. by rewrite lookup_insert_ne by congruence.
Qed.

Lemma leaves_replaces_steps name secret h h' : steps_of (leaves name) h h' -> steps_of (replaces name secret) h h'.
Proof. apply steps_weaken. intros s t. apply leaves_replaces. Qed.
Lemma leaves_fills_steps name secret h h' : steps_of (leaves name) h h' -> steps_of (fills name secret) h h'.
Proof. apply steps_weaken. intros s t. apply leaves_fills. Qed.

Lemma sync_directory_leaves name : stepping (leaves name) sync_directory.
Proof. apply stepping_map_err, stepping_read, sync_dir_steps. Qed.
Lemma sync_directory_err h e h' : sync_directory h = (Err e, h') -> message e = "failed to sync the secret store directory".
Proof. unfold sync_directory, st_map_err. destruct (sync_dir h) as [[[]|e'] h1]; [done|]. by intros [= <- _]. Qed.

(** Up to the point where the temporary file is complete, nothing happens to the
    destination. *)
Lemma temporary_ready name secret h p h1 h2 :
  spares_temporaries name -> create_temporary_file name h = (Ok p, h1) -> write_and_sync p secret h1 = (Ok (), h2) ->
  temp_of name p /\ steps_of (leaves name) h h2 /\
  exists mode, fs h2 !! p = Some (RegularFile mode secret true) /\ Z.land mode 0x3F = 0%Z.
Proof.
  intros Hq Hc Hw. unfold create_temporary_file in Hc. destruct (create_temporary_Ok _ _ _ _ _ Hc) as [Hp Hf].
  split; [done|]. split.
  - eapply steps_trans; [pose proof (create_temporary_leaves TEMP_ATTEMPTS name h) as Hl; by rewrite Hc in Hl|].
    pose proof (write_and_sync_leaves name p secret Hp h1) as Hl. by rewrite Hw in Hl.
  - eexists. split; [by eapply write_and_sync_Ok|apply private_mode].
Qed.

Lemma temporary_failed name secret h p h1 :
  create_temporary_file name h = (Ok p, h1) -> forall r h2, write_and_sync p secret h1 = (r, h2) ->
  temp_of name p /\ steps_of (leaves name) h h2.
Proof.
  intros Hc r h2 Hw. unfold create_temporary_file in Hc. destruct (create_temporary_Ok _ _ _ _ _ Hc) as [Hp _].
  split; [done|].
  eapply steps_trans; [pose proof (create_temporary_leaves TEMP_ATTEMPTS name h) as Hl; by rewrite Hc in Hl|].
  pose proof (write_and_sync_leaves name p secret Hp h1) as Hl. by rewrite Hw in Hl.
Qed.

Definition saved (name : string) (secret : list Z) (r : CoreResult ()) (h h' : Host) : Prop :=
  steps_of (replaces name secret) h h' /\
  match r with
  | Ok _ => installed name secret h h'
  | Err e => steps_of (leaves name) h h' \/
      (message e = "failed to sync the secret store directory" /\ installed name secret h h')
  end.

Lemma saved_unchanged name secret e h h' : steps_of (leaves name) h h' -> saved name secret (Err e) h h'.
Proof. intros Hl. split; [by apply leaves_replaces_steps|by left]. Qed.

Lemma saved_after name secret r h1 h2 h3 :
  steps_of (leaves name) h1 h2 -> saved name secret r h2 h3 -> saved name secret r h1 h3.
Proof.
  intros Hl [Hr Hs]. split; [eapply steps_trans; [by apply leaves_replaces_steps|done]|].
  destruct r as [[]|e]; [by eapply installed_after|]. destruct Hs as [Hs|[Hm Hs]]; [left|right].
  - by eapply steps_trans.
  - split; [done|by eapply installed_after].
Qed.

Lemma replace_saved name secret h :
  spares_temporaries name ->
  let '(r, h') := write_temporary_and_replace name (Some name) secret h in saved name secret r h h'.
Proof.
  intros Hq. unfold write_temporary_and_replace, st_bind at 1.
  destruct (create_temporary_file name h) as [[p|e] h1] eqn:Hc; cycle 1.
  { apply saved_unchanged. pose proof (create_temporary_leaves TEMP_ATTEMPTS name h) as Hl.
    unfold create_temporary_file in Hc. by rewrite Hc in Hl. }
  unfold st_try at 1. destruct (write_and_sync p secret h1) as [[[]|e] h2] eqn:Hw; cycle 1.
  { destruct (temporary_failed _ _ _ _ _ Hc _ _ Hw) as [Hp Hl]. apply saved_unchanged. cbn [snd ignore].
    eapply steps_trans; [exact Hl|]. eapply stepping_temp; [done|apply remove_file_steps]. }
  destruct (temporary_ready _ _ _ _ _ _ Hq Hc Hw) as (Hp & Hl & mode & Hf & Hm).
  pose proof (rename_replaces name p secret h2 mode Hq Hp Hf Hm) as Hr. unfold st_try.
  destruct (rename p (Some name) h2) as [[[]|e] h3]; cycle 1.
  { apply saved_unchanged. cbn [snd ignore]. eapply steps_trans; [exact Hl|]. eapply steps_trans; [exact Hr|].
    eapply stepping_temp; [done|apply remove_file_steps]. }
  pose proof (sync_directory_leaves name h3) as Hd. destruct Hr as [Hrep Hin].
  destruct (sync_directory h3) as [r h4] eqn:Hs. cbn [snd] in Hd.
  eapply saved_after; [exact Hl|]. split; [eapply steps_trans; [exact Hrep|by apply leaves_replaces_steps]|].
  destruct r as [[]|e]; [by eapply installed_before|right]. split; [by eapply sync_directory_err|by eapply installed_before].
Qed.

(** Checks ahead of a change. *)
Lemma saved_checks {A : Type} name secret (m : stres Host CoreError A) (k : A -> stres Host CoreError ()) h :
  stepping (leaves name) m ->
  (forall a h1, let '(r, h') := k a h1 in saved name secret r h1 h') ->
  let '(r, h') := st_bind m k h in saved name secret r h h'.
Proof.
  intros Hm Hk. unfold st_bind. specialize (Hm h). destruct (m h) as [[a|e] h1]; [|by apply saved_unchanged].
  specialize (Hk a h1). destruct (k a h1) as [r h']. by eapply saved_after.
Qed.

(** Once the name is checked. *)
Lemma secret_save_checked name secret h :
  valid_component name = true ->
  secret_save name secret h =
    st_bind ensure_secure_directory (fun _ => st_bind (validate_destination (Some name))
      (fun _ => write_temporary_and_replace name (Some name) secret)) h.
Proof. intros Hv. unfold secret_save, secret_path. by rewrite Hv. Qed.

Lemma save_if_absent_checked name secret h :
  valid_component name = true ->
  save_if_absent name secret h =
    st_bind ensure_secure_directory (fun _ => st_bind (create_temporary_file name) (fun temporary_path =>
      st_try (write_and_sync temporary_path secret) (fun r => match r with
      | Err e => let! _ := ignore (remove_file temporary_path) in st_fail (persistence_error "failed to persist secret material" e)
      | Ok _ => st_try (hard_link temporary_path (Some name)) (fun r => match r with
        | Ok _ => let! _ := remove_temporary temporary_path in let! _ := sync_directory in st_ret true
        | Err IoAlreadyExists => let! _ := remove_temporary temporary_path in st_ret false
        | Err e => let! _ := ignore (remove_file temporary_path) in st_fail (persistence_error "failed to create a new secret file" e)
        end)
      end))) h.
Proof. intros Hv. unfold save_if_absent, secret_path. by rewrite Hv. Qed.

(** C19. Saving a secret is atomic and private, whatever other processes do to
    everything but this process's temporary files, whichever system calls fail
    and wherever a failing write stops: every step of ours leaves the secret's
    file as it was or puts the complete, synced, owner-only new one in its place,
    and touches nothing but that file, the directory's permissions and the
    temporary files.  [Ok] means it was put there; an error means it was never
    touched, or that only syncing the directory failed. *)
Theorem secret_save_atomic (name : string) (secret : list Z) (h : Host) (Hq : spares_temporaries name) :
  saved name secret (secret_save name secret h).1 h (secret_save name secret h).2.
Proof.
  destruct (valid_component name) eqn:Hv.
  - rewrite secret_save_checked by done.
    assert (let '(r, h') := st_bind ensure_secure_directory (fun _ => st_bind (validate_destination (Some name))
      (fun _ => write_temporary_and_replace name (Some name) secret)) h in saved name secret r h h') as Hs.
    { apply saved_checks; [apply ensure_secure_leaves|]. intros _ h1. apply saved_checks; [apply validate_leaves|].
      intros _ h2. by apply replace_saved. }
    by destruct (st_bind _ _ h).
  - unfold secret_save, secret_path. rewrite Hv. by apply saved_unchanged, steps_refl.
Qed.

Definition filled (name : string) (secret : list Z) (r : CoreResult bool) (h h' : Host) : Prop :=
  steps_of (fills name secret) h h' /\
  match r with
  | Ok true => installed name secret h h'
  | Ok false => steps_of (leaves name) h h'
  | Err e => steps_of (leaves name) h h' \/ installed name secret h h'
  end.

Lemma filled_unchanged name secret r h h' : r <> Ok true -> steps_of (leaves name) h h' -> filled name secret r h h'.
Proof. intros Hr Hl. split; [by apply leaves_fills_steps|]. destruct r as [[]|e]; [done|done|by left]. Qed.

Lemma link_filled name secret h h2 p mode :
  spares_temporaries name -> temp_of name p -> steps_of (leaves name) h h2 ->
  fs h2 !! p = Some (RegularFile mode secret true) -> Z.land mode 0x3F = 0%Z ->
  let '(r, h') := st_try (hard_link p (Some name)) (fun r => match r with
        | Ok _ => let! _ := remove_temporary p in let! _ := sync_directory in st_ret true
        | Err IoAlreadyExists => let! _ := remove_temporary p in st_ret false
        | Err e => let! _ := ignore (remove_file p) in st_fail (persistence_error "failed to create a new secret file" e)
        end) h2 in filled name secret r h h'.
Proof.
  intros Hq Hp Hl Hf Hm. pose proof (hard_link_fills name p secret h2 mode Hq Hp Hf Hm) as Hr. unfold st_try.
  assert (forall h, steps_of (leaves name) h (remove_temporary p h).2) as Hrm.
  { intros h0. eapply stepping_map_err, stepping_temp, remove_file_steps; done. }
  assert (forall h, steps_of (leaves name) h (@remove_file _ p h).2) as Hrf.
  { intros h0. eapply stepping_temp, remove_file_steps; done. }
  destruct (hard_link p (Some name) h2) as [[[]|e] h3].
  - destruct Hr as [Hfill Hin]. unfold st_bind. specialize (Hrm h3).
    assert (filled name secret (Ok true) h h3) as [Hfill' Hin'].
    { split; [eapply steps_trans; [by apply leaves_fills_steps|done]|by eapply installed_after]. }
    destruct (remove_temporary p h3) as [[[]|e] h4]; cbn [snd] in Hrm; cycle 1.
    { split; [eapply steps_trans; [done|by apply leaves_fills_steps]|right; by eapply installed_before]. }
    pose proof (sync_directory_leaves name h4) as Hs. destruct (sync_directory h4) as [[[]|e] h5]; cbn [snd] in Hs.
    + split; [eapply steps_trans; [done|apply leaves_fills_steps; by eapply steps_trans]|].
      eapply installed_before; [|exact Hs]. by eapply installed_before.
    + split; [eapply steps_trans; [done|apply leaves_fills_steps; by eapply steps_trans]|right].
      eapply installed_before; [|exact Hs]. by eapply installed_before.
  - destruct e as [| |c]; unfold st_bind; cbn [ignore].
    + apply filled_unchanged; [done|]. eapply steps_trans; [exact Hl|]. eapply steps_trans; [exact Hr|apply Hrf].
    + specialize (Hrm h3). destruct (remove_temporary p h3) as [[[]|e] h4]; (apply filled_unchanged; [done|]);
        (eapply steps_trans; [exact Hl|]; by eapply steps_trans).
    + apply filled_unchanged; [done|]. eapply steps_trans; [exact Hl|]. eapply steps_trans; [exact Hr|apply Hrf].
Qed.

Lemma save_if_absent_filled name secret h :
  spares_temporaries name -> let '(r, h') := save_if_absent name secret h in filled name secret r h h'.
Proof.
  intros Hq. destruct (valid_component name) eqn:Hv; cycle 1.
  { unfold save_if_absent, secret_path. rewrite Hv. apply filled_unchanged; [done|]. by apply steps_refl. }
  rewrite save_if_absent_checked by done. unfold st_bind at 1.
  pose proof (ensure_secure_leaves name h) as He. destruct (ensure_secure_directory h) as [[[]|e] h1];
    cbn [fst snd] in *; [|by apply filled_unchanged].
  unfold st_bind at 1. destruct (create_temporary_file name h1) as [[p|e] h2] eqn:Hc; cycle 1.
  { apply filled_unchanged; [done|]. pose proof (create_temporary_leaves TEMP_ATTEMPTS name h1) as Hl.
    unfold create_temporary_file in Hc. rewrite Hc in Hl. by eapply steps_trans. }
  unfold st_try at 1. destruct (write_and_sync p secret h2) as [[[]|e] h3] eqn:Hw.
  - destruct (temporary_ready _ _ _ _ _ _ Hq Hc Hw) as (Hp & Hl & mode & Hf & Hm).
    apply (link_filled name secret h h3 p mode Hq Hp); [by eapply steps_trans|done|done].
  - destruct (temporary_failed _ _ _ _ _ Hc _ _ Hw) as [Hp Hl]. unfold st_bind. cbn [snd ignore].
    apply filled_unchanged; [done|]. eapply steps_trans; [exact He|]. eapply steps_trans; [exact Hl|].
    eapply stepping_temp; [done|apply remove_file_steps].
Qed.

(** Creating a secret only when absent never replaces one, whatever other
    processes do and whichever calls fail: every step of ours leaves the secret's
    file as it was or, where there was none, puts the complete, synced, owner-only
    one there.  [Ok(true)] means ours was put there, [Ok(false)] that none of our
    steps touched the file. *)
Theorem save_if_absent_never_replaces (name : string) (secret : list Z) (h : Host) (Hq : spares_temporaries name) :
  filled name secret (save_if_absent name secret h).1 h (save_if_absent name secret h).2.
Proof. pose proof (save_if_absent_filled name secret h Hq) as Hf. by destruct (save_if_absent name secret h). Qed.
End store.

(** ** Without interference *)

(** Nothing else happens and no call fails. *)
Class QuietWorld `{World} := {
  quiet_env n s : env n s = s;
  quiet_fault n : fault n = None;
}.

Section quiet.
Context `{QuietWorld}.

Definition usable_dir (s : FS) : Prop := match s !! None with Some n => is_dir n = true | None => True end.
Definition usable_entry (name : string) (s : FS) : Prop :=
  match s !! Some name with Some n => is_file n = true | None => True end.

Lemma syscall_quiet {A : Type} (failed : FS -> FS) (f : FS -> result IoError A * FS) h :
  exists h', syscall failed f h = ((f (fs h)).1, h') /\ fs h' = (f (fs h)).2 /\ next_temp_file h' = next_temp_file h.
Proof. unfold syscall. rewrite quiet_fault, quiet_env. destruct (f (fs h)) as [r t]. by eexists. Qed.

Lemma metadata_quiet p h :
  exists h', symlink_metadata p h = (ok_or (fs h !! p) IoNotFound, h') /\ fs h' = fs h /\ next_temp_file h' = next_temp_file h.
Proof. apply (syscall_quiet (fun s => s) (fun s => (ok_or (s !! p) IoNotFound, s))). Qed.

Lemma enforce_directory_quiet mode h n :
  fs h !! None = Some n -> is_dir n = true ->
  exists h', enforce_directory_permissions mode h = (Ok (), h') /\ usable_dir (fs h') /\ only None (fs h) (fs h') /\
    next_temp_file h' = next_temp_file h /\ is_Some (fs h' !! None).
Proof.
  intros Hn Hd. unfold enforce_directory_permissions. destruct (_ =? _)%Z.
  - exists h. split; [done|]. unfold usable_dir. rewrite Hn. split_and!; [done..|by eexists].
  - unfold st_map_err, set_permissions. match goal with |- context [syscall ?a ?f h] =>
      destruct (syscall_quiet a f h) as (h' & -> & Hfs & Hnt) end. rewrite Hn in *. cbn in *.
    exists h'. split; [done|]. unfold usable_dir. rewrite Hfs, lookup_insert_eq. split_and!.
    + by destruct n.
    + apply only_insert.
    + done.
    + by eexists.
Qed.

Lemma ensure_secure_quiet h :
  usable_dir (fs h) ->
  exists h', ensure_secure_directory h = (Ok (), h') /\ usable_dir (fs h') /\ only None (fs h) (fs h') /\
    next_temp_file h' = next_temp_file h /\ is_Some (fs h' !! None).
Proof.
  intros Hu. unfold ensure_secure_directory, st_try. destruct (metadata_quiet None h) as (h1 & -> & Hfs & Hnt).
  unfold usable_dir in Hu. destruct (fs h !! None) as [n|] eqn:Hn; cbn [ok_or].
  - rewrite Hu. destruct (enforce_directory_quiet (node_mode n) h1 n) as (h2 & -> & Hu2 & Ho & Hnt2 & Hs); [by rewrite Hfs|done|].
    exists h2. rewrite <- Hfs, <- Hnt. done.
  - unfold st_bind at 1, st_map_err at 1, create_dir_all. match goal with |- context [syscall ?a ?f h1] =>
      destruct (syscall_quiet a f h1) as (h2 & -> & Hfs2 & Hnt2) end. rewrite Hfs, Hn in *. cbn [fst snd map_err] in *.
    unfold st_bind at 1, st_map_err at 1. destruct (metadata_quiet None h2) as (h3 & -> & Hfs3 & Hnt3).
    rewrite Hfs2, lookup_insert_eq in *. cbn [ok_or map_err is_dir].
    match goal with |- context [enforce_directory_permissions ?m h3] =>
      destruct (enforce_directory_quiet m h3 (Directory (Z.land SECRET_DIRECTORY_MODE (Z.lnot umask))))
        as (h4 & -> & Hu4 & Ho & Hnt4 & Hs) end; [by rewrite Hfs3, lookup_insert_eq|done|].
    exists h4. split_and!; [done|done| |congruence|done].
    intros q Hq. rewrite (Ho q Hq), Hfs3. by rewrite lookup_insert_ne.
Qed.

Lemma validate_quiet name h :
  usable_entry name (fs h) -> exists h', validate_destination (Some name) h = (Ok (), h') /\ fs h' = fs h /\
    next_temp_file h' = next_temp_file h.
Proof.
  intros Hu. unfold validate_destination, st_try. destruct (metadata_quiet (Some name) h) as (h1 & -> & Hfs & Hnt).
  unfold usable_entry in Hu. exists h1. destruct (fs h !! Some name) as [n|]; cbn [ok_or]; [by rewrite Hu|done].
Qed.

Lemma create_temporary_quiet name h :
  valid_component name = true -> fs h !! Some (temp_name name (next_temp_file h)) = None ->
  exists h', create_temporary_file name h = (Ok (Some (temp_name name (next_temp_file h))), h') /\
    fs h' = <[Some (temp_name name (next_temp_file h)) :=
              RegularFile (Z.land SECRET_FILE_MODE (Z.lnot umask)) [] false]> (fs h).
Proof.
  intros Hv Hn. unfold create_temporary_file. change TEMP_ATTEMPTS with (S 127). cbn [create_temporary_loop].
  unfold st_bind at 1, temporary_path, st_bind at 1, st_lift, secret_path. rewrite Hv. cbn [negb guard_err].
  unfold st_bind at 1, fetch_temp_file, st_ret at 1. set (h0 := mkHost _ _ _ _). unfold st_try, create_new.
  match goal with |- context [syscall ?a ?f h0] => destruct (syscall_quiet a f h0) as (h1 & -> & Hfs & _) end.
  change (fs h0) with (fs h) in *. rewrite Hn in *. cbn [fst snd] in *. by exists h1.
Qed.

Lemma write_and_sync_quiet p secret h m d b :
  fs h !! p = Some (RegularFile m d b) ->
  exists h', write_and_sync p secret h = (Ok (), h') /\ fs h' = <[p := RegularFile m secret true]> (fs h).
Proof.
  intros Hp. unfold write_and_sync, st_bind, write_all.
  match goal with |- context [syscall ?a ?f h] => destruct (syscall_quiet a f h) as (h1 & -> & Hfs & _) end.
  unfold put_data in Hfs. rewrite Hp in Hfs. cbn [fst snd] in *. unfold sync_all.
  match goal with |- context [syscall ?a ?f h1] => destruct (syscall_quiet a f h1) as (h2 & -> & Hfs2 & _) end.
  rewrite Hfs, lookup_insert_eq in *. cbn [fst snd] in *. exists h2. split; [done|]. by rewrite Hfs2, insert_insert_eq.
Qed.

Lemma rename_quiet src dst n h :
  fs h !! src = Some n -> (match fs h !! dst with Some d => is_dir d | None => false end) = false ->
  exists h', rename src dst h = (Ok (), h') /\ fs h' = <[dst := n]> (delete src (fs h)).
Proof.
  intros Hs Hd. unfold rename.
  match goal with |- context [syscall ?a ?f h] => destruct (syscall_quiet a f h) as (h1 & -> & Hfs & _) end.
  rewrite Hs, Hd in *. by exists h1.
Qed.

Lemma sync_directory_quiet h :
  is_Some (fs h !! None) -> exists h', sync_directory h = (Ok (), h') /\ fs h' = fs h.
Proof.
  intros [n Hn]. unfold sync_directory, st_map_err, sync_dir, st_bind, open_dir.
  match goal with |- context [syscall ?a ?f h] => destruct (syscall_quiet a f h) as (h1 & -> & Hfs & _) end.
  rewrite Hn. cbn [fst snd ok_or] in *.
  match goal with |- context [syscall ?a ?f h1] => destruct (syscall_quiet a f h1) as (h2 & -> & Hfs2 & _) end.
  exists h2. split; [done|]. cbn in *. congruence.
Qed.

Lemma load_quiet name h m d b :
  valid_component name = true -> usable_dir (fs h) -> fs h !! Some name = Some (RegularFile m d b) ->
  (secret_load name h).1 = Ok (Some d).
Proof.
  intros Hv Hu Hf. unfold secret_load, st_bind at 1, st_lift, secret_path. rewrite Hv. cbn [negb guard_err].
  destruct (ensure_secure_quiet h Hu) as (h1 & He & _ & Ho & _). unfold st_bind at 1. rewrite He.
  unfold st_try. destruct (metadata_quiet (Some name) h1) as (h2 & -> & Hfs2 & _).
  rewrite (Ho (Some name)), Hf in * by done. cbn [ok_or is_file negb]. unfold st_bind at 1, enforce_file_permissions.
  assert (exists h3, (if (Z.land (node_mode (RegularFile m d b)) 511 =? SECRET_FILE_MODE)%Z then st_ret ()
     else st_map_err (persistence_error "failed to secure a persisted secret file")
            (set_permissions (Some name) SECRET_FILE_MODE)) h2 = (Ok (), h3) /\
     exists m' b', fs h3 !! Some name = Some (RegularFile m' d b')) as (h3 & -> & m' & b' & Hf3).
  { destruct (_ =? _)%Z; [exists h2; split; [done|]; exists m, b; by rewrite Hfs2, (Ho (Some name))|].
    unfold st_map_err, set_permissions.
    match goal with |- context [syscall ?a ?f h2] => destruct (syscall_quiet a f h2) as (h3 & -> & Hfs3 & _) end.
    rewrite Hfs2, (Ho (Some name)), Hf in * by done. cbn [fst snd map_err with_mode] in *. exists h3. split; [done|].
    eexists _, _. rewrite Hfs3. apply lookup_insert_eq. }
  unfold st_bind at 1, st_map_err, read_file.
  match goal with |- context [syscall ?a ?f h3] => destruct (syscall_quiet a f h3) as (h4 & -> & _) end.
  by rewrite Hf3.
Qed.

(** Without interference a saved secret is stored: where the directory and
    the file are what they should be or missing, saving succeeds, the temporary
    file is gone, and loading returns exactly the saved bytes. *)
Theorem secret_save_load (name : string) (secret : list Z) (h : Host)
    (Hv : valid_component name = true) (Hdir : usable_dir (fs h)) (Hentry : usable_entry name (fs h))
    (Htemp : fs h !! Some (temp_name name (next_temp_file h)) = None) :
  exists h', secret_save name secret h = (Ok (), h') /\ (secret_load name h').1 = Ok (Some secret) /\
    fs h' !! Some (temp_name name (next_temp_file h)) = None.
Proof.
  rewrite secret_save_checked by done. set (temp := Some (temp_name name (next_temp_file h))) in *.
  destruct (ensure_secure_quiet h Hdir) as (h1 & He & Hu1 & Ho & Hnt & Hsome). unfold st_bind at 1. rewrite He.
  assert (temp <> Some name) as Hne by (intros [= Heq]; by apply (temp_name_other name (next_temp_file h))).
  destruct (validate_quiet name h1) as (h2 & Hval & Hfs2 & Hnt2); [unfold usable_entry; by rewrite Ho|].
  unfold st_bind at 1. rewrite Hval. unfold write_temporary_and_replace, st_bind at 1.
  destruct (create_temporary_quiet name h2) as (h3 & Hc & Hfs3); [done|rewrite Hnt2, Hnt, Hfs2, Ho; done|].
  rewrite Hnt2, Hnt in Hc, Hfs3. fold temp in Hc, Hfs3. rewrite Hc. unfold st_try at 1.
  destruct (write_and_sync_quiet temp secret h3 (Z.land SECRET_FILE_MODE (Z.lnot umask)) [] false) as (h4 & Hw & Hfs4);
    [rewrite Hfs3; apply lookup_insert_eq|]. rewrite Hw. unfold st_try.
  destruct (rename_quiet temp (Some name) (RegularFile (Z.land SECRET_FILE_MODE (Z.lnot umask)) secret true) h4) as (h5 & Hr & Hfs5).
  { rewrite Hfs4. apply lookup_insert_eq. }
  { rewrite Hfs4, Hfs3, Hfs2, !lookup_insert_ne, Ho by done. unfold usable_entry in Hentry.
    destruct (fs h !! Some name) as [[]|]; done. }
  rewrite Hr. destruct (sync_directory_quiet h5) as (h6 & Hs & Hfs6).
  { rewrite Hfs5, lookup_insert_ne, lookup_delete_ne, Hfs4, Hfs3, Hfs2, !lookup_insert_ne by done. done. }
  rewrite Hs. exists h6. split; [done|].
  assert (fs h6 !! None = fs h1 !! None) as Hnone
    by (by rewrite Hfs6, Hfs5, lookup_insert_ne, lookup_delete_ne, Hfs4, Hfs3, Hfs2, !lookup_insert_ne by done).
  split; [|by rewrite Hfs6, Hfs5, lookup_insert_ne, lookup_delete_eq by done].
  eapply load_quiet; [done|unfold usable_dir; by rewrite Hnone|rewrite Hfs6, Hfs5; apply lookup_insert_eq].
Qed.
End quiet.

(** ** Examples *)

Definition calm_world : World := {| env := fun _ s => s; fault := fun _ => None; partial := fun _ => 0; umask := 18; pid := 4242 |}.
(** Another process keeps rewriting the secret, and the ninth call fails. *)
Definition busy_world : World :=
  {| env := fun _ s => <[Some "identity" := RegularFile 0x1A4 [1%Z] false]> s;
     fault := fun n => if bool_decide (n = 8) then Some (IoOther 5) else None;
     partial := fun _ => 1; umask := 18; pid := 4242 |}.
Definition empty_host : Host := mkHost ∅ 0 7 [].

Lemma busy_world_spares : @spares_temporaries busy_world "identity".
Proof.
  intros n s p [seq ->]. cbn [env busy_world]. rewrite lookup_insert_ne; [done|]. by intros [=].
Qed.

Lemma secret_save_atomic_witness :
  @spares_temporaries busy_world "identity" /\
  steps_of (@replaces busy_world "identity" [7; 8]%Z) empty_host (@secret_save busy_world "identity" [7; 8]%Z empty_host).2.
Proof.
  split; [exact busy_world_spares|].
  exact (proj1 (@secret_save_atomic busy_world "identity" [7; 8]%Z empty_host busy_world_spares)).
Defined.

Lemma save_if_absent_never_replaces_witness :
  @spares_temporaries busy_world "identity" /\
  steps_of (@fills busy_world "identity" [7; 8]%Z) empty_host (@save_if_absent busy_world "identity" [7; 8]%Z empty_host).2.
Proof.
  split; [exact busy_world_spares|].
  exact (proj1 (@save_if_absent_never_replaces busy_world "identity" [7; 8]%Z empty_host busy_world_spares)).
Defined.

#[local] Instance calm_quiet : @QuietWorld calm_world.
Proof. by split. Qed.

Lemma secret_save_load_witness :
  exists h', @secret_save calm_world "identity" [7; 8]%Z empty_host = (Ok (), h') /\
    (@secret_load calm_world "identity" h').1 = Ok (Some [7; 8]%Z).
Proof.
  destruct (@secret_save_load calm_world calm_quiet "identity" [7; 8]%Z empty_host) as (h' & Hs & Hl & _);
    [reflexivity|exact I|exact I|apply lookup_empty|]. exists h'. exact (conj Hs Hl).
Defined.
