(* ===== verification/DurableStores.v ===== *)
(** The membership store, the node identity and the pin store on disk: the file
    operations of [membership_store.rs] and [identity.rs] of
    [crates/blueroute-linux/src] and of [apps/daemon/src/peer_pin_store.rs].

    [HostFs] is the file system, [MembershipFile] and [PinFile] the texts. *)

From S2P Require Import Prelude StateText Ident Membership MembershipFile PeerPins PinFile HostFs SecretStore.

Definition MEMBERSHIP_FILE_MODE : Z := 0x180.
Definition IDENTITY_FILE_MODE : Z := 0x180.

Section stores.
Context `{World}.

Abbreviation host A := (stres Host CoreError A).

(** [current_mode & 0o077 == 0], else [chmod]. *)
Definition enforce_owner_only (m : string) (p : path) (file_mode current_mode : Z) : host () :=
  if (Z.land current_mode 0x3F =? 0)%Z then st_ret ()
  else st_map_err (persistence_error m) (set_permissions p file_mode).

(** [fs::read_to_string]: invalid UTF-8 is an error of the read. *)
Definition read_to_string (p : path) : sys (list Z) :=
  let! bytes := read_file p in
  st_lift (ok_or (if utf8_decode bytes is Some _ then Some bytes else None) (IoOther 22)).

(** ** Membership *)

Section membership.
Context (file_name : string).
Abbreviation file := (Some file_name).

Definition membership_not_file : CoreError :=
  core_error PersistenceError "network membership state path is not a regular file".

Definition ms_ensure_parent_directory : host () :=
  st_map_err (persistence_error "failed to create the network membership state directory") (create_dir_all None 0x1FF).

Definition ms_validate_destination : host () :=
  st_try (symlink_metadata file) (fun r => match r with
  | Ok n => if is_file n then st_ret () else st_fail membership_not_file
  | Err IoNotFound => st_ret ()
  | Err e => st_fail (persistence_error "failed to inspect the network membership state file" e)
  end).

Definition ms_temporary_path : host path :=
  let! sequence := fetch_temp_file in st_ret (Some (temp_name file_name sequence)).

Definition ms_sync_directory : host () :=
  st_map_err (persistence_error "failed to sync the membership state directory") sync_dir.

Definition ms_write_temporary_and_replace (temporary_path : path) (serialized : list Z) : host () :=
  let! _ := st_map_err (persistence_error "failed to create a temporary network membership state file")
    (create_new temporary_path MEMBERSHIP_FILE_MODE) in
  let! _ := st_map_err (persistence_error "failed to persist network membership state")
    (write_and_sync temporary_path serialized) in
  let! _ := st_map_err (persistence_error "failed to replace the network membership state file")
    (rename temporary_path file) in
  ms_sync_directory.

Definition ms_save_text (serialized : list Z) : host () :=
  let! _ := ms_ensure_parent_directory in
  let! _ := ms_validate_destination in
  let! temporary_path := ms_temporary_path in
  st_try (ms_write_temporary_and_replace temporary_path serialized) (fun r => match r with
  | Ok _ => st_ret ()
  | Err e => let! _ := ignore (remove_file temporary_path) in st_fail e
  end).

Definition ms_save (registry : MembershipRegistry) : host () :=
  let! serialized := st_lift (serialize_registry registry) in ms_save_text serialized.

Definition ms_load : host MembershipRegistry :=
  st_try (symlink_metadata file) (fun r => match r with
  | Err IoNotFound => st_ret (mkRegistry ∅)
  | Err e => st_fail (persistence_error "failed to inspect the network membership state file" e)
  | Ok n =>
    if negb (is_file n) then st_fail membership_not_file
    else
      let! _ := enforce_owner_only "failed to secure the network membership state file" file MEMBERSHIP_FILE_MODE (node_mode n) in
      let! text := st_map_err (persistence_error "failed to read the network membership state file") (read_to_string file) in
      let! migration := st_lift (migrate_to_current text) in
      let! registry := st_lift (parse_registry (serialized migration)) in
      let! _ := (if migrated migration then ms_save registry else st_ret ()) in
      st_ret registry
  end).
End membership.

(** ** The node identity *)

Section identity.
Context (file_name : string) (generate : host NodeId).
Abbreviation file := (Some file_name).

(** [strip_suffix('\n').unwrap_or(..)] *)
Definition strip_newline (l : list Z) : list Z :=
  match last l with Some c => if (c =? NEWLINE)%Z then removelast l else l | None => l end.

Definition load_existing : host (option NodeId) :=
  st_try (symlink_metadata file) (fun r => match r with
  | Err IoNotFound => st_ret None
  | Err e => st_fail (persistence_error "failed to inspect the stable node identity file" e)
  | Ok n =>
    if negb (is_file n) then st_fail (core_error PersistenceError "stable node identity path is not a regular file")
    else
      let! _ := enforce_owner_only "failed to secure the stable node identity file" file IDENTITY_FILE_MODE (node_mode n) in
      let! text := st_map_err (persistence_error "failed to read the stable node identity file") (read_to_string file) in
      let! identity := st_lift (map_err (fun _ => core_error_with_diagnostic PersistenceError
        "stable node identity file is malformed" "{error}") (id_from_str (strip_newline text))) in
      st_ret (Some identity)
  end).

Definition identity_ensure_parent : host () :=
  st_map_err (persistence_error "failed to create the node identity state directory") (create_dir_all None 0x1FF).

Definition load_or_create : host NodeId :=
  let! existing := load_existing in
  match existing with
  | Some identity => st_ret identity
  | None =>
    let! _ := identity_ensure_parent in
    let! identity := generate in
    st_try (create_new file IDENTITY_FILE_MODE) (fun r => match r with
    | Ok _ =>
      st_try (write_and_sync file (id_to_string identity ++ [NEWLINE])) (fun r => match r with
      | Err e =>
        let! _ := ignore (remove_file file) in
        st_fail (persistence_error "failed to persist the stable node identity" e)
      | Ok _ =>
        let! _ := st_map_err (persistence_error "failed to synchronize the node identity directory") sync_dir in
        st_ret identity
      end)
    | Err IoAlreadyExists =>
      let! existing := load_existing in
      st_lift (ok_or existing
        (core_error PersistenceError "node identity appeared during creation but could not be loaded"))
    | Err e => st_fail (persistence_error "failed to create the stable node identity file" e)
    end)
  end.
End identity.

(** ** The pin store *)

Definition PIN_FILE_NAME : string := "peer-key-pins-v1".

Definition pin_store_load : host PeerKeyPins :=
  let! stored := secret_load PIN_FILE_NAME in st_lift (load_pins stored).

Definition pin_store_save (pins : PeerKeyPins) : host () :=
  let! text := st_lift (save_pins pins) in secret_save PIN_FILE_NAME text.

(** ** Every step *)

Lemma ms_sync_leaves name : stepping (leaves name) ms_sync_directory.
Proof. apply stepping_map_err, stepping_read, sync_dir_steps. Qed.
Lemma ms_sync_err h e h' : ms_sync_directory h = (Err e, h') -> message e = "failed to sync the membership state directory".
Proof. unfold ms_sync_directory, st_map_err. destruct (sync_dir h) as [[[]|e'] h1]; [done|]. by intros [= <- _]. Qed.

(** The outcome of a save: see [SecretStore.saved]; here the temporary file is
    also removed after a failed directory sync. *)
Definition ms_saved (name : string) (text : list Z) (r : CoreResult ()) (h h' : Host) : Prop :=
  steps_of (replaces name text) h h' /\
  match r with
  | Ok _ => installed name text h h'
  | Err e => steps_of (leaves name) h h' \/
      (message e = "failed to sync the membership state directory" /\ installed name text h h')
  end.

Lemma ms_saved_unchanged name text e h h' : steps_of (leaves name) h h' -> ms_saved name text (Err e) h h'.
Proof. intros Hl. split; [by apply leaves_replaces_steps|by left]. Qed.

Lemma ms_saved_after name text r h1 h2 h3 :
  steps_of (leaves name) h1 h2 -> ms_saved name text r h2 h3 -> ms_saved name text r h1 h3.
Proof.
  intros Hl [Hr Hs]. split; [eapply steps_trans; [by apply leaves_replaces_steps|done]|].
  destruct r as [[]|e]; [by eapply installed_after|]. destruct Hs as [Hs|[Hm Hs]]; [left|right].
  - by eapply steps_trans.
  - split; [done|by eapply installed_after].
Qed.

Lemma ms_saved_cleanup name text e h h1 h2 :
  ms_saved name text (Err e) h h1 -> steps_of (leaves name) h1 h2 -> ms_saved name text (Err e) h h2.
Proof.
  intros [Hr Hs] Hl. split; [eapply steps_trans; [exact Hr|by apply leaves_replaces_steps]|].
  destruct Hs as [Hs|[Hm Hs]]; [left; by eapply steps_trans|right]. split; [done|by eapply installed_before].
Qed.

Lemma create_new_Ok name p mode h h' :
  temp_of name p -> create_new p mode h = (Ok (), h') ->
  fs h' !! p = Some (RegularFile (Z.land mode (Z.lnot umask)) [] false).
Proof.
  intros Hp. unfold create_new, syscall. destruct (fault (tick h)); [done|].
  destruct (env (tick h) (fs h) !! p); [done|]. intros [= <-]. apply lookup_insert_eq.
Qed.

Lemma ms_replace_saved name p text h :
  spares_temporaries name -> temp_of name p ->
  let '(r, h') := ms_write_temporary_and_replace name p text h in ms_saved name text r h h'.
Proof.
  intros Hq Hp. unfold ms_write_temporary_and_replace. unfold st_bind at 1, st_map_err at 1.
  pose proof (create_new_steps p MEMBERSHIP_FILE_MODE) as Hc. apply (stepping_temp name) in Hc; [|done]. specialize (Hc h).
  destruct (create_new p MEMBERSHIP_FILE_MODE h) as [[[]|e] h1] eqn:Hcr; cbn [map_err snd] in *; [|by apply ms_saved_unchanged].
  apply (create_new_Ok name) in Hcr; [|done]. unfold st_bind at 1, st_map_err at 1.
  pose proof (write_and_sync_leaves name p text Hp h1) as Hw.
  destruct (write_and_sync p text h1) as [[[]|e] h2] eqn:Hwr; cbn [map_err snd] in *;
    [|by eapply ms_saved_unchanged, steps_trans].
  apply (write_and_sync_Ok name _ _ _ _ _ _ _ Hq Hp Hcr) in Hwr.
  pose proof (rename_replaces name p text h2 _ Hq Hp Hwr private_mode) as Hr. unfold st_bind at 1, st_map_err at 1.
  destruct (rename p (Some name) h2) as [[[]|e] h3]; cbn [map_err]; cycle 1.
  { apply ms_saved_unchanged. eapply steps_trans; [exact Hc|]. by eapply steps_trans. }
  pose proof (ms_sync_leaves name h3) as Hd. destruct Hr as [Hrep Hin].
  destruct (ms_sync_directory h3) as [r h4] eqn:Hs. cbn [snd] in Hd.
  eapply ms_saved_after; [exact Hc|]. eapply ms_saved_after; [exact Hw|].
  split; [eapply steps_trans; [exact Hrep|by apply leaves_replaces_steps]|].
  destruct r as [[]|e]; [by eapply installed_before|right]. split; [by eapply ms_sync_err|by eapply installed_before].
Qed.

Lemma ms_save_text_saved name text h :
  spares_temporaries name -> let '(r, h') := ms_save_text name text h in ms_saved name text r h h'.
Proof.
  intros Hq. unfold ms_save_text. unfold st_bind at 1.
  assert (stepping (leaves name) ms_ensure_parent_directory) as He
    by (apply stepping_map_err, stepping_dir, create_dir_all_steps). specialize (He h).
  destruct (ms_ensure_parent_directory h) as [[[]|e] h1]; cbn [snd] in He; [|by apply ms_saved_unchanged].
  unfold st_bind at 1.
  assert (stepping (leaves name) (ms_validate_destination name)) as Hv.
  { apply stepping_try; [apply stepping_read, symlink_metadata_steps|].
    intros [n|[| |c]]; try apply stepping_fail; [destruct (is_file n)|]; apply stepping_ret || apply stepping_fail. }
  specialize (Hv h1). destruct (ms_validate_destination name h1) as [[[]|e] h2]; cbn [snd] in Hv;
    [|by eapply ms_saved_unchanged, steps_trans].
  unfold st_bind at 1, ms_temporary_path, st_bind at 1, fetch_temp_file, st_ret at 1. set (h3 := mkHost _ _ _ _).
  assert (temp_of name (Some (temp_name name (next_temp_file h2)))) as Hp by (by eexists).
  set (p := Some (temp_name name (next_temp_file h2))) in *.
  pose proof (ms_replace_saved name p text h3 Hq Hp) as Hr. unfold st_try.
  assert (steps_of (leaves name) h h3) as Hl by (eapply steps_trans; [exact He|]; eapply steps_trans; [exact Hv|by apply steps_refl]).
  destruct (ms_write_temporary_and_replace name p text h3) as [[[]|e] h4]; [by eapply ms_saved_after|].
  unfold st_bind. cbn [ignore snd]. eapply ms_saved_cleanup; [by eapply ms_saved_after|].
  eapply stepping_temp; [exact Hp|apply remove_file_steps].
Qed.

(** Saving the membership registry is atomic: whatever other processes do to
    everything but this process's temporary files and whichever calls fail, a
    registry that cannot be written touches nothing, and otherwise every step of
    ours leaves the state file as it was or puts the complete, synced, owner-only
    text of the registry there; [Ok] means it was put there, an error that the
    file was never touched or only the directory sync failed. *)
Theorem membership_save_atomic (name : string) (registry : MembershipRegistry) (h : Host) (Hq : spares_temporaries name) :
  match serialize_registry registry with
  | Err e => ms_save name registry h = (Err e, h)
  | Ok text => ms_saved name text (ms_save name registry h).1 h (ms_save name registry h).2
  end.
Proof.
  unfold ms_save, st_bind, st_lift. destruct (serialize_registry registry) as [text|e]; [|done].
  pose proof (ms_save_text_saved name text h Hq) as Hs. by destruct (ms_save_text name text h).
Qed.
End stores.

(** ** Without interference *)

Section quiet.
Context `{QuietWorld}.

Lemma ensure_parent_quiet m h :
  usable_dir (fs h) ->
  exists h', st_map_err (persistence_error m) (create_dir_all None 0x1FF) h = (Ok (), h') /\ only None (fs h) (fs h') /\
    is_Some (fs h' !! None) /\ next_temp_file h' = next_temp_file h.
Proof.
  intros Hu. unfold st_map_err, create_dir_all.
  match goal with |- context [syscall ?a ?f h] => destruct (syscall_quiet a f h) as (h1 & -> & Hfs & Hnt) end.
  unfold usable_dir in Hu. destruct (fs h !! None) as [n|] eqn:Hn; cbn [fst snd] in *.
  - rewrite Hu. exists h1. rewrite Hfs. split_and!; [done..|by exists n|done].
  - exists h1. rewrite Hfs. split_and!; [done|apply only_insert|by rewrite lookup_insert_eq; eexists|done].
Qed.

Lemma ms_validate_quiet name h :
  usable_entry name (fs h) -> exists h', ms_validate_destination name h = (Ok (), h') /\ fs h' = fs h /\
    next_temp_file h' = next_temp_file h.
Proof.
  intros Hu. unfold ms_validate_destination, st_try. destruct (metadata_quiet (Some name) h) as (h1 & -> & Hfs & Hnt).
  unfold usable_entry in Hu. exists h1. destruct (fs h !! Some name) as [n|]; cbn [ok_or]; [by rewrite Hu|done].
Qed.

Lemma create_new_quiet p mode h :
  fs h !! p = None ->
  exists h', create_new p mode h = (Ok (), h') /\ fs h' = <[p := RegularFile (Z.land mode (Z.lnot umask)) [] false]> (fs h).
Proof.
  intros Hp. unfold create_new.
  match goal with |- context [syscall ?a ?f h] => destruct (syscall_quiet a f h) as (h1 & -> & Hfs & Hnt) end.
  rewrite Hp in *. by exists h1.
Qed.

Lemma sync_dir_quiet h : is_Some (fs h !! None) -> exists h', sync_dir h = (Ok (), h') /\ fs h' = fs h.
Proof.
  intros Hn. destruct (sync_directory_quiet h Hn) as (h' & Hs & Hfs). unfold sync_directory, st_map_err in Hs.
  destruct (sync_dir h) as [[[]|e] h1]; [|done]. injection Hs as <-. by exists h1.
Qed.

(** The host after [text] went into the state file. *)
Definition stored_text (name : string) (text : list Z) (h : Host) : Prop :=
  usable_dir (fs h) /\ exists mode, fs h !! Some name = Some (RegularFile mode text true) /\ Z.land mode 0x3F = 0%Z.

Lemma ms_save_text_quiet name text h :
  usable_dir (fs h) -> usable_entry name (fs h) -> fs h !! Some (temp_name name (next_temp_file h)) = None ->
  exists h', ms_save_text name text h = (Ok (), h') /\ stored_text name text h'.
Proof.
  intros Hdir Hentry Htemp. unfold ms_save_text, ms_ensure_parent_directory.
  destruct (ensure_parent_quiet "failed to create the network membership state directory" h Hdir) as (h1 & He & Ho & Hsome & Hnt).
  unfold st_bind at 1. rewrite He.
  destruct (ms_validate_quiet name h1) as (h2 & Hv & Hfs2 & Hnt2); [unfold usable_entry; by rewrite Ho|].
  unfold st_bind at 1. rewrite Hv.
  unfold st_bind at 1, ms_temporary_path, st_bind at 1, fetch_temp_file, st_ret at 1. rewrite Hnt2, Hnt.
  set (temp := Some (temp_name name (next_temp_file h))) in *. set (h3 := mkHost _ _ _ _).
  assert (temp <> Some name) as Hne by (apply temp_not_dest; by eexists).
  assert (fs h3 = fs h1) as Hfs3 by done.
  unfold st_try, ms_write_temporary_and_replace. unfold st_bind at 1, st_map_err at 1.
  destruct (create_new_quiet temp MEMBERSHIP_FILE_MODE h3) as (h4 & -> & Hfs4); [by rewrite Hfs3, Ho|]. cbn [map_err].
  unfold st_bind at 1, st_map_err at 1.
  destruct (write_and_sync_quiet temp text h4 (Z.land MEMBERSHIP_FILE_MODE (Z.lnot umask)) [] false) as (h5 & -> & Hfs5);
    [rewrite Hfs4; apply lookup_insert_eq|]. cbn [map_err]. unfold st_bind at 1, st_map_err at 1.
  destruct (rename_quiet temp (Some name) (RegularFile (Z.land MEMBERSHIP_FILE_MODE (Z.lnot umask)) text true) h5) as (h6 & -> & Hfs6).
  { rewrite Hfs5. apply lookup_insert_eq. }
  { rewrite Hfs5, Hfs4, Hfs3, !lookup_insert_ne, Ho by done. unfold usable_entry in Hentry.
    destruct (fs h !! Some name) as [[]|]; done. }
  cbn [map_err]. unfold ms_sync_directory, st_map_err.
  assert (fs h6 !! None = fs h1 !! None) as Hnone
    by (by rewrite Hfs6, lookup_insert_ne, lookup_delete_ne, Hfs5, Hfs4, Hfs3, !lookup_insert_ne by done).
  destruct (sync_dir_quiet h6) as (h7 & -> & Hfs7); [by rewrite Hnone|]. cbn [map_err]. exists h7. split; [done|].
  split.
  - unfold usable_dir. rewrite Hfs7, Hnone. destruct Hsome as [n Hn]. rewrite Hn. revert He. unfold st_map_err, create_dir_all.
    match goal with |- context [syscall ?a ?f h] => destruct (syscall_quiet a f h) as (h1' & -> & Hfs & _) end.
    unfold usable_dir in Hdir. destruct (fs h !! None) as [d|] eqn:Hd; cbn [fst snd map_err] in *.
    + rewrite Hdir. intros [= <-]. rewrite Hfs, Hd in Hn. injection Hn as <-. done.
    + intros [= <-]. rewrite Hfs, lookup_insert_eq in Hn. by injection Hn as <-.
  - eexists. rewrite Hfs7, Hfs6. split; [apply lookup_insert_eq|apply private_mode].
Qed.

(** What [load] does with a file that reads as [outcome]. *)
Lemma ms_load_quiet name h mode doc b r migrated :
  fs h !! Some name = Some (RegularFile mode doc b) -> is_Some (utf8_decode doc) -> load_document doc = Ok (r, migrated) ->
  exists h1, fs h1 !! Some name <> None /\ usable_entry name (fs h1) /\ only (Some name) (fs h) (fs h1) /\
    next_temp_file h1 = next_temp_file h /\
    ms_load name h = (let! _ := (if migrated then ms_save name r else st_ret ()) in st_ret r) h1.
Proof.
  intros Hf [chars Hutf] Hload. unfold ms_load, st_try.
  destruct (metadata_quiet (Some name) h) as (h1 & -> & Hfs1 & Hnt1). rewrite Hf. cbn [ok_or is_file negb].
  unfold st_bind at 1.
  assert (exists h2, enforce_owner_only "failed to secure the network membership state file" (Some name) MEMBERSHIP_FILE_MODE
     (node_mode (RegularFile mode doc b)) h1 = (Ok (), h2) /\ only (Some name) (fs h) (fs h2) /\ next_temp_file h2 = next_temp_file h /\
     exists m', fs h2 !! Some name = Some (RegularFile m' doc b)) as (h2 & -> & Ho & Hnt & m' & Hf2).
  { unfold enforce_owner_only. destruct (_ =? _)%Z.
    - exists h1. rewrite Hfs1. split_and!; [done..|by exists mode].
    - unfold st_map_err, set_permissions.
      match goal with |- context [syscall ?a ?f h1] => destruct (syscall_quiet a f h1) as (h2 & -> & Hfs2 & Hnt2) end.
      rewrite Hfs1, Hf in *. cbn [fst snd map_err with_mode] in *. exists h2. rewrite Hfs2. split_and!; [done|apply only_insert|congruence|].
      eexists. apply lookup_insert_eq. }
  unfold st_bind at 1, st_map_err, read_to_string, st_bind at 1, read_file.
  match goal with |- context [syscall ?a ?f h2] => destruct (syscall_quiet a f h2) as (h3 & -> & Hfs3 & Hnt3) end.
  rewrite Hf2 in *. cbn [fst snd] in *. unfold st_lift at 1. rewrite Hutf. cbn [ok_or map_err].
  apply result_bind_Ok in Hload as (m & Hm & (r' & Hp & [= <- <-])%result_bind_Ok).
  unfold st_bind at 1, st_lift at 1. rewrite Hm. unfold st_bind at 1, st_lift at 1. rewrite Hp.
  exists h3. rewrite Hfs3. split_and!; [by rewrite Hf2|unfold usable_entry; by rewrite Hf2|done|congruence|done].
Qed.

Lemma ms_load_stored name text r h :
  stored_text name text h -> ascii text -> load_document text = Ok (r, false) -> (ms_load name h).1 = Ok r.
Proof.
  intros (_ & mode & Hf & _) Ha Hl.
  destruct (ms_load_quiet name h mode text true r false Hf) as (h1 & _ & _ & _ & _ & Hrun);
    [rewrite utf8_ascii by done; by eexists|done|]. by rewrite Hrun.
Qed.

(** The membership store keeps what it is given: without interference, a
    registry without transient states and zero identities is written and a later
    load returns exactly it; a state file of an older schema is migrated on load,
    rewritten once, and the next load returns the same registry from the current
    schema. *)
Theorem membership_store_durable (name : string) (h : Host) (r : MembershipRegistry)
    (Hr : registry_keyed r) (Hdir : usable_dir (fs h)) (Hentry : usable_entry name (fs h))
    (Htemp : fs h !! Some (temp_name name (next_temp_file h)) = None) :
  (durable_registry r ->
     exists h', ms_save name r h = (Ok (), h') /\ (ms_load name h').1 = Ok r) /\
  (~ durable_registry r -> exists e, ms_save name r h = (Err e, h)) /\
  (forall mode document b r', fs h !! Some name = Some (RegularFile mode document b) ->
     is_Some (utf8_decode document) -> load_document document = Ok (r', true) ->
     exists h' text, ms_load name h = (Ok r', h') /\ stored_text name text h' /\
       load_document text = Ok (r', false) /\ (ms_load name h').1 = Ok r').
Proof.
  assert (forall r h, durable_registry r -> usable_dir (fs h) -> usable_entry name (fs h) ->
    fs h !! Some (temp_name name (next_temp_file h)) = None ->
    exists h' text, ms_save name r h = (Ok (), h') /\ stored_text name text h' /\ load_document text = Ok (r, false) /\
      (ms_load name h').1 = Ok r) as Hsave.
  { intros r0 h0 Hd Hdir0 Hentry0 Htemp0.
    destruct (proj2 (serialize_registry_durable r0 (durable_keyed r0 Hd)) Hd) as [text Ht].
    destruct (ms_save_text_quiet name text h0) as (h1 & Hs & Hst); [done..|]. exists h1, text.
    pose proof (load_serialized r0 text Hd Ht) as Hl. unfold ms_save, st_bind at 1, st_lift. rewrite Ht. split; [done|]. split; [done|].
    split; [done|]. eapply ms_load_stored; [done| |done]. rewrite (serialize_registry_text _ _ Ht). by apply document_ascii. }
  split; [|split].
  - intros Hd. destruct (Hsave r h Hd) as (h' & text & Hs & _ & _ & Hl); [done..|]. by exists h'.
  - intros Hd. unfold ms_save, st_bind, st_lift. destruct (serialize_registry r) as [text|e] eqn:Ht; [|by exists e].
    destruct Hd. apply serialize_registry_durable; [done|by exists text].
  - intros mode document b r' Hf Hutf Hl.
    destruct (ms_load_quiet name h mode document b r' true Hf Hutf Hl) as (h1 & _ & Hentry1 & Ho & Hnt & Hrun).
    pose proof (load_document_durable _ _ _ Hl) as Hd.
    destruct (Hsave r' h1 Hd) as (h' & text & Hs & Hst & Ht & Hl').
    + unfold usable_dir. by rewrite (Ho None).
    + done.
    + rewrite Hnt, Ho; [done|]. apply temp_not_dest. by eexists.
    + exists h', text. rewrite Hrun. unfold st_bind. rewrite Hs. done.
Qed.

(** *** The node identity *)

Lemma strip_newline_snoc l : strip_newline (l ++ [NEWLINE]) = l.
Proof. unfold strip_newline. rewrite last_snoc, Z.eqb_refl. apply removelast_last. Qed.

Lemma load_existing_absent name h :
  fs h !! Some name = None -> exists h', load_existing name h = (Ok None, h') /\ fs h' = fs h.
Proof.
  intros Hf. unfold load_existing, st_try. destruct (metadata_quiet (Some name) h) as (h1 & -> & Hfs & _).
  rewrite Hf. by exists h1.
Qed.

Lemma load_existing_present name h mode text b :
  fs h !! Some name = Some (RegularFile mode text b) -> is_Some (utf8_decode text) ->
  exists h', fs h' !! Some name <> None /\ (exists mode', fs h' !! Some name = Some (RegularFile mode' text b)) /\
    load_existing name h = (match id_from_str (strip_newline text) with
      | Ok id => Ok (Some id)
      | Err _ => Err (core_error_with_diagnostic PersistenceError "stable node identity file is malformed" "{error}") end, h').
Proof.
  intros Hf [chars Hutf]. unfold load_existing, st_try. destruct (metadata_quiet (Some name) h) as (h1 & -> & Hfs1 & _).
  rewrite Hf. cbn [ok_or is_file negb]. unfold st_bind at 1.
  assert (exists h2, enforce_owner_only "failed to secure the stable node identity file" (Some name) IDENTITY_FILE_MODE
     (node_mode (RegularFile mode text b)) h1 = (Ok (), h2) /\
     exists m', fs h2 !! Some name = Some (RegularFile m' text b)) as (h2 & -> & m' & Hf2).
  { unfold enforce_owner_only. destruct (_ =? _)%Z; [exists h1; rewrite Hfs1; split; [done|by exists mode]|].
    unfold st_map_err, set_permissions.
    match goal with |- context [syscall ?a ?f h1] => destruct (syscall_quiet a f h1) as (h2 & -> & Hfs2 & _) end.
    rewrite Hfs1, Hf in *. cbn [fst snd map_err with_mode] in *. exists h2. rewrite Hfs2. split; [done|].
    eexists. apply lookup_insert_eq. }
  unfold st_bind at 1, st_map_err, read_to_string, st_bind at 1, read_file.
  match goal with |- context [syscall ?a ?f h2] => destruct (syscall_quiet a f h2) as (h3 & -> & Hfs3 & _) end.
  rewrite Hf2 in *. cbn [fst snd] in *. unfold st_lift at 1. rewrite Hutf. cbn [ok_or map_err].
  exists h3. rewrite Hfs3. split; [by rewrite Hf2|]. split; [by exists m'|].
  unfold st_bind, st_lift, st_ret. by destruct (id_from_str (strip_newline text)).
Qed.

(** The node identity is created once and never rotated: without
    interference, where there is no file the generated identity is stored and
    every later call returns it, whatever would be generated then; an existing
    file decides alone, its identity is returned and its content kept, and a
    malformed one is an error that leaves it in place. *)
Theorem node_identity_stable (name : string) (generate again : stres Host CoreError NodeId) (identity : NodeId) (h : Host)
    (Hdir : usable_dir (fs h))
    (Hgen : forall h, exists h', generate h = (Ok identity, h') /\ fs h' = fs h) :
  (fs h !! Some name = None ->
     exists h', load_or_create name generate h = (Ok identity, h') /\ (load_or_create name again h').1 = Ok identity) /\
  (forall mode text b, fs h !! Some name = Some (RegularFile mode text b) -> is_Some (utf8_decode text) ->
     exists h' mode', fs h' !! Some name = Some (RegularFile mode' text b) /\
       load_or_create name generate h =
         (match id_from_str (strip_newline text) with
          | Ok stored => Ok stored
          | Err _ => Err (core_error_with_diagnostic PersistenceError "stable node identity file is malformed" "{error}")
          end, h')).
Proof.
  assert (forall gen h mode text b, fs h !! Some name = Some (RegularFile mode text b) -> is_Some (utf8_decode text) ->
     exists h' mode', fs h' !! Some name = Some (RegularFile mode' text b) /\
       load_or_create name gen h =
         (match id_from_str (strip_newline text) with
          | Ok stored => Ok stored
          | Err _ => Err (core_error_with_diagnostic PersistenceError "stable node identity file is malformed" "{error}")
          end, h')) as Hpresent.
  { intros gen h0 mode text b Hf Hutf. destruct (load_existing_present name h0 mode text b Hf Hutf) as (h1 & _ & (mode' & Hf1) & Hl).
    exists h1, mode'. split; [done|]. unfold load_or_create, st_bind. rewrite Hl. by destruct (id_from_str (strip_newline text)). }
  split; [|intros mode text b; apply Hpresent].
  intros Hf. unfold load_or_create at 1. destruct (load_existing_absent name h Hf) as (h1 & Hl & Hfs1).
  unfold st_bind at 1. rewrite Hl. unfold st_bind at 1, identity_ensure_parent.
  destruct (ensure_parent_quiet "failed to create the node identity state directory" h1) as (h2 & -> & Ho & Hsome & _);
    [unfold usable_dir; by rewrite Hfs1|].
  unfold st_bind at 1. destruct (Hgen h2) as (h3 & -> & Hfs3). unfold st_try at 1.
  destruct (create_new_quiet (Some name) IDENTITY_FILE_MODE h3) as (h4 & -> & Hfs4); [by rewrite Hfs3, Ho, Hfs1|].
  unfold st_try. destruct (write_and_sync_quiet (Some name) (id_to_string identity ++ [NEWLINE]) h4
    (Z.land IDENTITY_FILE_MODE (Z.lnot umask)) [] false) as (h5 & -> & Hfs5); [rewrite Hfs4; apply lookup_insert_eq|].
  unfold st_bind, st_map_err. destruct (sync_dir_quiet h5) as (h6 & -> & Hfs6).
  { by rewrite Hfs5, Hfs4, !lookup_insert_ne, Hfs3. }
  exists h6. split; [done|].
  edestruct (Hpresent again h6) as (h7 & mode7 & _ & Hrun).
  - rewrite Hfs6, Hfs5. apply lookup_insert_eq.
  - rewrite utf8_ascii; [by eexists|]. apply Forall_app. split; [apply ascii_printable_ascii, id_ascii|].
    repeat constructor; unfold NEWLINE; lia.
  - rewrite Hrun, strip_newline_snoc, id_string_roundtrip. done.
Qed.
End quiet.

(** ** Examples *)

#[local] Instance calm_quiet_stores : @QuietWorld calm_world.
Proof. by split. Qed.

Lemma membership_save_atomic_witness :
  @spares_temporaries busy_world "identity" /\
  match serialize_registry demo_registry with
  | Err e => False
  | Ok text => steps_of (@replaces busy_world "identity" text) empty_host (@ms_save busy_world "identity" demo_registry empty_host).2
  end.
Proof.
  split; [exact busy_world_spares|].
  pose proof (@membership_save_atomic busy_world "identity" demo_registry empty_host busy_world_spares) as Hs.
  destruct (serialize_registry demo_registry) as [text|e] eqn:Ht; [exact (proj1 Hs)|].
  assert (is_ok (serialize_registry demo_registry) = true) as Hok by (vm_compute; reflexivity).
  rewrite Ht in Hok. discriminate Hok.
Defined.

Lemma membership_store_durable_witness :
  exists h', @ms_save calm_world "state" demo_registry empty_host = (Ok (), h') /\
    (@ms_load calm_world "state" h').1 = Ok demo_registry.
Proof.
  apply (proj1 (@membership_store_durable calm_world calm_quiet_stores "state" empty_host demo_registry demo_registry_keyed
    I I (lookup_empty _))).
  apply serialize_registry_durable; [exact demo_registry_keyed|].
  destruct (serialize_registry demo_registry) as [text|e] eqn:Ht; [by exists text|].
  assert (is_ok (serialize_registry demo_registry) = true) as Hok by (vm_compute; reflexivity).
  rewrite Ht in Hok. discriminate Hok.
Defined.

Lemma node_identity_stable_witness :
  exists h', @load_or_create calm_world "node-id" (st_ret (fill_id 3)) empty_host = (Ok (fill_id 3), h') /\
    (@load_or_create calm_world "node-id" (st_ret (fill_id 4)) h').1 = Ok (fill_id 3).
Proof.
  apply (proj1 (@node_identity_stable calm_world calm_quiet_stores "node-id" (st_ret (fill_id 3)) (st_ret (fill_id 4))
    (fill_id 3) empty_host I (fun h => ex_intro _ h (conj eq_refl eq_refl)))).
  apply lookup_empty.
Defined.
