(* ===== verification/PeerTrust.v ===== *)
(** Durable peer trust and key enrollment: [apps/daemon/src/peer_trust.rs].

    The membership store, the pin store, the state lock and the clock are behind
    [TrustStores]; what the stores promise when no other process writes their
    files is [LawfulTrustStores].  A state of the stores has a content: what a
    load would return. *)

From S2P Require Import Prelude Order Ident Membership PeerPins.

(** ** The stores *)

Class TrustStores (S : Type) := {
  lock_guard : stres S CoreError ();
  unlock_guard : S -> S;
  load_registry : stres S CoreError MembershipRegistry;
  save_registry : MembershipRegistry -> stres S CoreError ();
  load_pin_table : stres S CoreError PeerKeyPins;
  save_pin_table : PeerKeyPins -> stres S CoreError ();
  clock_now : S -> Z * S;
}.

(** ** [single_star.rs]: the network this node belongs to *)

Definition current_network (r : MembershipRegistry) : CoreResult (option NetworkId) :=
  match (network_id <$> filter (fun m => m_state m = Member) (values (networks r))) with
  | [] => Ok None
  | [id] => Ok (Some id)
  | _ => Err (core_error InvalidState "durable state contains more than one active BlueRoute network")
  end.

(** ** [control_tls.rs]: a pinned peer *)

Record PinnedControlTlsPeer := mkPinnedPeer { pp_network : NetworkId; pp_node : NodeId; pp_fingerprint : SpkiSha256 }.

Definition pinned_peer_new (network : NetworkId) (node : NodeId) (fp : SpkiSha256) : option PinnedControlTlsPeer :=
  if bool_decide (network = zero_id) || bool_decide (node = zero_id) then None else Some (mkPinnedPeer network node fp).

(** ** Operations *)

Definition no_current_network : CoreError :=
  core_error InvalidState "this daemon does not currently belong to a BlueRoute network".
Definition network_missing : CoreError :=
  core_error InvalidState "current BlueRoute network is missing from durable membership state".

Definition require_nonzero_peer_identity (node : NodeId) : CoreResult () :=
  guard_err (bool_decide (node = zero_id)) (core_error InvalidInput "all-zero peer NodeId cannot be trusted or authorized")
  (Ok ()).

Section operations.
Context {S : Type} `{TrustStores S} (pin_store : bool).

Abbreviation op A := (stres S CoreError A).

(** The guard of [lock_state] lives to the end of the operation. *)
Definition guarded {A : Type} (m : op A) : op A :=
  let! _ := lock_guard in fun s => let (r, s') := m s in (r, unlock_guard s').

Definition require_peer_approved (network : NetworkId) (node : NodeId) : op () :=
  let! _ := st_lift (require_nonzero_peer_identity node) in
  let! registry := load_registry in
  let! current := st_lift (current_network registry) in
  let! current := st_lift (ok_or current no_current_network) in
  st_lift (guard_err (negb (bool_decide (current = network)))
    (core_error InvalidState "refusing peer authorization for a network other than the current network")
    (membership ← ok_or (network_of network registry) network_missing;
     guard_err (negb (is_peer_trusted node membership))
       (core_error AuthenticationFailed "BlueRoute peer has not been explicitly approved for this network") (Ok ()))).

Definition require_pin_store (m : string) : op () :=
  st_lift (guard_err (negb pin_store) (core_error AuthenticationFailed m) (Ok ())).

(** One entry of the pin file in the loop of [approved_control_pins]. *)
Definition approve_entry (network : NetworkId) (membership : NetworkMembership)
    (approved : list PinnedControlTlsPeer) (e : NetworkId * NodeId * SpkiSha256) : CoreResult (list PinnedControlTlsPeer) :=
  let '(pin_network, node, fingerprint) := e in
  if negb (bool_decide (pin_network = network)) || negb (is_peer_trusted node membership) then Ok approved
  else
    pinned ← ok_or (pinned_peer_new network node fingerprint)
      (core_error AuthenticationFailed "invalid enrolled TLS peer key in durable snapshot");
    Ok (approved ++ [pinned]).

Definition approved_control_pins (network : NetworkId) : op (list PinnedControlTlsPeer) := guarded (
  let! registry := load_registry in
  let! current := st_lift (current_network registry) in
  let! membership := st_lift (guard_err (negb (bool_decide (current = Some network)))
    (core_error InvalidState "requested TLS pin snapshot does not match the active network")
    (ok_or (network_of network registry) (core_error InvalidState "active network is missing from durable member registry"))) in
  let! _ := require_pin_store "no enrolled TLS peer key store is configured" in
  let! pins := load_pin_table in
  st_lift (try_for_each (approve_entry network membership) [] (entries pins))).

(** [operation()] is what the closure returns when the check lets it run. *)
Definition with_approved_pinned_tls_peer {T : Type} (network : NetworkId) (node : NodeId) (verified_spki : SpkiSha256)
    (operation : () -> T) : op T := guarded (
  let! _ := require_peer_approved network node in
  let! _ := require_pin_store "no durable peer key pin store is configured for authenticated control" in
  let! pins := load_pin_table in
  let! _ := st_lift (map_err (fun _ => core_error_with_diagnostic AuthenticationFailed
    "peer has no matching explicitly enrolled BlueRoute cryptographic identity" "{error}")
    (authorize network node true verified_spki pins)) in
  st_ret (operation ())).

Definition require_approved_pinned_tls_peer (network : NetworkId) (node : NodeId) (verified_spki : SpkiSha256) : op () :=
  with_approved_pinned_tls_peer network node verified_spki (fun _ => ()).

(** [deadline.is_some_and(|limit| Instant::now() >= limit)]: the clock is read
    only under a deadline. *)
Definition check_deadline (deadline : option Z) : op () := fun s =>
  match deadline with
  | None => (Ok (), s)
  | Some limit =>
    let (now, s') := clock_now s in
    (guard_err (limit <=? now)%Z
       (core_error AuthenticationFailed "confirmed enrollment deadline expired before durable key enrollment") (Ok ()), s')
  end.

Definition enroll_key_inner (network : NetworkId) (node : NodeId) (verified_tls_spki confirmed_spki : SpkiSha256)
    (deadline : option Z) : op bool := guarded (
  let! _ := require_peer_approved network node in
  let! _ := st_lift (guard_err (negb (bool_decide (verified_tls_spki = confirmed_spki)))
    (core_error AuthenticationFailed "independently confirmed peer key does not match verified TLS identity") (Ok ())) in
  let! _ := require_pin_store "no durable peer key pin store is configured for enrollment" in
  let! pins := load_pin_table in
  let! _ := check_deadline deadline in
  let (enrolled, pins) := enroll_verified network node verified_tls_spki pins in
  let! changed := st_lift (map_err (fun _ =>
    core_error AuthenticationFailed "peer identity or key conflicts with an existing enrollment") enrolled) in
  let! _ := (if changed then let! _ := check_deadline deadline in save_pin_table pins else st_ret ()) in
  st_ret changed).

(** [registry.network_mut] of the current network. *)
Definition current_membership (registry : MembershipRegistry) : CoreResult (NetworkId * NetworkMembership) :=
  current ← current_network registry;
  network ← ok_or current no_current_network;
  membership ← ok_or (network_of network registry) network_missing;
  Ok (network, membership).

Definition put_membership (network : NetworkId) (m : NetworkMembership) (r : MembershipRegistry) : MembershipRegistry :=
  network_mut network (fun _ => m) r.

Definition trust_peer_durably (node : NodeId) : op () :=
  let! _ := st_lift (require_nonzero_peer_identity node) in
  guarded (
    let! registry := load_registry in
    let! (network, membership) := st_lift (current_membership registry) in
    let (changed, membership) := trust_peer node membership in
    if changed : bool then save_registry (put_membership network membership registry) else st_ret ()).

Definition forget_peer_durably (node : NodeId) : op () :=
  let! _ := st_lift (require_nonzero_peer_identity node) in
  guarded (
    let! registry := load_registry in
    let! (network, membership) := st_lift (current_membership registry) in
    let! _ := (if pin_store
      then
        let! pins := load_pin_table in
        let (removed, pins) := revoke network node pins in
        if removed : bool then save_pin_table pins else st_ret ()
      else st_ret ()) in
    let (changed, membership) := forget_peer node membership in
    if changed : bool then save_registry (put_membership network membership registry) else st_ret ()).
End operations.

(** ** What the stores promise *)

Class LawfulTrustStores (S : Type) `{TrustStores S} := {
  content : S -> MembershipRegistry * PeerKeyPins;
  lock_content s : content (lock_guard s).2 = content s;
  unlock_content s : content (unlock_guard s) = content s;
  clock_content s : content (clock_now s).2 = content s;
  load_registry_law s : content (load_registry s).2 = content s /\
    forall r, (load_registry s).1 = Ok r -> r = (content s).1;
  load_pins_law s : content (load_pin_table s).2 = content s /\
    forall t, (load_pin_table s).1 = Ok t -> t = (content s).2;
  (** A failed write may have happened. *)
  save_registry_law r s : (content (save_registry r s).2).2 = (content s).2 /\
    ((content (save_registry r s).2).1 = r \/
     ((content (save_registry r s).2).1 = (content s).1 /\ is_ok (save_registry r s).1 = false));
  save_pins_law t s : (content (save_pin_table t s).2).1 = (content s).1 /\
    ((content (save_pin_table t s).2).2 = t \/
     ((content (save_pin_table t s).2).2 = (content s).2 /\ is_ok (save_pin_table t s).1 = false));
}.

(** No call of the lock or of a load fails. *)
Definition reliable (S : Type) `{TrustStores S} : Prop := forall s : S,
  is_ok (lock_guard s).1 = true /\ is_ok (load_registry s).1 = true /\ is_ok (load_pin_table s).1 = true.

(** The policy: the network is the current one, it approves the peer, and the
    peer's enrolled key is the one it proved. *)
Definition approved_in (c : MembershipRegistry * PeerKeyPins) (network : NetworkId) (node : NodeId) : Prop :=
  node <> zero_id /\ current_network c.1 = Ok (Some network) /\
  exists m, network_of network c.1 = Some m /\ is_peer_trusted node m = true.
Definition authorized_in (c : MembershipRegistry * PeerKeyPins) (network : NetworkId) (node : NodeId) (fp : SpkiSha256) : Prop :=
  approved_in c network node /\ network <> zero_id /\ c.2 !! (network, node) = Some fp.

Section facts.
Context {S : Type} `{LawfulTrustStores S} (pin_store : bool).

(** A read-only computation. *)
Definition reads {A : Type} (m : stres S CoreError A) : Prop := forall s, content (m s).2 = content s.

Lemma reads_bind {A B : Type} (m : stres S CoreError A) (k : A -> stres S CoreError B) :
  reads m -> (forall a, reads (k a)) -> reads (st_bind m k).
Proof. intros Hm Hk s. unfold st_bind. specialize (Hm s). destruct (m s) as [[a|e] t]; [|done]. by rewrite Hk. Qed.
Lemma reads_lift {A : Type} (r : result CoreError A) : reads (st_lift r).
Proof. done. Qed.
Lemma reads_guarded {A : Type} (m : stres S CoreError A) : reads m -> reads (guarded m).
Proof.
  intros Hm. apply reads_bind; [exact lock_content|]. intros _ s. specialize (Hm s). destruct (m s). cbn in *.
  by rewrite unlock_content.
Qed.
Lemma reads_registry : reads load_registry.
Proof. intros s. apply load_registry_law. Qed.
Lemma reads_pins : reads load_pin_table.
Proof. intros s. apply load_pins_law. Qed.
Lemma reads_deadline d : reads (check_deadline d).
Proof. intros s. unfold check_deadline. destruct d; [|done]. pose proof (clock_content s) as Hc. by destruct (clock_now s). Qed.
Lemma reads_approved network node : reads (require_peer_approved network node).
Proof.
  apply reads_bind; [apply reads_lift|]. intros _. apply reads_bind; [apply reads_registry|]. intros r.
  apply reads_bind; [apply reads_lift|]. intros c. apply reads_bind; [apply reads_lift|]. intros c'. apply reads_lift.
Qed.

(** What a check that passed has seen. *)
Lemma guarded_Ok {A : Type} (m : stres S CoreError A) s a s' :
  guarded m s = (Ok a, s') ->
  exists s1 s2, content s1 = content s /\ m s1 = (Ok a, s2) /\ s' = unlock_guard s2.
Proof.
  unfold guarded. intros ([] & s1 & Hl & Hm)%st_bind_Ok. destruct (m s1) as [r s2] eqn:Hr. injection Hm as -> <-.
  exists s1, s2. pose proof (lock_content s) as Hc. by rewrite Hl in Hc.
Qed.

Lemma lift_Ok {E A : Type} (r : result E A) (s : S) a s' : st_lift r s = (Ok a, s') <-> r = Ok a /\ s' = s.
Proof. unfold st_lift. naive_solver. Qed.

Lemma load_registry_Ok s r s' : load_registry s = (Ok r, s') -> r = (content s).1 /\ content s' = content s.
Proof. intros Hl. destruct (load_registry_law s) as [Hc Hr]. rewrite Hl in Hc, Hr. split; [by apply Hr|done]. Qed.
Lemma load_pins_Ok s t s' : load_pin_table s = (Ok t, s') -> t = (content s).2 /\ content s' = content s.
Proof. intros Hl. destruct (load_pins_law s) as [Hc Hr]. rewrite Hl in Hc, Hr. split; [by apply Hr|done]. Qed.

Lemma require_approved_Ok network node s s' :
  require_peer_approved network node s = (Ok (), s') -> approved_in (content s) network node /\ content s' = content s.
Proof.
  intros Hrun. split; [|pose proof (reads_approved network node s) as Hr; by rewrite Hrun in Hr]. revert Hrun.
  unfold require_peer_approved. intros ([] & s1 & [Hz ->]%lift_Ok & Hrun)%st_bind_Ok.
  apply st_bind_Ok in Hrun as (r & s2 & [-> Hc]%load_registry_Ok & Hrun).
  apply st_bind_Ok in Hrun as (o & s3 & [Ho ->]%lift_Ok & Hrun).
  apply st_bind_Ok in Hrun as (cur & s4 & [->%ok_or_Ok ->]%lift_Ok & Hrun).
  apply lift_Ok in Hrun as [[Hcur Hrun]%guard_err_Ok _].
  apply result_bind_Ok in Hrun as (m & Hm%ok_or_Ok & [Ht _]%guard_err_Ok).
  apply negb_false_iff, bool_decide_eq_true in Hcur as ->. apply guard_err_Ok in Hz as [Hz _].
  split; [by apply bool_decide_eq_false in Hz|]. split; [done|]. exists m. split; [done|]. by apply negb_false_iff.
Qed.

Lemma approved_reliable network node s :
  reliable S -> approved_in (content s) network node ->
  exists s', require_peer_approved network node s = (Ok (), s') /\ content s' = content s.
Proof.
  intros Hrel (Hz & Hcur & m & Hm & Ht). destruct (Hrel s) as (_ & Hl & _). unfold require_peer_approved, require_nonzero_peer_identity.
  rewrite bool_decide_eq_false_2 by done. unfold st_bind at 1, st_lift at 1. cbn [guard_err]. unfold st_bind at 1.
  destruct (load_registry s) as [[r|e] s1] eqn:Hr; [|done]. apply load_registry_Ok in Hr as [-> Hc]. exists s1.
  unfold st_bind, st_lift. rewrite Hcur. cbn [ok_or]. rewrite bool_decide_eq_true_2 by done. cbn [negb guard_err].
  rewrite Hm. cbn. by rewrite Ht.
Qed.

Lemma authorize_policy network node fp c :
  approved_in c network node ->
  authorize network node true fp c.2 = Ok () <-> network <> zero_id /\ c.2 !! (network, node) = Some fp.
Proof.
  intros (Hz & _). rewrite authorize_Ok. unfold zero_identity. rewrite orb_false_iff, !bool_decide_eq_false. naive_solver.
Qed.

Lemma with_approved_reads {T : Type} network node fp (operation : () -> T) :
  reads (with_approved_pinned_tls_peer pin_store network node fp operation).
Proof.
  apply reads_guarded, reads_bind; [apply reads_approved|]. intros _. apply reads_bind; [apply reads_lift|]. intros _.
  apply reads_bind; [apply reads_pins|]. intros t. apply reads_bind; [apply reads_lift|]. by intros _ s.
Qed.

Lemma with_approved_Ok {T : Type} network node fp (operation : () -> T) s t s' :
  with_approved_pinned_tls_peer pin_store network node fp operation s = (Ok t, s') ->
  pin_store = true /\ authorized_in (content s) network node fp /\ t = operation ().
Proof.
  intros (s1 & s2 & Hc & Hrun & _)%guarded_Ok.
  apply st_bind_Ok in Hrun as ([] & s3 & [Ha Hc3]%require_approved_Ok & Hrun).
  apply st_bind_Ok in Hrun as ([] & s4 & [[Hp _]%guard_err_Ok ->]%lift_Ok & Hrun).
  apply st_bind_Ok in Hrun as (pins & s5 & [-> Hc5]%load_pins_Ok & Hrun).
  apply st_bind_Ok in Hrun as ([] & s6 & [Haz ->]%lift_Ok & Hrun). injection Hrun as <- _.
  split; [by apply negb_false_iff|]. split; [|done]. rewrite Hc3, Hc in Haz. rewrite Hc in Ha.
  destruct (authorize network node true fp (content s).2) as [[]|e] eqn:Hz; [|done].
  split; [done|]. by eapply authorize_policy.
Qed.

Lemma with_approved_runs {T : Type} network node fp (operation : () -> T) s :
  reliable S -> pin_store = true -> authorized_in (content s) network node fp ->
  exists s', with_approved_pinned_tls_peer pin_store network node fp operation s = (Ok (operation ()), s').
Proof.
  intros Hrel Hp (Ha & Hn & Hpin). unfold with_approved_pinned_tls_peer, guarded, st_bind at 1.
  destruct (Hrel s) as (Hl & _). pose proof (lock_content s) as Hc. destruct (lock_guard s) as [[[]|e] s1]; [|done].
  cbn [snd] in Hc. rewrite <- Hc in Ha. destruct (approved_reliable network node s1 Hrel Ha) as (s2 & Hrun & Hc2).
  unfold st_bind at 1. rewrite Hrun. unfold st_bind at 1, require_pin_store, st_lift at 1. rewrite Hp. cbn [negb guard_err].
  unfold st_bind at 1. destruct (Hrel s2) as (_ & _ & Hlp). destruct (load_pin_table s2) as [[t|e] s3] eqn:Ht; [|done].
  apply load_pins_Ok in Ht as [-> _]. unfold st_bind, st_lift. rewrite Hc2, (proj2 (authorize_policy network node fp (content s1) Ha)).
  - by eexists.
  - by rewrite Hc.
Qed.

(** *** Changes *)

(** A guarded change ends in a state whose content its body left. *)
Lemma guarded_post {A : Type} (m : stres S CoreError A) (Q : result CoreError A -> MembershipRegistry * PeerKeyPins -> Prop) s r s' :
  guarded m s = (r, s') ->
  (forall e, Q (Err e) (content s)) ->
  (forall s1 r1 s2, content s1 = content s -> m s1 = (r1, s2) -> Q r1 (content s2)) ->
  Q r (content s').
Proof.
  intros Hrun He Hm. unfold guarded, st_bind in Hrun. pose proof (lock_content s) as Hc.
  destruct (lock_guard s) as [[[]|e] s1]; cbn [snd] in Hc.
  - destruct (m s1) as [r1 s2] eqn:Hr. injection Hrun as <- <-. rewrite unlock_content. by eapply Hm.
  - injection Hrun as <- <-. rewrite Hc. apply He.
Qed.

(** A read in front of a change: it fails, or the change follows. *)
Lemma bind_post {A B : Type} (m : stres S CoreError A) (k : A -> stres S CoreError B)
    (Q : result CoreError B -> MembershipRegistry * PeerKeyPins -> Prop) s r s' :
  st_bind m k s = (r, s') -> reads m ->
  (forall e, Q (Err e) (content s)) ->
  (forall a s1, m s = (Ok a, s1) -> content s1 = content s -> k a s1 = (r, s') -> Q r (content s')) ->
  Q r (content s').
Proof.
  intros Hrun Hm He Hk. unfold st_bind in Hrun. specialize (Hm s). destruct (m s) as [[a|e] s1] eqn:Hms; cbn [snd] in Hm.
  - by apply (Hk a s1).
  - injection Hrun as <- <-. rewrite Hm. apply He.
Qed.

Lemma current_membership_Ok r network m :
  current_membership r = Ok (network, m) <-> current_network r = Ok (Some network) /\ network_of network r = Some m.
Proof.
  unfold current_membership. rewrite result_bind_Ok. setoid_rewrite result_bind_Ok. setoid_rewrite result_bind_Ok.
  setoid_rewrite ok_or_Ok. naive_solver.
Qed.

(** The registry with the membership of a peer of the current network changed. *)
Definition registry_with (f : NetworkMembership -> NetworkMembership) (r r' : MembershipRegistry) : Prop :=
  exists network m, current_network r = Ok (Some network) /\ network_of network r = Some m /\
    r' = put_membership network (f m) r.

Definition trusted_change (node : NodeId) (c : MembershipRegistry * PeerKeyPins) (r : CoreResult ())
    (c' : MembershipRegistry * PeerKeyPins) : Prop :=
  c'.2 = c.2 /\
  match r with
  | Ok _ => node <> zero_id /\ registry_with (fun m => (trust_peer node m).2) c.1 c'.1
  | Err _ => c'.1 = c.1 \/ registry_with (fun m => (trust_peer node m).2) c.1 c'.1
  end.

Lemma put_same network m r : network_of network r = Some m -> put_membership network m r = r.
Proof.
  intros Hm. unfold put_membership, network_mut. destruct r as [nets]. f_equal. cbn [networks] in *. unfold network_of in Hm.
  cbn [networks] in Hm. rewrite <- (insert_id nets network m Hm) at 2. rewrite <- (insert_id nets network m Hm) at 1.
  apply map_eq. intros k. destruct (decide (k = network)) as [->|Hne].
  - rewrite lookup_alter_eq, !lookup_insert_eq. done.
  - by rewrite lookup_alter_ne, !lookup_insert_ne.
Qed.

Lemma trust_peer_same node m : (trust_peer node m).1 = false -> (trust_peer node m).2 = m.
Proof.
  unfold trust_peer, peer_or_new. cbn [fst snd]. destruct (peers m !! node) as [e|] eqn:He; cbn [default]; [|done].
  intros Ht%negb_false_iff. destruct m as [i n st ps], e as [pn mb tr]. cbn in *. subst. unfold with_peers. cbn.
  f_equal. by apply insert_id.
Qed.

Lemma trust_peer_durably_spec node s r s' :
  trust_peer_durably node s = (r, s') -> trusted_change node (content s) r (content s').
Proof.
  assert (forall e, trusted_change node (content s) (Err e) (content s)) as He by (intros e; split; [done|by left]).
  intros Hrun. eapply bind_post; [exact Hrun|apply reads_lift|done|]. clear Hrun. intros [] s0 [Hz ->]%lift_Ok _ Hrun.
  apply guard_err_Ok in Hz as [Hz%bool_decide_eq_false _].
  eapply guarded_post; [exact Hrun|done|]. clear Hrun. intros s1 r1 s2 Hc1 Hrun. rewrite <- Hc1 in *.
  eapply bind_post; [exact Hrun|apply reads_registry|done|]. clear Hrun. intros reg s3 [-> Hc3]%load_registry_Ok _ Hrun.
  rewrite <- Hc3 in *.
  eapply bind_post; [exact Hrun|apply reads_lift|done|]. clear Hrun. intros [network m] s4 [Hcm ->]%lift_Ok _ Hrun.
  apply current_membership_Ok in Hcm as [Hcur Hm]. destruct (trust_peer node m) as [changed m'] eqn:Htp.
  assert (registry_with (fun m => (trust_peer node m).2) (content s3).1 (put_membership network m' (content s3).1)) as Hrw.
  { exists network, m. by rewrite Htp. }
  destruct changed.
  - destruct (save_registry_law (put_membership network m' (content s3).1) s3) as [Hp Hr]. rewrite Hrun in Hp, Hr.
    cbn [fst snd] in *. split; [done|]. destruct r1 as [[]|e]; cbn [is_ok] in *.
    + destruct Hr as [-> |[_ ?]]; done.
    + destruct Hr as [-> |[-> _]]; auto.
  - injection Hrun as <- <-. split; [done|]. split; [done|].
    exists network, m. split; [done|]. split; [done|]. rewrite Htp. cbn [snd].
    pose proof (trust_peer_same node m) as Hsame. rewrite Htp in Hsame. cbn [fst snd] in Hsame. rewrite Hsame by done.
    by rewrite put_same.
Qed.

Definition pins_without (network : NetworkId) (node : NodeId) (t : PeerKeyPins) : PeerKeyPins :=
  if pin_store then delete (network, node) t else t.

(** A revocation: the pin goes first. *)
Definition forgotten (node : NodeId) (c : MembershipRegistry * PeerKeyPins) (r : CoreResult ())
    (c' : MembershipRegistry * PeerKeyPins) : Prop :=
  match r with
  | Ok _ => exists network m, current_network c.1 = Ok (Some network) /\ network_of network c.1 = Some m /\
      c' = (put_membership network (forget_peer node m).2 c.1, pins_without network node c.2)
  | Err _ => c' = c \/
      exists network m, current_network c.1 = Ok (Some network) /\ network_of network c.1 = Some m /\
        c'.2 = pins_without network node c.2 /\
        (c'.1 = c.1 \/ c'.1 = put_membership network (forget_peer node m).2 c.1)
  end.

Lemma forget_peer_same node m : (forget_peer node m).1 = false -> (forget_peer node m).2 = m.
Proof.
  cbn. intros Hn%bool_decide_eq_false%eq_None_not_Some. destruct m as [i n st ps]. unfold with_peers. cbn in *. f_equal.
  by apply delete_id.
Qed.

(** The pin table after the first half of a revocation. *)
Lemma forget_pins network node s r s' :
  (if pin_store
   then
     let! pins := load_pin_table in
     let (removed, pins) := revoke network node pins in
     if removed : bool then save_pin_table pins else st_ret ()
   else st_ret ()) s = (r, s') ->
  (content s').1 = (content s).1 /\
  match r with
  | Ok _ => (content s').2 = pins_without network node (content s).2
  | Err _ => (content s').2 = (content s).2 \/ (content s').2 = pins_without network node (content s).2
  end.
Proof using Type*.
  unfold pins_without. destruct pin_store; [|intros [= <- <-]; done]. unfold st_bind.
  destruct (load_pin_table s) as [[t|e] s1] eqn:Hl; cycle 1.
  { intros [= <- <-]. pose proof (reads_pins s) as Hr. rewrite Hl in Hr. cbn [snd] in Hr. rewrite Hr. auto. }
  apply load_pins_Ok in Hl as [-> Hc]. cbn [revoke]. case_bool_decide as Hsome.
  - intros Hrun. destruct (save_pins_law (delete (network, node) (content s).2) s1) as [Hr Ht]. rewrite Hrun in Hr, Ht.
    cbn [fst snd] in *. rewrite Hc in Hr, Ht. split; [done|]. destruct r as [[]|e]; cbn [is_ok] in *.
    + by destruct Ht as [-> |[_ ?]].
    + destruct Ht as [-> |[-> _]]; auto.
  - intros [= <- <-]. rewrite Hc. split; [done|]. apply eq_None_not_Some in Hsome. by rewrite delete_id.
Qed.

Lemma forget_peer_durably_spec node s r s' :
  forget_peer_durably pin_store node s = (r, s') -> forgotten node (content s) r (content s').
Proof.
  assert (forall e, forgotten node (content s) (Err e) (content s)) as He by (intros e; by left).
  intros Hrun. eapply bind_post; [exact Hrun|apply reads_lift|done|]. clear Hrun. intros [] s0 [Hz ->]%lift_Ok _ Hrun.
  eapply guarded_post; [exact Hrun|done|]. clear Hrun. intros s1 r1 s2 Hc1 Hrun. rewrite <- Hc1 in *.
  eapply bind_post; [exact Hrun|apply reads_registry|done|]. clear Hrun. intros reg s3 [-> Hc3]%load_registry_Ok _ Hrun.
  rewrite <- Hc3 in *.
  eapply bind_post; [exact Hrun|apply reads_lift|done|]. clear Hrun. intros [network m] s4 [Hcm ->]%lift_Ok _ Hrun.
  apply current_membership_Ok in Hcm as [Hcur Hm]. unfold st_bind at 1 in Hrun.
  match type of Hrun with (let (_, _) := ?t in _) = _ => destruct t as [[[]|e] s5] eqn:Hpins end;
    apply forget_pins in Hpins as [Hreg Hpin]; cycle 1.
  { injection Hrun as <- <-. destruct Hpin as [Hpin|Hpin].
    - left. destruct (content s5), (content s3); simpl in *; congruence.
    - right. exists network, m. rewrite Hreg. auto. }
  destruct (forget_peer node m) as [changed m'] eqn:Hf.
  assert ((forget_peer node m).2 = m') as Hm' by (by rewrite Hf).
  destruct changed.
  - destruct (save_registry_law (put_membership network m' (content s3).1) s5) as [Hp Hr]. rewrite Hrun in Hp, Hr.
    cbn [fst snd] in *. rewrite Hreg, Hpin in *. destruct r1 as [[]|e]; cbn [is_ok] in *.
    + destruct Hr as [Hr|[_ ?]]; [|done]. exists network, m. split; [done|]. split; [done|].
      rewrite Hm', <- Hr, <- Hp. by destruct (content s2).
    + right. exists network, m. rewrite Hm'. split; [done|]. split; [done|]. split; [done|].
      destruct Hr as [-> |[-> _]]; auto.
  - injection Hrun as <- <-. exists network, m. split; [done|]. split; [done|]. rewrite forget_peer_same by (by rewrite Hf).
    rewrite put_same by done. rewrite <- Hpin, <- Hreg. by destruct (content s5).
Qed.

(** An enrollment. *)
Definition enrollable (network : NetworkId) (node : NodeId) (verified confirmed : SpkiSha256)
    (c : MembershipRegistry * PeerKeyPins) : Prop :=
  pin_store = true /\ approved_in c network node /\ verified = confirmed.
Definition enrolled (network : NetworkId) (node : NodeId) (verified confirmed : SpkiSha256)
    (c : MembershipRegistry * PeerKeyPins) (r : CoreResult bool) (c' : MembershipRegistry * PeerKeyPins) : Prop :=
  c'.1 = c.1 /\
  match r with
  | Ok false => enrollable network node verified confirmed c /\ c.2 !! (network, node) = Some verified /\ c'.2 = c.2
  | Ok true => enrollable network node verified confirmed c /\
      enroll_verified network node verified c.2 = (Ok true, c'.2)
  | Err _ => c'.2 = c.2 \/
      (enrollable network node verified confirmed c /\ enroll_verified network node verified c.2 = (Ok true, c'.2))
  end.

Lemma enroll_false network node p t t' :
  enroll_verified network node p t = (Ok false, t') -> t !! (network, node) = Some p /\ t' = t.
Proof.
  unfold enroll_verified. destruct (zero_identity network node); [done|]. destruct (pin_taken network node p t); [done|].
  destruct (t !! (network, node)) as [old|]; [|done]. case_bool_decide; [|done]. intros [= <-]. by subst.
Qed.

Lemma enroll_key_inner_spec network node verified confirmed deadline s r s' :
  enroll_key_inner pin_store network node verified confirmed deadline s = (r, s') ->
  enrolled network node verified confirmed (content s) r (content s').
Proof.
  assert (forall e, enrolled network node verified confirmed (content s) (Err e) (content s)) as He
    by (intros e; split; [done|by left]).
  intros Hrun. eapply guarded_post; [exact Hrun|done|]. clear Hrun. intros s1 r1 s2 Hc1 Hrun. rewrite <- Hc1 in *.
  eapply bind_post; [exact Hrun|apply reads_approved|done|]. clear Hrun. intros [] s3 [Ha _]%require_approved_Ok Hc3 Hrun.
  rewrite <- Hc3 in *.
  eapply bind_post; [exact Hrun|apply reads_lift|done|]. clear Hrun. intros [] s4 [Hv ->]%lift_Ok _ Hrun.
  eapply bind_post; [exact Hrun|apply reads_lift|done|]. clear Hrun. intros [] s5 [Hp ->]%lift_Ok _ Hrun.
  apply guard_err_Ok in Hv as [Hv%negb_false_iff%bool_decide_eq_true _]. apply guard_err_Ok in Hp as [Hp%negb_false_iff _].
  eapply bind_post; [exact Hrun|apply reads_pins|done|]. clear Hrun. intros t s6 [-> Hc6]%load_pins_Ok _ Hrun.
  rewrite <- Hc6 in *.
  eapply bind_post; [exact Hrun|apply reads_deadline|done|]. clear Hrun. intros [] s7 _ Hc7 Hrun. rewrite <- Hc7 in *.
  destruct (enroll_verified network node verified (content s7).2) as [outcome t'] eqn:Hen.
  eapply bind_post; [exact Hrun|apply reads_lift|done|]. clear Hrun. intros changed s8 [Hch ->]%lift_Ok _ Hrun.
  destruct outcome as [ch|e]; [|done]. injection Hch as ->.
  assert (enrollable network node verified confirmed (content s7)) as Hable by done.
  destruct changed; cycle 1.
  { injection Hrun as <- <-. apply enroll_false in Hen as [Hen _]. done. }
  unfold st_bind at 1, st_bind at 1 in Hrun. pose proof (reads_deadline deadline s7) as Hd.
  destruct (check_deadline deadline s7) as [[[]|e] s9]; cbn [snd] in Hd; cycle 1.
  { injection Hrun as <- <-. rewrite Hd. split; [done|by left]. }
  destruct (save_pins_law t' s9) as [Hr Ht]. rewrite Hd in Hr, Ht.
  destruct (save_pin_table t' s9) as [[[]|e] s10]; cbn [fst snd is_ok] in *; injection Hrun as <- <-; (split; [done|]).
  - destruct Ht as [-> |[_ ?]]; done.
  - destruct Ht as [-> |[-> _]]; auto.
Qed.

(** *** The current network *)

Definition member_ids (r : MembershipRegistry) : list NetworkId :=
  network_id <$> filter (fun m => m_state m = Member) (values (networks r)).
Definition sole {A : Type} (l : list A) : CoreResult (option A) :=
  match l with
  | [] => Ok None
  | [x] => Ok (Some x)
  | _ => Err (core_error InvalidState "durable state contains more than one active BlueRoute network")
  end.

Lemma sole_perm {A : Type} (l k : list A) : l ≡ₚ k -> sole l = sole k.
Proof.
  intros Hp. destruct l as [|x [|y l]].
  - by apply Permutation_nil in Hp as ->.
  - by apply Permutation_singleton_l in Hp as ->.
  - pose proof (Permutation_length Hp) as Hl. destruct k as [|a [|b k]]; done.
Qed.

(** Changing peers of a network leaves the current network. *)
Lemma member_ids_put network m m' r :
  network_of network r = Some m -> network_id m' = network_id m -> m_state m' = m_state m ->
  member_ids (put_membership network m' r) ≡ₚ member_ids r.
Proof.
  intros Hm Hid Hst. unfold member_ids, values. rewrite !iter_map_perm.
  unfold put_membership, network_mut, network_of in *. cbn [networks]. set (nets := networks r) in *.
  assert (alter (fun _ => m') network nets = <[network := m']> (delete network nets)) as ->.
  { apply map_eq. intros k. destruct (decide (k = network)) as [->|Hne].
    - by rewrite lookup_alter_eq, lookup_insert_eq, Hm.
    - by rewrite lookup_alter_ne, lookup_insert_ne, lookup_delete_ne. }
  rewrite map_to_list_insert by apply lookup_delete_eq. rewrite <- (map_to_list_delete nets network m Hm).
  cbn [fmap list_fmap snd]. rewrite !filter_cons, Hst. destruct (decide (m_state m = Member)); [|done].
  cbn [fmap list_fmap]. by rewrite Hid.
Qed.

Lemma current_network_put network m m' r :
  network_of network r = Some m -> network_id m' = network_id m -> m_state m' = m_state m ->
  current_network (put_membership network m' r) = current_network r.
Proof. intros Hm Hid Hst. exact (sole_perm _ _ (member_ids_put network m m' r Hm Hid Hst)). Qed.

Lemma network_of_put network m r k :
  network_of k (put_membership network m r) =
    if bool_decide (k = network) then (if network_of network r is Some _ then Some m else None) else network_of k r.
Proof.
  unfold put_membership, network_mut, network_of. cbn [networks]. case_bool_decide as Hk; [subst k|].
  - rewrite lookup_alter_eq. by destruct (networks r !! network).
  - by rewrite lookup_alter_ne.
Qed.

Lemma forget_trusted node n m : is_peer_trusted n (forget_peer node m).2 = negb (bool_decide (n = node)) && is_peer_trusted n m.
Proof.
  unfold is_peer_trusted, forget_peer. cbn [snd peers with_peers]. case_bool_decide as Hn; [subst n; by rewrite lookup_delete_eq|].
  by rewrite lookup_delete_ne.
Qed.

(** Approval after a revocation. *)
Lemma approved_forgotten node network m c network' node' :
  current_network c.1 = Ok (Some network) -> network_of network c.1 = Some m ->
  approved_in (put_membership network (forget_peer node m).2 c.1, c.2) network' node' <->
  approved_in c network' node' /\ node' <> node.
Proof.
  intros Hcur Hm. unfold approved_in. cbn [fst]. rewrite (current_network_put network m) by done. rewrite Hcur. split.
  - intros (Hz & [= <-] & m' & Hm' & Ht). rewrite network_of_put, bool_decide_eq_true_2, Hm in Hm' by done.
    assert (m' = (forget_peer node m).2) as -> by congruence. rewrite forget_trusted in Ht. apply andb_true_iff in Ht as [Hn Ht].
    apply negb_true_iff, bool_decide_eq_false in Hn. split; [|done]. split; [done|]. split; [done|]. by exists m.
  - intros [(Hz & [= <-] & m' & Hm' & Ht) Hn]. rewrite Hm in Hm'. injection Hm' as <-. split; [done|]. split; [done|].
    rewrite network_of_put, bool_decide_eq_true_2, Hm by done. eexists. split; [done|].
    by rewrite forget_trusted, bool_decide_eq_false_2.
Qed.

(** *** The snapshot for inbound connections *)

Lemma approve_entries_Ok network m l acc out :
  try_for_each (approve_entry network m) acc l = Ok out ->
  forall p, p ∈ out <-> p ∈ acc \/ exists n s fp, (n, s, fp) ∈ l /\ n = network /\ is_peer_trusted s m = true /\
    p = mkPinnedPeer network s fp /\ network <> zero_id /\ s <> zero_id.
Proof.
  revert acc. induction l as [|[[n s] fp] l IH]; intros acc; cbn [try_for_each].
  - intros [= <-] p. split; [by left|]. intros [?|(? & ? & ? & Hin & _)]; [done|by apply not_elem_of_nil in Hin].
  - intros (acc' & Hacc & Hout)%result_bind_Ok p. rewrite (IH _ Hout p). setoid_rewrite elem_of_cons.
    unfold approve_entry in Hacc. destruct (negb (bool_decide (n = network)) || negb (is_peer_trusted s m)) eqn:Hskip.
    + injection Hacc as <-. split.
      * intros [?|(n' & s' & fp' & Hin & Hrest)]; [by left|right]. exists n', s', fp'. split; [by right|done].
      * intros [?|(n' & s' & fp' & [[= -> -> ->]|Hin] & Hrest)]; [by left| |right; by exists n', s', fp'].
        destruct Hrest as (-> & Ht & _). by rewrite bool_decide_eq_true_2, Ht in Hskip.
    + apply orb_false_iff in Hskip as [Hn%negb_false_iff%bool_decide_eq_true Ht%negb_false_iff]. subst n.
      apply result_bind_Ok in Hacc as (q & Hq%ok_or_Ok & [= <-]). unfold pinned_peer_new in Hq.
      destruct (bool_decide (network = zero_id)) eqn:Hnz; [done|]. destruct (bool_decide (s = zero_id)) eqn:Hsz; [done|].
      injection Hq as <-. apply bool_decide_eq_false in Hnz, Hsz. rewrite elem_of_app, list_elem_of_singleton. split.
      * intros [[?| ->]|(n' & s' & fp' & Hin & Hrest)]; [by left| |]; right.
        -- exists network, s, fp. split; [by left|]. done.
        -- exists n', s', fp'. split; [by right|done].
      * intros [?|(n' & s' & fp' & [[= -> -> ->]|Hin] & Hrest)]; [by do 2 left| |right; by exists n', s', fp'].
        left. right. by destruct Hrest as (_ & _ & -> & _).
Qed.

Lemma elem_of_entries (n : NetworkId) (s : NodeId) (fp : SpkiSha256) (t : PeerKeyPins) : (n, s, fp) ∈ entries t <-> t !! (n, s) = Some fp.
Proof.
  unfold entries. rewrite list_elem_of_fmap. split.
  - intros ([[n' s'] fp'] & [= -> -> ->] & Hin). by apply elem_of_iter_map.
  - intros Ht. exists ((n, s), fp). split; [done|by apply elem_of_iter_map].
Qed.

Lemma approved_control_pins_Ok network s l s' :
  approved_control_pins pin_store network s = (Ok l, s') ->
  forall p, p ∈ l <-> pp_network p = network /\ authorized_in (content s) network (pp_node p) (pp_fingerprint p).
Proof.
  intros (s1 & s2 & Hc & Hrun & _)%guarded_Ok. rewrite <- Hc.
  apply st_bind_Ok in Hrun as (r & s3 & [-> Hc3]%load_registry_Ok & Hrun). rewrite <- Hc3 in *.
  apply st_bind_Ok in Hrun as (cur & s4 & [Hcur ->]%lift_Ok & Hrun).
  apply st_bind_Ok in Hrun as (m & s5 & [[Hn Hm%ok_or_Ok]%guard_err_Ok ->]%lift_Ok & Hrun).
  apply negb_false_iff, bool_decide_eq_true in Hn as ->.
  apply st_bind_Ok in Hrun as ([] & s6 & [_ ->]%lift_Ok & Hrun).
  apply st_bind_Ok in Hrun as (t & s7 & [-> Hc7]%load_pins_Ok & [Hl _]%lift_Ok).
  intros p. rewrite (approve_entries_Ok _ _ _ _ _ Hl). setoid_rewrite elem_of_entries. unfold authorized_in, approved_in. split.
  - intros [Hin|(n & s0 & fp & Hpin & -> & Ht & -> & Hnz & Hsz)]; [by apply not_elem_of_nil in Hin|]. cbn. eauto 10.
  - intros (<- & (Hz & _ & m' & Hm' & Ht) & Hnz & Hpin). right. rewrite Hm in Hm'. injection Hm' as <-.
    exists (pp_network p), (pp_node p), (pp_fingerprint p). split_and!; [done..|by destruct p|done|done].
Qed.

(** C20. Only an approved peer with its enrolled key passes: an operation behind
    the gate runs only if the network is the current one, approves the peer now,
    and the peer proved the key enrolled for it, and then the operation's outcome
    is returned; nothing stored is changed; when the stores answer, such a peer is
    let through; and the snapshot for inbound connections lists exactly the peers
    that pass. *)
Theorem pinned_peer_gate {T : Type} (network : NetworkId) (node : NodeId) (fp : SpkiSha256) (operation : () -> T) (s : S) :
  content (with_approved_pinned_tls_peer pin_store network node fp operation s).2 = content s /\
  (forall t, (with_approved_pinned_tls_peer pin_store network node fp operation s).1 = Ok t ->
     pin_store = true /\ authorized_in (content s) network node fp /\ t = operation ()) /\
  (reliable S -> pin_store = true -> authorized_in (content s) network node fp ->
     (with_approved_pinned_tls_peer pin_store network node fp operation s).1 = Ok (operation ())) /\
  (forall l, (approved_control_pins pin_store network s).1 = Ok l -> forall p,
     p ∈ l <-> pp_network p = network /\ authorized_in (content s) network (pp_node p) (pp_fingerprint p)).
Proof.
  split; [apply with_approved_reads|]. split; [|split].
  - intros t Ht. destruct (with_approved_pinned_tls_peer pin_store network node fp operation s) as [r s'] eqn:Hrun.
    cbn [fst] in Ht. subst r. by eapply with_approved_Ok.
  - intros Hrel Hp Ha. destruct (with_approved_runs network node fp operation s Hrel Hp Ha) as [s' Hrun]. by rewrite Hrun.
  - intros l Hl. destruct (approved_control_pins pin_store network s) as [r s'] eqn:Hrun. cbn [fst] in Hl. subst r.
    by eapply approved_control_pins_Ok.
Qed.

(** Revocation: when forgetting a peer succeeds, its key is gone and no key is
    authorized for it any more, and for every other peer exactly the same keys
    are; when it fails, either nothing changed or the key is gone already, so
    that a half-done revocation never leaves a peer whose old key is accepted
    without approval on file. *)
Theorem peer_revocation (node : NodeId) (s : S) (r : CoreResult ()) (s' : S) (Hpin : pin_store = true)
    (Hrun : forget_peer_durably pin_store node s = (r, s')) :
  match r with
  | Ok _ => exists network, current_network (content s).1 = Ok (Some network) /\
      (content s').2 !! (network, node) = None /\
      (forall fp, ~ authorized_in (content s') network node fp) /\
      (forall network' node' fp, node' <> node ->
         authorized_in (content s') network' node' fp <-> authorized_in (content s) network' node' fp)
  | Err _ => content s' = content s \/
      exists network, current_network (content s).1 = Ok (Some network) /\ (content s').2 !! (network, node) = None /\
        forall fp, ~ authorized_in (content s') network node fp
  end.
Proof.
  pose proof (forget_peer_durably_spec node s r s' Hrun) as Hspec. unfold forgotten, pins_without in Hspec. rewrite Hpin in Hspec.
  destruct r as [[]|e].
  - destruct Hspec as (network & m & Hcur & Hm & Hc). exists network. split; [done|]. rewrite Hc. cbn [snd].
    assert (delete (network, node) (content s).2 !! (network, node) = None) as Hgone by apply lookup_delete_eq.
    split; [done|]. split; [by intros fp (_ & _ & Hp); cbn [snd] in Hp; rewrite Hgone in Hp|].
    intros network' node' fp Hne. unfold authorized_in. cbn [snd].
    pose proof (approved_forgotten node network m (content s) network' node' Hcur Hm) as Hiff.
    assert (approved_in (put_membership network (forget_peer node m).2 (content s).1, delete (network, node) (content s).2)
      network' node' <-> approved_in (content s) network' node') as ->.
    { unfold approved_in in *. cbn [fst] in *. rewrite Hiff. naive_solver. }
    rewrite lookup_delete_ne; [done|]. intros [=]. by subst.
  - destruct Hspec as [|(network & m & Hcur & Hm & Hp & _)]; [by left|right]. exists network. split; [done|].
    assert ((content s').2 !! (network, node) = None) as Hgone by (rewrite Hp; apply lookup_delete_eq). split; [done|].
    intros fp (_ & _ & Hfp). congruence.
Qed.

(** A key is enrolled only for an approved peer, only the key it proved and
    the operator confirmed, and never over another key: whatever the outcome, the
    registry is untouched, no existing pin changes or disappears, a new pin is the
    verified one of this peer, first of its network; approval alone, which trusting
    grants, never touches the pins. *)
Theorem key_enrollment_confirmed (network : NetworkId) (node : NodeId) (verified confirmed : SpkiSha256)
    (deadline : option Z) (s s' : S) (r : CoreResult bool)
    (Hrun : enroll_key_inner pin_store network node verified confirmed deadline s = (r, s')) :
  (content s').1 = (content s).1 /\ (content s).2 ⊆ (content s').2 /\
  (forall k p, (content s').2 !! k = Some p -> (content s).2 !! k = None ->
     k = (network, node) /\ p = verified /\ verified = confirmed /\ approved_in (content s) network node /\
     forall node', (content s).2 !! (network, node') <> Some verified) /\
  (forall b, r = Ok b -> (content s').2 !! (network, node) = Some verified /\ verified = confirmed) /\
  (forall node' r' s'', trust_peer_durably node' s = (r', s'') -> (content s'').2 = (content s).2).
Proof.
  pose proof (enroll_key_inner_spec network node verified confirmed deadline s r s' Hrun) as [Hreg Hspec].
  assert (forall t, enroll_verified network node verified (content s).2 = (Ok true, t) ->
    t = <[(network, node) := verified]> (content s).2 /\ (content s).2 !! (network, node) = None /\
    forall node', (content s).2 !! (network, node') <> Some verified) as Hnew.
  { intros t. unfold enroll_verified. destruct (zero_identity network node); [done|].
    destruct (pin_taken network node verified (content s).2) eqn:Htk; [done|]. rewrite pin_taken_false in Htk.
    destruct ((content s).2 !! (network, node)) as [old|] eqn:Hold; [by case_bool_decide|]. intros [= <-].
    split; [done|]. split; [done|]. intros node' Hn. pose proof (Htk node' Hn). subst. congruence. }
  split; [done|]. split; [|split; [|split]].
  - destruct r as [[]|e].
    + destruct Hspec as (_ & (-> & Hnone & _)%Hnew). by apply insert_subseteq.
    + by destruct Hspec as (_ & _ & ->).
    + destruct Hspec as [-> |(_ & (-> & Hnone & _)%Hnew)]; [done|]. by apply insert_subseteq.
  - assert (enrollable network node verified confirmed (content s) ->
      enroll_verified network node verified (content s).2 = (Ok true, (content s').2) ->
      forall k p, (content s').2 !! k = Some p -> (content s).2 !! k = None ->
      k = (network, node) /\ p = verified /\ verified = confirmed /\ approved_in (content s) network node /\
      forall node', (content s).2 !! (network, node') <> Some verified) as Hadd.
    { intros (_ & Ha & Hv) (Ht & _ & Hno)%Hnew k p Hk Hn. rewrite Ht in Hk.
      apply lookup_insert_Some in Hk as [[<- <-]|[_ Hk]]; [|congruence]. done. }
    intros k p Hk Hn. destruct r as [[]|e].
    + destruct Hspec as (Hable & Hen). by apply (Hadd Hable Hen).
    + destruct Hspec as (_ & _ & Heq). rewrite Heq in Hk. congruence.
    + destruct Hspec as [Heq|(Hable & Hen)]; [rewrite Heq in Hk; congruence|]. by apply (Hadd Hable Hen).
  - intros [] ->.
    + destruct Hspec as ((_ & _ & Hv) & (-> & _)%Hnew). split; [apply lookup_insert_eq|done].
    + destruct Hspec as ((_ & _ & Hv) & Hp & ->). done.
  - intros node' r' s'' Ht. apply (trust_peer_durably_spec node' s r' s'' Ht).
Qed.
End facts.

(** ** Stores in memory *)

Record disk := mkDisk { d_registry : MembershipRegistry; d_pins : PeerKeyPins; d_clock : Z; d_locked : bool }.

#[local] Instance disk_stores : TrustStores disk := {
  lock_guard := fun d =>
    if d_locked d then (Err (core_error Internal "peer trust state lock poisoned"), d)
    else (Ok (), mkDisk (d_registry d) (d_pins d) (d_clock d) true);
  unlock_guard d := mkDisk (d_registry d) (d_pins d) (d_clock d) false;
  load_registry := fun d => (Ok (d_registry d), d);
  save_registry r := fun d => (Ok (), mkDisk r (d_pins d) (d_clock d) (d_locked d));
  load_pin_table := fun d => (Ok (d_pins d), d);
  save_pin_table t := fun d => (Ok (), mkDisk (d_registry d) t (d_clock d) (d_locked d));
  clock_now d := (d_clock d, mkDisk (d_registry d) (d_pins d) (d_clock d + 1) (d_locked d));
}.

#[local] Program Instance disk_lawful : LawfulTrustStores disk := {
  content d := (d_registry d, d_pins d);
}.
Next Obligation. intros d. cbn. by destruct (d_locked d). Qed.
Next Obligation. done. Qed.
Next Obligation. done. Qed.
Next Obligation. intros d. split; [done|]. by intros r [= <-]. Qed.
Next Obligation. intros d. split; [done|]. by intros r [= <-]. Qed.
Next Obligation. intros r d. split; [done|by left]. Qed.
Next Obligation. intros t d. split; [done|by left]. Qed.

Definition demo_member : NetworkMembership :=
  mkMembership (fill_id 1) (mkDisplayName [104]%Z) Member {[ fill_id 2 := mkPeer (fill_id 2) true true ]}.
Definition demo_key : SpkiSha256 := mkSpki (fill_bytes 32 5).
Definition demo_disk (pins : PeerKeyPins) : disk := mkDisk (mkRegistry {[ fill_id 1 := demo_member ]}) pins 10 false.

Lemma pinned_peer_gate_witness :
  (with_approved_pinned_tls_peer true (fill_id 1) (fill_id 2) demo_key (fun _ => 7)
     (demo_disk {[ (fill_id 1, fill_id 2) := demo_key ]})).1 = Ok 7 /\
  authorized_in (content (demo_disk {[ (fill_id 1, fill_id 2) := demo_key ]})) (fill_id 1) (fill_id 2) demo_key.
Proof.
  assert ((with_approved_pinned_tls_peer true (fill_id 1) (fill_id 2) demo_key (fun _ => 7)
     (demo_disk {[ (fill_id 1, fill_id 2) := demo_key ]})).1 = Ok 7) as Hrun by (vm_compute; reflexivity).
  split; [exact Hrun|].
  exact (proj1 (proj2 (proj1 (proj2 (pinned_peer_gate true (fill_id 1) (fill_id 2) demo_key (fun _ => 7)
    (demo_disk {[ (fill_id 1, fill_id 2) := demo_key ]}))) 7 Hrun))).
Defined.

Lemma peer_revocation_witness :
  let r := forget_peer_durably true (fill_id 2) (demo_disk {[ (fill_id 1, fill_id 2) := demo_key ]}) in
  r.1 = Ok () /\ exists network, (content r.2).2 !! (network, (fill_id 2 : NodeId)) = None.
Proof.
  destruct (forget_peer_durably true (fill_id 2) (demo_disk {[ (fill_id 1, fill_id 2) := demo_key ]})) as [r d] eqn:Hrun.
  assert (r = Ok ()) as Hr by (apply (f_equal fst) in Hrun; vm_compute in Hrun; symmetry; exact Hrun). subst r.
  destruct (peer_revocation true (fill_id 2) _ _ _ eq_refl Hrun) as (network & _ & Hgone & _).
  split; [reflexivity|]. exists network. exact Hgone.
Defined.

Lemma key_enrollment_confirmed_witness :
  let r := enroll_key_inner true (fill_id 1) (fill_id 2) demo_key demo_key (Some 20%Z) (demo_disk ∅) in
  r.1 = Ok true /\ (content r.2).2 !! ((fill_id 1 : NetworkId), (fill_id 2 : NodeId)) = Some demo_key.
Proof.
  destruct (enroll_key_inner true (fill_id 1) (fill_id 2) demo_key demo_key (Some 20%Z) (demo_disk ∅)) as [r d] eqn:Hrun.
  assert (r = Ok true) as Hr by (apply (f_equal fst) in Hrun; vm_compute in Hrun; symmetry; exact Hrun). subst r.
  destruct (key_enrollment_confirmed true (fill_id 1) (fill_id 2) demo_key demo_key (Some 20%Z) _ _ _ Hrun) as (_ & _ & _ & Hb & _).
  split; [reflexivity|]. apply (Hb true eq_refl).
Defined.
