(* ===== verification/PinnedIngress.v ===== *)
(** The ingress of a verified channel: [apps/daemon/src/pinned_ingress.rs].

    Every plaintext chunk passes the durable trust gate of [PeerTrust] before it
    reaches the session parser of [SessionActivity].  The trust stores are shared:
    other operations may change them between two calls. *)

From S2P Require Import Prelude Order Ident Membership PeerPins ConnectionDeadline ControlFrame ControlStream ControlIo Handshake SessionStream SessionActivity PeerTrust.

Inductive PinnedIngressError :=
| Authorization (e : CoreError) | Protocol (e : InboundActivityError) | IngressTerminal.

Record VerifiedTlsIdentity := mkTlsIdentity {
  vi_network : NetworkId; vi_peer : NodeId; vi_key : SpkiSha256; vi_session : bytes 16;
}.

Record PinnedSessionIngress := mkIngress {
  pi_network : NetworkId;
  pi_peer : NodeId;
  pi_key : SpkiSha256;
  pi_activity : AuthenticatedInboundActivity;
  pi_terminal : bool;
}.

Definition with_activity (a : AuthenticatedInboundActivity) (g : PinnedSessionIngress) : PinnedSessionIngress :=
  mkIngress (pi_network g) (pi_peer g) (pi_key g) a (pi_terminal g).
Definition end_ingress (g : PinnedSessionIngress) : PinnedSessionIngress :=
  mkIngress (pi_network g) (pi_peer g) (pi_key g) (pi_activity g) true.
Definition ingress_expires_ms (g : PinnedSessionIngress) : Z := expires_ms (SessionActivity.deadline (pi_activity g)).

Section ingress.
Context {S : Type} `{TrustStores S} (pin_store : bool).
Variable from_slice : list Z -> option ControlEnvelope.

Abbreviation ing A := (io (PinnedSessionIngress * S) PinnedIngressError A).

Definition after_verified_handshake (v : VerifiedTlsIdentity) (d : ConnectionDeadline) :
  stres S PinnedIngressError PinnedSessionIngress :=
  let! _ := st_map_err Authorization
    (require_approved_pinned_tls_peer pin_store (vi_network v) (vi_peer v) (vi_key v)) in
  let! activity := st_lift (map_err Protocol
    (activity_after_verified_hello (vi_network v) (vi_peer v) (vi_session v) d)) in
  st_ret (mkIngress (vi_network v) (vi_peer v) (vi_key v) activity false).

(** [with_approved_pinned_tls_peer(network, peer, key, || self.activity...)] and
    the match on its outcome; the closure's effect on the activity is part of
    what it returns. *)
Definition gated {A : Type} (operation : io AuthenticatedInboundActivity InboundActivityError A) : ing A := fun '(g, s) =>
  if pi_terminal g then Some (Err IngressTerminal, (g, s))
  else
    let (r, s') := with_approved_pinned_tls_peer pin_store (pi_network g) (pi_peer g) (pi_key g)
      (fun _ => operation (pi_activity g)) s in
    match r with
    | Ok (Some (Ok x, a)) => Some (Ok x, (with_activity a g, s'))
    | Ok (Some (Err e, a)) => Some (Err (Protocol e), (end_ingress (with_activity a g), s'))
    | Ok None => None
    | Err e => Some (Err (Authorization e), (end_ingress g, s'))
    end.

Definition ingress_check_before_read (now_ms : Z) : ing () := gated (io_call (check_before_read now_ms)).

Definition receive_verified_plaintext (plaintext : list Z) (now_ms : Z) : ing (list ControlEnvelope) :=
  gated (feed_verified_plaintext from_slice plaintext now_ms).

(** The end of the stream is terminal in every case. *)
Definition ingress_finish_at (now_ms : Z) : ing () := fun gs =>
  match gated (io_call (finish_at now_ms)) gs with
  | Some (r, (g, s)) => Some (r, (end_ingress g, s))
  | None => None
  end.

(** ** Histories *)

Inductive ingress_op := ICheck (now_ms : Z) | IReceive (plaintext : list Z) (now_ms : Z) | IFinish (now_ms : Z).

Definition run_ingress_op (o : ingress_op) : ing (list ControlEnvelope) := fun gs =>
  match o with
  | ICheck t => match ingress_check_before_read t gs with Some (Ok _, gs') => Some (Ok [], gs') | Some (Err e, gs') => Some (Err e, gs') | None => None end
  | IReceive p t => receive_verified_plaintext p t gs
  | IFinish t => match ingress_finish_at t gs with Some (Ok _, gs') => Some (Ok [], gs') | Some (Err e, gs') => Some (Err e, gs') | None => None end
  end.

(** The activity operation behind each. *)
Definition activity_of (o : ingress_op) : activity_op :=
  match o with ICheck t => OpCheck t | IReceive p t => OpFeed p t | IFinish t => OpFinish t end.

(** A history in which the trust stores may become anything between the calls:
    the outcomes, each with the stores' content when it was decided. *)
Fixpoint run_ingress {C : Type} (see : S -> C) (l : list (S * ingress_op)) (g : PinnedSessionIngress) :
  option (list (C * result PinnedIngressError (list ControlEnvelope)) * PinnedSessionIngress) :=
  match l with
  | [] => Some ([], g)
  | (s, o) :: l =>
    match run_ingress_op o (g, s) with
    | None => None
    | Some (r, (g', _)) =>
      match run_ingress see l g' with
      | None => None
      | Some (hist, g'') => Some ((see s, r) :: hist, g'')
      end
    end
  end.
End ingress.

Definition handed_out {C E : Type} (hist : list (C * result E (list ControlEnvelope))) : list ControlEnvelope :=
  concat ((fun cr => match cr.2 with Ok out => out | Err _ => [] end) <$> hist).

(** ** Facts *)

Section ingress_facts.
Context {S : Type} `{LawfulTrustStores S} (pin_store : bool).
Context (net : NetworkId) (peer : NodeId) (sid : bytes 16) (key : SpkiSha256).
Variable from_slice : list Z -> option ControlEnvelope.

Abbreviation op_run := (run_ingress_op pin_store from_slice).
Abbreviation accepts := (accepts net peer sid).
Abbreviation activity_live := (activity_live net peer sid).

(** The ingress of this peer under this key. *)
Definition of_peer (g : PinnedSessionIngress) : Prop := pi_network g = net /\ pi_peer g = peer /\ pi_key g = key.

Lemma terminal_ingress_op o (g : PinnedSessionIngress) (s : S) :
  pi_terminal g = true -> op_run o (g, s) = Some (Err IngressTerminal, (g, s)).
Proof.
  intros Ht. destruct o; cbn [run_ingress_op]; unfold ingress_check_before_read, receive_verified_plaintext, ingress_finish_at, gated;
    rewrite Ht; try done. unfold end_ingress. rewrite <- Ht. by destruct g.
Qed.

(** What passing through the gate gives. *)
Lemma gated_cases {A : Type} (operation : io AuthenticatedInboundActivity InboundActivityError A) g (s : S) r a' :
  of_peer g -> pi_terminal g = false -> operation (pi_activity g) = Some (r, a') ->
  exists r' g' s', gated pin_store operation (g, s) = Some (r', (g', s')) /\ of_peer g' /\ content s' = content s /\
    match r' with
    | Ok x => r = Ok x /\ authorized_in (content s) net peer key /\ pi_activity g' = a' /\ pi_terminal g' = false
    | Err _ => pi_terminal g' = true /\
        (pi_activity g' = pi_activity g \/ (pi_activity g' = a' /\ exists e, r = Err e))
    end.
Proof.
  intros (Hn & Hp & Hk) Ht Hop. unfold gated. rewrite Ht, Hn, Hp, Hk.
  pose proof (with_approved_reads pin_store net peer key (fun _ => operation (pi_activity g)) s) as Hc.
  destruct (with_approved_pinned_tls_peer pin_store net peer key (fun _ => operation (pi_activity g)) s) as [[o|e] s'] eqn:Hrun;
    cbn [snd] in Hc.
  - apply with_approved_Ok in Hrun as (_ & Ha & ->). rewrite Hop. destruct r as [x|e].
    + eexists _, _, _. split; [done|]. split; [done|]. split; [done|]. cbn. by rewrite Ht.
    + eexists _, _, _. split; [done|]. split; [done|]. split; [done|]. cbn. split; [done|]. right. by eauto.
  - eexists _, _, _. split; [done|]. split; [done|]. split; [done|]. cbn. auto.
Qed.

(** What one call does to a live ingress. *)
Definition ingress_outcome (q : Z) (o : ingress_op) (g : PinnedSessionIngress) (s : S)
  (r : result PinnedIngressError (list ControlEnvelope)) (g' : PinnedSessionIngress) : Prop :=
  match r with
  | Ok out => authorized_in (content s) net peer key /\
      (exists q', accepts q (goodbye_seen (pi_activity g)) out q' (goodbye_seen (pi_activity g')) /\
        (pi_terminal g' = false -> activity_live q' (pi_activity g'))) /\
      (op_time (activity_of o) < ingress_expires_ms g)%Z /\ (op_bytes (activity_of o) = [] -> out = []) /\ (out = [] -> ingress_expires_ms g' = ingress_expires_ms g) /\
      (if o is IFinish _ then goodbye_seen (pi_activity g) = true /\ pi_terminal g' = true else pi_terminal g' = false)
  | Err _ => pi_terminal g' = true /\ goodbye_seen (pi_activity g') = goodbye_seen (pi_activity g)
  end.

Lemma ingress_op_step q o g (s : S) :
  of_peer g -> pi_terminal g = false -> activity_live q (pi_activity g) -> Forall byte_ok (op_bytes (activity_of o)) ->
  exists r g' s', op_run o (g, s) = Some (r, (g', s')) /\ of_peer g' /\ content s' = content s /\ ingress_outcome q o g s r g'.
Proof.
  intros Hg Ht Hl Hb. destruct (run_activity_op_step net peer sid from_slice q (pi_activity g) (activity_of o) Hl Hb)
    as (r & a' & Hrun & Hout). destruct o as [t|p t|t]; cbn [activity_of run_activity_op run_ingress_op] in *.
  - destruct (check_before_read t (pi_activity g)) as [r0 a0] eqn:Hck. injection Hrun as <- <-.
    destruct (gated_cases (io_call (check_before_read t)) g s r0 a0 Hg Ht) as (r' & g' & s' & Hgate & Hg' & Hc & Hr');
      [unfold io_call; by rewrite Hck|]. unfold ingress_check_before_read. rewrite Hgate. destruct r' as [[]|e].
    + eexists _, _, _. split; [done|]. split; [done|]. split; [done|]. destruct Hr' as (-> & Ha & <- & Htg). split; [done|].
      cbn [no_frames] in Hout. destruct Hout as (Htm & (q' & Hacc & Hlive) & Hd & Hta & Hnil).
      split; [exists q'; split; [done|]; by intros _; apply Hlive|]. unfold ingress_expires_ms. rewrite Hd. split; [exact (proj2 Htm)|]. by split.
    + eexists _, _, _. split; [done|]. split; [done|]. split; [done|]. cbn [ingress_outcome].
      destruct Hr' as [Htg [-> |[-> [e' ->]]]]; [done|]. cbn [no_frames] in Hout. by destruct Hout.
  - destruct (gated_cases _ g s r a' Hg Ht Hrun) as (r' & g' & s' & Hgate & Hg' & Hc & Hr').
    unfold receive_verified_plaintext. rewrite Hgate. eexists _, _, _. split; [done|]. split; [done|]. split; [done|].
    destruct r' as [out|e].
    + destruct Hr' as (-> & Ha & <- & Htg). split; [done|]. destruct Hout as (Htm & (q' & Hacc & Hlive) & Hd & Hta & Hnil).
      split; [exists q'; split; [done|]; by intros _; apply Hlive|]. unfold ingress_expires_ms. rewrite Hd.
      split; [exact (proj2 Htm)|]. split; [exact Hnil|]. by split; [intros -> |].
    + cbn [ingress_outcome]. destruct Hr' as [Htg [-> |[-> [e' ->]]]]; [done|]. by destruct Hout.
  - destruct (finish_at t (pi_activity g)) as [r0 a0] eqn:Hck. injection Hrun as <- <-.
    destruct (gated_cases (io_call (finish_at t)) g s r0 a0 Hg Ht) as (r' & g' & s' & Hgate & Hg' & Hc & Hr');
      [unfold io_call; by rewrite Hck|]. unfold ingress_finish_at. rewrite Hgate. destruct r' as [[]|e].
    + eexists _, _, _. split; [done|]. split; [done|]. split; [done|]. destruct Hr' as (-> & Ha & <- & Htg). split; [done|].
      cbn [no_frames] in Hout. destruct Hout as (Htm & (q' & Hacc & Hlive) & Hd & Hta & Hnil).
      split; [by exists q'|]. unfold ingress_expires_ms. cbn [end_ingress pi_activity]. rewrite Hd. split; [exact (proj2 Htm)|]. by destruct Hta.
    + eexists _, _, _. split; [done|]. split; [done|]. split; [done|]. cbn [ingress_outcome end_ingress pi_terminal pi_activity].
      destruct Hr' as [Htg [-> |[-> [e' ->]]]]; [done|]. cbn [no_frames] in Hout. by destruct Hout.
Qed.

(** After an error everything is refused. *)
Fixpoint refused_after_error {C : Type} (ended : bool) (hist : list (C * result PinnedIngressError (list ControlEnvelope))) : Prop :=
  match hist with
  | [] => True
  | (_, r) :: hist => (ended = true -> r = Err IngressTerminal) /\ refused_after_error (ended || negb (is_ok r)) hist
  end.

Lemma run_ingress_terminal (l : list (S * ingress_op)) g :
  pi_terminal g = true ->
  exists hist, run_ingress pin_store from_slice content l g = Some (hist, g) /\ handed_out hist = [] /\
    Forall (fun cr => cr.2 = Err IngressTerminal) hist /\ refused_after_error true hist.
Proof.
  intros Ht. induction l as [|[s o] l (hist & Hrun & Hh & Hall & Href)]; [by exists []|]. cbn [run_ingress].
  rewrite terminal_ingress_op by done. rewrite Hrun. eexists. split; [done|]. split; [done|]. split; [by constructor|].
  cbn [refused_after_error is_ok negb orb]. by split.
Qed.

Lemma refused_weaken {C : Type} (hist : list (C * result PinnedIngressError (list ControlEnvelope))) :
  refused_after_error true hist -> refused_after_error false hist.
Proof.
  destruct hist as [|[c r] hist]; [done|]. cbn [refused_after_error]. intros [Hr Hh]. split; [done|].
  rewrite Hr by done. cbn. by rewrite Hr in Hh.
Qed.

Lemma run_ingress_spec (l : list (S * ingress_op)) q g :
  of_peer g -> pi_terminal g = false -> activity_live q (pi_activity g) ->
  Forall (fun so => Forall byte_ok (op_bytes (activity_of so.2))) l ->
  exists hist g' q', run_ingress pin_store from_slice content l g = Some (hist, g') /\
    accepts q (goodbye_seen (pi_activity g)) (handed_out hist) q' (goodbye_seen (pi_activity g')) /\
    Forall (fun cr => is_ok cr.2 = true -> authorized_in cr.1 net peer key) hist /\ refused_after_error false hist.
Proof.
  revert q g. induction l as [|[s o] l IH]; intros q g Hg Ht Hl Hb; cbn [run_ingress].
  { exists [], g, q. split; [done|]. split; [constructor|done]. }
  apply Forall_cons in Hb as [Hbo Hb]. destruct (ingress_op_step q o g s Hg Ht Hl Hbo) as (r & g1 & s1 & -> & Hg1 & _ & Hr).
  destruct r as [out|e]; cbn [is_ok negb orb].
  - destruct Hr as (Ha & (q' & Hacc & Hlive) & _). destruct (pi_terminal g1) eqn:Ht1.
    + destruct (run_ingress_terminal l g1 Ht1) as (hist & -> & Hh & Hall & Href). eexists _, g1, q'. split; [done|].
      change (handed_out ((content s, Ok out) :: hist)) with (out ++ handed_out hist). rewrite Hh, app_nil_r.
      split; [done|]. split; [|split; [done|by apply refused_weaken]]. constructor; [done|].
      eapply Forall_impl; [exact Hall|]. by intros [c r] ->.
    + destruct (IH q' g1 Hg1 Ht1 (Hlive eq_refl) Hb) as (hist & g2 & q2 & -> & Hacc2 & Hall & Href).
      eexists _, g2, q2. split; [done|].
      change (handed_out ((content s, Ok out) :: hist)) with (out ++ handed_out hist).
      split; [apply accepts_app; by exists q', (goodbye_seen (pi_activity g1))|]. split; [by constructor|]. by split.
  - destruct Hr as [Ht1 Hgb]. destruct (run_ingress_terminal l g1 Ht1) as (hist & -> & Hh & Hall & Href).
    eexists _, g1, q. split; [done|].
    change (handed_out ((content s, Err e) :: hist)) with (handed_out hist). rewrite Hh, Hgb.
    split; [constructor|]. split; [|by split]. constructor; [done|]. eapply Forall_impl; [exact Hall|]. by intros [c r] ->.
Qed.
End ingress_facts.

(** The ingress a verified handshake leaves. *)
Lemma fresh_ingress {S : Type} `{LawfulTrustStores S} (pin_store : bool) (v : VerifiedTlsIdentity) (d : ConnectionDeadline)
    (s0 s1 : S) (g : PinnedSessionIngress) :
  after_verified_handshake pin_store v d s0 = (Ok g, s1) ->
  authorized_in (content s0) (vi_network v) (vi_peer v) (vi_key v) /\
  of_peer (vi_network v) (vi_peer v) (vi_key v) g /\ pi_terminal g = false /\
  activity_live (vi_network v) (vi_peer v) (vi_session v) 2 (pi_activity g) /\ goodbye_seen (pi_activity g) = false.
Proof.
  unfold after_verified_handshake. intros ([] & s2 & Hgate & Hrun)%st_bind_Ok.
  unfold st_map_err in Hgate.
  destruct (require_approved_pinned_tls_peer pin_store (vi_network v) (vi_peer v) (vi_key v) s0) as [[[]|e] s3] eqn:Hreq; [|done].
  apply with_approved_Ok in Hreq as (_ & Ha & _). split; [done|].
  apply st_bind_Ok in Hrun as (a & s4 & [Hact _]%lift_Ok & Hrun). injection Hrun as <- _. split; [done|]. split; [done|].
  destruct (activity_after_verified_hello (vi_network v) (vi_peer v) (vi_session v) d) as [a'|e] eqn:Hnew; [|done].
  injection Hact as ->. unfold activity_after_verified_hello in Hnew.
  apply guard_err_Ok in Hnew as [Hst%negb_false_iff%bool_decide_eq_true (st & Hs & [= <-])%result_bind_Ok].
  assert (stream_after_verified_hello (vi_network v) (vi_peer v) (vi_session v) = Ok st) as [Hfresh _]%fresh_session
    by (by destruct (stream_after_verified_hello _ _ _); cbn [map_err] in Hs; congruence).
  by split.
Qed.

(** A verified channel delivers only while its peer is approved: from a
    verified handshake on, over any history of reads, checks and ends between
    which the durable trust state may become anything, every call answers; each
    call that succeeds did so while the peer was approved in the current network
    with exactly the key of this channel; what was handed out is one session's
    frames in order; and after the first refusal everything is refused. *)
Theorem pinned_ingress_safe {S : Type} `{LawfulTrustStores S} (pin_store : bool)
    (from_slice : list Z -> option ControlEnvelope) (v : VerifiedTlsIdentity) (d : ConnectionDeadline)
    (s0 s1 : S) (g : PinnedSessionIngress) (l : list (S * ingress_op)) :
  after_verified_handshake pin_store v d s0 = (Ok g, s1) ->
  Forall (fun so => Forall byte_ok (op_bytes (activity_of so.2))) l ->
  authorized_in (content s0) (vi_network v) (vi_peer v) (vi_key v) /\
  exists hist g' last, run_ingress pin_store from_slice content l g = Some (hist, g') /\
    accepts (vi_network v) (vi_peer v) (vi_session v) 2 false (handed_out hist) last (goodbye_seen (pi_activity g')) /\
    Forall (fun cr => is_ok cr.2 = true -> authorized_in cr.1 (vi_network v) (vi_peer v) (vi_key v)) hist /\
    refused_after_error false hist.
Proof.
  intros (Ha & Hg & Ht & Hl & Hgb)%fresh_ingress Hb. split; [done|].
  pose proof (run_ingress_spec pin_store (vi_network v) (vi_peer v) (vi_session v) (vi_key v) from_slice l 2 g Hg Ht Hl Hb) as Hrun.
  by rewrite Hgb in Hrun.
Qed.

(** ** Example: the peer is revoked between two reads *)

#[local] Existing Instances disk_stores disk_lawful.

Definition demo_identity : VerifiedTlsIdentity := mkTlsIdentity (fill_id 1) (fill_id 2) demo_key (fill_bytes 16 9).
Definition demo_enrolled : disk := demo_disk {[ (fill_id 1, fill_id 2) := demo_key ]}.
Definition demo_ingress : PinnedSessionIngress :=
  mkIngress (fill_id 1) (fill_id 2) demo_key (mkActivity demo_stream (entered Active 0) false false) false.
Definition demo_reads : list (disk * ingress_op) :=
  [(demo_enrolled, IReceive [0; 0; 0; 1; 21]%Z 1000); (demo_disk ∅, ICheck 2000); (demo_enrolled, ICheck 3000)].

Lemma pinned_ingress_safe_witness :
  exists hist g' last, run_ingress true (table_from_slice demo_session_table) content demo_reads demo_ingress = Some (hist, g') /\
    accepts (fill_id 1) (fill_id 2) (fill_bytes 16 9) 2 false (handed_out hist) last (goodbye_seen (pi_activity g')) /\
    length (handed_out hist) = 1 /\
    Forall (fun cr => is_ok cr.2 = true -> authorized_in cr.1 (fill_id 1) (fill_id 2) demo_key) hist.
Proof.
  destruct (pinned_ingress_safe true (table_from_slice demo_session_table) demo_identity (entered Active 0)
    demo_enrolled (after_verified_handshake true demo_identity (entered Active 0) demo_enrolled).2 demo_ingress demo_reads)
    as (_ & hist & g' & last & Hrun & Hacc & Hall & _).
  - vm_compute. reflexivity.
  - repeat constructor; unfold byte_ok; lia.
  - exists hist, g', last. split; [exact Hrun|]. split; [exact Hacc|]. split; [|exact Hall].
    assert ((fun o => match o with Some (h, _) => length (handed_out h) | None => 0 end)
      (run_ingress true (table_from_slice demo_session_table) content demo_reads demo_ingress) = 1) as Hlen
      by (vm_compute; reflexivity). rewrite Hrun in Hlen. exact Hlen.
Defined.
