(* ===== verification/TlsIdentity.v ===== *)
(** Control TLS identities: the certificates, pins and persisted local identity of
    [apps/daemon/src/control_tls.rs].

    X.509 parsing, SHA-256, key generation and rustls' own checks of a
    certificate and its key are behind [X509].  A certificate and a PKCS#8 key
    are lists of bytes. *)

From S2P Require Import Prelude Order Ident PeerPins Capability ControlFrame Membership PeerTrust HostFs SecretStore.

(** ** Errors and what the crates decide *)

Inductive ControlTlsError :=
| TlsInvalidIdentity | TlsInvalidKey | InvalidCertificate | InvalidConfiguration | TlsFingerprintMismatch
| CertificateIdentityMismatch | KeyCertificateMismatch | HandshakeNotComplete | ExporterUnavailable
| MissingPeerCertificate | HandshakeDeadlineExpired | HandshakeFailed | HelloExchangeFailed
| RandomnessUnavailable | ExporterMismatch | CertificateExchangeFailed | CertificateExchangeDeadlineExpired
| EnrollmentCandidateExpired.
#[global] Instance ControlTlsError_eq_dec : EqDecision ControlTlsError.
Proof. solve_decision. Defined.

Abbreviation TlsResult := (result ControlTlsError).

Inductive GeneralName := DnsName (name : list Z) | OtherName.

Class X509 := {
  parsed_certificate : Type;
  (** What is left of the input, and the certificate. *)
  x509_from_der : list Z -> option (list Z * parsed_certificate);
  public_key_raw : parsed_certificate -> list Z;
  (** [None] when the extension is malformed. *)
  subject_alternative_name : parsed_certificate -> option (option (list GeneralName));
  sha256 : list Z -> bytes 32;
  (** [RootCertStore::add] accepts the certificate. *)
  root_accepts : list Z -> bool;
  (** [CertifiedKey::from_der] and [keys_match]. *)
  keys_match : list Z -> list Z -> bool;
  (** A key pair and a self-signed certificate for a DNS name. *)
  self_signed : list Z -> Z -> TlsResult (list Z * list Z);
}.

Definition MAX_CERTIFICATE_BYTES : nat := 16 * 1024.
Definition MAX_PRIVATE_KEY_BYTES : nat := 16 * 1024.
Definition MAX_ENROLLMENT_CANDIDATE_AGE : Z := 300000000000.

Section identity.
Context `{X509}.

(** ** Certificates *)

Definition complete_certificate (certificate : list Z) : TlsResult parsed_certificate :=
  parsed ← ok_or (x509_from_der certificate) InvalidCertificate;
  guard_err (negb (bool_decide (parsed.1 = []))) InvalidCertificate (Ok parsed.2).

Definition certificate_subject_public_key_info (certificate : list Z) : TlsResult (list Z) :=
  parsed ← complete_certificate certificate; Ok (public_key_raw parsed).

Definition certificate_fingerprint (certificate : list Z) : TlsResult SpkiSha256 :=
  info ← certificate_subject_public_key_info certificate;
  map_err (fun _ => TlsInvalidKey) (from_verified_certificate_digest (sha256 info)).

(** [node-] *)
Definition NODE_PREFIX : list Z := [110; 111; 100; 101; 45]%Z.
Definition node_dns_name (node : NodeId) : list Z := NODE_PREFIX ++ id_to_string node.

Definition strip_prefix (p l : list Z) : option (list Z) :=
  if bool_decide (take (length p) l = p) then Some (drop (length p) l) else None.

Definition certificate_node_id (certificate : list Z) : TlsResult NodeId :=
  parsed ← complete_certificate certificate;
  names ← ok_or (subject_alternative_name parsed) InvalidCertificate;
  names ← ok_or names CertificateIdentityMismatch;
  match names with
  | [DnsName name] =>
      value ← ok_or (strip_prefix NODE_PREFIX name) CertificateIdentityMismatch;
      node ← map_err (fun _ => CertificateIdentityMismatch) (id_from_str value);
      guard_err (negb (bool_decide (name = node_dns_name node))) CertificateIdentityMismatch (Ok node)
  | _ => Err CertificateIdentityMismatch
  end.

Definition certificate_names_node (certificate : list Z) (node : NodeId) : TlsResult bool :=
  found ← certificate_node_id certificate; Ok (bool_decide (found = node)).

(** ** A pinned certificate *)

Record PinnedControlTlsCertificate := mkPinnedCertificate {
  pc_network : NetworkId; pc_node : NodeId; pc_certificate : list Z; pc_fingerprint : SpkiSha256;
}.

Definition pinned_certificate_new (network : NetworkId) (node : NodeId) (certificate : list Z)
    (expected_fingerprint : SpkiSha256) : TlsResult PinnedControlTlsCertificate :=
  guard_err (bool_decide (network = zero_id) || bool_decide (node = zero_id)) TlsInvalidIdentity
  (guard_err (MAX_CERTIFICATE_BYTES <? length certificate)%nat InvalidCertificate
  (fingerprint ← certificate_fingerprint certificate;
   guard_err (negb (bool_decide (fingerprint = expected_fingerprint))) TlsFingerprintMismatch
   (named ← certificate_names_node certificate node;
    guard_err (negb named) CertificateIdentityMismatch
    (guard_err (negb (root_accepts certificate)) InvalidCertificate
    (Ok (mkPinnedCertificate network node certificate fingerprint)))))).

Definition peer_pin (c : PinnedControlTlsCertificate) : PinnedControlTlsPeer :=
  mkPinnedPeer (pc_network c) (pc_node c) (pc_fingerprint c).

Record ControlTlsCertificateCandidate := mkCandidate {
  cc_network : NetworkId; cc_node : NodeId; cc_certificate : list Z; cc_fingerprint : SpkiSha256; cc_observed_at : Z;
}.

(** [Instant::now()] is [now]; [checked_duration_since] is [None] for a clock
    that runs behind. *)
Definition confirm_fingerprint (now : Z) (independently_confirmed : SpkiSha256) (c : ControlTlsCertificateCandidate) :
    TlsResult PinnedControlTlsCertificate :=
  guard_err (negb ((cc_observed_at c <=? now)%Z && (now - cc_observed_at c <? MAX_ENROLLMENT_CANDIDATE_AGE)%Z))
    EnrollmentCandidateExpired
  (guard_err (negb (bool_decide (independently_confirmed = cc_fingerprint c))) TlsFingerprintMismatch
  (pinned_certificate_new (cc_network c) (cc_node c) (cc_certificate c) independently_confirmed)).

(** ** The local identity *)

Record LocalControlTlsIdentity := mkLocalIdentity {
  li_node : NodeId; li_certificate : list Z; li_private_key : list Z; li_fingerprint : SpkiSha256;
}.

Definition identity_from_der (node : NodeId) (certificate private_key : list Z) : TlsResult LocalControlTlsIdentity :=
  guard_err (bool_decide (node = zero_id)) TlsInvalidIdentity
  (guard_err (MAX_CERTIFICATE_BYTES <? length certificate)%nat InvalidCertificate
  (guard_err (bool_decide (private_key = []) || (MAX_PRIVATE_KEY_BYTES <? length private_key)%nat) TlsInvalidKey
  (fingerprint ← certificate_fingerprint certificate;
   named ← certificate_names_node certificate node;
   guard_err (negb named) CertificateIdentityMismatch
   (guard_err (negb (keys_match certificate private_key)) KeyCertificateMismatch
   (Ok (mkLocalIdentity node certificate private_key fingerprint)))))).

Definition generate_identity (node : NodeId) (entropy : Z) : TlsResult LocalControlTlsIdentity :=
  guard_err (bool_decide (node = zero_id)) TlsInvalidIdentity
  (pair ← self_signed (node_dns_name node) entropy;
   identity_from_der node pair.1 pair.2).

(** ** Its record *)

(** [BLUEROUTE_CONTROL_TLS_IDENTITY_V1] and a zero byte. *)
Definition IDENTITY_HEADER : list Z :=
  [66; 76; 85; 69; 82; 79; 85; 84; 69; 95; 67; 79; 78; 84; 82; 79; 76; 95; 84; 76; 83; 95; 73; 68; 69; 78; 84; 73; 84; 89;
   95; 86; 49; 0]%Z.

Definition invalid_identity_record (m : string) : CoreError := core_error PersistenceError m.
Definition malformed_record : CoreError := invalid_identity_record "local TLS identity record is malformed".

Definition encode_identity_record (i : LocalControlTlsIdentity) : CoreResult (list Z) :=
  let certificate := li_certificate i in
  let private_key := li_private_key i in
  guard_err ((MAX_CERTIFICATE_BYTES <? length certificate)%nat || (MAX_PRIVATE_KEY_BYTES <? length private_key)%nat)
    (invalid_identity_record "local TLS identity exceeds size limits")
  (guard_err (negb (u_ok 32 (Z.of_nat (length certificate))))
    (invalid_identity_record "local TLS certificate length is invalid")
  (guard_err (negb (u_ok 32 (Z.of_nat (length private_key))))
    (invalid_identity_record "local TLS private-key length is invalid")
  (Ok (IDENTITY_HEADER ++ to_be_bytes (Z.of_nat (length certificate)) ++ to_be_bytes (Z.of_nat (length private_key))
       ++ certificate ++ private_key)))).

Definition persisted_invalid : CoreError := core_error PersistenceError "persisted local TLS identity is invalid".

Definition decode_identity_record (record : list Z) (node : NodeId) : CoreResult LocalControlTlsIdentity :=
  let header := length IDENTITY_HEADER in
  let minimum := (header + 8)%nat in
  guard_err ((length record <? minimum)%nat || negb (bool_decide (take header record = IDENTITY_HEADER))) malformed_record
  (let certificate_len := Z.to_nat (from_be_bytes (take 4 (drop header record))) in
   let key_len := Z.to_nat (from_be_bytes (take 4 (drop (header + 4) record))) in
   guard_err ((certificate_len =? 0)%nat || (MAX_CERTIFICATE_BYTES <? certificate_len)%nat || (key_len =? 0)%nat
              || (MAX_PRIVATE_KEY_BYTES <? key_len)%nat || negb (minimum + certificate_len + key_len =? length record)%nat)
     malformed_record
   (let certificate := take certificate_len (drop minimum record) in
    let private_key := drop (minimum + certificate_len) record in
    map_err (fun _ => persisted_invalid) (identity_from_der node certificate private_key))).

(** ** [ControlTlsIdentityStore] *)

Section store.
Context `{World}.

Abbreviation host A := (stres Host CoreError A).

Definition IDENTITY_FILE : string := "control-tls-identity-v1".

Definition identity_load_or_create (node : NodeId) (entropy : Z) : host LocalControlTlsIdentity :=
  let! existing := secret_load IDENTITY_FILE in
  match existing with
  | Some record => st_lift (decode_identity_record record node)
  | None =>
      let! generated := st_lift (map_err (fun _ =>
        core_error PersistenceError "failed to generate the local TLS identity") (generate_identity node entropy)) in
      let! bytes := st_lift (encode_identity_record generated) in
      let! created := save_if_absent IDENTITY_FILE bytes in
      if created then st_ret generated
      else
        let! record := secret_load IDENTITY_FILE in
        let! record := st_lift (ok_or record
          (core_error PersistenceError "local TLS identity disappeared during first-start creation")) in
        st_lift (decode_identity_record record node)
  end.
End store.
End identity.

(** ** Facts *)

Lemma be4_value a b c d :
  byte_ok a -> byte_ok b -> byte_ok c -> byte_ok d ->
  from_be_bytes [a; b; c; d] = (((a * 256 + b) * 256 + c) * 256 + d)%Z.
Proof.
  intros Ha Hb Hc Hd. unfold from_be_bytes. cbn [fold_left]. rewrite !lor_shift8 by done. lia.
Qed.

Lemma be4_inj l l' :
  length l = 4 -> length l' = 4 -> Forall byte_ok l -> Forall byte_ok l' -> from_be_bytes l = from_be_bytes l' -> l = l'.
Proof.
  intros Hl Hl' Hb Hb'. destruct l as [|a [|b [|c [|d [|]]]]], l' as [|a' [|b' [|c' [|d' [|]]]]]; try done.
  repeat match goal with Hf : Forall byte_ok (_ :: _) |- _ => apply Forall_cons in Hf as [? Hf] end.
  rewrite !be4_value by done. unfold byte_ok in *. intros Heq.
  assert (a = a') as <- by lia. assert (b = b') as <- by lia. assert (c = c') as <- by lia. assert (d = d') as <- by lia. done.
Qed.

Lemma to_from_be_bytes l :
  length l = 4 -> Forall byte_ok l -> to_be_bytes (from_be_bytes l) = l /\ (0 <= from_be_bytes l <= u_max 32)%Z.
Proof.
  intros Hl Hb. assert (0 <= from_be_bytes l <= u_max 32)%Z as Hr.
  { destruct l as [|a [|b [|c [|d [|]]]]]; try done.
    repeat match goal with Hf : Forall byte_ok (_ :: _) |- _ => apply Forall_cons in Hf as [? Hf] end.
    rewrite be4_value by done. unfold byte_ok, u_max in *. change (2 ^ 32)%Z with 4294967296%Z. lia. }
  split; [|done]. apply be4_inj; [done|done|apply to_be_bytes_ok|done|]. by apply from_to_be_bytes.
Qed.

Section facts.
Context `{X509}.

Lemma strip_prefix_Some p l r : strip_prefix p l = Some r <-> l = p ++ r.
Proof.
  unfold strip_prefix. case_bool_decide as Hp.
  - split; [intros [= <-]; rewrite <- Hp at 1; by rewrite take_drop|]. intros ->. by rewrite drop_app_length.
  - split; [done|]. intros ->. by rewrite take_app_length in Hp.
Qed.

(** A complete certificate with exactly one name, of this form. *)
Definition names (certificate : list Z) (node : NodeId) : Prop :=
  exists c, x509_from_der certificate = Some ([], c) /\ subject_alternative_name c = Some (Some [DnsName (node_dns_name node)]).

Lemma complete_certificate_Ok certificate c :
  complete_certificate certificate = Ok c <-> x509_from_der certificate = Some ([], c).
Proof.
  unfold complete_certificate. rewrite result_bind_Ok. split.
  - intros ([rest c'] & Hp%ok_or_Ok & [Hr%negb_false_iff%bool_decide_eq_true [= <-]]%guard_err_Ok). simpl in *. by subst.
  - intros Hp. exists ([], c). rewrite Hp. done.
Qed.

Lemma certificate_node_id_Ok certificate node : certificate_node_id certificate = Ok node <-> names certificate node.
Proof.
  unfold certificate_node_id, names. rewrite result_bind_Ok. setoid_rewrite complete_certificate_Ok. split.
  - intros (c & Hc & (o & Ho%ok_or_Ok & (l & ->%ok_or_Ok & Hl)%result_bind_Ok)%result_bind_Ok). exists c. split; [done|].
    rewrite Ho. destruct l as [|[name|] [|]]; try done.
    apply result_bind_Ok in Hl as (v & _ & (n & _ & [Hn%negb_false_iff%bool_decide_eq_true [= <-]]%guard_err_Ok)%result_bind_Ok).
    by rewrite Hn.
  - intros (c & Hc & Hn). exists c. split; [done|]. rewrite Hn. cbn [ok_or mbind result_bind].
    assert (strip_prefix NODE_PREFIX (node_dns_name node) = Some (id_to_string node)) as -> by by apply strip_prefix_Some.
    cbn [ok_or mbind result_bind]. rewrite id_string_roundtrip. cbn [map_err mbind result_bind].
    by rewrite bool_decide_true.
Qed.

Lemma certificate_names_node_true certificate node : certificate_names_node certificate node = Ok true <-> names certificate node.
Proof.
  unfold certificate_names_node. rewrite result_bind_Ok. setoid_rewrite certificate_node_id_Ok. split.
  - intros (n & Hn & [= ->%bool_decide_eq_true]). done.
  - intros Hn. exists node. by rewrite bool_decide_true.
Qed.

(** The fingerprint of a complete certificate. *)
Definition fingerprint_of (certificate : list Z) (fp : SpkiSha256) : Prop :=
  exists c, x509_from_der certificate = Some ([], c) /\ fp = mkSpki (sha256 (public_key_raw c)) /\
    all_zero (sha256 (public_key_raw c)) = false.

Lemma certificate_fingerprint_Ok certificate fp : certificate_fingerprint certificate = Ok fp <-> fingerprint_of certificate fp.
Proof.
  unfold certificate_fingerprint, certificate_subject_public_key_info, fingerprint_of. rewrite result_bind_Ok.
  setoid_rewrite result_bind_Ok. setoid_rewrite complete_certificate_Ok. unfold from_verified_certificate_digest. split.
  - intros (info & (c & Hc & [= <-]) & Hd). exists c. split; [done|]. unfold guard_err in Hd.
    destruct (all_zero _) eqn:Hz; simpl in Hd; [done|]. injection Hd as <-. done.
  - intros (c & Hc & -> & Hz). exists (public_key_raw c). split; [by exists c|]. unfold guard_err. by rewrite Hz.
Qed.

Lemma identity_from_der_Ok node certificate key i :
  identity_from_der node certificate key = Ok i <->
  node <> zero_id /\ length certificate <= MAX_CERTIFICATE_BYTES /\ key <> [] /\ length key <= MAX_PRIVATE_KEY_BYTES /\
  names certificate node /\ keys_match certificate key = true /\
  exists fp, fingerprint_of certificate fp /\ i = mkLocalIdentity node certificate key fp.
Proof.
  unfold identity_from_der. rewrite !guard_err_Ok, bool_decide_eq_false, Nat.ltb_ge, orb_false_iff, bool_decide_eq_false, Nat.ltb_ge, result_bind_Ok.
  setoid_rewrite certificate_fingerprint_Ok. split.
  - intros (Hz & Hc & [Hk Hkl] & fp & Hfp & (named & Hn & [->%negb_false_iff [Hm%negb_false_iff [= <-]]%guard_err_Ok]%guard_err_Ok)%result_bind_Ok).
    apply certificate_names_node_true in Hn. split_and!; try done. by exists fp.
  - intros (Hz & Hc & Hk & Hkl & Hn & Hm & fp & Hfp & ->). split_and!; try done. exists fp. split; [done|].
    apply certificate_names_node_true in Hn. rewrite Hn. cbn [mbind result_bind]. by rewrite Hm.
Qed.
End facts.

Section record.
Context `{X509}.

Lemma u_ok_16k n : n <= 16 * 1024 -> u_ok 32 (Z.of_nat n) = true.
Proof. intros Hn. apply u_ok_spec. unfold u_max. change (2 ^ 32 - 1)%Z with 4294967295%Z. lia. Qed.

Lemma encode_identity_record_Ok i record :
  encode_identity_record i = Ok record <->
  length (li_certificate i) <= MAX_CERTIFICATE_BYTES /\ length (li_private_key i) <= MAX_PRIVATE_KEY_BYTES /\
  record = IDENTITY_HEADER ++ to_be_bytes (Z.of_nat (length (li_certificate i)))
    ++ to_be_bytes (Z.of_nat (length (li_private_key i))) ++ li_certificate i ++ li_private_key i.
Proof.
  unfold encode_identity_record. rewrite !guard_err_Ok, orb_false_iff, !Nat.ltb_ge, !negb_false_iff. split.
  - intros ([Hc Hk] & _ & _ & [= <-]). done.
  - intros (Hc & Hk & ->). rewrite (u_ok_16k _ Hc), (u_ok_16k _ Hk). by split_and!.
Qed.

(** A record is the header, two lengths and two parts of those lengths. *)
Definition record_of (certificate key record : list Z) : Prop :=
  certificate <> [] /\ key <> [] /\ length certificate <= MAX_CERTIFICATE_BYTES /\ length key <= MAX_PRIVATE_KEY_BYTES /\
  record = IDENTITY_HEADER ++ to_be_bytes (Z.of_nat (length certificate)) ++ to_be_bytes (Z.of_nat (length key)) ++ certificate ++ key.

Lemma decode_record_of record node certificate key :
  record_of certificate key record ->
  decode_identity_record record node = map_err (fun _ => persisted_invalid) (identity_from_der node certificate key).
Proof.
  intros (Hc & Hk & Hcl & Hkl & ->). unfold decode_identity_record.
  set (cl := to_be_bytes (Z.of_nat (length certificate))). set (kl := to_be_bytes (Z.of_nat (length key))).
  assert (length cl = 4) as Hl1 by done. assert (length kl = 4) as Hl2 by done.
  rewrite take_app_length, bool_decide_true by done.
  rewrite (drop_app_length IDENTITY_HEADER).
  assert (drop (length IDENTITY_HEADER + 4) (IDENTITY_HEADER ++ cl ++ kl ++ certificate ++ key) = kl ++ certificate ++ key) as ->
    by (by rewrite <- drop_drop, drop_app_length).
  assert (drop (length IDENTITY_HEADER + 8) (IDENTITY_HEADER ++ cl ++ kl ++ certificate ++ key) = certificate ++ key) as ->.
  { rewrite <- drop_drop, drop_app_length. done. }
  assert (take 4 (cl ++ kl ++ certificate ++ key) = cl) as -> by done.
  assert (take 4 (kl ++ certificate ++ key) = kl) as -> by done.
  assert (forall n, n <= 16 * 1024 -> Z.to_nat (from_be_bytes (to_be_bytes (Z.of_nat n))) = n) as Hback.
  { intros n Hn. rewrite from_to_be_bytes; [lia|]. unfold u_max. change (2 ^ 32 - 1)%Z with 4294967295%Z. lia. }
  assert (Z.to_nat (from_be_bytes cl) = length certificate) as -> by by apply Hback.
  assert (Z.to_nat (from_be_bytes kl) = length key) as -> by by apply Hback.
  assert (length (IDENTITY_HEADER ++ cl ++ kl ++ certificate ++ key) = length IDENTITY_HEADER + 8 + length certificate + length key) as Hlen
    by (rewrite !length_app, Hl1, Hl2; lia).
  rewrite Hlen. replace (_ <? _) with false by (symmetry; apply Nat.ltb_ge; lia).
  rewrite (Nat.eqb_refl (_ + length key)).
  replace (length certificate =? 0) with false by (symmetry; apply Nat.eqb_neq; by destruct certificate).
  replace (length key =? 0) with false by (symmetry; apply Nat.eqb_neq; by destruct key).
  rewrite (proj2 (Nat.ltb_ge _ _) Hcl), (proj2 (Nat.ltb_ge _ _) Hkl). cbn [orb negb guard_err].
  rewrite take_app_length. rewrite <- drop_drop.
  assert (drop (length IDENTITY_HEADER + 8) (IDENTITY_HEADER ++ cl ++ kl ++ certificate ++ key) = certificate ++ key) as ->.
  { rewrite <- drop_drop, drop_app_length. done. }
  by rewrite drop_app_length.
Qed.

Lemma decode_is_record_of record node i :
  Forall byte_ok record -> decode_identity_record record node = Ok i ->
  exists certificate key, record_of certificate key record.
Proof.
  intros Hb. unfold decode_identity_record.
  intros [[Hlen%Nat.ltb_ge Hhdr%negb_false_iff%bool_decide_eq_true]%orb_false_iff Hrest]%guard_err_Ok.
  apply guard_err_Ok in Hrest as [((((Hc0%Nat.eqb_neq & Hcm%Nat.ltb_ge)%orb_false_iff & Hk0%Nat.eqb_neq)%orb_false_iff
    & Hkm%Nat.ltb_ge)%orb_false_iff & Htot%negb_false_iff%Nat.eqb_eq)%orb_false_iff _].
  set (header := length IDENTITY_HEADER) in *.
  set (l1 := take 4 (drop header record)) in *. set (l2 := take 4 (drop (header + 4) record)) in *.
  assert (length l1 = 4) as Hl1 by (unfold l1; rewrite length_take, length_drop; lia).
  assert (length l2 = 4) as Hl2 by (unfold l2; rewrite length_take, length_drop; lia).
  destruct (to_from_be_bytes l1 Hl1) as [E1 R1]; [by apply Forall_take, Forall_drop|].
  destruct (to_from_be_bytes l2 Hl2) as [E2 R2]; [by apply Forall_take, Forall_drop|].
  set (n1 := Z.to_nat (from_be_bytes l1)) in *. set (n2 := Z.to_nat (from_be_bytes l2)) in *.
  set (tail := drop (header + 8) record). exists (take n1 tail), (drop n1 tail).
  assert (length tail = n1 + n2) as Ht by (unfold tail; rewrite length_drop; lia).
  assert (length (take n1 tail) = n1) as Hn1 by (rewrite length_take; lia).
  assert (length (drop n1 tail) = n2) as Hn2 by (rewrite length_drop; lia).
  split; [intros Hnil; rewrite Hnil in Hn1; simpl in Hn1; lia|].
  split; [intros Hnil; rewrite Hnil in Hn2; simpl in Hn2; lia|]. rewrite Hn1, Hn2. split; [done|]. split; [done|].
  rewrite take_drop. unfold n1, n2. rewrite !Z2Nat.id by lia. rewrite E1, E2.
  rewrite <- Hhdr at 1. rewrite <- (take_drop header record) at 1. f_equal.
  rewrite <- (take_drop 4 (drop header record)) at 1. fold l1. f_equal. rewrite drop_drop.
  rewrite <- (take_drop 4 (drop (header + 4) record)) at 1. fold l2. f_equal. rewrite drop_drop.
  reflexivity.
Qed.
End record.

(** ** Claims *)

(** The persisted TLS identity round trips, and nothing else is accepted.  A
    record of bytes decodes to an identity for a node exactly when it is the
    encoding of that identity, its certificate is not empty, and certificate and
    key make that identity: within the size limits, the certificate complete
    and naming exactly this node, and the key its own. *)
Theorem identity_record_exact `{X509} (record : list Z) (node : NodeId) (i : LocalControlTlsIdentity)
    (Hbytes : Forall byte_ok record) :
  decode_identity_record record node = Ok i <->
  encode_identity_record i = Ok record /\ li_certificate i <> [] /\
  identity_from_der node (li_certificate i) (li_private_key i) = Ok i.
Proof.
  rewrite encode_identity_record_Ok. split.
  - intros Hd. destruct (decode_is_record_of record node i Hbytes Hd) as (certificate & key & Hr).
    rewrite (decode_record_of _ _ _ _ Hr) in Hd.
    destruct (identity_from_der node certificate key) as [j|e] eqn:Hj; [|done]. injection Hd as ->.
    pose proof (proj1 (identity_from_der_Ok _ _ _ _) Hj) as (_ & _ & _ & _ & _ & _ & fp & _ & ->). cbn [li_certificate li_private_key].
    destruct Hr as (Hc & Hk & Hcl & Hkl & ->). done.
  - intros ((Hcl & Hkl & ->) & Hc & Hi).
    pose proof (proj1 (identity_from_der_Ok _ _ _ _) Hi) as (_ & _ & Hk & _ & _).
    rewrite (decode_record_of _ node (li_certificate i) (li_private_key i)); [by rewrite Hi|]. by split_and!.
Qed.

(** Whatever [load_or_create] returns is a valid identity of the node it was
    asked for, loaded or new. *)
Theorem identity_load_or_create_valid `{X509} `{World} (node : NodeId) (entropy : Z) (h h' : Host)
    (i : LocalControlTlsIdentity) :
  identity_load_or_create node entropy h = (Ok i, h') ->
  li_node i = node /\ identity_from_der node (li_certificate i) (li_private_key i) = Ok i.
Proof.
  assert (forall c k, identity_from_der node c k = Ok i ->
    li_node i = node /\ identity_from_der node (li_certificate i) (li_private_key i) = Ok i) as Hself.
  { intros c k Hi. pose proof (proj1 (identity_from_der_Ok _ _ _ _) Hi) as (_ & _ & _ & _ & _ & _ & fp & _ & Heq).
    subst i. split; [reflexivity|exact Hi]. }
  assert (forall record, decode_identity_record record node = Ok i ->
    li_node i = node /\ identity_from_der node (li_certificate i) (li_private_key i) = Ok i) as Hdec.
  { intros record. unfold decode_identity_record. intros [_ [_ Hm]%guard_err_Ok]%guard_err_Ok.
    match type of Hm with context [identity_from_der node ?c ?k] =>
      destruct (identity_from_der node c k) as [j|e] eqn:Hj; [|done]; injection Hm as Hm; rewrite Hm in Hj; exact (Hself c k Hj) end. }
  unfold identity_load_or_create. intros (o & h1 & _ & Hrest)%st_bind_Ok. destruct o as [record|].
  { injection Hrest as Hd _. by apply (Hdec record). }
  apply st_bind_Ok in Hrest as (g & h2 & Hg & Hrest). injection Hg as Hg <-.
  apply st_bind_Ok in Hrest as (bytes & h3 & _ & (created & h4 & _ & Hrest)%st_bind_Ok). destruct created.
  - injection Hrest as -> _. destruct (generate_identity node entropy) as [j|e] eqn:Hj; [|done]. injection Hg as <-.
    unfold generate_identity in Hj. apply guard_err_Ok in Hj as [_ (pair & _ & Hi)%result_bind_Ok]. exact (Hself _ _ Hi).
  - apply st_bind_Ok in Hrest as (o & h5 & _ & (record & h6 & _ & [= Hd _])%st_bind_Ok). by apply (Hdec record).
Qed.

(** ** A concrete certificate format *)

(** A certificate is its own key; everything names node 3. *)
#[local] Instance demo_x509 : X509 := {
  parsed_certificate := list Z;
  x509_from_der c := match c with [] => None | _ => Some ([], c) end;
  public_key_raw c := c;
  subject_alternative_name _ := Some (Some [DnsName (node_dns_name (fill_id 3))]);
  sha256 _ := fill_bytes 32 5;
  root_accepts _ := true;
  keys_match _ _ := true;
  self_signed _ _ := Ok ([1], [2])%Z;
}.

Definition demo_local_identity : LocalControlTlsIdentity :=
  mkLocalIdentity (fill_id 3) [1]%Z [2]%Z (mkSpki (fill_bytes 32 5)).

Lemma identity_record_exact_witness :
  exists record, encode_identity_record demo_local_identity = Ok record /\
    decode_identity_record record (fill_id 3) = Ok demo_local_identity /\
    decode_identity_record record (fill_id 4) = Err persisted_invalid.
Proof.
  destruct (encode_identity_record demo_local_identity) as [record|e] eqn:Hrec; [|vm_compute in Hrec; discriminate].
  exists record. split; [reflexivity|].
  assert (Forall byte_ok record) as Hb.
  { vm_compute in Hrec. injection Hrec as <-. repeat constructor; unfold byte_ok; simpl; try discriminate; lia. }
  split; [|vm_compute in Hrec; injection Hrec as <-; vm_compute; reflexivity].
  apply (proj2 (identity_record_exact record (fill_id 3) demo_local_identity Hb)).
  split; [exact Hrec|]. split; [discriminate|]. vm_compute. reflexivity.
Defined.
