(* ===== verification/ActiveSession.v ===== *)
(** An active control session: [ActiveControlSession] of
    [apps/daemon/src/control_tls.rs], the owned TLS stream with its writer and
    its gated ingress.

    The TLS stream is behind [TlsStream]: [ControlIo]'s [read], [write], clock
    and timeouts, rustls' close-notify and flush, and the socket's shutdown.
    Instants and durations are nanoseconds, the session clock is milliseconds.
    While a read blocks, other threads may change the trust stores: that is the
    argument [meanwhile]. *)

From S2P Require Import Prelude Order Ident Capability Membership PeerPins ConnectionDeadline ControlFrame ControlStream ControlIo Handshake SessionStream SessionActivity PeerTrust PinnedIngress TlsIdentity.

Local Open Scope Z_scope.

Class TlsStream (T : Type) := {
  #[global] tls_deadline_stream :: DeadlineStream T;
  #[global] tls_timeout_socket :: TimeoutSocket T;
  queue_close_notify : T -> T;
  flush : stres T IoError ();
  shutdown_write : stres T IoError ();
  shutdown_both : stres T IoError ();
}.

(** ** [ControlTlsStream] *)

Section stream.
Context {T : Type} `{TlsStream T}.

(** [close]: the outcome of the shutdown is ignored. *)
Definition close_stream (t : T) : T := (shutdown_both t).2.

Definition before (deadline : Z) : stres T IoError () := fun t =>
  let (n, t') := now t in (guard_err (deadline <=? n) TimedOut (Ok ()), t').

Definition send_close_notify_until (deadline : Z) : stres T IoError () :=
  let! remaining := remaining_budget deadline in
  let! original_timeout := write_timeout in
  let! _ := set_write_timeout (Some remaining) in
  let! _ := (fun t => (Ok (), queue_close_notify t)) in
  let! _ := flush in
  let! _ := before deadline in
  let! _ := shutdown_write in
  let! _ := set_write_timeout original_timeout in
  before deadline.
End stream.

(** ** [ActiveControlSession] *)

Inductive ControlSessionError :=
| Authentication (e : ControlTlsError) | Ingress (e : PinnedIngressError) | Transport (e : IoError) | IdleDeadlineExpired | OutboundFailure.

Inductive ControlSessionRead := Frames (l : list ControlEnvelope) | Idle | Closed.

Record ActiveControlSession (T : Type) := mkSession {
  as_stream : T;
  as_ingress : PinnedSessionIngress;
  as_writer : SessionControlWriter;
  as_peer : PinnedControlTlsPeer;
  as_session_id : bytes 16;
  as_facts : HelloFacts;
  as_terminal : bool;
}.
Arguments mkSession {T}.
Arguments as_stream {T}.
Arguments as_ingress {T}.
Arguments as_writer {T}.
Arguments as_peer {T}.
Arguments as_session_id {T}.
Arguments as_facts {T}.
Arguments as_terminal {T}.

Definition NANOS_PER_MS : Z := 1000000.
Definition READ_CHUNK : nat := 4096.
Definition is_timeout (e : IoError) : bool := match e with TimedOut | WouldBlock => true | _ => false end.
Definition timed_out {A : Type} (r : result IoError A) : bool := if r is Err e then is_timeout e else false.

Section session.
Context {S T : Type} `{TrustStores S} `{TlsStream T} (pin_store : bool).
Variable to_vec : ControlEnvelope -> option (list Z).
Variable from_slice : list Z -> option ControlEnvelope.
Variable fuel : nat.

(** A session next to the shared trust stores. *)
Abbreviation sess := (ActiveControlSession T * S)%type.
Abbreviation act A := (io sess ControlSessionError A).

Definition put_stream (t : T) (a : ActiveControlSession T) : ActiveControlSession T :=
  mkSession t (as_ingress a) (as_writer a) (as_peer a) (as_session_id a) (as_facts a) (as_terminal a).
Definition put_ingress (g : PinnedSessionIngress) (a : ActiveControlSession T) : ActiveControlSession T :=
  mkSession (as_stream a) g (as_writer a) (as_peer a) (as_session_id a) (as_facts a) (as_terminal a).
Definition put_writer (w : SessionControlWriter) (t : T) (a : ActiveControlSession T) : ActiveControlSession T :=
  mkSession t (as_ingress a) w (as_peer a) (as_session_id a) (as_facts a) (as_terminal a).

(** [close_owned_socket]; also the pair of assignments every failure makes. *)
Definition close_owned_socket (a : ActiveControlSession T) : ActiveControlSession T :=
  mkSession (close_stream (as_stream a)) (as_ingress a) (as_writer a) (as_peer a) (as_session_id a) (as_facts a) true.

Definition terminal_error : ControlSessionError := Ingress IngressTerminal.
Definition shut {A : Type} (e : ControlSessionError) : act A := fun '(a, s) => Some (Err e, (close_owned_socket a, s)).

Definition authorize_outbound : act () := fun '(a, s) =>
  if as_terminal a then Some (Err terminal_error, (a, s))
  else
    let (r, s') := require_approved_pinned_tls_peer pin_store (pp_network (as_peer a)) (pp_node (as_peer a))
      (pp_fingerprint (as_peer a)) s in
    match r with
    | Ok _ => Some (Ok (), (a, s'))
    | Err e => Some (Err (Ingress (Authorization e)), (close_owned_socket a, s'))
    end.

Definition revalidate_approval : act () := authorize_outbound.

(** The writer's bounded write on the owned stream. *)
Definition on_writer (m : io (SessionControlWriter * T) SessionWriteIoError ()) (a : ActiveControlSession T) :
  option (bool * ActiveControlSession T) :=
  match m (as_writer a, as_stream a) with
  | Some (r, (w, t)) => Some (is_ok r, put_writer w t a)
  | None => None
  end.

Definition send_heartbeat_until (deadline : Z) : act () :=
  let? _ := authorize_outbound in fun '(a, s) =>
  match on_writer (write_heartbeat_with_deadline to_vec from_slice fuel deadline) a with
  | None => None
  | Some (true, a') => Some (Ok (), (a', s))
  | Some (false, a') => Some (Err OutboundFailure, (close_owned_socket a', s))
  end.

Definition send_goodbye_until (deadline : Z) : act () :=
  let? _ := authorize_outbound in fun '(a, s) =>
  match on_writer (write_goodbye_with_deadline to_vec from_slice fuel deadline) a with
  | None => None
  | Some (true, a') =>
    let (r, t) := send_close_notify_until deadline (as_stream a') in
    if is_ok r then Some (Ok (), (put_stream t a', s))
    else Some (Err OutboundFailure, (close_owned_socket (put_stream t a'), s))
  | Some (false, a') => Some (Err OutboundFailure, (close_owned_socket a', s))
  end.

(** A call of the gated ingress. *)
Definition on_ingress {A : Type} (m : io (PinnedSessionIngress * S) PinnedIngressError A) : io sess PinnedIngressError A :=
  fun '(a, s) =>
  match m (as_ingress a, s) with
  | Some (r, (g, s')) => Some (r, (put_ingress g a, s'))
  | None => None
  end.
(** Its failure closes the session. *)
Definition or_shut {A : Type} (m : io sess PinnedIngressError A) : act A := fun as_ =>
  match m as_ with
  | Some (Ok x, as') => Some (Ok x, as')
  | Some (Err e, (a, s)) => Some (Err (Ingress e), (close_owned_socket a, s))
  | None => None
  end.
(** [let _ = self.ingress...]: the outcome is ignored. *)
Definition ignoring {A : Type} (m : io sess PinnedIngressError A) : act () := fun as_ =>
  match m as_ with Some (_, as') => Some (Ok (), as') | None => None end.

(** What one read of the socket gave, with the clock around it. *)
Definition timed_read (a : ActiveControlSession T) : (Z * result IoError (list Z) * Z) * ActiveControlSession T :=
  let (read_started, t1) := now (as_stream a) in
  let (read_result, t2) := read READ_CHUNK t1 in
  let (read_finished, t3) := now t2 in
  ((read_started, read_result, read_finished), put_stream t3 a).

(** The part after the read: [idle] says that the slice was the whole idle
    budget, [late] that the read completed at or after its deadline. *)
Definition after_read (now_ms expires_ms elapsed_ms : Z) (idle late : bool) (read_result : result IoError (list Z)) :
  act ControlSessionRead :=
  if late && negb (timed_out read_result) then
    let? _ := ignoring (on_ingress (receive_verified_plaintext pin_store from_slice [] expires_ms)) in
    shut IdleDeadlineExpired
  else if idle && timed_out read_result then
    let? _ := ignoring (on_ingress (receive_verified_plaintext pin_store from_slice [] expires_ms)) in
    shut IdleDeadlineExpired
  else
    let observed_now_ms := if late && idle then expires_ms else saturating_add 64 now_ms elapsed_ms in
    match read_result with
    | Ok [] => fun '(a, s) =>
      match on_ingress (ingress_finish_at pin_store observed_now_ms) (close_owned_socket a, s) with
      | Some (Ok _, as') => Some (Ok Closed, as')
      | Some (Err e, as') => Some (Err (Ingress e), as')
      | None => None
      end
    | Ok plaintext =>
      let? frames := or_shut (on_ingress (receive_verified_plaintext pin_store from_slice plaintext observed_now_ms)) in
      io_ret (Frames frames)
    | Err e =>
      if is_timeout e then
        let? _ := or_shut (on_ingress (receive_verified_plaintext pin_store from_slice [] observed_now_ms)) in
        io_ret Idle
      else fun '(a, s) =>
        match on_ingress (ingress_finish_at pin_store observed_now_ms) (close_owned_socket a, s) with
        | Some (_, as') => Some (Err (Transport e), as')
        | None => None
        end
    end.

Definition receive_next_with_budget_at (meanwhile : S -> S) (now_ms max_wait : Z) : act ControlSessionRead := fun '(a, s) =>
  if as_terminal a then Some (Err terminal_error, (a, s))
  else
    let expires_ms := ingress_expires_ms (as_ingress a) in
    if expires_ms <=? now_ms then
      match on_ingress (receive_verified_plaintext pin_store from_slice [] now_ms) (a, s) with
      | None => None
      | Some (Err e, (a', s')) => Some (Err (Ingress e), (close_owned_socket a', s'))
      | Some (Ok _, (a', s')) => Some (Err IdleDeadlineExpired, (close_owned_socket a', s'))
      end
    else (
      let? _ := or_shut (on_ingress (ingress_check_before_read pin_store now_ms)) in fun '(a, s) =>
      let idle_remaining := (expires_ms - now_ms) * NANOS_PER_MS in
      let timeout := Z.min idle_remaining max_wait in
      if timeout =? 0 then shut IdleDeadlineExpired (a, s)
      else
        match set_read_timeout (Some timeout) (as_stream a) with
        | (Err e, t) => shut (Transport e) (put_stream t a, s)
        | (Ok _, t) =>
          let '((read_started, read_result, read_finished), a) := timed_read (put_stream t a) in
          let late := read_started + timeout <=? read_finished in
          let elapsed_ms := Z.min (Z.max 0 (read_finished - read_started) / NANOS_PER_MS) (u_max 64) in
          after_read now_ms expires_ms elapsed_ms (timeout =? idle_remaining) late read_result (a, meanwhile s)
        end) (a, s).

(** [Duration::MAX]: no slice of its own. *)
Definition DURATION_MAX : Z := (2 ^ 64 - 1) * 1000000000 + 999999999.
Definition receive_next_at (meanwhile : S -> S) (now_ms : Z) : act ControlSessionRead :=
  receive_next_with_budget_at meanwhile now_ms DURATION_MAX.
End session.


(** ** Histories *)

Inductive session_op (S : Type) :=
| SHeartbeat (deadline : Z) | SGoodbye (deadline : Z) | SRevalidate | SReceive (meanwhile : S -> S) (now_ms max_wait : Z).
Arguments SHeartbeat {S}.
Arguments SGoodbye {S}.
Arguments SRevalidate {S}.
Arguments SReceive {S}.

Definition sent_only {E : Type} (r : result E ()) : result E (option ControlSessionRead) :=
  match r with Ok _ => Ok None | Err e => Err e end.
Definition got_frames (r : result ControlSessionError (option ControlSessionRead)) : list ControlEnvelope :=
  if r is Ok (Some (Frames out)) then out else [].
(** Outcomes after which the session is over. *)
Definition ends (r : result ControlSessionError (option ControlSessionRead)) : bool :=
  match r with Err _ | Ok (Some Closed) => true | _ => false end.

Section histories.
Context {S T : Type} `{TrustStores S} `{TlsStream T} (pin_store : bool).
Variable to_vec : ControlEnvelope -> option (list Z).
Variable from_slice : list Z -> option ControlEnvelope.
Variable fuel : nat.

Definition answer {A B : Type} (f : result ControlSessionError A -> result ControlSessionError B)
  (m : io (ActiveControlSession T * S) ControlSessionError A) : io (ActiveControlSession T * S) ControlSessionError B := fun as_ =>
  match m as_ with Some (r, as') => Some (f r, as') | None => None end.

Definition run_session_op (o : session_op S) : io (ActiveControlSession T * S) ControlSessionError (option ControlSessionRead) :=
  match o with
  | SHeartbeat d => answer sent_only (send_heartbeat_until pin_store to_vec from_slice fuel d)
  | SGoodbye d => answer sent_only (send_goodbye_until pin_store to_vec from_slice fuel d)
  | SRevalidate => answer sent_only (revalidate_approval pin_store)
  | SReceive meanwhile now_ms max_wait =>
      answer (fun r => match r with Ok x => Ok (Some x) | Err e => Err e end)
        (receive_next_with_budget_at pin_store from_slice meanwhile now_ms max_wait)
  end.

(** The trust stores may become anything between two calls: the outcomes, each
    with the stores' content when the call began. *)
Fixpoint run_session {C : Type} (see : S -> C) (l : list (S * session_op S)) (a : ActiveControlSession T) :
  option (list (C * result ControlSessionError (option ControlSessionRead)) * ActiveControlSession T) :=
  match l with
  | [] => Some ([], a)
  | (s, o) :: l =>
    match run_session_op o (a, s) with
    | None => None
    | Some (r, (a', _)) =>
      match run_session see l a' with
      | None => None
      | Some (hist, a'') => Some ((see s, r) :: hist, a'')
      end
    end
  end.
End histories.

(** Once a session is over it refuses every call. *)
Fixpoint refused_after_end {C : Type} (over : bool) (hist : list (C * result ControlSessionError (option ControlSessionRead))) : Prop :=
  match hist with
  | [] => True
  | (_, r) :: hist => (over = true -> r = Err terminal_error) /\ refused_after_end (over || ends r) hist
  end.

Definition all_frames {C : Type} (hist : list (C * result ControlSessionError (option ControlSessionRead))) : list ControlEnvelope :=
  concat ((fun cr => got_frames cr.2) <$> hist).

(** ** What the stream promises beyond [ControlIo.LawfulStream]

    Reads give bytes; no call turns the clock back or brings new interruptions. *)

Definition calm {T : Type} `{LawfulStream T} (t t' : T) : Prop := clock t <= clock t' /\ (interrupts t' <= interrupts t)%nat.

Class LawfulTls (T : Type) `{TlsStream T} := {
  #[global] tls_lawful :: LawfulStream T;
  read_bytes : forall n (t : T) got t', read n t = (Ok got, t') -> Forall byte_ok got;
  socket_calm : forall (t : T) o,
    calm t (write_timeout t).2 /\ calm t (set_write_timeout o t).2 /\ calm t (set_read_timeout o t).2 /\
    calm t (queue_close_notify t) /\ calm t (flush t).2 /\ calm t (shutdown_write t).2;
}.

(** ** Facts *)

(** The session is over and its socket shut down. *)
Definition ended {T : Type} `{TlsStream T} (a : ActiveControlSession T) : Prop :=
  as_terminal a = true /\ exists t, as_stream a = close_stream t.

Definition said_goodbye {T : Type} (a : ActiveControlSession T) : bool := goodbye_seen (pi_activity (as_ingress a)).

Section session_facts.
Context {S T : Type} `{LawfulTrustStores S} `{LawfulTls T} (pin_store : bool).
Context (net : NetworkId) (peer : NodeId) (sid : bytes 16) (key : SpkiSha256).
Variable from_slice : list Z -> option ControlEnvelope.

Abbreviation accepts := (accepts net peer sid).
Abbreviation authorized c := (authorized_in c net peer key).

(** A session that has not ended, with the last sequence number it accepted. *)
Record session_live (q : Z) (a : ActiveControlSession T) : Prop := {
  live_terminal : as_terminal a = false;
  live_ingress : of_peer net peer key (as_ingress a) /\ pi_terminal (as_ingress a) = false;
  live_activity : activity_live net peer sid q (pi_activity (as_ingress a));
  live_peer : as_peer a = mkPinnedPeer net peer key;
}.

Lemma live_put_stream q t a : session_live q a -> session_live q (put_stream t a).
Proof. by intros []. Qed.
Lemma live_put_writer q w t a : session_live q a -> session_live q (put_writer w t a).
Proof. by intros []. Qed.

Lemma calm_refl (t : T) : calm t t.
Proof. split; lia. Qed.
Lemma calm_trans (t1 t2 t3 : T) : calm t1 t2 -> calm t2 t3 -> calm t1 t3.
Proof. intros [] []. split; lia. Qed.
Lemma moved_calm (t t' : T) got sent : moved t t' got sent -> calm t t'.
Proof. intros (Hc & _ & _ & Hk). by split. Qed.
Lemma now_calm (t t' : T) n : now t = (n, t') -> calm t t' /\ clock t' = n.
Proof. intros (Hc & Ht & _ & _ & Hk)%now_law. split; [split; lia|done]. Qed.

Lemma ended_closed (a : ActiveControlSession T) : ended (close_owned_socket a).
Proof. split; [done|]. by eexists. Qed.

(** A call of the ingress of a live session. *)
Lemma on_ingress_step q o a (s : S) :
  session_live q a -> Forall byte_ok (op_bytes (activity_of o)) ->
  exists r g s', on_ingress (run_ingress_op pin_store from_slice o) (a, s) = Some (r, (put_ingress g a, s')) /\
    content s' = content s /\ ingress_outcome net peer sid key q o (as_ingress a) s r g /\
    (is_ok r = true -> pi_terminal g = false -> exists q', session_live q' (put_ingress g a) /\
       accepts q (said_goodbye a) (match r with Ok out => out | Err _ => [] end) q' (goodbye_seen (pi_activity g))).
Proof.
  intros [Ht [Hg Hgt] Hl Hp] Hb. destruct (ingress_op_step pin_store net peer sid key from_slice q o _ s Hg Hgt Hl Hb)
    as (r & g & s' & Hrun & Hg' & Hc & Hr). exists r, g, s'. unfold on_ingress. rewrite Hrun.
  split; [done|]. split; [done|]. split; [done|]. intros Hok Htg. destruct r as [out|e]; [|done].
  destruct Hr as (_ & (q' & Hacc & Hlive) & _). exists q'. split; [|done]. split; [done|done|by apply Hlive|done].
Qed.

(** What a call of the ingress leaves when its failure closes the session. *)
Definition answered (q : Z) (p : list Z) (a : ActiveControlSession T) (s : S) (r : result ControlSessionError (list ControlEnvelope))
  (a' : ActiveControlSession T) (s' : S) : Prop :=
  content s' = content s /\ as_peer a' = as_peer a /\
  match r with
  | Ok out => authorized (content s) /\ as_stream a' = as_stream a /\ (p = [] -> out = []) /\
      (out = [] -> ingress_expires_ms (as_ingress a') = ingress_expires_ms (as_ingress a)) /\
      exists q', accepts q (said_goodbye a) out q' (said_goodbye a') /\ session_live q' a'
  | Err _ => ended a'
  end.

Lemma or_shut_receive q p t a (s : S) :
  session_live q a -> Forall byte_ok p ->
  exists r a' s', or_shut (on_ingress (receive_verified_plaintext pin_store from_slice p t)) (a, s) = Some (r, (a', s')) /\
    answered q p a s r a' s'.
Proof.
  intros Hl Hb. destruct (on_ingress_step q (IReceive p t) a s Hl Hb) as (r & g & s' & Hrun & Hc & Hr & Hlive).
  unfold or_shut, on_ingress in *. cbn [run_ingress_op] in Hrun.
  destruct (receive_verified_plaintext _ _ _ _ _) as [[r0 [g0 s0]]|]; [|done]. injection Hrun as -> -> ->.
  destruct r as [out|e]; eexists _, _, _; (split; [reflexivity|]); (split; [done|]); (split; [done|]).
  - destruct Hr as (Ha & _ & _ & Hn & Hx & Htg). destruct (Hlive eq_refl Htg) as (q' & Hl' & Hacc).
    split; [done|]. split; [done|]. split; [exact Hn|]. split; [done|]. by exists q'.
  - apply ended_closed.
Qed.

Lemma or_shut_check q t a (s : S) :
  session_live q a ->
  exists r a' s', or_shut (on_ingress (ingress_check_before_read pin_store t)) (a, s) = Some (r, (a', s')) /\
    answered q [] a s (match r with Ok _ => Ok [] | Err e => Err e end) a' s'.
Proof.
  intros Hl. destruct (on_ingress_step q (ICheck t) a s Hl) as (r & g & s' & Hrun & Hc & Hr & Hlive); [constructor|].
  unfold or_shut, on_ingress in *. cbn [run_ingress_op] in Hrun.
  destruct (ingress_check_before_read _ _ _) as [[[[]|e] [g0 s0]]|]; [| |done]; injection Hrun as <- -> ->;
    eexists _, _, _; (split; [reflexivity|]); (split; [done|]); (split; [done|]).
  - destruct Hr as (Ha & _ & _ & Hn & Hx & Htg). destruct (Hlive eq_refl Htg) as (q' & Hl' & Hacc).
    split; [done|]. split; [done|]. split; [exact Hn|]. split; [done|]. by exists q'.
  - apply ended_closed.
Qed.

(** A call whose outcome is ignored. *)
Lemma ignoring_receive q t a (s : S) :
  session_live q a ->
  exists g s', ignoring (on_ingress (receive_verified_plaintext pin_store from_slice [] t)) (a, s) =
    Some (Ok (), (put_ingress g a, s')) /\ content s' = content s.
Proof.
  intros Hl. destruct (on_ingress_step q (IReceive [] t) a s Hl) as (r & g & s' & Hrun & Hc & _); [constructor|].
  unfold ignoring, on_ingress in *. cbn [run_ingress_op] in Hrun.
  destruct (receive_verified_plaintext _ _ _ _ _) as [[r0 [g0 s0]]|]; [|done]. injection Hrun as -> -> ->. by exists g, s'.
Qed.

(** The end of the stream, after the socket was closed: a clean end needs the
    peer's goodbye. *)
Lemma finish_closed q t a (s : S) :
  session_live q a ->
  exists r g s', on_ingress (ingress_finish_at pin_store t) (close_owned_socket a, s) =
    Some (r, (put_ingress g (close_owned_socket a), s')) /\ content s' = content s /\
    (is_ok r = true -> authorized (content s) /\ said_goodbye a = true).
Proof.
  intros Hl. destruct (on_ingress_step q (IFinish t) a s Hl) as (r & g & s' & Hrun & Hc & Hr & _); [constructor|].
  unfold on_ingress in *. cbn [run_ingress_op] in Hrun. cbn [close_owned_socket as_ingress].
  destruct (ingress_finish_at _ _ _) as [[r0 [g0 s0]]|]; [|done]. exists r0, g0, s0.
  destruct r0 as [[]|e]; injection Hrun as <- -> ->; (split; [done|]); (split; [done|]); [|done]. intros _.
  by destruct Hr as (Ha & _ & _ & _ & _ & Hgb & _).
Qed.

(** What the part after the read leaves. *)
Definition read_answer (q : Z) (late idle : bool) (a : ActiveControlSession T) (s : S)
  (r : result ControlSessionError ControlSessionRead) (a' : ActiveControlSession T) (s' : S) : Prop :=
  content s' = content s /\ as_peer a' = as_peer a /\
  match r with
  | Err _ => ended a'
  | Ok Closed => late = false /\ authorized (content s) /\ said_goodbye a = true /\ ended a'
  | Ok Idle => idle = false /\ authorized (content s) /\ as_stream a' = as_stream a /\ session_live q a' /\
      said_goodbye a' = said_goodbye a /\ ingress_expires_ms (as_ingress a') = ingress_expires_ms (as_ingress a)
  | Ok (Frames out) => late = false /\ authorized (content s) /\ as_stream a' = as_stream a /\
      (out = [] -> ingress_expires_ms (as_ingress a') = ingress_expires_ms (as_ingress a)) /\
      exists q', accepts q (said_goodbye a) out q' (said_goodbye a') /\ session_live q' a'
  end.

Lemma after_read_expired q now_ms expires_ms elapsed_ms idle late rr a (s : S) :
  session_live q a -> (late && negb (timed_out rr)) || (idle && timed_out rr) = true ->
  exists r a' s', after_read pin_store from_slice now_ms expires_ms elapsed_ms idle late rr (a, s) = Some (r, (a', s')) /\
    read_answer q late idle a s r a' s'.
Proof.
  intros Hl Hx. destruct (ignoring_receive q expires_ms a s Hl) as (g & s' & Hrun & Hc). unfold after_read.
  destruct (late && negb (timed_out rr)); [|destruct (idle && timed_out rr); [|done]]; unfold io_bind; rewrite Hrun;
    cbn [shut]; eexists _, _, _; (split; [reflexivity|]); (split; [done|]); (split; [done|apply ended_closed]).
Qed.

Lemma timed_out_ok {A : Type} (x : A) : timed_out (Ok x) = false.
Proof. done. Qed.

Lemma after_read_spec q now_ms expires_ms elapsed_ms idle late rr a (s : S) :
  session_live q a -> (forall p, rr = Ok p -> Forall byte_ok p) ->
  exists r a' s', after_read pin_store from_slice now_ms expires_ms elapsed_ms idle late rr (a, s) = Some (r, (a', s')) /\
    read_answer q late idle a s r a' s'.
Proof.
  intros Hl Hb. destruct ((late && negb (timed_out rr)) || (idle && timed_out rr)) eqn:Hx; [by apply after_read_expired|].
  apply orb_false_iff in Hx as [Hx1 Hx2]. unfold after_read. rewrite Hx1, Hx2.
  destruct rr as [[|x p]|e]; cbn [timed_out negb] in *; rewrite ?andb_true_r in *.
  - set (t := if late && idle then _ else _). destruct (finish_closed q t a s Hl) as (r & g & s' & -> & Hc & Hok).
    destruct r as [u|e]; eexists _, _, _; (split; [reflexivity|]); (split; [done|]); (split; [done|]); [|apply ended_closed].
    destruct (Hok eq_refl) as [Ha Hg]. split; [done|]. split; [done|]. split; [done|apply ended_closed].
  - set (t := if late && idle then _ else _). destruct (or_shut_receive q (x :: p) t a s Hl (Hb _ eq_refl))
      as (r & a' & s' & Hrun & Hc & Hp & Hr). unfold io_bind. rewrite Hrun.
    destruct r as [out|e]; eexists _, _, _; (split; [reflexivity|]); (split; [done|]); (split; [done|]); [|done].
    destruct Hr as (Ha & Hst & _ & Hex & Hlive). by split_and!.
  - set (t := if late && idle then _ else _). destruct (is_timeout e) eqn:Hto; rewrite ?andb_true_r in *.
    + destruct (or_shut_receive q [] t a s Hl) as (r & a' & s' & Hrun & Hc & Hp & Hr); [constructor|].
      unfold io_bind. rewrite Hrun.
      destruct r as [out|e']; eexists _, _, _; (split; [reflexivity|]); (split; [done|]); (split; [done|]); [|done].
      destruct Hr as (Ha & Hst & Hn & Hex & q' & Hacc & Hlive). rewrite Hn in * by done. inversion Hacc; subst.
      by split_and!; try apply Hex.
    + destruct (finish_closed q t a s Hl) as (r & g & s' & -> & Hc & _).
      eexists _, _, _. split; [reflexivity|]. split; [done|]. split; [done|apply ended_closed].
Qed.

(** What one bounded read gives.  [idle_remaining] is how long the peer may
    still stay silent. *)
Definition slice_answer (q : Z) (meanwhile : S -> S) (now_ms max_wait : Z) (a : ActiveControlSession T) (s : S)
  (r : result ControlSessionError ControlSessionRead) (a' : ActiveControlSession T) (s' : S) : Prop :=
  let idle_remaining := (ingress_expires_ms (as_ingress a) - now_ms) * NANOS_PER_MS in
  as_peer a' = as_peer a /\
  match r with
  | Err _ => ended a'
  | Ok got => authorized (content s) /\ authorized (content s') /\
      (exists s1, content s1 = content s /\ content s' = content (meanwhile s1)) /\ 0 < idle_remaining /\
      match got with
      | Closed => said_goodbye a = true /\ ended a'
      | Idle => max_wait < idle_remaining /\ calm (as_stream a) (as_stream a') /\ session_live q a' /\ said_goodbye a' = said_goodbye a /\
          ingress_expires_ms (as_ingress a') = ingress_expires_ms (as_ingress a)
      | Frames out => (exists started, clock (as_stream a) <= started /\
            clock (as_stream a') < started + Z.min idle_remaining max_wait) /\ calm (as_stream a) (as_stream a') /\
          (out = [] -> ingress_expires_ms (as_ingress a') = ingress_expires_ms (as_ingress a)) /\
          exists q', accepts q (said_goodbye a) out q' (said_goodbye a') /\ session_live q' a'
      end
  end.

Lemma receive_expired q a (s : S) meanwhile now_ms max_wait :
  session_live q a -> ingress_expires_ms (as_ingress a) <= now_ms ->
  exists r a' s', receive_next_with_budget_at pin_store from_slice meanwhile now_ms max_wait (a, s) = Some (r, (a', s')) /\
    slice_answer q meanwhile now_ms max_wait a s r a' s'.
Proof.
  intros Hl Hx. unfold receive_next_with_budget_at. rewrite (live_terminal _ _ Hl), (proj2 (Z.leb_le _ _) Hx).
  destruct (on_ingress_step q (IReceive [] now_ms) a s Hl) as (r & g & s' & Hrun & _); [constructor|].
  unfold on_ingress in *. cbn [run_ingress_op] in Hrun.
  destruct (receive_verified_plaintext _ _ _ _ _) as [[r0 [g0 s0]]|]; [|done].
  destruct r0 as [out|e]; eexists _, _, _; (split; [reflexivity|]); (split; [done|apply ended_closed]).
Qed.

(** The clock readings around the read. *)
Lemma timed_read_spec (a : ActiveControlSession T) rs rr rf a' :
  timed_read a = ((rs, rr, rf), a') ->
  clock (as_stream a) <= rs /\ clock (as_stream a') = rf /\ calm (as_stream a) (as_stream a') /\ (exists t, a' = put_stream t a) /\
  (forall p, rr = Ok p -> Forall byte_ok p).
Proof.
  unfold timed_read. destruct (now (as_stream a)) as [n1 t1] eqn:H1'. destruct (read READ_CHUNK t1) as [rr' t2] eqn:Hr.
  destruct (now t2) as [n3 t3] eqn:H3'. intros [= <- <- <- <-]. apply now_calm in H1' as [Hm1 Hc1], H3' as [Hm3 Hc3].
  split; [destruct Hm1; lia|]. split; [done|]. split.
  { apply (calm_trans _ _ _ Hm1), (calm_trans _ t2); [|done]. pose proof (read_moved _ _ _ _ Hr) as Hm.
    destruct rr' as [got|e]; destruct Hm as [Hm _]; by apply moved_calm in Hm. }
  split; [by eexists|]. intros p ->. exact (read_bytes (T := T) _ _ _ _ Hr).
Qed.

Lemma receive_spec q a (s : S) meanwhile now_ms max_wait :
  session_live q a ->
  exists r a' s', receive_next_with_budget_at pin_store from_slice meanwhile now_ms max_wait (a, s) = Some (r, (a', s')) /\
    slice_answer q meanwhile now_ms max_wait a s r a' s'.
Proof.
  intros Hl. destruct (Z.le_gt_cases (ingress_expires_ms (as_ingress a)) now_ms) as [Hx|Hx]; [by apply receive_expired|].
  unfold receive_next_with_budget_at. rewrite (live_terminal _ _ Hl), (proj2 (Z.leb_gt _ _) Hx).
  destruct (or_shut_check q now_ms a s Hl) as (r & a1 & s1 & Hrun & Hc & Hp & Hr). unfold io_bind. rewrite Hrun. clear Hrun.
  destruct r as [[]|e]; [|by eexists _, _, _; split; [reflexivity|]; split].
  destruct Hr as (Ha & Hst & _ & Hex & q' & Hacc & Hl1). specialize (Hex eq_refl). inversion Hacc; subst. rename q' into q.
  set (idle := (ingress_expires_ms (as_ingress a) - now_ms) * NANOS_PER_MS). set (timeout := Z.min idle max_wait).
  destruct (Z.eqb_spec timeout 0) as [Hz|Hz].
  { eexists _, _, _. split; [reflexivity|]. split; [done|apply ended_closed]. }
  destruct (socket_calm (as_stream a1) (Some timeout)) as (_ & _ & Hck & _).
  destruct (set_read_timeout (Some timeout) (as_stream a1)) as [[u|e] t] eqn:Hset;
    [|by eexists _, _, _; split; [reflexivity|]; split; [done|apply ended_closed]].
  cbn [snd] in Hck. destruct (timed_read (put_stream t a1)) as [[[rs rr] rf] a2] eqn:Hread.
  apply timed_read_spec in Hread as (Hrs & Hrf & Hcalm & [t2 ->] & Hb).
  destruct (after_read_spec q now_ms (ingress_expires_ms (as_ingress a))
    (Z.min (Z.max 0 (rf - rs) / NANOS_PER_MS) (u_max 64)) (timeout =? idle) (rs + timeout <=? rf) rr _ (meanwhile s1)
    (live_put_stream _ t2 _ (live_put_stream _ t _ Hl1)) Hb) as (r & a3 & s3 & Hrun & Hc3 & Hp3 & Hr3).
  exists r, a3, s3. split; [exact Hrun|]. split; [by rewrite Hp3|]. clear Hrun. rewrite <- Hc3 in Hr3.
  cbn [put_stream as_stream as_ingress] in *. unfold said_goodbye in *. cbn [put_stream as_ingress] in *.
  destruct r as [got|e]; [|done]. fold idle.
  assert (0 < idle) by (unfold idle, NANOS_PER_MS; lia). assert (content s3 = content (meanwhile s1)) as Hs3 by done.
  assert (calm (as_stream a) t2) as Hcalm2 by (rewrite <- Hst; by apply (calm_trans _ t)). clear Hcalm.
  split; [done|]. split; [by destruct got; apply Hr3|]. split; [by exists s1|]. split; [done|]. destruct got as [out| |].
  - destruct Hr3 as (Hlate%Z.leb_gt & _ & Hst3 & Hx3 & Hlive). rewrite Hst3. split; [|split; [done|split]].
    + exists rs. unfold timeout in *. rewrite Hst in Hck. destruct Hck. split; lia.
    + intros Ho. rewrite Hx3 by done. exact Hex.
    + rewrite H5. exact Hlive.
  - destruct Hr3 as (Hidle%Z.eqb_neq & _ & Hst3 & Hlive & Hg3 & Hx3). split; [unfold timeout in *; lia|].
    split; [by rewrite Hst3|].
    split; [done|]. split; congruence.
  - destruct Hr3 as (_ & _ & Hg & Hend). split; [congruence|done].
Qed.
(** ** Sending *)

Variable to_vec : ControlEnvelope -> option (list Z).
Variable fuel : nat.

(** Enough for the longest frame and the interruptions to come. *)
Definition enough (t : T) : Prop := (4 + Z.to_nat MAX_CONTROL_FRAME_BYTES + interrupts t < fuel)%nat.

Lemma enough_calm t t' : enough t -> calm t t' -> enough t'.
Proof. unfold enough. intros He [_ Hk]. lia. Qed.

Lemma write_message_calm deadline m w (t : T) :
  enough t ->
  exists r w' t', write_message_with_deadline to_vec from_slice fuel deadline m (w, t) = Some (r, (w', t')) /\
    calm t t' /\ (is_ok r = true -> clock t' < deadline).
Proof.
  intros He. unfold write_message_with_deadline. destruct (writer_encode to_vec m w) as [[f|e] w1];
    [|eexists _, _, _; split; [reflexivity|]; by split; [apply calm_refl|]].
  destruct (decode_control_frame from_slice f) as [env|e];
    [|eexists _, _, _; split; [reflexivity|]; by split; [apply calm_refl|]].
  destruct (frame_write_total to_vec fuel env deadline t He) as [[r t'] Hw].
  pose proof (frame_write_sound to_vec fuel env deadline t r t' Hw) as Ho. rewrite Hw.
  destruct r as [u|[e|e]]; (eexists _, _, _; split; [reflexivity|]).
  - destruct Ho as (f' & _ & Hm & Hc). split; [by eapply moved_calm|done].
  - destruct Ho as (f' & sent & _ & _ & Hm). split; [by eapply moved_calm|done].
  - destruct Ho as [_ ->]. split; [apply calm_refl|done].
Qed.

Lemma calm_bind {A B : Type} (m : stres T IoError A) (k : A -> stres T IoError B) t :
  (forall t, calm t (m t).2) -> (forall x t, calm t (k x t).2) -> calm t (st_bind m k t).2.
Proof.
  intros Hm Hk. unfold st_bind. specialize (Hm t). destruct (m t) as [[x|e] t']; [|done]. by apply (calm_trans _ t').
Qed.

Lemma before_calm d (t : T) : calm t (before d t).2 /\ (is_ok (before d t).1 = true -> clock (before d t).2 < d).
Proof.
  unfold before. destruct (now t) as [n t'] eqn:Hn. apply now_calm in Hn as [Hm Hc]. split; [done|].
  cbn. destruct (Z.leb_spec d n); [done|]. intros _. cbn. lia.
Qed.

(** A computation that ends with a look at the clock. *)
Lemma bind_before {A : Type} (m : stres T IoError A) (k : A -> stres T IoError ()) d (t : T) :
  (forall x t, is_ok (k x t).1 = true -> clock (k x t).2 < d) ->
  is_ok (st_bind m k t).1 = true -> clock (st_bind m k t).2 < d.
Proof. intros Hk. unfold st_bind. destruct (m t) as [[x|e] t']; [apply Hk|done]. Qed.

Lemma close_notify_spec d (t : T) :
  calm t (send_close_notify_until d t).2 /\
  (is_ok (send_close_notify_until d t).1 = true -> clock (send_close_notify_until d t).2 < d).
Proof.
  split.
  - unfold send_close_notify_until. apply calm_bind.
    { intros t0. destruct (remaining_budget d t0) eqn:Hb. apply budget_moved in Hb as [Hm _]. by eapply moved_calm. }
    intros rem t0. apply calm_bind; [intros t1; apply (socket_calm t1 None)|]. intros orig t1.
    apply calm_bind; [intros t2; apply (socket_calm t2 (Some rem))|]. intros _ t2.
    apply calm_bind; [intros t3; apply (socket_calm t3 None)|]. intros _ t3.
    apply calm_bind; [intros t4; apply (socket_calm t4 None)|]. intros _ t4.
    apply calm_bind; [intros t5; apply before_calm|]. intros _ t5.
    apply calm_bind; [intros t6; apply (socket_calm t6 None)|]. intros _ t6.
    apply calm_bind; [intros t7; apply (socket_calm t7 orig)|]. intros _ t7. apply before_calm.
  - unfold send_close_notify_until. repeat (apply bind_before; intros ? ?). apply before_calm.
Qed.

Lemma authorize_spec q a (s : S) :
  session_live q a ->
  exists s', content s' = content s /\
    ((authorize_outbound pin_store (a, s) = Some (Ok (), (a, s')) /\ authorized (content s)) \/
     exists e, authorize_outbound pin_store (a, s) = Some (Err e, (close_owned_socket a, s'))).
Proof.
  intros Hl. unfold authorize_outbound. rewrite (live_terminal _ _ Hl), (live_peer _ _ Hl). cbn [pp_network pp_node pp_fingerprint].
  unfold require_approved_pinned_tls_peer. pose proof (with_approved_reads pin_store net peer key (fun _ => ()) s) as Hc.
  destruct (with_approved_pinned_tls_peer pin_store net peer key (fun _ => ()) s) as [[u|e] s'] eqn:Hrun; exists s'; (split; [done|]).
  - apply with_approved_Ok in Hrun as (_ & Ha & _). by left.
  - right. by eexists.
Qed.

(** What a send leaves. *)
Definition send_answer (q deadline : Z) (a : ActiveControlSession T) (s : S) (r : result ControlSessionError ())
  (a' : ActiveControlSession T) (s' : S) : Prop :=
  content s' = content s /\ as_peer a' = as_peer a /\
  match r with
  | Ok _ => authorized (content s) /\ session_live q a' /\ as_ingress a' = as_ingress a /\
      clock (as_stream a') < deadline /\ calm (as_stream a) (as_stream a')
  | Err _ => ended a'
  end.

Lemma on_writer_spec q m deadline a :
  session_live q a -> enough (as_stream a) ->
  exists b w t, on_writer (write_message_with_deadline to_vec from_slice fuel deadline m) a = Some (b, put_writer w t a) /\
    calm (as_stream a) t /\ (b = true -> clock t < deadline).
Proof.
  intros Hl He. unfold on_writer. destruct (write_message_calm deadline m (as_writer a) (as_stream a) He) as (r & w & t & -> & Hm & Hc).
  by exists (is_ok r), w, t.
Qed.

Lemma heartbeat_spec q deadline a (s : S) :
  session_live q a -> enough (as_stream a) ->
  exists r a' s', send_heartbeat_until pin_store to_vec from_slice fuel deadline (a, s) = Some (r, (a', s')) /\
    send_answer q deadline a s r a' s'.
Proof.
  intros Hl He. unfold send_heartbeat_until, io_bind.
  destruct (authorize_spec q a s Hl) as (s' & Hc & [[-> Ha]|[e ->]]);
    [|by eexists _, _, _; split; [reflexivity|]; split; [done|]; split; [done|apply ended_closed]].
  destruct (on_writer_spec q MsgHeartbeat deadline a Hl He) as (b & w & t & Hw & Hm & Hd).
  unfold write_heartbeat_with_deadline. rewrite Hw. destruct b; (eexists _, _, _; split; [reflexivity|]); (split; [done|]);
    (split; [done|]); [|apply ended_closed].
  split; [done|]. split; [by apply live_put_writer|]. split; [done|]. by split; [apply Hd|].
Qed.

Lemma goodbye_spec q deadline a (s : S) :
  session_live q a -> enough (as_stream a) ->
  exists r a' s', send_goodbye_until pin_store to_vec from_slice fuel deadline (a, s) = Some (r, (a', s')) /\
    send_answer q deadline a s r a' s'.
Proof.
  intros Hl He. unfold send_goodbye_until, io_bind.
  destruct (authorize_spec q a s Hl) as (s' & Hc & [[-> Ha]|[e ->]]);
    [|by eexists _, _, _; split; [reflexivity|]; split; [done|]; split; [done|apply ended_closed]].
  destruct (on_writer_spec q MsgGoodbye deadline a Hl He) as (b & w & t & Hw & Hm & _).
  unfold write_goodbye_with_deadline. rewrite Hw.
  destruct b; [|by eexists _, _, _; split; [reflexivity|]; split; [done|]; split; [done|apply ended_closed]].
  destruct (close_notify_spec deadline t) as [Hm2 Hd]. cbn [put_writer as_stream].
  destruct (send_close_notify_until deadline t) as [r t2]. cbn [fst snd] in *.
  destruct (is_ok r); [|by eexists _, _, _; split; [reflexivity|]; split; [done|]; split; [done|apply ended_closed]].
  eexists _, _, _. split; [reflexivity|]. split; [done|]. split; [done|]. split; [done|].
  split; [by apply live_put_stream, live_put_writer|]. split; [done|]. split; [by apply Hd|]. by apply (calm_trans _ t).
Qed.

(** ** Histories *)

Abbreviation op_run := (run_session_op pin_store to_vec from_slice fuel).

Lemma terminal_session_op o a (s : S) :
  as_terminal a = true -> op_run o (a, s) = Some (Err terminal_error, (a, s)).
Proof.
  intros Ht. destruct o; cbn [run_session_op]; unfold answer, send_heartbeat_until, send_goodbye_until, revalidate_approval,
    receive_next_with_budget_at, io_bind, authorize_outbound; by rewrite Ht.
Qed.

Lemma session_op_step q o a (s : S) :
  session_live q a -> enough (as_stream a) ->
  exists r a' s', op_run o (a, s) = Some (r, (a', s')) /\ (is_ok r = true -> authorized (content s)) /\
    ((ends r = false /\ enough (as_stream a') /\
      exists q', accepts q (said_goodbye a) (got_frames r) q' (said_goodbye a') /\ session_live q' a') \/
     (ends r = true /\ got_frames r = [] /\ ended a')).
Proof.
  intros Hl He. destruct o as [d|d| |mw now_ms max_wait]; cbn [run_session_op]; unfold answer.
  - destruct (heartbeat_spec q d a s Hl He) as (r & a' & s' & -> & _ & _ & Hr). eexists _, _, _. split; [reflexivity|].
    destruct r as [u|e]; [|by split; [done|right]]. destruct Hr as (Ha & Hl' & Hi & _ & Hm). split; [done|]. left.
    split; [done|]. split; [by eapply enough_calm|]. exists q. unfold said_goodbye. rewrite Hi. by split; [constructor|].
  - destruct (goodbye_spec q d a s Hl He) as (r & a' & s' & -> & _ & _ & Hr). eexists _, _, _. split; [reflexivity|].
    destruct r as [u|e]; [|by split; [done|right]]. destruct Hr as (Ha & Hl' & Hi & _ & Hm). split; [done|]. left.
    split; [done|]. split; [by eapply enough_calm|]. exists q. unfold said_goodbye. rewrite Hi. by split; [constructor|].
  - unfold revalidate_approval. destruct (authorize_spec q a s Hl) as (s' & Hc & [[-> Ha]|[e ->]]);
      (eexists _, _, _; split; [reflexivity|]); (split; [done|]); [left|right; by split; [|split; [|apply ended_closed]]].
    split; [done|]. split; [done|]. exists q. by split; [constructor|].
  - destruct (receive_spec q a s mw now_ms max_wait Hl) as (r & a' & s' & -> & _ & Hr). eexists _, _, _. split; [reflexivity|].
    destruct r as [got|e]; [|by split; [done|right]]. destruct Hr as (Ha & _ & _ & _ & Hgot). split; [done|].
    destruct got as [out| |].
    + destruct Hgot as (_ & Hm & _ & q' & Hacc & Hl'). left. split; [done|]. split; [by eapply enough_calm|]. by exists q'.
    + destruct Hgot as (_ & Hm & Hl' & Hg & _). left. split; [done|]. split; [by eapply enough_calm|]. exists q.
      rewrite Hg. by split; [constructor|].
    + destruct Hgot as [_ Hend]. by right.
Qed.

End session_facts.

Section session_histories.
Context {S T : Type} `{LawfulTrustStores S} `{LawfulTls T} (pin_store : bool).
Context (net : NetworkId) (peer : NodeId) (sid : bytes 16) (key : SpkiSha256).
Variable to_vec : ControlEnvelope -> option (list Z).
Variable from_slice : list Z -> option ControlEnvelope.
Variable fuel : nat.

Abbreviation accepts := (accepts net peer sid).
Abbreviation run := (run_session pin_store to_vec from_slice fuel content).
Abbreviation history := (list ((MembershipRegistry * PeerKeyPins) * result ControlSessionError (option ControlSessionRead))).

Lemma run_session_terminal (l : list (S * session_op S)) (a : ActiveControlSession T) :
  as_terminal a = true ->
  exists hist : history, run l a = Some (hist, a) /\ all_frames hist = [] /\
    Forall (fun cr => is_ok cr.2 = false) hist /\ refused_after_end true hist.
Proof.
  intros Ht. induction l as [|[s o] l (hist & Hrun & Hf & Hall & Href)]; [by exists []|]. cbn [run_session].
  rewrite terminal_session_op by done. rewrite Hrun. eexists. split; [reflexivity|]. split; [done|].
  split; [by constructor|]. by split.
Qed.

Lemma refused_end_weaken (b : bool) (hist : history) : refused_after_end true hist -> refused_after_end b hist.
Proof.
  destruct hist as [|[c r] hist]; [done|]. cbn [refused_after_end orb]. intros [Hr Hh]. split; [by intros _; apply Hr|].
  by rewrite (Hr eq_refl), orb_true_r.
Qed.

Lemma run_session_spec (l : list (S * session_op S)) q (a : ActiveControlSession T) :
  session_live net peer sid key q a -> enough fuel (as_stream a) ->
  exists (hist : history) a' last closed, run l a = Some (hist, a') /\
    accepts q (said_goodbye a) (all_frames hist) last closed /\
    Forall (fun cr => is_ok cr.2 = true -> authorized_in cr.1 net peer key) hist /\
    refused_after_end false hist /\ (as_terminal a' = true -> exists t, as_stream a' = close_stream t).
Proof.
  revert q a. induction l as [|[s o] l IH]; intros q a Hl He; cbn [run_session].
  { exists [], a, q, (said_goodbye a). split; [done|]. split; [constructor|]. split; [done|]. split; [done|].
    by rewrite (live_terminal _ _ _ _ _ _ Hl). }
  destruct (session_op_step pin_store net peer sid key from_slice to_vec fuel q o a s Hl He)
    as (r & a1 & s1 & -> & Hok & [(Hends & He1 & q1 & Hacc & Hl1)|(Hends & Hnil & Ht & t & Hst)]).
  - destruct (IH q1 a1 Hl1 He1) as (hist & a2 & last & closed & -> & Hacc2 & Hall & Href & Hcl).
    eexists _, a2, last, closed. split; [reflexivity|]. split; [|split; [by constructor|]].
    + change (all_frames ((content s, r) :: hist)) with (got_frames r ++ all_frames hist).
      apply accepts_app. by exists q1, (said_goodbye a1).
    + cbn [refused_after_end orb]. rewrite Hends. by split.
  - destruct (run_session_terminal l a1 Ht) as (hist & -> & Hf & Hall & Href).
    eexists _, a1, q, (said_goodbye a). split; [reflexivity|]. split; [|split; [|split; [by split; [|rewrite Hends]|by intros _; exists t]]].
    + change (all_frames ((content s, r) :: hist)) with (got_frames r ++ all_frames hist). rewrite Hnil, Hf. constructor.
    + constructor; [done|]. eapply Forall_impl; [exact Hall|]. by intros [c r'] Hr; cbn in *; rewrite Hr.
Qed.
End session_histories.


(** A session fails closed.  From a verified handshake on, over any history of heartbeats, goodbyes,
    approval checks and reads, between which and during whose reads the trust
    stores may become anything, every call answers; what the reads hand out is one
    session's frames, in order; a call that succeeds began while the peer was
    approved with exactly the key of this channel; after the first error or the
    end of the stream every call is refused; and a session that is over has had
    its socket shut down. *)
Theorem active_session_fails_closed {S T : Type} `{LawfulTrustStores S} `{LawfulTls T} (pin_store : bool)
    (v : VerifiedTlsIdentity) (d : ConnectionDeadline) (s0 s1 : S) (g : PinnedSessionIngress) to_vec
    (from_slice : list Z -> option ControlEnvelope) (fuel : nat) (t : T) (w : SessionControlWriter) (facts : HelloFacts)
    (l : list (S * session_op S)) :
  after_verified_handshake pin_store v d s0 = (Ok g, s1) ->
  (4 + Z.to_nat MAX_CONTROL_FRAME_BYTES + interrupts t < fuel)%nat ->
  let peer := mkPinnedPeer (vi_network v) (vi_peer v) (vi_key v) in
  exists hist a' last closed,
    run_session pin_store to_vec from_slice fuel content l (mkSession t g w peer (vi_session v) facts false) = Some (hist, a') /\
    accepts (vi_network v) (vi_peer v) (vi_session v) 2 false (all_frames hist) last closed /\
    Forall (fun cr => is_ok cr.2 = true -> authorized_in cr.1 (vi_network v) (vi_peer v) (vi_key v)) hist /\
    refused_after_end false hist /\
    (as_terminal a' = true -> exists t', as_stream a' = close_stream t').
Proof.
  intros (_ & Hg & Ht & Hl & Hgb)%fresh_ingress Hf peer.
  destruct (run_session_spec pin_store (vi_network v) (vi_peer v) (vi_session v) (vi_key v) to_vec from_slice fuel l 2
    (mkSession t g w peer (vi_session v) facts false)) as (hist & a' & last & closed & Hrun & Hacc & Hrest); [by split|done|].
  exists hist, a', last, closed. unfold said_goodbye in Hacc. cbn [as_ingress] in Hacc. by rewrite Hgb in Hacc.
Qed.

(** ** Example: a stream in memory *)

#[local] Existing Instances disk_stores disk_lawful.

(** Reads give what is there at once, or that the wait was in vain. *)
Record pipe := mkPipe { pipe_in : list Z; pipe_out : list Z; pipe_clock : Z; pipe_down : bool }.

Definition pipe_bytes (p : pipe) : list Z := (fun b => b mod 256) <$> pipe_in p.

#[local] Instance pipe_stream : DeadlineStream pipe := {
  now p := (pipe_clock p + 1, mkPipe (pipe_in p) (pipe_out p) (pipe_clock p + 1) (pipe_down p));
  set_control_read_timeout _ := fun p => (Ok (), p);
  set_control_write_timeout _ := fun p => (Ok (), p);
  read n := fun p =>
    if bool_decide (pipe_in p = []) then (Err WouldBlock, p)
    else (Ok (take n (pipe_bytes p)), mkPipe (drop n (pipe_in p)) (pipe_out p) (pipe_clock p) (pipe_down p));
  write bytes := fun p => (Ok (length bytes), mkPipe (pipe_in p) (pipe_out p ++ bytes) (pipe_clock p) (pipe_down p));
}.

#[local] Instance pipe_lawful : LawfulStream pipe.
Proof.
  refine {| incoming := pipe_bytes; outgoing := pipe_out; clock := pipe_clock; interrupts := fun _ => 0%nat |}.
  - intros p t p' [= <- <-]. simpl. split_and!; done || lia.
  - intros d p r p' [= <- <-]. split_and!; done || lia.
  - intros d p r p' [= <- <-]. split_and!; done || lia.
  - intros n p r p'. simpl. case_bool_decide; intros [= <- <-]; simpl.
    + split_and!; done || lia.
    + split_and!; [lia|done|rewrite length_take; lia| |lia]. unfold pipe_bytes. simpl.
      by rewrite fmap_drop, take_drop.
  - intros bytes p r p' [= <- <-]. simpl. split_and!; [lia|done|lia|by rewrite firstn_all|lia].
Defined.

#[local] Instance pipe_tls : TlsStream pipe := {
  tls_timeout_socket := {|
    read_timeout := fun p => (Ok None, p); set_read_timeout := fun _ p => (Ok (), p);
    write_timeout := fun p => (Ok None, p); set_write_timeout := fun _ p => (Ok (), p) |};
  queue_close_notify := fun p => p;
  flush := fun p => (Ok (), p);
  shutdown_write := fun p => (Ok (), p);
  shutdown_both := fun p => (Ok (), mkPipe (pipe_in p) (pipe_out p) (pipe_clock p) true);
}.

#[local] Instance pipe_lawful_tls : LawfulTls pipe.
Proof.
  apply (@Build_LawfulTls pipe pipe_tls pipe_lawful).
  - intros n p got p'. simpl. case_bool_decide; intros [=]. subst. apply Forall_take. unfold pipe_bytes.
    apply Forall_fmap, Forall_true. intros x. unfold compose, byte_ok. apply Z.mod_pos_bound. lia.
  - intros p o. split_and!; split; simpl; lia.
Defined.

Definition demo_pipe : pipe := mkPipe [0; 0; 0; 1; 21] [] 0 false.
Definition demo_open_session : ActiveControlSession pipe :=
  mkSession demo_pipe demo_ingress demo_writer (mkPinnedPeer (fill_id 1) (fill_id 2) demo_key) (fill_bytes 16 9)
    (mkFacts [1] caps_default None []) false.
(** A heartbeat arrives, a poll is in vain, the peer is revoked. *)
Definition demo_session_ops : list (disk * session_op disk) :=
  [(demo_enrolled, SReceive id 1000 DURATION_MAX); (demo_enrolled, SReceive id 2000 5);
   (demo_disk ∅, SRevalidate); (demo_enrolled, SReceive id 3000 5)].

Lemma demo_handshake :
  after_verified_handshake true demo_identity (entered Active 0) demo_enrolled =
    (Ok demo_ingress, (after_verified_handshake true demo_identity (entered Active 0) demo_enrolled).2).
Proof. vm_compute. reflexivity. Qed.

Lemma demo_session_live : session_live (fill_id 1) (fill_id 2) (fill_bytes 16 9) demo_key 2 demo_open_session.
Proof. destruct (fresh_ingress _ _ _ _ _ _ demo_handshake) as (_ & Hg & Ht & Hl & _). by split. Qed.


Lemma active_session_fails_closed_witness :
  exists hist a' last closed,
    run_session true (fun _ => None) (table_from_slice demo_session_table) demo_fuel content demo_session_ops demo_open_session = Some (hist, a') /\
    accepts (fill_id 1) (fill_id 2) (fill_bytes 16 9) 2 false (all_frames hist) last closed /\
    length (all_frames hist) = 1%nat /\ is_ok <$> hist.*2 = [true; true; false; false] /\ exists t, as_stream a' = close_stream t.
Proof.
  destruct (active_session_fails_closed true demo_identity (entered Active 0) demo_enrolled _ demo_ingress (fun _ => None)
    (table_from_slice demo_session_table) demo_fuel demo_pipe demo_writer (mkFacts [1] caps_default None []) demo_session_ops
    demo_handshake) as (hist & a' & last & closed & Hrun & Hacc & _ & _ & Hend).
  { change (interrupts demo_pipe) with 0%nat. unfold demo_fuel. lia. }
  exists hist, a', last, closed. split; [exact Hrun|]. split; [exact Hacc|].
  assert ((fun o => match o with Some (h, a) => (length (all_frames h), is_ok <$> h.*2, as_terminal a) | None => (0%nat, [], false) end)
    (run_session true (fun _ => None) (table_from_slice demo_session_table) demo_fuel content demo_session_ops demo_open_session)
    = (1%nat, [true; true; false; false], true)) as Hv by (vm_compute; reflexivity).
  change (run_session true (fun _ => None) (table_from_slice demo_session_table) demo_fuel content demo_session_ops demo_open_session
    = Some (hist, a')) in Hrun. rewrite Hrun in Hv. injection Hv as Hlen Hoks Hterm.
  split; [exact Hlen|]. split; [exact Hoks|]. apply Hend. exact Hterm.
Defined.
