(* ===== verification/RegisteredSession.v ===== *)
(** Registered control sessions: [apps/daemon/src/registered_transport.rs] and
    its [generation_guard.rs].

    The session it owns is behind [OwnedSession].  The registry is shared under a
    mutex: whenever the lock is taken, other threads may have acted since it was
    last released, and what they did is the head of [sh_others]. *)

From S2P Require Import Prelude Order Ident PeerPins ControlFrame ControlIo Handshake SessionStream SessionActivity PeerTrust SessionRegistry PinnedIngress ActiveSession.

(** ** The owned session *)

Class OwnedSession (A : Type) := {
  os_peer : A -> PinnedControlTlsPeer;
  os_session_id : A -> bytes 16;
  os_terminal : A -> bool;
  os_close : A -> A;
  os_receive : Z -> Z -> io A ControlSessionError ControlSessionRead;
  os_heartbeat : Z -> io A ControlSessionError ();
  os_goodbye : Z -> io A ControlSessionError ();
  os_revalidate : io A ControlSessionError ();
}.

(** ** The shared registry *)

(** A value under a mutex, and what other threads do to it whenever it is free. *)
Record Shared (X : Type) := mkShared { sh_lock : X; sh_others : list (X -> X) }.
Arguments mkShared {X}.
Arguments sh_lock {X}.
Arguments sh_others {X}.

Definition acquire {X : Type} (w : Shared X) : Shared X :=
  match sh_others w with
  | [] => w
  | others :: rest => mkShared (others (sh_lock w)) rest
  end.
Definition put_locked {X : Type} (x : X) (w : Shared X) : Shared X := mkShared x (sh_others w).

Record LockState := mkLock { lk_registry : ControlSessionRegistry; lk_poisoned : bool }.
Abbreviation SharedRegistry := (Shared LockState).

Definition put_registry (g : ControlSessionRegistry) (w : SharedRegistry) : SharedRegistry :=
  put_locked (mkLock g (lk_poisoned (sh_lock w))) w.

(** ** Data *)

Inductive SessionAdmissionError := Registry (e : SessionRegistryError) | LockPoisoned.

Record RegisteredControlSession (A : Type) := mkRegistered {
  rs_session : A;
  rs_key : PeerSessionKey;
  rs_session_id : bytes 16;
}.
Arguments mkRegistered {A}.
Arguments rs_session {A}.
Arguments rs_key {A}.
Arguments rs_session_id {A}.

Definition registration_is_active (g : ControlSessionRegistry) (key : PeerSessionKey) (id : bytes 16) : bool :=
  match sessions g !! key with
  | Some e => bool_decide (e_session e = id) && bool_decide (phase e = Active)
  | None => false
  end.

Definition callback_matches (current_key : PeerSessionKey) (current_id : bytes 16) (expected_key : PeerSessionKey)
  (expected_id : bytes 16) : bool := bool_decide (current_key = expected_key) && bool_decide (current_id = expected_id).

(** ** Operations *)

Section operations.
Context {A : Type} `{OwnedSession A}.

Abbreviation owner := (RegisteredControlSession A * SharedRegistry)%type.
Abbreviation act X := (io owner ControlSessionError X).

Definition put_session (a : A) (r : RegisteredControlSession A) : RegisteredControlSession A :=
  mkRegistered a (rs_key r) (rs_session_id r).

(** The caller keeps nothing of a session that is not admitted. *)
Definition admit_session (a : A) : stres SharedRegistry SessionAdmissionError (RegisteredControlSession A) := fun w =>
  let key := mkKey (pp_network (os_peer a)) (pp_node (os_peer a)) in
  let id := os_session_id a in
  let w := acquire w in
  if lk_poisoned (sh_lock w) then (Err LockPoisoned, w)
  else
    match activate_after_authentication key id (lk_registry (sh_lock w)) with
    | (Ok New, g) | (Ok Recovered, g) => (Ok (mkRegistered a key id), put_registry g w)
    | (Ok AlreadyActive, g) => (Err (Registry DuplicateActiveSession), put_registry g w)
    | (Err e, g) => (Err (Registry e), put_registry g w)
    end.

(** A poisoned lock still gives the registry. *)
Definition retire (key : PeerSessionKey) (id : bytes 16) (w : SharedRegistry) : SharedRegistry :=
  let w := acquire w in put_registry (remove_if_current key id (lk_registry (sh_lock w))).2 w.

Definition close_and_retire : owner -> owner := fun '(r, w) =>
  let r := put_session (os_close (rs_session r)) r in (r, retire (rs_key r) (rs_session_id r) w).

(** [drop] and [cancel]. *)
Definition cancel : owner -> owner := close_and_retire.

Definition cancel_if_current (expected : bytes 16) : owner -> bool * owner := fun '(r, w) =>
  if negb (bool_decide (rs_session_id r = expected)) then (false, (r, w)) else (true, close_and_retire (r, w)).

Definition cancel_if_current_for_peer (expected_key : PeerSessionKey) (expected : bytes 16) : owner -> bool * owner :=
  fun '(r, w) =>
  if negb (callback_matches (rs_key r) (rs_session_id r) expected_key expected) then (false, (r, w))
  else cancel_if_current expected (r, w).

Definition ensure_current_registration : act () := fun '(r, w) =>
  let w := acquire w in
  if negb (lk_poisoned (sh_lock w)) && registration_is_active (lk_registry (sh_lock w)) (rs_key r) (rs_session_id r)
  then Some (Ok (), (r, w))
  else Some (Err terminal_error, close_and_retire (r, w)).

Definition ensure_active_registration : act () :=
  let? _ := ensure_current_registration in fun '(r, w) =>
  if os_terminal (rs_session r) then Some (Err terminal_error, close_and_retire (r, w)) else Some (Ok (), (r, w)).

(** The shape the four operations share: the registration is checked, the session
    does its part, then either the owner is retired or the registration is
    checked again. *)
Definition supervised {X : Type} (m : io A ControlSessionError X) (over : X -> bool) (recheck : act ()) : act X :=
  let? _ := ensure_active_registration in fun '(r, w) =>
  match m (rs_session r) with
  | None => None
  | Some (Ok x, a) =>
    let r := put_session a r in
    if over x then Some (Ok x, close_and_retire (r, w)) else (let? _ := recheck in io_ret x) (r, w)
  | Some (Err e, a) => Some (Err e, close_and_retire (put_session a r, w))
  end.

Definition read_over (got : ControlSessionRead) : bool := if got is Closed then true else false.

Definition registered_receive (now_ms max_wait : Z) : act ControlSessionRead :=
  supervised (os_receive now_ms max_wait) read_over ensure_active_registration.
Definition registered_heartbeat (deadline : Z) : act () :=
  supervised (os_heartbeat deadline) (fun _ => false) ensure_active_registration.
(** Goodbye makes the stream terminal: only the registry is checked after it. *)
Definition registered_goodbye (deadline : Z) : act () :=
  supervised (os_goodbye deadline) (fun _ => false) ensure_current_registration.
Definition registered_revalidate : act () :=
  supervised os_revalidate (fun _ => false) ensure_active_registration.
End operations.

(** ** What a session promises its owner

    [os_env] is what others may do to what the session shares between two calls;
    a ready session answers every call. *)
Class LawfulSession (A : Type) `{OwnedSession A} := {
  os_shut : A -> Prop;
  os_ready : A -> Prop;
  os_env : A -> A -> Prop;
  close_law (a : A) : os_terminal (os_close a) = true /\ os_shut (os_close a) /\ os_ready (os_close a);
  env_law (a a' : A) : os_env a a' -> os_ready a -> os_ready a' /\ os_terminal a' = os_terminal a /\ (os_shut a -> os_shut a');
  receive_law (a : A) now_ms max_wait : os_ready a ->
    exists r a', os_receive now_ms max_wait a = Some (r, a') /\ os_ready a';
  heartbeat_law (a : A) d : os_ready a -> exists r a', os_heartbeat d a = Some (r, a') /\ os_ready a';
  goodbye_law (a : A) d : os_ready a -> exists r a', os_goodbye d a = Some (r, a') /\ os_ready a';
  revalidate_law (a : A) : os_ready a -> exists r a', os_revalidate a = Some (r, a') /\ os_ready a';
}.

Section facts.
Context {A : Type} `{LawfulSession A}.

(** The registry holds this generation, in any phase. *)
Definition holds (g : ControlSessionRegistry) (key : PeerSessionKey) (id : bytes 16) : Prop :=
  exists e, sessions g !! key = Some e /\ e_session e = id.

(** The owner's generation is the active one. *)
Definition current (r : RegisteredControlSession A) (w : SharedRegistry) : Prop :=
  lk_poisoned (sh_lock w) = false /\
  sessions (lk_registry (sh_lock w)) !! rs_key r = Some (mkEntry (rs_session_id r) Active).

(** The owner let go: its socket is shut down, its generation is out. *)
Definition let_go (r : RegisteredControlSession A) (w : SharedRegistry) : Prop :=
  os_terminal (rs_session r) = true /\ os_shut (rs_session r) /\ os_ready (rs_session r) /\
  ~ holds (lk_registry (sh_lock w)) (rs_key r) (rs_session_id r).

Lemma registration_is_active_true g key id :
  registration_is_active g key id = true <-> sessions g !! key = Some (mkEntry id Active).
Proof.
  unfold registration_is_active. destruct (sessions g !! key) as [[id' ph]|]; [|done].
  rewrite andb_true_iff, !bool_decide_eq_true. cbn. naive_solver.
Qed.

Lemma active_is_current (r : RegisteredControlSession A) w :
  negb (lk_poisoned (sh_lock w)) && registration_is_active (lk_registry (sh_lock w)) (rs_key r) (rs_session_id r) = true <->
  current r w.
Proof. by rewrite andb_true_iff, negb_true_iff, registration_is_active_true. Qed.

(** Removing a generation takes nothing else. *)
Lemma remove_if_current_spec key id g :
  let g' := (remove_if_current key id g).2 in
  ~ holds g' key id /\ recent_session_ids g' = recent_session_ids g /\ seen_session_ids g' = seen_session_ids g /\
  (forall k e, (k, e_session e) <> (key, id) -> sessions g' !! k = Some e <-> sessions g !! k = Some e).
Proof.
  unfold remove_if_current, holds. destruct (sessions g !! key) as [e|] eqn:He; [case_bool_decide as Hid|]; cbn [snd with_sessions sessions recent_session_ids seen_session_ids].
  - split; [intros (e' & He' & _); by rewrite lookup_delete_eq in He'|]. split; [done|]. split; [done|].
    intros k e' Hne. destruct (decide (k = key)) as [->|Hk]; [|by rewrite lookup_delete_ne].
    rewrite lookup_delete_eq, He. split; [done|]. intros [= <-]. congruence.
  - split; [intros (e' & He' & Hid'); rewrite He in He'; injection He' as <-; done|]. done.
  - split; [intros (e' & He' & Hid'); congruence|]. done.
Qed.

Lemma close_and_retire_spec (r : RegisteredControlSession A) w :
  let '(r', w') := close_and_retire (r, w) in
  rs_key r' = rs_key r /\ rs_session_id r' = rs_session_id r /\ let_go r' w' /\ w' = retire (rs_key r) (rs_session_id r) w.
Proof.
  unfold close_and_retire. cbn [put_session rs_session rs_key rs_session_id]. split; [done|]. split; [done|]. split; [|done].
  destruct (close_law (rs_session r)) as (Ht & Hs & Hr). split; [done|]. split; [done|]. split; [done|]. apply remove_if_current_spec.
Qed.

(** A check of the registration: it passes for the current generation, or lets go. *)
Definition checks (recheck : io (RegisteredControlSession A * SharedRegistry) ControlSessionError ()) : Prop := forall r w,
  (recheck (r, w) = Some (Ok (), (r, acquire w)) /\ current r (acquire w)) \/
  recheck (r, w) = Some (Err terminal_error, close_and_retire (r, acquire w)).

Lemma ensure_current_checks : checks ensure_current_registration.
Proof.
  intros r w. unfold ensure_current_registration. destruct (_ && _) eqn:Hc; [left|by right].
  split; [done|]. by apply active_is_current.
Qed.

Lemma ensure_active_cases (r : RegisteredControlSession A) w :
  (ensure_active_registration (r, w) = Some (Ok (), (r, acquire w)) /\ current r (acquire w) /\ os_terminal (rs_session r) = false) \/
  ensure_active_registration (r, w) = Some (Err terminal_error, close_and_retire (r, acquire w)).
Proof.
  unfold ensure_active_registration, io_bind. destruct (ensure_current_checks r w) as [[-> Hc]| ->]; [|by right].
  destruct (os_terminal (rs_session r)); [by right|by left].
Qed.

Lemma ensure_active_checks : checks ensure_active_registration.
Proof. intros r w. destruct (ensure_active_cases r w) as [(-> & Hc & _)| ->]; [by left|by right]. Qed.

(** A generation that is not the current one any more gets nothing. *)
Lemma ensure_active_stale (r : RegisteredControlSession A) w :
  ~ current r (acquire w) -> ensure_active_registration (r, w) = Some (Err terminal_error, close_and_retire (r, acquire w)).
Proof. intros Hn. by destruct (ensure_active_cases r w) as [(_ & Hc & _)|]. Qed.

(** The outcome of a supervised operation.  The registry is only ever changed by
    removing this owner's generation, last. *)
Definition supervised_answer {X : Type} (m : io A ControlSessionError X) (over : X -> bool)
  (r : RegisteredControlSession A) (w : SharedRegistry) (res : result ControlSessionError X)
  (r' : RegisteredControlSession A) (w' : SharedRegistry) : Prop :=
  rs_key r' = rs_key r /\ rs_session_id r' = rs_session_id r /\
  match res with
  | Ok x => current r (acquire w) /\
      (if over x then exists a, m (rs_session r) = Some (Ok x, a) /\ let_go r' w' /\ w' = retire (rs_key r) (rs_session_id r) (acquire w)
       else m (rs_session r) = Some (Ok x, rs_session r') /\ current r' w' /\ w' = acquire (acquire w))
  | Err e => let_go r' w' /\ (exists n, w' = retire (rs_key r) (rs_session_id r) (Nat.iter n acquire w)) /\
      (e = terminal_error \/ exists a, m (rs_session r) = Some (Err e, a))
  end.

Lemma supervised_spec {X : Type} (m : io A ControlSessionError X) over recheck r w :
  checks recheck -> (exists res a, m (rs_session r) = Some (res, a)) ->
  exists res r' w', supervised m over recheck (r, w) = Some (res, (r', w')) /\ supervised_answer m over r w res r' w'.
Proof.
  intros Hre (res & a & Hm). unfold supervised, io_bind at 1.
  destruct (ensure_active_cases r w) as [(-> & Hc & _)| ->].
  2:{ pose proof (close_and_retire_spec r (acquire w)) as Hlet. destruct (close_and_retire (r, acquire w)) as [r' w'].
      destruct Hlet as (Hk & Hid & Hlet & Hw). eexists _, _, _. split; [reflexivity|]. split; [done|]. split; [done|].
      split; [done|]. split; [by exists 1|by left]. }
  rewrite Hm. destruct res as [x|e].
  - destruct (over x) eqn:Hx.
    + pose proof (close_and_retire_spec (put_session a r) (acquire w)) as Hlet.
      destruct (close_and_retire (put_session a r, acquire w)) as [r' w']. destruct Hlet as (Hk & Hid & Hlet & Hw).
      eexists _, _, _. split; [reflexivity|]. split; [done|]. split; [done|]. split; [done|]. rewrite Hx. by exists a.
    + unfold io_bind. destruct (Hre (put_session a r) (acquire w)) as [[-> Hc2]| ->].
      * eexists _, _, _. split; [reflexivity|]. split; [done|]. split; [done|]. split; [done|]. by rewrite Hx.
      * pose proof (close_and_retire_spec (put_session a r) (acquire (acquire w))) as Hlet.
        destruct (close_and_retire (put_session a r, acquire (acquire w))) as [r' w']. destruct Hlet as (Hk & Hid & Hlet & Hw).
        eexists _, _, _. split; [reflexivity|]. split; [done|]. split; [done|]. split; [done|]. split; [by exists 2|by left].
  - pose proof (close_and_retire_spec (put_session a r) (acquire w)) as Hlet.
    destruct (close_and_retire (put_session a r, acquire w)) as [r' w']. destruct Hlet as (Hk & Hid & Hlet & Hw).
    eexists _, _, _. split; [reflexivity|]. split; [done|]. split; [done|]. split; [done|]. split; [by exists 1|right; by exists a].
Qed.
End facts.

(** ** Histories *)

Inductive registered_op :=
| RReceive (now_ms max_wait : Z) | RHeartbeat (deadline : Z) | RGoodbye (deadline : Z) | RRevalidate
| RCancel | RCancelIf (id : bytes 16) | RCancelPeer (key : PeerSessionKey) (id : bytes 16).

Section histories.
Context {A : Type} `{OwnedSession A}.

Definition run_registered_op (o : registered_op) :
  io (RegisteredControlSession A * SharedRegistry) ControlSessionError (option ControlSessionRead) := fun rw =>
  match o with
  | RReceive now_ms max_wait => (let? got := registered_receive now_ms max_wait in io_ret (Some got)) rw
  | RHeartbeat d => (let? _ := registered_heartbeat d in io_ret None) rw
  | RGoodbye d => (let? _ := registered_goodbye d in io_ret None) rw
  | RRevalidate => (let? _ := registered_revalidate in io_ret None) rw
  | RCancel => Some (Ok None, cancel rw)
  | RCancelIf id => Some (Ok None, (cancel_if_current id rw).2)
  | RCancelPeer key id => Some (Ok None, (cancel_if_current_for_peer key id rw).2)
  end.

(** Whether the operation cancels this owner, whatever happens. *)
Definition cancels (key : PeerSessionKey) (id : bytes 16) (o : registered_op) : bool :=
  match o with
  | RCancel => true
  | RCancelIf id' => bool_decide (id = id')
  | RCancelPeer key' id' => callback_matches key id key' id'
  | _ => false
  end.
Definition does_io (o : registered_op) : bool :=
  match o with RReceive _ _ | RHeartbeat _ | RGoodbye _ | RRevalidate => true | _ => false end.

(** Before each operation others may act on what the session shares; the record
    keeps each operation, its outcome and the registry it left. *)
Fixpoint run_registered (l : list ((A -> A) * registered_op)) (r : RegisteredControlSession A) (w : SharedRegistry) :
  option (list (registered_op * result ControlSessionError (option ControlSessionRead) * SharedRegistry) *
          (RegisteredControlSession A * SharedRegistry)) :=
  match l with
  | [] => Some ([], (r, w))
  | (env, o) :: l =>
    match run_registered_op o (put_session (env (rs_session r)) r, w) with
    | None => None
    | Some (res, (r', w')) =>
      match run_registered l r' w' with
      | None => None
      | Some (hist, rw) => Some ((o, res, w') :: hist, rw)
      end
    end
  end.
End histories.

(** Once the owner has let go, every operation that would use the session is
    refused. *)
Fixpoint refused_once_over (key : PeerSessionKey) (id : bytes 16) (over : bool)
  (hist : list (registered_op * result ControlSessionError (option ControlSessionRead) * SharedRegistry)) : Prop :=
  match hist with
  | [] => True
  | (o, res, _) :: hist => (over = true -> does_io o = true -> res = Err terminal_error) /\
      refused_once_over key id (over || ends res || cancels key id o) hist
  end.

(** A generation is not registered a second time: [SessionRegistry] refuses a
    remembered session identifier. *)
Definition spares (key : PeerSessionKey) (id : bytes 16) (others : LockState -> LockState) : Prop :=
  forall lk, ~ holds (lk_registry lk) key id -> ~ holds (lk_registry (others lk)) key id.

(** *** What a run does to the registry *)

(** The registry goes from [w] to [w'] by nothing but what others do to it while
    it is free and the removal of the generation [(key, id)]. *)
Definition only_own (key : PeerSessionKey) (id : bytes 16) : SharedRegistry -> SharedRegistry -> Prop :=
  rtc (fun w w' => w' = acquire w \/ w' = retire key id w).

#[global] Instance only_own_refl key id : Reflexive (only_own key id).
Proof. intros w. apply rtc_refl. Qed.
#[global] Instance only_own_trans key id : Transitive (only_own key id).
Proof. unfold only_own. apply _. Qed.

Lemma only_own_acquire key id w : only_own key id w (acquire w).
Proof. apply rtc_once. by left. Qed.
Lemma only_own_retire key id w : only_own key id w (retire key id w).
Proof. apply rtc_once. by right. Qed.
Lemma only_own_iter key id n w : only_own key id w (Nat.iter n acquire w).
Proof. induction n as [|n IH]; [done|]. cbn. etrans; [exact IH|]. apply only_own_acquire. Qed.

(** Every generation but [(key, id)], and the history, is as it was. *)
Definition generations_kept (key : PeerSessionKey) (id : bytes 16) (w w' : SharedRegistry) : Prop :=
  let g := lk_registry (sh_lock w) in let g' := lk_registry (sh_lock w') in
  lk_poisoned (sh_lock w') = lk_poisoned (sh_lock w) /\
  recent_session_ids g' = recent_session_ids g /\ seen_session_ids g' = seen_session_ids g /\
  forall k e, (k, e_session e) <> (key, id) -> sessions g' !! k = Some e <-> sessions g !! k = Some e.

(** When nobody else acts on the registry. *)
Lemma only_own_alone key id w w' :
  only_own key id w w' -> sh_others w = [] -> sh_others w' = [] /\ generations_kept key id w w'.
Proof.
  induction 1 as [w|w w1 w2 Hstep _ IH]; intros Hw; [by split_and!|].
  assert (acquire w = w) as Ha by (unfold acquire; by rewrite Hw).
  destruct Hstep as [->| ->]; [rewrite Ha in IH; by apply IH|].
  unfold retire in IH. rewrite Ha in IH. cbn [put_registry put_locked sh_others] in IH.
  destruct (IH Hw) as (Hn & Hp & Hrec & Hseen & Hk). split; [done|]. unfold generations_kept. rewrite Hp, Hrec, Hseen.
  cbn [put_registry put_locked sh_lock lk_registry lk_poisoned] in *.
  destruct (remove_if_current_spec key id (lk_registry (sh_lock w))) as (_ & E1 & E2 & E3).
  split_and!; [done..|]. intros k e Hne. by rewrite Hk, E3.
Qed.

Section history_facts.
Context {A : Type} `{LawfulSession A}.

(** A supervised operation does nothing else to the registry. *)
Lemma supervised_only_own {X : Type} (m : io A ControlSessionError X) over (r : RegisteredControlSession A) w res r' w' :
  supervised_answer m over r w res r' w' -> only_own (rs_key r) (rs_session_id r) w w'.
Proof.
  intros (_ & _ & Hres). destruct res as [x|e].
  - destruct Hres as [_ Hres]. destruct (over x).
    + destruct Hres as (a & _ & _ & ->). etrans; [apply only_own_acquire|apply only_own_retire].
    + destruct Hres as (_ & _ & ->). apply (only_own_iter _ _ 2).
  - destruct Hres as (_ & [n ->] & _). etrans; [apply only_own_iter|apply only_own_retire].
Qed.

Lemma acquire_spares key id w :
  Forall (spares key id) (sh_others w) -> Forall (spares key id) (sh_others (acquire w)).
Proof. unfold acquire. destruct (sh_others w) as [|f fs] eqn:Hw; [by rewrite Hw|]. by intros [_ Hfs]%Forall_cons. Qed.

Lemma acquire_gone key id w :
  Forall (spares key id) (sh_others w) -> ~ holds (lk_registry (sh_lock w)) key id ->
  ~ holds (lk_registry (sh_lock (acquire w))) key id.
Proof. unfold acquire. destruct (sh_others w) as [|f fs]; [done|]. intros [Hf _]%Forall_cons Hn. by apply Hf. Qed.

Lemma gone_not_current (r : RegisteredControlSession A) w :
  ~ holds (lk_registry (sh_lock w)) (rs_key r) (rs_session_id r) -> ~ current r w.
Proof. intros Hn [_ Hc]. apply Hn. by eexists. Qed.

Lemma iter_spares key id n w :
  Forall (spares key id) (sh_others w) -> Forall (spares key id) (sh_others (Nat.iter n acquire w)).
Proof. intros Hs. induction n as [|n IH]; [done|]. cbn. by apply acquire_spares. Qed.

Lemma retire_spares key id key' id' w :
  Forall (spares key id) (sh_others w) -> Forall (spares key id) (sh_others (retire key' id' w)).
Proof. intros Hs. unfold retire, put_registry. cbn. by apply acquire_spares. Qed.

(** What one operation leaves of a ready owner. *)
Definition op_answer (o : registered_op) (r : RegisteredControlSession A) (w : SharedRegistry)
  (res : result ControlSessionError (option ControlSessionRead)) (r' : RegisteredControlSession A) (w' : SharedRegistry) : Prop :=
  rs_key r' = rs_key r /\ rs_session_id r' = rs_session_id r /\ os_ready (rs_session r') /\
  Forall (spares (rs_key r) (rs_session_id r)) (sh_others w') /\
  (if ends res || cancels (rs_key r) (rs_session_id r) o then let_go r' w'
   else does_io o = true -> current r' w').

Lemma supervised_step {X : Type} (m : io A ControlSessionError X) over recheck r w :
  checks recheck -> (exists res a, m (rs_session r) = Some (res, a) /\ os_ready a) -> Forall (spares (rs_key r) (rs_session_id r)) (sh_others w) ->
  exists res r' w', supervised m over recheck (r, w) = Some (res, (r', w')) /\
    rs_key r' = rs_key r /\ rs_session_id r' = rs_session_id r /\ os_ready (rs_session r') /\
    Forall (spares (rs_key r) (rs_session_id r)) (sh_others w') /\
    match res with Ok x => if over x then let_go r' w' else current r' w' | Err _ => let_go r' w' end.
Proof.
  intros Hre (res0 & a0 & Hm & Hready) Hsp. destruct (supervised_spec m over recheck r w Hre) as (res & r' & w' & Hrun & Hk & Hid & Hres);
    [by eexists _, _|]. exists res, r', w'. split; [done|]. split; [done|]. split; [done|]. destruct res as [x|e].
  - destruct Hres as [_ Hres]. destruct (over x).
    + destruct Hres as (a & _ & Hlet & ->). split; [apply Hlet|]. split; [|done]. by apply retire_spares, (iter_spares _ _ 1).
    + destruct Hres as (Hm' & Hc & ->). rewrite Hm in Hm'. injection Hm' as -> ->. split; [done|]. split; [|done].
      by apply (iter_spares _ _ 2).
  - destruct Hres as (Hlet & [n ->] & _). split; [apply Hlet|]. split; [|done]. by apply retire_spares, iter_spares.
Qed.

Lemma cancel_step (r : RegisteredControlSession A) w (b : bool) :
  os_ready (rs_session r) -> Forall (spares (rs_key r) (rs_session_id r)) (sh_others w) ->
  let '(r', w') := if b then close_and_retire (r, w) else (r, w) in
  rs_key r' = rs_key r /\ rs_session_id r' = rs_session_id r /\ os_ready (rs_session r') /\
  Forall (spares (rs_key r) (rs_session_id r)) (sh_others w') /\ (if b then let_go r' w' else (r', w') = (r, w)).
Proof.
  intros Hready Hsp. destruct b; [|done]. pose proof (close_and_retire_spec r w) as Hlet.
  destruct (close_and_retire (r, w)) as [r' w']. destruct Hlet as (Hk & Hid & Hlet & ->).
  split; [done|]. split; [done|]. split; [apply Hlet|]. split; [by apply retire_spares|done].
Qed.

Lemma cancel_op_run (o : registered_op) (r : RegisteredControlSession A) w :
  does_io o = false ->
  run_registered_op o (r, w) =
    Some (Ok None, if cancels (rs_key r) (rs_session_id r) o then close_and_retire (r, w) else (r, w)).
Proof.
  destruct o as [| | | | |id|key id]; try done; intros _; cbn [run_registered_op cancels].
  - unfold cancel_if_current. by case_bool_decide.
  - unfold cancel_if_current_for_peer, callback_matches, cancel_if_current. case_bool_decide; cbn [andb negb]; [|done].
    by case_bool_decide.
Qed.

Lemma io_bind_ret {S' E X Y : Type} (m : io S' E X) (f : X -> Y) (s s' : S') res :
  m s = Some (res, s') ->
  (let? x := m in io_ret (f x)) s = Some (match res with Ok x => Ok (f x) | Err e => Err e end, s').
Proof. unfold io_bind. intros ->. by destruct res. Qed.

Lemma registered_op_step (o : registered_op) (r : RegisteredControlSession A) w :
  os_ready (rs_session r) -> Forall (spares (rs_key r) (rs_session_id r)) (sh_others w) ->
  exists res r' w', run_registered_op o (r, w) = Some (res, (r', w')) /\ op_answer o r w res r' w'.
Proof.
  intros Hready Hsp. destruct (does_io o) eqn:Ho.
  2:{ pose proof (cancel_step r w (cancels (rs_key r) (rs_session_id r) o) Hready Hsp) as Hstep.
      rewrite cancel_op_run by done. destruct (if cancels _ _ o then _ else _) as [r' w'].
      destruct Hstep as (Hk & Hid & Hrd & Hsp' & Hb). eexists _, _, _. split; [reflexivity|].
      unfold op_answer. split; [done|]. split; [done|]. split; [done|]. split; [done|]. cbn [ends orb].
      destruct (cancels _ _ o); [done|by rewrite Ho]. }
  unfold op_answer. destruct o as [now_ms max_wait|d|d| | | |]; try done; cbn [run_registered_op cancels does_io];
    unfold registered_receive, registered_heartbeat, registered_goodbye, registered_revalidate.
  - destruct (supervised_step (os_receive now_ms max_wait) read_over ensure_active_registration r w ensure_active_checks
      (receive_law _ now_ms max_wait Hready) Hsp) as (res & r' & w' & Hrun & Hk & Hid & Hrd & Hsp' & Hres).
    rewrite (io_bind_ret _ _ _ _ _ Hrun). eexists _, _, _. split; [reflexivity|]. rewrite orb_false_r.
    do 4 (split; [done|]). destruct res as [[out| |]|e]; cbn in *; done.
  - destruct (supervised_step (os_heartbeat d) (fun _ => false) ensure_active_registration r w ensure_active_checks
      (heartbeat_law _ d Hready) Hsp) as (res & r' & w' & Hrun & Hk & Hid & Hrd & Hsp' & Hres).
    rewrite (io_bind_ret _ _ _ _ _ Hrun). eexists _, _, _. split; [reflexivity|]. rewrite orb_false_r. do 4 (split; [done|]). destruct res as [u|e]; cbn in *; done.
  - destruct (supervised_step (os_goodbye d) (fun _ => false) ensure_current_registration r w ensure_current_checks
      (goodbye_law _ d Hready) Hsp) as (res & r' & w' & Hrun & Hk & Hid & Hrd & Hsp' & Hres).
    rewrite (io_bind_ret _ _ _ _ _ Hrun). eexists _, _, _. split; [reflexivity|]. rewrite orb_false_r. do 4 (split; [done|]). destruct res as [u|e]; cbn in *; done.
  - destruct (supervised_step os_revalidate (fun _ => false) ensure_active_registration r w ensure_active_checks
      (revalidate_law _ Hready) Hsp) as (res & r' & w' & Hrun & Hk & Hid & Hrd & Hsp' & Hres).
    rewrite (io_bind_ret _ _ _ _ _ Hrun). eexists _, _, _. split; [reflexivity|]. rewrite orb_false_r. do 4 (split; [done|]). destruct res as [u|e]; cbn in *; done.
Qed.

(** An owner that has let go never comes back. *)
Lemma let_go_step (o : registered_op) (r : RegisteredControlSession A) w :
  let_go r w -> Forall (spares (rs_key r) (rs_session_id r)) (sh_others w) ->
  exists res r' w', run_registered_op o (r, w) = Some (res, (r', w')) /\ (does_io o = true -> res = Err terminal_error) /\
    rs_key r' = rs_key r /\ rs_session_id r' = rs_session_id r /\
    Forall (spares (rs_key r) (rs_session_id r)) (sh_others w') /\ let_go r' w'.
Proof.
  intros Hlet Hsp. pose proof Hlet as (_ & _ & Hrd & Hgone). destruct (does_io o) eqn:Ho.
  - assert (ensure_active_registration (r, w) = Some (Err terminal_error, close_and_retire (r, acquire w))) as Hstale.
    { apply ensure_active_stale, gone_not_current. by apply acquire_gone. }
    pose proof (close_and_retire_spec r (acquire w)) as Hspec. destruct (close_and_retire (r, acquire w)) as [r' w'].
    destruct Hspec as (Hk & Hid & Hlet' & Hw). exists (Err terminal_error), r', w'.
    split; [|split; [done|]; split; [done|]; split; [done|]; split; [|done]].
    + destruct o; try done; cbn [run_registered_op]; unfold registered_receive, registered_heartbeat, registered_goodbye,
        registered_revalidate, supervised, io_bind; by rewrite Hstale.
    + subst w'. by apply retire_spares, acquire_spares.
  - pose proof (cancel_step r w (cancels (rs_key r) (rs_session_id r) o) Hrd Hsp) as Hstep.
    rewrite cancel_op_run by done. destruct (if cancels _ _ o then _ else _) as [r' w'].
    destruct Hstep as (Hk & Hid & Hrd' & Hsp' & Hb). eexists _, _, _. split; [reflexivity|]. split; [done|].
    split; [done|]. split; [done|]. split; [done|]. destruct (cancels _ _ o); [done|]. by injection Hb as -> ->.
Qed.

Abbreviation rhistory := (list (registered_op * result ControlSessionError (option ControlSessionRead) * SharedRegistry)).
Abbreviation envs l := (Forall (fun eo => forall a : A, os_env a (eo.1 a)) l).

(** A reading of the record: what was handed out, was so while the owner's
    generation was the registry's active one. *)
Definition delivered_current (key : PeerSessionKey) (id : bytes 16)
  (x : registered_op * result ControlSessionError (option ControlSessionRead) * SharedRegistry) : Prop :=
  let '(o, res, w) := x in does_io o = true -> ends res = false ->
    lk_poisoned (sh_lock w) = false /\ sessions (lk_registry (sh_lock w)) !! key = Some (mkEntry id Active).

Lemma env_let_go (r : RegisteredControlSession A) w (f : A -> A) :
  (forall a, os_env a (f a)) -> let_go r w -> let_go (put_session (f (rs_session r)) r) w.
Proof.
  intros Hf (Ht & Hs & Hrd & Hg). destruct (env_law _ _ (Hf (rs_session r)) Hrd) as (Hrd' & Ht' & Hs').
  split; [by cbn; rewrite Ht'|]. split; [by apply Hs'|]. by split.
Qed.

Lemma run_let_go (l : list ((A -> A) * registered_op)) (r : RegisteredControlSession A) w :
  let_go r w -> Forall (spares (rs_key r) (rs_session_id r)) (sh_others w) -> envs l ->
  exists (hist : rhistory) r' w', run_registered l r w = Some (hist, (r', w')) /\
    Forall (delivered_current (rs_key r) (rs_session_id r)) hist /\
    refused_once_over (rs_key r) (rs_session_id r) true hist /\ let_go r' w'.
Proof.
  revert r w. induction l as [|[f o] l IH]; intros r w Hlet Hsp Henv; cbn [run_registered]; [by exists [], r, w|].
  apply Forall_cons in Henv as [Hf Henv]. apply (env_let_go _ _ f Hf) in Hlet.
  destruct (let_go_step o _ w Hlet Hsp) as (res & r1 & w1 & -> & Hres & Hk & Hid & Hsp1 & Hlet1).
  cbn [put_session rs_key rs_session_id] in *. rewrite <- Hk, <- Hid in Hsp1 |- *.
  destruct (IH r1 w1 Hlet1 Hsp1 Henv) as (hist & r2 & w2 & -> & Hd & Href & Hlet2).
  eexists _, r2, w2. split; [reflexivity|]. split; [|by split]. constructor; [|done].
  intros Ho. by rewrite (Hres Ho).
Qed.

Lemma refused_weaken_over key id (b : bool) (hist : rhistory) :
  refused_once_over key id true hist -> refused_once_over key id b hist.
Proof.
  revert b. induction hist as [|[[o res] w] hist IH]; intros b; [done|]. cbn [refused_once_over orb]. intros [Hr Hh].
  split; [by intros _; apply Hr|]. by apply IH.
Qed.

Lemma run_registered_spec (l : list ((A -> A) * registered_op)) (r : RegisteredControlSession A) w :
  os_ready (rs_session r) -> Forall (spares (rs_key r) (rs_session_id r)) (sh_others w) -> envs l ->
  exists (hist : rhistory) r' w', run_registered l r w = Some (hist, (r', w')) /\
    Forall (delivered_current (rs_key r) (rs_session_id r)) hist /\
    refused_once_over (rs_key r) (rs_session_id r) false hist /\
    (existsb (fun x => ends x.1.2 || cancels (rs_key r) (rs_session_id r) x.1.1) hist = true -> let_go r' w').
Proof.
  revert r w. induction l as [|[f o] l IH]; intros r w Hrd Hsp Henv; cbn [run_registered]; [by exists [], r, w|].
  apply Forall_cons in Henv as [Hf Henv]. apply (env_law _ _ (Hf _)) in Hrd as (Hrd & _).
  destruct (registered_op_step o (put_session (f (rs_session r)) r) w Hrd Hsp) as (res & r1 & w1 & -> & Hk & Hid & Hrd1 & Hsp1 & Hans).
  cbn [put_session rs_key rs_session_id] in *. rewrite <- Hk, <- Hid in Hsp1, Hans |- *.
  destruct (ends res || cancels (rs_key r1) (rs_session_id r1) o) eqn:Hover.
  - destruct (run_let_go l r1 w1 Hans Hsp1 Henv) as (hist & r2 & w2 & -> & Hd & Href & Hlet2).
    eexists _, r2, w2. split; [reflexivity|]. split; [|split; [|done]].
    + constructor; [|done]. intros Ho Hn. destruct o; try done; by rewrite Hn in Hover.
    + split; [done|]. cbn [orb]. by rewrite Hover.
  - destruct (IH r1 w1 Hrd1 Hsp1 Henv) as (hist & r2 & w2 & -> & Hd & Href & Hlet2).
    eexists _, r2, w2. split; [reflexivity|]. split; [|split].
    + constructor; [|done]. intros Ho _. by apply Hans.
    + split; [done|]. cbn [orb]. by rewrite Hover.
    + cbn [existsb fst snd]. by rewrite Hover.
Qed.
End history_facts.

(** ** Claims *)

Lemma admit_session_spec {A : Type} `{OwnedSession A} (a : A) w res w' :
  admit_session a w = (res, w') ->
  sh_others w' = sh_others (acquire w) /\
  match res with
  | Ok r => r = mkRegistered a (mkKey (pp_network (os_peer a)) (pp_node (os_peer a))) (os_session_id a) /\
      lk_poisoned (sh_lock w') = false /\
      sessions (lk_registry (sh_lock w')) !! rs_key r = Some (mkEntry (rs_session_id r) Active) /\
      (forall e, sessions (lk_registry (sh_lock (acquire w))) !! rs_key r = Some e -> phase e <> Active) /\
      (os_session_id a ∉ seen_session_ids (lk_registry (sh_lock (acquire w))))
  | Err _ => lk_registry (sh_lock w') = lk_registry (sh_lock (acquire w))
  end.
Proof.
  unfold admit_session. destruct (lk_poisoned (sh_lock (acquire w))) eqn:Hp; [by intros [= <- <-]|].
  set (key := mkKey _ _). destruct (activate_after_authentication key (os_session_id a) (lk_registry (sh_lock (acquire w)))) as [x g] eqn:Hact.
  apply activate_spec in Hact as [((_ & _ & _ & Hseen & Hph) & -> & ->)|(_ & -> & Hno)].
  - intros Hrun. assert (res = Ok (mkRegistered a key (os_session_id a)) /\
      w' = put_registry (activated_registry key (os_session_id a) (lk_registry (sh_lock (acquire w)))) (acquire w)) as [-> ->].
    { by destruct (sessions (lk_registry (sh_lock (acquire w))) !! key); injection Hrun as <- <-. }
    split; [done|]. split; [done|]. split; [done|]. cbn [rs_key rs_session_id put_registry sh_lock lk_registry].
    split; [|split; [|done]].
    + unfold activated_registry, remember_session_id. destruct (if _ =? _ then _ else _). apply lookup_insert_eq.
    + intros e He. by rewrite He in Hph.
  - destruct x as [[]|e]; try (intros [= <- <-]; done); by destruct (Hno _ eq_refl).
Qed.

(** A registered session does its I/O under the registry's lease only.
    Whatever other threads do to the registry whenever the lock is free, each of
    the four operations of a session that can answer does answer; it succeeds only
    if the owner's generation was the registry's active one, the lock unpoisoned,
    both before the session was used and after it, so that a replacement admitted
    meanwhile keeps its predecessor's frames from being delivered; otherwise, and
    at the end of the stream, the socket has been shut down and the generation is
    out of the registry.  The registry is changed only by that removal, which
    takes no other peer's and no other generation's entry. *)
Theorem registered_session_guarded {A : Type} `{LawfulSession A} (r : RegisteredControlSession A) (w : SharedRegistry)
    (now_ms max_wait d : Z) (key : PeerSessionKey) (id : bytes 16) (g : ControlSessionRegistry) :
  os_ready (rs_session r) ->
  (exists res r' w', registered_receive now_ms max_wait (r, w) = Some (res, (r', w')) /\
     supervised_answer (os_receive now_ms max_wait) read_over r w res r' w') /\
  (exists res r' w', registered_heartbeat d (r, w) = Some (res, (r', w')) /\
     supervised_answer (os_heartbeat d) (fun _ => false) r w res r' w') /\
  (exists res r' w', registered_goodbye d (r, w) = Some (res, (r', w')) /\
     supervised_answer (os_goodbye d) (fun _ => false) r w res r' w') /\
  (exists res r' w', registered_revalidate (r, w) = Some (res, (r', w')) /\
     supervised_answer os_revalidate (fun _ => false) r w res r' w') /\
  (let g' := (remove_if_current key id g).2 in ~ holds g' key id /\
     forall k e, (k, e_session e) <> (key, id) -> sessions g' !! k = Some e <-> sessions g !! k = Some e).
Proof.
  intros Hrd. split; [|split; [|split; [|split]]].
  - apply supervised_spec; [apply ensure_active_checks|]. destruct (receive_law _ now_ms max_wait Hrd) as (x & a & Hx & _). by eexists _, _.
  - apply supervised_spec; [apply ensure_active_checks|]. destruct (heartbeat_law _ d Hrd) as (x & a & Hx & _). by eexists _, _.
  - apply supervised_spec; [apply ensure_current_checks|]. destruct (goodbye_law _ d Hrd) as (x & a & Hx & _). by eexists _, _.
  - apply supervised_spec; [apply ensure_active_checks|]. destruct (revalidate_law _ Hrd) as (x & a & Hx & _). by eexists _, _.
  - destruct (remove_if_current_spec key id g) as (Hg & _ & _ & Hother). by split.
Qed.

(** C22. One owner per admitted generation, until it lets go for good.  Admission
    succeeds only on an unpoisoned registry, for a peer without an active session
    and a session identifier that is not among those the registry remembers (its
    history is bounded at [MAX_RECENT_SESSION_IDS]: one that was seen and evicted is
    admitted again), and makes that generation the active one.  From then on, over any history of operations and cancellations,
    with others acting on the registry and on what the session shares in between,
    but not registering this generation again: every operation answers; whatever
    succeeds, succeeds while the generation is active; after the first failure,
    end of stream or matching cancellation everything that would use the session
    is refused, its socket is shut down and its generation is out. *)
Theorem registered_session_history {A : Type} `{LawfulSession A} (a : A) (w w1 : SharedRegistry)
    (r : RegisteredControlSession A) (l : list ((A -> A) * registered_op)) :
  admit_session a w = (Ok r, w1) -> os_ready a ->
  Forall (fun eo => forall a, os_env a (eo.1 a)) l ->
  Forall (spares (rs_key r) (rs_session_id r)) (sh_others w1) ->
  (forall e, sessions (lk_registry (sh_lock (acquire w))) !! rs_key r = Some e -> phase e <> Active) /\
  (rs_session_id r ∉ seen_session_ids (lk_registry (sh_lock (acquire w)))) /\ current r w1 /\
  exists hist r' w', run_registered l r w1 = Some (hist, (r', w')) /\
    Forall (delivered_current (rs_key r) (rs_session_id r)) hist /\
    refused_once_over (rs_key r) (rs_session_id r) false hist /\
    (existsb (fun x => ends x.1.2 || cancels (rs_key r) (rs_session_id r) x.1.1) hist = true -> let_go r' w').
Proof.
  intros (_ & Hr & Hp & Hact & Hph & Hseen)%admit_session_spec Hrd Henv Hsp.
  split; [done|]. split; [by rewrite Hr|]. split; [done|]. apply run_registered_spec; [by rewrite Hr|done|done].
Qed.

(** ** The active session is such a session *)

Section active.
Context {S T : Type} `{LawfulTrustStores S} `{LawfulTls T} (pin_store : bool).
Variable to_vec : ControlEnvelope -> option (list Z).
Variable from_slice : list Z -> option ControlEnvelope.
Variable fuel : nat.
Variable meanwhile : S -> S.

#[local] Instance active_owned : OwnedSession (ActiveControlSession T * S) := {
  os_peer as_ := as_peer as_.1;
  os_session_id as_ := as_session_id as_.1;
  os_terminal as_ := as_terminal as_.1;
  os_close as_ := (close_owned_socket as_.1, as_.2);
  os_receive := receive_next_with_budget_at pin_store from_slice meanwhile;
  os_heartbeat := send_heartbeat_until pin_store to_vec from_slice fuel;
  os_goodbye := send_goodbye_until pin_store to_vec from_slice fuel;
  os_revalidate := revalidate_approval pin_store;
}.

Definition active_ready (as_ : ActiveControlSession T * S) : Prop :=
  ended as_.1 \/ exists net peer sid key q, session_live net peer sid key q as_.1 /\ enough fuel (as_stream as_.1).

(** Every operation is one of [run_session_op]'s. *)
Lemma active_op_ready (o : session_op S) (as_ : ActiveControlSession T * S) :
  active_ready as_ -> exists r as', run_session_op pin_store to_vec from_slice fuel o as_ = Some (r, as') /\ active_ready as'.
Proof.
  destruct as_ as [a s]. intros [He|(net & peer & sid & key & q & Hl & Hen)].
  - rewrite terminal_session_op by apply He. eexists _, _. split; [reflexivity|]. by left.
  - destruct (session_op_step pin_store net peer sid key from_slice to_vec fuel q o a s Hl Hen)
      as (r & a' & s' & -> & _ & [(_ & Hen' & q' & _ & Hl')|(_ & _ & He)]); eexists _, _; (split; [reflexivity|]);
      [right; by eexists _, _, _, _, _|by left].
Qed.

Lemma answer_total {X Y : Type} (f : result ControlSessionError X -> result ControlSessionError Y)
    (m : io (ActiveControlSession T * S) ControlSessionError X) as_ r as' :
  answer f m as_ = Some (r, as') -> exists x, m as_ = Some (x, as').
Proof. unfold answer. destruct (m as_) as [[x a]|]; [|done]. intros [= _ <-]. by eexists. Qed.

#[local] Instance active_lawful : LawfulSession (ActiveControlSession T * S).
Proof.
  refine {| os_shut := fun as_ => exists t, as_stream as_.1 = close_stream t;
            os_ready := active_ready;
            os_env := fun as_ as' => as'.1 = as_.1 |}.
  - intros [a s]. split; [done|]. destruct (ended_closed a) as [Ht Hs]. split; [done|]. left. by split.
  - intros [a s] [a' s'] He Hr. cbn in He. subst a'. by split.
  - intros as_ now_ms max_wait Hr. destruct (active_op_ready (SReceive meanwhile now_ms max_wait) as_ Hr) as (r & as' & Hrun & Hr').
    apply answer_total in Hrun as [x Hx]. by exists x, as'.
  - intros as_ d Hr. destruct (active_op_ready (SHeartbeat d) as_ Hr) as (r & as' & Hrun & Hr').
    apply answer_total in Hrun as [x Hx]. by exists x, as'.
  - intros as_ d Hr. destruct (active_op_ready (SGoodbye d) as_ Hr) as (r & as' & Hrun & Hr').
    apply answer_total in Hrun as [x Hx]. by exists x, as'.
  - intros as_ Hr. destruct (active_op_ready SRevalidate as_ Hr) as (r & as' & Hrun & Hr').
    apply answer_total in Hrun as [x Hx]. by exists x, as'.
Defined.
End active.

(** ** Example: the link is lost while a read is in flight *)

#[local] Existing Instances disk_stores disk_lawful pipe_stream pipe_lawful pipe_tls pipe_lawful_tls.

#[local] Instance demo_owned : OwnedSession (ActiveControlSession pipe * disk) :=
  active_owned true (fun _ => None) (table_from_slice demo_session_table) demo_fuel id.
#[local] Instance demo_lawful : LawfulSession (ActiveControlSession pipe * disk) :=
  active_lawful true (fun _ => None) (table_from_slice demo_session_table) demo_fuel id.

Definition demo_peer_key : PeerSessionKey := mkKey (fill_id 1) (fill_id 2).
Definition demo_session_id : bytes 16 := fill_bytes 16 9.
Definition lose_link (lk : LockState) : LockState :=
  mkLock (mark_lost demo_peer_key demo_session_id (lk_registry lk)).2 (lk_poisoned lk).
(** Admission and the first check find the registry as it is; the second does not. *)
Definition demo_shared : SharedRegistry := mkShared (mkLock registry_new false) [id; id; lose_link].
Definition demo_owner : RegisteredControlSession (ActiveControlSession pipe * disk) :=
  mkRegistered (demo_open_session, demo_enrolled) demo_peer_key demo_session_id.

Lemma demo_ready : os_ready (demo_open_session, demo_enrolled).
Proof.
  cbn [os_ready demo_lawful active_lawful].
  right. exists (fill_id 1), (fill_id 2), (fill_bytes 16 9), demo_key, 2%Z. split; [apply demo_session_live|].
  unfold enough, demo_fuel. change (interrupts (as_stream (demo_open_session, demo_enrolled).1)) with 0. lia.
Qed.

Lemma lose_link_spares key id : spares key id lose_link.
Proof.
  intros lk Hn (e & He & Hid). apply Hn. revert He. unfold lose_link, mark_lost. cbn [lk_registry].
  destruct (sessions (lk_registry lk) !! demo_peer_key) as [e0|] eqn:He0; [|by exists e].
  destruct (_ || _); cbn [snd]; [by exists e|]. unfold set_phase, with_sessions. cbn [sessions].
  intros [[<- <-]|[_ He]]%lookup_insert_Some; [by exists e0|by exists e].
Qed.

Lemma registered_session_guarded_witness :
  exists res r' w', registered_receive 1000 DURATION_MAX (demo_owner, (admit_session (demo_open_session, demo_enrolled) demo_shared).2) =
    Some (res, (r', w')) /\ res = Err terminal_error /\
    supervised_answer (os_receive 1000 DURATION_MAX) read_over demo_owner (admit_session (demo_open_session, demo_enrolled) demo_shared).2 res r' w'.
Proof.
  set (w := (admit_session (demo_open_session, demo_enrolled) demo_shared).2).
  destruct (registered_session_guarded demo_owner w 1000 DURATION_MAX 0 demo_peer_key demo_session_id registry_new demo_ready)
    as ((res & r' & w' & Hrun & Hans) & _).
  exists res, r', w'. split; [exact Hrun|]. split; [|exact Hans].
  assert (fst <$> registered_receive 1000 DURATION_MAX (demo_owner, w) = Some (Err terminal_error)) as Hv by (vm_compute; reflexivity).
  rewrite Hrun in Hv. injection Hv as Hv. exact Hv.
Defined.

Lemma registered_session_history_witness :
  exists hist r' w', run_registered [(id, RReceive 1000 DURATION_MAX); (id, RRevalidate)] demo_owner
      (admit_session (demo_open_session, demo_enrolled) demo_shared).2 = Some (hist, (r', w')) /\
    length hist = 2 /\ let_go r' w'.
Proof.
  set (w := (admit_session (demo_open_session, demo_enrolled) demo_shared).2).
  destruct (registered_session_history (demo_open_session, demo_enrolled) demo_shared w demo_owner
    [(id, RReceive 1000 DURATION_MAX); (id, RRevalidate)]) as (_ & _ & _ & hist & r' & w' & Hrun & _ & _ & Hlet).
  - vm_compute. reflexivity.
  - exact demo_ready.
  - repeat constructor; reflexivity.
  - change (sh_others w) with [id; lose_link]. constructor; [intros lk Hn; exact Hn|]. constructor; [apply lose_link_spares|constructor].
  - exists hist, r', w'. split; [exact Hrun|].
    assert ((fun o => match o with Some (h, _) => (length h, existsb (fun x => ends x.1.2 || cancels demo_peer_key demo_session_id x.1.1) h) | None => (0, false) end)
      (run_registered [(id, RReceive 1000 DURATION_MAX); (id, RRevalidate)] demo_owner w) = (2, true)) as Hv by (vm_compute; reflexivity).
    rewrite Hrun in Hv. injection Hv as Hlen Hend. split; [exact Hlen|]. apply Hlet. exact Hend.
Defined.
