(* ===== verification/NapControl.v ===== *)
(** NAP admission by authenticated control sessions:
    [apps/daemon/src/nap_control_admission.rs].

    The registered session is that of [RegisteredSession], the ledger of
    reservations that of [NapAdmission], shared under its own mutex: before each
    call on it others may have acted. *)

From S2P Require Import Prelude Order Ident Capability PeerPins ControlFrame ControlIo PeerTrust NapAdmission SessionRegistry PinnedIngress ActiveSession RegisteredSession.

(** ** Data *)

Record AuthenticatedNapTicket := mkAuthTicket { at_ticket : NetworkNapTicket; at_session_id : bytes 16 }.

(** The reference to the ledger is the [Shared] one next to it. *)
Record AuthenticatedNapLease := mkLease { nl_ticket : AuthenticatedNapTicket; release_on_drop : bool }.

Definition retain_capacity_on_drop (l : AuthenticatedNapLease) : AuthenticatedNapLease := mkLease (nl_ticket l) false.

Record RegisteredNapControlOwner (A : Type) := mkNapOwner {
  no_session : RegisteredControlSession A;
  no_lease : option AuthenticatedNapLease;
  no_attached : bool;
}.
Arguments mkNapOwner {A}.
Arguments no_session {A}.
Arguments no_lease {A}.
Arguments no_attached {A}.

Abbreviation SharedNap := (Shared NetworkNapAdmission).

(** A method of the ledger, called under its mutex. *)
Definition on_nap {X : Type} (m : stres NetworkNapAdmission CoreError X) : stres SharedNap CoreError X := fun n =>
  let n := acquire n in let (r, x) := m (sh_lock n) in (r, put_locked x n).

Definition retire_authenticated_nap (t : AuthenticatedNapTicket) : stres SharedNap CoreError bool :=
  on_nap (scope_retire (at_ticket t)).

(** [drop] of a lease, and of an [Option] of one. *)
Definition drop_lease (l : AuthenticatedNapLease) (n : SharedNap) : SharedNap :=
  if release_on_drop l then (retire_authenticated_nap (nl_ticket l) n).2 else n.
Definition drop_leases (l : option AuthenticatedNapLease) (n : SharedNap) : SharedNap :=
  match l with Some l => drop_lease l n | None => n end.

Definition same_session (network : NetworkId) (peer : NodeId) (id : bytes 16) (t : AuthenticatedNapTicket) : bool :=
  bool_decide (network = nt_network (at_ticket t)) && bool_decide (peer = t_candidate (nt_inner (at_ticket t))) &&
  bool_decide (id = at_session_id t).

Definition wrong_network : CoreError :=
  core_error InvalidState "authenticated control session belongs to a different NAP network".
Definition wrong_session : CoreError :=
  core_error AuthenticationFailed "NAP reservation belongs to a different authenticated session".
Definition not_approved : CoreError := core_error_with_diagnostic AuthenticationFailed
  "NAP admission requires a currently approved authenticated control session" "{error}".
Definition lease_retired : CoreError := core_error InvalidState "NAP reservation was already retired".
Definition lease_replaced : CoreError :=
  core_error InvalidState "NAP reservation was replaced or retired before attachment".

(** ** Operations on a registered session *)

Section operations.
Context {A : Type} `{OwnedSession A}.

Abbreviation registered := (RegisteredControlSession A).
Abbreviation world := (registered * (SharedRegistry * SharedNap))%type.

(** An operation of the session, next to the ledger. *)
Definition on_session {E X : Type} (m : io (registered * SharedRegistry) E X) : io world E X := fun '(r, (w, n)) =>
  match m (r, w) with
  | Some (x, (r', w')) => Some (x, (r', (w', n)))
  | None => None
  end.
Definition on_ledger_of {X : Type} (m : stres SharedNap CoreError X) : io world CoreError X := fun '(r, (w, n)) =>
  let (x, n') := m n in Some (x, (r, (w, n'))).

Definition recheck : io world CoreError () :=
  io_map_err (fun _ => not_approved) (on_session registered_revalidate).

Definition reserve_authenticated_nap : io world CoreError (AuthenticatedNapTicket * NapAdmissionDecision) := fun '(r, (w, n)) =>
  if negb (bool_decide (k_network (rs_key r) = sc_network (sh_lock n))) then Some (Err wrong_network, (r, (w, n)))
  else
    (let? _ := recheck in
     let? (ticket, decision) := on_ledger_of (on_nap (scope_reserve (k_peer (rs_key r)))) in
     io_ret (mkAuthTicket ticket (rs_session_id r), decision)) (r, (w, n)).

Definition reserve_authenticated_nap_lease : io world CoreError (AuthenticatedNapLease * NapAdmissionDecision) :=
  let? (ticket, decision) := reserve_authenticated_nap in
  io_ret (mkLease ticket true, decision).

Definition activate_authenticated_nap (t : AuthenticatedNapTicket) : io world CoreError bool := fun '(r, (w, n)) =>
  if negb (same_session (k_network (rs_key r)) (k_peer (rs_key r)) (rs_session_id r) t) then Some (Err wrong_session, (r, (w, n)))
  else (let? _ := recheck in on_ledger_of (on_nap (scope_activate (at_ticket t)))) (r, (w, n)).

(** ** The owner *)

Abbreviation nap_world := (RegisteredNapControlOwner A * (SharedRegistry * SharedNap))%type.

Definition release_pending_on_transport_loss (attached : bool) (l : option AuthenticatedNapLease) (n : SharedNap) :
  option AuthenticatedNapLease * SharedNap := if attached then (l, n) else (None, drop_leases l n).

Definition preserve_attached_capacity_on_owner_drop (attached : bool) (l : option AuthenticatedNapLease) :
  option AuthenticatedNapLease := if attached then retain_capacity_on_drop <$> l else l.

Definition retire_observed_detach_if_current (l : option AuthenticatedNapLease) (attached : bool) (current_id : bytes 16)
    (network : NetworkId) (peer : NodeId) (id : bytes 16) (n : SharedNap) :
  bool * (option AuthenticatedNapLease * bool * SharedNap) :=
  if negb attached || negb (bool_decide (current_id = id))
     || negb (match l with Some l => same_session network peer id (nl_ticket l) | None => false end)
  then (false, (l, attached, n))
  else (true, (None, false, drop_leases l n)).

(** The session is dropped when the reservation fails. *)
Definition nap_reserve (r : registered) (w : SharedRegistry) (n : SharedNap) :
  option (result CoreError (RegisteredNapControlOwner A * NapAdmissionDecision) * (SharedRegistry * SharedNap)) :=
  match reserve_authenticated_nap_lease (r, (w, n)) with
  | None => None
  | Some (Ok (lease, decision), (r, (w, n))) => Some (Ok (mkNapOwner r (Some lease) false, decision), (w, n))
  | Some (Err e, (r, (w, n))) => Some (Err e, ((cancel (r, w)).2, n))
  end.

Definition on_transport_loss : nap_world -> nap_world := fun '(o, (w, n)) =>
  let (r, w) := cancel (no_session o, w) in
  let (l, n) := release_pending_on_transport_loss (no_attached o) (no_lease o) n in
  (mkNapOwner r l (no_attached o), (w, n)).

Definition activate_after_observed_attachment : io nap_world CoreError () := fun '(o, (w, n)) =>
  match no_lease o with
  | None => Some (Err lease_retired, (o, (w, n)))
  | Some lease =>
    match activate_authenticated_nap (nl_ticket lease) (no_session o, (w, n)) with
    | None => None
    | Some (res, (r, (w, n))) =>
      let o := mkNapOwner r (Some lease) true in
      match res with
      | Ok true => Some (Ok (), (o, (w, n)))
      | Ok false => Some (Err lease_replaced, on_transport_loss (o, (w, n)))
      | Err e => Some (Err e, on_transport_loss (o, (w, n)))
      end
    end
  end.

Definition confirm_observed_detach_if_current (network : NetworkId) (peer : NodeId) (id : bytes 16) :
  nap_world -> bool * nap_world := fun '(o, (w, n)) =>
  let key := rs_key (no_session o) in
  if negb (no_attached o) || negb (bool_decide (k_network key = network)) || negb (bool_decide (k_peer key = peer))
     || match no_lease o with Some l => negb (same_session network peer id (nl_ticket l)) | None => true end
  then (false, (o, (w, n)))
  else
    let (cancelled, rw) := cancel_if_current id (no_session o, w) in
    let (r, w) := rw in
    if negb cancelled then (false, (mkNapOwner r (no_lease o) (no_attached o), (w, n)))
    else
      let '(b, (l, attached, n)) :=
        retire_observed_detach_if_current (no_lease o) (no_attached o) (rs_session_id r) network peer id n in
      (b, (mkNapOwner r l attached, (w, n))).

Definition nap_cancel_if_current (id : bytes 16) : nap_world -> bool * nap_world := fun '(o, (w, n)) =>
  let (cancelled, rw) := cancel_if_current id (no_session o, w) in
  let (r, w) := rw in
  if negb cancelled then (false, (mkNapOwner r (no_lease o) (no_attached o), (w, n)))
  else
    let (l, n) := release_pending_on_transport_loss (no_attached o) (no_lease o) n in
    (true, (mkNapOwner r l (no_attached o), (w, n))).

(** A session operation whose outcome may mean that the transport is lost. *)
Definition watching {X : Type} (m : io (registered * SharedRegistry) ControlSessionError X)
    (lost : result ControlSessionError X -> bool) : io nap_world ControlSessionError X := fun '(o, (w, n)) =>
  match m (no_session o, w) with
  | None => None
  | Some (res, (r, w)) =>
    let ow := (mkNapOwner r (no_lease o) (no_attached o), (w, n)) in
    Some (res, if lost res then on_transport_loss ow else ow)
  end.

Definition read_lost (res : result ControlSessionError ControlSessionRead) : bool :=
  match res with Err _ | Ok Closed => true | _ => false end.

Definition nap_receive (now_ms : Z) : io nap_world ControlSessionError ControlSessionRead :=
  watching (registered_receive now_ms DURATION_MAX) read_lost.
Definition nap_revalidate : io nap_world ControlSessionError () := watching registered_revalidate (fun res => negb (is_ok res)).
Definition nap_heartbeat (deadline : Z) : io nap_world ControlSessionError () :=
  watching (registered_heartbeat deadline) (fun res => negb (is_ok res)).
Definition nap_goodbye (deadline : Z) : io nap_world ControlSessionError () :=
  watching (registered_goodbye deadline) (fun _ => true).

Definition observed_attachment_ticket (o : RegisteredNapControlOwner A) : option AuthenticatedNapTicket :=
  if no_attached o then nl_ticket <$> no_lease o else None.
Definition awaiting_detach_after_tls_loss (o : RegisteredNapControlOwner A) : bool :=
  no_attached o && os_terminal (rs_session (no_session o)).

(** [drop]: the owner's own, then its fields' in their order. *)
Definition drop_nap_owner : nap_world -> SharedRegistry * SharedNap := fun '(o, (w, n)) =>
  let l := preserve_attached_capacity_on_owner_drop (no_attached o) (no_lease o) in
  let (_, w) := cancel (no_session o, w) in
  (w, drop_leases l n).
End operations.

(** ** Histories of an owner *)

Inductive nap_op :=
| NActivate | NReceive (now_ms : Z) | NRevalidate | NHeartbeat (deadline : Z) | NGoodbye (deadline : Z) | NLoss
| NDetach (network : NetworkId) (peer : NodeId) (id : bytes 16) | NCancel (id : bytes 16).

(** Whether the operation did what it was asked to. *)
Section nap_histories.
Context {A : Type} `{OwnedSession A}.

Abbreviation nap_world := (RegisteredNapControlOwner A * (SharedRegistry * SharedNap))%type.

Definition succeeded {E X : Type} (r : option (result E X * nap_world)) : option (bool * nap_world) :=
  match r with Some (x, ow) => Some (is_ok x, ow) | None => None end.

Definition run_nap_op (op : nap_op) (ow : nap_world) : option (bool * nap_world) :=
  match op with
  | NActivate => succeeded (activate_after_observed_attachment ow)
  | NReceive now_ms => succeeded (nap_receive now_ms ow)
  | NRevalidate => succeeded (nap_revalidate ow)
  | NHeartbeat d => succeeded (nap_heartbeat d ow)
  | NGoodbye d => succeeded (nap_goodbye d ow)
  | NLoss => Some (true, on_transport_loss ow)
  | NDetach network peer id => Some (confirm_observed_detach_if_current network peer id ow)
  | NCancel id => Some (nap_cancel_if_current id ow)
  end.

(** Before each operation others may act on what the session shares. *)
Fixpoint run_nap (l : list ((A -> A) * nap_op)) (ow : nap_world) : option (list bool * nap_world) :=
  match l with
  | [] => Some ([], ow)
  | (env, op) :: l =>
    let '(o, wn) := ow in
    let o := mkNapOwner (put_session (env (rs_session (no_session o))) (no_session o)) (no_lease o) (no_attached o) in
    match run_nap_op op (o, wn) with
    | None => None
    | Some (b, ow) =>
      match run_nap l ow with
      | None => None
      | Some (hist, ow) => Some (b :: hist, ow)
      end
    end
  end.
End nap_histories.

(** ** The ledger, as a ticket sees it *)

(** The ticket is this ledger's, and its reservation is pending or active. *)
Definition occupies (t : NetworkNapTicket) (n : NetworkNapAdmission) : Prop :=
  owns n t = true /\
  (l_pending (sc_ledger n) !! t_candidate (nt_inner t) = Some (generation (nt_inner t)) \/
   l_active (sc_ledger n) !! t_candidate (nt_inner t) = Some (generation (nt_inner t))).

Definition nap_good (n : NetworkNapAdmission) : Prop := ledger_inv (sc_ledger n).

Lemma owns_on_ledger {X : Type} (m : stres ledger CoreError X) n t : owns (on_ledger m n).2 t = owns n t.
Proof. unfold owns. by destruct (on_ledger_owner m n) as [-> ->]. Qed.

(** Retiring an occupying ticket frees exactly its slot. *)
Lemma scope_retire_occupied t n :
  nap_good n -> occupies t n ->
  (scope_retire t n).1 = Ok true /\ nap_good (scope_retire t n).2 /\ ~ occupies t (scope_retire t n).2 /\
  (forall t', t_candidate (nt_inner t') <> t_candidate (nt_inner t) -> occupies t' (scope_retire t n).2 <-> occupies t' n).
Proof.
  intros Hinv [Ho Hocc]. unfold scope_retire. rewrite Ho. unfold nap_good, occupies. setoid_rewrite owns_on_ledger.
  pose proof (retire_inv (nt_inner t) (sc_ledger n) Hinv) as Hinv'. pose proof (retire_cases (nt_inner t) (sc_ledger n)) as Hc.
  unfold on_ledger. destruct (NapAdmission.retire (nt_inner t) (sc_ledger n)) as [r l']. cbn [snd fst sc_ledger] in *.
  destruct r as [[]|e]; [|by destruct Hc as (_ & Hp & Ha); destruct Hocc|done]. split; [done|]. split; [done|].
  assert (l_active (sc_ledger n) !! t_candidate (nt_inner t) = None \/ l_pending (sc_ledger n) !! t_candidate (nt_inner t) = None) as Hone.
  { destruct (l_active (sc_ledger n) !! t_candidate (nt_inner t)) eqn:Ha; [|by left]. right.
    apply (li_disjoint _ Hinv). by rewrite Ha. }
  destruct Hc as [[Hp ->]|(Ha & Hp & ->)]; cbn [l_active l_pending]; (split; [|intros t' Hne; by rewrite lookup_delete_ne]).
  - intros [_ [Hf|Hf]]; [by rewrite lookup_delete_eq in Hf|]. destruct Hone; congruence.
  - intros [_ [Hf|Hf]]; [done|by rewrite lookup_delete_eq in Hf].
Qed.

(** Activating keeps the ticket's slot; a success makes it active. *)
Lemma scope_activate_occupied t n :
  nap_good n ->
  nap_good (scope_activate t n).2 /\ (occupies t (scope_activate t n).2 <-> occupies t n) /\
  ((scope_activate t n).1 = Ok true -> l_active (sc_ledger (scope_activate t n).2) !! t_candidate (nt_inner t) = Some (generation (nt_inner t))).
Proof.
  intros Hinv. unfold scope_activate. destruct (owns n t) eqn:Ho; [|by split].
  unfold nap_good, occupies. rewrite owns_on_ledger.
  pose proof (activate_inv (nt_inner t) (sc_ledger n) Hinv) as Hinv'. pose proof (activate_cases (nt_inner t) (sc_ledger n)) as Hc.
  unfold on_ledger. destruct (NapAdmission.activate (nt_inner t) (sc_ledger n)) as [r l']. cbn [snd fst sc_ledger] in *.
  split; [done|]. destruct r as [[]|e]; [|by subst..]. destruct Hc as (_ & Hp & _ & _ & ->).
  cbn [l_active l_pending]. rewrite lookup_insert_eq, lookup_delete_eq. split; [|done].
  split; intros [Hw _]; (split; [done|]); [by left|by right].
Qed.

Lemma scope_reserve_occupied c n :
  nap_good n ->
  nap_good (scope_reserve c n).2 /\
  match (scope_reserve c n).1 with
  | Ok (t, _) => occupies t (scope_reserve c n).2 /\ nt_network t = sc_network n /\ t_candidate (nt_inner t) = c /\ ~ occupies t n
  | Err _ => (scope_reserve c n).2 = n
  end.
Proof.
  intros Hinv. unfold scope_reserve, on_ledger. pose proof (reserve_inv c (sc_ledger n) Hinv) as Hinv'.
  pose proof (reserve_cases c (sc_ledger n)) as Hc. destruct (NapAdmission.reserve c (sc_ledger n)) as [[[t d]|e] l'].
  - split; [done|]. destruct Hc as (_ & Hp & Ha & _ & -> & _ & ->). cbn [fst snd nt_network nt_inner t_candidate generation].
    split; [|split; [done|split; [done|]]].
    + split; [by unfold owns; cbn; rewrite !bool_decide_eq_true_2|]. left. apply lookup_insert_eq.
    + intros [_ [Hf|Hf]]; cbn in Hf; congruence.
  - subst l'. cbn [fst snd]. split; [done|by destruct n].
Qed.

Lemma scope_meta t n :
  sc_network (scope_retire t n).2 = sc_network n /\ sc_network (scope_activate t n).2 = sc_network n.
Proof. unfold scope_retire, scope_activate. destruct (owns n t); [|done]. split; by apply on_ledger_owner. Qed.

(** What other threads may do to the ledger without touching this ticket. *)
Definition leaves (t : NetworkNapTicket) (others : NetworkNapAdmission -> NetworkNapAdmission) : Prop :=
  forall n, nap_good n -> nap_good (others n) /\ (occupies t (others n) <-> occupies t n).
Definition spared (t : NetworkNapTicket) (n : SharedNap) : Prop := nap_good (sh_lock n) /\ Forall (leaves t) (sh_others n).
Definition holds_slot (t : NetworkNapTicket) (n : SharedNap) : Prop := occupies t (sh_lock n).

Lemma acquire_spared t n :
  spared t n -> spared t (acquire n) /\ (holds_slot t (acquire n) <-> holds_slot t n).
Proof.
  intros [Hg Ho]. unfold acquire. destruct (sh_others n) as [|f fs] eqn:Hf; [split; [by split; [|rewrite Hf]|done]|].
  apply Forall_cons in Ho as [Hl Ho]. destruct (Hl _ Hg) as [Hg' Hocc]. by split.
Qed.

Lemma on_nap_spared {X : Type} (m : stres NetworkNapAdmission CoreError X) t n :
  spared t n -> (forall x, nap_good x -> nap_good (m x).2) ->
  spared t (on_nap m n).2 /\ (on_nap m n).1 = (m (sh_lock (acquire n))).1 /\
  sh_lock (on_nap m n).2 = (m (sh_lock (acquire n))).2 /\
  nap_good (sh_lock (acquire n)) /\ (occupies t (sh_lock (acquire n)) <-> holds_slot t n).
Proof.
  intros [[Hg Ho] Hocc]%acquire_spared Hm. unfold on_nap. pose proof (Hm _ Hg) as Hg'.
  destruct (m (sh_lock (acquire n))) as [r x]. split; [by split|]. done.
Qed.

(** Dropping the lease of an occupying ticket frees its slot. *)
Lemma drop_lease_spared t l n :
  spared t n -> holds_slot t n -> at_ticket (nl_ticket l) = t ->
  spared t (drop_lease l n) /\ (holds_slot t (drop_lease l n) <-> release_on_drop l = false).
Proof.
  intros Hsp Hocc Ht. unfold drop_lease. destruct (release_on_drop l); [|done]. unfold retire_authenticated_nap.
  assert (forall x, nap_good x -> nap_good (scope_retire t x).2) as Hkeep.
  { intros x Hx. unfold scope_retire. destruct (owns x t); [|done]. unfold on_ledger, nap_good.
    pose proof (retire_inv (nt_inner t) _ Hx). by destruct (NapAdmission.retire (nt_inner t) (sc_ledger x)). }
  rewrite Ht. destruct (on_nap_spared (scope_retire t) t n Hsp Hkeep) as (Hsp' & _ & Hl & Hg & Hiff).
  split; [done|]. split; [|done]. unfold holds_slot at 1. rewrite Hl. intros Hf.
  by destruct (scope_retire_occupied t _ Hg (proj2 Hiff Hocc)) as (_ & _ & Hno & _).
Qed.

Lemma activate_spared t n :
  spared t n ->
  let rn := on_nap (scope_activate t) n in
  spared t rn.2 /\ (holds_slot t rn.2 <-> holds_slot t n) /\
  (rn.1 = Ok true -> l_active (sc_ledger (sh_lock rn.2)) !! t_candidate (nt_inner t) = Some (generation (nt_inner t))).
Proof.
  intros Hsp. destruct (on_nap_spared (scope_activate t) t n Hsp) as (Hsp' & Hr & Hl & Hg & Hiff);
    [by intros x Hx; apply scope_activate_occupied|].
  destruct (scope_activate_occupied t _ Hg) as (_ & Hocc & Hact). cbn zeta. rewrite Hr, Hl.
  split; [done|]. split; [|done]. unfold holds_slot at 1. by rewrite Hl, Hocc.
Qed.


(** ** The owner's invariant *)

Section nap_facts.
Context {A : Type} `{LawfulSession A}.
Context (t : NetworkNapTicket) (id : bytes 16).

Abbreviation key := (mkKey (nt_network t) (t_candidate (nt_inner t))).
Abbreviation nap_world := (RegisteredNapControlOwner A * (SharedRegistry * SharedNap))%type.

(** A session of this owner, ready to answer. *)
Definition session_inv (r : RegisteredControlSession A) (w : SharedRegistry) : Prop :=
  rs_key r = key /\ rs_session_id r = id /\ os_ready (rs_session r) /\ Forall (spares key id) (sh_others w).

(** The owner holds its lease exactly while the ticket occupies its slot, and an
    observed attachment keeps the lease. *)
Definition lease_inv (o : RegisteredNapControlOwner A) (n : SharedNap) : Prop :=
  spared t n /\
  match no_lease o with
  | Some l => l = mkLease (mkAuthTicket t id) true /\ holds_slot t n
  | None => no_attached o = false /\ ~ holds_slot t n
  end.
Definition nap_inv (ow : nap_world) : Prop :=
  session_inv (no_session ow.1) ow.2.1 /\ lease_inv ow.1 ow.2.2.

Lemma session_cancel (r : RegisteredControlSession A) w :
  session_inv r w -> session_inv (cancel (r, w)).1 (cancel (r, w)).2 /\ let_go (cancel (r, w)).1 (cancel (r, w)).2.
Proof.
  intros (Hk & Hid & Hrd & Hsp). rewrite <- Hk, <- Hid in Hsp. unfold cancel.
  pose proof (cancel_step r w true Hrd Hsp) as Hstep. cbv beta iota in Hstep.
  destruct (close_and_retire (r, w)) as [r' w']. destruct Hstep as (Hk' & Hid' & Hrd' & Hsp' & Hlet). cbn [fst snd].
  split; [|done]. split; [by rewrite Hk'|]. split; [by rewrite Hid'|]. split; [done|]. by rewrite Hk, Hid in Hsp'.
Qed.

(** A pending lease is released with the transport, an attached one is kept. *)
Lemma release_pending_inv (r : RegisteredControlSession A) o n :
  lease_inv o n ->
  let '(l, n') := release_pending_on_transport_loss (no_attached o) (no_lease o) n in
  lease_inv (mkNapOwner r l (no_attached o)) n' /\
  (no_attached o = true -> l = no_lease o /\ n' = n) /\ (no_attached o = false -> l = None /\ ~ holds_slot t n').
Proof.
  intros [Hsp Hl]. unfold release_pending_on_transport_loss. destruct (no_attached o) eqn:Ha; [by split|].
  destruct (no_lease o) as [l|] eqn:Hlo; cbn [drop_leases].
  - destruct Hl as [-> Hocc]. destruct (drop_lease_spared t (mkLease (mkAuthTicket t id) true) n Hsp Hocc eq_refl) as [Hsp' Hiff].
    cbn [release_on_drop] in Hiff. assert (~ holds_slot t (drop_lease (mkLease (mkAuthTicket t id) true) n)) as Hno
      by (intros Hf; by apply Hiff in Hf).
    split; [by split|]. by split.
  - destruct Hl as [_ Hno]. split; [by split|]. by split.
Qed.

Lemma transport_loss_inv (ow : nap_world) :
  nap_inv ow ->
  nap_inv (on_transport_loss ow) /\ no_attached (on_transport_loss ow).1 = no_attached ow.1 /\
  let_go (no_session (on_transport_loss ow).1) (on_transport_loss ow).2.1 /\
  (no_attached ow.1 = true -> no_lease (on_transport_loss ow).1 = no_lease ow.1 /\ (on_transport_loss ow).2.2 = ow.2.2) /\
  (no_attached ow.1 = false -> no_lease (on_transport_loss ow).1 = None /\ ~ holds_slot t (on_transport_loss ow).2.2).
Proof.
  destruct ow as [o [w n]]. intros [Hs Hl]. cbn [fst snd] in *. unfold on_transport_loss.
  destruct (session_cancel _ _ Hs) as [Hs' Hlet]. destruct (cancel (no_session o, w)) as [r w'].
  pose proof (release_pending_inv r o n Hl) as Hrel.
  destruct (release_pending_on_transport_loss (no_attached o) (no_lease o) n) as [l n']. destruct Hrel as (Hl' & Ht & Hf).
  split; [by split|]. split; [done|]. split; [done|]. by split.
Qed.

(** An operation of the session keeps what it is the session of. *)
Definition session_keeps {X : Type} (m : io (RegisteredControlSession A * SharedRegistry) ControlSessionError X) : Prop :=
  forall r w, session_inv r w -> exists res r' w', m (r, w) = Some (res, (r', w')) /\ session_inv r' w' /\
    (is_ok res = false -> let_go r' w').

Lemma supervised_keeps {X : Type} (m : io A ControlSessionError X) over recheck :
  checks recheck -> (forall a, os_ready a -> exists res a', m a = Some (res, a') /\ os_ready a') ->
  session_keeps (supervised m over recheck).
Proof.
  intros Hre Hm r w (Hk & Hid & Hrd & Hsp). rewrite <- Hk, <- Hid in Hsp.
  destruct (supervised_step m over recheck r w Hre (Hm _ Hrd) Hsp) as (res & r' & w' & Hrun & Hk' & Hid' & Hrd' & Hsp' & Hres).
  exists res, r', w'. split; [done|]. split.
  - split; [by rewrite Hk'|]. split; [by rewrite Hid'|]. split; [done|]. by rewrite Hk, Hid in Hsp'.
  - by destruct res.
Qed.

Lemma receive_keeps now_ms max_wait : session_keeps (registered_receive now_ms max_wait).
Proof. apply supervised_keeps; [apply ensure_active_checks|intros a; apply receive_law]. Qed.
Lemma heartbeat_keeps d : session_keeps (registered_heartbeat d).
Proof. apply supervised_keeps; [apply ensure_active_checks|intros a; apply heartbeat_law]. Qed.
Lemma goodbye_keeps d : session_keeps (registered_goodbye d).
Proof. apply supervised_keeps; [apply ensure_current_checks|intros a; apply goodbye_law]. Qed.
Lemma revalidate_keeps : session_keeps registered_revalidate.
Proof. apply supervised_keeps; [apply ensure_active_checks|intros a; apply revalidate_law]. Qed.

Lemma watching_inv {X : Type} (m : io (RegisteredControlSession A * SharedRegistry) ControlSessionError X) lost (ow : nap_world) :
  session_keeps m -> nap_inv ow ->
  exists res ow', watching m lost ow = Some (res, ow') /\ nap_inv ow' /\ no_attached ow'.1 = no_attached ow.1 /\
    (lost res = false -> no_lease ow'.1 = no_lease ow.1 /\ ow'.2.2 = ow.2.2).
Proof.
  destruct ow as [o [w n]]. intros Hm [Hs Hl]. cbn [fst snd] in *. unfold watching.
  destruct (Hm _ _ Hs) as (res & r & w' & -> & Hs' & _). eexists res, _. split; [reflexivity|].
  set (ow := (mkNapOwner r (no_lease o) (no_attached o), (w', n))). assert (nap_inv ow) as Hi by by split.
  destruct (lost res); [|by split]. destruct (transport_loss_inv ow Hi) as (Hi' & Ha & _).
  split; [done|]. split; [by rewrite Ha|done].
Qed.

(** What a reservation or activation requires of its session: it is approved, and
    its generation is the registry's active one. *)
Definition approved (r : RegisteredControlSession A) (r' : RegisteredControlSession A) (w' : SharedRegistry) : Prop :=
  os_revalidate (rs_session r) = Some (Ok (), rs_session r') /\ current r' w'.

Lemma recheck_inv (r : RegisteredControlSession A) w n :
  session_inv r w ->
  exists res r' w', recheck (r, (w, n)) = Some (res, (r', (w', n))) /\ session_inv r' w' /\
    match res with Ok _ => approved r r' w' | Err e => e = not_approved /\ let_go r' w' end.
Proof.
  intros Hs. destruct (revalidate_keeps r w Hs) as (res & r' & w' & Hrun & Hs' & Hlet).
  unfold recheck, io_map_err, on_session. rewrite Hrun. eexists _, r', w'. split; [reflexivity|]. split; [done|].
  destruct res as [u|e]; cbn [map_err]; [|split; [done|by apply Hlet]].
  destruct (revalidate_law _ (proj1 (proj2 (proj2 Hs)))) as (x & a & Hx & _).
  destruct (supervised_spec os_revalidate (fun _ => false) ensure_active_registration r w ensure_active_checks)
    as (res2 & r2 & w2 & Hrun2 & _ & _ & Hres2); [by eexists _, _|].
  unfold registered_revalidate in Hrun. rewrite Hrun in Hrun2. injection Hrun2 as <- <- <-.
  destruct Hres2 as (_ & Hm & Hc & _). by destruct u.
Qed.

Lemma activate_authenticated_inv (r : RegisteredControlSession A) w n :
  session_inv r w -> spared t n ->
  exists res r' w' n', activate_authenticated_nap (mkAuthTicket t id) (r, (w, n)) = Some (res, (r', (w', n'))) /\
    session_inv r' w' /\ spared t n' /\ (holds_slot t n' <-> holds_slot t n) /\
    (res = Ok true -> approved r r' w' /\
       l_active (sc_ledger (sh_lock n')) !! t_candidate (nt_inner t) = Some (generation (nt_inner t))).
Proof.
  intros Hs Hsp. unfold activate_authenticated_nap, same_session. pose proof Hs as (Hk & Hid & _).
  rewrite Hk, Hid. cbn [k_network k_peer at_ticket at_session_id]. rewrite !bool_decide_eq_true_2 by done. cbn [andb negb].
  destruct (recheck_inv r w n Hs) as (res & r' & w' & Hrun & Hs' & Hres). unfold io_bind. rewrite Hrun.
  destruct res as [u|e]; [|by eexists _, r', w', n; split; [reflexivity|]].
  unfold on_ledger_of. pose proof (activate_spared t n Hsp) as Hact. cbn zeta in Hact.
  destruct (on_nap (scope_activate t) n) as [x n']. destruct Hact as (Hsp' & Hiff & Hact).
  eexists x, r', w', n'. split; [reflexivity|]. split; [done|]. split; [done|]. split; [done|]. intros ->. split; [done|by apply Hact].
Qed.

Lemma activate_inv_step (ow : nap_world) :
  nap_inv ow ->
  exists b ow', succeeded (activate_after_observed_attachment ow) = Some (b, ow') /\ nap_inv ow' /\
    no_lease ow'.1 = no_lease ow.1 /\ no_attached ow'.1 = bool_decide (is_Some (no_lease ow.1)) /\
    (b = true -> approved (no_session ow.1) (no_session ow'.1) ow'.2.1 /\
       l_active (sc_ledger (sh_lock ow'.2.2)) !! t_candidate (nt_inner t) = Some (generation (nt_inner t))).
Proof.
  destruct ow as [o [w n]]. intros [Hs Hl]. cbn [fst snd] in *. unfold activate_after_observed_attachment.
  pose proof Hl as [Hsp Hlease]. destruct (no_lease o) as [l|] eqn:Hlo.
  2:{ eexists false, _. split; [reflexivity|]. split; [done|]. split; [done|]. cbn. by destruct Hlease as [-> _]. }
  destruct Hlease as [-> Hocc]. cbn [nl_ticket].
  destruct (activate_authenticated_inv (no_session o) w n Hs Hsp) as (res & r & w' & n' & -> & Hs' & Hsp' & Hiff & Hok).
  set (o' := mkNapOwner r (Some (mkLease (mkAuthTicket t id) true)) true). assert (nap_inv (o', (w', n'))) as Hi.
  { split; [done|]. split; [done|]. split; [done|by apply Hiff]. }
  destruct (transport_loss_inv (o', (w', n')) Hi) as (Hi' & Ha' & _ & Hkeep & _). destruct (Hkeep eq_refl) as [Hkl _].
  destruct res as [[]|e]; (eexists _, _; split; [reflexivity|]);
    [|split; [done|]; split; [by rewrite Hkl|]; split; [by rewrite Ha'|done]..].
  split; [done|]. split; [done|]. split; [done|]. intros _. by apply Hok.
Qed.

(** The exact detach, and any other. *)
Definition exact_detach (op : nap_op) : bool :=
  match op with
  | NDetach network peer id' => bool_decide (network = nt_network t) && bool_decide (peer = t_candidate (nt_inner t)) && bool_decide (id' = id)
  | _ => false
  end.

Lemma detach_step network peer id' (ow : nap_world) :
  nap_inv ow ->
  if no_attached ow.1 && exact_detach (NDetach network peer id')
  then exists ow', confirm_observed_detach_if_current network peer id' ow = (true, ow') /\ nap_inv ow' /\
    no_lease ow'.1 = None /\ no_attached ow'.1 = false /\ ~ holds_slot t ow'.2.2 /\ let_go (no_session ow'.1) ow'.2.1
  else confirm_observed_detach_if_current network peer id' ow = (false, ow).
Proof.
  destruct ow as [o [w n]]. intros [Hs [Hsp Hl]]. cbn [fst snd] in *. unfold confirm_observed_detach_if_current.
  pose proof Hs as (Hk & Hid & _). rewrite Hk. cbn [k_network k_peer].
  destruct (no_attached o) eqn:Ha; cbn [negb orb andb]; [|done].
  destruct (no_lease o) as [l|] eqn:Hlo; [|by destruct Hl]. destruct Hl as [-> Hocc].
  unfold same_session. cbn [nl_ticket at_ticket at_session_id exact_detach].
  destruct (decide (network = nt_network t)) as [->|Hn].
  2:{ rewrite (bool_decide_eq_false_2 (nt_network t = network)) by congruence. by rewrite (bool_decide_eq_false_2 (network = nt_network t)). }
  destruct (decide (peer = t_candidate (nt_inner t))) as [->|Hp].
  2:{ rewrite (bool_decide_eq_false_2 (t_candidate (nt_inner t) = peer)) by congruence.
      rewrite (bool_decide_eq_false_2 (peer = t_candidate (nt_inner t))) by done. rewrite andb_false_r. cbn [negb andb]. by rewrite orb_true_r. }
  rewrite !(bool_decide_eq_true_2 (_ = nt_network t)), !(bool_decide_eq_true_2 (_ = t_candidate _)) by done. cbn [negb andb orb].
  destruct (decide (id' = id)) as [->|Hne]; [|by rewrite (bool_decide_eq_false_2 (id' = id))].
  rewrite (bool_decide_eq_true_2 (id = id)) by done. cbn [negb]. unfold cancel_if_current. rewrite Hid, bool_decide_eq_true_2 by done.
  cbn [negb]. destruct (session_cancel _ _ Hs) as [Hs' Hlet]. unfold cancel in *.
  destruct (close_and_retire (no_session o, w)) as [r w']. cbn [fst snd] in *.
  unfold retire_observed_detach_if_current, same_session. pose proof Hs' as (_ & Hid' & _). rewrite Hid'.
  cbn [nl_ticket at_ticket at_session_id]. rewrite !bool_decide_eq_true_2 by done. cbn [negb orb andb drop_leases].
  destruct (drop_lease_spared t (mkLease (mkAuthTicket t id) true) n Hsp Hocc eq_refl) as [Hsp' Hiff].
  cbn [release_on_drop] in Hiff. assert (~ holds_slot t (drop_lease (mkLease (mkAuthTicket t id) true) n)) as Hno
    by (intros Hf; by apply Hiff in Hf).
  eexists. split; [reflexivity|]. split; [split; [done|split; [done|by split]]|]. done.
Qed.

Lemma nap_cancel_step id' (ow : nap_world) :
  nap_inv ow ->
  nap_inv (nap_cancel_if_current id' ow).2 /\ no_attached (nap_cancel_if_current id' ow).2.1 = no_attached ow.1.
Proof.
  destruct ow as [o [w n]]. intros Hi. pose proof (transport_loss_inv (o, (w, n)) Hi) as (Hi' & Ha & _).
  unfold nap_cancel_if_current, cancel_if_current. unfold on_transport_loss, cancel in Hi', Ha.
  destruct (negb (bool_decide (rs_session_id (no_session o) = id'))); cbn [negb]; [by destruct o|].
  destruct (close_and_retire (no_session o, w)) as [r w']. cbn [negb].
  by destruct (release_pending_on_transport_loss (no_attached o) (no_lease o) n) as [l n'].
Qed.

Lemma nap_op_step (op : nap_op) (ow : nap_world) :
  nap_inv ow ->
  exists b ow', run_nap_op op ow = Some (b, ow') /\ nap_inv ow' /\
    (no_attached ow.1 = true -> exact_detach op = false -> no_attached ow'.1 = true).
Proof.
  intros Hi. destruct op as [|now_ms| |d|d| |network peer id'|id']; cbn [run_nap_op].
  - destruct (activate_inv_step ow Hi) as (b & ow' & -> & Hi' & _ & Ha & _). eexists b, ow'. split; [done|]. split; [done|].
    intros Hat _. rewrite Ha, bool_decide_eq_true. destruct ow as [o [w n]], Hi as [_ [_ Hl]]. cbn [fst] in *.
    destruct (no_lease o); [by eexists|]. destruct Hl; congruence.
  - destruct (watching_inv (registered_receive now_ms DURATION_MAX) read_lost ow (receive_keeps _ _) Hi) as (res & ow' & Hrun & Hi' & Ha & _).
    unfold nap_receive. rewrite Hrun. eexists _, ow'. split; [reflexivity|]. split; [done|]. by rewrite Ha.
  - destruct (watching_inv registered_revalidate (fun res => negb (is_ok res)) ow revalidate_keeps Hi) as (res & ow' & Hrun & Hi' & Ha & _).
    unfold nap_revalidate. rewrite Hrun. eexists _, ow'. split; [reflexivity|]. split; [done|]. by rewrite Ha.
  - destruct (watching_inv (registered_heartbeat d) (fun res => negb (is_ok res)) ow (heartbeat_keeps d) Hi) as (res & ow' & Hrun & Hi' & Ha & _).
    unfold nap_heartbeat. rewrite Hrun. eexists _, ow'. split; [reflexivity|]. split; [done|]. by rewrite Ha.
  - destruct (watching_inv (registered_goodbye d) (fun _ => true) ow (goodbye_keeps d) Hi) as (res & ow' & Hrun & Hi' & Ha & _).
    unfold nap_goodbye. rewrite Hrun. eexists _, ow'. split; [reflexivity|]. split; [done|]. by rewrite Ha.
  - destruct (transport_loss_inv ow Hi) as (Hi' & Ha & _). eexists _, _. split; [reflexivity|]. split; [done|]. by rewrite Ha.
  - pose proof (detach_step network peer id' ow Hi) as Hd. destruct (no_attached ow.1 && exact_detach (NDetach network peer id')) eqn:Hc.
    + destruct Hd as (ow' & -> & Hi' & _). eexists _, ow'. split; [reflexivity|]. split; [done|]. intros Hat Hx.
      by rewrite Hx, andb_false_r in Hc.
    + rewrite Hd. by eexists _, ow.
  - destruct (nap_cancel_step id' ow Hi) as [Hi' Ha]. destruct (nap_cancel_if_current id' ow) as [b ow'].
    eexists b, ow'. split; [reflexivity|]. split; [done|]. cbn [snd] in Ha. by rewrite Ha.
Qed.

Lemma run_nap_spec (l : list ((A -> A) * nap_op)) (ow : nap_world) :
  nap_inv ow -> Forall (fun eo => forall a, os_env a (eo.1 a)) l ->
  exists hist ow', run_nap l ow = Some (hist, ow') /\ nap_inv ow' /\
    (no_attached ow.1 = true -> Forall (fun eo => exact_detach eo.2 = false) l -> no_attached ow'.1 = true).
Proof.
  revert ow. induction l as [|[env op] l IH]; intros ow Hi Henv; cbn [run_nap]; [by exists [], ow|].
  apply Forall_cons in Henv as [He Henv]. destruct ow as [o [w n]].
  set (o1 := mkNapOwner _ _ _). assert (nap_inv (o1, (w, n))) as Hi1.
  { destruct Hi as [(Hk & Hid & Hrd & Hsp) Hl]. split; [|done].
    split; [done|]. split; [done|]. split; [|done]. by apply (env_law _ _ (He _)). }
  destruct (nap_op_step op _ Hi1) as (b & ow1 & -> & Hi2 & Ha). destruct (IH ow1 Hi2 Henv) as (hist & ow2 & -> & Hi3 & Ha2).
  eexists _, ow2. split; [reflexivity|]. split; [done|]. intros Hat [Hx Hl]%Forall_cons. by apply Ha2, Hl; apply Ha.
Qed.

(** Dropping the owner keeps an attached slot and frees the others. *)
Lemma drop_nap_owner_slot (ow : nap_world) :
  nap_inv ow -> holds_slot t (drop_nap_owner ow).2 <-> no_attached ow.1 = true.
Proof.
  destruct ow as [o [w n]]. intros [_ [Hsp Hl]]. cbn [fst snd] in *. unfold drop_nap_owner, preserve_attached_capacity_on_owner_drop.
  destruct (cancel (no_session o, w)) as [r w']. cbn [snd]. destruct (no_lease o) as [l|].
  - destruct Hl as [-> Hocc]. destruct (no_attached o).
    + split; [done|]. by intros _.
    + cbn [drop_leases]. destruct (drop_lease_spared t (mkLease (mkAuthTicket t id) true) n Hsp Hocc eq_refl) as [_ Hiff].
      rewrite Hiff. by cbn.
  - destruct Hl as [-> Hno]. by cbn.
Qed.
End nap_facts.

(** ** Claims *)

(** What a reservation gives. *)
Lemma nap_reserve_spec {A : Type} `{LawfulSession A} (r : RegisteredControlSession A) (w : SharedRegistry) (n : SharedNap) :
  os_ready (rs_session r) -> Forall (spares (rs_key r) (rs_session_id r)) (sh_others w) -> nap_good (sh_lock (acquire n)) ->
  exists res w' n', nap_reserve r w n = Some (res, (w', n')) /\
    match res with
    | Ok (o, d) => exists t, no_lease o = Some (mkLease (mkAuthTicket t (rs_session_id r)) true) /\ no_attached o = false /\
        k_network (rs_key r) = sc_network (sh_lock n) /\ nt_network t = sc_network (sh_lock (acquire n)) /\
        t_candidate (nt_inner t) = k_peer (rs_key r) /\ ~ occupies t (sh_lock (acquire n)) /\ holds_slot t n' /\
        nap_good (sh_lock n') /\ sh_others n' = sh_others (acquire n) /\
        os_revalidate (rs_session r) = Some (Ok (), rs_session (no_session o)) /\ current (no_session o) w' /\
        rs_key (no_session o) = rs_key r /\ rs_session_id (no_session o) = rs_session_id r /\
        os_ready (rs_session (no_session o)) /\ Forall (spares (rs_key r) (rs_session_id r)) (sh_others w')
    | Err _ => ~ holds (lk_registry (sh_lock w')) (rs_key r) (rs_session_id r) /\
        (n' = n \/ n' = acquire n)
    end.
Proof.
  intros Hrd Hsp Hg. set (t0 := mkNetTicket (k_network (rs_key r)) 1 (mkTicket (k_peer (rs_key r)) 0)).
  assert (mkKey (nt_network t0) (t_candidate (nt_inner t0)) = rs_key r) as Hkey by (cbn; by destruct (rs_key r)).
  assert (session_inv t0 (rs_session_id r) r w) as Hs by (unfold session_inv; by rewrite Hkey).
  unfold nap_reserve, reserve_authenticated_nap_lease, reserve_authenticated_nap, io_bind.
  destruct (decide (k_network (rs_key r) = sc_network (sh_lock n))) as [Hnet|Hnet].
  2:{ rewrite bool_decide_eq_false_2 by done. cbn [negb]. destruct (session_cancel t0 (rs_session_id r) r w Hs) as [(Hk & Hid & _) (_ & _ & _ & Hgone)].
      eexists _, _, n. split; [reflexivity|]. split; [|by left]. by rewrite Hk, Hid, Hkey in Hgone. }
  rewrite bool_decide_eq_true_2 by done. cbn [negb].
  destruct (recheck_inv t0 (rs_session_id r) r w n Hs) as (res & r' & w' & -> & Hs' & Hres).
  assert (forall r2 w2, session_inv t0 (rs_session_id r) r2 w2 ->
    ~ holds (lk_registry (sh_lock (cancel (r2, w2)).2)) (rs_key r) (rs_session_id r)) as Hcancel.
  { intros r2 w2 Hs2. destruct (session_cancel t0 (rs_session_id r) r2 w2 Hs2) as [(Hk & Hid & _) (_ & _ & _ & Hgone)].
    by rewrite Hk, Hid, Hkey in Hgone. }
  destruct res as [u|e].
  2:{ eexists _, _, n. split; [reflexivity|]. split; [by apply Hcancel|by left]. }
  pose proof (scope_reserve_occupied (k_peer (rs_key r)) (sh_lock (acquire n)) Hg) as [Hg' Hout].
  unfold on_ledger_of, on_nap. destruct (scope_reserve (k_peer (rs_key r)) (sh_lock (acquire n))) as [[[t d]|e] x]; cbn [fst snd] in *.
  - eexists _, w', _. split; [reflexivity|]. exists t. cbn [no_lease no_attached no_session]. destruct Hout as (Hocc & Hn & Hc & Hno).
    destruct Hres as [Hrev Hcur], Hs' as (Hk & Hid & Hrd' & Hsp').
    rewrite Hkey in *. by repeat (split; [done|]).
  - eexists _, _, _. split; [reflexivity|]. split; [by apply Hcancel|]. right. subst x. by destruct (acquire n).
Qed.

(** Radio capacity follows the observed attachment, not the control session.
    An owner is made only for a session whose generation is the registry's active
    one, approved at that moment, of the ledger's own network, and then a fresh
    slot is occupied for exactly this peer.  From then on, over any history of
    activations, reads, sends, approval checks, losses, cancellations and detach
    reports, with other threads acting on the registry and on the ledger but not
    on this ticket, every operation answers and the slot stays occupied exactly
    while the owner holds its lease; an attached owner always holds it, through
    every loss of the session and even when it is dropped, while a pending one is
    freed; only a detach report with exactly this network, peer and session frees
    an attached slot, and it does so after shutting the session down; any other
    report changes nothing. *)
Theorem nap_capacity_follows_attachment {A : Type} `{LawfulSession A} (r : RegisteredControlSession A) (w w1 : SharedRegistry)
    (n n1 : SharedNap) (o : RegisteredNapControlOwner A) (d : NapAdmissionDecision) (t : NetworkNapTicket)
    (l l2 : list ((A -> A) * nap_op)) :
  os_ready (rs_session r) -> Forall (spares (rs_key r) (rs_session_id r)) (sh_others w) ->
  nap_good (sh_lock (acquire n)) -> sc_network (sh_lock (acquire n)) = sc_network (sh_lock n) ->
  nap_reserve r w n = Some (Ok (o, d), (w1, n1)) -> (at_ticket ∘ nl_ticket) <$> no_lease o = Some t ->
  Forall (leaves t) (sh_others n1) -> Forall (fun eo => forall a, os_env a (eo.1 a)) (l ++ l2) ->
  (rs_key r = mkKey (nt_network t) (t_candidate (nt_inner t)) /\ ~ occupies t (sh_lock (acquire n)) /\ holds_slot t n1 /\
   os_revalidate (rs_session r) = Some (Ok (), rs_session (no_session o)) /\ current (no_session o) w1) /\
  exists hist ow, run_nap l (o, (w1, n1)) = Some (hist, ow) /\
    (holds_slot t ow.2.2 <-> is_Some (no_lease ow.1)) /\ (no_attached ow.1 = true -> is_Some (no_lease ow.1)) /\
    (holds_slot t (drop_nap_owner ow).2 <-> no_attached ow.1 = true) /\
    (no_attached ow.1 = true -> Forall (fun eo => exact_detach t (rs_session_id r) eo.2 = false) l2 ->
       exists hist2 ow2, run_nap l2 ow = Some (hist2, ow2) /\ no_attached ow2.1 = true /\ holds_slot t ow2.2.2) /\
    (forall network peer id,
       if no_attached ow.1 && exact_detach t (rs_session_id r) (NDetach network peer id)
       then exists ow', confirm_observed_detach_if_current network peer id ow = (true, ow') /\
         no_lease ow'.1 = None /\ ~ holds_slot t ow'.2.2 /\ let_go (no_session ow'.1) ow'.2.1
       else confirm_observed_detach_if_current network peer id ow = (false, ow)).
Proof.
  intros Hrd Hsp Hg Hnet Hrun Ht Hleaves Henv.
  destruct (nap_reserve_spec r w n Hrd Hsp Hg) as (res & w' & n' & Hrun' & Hres). rewrite Hrun in Hrun'. injection Hrun' as <- <- <-.
  destruct Hres as (t' & Hlo & Ha & Hk & Htn & Htc & Hfree & Hocc & Hg1 & _ & Hrev & Hcur & Hko & Hido & Hrdo & Hspo).
  rewrite Hlo in Ht. injection Ht as ->. assert (rs_key r = mkKey (nt_network t) (t_candidate (nt_inner t))) as Hkey.
  { rewrite Htn, Hnet, Htc, <- Hk. by destruct (rs_key r). }
  assert (nap_inv t (rs_session_id r) (o, (w1, n1))) as Hi.
  { split; [split; [by rewrite <- Hkey|split; [done|split; [done|by rewrite <- Hkey]]]|]. split; [by split|]. cbn [fst]. by rewrite Hlo. }
  split; [done|]. apply Forall_app in Henv as [Henv Henv2].
  destruct (run_nap_spec t (rs_session_id r) l _ Hi Henv) as (hist & ow & Hl & Hi' & _). exists hist, ow. split; [done|].
  pose proof Hi' as [_ [_ Hlease]]. split; [|split; [|split; [by apply (drop_nap_owner_slot t (rs_session_id r))|split]]].
  - destruct (no_lease ow.1); [by destruct Hlease; split|]. destruct Hlease as [_ Hno]. split; [done|]. by intros [].
  - intros Hat. destruct (no_lease ow.1); [by eexists|]. destruct Hlease; congruence.
  - intros Hat Hnd. destruct (run_nap_spec t (rs_session_id r) l2 _ Hi' Henv2) as (hist2 & ow2 & Hl2 & Hi2 & Hat2).
    exists hist2, ow2. split; [done|]. specialize (Hat2 Hat Hnd). split; [done|]. destruct Hi2 as [_ [_ Hlease2]].
    destruct (no_lease ow2.1); [apply Hlease2|]. destruct Hlease2; congruence.
  - intros network peer id. pose proof (detach_step t (rs_session_id r) network peer id ow Hi') as Hd.
    destruct (_ && _); [|done]. destruct Hd as (ow' & Hc & _ & Hn & _ & Hno & Hlet). by exists ow'.
Qed.

(** ** Example: the control session is lost while the client stays attached *)

#[local] Existing Instances disk_stores disk_lawful pipe_stream pipe_lawful pipe_tls pipe_lawful_tls demo_owned demo_lawful.

Definition demo_quiet : SharedRegistry :=
  (admit_session (demo_open_session, demo_enrolled) (mkShared (mkLock registry_new false) [])).2.
Definition demo_nap : SharedNap := mkShared (mkScope (fill_id 1) 7 (ledger_new nap_caps)) [].
Definition demo_ticket : NetworkNapTicket := mkNetTicket (fill_id 1) 7 (mkTicket (fill_id 2) 1).

Lemma nap_capacity_follows_attachment_witness :
  exists o d w1 n1 hist ow, nap_reserve demo_owner demo_quiet demo_nap = Some (Ok (o, d), (w1, n1)) /\
    run_nap [(id, NActivate); (id, NLoss)] (o, (w1, n1)) = Some (hist, ow) /\ hist = [true; true] /\
    awaiting_detach_after_tls_loss ow.1 = true /\ holds_slot demo_ticket (drop_nap_owner ow).2.
Proof.
  destruct (nap_reserve demo_owner demo_quiet demo_nap) as [[[[o d]|e] [w1 n1]]|] eqn:Hrun;
    [|exfalso; assert (match nap_reserve demo_owner demo_quiet demo_nap with Some (Ok _, _) => true | _ => false end = true) as Hv
      by (vm_compute; reflexivity); rewrite Hrun in Hv; discriminate Hv..].
  assert (match nap_reserve demo_owner demo_quiet demo_nap with
    | Some (Ok (o, _), (w1, n1)) => (at_ticket ∘ nl_ticket) <$> no_lease o = Some demo_ticket /\ sh_others n1 = [] /\
        match run_nap [(id, NActivate); (id, NLoss)] (o, (w1, n1)) with
        | Some (hist, ow) => hist = [true; true] /\ no_attached ow.1 = true /\ awaiting_detach_after_tls_loss ow.1 = true
        | None => False
        end
    | _ => False end) as Hv by (vm_compute; repeat split).
  rewrite Hrun in Hv. destruct Hv as (Ht & Hno & Hrest).
  destruct (nap_capacity_follows_attachment demo_owner demo_quiet w1 demo_nap n1 o d demo_ticket
    [(id, NActivate); (id, NLoss)] []) as (_ & hist & ow & Hl & _ & _ & Hdrop & _).
  - exact demo_ready.
  - constructor.
  - apply ledger_new_inv.
  - reflexivity.
  - exact Hrun.
  - exact Ht.
  - rewrite Hno. constructor.
  - repeat constructor.
  - rewrite Hl in Hrest. destruct Hrest as (Hh & Hat & Haw). exists o, d, w1, n1, hist, ow.
    split; [reflexivity|]. split; [exact Hl|]. split; [exact Hh|]. split; [exact Haw|]. apply Hdrop. exact Hat.
Defined.
