(* ===== verification/StarHost.v ===== *)
(** The NAP host runtime: [LinuxStarHostRuntime] of [apps/daemon/src/single_star.rs].

    BlueZ and NetworkManager are behind [HostBackends]; what they keep, and what
    a call that succeeds or fails may do to it, is [LawfulHostBackends].  A
    state of the runtime is the slot of the active host, the transition flag
    and the backends' state. *)

From S2P Require Import Prelude Order Ident Addressing Routes LinuxRoutes.

(** ** Data of the backends *)

#[global] Program Instance NetworkInterfaceHandle_countable : Countable NetworkInterfaceHandle :=
  inj_countable' as_str mkInterface _.
Next Obligation. by intros []. Qed.

Record InterfaceAddress := mkInterfaceAddress {
  ia_interface : NetworkInterfaceHandle;
  ia_prefix : IpPrefix;
  ia_owner : NetworkId;
}.
#[global] Instance InterfaceAddress_eq_dec : EqDecision InterfaceAddress.
Proof. solve_decision. Defined.

Record ActiveIpv4Prefix := mkActivePrefix { ap_interface : option NetworkInterfaceHandle; ap_prefix : IpPrefix }.

Record AdapterHandle := mkAdapterHandle { adapter_str : list Z }.
#[global] Instance AdapterHandle_eq_dec : EqDecision AdapterHandle.
Proof. solve_decision. Defined.
#[global] Program Instance AdapterHandle_countable : Countable AdapterHandle :=
  inj_countable' adapter_str mkAdapterHandle _.
Next Obligation. by intros []. Qed.

Record BluetoothAdapter := mkAdapter { handle : AdapterHandle; powered : bool }.

Record NetworkAdvertisement := mkAdvertisement { adv_adapter : AdapterHandle; adv_network : NetworkId }.
#[global] Instance NetworkAdvertisement_eq_dec : EqDecision NetworkAdvertisement.
Proof. solve_decision. Defined.
#[global] Program Instance NetworkAdvertisement_countable : Countable NetworkAdvertisement :=
  inj_countable' (fun x => (adv_adapter x, adv_network x)) (fun p => mkAdvertisement p.1 p.2) _.
Next Obligation. by intros []. Qed.

(** ** The backends *)

Class HostBackends (B : Type) := {
  connect_bluez : stres B CoreError ();
  connect_network_manager : stres B CoreError ();
  active_ipv4_prefixes_with_interfaces : stres B CoreError (list ActiveIpv4Prefix);
  addresses : stres B CoreError (list InterfaceAddress);
  adapters : stres B CoreError (list BluetoothAdapter);
  ensure_bridge : NetworkId -> NetworkInterfaceHandle -> stres B CoreError ();
  ensure_address : InterfaceAddress -> stres B CoreError ();
  remove_address : InterfaceAddress -> stres B CoreError ();
  remove_owned_interface : NetworkId -> NetworkInterfaceHandle -> stres B CoreError ();
  start_nap : AdapterHandle -> NetworkInterfaceHandle -> stres B CoreError ();
  stop_nap : AdapterHandle -> stres B CoreError ();
  start_network_advertisement : AdapterHandle -> NetworkId -> stres B CoreError NetworkAdvertisement;
  stop_network_advertisement : NetworkAdvertisement -> stres B CoreError ();
}.

(** ** The runtime *)

Record ActiveLinuxStarHost := mkActiveHost {
  ah_network : NetworkId;
  ah_bridge : NetworkInterfaceHandle;
  ah_address : InterfaceAddress;
  ah_adapter : AdapterHandle;
  ah_advertisement : NetworkAdvertisement;
}.

Record LinuxStarHostRuntime (B : Type) := mkHostRuntime {
  rt_active : option ActiveLinuxStarHost;
  rt_transition : bool;
  rt_world : B;
}.
#[global] Arguments mkHostRuntime {B} _ _ _.
#[global] Arguments rt_active {B} _.
#[global] Arguments rt_transition {B} _.
#[global] Arguments rt_world {B} _.

Definition same_host_ownership (active_network : NetworkId) (active_bridge : NetworkInterfaceHandle)
    (active_address : InterfaceAddress) (requested_network : NetworkId)
    (requested_bridge : NetworkInterfaceHandle) (requested_address : InterfaceAddress) : bool :=
  bool_decide (active_network = requested_network) && bool_decide (active_bridge = requested_bridge)
  && bool_decide (active_address = requested_address).

Definition active_prefix_conflicts_after_restart (network : NetworkId) (bridge : NetworkInterfaceHandle)
    (address : InterfaceAddress) (owned_addresses : list InterfaceAddress)
    (active_prefixes : list ActiveIpv4Prefix) : list IpPrefix :=
  let exact_owned_address_exists := existsb (fun owned =>
    bool_decide (ia_owner owned = network) && bool_decide (ia_interface owned = bridge)
    && bool_decide (ia_interface owned = ia_interface address)
    && bool_decide (ia_prefix owned = ia_prefix address)) owned_addresses in
  ap_prefix <$> List.filter (fun active =>
    negb (exact_owned_address_exists && bool_decide (ap_interface active = Some bridge)
          && bool_decide (ap_prefix active = ia_prefix address))) active_prefixes.

(** *** Errors that carry cleanup failures *)

Definition transition_busy : CoreError :=
  core_error InvalidState "a conflicting BlueRoute network transition is already in progress".

Fixpoint join_failures (failures : list string) : string :=
  match failures with
  | [] => EmptyString
  | [f] => f
  | f :: fs => (f ++ "; " ++ join_failures fs)%string
  end.

Definition attach_cleanup_failures (original : CoreError) (failures : list string) : CoreError :=
  match failures with
  | [] => original
  | _ => core_error_with_diagnostic (kind original) (message original)
           (default "no original diagnostic"%string (diagnostic original) ++ "; runtime rollback failures: "
            ++ join_failures failures)%string
  end.

(** One cleanup step: a failure is noted and the next step runs all the same. *)
Definition note_failure {B A : Type} (label : string) (m : stres B CoreError A) (failures : list string) (b : B) :
    list string * B :=
  match m b with
  | (Ok _, b') => (failures, b')
  | (Err e, b') => (failures ++ [(label ++ message e)%string], b')
  end.

Section runtime.
Context {B : Type} `{HostBackends B}.

Abbreviation op A := (stres (LinuxStarHostRuntime B) CoreError A).

(** [TransitionGuard]: claimed for the whole operation, released by its drop on
    every way out. *)
Definition with_transition {A : Type} (m : op A) : op A := fun r =>
  if rt_transition r then (Err transition_busy, r) else
  let (x, r') := m (mkHostRuntime (rt_active r) true (rt_world r)) in
  (x, mkHostRuntime (rt_active r') false (rt_world r')).

Definition set_world (r : LinuxStarHostRuntime B) (b : B) : LinuxStarHostRuntime B :=
  mkHostRuntime (rt_active r) (rt_transition r) b.

Definition on_world {A : Type} (m : stres B CoreError A) : op A := fun r =>
  let (x, b) := m (rt_world r) in (x, set_world r b).

Definition select_powered_adapter : stres B CoreError AdapterHandle :=
  let! l := adapters in
  match List.find powered l with
  | Some a => st_ret (handle a)
  | None => st_fail (core_error AdapterDisabled "no powered Bluetooth adapter is available to host a BlueRoute NAP")
  end.

Definition rollback_setup (original : CoreError) (network : NetworkId) (adapter : AdapterHandle)
    (bridge : NetworkInterfaceHandle) (address : InterfaceAddress) (cleanup_nap cleanup_address : bool)
    (b : B) : CoreError * B :=
  let (failures, b) := if cleanup_nap then note_failure "stop NAP: " (stop_nap adapter) [] b else ([], b) in
  let (failures, b) := if cleanup_address
    then note_failure "remove address: " (remove_address address) failures b else (failures, b) in
  let (failures, b) := note_failure "remove bridge: " (remove_owned_interface network bridge) failures b in
  (attach_cleanup_failures original failures, b).

Definition cleanup_incomplete : string := "failed to fully clean up BlueRoute host runtime state".

Definition cleanup_active_host (h : ActiveLinuxStarHost) : stres B CoreError () := fun b =>
  let (failures, b) := note_failure "stop discovery advertisement: " (stop_network_advertisement (ah_advertisement h)) [] b in
  let (failures, b) := note_failure "stop NAP: " (stop_nap (ah_adapter h)) failures b in
  let (failures, b) := note_failure "remove address: " (remove_address (ah_address h)) failures b in
  let (failures, b) := note_failure "remove bridge: " (remove_owned_interface (ah_network h) (ah_bridge h)) failures b in
  match failures with
  | [] => (Ok (), b)
  | _ => (Err (core_error_with_diagnostic Internal cleanup_incomplete (join_failures failures)), b)
  end.

Definition rollback_active_host (original : CoreError) (h : ActiveLinuxStarHost) (b : B) : CoreError * B :=
  match cleanup_active_host h b with
  | (Ok _, b') => (original, b')
  | (Err cleanup, b') =>
      (core_error_with_diagnostic (kind original) (message original)
         (default "no original diagnostic"%string (diagnostic original)
          ++ "; runtime rollback also failed: " ++ message cleanup ++ "; cleanup diagnostic={:?}")%string, b')
  end.

(** A failing step whose error goes through a rollback. *)
Definition fail_after (rollback : CoreError -> B -> CoreError * B) (e : CoreError) : op () := fun r =>
  let (e', b) := rollback e (rt_world r) in (Err e', set_world r b).
Definition or_rollback {A : Type} (rollback : CoreError -> B -> CoreError * B) (m : stres B CoreError A)
    (k : A -> op ()) : op () := fun r =>
  match on_world m r with
  | (Ok a, r') => k a r'
  | (Err e, r') => fail_after rollback e r'
  end.

(** The slot is filled only while it is still empty. *)
Definition install_host (h : ActiveLinuxStarHost) : op () := fun r =>
  match rt_active r with
  | None => (Ok (), mkHostRuntime (Some h) (rt_transition r) (rt_world r))
  | Some _ => fail_after (fun e => rollback_active_host e h)
      (core_error InvalidState "BlueRoute host runtime changed unexpectedly while creating a network") r
  end.

Definition bring_up (network : NetworkId) (bridge : NetworkInterfaceHandle) (address : InterfaceAddress)
    (adapter : AdapterHandle) : op () :=
  let rollback := fun nap addr e => rollback_setup e network adapter bridge address nap addr in
  let! _ := on_world (ensure_bridge network bridge) in
  or_rollback (rollback false false) (ensure_address address) (fun _ =>
  or_rollback (rollback true true) (start_nap adapter bridge) (fun _ =>
  or_rollback (rollback true true) (start_network_advertisement adapter network) (fun advertisement =>
  install_host (mkActiveHost network bridge address adapter advertisement)))).

Definition different_host : CoreError :=
  core_error InvalidState "a different BlueRoute host configuration is already active".

Definition start_host (network : NetworkId) (bridge : NetworkInterfaceHandle) (address : InterfaceAddress) : op () :=
  with_transition (fun r =>
  match rt_active r with
  | Some h =>
      (if same_host_ownership (ah_network h) (ah_bridge h) (ah_address h) network bridge address
       then Ok () else Err different_host, r)
  | None => (
      let! _ := on_world connect_bluez in
      let! _ := on_world connect_network_manager in
      let! active_prefixes := on_world active_ipv4_prefixes_with_interfaces in
      let! owned_addresses := on_world addresses in
      let! _ := st_lift (ensure_ipv4_segment_available (ia_prefix address)
        (active_prefix_conflicts_after_restart network bridge address owned_addresses active_prefixes)) in
      let! adapter := on_world select_powered_adapter in
      bring_up network bridge address adapter) r
  end).

Definition owned_host (r : LinuxStarHostRuntime B) (network : NetworkId) (bridge : NetworkInterfaceHandle)
    (address : InterfaceAddress) : CoreResult ActiveLinuxStarHost :=
  match rt_active r with
  | None => Err (core_error InvalidState "cannot confirm ownership of the persisted BlueRoute host runtime")
  | Some h =>
      guard_err (negb (bool_decide (ah_network h = network)))
        (core_error InvalidState "refusing to stop a BlueRoute star owned by another network")
      (guard_err (negb (bool_decide (ah_bridge h = bridge)) || negb (bool_decide (ah_address h = address)))
        (core_error InvalidState "refusing to stop a BlueRoute star with mismatched owned runtime state")
      (Ok h))
  end.

Definition stop_host (network : NetworkId) (bridge : NetworkInterfaceHandle) (address : InterfaceAddress) : op () :=
  with_transition (
  let! h := (fun r => (owned_host r network bridge address, r)) in
  let! _ := on_world (cleanup_active_host h) in
  fun r =>
    if match rt_active r with Some current => bool_decide (ah_network current = network) | None => false end
    then (Ok (), mkHostRuntime None (rt_transition r) (rt_world r))
    else (Err (core_error InvalidState "BlueRoute host runtime changed unexpectedly during cleanup"), r)).

End runtime.

(** ** What the backends keep *)

(** The connection profiles BlueRoute owns (an interface of a network and its
    addresses), the adapters that serve a NAP and the registered
    advertisements. *)
Record HostWorld := mkHostWorld {
  w_profiles : gmap (NetworkId * NetworkInterfaceHandle) (gset IpPrefix);
  w_naps : gmap AdapterHandle NetworkInterfaceHandle;
  w_advertised : gset NetworkAdvertisement;
}.

Definition on_profiles f (w : HostWorld) : HostWorld := mkHostWorld (f (w_profiles w)) (w_naps w) (w_advertised w).

Definition profile_present (n : NetworkId) (i : NetworkInterfaceHandle) : HostWorld -> HostWorld :=
  on_profiles (fun m => <[(n, i) := default ∅ (m !! (n, i))]> m).
Definition profile_absent (n : NetworkId) (i : NetworkInterfaceHandle) : HostWorld -> HostWorld :=
  on_profiles (delete (n, i)).
Definition address_present (a : InterfaceAddress) : HostWorld -> HostWorld :=
  on_profiles (fun m => <[(ia_owner a, ia_interface a) :=
    {[ia_prefix a]} ∪ default ∅ (m !! (ia_owner a, ia_interface a))]> m).
Definition address_absent (a : InterfaceAddress) : HostWorld -> HostWorld :=
  on_profiles (alter (fun s => s ∖ {[ia_prefix a]}) (ia_owner a, ia_interface a)).
Definition nap_running (a : AdapterHandle) (i : NetworkInterfaceHandle) (w : HostWorld) : HostWorld :=
  mkHostWorld (w_profiles w) (<[a := i]> (w_naps w)) (w_advertised w).
Definition nap_stopped (a : AdapterHandle) (w : HostWorld) : HostWorld :=
  mkHostWorld (w_profiles w) (delete a (w_naps w)) (w_advertised w).
Definition advertised (d : NetworkAdvertisement) (w : HostWorld) : HostWorld :=
  mkHostWorld (w_profiles w) (w_naps w) ({[d]} ∪ w_advertised w).
Definition unadvertised (d : NetworkAdvertisement) (w : HostWorld) : HostWorld :=
  mkHostWorld (w_profiles w) (w_naps w) (w_advertised w ∖ {[d]}).

(** A call has effect [f] when it succeeds and one of the partial effects [fs]
    when it fails. *)
Definition has_effect {B A : Type} (observed : B -> HostWorld) (m : stres B CoreError A)
    (f : HostWorld -> HostWorld) (fs : list (HostWorld -> HostWorld)) : Prop :=
  forall b, let (x, b') := m b in
  match x with
  | Ok _ => observed b' = f (observed b)
  | Err _ => exists g, g ∈ fs /\ observed b' = g (observed b)
  end.

(** Queries change nothing.  A failing call has done all of its work, or some
    step before it, or nothing; a failing registration of an advertisement has
    not registered it. *)
Class LawfulHostBackends (B : Type) `{HostBackends B} := {
  observed : B -> HostWorld;
  connect_bluez_effect : has_effect observed connect_bluez id [id];
  connect_network_manager_effect : has_effect observed connect_network_manager id [id];
  active_ipv4_prefixes_effect : has_effect observed active_ipv4_prefixes_with_interfaces id [id];
  addresses_effect : has_effect observed addresses id [id];
  adapters_effect : has_effect observed adapters id [id];
  ensure_bridge_effect n i : has_effect observed (ensure_bridge n i) (profile_present n i) [id; profile_present n i];
  ensure_address_effect a : has_effect observed (ensure_address a) (address_present a)
    [id; profile_present (ia_owner a) (ia_interface a); address_present a];
  remove_address_effect a : has_effect observed (remove_address a) (address_absent a) [id; address_absent a];
  remove_interface_effect n i : has_effect observed (remove_owned_interface n i) (profile_absent n i)
    [id; profile_absent n i];
  start_nap_effect a i : has_effect observed (start_nap a i) (nap_running a i) [id; nap_running a i];
  stop_nap_effect a : has_effect observed (stop_nap a) (nap_stopped a) [id; nap_stopped a];
  start_advertisement_effect a n : has_effect observed (start_network_advertisement a n)
    (advertised (mkAdvertisement a n)) [id];
  start_advertisement_value a n (b b' : B) d :
    start_network_advertisement a n b = (Ok d, b') -> d = mkAdvertisement a n;
  stop_advertisement_effect d : has_effect observed (stop_network_advertisement d) (unadvertised d)
    [id; unadvertised d];
}.

(** The removing calls never fail: what a rollback needs to undo everything. *)
Definition removals_reliable (B : Type) `{HostBackends B} : Prop :=
  (forall a (b : B), exists b', remove_address a b = (Ok (), b')) /\
  (forall n i (b : B), exists b', remove_owned_interface n i b = (Ok (), b')) /\
  (forall a (b : B), exists b', stop_nap a b = (Ok (), b')) /\
  (forall d (b : B), exists b', stop_network_advertisement d b = (Ok (), b')).

(** Two worlds that differ at most in one network's profile and one adapter's NAP. *)
Definition same_elsewhere (n : NetworkId) (i : NetworkInterfaceHandle) (adapter : AdapterHandle)
    (w w' : HostWorld) : Prop :=
  delete (n, i) (w_profiles w') = delete (n, i) (w_profiles w) /\
  delete adapter (w_naps w') = delete adapter (w_naps w) /\
  w_advertised w' = w_advertised w.

Section proofs.
Context {B : Type} `{LawfulHostBackends B}.

Lemma has_effect_Ok {A : Type} (m : stres B CoreError A) f fs (b b' : B) (x : A) :
  has_effect observed m f fs -> m b = (Ok x, b') -> observed b' = f (observed b).
Proof. intros Hm Hr. specialize (Hm b). by rewrite Hr in Hm. Qed.
Lemma has_effect_Err {A : Type} (m : stres B CoreError A) f fs (b b' : B) e :
  has_effect observed m f fs -> m b = (Err e, b') -> exists g, g ∈ fs /\ observed b' = g (observed b).
Proof. intros Hm Hr. specialize (Hm b). by rewrite Hr in Hm. Qed.

Lemma note_failure_effect {A : Type} label (m : stres B CoreError A) f fs (failures failures' : list string) (b b' : B) :
  has_effect observed m f fs -> note_failure label m failures b = (failures', b') ->
  (exists g, g ∈ f :: fs /\ observed b' = g (observed b)) /\ (failures' = [] -> observed b' = f (observed b) /\ failures = []).
Proof.
  intros Hm. unfold note_failure. specialize (Hm b). destruct (m b) as [[x|e] b1]; intros [= <- <-].
  - split; [exists f; split; [by left|done]|done].
  - destruct Hm as (g & Hg & Ho). split; [exists g; split; [by right|done]|].
    intros Hnil%(f_equal length). rewrite length_app in Hnil. simpl in Hnil. lia.
Qed.
Lemma note_reliable {A : Type} label (m : stres B CoreError A) (failures : list string) (b : B) :
  (exists x b', m b = (Ok x, b')) -> exists b', note_failure label m failures b = (failures, b').
Proof. intros (x & b' & Hm). unfold note_failure. rewrite Hm. by eexists. Qed.


(** *** Effects on a network's own resources *)

Lemma delete_alter_same {K A : Type} `{Countable K} (f : A -> A) (k : K) (m : gmap K A) :
  delete k (alter f k m) = delete k m.
Proof.
  apply map_eq. intros j. destruct (decide (j = k)) as [->|Hj]; [by rewrite !lookup_delete_eq|].
  by rewrite !lookup_delete_ne, lookup_alter_ne by done.
Qed.

#[local] Instance same_elsewhere_refl n i ad : Reflexive (same_elsewhere n i ad).
Proof. done. Qed.
Lemma same_elsewhere_trans n i ad (w w' w'' : HostWorld) :
  same_elsewhere n i ad w w' -> same_elsewhere n i ad w' w'' -> same_elsewhere n i ad w w''.
Proof. intros (? & ? & ?) (? & ? & ?). split_and!; etrans; eauto. Qed.

Definition own_effect (n : NetworkId) (i : NetworkInterfaceHandle) (ad : AdapterHandle) (g : HostWorld -> HostWorld) : Prop :=
  forall w, same_elsewhere n i ad w (g w).

Lemma own_id n i ad : own_effect n i ad id.
Proof. done. Qed.
Lemma own_profile_present n i ad : own_effect n i ad (profile_present n i).
Proof. intros w. split_and!; [apply delete_insert_eq|done|done]. Qed.
Lemma own_profile_absent n i ad : own_effect n i ad (profile_absent n i).
Proof. intros w. split_and!; [apply delete_delete_eq|done|done]. Qed.
Lemma own_address_present ad a : own_effect (ia_owner a) (ia_interface a) ad (address_present a).
Proof. intros w. split_and!; [apply delete_insert_eq|done|done]. Qed.
Lemma own_address_absent ad a : own_effect (ia_owner a) (ia_interface a) ad (address_absent a).
Proof. intros w. split_and!; [apply delete_alter_same|done|done]. Qed.
Lemma own_nap_running n i ad j : own_effect n i ad (nap_running ad j).
Proof. intros w. split_and!; [done|apply delete_insert_eq|done]. Qed.
Lemma own_nap_stopped n i ad : own_effect n i ad (nap_stopped ad).
Proof. intros w. split_and!; [done|apply delete_delete_eq|done]. Qed.

Create HintDb own.
#[local] Hint Resolve own_id own_profile_present own_profile_absent own_address_present own_address_absent
  own_nap_running own_nap_stopped : own.

(** A call whose effects, partial ones included, all stay with the network. *)
Lemma own_step {A : Type} (m : stres B CoreError A) f fs n i ad (b b' : B) x :
  has_effect observed m f fs -> Forall (own_effect n i ad) (f :: fs) -> m b = (x, b') ->
  same_elsewhere n i ad (observed b) (observed b').
Proof.
  intros Hm Hown Hr. specialize (Hm b). rewrite Hr in Hm. rewrite Forall_forall in Hown. destruct x as [x|e].
  - rewrite Hm. apply Hown. by left.
  - destruct Hm as (g & Hg & ->). apply Hown. by right.
Qed.
Lemma own_note {A : Type} label (m : stres B CoreError A) f fs n i ad failures failures' (b b' : B) :
  has_effect observed m f fs -> Forall (own_effect n i ad) (f :: fs) ->
  note_failure label m failures b = (failures', b') -> same_elsewhere n i ad (observed b) (observed b').
Proof.
  intros Hm Hown Hr. destruct (note_failure_effect _ _ _ _ _ _ _ _ Hm Hr) as ((g & Hg & ->) & _).
  rewrite Forall_forall in Hown. by apply Hown.
Qed.

(** Whatever fails in a rollback, it touches only what the failed start could
    have set up; when the removals work, it leaves none of it. *)
Lemma rollback_setup_spec e n ad i a cn ca (b b' : B) e' :
  ia_owner a = n -> ia_interface a = i ->
  rollback_setup e n ad i a cn ca b = (e', b') ->
  kind e' = kind e /\ message e' = message e /\ same_elsewhere n i ad (observed b) (observed b') /\
  (removals_reliable B -> e' = e /\
   observed b' = profile_absent n i ((if ca then address_absent a else id) ((if cn then nap_stopped ad else id) (observed b)))).
Proof.
  intros <- <-. unfold rollback_setup.
  destruct (if cn then _ else _) as [f1 b1] eqn:H1. destruct (if ca then _ else _) as [f2 b2] eqn:H2.
  destruct (note_failure "remove bridge: " _ f2 b2) as [f3 b3] eqn:H3. intros [= <- <-].
  assert (same_elsewhere (ia_owner a) (ia_interface a) ad (observed b) (observed b1)) as E1.
  { destruct cn; [|by injection H1 as <- <-]. eapply (own_note _ _ _ _ _ _ _ _ _ _ _ (stop_nap_effect ad)); [|exact H1]. auto with own. }
  assert (same_elsewhere (ia_owner a) (ia_interface a) ad (observed b1) (observed b2)) as E2.
  { destruct ca; [|by injection H2 as <- <-]. eapply (own_note _ _ _ _ _ _ _ _ _ _ _ (remove_address_effect a)); [|exact H2]. auto with own. }
  assert (same_elsewhere (ia_owner a) (ia_interface a) ad (observed b2) (observed b3)) as E3.
  { eapply (own_note _ _ _ _ _ _ _ _ _ _ _ (remove_interface_effect _ _)); [|exact H3]. auto with own. }
  split; [by destruct f3|]. split; [by destruct f3|].
  split; [eauto using same_elsewhere_trans|].
  intros (Ra & Ri & Rn & _).
  assert (f1 = [] /\ observed b1 = (if cn then nap_stopped ad else id) (observed b)) as [-> O1].
  { destruct cn; [|by injection H1 as <- <-]. destruct (Rn ad b) as (c & Hc). unfold note_failure in H1. rewrite Hc in H1.
    injection H1 as <- <-. split; [done|]. by apply (has_effect_Ok _ _ _ _ _ _ (stop_nap_effect ad) Hc). }
  assert (f2 = [] /\ observed b2 = (if ca then address_absent a else id) (observed b1)) as [-> O2].
  { destruct ca; [|by injection H2 as <- <-]. destruct (Ra a b1) as (c & Hc). unfold note_failure in H2. rewrite Hc in H2.
    injection H2 as <- <-. split; [done|]. by apply (has_effect_Ok _ _ _ _ _ _ (remove_address_effect a) Hc). }
  destruct (Ri (ia_owner a) (ia_interface a) b2) as (c & Hc). unfold note_failure in H3. rewrite Hc in H3. injection H3 as <- <-.
  split; [done|]. rewrite (has_effect_Ok _ _ _ _ _ _ (remove_interface_effect _ _) Hc). by rewrite O2, O1.
Qed.


(** *** Bringing a host up *)

Lemma absent_after_setup n i ad a j w :
  ia_owner a = n -> ia_interface a = i ->
  profile_absent n i (address_absent a (nap_stopped ad (nap_running ad j (address_present a (profile_present n i w))))) =
  profile_absent n i (nap_stopped ad w).
Proof.
  intros <- <-. unfold profile_absent, address_absent, nap_stopped, nap_running, address_present, profile_present, on_profiles.
  simpl. by rewrite delete_alter_same, !delete_insert_eq.
Qed.
Lemma absent_after_setup' n i ad a w :
  ia_owner a = n -> ia_interface a = i ->
  profile_absent n i (address_absent a (nap_stopped ad (address_present a (profile_present n i w)))) =
  profile_absent n i (nap_stopped ad w).
Proof.
  intros <- <-. unfold profile_absent, address_absent, nap_stopped, address_present, profile_present, on_profiles.
  simpl. by rewrite delete_alter_same, !delete_insert_eq.
Qed.

(** A rollback of [e] that ends in [b'] with [e']: when the removals work it
    reports [e] itself and leaves the world [w]. *)
Definition withdrawn (e e' : CoreError) (w : HostWorld) (b' : B) : Prop :=
  removals_reliable B -> e' = e /\ observed b' = w.

(** How a setup from [b] fails, and what it leaves.  A bridge that could not be
    ensured is not rolled back: the state is the one that call left.  After it,
    a failed address gives up the profile, and a failed NAP or advertisement the
    profile and the adapter's NAP; both are removed whoever set them up, so that
    a profile or a NAP from before the attempt is lost as well. *)
Inductive failed_setup (n : NetworkId) (i : NetworkInterfaceHandle) (a : InterfaceAddress) (ad : AdapterHandle)
    (b : B) : CoreError -> B -> Prop :=
| bridge_failed e b' : ensure_bridge n i b = (Err e, b') -> failed_setup n i a ad b e b'
| address_failed b1 e b2 e' b' :
    ensure_bridge n i b = (Ok (), b1) -> ensure_address a b1 = (Err e, b2) ->
    withdrawn e e' (profile_absent n i (observed b)) b' -> failed_setup n i a ad b e' b'
| nap_failed b1 b2 e b3 e' b' :
    ensure_bridge n i b = (Ok (), b1) -> ensure_address a b1 = (Ok (), b2) -> start_nap ad i b2 = (Err e, b3) ->
    withdrawn e e' (profile_absent n i (nap_stopped ad (observed b))) b' -> failed_setup n i a ad b e' b'
| advertisement_failed b1 b2 b3 e b4 e' b' :
    ensure_bridge n i b = (Ok (), b1) -> ensure_address a b1 = (Ok (), b2) -> start_nap ad i b2 = (Ok (), b3) ->
    start_network_advertisement ad n b3 = (Err e, b4) ->
    withdrawn e e' (profile_absent n i (nap_stopped ad (observed b))) b' -> failed_setup n i a ad b e' b'.

Lemma absent_nothing n i ad (w : HostWorld) :
  w_profiles w !! (n, i) = None -> profile_absent n i w = w /\
  (w_naps w !! ad = None -> profile_absent n i (nap_stopped ad w) = w).
Proof.
  intros Hp. destruct w as [ps ns ds]. unfold profile_absent, nap_stopped, on_profiles; simpl in *.
  split; [|intros Hn]; by rewrite !delete_id.
Qed.

(** From a state with neither the profile nor a NAP on the adapter, nothing of a
    failed setup is left but what a failed call for the bridge leaves. *)
Lemma setup_failed_clean n i a ad (b b' : B) e :
  failed_setup n i a ad b e b' -> removals_reliable B ->
  w_profiles (observed b) !! (n, i) = None -> w_naps (observed b) !! ad = None ->
  observed b' = observed b \/
  (ensure_bridge n i b = (Err e, b') /\ observed b' = profile_present n i (observed b)).
Proof.
  intros Hf R Hp Hn. destruct (absent_nothing n i ad (observed b) Hp) as [E1 E2]. specialize (E2 Hn).
  destruct Hf as [e b' H1|b1 e b2 e' b' _ _ W|b1 b2 e b3 e' b' _ _ _ W|b1 b2 b3 e b4 e' b' _ _ _ _ W];
    [|left; destruct (W R); congruence..].
  destruct (has_effect_Err _ _ _ _ _ _ (ensure_bridge_effect n i) H1) as (g & Hg & O).
  set_unfold in Hg. destruct Hg as [->|[->|[]]]; [by left|by right].
Qed.

Definition hosting_world (n : NetworkId) (i : NetworkInterfaceHandle) (a : InterfaceAddress) (ad : AdapterHandle)
    (w : HostWorld) : HostWorld :=
  advertised (mkAdvertisement ad n) (nap_running ad i (address_present a (profile_present n i w))).

Lemma or_rollback_cases {A : Type} (rollback : CoreError -> B -> CoreError * B) (m : stres B CoreError A) k
    (r r' : LinuxStarHostRuntime B) x :
  or_rollback rollback m k r = (x, r') ->
  (exists v b, m (rt_world r) = (Ok v, b) /\ k v (set_world r b) = (x, r')) \/
  (exists e b e' b', m (rt_world r) = (Err e, b) /\ rollback e b = (e', b') /\ x = Err e' /\ r' = set_world r b').
Proof.
  unfold or_rollback, on_world, fail_after. destruct (m (rt_world r)) as [[v|e] b]; [by intros; left; eauto|].
  cbn [rt_world set_world]. destruct (rollback e b) as [e' b'] eqn:Hb. intros [= <- <-]. right. exists e, b, e', b'. done.
Qed.

Definition brought_up (n : NetworkId) (i : NetworkInterfaceHandle) (a : InterfaceAddress) (ad : AdapterHandle)
    (r : LinuxStarHostRuntime B) (x : CoreResult ()) (r' : LinuxStarHostRuntime B) : Prop :=
  rt_transition r' = rt_transition r /\
  match x with
  | Ok _ => rt_active r' = Some (mkActiveHost n i a ad (mkAdvertisement ad n)) /\
            observed (rt_world r') = hosting_world n i a ad (observed (rt_world r))
  | Err e => rt_active r' = None /\ same_elsewhere n i ad (observed (rt_world r)) (observed (rt_world r')) /\
             failed_setup n i a ad (rt_world r) e (rt_world r')
  end.

(** A rollback after the setup got to [b], seen from the start of the setup. *)
Lemma rolled_back n i a ad (b0 b b' : B) (e e' : CoreError) (cn ca : bool) w :
  ia_owner a = n -> ia_interface a = i -> same_elsewhere n i ad (observed b0) (observed b) ->
  rollback_setup e n ad i a cn ca b = (e', b') ->
  profile_absent n i ((if ca then address_absent a else id) ((if cn then nap_stopped ad else id) (observed b))) = w ->
  same_elsewhere n i ad (observed b0) (observed b') /\ withdrawn e e' w b'.
Proof.
  intros Ho Hi Hs Hr <-. destruct (rollback_setup_spec _ _ _ _ _ _ _ _ _ _ Ho Hi Hr) as (_ & _ & Hs' & Hrel).
  split; [by eapply same_elsewhere_trans|]. exact Hrel.
Qed.

Lemma bring_up_spec n i a ad (r r' : LinuxStarHostRuntime B) (x : CoreResult ()) :
  rt_active r = None -> ia_owner a = n -> ia_interface a = i ->
  bring_up n i a ad r = (x, r') -> brought_up n i a ad r x r'.
Proof.
  intros Ha Ho Hi. unfold bring_up, st_bind, on_world.
  destruct (ensure_bridge n i (rt_world r)) as [[[]|e] b1] eqn:H1; cycle 1.
  { intros [= <- <-]. split; [done|]. split; [done|]. split; [|by apply bridge_failed].
    eapply (own_step _ _ _ _ _ _ _ _ _ (ensure_bridge_effect n i)); [|exact H1]. auto with own. }
  pose proof (has_effect_Ok _ _ _ _ _ _ (ensure_bridge_effect n i) H1) as O1.
  assert (same_elsewhere n i ad (observed (rt_world r)) (observed b1)) as S1 by (rewrite O1; apply own_profile_present).
  intros [([] & b2 & H2 & Hk)|(e & b2 & e' & b' & H2 & Hr & -> & ->)]%or_rollback_cases; cbn [rt_world set_world] in *; cycle 1.
  { destruct (rolled_back n i a ad (rt_world r) b2 b' e e' false false (profile_absent n i (observed (rt_world r))) Ho Hi)
      as [Hs W]; [|exact Hr| |split; [done|split; [done|split; [done|by eapply address_failed]]]].
    - eapply same_elsewhere_trans; [exact S1|]. eapply (own_step _ _ _ _ _ _ _ _ _ (ensure_address_effect a)); [|exact H2].
      subst n i. auto with own.
    - destruct (has_effect_Err _ _ _ _ _ _ (ensure_address_effect a) H2) as (g & Hg & ->). rewrite O1.
      subst n i. set_unfold in Hg.
      destruct Hg as [->|[->|[->|[]]]]; unfold profile_absent, address_present, profile_present, on_profiles; simpl;
        by rewrite ?delete_insert_eq. }
  pose proof (has_effect_Ok _ _ _ _ _ _ (ensure_address_effect a) H2) as O2.
  assert (same_elsewhere n i ad (observed (rt_world r)) (observed b2)) as S2.
  { eapply same_elsewhere_trans; [exact S1|]. rewrite O2. subst n i. apply own_address_present. }
  revert Hk. intros [([] & b3 & H3 & Hk)|(e & b3 & e' & b' & H3 & Hr & -> & ->)]%or_rollback_cases; cbn [rt_world set_world] in *; cycle 1.
  { destruct (rolled_back n i a ad (rt_world r) b3 b' e e' true true (profile_absent n i (nap_stopped ad (observed (rt_world r)))) Ho Hi)
      as [Hs W]; [|exact Hr| |split; [done|split; [done|split; [done|by eapply nap_failed]]]].
    - eapply same_elsewhere_trans; [exact S2|]. eapply (own_step _ _ _ _ _ _ _ _ _ (start_nap_effect ad i)); [|exact H3]. auto with own.
    - destruct (has_effect_Err _ _ _ _ _ _ (start_nap_effect ad i) H3) as (g & Hg & ->). rewrite O2, O1.
      set_unfold in Hg. destruct Hg as [->|[->|[]]]; [by apply absent_after_setup'|by apply absent_after_setup]. }
  pose proof (has_effect_Ok _ _ _ _ _ _ (start_nap_effect ad i) H3) as O3.
  assert (same_elsewhere n i ad (observed (rt_world r)) (observed b3)) as S3.
  { eapply same_elsewhere_trans; [exact S2|]. rewrite O3. apply own_nap_running. }
  revert Hk. intros [(d & b4 & H4 & Hk)|(e & b4 & e' & b' & H4 & Hr & -> & ->)]%or_rollback_cases; cbn [rt_world set_world] in *; cycle 1.
  { destruct (has_effect_Err _ _ _ _ _ _ (start_advertisement_effect ad n) H4) as (g & Hg & O4).
    apply list_elem_of_singleton in Hg as ->.
    destruct (rolled_back n i a ad (rt_world r) b4 b' e e' true true (profile_absent n i (nap_stopped ad (observed (rt_world r)))) Ho Hi)
      as [Hs W];
      [by rewrite O4|exact Hr|rewrite O4; unfold id at 1; rewrite O3, O2, O1; by apply absent_after_setup|].
    split; [done|]. split; [done|]. split; [done|]. by eapply advertisement_failed. }
  pose proof (start_advertisement_value _ _ _ _ _ H4) as ->.
  apply (has_effect_Ok _ _ _ _ _ _ (start_advertisement_effect ad n)) in H4.
  revert Hk. unfold install_host. cbn [rt_active set_world]. rewrite Ha. intros [= <- <-].
  split; [done|]. split; [done|]. cbn [rt_world]. by rewrite H4, O3, O2, O1.
Qed.

(** *** Starting a host *)

Lemma quiet_step {A : Type} (m : stres B CoreError A) (k : A -> stres (LinuxStarHostRuntime B) CoreError ())
    (r r' : LinuxStarHostRuntime B) x :
  has_effect observed m id [id] -> (let! v := on_world m in k v) r = (x, r') ->
  exists b, observed b = observed (rt_world r) /\
    ((exists v, m (rt_world r) = (Ok v, b) /\ k v (set_world r b) = (x, r')) \/
     (exists e, x = Err e /\ r' = set_world r b)).
Proof.
  intros Hm. unfold st_bind, on_world. specialize (Hm (rt_world r)). destruct (m (rt_world r)) as [[v|e] b].
  - intros Hk. exists b. split; [exact Hm|]. left. by exists v.
  - intros [= <- <-]. exists b. destruct Hm as (g & Hg & O). apply list_elem_of_singleton in Hg as ->.
    split; [exact O|]. right. by exists e.
Qed.

Lemma select_powered_adapter_effect : has_effect observed select_powered_adapter id [id].
Proof.
  intros b. unfold select_powered_adapter, st_bind. pose proof (adapters_effect b) as Ha.
  destruct (adapters b) as [[l|e] b']; [|exact Ha].
  destruct (List.find powered l); [exact Ha|]. exists id. split; [by left|exact Ha].
Qed.

(** Which active prefixes the restart check disregards. *)
Definition restored (n : NetworkId) (i : NetworkInterfaceHandle) (a : InterfaceAddress)
    (owned : list InterfaceAddress) (p : ActiveIpv4Prefix) : Prop :=
  mkInterfaceAddress i (ia_prefix a) n ∈ owned /\ ia_interface a = i /\
  ap_interface p = Some i /\ ap_prefix p = ia_prefix a.

Lemma active_prefix_conflicts_exact n i a owned prefixes q :
  q ∈ active_prefix_conflicts_after_restart n i a owned prefixes <->
  exists p, p ∈ prefixes /\ ap_prefix p = q /\ ~ restored n i a owned p.
Proof.
  unfold active_prefix_conflicts_after_restart.
  set (ex := existsb _ owned).
  assert (ex = true <-> mkInterfaceAddress i (ia_prefix a) n ∈ owned /\ ia_interface a = i) as Hex.
  { unfold ex. rewrite existsb_exists. setoid_rewrite <- list_elem_of_In. split.
    - intros (o & Ho & (((E1 & E2)%andb_true_iff & E3)%andb_true_iff & E4)%andb_true_iff).
      apply bool_decide_eq_true in E1, E2, E3, E4. destruct o as [oi op oo]. simpl in *. by subst.
    - intros [Ho Hi]. eexists. split; [exact Ho|]. simpl. by rewrite !bool_decide_true by done. }
  rewrite list_elem_of_fmap. split.
  - intros (p & -> & (Hp & Hn)%list_elem_of_In%filter_In). rewrite <- list_elem_of_In in Hp. exists p.
    split; [done|]. split; [done|]. intros (Ho & Hi & Hj & Hq). rewrite (proj2 Hex (conj Ho Hi)) in Hn.
    by rewrite Hj, Hq, !bool_decide_true in Hn by done.
  - intros (p & Hp & <- & Hr). exists p. split; [done|]. apply list_elem_of_In, filter_In. split; [by apply list_elem_of_In|].
    apply negb_true_iff, not_true_iff_false. intros ((E1 & E2)%andb_true_iff & E3)%andb_true_iff.
    apply bool_decide_eq_true in E2, E3. apply Hex in E1 as [E1 E1']. by apply Hr.
Qed.

(** The address a host takes shares no host with any other active local network. *)
Definition conflict_free (n : NetworkId) (i : NetworkInterfaceHandle) (a : InterfaceAddress)
    (owned : list InterfaceAddress) (prefixes : list ActiveIpv4Prefix) : Prop :=
  prefix_rep (ia_prefix a) -> Forall (fun p => prefix_rep (ap_prefix p)) prefixes ->
  forall p, p ∈ prefixes -> is_ipv4 (address (ap_prefix p)) = true -> prefix_len (ap_prefix p) <> 0%Z ->
  restored n i a owned p \/ ~ prefixes_meet (ia_prefix a) (ap_prefix p).

Lemma available_conflict_free n i a owned prefixes :
  ensure_ipv4_segment_available (ia_prefix a) (active_prefix_conflicts_after_restart n i a owned prefixes) = Ok () ->
  conflict_free n i a owned prefixes.
Proof.
  intros Hok Ha Hps p Hp H4 Hl. rewrite Forall_forall in Hps.
  assert (Forall prefix_rep (active_prefix_conflicts_after_restart n i a owned prefixes)) as Hall.
  { apply Forall_forall. intros q (p' & Hp' & <- & _)%active_prefix_conflicts_exact. by apply Hps. }
  apply (ensure_available_iff _ _ Ha Hall) in Hok as (_ & _ & Hok). rewrite Forall_forall in Hok.
  destruct (decide (mkInterfaceAddress i (ia_prefix a) n ∈ owned /\ ia_interface a = i /\
    ap_interface p = Some i /\ ap_prefix p = ia_prefix a)) as [Hr|Hr]; [by left|]. right.
  apply (Hok (ap_prefix p)); [|done|done]. apply active_prefix_conflicts_exact. by exists p.
Qed.


Definition host_identity (n : NetworkId) (i : NetworkInterfaceHandle) (a : InterfaceAddress) (h : ActiveLinuxStarHost) : Prop :=
  ah_network h = n /\ ah_bridge h = i /\ ah_address h = a.

(** The queries that clear the way for a start, from [b] to [b']: both services
    answer, the address shares no host with the active prefixes they list, and
    [ad] is the first powered adapter. *)
Definition cleared (n : NetworkId) (i : NetworkInterfaceHandle) (a : InterfaceAddress) (ad : AdapterHandle) (b b' : B) : Prop :=
  observed b' = observed b /\
  exists b1 b2 prefixes b3 owned b4 l info,
    connect_bluez b = (Ok (), b1) /\ connect_network_manager b1 = (Ok (), b2) /\
    active_ipv4_prefixes_with_interfaces b2 = (Ok prefixes, b3) /\ addresses b3 = (Ok owned, b4) /\
    conflict_free n i a owned prefixes /\
    adapters b4 = (Ok l, b') /\ List.find powered l = Some info /\ handle info = ad.

(** What a start from an empty slot promises. *)
Definition started (n : NetworkId) (i : NetworkInterfaceHandle) (a : InterfaceAddress)
    (r : LinuxStarHostRuntime B) (x : CoreResult ()) (r' : LinuxStarHostRuntime B) : Prop :=
  match x with
  | Ok _ => exists ad b, cleared n i a ad (rt_world r) b /\
      rt_active r' = Some (mkActiveHost n i a ad (mkAdvertisement ad n)) /\
      observed (rt_world r') = hosting_world n i a ad (observed (rt_world r))
  | Err e => rt_active r' = None /\
      (observed (rt_world r') = observed (rt_world r) \/
       exists ad b, cleared n i a ad (rt_world r) b /\
         same_elsewhere n i ad (observed (rt_world r)) (observed (rt_world r')) /\
         failed_setup n i a ad b e (rt_world r'))
  end.

Lemma with_transition_free {A : Type} (m : stres (LinuxStarHostRuntime B) CoreError A) (r r' : LinuxStarHostRuntime B) x :
  rt_transition r = false -> with_transition m r = (x, r') ->
  exists r1, m (mkHostRuntime (rt_active r) true (rt_world r)) = (x, r1) /\
    r' = mkHostRuntime (rt_active r1) false (rt_world r1).
Proof.
  intros Hf. unfold with_transition. rewrite Hf. destruct (m _) as [y r1]. intros [= <- <-]. by exists r1.
Qed.

Lemma started_untouched n i a (r r' : LinuxStarHostRuntime B) e :
  rt_active r' = None -> observed (rt_world r') = observed (rt_world r) -> started n i a r (Err e) r'.
Proof. intros Ha O. split; [done|]. by left. Qed.

Lemma select_powered_adapter_Ok (b b' : B) ad :
  select_powered_adapter b = (Ok ad, b') ->
  exists l info, adapters b = (Ok l, b') /\ List.find powered l = Some info /\ handle info = ad.
Proof.
  unfold select_powered_adapter, st_bind. destruct (adapters b) as [[l|e] b1]; [|done].
  destruct (List.find powered l) as [info|] eqn:Hf; [|done]. intros [= <- <-]. by exists l, info.
Qed.

Lemma start_host_free n i a (r r' : LinuxStarHostRuntime B) x :
  rt_transition r = false -> rt_active r = None -> ia_owner a = n -> ia_interface a = i ->
  start_host n i a r = (x, r') -> rt_transition r' = false /\ started n i a r x r'.
Proof.
  intros Hf Ha Ho Hi (r1 & Hm & ->)%(with_transition_free _ _ _ _ Hf). split; [done|].
  cbn [rt_active] in Hm. rewrite Ha in Hm.
  apply (quiet_step _ _ _ _ _ connect_bluez_effect) in Hm as (b1 & O1 & [([] & H1 & Hm)|(e & -> & ->)]); [|by apply started_untouched].
  apply (quiet_step _ _ _ _ _ connect_network_manager_effect) in Hm as (b2 & O2 & [([] & H2 & Hm)|(e & -> & ->)]);
    [|apply started_untouched; [done|]; cbn [rt_world set_world] in *; congruence].
  cbn [rt_world set_world] in O1, O2.
  apply (quiet_step _ _ _ _ _ active_ipv4_prefixes_effect) in Hm as (b3 & O3 & [(prefixes & H3 & Hm)|(e & -> & ->)]);
    [|apply started_untouched; [done|]; cbn [rt_world set_world] in *; congruence].
  apply (quiet_step _ _ _ _ _ addresses_effect) in Hm as (b4 & O4 & [(owned & H4 & Hm)|(e & -> & ->)]);
    [|apply started_untouched; [done|]; cbn [rt_world set_world] in *; congruence].
  unfold st_bind at 1, st_lift in Hm.
  destruct (ensure_ipv4_segment_available _ _) as [[]|e] eqn:Hav; cycle 1.
  { injection Hm as <- <-. apply started_untouched; [done|]. cbn [rt_world set_world] in *; congruence. }
  apply available_conflict_free in Hav.
  unfold st_bind, on_world in Hm. pose proof (select_powered_adapter_effect b4) as O5.
  cbn [rt_world set_world] in *. destruct (select_powered_adapter b4) as [[ad|e] b5] eqn:H5; cycle 1.
  { destruct O5 as (g & Hg & O5). apply list_elem_of_singleton in Hg as ->. injection Hm as <- <-.
    apply started_untouched; [done|]. cbn [rt_world set_world]. rewrite O5. unfold id. congruence. }
  assert (observed b5 = observed (rt_world r)) as O by (rewrite O5; unfold id; congruence).
  apply select_powered_adapter_Ok in H5 as (l & info & H5 & Hfind & Hh).
  assert (cleared n i a ad (rt_world r) b5) as Hcl by (split; [done|]; by exists b1, b2, prefixes, b3, owned, b4, l, info).
  apply bring_up_spec in Hm as [_ Hm]; [|done..]. cbn [rt_world set_world] in Hm. rewrite O in Hm.
  destruct x as [v|e]; cbn [rt_active rt_world].
  - by exists ad, b5.
  - destruct Hm as (? & ? & ?). split; [done|]. right. by exists ad, b5.
Qed.

Lemma start_host_again n i a (r r' : LinuxStarHostRuntime B) x h :
  rt_transition r = false -> rt_active r = Some h ->
  start_host n i a r = (x, r') ->
  r' = r /\ (x = Ok () <-> host_identity n i a h) /\ (x <> Ok () -> x = Err different_host).
Proof.
  intros Hf Ha (r1 & Hm & ->)%(with_transition_free _ _ _ _ Hf). cbn [rt_active] in Hm. rewrite Ha in Hm.
  injection Hm as <- <-. split; [destruct r; simpl in *; by subst|].
  unfold same_host_ownership, host_identity.
  destruct (decide (ah_network h = n)), (decide (ah_bridge h = i)), (decide (ah_address h = a));
    rewrite ?bool_decide_true, ?bool_decide_false by done; simpl; split; done || (split; [done|naive_solver]).
Qed.

(** *** Stopping a host *)

(** Each of the four cleanup steps ran: completely, or as far as it got. *)
Definition cleaned (h : ActiveLinuxStarHost) (w w' : HostWorld) : Prop :=
  exists c1 c2 c3 c4,
    c1 ∈ [id; unadvertised (ah_advertisement h)] /\ c2 ∈ [id; nap_stopped (ah_adapter h)] /\
    c3 ∈ [id; address_absent (ah_address h)] /\ c4 ∈ [id; profile_absent (ah_network h) (ah_bridge h)] /\
    w' = c4 (c3 (c2 (c1 w))).

Definition fully_cleaned (h : ActiveLinuxStarHost) (w : HostWorld) : HostWorld :=
  profile_absent (ah_network h) (ah_bridge h) (address_absent (ah_address h)
    (nap_stopped (ah_adapter h) (unadvertised (ah_advertisement h) w))).

Lemma cleanup_active_host_spec h (b b' : B) x :
  cleanup_active_host h b = (x, b') ->
  match x with
  | Ok _ => observed b' = fully_cleaned h (observed b)
  | Err _ => cleaned h (observed b) (observed b')
  end /\ (removals_reliable B -> x = Ok ()).
Proof.
  unfold cleanup_active_host.
  destruct (note_failure "stop discovery advertisement: " _ [] b) as [f1 b1] eqn:H1.
  destruct (note_failure "stop NAP: " _ f1 b1) as [f2 b2] eqn:H2.
  destruct (note_failure "remove address: " _ f2 b2) as [f3 b3] eqn:H3.
  destruct (note_failure "remove bridge: " _ f3 b3) as [f4 b4] eqn:H4. intros Hx.
  destruct (note_failure_effect _ _ _ _ _ _ _ _ (stop_advertisement_effect _) H1) as [(c1 & G1 & O1) N1].
  destruct (note_failure_effect _ _ _ _ _ _ _ _ (stop_nap_effect _) H2) as [(c2 & G2 & O2) N2].
  destruct (note_failure_effect _ _ _ _ _ _ _ _ (remove_address_effect _) H3) as [(c3 & G3 & O3) N3].
  destruct (note_failure_effect _ _ _ _ _ _ _ _ (remove_interface_effect _ _) H4) as [(c4 & G4 & O4) N4].
  split.
  - destruct f4 as [|f fs]; injection Hx as <- <-.
    + destruct (N4 eq_refl) as [E4 [E3 [E2 [E1 _]%N1]%N2]%N3]. unfold fully_cleaned. congruence.
    + exists c1, c2, c3, c4. rewrite O4, O3, O2, O1. set_solver.
  - intros (Ra & Ri & Rn & Rd).
    destruct (Rd (ah_advertisement h) b) as (d1 & D1). unfold note_failure in H1. rewrite D1 in H1. injection H1 as <- <-.
    destruct (Rn (ah_adapter h) d1) as (d2 & D2). unfold note_failure in H2. rewrite D2 in H2. injection H2 as <- <-.
    destruct (Ra (ah_address h) d2) as (d3 & D3). unfold note_failure in H3. rewrite D3 in H3. injection H3 as <- <-.
    destruct (Ri (ah_network h) (ah_bridge h) d3) as (d4 & D4). unfold note_failure in H4. rewrite D4 in H4. injection H4 as <- <-.
    by injection Hx as <- <-.
Qed.


Lemma owned_host_Ok n i a (r : LinuxStarHostRuntime B) h :
  owned_host r n i a = Ok h <-> rt_active r = Some h /\ host_identity n i a h.
Proof.
  unfold owned_host, host_identity. destruct (rt_active r) as [h'|]; [|naive_solver]. unfold guard_err.
  destruct (decide (ah_network h' = n)), (decide (ah_bridge h' = i)), (decide (ah_address h' = a));
    rewrite ?bool_decide_true, ?bool_decide_false by done; simpl; naive_solver.
Qed.

Lemma stop_host_run n i a (r r' : LinuxStarHostRuntime B) x :
  rt_transition r = false -> stop_host n i a r = (x, r') ->
  rt_transition r' = false /\
  match x with
  | Ok _ => rt_active r' = None /\
      exists h, rt_active r = Some h /\ host_identity n i a h /\
        observed (rt_world r') = fully_cleaned h (observed (rt_world r))
  | Err _ => rt_active r' = rt_active r /\
      (r' = r \/ exists h, rt_active r = Some h /\ host_identity n i a h /\
                  cleaned h (observed (rt_world r)) (observed (rt_world r')))
  end /\
  (removals_reliable B -> forall h, rt_active r = Some h -> host_identity n i a h -> x = Ok ()).
Proof.
  intros Hf (r1 & Hm & ->)%(with_transition_free _ _ _ _ Hf). split; [done|]. unfold st_bind in Hm.
  set (r0 := mkHostRuntime (rt_active r) true (rt_world r)) in Hm.
  destruct (owned_host r0 n i a) as [h|e] eqn:Ho; cycle 1.
  { injection Hm as <- <-. split.
    - split; [done|]. left. destruct r; simpl in *; by subst.
    - intros _ h Ha Hid. by rewrite (proj2 (owned_host_Ok n i a r0 h) (conj Ha Hid)) in Ho. }
  apply owned_host_Ok in Ho as [Ha Hid]. cbn [rt_active r0] in Ha. unfold on_world in Hm.
  cbn [rt_world r0] in Hm. destruct (cleanup_active_host h (rt_world r)) as [y b] eqn:Hc.
  destruct (cleanup_active_host_spec _ _ _ _ Hc) as [Hspec Hrel].
  destruct y as [[]|e]; cycle 1.
  { injection Hm as <- <-. cbn [rt_active rt_world set_world r0]. split.
    - split; [done|]. right. by exists h.
    - intros R. by specialize (Hrel R). }
  cbn [set_world rt_active r0] in Hm. rewrite Ha in Hm. rewrite (bool_decide_true _ (proj1 Hid)) in Hm.
  injection Hm as <- <-. split; [|done]. split; [done|]. by exists h.
Qed.

End proofs.

(** ** Claims *)

(** C23. Starting a NAP host is all or nothing, up to what a failed rollback or
    a failed call for the bridge leaves.  From an empty slot a start that
    succeeds has cleared the way (both services answered; the address shares no
    host with any active IPv4 prefix of positive length they listed, the one of
    this very address on this very bridge aside; the adapter is the first powered
    one) and leaves the network's bridge, its address, that adapter's NAP and the
    advertisement, nothing else changed, the slot filled with exactly that host.
    One that fails leaves the slot empty and either changed nothing or failed in
    the setup after clearing the way, touching only that profile and that
    adapter's NAP: when the bridge could not be ensured, exactly what that call
    left is left; when a later step failed and the removals work, the error is
    that step's, and the profile is gone, and the NAP with it if the NAP had been
    asked for, including a profile or a NAP from before the attempt.  From a
    state with neither of the two, failure with working removals therefore leaves
    everything as it was, except for a profile left by a failed call for the
    bridge.  With a host already active a start changes nothing, and succeeds
    exactly for the same network, bridge and address. *)
Theorem start_host_all_or_nothing {B : Type} `{LawfulHostBackends B} (n : NetworkId) (i : NetworkInterfaceHandle)
    (a : InterfaceAddress) (r r' : LinuxStarHostRuntime B) (x : CoreResult ())
    (Hfree : rt_transition r = false) (Howner : ia_owner a = n) (Hbridge : ia_interface a = i)
    (Hrun : start_host n i a r = (x, r')) :
  rt_transition r' = false /\
  match rt_active r with
  | None => started n i a r x r' /\
      forall e, x = Err e -> removals_reliable B ->
        w_profiles (observed (rt_world r)) !! (n, i) = None ->
        (forall ad b, cleared n i a ad (rt_world r) b -> w_naps (observed (rt_world r)) !! ad = None) ->
        observed (rt_world r') = observed (rt_world r) \/
        (observed (rt_world r') = profile_present n i (observed (rt_world r)) /\
         exists b, ensure_bridge n i b = (Err e, rt_world r'))
  | Some h => r' = r /\ (x = Ok () <-> host_identity n i a h) /\ (x <> Ok () -> x = Err different_host)
  end.
Proof.
  destruct (rt_active r) as [h|] eqn:Ha.
  - destruct (start_host_again _ _ _ _ _ _ _ Hfree Ha Hrun) as (-> & Hx). by split.
  - destruct (start_host_free _ _ _ _ _ _ Hfree Ha Howner Hbridge Hrun) as [Hf Hs]. split; [done|]. split; [done|].
    intros e -> R Hp Hn. destruct Hs as [_ [O|(ad & b & Hcl & _ & Hfail)]]; [by left|].
    specialize (Hn ad b Hcl). pose proof (proj1 Hcl) as O. rewrite <- O in *.
    destruct (setup_failed_clean _ _ _ _ _ _ _ Hfail R Hp Hn) as [?|[? ?]]; [by left|right; eauto].
Qed.

(** Stopping a NAP host succeeds only for the host in the slot, and then the
    slot is empty and its advertisement, NAP, address and bridge are gone; a
    stop that is refused changes nothing; one that fails keeps the slot, so it
    can be retried, and has attempted every cleanup step and nothing else; a
    stop of the active host whose removals work always succeeds. *)
Theorem stop_host_complete {B : Type} `{LawfulHostBackends B} (n : NetworkId) (i : NetworkInterfaceHandle)
    (a : InterfaceAddress) (r r' : LinuxStarHostRuntime B) (x : CoreResult ())
    (Hfree : rt_transition r = false) (Hrun : stop_host n i a r = (x, r')) :
  rt_transition r' = false /\
  match x with
  | Ok _ => rt_active r' = None /\
      exists h, rt_active r = Some h /\ host_identity n i a h /\
        observed (rt_world r') = fully_cleaned h (observed (rt_world r))
  | Err _ => rt_active r' = rt_active r /\
      (r' = r \/ exists h, rt_active r = Some h /\ host_identity n i a h /\
                  cleaned h (observed (rt_world r)) (observed (rt_world r')))
  end /\
  (removals_reliable B -> forall h, rt_active r = Some h -> host_identity n i a h -> x = Ok ()).
Proof. by apply stop_host_run. Qed.

(** ** A concrete backend *)

(** The world itself, with a flag per call that makes it fail without effect. *)
Record DemoBackends := mkDemoBackends {
  db_world : HostWorld;
  db_adapters : list BluetoothAdapter;
  db_foreign : list ActiveIpv4Prefix;
  db_nap_broken : bool;
  db_removal_broken : bool;
}.

Definition demo_failure : CoreError := core_error PanFailure "the backend failed".

Definition demo_change (broken : bool) (f : HostWorld -> HostWorld) : stres DemoBackends CoreError () := fun b =>
  if broken then (Err demo_failure, b) else
  (Ok (), mkDemoBackends (f (db_world b)) (db_adapters b) (db_foreign b) (db_nap_broken b) (db_removal_broken b)).

(** The addresses of the profiles. *)
Definition demo_owned_addresses (w : HostWorld) : list InterfaceAddress :=
  flat_map (fun e => (fun p => mkInterfaceAddress e.1.2 p e.1.1) <$> elements e.2) (map_to_list (w_profiles w)).

#[local] Instance demo_backends : HostBackends DemoBackends := {
  connect_bluez := st_ret ();
  connect_network_manager := st_ret ();
  active_ipv4_prefixes_with_interfaces := fun b => (Ok (db_foreign b), b);
  addresses := fun b => (Ok (demo_owned_addresses (db_world b)), b);
  adapters := fun b => (Ok (db_adapters b), b);
  ensure_bridge n i := demo_change false (profile_present n i);
  ensure_address a := demo_change false (address_present a);
  remove_address a := fun b => demo_change (db_removal_broken b) (address_absent a) b;
  remove_owned_interface n i := fun b => demo_change (db_removal_broken b) (profile_absent n i) b;
  start_nap a i := fun b => demo_change (db_nap_broken b) (nap_running a i) b;
  stop_nap a := fun b => demo_change (db_removal_broken b) (nap_stopped a) b;
  start_network_advertisement a n := let! _ := demo_change false (advertised (mkAdvertisement a n)) in
    st_ret (mkAdvertisement a n);
  stop_network_advertisement d := fun b => demo_change (db_removal_broken b) (unadvertised d) b;
}.

Lemma demo_change_effect (g : DemoBackends -> bool) f fs :
  id ∈ fs -> has_effect db_world (fun b => demo_change (g b) f b) f fs.
Proof. intros Hid b. unfold demo_change. destruct (g b); [by exists id|done]. Qed.
Lemma demo_query_effect {A : Type} (g : DemoBackends -> A) : has_effect db_world (fun b => (Ok (g b), b)) id [id].
Proof. intros b. done. Qed.

#[local] Instance demo_lawful_backends : LawfulHostBackends DemoBackends.
Proof.
  refine (Build_LawfulHostBackends _ _ db_world _ _ _ _ _ _ _ _ _ _ _ _ _ _); try (intros; apply demo_query_effect);
    try (intros; apply (demo_change_effect (fun _ => false)); by left);
    try (intros; apply (demo_change_effect db_removal_broken); by left);
    try (intros; apply (demo_change_effect db_nap_broken); by left).
  - intros a n b. done.
  - intros a n b b' d. by intros [= <- <-].
Defined.

Definition demo_host_network : NetworkId := fill_id 9.
Definition demo_bridge : NetworkInterfaceHandle := mkInterface [98; 114; 98]%Z.
Definition demo_host_address : InterfaceAddress :=
  mkInterfaceAddress demo_bridge (mkPrefix (V4 0x0ac90901) 24) demo_host_network.
Definition demo_hardware : AdapterHandle := mkAdapterHandle [104]%Z.
Definition demo_backend (nap_broken : bool) : DemoBackends :=
  mkDemoBackends (mkHostWorld ∅ ∅ ∅) [mkAdapter (mkAdapterHandle []) false; mkAdapter demo_hardware true]
    [mkActivePrefix None (mkPrefix (V4 0x0a000001) 24)] nap_broken false.
Definition demo_runtime (nap_broken : bool) : LinuxStarHostRuntime DemoBackends :=
  mkHostRuntime None false (demo_backend nap_broken).

(** One start that succeeds, one whose NAP fails and is rolled back. *)
Lemma start_host_all_or_nothing_witness :
  (exists h, rt_active (start_host demo_host_network demo_bridge demo_host_address (demo_runtime false)).2 = Some h /\
     ah_adapter h = demo_hardware) /\
  (start_host demo_host_network demo_bridge demo_host_address (demo_runtime true)).1 = Err demo_failure /\
  w_profiles (observed (rt_world (start_host demo_host_network demo_bridge demo_host_address (demo_runtime true)).2)) = ∅ /\
  started demo_host_network demo_bridge demo_host_address (demo_runtime true)
    (start_host demo_host_network demo_bridge demo_host_address (demo_runtime true)).1
    (start_host demo_host_network demo_bridge demo_host_address (demo_runtime true)).2.
Proof.
  split; [eexists; split; [vm_compute; reflexivity|reflexivity]|].
  split; [vm_compute; reflexivity|]. split; [vm_compute; reflexivity|].
  destruct (start_host_all_or_nothing demo_host_network demo_bridge demo_host_address (demo_runtime true)
    (start_host demo_host_network demo_bridge demo_host_address (demo_runtime true)).2
    (start_host demo_host_network demo_bridge demo_host_address (demo_runtime true)).1
    eq_refl eq_refl eq_refl (surjective_pairing _)) as [_ [Hstarted _]].
  exact Hstarted.
Defined.

Definition demo_hosting : LinuxStarHostRuntime DemoBackends :=
  (start_host demo_host_network demo_bridge demo_host_address (demo_runtime false)).2.

Lemma stop_host_complete_witness :
  (stop_host demo_host_network demo_bridge demo_host_address demo_hosting).1 = Ok () /\
  rt_active (stop_host demo_host_network demo_bridge demo_host_address demo_hosting).2 = None /\
  rt_transition (stop_host demo_host_network demo_bridge demo_host_address demo_hosting).2 = false.
Proof.
  split; [vm_compute; reflexivity|]. split; [vm_compute; reflexivity|].
  destruct (stop_host_complete demo_host_network demo_bridge demo_host_address demo_hosting
    (stop_host demo_host_network demo_bridge demo_host_address demo_hosting).2
    (stop_host demo_host_network demo_bridge demo_host_address demo_hosting).1
    eq_refl (surjective_pairing _)) as [Hfree _].
  exact Hfree.
Defined.
