(* ===== verification/SingleStar.v ===== *)
(** The network operations of the daemon: [SingleStarNetworkOperations] of
    [apps/daemon/src/single_star.rs].

    The membership file is behind [RegistryStore], the random source of network
    identities behind [NetworkIdGenerator] and the host runtime behind
    [StarHostRuntime], which [StarHost] implements.  A save that fails may have
    replaced the file all the same ([DurableStores.ms_saved] shows that a
    directory that cannot be synced does so). *)

From S2P Require Import Prelude Order Ident Capability Addressing LinuxRoutes StarHost Membership PeerPins PeerTrust.

(** ** What the operations rely on *)

Class RegistryStore (M : Type) := {
  store_load : stres M CoreError MembershipRegistry;
  store_save : MembershipRegistry -> stres M CoreError ();
}.
Class NetworkIdGenerator (G : Type) := { generate : stres G CoreError NetworkId }.
Class StarHostRuntime (R : Type) := {
  runtime_start_host : NetworkId -> NetworkInterfaceHandle -> InterfaceAddress -> stres R CoreError ();
  runtime_stop_host : NetworkId -> NetworkInterfaceHandle -> InterfaceAddress -> stres R CoreError ();
}.

(** ** Pure helpers *)

Definition MAX_ADDRESS_CONFLICT_RETRIES : nat := 16.

Definition ensure_nap_capability (c : NodeCapabilities) : CoreResult () :=
  match can_host_pan c with
  | Some true => Ok ()
  | Some false => Err (core_error CapabilityUnavailable "this Linux node does not expose BlueZ NAP capability")
  | None => Err (core_error CapabilityUnavailable "BlueZ NAP capability is unknown; refusing to create a hosted network")
  end.

(** [brb-] and the first eight hexadecimal digits. *)
Definition bridge_name (n : NetworkId) : CoreResult NetworkInterfaceHandle :=
  interface_new ([98; 114; 98; 45] ++ take 8 (id_to_string n))%Z.

Definition local_star_address (n : NetworkId) (c : DaemonConfig) : CoreResult InterfaceAddress :=
  _ ← config_validate c;
  plan ← for_network n (ipv4_address_pool c);
  bridge ← bridge_name n;
  Ok (mkInterfaceAddress bridge (host plan) n).

(** ** The operations *)

Record SingleStar (M R G : Type) := mkSingleStar {
  ss_store : M;
  ss_runtime : R;
  ss_generator : G;
  ss_creating : bool;
}.
#[global] Arguments mkSingleStar {M R G} _ _ _ _.
#[global] Arguments ss_store {M R G} _.
#[global] Arguments ss_runtime {M R G} _.
#[global] Arguments ss_generator {M R G} _.
#[global] Arguments ss_creating {M R G} _.

Section operations.
Context {M R G : Type} `{RegistryStore M} `{StarHostRuntime R} `{NetworkIdGenerator G}.
Context (config : DaemonConfig) (capabilities : NodeCapabilities).

Abbreviation op A := (stres (SingleStar M R G) CoreError A).

Definition on_store {A : Type} (m : stres M CoreError A) : op A := fun s =>
  let (x, t) := m (ss_store s) in (x, mkSingleStar t (ss_runtime s) (ss_generator s) (ss_creating s)).
Definition on_runtime {A : Type} (m : stres R CoreError A) : op A := fun s =>
  let (x, t) := m (ss_runtime s) in (x, mkSingleStar (ss_store s) t (ss_generator s) (ss_creating s)).
Definition on_generator {A : Type} (m : stres G CoreError A) : op A := fun s =>
  let (x, t) := m (ss_generator s) in (x, mkSingleStar (ss_store s) (ss_runtime s) t (ss_creating s)).

(** [TransitionGuard] on the [creating] flag. *)
Definition creating {A : Type} (m : op A) : op A := fun s =>
  if ss_creating s then (Err transition_busy, s) else
  let (x, s') := m (mkSingleStar (ss_store s) (ss_runtime s) (ss_generator s) true) in
  (x, mkSingleStar (ss_store s') (ss_runtime s') (ss_generator s') false).

Definition no_unique_identity : CoreError :=
  core_error Internal "failed to generate a unique BlueRoute network identity".

Fixpoint unique_network_id (tries : nat) (registry : MembershipRegistry) (attempted : gset NetworkId) : op NetworkId :=
  match tries with
  | O => st_fail no_unique_identity
  | S tries' =>
      let! candidate := on_generator generate in
      if bool_decide (network_of candidate registry = None) && bool_decide (candidate ∉ attempted)
      then st_ret candidate else unique_network_id tries' registry attempted
  end.

Definition no_free_segment (last_conflict : option CoreError) : CoreError :=
  core_error_with_diagnostic AddressConflict "failed to select a conflict-free BlueRoute IPv4 segment"
    ("attempted {} network identities; last conflict: "
     ++ match last_conflict with Some e => message e | None => "no conflict diagnostic was recorded" end)%string.

(** The loop that looks for a segment no active network uses; each round
    attempts one more identity, so the bound of the code is reached after
    [MAX_ADDRESS_CONFLICT_RETRIES] rounds. *)
Fixpoint start_some_host (rounds : nat) (registry : MembershipRegistry) (attempted : gset NetworkId)
    (last_conflict : option CoreError) : op (NetworkId * NetworkInterfaceHandle * InterfaceAddress) :=
  if (MAX_ADDRESS_CONFLICT_RETRIES <=? size attempted)%nat then st_fail (no_free_segment last_conflict) else
  match rounds with
  | O => st_fail (no_free_segment last_conflict)
  | S rounds' =>
      let! network := unique_network_id 16 registry attempted in
      let! bridge := st_lift (bridge_name network) in
      let! address := st_lift (local_star_address network config) in
      fun s =>
        match on_runtime (runtime_start_host network bridge address) s with
        | (Ok _, s') => (Ok (network, bridge, address), s')
        | (Err e, s') =>
            if bool_decide (kind e = AddressConflict)
            then start_some_host rounds' registry ({[network]} ∪ attempted) (Some e) s'
            else (Err e, s')
        end
  end.

(** A failed save is undone by [undo]; the error says when that failed too. *)
Definition save_or_undo (registry : MembershipRegistry) (undo : stres R CoreError ()) (note : string) : op () := fun s =>
  match on_store (store_save registry) s with
  | (Ok _, s') => (Ok (), s')
  | (Err persist_error, s') =>
      match on_runtime undo s' with
      | (Ok _, s'') => (Err persist_error, s'')
      | (Err e, s'') => (Err (core_error_with_diagnostic PersistenceError (message persist_error) (note ++ message e)%string), s'')
      end
  end.

Definition with_state (m : NetworkMembership) (s : MembershipState) : NetworkMembership :=
  mkMembership (network_id m) (network_name m) s (peers m).

Definition already_member : CoreError :=
  core_error InvalidState "this daemon already belongs to a BlueRoute network".

Definition create_network (name : DisplayName) : op NetworkId := creating (
  let! _ := st_lift (ensure_nap_capability capabilities) in
  let! registry := on_store store_load in
  let! current := st_lift (current_network registry) in
  let! _ := st_lift (guard_err (bool_decide (is_Some current)) already_member (Ok ())) in
  let! started := start_some_host MAX_ADDRESS_CONFLICT_RETRIES registry ∅ None in
  let '(network, bridge, address) := started in
  let membership := membership_new network name in
  let! joining := st_lift (transition (m_state membership) Joining) in
  let! member := st_lift (transition joining Member) in
  let registry := (remember_network (with_state membership member) registry).2 in
  let! _ := save_or_undo registry (runtime_stop_host network bridge address)
    "durable membership commit failed and runtime rollback also failed: " in
  st_ret network).

(** The membership a completed leave records. *)
Definition clear_peers (m : NetworkMembership) : NetworkMembership :=
  foldl (fun m peer => (set_peer_member peer false m).2) m (pm_node <$> values (peers m)).

Definition leave_network : op () := creating (
  let! registry := on_store store_load in
  let! current := st_lift (current_network registry) in
  match current with
  | None => st_ret ()
  | Some network =>
      match network_of network registry with
      | None => st_fail (core_error InvalidState "active BlueRoute membership is missing from durable state")
      | Some membership =>
          let! bridge := st_lift (bridge_name network) in
          let! address := st_lift (local_star_address network config) in
          let! _ := on_runtime (runtime_stop_host network bridge address) in
          let! leaving := st_lift (transition (m_state membership) Leaving) in
          let! ended := st_lift (transition leaving NotMember) in
          let registry := network_mut network (fun m => clear_peers (with_state m ended)) registry in
          save_or_undo registry (runtime_start_host network bridge address)
            "durable leave failed and host runtime restoration also failed: "
      end
  end).

Definition reconcile_on_startup : op () := creating (
  let! registry := on_store store_load in
  let! current := st_lift (current_network registry) in
  match current with
  | None => st_ret ()
  | Some network =>
      let! _ := st_lift (ensure_nap_capability capabilities) in
      let! bridge := st_lift (bridge_name network) in
      let! address := st_lift (local_star_address network config) in
      on_runtime (runtime_start_host network bridge address)
  end).

End operations.

(** The production runtime. *)
#[global] Instance linux_star_host_runtime (B : Type) `{HostBackends B} : StarHostRuntime (LinuxStarHostRuntime B) := {
  runtime_start_host := start_host;
  runtime_stop_host := stop_host;
}.

(** ** What they promise *)

Definition hosted := (NetworkId * NetworkInterfaceHandle * InterfaceAddress)%type.

(** [runtime_ready] is a runtime no other transition holds. *)
Class LawfulRuntime (R : Type) `{StarHostRuntime R} := {
  runtime_ready : R -> Prop;
  hosting : R -> option hosted;
  runtime_start_law n i a (r r' : R) x :
    runtime_ready r -> ia_owner a = n -> ia_interface a = i -> runtime_start_host n i a r = (x, r') ->
    runtime_ready r' /\
    match x with
    | Ok _ => hosting r' = Some (n, i, a) /\ (hosting r = None \/ hosting r = Some (n, i, a))
    | Err _ => hosting r' = hosting r
    end;
  runtime_stop_law n i a (r r' : R) x :
    runtime_ready r -> runtime_stop_host n i a r = (x, r') ->
    runtime_ready r' /\
    match x with
    | Ok _ => hosting r = Some (n, i, a) /\ hosting r' = None
    | Err _ => hosting r' = hosting r
    end;
}.

Class LawfulRegistryStore (M : Type) `{RegistryStore M} := {
  stored : M -> MembershipRegistry;
  store_load_law (m m' : M) x : store_load m = (x, m') ->
    stored m' = stored m /\ (forall r, x = Ok r -> r = stored m);
  store_save_law r (m m' : M) x : store_save r m = (x, m') ->
    match x with Ok _ => stored m' = r | Err _ => stored m' = stored m \/ stored m' = r end;
}.

Lemma started_runtime {B : Type} `{LawfulHostBackends B} n i a (r r' : LinuxStarHostRuntime B) x :
  rt_transition r = false -> ia_owner a = n -> ia_interface a = i -> start_host n i a r = (x, r') ->
  let hosting := fun r : LinuxStarHostRuntime B => (fun h => (ah_network h, ah_bridge h, ah_address h)) <$> rt_active r in
  rt_transition r' = false /\
  match x with
  | Ok _ => hosting r' = Some (n, i, a) /\ (hosting r = None \/ hosting r = Some (n, i, a))
  | Err _ => hosting r' = hosting r
  end.
Proof.
  intros Hf Ho Hi Hrun hosting. destruct (rt_active r) as [h|] eqn:Ha.
  - destruct (start_host_again _ _ _ _ _ _ _ Hf Ha Hrun) as (-> & Hid & _). split; [done|].
    destruct x as [[]|e]; [|done]. unfold hosting. rewrite Ha.
    destruct (proj1 Hid eq_refl) as (<- & <- & <-). by split; [|right].
  - destruct (start_host_free _ _ _ _ _ _ Hf Ha Ho Hi Hrun) as (Hf' & Hs). split; [done|]. unfold hosting. rewrite Ha.
    destruct x as [[]|e]; simpl in Hs.
    + destruct Hs as (ad & b & _ & -> & _). by split; [|left].
    + destruct Hs as [-> _]. done.
Qed.

Lemma stopped_runtime {B : Type} `{LawfulHostBackends B} n i a (r r' : LinuxStarHostRuntime B) x :
  rt_transition r = false -> stop_host n i a r = (x, r') ->
  let hosting := fun r : LinuxStarHostRuntime B => (fun h => (ah_network h, ah_bridge h, ah_address h)) <$> rt_active r in
  rt_transition r' = false /\
  match x with
  | Ok _ => hosting r = Some (n, i, a) /\ hosting r' = None
  | Err _ => hosting r' = hosting r
  end.
Proof.
  intros Hf Hrun hosting. destruct (stop_host_run _ _ _ _ _ _ Hf Hrun) as (Hf' & Hx & _). split; [done|]. unfold hosting.
  destruct x as [[]|e].
  - destruct Hx as (-> & h & -> & (<- & <- & <-) & _). done.
  - by destruct Hx as [-> _].
Qed.

#[global] Instance linux_star_host_lawful (B : Type) `{LawfulHostBackends B} : LawfulRuntime (LinuxStarHostRuntime B) := {
  runtime_ready := fun r => rt_transition r = false;
  hosting := fun r => (fun h => (ah_network h, ah_bridge h, ah_address h)) <$> rt_active r;
  runtime_start_law := started_runtime;
  runtime_stop_law := stopped_runtime;
}.

(** ** The current network of a registry *)

(** The entries of a registry are under their own identities. *)
Definition registry_indexed (r : MembershipRegistry) : Prop :=
  map_Forall (fun n m => network_id m = n /\ peers_keyed m) (networks r).

Definition member_entries (r : MembershipRegistry) : list (NetworkId * NetworkMembership) :=
  filter (fun kv => m_state kv.2 = Member) (iter_map (networks r)).

Lemma elem_of_member_entries r k m :
  (k, m) ∈ member_entries r <-> networks r !! k = Some m /\ m_state m = Member.
Proof. unfold member_entries. rewrite list_elem_of_filter, elem_of_iter_map. simpl. tauto. Qed.

Lemma member_entries_NoDup r : NoDup (member_entries r).*1.
Proof.
  apply (sublist_NoDup _ (keys (networks r))); [apply NoDup_keys|apply fmap_sublist, sublist_filter].
Qed.

Lemma member_ids r :
  registry_indexed r -> network_id <$> filter (fun m => m_state m = Member) (values (networks r)) = (member_entries r).*1.
Proof.
  intros Hk. unfold member_entries, values.
  assert (forall kv, kv ∈ iter_map (networks r) -> network_id kv.2 = kv.1) as Hid.
  { intros [k m] Hkv%elem_of_iter_map. by apply (Hk k m). }
  revert Hid. induction (iter_map (networks r)) as [|[k m] l IH]; intros Hid; [done|]. cbn [fmap list_fmap snd].
  rewrite !filter_cons. cbn [snd]. destruct (decide (m_state m = Member)).
  - cbn [fmap list_fmap fst]. f_equal; [apply (Hid (k, m)); by left|]. apply IH. intros kv Hkv. apply Hid. by right.
  - apply IH. intros kv Hkv. apply Hid. by right.
Qed.

Lemma current_network_None r :
  registry_indexed r -> current_network r = Ok None <-> forall k m, networks r !! k = Some m -> m_state m <> Member.
Proof.
  intros Hk. unfold current_network. rewrite (member_ids r Hk).
  destruct ((member_entries r).*1) as [|k [|k' l]] eqn:Hl.
  - split; [|done]. intros _ k m Hm Hs. assert ((k, m) ∈ member_entries r) as Hin by by apply elem_of_member_entries.
    apply (list_elem_of_fmap_2 fst) in Hin. rewrite Hl in Hin. by apply elem_of_nil in Hin.
  - split; [done|]. intros Hall. assert (k ∈ (member_entries r).*1) as Hin by (rewrite Hl; by left).
    apply list_elem_of_fmap in Hin as ([j m] & -> & [Hm Hs]%elem_of_member_entries). by destruct (Hall j m Hm).
  - split; [done|]. intros Hall. assert (k ∈ (member_entries r).*1) as Hin by (rewrite Hl; by left).
    apply list_elem_of_fmap in Hin as ([j m] & -> & [Hm Hs]%elem_of_member_entries). by destruct (Hall j m Hm).
Qed.

Lemma current_network_Some r n :
  registry_indexed r -> current_network r = Ok (Some n) <->
  forall k, (exists m, networks r !! k = Some m /\ m_state m = Member) <-> k = n.
Proof.
  intros Hk. unfold current_network. rewrite (member_ids r Hk).
  assert (forall k, k ∈ (member_entries r).*1 <-> exists m, networks r !! k = Some m /\ m_state m = Member) as Hin.
  { intros k. rewrite list_elem_of_fmap. split.
    - intros ([j m] & -> & Hm%elem_of_member_entries). by exists m.
    - intros (m & Hm%elem_of_member_entries). by exists (k, m). }
  pose proof (member_entries_NoDup r) as Hnd. setoid_rewrite <- Hin. clear Hin.
  destruct ((member_entries r).*1) as [|k [|k' l]].
  - split; [done|]. intros Hall. by destruct (proj1 (elem_of_nil n) (proj2 (Hall n) eq_refl)).
  - split.
    + intros [= ->] j. apply list_elem_of_singleton.
    + intros Hall. f_equal. f_equal. apply Hall. by left.
  - split; [done|]. intros Hall. exfalso. apply NoDup_cons in Hnd as [Hk' _]. apply Hk'.
    assert (k = n) as -> by (apply Hall; by left). assert (k' = n) as -> by (apply Hall; right; by left). by left.
Qed.

(** *** What a create and a leave record *)

Definition joined (n : NetworkId) (name : DisplayName) (r : MembershipRegistry) : MembershipRegistry :=
  mkRegistry (<[n := mkMembership n name Member ∅]> (networks r)).
Definition withdrawn (n : NetworkId) (r : MembershipRegistry) : MembershipRegistry :=
  network_mut n (fun m => clear_peers (with_state m NotMember)) r.

Lemma joined_indexed n name r : registry_indexed r -> registry_indexed (joined n name r).
Proof. intros Hr. apply map_Forall_insert_2; [|exact Hr]. split; [done|]. intros p e. simpl. by rewrite lookup_empty. Qed.

Lemma joined_current n name r :
  registry_indexed r -> current_network r = Ok None -> current_network (joined n name r) = Ok (Some n).
Proof.
  intros Hr Hn. apply current_network_Some; [by apply joined_indexed|]. rewrite current_network_None in Hn by done.
  intros k. simpl. split.
  - intros (m & Hm & Hs). destruct (decide (k = n)) as [->|Hne]; [done|]. rewrite lookup_insert_ne in Hm by done.
    by destruct (Hn k m Hm).
  - intros ->. rewrite lookup_insert_eq. by eexists.
Qed.

(** Leaving keeps a network's name and what is known and trusted of its peers;
    none of them is a member any more. *)
Lemma clear_peers_spec m :
  peers_keyed m ->
  network_id (clear_peers m) = network_id m /\ network_name (clear_peers m) = network_name m /\
  m_state (clear_peers m) = m_state m /\ peers_keyed (clear_peers m) /\
  forall p, peers (clear_peers m) !! p = (fun e => mkPeer (pm_node e) false (trusted e)) <$> peers m !! p.
Proof.
  intros Hk. unfold clear_peers.
  assert (forall l acc, (forall p, p ∈ l -> is_Some (peers acc !! p)) ->
    let acc' := foldl (fun m peer => (set_peer_member peer false m).2) acc l in
    network_id acc' = network_id acc /\ network_name acc' = network_name acc /\ m_state acc' = m_state acc /\
    forall p, peers acc' !! p = if decide (p ∈ l) then (fun e => mkPeer (pm_node e) false (trusted e)) <$> peers acc !! p
                              else peers acc !! p) as Hgen.
  { induction l as [|q l IH]; intros acc Hin; cbn [foldl].
    - split_and!; [done..|]. intros p. by rewrite decide_False by apply not_elem_of_nil.
    - assert (exists e, peers acc !! q = Some e) as [e He] by (apply Hin; by left).
      destruct (IH (set_peer_member q false acc).2) as (H1 & H2 & H3 & H4).
      { intros p Hp. simpl. destruct (decide (p = q)) as [->|]; [rewrite lookup_insert_eq; by eexists|].
        rewrite lookup_insert_ne by done. apply Hin. by right. }
      split_and!; [by rewrite H1|by rewrite H2|by rewrite H3|]. intros p. rewrite H4. simpl.
      destruct (decide (p = q)) as [->|Hne].
      + rewrite lookup_insert_eq. unfold peer_or_new. rewrite He. simpl.
        rewrite (decide_True (P := q ∈ q :: l)) by by left. by destruct (decide (q ∈ l)).
      + rewrite lookup_insert_ne by done. destruct (decide (p ∈ l)) as [Hp|Hp].
        * by rewrite decide_True by by right.
        * rewrite decide_False; [done|]. rewrite elem_of_cons. naive_solver. }
  destruct (Hgen (pm_node <$> values (peers m)) m) as (H1 & H2 & H3 & H4).
  { intros p (e & -> & [k He]%elem_of_values)%list_elem_of_fmap. rewrite (Hk k e He). by exists e. }
  assert (forall p, peers (foldl (fun m peer => (set_peer_member peer false m).2) m (pm_node <$> values (peers m))) !! p =
    (fun e => mkPeer (pm_node e) false (trusted e)) <$> peers m !! p) as Hp.
  { intros p. rewrite H4. destruct (decide _) as [Hin|Hin]; [done|]. destruct (peers m !! p) as [e|] eqn:He; [|done].
    destruct Hin. apply list_elem_of_fmap. exists e. split; [symmetry; by apply Hk|]. apply elem_of_values. by exists p. }
  split_and!; [done..| |exact Hp]. intros p e. rewrite Hp. intros (e' & He & ->)%fmap_Some. simpl. by apply Hk.
Qed.

Lemma withdrawn_indexed n r : registry_indexed r -> registry_indexed (withdrawn n r).
Proof.
  intros Hr k m Hm. unfold withdrawn, network_mut in Hm. cbn [networks] in Hm.
  destruct (decide (k = n)) as [->|Hne].
  - rewrite lookup_alter_eq in Hm. apply fmap_Some in Hm as (m0 & Hm0 & ->). destruct (Hr n m0 Hm0) as [Hid Hpk].
    destruct (clear_peers_spec (with_state m0 NotMember)) as (-> & _ & _ & Hk & _); [exact Hpk|]. done.
  - rewrite lookup_alter_ne in Hm by done. by apply Hr.
Qed.

Lemma withdrawn_current n r :
  registry_indexed r -> current_network r = Ok (Some n) -> current_network (withdrawn n r) = Ok None.
Proof.
  intros Hr Hc. apply current_network_None; [by apply withdrawn_indexed|]. rewrite current_network_Some in Hc by done.
  intros k m. unfold withdrawn, network_mut. cbn [networks]. destruct (decide (k = n)) as [->|Hne].
  - rewrite lookup_alter_eq. intros (m0 & Hm0 & ->)%fmap_Some. destruct (Hr n m0 Hm0) as [_ Hpk].
    by destruct (clear_peers_spec (with_state m0 NotMember)) as (_ & _ & -> & _); [exact Hpk|].
  - rewrite lookup_alter_ne by done. intros Hm Hs. apply Hne, Hc. by exists m.
Qed.

(** ** The operations' outcomes *)

Section outcomes.
Context {M R G : Type} `{LawfulRegistryStore M} `{LawfulRuntime R} `{NetworkIdGenerator G}.
Context (config : DaemonConfig) (capabilities : NodeCapabilities).

Abbreviation state := (SingleStar M R G).

Definition reg (s : state) : MembershipRegistry := stored (ss_store s).
Definition host_of (s : state) : option hosted := hosting (ss_runtime s).

(** No transition is under way, here or in the runtime, and the stored
    registry is indexed. *)
Definition quiescent (s : state) : Prop :=
  ss_creating s = false /\ runtime_ready (ss_runtime s) /\ registry_indexed (reg s).

(** The bridge and address the configuration gives a network. *)
Definition planned (n : NetworkId) (h : hosted) : Prop :=
  exists i a, bridge_name n = Ok i /\ local_star_address n config = Ok a /\ h = (n, i, a).

Lemma local_star_address_Ok n a :
  local_star_address n config = Ok a -> ia_owner a = n /\ bridge_name n = Ok (ia_interface a).
Proof.
  unfold local_star_address. intros (_ & _ & (plan & _ & (i & Hi & [= <-])%result_bind_Ok)%result_bind_Ok)%result_bind_Ok.
  done.
Qed.

Lemma planned_consistent n i a :
  bridge_name n = Ok i -> local_star_address n config = Ok a -> ia_owner a = n /\ ia_interface a = i.
Proof. intros Hi Ha. destruct (local_star_address_Ok n a Ha) as [Ho Hb]. split; [done|]. congruence. Qed.

Lemma unique_network_id_spec tries registry attempted (s s' : state) x :
  unique_network_id tries registry attempted s = (x, s') ->
  ss_store s' = ss_store s /\ ss_runtime s' = ss_runtime s /\ ss_creating s' = ss_creating s /\
  forall n, x = Ok n -> network_of n registry = None /\ n ∉ attempted.
Proof.
  revert s. induction tries as [|tries IH]; intros s; cbn [unique_network_id]; [by intros [= <- <-]|].
  unfold st_bind, on_generator. destruct (generate (ss_generator s)) as [[c|e] g]; [|by intros [= <- <-]].
  destruct (bool_decide (network_of c registry = None) && bool_decide (c ∉ attempted)) eqn:Hb.
  - intros [= <- <-]. split_and!; [done..|]. intros n [= <-].
    by apply andb_true_iff in Hb as [Hb1%bool_decide_eq_true Hb2%bool_decide_eq_true].
  - intros Hrun%IH. exact Hrun.
Qed.

Lemma on_runtime_start n i a (s s' : state) x :
  runtime_ready (ss_runtime s) -> ia_owner a = n -> ia_interface a = i ->
  on_runtime (runtime_start_host n i a) s = (x, s') ->
  ss_store s' = ss_store s /\ ss_creating s' = ss_creating s /\ runtime_ready (ss_runtime s') /\
  match x with
  | Ok _ => host_of s' = Some (n, i, a) /\ (host_of s = None \/ host_of s = Some (n, i, a))
  | Err _ => host_of s' = host_of s
  end.
Proof.
  intros Hr Ho Hi. unfold on_runtime. destruct (runtime_start_host n i a (ss_runtime s)) as [y t] eqn:Hs.
  intros [= <- <-]. split; [done|]. split; [done|]. by apply (runtime_start_law _ _ _ _ _ _ Hr Ho Hi Hs).
Qed.
Lemma on_runtime_stop n i a (s s' : state) x :
  runtime_ready (ss_runtime s) -> on_runtime (runtime_stop_host n i a) s = (x, s') ->
  ss_store s' = ss_store s /\ ss_creating s' = ss_creating s /\ runtime_ready (ss_runtime s') /\
  match x with
  | Ok _ => host_of s = Some (n, i, a) /\ host_of s' = None
  | Err _ => host_of s' = host_of s
  end.
Proof.
  intros Hr. unfold on_runtime. destruct (runtime_stop_host n i a (ss_runtime s)) as [y t] eqn:Hs.
  intros [= <- <-]. split; [done|]. split; [done|]. by apply (runtime_stop_law _ _ _ _ _ _ Hr Hs).
Qed.

Lemma start_some_host_spec rounds registry attempted last (s s' : state) x :
  runtime_ready (ss_runtime s) ->
  start_some_host config rounds registry attempted last s = (x, s') ->
  ss_store s' = ss_store s /\ ss_creating s' = ss_creating s /\ runtime_ready (ss_runtime s') /\
  match x with
  | Ok (n, i, a) => network_of n registry = None /\ (n ∉ attempted) /\ bridge_name n = Ok i /\ local_star_address n config = Ok a /\
      host_of s' = Some (n, i, a) /\ (host_of s = None \/ host_of s = Some (n, i, a))
  | Err _ => host_of s' = host_of s
  end.
Proof.
  revert attempted last s. induction rounds as [|rounds IH]; intros attempted last s Hr; cbn [start_some_host];
    (destruct (_ <=? _); [by intros [= <- <-]|]); [by intros [= <- <-]|].
  unfold st_bind, st_lift.
  destruct (unique_network_id 16 registry attempted s) as [[n|e] s1] eqn:Hu;
    destruct (unique_network_id_spec _ _ _ _ _ _ Hu) as (U1 & U2 & U3 & U4); cycle 1.
  { intros [= <- <-]. unfold host_of. rewrite U2. done. }
  destruct (U4 n eq_refl) as [Hfresh Hatt].
  destruct (bridge_name n) as [i|e] eqn:Hi; [|intros [= <- <-]; unfold host_of; rewrite U2; done].
  destruct (local_star_address n config) as [a|e] eqn:Ha; [|intros [= <- <-]; unfold host_of; rewrite U2; done].
  destruct (planned_consistent n i a Hi Ha) as [Ho Hia].
  destruct (on_runtime (runtime_start_host n i a) s1) as [y s2] eqn:Hs.
  apply on_runtime_start in Hs as (S1 & S2 & S3 & S4); [|by rewrite U2|done..].
  destruct y as [[]|e].
  - intros [= <- <-]. split; [congruence|]. split; [congruence|]. split; [done|]. unfold host_of in *. rewrite U2 in S4.
    destruct S4. split_and!; done.
  - destruct (bool_decide _); cycle 1.
    { intros [= <- <-]. split; [congruence|]. split; [congruence|]. split; [done|]. rewrite S4. unfold host_of. by rewrite U2. }
    intros Hrun%IH; [|done]. destruct Hrun as (R1 & R2 & R3 & R4). split; [congruence|]. split; [congruence|]. split; [done|].
    assert (host_of s2 = host_of s) as Hh by (rewrite S4; unfold host_of; by rewrite U2).
    destruct x as [[[n' i'] a']|e']; [|congruence]. destruct R4 as (Q1 & Q2 & Q3 & Q4 & Q5 & Q6). rewrite Hh in Q6.
    split_and!; [done|set_solver|done..].
Qed.


Lemma save_or_undo_spec registry undo note (s s' : state) x :
  save_or_undo registry undo note s = (x, s') ->
  match x with
  | Ok _ => reg s' = registry /\ ss_runtime s' = ss_runtime s /\ ss_creating s' = ss_creating s
  | Err e => (reg s' = reg s \/ reg s' = registry) /\ ss_creating s' = ss_creating s /\
      exists y, undo (ss_runtime s) = (y, ss_runtime s') /\ (y <> Ok () -> kind e = PersistenceError) /\
      exists e0 m, store_save registry (ss_store s) = (Err e0, m) /\ message e = message e0 /\ reg s' = stored m
  end.
Proof.
  unfold save_or_undo, on_store, on_runtime. pose proof (store_save_law registry (ss_store s)) as Hl.
  destruct (store_save registry (ss_store s)) as [[[]|e0] m] eqn:Hs; specialize (Hl m _ eq_refl).
  - intros [= <- <-]. done.
  - cbn [ss_runtime ss_store]. destruct (undo (ss_runtime s)) as [[[]|e] t] eqn:Hu; intros [= <- <-].
    + split; [exact Hl|]. split; [done|]. exists (Ok ()). split_and!; [done|done|]. by exists e0, m.
    + split; [exact Hl|]. split; [done|]. exists (Err e). split_and!; [done|done|]. by exists e0, m.
Qed.

Lemma creating_run {A : Type} (m : stres state CoreError A) (s s' : state) x :
  ss_creating s = false -> creating m s = (x, s') ->
  exists s1, m (mkSingleStar (ss_store s) (ss_runtime s) (ss_generator s) true) = (x, s1) /\
    s' = mkSingleStar (ss_store s1) (ss_runtime s1) (ss_generator s1) false.
Proof. intros Hc. unfold creating. rewrite Hc. destruct (m _) as [y s1]. intros [= <- <-]. by exists s1. Qed.

Lemma on_store_load (s s' : state) x :
  on_store store_load s = (x, s') ->
  reg s' = reg s /\ ss_runtime s' = ss_runtime s /\ ss_creating s' = ss_creating s /\ forall r, x = Ok r -> r = reg s.
Proof.
  unfold on_store. destruct (store_load (ss_store s)) as [y m] eqn:Hl. destruct (store_load_law _ _ _ Hl) as [L1 L2].
  intros [= <- <-]. split_and!; [exact L1|done|done|exact L2].
Qed.

(** A runtime that could not stop the host it had. *)
Definition stop_failed (h : hosted) : Prop :=
  exists (r r' : R) e, runtime_ready r /\ hosting r = Some h /\ runtime_stop_host h.1.1 h.1.2 h.2 r = (Err e, r').

(** The outcome of a create: a membership of a fresh network whose host runs;
    or nothing; or a failed save, which was undone or says that it was not. *)
Definition create_failed_save (name : DisplayName) (s s' : state) (e : CoreError) : Prop :=
  exists n h e0 m, network_of n (reg s) = None /\ planned n h /\
    store_save (joined n name (reg s)) (ss_store s) = (Err e0, m) /\ message e = message e0 /\
    reg s' = stored m /\ (host_of s' = None \/ (host_of s' = Some h /\ kind e = PersistenceError /\ stop_failed h)).

Definition created (name : DisplayName) (s : state) (x : CoreResult NetworkId) (s' : state) : Prop :=
  match x with
  | Ok n => current_network (reg s) = Ok None /\ network_of n (reg s) = None /\
      reg s' = joined n name (reg s) /\ current_network (reg s') = Ok (Some n) /\
      exists h, planned n h /\ host_of s' = Some h
  | Err e => (reg s' = reg s /\ host_of s' = host_of s) \/
      (current_network (reg s) = Ok None /\ exists s0 : state, reg s0 = reg s /\ create_failed_save name s0 s' e)
  end.

Lemma create_network_run name (s s' : state) x :
  quiescent s -> create_network config capabilities name s = (x, s') ->
  ss_creating s' = false /\ runtime_ready (ss_runtime s') /\ created name s x s'.
Proof.
  intros (Hc & Hr & Hk) (s1 & Hrun & ->)%(creating_run _ _ _ _ Hc). split; [done|]. cbn [ss_runtime].
  set (s0 := mkSingleStar (ss_store s) (ss_runtime s) (ss_generator s) true) in Hrun.
  assert (reg s0 = reg s) as Hreg0 by done. assert (host_of s0 = host_of s) as Hh0 by done.
  assert (forall e (t : state), runtime_ready (ss_runtime t) -> reg t = reg s -> host_of t = host_of s ->
    x = Err e -> s1 = t -> runtime_ready (ss_runtime s1) /\ created name s x (mkSingleStar (ss_store s1) (ss_runtime s1) (ss_generator s1) false)) as Hnone.
  { intros e t Ht Hg Hh -> ->. split; [done|]. left. by split. }
  rewrite st_bind_lift in Hrun.
  destruct (ensure_nap_capability capabilities) as [[]|e]; [|injection Hrun as <- <-; by eapply (Hnone e s0)].
  unfold st_bind at 1 in Hrun. destruct (on_store store_load s0) as [y s2] eqn:Hl.
  destruct (on_store_load _ _ _ Hl) as (L1 & L2 & _ & L4).
  assert (reg s2 = reg s) as G2 by congruence. assert (host_of s2 = host_of s) as H2' by (unfold host_of; by rewrite L2).
  assert (runtime_ready (ss_runtime s2)) as R2 by by rewrite L2.
  destruct y as [r|e]; [|injection Hrun as <- <-; by eapply (Hnone e s2)]. rewrite (L4 r eq_refl), Hreg0 in Hrun. clear L4.
  rewrite st_bind_lift in Hrun.
  destruct (current_network (reg s)) as [current|e] eqn:Hcur; [|injection Hrun as <- <-; by eapply (Hnone e s2)].
  rewrite st_bind_lift in Hrun. unfold guard_err in Hrun. destruct current as [n0|].
  { rewrite bool_decide_true in Hrun by by eexists. injection Hrun as <- <-. by eapply (Hnone _ s2). }
  rewrite bool_decide_false in Hrun by by intros []. unfold st_bind at 1 in Hrun.
  destruct (start_some_host config MAX_ADDRESS_CONFLICT_RETRIES (reg s) ∅ None s2) as [z s3] eqn:Hst.
  destruct (start_some_host_spec _ _ _ _ _ _ _ R2 Hst) as (S1 & _ & S3 & S4).
  assert (reg s3 = reg s) as G3 by (unfold reg; rewrite S1; exact G2).
  destruct z as [[[n i] a]|e]; [|injection Hrun as <- <-; eapply (Hnone e s3); try done; congruence].
  destruct S4 as (Hfresh & _ & Hi & Ha & Hhost & _).
  cbv beta iota zeta in Hrun. rewrite st_bind_lift in Hrun. change (transition _ Joining) with (Ok (E := CoreError) Joining) in Hrun.
  cbv beta iota zeta in Hrun. rewrite st_bind_lift in Hrun.
  change (transition Joining Member) with (Ok (E := CoreError) Member) in Hrun. cbv beta iota in Hrun.
  set (registry := (remember_network _ _).2) in Hrun. assert (registry = joined n name (reg s)) as Hj by done.
  unfold st_bind in Hrun. destruct (save_or_undo registry _ _ s3) as [w s4] eqn:Hsv.
  apply save_or_undo_spec in Hsv. rewrite Hj in Hsv. destruct w as [[]|e].
  - destruct Hsv as (V1 & V2 & _). injection Hrun as <- <-. split; [by rewrite V2|].
    split; [done|]. split; [done|]. split; [exact V1|]. split.
    + change (current_network (reg s4) = Ok (Some n)). rewrite V1. by apply joined_current.
    + exists (n, i, a). split; [by exists i, a|]. unfold host_of in *. cbn [ss_runtime]. by rewrite V2.
  - destruct Hsv as (V1 & V2 & y & Hstop & Hkind & e0 & m & Hsave & Hmsg & Hm). injection Hrun as <- <-.
    destruct (runtime_stop_law _ _ _ _ _ _ S3 Hstop) as [T1 T2]. split; [done|]. right. split; [done|].
    exists s3. split; [exact G3|]. exists n, (n, i, a), e0, m. rewrite G3.
    split; [done|]. split; [by exists i, a|]. split; [exact Hsave|]. split; [done|]. split; [exact Hm|].
    destruct y as [[]|e1]; [left; by destruct T2|right]. split; [unfold host_of in *; cbn [ss_runtime]; by rewrite T2|].
    split; [by apply Hkind|]. exists (ss_runtime s3), (ss_runtime s4), e1. done.
Qed.


(** The outcome of a leave. *)
Definition leave_failed_save (n : NetworkId) (s s' : state) (e : CoreError) : Prop :=
  exists e0 m, store_save (withdrawn n (reg s)) (ss_store s) = (Err e0, m) /\ message e = message e0 /\
    reg s' = stored m /\
    ((exists h, planned n h /\ host_of s' = Some h) \/ (host_of s' = None /\ kind e = PersistenceError)).

Definition left_network (s : state) (x : CoreResult ()) (s' : state) : Prop :=
  match x with
  | Ok _ => (current_network (reg s) = Ok None /\ reg s' = reg s /\ host_of s' = host_of s) \/
      exists n h, current_network (reg s) = Ok (Some n) /\ planned n h /\ host_of s = Some h /\ host_of s' = None /\
        reg s' = withdrawn n (reg s) /\ current_network (reg s') = Ok None
  | Err e => (reg s' = reg s /\ host_of s' = host_of s) \/
      exists n h, current_network (reg s) = Ok (Some n) /\ planned n h /\ host_of s = Some h /\
        exists s0 : state, reg s0 = reg s /\ leave_failed_save n s0 s' e
  end.

Lemma leave_network_run (s s' : state) x :
  quiescent s -> leave_network config s = (x, s') ->
  ss_creating s' = false /\ runtime_ready (ss_runtime s') /\ left_network s x s'.
Proof.
  intros (Hc & Hr & Hk) (s1 & Hrun & ->)%(creating_run _ _ _ _ Hc). split; [done|]. cbn [ss_runtime].
  set (s0 := mkSingleStar (ss_store s) (ss_runtime s) (ss_generator s) true) in Hrun.
  assert (forall e (t : state), runtime_ready (ss_runtime t) -> reg t = reg s -> host_of t = host_of s ->
    x = Err e -> s1 = t -> runtime_ready (ss_runtime s1) /\ left_network s x (mkSingleStar (ss_store s1) (ss_runtime s1) (ss_generator s1) false)) as Hnone.
  { intros e t Ht Hg Hh -> ->. split; [done|]. left. by split. }
  unfold st_bind at 1 in Hrun. destruct (on_store store_load s0) as [y s2] eqn:Hl.
  destruct (on_store_load _ _ _ Hl) as (L1 & L2 & _ & L4).
  assert (reg s2 = reg s) as G2 by exact L1. assert (host_of s2 = host_of s) as H2' by (unfold host_of; by rewrite L2).
  assert (runtime_ready (ss_runtime s2)) as R2 by by rewrite L2.
  destruct y as [r|e]; [|injection Hrun as <- <-; by eapply (Hnone e s2)]. rewrite (L4 r eq_refl) in Hrun. clear L4.
  change (reg s0) with (reg s) in Hrun. rewrite st_bind_lift in Hrun.
  destruct (current_network (reg s)) as [current|e] eqn:Hcur; [|injection Hrun as <- <-; by eapply (Hnone e s2)].
  destruct current as [n|]; cycle 1.
  { injection Hrun as <- <-. split; [done|]. left. done. }
  pose proof (proj1 (current_network_Some (reg s) n Hk) Hcur) as Hmem.
  destruct (proj2 (Hmem n) eq_refl) as (m & Hm & Hstate). unfold network_of in Hrun. rewrite Hm in Hrun.
  rewrite st_bind_lift in Hrun. destruct (bridge_name n) as [i|e] eqn:Hi; [|injection Hrun as <- <-; by eapply (Hnone e s2)].
  rewrite st_bind_lift in Hrun. destruct (local_star_address n config) as [a|e] eqn:Ha; [|injection Hrun as <- <-; by eapply (Hnone e s2)].
  destruct (planned_consistent n i a Hi Ha) as [Ho Hia].
  unfold st_bind at 1 in Hrun. destruct (on_runtime (runtime_stop_host n i a) s2) as [z s3] eqn:Hst.
  destruct (on_runtime_stop _ _ _ _ _ _ R2 Hst) as (S1 & _ & S3 & S4).
  assert (reg s3 = reg s) as G3 by (unfold reg; rewrite S1; exact G2).
  destruct z as [[]|e]; [|injection Hrun as <- <-; eapply (Hnone e s3); try done; congruence].
  destruct S4 as [Hhost Hgone]. rewrite st_bind_lift, Hstate in Hrun.
  change (transition Member Leaving) with (Ok (E := CoreError) Leaving) in Hrun. cbv beta iota in Hrun.
  rewrite st_bind_lift in Hrun. change (transition Leaving NotMember) with (Ok (E := CoreError) NotMember) in Hrun.
  cbv beta iota zeta in Hrun. change (network_mut _ _ _) with (withdrawn n (reg s)) in Hrun.
  apply save_or_undo_spec in Hrun. destruct x as [[]|e].
  - destruct Hrun as (V1 & V2 & _). split; [by rewrite V2|]. right. exists n, (n, i, a).
    split; [done|]. split; [by exists i, a|]. split; [by rewrite <- H2'|].
    split; [unfold host_of in *; cbn [ss_runtime]; by rewrite V2|]. split; [exact V1|].
    change (current_network (reg s1) = Ok None). rewrite V1. by apply withdrawn_current.
  - destruct Hrun as (V1 & V2 & y & Hre & Hkind & e0 & m' & Hsave & Hmsg & Hm').
    destruct (runtime_start_law _ _ _ _ _ _ S3 Ho Hia Hre) as [T1 T2]. split; [done|]. right. exists n, (n, i, a).
    split; [done|]. split; [by exists i, a|]. split; [by rewrite <- H2'|]. exists s3. split; [exact G3|].
    exists e0, m'. rewrite G3. split; [exact Hsave|]. split; [done|]. split; [exact Hm'|].
    destruct y as [[]|e1].
    + left. exists (n, i, a). split; [by exists i, a|]. by destruct T2.
    + right. split; [|by apply Hkind]. unfold host_of in *. cbn [ss_runtime]. by rewrite T2.
Qed.

(** The outcome of the reconciliation at startup. *)
Definition reconciled (s : state) (x : CoreResult ()) (s' : state) : Prop :=
  reg s' = reg s /\
  match x with
  | Ok _ => (current_network (reg s) = Ok None /\ host_of s' = host_of s) \/
      exists n h, current_network (reg s) = Ok (Some n) /\ planned n h /\ host_of s' = Some h
  | Err _ => host_of s' = host_of s
  end.

Lemma reconcile_run (s s' : state) x :
  quiescent s -> reconcile_on_startup config capabilities s = (x, s') ->
  ss_creating s' = false /\ runtime_ready (ss_runtime s') /\ reconciled s x s'.
Proof.
  intros (Hc & Hr & Hk) (s1 & Hrun & ->)%(creating_run _ _ _ _ Hc). split; [done|]. cbn [ss_runtime].
  set (s0 := mkSingleStar (ss_store s) (ss_runtime s) (ss_generator s) true) in Hrun.
  assert (forall e (t : state), runtime_ready (ss_runtime t) -> reg t = reg s -> host_of t = host_of s ->
    x = Err e -> s1 = t -> runtime_ready (ss_runtime s1) /\ reconciled s x (mkSingleStar (ss_store s1) (ss_runtime s1) (ss_generator s1) false)) as Hnone.
  { intros e t Ht Hg Hh -> ->. split; [done|]. by split. }
  unfold st_bind at 1 in Hrun. destruct (on_store store_load s0) as [y s2] eqn:Hl.
  destruct (on_store_load _ _ _ Hl) as (L1 & L2 & _ & L4).
  assert (reg s2 = reg s) as G2 by exact L1. assert (host_of s2 = host_of s) as H2' by (unfold host_of; by rewrite L2).
  assert (runtime_ready (ss_runtime s2)) as R2 by by rewrite L2.
  destruct y as [r|e]; [|injection Hrun as <- <-; by eapply (Hnone e s2)]. rewrite (L4 r eq_refl) in Hrun. clear L4.
  change (reg s0) with (reg s) in Hrun. rewrite st_bind_lift in Hrun.
  destruct (current_network (reg s)) as [current|e] eqn:Hcur; [|injection Hrun as <- <-; by eapply (Hnone e s2)].
  destruct current as [n|]; cycle 1.
  { injection Hrun as <- <-. split; [done|]. split; [done|]. by left. }
  rewrite st_bind_lift in Hrun. destruct (ensure_nap_capability capabilities) as [[]|e]; [|injection Hrun as <- <-; by eapply (Hnone e s2)].
  rewrite st_bind_lift in Hrun. destruct (bridge_name n) as [i|e] eqn:Hi; [|injection Hrun as <- <-; by eapply (Hnone e s2)].
  rewrite st_bind_lift in Hrun. destruct (local_star_address n config) as [a|e] eqn:Ha; [|injection Hrun as <- <-; by eapply (Hnone e s2)].
  destruct (planned_consistent n i a Hi Ha) as [Ho Hia].
  destruct (on_runtime_start _ _ _ _ _ _ R2 Ho Hia Hrun) as (S1 & _ & S3 & S4). split; [done|].
  split; [unfold reg in *; cbn [ss_store]; congruence|].
  destruct x as [[]|e]; [|change (host_of s1 = host_of s); congruence].
  right. exists n, (n, i, a). destruct S4 as [S4 _]. split; [done|]. split; [by exists i, a|exact S4].
Qed.


(** *** Histories *)

Inductive star_op := StarCreate (name : DisplayName) | StarLeave | StarReconcile.

Definition run_star_op (s : state) (o : star_op) : state :=
  match o with
  | StarCreate name => (create_network config capabilities name s).2
  | StarLeave => (leave_network config s).2
  | StarReconcile => (reconcile_on_startup config capabilities s).2
  end.

(** A host runs only for the network the registry says this node is a member of. *)
Definition coherent (s : state) : Prop :=
  forall h, host_of s = Some h -> exists n, current_network (reg s) = Ok (Some n) /\ planned n h.

Definition saves_atomic : Prop := forall r (m m' : M) e, store_save r m = (Err e, m') -> stored m' = stored m.
Definition stops_work : Prop := forall h, ~ stop_failed h.

Lemma run_star_op_coherent s o :
  saves_atomic -> stops_work -> quiescent s -> coherent s -> quiescent (run_star_op s o) /\ coherent (run_star_op s o).
Proof.
  intros Hatomic Hstops Hq Hco. pose proof Hq as (_ & _ & Hk). destruct o as [name| |]; cbn [run_star_op].
  - destruct (create_network config capabilities name s) as [x s'] eqn:Hrun; cbn [snd].
    destruct (create_network_run _ _ _ _ Hq Hrun) as (Hc & Hr & Hx). unfold quiescent, coherent. destruct x as [n|e].
    + destruct Hx as (_ & _ & Hreg & Hcur & h & Hp & Hh). split; [split_and!; [done..|]; rewrite Hreg; by apply joined_indexed|].
      rewrite Hh. intros h' [= <-]. by exists n.
    + destruct Hx as [[Hreg Hh]|(_ & s0 & Hreg0 & n & h & e0 & m & _ & _ & Hsave & _ & Hm & Hh)].
      * rewrite Hreg, Hh. by split.
      * assert (reg s' = reg s) as -> by (rewrite Hm, <- Hreg0; by apply (Hatomic _ _ _ _ Hsave)).
        destruct Hh as [->|(_ & _ & Hstop)]; [by split|by destruct (Hstops h)].
  - destruct (leave_network config s) as [x s'] eqn:Hrun; cbn [snd].
    destruct (leave_network_run _ _ _ Hq Hrun) as (Hc & Hr & Hx). unfold quiescent, coherent. destruct x as [[]|e].
    + destruct Hx as [(_ & Hreg & Hh)|(n & h & _ & _ & _ & Hh & Hreg & _)].
      * rewrite Hreg, Hh. by split.
      * rewrite Hh. split; [split_and!; [done..|]; rewrite Hreg; by apply withdrawn_indexed|done].
    + destruct Hx as [[Hreg Hh]|(n & h & Hcur & _ & _ & s0 & Hreg0 & e0 & m & Hsave & _ & Hm & Hh)].
      * rewrite Hreg, Hh. by split.
      * assert (reg s' = reg s) as -> by (rewrite Hm, <- Hreg0; by apply (Hatomic _ _ _ _ Hsave)).
        destruct Hh as [(h' & Hp & ->)|[-> _]]; [|by split]. split; [done|]. intros h'' [= <-]. by exists n.
  - destruct (reconcile_on_startup config capabilities s) as [x s'] eqn:Hrun; cbn [snd].
    destruct (reconcile_run _ _ _ Hq Hrun) as (Hc & Hr & Hreg & Hx). unfold quiescent, coherent. rewrite Hreg. split; [done|].
    destruct x as [[]|e]; [|by rewrite Hx]. destruct Hx as [[_ ->]|(n & h & Hcur & Hp & ->)]; [done|].
    intros h' [= <-]. by exists n.
Qed.

End outcomes.

(** ** Claims *)

(** C24. Creating a network commits or leaves nothing.  When it succeeds, a fresh
    network is recorded with this node as its only member, it is the current
    network, and its host runs on the bridge and address the configuration
    plans.  When it fails, registry and host are as they were, or the save
    failed: then the host was stopped again, or a [PersistenceError] reports
    that the running host could not be stopped. *)
Theorem create_network_commits {M R G : Type} `{LawfulRegistryStore M} `{LawfulRuntime R} `{NetworkIdGenerator G}
    (config : DaemonConfig) (capabilities : NodeCapabilities) (name : DisplayName) (s s' : SingleStar M R G)
    (x : CoreResult NetworkId)
    (Hs : quiescent s) (Hrun : create_network config capabilities name s = (x, s')) :
  ss_creating s' = false /\ runtime_ready (ss_runtime s') /\ created config name s x s'.
Proof. by apply (create_network_run config capabilities). Qed.

(** Leaving a network withdraws it or keeps it.  When it succeeds, there was
    no current network and nothing changed, or the running host was stopped and
    the registry keeps the network as one this node is no member of.  When it
    fails, nothing changed, or the save failed: then the host runs again, or a
    [PersistenceError] reports that it could not be restarted. *)
Theorem leave_network_withdraws {M R G : Type} `{LawfulRegistryStore M} `{LawfulRuntime R} `{NetworkIdGenerator G}
    (config : DaemonConfig) (s s' : SingleStar M R G) (x : CoreResult ())
    (Hs : quiescent s) (Hrun : leave_network config s = (x, s')) :
  ss_creating s' = false /\ runtime_ready (ss_runtime s') /\ left_network config s x s'.
Proof. by apply (leave_network_run config). Qed.

(** C25. After any sequence of creates, leaves and startup reconciliations, in any
    order and with any failures, a host runs only for the network the durable
    registry names as current, on the bridge and address planned for it,
    provided a failed save leaves the file and a running host can be stopped. *)
Theorem single_star_coherent {M R G : Type} `{LawfulRegistryStore M} `{LawfulRuntime R} `{NetworkIdGenerator G}
    (config : DaemonConfig) (capabilities : NodeCapabilities) (s : SingleStar M R G) (ops : list star_op)
    (Hatomic : saves_atomic (M := M)) (Hstops : stops_work (R := R)) (Hs : quiescent s) (Hco : coherent config s) :
  let s' := foldl (run_star_op config capabilities) s ops in
  quiescent s' /\ coherent config s'.
Proof.
  cbv zeta. revert s Hs Hco. induction ops as [|o ops IH]; intros s Hs Hco; [done|]. cbn [foldl].
  destruct (run_star_op_coherent config capabilities s o Hatomic Hstops Hs Hco) as [Hs' Hco']. by apply IH.
Qed.

(** ** A concrete machine *)

(** A file whose next save may fail, before or after it replaced the file. *)
Inductive save_fault := NoFault | FailsBefore | FailsAfter.
Record DemoStore := mkDemoStore { ds_registry : MembershipRegistry; ds_fault : save_fault }.
Definition demo_store_failure : CoreError := core_error PersistenceError "failed to sync the membership state directory".

#[local] Instance demo_store : RegistryStore DemoStore := {
  store_load := fun m => (Ok (ds_registry m), m);
  store_save := fun r m =>
    match ds_fault m with
    | NoFault => (Ok (), mkDemoStore r NoFault)
    | FailsBefore => (Err demo_store_failure, m)
    | FailsAfter => (Err demo_store_failure, mkDemoStore r NoFault)
    end;
}.
#[local] Instance demo_store_lawful : LawfulRegistryStore DemoStore.
Proof.
  refine (Build_LawfulRegistryStore _ _ ds_registry _ _).
  - intros m m' x [= <- <-]. split; [done|]. by intros r [= <-].
  - intros r m m' x. simpl. destruct (ds_fault m); intros [= <- <-]; auto.
Defined.

(** A file whose saves succeed. *)
#[local] Instance reliable_store : RegistryStore MembershipRegistry := {
  store_load := fun m => (Ok m, m);
  store_save := fun r _ => (Ok (), r);
}.
#[local] Instance reliable_store_lawful : LawfulRegistryStore MembershipRegistry.
Proof.
  refine (Build_LawfulRegistryStore _ _ id _ _).
  - intros m m' x [= <- <-]. split; [done|]. by intros r [= <-].
  - intros r m m' x [= <- <-]. done.
Defined.

(** A slot for one host. *)
#[local] Instance demo_slot : StarHostRuntime (option hosted) := {
  runtime_start_host := fun n i a r =>
    match r with
    | None => (Ok (), Some (n, i, a))
    | Some h => (if bool_decide (h = (n, i, a)) then Ok () else Err different_host, r)
    end;
  runtime_stop_host := fun n i a r =>
    if bool_decide (r = Some (n, i, a)) then (Ok (), None) else (Err different_host, r);
}.
#[local] Instance demo_slot_lawful : LawfulRuntime (option hosted).
Proof.
  refine (Build_LawfulRuntime _ _ (fun _ => True) id _ _).
  - intros n i a r r' x _ _ _. simpl. destruct r as [h|]; [|intros [= <- <-]; auto].
    destruct (bool_decide (h = (n, i, a))) eqn:Hb; intros [= <- <-]; [|done].
    apply bool_decide_eq_true in Hb as ->. auto.
  - intros n i a r r' x _. simpl. destruct (bool_decide (r = Some (n, i, a))) eqn:Hb; intros [= <- <-]; [|done].
    by apply bool_decide_eq_true in Hb as ->.
Defined.

(** Identities from a list. *)
#[local] Instance demo_generator : NetworkIdGenerator (list NetworkId) := {
  generate := fun l => match l with n :: l' => (Ok n, l') | [] => (Err no_unique_identity, []) end;
}.

Definition demo_config : DaemonConfig :=
  mkConfig CONFIG_VERSION_CURRENT (mkDisplayName builtin_name) pool_default topology_policy_default PreferAuto false.
Definition demo_capabilities : NodeCapabilities :=
  mkCaps None None (Some (mkSourced true Discovered)) None None None None None None None.
Definition demo_name : DisplayName := mkDisplayName [72; 105]%Z.
Definition demo_star (f : save_fault) : SingleStar DemoStore (option hosted) (list NetworkId) :=
  mkSingleStar (mkDemoStore (mkRegistry ∅) f) None [fill_id 7; fill_id 8] false.
Definition quiet_star : SingleStar MembershipRegistry (option hosted) (list NetworkId) :=
  mkSingleStar (mkRegistry ∅) None [fill_id 7; fill_id 8] false.

Lemma demo_star_quiescent f : quiescent (demo_star f).
Proof. split; [done|]. split; [done|]. apply map_Forall_empty. Qed.
Lemma quiet_star_quiescent : quiescent quiet_star.
Proof. split; [done|]. split; [done|]. apply map_Forall_empty. Qed.

(** A create, and one whose save fails and is undone. *)
Lemma create_network_commits_witness :
  (create_network demo_config demo_capabilities demo_name (demo_star NoFault)).1 = Ok (fill_id 7) /\
  host_of (create_network demo_config demo_capabilities demo_name (demo_star FailsBefore)).2 = None /\
  created demo_config demo_name (demo_star NoFault) (Ok (fill_id 7))
    (create_network demo_config demo_capabilities demo_name (demo_star NoFault)).2.
Proof.
  split; [vm_compute; reflexivity|]. split; [vm_compute; reflexivity|].
  assert ((create_network demo_config demo_capabilities demo_name (demo_star NoFault)).1 = Ok (fill_id 7)) as Hx
    by (vm_compute; reflexivity).
  destruct (create_network_commits demo_config demo_capabilities demo_name (demo_star NoFault) _ _
    (demo_star_quiescent NoFault) (surjective_pairing _)) as (_ & _ & Hc).
  rewrite Hx in Hc. exact Hc.
Defined.

Definition demo_member : SingleStar DemoStore (option hosted) (list NetworkId) :=
  (create_network demo_config demo_capabilities demo_name (demo_star NoFault)).2.
Lemma demo_member_quiescent : quiescent demo_member.
Proof.
  destruct (create_network demo_config demo_capabilities demo_name (demo_star NoFault)) as [x s'] eqn:Hrun.
  assert (x = Ok (fill_id 7)) as -> by (apply (f_equal fst) in Hrun; cbn [fst] in Hrun; rewrite <- Hrun; vm_compute; reflexivity).
  destruct (create_network_run _ _ _ _ _ _ (demo_star_quiescent NoFault) Hrun) as (Hc & Hr & (_ & _ & Hreg & _)).
  unfold demo_member. rewrite Hrun. split; [done|]. split; [done|]. cbn [snd]. rewrite Hreg.
  apply joined_indexed, map_Forall_empty.
Qed.

Lemma leave_network_withdraws_witness :
  (leave_network demo_config demo_member).1 = Ok () /\
  host_of (leave_network demo_config demo_member).2 = None /\
  left_network demo_config demo_member (leave_network demo_config demo_member).1 (leave_network demo_config demo_member).2.
Proof.
  split; [vm_compute; reflexivity|]. split; [vm_compute; reflexivity|].
  destruct (leave_network_withdraws demo_config demo_member _ _ demo_member_quiescent (surjective_pairing _)) as (_ & _ & Hl).
  exact Hl.
Defined.

Lemma single_star_coherent_witness :
  host_of (foldl (run_star_op demo_config demo_capabilities) quiet_star
    [StarReconcile; StarCreate demo_name; StarReconcile; StarCreate demo_name]) <> None /\
  coherent demo_config (foldl (run_star_op demo_config demo_capabilities) quiet_star
    [StarReconcile; StarCreate demo_name; StarReconcile; StarCreate demo_name]).
Proof.
  split; [vm_compute; discriminate|].
  refine (proj2 (single_star_coherent demo_config demo_capabilities quiet_star
    [StarReconcile; StarCreate demo_name; StarReconcile; StarCreate demo_name] _ _ quiet_star_quiescent _)).
  - intros r m m' e. done.
  - intros h (r & r' & e & _ & Hh & Hstop). cbn [hosting demo_slot_lawful] in Hh. unfold id in Hh. subst r.
    destruct h as [[n i] a]. simpl in Hstop. rewrite bool_decide_true in Hstop by done. done.
  - intros h. done.
Defined.

(** ** What a failed save after the replacement does *)

(** A leave whose save fails once the file is already replaced (its directory
    could not be synced) restarts the host of a network the registry no longer
    calls current: the leave reports the error, later leaves find nothing to
    leave, and the host goes on running. *)
Definition demo_member_faulty : SingleStar DemoStore (option hosted) (list NetworkId) :=
  mkSingleStar (mkDemoStore (reg demo_member) FailsAfter) (ss_runtime demo_member) (ss_generator demo_member) false.

Theorem leave_restarts_a_left_network :
  let s1 := (leave_network demo_config demo_member_faulty).2 in
  let s2 := (leave_network demo_config s1).2 in
  (leave_network demo_config demo_member_faulty).1 = Err demo_store_failure /\
  current_network (reg s1) = Ok None /\ host_of s1 = host_of demo_member /\ host_of s1 <> None /\
  (leave_network demo_config s1).1 = Ok () /\ host_of s2 = host_of s1.
Proof. vm_compute. split_and!; done. Qed.
