(* ===== verification/ControlEndpoint.v ===== *)
(** The control endpoint of a NAP host: [owned_nap_control_address] of
    [apps/daemon/src/control_listener.rs], the observing and binding operations of
    [apps/daemon/src/single_star.rs], and the durable observation around them.

    TCP sockets are behind [TcpHost]: a listener is an opaque value. *)

From S2P Require Import Prelude Order Ident Capability Addressing Routes LinuxRoutes StarHost Membership PeerPins PeerTrust SingleStar.

(** ** Endpoints *)

Record SocketAddrV4 := mkSocketAddrV4 { sock_ip : Z; sock_port : Z }.
#[global] Instance SocketAddrV4_eq_dec : EqDecision SocketAddrV4.
Proof. solve_decision. Defined.
Inductive SocketAddr := SockV4 (a : SocketAddrV4) | SockV6.
#[global] Instance SocketAddr_eq_dec : EqDecision SocketAddr.
Proof. solve_decision. Defined.

Definition CONTROL_TCP_PORT : Z := 46071.

Definition zero_control_network : CoreError := core_error InvalidInput "invalid zero control network".

Definition owned_nap_control_address (network : NetworkId) (config : DaemonConfig) (observed : list InterfaceAddress) :
    CoreResult SocketAddrV4 :=
  guard_err (bool_decide (network = zero_id)) zero_control_network
  (_ ← config_validate config;
   plan ← for_network network (ipv4_address_pool config);
   interface ← bridge_name network;
   match address (host plan) with
   | V6 _ => Err (core_error InvalidState "NAP control host is not IPv4")
   | V4 host_ip =>
     guard_err (existsb (fun a => bool_decide (address (ia_prefix a) = address (host plan))
         && (negb (bool_decide (ia_owner a = network)) || negb (bool_decide (ia_interface a = interface)))) observed)
       (core_error AddressConflict "NAP control address has ambiguous interface ownership")
     (guard_err (existsb (fun a => bool_decide (ia_interface a = interface) && negb (bool_decide (ia_owner a = network))) observed)
       (core_error AddressConflict "NAP control bridge has foreign network ownership")
     (guard_err (existsb (fun a => bool_decide (ia_owner a = network) && bool_decide (ia_interface a = interface)
         && negb (bool_decide (ia_prefix a = host plan))) observed)
       (core_error InvalidState "NAP control bridge address differs from the deterministic plan")
     (guard_err (negb (existsb (fun a => bool_decide (ia_owner a = network) && bool_decide (ia_interface a = interface)
         && bool_decide (ia_prefix a = host plan)) observed))
       (core_error InvalidState "active BlueRoute-owned NAP host address is not observed")
     (Ok (mkSocketAddrV4 host_ip CONTROL_TCP_PORT)))))
   end).

(** ** Sockets *)

Class TcpHost (B L : Type) := {
  tcp_bind : SocketAddrV4 -> stres B string L;
  local_addr : L -> B -> result string SocketAddr;
  set_nonblocking : L -> stres B string ();
  close_listener : L -> B -> B;
}.

Definition pan_failure (m d : string) : CoreError := core_error_with_diagnostic PanFailure m d.

Section endpoint.
Context {B L : Type} `{HostBackends B} `{TcpHost B L}.

Definition bind_owned_nap_control_listener (network : NetworkId) (config : DaemonConfig)
    (observed : list InterfaceAddress) : stres B CoreError L :=
  let! address := st_lift (owned_nap_control_address network config observed) in
  st_map_err (pan_failure "failed to bind BlueRoute-owned NAP control address") (tcp_bind address).

(** An owned listener; [None] once it is retired. *)
Record ObservedControlListener := mkListener {
  ol_network : NetworkId;
  ol_endpoint : SocketAddrV4;
  ol_listener : option L;
}.

Definition listener_checks (network : NetworkId) (observed_endpoint : SocketAddrV4) (local : result string SocketAddr) :
    CoreResult SocketAddrV4 :=
  guard_err (bool_decide (network = zero_id)) (core_error InvalidInput "control listener requires a nonzero local network")
  (local ← map_err (pan_failure "cannot inspect bound NAP control listener") local;
   match local with
   | SockV6 => Err (core_error InvalidState "NAP control listener must bind an IPv4 address")
   | SockV4 endpoint =>
     guard_err (sock_ip endpoint =? 0)%Z (core_error InvalidState "NAP control listener may not bind a wildcard address")
     (guard_err (negb (bool_decide (endpoint = observed_endpoint)))
       (core_error InvalidState "NAP control listener address differs from observed owned endpoint")
     (Ok endpoint))
   end).

(** [ObservedControlListener::new]; a listener it refuses is dropped. *)
Definition listener_new (network : NetworkId) (observed_endpoint : SocketAddrV4) (listener : L) :
    stres B CoreError ObservedControlListener := fun b =>
  match listener_checks network observed_endpoint (local_addr listener b) with
  | Err e => (Err e, close_listener listener b)
  | Ok endpoint =>
    match set_nonblocking listener b with
    | (Err d, b') => (Err (pan_failure "cannot make NAP control listener nonblocking" d), close_listener listener b')
    | (Ok _, b') => (Ok (mkListener network endpoint (Some listener)), b')
    end
  end.

(** ** The host runtime *)

Abbreviation op A := (stres (LinuxStarHostRuntime B) CoreError A).

Definition runtime_mismatch : CoreError :=
  core_error InvalidState "active NAP runtime does not match its planned host address".

Definition observed_owned_host_addresses (config : DaemonConfig) : op (option (NetworkId * list InterfaceAddress)) := fun r =>
  match rt_active r with
  | None => (Ok None, r)
  | Some active => (
      let! planned := st_lift (for_network (ah_network active) (ipv4_address_pool config)) in
      let! _ := st_lift (guard_err (negb (bool_decide (ia_owner (ah_address active) = ah_network active))
          || negb (bool_decide (ia_interface (ah_address active) = ah_bridge active))
          || negb (bool_decide (ia_prefix (ah_address active) = host planned))) runtime_mismatch (Ok ())) in
      let! l := on_world addresses in
      st_ret (Some (ah_network active, l))) r
  end.

Definition host_observed_endpoint (config : DaemonConfig) : op (option SocketAddrV4) := with_transition (
  let! o := observed_owned_host_addresses config in
  match o with
  | None => st_ret None
  | Some (network, l) =>
      let! address := st_lift (owned_nap_control_address network config l) in st_ret (Some address)
  end).

Definition host_bind_owned (config : DaemonConfig) : op (option L) := with_transition (
  let! o := observed_owned_host_addresses config in
  match o with
  | None => st_ret None
  | Some (network, l) =>
      let! listener := on_world (bind_owned_nap_control_listener network config l) in st_ret (Some listener)
  end).

Definition host_bind_guarded (config : DaemonConfig) : op (option ObservedControlListener) := with_transition (
  let! o := observed_owned_host_addresses config in
  match o with
  | None => st_ret None
  | Some (network, l) =>
      let! endpoint := st_lift (owned_nap_control_address network config l) in
      let! listener := on_world (bind_owned_nap_control_listener network config l) in
      let! owned := on_world (listener_new network endpoint listener) in
      st_ret (Some owned)
  end).
End endpoint.
Arguments ObservedControlListener L : clear implicits.

(** ** The daemon's operations *)

Class ControlRuntime (R L : Type) := {
  runtime_observed_endpoint : DaemonConfig -> stres R CoreError (option SocketAddrV4);
  runtime_bind_owned : DaemonConfig -> stres R CoreError (option L);
  runtime_bind_guarded : DaemonConfig -> stres R CoreError (option (ObservedControlListener L));
  runtime_local_addr : L -> R -> result string SocketAddr;
  runtime_close_listener : L -> R -> R;
}.

#[global] Instance linux_control_runtime (B L : Type) `{HostBackends B} `{TcpHost B L} :
    ControlRuntime (LinuxStarHostRuntime B) L := {
  runtime_observed_endpoint := host_observed_endpoint;
  runtime_bind_owned := host_bind_owned;
  runtime_bind_guarded := host_bind_guarded;
  runtime_local_addr l r := local_addr l (rt_world r);
  runtime_close_listener l r := set_world r (close_listener l (rt_world r));
}.

Section operations.
Context {M R G L : Type} `{RegistryStore M} `{ControlRuntime R L}.
Context (config : DaemonConfig).

Abbreviation op A := (stres (SingleStar M R G) CoreError A).

(** [current_network(&self.store.load()?)?]. *)
Definition load_current : op (option NetworkId) :=
  let! registry := on_store store_load in st_lift (current_network registry).

Definition close_raw (l : L) (s : SingleStar M R G) : SingleStar M R G :=
  mkSingleStar (ss_store s) (runtime_close_listener l (ss_runtime s)) (ss_generator s) (ss_creating s).

(** An operation that drops the listener it holds when it fails. *)
Definition or_close {A : Type} (l : L) (m : op A) : op A := fun s =>
  match m s with
  | (Ok a, s') => (Ok a, s')
  | (Err e, s') => (Err e, close_raw l s')
  end.

Definition planned_endpoint (network : NetworkId) : CoreResult SocketAddrV4 :=
  planned ← for_network network (ipv4_address_pool config);
  match address (host planned) with
  | V4 ip => Ok (mkSocketAddrV4 ip CONTROL_TCP_PORT)
  | V6 _ => Err (core_error InvalidState "NAP control host must have an IPv4 address")
  end.

Definition observed_owned_control_endpoint : op (option SocketAddrV4) :=
  let! current := load_current in
  match current with
  | None => st_ret None
  | Some network =>
      let! observed := on_runtime (runtime_observed_endpoint config) in
      let! again := load_current in
      let! _ := st_lift (guard_err (negb (bool_decide (again = Some network)))
        (core_error InvalidState "NAP control endpoint lost durable membership during observation") (Ok ())) in
      match observed with
      | None => st_ret None
      | Some endpoint =>
          let! planned := st_lift (planned_endpoint network) in
          st_lift (guard_err (negb (bool_decide (endpoint = planned)))
            (core_error InvalidState "NAP control endpoint does not match durable host network") (Ok (Some endpoint)))
      end
  end.

Definition stale_listener : CoreError :=
  core_error InvalidState "NAP control listener is not backed by current durable membership".

Definition bind_guarded_control_listener : op (option (ObservedControlListener L)) :=
  let! current := load_current in
  match current with
  | None => st_ret None
  | Some network =>
      let! bound := on_runtime (runtime_bind_guarded config) in
      match bound with
      | None => st_ret None
      | Some listener =>
          let check := guard_err (negb (bool_decide (ol_network listener = network))) stale_listener (Ok ()) in
          let guarded :=
            let! _ := st_lift check in
            let! again := load_current in
            st_lift (guard_err (negb (bool_decide (again = Some network))) stale_listener (Ok (Some listener))) in
          match ol_listener listener with
          | Some l => or_close l guarded
          | None => guarded
          end
      end
  end.

Definition bind_owned_control_listener : op (option L) :=
  let! current := load_current in
  match current with
  | None => st_ret None
  | Some network =>
      let! bound := on_runtime (runtime_bind_owned config) in
      let lost := core_error InvalidState "NAP control bind lost durable membership" in
      match bound with
      | None =>
          let! again := load_current in
          st_lift (guard_err (negb (bool_decide (again = Some network))) lost (Ok None))
      | Some listener => or_close listener (
          let! again := load_current in
          let! _ := st_lift (guard_err (negb (bool_decide (again = Some network))) lost (Ok ())) in
          let! expected := st_lift (planned_endpoint network) in
          fun s =>
            (local ← map_err (pan_failure "cannot inspect raw NAP control listener")
               (runtime_local_addr listener (ss_runtime s));
             guard_err (negb (bool_decide (local = SockV4 expected)))
               (core_error InvalidState "raw NAP control listener does not match durable host network")
               (Ok (Some listener)), s))
      end
  end.

(** [observe_durable_owned_endpoint] of [control_listener.rs]. *)
Definition observe_durable_owned_endpoint (expected_network : NetworkId) : op (option NetworkId * option SocketAddrV4) :=
  let! before := load_current in
  if negb (bool_decide (before = Some expected_network)) then st_ret (before, None)
  else
    let! endpoint := observed_owned_control_endpoint in
    let! after := load_current in
    st_lift (guard_err (negb (bool_decide (before = after)))
      (core_error InvalidState "NAP ownership changed during durable backend observation") (Ok (after, endpoint))).
End operations.

(** ** Facts *)

(** The only address the backend reports on the bridge, and the only one with
    that IP, is the network's planned host address. *)
Definition exclusively_owned (network : NetworkId) (i : NetworkInterfaceHandle) (p : IpPrefix)
    (observed : list InterfaceAddress) : Prop :=
  mkInterfaceAddress i p network ∈ observed /\
  forall a, a ∈ observed -> ia_interface a = i \/ address (ia_prefix a) = address p -> a = mkInterfaceAddress i p network.

Lemma existsb_bool_false {A : Type} (f : A -> bool) (l : list A) :
  existsb f l = false <-> forall x, x ∈ l -> f x = false.
Proof.
  induction l as [|x l IH]; cbn [existsb]; [split; [intros _ y Hy; by apply elem_of_nil in Hy|done]|].
  rewrite orb_false_iff, IH. split.
  - intros [Hx Hl] y [->|Hy]%elem_of_cons; [done|by apply Hl].
  - intros Hall. split; [apply Hall; by left|]. intros y Hy. apply Hall. by right.
Qed.

Lemma owned_checks network i p observed :
  existsb (fun a => bool_decide (address (ia_prefix a) = address p)
    && (negb (bool_decide (ia_owner a = network)) || negb (bool_decide (ia_interface a = i)))) observed = false /\
  existsb (fun a => bool_decide (ia_interface a = i) && negb (bool_decide (ia_owner a = network))) observed = false /\
  existsb (fun a => bool_decide (ia_owner a = network) && bool_decide (ia_interface a = i)
    && negb (bool_decide (ia_prefix a = p))) observed = false /\
  existsb (fun a => bool_decide (ia_owner a = network) && bool_decide (ia_interface a = i)
    && bool_decide (ia_prefix a = p)) observed = true <->
  exclusively_owned network i p observed.
Proof.
  rewrite !existsb_bool_false, existsb_exists. setoid_rewrite <- list_elem_of_In. unfold exclusively_owned. split.
  - intros (H1 & H2 & H3 & (a & Ha & ((E1 & E2)%andb_true_iff & E3)%andb_true_iff)).
    apply bool_decide_eq_true in E1, E2, E3. split; [destruct a; simpl in *; by subst|].
    intros [j q o] Hin Hor. specialize (H1 _ Hin). specialize (H2 _ Hin). specialize (H3 _ Hin). simpl in *.
    assert (j = i /\ o = network) as [-> ->].
    { destruct Hor as [->|Hq].
      - rewrite bool_decide_true in H2 by done. simpl in H2. by apply negb_false_iff, bool_decide_eq_true in H2 as ->.
      - rewrite bool_decide_true in H1 by done. simpl in H1. apply orb_false_iff in H1 as [Ho%negb_false_iff Hi%negb_false_iff].
        by apply bool_decide_eq_true in Ho, Hi. }
    rewrite !bool_decide_true in H3 by done. simpl in H3. by apply negb_false_iff, bool_decide_eq_true in H3 as ->.
  - intros [Hin Hall]. split_and!.
    + intros a Ha. case_bool_decide as Hq; [|done]. rewrite (Hall a Ha (or_intror Hq)). simpl. by rewrite !bool_decide_true.
    + intros a Ha. case_bool_decide as Hq; [|done]. rewrite (Hall a Ha (or_introl Hq)). simpl. by rewrite bool_decide_true.
    + intros a Ha. case_bool_decide as Ho; [|done]. case_bool_decide as Hq; [|done].
      rewrite (Hall a Ha (or_introl Hq)). simpl. by rewrite bool_decide_true.
    + eexists. split; [exact Hin|]. simpl. by rewrite !bool_decide_true.
Qed.

Lemma planned_endpoint_Ok config network ep :
  planned_endpoint config network = Ok ep <->
  exists plan ip, for_network network (ipv4_address_pool config) = Ok plan /\ address (host plan) = V4 ip /\
    ep = mkSocketAddrV4 ip CONTROL_TCP_PORT.
Proof.
  unfold planned_endpoint. rewrite result_bind_Ok. split.
  - intros (plan & Hp & He). exists plan. destruct (address (host plan)) as [ip|ip]; [|done]. exists ip. naive_solver.
  - intros (plan & ip & Hp & Ha & ->). exists plan. by rewrite Ha.
Qed.

(** What an accepted observation of the backend's addresses is. *)
Definition endpoint_owned (config : DaemonConfig) (network : NetworkId) (observed : list InterfaceAddress)
    (ep : SocketAddrV4) : Prop :=
  network <> zero_id /\ config_validate config = Ok () /\ planned_endpoint config network = Ok ep /\
  exists plan i, for_network network (ipv4_address_pool config) = Ok plan /\ bridge_name network = Ok i /\
    exclusively_owned network i (host plan) observed.

Lemma owned_nap_control_address_Ok network config observed ep :
  owned_nap_control_address network config observed = Ok ep <-> endpoint_owned config network observed ep.
Proof.
  unfold owned_nap_control_address, endpoint_owned. rewrite guard_err_Ok, bool_decide_eq_false, result_bind_Ok. split.
  - intros (Hz & [] & Hv & (plan & Hp & (i & Hi & Hrest)%result_bind_Ok)%result_bind_Ok).
    destruct (address (host plan)) as [ip|ip] eqn:Ha; [|done]. rewrite <- Ha in Hrest.
    apply guard_err_Ok in Hrest as [H1 (H2 & (H3 & (H4%negb_false_iff & [= <-])%guard_err_Ok)%guard_err_Ok)%guard_err_Ok].
    split; [done|]. split; [done|]. split; [apply planned_endpoint_Ok; by exists plan, ip|].
    exists plan, i. split; [done|]. split; [done|]. by apply owned_checks.
  - intros (Hz & Hv & (plan' & ip & Hp' & Ha & ->)%planned_endpoint_Ok & plan & i & Hp & Hi & Hx).
    rewrite Hp in Hp'. injection Hp' as <-. apply owned_checks in Hx as (H1 & H2 & H3 & H4).
    split; [done|]. exists (). split; [done|]. rewrite Hp. cbn [mbind result_bind]. rewrite Hi. cbn [mbind result_bind].
    rewrite Ha in *. by rewrite H1, H2, H3, H4.
Qed.

Section runtime_facts.
Context {B L : Type} `{HostBackends B} `{TcpHost B L}.

(** The runtime's slot and one fresh read of the backend's addresses. *)
Definition slot_observed (config : DaemonConfig) (r r' : LinuxStarHostRuntime B) (h : ActiveLinuxStarHost)
    (l : list InterfaceAddress) : Prop :=
  rt_transition r = false /\ rt_active r = Some h /\
  (exists plan, for_network (ah_network h) (ipv4_address_pool config) = Ok plan /\
     ah_address h = mkInterfaceAddress (ah_bridge h) (host plan) (ah_network h)) /\
  exists b, addresses (rt_world r) = (Ok l, b) /\ r' = mkHostRuntime (Some h) false b.

Lemma observed_owned_host_addresses_Ok config (r r' : LinuxStarHostRuntime B) o :
  observed_owned_host_addresses config r = (Ok o, r') ->
  match o with
  | None => rt_active r = None /\ r' = r
  | Some (n, l) => exists h plan b, rt_active r = Some h /\ n = ah_network h /\
      for_network n (ipv4_address_pool config) = Ok plan /\ ah_address h = mkInterfaceAddress (ah_bridge h) (host plan) n /\
      addresses (rt_world r) = (Ok l, b) /\ r' = set_world r b
  end.
Proof.
  unfold observed_owned_host_addresses. destruct (rt_active r) as [h|] eqn:Ha; [|by intros [= <- <-]].
  rewrite st_bind_lift. destruct (for_network (ah_network h) (ipv4_address_pool config)) as [plan|e] eqn:Hp; [|done].
  rewrite st_bind_lift. destruct (guard_err _ _ _) as [[]|e] eqn:Hg; [|done].
  apply guard_err_Ok in Hg as [((G1%negb_false_iff & G2%negb_false_iff)%orb_false_iff & G3%negb_false_iff)%orb_false_iff _].
  apply bool_decide_eq_true in G1, G2, G3. unfold st_bind, on_world, st_ret.
  destruct (addresses (rt_world r)) as [[l|e] b] eqn:Hl; [|done]. intros [= <- <-].
  exists h, plan, b. split; [done|]. split; [done|]. split; [done|]. split; [|done].
  destruct (ah_address h). simpl in *. by subst.
Qed.

Lemma host_observed_endpoint_Ok config (r r' : LinuxStarHostRuntime B) ep :
  host_observed_endpoint config r = (Ok (Some ep), r') ->
  exists h l, slot_observed config r r' h l /\ endpoint_owned config (ah_network h) l ep.
Proof.
  unfold host_observed_endpoint, with_transition. destruct (rt_transition r) eqn:Hf; [done|].
  set (r0 := mkHostRuntime (rt_active r) true (rt_world r)). unfold st_bind at 1.
  destruct (observed_owned_host_addresses config r0) as [[[[n l]|]|e] r1] eqn:Ho; try done.
  destruct (observed_owned_host_addresses_Ok _ _ _ _ Ho) as (h & plan & b & Ha & -> & Hp & Hq & Hl & ->).
  rewrite st_bind_lift. destruct (owned_nap_control_address (ah_network h) config l) as [ep'|e] eqn:Hep; [|done].
  unfold st_ret. intros [= -> <-]. exists h, l. split; [|by apply owned_nap_control_address_Ok].
  split; [done|]. split; [exact Ha|]. split; [by exists plan|]. exists b. split; [exact Hl|].
  cbn [rt_active rt_world set_world r0]. by rewrite <- Ha.
Qed.
End runtime_facts.

(** ** The durable observation *)

Section durable.
Context {M B L G : Type} `{RegistryStore M} `{HostBackends B} `{TcpHost B L}.
Context (config : DaemonConfig).

Abbreviation state := (SingleStar M (LinuxStarHostRuntime B) G).

(** One load of the membership file that says the current network is [n]. *)
Definition loads (n : NetworkId) (m m' : M) : Prop :=
  exists g, store_load m = (Ok g, m') /\ current_network g = Ok (Some n).

Lemma load_current_Ok (s s' : state) o :
  load_current s = (Ok o, s') ->
  exists g m, store_load (ss_store s) = (Ok g, m) /\ current_network g = Ok o /\
    s' = mkSingleStar m (ss_runtime s) (ss_generator s) (ss_creating s).
Proof.
  unfold load_current, st_bind, on_store, st_lift. destruct (store_load (ss_store s)) as [[g|e] m]; [|done].
  intros [= Hc <-]. by exists g, m.
Qed.

(** The observation behind an endpoint: one load of the membership file before
    and one after name the network; between them the slot and the backend's
    addresses were read while the current network had this planned endpoint. *)
Definition endpoint_witnessed (n : NetworkId) (ep : SocketAddrV4) (s s' : state) : Prop :=
  exists k m1 m2 m3, loads n (ss_store s) m1 /\ loads k m1 m2 /\ loads k m2 m3 /\ loads n m3 (ss_store s') /\
    planned_endpoint config k = Ok ep /\
    exists h l, slot_observed config (ss_runtime s) (ss_runtime s') h l /\ endpoint_owned config (ah_network h) l ep.

Lemma observed_owned_control_endpoint_Ok (s s' : state) ep :
  observed_owned_control_endpoint (L := L) config s = (Ok (Some ep), s') ->
  exists n m, loads n (ss_store s) m /\ loads n m (ss_store s') /\ planned_endpoint config n = Ok ep /\
    exists h l, slot_observed config (ss_runtime s) (ss_runtime s') h l /\ endpoint_owned config (ah_network h) l ep.
Proof.
  unfold observed_owned_control_endpoint. unfold st_bind at 1.
  destruct (load_current s) as [[current|e] s1] eqn:H1'; [|done].
  destruct (load_current_Ok _ _ _ H1') as (g1 & m1 & L1 & C1 & ->). destruct current as [n|]; [|done].
  unfold st_bind at 1, on_runtime. cbn [ss_runtime ss_store].
  destruct (runtime_observed_endpoint config (ss_runtime s)) as [[observed|e] r1] eqn:Hr; [|done].
  unfold st_bind at 1. match goal with |- context [load_current ?t] => destruct (load_current t) as [[again|e] s3] eqn:H3' end; [|done].
  destruct (load_current_Ok _ _ _ H3') as (g2 & m2 & L2 & C2 & ->). cbn [ss_store ss_runtime ss_generator ss_creating] in *.
  cbv beta iota. rewrite st_bind_lift. destruct (guard_err _ _ _) as [[]|e] eqn:Hg; [|done].
  apply guard_err_Ok in Hg as [Hagain%negb_false_iff%bool_decide_eq_true _]. subst again.
  destruct observed as [ep'|]; [|done]. rewrite st_bind_lift.
  destruct (planned_endpoint config n) as [p|e] eqn:Hp; [|done]. unfold st_lift.
  intros [= (Heq%negb_false_iff%bool_decide_eq_true & [= ->])%guard_err_Ok <-]. subst p.
  exists n, m1. split; [by exists g1|]. split; [by exists g2|]. split; [done|].
  by apply host_observed_endpoint_Ok in Hr.
Qed.

Lemma observe_durable_Ok n n' ep (s s' : state) :
  observe_durable_owned_endpoint (L := L) config n s = (Ok (Some n', Some ep), s') ->
  n' = n /\ endpoint_witnessed n ep s s'.
Proof.
  unfold observe_durable_owned_endpoint. unfold st_bind at 1.
  destruct (load_current s) as [[before|e] s1] eqn:H1'; [|done].
  destruct (load_current_Ok _ _ _ H1') as (g1 & m1 & L1 & C1 & ->).
  destruct (bool_decide (before = Some n)) eqn:Hb; cbn [negb]; [|done]. apply bool_decide_eq_true in Hb as ->.
  unfold st_bind at 1.
  match goal with |- context [observed_owned_control_endpoint config ?t] =>
    destruct (observed_owned_control_endpoint (L := L) config t) as [[observed|e] s2] eqn:Ho end; [|done].
  unfold st_bind at 1. destruct (load_current s2) as [[after|e] s3] eqn:H3'; [|done].
  destruct (load_current_Ok _ _ _ H3') as (g4 & m4 & L4 & C4 & ->). unfold st_lift.
  intros [= (Heq%negb_false_iff%bool_decide_eq_true & [= -> ->])%guard_err_Ok <-]. injection Heq as ->.
  split; [done|]. destruct (observed_owned_control_endpoint_Ok _ _ _ Ho) as (k & m2 & Hl1 & Hl2 & Hp & h & l & Hslot & Howned).
  cbn [ss_store ss_runtime] in *.
  exists k, m1, m2, (ss_store s2). split; [by exists g1|]. split; [done|]. split; [done|]. split; [by exists g4|].
  split; [done|]. by exists h, l.
Qed.
End durable.

(** ** Claims *)

(** The control endpoint is the planned one or none.  From an observation of
    the backend's addresses a control address is derived exactly for a nonzero
    network and a valid configuration whose planned host address the observation
    attributes to the network's own bridge, with no other address on that bridge
    and that IP nowhere else; it is that IP with the control port. *)
Theorem owned_nap_control_address_exact (network : NetworkId) (config : DaemonConfig) (observed : list InterfaceAddress)
    (ep : SocketAddrV4) :
  owned_nap_control_address network config observed = Ok ep <->
  network <> zero_id /\ config_validate config = Ok () /\
  exists plan i ip, for_network network (ipv4_address_pool config) = Ok plan /\ bridge_name network = Ok i /\
    address (host plan) = V4 ip /\ ep = mkSocketAddrV4 ip CONTROL_TCP_PORT /\
    exclusively_owned network i (host plan) observed.
Proof.
  rewrite owned_nap_control_address_Ok. unfold endpoint_owned. rewrite planned_endpoint_Ok. split.
  - intros (Hz & Hv & (plan & ip & Hp & Ha & ->) & plan' & i & Hp' & Hi & Hx). rewrite Hp in Hp'. injection Hp' as <-.
    split; [done|]. split; [done|]. by exists plan, i, ip.
  - intros (Hz & Hv & plan & i & ip & Hp & Hi & Ha & -> & Hx). split; [done|]. split; [done|].
    split; [by exists plan, ip|]. by exists plan, i.
Qed.
