(* ===== verification/ControlListener.v ===== *)
(** The owned control listener: [ObservedControlListener] of
    [apps/daemon/src/control_listener.rs].

    Accepting and closing sockets is behind [ListenerWorld]; an observation of
    the ownership of the NAP is an argument, as the closures are in the code,
    and [durable_observation] is the one the daemon uses.  Dropping a value is
    written out: it closes the socket or listener it owns, and a registered
    session it owns is cancelled. *)

From S2P Require Import Prelude Order Ident Capability Addressing LinuxRoutes StarHost Membership PeerPins ControlFrame ControlIo Handshake SessionStream SessionActivity PeerTrust SessionRegistry PinnedIngress ActiveSession RegisteredSession SingleStar ControlEndpoint.

(** ** The world of a listener *)

Inductive AcceptError := WouldBlock | AcceptFailed (d : string).

Class ListenerWorld (W L S : Type) := {
  tcp_accept : L -> stres W AcceptError S;
  set_blocking : S -> stres W string ();
  shutdown_both : S -> W -> W;
  drop_socket : S -> W -> W;
  drop_listener : L -> W -> W;
}.

Definition Observation : Type := option NetworkId * option SocketAddrV4.

(** ** Errors *)

Definition listener_retired : CoreError := core_error InvalidState "NAP control listener has already been retired".
Definition listener_lost : CoreError :=
  core_error InvalidState "NAP control listener lost its observed network ownership".
Definition lost_after_accept : CoreError :=
  core_error InvalidState "NAP control listener lost ownership after TCP accept".
Definition session_network_differs : CoreError :=
  core_error InvalidState "authenticated session network differs from NAP listener".
Definition changed_during_setup : CoreError :=
  core_error InvalidState "NAP ownership changed during authenticated control setup".
Definition lost_durable_ownership : CoreError :=
  core_error InvalidState "active NAP listener lost durable network ownership".
Definition lost_approval : CoreError :=
  core_error AuthenticationFailed "control session lost approval before listener release".

(** ** Accepting *)

Section listener.
Context {W L S : Type} `{ListenerWorld W L S}.

Abbreviation owned_listener := (ObservedControlListener L * W)%type.
Abbreviation op A := (stres owned_listener CoreError A).

(** [self.listener.take()]. *)
Definition retire_listener : owned_listener -> owned_listener := fun '(o, w) =>
  match ol_listener o with
  | Some l => (mkListener (ol_network o) (ol_endpoint o) None, drop_listener l w)
  | None => (o, w)
  end.

Definition matches_owner (o : ObservedControlListener L) (x : Observation) : bool :=
  bool_decide (x = (Some (ol_network o), Some (ol_endpoint o))).

Definition accept_if_current (observed_network : option NetworkId) (observed_endpoint : option SocketAddrV4) :
    op (option S) := fun '(o, w) =>
  match ol_listener o with
  | None => (Err listener_retired, (o, w))
  | Some l =>
    if negb (bool_decide (observed_network = Some (ol_network o))) || negb (bool_decide (observed_endpoint = Some (ol_endpoint o)))
    then (Err listener_lost, retire_listener (o, w))
    else
      match tcp_accept l w with
      | (Ok socket, w) =>
          match set_blocking socket w with
          | (Ok _, w) => (Ok (Some socket), (o, w))
          | (Err d, w) => (Err (pan_failure "cannot prepare untrusted control TCP socket" d), (o, drop_socket socket w))
          end
      | (Err WouldBlock, w) => (Ok None, (o, w))
      | (Err (AcceptFailed d), w) => (Err (pan_failure "NAP control listener accept failed" d), retire_listener (o, w))
      end
  end.

Definition finish_accepted_observation (socket : S) (observation : CoreResult Observation) : op (option S) := fun '(o, w) =>
  let refuse (e : CoreError) :=
    let '(o, w) := retire_listener (o, w) in (Err e, (o, drop_socket socket (shutdown_both socket w))) in
  match observation with
  | Ok x => if matches_owner o x then (Ok (Some socket), (o, w)) else refuse lost_after_accept
  | Err e => refuse e
  end.

Definition observing {A : Type} (observe : stres W CoreError Observation) (k : CoreResult Observation -> op A) : op A :=
  fun '(o, w) => let (x, w) := observe w in k x (o, w).

Definition accept_with_revalidation (observed_network : option NetworkId) (observed_endpoint : option SocketAddrV4)
    (reobserve : stres W CoreError Observation) : op (option S) :=
  let! accepted := accept_if_current observed_network observed_endpoint in
  match accepted with
  | None => st_ret None
  | Some socket => observing reobserve (finish_accepted_observation socket)
  end.

Definition poll_with_fresh_observations (observe : stres W CoreError Observation) : op (option S) := fun '(o, w) =>
  match ol_listener o with
  | None => (Err listener_retired, (o, w))
  | Some _ => observing observe (fun x =>
      match x with
      | Ok (network, endpoint) => accept_with_revalidation network endpoint observe
      | Err e => fun ow => (Err e, retire_listener ow)
      end) (o, w)
  end.

Definition poll_with_async_observations (observe : stres W CoreError Observation) : op (option S) := fun '(o, w) =>
  match ol_listener o with
  | None => (Err listener_retired, (o, w))
  | Some _ => observing observe (fun x =>
      match x with
      | Ok (network, endpoint) =>
          let! accepted := accept_if_current network endpoint in
          match accepted with
          | None => st_ret None
          | Some socket => observing observe (finish_accepted_observation socket)
          end
      | Err e => fun ow => (Err e, retire_listener ow)
      end) (o, w)
  end.

(** ** Releasing and supervising registered sessions *)

Section sessions.
Context {A : Type} `{OwnedSession A}.

Abbreviation session := (RegisteredControlSession A).
Abbreviation custody := ((session * SharedRegistry) * owned_listener)%type.

Definition session_network (r : session) : NetworkId := k_network (rs_key r).

(** A session that is not handed back is dropped. *)
Definition drop_session {X : Type} (e : CoreError) (rw : session * SharedRegistry) (ow : owned_listener) :
    option (CoreResult X * custody) := Some (Err e, (cancel rw, ow)).

Definition release_registered_if_current (observe : stres W CoreError Observation) : io custody CoreError () :=
  fun '(rw, (o, w)) =>
  match ol_listener o with
  | None => drop_session listener_retired rw (o, w)
  | Some _ =>
    if negb (bool_decide (session_network rw.1 = ol_network o)) then drop_session session_network_differs rw (retire_listener (o, w))
    else
      let (x, w) := observe w in
      match x with
      | Ok x =>
          if matches_owner o x then
            match registered_revalidate rw with
            | None => None
            | Some (Ok _, rw) => Some (Ok (), (rw, (o, w)))
            | Some (Err _, rw) => drop_session lost_approval rw (o, w)
            end
          else drop_session changed_during_setup rw (retire_listener (o, w))
      | Err e => drop_session e rw (retire_listener (o, w))
      end
  end.

Definition release_registered_if_current_async (observe : stres W CoreError Observation) : io custody CoreError () :=
  fun '(rw, (o, w)) =>
  match ol_listener o with
  | None => drop_session listener_retired rw (o, w)
  | Some _ =>
    if negb (bool_decide (session_network rw.1 = ol_network o)) then drop_session session_network_differs rw (retire_listener (o, w))
    else let (x, w) := observe w in release_registered_if_current (fun w => (x, w)) (rw, (o, w))
  end.

(** [retain_mut]: what is kept, what was dropped on the way. *)
Fixpoint retain_current (n : NetworkId) (l : list session) (w : SharedRegistry) :
    option (list session * list session * SharedRegistry) :=
  match l with
  | [] => Some ([], [], w)
  | r :: l =>
    let dropped rw := let '(r, w) := cancel rw in
      match retain_current n l w with Some (kept, gone, w) => Some (kept, r :: gone, w) | None => None end in
    if bool_decide (session_network r = n) then
      match registered_revalidate (r, w) with
      | None => None
      | Some (Ok _, (r, w)) =>
          match retain_current n l w with Some (kept, gone, w) => Some (r :: kept, gone, w) | None => None end
      | Some (Err _, rw) => dropped rw
      end
    else dropped (r, w)
  end.

Fixpoint drop_sessions (l : list session) (w : SharedRegistry) : list session * SharedRegistry :=
  match l with
  | [] => ([], w)
  | r :: l => let '(r, w) := cancel (r, w) in let '(gone, w) := drop_sessions l w in (r :: gone, w)
  end.

(** One tick: its result, the sessions left in the vector, the sessions it dropped. *)
Definition supervise_registered (observe : stres W CoreError Observation) (l : list session) (g : SharedRegistry)
    (ow : owned_listener) : option (CoreResult nat * list session * list session * SharedRegistry * owned_listener) :=
  let fails e ow := let '(gone, g) := drop_sessions l g in Some (Err e, [], gone, g, ow) in
  let '(o, w) := ow in
  match ol_listener o with
  | None => fails listener_retired (o, w)
  | Some _ =>
    let (x, w) := observe w in
    match x with
    | Ok x =>
        if matches_owner o x then
          match retain_current (ol_network o) l g with
          | None => None
          | Some (kept, gone, g) => Some (Ok (length kept), kept, gone, g, (o, w))
          end
        else fails lost_durable_ownership (retire_listener (o, w))
    | Err e => fails e (retire_listener (o, w))
    end
  end.
End sessions.
End listener.

(** ** Polls *)

Section polls.
Context {W L S : Type} `{ListenerWorld W L S}.

Abbreviation owned_listener := (ObservedControlListener L * W)%type.

Definition owner_observation (o : ObservedControlListener L) : Observation := (Some (ol_network o), Some (ol_endpoint o)).

(** What a poll of a live listener does.  A socket is handed out only between
    two observations that both find the listener's own network and endpoint; an
    idle poll observed once; every failure retires the listener, except that a
    socket which could not be made blocking is only dropped. *)
Definition live_poll (observe : stres W CoreError Observation) (l : L) (o : ObservedControlListener L) (w : W)
    (res : CoreResult (option S)) (o' : ObservedControlListener L) (w' : W) : Prop :=
  match res with
  | Ok (Some s) => o' = o /\ exists w1 w2 w3, observe w = (Ok (owner_observation o), w1) /\
      tcp_accept l w1 = (Ok s, w2) /\ set_blocking s w2 = (Ok (), w3) /\ observe w3 = (Ok (owner_observation o), w')
  | Ok None => o' = o /\ exists w1, observe w = (Ok (owner_observation o), w1) /\ tcp_accept l w1 = (Err WouldBlock, w')
  | Err _ => ol_listener o' = None \/
      (o' = o /\ exists s w1 w2 w3 d, observe w = (Ok (owner_observation o), w1) /\ tcp_accept l w1 = (Ok s, w2) /\
         set_blocking s w2 = (Err d, w3) /\ w' = drop_socket s w3)
  end.

Definition poll_outcome (observe : stres W CoreError Observation) (o : ObservedControlListener L) (w : W)
    (res : CoreResult (option S)) (o' : ObservedControlListener L) (w' : W) : Prop :=
  ol_network o' = ol_network o /\ ol_endpoint o' = ol_endpoint o /\
  match ol_listener o with
  | None => res = Err listener_retired /\ o' = o /\ w' = w
  | Some l => live_poll observe l o w res o' w'
  end.

Lemma retire_listener_spec (o : ObservedControlListener L) (w : W) :
  let o' := (retire_listener (o, w)).1 in
  ol_network o' = ol_network o /\ ol_endpoint o' = ol_endpoint o /\ ol_listener o' = None.
Proof. unfold retire_listener. destruct (ol_listener o) eqn:Ho; by cbn. Qed.

Lemma matches_owner_true (o : ObservedControlListener L) (x : Observation) :
  matches_owner o x = true <-> x = owner_observation o.
Proof. apply bool_decide_eq_true. Qed.

Lemma poll_with_async_observations_spec (observe : stres W CoreError Observation) (o : ObservedControlListener L) (w : W)
    (res : CoreResult (option S)) (o' : ObservedControlListener L) (w' : W) :
  poll_with_async_observations observe (o, w) = (res, (o', w')) -> poll_outcome observe o w res o' w'.
Proof.
  unfold poll_with_async_observations, poll_outcome. destruct (ol_listener o) as [l|] eqn:Hl; [|by intros [= <- <- <-]].
  unfold observing at 1. destruct (observe w) as [[[n e]|e] w1] eqn:Hobs; cycle 1.
  { pose proof (retire_listener_spec o w1) as (Hn & He & Hnone). destruct (retire_listener (o, w1)) as [o2 v].
    intros [= <- <- <-]. split_and!; [done..|by left]. }
  unfold st_bind, accept_if_current. rewrite Hl.
  destruct (_ || _) eqn:Hcur.
  { pose proof (retire_listener_spec o w1) as (Hn & He & Hnone). destruct (retire_listener (o, w1)) as [o2 v].
    intros [= <- <- <-]. split_and!; [done..|by left]. }
  apply orb_false_iff in Hcur as [Hn%negb_false_iff%bool_decide_eq_true He%negb_false_iff%bool_decide_eq_true]. subst n e.
  destruct (tcp_accept l w1) as [[s|[|d]] w2] eqn:Hacc.
  - destruct (set_blocking s w2) as [[[]|d] w3] eqn:Hset; cycle 1.
    { intros [= <- <- <-]. split_and!; [done..|]. right. split; [done|]. by exists s, w1, w2, w3, d. }
    unfold observing. destruct (observe w3) as [x w4] eqn:Hobs2. unfold finish_accepted_observation.
    assert (forall e, (let '(o, w) := retire_listener (o, w4) in (Err e : CoreResult (option S), (o, drop_socket s (shutdown_both s w)))) =
      (res, (o', w')) -> ol_network o' = ol_network o /\ ol_endpoint o' = ol_endpoint o /\ live_poll observe l o w res o' w') as Hrefuse.
    { intros e. pose proof (retire_listener_spec o w4) as (Hn & He & Hnone). destruct (retire_listener (o, w4)) as [o2 w5].
      intros [= <- <- <-]. split_and!; [done..|by left]. }
    destruct x as [x|e]; [|apply Hrefuse]. destruct (matches_owner o x) eqn:Hm; [|apply Hrefuse].
    apply matches_owner_true in Hm as ->. intros [= <- <- <-]. split_and!; [done..|]. split; [done|]. by exists w1, w2, w3.
  - intros [= <- <- <-]. split_and!; [done..|]. split; [done|]. by exists w1.
  - pose proof (retire_listener_spec o w2) as (Hn & He & Hnone). destruct (retire_listener (o, w2)) as [o2 v].
    intros [= <- <- <-]. split_and!; [done..|by left].
Qed.

(** The closure form and the awaited form are one computation. *)
Lemma poll_forms_agree (observe : stres W CoreError Observation) (ow : owned_listener) :
  poll_with_fresh_observations (S := S) observe ow = poll_with_async_observations observe ow.
Proof. destruct ow as [o w]. done. Qed.

(** A history of polls, each with its own observation, with other processes
    acting on the world before each; the record keeps each poll's observation,
    its result and the listener and world it started and ended in. *)
Record poll_event := mkPoll {
  pe_observe : stres W CoreError Observation;
  pe_before : owned_listener;
  pe_result : CoreResult (option S);
  pe_after : owned_listener;
}.

Fixpoint run_polls (l : list ((W -> W) * stres W CoreError Observation)) (ow : owned_listener) : list poll_event :=
  match l with
  | [] => []
  | (others, observe) :: l =>
    let ow := (ow.1, others ow.2) in
    let '(res, ow') := poll_with_async_observations observe ow in
    mkPoll observe ow res ow' :: run_polls l ow'
  end.

Definition poll_sound (e : poll_event) : Prop :=
  poll_outcome (pe_observe e) (pe_before e).1 (pe_before e).2 (pe_result e) (pe_after e).1 (pe_after e).2.

Lemma run_polls_sound l (ow : owned_listener) : Forall poll_sound (run_polls l ow).
Proof.
  revert ow. induction l as [|[others observe] l IH]; intros ow; cbn [run_polls]; [constructor|].
  destruct (poll_with_async_observations observe (ow.1, others ow.2)) as [res [o' w']] eqn:Hp.
  constructor; [|apply IH]. by apply poll_with_async_observations_spec in Hp.
Qed.

Lemma run_polls_retired l (ow : owned_listener) :
  ol_listener ow.1 = None -> Forall (fun e => pe_result e = Err listener_retired /\ pe_after e = pe_before e) (run_polls l ow).
Proof.
  revert ow. induction l as [|[others observe] l IH]; intros ow Hnone; cbn [run_polls]; [constructor|].
  destruct (poll_with_async_observations observe (ow.1, others ow.2)) as [res [o' w']] eqn:Hp.
  destruct (poll_with_async_observations_spec _ _ _ _ _ _ Hp) as (_ & _ & Hout). rewrite Hnone in Hout.
  destruct Hout as (-> & -> & ->). constructor; [done|]. by apply IH.
Qed.

(** Every poll is of the listener the history started with. *)
Lemma run_polls_identity l (ow : owned_listener) :
  Forall (fun e => ol_network (pe_before e).1 = ol_network ow.1 /\ ol_endpoint (pe_before e).1 = ol_endpoint ow.1) (run_polls l ow).
Proof.
  revert ow. induction l as [|[others observe] l IH]; intros ow; cbn [run_polls]; [constructor|].
  destruct (poll_with_async_observations observe (ow.1, others ow.2)) as [res [o' w']] eqn:Hp.
  destruct (poll_with_async_observations_spec _ _ _ _ _ _ Hp) as (Hn & He & _). constructor; [done|].
  eapply Forall_impl; [apply IH|]. cbn. intros e [-> ->]. done.
Qed.

(** Nothing follows the poll that retires the listener but refusals. *)
Lemma run_polls_final l (ow : owned_listener) pre e post :
  run_polls l ow = pre ++ e :: post -> ol_listener (pe_after e).1 = None ->
  Forall (fun e => pe_result e = Err listener_retired /\ pe_after e = pe_before e) post.
Proof.
  revert ow pre. induction l as [|[others observe] l IH]; intros ow pre; cbn [run_polls]; [by destruct pre|].
  destruct (poll_with_async_observations observe (ow.1, others ow.2)) as [res ow'] eqn:Hp.
  destruct pre as [|e0 pre]; intros [= He Hrest] Hnone; [|by eapply IH]. subst e. rewrite <- Hrest. by apply run_polls_retired.
Qed.
End polls.

(** ** Sessions *)

Section supervision.
Context {W L S A : Type} `{ListenerWorld W L S} `{LawfulSession A}.

Abbreviation session := (RegisteredControlSession A).

Definition session_ids (r : session) : PeerSessionKey * bytes 16 := (rs_key r, rs_session_id r).
Definition closed_session (r : session) : Prop := os_terminal (rs_session r) = true /\ os_shut (rs_session r).
Definition ready_session (r : session) : Prop := os_ready (rs_session r).

(** The session's own recheck of durable approval passed. *)
Definition revalidated (r r' : session) : Prop :=
  session_ids r' = session_ids r /\ os_revalidate (rs_session r) = Some (Ok (), rs_session r').

Lemma revalidate_cases (r : session) g :
  ready_session r ->
  exists res r' g', registered_revalidate (r, g) = Some (res, (r', g')) /\ session_ids r' = session_ids r /\
    match res with
    | Ok _ => revalidated r r' /\ current r (acquire g) /\ current r' g' /\ g' = acquire (acquire g)
    | Err _ => let_go r' g' /\ exists n, g' = retire (rs_key r) (rs_session_id r) (Nat.iter n acquire g)
    end.
Proof.
  intros Hready. destruct (revalidate_law (rs_session r) Hready) as (x & a & Hm & _).
  destruct (supervised_spec os_revalidate (fun _ => false) ensure_active_registration r g ensure_active_checks
    ltac:(eauto)) as (res & r' & g' & Hrun & Hk & Hid & Hres).
  exists res, r', g'. split; [exact Hrun|]. split; [unfold session_ids; by rewrite Hk, Hid|].
  destruct res as [[]|e].
  - destruct Hres as (Hc & Hrest). cbn in Hrest. destruct Hrest as (Hv & Hc' & Hg).
    split; [split; [unfold session_ids; by rewrite Hk, Hid|exact Hv]|]. done.
  - destruct Hres as (Hl & Hn & _). done.
Qed.

Lemma cancel_closes (r r' : session) g g' :
  cancel (r, g) = (r', g') ->
  session_ids r' = session_ids r /\ let_go r' g' /\ g' = retire (rs_key r) (rs_session_id r) g.
Proof.
  intros Hc. pose proof (close_and_retire_spec r g) as Hs. unfold cancel in Hc. rewrite Hc in Hs.
  destruct Hs as (Hk & Hid & Hl & ->). split; [unfold session_ids; by rewrite Hk, Hid|]. done.
Qed.

Lemma drop_sessions_spec (l gone : list session) g g' :
  drop_sessions l g = (gone, g') -> session_ids <$> gone = session_ids <$> l /\ Forall closed_session gone.
Proof.
  revert gone g. induction l as [|r l IH]; intros gone g; cbn [drop_sessions]; [by intros [= <- <-]|].
  destruct (cancel (r, g)) as [r1 g1] eqn:Hc. destruct (drop_sessions l g1) as [gone1 g2] eqn:Hd. intros [= <- <-].
  destruct (cancel_closes _ _ _ _ Hc) as (Hid & (Ht & Hs & _) & _). destruct (IH _ _ Hd) as [IH1 IH2].
  split; [cbn [fmap list_fmap]; by rewrite Hid, IH1|]. by constructor.
Qed.

(** What a tick keeps and drops. *)
Definition retention (n : NetworkId) (l kept gone : list session) : Prop :=
  session_ids <$> (kept ++ gone) ≡ₚ session_ids <$> l /\
  (session_ids <$> kept) `sublist_of` (session_ids <$> l) /\
  Forall (fun r => session_network r = n /\ exists r0, r0 ∈ l /\ revalidated r0 r) kept /\
  Forall closed_session gone.

Lemma retention_drop n l kept gone (r r' : session) :
  session_ids r' = session_ids r -> closed_session r' -> retention n l kept gone -> retention n (r :: l) kept (r' :: gone).
Proof.
  intros Hid Hc (Hp & Hs & Hk & Hg). split_and!.
  - rewrite fmap_app in *. cbn [fmap list_fmap]. rewrite Hid, <- Permutation_middle. by rewrite Hp.
  - by apply sublist_cons.
  - eapply Forall_impl; [exact Hk|]. cbn. intros x (Hn & r0 & Hin & Hv). split; [done|]. exists r0. split; [by right|done].
  - by constructor.
Qed.
Lemma retention_keep n l kept gone (r r' : session) :
  session_network r' = n -> revalidated r r' -> retention n l kept gone -> retention n (r :: l) (r' :: kept) gone.
Proof.
  intros Hn Hv (Hp & Hs & Hk & Hg). split_and!.
  - cbn [fmap list_fmap app]. rewrite (proj1 Hv). by rewrite Hp.
  - cbn [fmap list_fmap]. rewrite (proj1 Hv). by apply sublist_skip.
  - constructor; [split; [done|]; exists r; split; [by left|done]|].
    eapply Forall_impl; [exact Hk|]. cbn. intros x (Hx & r0 & Hin & Hv0). split; [done|]. exists r0. split; [by right|done].
  - done.
Qed.

Lemma retain_current_spec n (l : list session) g :
  Forall ready_session l -> exists kept gone g', retain_current n l g = Some (kept, gone, g') /\ retention n l kept gone.
Proof.
  revert g. induction l as [|r l IH]; intros g Hready; cbn [retain_current].
  { exists [], [], g. split; [done|]. by split_and!. }
  apply Forall_cons in Hready as [Hr Hl].
  assert (forall rw : session * SharedRegistry, session_ids rw.1 = session_ids r ->
    exists kept gone g', (let '(r, w) := cancel rw in
      match retain_current n l w with Some (kept, gone, w) => Some (kept, r :: gone, w) | None => None end) = Some (kept, gone, g') /\
      retention n (r :: l) kept gone) as Hdrop.
  { intros [r1 g1] Hid. destruct (cancel (r1, g1)) as [r2 g2] eqn:Hc.
    destruct (cancel_closes _ _ _ _ Hc) as (Hid2 & (Ht & Hs & _) & _).
    destruct (IH g2 Hl) as (kept & gone & g3 & -> & Hret). exists kept, (r2 :: gone), g3. split; [done|].
    apply retention_drop; [by rewrite Hid2|done|done]. }
  case_bool_decide as Hn; [|by apply (Hdrop (r, g))].
  destruct (revalidate_cases r g Hr) as (res & r' & g' & -> & Hid & Hres). destruct res as [[]|e]; [|by apply (Hdrop (r', g'))].
  destruct Hres as (Hv & _). destruct (IH g' Hl) as (kept & gone & g3 & -> & Hret).
  exists (r' :: kept), gone, g3. split; [done|]. apply retention_keep; [|done|done].
  unfold session_network. injection Hid as -> _. done.
Qed.

Lemma supervise_registered_spec (observe : stres W CoreError Observation) (l : list session) g o w :
  Forall ready_session l ->
  exists res kept gone g' o' w',
    supervise_registered observe l g (o, w) = Some (res, kept, gone, g', (o', w')) /\
    ol_network o' = ol_network o /\ ol_endpoint o' = ol_endpoint o /\
    match res with
    | Ok k => ol_listener o <> None /\ o' = o /\ observe w = (Ok (owner_observation o), w') /\ k = length kept /\
        retention (ol_network o) l kept gone
    | Err e => ol_listener o' = None /\ kept = [] /\ session_ids <$> gone = session_ids <$> l /\ Forall closed_session gone /\
        (ol_listener o = None /\ e = listener_retired /\ w' = w \/
         ol_listener o <> None /\ (observe w).1 <> Ok (owner_observation o))
    end.
Proof.
  intros Hready. unfold supervise_registered. destruct (drop_sessions l g) as [gone0 g0] eqn:Hd.
  destruct (drop_sessions_spec _ _ _ _ Hd) as [Hids Hclosed].
  destruct (ol_listener o) as [li|] eqn:Hli; cycle 1.
  { exists (Err listener_retired), [], gone0, g0, o, w. split; [done|]. split_and!; [done..|]. by left. }
  destruct (observe w) as [[x|e] w1] eqn:Hobs.
  - destruct (matches_owner o x) eqn:Hm.
    + apply matches_owner_true in Hm as ->. destruct (retain_current_spec (ol_network o) l g Hready) as (kept & gone & g' & -> & Hret).
      exists (Ok (length kept)), kept, gone, g', o, w1. split; [done|]. by split_and!.
    + pose proof (retire_listener_spec o w1) as (Hn & He & Hnone). destruct (retire_listener (o, w1)) as [o2 w2].
      exists (Err lost_durable_ownership), [], gone0, g0, o2, w2. split; [done|]. split_and!; [done..|]. right. split; [done|].
      cbn [fst]. intros [= ->]. by rewrite (proj2 (matches_owner_true o _) eq_refl) in Hm.
  - pose proof (retire_listener_spec o w1) as (Hn & He & Hnone). destruct (retire_listener (o, w1)) as [o2 w2].
    exists (Err e), [], gone0, g0, o2, w2. split; [done|]. split_and!; [done..|]. by right.
Qed.

(** *** Without other threads on the registry *)

(** What lets a session survive a tick: it is of the network, its generation is
    the active one, and its approval still stands. *)
Definition approved_session (n : NetworkId) (g : SharedRegistry) (r : session) : Prop :=
  session_network r = n /\ current r g /\ os_terminal (rs_session r) = false /\
  exists a, os_revalidate (rs_session r) = Some (Ok (), a) /\ os_terminal a = false.

Lemma acquire_quiet (g : SharedRegistry) : sh_others g = [] -> acquire g = g.
Proof. unfold acquire. by intros ->. Qed.
Lemma iter_acquire_quiet n (g : SharedRegistry) : sh_others g = [] -> Nat.iter n acquire g = g.
Proof.
  intros Hq. induction n as [|n IH]; [done|]. change (acquire (Nat.iter n acquire g) = g). rewrite IH. by apply acquire_quiet.
Qed.

Definition others_kept (ids : PeerSessionKey * bytes 16) (g g' : SharedRegistry) : Prop :=
  sh_others g' = [] /\ lk_poisoned (sh_lock g') = lk_poisoned (sh_lock g) /\
  ~ holds (lk_registry (sh_lock g')) ids.1 ids.2 /\
  forall k e, (k, e_session e) <> ids ->
    sessions (lk_registry (sh_lock g')) !! k = Some e <-> sessions (lk_registry (sh_lock g)) !! k = Some e.

Lemma retire_quiet key id (g : SharedRegistry) : sh_others g = [] -> others_kept (key, id) g (retire key id g).
Proof.
  intros Hq. unfold retire. rewrite (acquire_quiet g Hq).
  destruct (remove_if_current_spec key id (lk_registry (sh_lock g))) as (Hn & _ & _ & Hall).
  split; [exact Hq|]. split; [done|]. split; [exact Hn|exact Hall].
Qed.

Lemma current_others (r : session) ids g g' : session_ids r <> ids -> others_kept ids g g' -> current r g <-> current r g'.
Proof.
  intros Hne (_ & Hp & _ & Hall). unfold current. rewrite Hp. specialize (Hall (rs_key r) (mkEntry (rs_session_id r) Active) Hne).
  tauto.
Qed.

Lemma approved_others n (r : session) ids g g' :
  session_ids r <> ids -> others_kept ids g g' -> approved_session n g r <-> approved_session n g' r.
Proof. intros Hne Ho. unfold approved_session. by rewrite (current_others r ids g g' Hne Ho). Qed.

Lemma approved_revalidates n (r : session) g :
  sh_others g = [] -> approved_session n g r ->
  exists r', registered_revalidate (r, g) = Some (Ok (), (r', g)) /\ session_ids r' = session_ids r /\ current r' g.
Proof.
  intros Hq (_ & Hc & Ht & a & Hm & Hta). unfold registered_revalidate, supervised, io_bind.
  assert (forall r : session, current r g -> os_terminal (rs_session r) = false -> ensure_active_registration (r, g) = Some (Ok (), (r, g))) as Hen.
  { intros r0 Hc0 Ht0. unfold ensure_active_registration, io_bind, ensure_current_registration. rewrite (acquire_quiet g Hq).
    rewrite (proj2 (active_is_current r0 g) Hc0), Ht0. done. }
  rewrite (Hen r Hc Ht), Hm, (Hen (put_session a r)); [|exact Hc|exact Hta]. by exists (put_session a r).
Qed.

Lemma retain_current_quiet n (l kept gone : list session) g g' :
  sh_others g = [] -> Forall ready_session l -> NoDup (session_ids <$> l) ->
  retain_current n l g = Some (kept, gone, g') ->
  sh_others g' = [] /\ lk_poisoned (sh_lock g') = lk_poisoned (sh_lock g) /\
  Forall (fun r => ~ holds (lk_registry (sh_lock g')) (rs_key r) (rs_session_id r)) gone /\
  Forall (fun r => current r g') kept /\
  (forall r, r ∈ l -> approved_session n g r -> session_ids r ∈ session_ids <$> kept) /\
  (forall k e, (k, e_session e) ∉ session_ids <$> l ->
     sessions (lk_registry (sh_lock g')) !! k = Some e <-> sessions (lk_registry (sh_lock g)) !! k = Some e).
Proof.
  revert kept gone g g'. induction l as [|r l IH]; intros kept gone g g' Hq Hready Hnd; cbn [retain_current].
  { intros [= <- <- <-]. split_and!; [done..|by intros r Hr%elem_of_nil|done]. }
  apply Forall_cons in Hready as [Hr Hl]. cbn [fmap list_fmap] in Hnd. apply NoDup_cons in Hnd as [Hfresh Hnd].
  assert (forall g1 kept gone g', others_kept (session_ids r) g g1 -> ~ approved_session n g r ->
    retain_current n l g1 = Some (kept, gone, g') -> forall r2, session_ids r2 = session_ids r ->
    sh_others g' = [] /\ lk_poisoned (sh_lock g') = lk_poisoned (sh_lock g) /\
    Forall (fun r => ~ holds (lk_registry (sh_lock g')) (rs_key r) (rs_session_id r)) (r2 :: gone) /\
    Forall (fun r => current r g') kept /\
    (forall r0, r0 ∈ r :: l -> approved_session n g r0 -> session_ids r0 ∈ session_ids <$> kept) /\
    (forall k e, (k, e_session e) ∉ session_ids <$> (r :: l) ->
      sessions (lk_registry (sh_lock g')) !! k = Some e <-> sessions (lk_registry (sh_lock g)) !! k = Some e)) as Hdrop.
  { intros g1 kept1 gone1 g2 Ho Hnot Hrun r2 Hr2. pose proof Ho as (Hq1 & Hp1 & Hn1 & Hall1).
    destruct (IH _ _ _ _ Hq1 Hl Hnd Hrun) as (I1 & I2 & I3 & I4 & I5 & I6).
    split; [done|]. split; [congruence|]. split.
    { constructor; [|done]. intros (e & He & Hid). injection Hr2 as Hk Hi. apply Hn1. exists e. cbn [fst snd session_ids].
      split; [|congruence]. rewrite <- Hk. apply I6; [|done]. rewrite Hid, Hk, Hi. exact Hfresh. }
    split; [done|]. split.
    { intros r0 [->|Hin]%elem_of_cons Ha; [done|]. apply I5; [done|]. apply (approved_others n r0 (session_ids r) g g1); [|done|done].
      intros Heq. apply Hfresh. rewrite <- Heq. by apply list_elem_of_fmap_2. }
    intros k e [Hne Hin]%not_elem_of_cons. rewrite I6 by done. by apply Hall1. }
  assert (forall (r1 : session), session_ids r1 = session_ids r ->
    forall g0, (g0 = g \/ others_kept (session_ids r) g g0) -> ~ approved_session n g r ->
    (let '(r, w) := cancel (r1, g0) in
      match retain_current n l w with Some (kept, gone, w) => Some (kept, r :: gone, w) | None => None end) = Some (kept, gone, g') ->
    sh_others g' = [] /\ lk_poisoned (sh_lock g') = lk_poisoned (sh_lock g) /\
    Forall (fun r => ~ holds (lk_registry (sh_lock g')) (rs_key r) (rs_session_id r)) gone /\
    Forall (fun r => current r g') kept /\
    (forall r0, r0 ∈ r :: l -> approved_session n g r0 -> session_ids r0 ∈ session_ids <$> kept) /\
    (forall k e, (k, e_session e) ∉ session_ids <$> (r :: l) ->
      sessions (lk_registry (sh_lock g')) !! k = Some e <-> sessions (lk_registry (sh_lock g)) !! k = Some e)) as Hcancel.
  { intros r1 Hid g0 Hg0 Hnot. destruct (cancel (r1, g0)) as [r2 g1] eqn:Hc.
    destruct (cancel_closes _ _ _ _ Hc) as (Hid2 & _ & Hg1).
    assert (others_kept (session_ids r) g g1) as Ho.
    { injection Hid as Hk Hi. rewrite Hk, Hi in Hg1. destruct Hg0 as [->|Ho]; [subst g1; by apply retire_quiet|].
      destruct (retire_quiet (rs_key r) (rs_session_id r) g0 (proj1 Ho)) as (Q1 & Q2 & Q3 & Q4). rewrite <- Hg1 in *.
      destruct Ho as (P1 & P2 & P3 & P4). split; [done|]. split; [congruence|]. split; [done|].
      intros k e Hne. rewrite Q4 by done. by apply P4. }
    destruct (retain_current n l g1) as [[[kept1 gone1] g2]|] eqn:Hrun; [|done]. intros [= <- <- <-].
    apply (Hdrop g1 kept1 gone1 g2 Ho Hnot Hrun r2). congruence. }
  case_bool_decide as Hn; cycle 1.
  { apply (Hcancel r eq_refl g); [by left|]. intros (Hn' & _). done. }
  destruct (revalidate_cases r g Hr) as (res & r' & g1 & Hrun & Hid & Hres). rewrite Hrun. destruct res as [[]|e]; cycle 1.
  { apply (Hcancel r' Hid g1).
    - right. destruct Hres as (_ & k & ->). rewrite (iter_acquire_quiet k g Hq). by apply retire_quiet.
    - intros Ha. destruct (approved_revalidates n r g Hq Ha) as (r0 & Hr0 & _). congruence. }
  destruct Hres as (_ & _ & Hc & ->). rewrite !(acquire_quiet g Hq) in *.
  destruct (retain_current n l g) as [[[kept1 gone1] g2]|] eqn:Hrest; [|done]. intros [= <- <- <-].
  destruct (IH _ _ _ _ Hq Hl Hnd Hrest) as (I1 & I2 & I3 & I4 & I5 & I6).
  split; [done|]. split; [done|]. split; [done|]. split.
  { constructor; [|done]. destruct Hc as [Hc1 Hc2]. split; [by rewrite I2|]. apply I6; [|done].
    cbn [e_session]. change (session_ids r' ∉ session_ids <$> l). by rewrite Hid. }
  split.
  - intros r0 [->|Hin]%elem_of_cons Ha; cbn [fmap list_fmap]; [rewrite Hid; by left|right; by apply I5].
  - intros k e [Hne Hin]%not_elem_of_cons. by apply I6.
Qed.

End supervision.

(** *** Releasing a session *)

Section release.
Context {W L S A : Type} `{ListenerWorld W L S} `{LawfulSession A}.

Abbreviation session := (RegisteredControlSession A).

Definition released (observe : stres W CoreError Observation) (r : session) (g : SharedRegistry)
    (o : ObservedControlListener L) (w : W) (res : CoreResult ()) (r' : session) (g' : SharedRegistry)
    (o' : ObservedControlListener L) (w' : W) : Prop :=
  session_ids r' = session_ids r /\ ol_network o' = ol_network o /\ ol_endpoint o' = ol_endpoint o /\
  match res with
  | Ok _ => ol_listener o <> None /\ o' = o /\ session_network r = ol_network o /\
      observe w = (Ok (owner_observation o), w') /\ revalidated r r' /\ current r' g'
  | Err e => let_go r' g' /\
      (ol_listener o' = None \/ (o' = o /\ e = lost_approval /\ observe w = (Ok (owner_observation o), w')))
  end.

Lemma drop_session_spec {X : Type} e (rw : session * SharedRegistry) (ow : ObservedControlListener L * W) :
  exists r' g', drop_session (X := X) e rw ow = Some (Err e, ((r', g'), ow)) /\ session_ids r' = session_ids rw.1 /\ let_go r' g'.
Proof.
  unfold drop_session. destruct rw as [r g]. destruct (cancel (r, g)) as [r' g'] eqn:Hc.
  destruct (cancel_closes _ _ _ _ Hc) as (Hid & Hl & _). by exists r', g'.
Qed.

Lemma release_registered_if_current_spec (observe : stres W CoreError Observation) (r : session) g o w :
  ready_session r ->
  exists res r' g' o' w', release_registered_if_current_async observe ((r, g), (o, w)) = Some (res, ((r', g'), (o', w'))) /\
    released observe r g o w res r' g' o' w'.
Proof.
  intros Hready. unfold release_registered_if_current_async, release_registered_if_current, released. cbn [fst].
  destruct (ol_listener o) as [li|] eqn:Hli; cycle 1.
  { destruct (drop_session_spec (X := ()) listener_retired (r, g) (o, w)) as (r' & g' & -> & Hid & Hl).
    exists (Err listener_retired), r', g', o, w. split; [done|]. split_and!; [done..|by left]. }
  assert (forall w e, exists r' g' o' w', drop_session (X := ()) e (r, g) (retire_listener (o, w)) =
    Some (Err e, ((r', g'), (o', w'))) /\ session_ids r' = session_ids r /\ ol_network o' = ol_network o /\
    ol_endpoint o' = ol_endpoint o /\ let_go r' g' /\ ol_listener o' = None) as Hretire.
  { intros w0 e. pose proof (retire_listener_spec o w0) as (Hn & He & Hnone). destruct (retire_listener (o, w0)) as [o2 w2].
    destruct (drop_session_spec (X := ()) e (r, g) (o2, w2)) as (r' & g' & -> & Hid & Hl). by exists r', g', o2, w2. }
  case_bool_decide as Hnet; cbn [negb]; cycle 1.
  { destruct (Hretire w session_network_differs) as (r' & g' & o' & w' & -> & Hid & Hn & He & Hl & Hnone).
    exists (Err session_network_differs), r', g', o', w'. split; [done|]. split_and!; [done..|by left]. }
  destruct (observe w) as [x w1] eqn:Hobs. destruct x as [x|e]; cycle 1.
  { destruct (Hretire w1 e) as (r' & g' & o' & w' & -> & Hid & Hn & He & Hl & Hnone).
    exists (Err e), r', g', o', w'. split; [done|]. split_and!; [done..|by left]. }
  destruct (matches_owner o x) eqn:Hm; cycle 1.
  { destruct (Hretire w1 changed_during_setup) as (r' & g' & o' & w' & -> & Hid & Hn & He & Hl & Hnone).
    exists (Err changed_during_setup), r', g', o', w'. split; [done|]. split_and!; [done..|by left]. }
  apply matches_owner_true in Hm as ->.
  destruct (revalidate_cases r g Hready) as (res & r1 & g1 & -> & Hid & Hres). destruct res as [[]|e].
  - destruct Hres as (Hv & _ & Hc & _). exists (Ok ()), r1, g1, o, w1. split; [done|]. by split_and!.
  - destruct (drop_session_spec (X := ()) lost_approval (r1, g1) (o, w1)) as (r' & g' & -> & Hid2 & Hl).
    exists (Err lost_approval), r', g', o, w1. split; [done|]. cbn [fst] in Hid2. split_and!; [congruence|done|done|done|by right].
Qed.
End release.

(** ** Over the daemon's own observations *)

#[global] Instance pair_listener_world (D W L S : Type) `{ListenerWorld W L S} : ListenerWorld (D * W) L S := {
  tcp_accept l := fun '(d, w) => let (x, w) := tcp_accept l w in (x, (d, w));
  set_blocking s := fun '(d, w) => let (x, w) := set_blocking s w in (x, (d, w));
  shutdown_both s := fun '(d, w) => (d, shutdown_both s w);
  drop_socket s := fun '(d, w) => (d, drop_socket s w);
  drop_listener l := fun '(d, w) => (d, drop_listener l w);
}.

Section durable.
Context {M R G L W S : Type} `{RegistryStore M} `{ControlRuntime R L} `{ListenerWorld W L S}.
Context (config : DaemonConfig).

Abbreviation daemon := (SingleStar M R G * W)%type.

Definition durable_observation (expected_network : NetworkId) : stres daemon CoreError Observation :=
  fun '(s, w) => let (x, s) := observe_durable_owned_endpoint config expected_network s in (x, (s, w)).

Definition poll_from_durable_network_operations : stres (ObservedControlListener L * daemon) CoreError (option S) :=
  fun '(o, w) => poll_with_async_observations (durable_observation (ol_network o)) (o, w).

Definition release_registered_from_durable_network_operations {A : Type} `{OwnedSession A} :
    io ((RegisteredControlSession A * SharedRegistry) * (ObservedControlListener L * daemon)) CoreError () :=
  fun '(rw, (o, w)) => release_registered_if_current_async (durable_observation (ol_network o)) (rw, (o, w)).

Definition supervise_registered_from_durable_network_operations {A : Type} `{OwnedSession A}
    (sessions : list (RegisteredControlSession A)) (g : SharedRegistry) (ow : ObservedControlListener L * daemon) :=
  supervise_registered (durable_observation (ol_network ow.1)) sessions g ow.
End durable.

(** ** Claims *)

(** Polling an owned control listener.  In any history of polls, each with
    its own ownership observation and with others acting in between, every poll
    is of the network and endpoint the listener was made for; a socket leaves
    the listener only between two observations, the first before and the second
    after the accept, that both find exactly those; an idle poll observed them
    once; a failed poll retires the listener, or dropped a socket it could not
    prepare; and after the poll that retires it every further poll is refused
    without observing or accepting anything. *)
Theorem listener_polls_gated {W L S : Type} `{ListenerWorld W L S}
    (l : list ((W -> W) * stres W CoreError Observation)) (ow : ObservedControlListener L * W) :
  Forall poll_sound (run_polls l ow) /\
  Forall (fun e => ol_network (pe_before e).1 = ol_network ow.1 /\ ol_endpoint (pe_before e).1 = ol_endpoint ow.1) (run_polls l ow) /\
  forall pre e post, run_polls l ow = pre ++ e :: post -> ol_listener (pe_after e).1 = None ->
    Forall (fun e => pe_result e = Err listener_retired /\ pe_after e = pe_before e) post.
Proof.
  split; [apply run_polls_sound|]. split; [apply run_polls_identity|]. intros pre e post. apply run_polls_final.
Qed.

(** A socket accepted from the daemon's own observations was accepted while
    this node was durably a member of the listener's network and hosted it: once
    before and once after the accept the membership file named the network, and
    between two of its loads a running host was found whose planned address the
    backend attributed to it alone and which is the listener's endpoint. *)
Theorem durable_poll_owned {M B G L W S : Type} `{RegistryStore M} `{HostBackends B} `{TcpHost B L} `{ListenerWorld W L S}
    (config : DaemonConfig) (o o' : ObservedControlListener L)
    (s s' : SingleStar M (LinuxStarHostRuntime B) G) (w w' : W) (socket : S)
    (Hpoll : poll_from_durable_network_operations config (o, (s, w)) = (Ok (Some socket), (o', (s', w')))) :
  o' = o /\ exists l s1 w1 w2,
    ol_listener o = Some l /\ endpoint_witnessed config (ol_network o) (ol_endpoint o) s s1 /\
    tcp_accept l w = (Ok socket, w1) /\ set_blocking socket w1 = (Ok (), w2) /\
    endpoint_witnessed config (ol_network o) (ol_endpoint o) s1 s' /\ w' = w2.
Proof.
  destruct (poll_with_async_observations_spec _ _ _ _ _ _ Hpoll) as (_ & _ & Hout).
  destruct (ol_listener o) as [l|]; [|destruct Hout as [? _]; done].
  destruct Hout as (-> & [s1 v1] & [s2 v2] & [s3 v3] & Ho1 & Ha & Hb & Ho2). split; [done|].
  unfold durable_observation, owner_observation in Ho1, Ho2. cbn [tcp_accept set_blocking pair_listener_world] in Ha, Hb.
  destruct (observe_durable_owned_endpoint config (ol_network o) s) as [x1 t1] eqn:E1. injection Ho1 as -> <- <-.
  destruct (tcp_accept l w) as [y a1] eqn:Ea. injection Ha as -> <- <-.
  destruct (set_blocking socket a1) as [z a2] eqn:Eb. injection Hb as -> <- <-.
  destruct (observe_durable_owned_endpoint config (ol_network o) t1) as [x2 t2] eqn:E2. injection Ho2 as -> <- <-.
  exists l, t1, a1, a2. split; [done|]. split; [by apply observe_durable_Ok in E1 as [_ E1]|]. split; [done|]. split; [done|].
  split; [by apply observe_durable_Ok in E2 as [_ E2]|done].
Qed.

(** One supervision tick over the sessions of a listener.  It always answers.
    It succeeds only on an observation of exactly the listener's network and
    endpoint; then the sessions it keeps, in order, are of that network and have
    just passed their approval recheck, and all the others are closed.  When it
    fails no session is kept: every one is closed, and the listener is retired.
    Without other threads on the registry, the kept sessions are the active
    generations of their peers, the dropped ones are out of the registry, which
    is otherwise untouched, and a session that is approved and active is kept. *)
Theorem supervision_tick {W L S A : Type} `{ListenerWorld W L S} `{LawfulSession A}
    (observe : stres W CoreError Observation) (l : list (RegisteredControlSession A)) (g : SharedRegistry)
    (o : ObservedControlListener L) (w : W) (Hready : Forall ready_session l) :
  exists res kept gone g' o' w',
    supervise_registered observe l g (o, w) = Some (res, kept, gone, g', (o', w')) /\
    ol_network o' = ol_network o /\ ol_endpoint o' = ol_endpoint o /\
    match res with
    | Ok k => ol_listener o <> None /\ o' = o /\ observe w = (Ok (owner_observation o), w') /\ k = length kept /\
        retention (ol_network o) l kept gone /\
        (sh_others g = [] -> NoDup (session_ids <$> l) ->
           Forall (fun r => ~ holds (lk_registry (sh_lock g')) (rs_key r) (rs_session_id r)) gone /\
           Forall (fun r => current r g') kept /\
           (forall r, r ∈ l -> approved_session (ol_network o) g r -> session_ids r ∈ session_ids <$> kept) /\
           (forall k e, (k, e_session e) ∉ session_ids <$> l ->
              sessions (lk_registry (sh_lock g')) !! k = Some e <-> sessions (lk_registry (sh_lock g)) !! k = Some e))
    | Err e => ol_listener o' = None /\ kept = [] /\ session_ids <$> gone = session_ids <$> l /\ Forall closed_session gone /\
        (ol_listener o = None /\ e = listener_retired /\ w' = w \/
         ol_listener o <> None /\ (observe w).1 <> Ok (owner_observation o))
    end.
Proof.
  destruct (supervise_registered_spec observe l g o w Hready) as (res & kept & gone & g' & o' & w' & Hrun & Hn & He & Hres).
  exists res, kept, gone, g', o', w'. split; [exact Hrun|]. split; [done|]. split; [done|].
  destruct res as [k|e]; [|exact Hres]. destruct Hres as (Hli & -> & Hobs & Hk & Hret). split_and!; [done..|].
  intros Hq Hnd. unfold supervise_registered in Hrun. destruct (ol_listener o); [|done]. rewrite Hobs in Hrun.
  rewrite (proj2 (matches_owner_true o _) eq_refl) in Hrun.
  destruct (retain_current (ol_network o) l g) as [[[kept1 gone1] g1]|] eqn:Hc; [|done]. injection Hrun as _ -> -> ->.
  destruct (retain_current_quiet _ _ _ _ _ _ Hq Hready Hnd Hc) as (_ & _ & H1' & H2' & H3' & H4'). done.
Qed.

(** ** A concrete kernel *)

(** The sockets waiting, the sockets and listeners closed. *)
Record DemoKernel := mkKernel { waiting : list nat; closed : list nat; closed_listeners : list nat }.
#[local] Instance demo_kernel : ListenerWorld DemoKernel nat nat := {
  tcp_accept _ k := match waiting k with
    | [] => (Err WouldBlock, k)
    | s :: l => (Ok s, mkKernel l (closed k) (closed_listeners k))
    end;
  set_blocking _ k := (Ok (), k);
  shutdown_both _ k := k;
  drop_socket s k := mkKernel (waiting k) (s :: closed k) (closed_listeners k);
  drop_listener l k := mkKernel (waiting k) (closed k) (l :: closed_listeners k);
}.
#[local] Instance demo_tcp : TcpHost DemoBackends nat := {
  tcp_bind _ b := (Ok 0, b);
  local_addr _ _ := Err EmptyString;
  set_nonblocking _ b := (Ok (), b);
  close_listener _ b := b;
}.
#[local] Existing Instances disk_stores disk_lawful pipe_stream pipe_lawful pipe_tls pipe_lawful_tls demo_owned RegisteredSession.demo_lawful
  demo_backends demo_lawful_backends reliable_store demo_generator.

(** A machine that hosts network 7. *)
Definition demo_daemon : SingleStar MembershipRegistry (LinuxStarHostRuntime DemoBackends) (list NetworkId) :=
  (create_network demo_config demo_capabilities demo_name
    (mkSingleStar (mkRegistry ∅) (mkHostRuntime None false (demo_backend false)) [fill_id 7] false)).2.
Definition demo_listener : ObservedControlListener nat :=
  mkListener (fill_id 7) (mkSocketAddrV4 0x0ac90701 CONTROL_TCP_PORT) (Some 3).

Lemma durable_poll_owned_witness :
  exists s', endpoint_witnessed demo_config (fill_id 7) (mkSocketAddrV4 0x0ac90701 CONTROL_TCP_PORT) demo_daemon s'.
Proof.
  destruct (poll_from_durable_network_operations demo_config (demo_listener, (demo_daemon, mkKernel [5] [] [])))
    as [res [o' [s' w']]] eqn:Hpoll.
  assert (res = Ok (Some 5)) as Hres.
  { apply (f_equal fst) in Hpoll. cbn [fst] in Hpoll. rewrite <- Hpoll. vm_compute. reflexivity. }
  rewrite Hres in Hpoll.
  destruct (durable_poll_owned demo_config demo_listener o' demo_daemon s' (mkKernel [5] [] []) w' 5 Hpoll)
    as (_ & l & s1 & w1 & w2 & _ & Hwit & _).
  exists s1. exact Hwit.
Defined.

Definition demo_active : SharedRegistry :=
  mkShared (sh_lock (admit_session (demo_open_session, demo_enrolled) (mkShared (mkLock registry_new false) [])).2) [].
Definition demo_session_listener : ObservedControlListener nat := mkListener (fill_id 1) (mkSocketAddrV4 1 CONTROL_TCP_PORT) (Some 3).

(** A tick that keeps an approved session. *)
Lemma supervision_tick_witness :
  exists kept gone g' o' w',
    supervise_registered (fun w => (Ok (owner_observation demo_session_listener), w)) [demo_owner] demo_active
      (demo_session_listener, mkKernel [] [] []) = Some (Ok 1, kept, gone, g', (o', w')) /\
    retention (fill_id 1) [demo_owner] kept gone.
Proof.
  destruct (supervision_tick (fun w => (Ok (owner_observation demo_session_listener), w)) [demo_owner] demo_active
    demo_session_listener (mkKernel [] [] [])) as (res & kept & gone & g' & o' & w' & Hrun & _ & _ & Hres).
  { constructor; [exact demo_ready|constructor]. }
  assert ((fun x => x.1.1.1.1) <$> supervise_registered (fun w => (Ok (owner_observation demo_session_listener), w)) [demo_owner] demo_active
      (demo_session_listener, mkKernel [] [] []) = Some (Ok 1)) as Hv by (vm_compute; reflexivity).
  rewrite Hrun in Hv. cbn in Hv. injection Hv as Hv. rewrite Hv in Hrun, Hres.
  exists kept, gone, g', o', w'. split; [exact Hrun|]. apply Hres.
Defined.
