(* ===== verification/ControlTls.v ===== *)
(** The control TLS channel: the certificate preface, the TLS handshake and the
    authenticated Hello of [apps/daemon/src/control_tls.rs].

    The plain TCP socket is behind [RawSocket], rustls behind [TlsStack]: a
    connection is made from a configuration and a socket, drives its handshake
    with [complete_io], shows the certificates of its peer and exports keying
    material.  The random challenge comes from [fill_random]. *)

From S2P Require Import Prelude Order Ident Capability Membership PeerPins ConnectionDeadline ControlFrame ControlStream ControlIo Handshake SessionStream SessionActivity PeerTrust PinnedIngress TlsIdentity ActiveSession.

(** ** Sockets and connections *)

Class RawSocket (K : Type) := {
  #[global] raw_stream :: DeadlineStream K;
  #[global] raw_timeouts :: TimeoutSocket K;
  raw_shutdown : K -> K;
}.

(** What the builders of [rustls] are given. *)
Record ClientConfig := mkClientConfig {
  cl_roots : list (list Z); cl_certificate : list Z; cl_private_key : list Z; cl_server_name : list Z;
}.
Record ServerConfig := mkServerConfig {
  sv_roots : list (list Z); sv_certificate : list Z; sv_private_key : list Z;
}.

Class TlsStack (K T : Type) := {
  client_builds : ClientConfig -> bool;
  valid_server_name : list Z -> bool;
  verifier_builds : list (list Z) -> bool;
  server_builds : ServerConfig -> bool;
  client_connection : ClientConfig -> K -> option T;
  server_connection : ServerConfig -> K -> option T;
  is_handshaking : T -> bool;
  is_tls13 : T -> bool;
  peer_certificates : T -> option (list (list Z));
  complete_io : stres T IoError ();
  export_keying_material : list Z -> list Z -> stres T () (bytes 16);
  fill_random : stres T () (bytes 16);
}.

(** ** Configurations *)

Section config.
Context {K T : Type} `{X509} `{TlsStack K T}.

Definition not_a_peer (local : LocalControlTlsIdentity) (network : NetworkId) (peer : PinnedControlTlsCertificate) : bool :=
  negb (bool_decide (pc_network peer = network)) || bool_decide (pc_node peer = li_node local).

Definition client_config (local : LocalControlTlsIdentity) (network : NetworkId) (peer : PinnedControlTlsCertificate) :
    TlsResult ClientConfig :=
  guard_err (bool_decide (network = zero_id) || not_a_peer local network peer) TlsInvalidIdentity
  (guard_err (negb (root_accepts (pc_certificate peer))) InvalidCertificate
  (let config := mkClientConfig [pc_certificate peer] (li_certificate local) (li_private_key local) (node_dns_name (pc_node peer)) in
   guard_err (negb (client_builds config)) InvalidConfiguration
   (guard_err (negb (valid_server_name (cl_server_name config))) TlsInvalidIdentity (Ok config)))).

(** The loop over the peers: the nodes, the fingerprints and the roots so far. *)
Definition add_peer (acc : list NodeId * list SpkiSha256 * list (list Z)) (peer : PinnedControlTlsCertificate) :
    TlsResult (list NodeId * list SpkiSha256 * list (list Z)) :=
  let '(nodes, fingerprints, roots) := acc in
  guard_err (bool_decide (pc_node peer ∈ nodes) || bool_decide (pc_fingerprint peer ∈ fingerprints)) TlsInvalidIdentity
  (guard_err (negb (root_accepts (pc_certificate peer))) InvalidCertificate
  (Ok (pc_node peer :: nodes, pc_fingerprint peer :: fingerprints, roots ++ [pc_certificate peer]))).

Definition server_config (local : LocalControlTlsIdentity) (network : NetworkId) (peers : list PinnedControlTlsCertificate) :
    TlsResult ServerConfig :=
  guard_err (bool_decide (network = zero_id) || bool_decide (peers = []) || existsb (not_a_peer local network) peers)
    TlsInvalidIdentity
  (acc ← try_for_each add_peer ([], [], []) peers;
   guard_err (negb (verifier_builds acc.2)) InvalidConfiguration
   (let config := mkServerConfig acc.2 (li_certificate local) (li_private_key local) in
    guard_err (negb (server_builds config)) InvalidConfiguration (Ok config))).
End config.

(** ** The certificate preface *)

(** [BLUEROUTE-CONTROL-CERT-V1] and a zero byte. *)
Definition CERTIFICATE_PREFACE : list Z :=
  [66; 76; 85; 69; 82; 79; 85; 84; 69; 45; 67; 79; 78; 84; 82; 79; 76; 45; 67; 69; 82; 84; 45; 86; 49; 0]%Z.

(** A failure closes the stream. *)
Definition or_close {S E A : Type} (close : S -> S) (m : io S E A) : io S E A := fun s =>
  match m s with Some (Err e, s') => Some (Err e, close s') | out => out end.

Definition restore_timeouts {S : Type} `{TimeoutSocket S} {E : Type} (e : E) (rt wt : option Z) : io S E () :=
  let? _ := io_map_err (fun _ => e) (io_call (set_read_timeout rt)) in
  io_map_err (fun _ => e) (io_call (set_write_timeout wt)).

Section preface.
Context {K : Type} `{X509} `{RawSocket K}.

Abbreviation raw A := (io K ControlTlsError A).

(** The budget of one read or write. *)
Definition preface_budget (deadline : Z) : raw Z :=
  io_map_err (fun _ => CertificateExchangeDeadlineExpired) (io_call (remaining_budget deadline)).

(** The [match] on the outcome of one read or write. *)
Definition preface_error (e : IoError) : option ControlTlsError :=
  match e with
  | Interrupted => None
  | TimedOut | WouldBlock => Some CertificateExchangeDeadlineExpired
  | _ => Some CertificateExchangeFailed
  end.

Fixpoint preface_write_until (fuel : nat) (bytes : list Z) (deadline : Z) : raw () :=
  match fuel with
  | O => fun _ => None
  | S fuel =>
    match bytes with
    | [] => let? _ := preface_budget deadline in io_ret ()
    | _ =>
      let? remaining := preface_budget deadline in
      let? _ := io_map_err (fun _ => CertificateExchangeFailed) (io_call (set_control_write_timeout remaining)) in
      fun k =>
      match write bytes k with
      | (Ok O, k') => Some (Err CertificateExchangeFailed, k')
      | (Ok count, k') => preface_write_until fuel (drop count bytes) deadline k'
      | (Err e, k') =>
          match preface_error e with
          | None => preface_write_until fuel bytes deadline k'
          | Some e' => Some (Err e', k')
          end
      end
    end
  end.

Fixpoint preface_read_until (fuel : nat) (missing : nat) (deadline : Z) : raw (list Z) :=
  match fuel with
  | O => fun _ => None
  | S fuel =>
    match missing with
    | O => let? _ := preface_budget deadline in io_ret []
    | _ =>
      let? remaining := preface_budget deadline in
      let? _ := io_map_err (fun _ => CertificateExchangeFailed) (io_call (set_control_read_timeout remaining)) in
      fun k =>
      match read missing k with
      | (Ok [], k') => Some (Err CertificateExchangeFailed, k')
      | (Ok got, k') =>
          (let? rest := preface_read_until fuel (missing - length got) deadline in io_ret (got ++ rest)) k'
      | (Err e, k') =>
          match preface_error e with
          | None => preface_read_until fuel missing deadline k'
          | Some e' => Some (Err e', k')
          end
      end
    end
  end.

Definition clock_of : raw Z := fun k => let (t, k') := now k in Some (Ok t, k').

Definition parse_header (header : list Z) : TlsResult nat :=
  let offset := length CERTIFICATE_PREFACE in
  guard_err (negb (bool_decide (take offset header = CERTIFICATE_PREFACE))) CertificateExchangeFailed
  (let certificate_len := Z.to_nat (from_be_bytes (drop offset header)) in
   guard_err ((certificate_len =? 0) || (MAX_CERTIFICATE_BYTES <? certificate_len)) InvalidCertificate
   (Ok certificate_len)).

Definition check_candidate (local : LocalControlTlsIdentity) (certificate : list Z) : TlsResult (NodeId * SpkiSha256) :=
  node ← certificate_node_id certificate;
  guard_err (bool_decide (node = zero_id) || bool_decide (node = li_node local)) TlsInvalidIdentity
  (fingerprint ← certificate_fingerprint certificate; Ok (node, fingerprint)).

Definition own_preface (local : LocalControlTlsIdentity) : list Z :=
  CERTIFICATE_PREFACE ++ to_be_bytes (Z.of_nat (length (li_certificate local))) ++ li_certificate local.

Definition exchange_control_tls_candidate_inner (fuel : nat) (local : LocalControlTlsIdentity) (network : NetworkId)
    (deadline : Z) : raw ControlTlsCertificateCandidate :=
  let? _ := io_lift (guard_err (negb (u_ok 32 (Z.of_nat (length (li_certificate local))))) InvalidCertificate (Ok ())) in
  let? _ := preface_write_until fuel (own_preface local) deadline in
  let? header := preface_read_until fuel (length CERTIFICATE_PREFACE + 4) deadline in
  let? certificate_len := io_lift (parse_header header) in
  let? certificate := preface_read_until fuel certificate_len deadline in
  let? t := clock_of in
  let? _ := io_lift (guard_err (deadline <=? t)%Z CertificateExchangeDeadlineExpired (Ok ())) in
  let? (node, fingerprint) := io_lift (check_candidate local certificate) in
  let? observed_at := clock_of in
  io_ret (mkCandidate network node certificate fingerprint observed_at).

Definition raw_read_timeout : raw (option Z) := io_map_err (fun _ => CertificateExchangeFailed) (io_call read_timeout).
Definition raw_write_timeout : raw (option Z) := io_map_err (fun _ => CertificateExchangeFailed) (io_call write_timeout).
Definition restore_raw (rt wt : option Z) : raw () := or_close raw_shutdown (restore_timeouts CertificateExchangeFailed rt wt).

(** [exchange_control_tls_candidate] owns its socket. *)
Definition exchange_control_tls_candidate (fuel : nat) (local : LocalControlTlsIdentity) (network : NetworkId)
    (deadline : Z) : raw ControlTlsCertificateCandidate :=
  let? _ := or_close raw_shutdown (io_lift (guard_err (bool_decide (network = zero_id)) TlsInvalidIdentity (Ok ()))) in
  let? rt := raw_read_timeout in
  let? wt := raw_write_timeout in
  let? candidate := or_close raw_shutdown (exchange_control_tls_candidate_inner fuel local network deadline) in
  let? _ := restore_raw rt wt in
  io_ret candidate.

(** The closure of [any]: the nodes and fingerprints inserted so far. *)
Fixpoint bad_policy (local : LocalControlTlsIdentity) (network : NetworkId) (nodes : list NodeId)
    (fingerprints : list SpkiSha256) (peers : list PinnedControlTlsPeer) : bool :=
  match peers with
  | [] => false
  | peer :: peers =>
    negb (bool_decide (pp_network peer = network)) || bool_decide (pp_node peer = li_node local)
    || bool_decide (pp_node peer ∈ nodes) || bool_decide (pp_fingerprint peer ∈ fingerprints)
    || bad_policy local network (pp_node peer :: nodes) (pp_fingerprint peer :: fingerprints) peers
  end.

Definition exchange_control_tls_certificate (fuel : nat) (local : LocalControlTlsIdentity) (network : NetworkId)
    (allowed_peers : list PinnedControlTlsPeer) (deadline : Z) : raw PinnedControlTlsCertificate :=
  let? _ := or_close raw_shutdown (io_lift
    (guard_err (bool_decide (network = zero_id) || bool_decide (allowed_peers = []) || bad_policy local network [] [] allowed_peers)
       TlsInvalidIdentity (Ok ()))) in
  let? rt := raw_read_timeout in
  let? wt := raw_write_timeout in
  let? candidate := or_close raw_shutdown (exchange_control_tls_candidate_inner fuel local network deadline) in
  let? expected := or_close raw_shutdown (io_lift
    (ok_or (List.find (fun peer => bool_decide (pp_node peer = cc_node candidate)) allowed_peers) CertificateIdentityMismatch)) in
  let? certificate := or_close raw_shutdown (let? t := clock_of in
    io_lift (confirm_fingerprint t (pp_fingerprint expected) candidate)) in
  let? _ := restore_raw rt wt in
  io_ret certificate.
End preface.

(** ** [ControlTlsStream] *)

Section channel.
Context {K T : Type} `{X509} `{RawSocket K} `{TlsStream T} `{TlsStack K T}.

Abbreviation tls A := (io T ControlTlsError A).

(** The part of the loop's body after the timeouts are set. *)
Definition handshake_step (deadline : Z) : tls () := fun t =>
  let (r, t1) := complete_io (K := K) t in
  let (n, t2) := now t1 in
  match r with
  | Err e =>
    let expired := (deadline <=? n)%Z || is_timeout e in
    Some (Err (if expired then HandshakeDeadlineExpired else HandshakeFailed), close_stream t2)
  | Ok _ => if (deadline <=? n)%Z then Some (Err HandshakeDeadlineExpired, close_stream t2) else Some (Ok (), t2)
  end.

Fixpoint handshake_loop (fuel : nat) (deadline : Z) : tls () :=
  match fuel with
  | O => fun _ => None
  | S fuel => fun t =>
    if negb (is_handshaking (K := K) t) then Some (Ok (), t)
    else (
      let? remaining := or_close close_stream
        (io_map_err (fun _ => HandshakeDeadlineExpired) (io_call (remaining_budget deadline))) in
      let? _ := or_close close_stream (restore_timeouts HandshakeFailed (Some remaining) (Some remaining)) in
      let? _ := handshake_step deadline in
      handshake_loop fuel deadline) t
  end.

Definition complete_handshake_until (fuel : nat) (deadline : Z) : tls () :=
  let? _ := or_close close_stream (io_map_err (fun _ => HandshakeDeadlineExpired) (io_call (before deadline))) in
  let? rt := io_map_err (fun _ => HandshakeFailed) (io_call read_timeout) in
  let? wt := io_map_err (fun _ => HandshakeFailed) (io_call write_timeout) in
  let? _ := handshake_loop fuel deadline in
  or_close close_stream (restore_timeouts HandshakeFailed rt wt).

(** What is left of a connection that is given up. *)
Inductive Channel := Plain (k : K) | Secure (t : T).

(** The outcome of a call that takes the socket: the secured stream with the
    certificate of its peer, or an error with what is dropped. *)
Definition opening : Type := option (result (ControlTlsError * Channel) (T * PinnedControlTlsCertificate)).

(** What [connect_pinned_control_tls] and [accept_pinned_control_tls] share once
    the certificates are exchanged. *)
Definition secure {C : Type} (fuel : nat) (deadline : Z) (certificate : PinnedControlTlsCertificate) (config : TlsResult C)
    (connection : C -> K -> option T) (k : K) : opening :=
  match config with
  | Err e => Some (Err (e, Plain (raw_shutdown k)))
  | Ok config =>
    match connection config k with
    | None => Some (Err (InvalidConfiguration, Plain (raw_shutdown k)))
    | Some t =>
      match complete_handshake_until fuel deadline t with
      | None => None
      | Some (Err e, t) => Some (Err (e, Secure t))
      | Some (Ok _, t) => Some (Ok (t, certificate))
      end
    end
  end.

Definition connect_pinned_control_tls (fuel : nat) (local : LocalControlTlsIdentity) (network : NetworkId)
    (expected_peer : PinnedControlTlsPeer) (deadline : Z) (socket : K) : opening :=
  match exchange_control_tls_certificate fuel local network [expected_peer] deadline socket with
  | None => None
  | Some (Err e, k) => Some (Err (e, Plain k))
  | Some (Ok certificate, k) =>
      secure fuel deadline certificate (client_config (K := K) (T := T) local network certificate) client_connection k
  end.

Definition accept_pinned_control_tls (fuel : nat) (local : LocalControlTlsIdentity) (network : NetworkId)
    (allowed_peers : list PinnedControlTlsPeer) (deadline : Z) (socket : K) : opening :=
  match exchange_control_tls_certificate fuel local network allowed_peers deadline socket with
  | None => None
  | Some (Err e, k) => Some (Err (e, Plain k))
  | Some (Ok certificate, k) =>
      secure fuel deadline certificate (server_config (K := K) (T := T) local network [certificate]) server_connection k
  end.

(** ** The peer of a completed handshake *)

Definition verify_control_tls_peer_identity (t : T) (network : NetworkId) (expected_node : NodeId)
    (expected_fingerprint : SpkiSha256) : TlsResult PinnedControlTlsPeer :=
  guard_err (bool_decide (network = zero_id) || bool_decide (expected_node = zero_id)) TlsInvalidIdentity
  (guard_err (is_handshaking (K := K) t) HandshakeNotComplete
  (guard_err (negb (is_tls13 (K := K) t)) InvalidConfiguration
  (certificates ← ok_or (peer_certificates (K := K) t) MissingPeerCertificate;
   match certificates with
   | [presented] =>
     fingerprint ← certificate_fingerprint presented;
     guard_err (negb (bool_decide (fingerprint = expected_fingerprint))) TlsFingerprintMismatch
     (named ← certificate_names_node presented expected_node;
      guard_err (negb named) TlsFingerprintMismatch (Ok (mkPinnedPeer network expected_node expected_fingerprint)))
   | _ => Err InvalidCertificate
   end))).

Definition verify_control_tls_peer (t : T) (network : NetworkId) (expected : PinnedControlTlsCertificate) :
    TlsResult PinnedControlTlsPeer :=
  guard_err (bool_decide (network = zero_id) || negb (bool_decide (pc_network expected = network))) TlsInvalidIdentity
  (verify_control_tls_peer_identity t network (pc_node expected) (pc_fingerprint expected)).

(** [EXPORTER-BlueRoute-Control-v1] *)
Definition TLS_CONTROL_EXPORTER_LABEL : list Z :=
  [69; 88; 80; 79; 82; 84; 69; 82; 45; 66; 108; 117; 101; 82; 111; 117; 116; 101; 45; 67; 111; 110; 116; 114; 111; 108;
   45; 118; 49]%Z.

Definition export_control_session_id (network : NetworkId) (local : LocalControlTlsIdentity) (peer : PinnedControlTlsPeer) :
    tls (bytes 16) := fun t =>
  (let? _ := io_lift (guard_err (is_handshaking (K := K) t) HandshakeNotComplete
    (guard_err (negb (is_tls13 (K := K) t)) InvalidConfiguration
    (guard_err (bool_decide (network = zero_id) || negb (bool_decide (pp_network peer = network))
                || bool_decide (pp_node peer = li_node local)) TlsInvalidIdentity
    (verify_control_tls_peer_identity t network (pp_node peer) (pp_fingerprint peer))))) in
   let? context := io_lift (map_err (fun _ => TlsInvalidIdentity)
    (tls_control_exporter_context network (li_node local) (pp_node peer))) in
   io_map_err (fun _ => ExporterUnavailable) (io_call (export_keying_material (K := K) TLS_CONTROL_EXPORTER_LABEL context))) t.

(** ** The authenticated Hello *)

Record AuthenticatedControlPeer := mkAuthenticated {
  au_peer : PinnedControlTlsPeer; au_session_id : bytes 16; au_facts : HelloFacts;
}.

Section hello.
Variable to_vec : ControlEnvelope -> option (list Z).
Variable from_slice : list Z -> option ControlEnvelope.
Variable fuel : nat.

Definition exchange_authenticated_hello (network : NetworkId) (local : LocalControlTlsIdentity)
    (expected : PinnedControlTlsCertificate) (local_facts : HelloFacts) (deadline : Z) : tls AuthenticatedControlPeer :=
  or_close close_stream (
    let? peer := fun t => io_lift (verify_control_tls_peer t network expected) t in
    let? session_id := export_control_session_id network local peer in
    let? challenge := io_map_err (fun _ => RandomnessUnavailable) (io_call (fill_random (K := K))) in
    let? _ := io_lift (guard_err (all_zero challenge) RandomnessUnavailable (Ok ())) in
    let? facts := io_map_err (fun _ => HelloExchangeFailed)
      (exchange_hello_claims_with_deadline to_vec from_slice fuel
        (mkRequest network (li_node local) (pp_node peer) session_id challenge local_facts deadline)) in
    io_ret (mkAuthenticated peer session_id facts)).
End hello.

(** ** Activation *)

Section activate.
Context {S : Type} `{TrustStores S} (pin_store : bool).

Definition bound_session_id (local : LocalControlTlsIdentity) (authenticated : AuthenticatedControlPeer)
    (peer : PinnedControlTlsPeer) : tls (bytes 16) :=
  let? session_id := export_control_session_id (pp_network (au_peer authenticated)) local peer in
  io_lift (guard_err (negb (bool_decide (session_id = au_session_id authenticated))) ExporterMismatch (Ok session_id)).

(** The stream is consumed: the session holds it, or it is dropped. *)
Definition activate (authenticated : AuthenticatedControlPeer) (local : LocalControlTlsIdentity) (d : ConnectionDeadline)
    (t : T) (s : S) : option (result ControlSessionError (ActiveControlSession T) * T * S) :=
  let network := pp_network (au_peer authenticated) in
  match or_close close_stream (
    let? peer := fun t => io_lift (verify_control_tls_peer_identity t network (pp_node (au_peer authenticated))
      (pp_fingerprint (au_peer authenticated))) t in
    let? session_id := bound_session_id local authenticated peer in
    io_ret (peer, session_id)) t with
  | None => None
  | Some (Err e, t) => Some (Err (Authentication e), t, s)
  | Some (Ok (peer, session_id), t) =>
    let (ingress, s) := after_verified_handshake pin_store
      (mkTlsIdentity network (pp_node peer) (pp_fingerprint peer) session_id) d s in
    match ingress with
    | Err e => Some (Err (Ingress e), close_stream t, s)
    | Ok ingress =>
      match writer_after_verified_hello network (li_node local) (pp_node peer) session_id with
      | Err _ => Some (Err (Authentication TlsInvalidIdentity), t, s)
      | Ok writer => Some (Ok (mkSession t ingress writer peer session_id (au_facts authenticated) false), t, s)
      end
    end
  end.
End activate.
End channel.
Arguments Channel : clear implicits.
Arguments opening : clear implicits.

(** ** What the sockets promise *)

Class LawfulRaw (K : Type) `{RawSocket K} := {
  #[global] raw_lawful :: LawfulStream K;
  raw_quiet : forall (k : K) o,
    moved k (read_timeout k).2 [] [] /\ moved k (write_timeout k).2 [] [] /\
    moved k (set_read_timeout o k).2 [] [] /\ moved k (set_write_timeout o k).2 [] [];
}.

(** ** Facts *)

(** Two computations that differ at most in which error they report. *)
Definition agrees {E F S A : Type} (m : io S E A) (m' : io S F A) : Prop := forall s,
  match m s, m' s with
  | Some (Ok a, t), Some (Ok b, t') => a = b /\ t = t'
  | Some (Err _, t), Some (Err _, t') => t = t'
  | None, None => True
  | _, _ => False
  end.

Lemma agrees_bind {E F S A B : Type} (m : io S E A) (m' : io S F A) (f : A -> io S E B) (f' : A -> io S F B) :
  agrees m m' -> (forall a, agrees (f a) (f' a)) -> agrees (io_bind m f) (io_bind m' f').
Proof.
  intros Hm Hf s. unfold io_bind. specialize (Hm s). destruct (m s) as [[[a|e] t]|], (m' s) as [[[b|e'] t']|]; try done.
  destruct Hm as [-> ->]. apply Hf.
Qed.
Lemma agrees_map {E F S A : Type} (f : F -> E) (m : io S F A) : agrees (io_map_err f m) m.
Proof. intros s. unfold io_map_err. by destruct (m s) as [[[a|e] t]|]. Qed.
Lemma agrees_ret {E F S A : Type} (a : A) : agrees (io_ret a : io S E A) (io_ret a : io S F A).
Proof. done. Qed.

Lemma or_close_Some {E S A : Type} (close : S -> S) (m : io S E A) s r s' :
  or_close close m s = Some (r, s') <-> exists t, m s = Some (r, t) /\ s' = if is_ok r then t else close t.
Proof. unfold or_close. destruct (m s) as [[[a|e] t]|]; naive_solver. Qed.

Lemma or_close_total {E S A : Type} (close : S -> S) (m : io S E A) s :
  (exists x, m s = Some x) -> exists x, or_close close m s = Some x.
Proof. intros [[[a|e] t] Hm]; unfold or_close; rewrite Hm; by eexists. Qed.

(** One step of a computation that answers. *)
Lemma io_step_total {E S A B : Type} (m : io S E A) (f : A -> io S E B) s :
  (exists x, m s = Some x) -> (forall a t, m s = Some (Ok a, t) -> exists x, f a t = Some x) ->
  exists x, io_bind m f s = Some x.
Proof.
  intros [[r t] Hm] Hf. apply io_bind_total. exists r, t. split; [done|]. intros a ->. by apply Hf.
Qed.

Section preface_facts.
Context {K : Type} `{X509} `{LawfulRaw K}.

Lemma preface_error_None e : preface_error e = None <-> retry_error e = None.
Proof. by destruct e. Qed.

Lemma preface_read_agrees fuel n d : agrees (preface_read_until fuel n d) (ControlIo.read_exact_until (S := K) fuel n d).
Proof.
  revert n. induction fuel as [|fuel IH]; intros n; [done|]. cbn [preface_read_until ControlIo.read_exact_until]. destruct n as [|n].
  - apply agrees_bind; [apply agrees_map|]. intros _. apply agrees_ret.
  - apply agrees_bind; [apply agrees_map|]. intros b. apply agrees_bind; [apply agrees_map|]. intros _ k.
    destruct (read (S n) k) as [[[|x got]|e] k1]; [done| |].
    + apply agrees_bind; [apply IH|]. intros rest. apply agrees_ret.
    + destruct (preface_error e) eqn:He, (retry_error e) eqn:He'; try done.
      * apply preface_error_None in He'. congruence.
      * apply preface_error_None in He. congruence.
      * apply IH.
Qed.

Lemma preface_write_agrees fuel l d : agrees (preface_write_until fuel l d) (ControlIo.write_until (S := K) fuel l d).
Proof.
  revert l. induction fuel as [|fuel IH]; intros l; [done|]. cbn [preface_write_until ControlIo.write_until]. destruct l as [|x l].
  - apply agrees_bind; [apply agrees_map|]. intros _. apply agrees_ret.
  - apply agrees_bind; [apply agrees_map|]. intros b. apply agrees_bind; [apply agrees_map|]. intros _ k.
    destruct (write (x :: l) k) as [[[|n]|e] k1]; [done| |].
    + apply IH.
    + destruct (preface_error e) eqn:He, (retry_error e) eqn:He'; try done.
      * apply preface_error_None in He'. congruence.
      * apply preface_error_None in He. congruence.
      * apply IH.
Qed.

Lemma preface_read_sound fuel n d (k k' : K) r :
  preface_read_until fuel n d k = Some (r, k') ->
  match r with
  | Ok got => length got = n /\ moved k k' got [] /\ (clock k' < d)%Z
  | Err _ => exists got, moved k k' got []
  end.
Proof.
  intros Hr. pose proof (preface_read_agrees fuel n d k) as Ha. rewrite Hr in Ha.
  destruct (ControlIo.read_exact_until fuel n d k) as [[r0 k0]|] eqn:Hr0; [|by destruct r].
  apply read_exact_until_sound in Hr0. destruct r as [got|e], r0 as [got0|e0]; try done.
  - by destruct Ha as [-> ->].
  - subst k0. destruct Hr0 as (got & _ & Hm). by exists got.
Qed.

Lemma preface_write_sound fuel l d (k k' : K) r :
  preface_write_until fuel l d k = Some (r, k') ->
  match r with
  | Ok _ => moved k k' [] l /\ (clock k' < d)%Z
  | Err _ => exists sent, sent `prefix_of` l /\ moved k k' [] sent
  end.
Proof.
  intros Hr. pose proof (preface_write_agrees fuel l d k) as Ha. rewrite Hr in Ha.
  destruct (ControlIo.write_until fuel l d k) as [[r0 k0]|] eqn:Hr0; [|by destruct r].
  apply write_until_sound in Hr0. destruct r as [got|e], r0 as [got0|e0]; try done.
  - by destruct Ha as [_ ->].
  - by subst k0.
Qed.

Lemma agrees_total {E F A : Type} (m : io K E A) (m' : io K F A) k :
  agrees m m' -> (exists x, m' k = Some x) -> exists x, m k = Some x.
Proof.
  intros Ha [[r t] Hm]. specialize (Ha k). rewrite Hm in Ha. destruct (m k) as [x|]; [by eexists|]. by destruct r.
Qed.

Lemma preface_read_total fuel n d (k : K) :
  (n + interrupts k < fuel) -> exists x, preface_read_until fuel n d k = Some x.
Proof. intros Hf. eapply agrees_total; [apply preface_read_agrees|]. by apply read_exact_until_total. Qed.
Lemma preface_write_total fuel l d (k : K) :
  (length l + interrupts k < fuel) -> exists x, preface_write_until fuel l d k = Some x.
Proof. intros Hf. eapply agrees_total; [apply preface_write_agrees|]. by apply write_until_total. Qed.
End preface_facts.

(** *** The candidate *)

Section candidate_facts.
Context {K : Type} `{X509} `{LawfulRaw K}.

(** A certificate that was read in a preface of its own, while the local one was
    written, and what was checked of it. *)
Record candidate_read (local : LocalControlTlsIdentity) (network : NetworkId) (k k' : K) (c : ControlTlsCertificateCandidate) : Prop := {
  cr_wire : exists len, moved k k' (CERTIFICATE_PREFACE ++ len ++ cc_certificate c) (own_preface local) /\
    length len = 4 /\ from_be_bytes len = Z.of_nat (length (cc_certificate c));
  cr_size : 0 < length (cc_certificate c) <= MAX_CERTIFICATE_BYTES;
  cr_network : cc_network c = network;
  cr_names : names (cc_certificate c) (cc_node c);
  cr_fingerprint : fingerprint_of (cc_certificate c) (cc_fingerprint c);
  cr_node : cc_node c <> zero_id /\ cc_node c <> li_node local;
}.

(** What a refused exchange can have done: at most the local preface went out. *)
Definition candidate_refused (local : LocalControlTlsIdentity) (k k' : K) : Prop :=
  exists got sent, moved k k' got sent /\ sent `prefix_of` own_preface local.

Lemma clock_of_Some (k k' : K) r : clock_of k = Some (r, k') -> exists t, r = Ok t /\ t = clock k' /\ moved k k' [] [].
Proof.
  unfold clock_of. destruct (now k) as [t k1] eqn:Hn. intros [= <- <-]. exists t. split; [done|].
  apply now_law in Hn as (Hc & <- & Hi & Ho & Hk). split; [done|]. split_and!; [done|done|by rewrite app_nil_r|done].
Qed.

Lemma check_candidate_Ok (local : LocalControlTlsIdentity) certificate node fp :
  check_candidate local certificate = Ok (node, fp) <->
  names certificate node /\ node <> zero_id /\ node <> li_node local /\ fingerprint_of certificate fp.
Proof.
  unfold check_candidate. rewrite result_bind_Ok. setoid_rewrite certificate_node_id_Ok. split.
  - intros (n & Hn & [[Hz%bool_decide_eq_false Hl%bool_decide_eq_false]%orb_false_iff (f & Hf%certificate_fingerprint_Ok & Heq)%result_bind_Ok]%guard_err_Ok).
    injection Heq as <- <-. done.
  - intros (Hn & Hz & Hl & Hf). exists node. split; [done|]. rewrite !bool_decide_eq_false_2 by done.
    apply certificate_fingerprint_Ok in Hf. by rewrite Hf.
Qed.

Lemma parse_header_Ok header n :
  length header = length CERTIFICATE_PREFACE + 4 -> parse_header header = Ok n <->
  (exists len, header = CERTIFICATE_PREFACE ++ len /\ length len = 4 /\ n = Z.to_nat (from_be_bytes len)) /\
  0 < n <= MAX_CERTIFICATE_BYTES.
Proof.
  intros Hlen. unfold parse_header. rewrite !guard_err_Ok, negb_false_iff, bool_decide_eq_true, orb_false_iff, Nat.eqb_neq, Nat.ltb_ge. split.
  - intros (Hp & [Hn0 Hmax] & Hn).
    assert (Z.to_nat (from_be_bytes (drop (length CERTIFICATE_PREFACE) header)) = n) as <- by congruence. split; [|lia]. exists (drop (length CERTIFICATE_PREFACE) header).
    split; [rewrite <- Hp at 1; by rewrite take_drop|]. split; [rewrite length_drop; lia|done].
  - intros ((len & -> & Hl & ->) & Hn). rewrite take_app_length, drop_app_length. split; [done|]. split; [lia|done].
Qed.

Lemma candidate_inner_sound fuel local network d (k k' : K) r :
  exchange_control_tls_candidate_inner fuel local network d k = Some (r, k') ->
  match r with
  | Ok c => candidate_read local network k k' c
  | Err _ => candidate_refused local k k'
  end.
Proof.
  unfold exchange_control_tls_candidate_inner.
  intros [(u & k0 & [= _ <-] & Hrun)|(e & [= _ <-] & ->)]%io_bind_Some.
  2:{ exists [], []. split; [apply moved_refl|by exists (own_preface local)]. }
  apply io_bind_Some in Hrun as [(u1 & k1 & [Hw _]%preface_write_sound & Hrun)|(e & (sent & Hp & Hw)%preface_write_sound & ->)];
    [|by exists [], sent].
  assert (forall k2 got, moved k1 k2 got [] -> candidate_refused local k k2) as Hstop.
  { intros k2 got Hm. exists got, (own_preface local). split; [|done].
    pose proof (moved_trans _ _ _ _ _ _ _ Hw Hm) as Hm'. by rewrite app_nil_r in Hm'. }
  apply io_bind_Some in Hrun as [(header & k2 & (Hlen & Hm2 & _)%preface_read_sound & Hrun)|(e & (got & Hm2)%preface_read_sound & ->)];
    [|by eapply Hstop].
  apply io_bind_Some in Hrun as [(n & k2' & [= Hh <-] & Hrun)|(e & [= _ <-] & ->)]; [|by eapply Hstop].
  apply parse_header_Ok in Hh as [(len & -> & Hl & Hn) Hsz]; [|done].
  apply io_bind_Some in Hrun as [(certificate & k3 & (Hcl & Hm3 & _)%preface_read_sound & Hrun)|(e & (got & Hm3)%preface_read_sound & ->)].
  2:{ eapply Hstop. by eapply (moved_trans _ _ _ _ _ [] []). }
  pose proof (moved_trans _ _ _ _ _ _ _ Hm2 Hm3) as Hm23. cbn [app] in Hm23.
  apply io_bind_Some in Hrun as [(t & k4 & (t' & _ & _ & Hm4)%clock_of_Some & Hrun)|(e & (t' & Ht & _)%clock_of_Some & ->)]; [|done].
  pose proof (moved_trans _ _ _ _ _ _ _ Hm23 Hm4) as Hm24. rewrite app_nil_r in Hm24.
  apply io_bind_Some in Hrun as [(u2 & k4' & [= _ <-] & Hrun)|(e & [= _ <-] & ->)]; [|by eapply Hstop].
  apply io_bind_Some in Hrun as [([node fp] & k4' & [= Hc <-] & Hrun)|(e & [= _ <-] & ->)]; [|by eapply Hstop].
  apply check_candidate_Ok in Hc as (Hnm & Hz & Hne & Hfp).
  apply io_bind_Some in Hrun as [(t5 & k5 & (t5' & _ & _ & Hm5)%clock_of_Some & [= <- <-])|(e & (t5' & Ht & _)%clock_of_Some & ->)]; [|done].
  pose proof (moved_trans _ _ _ _ _ _ _ Hw (moved_trans _ _ _ _ _ _ _ Hm24 Hm5)) as Hm.
  rewrite !app_nil_r in Hm. cbn [app] in Hm. split; cbn [cc_certificate cc_network cc_node cc_fingerprint]; try done; [|by rewrite Hcl].
  exists len. split; [by rewrite <- app_assoc in Hm|]. split; [done|]. rewrite Hcl. lia.
Qed.

Definition preface_fuel (local : LocalControlTlsIdentity) : nat :=
  length (own_preface local) + MAX_CERTIFICATE_BYTES + length CERTIFICATE_PREFACE + 4.

Lemma candidate_inner_total fuel local network d (k : K) :
  preface_fuel local + interrupts k < fuel -> exists x, exchange_control_tls_candidate_inner fuel local network d k = Some x.
Proof.
  unfold preface_fuel. intros Hf. apply io_step_total; [by eexists|]. intros u k0 [= _ <-].
  apply io_step_total; [apply preface_write_total; lia|]. intros u1 k1 [(_ & _ & _ & Hk1) _]%preface_write_sound.
  apply io_step_total; [apply preface_read_total; lia|]. intros header k2 (Hlen & (_ & _ & _ & Hk2) & _)%preface_read_sound.
  apply io_step_total; [by eexists|]. intros n k2' [= Hn <-].
  apply parse_header_Ok in Hn as [_ Hsz]; [|done].
  apply io_step_total; [apply preface_read_total; lia|]. intros certificate k3 _.
  apply io_step_total; [unfold clock_of; destruct (now k3); by eexists|]. intros t k4 _.
  apply io_step_total; [by eexists|]. intros u2 k5 _.
  apply io_step_total; [by eexists|]. intros [node fp] k6 _.
  apply io_step_total; [unfold clock_of; destruct (now k6); by eexists|]. intros t2 k7 _. by eexists.
Qed.
End candidate_facts.

(** *** The pinned certificate *)

Section exchange_facts.
Context {K : Type} `{X509} `{LawfulRaw K}.

(** An unambiguous set of allowed peers of this network, none of them this node. *)
Definition good_policy (local : LocalControlTlsIdentity) (network : NetworkId) (peers : list PinnedControlTlsPeer) : Prop :=
  network <> zero_id /\ peers <> [] /\
  Forall (fun p => pp_network p = network /\ pp_node p <> li_node local) peers /\
  NoDup (pp_node <$> peers) /\ NoDup (pp_fingerprint <$> peers).

Lemma bad_policy_false (local : LocalControlTlsIdentity) network nodes fps peers :
  bad_policy local network nodes fps peers = false <->
  Forall (fun p => pp_network p = network /\ pp_node p <> li_node local) peers /\
  (NoDup (pp_node <$> peers) /\ forall n, n ∈ pp_node <$> peers -> (n ∉ nodes)) /\
  (NoDup (pp_fingerprint <$> peers) /\ forall f, f ∈ pp_fingerprint <$> peers -> (f ∉ fps)).
Proof.
  revert nodes fps. induction peers as [|p peers IH]; intros nodes fps; cbn [bad_policy fmap list_fmap].
  - split; [|done]. intros _. split; [done|]. split; (split; [constructor|]); intros x Hx; by apply elem_of_nil in Hx.
  - rewrite !orb_false_iff, negb_false_iff, bool_decide_eq_true, !bool_decide_eq_false, IH, Forall_cons, !NoDup_cons.
    setoid_rewrite elem_of_cons. split.
    + intros ((((Hn & Hl) & H3) & H4) & Hall & (Hd1 & He1) & (Hd2 & He2)). split; [done|]. split.
      * split; [split; [intros Hi; apply (He1 _ Hi); by left|done]|]. intros n [->|Hi]; [done|]. intros Hx. apply (He1 _ Hi). by right.
      * split; [split; [intros Hi; apply (He2 _ Hi); by left|done]|]. intros n [->|Hi]; [done|]. intros Hx. apply (He2 _ Hi). by right.
    + intros (([Hn Hl] & Hall) & ((Hx1 & Hd1) & He1) & ((Hx2 & Hd2) & He2)).
      split; [split; [split; [done|]; apply He1; by left|apply He2; by left]|]. split; [done|]. split.
      * split; [done|]. intros n Hi [->|Hx]; [done|]. apply (He1 n); [by right|done].
      * split; [done|]. intros n Hi [->|Hx]; [done|]. apply (He2 n); [by right|done].
Qed.

Lemma policy_check local network peers :
  (bool_decide (network = zero_id) || bool_decide (peers = []) || bad_policy local network [] [] peers) = false <->
  good_policy local network peers.
Proof.
  rewrite !orb_false_iff, !bool_decide_eq_false, bad_policy_false. unfold good_policy. split.
  - intros ((Hz & Hn) & Hall & (Hd1 & _) & (Hd2 & _)). done.
  - intros (Hz & Hn & Hall & Hd1 & Hd2). split; [done|]. split; [done|].
    split; (split; [done|]); intros x _; apply not_elem_of_nil.
Qed.

Lemma confirm_Ok t fp c p :
  confirm_fingerprint t fp c = Ok p ->
  fp = cc_fingerprint c /\ p = mkPinnedCertificate (cc_network c) (cc_node c) (cc_certificate c) fp /\
  root_accepts (cc_certificate c) = true.
Proof.
  unfold confirm_fingerprint, pinned_certificate_new.
  intros [_ [Hfp%negb_false_iff%bool_decide_eq_true Hrun]%guard_err_Ok]%guard_err_Ok. split; [done|].
  apply guard_err_Ok in Hrun as [_ [_ (f & _ & [Hf%negb_false_iff%bool_decide_eq_true Hrun]%guard_err_Ok)%result_bind_Ok]%guard_err_Ok].
  apply result_bind_Ok in Hrun as (named & _ & [_ [Hroot%negb_false_iff Heq]%guard_err_Ok]%guard_err_Ok).
  injection Heq as <-. by rewrite Hf.
Qed.

Lemma raw_quiet_step {E A B : Type} (e : E) (m : stres K IoError A) (f : A -> io K E B) k r k' :
  (forall k0, moved k0 (m k0).2 [] []) ->
  io_bind (io_map_err (fun _ => e) (io_call m)) f k = Some (r, k') ->
  (exists a k1, moved k k1 [] [] /\ f a k1 = Some (r, k')) \/ (moved k k' [] [] /\ r = Err e).
Proof.
  intros Hq Hrun. specialize (Hq k). unfold io_bind, io_map_err, io_call in Hrun.
  destruct (m k) as [[a|x] k1]; cbn [map_err snd] in *; [left; by exists a, k1|right]. by injection Hrun as <- <-.
Qed.

Lemma restore_raw_sound rt wt (k k' : K) r :
  restore_raw rt wt k = Some (r, k') ->
  exists k1, moved k k1 [] [] /\ k' = if is_ok r then k1 else raw_shutdown k1.
Proof.
  unfold restore_raw. intros (k1 & Hrun & ->)%or_close_Some. exists k1. split; [|done]. unfold restore_timeouts in Hrun.
  apply raw_quiet_step in Hrun as [(u & k2 & Hm1 & Hrun)|[Hm _]]; [|done|by intros k0; apply (raw_quiet k0 rt)].
  unfold io_map_err, io_call in Hrun. destruct (raw_quiet k2 wt) as (_ & _ & _ & Hm2).
  destruct (set_write_timeout wt k2) as [r2 k3]. injection Hrun as _ <-.
  exact (moved_trans _ _ _ _ _ _ _ Hm1 Hm2).
Qed.

(** What an exchange that succeeded has established. *)
Record pinned_exchange (local : LocalControlTlsIdentity) (network : NetworkId) (allowed : list PinnedControlTlsPeer)
    (k k' : K) (p : PinnedControlTlsCertificate) : Prop := {
  pe_policy : good_policy local network allowed;
  pe_allowed : peer_pin p ∈ allowed;
  pe_names : names (pc_certificate p) (pc_node p);
  pe_fingerprint : fingerprint_of (pc_certificate p) (pc_fingerprint p);
  pe_root : root_accepts (pc_certificate p) = true;
  pe_node : pc_node p <> zero_id /\ pc_node p <> li_node local;
  pe_wire : exists len, moved k k' (CERTIFICATE_PREFACE ++ len ++ pc_certificate p) (own_preface local) /\
    length len = 4 /\ from_be_bytes len = Z.of_nat (length (pc_certificate p));
}.

(** What one that failed has done: the socket is shut down after at most the
    local preface was sent, or its timeouts could not even be read. *)
Definition exchange_refused (local : LocalControlTlsIdentity) (network : NetworkId) (allowed : list PinnedControlTlsPeer)
    (k k' : K) : Prop :=
  (exists k1 got sent, k' = raw_shutdown k1 /\ moved k k1 got sent /\ sent `prefix_of` own_preface local /\
     (good_policy local network allowed \/ k1 = k)) \/
  (good_policy local network allowed /\ moved k k' [] []).

Lemma exchange_certificate_sound fuel local network allowed d (k k' : K) r :
  exchange_control_tls_certificate fuel local network allowed d k = Some (r, k') ->
  match r with Ok p => pinned_exchange local network allowed k k' p | Err _ => exchange_refused local network allowed k k' end.
Proof.
  unfold exchange_control_tls_certificate.
  intros [(u & k0 & (k0' & [= Hpol <-] & ->)%or_close_Some & Hrun)|(e & (k0' & [= Hpol <-] & ->)%or_close_Some & ->)]%io_bind_Some.
  2:{ left. exists k, [], []. split; [done|]. split; [apply moved_refl|]. split; [by exists (own_preface local)|by right]. }
  apply guard_err_Ok in Hpol as [Hpol%policy_check _]. cbn [is_ok] in Hrun.
  apply raw_quiet_step in Hrun as [(rt & k1 & Hm1 & Hrun)|[Hm ->]]; [|by right|by intros k0; apply (raw_quiet k0 None)].
  apply raw_quiet_step in Hrun as [(wt & k2 & Hm2 & Hrun)|[Hm ->]]; [| |by intros k0; apply (raw_quiet k0 None)].
  2:{ right. split; [done|]. exact (moved_trans _ _ _ _ _ _ _ Hm1 Hm). }
  pose proof (moved_trans _ _ _ [] [] [] [] Hm1 Hm2) as Hm02. cbn [app] in Hm02.
  assert (forall k3 k4, candidate_refused local k2 k3 -> k4 = raw_shutdown k3 -> exchange_refused local network allowed k k4) as Hstop.
  { intros k3 k4 (got & sent & Hm & Hp) ->. left. exists k3, got, sent. split; [done|].
    split; [exact (moved_trans _ _ _ _ _ _ _ Hm02 Hm)|]. split; [done|by left]. }
  apply io_bind_Some in Hrun as [(c & k3 & (k3' & Hc%candidate_inner_sound & ->)%or_close_Some & Hrun)|(e & (k3' & Hc%candidate_inner_sound & ->)%or_close_Some & ->)];
    cbn [is_ok] in *; [|by eapply Hstop].
  rename k3' into k3. destruct (cr_wire _ _ _ _ _ Hc) as (len & Hm23 & Hlen & Hbe).
  assert (forall k4, moved k3 k4 [] [] -> candidate_refused local k2 k4) as Hafter.
  { intros k4 Hm. exists (CERTIFICATE_PREFACE ++ len ++ cc_certificate c), (own_preface local). split; [|done].
    pose proof (moved_trans _ _ _ _ _ _ _ Hm23 Hm) as Hx. by rewrite !app_nil_r in Hx. }
  apply io_bind_Some in Hrun as [(expected & k4 & (k4' & [= Hex <-] & ->)%or_close_Some & Hrun)|(e & (k4' & [= Hex <-] & ->)%or_close_Some & ->)];
    cbn [is_ok] in *; [|eapply Hstop; [apply Hafter, moved_refl|done]].
  apply ok_or_Ok, find_some in Hex as [Hin Hnode%bool_decide_eq_true].
  apply io_bind_Some in Hrun as [(p & k4 & (k4' & Hconf & ->)%or_close_Some & Hrun)|(e & (k4' & Hconf & ->)%or_close_Some & ->)]; cbn [is_ok] in *.
  2:{ apply io_bind_Some in Hconf as [(t & k5 & (t' & _ & _ & Hm)%clock_of_Some & [= _ <-])|(e' & (t' & Ht & _)%clock_of_Some & _)]; [|done].
      eapply Hstop; [by apply Hafter|done]. }
  apply io_bind_Some in Hconf as [(t & k5 & (t' & _ & _ & Hm34)%clock_of_Some & [= Hconf <-])|(e' & (t' & Ht & _)%clock_of_Some & _)]; [|done].
  apply io_bind_Some in Hrun as [(u3 & k6 & (k7 & Hm57 & ->)%restore_raw_sound & [= <- <-])|(e & (k7 & Hm57 & ->)%restore_raw_sound & ->)];
    cbn [is_ok] in *; pose proof (moved_trans _ _ _ [] [] [] [] Hm34 Hm57) as Hm37; cbn [app] in Hm37.
  2:{ eapply Hstop; [by apply Hafter|done]. }
  apply confirm_Ok in Hconf as (Hfp & -> & Hroot). destruct Hpol as (Hz & Hne & Hall & Hrest).
  pose proof (proj1 (List.Forall_forall _ _) Hall expected Hin) as [Hnet Hloc].
  split; cbn [pc_certificate pc_node pc_fingerprint]; try apply Hc.
  - by split.
  - apply list_elem_of_In. unfold peer_pin. cbn [pc_network pc_node pc_fingerprint]. rewrite (cr_network _ _ _ _ _ Hc), <- Hnet, <- Hnode.
    by destruct expected.
  - rewrite Hfp. apply Hc.
  - done.
  - exists len. split; [|done]. pose proof (moved_trans _ _ _ _ _ _ _ Hm02 (moved_trans _ _ _ _ _ _ _ Hm23 Hm37)) as Hx.
    by rewrite !app_nil_r in Hx.
Qed.

Lemma call_total {E A : Type} (f : IoError -> E) (m : stres K IoError A) k : exists x, io_map_err f (io_call m) k = Some x.
Proof. unfold io_map_err, io_call. destruct (m k). by eexists. Qed.
Lemma clock_total (k : K) : exists x, clock_of k = Some x.
Proof. unfold clock_of. destruct (now k). by eexists. Qed.
Lemma restore_raw_total rt wt (k : K) : exists x, restore_raw rt wt k = Some x.
Proof. apply or_close_total, io_step_total; [apply call_total|]. intros u k1 _. apply call_total. Qed.

Lemma quiet_call {E A : Type} (e : E) (m : stres K IoError A) k a k1 :
  io_map_err (fun _ => e) (io_call m) k = Some (Ok a, k1) -> k1 = (m k).2.
Proof. unfold io_map_err, io_call. destruct (m k) as [[x|x] k']; cbn; congruence. Qed.

Lemma exchange_certificate_total fuel local network allowed d (k : K) :
  preface_fuel local + interrupts k < fuel ->
  exists x, exchange_control_tls_certificate fuel local network allowed d k = Some x.
Proof.
  intros Hf. apply io_step_total; [apply or_close_total; by eexists|]. intros u k0 (k0' & [= _ <-] & ->)%or_close_Some. cbn [is_ok].
  apply io_step_total; [apply call_total|]. intros rt k1 ->%quiet_call. destruct (raw_quiet k None) as ((_ & _ & _ & Hk1) & _).
  apply io_step_total; [apply call_total|]. intros wt k2 ->%quiet_call.
  destruct (raw_quiet (read_timeout k).2 None) as (_ & (_ & _ & _ & Hk2) & _).
  apply io_step_total; [apply or_close_total, candidate_inner_total; lia|]. intros c k3 _.
  apply io_step_total; [apply or_close_total; by eexists|]. intros expected k4 _.
  apply io_step_total; [apply or_close_total, io_step_total; [apply clock_total|]; intros t k5 _; by eexists|]. intros p k5 _.
  apply io_step_total; [apply restore_raw_total|]. intros u1 k6 _. by eexists.
Qed.

(** C26. The certificate exchange pins the peer before TLS.  With enough fuel it
    answers.  It succeeds only under an unambiguous policy of peers of this
    network other than this node, with the certificate the peer sent in exactly
    one preface, complete, naming exactly the node and having exactly the
    fingerprint of one allowed peer, while exactly the local preface was sent.
    When it fails, the socket is shut down, nothing but a prefix of the local
    preface was sent and nothing at all under a bad policy; the one exception is
    a socket whose timeouts cannot be read, which is left alone. *)
Theorem certificate_exchange_pinned (fuel : nat) (local : LocalControlTlsIdentity) (network : NetworkId)
    (allowed : list PinnedControlTlsPeer) (d : Z) (k : K) :
  preface_fuel local + interrupts k < fuel ->
  exists r k', exchange_control_tls_certificate fuel local network allowed d k = Some (r, k') /\
    match r with
    | Ok p => pinned_exchange local network allowed k k' p
    | Err _ => exchange_refused local network allowed k k'
    end.
Proof.
  intros Hf. destruct (exchange_certificate_total fuel local network allowed d k Hf) as [[r k'] Hr].
  exists r, k'. split; [done|]. by eapply exchange_certificate_sound.
Qed.
End exchange_facts.

(** ** What rustls promises

    A handshake is a bounded number of flights, and a [complete_io] that
    succeeds moves it on.  A fresh connection has no interruptions to come but
    those of its socket. *)
Class LawfulTlsStack (K T : Type) `{LawfulRaw K} `{LawfulTls T} `{TlsStack K T} := {
  flights : nat;
  handshake_left : T -> nat;
  left_bounded (t : T) : handshake_left t <= flights;
  complete_io_law (t : T) : calm t (complete_io (K := K) t).2 /\
    (is_ok (complete_io (K := K) t).1 = true -> is_handshaking (K := K) t = true ->
     handshake_left (complete_io (K := K) t).2 < handshake_left t);
  left_steady (t : T) o :
    let same t' := is_handshaking (K := K) t' = is_handshaking (K := K) t /\ handshake_left t' = handshake_left t in
    same (now t).2 /\ same (set_read_timeout o t).2 /\ same (set_write_timeout o t).2;
  stack_calm (t : T) : calm t (read_timeout t).2 /\ calm t (fill_random (K := K) t).2 /\
    forall label context, calm t (export_keying_material (K := K) label context t).2;
  client_law config (k : K) t : client_connection config k = Some t -> interrupts t <= interrupts k;
  server_law config (k : K) t : server_connection config k = Some t -> interrupts t <= interrupts k;
}.

(** *** Handshakes *)

Section handshake_facts.
Context {K T : Type} `{X509} `{LawfulTlsStack K T}.

Lemma now_steady_calm (t : T) : calm t (now t).2.
Proof. destruct (now t) as [n t'] eqn:Hn. by apply now_calm in Hn as [Hc _]. Qed.

(** A call of the socket, once it succeeded. *)
Lemma call_Ok {E F A : Type} (f : E -> F) (m : stres T E A) t a t' :
  io_map_err f (io_call m) t = Some (Ok a, t') -> m t = (Ok a, t').
Proof. unfold io_map_err, io_call. destruct (m t) as [[x|x] t1]; cbn; congruence. Qed.

Lemma restore_Ok {E : Type} (e : E) rt wt (t t' : T) :
  restore_timeouts e rt wt t = Some (Ok (), t') -> t' = (set_write_timeout wt (set_read_timeout rt t).2).2.
Proof.
  unfold restore_timeouts. intros [(u & t1 & Hr%call_Ok & Hw%call_Ok)|(e' & _ & [=])]%io_bind_Some.
  rewrite Hr. cbn [snd]. by rewrite Hw.
Qed.
Lemma restore_calm {E : Type} (e : E) rt wt (t t' : T) :
  restore_timeouts e rt wt t = Some (Ok (), t') -> calm t t'.
Proof.
  intros ->%restore_Ok. destruct (socket_calm t rt) as (_ & _ & Hr & _).
  destruct (socket_calm (set_read_timeout rt t).2 wt) as (_ & Hw & _). by eapply calm_trans.
Qed.

Lemma budget_steady d (t : T) r t' : remaining_budget d t = (r, t') -> t' = (now t).2.
Proof. unfold remaining_budget. by destruct (now t) as [n t1]; intros [= _ <-]. Qed.

Lemma restore_steady {E : Type} (e : E) rt wt (t t' : T) :
  restore_timeouts e rt wt t = Some (Ok (), t') ->
  is_handshaking (K := K) t' = is_handshaking (K := K) t /\ handshake_left t' = handshake_left t.
Proof.
  intros ->%restore_Ok. destruct (left_steady t rt) as (_ & [Hh1 Hl1] & _).
  destruct (left_steady (set_read_timeout rt t).2 wt) as (_ & _ & [Hh2 Hl2]). by split; etrans.
Qed.

Lemma restore_total {E : Type} (e : E) rt wt (t : T) : exists x, restore_timeouts e rt wt t = Some x.
Proof.
  apply io_step_total; [|intros u t2 _]; unfold io_map_err, io_call; [destruct (set_read_timeout _ _)|destruct (set_write_timeout _ _)];
    by eexists.
Qed.

Lemma handshake_step_total d (t : T) : exists x, handshake_step (K := K) d t = Some x.
Proof.
  unfold handshake_step. destruct (complete_io t) as [r t1]. destruct (now t1) as [n t2].
  destruct r; [destruct (_ <=? _)%Z|]; by eexists.
Qed.

(** One round of the loop, when it goes on. *)
Lemma handshake_step_Ok d (t t' : T) :
  handshake_step (K := K) d t = Some (Ok (), t') ->
  calm t t' /\ (is_handshaking (K := K) t = true -> handshake_left t' < handshake_left t).
Proof.
  unfold handshake_step. destruct (complete_io_law t) as [Hc Hl]. destruct (complete_io t) as [r t1]. cbn [fst snd] in *.
  destruct (left_steady t1 None) as [[_ Hs] _]. pose proof (now_steady_calm t1) as Hn. destruct (now t1) as [n t2]. cbn [snd] in *.
  destruct r as [u|e]; [|done]. destruct (d <=? n)%Z; [done|]. intros [= <-].
  split; [by eapply calm_trans|]. intros Hh. rewrite Hs. by apply Hl.
Qed.

Lemma handshake_loop_total fuel d (t : T) :
  handshake_left t < fuel -> exists x, handshake_loop (K := K) fuel d t = Some x.
Proof.
  revert t. induction fuel as [|fuel IH]; intros t Hf; [lia|]. cbn [handshake_loop].
  destruct (is_handshaking t) eqn:Hh; cbn [negb]; [|by eexists].
  apply io_step_total; [apply or_close_total; unfold io_map_err, io_call; destruct (remaining_budget d t); by eexists|].
  intros b t1 (t1' & Hb%call_Ok%budget_steady & ->)%or_close_Some. cbn [is_ok]. subst t1'.
  destruct (left_steady t None) as [[Hh1 Hs1] _].
  apply io_step_total; [apply or_close_total, restore_total|].
  intros [] t2 (t2' & Hr%restore_steady & ->)%or_close_Some. cbn [is_ok]. destruct Hr as [Hh2 Hs2].
  apply io_step_total; [apply handshake_step_total|]. intros [] t3 [_ Hl]%handshake_step_Ok.
  apply IH. rewrite Hh2, Hh1 in Hl. specialize (Hl Hh). lia.
Qed.

Lemma handshake_loop_calm fuel d (t t' : T) :
  handshake_loop (K := K) fuel d t = Some (Ok (), t') -> calm t t'.
Proof.
  revert t. induction fuel as [|fuel IH]; intros t; [done|]. cbn [handshake_loop].
  destruct (is_handshaking t); cbn [negb]; [|by intros [= <-]].
  intros [(b & t1 & (t1' & Hb%call_Ok%budget_steady & ->)%or_close_Some & Hrun)|(e & _ & [=])]%io_bind_Some. cbn [is_ok] in Hrun. subst t1'.
  apply io_bind_Some in Hrun as [([] & t2 & (t2' & Hr%restore_calm & ->)%or_close_Some & Hrun)|(e & _ & [=])]. cbn [is_ok] in Hrun.
  apply io_bind_Some in Hrun as [([] & t3 & [Hs _]%handshake_step_Ok & Hrun%IH)|(e & _ & [=])].
  eapply calm_trans; [apply now_steady_calm|]. eapply calm_trans; [exact Hr|]. by eapply calm_trans.
Qed.

Lemma before_ok_calm d (t t' : T) : before d t = (Ok (), t') -> calm t t'.
Proof. unfold before. pose proof (now_steady_calm t) as Hc. destruct (now t) as [n t1]. by intros [= _ <-]. Qed.

Lemma complete_handshake_calm fuel d (t t' : T) :
  complete_handshake_until (K := K) fuel d t = Some (Ok (), t') -> calm t t'.
Proof.
  unfold complete_handshake_until.
  intros [([] & t1 & (t1' & Hb%call_Ok%before_ok_calm & ->)%or_close_Some & Hrun)|(e & _ & [=])]%io_bind_Some. cbn [is_ok] in Hrun.
  apply io_bind_Some in Hrun as [(rt & t2 & Hrt%call_Ok & Hrun)|(e & _ & [=])].
  apply io_bind_Some in Hrun as [(wt & t3 & Hwt%call_Ok & Hrun)|(e & _ & [=])].
  apply io_bind_Some in Hrun as [([] & t4 & Hl%handshake_loop_calm & (t5 & Hr%restore_calm & ->)%or_close_Some)|(e & _ & [=])]. cbn [is_ok].
  destruct (stack_calm t1') as [Hc1 _]. rewrite Hrt in Hc1. destruct (socket_calm t2 None) as [Hc2 _]. rewrite Hwt in Hc2.
  eapply calm_trans; [exact Hb|]. eapply calm_trans; [exact Hc1|]. eapply calm_trans; [exact Hc2|]. by eapply calm_trans.
Qed.

Lemma complete_handshake_total fuel d (t : T) :
  flights < fuel -> exists x, complete_handshake_until (K := K) fuel d t = Some x.
Proof.
  intros Hf. assert (forall E A (f : IoError -> E) (m : stres T IoError A) t0, exists x, io_map_err f (io_call m) t0 = Some x) as Hcall.
  { intros E A f m t0. unfold io_map_err, io_call. destruct (m t0). by eexists. }
  apply io_step_total; [by apply or_close_total|]. intros u t1 _. apply io_step_total; [done|]. intros rt t2 _.
  apply io_step_total; [done|]. intros wt t3 _.
  apply io_step_total; [apply handshake_loop_total; pose proof (left_bounded t3); lia|]. intros u2 t4 _.
  apply or_close_total, restore_total.
Qed.

Lemma secure_sound {C : Type} fuel d certificate (config : TlsResult C) connection (k : K) (t : T) certificate' :
  (forall c t0, connection c k = Some t0 -> interrupts t0 <= interrupts k) ->
  secure fuel d certificate config connection k = Some (Ok (t, certificate')) ->
  certificate' = certificate /\ interrupts t <= interrupts k.
Proof.
  intros Hlaw. unfold secure. destruct config as [c|e]; [|done]. destruct (connection c k) as [t0|] eqn:Hc; [|done].
  destruct (complete_handshake_until fuel d t0) as [[[[]|e] t1]|] eqn:Hh; [|done|done]. intros [= <- <-]. split; [done|].
  apply complete_handshake_calm in Hh as [_ Hn]. specialize (Hlaw _ _ Hc). lia.
Qed.

Lemma secure_total {C : Type} fuel d certificate (config : TlsResult C) connection (k : K) :
  flights < fuel -> exists x, secure fuel d certificate config connection k = Some x.
Proof.
  intros Hf. unfold secure. destruct config as [c|e]; [|by eexists]. destruct (connection c k) as [t0|]; [|by eexists].
  destruct (complete_handshake_total fuel d t0 Hf) as [[[u|e] t] ->]; by eexists.
Qed.

(** Opening a channel, from either side. *)
Lemma exchange_then fuel local network allowed d (k : K) (next : PinnedControlTlsCertificate -> K -> opening K T) out :
  match exchange_control_tls_certificate fuel local network allowed d k with
  | None => None
  | Some (Err e, k') => Some (Err (e, Plain k'))
  | Some (Ok certificate, k') => next certificate k'
  end = Some (Ok out) ->
  exists certificate k', pinned_exchange local network allowed k k' certificate /\ next certificate k' = Some (Ok out).
Proof.
  destruct (exchange_control_tls_certificate _ _ _ _ _ k) as [[[c|e] k']|] eqn:Hx; [|done|done].
  intros Hn. exists c, k'. split; [|done]. by apply exchange_certificate_sound in Hx.
Qed.

Lemma accept_pinned_sound fuel local network allowed d (k : K) (t : T) certificate :
  accept_pinned_control_tls fuel local network allowed d k = Some (Ok (t, certificate)) ->
  exists k', pinned_exchange local network allowed k k' certificate /\ interrupts t <= interrupts k.
Proof.
  unfold accept_pinned_control_tls. intros (c & k' & Hx & [-> Hn]%secure_sound)%exchange_then; [|by intros; eapply server_law].
  exists k'. split; [done|]. destruct (pe_wire _ _ _ _ _ _ Hx) as (len & (_ & _ & _ & Hk) & _). lia.
Qed.

Lemma connect_pinned_sound fuel local network expected d (k : K) (t : T) certificate :
  connect_pinned_control_tls fuel local network expected d k = Some (Ok (t, certificate)) ->
  exists k', pinned_exchange local network [expected] k k' certificate /\ interrupts t <= interrupts k.
Proof.
  unfold connect_pinned_control_tls. intros (c & k' & Hx & [-> Hn]%secure_sound)%exchange_then; [|by intros; eapply client_law].
  exists k'. split; [done|]. destruct (pe_wire _ _ _ _ _ _ Hx) as (len & (_ & _ & _ & Hk) & _). lia.
Qed.

Definition opening_fuel (local : LocalControlTlsIdentity) (k : K) : nat := preface_fuel local + flights + interrupts k.

Lemma accept_pinned_total fuel local network allowed d (k : K) :
  opening_fuel local k < fuel -> exists x, accept_pinned_control_tls (T := T) fuel local network allowed d k = Some x.
Proof.
  unfold opening_fuel, accept_pinned_control_tls. intros Hf.
  destruct (exchange_certificate_total fuel local network allowed d k) as [[[c|e] k'] ->]; [lia| |by eexists].
  apply secure_total. lia.
Qed.
Lemma connect_pinned_total fuel local network expected d (k : K) :
  opening_fuel local k < fuel -> exists x, connect_pinned_control_tls (T := T) fuel local network expected d k = Some x.
Proof.
  unfold opening_fuel, connect_pinned_control_tls. intros Hf.
  destruct (exchange_certificate_total fuel local network [expected] d k) as [[[c|e] k'] ->]; [lia| |by eexists].
  apply secure_total. lia.
Qed.
End handshake_facts.

(** *** Sessions *)

Section session_facts.
Context {K T : Type} `{X509} `{LawfulTlsStack K T}.

(** The connection is an established TLS 1.3 one whose peer showed exactly one
    certificate, which is complete, names this node and has this fingerprint. *)
Definition presented (t : T) (node : NodeId) (fp : SpkiSha256) : Prop :=
  is_handshaking (K := K) t = false /\ is_tls13 (K := K) t = true /\
  exists certificate, peer_certificates (K := K) t = Some [certificate] /\ names certificate node /\ fingerprint_of certificate fp.

(** The keying material of this connection for this network and these two nodes. *)
Definition exported (t : T) (network : NetworkId) (local peer : NodeId) (sid : bytes 16) (t' : T) : Prop :=
  exists context, tls_control_exporter_context network local peer = Ok context /\
    export_keying_material (K := K) TLS_CONTROL_EXPORTER_LABEL context t = (Ok sid, t').

Lemma verify_identity_Ok (t : T) network node fp p :
  verify_control_tls_peer_identity (K := K) t network node fp = Ok p <->
  network <> zero_id /\ node <> zero_id /\ presented t node fp /\ p = mkPinnedPeer network node fp.
Proof.
  unfold verify_control_tls_peer_identity, presented.
  rewrite !guard_err_Ok, orb_false_iff, !bool_decide_eq_false, negb_false_iff, result_bind_Ok. setoid_rewrite ok_or_Ok. split.
  - intros ([Hn Hz] & Hh & Ht & cs & Hcs & Hrun). destruct cs as [|c [|]]; try done.
    apply result_bind_Ok in Hrun as (f & Hf%certificate_fingerprint_Ok & [Hfp%negb_false_iff%bool_decide_eq_true Hrun]%guard_err_Ok).
    apply result_bind_Ok in Hrun as (named & Hnm & [Hx%negb_false_iff Heq]%guard_err_Ok). subst named.
    apply certificate_names_node_true in Hnm. injection Heq as <-. subst f. split; [done|]. split; [done|]. split; [|done].
    split; [done|]. split; [done|]. by exists c.
  - intros (Hn & Hz & (Hh & Ht & c & Hcs & Hnm & Hf) & ->). split; [done|]. split; [done|]. split; [done|]. exists [c]. split; [done|].
    apply certificate_fingerprint_Ok in Hf. rewrite Hf. cbn [mbind result_bind]. rewrite bool_decide_eq_true_2 by done. cbn [negb guard_err].
    apply certificate_names_node_true in Hnm. rewrite Hnm. done.
Qed.

Lemma export_sound network local p (t t' : T) sid :
  export_control_session_id (K := K) network local p t = Some (Ok sid, t') ->
  pp_network p = network /\ pp_node p <> li_node local /\ presented t (pp_node p) (pp_fingerprint p) /\
  exported t network (li_node local) (pp_node p) sid t' /\ calm t t'.
Proof.
  unfold export_control_session_id.
  intros [(u & t1 & [= Hchk <-] & Hrun)|(e & _ & [=])]%io_bind_Some.
  apply guard_err_Ok in Hchk as [_ [_ [Hp (_ & _ & Hpres & _)%verify_identity_Ok]%guard_err_Ok]%guard_err_Ok].
  rewrite !orb_false_iff, negb_false_iff, bool_decide_eq_true, !bool_decide_eq_false in Hp. destruct Hp as [[_ Hnet] Hne].
  apply io_bind_Some in Hrun as [(context & t1 & [= Hctx <-] & Hrun)|(e & _ & [=])].
  apply call_Ok in Hrun. split; [done|]. split; [done|]. split; [done|]. split.
  - exists context. split; [|done]. by destruct (tls_control_exporter_context _ _ _); cbn [map_err] in Hctx; congruence.
  - destruct (stack_calm t) as (_ & _ & Hc). specialize (Hc TLS_CONTROL_EXPORTER_LABEL context). by rewrite Hrun in Hc.
Qed.

Lemma export_total network local p (t : T) : exists x, export_control_session_id (K := K) network local p t = Some x.
Proof.
  unfold export_control_session_id. apply io_step_total; [by eexists|]. intros u t1 [= _ <-].
  apply io_step_total; [by eexists|]. intros context t1 [= _ <-]. unfold io_map_err, io_call.
  destruct (export_keying_material _ _ t). by eexists.
Qed.

Section hello_facts.
Variable to_vec : ControlEnvelope -> option (list Z).
Variable from_slice : list Z -> option ControlEnvelope.

(** An authenticated peer: the certificate and the session identifier are the
    connection's, and the facts are the remote side of a transcript in that
    session, exchanged on the connection in time. *)
Definition authenticated_on (network : NetworkId) (local : LocalControlTlsIdentity) (expected : PinnedControlTlsCertificate)
    (own_facts : HelloFacts) (deadline : Z) (t t' : T) (au : AuthenticatedControlPeer) : Prop :=
  pc_network expected = network /\ au_peer au = mkPinnedPeer network (pc_node expected) (pc_fingerprint expected) /\
  presented t (pc_node expected) (pc_fingerprint expected) /\ pc_node expected <> li_node local /\
  exists t1 t2 challenge,
    exported t network (li_node local) (pc_node expected) (au_session_id au) t1 /\
    fill_random (K := K) t1 = (Ok challenge, t2) /\
    exchanged to_vec from_slice
      (mkRequest network (li_node local) (pc_node expected) (au_session_id au) challenge own_facts deadline) t2 t' (au_facts au).

Lemma hello_sound fuel network local expected own_facts deadline (t t' : T) au :
  exchange_authenticated_hello (K := K) to_vec from_slice fuel network local expected own_facts deadline t = Some (Ok au, t') ->
  authenticated_on network local expected own_facts deadline t t' au.
Proof.
  unfold exchange_authenticated_hello. intros (t0 & Hrun & ->)%or_close_Some. cbn [is_ok].
  apply io_bind_Some in Hrun as [(peer & t1 & [= Hv <-] & Hrun)|(e & _ & [=])].
  apply guard_err_Ok in Hv as [[_ Hnet%negb_false_iff%bool_decide_eq_true]%orb_false_iff (_ & _ & Hp & ->)%verify_identity_Ok].
  apply io_bind_Some in Hrun as [(sid & t1 & (_ & Hne & _ & Hex & _)%export_sound & Hrun)|(e & _ & [=])]. cbn [pp_node] in *.
  apply io_bind_Some in Hrun as [(challenge & t2 & Hrand%call_Ok & Hrun)|(e & _ & [=])].
  apply io_bind_Some in Hrun as [(u & t3 & [= _ <-] & Hrun)|(e & _ & [=])].
  apply io_bind_Some in Hrun as [(facts & t3 & (r & Hx%exchange_sound & Hr)%io_map_err_Some & [= <- <-])|(e & _ & [=])].
  destruct r as [f|e]; [|done]. injection Hr as ->.
  split; [done|]. split; [done|]. split; [done|]. split; [done|]. by exists t1, t2, challenge.
Qed.

Definition hello_fuel : nat := 4 + Z.to_nat MAX_CONTROL_FRAME_BYTES.

Lemma hello_total fuel network local expected own_facts deadline (t : T) :
  hello_fuel + interrupts t < fuel ->
  exists x, exchange_authenticated_hello (K := K) to_vec from_slice fuel network local expected own_facts deadline t = Some x.
Proof.
  unfold hello_fuel. intros Hf. apply or_close_total, io_step_total; [by eexists|]. intros peer t1 [= _ <-].
  apply io_step_total; [apply export_total|]. intros sid t1 (_ & _ & _ & _ & [_ Hc1])%export_sound.
  apply io_step_total; [unfold io_map_err, io_call; destruct (fill_random t1); by eexists|]. intros challenge t2 Hr%call_Ok.
  destruct (stack_calm t1) as (_ & [_ Hc2] & _). rewrite Hr in Hc2. cbn [snd] in Hc2.
  apply io_step_total; [by eexists|]. intros u t3 [= _ <-].
  apply io_step_total; [|intros facts t4 _; by eexists].
  match goal with |- exists x, io_map_err _ (exchange_hello_claims_with_deadline _ _ _ ?rq) _ = _ =>
    destruct (exchange_total to_vec from_slice fuel rq t2) as [[r t4] Hx] end; [lia|].
  unfold io_map_err. rewrite Hx. by eexists.
Qed.
End hello_facts.

(** *** Activation *)

Section activate_facts.
Context {S : Type} `{LawfulTrustStores S} (pin_store : bool).

(** An active session of an authenticated peer: the connection still shows that
    peer's certificate and yields the same session identifier, and the peer is
    approved with that key when the session is made. *)
Definition activated (local : LocalControlTlsIdentity) (au : AuthenticatedControlPeer) (t : T) (s : S)
    (a : ActiveControlSession T) : Prop :=
  let p := au_peer au in
  as_peer a = p /\ as_session_id a = au_session_id au /\ as_facts a = au_facts au /\
  presented t (pp_node p) (pp_fingerprint p) /\
  exported t (pp_network p) (li_node local) (pp_node p) (au_session_id au) (as_stream a) /\
  authorized_in (content s) (pp_network p) (pp_node p) (pp_fingerprint p) /\
  session_live (pp_network p) (pp_node p) (au_session_id au) (pp_fingerprint p) 2 a /\ said_goodbye a = false.

Lemma activate_sound au local d (t t' : T) (s s' : S) a :
  activate (K := K) pin_store au local d t s = Some (Ok a, t', s') -> activated local au t s a /\ as_stream a = t'.
Proof.
  unfold activate. destruct (or_close _ _ t) as [[[[peer sid]|e] t1]|] eqn:Hbind; [|done|done].
  apply or_close_Some in Hbind as (t0 & Hrun & ->). cbn [is_ok].
  apply io_bind_Some in Hrun as [(p & t2 & [= Hv <-] & Hrun)|(e & _ & [=])]. apply verify_identity_Ok in Hv as (_ & _ & Hp & ->).
  apply io_bind_Some in Hrun as [(sid' & t2 & Hrun & [= <- <- <-])|(e & _ & [=])]. unfold bound_session_id in Hrun.
  apply io_bind_Some in Hrun as [(sid2 & t3 & Hex & [= Hs <-])|(e & _ & [=])].
  apply guard_err_Ok in Hs as [Hs%negb_false_iff%bool_decide_eq_true [= <-]]. subst sid2.
  apply export_sound in Hex as (_ & _ & _ & Hex & _). cbn [pp_network pp_node pp_fingerprint] in *.
  destruct (after_verified_handshake _ _ d s) as [[g|e] s1] eqn:Hgate; [|done].
  apply fresh_ingress in Hgate as (Hauth & Hg & Hgt & Hgl & Hgb). cbn [vi_network vi_peer vi_key vi_session] in *.
  destruct (writer_after_verified_hello _ _ _ _) as [w|e]; [|done]. intros [= <- <- <-]. split; [|done].
  assert (mkPinnedPeer (pp_network (au_peer au)) (pp_node (au_peer au)) (pp_fingerprint (au_peer au)) = au_peer au) as Heta
    by (by destruct (au_peer au)).
  unfold activated. cbn [as_peer as_session_id as_facts as_stream]. rewrite Heta.
  split; [done|]. split; [done|]. split; [done|]. split; [done|]. split; [done|]. split; [done|]. split; [|done]. by split.
Qed.

Lemma activate_total au local d (t : T) (s : S) : exists x, activate (K := K) pin_store au local d t s = Some x.
Proof.
  unfold activate.
  match goal with |- exists x, match or_close ?c ?m t with _ => _ end = _ => assert (exists x, or_close c m t = Some x) as [[r t1] ->] end.
  { apply or_close_total, io_step_total; [by eexists|]. intros p t1 [= _ <-]. apply io_step_total; [|intros sid t1 _; by eexists].
    apply io_step_total; [apply export_total|]. intros sid t1 _. by eexists. }
  destruct r as [[p sid]|e]; [|by eexists]. destruct (after_verified_handshake _ _ d s) as [[g|e] s1]; [|by eexists].
  destruct (writer_after_verified_hello _ _ _ _); by eexists.
Qed.
End activate_facts.
End session_facts.

(** ** Example: a certificate exchange in memory *)

#[local] Existing Instances demo_x509 pipe_stream pipe_lawful pipe_tls pipe_lawful_tls.

#[local] Instance pipe_raw : RawSocket pipe := {
  raw_timeouts := tls_timeout_socket;
  raw_shutdown p := (shutdown_both p).2;
}.

#[local] Instance pipe_lawful_raw : LawfulRaw pipe.
Proof. apply (@Build_LawfulRaw pipe pipe_raw pipe_lawful). intros k o. split_and!; apply moved_refl. Defined.

Definition demo_own_identity : LocalControlTlsIdentity := mkLocalIdentity (fill_id 1) [7; 7]%Z [2]%Z (mkSpki (fill_bytes 32 6)).
Definition demo_allowed : list PinnedControlTlsPeer :=
  [mkPinnedPeer (fill_id 9) (fill_id 2) (mkSpki (fill_bytes 32 4)); mkPinnedPeer (fill_id 9) (fill_id 3) (mkSpki (fill_bytes 32 5))].
Definition demo_preface_socket : pipe := mkPipe (CERTIFICATE_PREFACE ++ [0; 0; 0; 1; 8])%Z [] 0 false.
Definition demo_preface_fuel : nat := 20 * 1000.

Lemma certificate_exchange_pinned_witness :
  exists p k', exchange_control_tls_certificate demo_preface_fuel demo_own_identity (fill_id 9) demo_allowed 100 demo_preface_socket =
      Some (Ok p, k') /\ pc_node p = fill_id 3 /\ pc_certificate p = [8]%Z /\
    pinned_exchange demo_own_identity (fill_id 9) demo_allowed demo_preface_socket k' p.
Proof.
  destruct (certificate_exchange_pinned demo_preface_fuel demo_own_identity (fill_id 9) demo_allowed 100 demo_preface_socket)
    as (r & k' & Hr & Hout).
  { apply Nat.ltb_lt. vm_compute. reflexivity. }
  destruct r as [p|e]; [|vm_compute in Hr; discriminate]. exists p, k'. split; [exact Hr|].
  pose proof (f_equal (fun o => match o with Some (Ok q, _) => Some (pc_node q, pc_certificate q) | _ => None end) Hr) as Hp.
  vm_compute in Hp. injection Hp as Hn Hc. split; [symmetry; exact Hn|]. split; [symmetry; exact Hc|]. exact Hout.
Defined.
