(* ===== verification/ApprovedTransport.v ===== *)
(** Control sessions with approved peers: [apps/daemon/src/approved_transport.rs].

    A session is opened from a plain socket: durable approval first, then the
    certificate exchange, mutual TLS, the authenticated Hello and activation, and
    last admission to the session registry.  The trust stores are shared: others
    may act on them before each approval check ([between]) and while the
    handshake is in flight ([during]). *)

From S2P Require Import Prelude Order Ident Capability Membership PeerPins ConnectionDeadline ControlFrame ControlStream ControlIo Handshake SessionStream SessionActivity SessionRegistry PeerTrust PinnedIngress TlsIdentity ActiveSession RegisteredSession ControlTls.

Record ApprovedControlSetup := mkSetup {
  su_network : NetworkId; su_facts : HelloFacts; su_handshake_deadline : Z; su_active_deadline : ConnectionDeadline;
}.

Inductive RegisteredControlSetupError := SetupControl (e : ControlSessionError) | SetupAdmission (e : SessionAdmissionError).

Section transport.
Context {K T S : Type} `{X509} `{RawSocket K} `{TlsStream T} `{TlsStack K T} `{TrustStores S} (pin_store : bool).
Variable to_vec : ControlEnvelope -> option (list Z).
Variable from_slice : list Z -> option ControlEnvelope.
Variable fuel : nat.
Variables between during : S -> S.

(** An active session, or the error with what is left of the connection. *)
Definition approving : Type := option (result (ControlSessionError * Channel K T) (ActiveControlSession T) * S).

Definition deny (socket : K) (error : CoreError) : ControlSessionError * Channel K T :=
  (Ingress (Authorization error), Plain (raw_shutdown socket)).

(** What follows the TLS handshake on both sides. *)
Definition authenticate (local : LocalControlTlsIdentity) (setup : ApprovedControlSetup) (opened : opening K T) (s : S) : approving :=
  let network := su_network setup in
  match opened with
  | None => None
  | Some (Err (e, channel)) => Some (Err (Authentication e, channel), during s)
  | Some (Ok (stream, certificate)) =>
    match exchange_authenticated_hello (K := K) to_vec from_slice fuel network local certificate (su_facts setup)
        (su_handshake_deadline setup) stream with
    | None => None
    | Some (Err e, stream) => Some (Err (Authentication e, Secure stream), during s)
    | Some (Ok authenticated, stream) =>
      match activate (K := K) pin_store authenticated local (su_active_deadline setup) stream (during s) with
      | None => None
      | Some (Err e, stream, s) => Some (Err (e, Secure stream), s)
      | Some (Ok session, _, s) => Some (Ok session, s)
      end
    end
  end.

Definition connect_approved_control_session (socket : K) (local : LocalControlTlsIdentity) (expected : PinnedControlTlsPeer)
    (setup : ApprovedControlSetup) (s : S) : approving :=
  let (r, s) := require_approved_pinned_tls_peer pin_store (su_network setup) (pp_node expected) (pp_fingerprint expected) (between s) in
  match r with
  | Err error => Some (Err (deny socket error), s)
  | Ok _ => authenticate local setup
      (connect_pinned_control_tls fuel local (su_network setup) expected (su_handshake_deadline setup) socket) s
  end.

(** The loop over the allowed peers: a revoked pin is skipped, any other failure
    ends the attempt. *)
Fixpoint currently_approved (network : NetworkId) (allowed : list PinnedControlTlsPeer) : stres S CoreError (list PinnedControlTlsPeer) :=
  match allowed with
  | [] => st_ret []
  | peer :: allowed => fun s =>
    let (r, s) := require_approved_pinned_tls_peer pin_store network (pp_node peer) (pp_fingerprint peer) (between s) in
    match r with
    | Ok _ => (let! approved := currently_approved network allowed in st_ret (peer :: approved)) s
    | Err error => if bool_decide (kind error = AuthenticationFailed) then currently_approved network allowed s else (Err error, s)
    end
  end.

Definition none_approved : CoreError :=
  core_error AuthenticationFailed "no currently approved control TLS peer is available".

Definition accept_approved_control_session (socket : K) (local : LocalControlTlsIdentity) (allowed : list PinnedControlTlsPeer)
    (setup : ApprovedControlSetup) (s : S) : approving :=
  let (r, s) := currently_approved (su_network setup) allowed s in
  match r with
  | Err error => Some (Err (deny socket error), s)
  | Ok [] => Some (Err (deny socket none_approved), s)
  | Ok approved => authenticate local setup
      (accept_pinned_control_tls fuel local (su_network setup) approved (su_handshake_deadline setup) socket) s
  end.

(** ** With the registry *)

#[local] Instance owned : OwnedSession (ActiveControlSession T * S) := active_owned pin_store to_vec from_slice fuel during.

Definition registering : Type :=
  option (result RegisteredControlSetupError (RegisteredControlSession (ActiveControlSession T * S)) * S * SharedRegistry).

(** [map_err(Control)], then [RegisteredControlSession::admit]: what is left of a
    failed connection is dropped. *)
Definition admit_opened (opened : approving) (g : SharedRegistry) : registering :=
  match opened with
  | None => None
  | Some (Err (e, _), s) => Some (Err (SetupControl e), s, g)
  | Some (Ok session, s) =>
    match admit_session (session, s) g with
    | (Ok registered, g) => Some (Ok registered, s, g)
    | (Err e, g) => Some (Err (SetupAdmission e), s, g)
    end
  end.

Definition connect_registered_control_session (socket : K) (local : LocalControlTlsIdentity) (expected : PinnedControlTlsPeer)
    (setup : ApprovedControlSetup) (s : S) (g : SharedRegistry) : registering :=
  admit_opened (connect_approved_control_session socket local expected setup s) g.

Definition accept_registered_control_session (socket : K) (local : LocalControlTlsIdentity) (allowed : list PinnedControlTlsPeer)
    (setup : ApprovedControlSetup) (s : S) (g : SharedRegistry) : registering :=
  admit_opened (accept_approved_control_session socket local allowed setup s) g.

Definition accept_registered_from_durable_approval (socket : K) (local : LocalControlTlsIdentity) (setup : ApprovedControlSetup)
    (s : S) (g : SharedRegistry) : registering :=
  let (r, s) := approved_control_pins pin_store (su_network setup) s in
  match r with
  | Err error => Some (Err (SetupControl (deny socket error).1), s, g)
  | Ok allowed => accept_registered_control_session socket local allowed setup s g
  end.
End transport.
Arguments approving : clear implicits.

(** ** Facts *)

Lemma after_verified_content {S : Type} `{LawfulTrustStores S} (pin_store : bool) v d (s : S) :
  content (after_verified_handshake pin_store v d s).2 = content s.
Proof.
  unfold after_verified_handshake, st_bind, st_map_err.
  pose proof (with_approved_reads pin_store (vi_network v) (vi_peer v) (vi_key v) (fun _ => ()) s) as Hr.
  unfold require_approved_pinned_tls_peer. destruct (with_approved_pinned_tls_peer _ _ _ _ _ s) as [[u|e] s1]; cbn in *; [|done].
  destruct (activity_after_verified_hello _ _ _ _); done.
Qed.

Section facts.
Context {K T S : Type} `{X509} `{LawfulTlsStack K T} `{LawfulTrustStores S} (pin_store : bool).
Variable to_vec : ControlEnvelope -> option (list Z).
Variable from_slice : list Z -> option ControlEnvelope.
Variable fuel : nat.
Variables between during : S -> S.

(** A session opened from [socket] with one of the allowed peers.  The stores end
    as [s']. *)
Record verified_session (local : LocalControlTlsIdentity) (setup : ApprovedControlSetup) (allowed : list PinnedControlTlsPeer)
    (socket : K) (s' : S) (a : ActiveControlSession T) : Prop := {
  vs_peer : pp_network (as_peer a) = su_network setup /\ as_peer a ∈ allowed /\ pp_node (as_peer a) <> li_node local;
  vs_preface : exists k' c, pinned_exchange local (su_network setup) allowed socket k' c /\ peer_pin c = as_peer a;
  vs_hello : exists t t1 t2 t3 challenge,
    presented (K := K) t (pp_node (as_peer a)) (pp_fingerprint (as_peer a)) /\
    exported (K := K) t (su_network setup) (li_node local) (pp_node (as_peer a)) (as_session_id a) t1 /\
    fill_random (K := K) t1 = (Ok challenge, t2) /\
    exchanged to_vec from_slice (mkRequest (su_network setup) (li_node local) (pp_node (as_peer a)) (as_session_id a) challenge
      (su_facts setup) (su_handshake_deadline setup)) t2 t3 (as_facts a) /\
    presented (K := K) t3 (pp_node (as_peer a)) (pp_fingerprint (as_peer a)) /\
    exported (K := K) t3 (su_network setup) (li_node local) (pp_node (as_peer a)) (as_session_id a) (as_stream a);
  vs_authorized : authorized_in (content s') (su_network setup) (pp_node (as_peer a)) (pp_fingerprint (as_peer a));
  vs_live : session_live (su_network setup) (pp_node (as_peer a)) (as_session_id a) (pp_fingerprint (as_peer a)) 2 a /\
    said_goodbye a = false;
  vs_interrupts : interrupts (as_stream a) <= interrupts socket;
}.

Lemma activate_content au local d (t t' : T) (s s' : S) r :
  activate (K := K) pin_store au local d t s = Some (r, t', s') -> content s' = content s.
Proof.
  unfold activate. destruct (or_close _ _ t) as [[[[p sid]|e] t1]|]; [|by intros [= _ _ <-]|done].
  match goal with |- context [after_verified_handshake pin_store ?v d s] => pose proof (after_verified_content pin_store v d s) as Hc;
    destruct (after_verified_handshake pin_store v d s) as [[g|e] s1] end; cbn [snd] in Hc; [|by intros [= _ _ <-]].
  destruct (writer_after_verified_hello _ _ _ _); by intros [= _ _ <-].
Qed.

Lemma authenticate_sound local setup allowed (socket : K) opened (s s' : S) a :
  (forall t c, opened = Some (Ok (t, c)) ->
     exists k', pinned_exchange local (su_network setup) allowed socket k' c /\ interrupts t <= interrupts socket) ->
  authenticate pin_store to_vec from_slice fuel during local setup opened s = Some (Ok a, s') ->
  verified_session local setup allowed socket s' a.
Proof.
  intros Hopen. unfold authenticate. destruct opened as [[[t c]|[e ch]]|]; [|done|done].
  destruct (Hopen t c eq_refl) as (k' & Hx & Hint). clear Hopen.
  destruct (exchange_authenticated_hello _ _ _ _ _ _ _ _ t) as [[[au|e] t3]|] eqn:Hh; [|done|done].
  apply hello_sound in Hh as (Hnet & Hpeer & Hpres & Hne & t1 & t2 & challenge & Hex & Hrand & Hhello).
  destruct (activate pin_store au local (su_active_deadline setup) t3 (during s)) as [[[[a'|e] t4] s2]|] eqn:Hact; [|done|done].
  intros [= -> ->]. pose proof (activate_content _ _ _ _ _ _ _ _ Hact) as Hc.
  apply activate_sound in Hact as [(Hp & Hsid & Hf & Hpres3 & Hex3 & Hauth & Hlive & Hbye) _].
  rewrite Hpeer in *. cbn [pp_network pp_node pp_fingerprint] in *. rewrite <- Hc in Hauth.
  assert (peer_pin c = as_peer a) as Hpin by (rewrite Hp; unfold peer_pin; by rewrite Hnet).
  split; rewrite ?Hp, ?Hsid, ?Hf; cbn [pp_network pp_node pp_fingerprint]; try done.
  - split; [done|]. split; [|done]. rewrite <- Hp, <- Hpin. by eapply pe_allowed.
  - exists k', c. split; [done|]. unfold peer_pin. by rewrite Hnet.
  - by exists t, t1, t2, t3, challenge.
  - destruct Hex as (ctx & _ & Hex), Hex3 as (ctx3 & _ & Hex3). pose proof (stack_calm t) as (_ & _ & Hc1).
    pose proof (stack_calm t3) as (_ & _ & Hc3). pose proof (stack_calm t1) as (_ & [_ Hc2] & _).
    destruct (Hc1 TLS_CONTROL_EXPORTER_LABEL ctx) as [_ Hk1], (Hc3 TLS_CONTROL_EXPORTER_LABEL ctx3) as [_ Hk3].
    rewrite Hex in Hk1. rewrite Hex3 in Hk3. rewrite Hrand in Hc2. cbn [snd] in *.
    destruct Hhello as (echo & rh & ra & fh & fa & gh & ga & _ & _ & _ & _ & _ & (_ & _ & _ & Hk2) & _). lia.
Qed.

Lemma connect_approved_sound (socket : K) local expected setup (s s' : S) a :
  connect_approved_control_session (T := T) pin_store to_vec from_slice fuel between during socket local expected setup s = Some (Ok a, s') ->
  verified_session local setup [expected] socket s' a.
Proof.
  unfold connect_approved_control_session. destruct (require_approved_pinned_tls_peer _ _ _ _ _) as [[u|e] s1]; [|done].
  apply authenticate_sound. intros t c Hx%connect_pinned_sound. exact Hx.
Qed.

Lemma currently_approved_incl network allowed (s s' : S) approved :
  currently_approved pin_store between network allowed s = (Ok approved, s') -> forall p, p ∈ approved -> p ∈ allowed.
Proof.
  revert s approved. induction allowed as [|peer allowed IH]; intros s approved; [by intros [= <- _]|].
  cbn [currently_approved]. destruct (require_approved_pinned_tls_peer _ _ _ _ _) as [[u|e] s1].
  - intros (l & s2 & Hl & [= <- <-])%st_bind_Ok p. rewrite !elem_of_cons. intros [->|Hp]; [by left|]. right. by eapply IH.
  - case_bool_decide; [|done]. intros Hl p Hp. apply elem_of_cons. right. by eapply IH.
Qed.

Lemma accept_approved_sound (socket : K) local allowed setup (s s' : S) a :
  accept_approved_control_session (T := T) pin_store to_vec from_slice fuel between during socket local allowed setup s = Some (Ok a, s') ->
  exists approved, (forall p, p ∈ approved -> p ∈ allowed) /\ verified_session local setup approved socket s' a.
Proof.
  unfold accept_approved_control_session. destruct (currently_approved _ _ _ _ _) as [[approved|e] s1] eqn:Happ; [|done].
  pose proof (currently_approved_incl _ _ _ _ _ Happ) as Hincl. destruct approved as [|p approved]; [done|].
  intros Hrun. exists (p :: approved). split; [done|]. eapply authenticate_sound; [|exact Hrun].
  intros t c Hx%accept_pinned_sound. exact Hx.
Qed.

(** *** It answers *)

Definition session_fuel (local : LocalControlTlsIdentity) (socket : K) : nat :=
  opening_fuel (T := T) local socket + hello_fuel.

Lemma authenticate_total local setup (socket : K) opened (s : S) :
  session_fuel local socket < fuel -> (exists x, opened = Some x) ->
  (forall t c, opened = Some (Ok (t, c)) -> interrupts t <= interrupts socket) ->
  exists x, authenticate (K := K) pin_store to_vec from_slice fuel during local setup opened s = Some x.
Proof.
  intros Hf [x ->] Hint. unfold authenticate. destruct x as [[t c]|[e ch]]; [|by eexists]. specialize (Hint t c eq_refl).
  unfold session_fuel, opening_fuel in Hf.
  destruct (hello_total (K := K) to_vec from_slice fuel (su_network setup) local c (su_facts setup) (su_handshake_deadline setup) t)
    as [[[au|e] t1] ->]; [lia| |by eexists].
  destruct (activate_total (K := K) pin_store au local (su_active_deadline setup) t1 (during s)) as [[[[a|e] t2] s2] ->]; by eexists.
Qed.

Lemma accept_approved_total (socket : K) local allowed setup (s : S) :
  session_fuel local socket < fuel ->
  exists x, accept_approved_control_session (T := T) pin_store to_vec from_slice fuel between during socket local allowed setup s = Some x.
Proof.
  intros Hf. unfold accept_approved_control_session. destruct (currently_approved _ _ _ _ _) as [[[|p approved]|e] s1]; [by eexists| |by eexists].
  apply (authenticate_total _ _ socket); [done| |].
  - apply accept_pinned_total. unfold session_fuel in Hf. lia.
  - intros t c (k' & _ & Hi)%accept_pinned_sound. done.
Qed.

Lemma connect_approved_total (socket : K) local expected setup (s : S) :
  session_fuel local socket < fuel ->
  exists x, connect_approved_control_session (T := T) pin_store to_vec from_slice fuel between during socket local expected setup s = Some x.
Proof.
  intros Hf. unfold connect_approved_control_session. destruct (require_approved_pinned_tls_peer _ _ _ _ _) as [[u|e] s1]; [|by eexists].
  apply (authenticate_total _ _ socket); [done| |].
  - apply connect_pinned_total. unfold session_fuel in Hf. lia.
  - intros t c (k' & _ & Hi)%connect_pinned_sound. done.
Qed.

(** *** Admission *)

(** The registered owner of a session: its generation is the active one and its
    identifier was outside its bounded history. *)
Definition owns_generation (reg : RegisteredControlSession (ActiveControlSession T * S)) (g g' : SharedRegistry) : Prop :=
  let a := (rs_session reg).1 in
  rs_key reg = mkKey (pp_network (as_peer a)) (pp_node (as_peer a)) /\ rs_session_id reg = as_session_id a /\
  current reg g' /\ (as_session_id a ∉ seen_session_ids (lk_registry (sh_lock (acquire g)))) /\
  (forall e, sessions (lk_registry (sh_lock (acquire g))) !! rs_key reg = Some e -> phase e <> Active).

(** The registry is as this attempt found it. *)
Definition registry_left (g g' : SharedRegistry) : Prop :=
  g' = g \/ lk_registry (sh_lock g') = lk_registry (sh_lock (acquire g)).

Lemma admit_opened_sound (opened : approving K T S) g r (s' : S) g' :
  admit_opened pin_store to_vec from_slice fuel during opened g = Some (r, s', g') ->
  match r with
  | Ok reg => exists a, opened = Some (Ok a, s') /\ rs_session reg = (a, s') /\ owns_generation reg g g'
  | Err _ => registry_left g g'
  end.
Proof.
  unfold admit_opened. destruct opened as [[[a|[e ch]] s1]|]; [|by intros [= <- _ <-]; left|done].
  destruct (admit_session (a, s1) g) as [[reg|e] g1] eqn:Hadm; apply admit_session_spec in Hadm as [_ Hadm]; intros [= <- <- <-]; [|by right].
  exists a. destruct Hadm as (-> & Hp & Hact & Hph & Hseen). split; [done|]. split; [done|].
  split; [done|]. split; [done|]. split; [by split|]. by split.
Qed.

Lemma admit_opened_total (opened : approving K T S) g :
  (exists x, opened = Some x) -> exists x, admit_opened pin_store to_vec from_slice fuel during opened g = Some x.
Proof.
  intros [[[a|[e ch]] s1] ->]; unfold admit_opened; [|by eexists]. destruct (admit_session (a, s1) g) as [[reg|e] g1]; by eexists.
Qed.

(** An outbound session is what an inbound one is, with the one expected peer. *)
Theorem outbound_session_verified (socket : K) (local : LocalControlTlsIdentity) (expected : PinnedControlTlsPeer)
    (setup : ApprovedControlSetup) (s : S) (g : SharedRegistry) :
  session_fuel local socket < fuel ->
  exists r s' g', connect_registered_control_session (T := T) pin_store to_vec from_slice fuel between during socket local expected
      setup s g = Some (r, s', g') /\
    match r with
    | Ok reg => let a := (rs_session reg).1 in
        as_peer a = expected /\ verified_session local setup [expected] socket s' a /\ owns_generation reg g g'
    | Err _ => registry_left g g'
    end.
Proof.
  intros Hf. unfold connect_registered_control_session.
  destruct (admit_opened_total _ g (connect_approved_total socket local expected setup s Hf)) as [[[r s'] g'] Hrun].
  exists r, s', g'. split; [done|]. apply admit_opened_sound in Hrun. destruct r as [reg|e]; [|done].
  destruct Hrun as (a & Ha%connect_approved_sound & Heq & Hown). rewrite Heq. cbv zeta. cbn [fst]. split; [|done].
  destruct (vs_peer _ _ _ _ _ _ Ha) as (_ & Hin & _). by apply list_elem_of_singleton in Hin.
Qed.

(** An inbound attempt answers, and what it answers. *)
Lemma accept_durable_sound (socket : K) (local : LocalControlTlsIdentity) (setup : ApprovedControlSetup) (s : S) (g : SharedRegistry) :
  session_fuel local socket < fuel ->
  exists r s' g', accept_registered_from_durable_approval (T := T) pin_store to_vec from_slice fuel between during socket local
      setup s g = Some (r, s', g') /\
    match r with
    | Ok reg => exists a approved, rs_session reg = (a, s') /\
        authorized_in (content s) (su_network setup) (pp_node (as_peer a)) (pp_fingerprint (as_peer a)) /\
        verified_session local setup approved socket s' a /\
        (forall p, p ∈ approved -> authorized_in (content s) (su_network setup) (pp_node p) (pp_fingerprint p)) /\
        owns_generation reg g g'
    | Err _ => registry_left g g'
    end.
Proof.
  intros Hf. unfold accept_registered_from_durable_approval.
  destruct (approved_control_pins pin_store (su_network setup) s) as [[allowed|e] s1] eqn:Hpins.
  2:{ eexists _, _, _. split; [reflexivity|]. by left. }
  pose proof (approved_control_pins_Ok pin_store _ _ _ _ Hpins) as Hall. unfold accept_registered_control_session.
  destruct (admit_opened_total _ g (accept_approved_total socket local allowed setup s1 Hf)) as [[[r s'] g'] Hrun].
  exists r, s', g'. split; [done|]. apply admit_opened_sound in Hrun. destruct r as [reg|e]; [|done].
  destruct Hrun as (a & (approved & Hincl & Hv)%accept_approved_sound & Heq & Hown). exists a, approved.
  assert (forall p, p ∈ approved -> authorized_in (content s) (su_network setup) (pp_node p) (pp_fingerprint p)) as Happ
    by (intros p Hp; apply Hall; by apply Hincl).
  split; [done|]. destruct (vs_peer _ _ _ _ _ _ Hv) as (_ & Hin & _). by split_and!; [apply Happ|..].
Qed.

(** C27. An inbound connection becomes a session only for an approved peer that
    proved its key.  With enough fuel accepting a socket answers.  The registered
    session it returns is with a peer that was approved with exactly its key when
    the pins were listed and is still when the session is activated, whatever
    others did to the stores in between; its one preface and its TLS 1.3
    certificate name that node and carry that key; its identifier is this
    connection's exporter output for this network and these two nodes, before the
    Hello and after it, and the Hello was exchanged in it; and it is registered
    as the active generation of its peer under an identifier that is not among
    those the registry remembers (a bounded history: one seen long ago and
    evicted is not refused).  An attempt that fails leaves the registry as it
    found it. *)
Theorem inbound_session_verified (socket : K) (local : LocalControlTlsIdentity) (setup : ApprovedControlSetup) (s : S)
    (g : SharedRegistry) :
  session_fuel local socket < fuel ->
  exists r s' g', accept_registered_from_durable_approval (T := T) pin_store to_vec from_slice fuel between during socket local
      setup s g = Some (r, s', g') /\
    match r with
    | Ok reg => let a := (rs_session reg).1 in
        authorized_in (content s) (su_network setup) (pp_node (as_peer a)) (pp_fingerprint (as_peer a)) /\
        (exists approved, verified_session local setup approved socket s' a /\
           forall p, p ∈ approved -> authorized_in (content s) (su_network setup) (pp_node p) (pp_fingerprint p)) /\
        owns_generation reg g g'
    | Err _ => registry_left g g'
    end.
Proof.
  intros Hf. destruct (accept_durable_sound socket local setup s g Hf) as (r & s' & g' & Hrun & Hout).
  exists r, s', g'. split; [done|]. destruct r as [reg|e]; [|done]. destruct Hout as (a & approved & Heq & Ha & Hv & Hall & Hown).
  rewrite Heq. cbv zeta. cbn [fst]. split; [done|]. split; [|done]. by exists approved.
Qed.
End facts.

(** ** Example: an inbound session in memory *)

#[local] Existing Instances disk_stores disk_lawful demo_x509 pipe_stream pipe_lawful pipe_tls pipe_lawful_tls pipe_raw pipe_lawful_raw.

(** A TLS library that passes everything through. *)
#[local] Instance demo_stack : TlsStack pipe pipe := {
  client_builds _ := true;
  valid_server_name _ := true;
  verifier_builds _ := true;
  server_builds _ := true;
  client_connection _ p := Some p;
  server_connection _ p := Some p;
  is_handshaking _ := false;
  is_tls13 _ := true;
  peer_certificates _ := Some [[8]%Z];
  complete_io p := (Ok (), p);
  export_keying_material _ _ p := (Ok (exported_session_id demo_alice), p);
  fill_random p := (Ok (local_challenge demo_alice), p);
}.

#[local] Instance demo_lawful_stack : LawfulTlsStack pipe pipe.
Proof.
  refine {| flights := 0; handshake_left := fun _ => 0 |}.
  - done.
  - intros t. split; [|done]. split; simpl; lia.
  - by intros t o.
  - intros t. split_and!; [| |intros label context]; split; simpl; lia.
  - intros c k t [= <-]. done.
  - intros c k t [= <-]. done.
Defined.

Definition demo_inbound_member : NetworkMembership :=
  mkMembership (fill_id 1) (mkDisplayName [104]%Z) Member {[ fill_id 3 := mkPeer (fill_id 3) true true ]}.
Definition demo_inbound_disk : disk :=
  mkDisk (mkRegistry {[ fill_id 1 := demo_inbound_member ]}) {[ (fill_id 1, fill_id 3) := mkSpki (fill_bytes 32 5) ]} 10 false.
Definition demo_inbound_socket : pipe := mkPipe (CERTIFICATE_PREFACE ++ [0; 0; 0; 1; 8]%Z ++ bob_bytes) [] 0 false.
Definition demo_inbound_local : LocalControlTlsIdentity := mkLocalIdentity (fill_id 2) [7; 7]%Z [2]%Z (mkSpki (fill_bytes 32 6)).
Definition demo_inbound_setup : ApprovedControlSetup := mkSetup (fill_id 1) (local_facts demo_alice) 1000 (entered ConnectionDeadline.Active 0).
Definition demo_inbound_fuel : nat := demo_fuel + 20 * 1000.
Definition demo_inbound : registering :=
  accept_registered_from_durable_approval (T := pipe) true (table_to_vec demo_table) (table_from_slice demo_table) demo_inbound_fuel
    id id demo_inbound_socket demo_inbound_local demo_inbound_setup demo_inbound_disk (mkShared (mkLock registry_new false) []).

Lemma inbound_session_verified_witness :
  exists reg s' g', demo_inbound = Some (Ok reg, s', g') /\ pp_node (as_peer (rs_session reg).1) = fill_id 3 /\
    as_facts (rs_session reg).1 = demo_facts 50 /\
    authorized_in (content demo_inbound_disk) (fill_id 1) (fill_id 3) (mkSpki (fill_bytes 32 5)) /\ current reg g'.
Proof.
  destruct (inbound_session_verified true (table_to_vec demo_table) (table_from_slice demo_table) demo_inbound_fuel id id
    demo_inbound_socket demo_inbound_local demo_inbound_setup demo_inbound_disk (mkShared (mkLock registry_new false) []))
    as (r & s' & g' & Hr & Hout).
  { apply Nat.ltb_lt. vm_compute. reflexivity. }
  destruct r as [reg|e]; [|vm_compute in Hr; discriminate]. exists reg, s', g'. split; [exact Hr|].
  pose proof (f_equal (fun o => match o with Some (Ok q, _, _) => Some (as_peer (rs_session q).1, as_facts (rs_session q).1) | _ => None end) Hr) as Hp.
  vm_compute in Hp. injection Hp as Hn Hc. destruct Hout as (Hauth & _ & _ & _ & Hcur & _).
  assert (as_peer (rs_session reg).1 = mkPinnedPeer (fill_id 1) (fill_id 3) (mkSpki (fill_bytes 32 5))) as Hpeer by (symmetry; exact Hn).
  rewrite Hpeer in Hauth |- *.
  split; [reflexivity|]. split; [symmetry; exact Hc|]. split; [exact Hauth|exact Hcur].
Defined.
