(* ===== verification/InboundListener.v ===== *)
(** Inbound control sessions of an owned listener:
    [poll_registered_from_durable_network_operations] of
    [apps/daemon/src/control_listener.rs].

    One tick of the host's control listener: [ControlListener] polls for a
    socket between two observations of the daemon's ownership, [ApprovedTransport]
    turns it into a registered session, and a third observation with a recheck of
    the approval releases the session. *)

From S2P Require Import Prelude Order Ident Capability Addressing LinuxRoutes Membership StarHost PeerPins ConnectionDeadline ControlFrame ControlStream ControlIo Handshake SessionStream SessionActivity SessionRegistry PeerTrust PinnedIngress TlsIdentity ActiveSession RegisteredSession SingleStar ControlEndpoint ControlListener ControlTls ApprovedTransport.

Definition other_network : CoreError :=
  core_error InvalidInput "authenticated control setup targets a different NAP network".
Definition inbound_failed : CoreError :=
  core_error_with_diagnostic AuthenticationFailed "inbound control TLS or session admission failed" "{error}".

Section inbound.
Context {K T S : Type} `{X509} `{RawSocket K} `{TlsStream T} `{TlsStack K T} `{TrustStores S} (pin_store : bool).
Context {M R G L W : Type} `{RegistryStore M} `{ControlRuntime R L} `{ListenerWorld W L K}.
Context (config : DaemonConfig).
Variable to_vec : ControlEnvelope -> option (list Z).
Variable from_slice : list Z -> option ControlEnvelope.
Variable fuel : nat.
Variables between during : S -> S.

Abbreviation daemon := (SingleStar M R G * W)%type.
Abbreviation session := (RegisteredControlSession (ActiveControlSession T * S)).

#[local] Instance inbound_owned : OwnedSession (ActiveControlSession T * S) := active_owned pin_store to_vec from_slice fuel during.

(** The result, the trust stores, the registry, and the listener in its daemon. *)
Definition polling : Type := option (CoreResult (option session) * S * SharedRegistry * (ObservedControlListener L * daemon)).

Definition poll_registered_from_durable_network_operations (local : LocalControlTlsIdentity) (setup : ApprovedControlSetup)
    (s : S) (g : SharedRegistry) (ow : ObservedControlListener L * daemon) : polling :=
  if negb (bool_decide (su_network setup = ol_network ow.1)) then Some (Err other_network, s, g, retire_listener ow)
  else
    let (polled, ow) := poll_from_durable_network_operations config ow in
    match polled with
    | Err e => Some (Err e, s, g, ow)
    | Ok None => Some (Ok None, s, g, ow)
    | Ok (Some socket) =>
      match accept_registered_from_durable_approval pin_store to_vec from_slice fuel between during socket local setup s g with
      | None => None
      | Some (Err _, s, g) => Some (Err inbound_failed, s, g, ow)
      | Some (Ok registered, _, g) =>
        match release_registered_from_durable_network_operations config ((registered, g), ow) with
        | None => None
        | Some (Err e, ((registered, g), ow)) => Some (Err e, (rs_session registered).2, g, ow)
        | Some (Ok _, ((registered, g), ow)) => Some (Ok (Some registered), (rs_session registered).2, g, ow)
        end
      end
    end.
End inbound.

(** ** Claims *)

Section claims.
Context {K T S : Type} `{X509} `{LawfulTlsStack K T} `{LawfulTrustStores S} (pin_store : bool).
Context {M B G L W : Type} `{RegistryStore M} `{HostBackends B} `{TcpHost B L} `{ListenerWorld W L K}.
Context (config : DaemonConfig).
Variable to_vec : ControlEnvelope -> option (list Z).
Variable from_slice : list Z -> option ControlEnvelope.
Variable fuel : nat.
Variables between during : S -> S.

Abbreviation state := (SingleStar M (LinuxStarHostRuntime B) G).

(** An admitted session can do its operations. *)
Lemma verified_ready (local : LocalControlTlsIdentity) setup allowed (socket : K) (s' : S) (a : ActiveControlSession T) :
  session_fuel (T := T) local socket < fuel ->
  verified_session to_vec from_slice local setup allowed socket s' a -> active_ready fuel (a, s').
Proof.
  intros Hf Hv. right. eexists _, _, _, _, 2%Z. split; [apply (vs_live _ _ _ _ _ _ _ _ Hv)|].
  unfold enough. cbn [fst]. pose proof (vs_interrupts _ _ _ _ _ _ _ _ Hv). unfold session_fuel, opening_fuel, hello_fuel in Hf. lia.
Qed.

Abbreviation session := (RegisteredControlSession (ActiveControlSession T * S)).

#[local] Instance claim_owned : OwnedSession (ActiveControlSession T * S) := active_owned pin_store to_vec from_slice fuel during.
#[local] Instance claim_lawful : LawfulSession (ActiveControlSession T * S) := active_lawful pin_store to_vec from_slice fuel during.

(** A recheck that passes leaves the session and says that its peer is approved. *)
Lemma revalidate_Ok (a a' : ActiveControlSession T) (s s' : S) :
  revalidate_approval pin_store (a, s) = Some (Ok (), (a', s')) ->
  a' = a /\ authorized_in (content s') (pp_network (as_peer a)) (pp_node (as_peer a)) (pp_fingerprint (as_peer a)).
Proof.
  unfold revalidate_approval, authorize_outbound, require_approved_pinned_tls_peer. destruct (as_terminal a); [done|].
  pose proof (with_approved_reads pin_store (pp_network (as_peer a)) (pp_node (as_peer a)) (pp_fingerprint (as_peer a)) (fun _ => ()) s) as Hc.
  destruct (with_approved_pinned_tls_peer _ _ _ _ _ s) as [[[]|e] s1] eqn:Hrun; [|done]. cbn [snd] in Hc. intros [= <- <-]. split; [done|].
  apply with_approved_Ok in Hrun as (_ & Ha & _). by rewrite Hc.
Qed.

(** The session of a tick: the socket was accepted while the daemon owned the
    listener's endpoint, the session was opened on it with a peer approved before
    and after, the ownership was observed a third time and the approval
    rechecked, and its generation is the active one. *)
Definition session_released (local : LocalControlTlsIdentity) (setup : ApprovedControlSetup) (s s' : S)
    (o : ObservedControlListener L) (d d' : state) (w : W) (r : session) (g' : SharedRegistry) : Prop :=
  let peer := as_peer (rs_session r).1 in
  let owned := endpoint_witnessed config (ol_network o) (ol_endpoint o) in
  su_network setup = ol_network o /\ current r g' /\ rs_key r = mkKey (su_network setup) (pp_node peer) /\
  authorized_in (content s) (su_network setup) (pp_node peer) (pp_fingerprint peer) /\
  authorized_in (content s') (su_network setup) (pp_node peer) (pp_fingerprint peer) /\
  exists l socket d1 d2 w1, ol_listener o = Some l /\ owned d d1 /\ tcp_accept l w = (Ok socket, w1) /\ owned d1 d2 /\ owned d2 d' /\
    exists approved (s1 : S), verified_session to_vec from_slice local setup approved socket s1 (rs_session r).1.

(** What one tick does. *)
Lemma inbound_tick_outcome (local : LocalControlTlsIdentity) (setup : ApprovedControlSetup) (s : S) (g : SharedRegistry)
    (o : ObservedControlListener L) (d : state) (w : W)
    (Hfuel : forall socket, (poll_from_durable_network_operations config (o, (d, w))).1 = Ok (Some socket) ->
       session_fuel (T := T) local socket < fuel) :
  exists r s' g' o' d' w',
    poll_registered_from_durable_network_operations (T := T) pin_store config to_vec from_slice fuel between during local setup s g
      (o, (d, w)) = Some (r, s', g', (o', (d', w'))) /\
    ol_network o' = ol_network o /\ ol_endpoint o' = ol_endpoint o /\
    (su_network setup <> ol_network o -> r = Err other_network /\ ol_listener o' = None /\ s' = s /\ g' = g /\ d' = d) /\
    match r with
    | Ok (Some reg) => session_released local setup s s' o d d' w reg g'
    | Ok None => s' = s /\ g' = g
    | Err _ => registry_left g g' \/ exists reg : session, let_go reg g'
    end.
Proof.
  unfold poll_registered_from_durable_network_operations. case_bool_decide as Hnet; cbn [negb]; cbn [fst] in Hnet.
  2:{ pose proof (retire_listener_spec o (d, w)) as (Hn & He & Hnone). destruct (retire_listener (o, (d, w))) as [o' [d' w']] eqn:Hret.
      exists (Err other_network), s, g, o', d', w'. split; [done|]. split; [done|]. split; [done|]. split; [|by left; left].
      intros _. split; [done|]. split; [done|]. split; [done|]. split; [done|].
      unfold retire_listener in Hret. destruct (ol_listener o); by injection Hret as _ <- _. }
  destruct (poll_from_durable_network_operations config (o, (d, w))) as [polled [o1 [d1 w1]]] eqn:Hpoll. cbn [fst] in Hfuel.
  destruct (poll_with_async_observations_spec _ _ _ _ _ _ Hpoll) as (Hn1 & He1 & _).
  destruct polled as [[socket|]|e].
  2,3: (eexists _, s, g, o1, d1, w1; split; [reflexivity|]; split; [done|]; split; [done|]; split; [done|]).
  2: done.
  2: by left; left.
  specialize (Hfuel socket eq_refl).
  apply (durable_poll_owned (M := M)) in Hpoll as (-> & l & d0 & w2 & w3 & Hl & Hown1 & Hacc & _ & Hown2 & _).
  destruct (accept_durable_sound pin_store to_vec from_slice fuel between during socket local setup s g Hfuel)
    as (r & s1 & g1 & -> & Hout).
  destruct r as [reg|e].
  2:{ eexists _, s1, g1, o, d1, w1. split; [reflexivity|]. split; [done|]. split; [done|]. split; [done|]. by left. }
  destruct Hout as (a & approved & Hreg & Hauth & Hv & _ & Hkey & _ & _).
  destruct (release_registered_if_current_spec (durable_observation config (ol_network o)) reg g1 o (d1, w1))
    as (res & reg' & g' & o' & [d' w'] & Hrel & Hids & Hn & He & Hres).
  { unfold ready_session. rewrite Hreg. by eapply verified_ready. }
  unfold release_registered_from_durable_network_operations. unfold owned, claim_owned, inbound_owned in *. rewrite Hrel.
  destruct res as [u|e].
  2:{ eexists _, _, g', o', d', w'. split; [reflexivity|]. split; [done|]. split; [done|]. split; [done|]. right. exists reg'. apply Hres. }
  destruct Hres as (_ & -> & Hsn & Hobs & [_ Hre] & Hcur). cbn [os_revalidate active_owned] in Hre. rewrite Hreg in Hre.
  destruct (rs_session reg') as [a' s'] eqn:Hreg'. apply revalidate_Ok in Hre as [-> Hnow].
  destruct (vs_peer _ _ _ _ _ _ _ _ Hv) as (Hpn & _ & _).
  eexists _, s', g', o, d', w'. split; [reflexivity|]. split; [done|]. split; [done|]. split; [done|].
  unfold session_released. rewrite Hreg', Hreg in *. cbn [fst] in *. injection Hids as Hk _. rewrite Hpn in *.
  split; [done|]. split; [done|]. split; [congruence|]. split; [done|]. split; [done|].
  exists l, socket, d0, d1, w2. split; [done|]. split; [done|]. split; [done|]. split; [done|]. split.
  - unfold durable_observation, owner_observation in Hobs.
    destruct (observe_durable_owned_endpoint config (ol_network o) d1) as [x t1] eqn:Ex. injection Hobs as -> -> ->.
    by apply observe_durable_Ok in Ex as [_ Ex].
  - by exists approved, s1.
Qed.

(** One tick of the inbound control listener.  It answers, given fuel for the
    socket it accepts.  A session it hands out belongs to a peer approved with
    exactly its key when the pins were listed, when the session was activated and
    when it is handed out; the socket was accepted between two complete
    observations of the daemon's ownership of the listener's network and endpoint
    and a third one came after the session was admitted; and it is the active
    generation of its peer.  A tick for another network retires the listener and
    touches nothing else. *)
Theorem inbound_tick_verified (local : LocalControlTlsIdentity) (setup : ApprovedControlSetup) (s : S) (g : SharedRegistry)
    (o : ObservedControlListener L) (d : state) (w : W)
    (Hfuel : forall socket, (poll_from_durable_network_operations config (o, (d, w))).1 = Ok (Some socket) ->
       session_fuel (T := T) local socket < fuel) :
  exists r s' g' o' d' w',
    poll_registered_from_durable_network_operations (T := T) pin_store config to_vec from_slice fuel between during local setup s g
      (o, (d, w)) = Some (r, s', g', (o', (d', w'))) /\
    ol_network o' = ol_network o /\ ol_endpoint o' = ol_endpoint o /\
    (su_network setup <> ol_network o -> r = Err other_network /\ ol_listener o' = None /\ s' = s /\ g' = g /\ d' = d) /\
    match r with
    | Ok (Some reg) => session_released local setup s s' o d d' w reg g'
    | Ok None => s' = s /\ g' = g
    | Err _ => registry_left g g' \/ exists reg : session, let_go reg g'
    end.
Proof. by apply inbound_tick_outcome. Qed.
End claims.

(** ** Example: a peer connects to the network this machine hosts *)

Record PipeKernel := mkPipeKernel { arrivals : list pipe }.
#[local] Instance pipe_kernel : ListenerWorld PipeKernel nat pipe := {
  tcp_accept _ k := match arrivals k with
    | [] => (Err ControlListener.WouldBlock, k)
    | p :: l => (Ok p, mkPipeKernel l)
    end;
  set_blocking _ k := (Ok (), k);
  shutdown_both _ k := k;
  drop_socket _ k := k;
  drop_listener _ k := k;
}.
#[local] Existing Instances disk_stores disk_lawful demo_x509 pipe_stream pipe_lawful pipe_tls pipe_lawful_tls pipe_raw pipe_lawful_raw
  demo_stack demo_lawful_stack demo_backends demo_lawful_backends reliable_store demo_generator demo_tcp.

Definition demo_host : SingleStar MembershipRegistry (LinuxStarHostRuntime DemoBackends) (list NetworkId) :=
  (create_network demo_config demo_capabilities demo_name
    (mkSingleStar (mkRegistry ∅) (mkHostRuntime None false (demo_backend false)) [fill_id 1] false)).2.
Definition demo_host_listener : ObservedControlListener nat :=
  mkListener (fill_id 1) (mkSocketAddrV4 0x0ac90101 CONTROL_TCP_PORT) (Some 3).

Lemma inbound_tick_verified_witness :
  exists reg s' g' o' d' w',
    poll_registered_from_durable_network_operations (T := pipe) true demo_config (table_to_vec demo_table) (table_from_slice demo_table)
      demo_inbound_fuel id id demo_inbound_local demo_inbound_setup demo_inbound_disk (mkShared (mkLock registry_new false) [])
      (demo_host_listener, (demo_host, mkPipeKernel [demo_inbound_socket])) = Some (Ok (Some reg), s', g', (o', (d', w'))) /\
    current reg g'.
Proof.
  destruct (inbound_tick_verified true demo_config (table_to_vec demo_table) (table_from_slice demo_table) demo_inbound_fuel id id
    demo_inbound_local demo_inbound_setup demo_inbound_disk (mkShared (mkLock registry_new false) [])
    demo_host_listener demo_host (mkPipeKernel [demo_inbound_socket])) as (r & s' & g' & o' & d' & w' & Hr & _ & _ & _ & Hout).
  { intros socket Hs. vm_compute in Hs. injection Hs as Hs. rewrite <- Hs. apply Nat.ltb_lt. vm_compute. reflexivity. }
  destruct r as [[reg|]|e]; [|vm_compute in Hr; discriminate..].
  exists reg, s', g', o', d', w'. split; [exact Hr|]. apply Hout.
Defined.
