(* ===== verification/JoinNetwork.v ===== *)
(** Joining a network: [apps/daemon/src/join_network.rs].

    [TransactionalJoinNetworkOperations] over the interface [JoinRuntime], with
    the durable registry behind [SingleStar]'s [RegistryStore], and
    [LinuxJoinRuntime], the runtime the daemon is built with.  While the control
    session is being set up other operations may save the registry: that is the
    argument [meanwhile]. *)

From S2P Require Import Prelude Order Keyed Ident Addressing Routes LinuxRoutes StarHost Membership PeerPins PeerTrust SingleStar.

(** ** Links and leases *)

Inductive PanRole := Panu | Nap.
#[global] Instance PanRole_eq_dec : EqDecision PanRole.
Proof. solve_decision. Defined.
Record PeerHandle := mkPeerHandle { peer_str : list Z }.
#[global] Instance PeerHandle_eq_dec : EqDecision PeerHandle.
Proof. solve_decision. Defined.
Record PanAttachment := mkAttachment { pa_role : PanRole; pa_interface : NetworkInterfaceHandle; pa_peer : option PeerHandle }.
#[global] Instance PanAttachment_eq_dec : EqDecision PanAttachment.
Proof. solve_decision. Defined.

Record JoinPanLink := mkPanLink { jl_peer : PeerHandle; jl_attachment : PanAttachment }.
Definition pan_link_new (peer : PeerHandle) (attachment : PanAttachment) : CoreResult JoinPanLink :=
  guard_err (negb (bool_decide (pa_role attachment = Panu)) || negb (bool_decide (pa_peer attachment = Some peer)))
    (core_error InvalidState "PANU join runtime returned an attachment for the wrong peer or role")
    (Ok (mkPanLink peer attachment)).
Definition link_interface (l : JoinPanLink) : NetworkInterfaceHandle := pa_interface (jl_attachment l).

Record JoinIpLease := mkIpLease { il_address : InterfaceAddress }.
Definition lease_interface (l : JoinIpLease) : NetworkInterfaceHandle := ia_interface (il_address l).

Record JoinControlSession := mkControlSession { js_network : NetworkId }.

Class JoinRuntime (R : Type) := {
  preflight : NetworkId -> stres R CoreError ();
  establish_panu : NetworkId -> stres R CoreError JoinPanLink;
  disconnect_panu : JoinPanLink -> stres R CoreError ();
  configure_ip : NetworkId -> JoinPanLink -> stres R CoreError JoinIpLease;
  remove_ip : JoinIpLease -> stres R CoreError ();
  start_control_session : NetworkId -> JoinPanLink -> JoinIpLease -> stres R CoreError JoinControlSession;
  stop_control_session : JoinControlSession -> stres R CoreError ();
}.

(** ** Pure helpers *)

(** [std]'s [Ipv4Addr::is_private] and [is_loopback]. *)
Definition is_private (ip : Z) : bool :=
  (Z.shiftr ip 24 =? 10)%Z || (Z.shiftr ip 20 =? 0xac1)%Z || (Z.shiftr ip 16 =? 0xc0a8)%Z.
Definition is_loopback (ip : Z) : bool := (Z.shiftr ip 24 =? 127)%Z.

(** [BlueRoute ] *)
Definition discovered_prefix : list Z := [66; 108; 117; 101; 82; 111; 117; 116; 101; 32]%Z.
Definition discovered_network_name (network : NetworkId) : CoreResult DisplayName :=
  display_name_new (discovered_prefix ++ take 8 (id_to_string network)).

Definition joined_state (s : MembershipState) : CoreResult MembershipState :=
  joining ← transition s Joining; transition joining Member.

Definition mark_local_membership_joined (network : NetworkId) (registry : MembershipRegistry) : CoreResult MembershipRegistry :=
  match network_of network registry with
  | Some membership =>
      state ← joined_state (m_state membership);
      Ok (network_mut network (fun m => with_state m state) registry)
  | None =>
      name ← discovered_network_name network;
      let membership := membership_new network name in
      state ← joined_state (m_state membership);
      Ok (remember_network (with_state membership state) registry).2
  end.

Definition combine_rollback (primary : CoreError) (control address panu : CoreResult ()) : CoreError :=
  if is_ok control && is_ok address && is_ok panu then primary
  else core_error_with_diagnostic (kind primary) (message primary) "{}; rollback failures: {}".

Definition zero_network : CoreError := core_error InvalidState "zero NetworkId is not a joinable BlueRoute network".
Definition join_busy : CoreError :=
  core_error InvalidState "another BlueRoute join operation is already in progress or requires runtime reconciliation".
Definition already_claimed : CoreError :=
  core_error InvalidState "durable membership already claims this network; P6-009 runtime reconciliation is required before JoinNetwork can report success".
Definition another_network : CoreError := core_error InvalidState "this daemon already belongs to a different BlueRoute network".

(** The three checks of a lease that was just configured. *)
Definition check_lease (network : NetworkId) (link : JoinPanLink) (lease : JoinIpLease) (expected_client : IpPrefix) : CoreResult () :=
  let a := il_address lease in
  guard_err (negb (bool_decide (ia_owner a = network)) || negb (bool_decide (lease_interface lease = link_interface link)))
    (core_error InvalidState "PANU join returned an IP lease with mismatched network or interface ownership")
  (guard_err (negb match address (ia_prefix a) with V4 ip => is_private ip && negb (is_loopback ip) | V6 _ => false end)
    (core_error InvalidState "PANU join returned an invalid non-private-IPv4 IP lease")
  (guard_err (negb (bool_decide (ia_prefix a = expected_client)))
    (core_error AddressConflict "PANU join IP lease differs from deterministic network address plan")
  (Ok ()))).

(** ** [TransactionalJoinNetworkOperations] *)

Record JoinOperations (M R : Type) := mkJoin { jo_store : M; jo_runtime : R; jo_in_progress : bool }.
Arguments mkJoin {M R}.
Arguments jo_store {M R}.
Arguments jo_runtime {M R}.
Arguments jo_in_progress {M R}.

(** An attempt under its guard: [may_have_live_resources] is the last field. *)
Record JoinAttempt (M R : Type) := mkAttempt { at_store : M; at_runtime : R; at_live : bool }.
Arguments mkAttempt {M R}.
Arguments at_store {M R}.
Arguments at_runtime {M R}.
Arguments at_live {M R}.

Section join.
Context {M R : Type} `{RegistryStore M} `{JoinRuntime R} (pool : Ipv4AddressPool) (meanwhile : M -> M).

Abbreviation op A := (stres (JoinAttempt M R) CoreError A).

Definition at_store_do {A : Type} (m : stres M CoreError A) : op A := fun s =>
  let (x, t) := m (at_store s) in (x, mkAttempt t (at_runtime s) (at_live s)).
Definition at_runtime_do {A : Type} (m : stres R CoreError A) : op A := fun s =>
  let (x, t) := m (at_runtime s) in (x, mkAttempt (at_store s) t (at_live s)).
Definition set_live (b : bool) : op () := fun s => (Ok (), mkAttempt (at_store s) (at_runtime s) b).
Definition others_act : op () := fun s => (Ok (), mkAttempt (meanwhile (at_store s)) (at_runtime s) (at_live s)).
(** The outcome of a call whose error the caller handles. *)
Definition outcome {A : Type} (m : op A) : op (CoreResult A) := fun s => let (x, t) := m s in (Ok x, t).

Definition rollback_after_control (primary : CoreError) (session : JoinControlSession) (lease : JoinIpLease) (link : JoinPanLink) :
    op (CoreError * bool) :=
  let! control := outcome (at_runtime_do (stop_control_session session)) in
  let! address := outcome (at_runtime_do (remove_ip lease)) in
  let! panu := outcome (at_runtime_do (disconnect_panu link)) in
  st_ret (combine_rollback primary control address panu, is_ok control && is_ok address && is_ok panu).

Definition rollback_after_ip (primary : CoreError) (lease : JoinIpLease) (link : JoinPanLink) : op (CoreError * bool) :=
  let! address := outcome (at_runtime_do (remove_ip lease)) in
  let! panu := outcome (at_runtime_do (disconnect_panu link)) in
  st_ret (combine_rollback primary (Ok ()) address panu, is_ok address && is_ok panu).

(** The link goes, the unknown address keeps the guard. *)
Definition quarantine (error : CoreError) (link : JoinPanLink) : op () :=
  let! panu := outcome (at_runtime_do (disconnect_panu link)) in
  st_fail (combine_rollback error (Ok ()) (Ok ()) panu).

(** What an authenticated session leads to; every failure of it is rolled back
    by the caller. *)
Definition commit_join (network : NetworkId) (session : JoinControlSession) : op () :=
  let! _ := st_lift (guard_err (negb (bool_decide (js_network session = network)))
    (core_error AuthenticationFailed "authenticated control session belongs to a different BlueRoute network") (Ok ())) in
  let! registry := at_store_do store_load in
  let! current := st_lift (current_network registry) in
  let! _ := st_lift (guard_err (bool_decide (is_Some current))
    (core_error InvalidState "BlueRoute membership changed while join networking was being established") (Ok ())) in
  let! registry := st_lift (mark_local_membership_joined network registry) in
  at_store_do (store_save registry).

Definition join_attempt (network : NetworkId) : op () :=
  let! registry := at_store_do store_load in
  let! current := st_lift (current_network registry) in
  let! _ := st_lift match current with
    | Some current => Err (if bool_decide (current = network) then already_claimed else another_network)
    | None => Ok () end in
  let! plan := st_lift (for_network network pool) in
  let! _ := at_runtime_do (preflight network) in
  let! _ := set_live true in
  let! link := at_runtime_do (establish_panu network) in
  let! configured := outcome (at_runtime_do (configure_ip network link)) in
  match configured with
  | Err error => quarantine error link
  | Ok lease =>
    match check_lease network link lease (first_client plan) with
    | Err error => quarantine error link
    | Ok _ =>
      let! started := outcome (at_runtime_do (start_control_session network link lease)) in
      match started with
      | Err error => let! (error, _) := rollback_after_ip error lease link in st_fail error
      | Ok session =>
        let! _ := others_act in
        let! committed := outcome (commit_join network session) in
        match committed with
        | Ok _ => set_live false
        | Err error =>
          let! (error, clean) := rollback_after_control error session lease link in
          let! _ := (if clean : bool then set_live false else st_ret ()) in
          st_fail error
        end
      end
    end
  end.

(** The guard is dropped on return: the flag stays while resources may live. *)
Definition join_network (network : NetworkId) : stres (JoinOperations M R) CoreError () := fun j =>
  if bool_decide (network = zero_id) then (Err zero_network, j)
  else if jo_in_progress j then (Err join_busy, j)
  else
    let (x, a) := join_attempt network (mkAttempt (jo_store j) (jo_runtime j) false) in
    (x, mkJoin (at_store a) (at_runtime a) (at_live a)).
End join.

(** ** [LinuxJoinRuntime] *)

Class PanBackends (B : Type) := {
  disconnect_matching_panu : PanAttachment -> stres B CoreError ();
  require_matching_panu : PanAttachment -> stres B CoreError ();
  active_ipv4_prefixes : stres B CoreError (list IpPrefix);
}.

Section linux.
Context {B : Type} `{HostBackends B} `{PanBackends B} (pool : Ipv4AddressPool).

Definition unavailable (m : string) : CoreError := core_error CapabilityUnavailable m.

Definition linux_configure_ip (network : NetworkId) (link : JoinPanLink) : stres B CoreError JoinIpLease :=
  let! plan := st_lift (for_network network pool) in
  let! _ := connect_network_manager in
  let! active := active_ipv4_prefixes in
  let! _ := st_lift (ensure_ipv4_segment_available (segment plan) active) in
  let address := mkInterfaceAddress (link_interface link) (first_client plan) network in
  let! _ := ensure_address address in
  st_ret (mkIpLease address).

Definition linux_remove_ip (lease : JoinIpLease) : stres B CoreError () :=
  let! _ := connect_network_manager in
  let address := il_address lease in
  fun b =>
  let (removed, b) := remove_address address b in
  let (profile, b) := remove_owned_interface (ia_owner address) (ia_interface address) b in
  (match removed, profile with
   | Ok _, Ok _ => Ok ()
   | Err address_error, Ok _ => Err address_error
   | Ok _, Err profile_error => Err profile_error
   | Err address_error, Err _ => Err (core_error_with_diagnostic (kind address_error) (message address_error)
       "{}; removing the BlueRoute-owned NetworkManager profile also failed: {profile_error}")
   end, b).

#[local] Instance linux_join_runtime : JoinRuntime B := {
  preflight _ := st_fail (core_error_with_diagnostic CapabilityUnavailable
    "BlueRoute join requires P7 authenticated control-session support"
    "P6-005 IPv4 planning and NetworkManager address application are available, but production JoinNetwork still refuses Bluetooth mutation until authenticated control bootstrap is implemented");
  establish_panu _ := st_fail (unavailable
    "production PANU join activation is blocked until authenticated control bootstrap is complete");
  disconnect_panu link := let! _ := connect_bluez in disconnect_matching_panu (jl_attachment link);
  configure_ip := linux_configure_ip;
  remove_ip := linux_remove_ip;
  start_control_session _ _ _ := st_fail (unavailable
    "P7 authenticated control-session support is required before PANU join can commit membership");
  stop_control_session _ := st_fail (unavailable
    "production control-session cleanup is not implemented for JoinNetwork yet");
}.
End linux.

(** ** What a runtime promises

    The resources it holds; a call that fails says nothing about its own kind of
    resource, but leaves the other kinds alone. *)
Class LawfulJoinRuntime (R : Type) `{JoinRuntime R} := {
  held_panu : R -> option JoinPanLink;
  held_ip : R -> option JoinIpLease;
  held_control : R -> option JoinControlSession;
  preflight_law n (r r' : R) x : preflight n r = (x, r') ->
    held_panu r' = held_panu r /\ held_ip r' = held_ip r /\ held_control r' = held_control r;
  establish_law n (r r' : R) x : establish_panu n r = (x, r') ->
    held_ip r' = held_ip r /\ held_control r' = held_control r /\ forall l, x = Ok l -> held_panu r' = Some l;
  disconnect_law l (r r' : R) x : disconnect_panu l r = (x, r') ->
    held_ip r' = held_ip r /\ held_control r' = held_control r /\ (is_ok x = true -> held_panu r' = None);
  configure_law n l (r r' : R) x : configure_ip n l r = (x, r') ->
    held_panu r' = held_panu r /\ held_control r' = held_control r /\ forall a, x = Ok a -> held_ip r' = Some a;
  remove_law a (r r' : R) x : remove_ip a r = (x, r') ->
    held_panu r' = held_panu r /\ held_control r' = held_control r /\ (is_ok x = true -> held_ip r' = None);
  start_law n l a (r r' : R) x : start_control_session n l a r = (x, r') ->
    held_panu r' = held_panu r /\ held_ip r' = held_ip r /\ forall s, x = Ok s -> held_control r' = Some s;
  stop_law s (r r' : R) x : stop_control_session s r = (x, r') ->
    held_panu r' = held_panu r /\ held_ip r' = held_ip r /\ (is_ok x = true -> held_control r' = None);
}.

(** ** Facts *)

Lemma check_lease_Ok network link lease expected :
  check_lease network link lease expected = Ok () ->
  il_address lease = mkInterfaceAddress (link_interface link) expected network.
Proof.
  unfold check_lease, lease_interface. rewrite !guard_err_Ok, orb_false_iff, !negb_false_iff, !bool_decide_eq_true.
  intros ((Ho & Hi) & _ & Hp & _). destruct (il_address lease). cbn in *. by subst.
Qed.

Lemma joined_state_Ok s s' : joined_state s = Ok s' -> s' = Member.
Proof.
  unfold joined_state, transition. intros (j & _ & Hj)%result_bind_Ok. destruct (_ || _) in Hj; congruence.
Qed.

Lemma mark_joined_lookup network r r' :
  mark_local_membership_joined network r = Ok r' -> registry_indexed r ->
  registry_indexed r' /\ exists m, network_of network r' = Some m /\ m_state m = Member /\
    (forall m0, network_of network r = Some m0 -> m = with_state m0 Member) /\
    (forall n, n <> network -> network_of n r' = network_of n r).
Proof.
  unfold mark_local_membership_joined, network_of. intros Hrun Hr. destruct (networks r !! network) as [m0|] eqn:Hm0.
  - apply result_bind_Ok in Hrun as (s & ->%joined_state_Ok & [= <-]). pose proof (Hr _ _ Hm0) as [Hid Hp]. split.
    + intros n m. unfold network_mut. cbn [networks]. destruct (decide (n = network)) as [->|Hne].
      * rewrite lookup_alter_eq, Hm0. intros [= <-]. by split.
      * rewrite lookup_alter_ne by done. apply Hr.
    + exists (with_state m0 Member). unfold network_mut. cbn [networks]. rewrite lookup_alter_eq, Hm0. split; [done|]. split; [done|].
      split; [by intros m [= <-]|]. intros n Hn. by rewrite lookup_alter_ne.
  - apply result_bind_Ok in Hrun as (name & _ & (s & ->%joined_state_Ok & [= <-])%result_bind_Ok). split.
    + by apply (joined_indexed network name).
    + exists (mkMembership network name Member ∅). cbn. rewrite lookup_insert_eq. split; [done|]. split; [done|]. split; [done|].
      intros n Hn. by rewrite lookup_insert_ne.
Qed.

Lemma mark_joined_current network r r' :
  mark_local_membership_joined network r = Ok r' -> registry_indexed r -> current_network r = Ok None ->
  current_network r' = Ok (Some network).
Proof.
  intros Hrun Hr Hn. destruct (mark_joined_lookup _ _ _ Hrun Hr) as (Hr' & m & Hm & Hs & _ & Hother).
  rewrite current_network_None in Hn by done. apply current_network_Some; [done|]. intros k. split.
  - intros (m' & Hm' & Hs'). destruct (decide (k = network)) as [->|Hne]; [done|].
    pose proof (Hother k Hne) as Heq. unfold network_of in Heq. rewrite Heq in Hm'. by destruct (Hn _ _ Hm').
  - intros ->. by exists m.
Qed.

Lemma st_bind_cases {S E A B : Type} (m : stres S E A) (k : A -> stres S E B) s r s' :
  st_bind m k s = (r, s') -> (exists a t, m s = (Ok a, t) /\ k a t = (r, s')) \/ (exists e, m s = (Err e, s') /\ r = Err e).
Proof. unfold st_bind. destruct (m s) as [[a|e] t]; [left; by exists a, t|right]. exists e. by injection H as <- <-. Qed.

Section facts.
Context {M R : Type} `{LawfulRegistryStore M} `{LawfulJoinRuntime R} (pool : Ipv4AddressPool) (meanwhile : M -> M).

Abbreviation attempt := (JoinAttempt M R).
Abbreviation reg_of a := (stored (at_store a)).

Definition idle (r : R) : Prop := held_panu r = None /\ held_ip r = None /\ held_control r = None.

Definition same_resources (r r' : R) : Prop :=
  held_panu r' = held_panu r /\ held_ip r' = held_ip r /\ held_control r' = held_control r.

(** Everything a joined network needs is held: the link, the planned address on
    it, and the authenticated session. *)
Definition holds_network (network : NetworkId) (r : R) : Prop :=
  exists plan link, for_network network pool = Ok plan /\ held_panu r = Some link /\
    held_ip r = Some (mkIpLease (mkInterfaceAddress (link_interface link) (first_client plan) network)) /\
    held_control r = Some (mkControlSession network).

Lemma store_do_load (a a' : attempt) x :
  at_store_do store_load a = (x, a') ->
  at_runtime a' = at_runtime a /\ at_live a' = at_live a /\ reg_of a' = reg_of a /\ (forall r, x = Ok r -> r = reg_of a).
Proof.
  unfold at_store_do. destruct (store_load (at_store a)) as [y m] eqn:Hl. intros [= <- <-].
  apply store_load_law in Hl as [Hs Hr]. done.
Qed.

Lemma runtime_do_run {A : Type} (m : stres R CoreError A) (a a' : attempt) x :
  at_runtime_do m a = (x, a') ->
  m (at_runtime a) = (x, at_runtime a') /\ at_store a' = at_store a /\ at_live a' = at_live a.
Proof. unfold at_runtime_do. destruct (m (at_runtime a)) as [y r]. by intros [= <- <-]. Qed.

Lemma outcome_run {A : Type} (m : stres attempt CoreError A) (a a' : attempt) (x : CoreResult (CoreResult A)) :
  outcome m a = (x, a') -> exists y, x = Ok y /\ m a = (y, a').
Proof. unfold outcome. destruct (m a) as [y t]. intros [= <- <-]. by exists y. Qed.

Lemma outcome_bind {A B : Type} (m : stres attempt CoreError A) (k : CoreResult A -> stres attempt CoreError B) (a : attempt) r (a' : attempt) :
  st_bind (outcome m) k a = (r, a') -> exists y t, m a = (y, t) /\ k y t = (r, a').
Proof. unfold st_bind, outcome. destruct (m a) as [y t]. intros Hk. by exists y, t. Qed.

(** What a commit that failed left in the registry. *)
Definition save_failed (network : NetworkId) (g g' : MembershipRegistry) : Prop :=
  current_network g = Ok None /\ mark_local_membership_joined network g = Ok g' /\
  exists m e m', stored m = g /\ store_save g' m = (Err e, m').

Lemma commit_spec network session (a a' : attempt) x :
  commit_join network session a = (x, a') ->
  at_runtime a' = at_runtime a /\ at_live a' = at_live a /\
  match x with
  | Ok _ => js_network session = network /\ current_network (reg_of a) = Ok None /\
      mark_local_membership_joined network (reg_of a) = Ok (reg_of a')
  | Err _ => reg_of a' = reg_of a \/ save_failed network (reg_of a) (reg_of a')
  end.
Proof.
  unfold commit_join. rewrite st_bind_lift. destruct (bool_decide (js_network session = network)) eqn:Hn; cbn [negb guard_err].
  2:{ intros [= <- <-]. split; [done|]. split; [done|by left]. }
  apply bool_decide_eq_true in Hn.
  intros [(r & t & Hl & Hrun)|(e & Hl & ->)]%st_bind_cases; apply store_do_load in Hl as (L1 & L2 & L3 & L4).
  2:{ split; [done|]. split; [done|by left]. }
  rewrite (L4 r eq_refl) in Hrun. clear L4. rewrite st_bind_lift in Hrun.
  destruct (current_network (reg_of a)) as [c|e] eqn:Hc; cbv beta iota in Hrun; [|injection Hrun as <- <-; split; [done|]; split; [done|by left]].
  rewrite st_bind_lift in Hrun. destruct (bool_decide (is_Some c)) eqn:His; cbn [guard_err] in Hrun;
    [injection Hrun as <- <-; split; [done|]; split; [done|by left]|].
  apply bool_decide_eq_false in His. assert (c = None) as -> by (destruct c; [by destruct His|done]).
  rewrite st_bind_lift in Hrun. destruct (mark_local_membership_joined network (reg_of a)) as [g|e] eqn:Hm; cbv beta iota in Hrun;
    [|injection Hrun as <- <-; split; [done|]; split; [done|by left]].
  unfold at_store_do in Hrun. destruct (store_save g (at_store t)) as [y m'] eqn:Hs. injection Hrun as <- <-.
  split; [done|]. split; [done|]. cbn [at_store]. pose proof (store_save_law _ _ _ _ Hs) as Hlaw. destruct y as [u|e].
  - by rewrite Hlaw.
  - destruct Hlaw as [Heq|Heq]; [left; congruence|right]. rewrite Heq. split; [done|]. split; [done|]. by exists (at_store t), e, m'.
Qed.

(** A rollback that reports success has given everything back. *)
Lemma rollback_after_control_spec primary session lease link (a a' : attempt) x :
  rollback_after_control primary session lease link a = (x, a') ->
  exists error clean, x = Ok (error, clean) /\ at_store a' = at_store a /\ at_live a' = at_live a /\
    kind error = kind primary /\ message error = message primary /\ (clean = true -> idle (at_runtime a') /\ error = primary).
Proof.
  unfold rollback_after_control. intros (y1 & t1 & (R1 & S1 & L1)%runtime_do_run & Hrun)%outcome_bind.
  apply outcome_bind in Hrun as (y2 & t2 & (R2 & S2 & L2)%runtime_do_run & Hrun).
  apply outcome_bind in Hrun as (y3 & t3 & (R3 & S3 & L3)%runtime_do_run & Hrun). injection Hrun as <- <-.
  eexists _, _. split; [reflexivity|]. split; [congruence|]. split; [congruence|].
  apply stop_law in R1 as (P1 & I1 & C1). apply remove_law in R2 as (P2 & C2 & I2). apply disconnect_law in R3 as (I3 & C3 & P3).
  unfold combine_rollback. destruct (is_ok y1 && is_ok y2 && is_ok y3) eqn:Hok.
  - split; [done|]. split; [done|]. intros _. apply andb_true_iff in Hok as [[K1 K2]%andb_true_iff K3]. split; [|done].
    split; [by apply P3|]. split; [rewrite I3; by apply I2|]. rewrite C3, C2. by apply C1.
  - by split.
Qed.

(** The registry after an attempt that failed. *)
Definition registry_after_failure (network : NetworkId) (m m' : M) : Prop :=
  stored m' = stored m \/
  exists m1, stored m1 = stored m /\
    (stored m' = stored (meanwhile m1) \/ save_failed network (stored (meanwhile m1)) (stored m')).

Definition attempt_outcome (network : NetworkId) (a a' : attempt) (x : CoreResult ()) : Prop :=
  match x with
  | Ok _ => at_live a' = false /\ holds_network network (at_runtime a') /\
      exists m1, stored m1 = reg_of a /\ current_network (stored (meanwhile m1)) = Ok None /\
        mark_local_membership_joined network (stored (meanwhile m1)) = Ok (reg_of a')
  | Err _ => (at_live a' = false -> idle (at_runtime a') \/ same_resources (at_runtime a) (at_runtime a')) /\
      registry_after_failure network (at_store a) (at_store a')
  end.

Lemma quarantine_spec error link (a a' : attempt) x :
  quarantine error link a = (x, a') -> at_store a' = at_store a /\ at_live a' = at_live a /\ exists e, x = Err e.
Proof.
  unfold quarantine. intros (y & t & (_ & Hs & Hl)%runtime_do_run & Hrun)%outcome_bind. injection Hrun as <- <-.
  split; [done|]. split; [done|]. by eexists.
Qed.

Lemma rollback_after_ip_spec primary lease link (a a' : attempt) x :
  rollback_after_ip primary lease link a = (x, a') ->
  at_store a' = at_store a /\ at_live a' = at_live a /\ exists p, x = Ok p.
Proof.
  unfold rollback_after_ip. intros (y1 & t1 & (_ & S1 & L1)%runtime_do_run & Hrun)%outcome_bind.
  apply outcome_bind in Hrun as (y2 & t2 & (_ & S2 & L2)%runtime_do_run & Hrun). injection Hrun as <- <-.
  split; [congruence|]. split; [congruence|]. by eexists.
Qed.

(** Past the mutation point, an error that keeps the guard. *)
Lemma guarded_failure network (a a' : attempt) e :
  at_live a' = true -> stored (at_store a') = reg_of a -> attempt_outcome network a a' (Err e).
Proof. intros Hl Hs. split; [by rewrite Hl|by left]. Qed.

(** The part after the session is established. *)
Lemma committing_spec network plan link lease session (a t t' : attempt) x :
  for_network network pool = Ok plan -> check_lease network link lease (first_client plan) = Ok () ->
  held_panu (at_runtime t) = Some link -> held_ip (at_runtime t) = Some lease -> held_control (at_runtime t) = Some session ->
  stored (at_store t) = reg_of a -> at_live t = true ->
  (let! _ := others_act meanwhile in
   let! committed := outcome (commit_join network session) in
   match committed with
   | Ok _ => set_live false
   | Err error =>
     let! (error, clean) := rollback_after_control error session lease link in
     let! _ := (if clean : bool then set_live false else st_ret ()) in
     st_fail error
   end) t = (x, t') -> attempt_outcome network a t' x.
Proof.
  intros Hplan Hlease Hp Hi Hc Hs Hlive Hrun. unfold st_bind at 1, others_act in Hrun.
  apply outcome_bind in Hrun as (y & t1 & (R1 & L1 & Hcommit)%commit_spec & Hrun). cbn [at_runtime at_live at_store] in *.
  destruct y as [u|error].
  - injection Hrun as <- <-. destruct Hcommit as (Hn & Hcur & Hmark). split; [done|]. cbn [at_runtime at_store]. split.
    + exists plan, link. rewrite R1. split; [done|]. split; [done|]. split; [|rewrite Hc; by destruct session; cbn in *; subst].
      rewrite Hi. apply check_lease_Ok in Hlease. destruct lease; cbn in *; by rewrite Hlease.
    + exists (at_store t). by split.
  - unfold st_bind at 1 in Hrun. destruct (rollback_after_control error session lease link t1) as [z t2] eqn:Hroll.
    apply rollback_after_control_spec in Hroll as (err & clean & -> & S2 & L2 & _ & _ & Hclean).
    assert (registry_after_failure network (at_store a) (at_store t2)) as Hreg.
    { right. exists (at_store t). split; [done|]. rewrite S2. exact Hcommit. }
    destruct clean; injection Hrun as <- <-.
    + split; [|exact Hreg]. intros _. left. by apply Hclean.
    + split; [|exact Hreg]. rewrite L2, L1, Hlive. done.
Qed.

Lemma join_attempt_spec network (a a' : attempt) x :
  at_live a = false -> join_attempt pool meanwhile network a = (x, a') -> attempt_outcome network a a' x.
Proof.
  intros Hlive. unfold join_attempt.
  intros [(r & t & Hl & Hrun)|(e & Hl & ->)]%st_bind_cases; apply store_do_load in Hl as (L1 & L2 & L3 & _).
  2:{ split; [right; by rewrite L1|by left]. }
  assert (forall e, attempt_outcome network a t (Err e)) as Hearly by (intros e; split; [right; by rewrite L1|by left]).
  rewrite st_bind_lift in Hrun. destruct (current_network r) as [c|e]; [|by injection Hrun as <- <-].
  rewrite st_bind_lift in Hrun. destruct c as [c|]; [by injection Hrun as <- <-|].
  rewrite st_bind_lift in Hrun. destruct (for_network network pool) as [plan|e] eqn:Hplan; [|by injection Hrun as <- <-].
  apply st_bind_cases in Hrun as [([] & t1 & (P1 & S1 & V1)%runtime_do_run & Hrun)|(e & (P1 & S1 & V1)%runtime_do_run & ->)];
    apply preflight_law in P1 as (HP & HI & HC).
  2:{ split; [right; unfold same_resources; rewrite HP, HI, HC, L1; done|]. left. by rewrite S1. }
  unfold st_bind at 1, set_live at 1 in Hrun.
  apply st_bind_cases in Hrun as [(link & t2 & (P2 & S2 & V2)%runtime_do_run & Hrun)|(e & (P2 & S2 & V2)%runtime_do_run & ->)];
    cbn [at_runtime at_store at_live] in *; assert (stored (at_store t1) = reg_of a) as G1 by congruence.
  2:{ apply guarded_failure; congruence. }
  apply establish_law in P2 as (_ & _ & Hlink). specialize (Hlink link eq_refl).
  apply outcome_bind in Hrun as (y & t3 & (P3 & S3 & V3)%runtime_do_run & Hrun). apply configure_law in P3 as (HP3 & _ & Hip).
  assert (forall error, quarantine error link t3 = (x, a') -> attempt_outcome network a a' x) as Hquarantine.
  { intros error (Sq & Vq & [e ->])%quarantine_spec. apply guarded_failure; congruence. }
  destruct y as [lease|error]; [|by eapply Hquarantine]. specialize (Hip lease eq_refl).
  destruct (check_lease network link lease (first_client plan)) as [[]|error] eqn:Hck; [|by eapply Hquarantine].
  apply outcome_bind in Hrun as (z & t4 & (P4 & S4 & V4)%runtime_do_run & Hrun). apply start_law in P4 as (HP4 & HI4 & Hctl).
  destruct z as [session|error].
  - eapply (committing_spec network plan link lease session a t4 a' x); try done; try congruence. by apply Hctl.
  - unfold st_bind at 1 in Hrun. destruct (rollback_after_ip error lease link t4) as [w t5] eqn:Hroll.
    apply rollback_after_ip_spec in Hroll as (S5 & V5 & [[err cl] ->]). injection Hrun as <- <-. apply guarded_failure; congruence.
Qed.

Lemma join_network_spec network (j j' : JoinOperations M R) x :
  join_network pool meanwhile network j = (x, j') ->
  (j' = j /\ ((network = zero_id /\ x = Err zero_network) \/ (jo_in_progress j = true /\ x = Err join_busy))) \/
  (network <> zero_id /\ jo_in_progress j = false /\
   attempt_outcome network (mkAttempt (jo_store j) (jo_runtime j) false) (mkAttempt (jo_store j') (jo_runtime j') (jo_in_progress j')) x).
Proof.
  unfold join_network. case_bool_decide as Hz; [intros [= <- <-]; left; split; [done|by left]|].
  destruct (jo_in_progress j) eqn:Hb; [intros [= <- <-]; left; split; [done|by right]|].
  destruct (join_attempt pool meanwhile network _) as [y a] eqn:Hrun. intros [= <- <-]. right. split; [done|]. split; [done|].
  apply join_attempt_spec in Hrun; [|done]. destruct a; exact Hrun.
Qed.

(** C28. Joining is a transaction.  A join succeeds only with everything in place:
    the link, the planned client address on its interface, a control session
    authenticated for this network, and the registry as loaded last, without a
    current network, with this network joined and now the current one; the
    coordinator is then free again.  A join that fails leaves the registry as it
    found it or as others wrote it meanwhile, unless the save itself failed, and
    leaves the coordinator free only if every resource was given back or none was
    touched; while it is not free, and for the zero network, a join is refused and
    changes nothing. *)
Theorem join_network_transactional network (j j' : JoinOperations M R) x
    (Hindexed : registry_indexed (stored (jo_store j)))
    (Hothers : forall m, registry_indexed (stored m) -> registry_indexed (stored (meanwhile m))) :
  join_network pool meanwhile network j = (x, j') ->
  match x with
  | Ok _ => network <> zero_id /\ jo_in_progress j = false /\ jo_in_progress j' = false /\
      holds_network network (jo_runtime j') /\ current_network (stored (jo_store j')) = Ok (Some network) /\
      exists m1, stored m1 = stored (jo_store j) /\ current_network (stored (meanwhile m1)) = Ok None /\
        mark_local_membership_joined network (stored (meanwhile m1)) = Ok (stored (jo_store j'))
  | Err _ =>
      (jo_in_progress j' = false -> idle (jo_runtime j') \/ same_resources (jo_runtime j) (jo_runtime j')) /\
      registry_after_failure network (jo_store j) (jo_store j')
  end /\
  (jo_in_progress j = true \/ network = zero_id -> j' = j /\ is_ok x = false).
Proof.
  intros [(-> & Hcase)|(Hz & Hb & Hout)]%join_network_spec.
  - destruct Hcase as [[-> ->]|[Hb ->]]; (split; [|by split]); (split; [by right|by left]).
  - split; [|intros [Hb'|Hz']; [congruence|done]]. destruct x as [u|e]; [|exact Hout].
    destruct Hout as (Hl & Hh & m1 & Hs & Hc & Hm). cbn [at_live at_runtime at_store] in *.
    split; [done|]. split; [done|]. split; [done|]. split; [done|]. split; [|by exists m1].
    apply (mark_joined_current _ _ _ Hm); [|done]. apply Hothers. by rewrite Hs.
Qed.

(** What a free coordinator means: nothing is live, or exactly what a joined
    network needs. *)
Definition accounted (j : JoinOperations M R) : Prop :=
  jo_in_progress j = false -> idle (jo_runtime j) \/ exists network, holds_network network (jo_runtime j).

Lemma join_network_accounted network (j : JoinOperations M R) :
  accounted j -> accounted (join_network pool meanwhile network j).2.
Proof.
  intros Ha. destruct (join_network pool meanwhile network j) as [x j'] eqn:Hrun. cbn [snd].
  apply join_network_spec in Hrun as [(-> & _)|(_ & Hb & Hout)]; [done|]. specialize (Ha Hb). intros Hb'. destruct x as [u|e].
  - right. exists network. apply Hout.
  - destruct Hout as [Hfree _]. cbn [at_live at_runtime] in Hfree. destruct (Hfree Hb') as [Hi|(HP & HI & HC)]; [by left|].
    unfold idle, holds_network in *. rewrite HP, HI, HC. exact Ha.
Qed.
End facts.

(** Over every history of joins, each with what others do meanwhile, a free
    coordinator holds nothing, or exactly the resources of one joined network. *)
Theorem join_history_accounted {M R : Type} `{LawfulRegistryStore M} `{LawfulJoinRuntime R} (pool : Ipv4AddressPool)
    (l : list ((M -> M) * NetworkId)) (j : JoinOperations M R) :
  idle (jo_runtime j) -> accounted pool (foldl (fun j e => (join_network pool e.1 e.2 j).2) j l).
Proof.
  intros Hi. assert (accounted pool j) as Ha by (intros _; by left). clear Hi. revert j Ha.
  induction l as [|[meanwhile n] l IH]; intros j Ha; [done|]. cbn [foldl]. apply IH. by apply join_network_accounted.
Qed.

(** ** The production runtime *)

Section production.
Context {B M : Type} `{HostBackends B} `{PanBackends B} `{LawfulRegistryStore M} (pool : Ipv4AddressPool) (meanwhile : M -> M).

#[local] Existing Instance linux_join_runtime.

(** With the runtime the daemon is built with, every join is refused before
    anything is touched, and the coordinator stays free. *)
Theorem production_join_refused network (j : JoinOperations M B) :
  let '(x, j') := join_network (H0 := linux_join_runtime pool) pool meanwhile network j in
  is_ok x = false /\ jo_runtime j' = jo_runtime j /\ stored (jo_store j') = stored (jo_store j) /\
  jo_in_progress j' = jo_in_progress j.
Proof.
  unfold join_network. case_bool_decide; [done|]. destruct (jo_in_progress j) eqn:Hb; [done|].
  unfold join_attempt. unfold st_bind at 1. destruct (at_store_do store_load _) as [[r|e] a] eqn:Hl;
    apply store_do_load in Hl as (L1 & L2 & L3 & _); cbn [at_runtime at_live at_store] in *.
  2:{ cbn [fst snd jo_runtime jo_store jo_in_progress]. by split_and!. }
  rewrite st_bind_lift. destruct (current_network r) as [[c|]|e]; [by split_and!| |by split_and!].
  rewrite !st_bind_lift. destruct (for_network network pool) as [plan|e]; [|by split_and!].
  cbn. rewrite L1. by split_and!.
Qed.
End production.

Lemma rfc1918_private ip : rfc1918 ip -> is_private ip = true /\ is_loopback ip = false.
Proof.
  unfold rfc1918, is_private, is_loopback. rewrite !Z.shiftr_div_pow2 by lia.
  change (2 ^ 24)%Z with 16777216%Z. change (2 ^ 20)%Z with 1048576%Z. change (2 ^ 16)%Z with 65536%Z.
  rewrite !orb_true_iff, !Z.eqb_eq, Z.eqb_neq. intros Hr. split; [|Z.div_mod_to_equations; lia].
  destruct Hr as [Hr|[Hr|Hr]]; [left; left|left; right|right]; Z.div_mod_to_equations; lia.
Qed.

(** A lease that [linux_configure_ip] hands out passes the coordinator's checks. *)
Theorem configured_lease_accepted {B : Type} `{HostBackends B} `{PanBackends B} (pool : Ipv4AddressPool) (network : NetworkId)
    (link : JoinPanLink) (b b' : B) (lease : JoinIpLease) (Hrep : pool_rep pool) :
  linux_configure_ip pool network link b = (Ok lease, b') ->
  exists plan, for_network network pool = Ok plan /\ check_lease network link lease (first_client plan) = Ok ().
Proof.
  unfold linux_configure_ip. rewrite st_bind_lift. destruct (for_network network pool) as [plan|e] eqn:Hplan; [|done].
  intros (u1 & b1 & _ & (active & b2 & _ & Hrun)%st_bind_Ok)%st_bind_Ok.
  apply st_bind_Ok in Hrun as (u2 & b3 & _ & (u3 & b4 & _ & Hrun)%st_bind_Ok). injection Hrun as <- _.
  exists plan. split; [done|].
  assert (pool_validate pool = Ok ()) as Hv.
  { unfold for_network in Hplan. apply result_bind_Ok in Hplan as ([] & Hv & _). done. }
  destruct (for_network_plan network pool Hrep Hv) as (base & len & Heq & _ & _ & Hsize & Hin).
  rewrite Heq in Hplan. injection Hplan as <-. destruct (Hin (base + 2)%Z) as (_ & Hr & _); [lia|].
  apply rfc1918_private in Hr as [Hp Hl]. unfold check_lease, lease_interface. cbn [il_address ia_owner ia_interface ia_prefix first_client address].
  rewrite !bool_decide_eq_true_2 by done. rewrite Hp, Hl. done.
Qed.

(** ** Example: a runtime in memory *)

#[local] Existing Instances reliable_store reliable_store_lawful.

Record DemoJoin := mkDemoJoin { dj_panu : option JoinPanLink; dj_ip : option JoinIpLease; dj_control : option JoinControlSession }.

Definition demo_link : JoinPanLink :=
  mkPanLink (mkPeerHandle [1]%Z) (mkAttachment Panu (mkInterface [98; 110]%Z) (Some (mkPeerHandle [1]%Z))).
Definition demo_lease (network : NetworkId) : JoinIpLease :=
  mkIpLease (mkInterfaceAddress (link_interface demo_link)
    match for_network network pool_default with Ok plan => first_client plan | Err _ => mkPrefix (V4 0) 0 end network).

#[local] Instance demo_join_runtime : JoinRuntime DemoJoin := {
  preflight _ := fun r => (Ok (), r);
  establish_panu _ := fun r => (Ok demo_link, mkDemoJoin (Some demo_link) (dj_ip r) (dj_control r));
  disconnect_panu _ := fun r => (Ok (), mkDemoJoin None (dj_ip r) (dj_control r));
  configure_ip n _ := fun r => (Ok (demo_lease n), mkDemoJoin (dj_panu r) (Some (demo_lease n)) (dj_control r));
  remove_ip _ := fun r => (Ok (), mkDemoJoin (dj_panu r) None (dj_control r));
  start_control_session n _ _ := fun r => (Ok (mkControlSession n), mkDemoJoin (dj_panu r) (dj_ip r) (Some (mkControlSession n)));
  stop_control_session _ := fun r => (Ok (), mkDemoJoin (dj_panu r) (dj_ip r) None);
}.
#[local] Instance demo_lawful_join : LawfulJoinRuntime DemoJoin.
Proof.
  refine {| held_panu := dj_panu; held_ip := dj_ip; held_control := dj_control |}; cbn; intros; simplify_eq/=;
    split_and!; try done; intros; by simplify_eq/=.
Defined.

Definition demo_joiner : JoinOperations MembershipRegistry DemoJoin := mkJoin (mkRegistry ∅) (mkDemoJoin None None None) false.

Lemma join_network_transactional_witness :
  exists j', join_network pool_default id (fill_id 7) demo_joiner = (Ok (), j') /\
    holds_network pool_default (fill_id 7) (jo_runtime j') /\ current_network (stored (jo_store j')) = Ok (Some (fill_id 7)).
Proof.
  destruct (join_network pool_default id (fill_id 7) demo_joiner) as [x j'] eqn:Hrun.
  assert (x = Ok ()) as Hx by (apply (f_equal fst) in Hrun; vm_compute in Hrun; symmetry; exact Hrun). rewrite Hx in *.
  exists j'. split; [reflexivity|].
  destruct (join_network_transactional pool_default id (fill_id 7) demo_joiner j' (Ok ())) as [Hout _];
    [apply map_Forall_empty|intros m Hm; exact Hm|exact Hrun|].
  destruct Hout as (_ & _ & _ & Hh & Hc & _). split; [exact Hh|exact Hc].
Defined.

Lemma join_history_accounted_witness :
  accounted pool_default (foldl (fun j e => (join_network pool_default e.1 e.2 j).2) demo_joiner [(id, fill_id 7); (id, fill_id 8)]).
Proof. apply (join_history_accounted pool_default [(id, fill_id 7); (id, fill_id 8)] demo_joiner). by split. Defined.
