(* ===== verification/OutboundControl.v ===== *)
(** Outbound control sessions over a PAN link:
    [apps/daemon/src/outbound_control.rs].

    The backends, the clock and the dialled socket are behind [HostBackends],
    [PanBackends] and [OutboundHost]; opening the session is [ApprovedTransport]'s
    outbound path.  The trust stores may be changed by others before each approval
    check ([between]) and while the handshake is in flight ([during]). *)

From S2P Require Import Prelude Order Ident Capability Addressing Routes LinuxRoutes StarHost Membership PeerPins ConnectionDeadline ControlFrame ControlStream ControlIo Handshake SessionStream SessionActivity SessionRegistry PeerTrust PinnedIngress TlsIdentity ActiveSession RegisteredSession SingleStar ControlEndpoint ControlListener ControlTls ApprovedTransport JoinNetwork.

(** ** The endpoint and the lease *)

Definition planned_panu_control_endpoint (network : NetworkId) (link : JoinPanLink) (lease : JoinIpLease) (pool : Ipv4AddressPool) :
    CoreResult SocketAddrV4 :=
  guard_err (bool_decide (network = zero_id)) (core_error InvalidInput "zero NetworkId cannot select a PANU control endpoint")
  (plan ← for_network network pool;
   guard_err (negb (bool_decide (ia_owner (il_address lease) = network)) || negb (bool_decide (lease_interface lease = link_interface link)))
     (core_error InvalidState "PANU control lease has foreign network or interface ownership")
   (guard_err (negb (bool_decide (ia_prefix (il_address lease) = first_client plan)))
      (core_error AddressConflict "PANU control lease does not match the deterministic client address")
      match address (Addressing.host plan) with
      | V4 host => Ok (mkSocketAddrV4 host CONTROL_TCP_PORT)
      | V6 _ => Err (core_error InvalidState "PANU control target must be IPv4")
      end)).

Definition lease_ip (lease : JoinIpLease) : IpAddr := address (ia_prefix (il_address lease)).

Definition require_live_panu_lease (lease : JoinIpLease) (owned : list InterfaceAddress) (active : list ActiveIpv4Prefix) : CoreResult () :=
  let same_prefix p := bool_decide (ap_interface p = Some (lease_interface lease)) && bool_decide (ap_prefix p = ia_prefix (il_address lease)) in
  guard_err (negb (existsb (fun a => bool_decide (a = il_address lease)) owned))
    (core_error InvalidState "PANU control source address is not currently owned by BlueRoute")
  (guard_err (existsb (fun a => bool_decide (address (ia_prefix a) = lease_ip lease) && negb (bool_decide (a = il_address lease))) owned)
    (core_error InvalidState "PANU control source address has conflicting NetworkManager ownership")
  (guard_err (negb (existsb same_prefix active))
    (core_error InvalidState "PANU control source address is not active on the owned interface")
  (guard_err (existsb (fun p => bool_decide (address (ap_prefix p) = lease_ip lease) && negb (same_prefix p)) active)
    (core_error InvalidState "PANU control source address has ambiguous active interface or prefix")
  (Ok ())))).

Record PanuControlRoute := mkRoute { pr_link : JoinPanLink; pr_lease : JoinIpLease; pr_pool : Ipv4AddressPool }.

(** ** The host *)

Class OutboundHost (B K : Type) := {
  instant_now : B -> Z * B;
  (** [connect_tcp_from_ipv4_on_device] *)
  dial : Z -> SocketAddrV4 -> NetworkInterfaceHandle -> Z -> stres B string K;
  local_ip : K -> result string IpAddr;
}.

Section outbound.
Context {B K T S : Type} `{HostBackends B} `{PanBackends B} `{OutboundHost B K} `{X509} `{RawSocket K} `{TlsStream T} `{TlsStack K T}.
Context `{TrustStores S} (pin_store : bool).
Variable to_vec : ControlEnvelope -> option (list Z).
Variable from_slice : list Z -> option ControlEnvelope.
Variable fuel : nat.
Variables between during : S -> S.

Abbreviation op A := (stres (B * S) CoreError A).
Abbreviation session := (RegisteredControlSession (ActiveControlSession T * S)).

Definition on_backends {A : Type} (m : stres B CoreError A) : op A := fun '(b, s) => let (x, b) := m b in (x, (b, s)).
Definition on_trust {A : Type} (m : stres S CoreError A) : op A := fun '(b, s) => let (x, s) := m (between s) in (x, (b, s)).

Definition approved_now (network : NetworkId) (node : NodeId) (fp : SpkiSha256) : op () :=
  on_trust (require_approved_pinned_tls_peer pin_store network node fp).

(** [deadline] has not come yet, or this error. *)
Definition in_time (deadline : Z) (e : CoreError) : op () := fun '(b, s) =>
  let (t, b) := instant_now (K := K) b in (guard_err (deadline <=? t)%Z e (Ok ()), (b, s)).

(** The snapshots of NetworkManager, then the attachment as BlueZ sees it. *)
Definition require_live_panu (route : PanuControlRoute) : op () :=
  let! _ := on_backends connect_network_manager in
  let! owned := on_backends addresses in
  let! active := on_backends active_ipv4_prefixes_with_interfaces in
  let! _ := st_lift (require_live_panu_lease (pr_lease route) owned active) in
  let! _ := on_backends connect_bluez in
  on_backends (require_matching_panu (jl_attachment (pr_link route))).

(** Everything up to the dialled socket. *)
Definition dial_panu (route : PanuControlRoute) (local : LocalControlTlsIdentity) (expected : PinnedControlTlsPeer)
    (setup : ApprovedControlSetup) : op K :=
  let! endpoint := st_lift (planned_panu_control_endpoint (su_network setup) (pr_link route) (pr_lease route) (pr_pool route)) in
  let! _ := st_lift (guard_err (negb (bool_decide (pp_network expected = su_network setup)) || bool_decide (pp_node expected = li_node local))
    (core_error AuthenticationFailed "outbound control pin is not scoped to the requested remote peer and network") (Ok ())) in
  let! _ := approved_now (su_network setup) (pp_node expected) (pp_fingerprint expected) in
  let! _ := in_time (su_handshake_deadline setup)
    (core_error AuthenticationFailed "outbound control handshake deadline expired before TCP dial") in
  let! _ := require_live_panu route in
  let! _ := approved_now (su_network setup) (pp_node expected) (pp_fingerprint expected) in
  match lease_ip (pr_lease route) with
  | V6 _ => st_fail (core_error InvalidState "outbound PANU control requires an owned IPv4 source")
  | V4 source_ip =>
    let! socket := on_backends (st_map_err (fun _ => core_error_with_diagnostic PanFailure
      "unable to dial the planned NAP control endpoint from the owned PANU address and device" "{error}")
      (dial source_ip endpoint (link_interface (pr_link route)) (su_handshake_deadline setup))) in
    let! source := st_lift (map_err (fun _ => core_error_with_diagnostic PanFailure
      "unable to inspect outbound PANU control source address" "{error}") (local_ip (B := B) socket)) in
    (** The socket is shut down and dropped otherwise. *)
    st_lift (guard_err (negb (bool_decide (source = lease_ip (pr_lease route))))
      (core_error InvalidState "outbound control TCP source does not match the owned PANU address") (Ok socket))
  end.

Definition post_auth_checks (route : PanuControlRoute) (expected : PinnedControlTlsPeer) (setup : ApprovedControlSetup) : op () :=
  let! _ := in_time (su_handshake_deadline setup)
    (core_error AuthenticationFailed "outbound PANU control deadline expired before post-authentication validation") in
  let! _ := require_live_panu route in
  let! _ := approved_now (su_network setup) (pp_node expected) (pp_fingerprint expected) in
  in_time (su_handshake_deadline setup)
    (core_error AuthenticationFailed "outbound PANU control deadline expired during post-authentication validation").

#[local] Instance outbound_owned : OwnedSession (ActiveControlSession T * S) := active_owned pin_store to_vec from_slice fuel during.

(** The session is dropped when a check fails. *)
Definition retain_after_post_auth_checks (validate : op ()) (b : B) (r : session) (g : SharedRegistry) :
    CoreResult session * B * session * SharedRegistry :=
  let '(a, s) := rs_session r in
  let '(x, (b, s)) := validate (b, s) in
  let r := put_session (a, s) r in
  match x with
  | Ok _ => (Ok r, b, r, g)
  | Err e => let '(r, g) := cancel (r, g) in (Err e, b, r, g)
  end.

Definition setup_failed : CoreError :=
  core_error_with_diagnostic AuthenticationFailed "outbound PANU control TLS/Hello/registry admission failed" "{error}".

(** The result, the backends, the trust stores, and the registry. *)
Definition connect_registered_panu_control_session (route : PanuControlRoute) (local : LocalControlTlsIdentity)
    (expected : PinnedControlTlsPeer) (setup : ApprovedControlSetup) (b : B) (s : S) (g : SharedRegistry) :
    option (CoreResult session * B * S * SharedRegistry) :=
  let '(dialled, (b, s)) := dial_panu route local expected setup (b, s) in
  match dialled with
  | Err e => Some (Err e, b, s, g)
  | Ok socket =>
    match connect_registered_control_session pin_store to_vec from_slice fuel between during socket local expected setup s g with
    | None => None
    | Some (Err _, s, g) => Some (Err setup_failed, b, s, g)
    | Some (Ok r, _, g) =>
      let '(x, b, r, g) := retain_after_post_auth_checks (post_auth_checks route expected setup) b r g in
      Some (x, b, (rs_session r).2, g)
    end
  end.
End outbound.

(** ** Facts *)

(** The lease is there, on its interface, and its address is nobody else's. *)
Definition live_lease (lease : JoinIpLease) (owned : list InterfaceAddress) (active : list ActiveIpv4Prefix) : Prop :=
  let same p := ap_interface p = Some (lease_interface lease) /\ ap_prefix p = ia_prefix (il_address lease) in
  il_address lease ∈ owned /\ (forall a, a ∈ owned -> address (ia_prefix a) = lease_ip lease -> a = il_address lease) /\
  (exists p, p ∈ active /\ same p) /\ (forall p, p ∈ active -> address (ap_prefix p) = lease_ip lease -> same p).

Lemma existsb_elem {A : Type} (f : A -> bool) (l : list A) : existsb f l = true <-> exists x, x ∈ l /\ f x = true.
Proof. rewrite existsb_exists. split; intros (x & Hx & Hf); exists x; (split; [by apply list_elem_of_In|done]). Qed.
Lemma existsb_none {A : Type} (f : A -> bool) (l : list A) : existsb f l = false <-> forall x, x ∈ l -> f x = false.
Proof.
  rewrite <- not_true_iff_false, existsb_elem. split.
  - intros Hn x Hx. apply not_true_iff_false. intros Hf. apply Hn. by exists x.
  - intros Hall (x & Hx & Hf). rewrite (Hall x Hx) in Hf. done.
Qed.

Lemma require_live_exact lease owned active :
  require_live_panu_lease lease owned active = Ok () <-> live_lease lease owned active.
Proof.
  unfold require_live_panu_lease, live_lease.
  rewrite !guard_err_Ok, !negb_false_iff, !existsb_elem, !existsb_none.
  setoid_rewrite andb_true_iff. setoid_rewrite andb_false_iff. setoid_rewrite negb_false_iff. setoid_rewrite andb_true_iff.
  setoid_rewrite bool_decide_eq_true. setoid_rewrite bool_decide_eq_false. split.
  - intros ((a & Ha & ->) & Hown & Hact & Hamb & _). split; [done|]. split; [|split; [done|]].
    + intros a' Ha' Hip. by destruct (Hown a' Ha').
    + intros p Hp Hip. by destruct (Hamb p Hp).
  - intros (Ha & Hown & Hact & Hamb). split; [by exists (il_address lease)|]. split; [|split; [done|]; split; [|done]].
    + intros a' Ha'. destruct (decide (address (ia_prefix a') = lease_ip lease)) as [Hip|Hip]; [right; by apply Hown|by left].
    + intros p Hp. destruct (decide (address (ap_prefix p) = lease_ip lease)) as [Hip|Hip]; [right; by apply Hamb|by left].
Qed.

Section facts.
Context {B K T S : Type} `{HostBackends B} `{PanBackends B} `{OutboundHost B K} `{X509} `{LawfulTlsStack K T} `{LawfulTrustStores S}.
Context (pin_store : bool).
Variable to_vec : ControlEnvelope -> option (list Z).
Variable from_slice : list Z -> option ControlEnvelope.
Variable fuel : nat.
Variables between during : S -> S.

(** What was observed from [b] on: NetworkManager's snapshots, then the exact
    attachment, last, which left [b']. *)
Definition live_witnessed (route : PanuControlRoute) (b b' : B) : Prop :=
  exists owned active b1 b2 b3 b4,
    connect_network_manager b = (Ok (), b1) /\ addresses b1 = (Ok owned, b2) /\
    active_ipv4_prefixes_with_interfaces b2 = (Ok active, b3) /\ live_lease (pr_lease route) owned active /\
    connect_bluez b3 = (Ok (), b4) /\ require_matching_panu (jl_attachment (pr_link route)) b4 = (Ok (), b').

Lemma on_backends_Ok {A : Type} (m : stres B CoreError A) b s x b' s' :
  on_backends (S := S) m (b, s) = (Ok x, (b', s')) -> m b = (Ok x, b') /\ s' = s.
Proof. unfold on_backends. destruct (m b) as [y t]. by intros [= -> -> ->]. Qed.

Lemma require_live_panu_Ok route b (s : S) b' s' :
  require_live_panu route (b, s) = (Ok (), (b', s')) -> live_witnessed route b b' /\ s' = s.
Proof.
  unfold require_live_panu. intros ([] & [b1 s1] & [H1' ->]%on_backends_Ok & Hrun)%st_bind_Ok.
  apply st_bind_Ok in Hrun as (owned & [b2 s2] & [H2' ->]%on_backends_Ok & Hrun).
  apply st_bind_Ok in Hrun as (active & [b3 s3] & [H3' ->]%on_backends_Ok & Hrun).
  rewrite st_bind_lift in Hrun. destruct (require_live_panu_lease _ _ _) as [[]|e] eqn:Hl; [|done].
  apply require_live_exact in Hl. apply st_bind_Ok in Hrun as ([] & [b4 s4] & [H4' ->]%on_backends_Ok & [H5' ->]%on_backends_Ok).
  split; [|done]. by exists owned, active, b1, b2, b3, b4.
Qed.

Lemma approved_now_Ok network node fp (b b' : B) (s s' : S) :
  approved_now pin_store between network node fp (b, s) = (Ok (), (b', s')) ->
  b' = b /\ authorized_in (content s') network node fp.
Proof.
  unfold approved_now, on_trust. destruct (require_approved_pinned_tls_peer pin_store network node fp (between s)) as [x t] eqn:Hrun.
  intros [= -> -> ->]. split; [done|]. unfold require_approved_pinned_tls_peer in Hrun.
  pose proof (with_approved_reads pin_store network node fp (fun _ => ()) (between s)) as Hc. rewrite Hrun in Hc. cbn [snd] in Hc.
  apply with_approved_Ok in Hrun as (_ & Ha & _). by rewrite Hc.
Qed.

Lemma in_time_Ok d e (b b' : B) (s s' : S) :
  in_time (K := K) d e (b, s) = (Ok (), (b', s')) -> exists t, instant_now (K := K) b = (t, b') /\ (t < d)%Z /\ s' = s.
Proof.
  unfold in_time. destruct (instant_now b) as [t b1]. unfold guard_err. destruct (Z.leb_spec d t); [done|].
  intros [= <- <-]. by exists t.
Qed.

(** The socket that was dialled, and all that was checked first. *)
Definition dialled (route : PanuControlRoute) (local : LocalControlTlsIdentity) (expected : PinnedControlTlsPeer)
    (setup : ApprovedControlSetup) (b b' : B) (s' : S) (socket : K) : Prop :=
  pp_network expected = su_network setup /\ pp_node expected <> li_node local /\
  authorized_in (content s') (su_network setup) (pp_node expected) (pp_fingerprint expected) /\
  exists endpoint source_ip t b1 b2,
    planned_panu_control_endpoint (su_network setup) (pr_link route) (pr_lease route) (pr_pool route) = Ok endpoint /\
    instant_now (K := K) b = (t, b1) /\ (t < su_handshake_deadline setup)%Z /\ live_witnessed route b1 b2 /\
    lease_ip (pr_lease route) = V4 source_ip /\
    dial source_ip endpoint (link_interface (pr_link route)) (su_handshake_deadline setup) b2 = (Ok socket, b') /\
    local_ip (B := B) socket = Ok (V4 source_ip).

Lemma dial_panu_Ok route local expected setup (b b' : B) (s s' : S) (socket : K) :
  dial_panu pin_store between route local expected setup (b, s) = (Ok socket, (b', s')) ->
  dialled route local expected setup b b' s' socket.
Proof.
  unfold dial_panu. rewrite st_bind_lift. destruct (planned_panu_control_endpoint _ _ _ _) as [endpoint|e] eqn:Hep; [|done].
  rewrite st_bind_lift. destruct (_ || _) eqn:Hscope; [done|]. cbn [guard_err].
  apply orb_false_iff in Hscope as [Hn%negb_false_iff%bool_decide_eq_true Hne%bool_decide_eq_false].
  intros ([] & [b1 s1] & [-> _]%approved_now_Ok & Hrun)%st_bind_Ok.
  apply st_bind_Ok in Hrun as ([] & [b2 s2] & (t & Hnow & Ht & ->)%in_time_Ok & Hrun).
  apply st_bind_Ok in Hrun as ([] & [b3 s3] & [Hlive ->]%require_live_panu_Ok & Hrun).
  apply st_bind_Ok in Hrun as ([] & [b4 s4] & [-> Ha]%approved_now_Ok & Hrun).
  destruct (lease_ip (pr_lease route)) as [source_ip|ip] eqn:Hip; [|done].
  apply st_bind_Ok in Hrun as (k & [b5 s5] & [Hdial ->]%on_backends_Ok & Hrun).
  rewrite st_bind_lift in Hrun. destruct (local_ip k) as [source|e] eqn:Hsrc; [|done]. cbn [map_err] in Hrun.
  unfold st_lift in Hrun. injection Hrun as [Heq%negb_false_iff%bool_decide_eq_true [= ->]]%guard_err_Ok -> ->. subst source.
  split; [done|]. split; [done|]. split; [done|]. exists endpoint, source_ip, t, b2, b3. split_and!; try done.
  unfold st_map_err in Hdial. destruct (dial _ _ _ _ b3) as [[k'|e] b6]; [|done]. by injection Hdial as -> ->.
Qed.

(** The checks after the handshake. *)
Lemma post_auth_Ok route expected setup (b b' : B) (s s' : S) :
  post_auth_checks (K := K) pin_store between route expected setup (b, s) = (Ok (), (b', s')) ->
  authorized_in (content s') (su_network setup) (pp_node expected) (pp_fingerprint expected) /\
  exists t b1 b2, live_witnessed route b1 b2 /\ instant_now (K := K) b2 = (t, b') /\ (t < su_handshake_deadline setup)%Z.
Proof.
  unfold post_auth_checks. intros ([] & [b1 s1] & (t & Hnow & Ht & ->)%in_time_Ok & Hrun)%st_bind_Ok.
  apply st_bind_Ok in Hrun as ([] & [b2 s2] & [Hlive ->]%require_live_panu_Ok & Hrun).
  apply st_bind_Ok in Hrun as ([] & [b3 s3] & [-> Ha]%approved_now_Ok & (t' & Hnow' & Ht' & ->)%in_time_Ok).
  split; [done|]. by exists t', b1, b2.
Qed.

#[local] Instance fact_owned : OwnedSession (ActiveControlSession T * S) := active_owned pin_store to_vec from_slice fuel during.
#[local] Instance fact_lawful : LawfulSession (ActiveControlSession T * S) := active_lawful pin_store to_vec from_slice fuel during.
Abbreviation session := (RegisteredControlSession (ActiveControlSession T * S)).

Lemma retain_spec validate (b b' : B) (r r' : session) (g g' : SharedRegistry) x :
  retain_after_post_auth_checks pin_store to_vec from_slice fuel during validate b r g = (x, b', r', g') ->
  match x with
  | Ok r1 => r1 = r' /\ g' = g /\ r' = put_session ((rs_session r).1, (rs_session r').2) r /\
      validate (b, (rs_session r).2) = (Ok (), (b', (rs_session r').2))
  | Err _ => let_go r' g'
  end.
Proof.
  unfold retain_after_post_auth_checks. destruct (rs_session r) as [a s] eqn:Hr. destruct (validate (b, s)) as [y [b1 s1]] eqn:Hv.
  destruct y as [[]|e]; [by intros [= <- <- <- <-]|].
  pose proof (close_and_retire_spec (put_session (a, s1) r) g) as Hc. unfold cancel.
  destruct (close_and_retire (put_session (a, s1) r, g)) as [r1 g1]. intros [= <- <- <- <-]. apply Hc.
Qed.

(** A session over a PAN link: everything was checked before the socket was
    dialled, the session was opened on it with the expected peer, and afterwards,
    before the deadline, the link and the approval were checked again. *)
Definition panu_session (route : PanuControlRoute) (local : LocalControlTlsIdentity) (expected : PinnedControlTlsPeer)
    (setup : ApprovedControlSetup) (b b' : B) (s' : S) (g' : SharedRegistry) (r : session) : Prop :=
  let a := (rs_session r).1 in
  as_peer a = expected /\ rs_key r = mkKey (su_network setup) (pp_node expected) /\ current r g' /\
  authorized_in (content s') (su_network setup) (pp_node expected) (pp_fingerprint expected) /\
  exists (socket : K) (b1 : B) (s1 s2 : S), dialled route local expected setup b b1 s1 socket /\
    verified_session to_vec from_slice local setup [expected] socket s2 a /\
    exists t b2 b3, live_witnessed route b2 b3 /\ instant_now (K := K) b3 = (t, b') /\ (t < su_handshake_deadline setup)%Z.

End facts.

(** ** Example: a session over a link in memory *)

#[local] Existing Instances disk_stores disk_lawful demo_x509 pipe_stream pipe_lawful pipe_tls pipe_lawful_tls pipe_raw pipe_lawful_raw
  demo_stack demo_lawful_stack demo_backends.

Definition demo_panu_lease : JoinIpLease := demo_lease (fill_id 1).
Definition demo_route : PanuControlRoute := mkRoute demo_link demo_panu_lease pool_default.

(** The host holds the leased address; the clock stands still. *)
Definition demo_client_host : DemoBackends :=
  let a := il_address demo_panu_lease in
  mkDemoBackends (address_present a (mkHostWorld ∅ ∅ ∅)) [] [mkActivePrefix (Some (ia_interface a)) (ia_prefix a)] false false.

#[local] Instance demo_pan : PanBackends DemoBackends := {
  disconnect_matching_panu _ := st_ret ();
  require_matching_panu _ := st_ret ();
  active_ipv4_prefixes := fun b => (Ok (ap_prefix <$> db_foreign b), b);
}.
#[local] Instance demo_outbound : OutboundHost DemoBackends pipe := {
  instant_now b := (0%Z, b);
  dial _ _ _ _ := st_ret demo_inbound_socket;
  local_ip _ := Ok (lease_ip demo_panu_lease);
}.

