(* ===== verification/PanuSupervision.v ===== *)
(** Supervision of an outbound control session:
    [supervise_registered_panu_control_session] and its loop of
    [apps/daemon/src/outbound_control.rs].

    The stop flag and the parking of the worker thread are behind
    [SupervisedHost]; the state is the host's backends, the owned session and the
    registry it is in. *)

From S2P Require Import Prelude Order Ident Capability Addressing Routes LinuxRoutes StarHost Membership PeerPins ConnectionDeadline ControlFrame ControlStream ControlIo Handshake SessionStream SessionActivity SessionRegistry PeerTrust PinnedIngress TlsIdentity ActiveSession RegisteredSession SingleStar ControlEndpoint ControlListener ControlTls ApprovedTransport JoinNetwork OutboundControl.

Local Open Scope Z_scope.

Class SupervisedHost (B : Type) := {
  stop_requested : B -> bool * B;
  (** [thread::park_timeout] *)
  park : Z -> B -> B;
  (** [Instant::checked_add] *)
  instant_add : Z -> Z -> option Z;
}.

Definition SUPERVISION_INTERVAL : Z := 1000000000.
Definition HEARTBEAT_INTERVAL : Z := 5000000000.
Definition HEARTBEAT_BUDGET : Z := 100000000.
Definition PARK_LIMIT : Z := 100000000.

Section supervision.
Context {B K T S : Type} `{HostBackends B} `{PanBackends B} `{OutboundHost B K} `{SupervisedHost B} `{TlsStream T} `{TrustStores S}.
Context (pin_store : bool).
Variable to_vec : ControlEnvelope -> option (list Z).
Variable from_slice : list Z -> option ControlEnvelope.
Variable fuel : nat.
Variables between during : S -> S.

Abbreviation session := (RegisteredControlSession (ActiveControlSession T * S)).
Abbreviation owner := (B * (session * SharedRegistry))%type.
Abbreviation sup A := (io owner CoreError A).

#[local] Instance supervised_owned : OwnedSession (ActiveControlSession T * S) := active_owned pin_store to_vec from_slice fuel during.

Definition host_now : sup Z := fun '(b, rw) => let (t, b) := instant_now (K := K) b in Some (Ok t, (b, rw)).
Definition stopping : sup bool := fun '(b, rw) => let (x, b) := stop_requested b in Some (Ok x, (b, rw)).
(** A call of the host or of the trust stores the session shares. *)
Definition on_host {A : Type} (m : stres (B * S) CoreError A) : sup A := fun '(b, (r, g)) =>
  let '(x, (b, s)) := m (b, (rs_session r).2) in Some (x, (b, (put_session ((rs_session r).1, s) r, g))).
(** An operation of the owned session, its error replaced. *)
Definition on_session {A : Type} (m : io (session * SharedRegistry) ControlSessionError A) (e : CoreError) : sup A := fun '(b, rw) =>
  match m rw with Some (x, rw) => Some (map_err (fun _ => e) x, (b, rw)) | None => None end.

Definition lost_durable : CoreError :=
  core_error_with_diagnostic AuthenticationFailed "outbound PANU TLS session no longer has durable approval" "{error}".
Definition approval_changed : CoreError :=
  core_error_with_diagnostic AuthenticationFailed "outbound PANU TLS approval changed during supervision" "{error}".

Definition check_panu_session (route : PanuControlRoute) (expected : PinnedControlTlsPeer) : sup () := fun o =>
  let key := rs_key o.2.1 in
  (let? _ := io_lift (guard_err (negb (bool_decide (k_network key = pp_network expected)) || negb (bool_decide (k_peer key = pp_node expected)))
     (core_error AuthenticationFailed "outbound PANU supervisor expected a different authenticated peer") (Ok ())) in
   let? _ := io_lift (planned_panu_control_endpoint (k_network key) (pr_link route) (pr_lease route) (pr_pool route)) in
   let? _ := on_session registered_revalidate lost_durable in
   let? _ := on_host (require_live_panu route) in
   let? _ := on_host (approved_now pin_store between (k_network key) (k_peer key) (pp_fingerprint expected)) in
   on_session registered_revalidate approval_changed) o.

Definition cancel_on_failed_supervision (validate : sup ()) : sup () := fun o =>
  match validate o with Some (Err e, (b, rw)) => Some (Err e, (b, cancel rw)) | out => out end.

Definition supervise_registered_panu_control_session (route : PanuControlRoute) (expected : PinnedControlTlsPeer) : sup () :=
  cancel_on_failed_supervision (check_panu_session route expected).

(** The new [last_sent]. *)
Definition send_supervised_heartbeat_if_due (last_sent now interval budget : Z) (send : Z -> sup ()) : sup Z :=
  if now <? last_sent then io_fail (core_error InvalidState "outbound PANU heartbeat clock regressed")
  else if now - last_sent <? interval then io_ret last_sent
  else
    let? deadline := io_lift (ok_or (instant_add now budget) (core_error InvalidState "outbound PANU heartbeat deadline overflow")) in
    let? _ := send deadline in
    let? completed_at := host_now in
    if deadline <? completed_at
    then io_fail (core_error PanFailure "authenticated outbound PANU heartbeat completed after its deadline")
    else io_ret completed_at.

Definition heartbeat_failed : CoreError :=
  core_error_with_diagnostic PanFailure "authenticated outbound PANU heartbeat failed" "{error}".

Definition panu_supervision_tick (route : PanuControlRoute) (expected : PinnedControlTlsPeer) (last_heartbeat : Z) : sup Z :=
  let? _ := supervise_registered_panu_control_session route expected in
  let? stop := stopping in
  if stop : bool then io_ret last_heartbeat
  else
    let? t := host_now in
    send_supervised_heartbeat_if_due last_heartbeat t HEARTBEAT_INTERVAL HEARTBEAT_BUDGET
      (fun deadline => on_session (registered_heartbeat deadline) heartbeat_failed).

(** The inner [while]: until the next tick or a stop. *)
Fixpoint wait_for_tick (n : nat) (next_tick : Z) : sup () :=
  match n with
  | O => fun _ => None
  | Datatypes.S n =>
    let? stop := stopping in
    if stop : bool then io_ret ()
    else
      let? t := host_now in
      let remaining := Z.max (next_tick - t) 0 in
      if remaining =? 0 then io_ret ()
      else
        let? _ := (fun '(b, rw) => Some (Ok (), (park (Z.min remaining PARK_LIMIT) b, rw))) in
        wait_for_tick n next_tick
  end.

(** The [loop]; its outcome before the final [cancel]. *)
Fixpoint supervision_loop {A : Type} (n : nat) (interval : Z) (tick : A -> sup A) (acc : A) : sup () :=
  match n with
  | O => fun _ => None
  | Datatypes.S n =>
    let? stop := stopping in
    if stop : bool then io_ret ()
    else
      let? acc := tick acc in
      let? stop := stopping in
      if stop : bool then io_ret ()
      else
        let? t := host_now in
        let? _ := wait_for_tick n (t + interval) in
        supervision_loop n interval tick acc
  end.

Definition run_bounded_supervision_until_stopped {A : Type} (n : nat) (interval : Z) (tick : A -> sup A) (acc : A) : sup () := fun o =>
  match supervision_loop n interval tick acc o with
  | Some (x, (b, rw)) => Some (x, (b, cancel rw))
  | None => None
  end.

Definition run_registered_panu_supervision_until_stopped (n : nat) (route : PanuControlRoute) (expected : PinnedControlTlsPeer) : sup () :=
  let? last_heartbeat := host_now in
  run_bounded_supervision_until_stopped n SUPERVISION_INTERVAL (panu_supervision_tick route expected) last_heartbeat.
End supervision.

(** ** What the host promises

    A stop is requested before long: the flag is read as unset only a bounded
    number of times. *)
Class LawfulSupervised (B K : Type) `{HostBackends B} `{PanBackends B} `{OutboundHost B K} `{SupervisedHost B} := {
  patience : B -> nat;
  stop_law (b : B) : (patience (stop_requested b).2 <= patience b)%nat /\
    ((stop_requested b).1 = false -> (patience (stop_requested b).2 < patience b)%nat);
  host_law (b : B) :
    (patience (connect_network_manager b).2 <= patience b)%nat /\ (patience (addresses b).2 <= patience b)%nat /\
    (patience (active_ipv4_prefixes_with_interfaces b).2 <= patience b)%nat /\ (patience (connect_bluez b).2 <= patience b)%nat /\
    (forall a, (patience (require_matching_panu a b).2 <= patience b)%nat) /\
    (patience (instant_now (K := K) b).2 <= patience b)%nat /\ (forall d, (patience (park d b) <= patience b)%nat);
}.

(** ** Facts *)

Section facts.
Context {B K T S : Type} `{LawfulSupervised B K} `{LawfulTls T} `{LawfulTrustStores S}.
Context (pin_store : bool).
Variable to_vec : ControlEnvelope -> option (list Z).
Variable from_slice : list Z -> option ControlEnvelope.
Variable fuel : nat.
Variables between during : S -> S.

#[local] Instance fact_supervised_owned : OwnedSession (ActiveControlSession T * S) := active_owned pin_store to_vec from_slice fuel during.
#[local] Instance fact_supervised_lawful : LawfulSession (ActiveControlSession T * S) := active_lawful pin_store to_vec from_slice fuel during.

Abbreviation session := (RegisteredControlSession (ActiveControlSession T * S)).
Abbreviation owner := (B * (session * SharedRegistry))%type.

Definition ready_owner (o : owner) : Prop := os_ready (rs_session o.2.1).

(** The same registration, and nothing done to the registry but to remove it. *)
Definition kept_registration (rw rw' : session * SharedRegistry) : Prop :=
  session_ids rw'.1 = session_ids rw.1 /\ only_own (rs_key rw.1) (rs_session_id rw.1) rw.2 rw'.2.

Lemma kept_refl rw : kept_registration rw rw.
Proof. by split. Qed.
Lemma kept_trans rw1 rw2 rw3 : kept_registration rw1 rw2 -> kept_registration rw2 rw3 -> kept_registration rw1 rw3.
Proof.
  intros [I1 O1] [I2 O2]. split; [congruence|]. etrans; [exact O1|]. unfold session_ids in I1. injection I1 as Hk Hid.
  by rewrite Hk, Hid in O2.
Qed.

(** Progress of the owner: still ready, the same registration, no more patience. *)
Definition lively (o o' : owner) : Prop :=
  ready_owner o' /\ kept_registration o.2 o'.2 /\ (patience o'.1 <= patience o.1)%nat.

Lemma lively_refl o : ready_owner o -> lively o o.
Proof. intros Hr. split; [done|]. split; [apply kept_refl|done]. Qed.
Lemma lively_trans o1 o2 o3 : lively o1 o2 -> lively o2 o3 -> lively o1 o3.
Proof. intros (_ & I1 & P1) (R2 & I2 & P2). split; [done|]. split; [by eapply kept_trans|lia]. Qed.

(** A computation that answers from every ready owner. *)
Definition answers {A : Type} (m : io owner CoreError A) : Prop := forall o, ready_owner o ->
  exists x o', m o = Some (x, o') /\ lively o o'.

Lemma answers_bind {A C : Type} (m : io owner CoreError A) (f : A -> io owner CoreError C) :
  answers m -> (forall a, answers (f a)) -> answers (io_bind m f).
Proof.
  intros Hm Hf o Hr. destruct (Hm o Hr) as (x & o1 & Hx & Hl). unfold io_bind. rewrite Hx. destruct x as [a|e].
  - destruct (Hf a o1) as (y & o2 & Hy & Hl2); [apply Hl|]. exists y, o2. split; [done|]. by eapply lively_trans.
  - by exists (Err e), o1.
Qed.
Lemma answers_lift {A : Type} (r : result CoreError A) : answers (io_lift r).
Proof. intros o Hr. exists r, o. split; [done|]. by apply lively_refl. Qed.

Lemma answers_now : answers (host_now (K := K)).
Proof.
  intros [b rw] Hr. unfold host_now. destruct (host_law b) as (_ & _ & _ & _ & _ & Hp & _). destruct (instant_now b) as [t b'].
  exists (Ok t), (b', rw). split; [done|]. split; [done|]. by split.
Qed.
Lemma answers_stopping : answers stopping.
Proof.
  intros [b rw] Hr. unfold stopping. destruct (stop_law b) as [Hp _]. destruct (stop_requested b) as [x b'].
  exists (Ok x), (b', rw). split; [done|]. split; [done|]. by split.
Qed.

(** The host's part never uses up patience. *)
Definition gentle {A : Type} (m : stres (B * S) CoreError A) : Prop := forall b s, (patience (m (b, s)).2.1 <= patience b)%nat.

Lemma gentle_bind {A C : Type} (m : stres (B * S) CoreError A) (f : A -> stres (B * S) CoreError C) :
  gentle m -> (forall a, gentle (f a)) -> gentle (st_bind m f).
Proof.
  intros Hm Hf b s. unfold st_bind. specialize (Hm b s). destruct (m (b, s)) as [[a|e] [b1 s1]]; [|done]. cbn [snd fst] in Hm.
  specialize (Hf a b1 s1). destruct (f a (b1, s1)) as [y [b2 s2]]. cbn [snd fst] in *. lia.
Qed.
Lemma gentle_backends {A : Type} (m : stres B CoreError A) : (forall b, (patience (m b).2 <= patience b)%nat) -> gentle (on_backends m).
Proof. intros Hm b s. unfold on_backends. specialize (Hm b). by destruct (m b). Qed.
Lemma gentle_live route : gentle (require_live_panu route).
Proof.
  apply gentle_bind; [apply gentle_backends; intros b; apply (host_law b)|]. intros _.
  apply gentle_bind; [apply gentle_backends; intros b; apply (host_law b)|]. intros owned.
  apply gentle_bind; [apply gentle_backends; intros b; apply (host_law b)|]. intros active.
  apply gentle_bind; [by intros b s|]. intros _.
  apply gentle_bind; [apply gentle_backends; intros b; apply (host_law b)|]. intros _.
  apply gentle_backends; intros b; apply (host_law b).
Qed.
Lemma gentle_approved network node fp : gentle (approved_now pin_store between network node fp).
Proof.
  intros b s. unfold approved_now, on_trust. by destruct (require_approved_pinned_tls_peer _ _ _ _ _).
Qed.

(** The session does not mind what happens to the stores. *)
Lemma ready_any_store (a : ActiveControlSession T) (s s' : S) : os_ready (a, s) -> os_ready (a, s').
Proof. intros Hr. exact Hr. Qed.

Lemma answers_host {A : Type} (m : stres (B * S) CoreError A) : gentle m -> answers (on_host m).
Proof.
  intros Hm [b [r g]] Hr. unfold on_host. specialize (Hm b (rs_session r).2).
  destruct (m (b, (rs_session r).2)) as [x [b' s']]. cbn [snd fst] in Hm.
  eexists x, _. split; [reflexivity|]. split; [|by split]. unfold ready_owner in *. cbn [fst snd put_session rs_session] in *.
  destruct (rs_session r) as [a s]. by apply (ready_any_store a s).
Qed.

Lemma answers_session {X : Type} (m : io (session * SharedRegistry) ControlSessionError X) e :
  (forall r g, os_ready (rs_session r) -> exists x r' g', m (r, g) = Some (x, (r', g')) /\ os_ready (rs_session r') /\ kept_registration (r, g) (r', g')) ->
  answers (on_session (B := B) m e).
Proof.
  intros Hm [b [r g]] Hr. destruct (Hm r g Hr) as (x & r' & g' & Hx & Hr' & Hid). unfold on_session. rewrite Hx.
  eexists _, _. split; [reflexivity|]. split; [done|]. by split.
Qed.

Lemma registered_op_answers {X : Type} (m : io (ActiveControlSession T * S) ControlSessionError X) (r : session) (g : SharedRegistry) recheck :
  checks recheck -> (exists x a, m (rs_session r) = Some (x, a) /\ os_ready a) ->
  exists x r' g', supervised m (fun _ => false) recheck (r, g) = Some (x, (r', g')) /\ os_ready (rs_session r') /\ kept_registration (r, g) (r', g') /\
    (is_ok x = false -> let_go r' g') /\
    (forall v, x = Ok v -> m (rs_session r) = Some (Ok v, rs_session r') /\ current r' g').
Proof.
  intros Hc (x0 & a & Hm & Ha). destruct (supervised_spec m (fun _ => false) recheck r g Hc) as (x & r' & g' & Hrun & Hk & Hid & Hres);
    [by exists x0, a|].
  exists x, r', g'. split; [done|].
  assert (kept_registration (r, g) (r', g')) as Hkept.
  { split; [unfold session_ids; cbn [fst]; by rewrite Hk, Hid|]. apply (supervised_only_own m (fun _ => false) r g x r' g').
    split; [exact Hk|]. split; [exact Hid|exact Hres]. }
  destruct x as [v|e].
  - destruct Hres as (_ & Hm' & Hcur & _). split; [rewrite Hm in Hm'; by injection Hm' as _ <-|]. split; [done|]. split; [done|].
    by intros v' [= <-].
  - destruct Hres as (Hl & _). split; [apply Hl|]. by split.
Qed.

Lemma revalidate_answers (r : session) g : os_ready (rs_session r) ->
  exists x r' g', registered_revalidate (r, g) = Some (x, (r', g')) /\ os_ready (rs_session r') /\ kept_registration (r, g) (r', g') /\
    (is_ok x = false -> let_go r' g') /\ (forall v, x = Ok v -> os_revalidate (rs_session r) = Some (Ok v, rs_session r') /\ current r' g').
Proof.
  intros Hr. apply registered_op_answers; [apply ensure_active_checks|]. destruct (revalidate_law (rs_session r) Hr) as (x & a & Hx & Ha).
  by exists x, a.
Qed.
Lemma heartbeat_answers d (r : session) g : os_ready (rs_session r) ->
  exists x r' g', registered_heartbeat d (r, g) = Some (x, (r', g')) /\ os_ready (rs_session r') /\ kept_registration (r, g) (r', g') /\
    (is_ok x = false -> let_go r' g') /\ (forall v, x = Ok v -> os_heartbeat d (rs_session r) = Some (Ok v, rs_session r') /\ current r' g').
Proof.
  intros Hr. apply registered_op_answers; [apply ensure_active_checks|]. destruct (heartbeat_law (rs_session r) d Hr) as (x & a & Hx & Ha).
  by exists x, a.
Qed.

Lemma answers_revalidate e : answers (on_session (B := B) registered_revalidate e).
Proof.
  apply answers_session. intros r g Hr. destruct (revalidate_answers r g Hr) as (x & r' & g' & Hx & Hr' & Hid & _).
  by exists x, r', g'.
Qed.

Lemma answers_check route expected :
  answers (check_panu_session pin_store to_vec from_slice fuel between during route expected).
Proof.
  intros o Hr. unfold check_panu_session.
  apply (answers_bind _ _ (answers_lift _)); [|exact Hr]. intros _. apply answers_bind; [apply answers_lift|]. intros _.
  apply answers_bind; [apply answers_revalidate|]. intros _. apply answers_bind; [apply answers_host, gentle_live|]. intros _.
  apply answers_bind; [apply answers_host, gentle_approved|]. intros _. apply answers_revalidate.
Qed.

Lemma cancel_lively (o : owner) :
  let '(r', g') := cancel o.2 in let_go r' g' /\ kept_registration o.2 (r', g').
Proof.
  destruct o as [b [r g]]. pose proof (close_and_retire_spec r g) as Hc. unfold cancel. cbn [snd fst].
  destruct (close_and_retire (r, g)) as [r' g']. destruct Hc as (Hk & Hid & Hl & ->). split; [done|]. split; [unfold session_ids; cbn [fst]; by rewrite Hk, Hid|].
  apply only_own_retire.
Qed.

(** One supervision: what a success has seen, and what a failure leaves. *)
Definition supervised_outcome (route : PanuControlRoute) (expected : PinnedControlTlsPeer) (o o' : owner) (x : CoreResult ()) : Prop :=
  match x with
  | Ok _ => current o'.2.1 o'.2.2 /\ (rs_session o'.2.1).1 = (rs_session o.2.1).1 /\
      rs_key o.2.1 = mkKey (pp_network expected) (pp_node expected) /\
      is_ok (planned_panu_control_endpoint (pp_network expected) (pr_link route) (pr_lease route) (pr_pool route)) = true /\
      live_witnessed route o.1 o'.1 /\
      exists s1 s2, authorized_in (content s1) (pp_network expected) (pp_node expected) (pp_fingerprint expected) /\
        revalidate_approval pin_store ((rs_session o.2.1).1, s1) = Some (Ok (), ((rs_session o.2.1).1, s2)) /\
        (rs_session o'.2.1).2 = s2
  | Err _ => let_go o'.2.1 o'.2.2
  end.

Lemma revalidate_same (a a' : ActiveControlSession T) (s s' : S) :
  revalidate_approval pin_store (a, s) = Some (Ok (), (a', s')) -> a' = a.
Proof.
  unfold revalidate_approval, authorize_outbound. destruct (as_terminal a); [done|].
  destruct (require_approved_pinned_tls_peer _ _ _ _ _) as [[[]|e] s1]; [|done]. by intros [= <- _].
Qed.

Lemma revalidate_step (r : session) g e (b : B) x o' :
  os_ready (rs_session r) -> on_session registered_revalidate e (b, (r, g)) = Some (x, o') ->
  x = Ok () -> exists s' g', o' = (b, (put_session ((rs_session r).1, s') r, g')) /\ current o'.2.1 o'.2.2 /\
    revalidate_approval pin_store (rs_session r) = Some (Ok (), ((rs_session r).1, s')).
Proof.
  intros Hr Hrun ->. unfold on_session in Hrun. destruct (revalidate_answers r g Hr) as (y & r' & g' & Hy & _ & Hid & _ & Hok).
  rewrite Hy in Hrun. destruct y as [v|]; [|done]. injection Hrun as -> <-. destruct (Hok () eq_refl) as [Hm Hcur].
  cbn [os_revalidate fact_supervised_owned active_owned] in Hm.
  destruct (rs_session r) as [a s] eqn:Hra. destruct (rs_session r') as [a' s'] eqn:Hra'. pose proof (revalidate_same _ _ _ _ Hm) as ->.
  exists s', g'. cbn [fst snd]. split; [|split; [exact Hcur|exact Hm]]. destruct Hid as [Hid _]. cbn [fst] in Hid. unfold session_ids in Hid. injection Hid as Hk Hi.
  f_equal. f_equal. destruct r'; cbn in *. by subst.
Qed.

Lemma supervise_spec route expected (o : owner) :
  ready_owner o ->
  exists x o', supervise_registered_panu_control_session pin_store to_vec from_slice fuel between during route expected o = Some (x, o') /\
    lively o o' /\ supervised_outcome route expected o o' x.
Proof.
  intros Hr. destruct (answers_check route expected o Hr) as (x & o1 & Hx & Hl).
  unfold supervise_registered_panu_control_session, cancel_on_failed_supervision. rewrite Hx. destruct x as [[]|e].
  2:{ destruct o1 as [b1 rw]. pose proof (cancel_lively (b1, rw)) as Hc. cbn [snd] in Hc. destruct (cancel rw) as [r' g'].
      destruct Hc as [Hlet Hid]. eexists _, _. split; [reflexivity|]. split; [|exact Hlet]. destruct Hl as (_ & Hi & Hp). split; [apply Hlet|].
      cbn [fst snd] in *. split; [by eapply kept_trans|done]. }
  exists (Ok ()), o1. split; [done|]. split; [done|]. destruct o as [b [r g]]. revert Hx. unfold check_panu_session. cbn [snd fst].
  intros [(u & t & [= Hk <-] & Hrun)|(e & _ & [=])]%io_bind_Some.
  apply guard_err_Ok in Hk as [[Hk1%negb_false_iff%bool_decide_eq_true Hk2%negb_false_iff%bool_decide_eq_true]%orb_false_iff _].
  apply io_bind_Some in Hrun as [(ep & t & [= Hep <-] & Hrun)|(e & _ & [=])].
  apply io_bind_Some in Hrun as [([] & o2 & Hre & Hrun)|(e & _ & [=])]. unfold ready_owner in Hr. cbn [fst snd] in Hr.
  apply (revalidate_step r g _ b _ _ Hr) in Hre as (s2 & g2 & -> & _ & _); [|done].
  apply io_bind_Some in Hrun as [([] & o3 & Hlive & Hrun)|(e & _ & [=])]. unfold on_host in Hlive. cbn [fst snd put_session rs_session] in Hlive.
  match type of Hlive with context [require_live_panu route ?st] => destruct (require_live_panu route st) as [y [b3 s3]] eqn:Hl3 end.
  injection Hlive as -> <-. apply require_live_panu_Ok in Hl3 as [Hlive ->].
  apply io_bind_Some in Hrun as [([] & o4 & Happ & Hrun)|(e & _ & [=])]. unfold on_host in Happ. cbn [fst snd put_session rs_session] in Happ.
  match type of Happ with context [approved_now ?p ?q ?n ?m ?f ?st] => destruct (approved_now p q n m f st) as [y [b4 s4]] eqn:Ha4 end.
  injection Happ as -> <-. apply approved_now_Ok in Ha4 as [-> Ha4].
  match type of Hrun with on_session _ _ (_, (?r0, ?g0)) = _ => apply (revalidate_step r0 g0) in Hrun as (s5 & g5 & -> & Hcur & Hlast); [|exact Hr|done] end.
  cbn [fst snd put_session rs_session rs_key rs_session_id] in *. rewrite Hk1, Hk2 in *.
  unfold supervised_outcome. cbn [fst snd]. split; [exact Hcur|]. split; [done|].
  split; [destruct (rs_key r); cbn in *; by subst|]. split; [by rewrite Hep|]. split; [done|]. by exists s4, s5.
Qed.

(** A heartbeat that was sent: it was due, and was done by its deadline. *)
Definition heartbeat_sent (last last' : Z) (a a' : ActiveControlSession T * S) : Prop :=
  exists t deadline, HEARTBEAT_INTERVAL <= t - last /\ instant_add t HEARTBEAT_BUDGET = Some deadline /\ last' <= deadline /\
    os_heartbeat deadline a = Some (Ok (), a').

(** What one tick does: the supervision, then a heartbeat if one is due and no
    stop was requested. *)
Definition ticked (route : PanuControlRoute) (expected : PinnedControlTlsPeer) (last last' : Z) (o o' : owner) : Prop :=
  current o'.2.1 o'.2.2 /\
  exists o1, lively o o1 /\ supervised_outcome route expected o o1 (Ok ()) /\
    (last' = last /\ o'.2 = o1.2 \/
     exists b1, stop_requested o1.1 = (false, b1) /\ heartbeat_sent last last' (rs_session o1.2.1) (rs_session o'.2.1)).

Abbreviation tick := (panu_supervision_tick (K := K) pin_store to_vec from_slice fuel between during).

Lemma now_answers (b : B) (rw : session * SharedRegistry) : exists t b', host_now (K := K) (b, rw) = Some (Ok t, (b', rw)) /\ (patience b' <= patience b)%nat.
Proof.
  unfold host_now. destruct (host_law b) as (_ & _ & _ & _ & _ & Hp & _). destruct (instant_now b) as [t b']. by exists t, b'.
Qed.
Lemma stopping_answers (b : B) (rw : session * SharedRegistry) : exists x b', stopping (b, rw) = Some (Ok x, (b', rw)) /\ stop_requested b = (x, b') /\
  (patience b' <= patience b)%nat /\ (x = false -> (patience b' < patience b)%nat).
Proof. unfold stopping. destruct (stop_law b) as [Hp Hf]. destruct (stop_requested b) as [x b']. by exists x, b'. Qed.

Lemma heartbeat_step d (b : B) (rw : session * SharedRegistry) : ready_owner (b, rw) ->
  exists x rw', on_session (registered_heartbeat d) heartbeat_failed (b, rw) = Some (x, (b, rw')) /\ lively (b, rw) (b, rw') /\
    (x = Ok () -> os_heartbeat d (rs_session rw.1) = Some (Ok (), rs_session rw'.1) /\ current rw'.1 rw'.2).
Proof.
  destruct rw as [r g]. intros Hr. destruct (heartbeat_answers d r g Hr) as (x & r' & g' & Hx & Hr' & Hid & _ & Hok).
  unfold on_session. rewrite Hx. eexists _, (r', g'). split; [reflexivity|]. split; [by split|].
  destruct x as [[]|e]; [|done]. intros _. by apply Hok.
Qed.

Lemma tick_spec route expected last (o : owner) : ready_owner o ->
  exists x o', tick route expected last o = Some (x, o') /\ lively o o' /\
    match x with Ok last' => ticked route expected last last' o o' | Err _ => True end.
Proof.
  intros Hr. destruct (supervise_spec route expected o Hr) as (x & [b1 [r1 g1]] & Hx & Hl & Hout).
  unfold panu_supervision_tick, io_bind at 1. rewrite Hx. destruct x as [[]|e]; [|by exists (Err e), (b1, (r1, g1))].
  destruct (stopping_answers b1 (r1, g1)) as (stop & b2 & Hs & Hreq & Hp2 & _). unfold io_bind at 1. rewrite Hs.
  assert (lively o (b2, (r1, g1))) as Hl2 by (eapply lively_trans; [exact Hl|]; split; [apply Hl|by split]).
  destruct stop; [exists (Ok last), (b2, (r1, g1)); split; [done|]; split; [done|]; split; [apply Hout|];
    exists (b1, (r1, g1)); split_and!; [done|done|by left]|].
  destruct (now_answers b2 (r1, g1)) as (t & b3 & Ht & Hp3). unfold io_bind at 1. rewrite Ht.
  assert (lively o (b3, (r1, g1))) as Hl3 by (eapply lively_trans; [exact Hl2|]; split; [apply Hl|by split]).
  unfold send_supervised_heartbeat_if_due. destruct (t <? last) eqn:Hreg; [by eexists _, _|].
  destruct (Z.ltb_spec (t - last) HEARTBEAT_INTERVAL) as [|Hdue].
  { exists (Ok last), (b3, (r1, g1)). split; [done|]. split; [done|]. split; [apply Hout|].
    exists (b1, (r1, g1)). split_and!; [done|done|by left]. }
  unfold io_bind at 1, io_lift. destruct (instant_add t HEARTBEAT_BUDGET) as [deadline|] eqn:Hadd; [|by eexists _, _].
  cbn [ok_or]. destruct (heartbeat_step deadline b3 (r1, g1)) as (y & [r4 g4] & Hy & Hl4 & Hok); [apply Hl3|].
  unfold io_bind at 1. change (supervised_owned pin_store to_vec from_slice fuel during) with fact_supervised_owned. rewrite Hy. pose proof (lively_trans _ _ _ Hl3 Hl4) as Hl5.
  destruct y as [[]|e]; [|by eexists _, _]. destruct (Hok eq_refl) as [Hbeat Hcur].
  destruct (now_answers b3 (r4, g4)) as (t' & b5 & Ht' & Hp5). unfold io_bind at 1. rewrite Ht'.
  assert (lively o (b5, (r4, g4))) as Hl6 by (eapply lively_trans; [exact Hl5|]; split; [apply Hl5|by split]).
  destruct (Z.ltb_spec deadline t') as [|Hdone]; [by eexists _, _|]. eexists (Ok t'), _. split; [reflexivity|]. split; [done|].
  split; [exact Hcur|]. exists (b1, (r1, g1)). split_and!; [done|done|]. right. exists b2. split; [done|]. by exists t, deadline.
Qed.

(** ** The loop *)

Lemma wait_for_tick_ends (next : Z) : forall n (o : owner), (patience o.1 < n)%nat ->
  exists b', wait_for_tick (K := K) n next o = Some (Ok (), (b', o.2)) /\ (patience b' <= patience o.1)%nat.
Proof.
  induction n as [|n IH]; intros [b rw] Hn; [lia|]. cbn [fst snd] in *. cbn [wait_for_tick].
  destruct (stopping_answers b rw) as (stop & b1 & Hs & _ & Hp & Hf). unfold io_bind at 1. rewrite Hs.
  destruct stop; [by exists b1|]. specialize (Hf eq_refl).
  destruct (now_answers b1 rw) as (t & b2 & Ht & Hp2). unfold io_bind at 1. rewrite Ht.
  destruct (_ =? 0); [exists b2; split; [done|lia]|]. unfold io_bind at 1.
  destruct (host_law b2) as (_ & _ & _ & _ & _ & _ & Hpark). specialize (Hpark (Z.min (Z.max (next - t) 0) PARK_LIMIT)).
  destruct (IH (park (Z.min (Z.max (next - t) 0) PARK_LIMIT) b2, rw)) as (b3 & Hrun & Hp3); [cbn [fst]; lia|].
  exists b3. cbn [fst snd] in *. split; [exact Hrun|lia].
Qed.

(** A loop of ticks that answer ends: on a stop, or with the error of a tick. *)
Lemma supervision_loop_ends {A : Type} (interval : Z) (f : A -> io owner CoreError A)
    (Hf : forall acc o, ready_owner o -> exists x o', f acc o = Some (x, o') /\ lively o o') :
  forall n acc (o : owner), ready_owner o -> (patience o.1 < n)%nat ->
  exists x o', supervision_loop (K := K) n interval f acc o = Some (x, o') /\ lively o o' /\
    match x with
    | Ok _ => exists b, stop_requested b = (true, o'.1)
    | Err e => exists acc' o1, lively o o1 /\ f acc' o1 = Some (Err e, o')
    end.
Proof.
  induction n as [|n IH]; intros acc [b rw] Hr Hn; [lia|]. cbn [fst snd] in *. cbn [supervision_loop].
  destruct (stopping_answers b rw) as (stop & b1 & Hs & Hreq & Hp & Hdec). unfold io_bind at 1. rewrite Hs.
  assert (lively (b, rw) (b1, rw)) as Hl1 by (split; [done|]; by split).
  destruct stop; [eexists _, _; split; [reflexivity|]; split; [done|]; by exists b|]. specialize (Hdec eq_refl).
  destruct (Hf acc (b1, rw)) as (x & [b2 rw2] & Hx & Hl2); [apply Hl1|]. unfold io_bind at 1. rewrite Hx.
  pose proof (lively_trans _ _ _ Hl1 Hl2) as Hl3.
  destruct x as [acc'|e]; [|eexists _, _; split; [reflexivity|]; split; [done|]; by exists acc, (b1, rw)].
  destruct (stopping_answers b2 rw2) as (stop & b3 & Hs3 & Hreq3 & Hp3 & _). unfold io_bind at 1. rewrite Hs3.
  assert (lively (b, rw) (b3, rw2)) as Hl4 by (eapply lively_trans; [exact Hl3|]; split; [apply Hl3|by split]).
  destruct stop; [eexists _, _; split; [reflexivity|]; split; [done|]; by exists b2|].
  destruct (now_answers b3 rw2) as (t & b4 & Ht & Hp4). unfold io_bind at 1. rewrite Ht.
  destruct Hl2 as (_ & _ & Hp2). cbn [fst snd] in Hp2.
  destruct (wait_for_tick_ends (t + interval) n (b4, rw2)) as (b5 & Hw & Hp5); [cbn [fst]; lia|]. cbn [fst snd] in Hw, Hp5.
  unfold io_bind at 1. rewrite Hw.
  assert (lively (b, rw) (b5, rw2)) as Hl6 by (eapply lively_trans; [exact Hl4|]; split; [apply Hl4|split; [done|cbn [fst]; lia]]).
  destruct (IH acc' (b5, rw2)) as (y & o' & Hy & Hl7 & Hout); [apply Hl6|cbn [fst]; lia|].
  exists y, o'. split; [exact Hy|]. split; [by eapply lively_trans|]. destruct y as [|e]; [done|].
  destruct Hout as (acc1 & o1 & Hl8 & Hfail). exists acc1, o1. split; [by eapply lively_trans|done].
Qed.

End facts.

(** ** Example: a session that is supervised until a stop *)

#[local] Existing Instances disk_stores disk_lawful pipe_stream pipe_lawful pipe_tls pipe_lawful_tls demo_backends demo_pan.

(** A clock, and the number of times the stop flag is still read as unset. *)
Record SupervisedDemo := mkSupervisedDemo { sd_backends : DemoBackends; sd_reads : nat; sd_clock : Z }.

Definition below {A : Type} (m : stres DemoBackends CoreError A) : stres SupervisedDemo CoreError A := fun d =>
  let (x, b) := m (sd_backends d) in (x, mkSupervisedDemo b (sd_reads d) (sd_clock d)).

#[local] Instance sd_host : HostBackends SupervisedDemo := {
  connect_bluez := below connect_bluez;
  connect_network_manager := below connect_network_manager;
  active_ipv4_prefixes_with_interfaces := below active_ipv4_prefixes_with_interfaces;
  addresses := below addresses;
  adapters := below adapters;
  ensure_bridge n i := below (ensure_bridge n i);
  ensure_address a := below (ensure_address a);
  remove_address a := below (remove_address a);
  remove_owned_interface n i := below (remove_owned_interface n i);
  start_nap a i := below (start_nap a i);
  stop_nap a := below (stop_nap a);
  start_network_advertisement a n := below (start_network_advertisement a n);
  stop_network_advertisement d := below (stop_network_advertisement d);
}.
#[local] Instance sd_pan : PanBackends SupervisedDemo := {
  disconnect_matching_panu a := below (disconnect_matching_panu a);
  require_matching_panu a := below (require_matching_panu a);
  active_ipv4_prefixes := below active_ipv4_prefixes;
}.
#[local] Instance sd_outbound : OutboundHost SupervisedDemo pipe := {
  instant_now d := (sd_clock d, d);
  dial _ _ _ _ := st_ret demo_inbound_socket;
  local_ip _ := Ok (lease_ip demo_panu_lease);
}.
(** Parking takes five seconds longer than asked. *)
#[local] Instance sd_supervised : SupervisedHost SupervisedDemo := {
  stop_requested d := match sd_reads d with
    | O => (true, d)
    | S n => (false, mkSupervisedDemo (sd_backends d) n (sd_clock d))
    end;
  park t d := mkSupervisedDemo (sd_backends d) (sd_reads d) (sd_clock d + t + HEARTBEAT_INTERVAL);
  instant_add t d := Some (t + d);
}.
#[local] Instance sd_lawful : LawfulSupervised SupervisedDemo pipe.
Proof.
  refine {| patience := sd_reads |}.
  - intros [b [|n] c]; cbn; split; [done|done|lia|lia].
  - intros [b n c]. cbn. split_and!; [done..|intros []; done|done|done].
Defined.

Definition demo_beat : ControlEnvelope := next_envelope MsgHeartbeat demo_writer.

(** Two ticks; the second sends a heartbeat. *)
Definition demo_supervised : SupervisedDemo := mkSupervisedDemo demo_client_host 7 0.
Definition demo_panu_peer : PinnedControlTlsPeer := mkPinnedPeer (fill_id 1) (fill_id 2) demo_key.
#[local] Instance sd_owned : OwnedSession (ActiveControlSession pipe * disk) :=
  active_owned true (fun _ => Some [0]) (fun _ => Some demo_beat) demo_fuel id.
#[local] Instance sd_lawful_owned : LawfulSession (ActiveControlSession pipe * disk) :=
  active_lawful true (fun _ => Some [0]) (fun _ => Some demo_beat) demo_fuel id.
Definition demo_supervised_owner : SupervisedDemo * (RegisteredControlSession (ActiveControlSession pipe * disk) * SharedRegistry) :=
  match admit_session (demo_open_session, demo_enrolled) (mkShared (mkLock registry_new false) []) with
  | (_, g) => (demo_supervised, (demo_owner, g))
  end.

