(* ===== verification/EnrollmentTransport.v ===== *)
(** Enrolling a first key: [apps/daemon/src/enrollment_transport.rs].

    The candidate was read from an untrusted preface and confirmed by the
    operator; the peer proves the key on a new connection before it is pinned.
    What others do to the trust stores before the approval is checked and before
    the key is pinned is [between] and [during]. *)

From S2P Require Import Prelude Order Ident Capability Membership PeerPins ConnectionDeadline ControlFrame ControlIo Handshake PeerTrust TlsIdentity ActiveSession ControlTls ApprovedTransport.

(** ** The ceremony *)

Section enrollment.
Context {K T S : Type} `{X509} `{RawSocket K} `{TlsStream T} `{TlsStack K T} `{TrustStores S} (pin_store : bool).
Variable to_vec : ControlEnvelope -> option (list Z).
Variable from_slice : list Z -> option ControlEnvelope.
Variable fuel : nat.
Variables between during : S -> S.

Definition authentication_error (m : string) : CoreError := core_error_with_diagnostic AuthenticationFailed m "{detail}".

Definition expired_before_proof : CoreError :=
  core_error AuthenticationFailed "confirmed enrollment deadline expired before TLS proof".
Definition expired_before_enrollment : CoreError :=
  core_error AuthenticationFailed "confirmed enrollment deadline expired before durable key enrollment".

(** The result, what is dropped of the connection, and the stores. *)
Definition enrolling : Type := option (CoreResult bool * Channel K T * S).

(** [verified] and the [match] on it; the stream is closed in every case. *)
Definition enroll_verified_peer (network : NetworkId) (local : LocalControlTlsIdentity) (observed : PinnedControlTlsCertificate)
    (independently_confirmed : SpkiSha256) (local_facts : HelloFacts) (deadline : Z) (stream : T) (s : S) : enrolling :=
  match exchange_authenticated_hello (K := K) to_vec from_slice fuel network local observed local_facts deadline stream with
  | None => None
  | Some (Err _, stream) =>
      Some (Err (authentication_error "confirmed peer TLS Hello exchange failed"), Secure (close_stream stream), s)
  | Some (Ok verified, stream) =>
      let (t, stream) := now stream in
      if (deadline <=? t)%Z then Some (Err expired_before_enrollment, Secure (close_stream stream), s)
      else
        let peer := au_peer verified in
        let (r, s) := enroll_key_inner pin_store (pp_network peer) (pp_node peer) (pp_fingerprint peer) independently_confirmed
          (Some deadline) (during s) in
        Some (r, Secure (close_stream stream), s)
  end.

Definition enroll_confirmed_control_candidate (socket : K) (local : LocalControlTlsIdentity)
    (candidate : ControlTlsCertificateCandidate) (independently_confirmed : SpkiSha256) (local_facts : HelloFacts) (deadline : Z)
    (s : S) : enrolling :=
  let network := cc_network candidate in
  let node := cc_node candidate in
  let (t, socket) := now socket in
  if (deadline <=? t)%Z then Some (Err expired_before_proof, Plain (raw_shutdown socket), s)
  else
    let (approved, s) := require_peer_approved network node (between s) in
    match approved with
    | Err error => Some (Err error, Plain (raw_shutdown socket), s)
    | Ok _ =>
      let (t, socket) := now socket in
      match confirm_fingerprint t independently_confirmed candidate with
      | Err _ => Some (Err (authentication_error "candidate fingerprint does not match independent confirmation"),
          Plain (raw_shutdown socket), s)
      | Ok certificate =>
        match connect_pinned_control_tls fuel local network (peer_pin certificate) deadline socket with
        | None => None
        | Some (Err (_, channel)) => Some (Err (authentication_error "confirmed peer TLS proof failed"), channel, s)
        | Some (Ok (stream, observed)) =>
            enroll_verified_peer network local observed independently_confirmed local_facts deadline stream s
        end
      end
    end.
End enrollment.

(** ** Facts *)

Section facts.
Context {K T S : Type} `{X509} `{LawfulTlsStack K T} `{LawfulTrustStores S} (pin_store : bool).
Variable to_vec : ControlEnvelope -> option (list Z).
Variable from_slice : list Z -> option ControlEnvelope.
Variable fuel : nat.
Variables between during : S -> S.

(** The stores after a key that was proved went to the pin store, given what
    others had made of them: as they were, or with the pin of this one key for a
    peer that is approved.  The call that wrote it may still report a failure. *)
Definition only_this_key (network : NetworkId) (node : NodeId) (confirmed : SpkiSha256) (c c' : MembershipRegistry * PeerKeyPins) : Prop :=
  c'.1 = c.1 /\
  (c'.2 = c.2 \/ c.2 !! (network, node) = None /\ c'.2 = <[(network, node) := confirmed]> c.2 /\ approved_in c network node).

Lemma enroll_new network node p t t' : enroll_verified network node p t = (Ok true, t') ->
  t !! (network, node) = None /\ t' = <[(network, node) := p]> t.
Proof.
  unfold enroll_verified. destruct (zero_identity network node); [done|]. destruct (pin_taken network node p t); [done|].
  destruct (t !! (network, node)) as [old|]; [by case_bool_decide|]. by intros [= <-].
Qed.

Lemma enrolled_only network node confirmed verified c r c' :
  enrolled pin_store network node verified confirmed c r c' ->
  only_this_key network node confirmed c c' /\
  (is_ok r = true -> verified = confirmed /\ approved_in c network node /\ c'.2 !! (network, node) = Some confirmed).
Proof.
  unfold only_this_key. intros [Hreg Hspec].
  assert (enrollable pin_store network node verified confirmed c /\ enroll_verified network node verified c.2 = (Ok true, c'.2) ->
    verified = confirmed /\ approved_in c network node /\ c.2 !! (network, node) = None /\ c'.2 = <[(network, node) := confirmed]> c.2) as Hnew.
  { intros [(_ & Ha & ->) [Hn Heq]%enroll_new]. done. }
  destruct r as [[|]|e].
  - destruct (Hnew Hspec) as (-> & Ha & Hn & Heq). split; [split; [done|by right]|]. intros _. split; [done|]. split; [done|].
    rewrite Heq. apply lookup_insert_eq.
  - destruct Hspec as ((_ & Ha & ->) & Hp & Heq). split; [split; [done|by left]|]. intros _. rewrite Heq. done.
  - split; [|done]. split; [done|]. destruct Hspec as [|Hspec]; [by left|]. destruct (Hnew Hspec) as (_ & Ha & Hn & Heq). by right.
Qed.

(** What was proved before a key was pinned: on the connection made from this
    socket, the handshake and the Hello that followed it on that stream. *)
Definition proved_on (local : LocalControlTlsIdentity) (candidate : ControlTlsCertificateCandidate) (confirmed : SpkiSha256)
    (local_facts : HelloFacts) (deadline : Z) (socket : K) (stream : T) : Prop :=
  let network := cc_network candidate in
  let node := cc_node candidate in
  let dialed := (now (now socket).2).2 in
  confirmed = cc_fingerprint candidate /\
  (exists t, cc_observed_at candidate <= t < cc_observed_at candidate + MAX_ENROLLMENT_CANDIDATE_AGE)%Z /\
  exists opened c k' t1 au,
    connect_pinned_control_tls fuel local network (mkPinnedPeer network node confirmed) deadline dialed = Some (Ok (opened, c)) /\
    pinned_exchange local network [mkPinnedPeer network node confirmed] dialed k' c /\
    exchange_authenticated_hello (K := K) to_vec from_slice fuel network local c local_facts deadline opened = Some (Ok au, t1) /\
    authenticated_on (K := K) to_vec from_slice network local c local_facts deadline opened t1 au /\
    au_peer au = mkPinnedPeer network node confirmed /\
    (exists t, now t1 = (t, stream) /\ (t < deadline)%Z).

Lemma fresh_candidate t fp c p : confirm_fingerprint t fp c = Ok p ->
  (cc_observed_at c <= t < cc_observed_at c + MAX_ENROLLMENT_CANDIDATE_AGE)%Z.
Proof. unfold confirm_fingerprint. intros [Hf%negb_false_iff _]%guard_err_Ok. lia. Qed.

Lemma enroll_verified_total network local observed confirmed facts d (t : T) (s : S) :
  hello_fuel + interrupts t < fuel ->
  exists x, enroll_verified_peer (K := K) pin_store to_vec from_slice fuel during network local observed confirmed facts d t s = Some x.
Proof.
  intros Hf. unfold enroll_verified_peer.
  destruct (hello_total (K := K) to_vec from_slice fuel network local observed facts d t Hf) as [[[au|e] t1] ->]; [|by eexists].
  destruct (now t1) as [n t2]. destruct (d <=? n)%Z; [by eexists|]. destruct (enroll_key_inner _ _ _ _ _ _ _) as [r s1]. by eexists.
Qed.

(** Either the Hello or its deadline failed and the stores were not touched, or
    the peer is authenticated and the key went to the pin store. *)
Lemma enroll_verified_sound network node local k k' observed confirmed facts d (t : T) (s : S) r ch (s' : S) :
  pinned_exchange (K := K) local network [mkPinnedPeer network node confirmed] k k' observed ->
  enroll_verified_peer (K := K) pin_store to_vec from_slice fuel during network local observed confirmed facts d t s = Some (r, ch, s') ->
  (is_ok r = false /\ s' = s) \/
  (only_this_key network node confirmed (content (during s)) (content s') /\
   (is_ok r = true -> approved_in (content (during s)) network node /\ (content s').2 !! (network, node) = Some confirmed) /\
   exists stream t1 au, ch = Secure (close_stream stream) /\
     exchange_authenticated_hello (K := K) to_vec from_slice fuel network local observed facts d t = Some (Ok au, t1) /\
     authenticated_on (K := K) to_vec from_slice network local observed facts d t t1 au /\
     au_peer au = mkPinnedPeer network node confirmed /\ exists n, now t1 = (n, stream) /\ (n < d)%Z).
Proof.
  intros Hx. unfold enroll_verified_peer.
  destruct (exchange_authenticated_hello _ _ _ _ _ _ _ _ t) as [[[au|e] t1]|] eqn:Hh; [|by intros [= <- _ <-]; left|done].
  pose proof (hello_sound _ _ _ _ _ _ _ _ _ _ _ Hh) as Hau.
  destruct (now t1) as [n t2] eqn:Hn. destruct (Z.leb_spec d n); [by intros [= <- _ <-]; left|].
  assert (au_peer au = mkPinnedPeer network node confirmed) as Hpeer.
  { destruct Hau as (Hnet & -> & _). pose proof (pe_allowed _ _ _ _ _ _ Hx) as Hin%list_elem_of_singleton.
    unfold peer_pin in Hin. by rewrite <- Hin, Hnet. }
  rewrite Hpeer. cbn [pp_network pp_node pp_fingerprint].
  destruct (enroll_key_inner _ _ _ _ _ _ _) as [r1 s1] eqn:Hen. intros [= <- <- <-]. right.
  apply enroll_key_inner_spec, enrolled_only in Hen as [Honly Hok]. split; [done|]. split; [intros Hr; by destruct (Hok Hr) as (_ & ? & ?)|].
  exists t2, t1, au. split_and!; [done..|]. by exists n.
Qed.

(** C31. A first key is pinned only after the peer has proved it.  With enough fuel
    the ceremony answers, and one of two things happened.  Either it failed
    without the proof, and left the stores as others had made them.  Or the
    confirmed key is the candidate's, which was observed less than two minutes
    before, and on the new connection the one preface named this node with this
    key, the TLS 1.3 certificate carried it and the Hello was exchanged in the
    connection's own session, all before the deadline; the peer was approved
    before the proof; the stream is closed; and only then, nothing but the pin of
    this one key, for a peer approved at that moment, was added to the stores and
    nothing removed (the write may be reported as failed).  Success is the second
    case with the key pinned. *)
Theorem enrollment_needs_proof (socket : K) (local : LocalControlTlsIdentity) (candidate : ControlTlsCertificateCandidate)
    (confirmed : SpkiSha256) (local_facts : HelloFacts) (deadline : Z) (s : S)
    (Hfuel : session_fuel (T := T) local socket < fuel) :
  let network := cc_network candidate in
  let node := cc_node candidate in
  exists r channel s',
    enroll_confirmed_control_candidate (T := T) pin_store to_vec from_slice fuel between during socket local candidate confirmed
      local_facts deadline s = Some (r, channel, s') /\
    ((is_ok r = false /\ (s' = s \/ content s' = content (between s))) \/
     exists stream s1, channel = Secure (close_stream stream) /\
       proved_on local candidate confirmed local_facts deadline socket stream /\
       content s1 = content (between s) /\ approved_in (content s1) network node /\
       only_this_key network node confirmed (content (during s1)) (content s') /\
       (is_ok r = true -> approved_in (content (during s1)) network node /\
          (content s').2 !! (network, node) = Some confirmed)).
Proof.
  cbv zeta. unfold enroll_confirmed_control_candidate.
  destruct (now socket) as [t0 k0] eqn:Hn0. pose proof (now_law _ _ _ Hn0) as (_ & _ & _ & _ & Hi0).
  destruct (Z.leb_spec deadline t0); [eexists _, _, _; split; [reflexivity|]; left; split; [done|by left]|].
  destruct (require_peer_approved _ _ (between s)) as [[[]|e] s1] eqn:Happ.
  2:{ pose proof (reads_approved (cc_network candidate) (cc_node candidate) (between s)) as Hr. rewrite Happ in Hr.
      eexists _, _, _. split; [reflexivity|]. left. split; [done|by right]. }
  apply require_approved_Ok in Happ as [Ha Hc]. destruct (now k0) as [t1 k1] eqn:Hn1. pose proof (now_law _ _ _ Hn1) as (_ & _ & _ & _ & Hi1).
  destruct (confirm_fingerprint t1 confirmed candidate) as [certificate|e] eqn:Hconf;
    [|eexists _, _, _; split; [reflexivity|]; left; split; [done|by right]].
  apply fresh_candidate in Hconf as Hfresh. apply confirm_Ok in Hconf as (Hfp & -> & _). unfold peer_pin. cbn [pc_network pc_node pc_fingerprint].
  destruct (connect_pinned_total (T := T) fuel local (cc_network candidate) (mkPinnedPeer (cc_network candidate) (cc_node candidate) confirmed)
    deadline k1) as [opened Hopen]; [unfold session_fuel, opening_fuel in *; lia|]. rewrite Hopen.
  destruct opened as [[stream observed]|[e ch]]; [|eexists _, _, _; split; [reflexivity|]; left; split; [done|by right]].
  destruct (connect_pinned_sound _ _ _ _ _ _ _ _ Hopen) as (k' & Hx & Hi).
  destruct (enroll_verified_total (cc_network candidate) local observed confirmed local_facts deadline stream s1) as [[[r ch] s'] Hrun];
    [unfold session_fuel, opening_fuel in *; lia|].
  rewrite Hrun. apply (enroll_verified_sound _ _ _ _ _ _ _ _ _ _ _ _ _ _ Hx) in Hrun.
  exists r, ch, s'. split; [done|]. destruct Hrun as [[Hr ->]|(Honly & Hok & str & t2 & au & -> & Hh & Hau & Hpeer & Htime)];
    [left; split; [done|by right]|right].
  exists str, s1. split; [done|]. split; [|by rewrite Hc].
  split; [done|]. split; [by exists t1|]. rewrite Hn0. cbn [snd]. rewrite Hn1. cbn [snd].
  by exists stream, observed, k', t2, au.
Qed.
End facts.

(** ** Example: the operator confirmed the key of node 3 *)

#[local] Existing Instances disk_stores disk_lawful demo_x509 pipe_stream pipe_lawful pipe_tls pipe_lawful_tls pipe_raw pipe_lawful_raw
  demo_stack demo_lawful_stack.

Definition demo_confirmed : SpkiSha256 := mkSpki (fill_bytes 32 5).
Definition demo_candidate : ControlTlsCertificateCandidate := mkCandidate (fill_id 1) (fill_id 3) [8]%Z demo_confirmed 0.
Definition demo_unpinned : disk := mkDisk (mkRegistry {[ fill_id 1 := demo_inbound_member ]}) ∅ 10 false.

Lemma enrollment_needs_proof_witness :
  exists channel s', enroll_confirmed_control_candidate (T := pipe) true (table_to_vec demo_table) (table_from_slice demo_table)
      demo_inbound_fuel id id demo_inbound_socket demo_inbound_local demo_candidate demo_confirmed (local_facts demo_alice) 1000
      demo_unpinned = Some (Ok true, channel, s') /\ (content s').2 !! (fill_id 1, fill_id 3) = Some demo_confirmed.
Proof.
  destruct (enrollment_needs_proof (T := pipe) true (table_to_vec demo_table) (table_from_slice demo_table) demo_inbound_fuel id id
    demo_inbound_socket demo_inbound_local demo_candidate demo_confirmed (local_facts demo_alice) 1000 demo_unpinned)
    as (r & channel & s' & Hrun & Hout).
  { apply Nat.ltb_lt. vm_compute. reflexivity. }
  pose proof (f_equal (option_map (fun x => x.1.1)) Hrun) as Hr. vm_compute in Hr. injection Hr as Hr. subst r.
  exists channel, s'. split; [exact Hrun|]. destruct Hout as [[Hno _]|(stream & s1 & _ & _ & _ & _ & _ & Hok)]; [discriminate Hno|].
  exact (proj2 (Hok eq_refl)).
Defined.
