(* ===== verification/ControlWorker.v ===== *)
(** The control worker of the daemon: [apps/daemon/src/control_worker.rs].

    The worker owns a listener, its registered sessions and their clocks.  What it
    asks of the daemon and of its thread is the interface [NapOperations]: it is
    implemented at the end by the membership store, the network operations of
    SingleStar and the listener of InboundListener.  Sessions that were dropped
    are kept aside for the theorems. *)

From S2P Require Import Prelude Order Ident Capability Addressing StarHost Membership PeerPins ConnectionDeadline ControlFrame ControlIo Handshake SessionRegistry PeerTrust PinnedIngress TlsIdentity ActiveSession RegisteredSession SingleStar ControlEndpoint ControlListener ControlTls ApprovedTransport InboundListener.

Local Open Scope Z_scope.

Definition POLL_INTERVAL : Z := 250000000.
Definition REBIND_INTERVAL : Z := 2000000000.
Definition MAX_OWNED_SESSIONS : nat := 32.
Definition SESSION_READ_SLICE : Z := 10000000.
Definition HEARTBEAT_INTERVAL : Z := 5000000000.
Definition HEARTBEAT_WRITE_BUDGET : Z := 100000000.
Definition GOODBYE_WRITE_BUDGET : Z := 100000000.
Definition ACTIVE_CLOCK_BASE_MS : Z := 3.
Definition NANOS_PER_MILLI : Z := 1000000.

(** ** The clocks of a session *)

(** [checked_duration_since], whole milliseconds in a [u64], and the base. *)
Definition session_clock_ms (admitted now : Z) : option Z :=
  if now <? admitted then None
  else
    let elapsed := (now - admitted) / NANOS_PER_MILLI in
    if u_ok 64 elapsed then checked_add 64 elapsed ACTIVE_CLOCK_BASE_MS else None.

Definition heartbeat_due (last_sent now : Z) : bool := (last_sent <=? now) && (HEARTBEAT_INTERVAL <=? now - last_sent).

(** Each [expect] holds: the deadline is advanced along its stages. *)
Definition worker_deadline : ConnectionDeadline :=
  let d := deadline_new 0 in
  let d := (advance TlsHandshake 1 d).2 in
  let d := (advance Hello 2 d).2 in
  (advance ConnectionDeadline.Active 3 d).2.

Definition control_setup (software_version : list Z) (network : NetworkId) (capabilities : NodeCapabilities) (now : Z) :
    ApprovedControlSetup :=
  mkSetup network (mkFacts software_version capabilities None []) (now + 5000000000) worker_deadline.

(** ** What the worker needs *)

(** [Li] is the bound listener; [D] the daemon with everything behind it. *)
Class NapOperations (D A Li : Type) `{OwnedSession A} := {
  nap_stop_requested : D -> bool * D;
  nap_park : Z -> D -> D;
  nap_now : D -> Z * D;
  nap_instant_add : Z -> Z -> option Z;
  (** [membership.load().and_then(|saved| current_network(&saved))] *)
  nap_current : stres D CoreError (option NetworkId);
  nap_bind : stres D CoreError (option Li);
  nap_network : Li -> NetworkId;
  nap_supervise : list (RegisteredControlSession A) -> SharedRegistry -> Li * D ->
    option (CoreResult nat * list (RegisteredControlSession A) * list (RegisteredControlSession A) * SharedRegistry * (Li * D));
  (** Under [control_setup] for this network, made now. *)
  nap_poll : NetworkId -> SharedRegistry -> Li * D ->
    option (CoreResult (option (RegisteredControlSession A)) * SharedRegistry * (Li * D));
  nap_drop : Li -> D -> D;
}.

Section worker.
Context {D A Li : Type} `{NapOperations D A Li}.

Abbreviation session := (RegisteredControlSession A).

Record Worker := mkWorker {
  wk_listener : option Li;
  wk_sessions : list session;
  wk_registered_at : gmap (bytes 16) Z;
  wk_heartbeat_sent_at : gmap (bytes 16) Z;
  wk_registry : SharedRegistry;
  wk_daemon : D;
  wk_dropped : list session;
}.

(** [retain] with the sessions that are left. *)
Definition retain_times (l : list session) (m : gmap (bytes 16) Z) : gmap (bytes 16) Z :=
  filter (fun e => existsb (fun r => bool_decide (rs_session_id r = e.1)) l = true) m.

Definition prune (x : Worker) : Worker :=
  mkWorker (wk_listener x) (wk_sessions x) (retain_times (wk_sessions x) (wk_registered_at x))
    (retain_times (wk_sessions x) (wk_heartbeat_sent_at x)) (wk_registry x) (wk_daemon x) (wk_dropped x).

(** [clear] on all three collections. *)
Definition clear (x : Worker) : Worker :=
  let '(gone, g) := drop_sessions (wk_sessions x) (wk_registry x) in
  mkWorker (wk_listener x) [] ∅ ∅ g (wk_daemon x) (wk_dropped x ++ gone).

(** [listener = None]. *)
Definition drop_owner (x : Worker) : Worker :=
  mkWorker None (wk_sessions x) (wk_registered_at x) (wk_heartbeat_sent_at x) (wk_registry x)
    match wk_listener x with Some l => nap_drop (A := A) l (wk_daemon x) | None => wk_daemon x end (wk_dropped x).

Definition with_daemon (d : D) (x : Worker) : Worker :=
  mkWorker (wk_listener x) (wk_sessions x) (wk_registered_at x) (wk_heartbeat_sent_at x) (wk_registry x) d (wk_dropped x).
Definition with_listener (l : Li) (x : Worker) : Worker :=
  mkWorker (Some l) (wk_sessions x) (wk_registered_at x) (wk_heartbeat_sent_at x) (wk_registry x) (wk_daemon x) (wk_dropped x).

Definition parked (t : Z) (x : Worker) : Worker := with_daemon (nap_park (A := A) (Li := Li) t (wk_daemon x)) x.
Definition stop_now (x : Worker) : bool * Worker :=
  let (stop, d) := nap_stop_requested (A := A) (Li := Li) (wk_daemon x) in (stop, with_daemon d x).

(** How an iteration goes on: past a step, with the next one, or out of the loop. *)
Inductive Flow := Proceed | Continue | Break.

(** The bind, for a worker without a listener. *)
Definition bind_listener (x : Worker) : Flow * Worker :=
  let x := clear x in
  let (saved, d) := nap_current (A := A) (Li := Li) (wk_daemon x) in
  let x := with_daemon d x in
  match saved with
  | Ok None | Err _ => (Continue, parked REBIND_INTERVAL x)
  | Ok (Some _) =>
    let (stop, x) := stop_now x in
    if stop : bool then (Break, x)
    else
      let (bound, d) := nap_bind (A := A) (wk_daemon x) in
      let (stop, x) := stop_now (with_daemon d x) in
      if stop : bool then
        (Break, match bound with Ok (Some l) => with_daemon (nap_drop (A := A) l (wk_daemon x)) x | _ => x end)
      else
        match bound with
        | Ok (Some l) =>
          let (saved, d) := nap_current (A := A) (Li := Li) (wk_daemon x) in
          if bool_decide (saved = Ok (Some (nap_network (D := D) (A := A) l)))
          then (Proceed, with_listener l (with_daemon d x))
          else (Continue, parked REBIND_INTERVAL (with_daemon (nap_drop (A := A) l d) x))
        | Ok None | Err _ => (Continue, parked REBIND_INTERVAL x)
        end
  end.

(** *** Serving a session *)

Definition says_goodbye (frames : list ControlEnvelope) : bool := existsb (fun f => bool_decide (message f = MsgGoodbye)) frames.

(** The session, the registry, the daemon and the heartbeat times. *)
Abbreviation served := (option (bool * session * SharedRegistry * D * gmap (bytes 16) Z)).

Definition heartbeat_if_due (r : session) (g : SharedRegistry) (d : D) (beats : gmap (bytes 16) Z) : served :=
  let (now, d) := nap_now (A := A) (Li := Li) d in
  match beats !! rs_session_id r with
  | None => Some (false, r, g, d, beats)
  | Some last_sent =>
    if negb (heartbeat_due last_sent now) then Some (true, r, g, d, beats)
    else
      match nap_instant_add (D := D) (A := A) (Li := Li) now HEARTBEAT_WRITE_BUDGET with
      | None => Some (false, r, g, d, beats)
      | Some deadline =>
        match registered_heartbeat deadline (r, g) with
        | None => None
        | Some (Err _, (r, g)) => Some (false, r, g, d, beats)
        | Some (Ok _, (r, g)) =>
            let (now, d) := nap_now (A := A) (Li := Li) d in Some (true, r, g, d, <[rs_session_id r := now]> beats)
        end
      end
  end.

(** A goodbye is answered at best, then the session goes. *)
Definition answer_goodbye (r : session) (g : SharedRegistry) (d : D) (beats : gmap (bytes 16) Z) : served :=
  let (now, d) := nap_now (A := A) (Li := Li) d in
  match nap_instant_add (D := D) (A := A) (Li := Li) now GOODBYE_WRITE_BUDGET with
  | None => Some (false, r, g, d, beats)
  | Some deadline =>
    match registered_goodbye deadline (r, g) with
    | None => None
    | Some (_, (r, g)) => Some (false, r, g, d, beats)
    end
  end.

(** The closure of [retain_mut]. *)
Definition serve_session (admissions : gmap (bytes 16) Z) (r : session) (g : SharedRegistry) (d : D) (beats : gmap (bytes 16) Z) : served :=
  let (stop, d) := nap_stop_requested (A := A) (Li := Li) d in
  if stop : bool then Some (false, r, g, d, beats)
  else
    match admissions !! rs_session_id r with
    | None => Some (false, r, g, d, beats)
    | Some admitted =>
      let (now, d) := nap_now (A := A) (Li := Li) d in
      match session_clock_ms admitted now with
      | None => Some (false, r, g, d, beats)
      | Some now_ms =>
        match registered_receive now_ms SESSION_READ_SLICE (r, g) with
        | None => None
        | Some (Ok (Frames frames), (r, g)) =>
            if says_goodbye frames then answer_goodbye r g d beats else heartbeat_if_due r g d beats
        | Some (Ok Idle, (r, g)) => heartbeat_if_due r g d beats
        | Some (Ok Closed, (r, g)) | Some (Err _, (r, g)) => Some (false, r, g, d, beats)
        end
      end
    end.

(** [retain_mut]: the sessions kept and dropped. *)
Fixpoint serve_sessions (admissions : gmap (bytes 16) Z) (l : list session) (g : SharedRegistry) (d : D) (beats : gmap (bytes 16) Z) :
    option (list session * list session * SharedRegistry * D * gmap (bytes 16) Z) :=
  match l with
  | [] => Some ([], [], g, d, beats)
  | r :: l =>
    match serve_session admissions r g d beats with
    | None => None
    | Some (true, r, g, d, beats) =>
      match serve_sessions admissions l g d beats with
      | None => None
      | Some (kept, gone, g, d, beats) => Some (r :: kept, gone, g, d, beats)
      end
    | Some (false, r, g, d, beats) =>
      let '(r, g) := cancel (r, g) in
      match serve_sessions admissions l g d beats with
      | None => None
      | Some (kept, gone, g, d, beats) => Some (kept, r :: gone, g, d, beats)
      end
    end
  end.

Definition serve (x : Worker) : option Worker :=
  match serve_sessions (wk_registered_at x) (wk_sessions x) (wk_registry x) (wk_daemon x) (wk_heartbeat_sent_at x) with
  | None => None
  | Some (kept, gone, g, d, beats) =>
      Some (prune (mkWorker (wk_listener x) kept (wk_registered_at x) beats g d (wk_dropped x ++ gone)))
  end.

(** *** Admitting a peer *)

Definition admit_next (owner : Li) (x : Worker) : option Worker :=
  if negb (length (wk_sessions x) <? MAX_OWNED_SESSIONS)%nat then Some x
  else
    let (expected, d) := nap_current (A := A) (Li := Li) (wk_daemon x) in
    match expected with
    | Ok (Some network) =>
      match nap_poll network (wk_registry x) (owner, d) with
      | None => None
      | Some (Ok (Some registered), g, (owner, d)) =>
          let (admitted, d) := nap_now (A := A) (Li := Li) d in
          let id := rs_session_id registered in
          Some (mkWorker (Some owner) (wk_sessions x ++ [registered]) (<[id := admitted]> (wk_registered_at x))
            (<[id := admitted]> (wk_heartbeat_sent_at x)) g d (wk_dropped x))
      | Some (_, g, (owner, d)) =>
          Some (mkWorker (Some owner) (wk_sessions x) (wk_registered_at x) (wk_heartbeat_sent_at x) g d (wk_dropped x))
      end
    | _ => Some (drop_owner (clear (with_daemon d x)))
    end.

(** *** The loop *)

(** The body after the bind, with a listener. *)
Definition with_owner (owner : Li) (x : Worker) : option (Flow * Worker) :=
  match nap_supervise (wk_sessions x) (wk_registry x) (owner, wk_daemon x) with
  | None => None
  | Some (res, kept, gone, g, (owner, d)) =>
    let x := mkWorker (Some owner) kept (wk_registered_at x) (wk_heartbeat_sent_at x) g d (wk_dropped x ++ gone) in
    match res with
    | Err _ => Some (Continue, parked REBIND_INTERVAL (drop_owner (clear x)))
    | Ok _ =>
      let (stop, x) := stop_now x in
      if stop : bool then Some (Break, x)
      else
        match serve (prune x) with
        | None => None
        | Some x =>
          let (stop, x) := stop_now x in
          if stop : bool then Some (Break, x)
          else match admit_next owner x with None => None | Some x => Some (Continue, parked POLL_INTERVAL x) end
        end
    end
  end.

Definition worker_iteration (x : Worker) : option (Flow * Worker) :=
  match wk_listener x with
  | Some owner => with_owner owner x
  | None =>
    let (flow, x) := bind_listener x in
    match flow, wk_listener x with
    | Proceed, Some owner => with_owner owner x
    | _, _ => Some (flow, x)
    end
  end.

(** The locals are dropped. *)
Definition finish (x : Worker) : Worker := drop_owner (clear x).

Fixpoint run_worker (n : nat) (x : Worker) : option Worker :=
  match n with
  | O => None
  | S n =>
    let (stop, x) := stop_now x in
    if stop : bool then Some (finish x)
    else
      match worker_iteration x with
      | None => None
      | Some (Break, x) => Some (finish x)
      | Some (_, x) => run_worker n x
      end
  end.

Definition worker_new (g : SharedRegistry) (d : D) : Worker := mkWorker None [] ∅ ∅ g d [].
End worker.

(** ** What the worker relies on

    The flag is read as unset only a bounded number of times; supervision keeps or
    drops the sessions it is given; a polled session is ready, and of the network
    that was asked for, which is the listener's. *)
Class LawfulNap (D A Li : Type) `{NapOperations D A Li, !LawfulSession A} := {
  nap_patience : D -> nat;
  nap_stop_law (d : D) : (nap_patience (nap_stop_requested (A := A) (Li := Li) d).2 <= nap_patience d)%nat /\
    ((nap_stop_requested (A := A) (Li := Li) d).1 = false -> (nap_patience (nap_stop_requested (A := A) (Li := Li) d).2 < nap_patience d)%nat);
  nap_calm (d : D) : (forall t, (nap_patience (nap_park (A := A) (Li := Li) t d) <= nap_patience d)%nat) /\
    (nap_patience (nap_now (A := A) (Li := Li) d).2 <= nap_patience d)%nat /\
    (nap_patience (nap_current (A := A) (Li := Li) d).2 <= nap_patience d)%nat /\
    (nap_patience (nap_bind (A := A) (Li := Li) d).2 <= nap_patience d)%nat /\
    (forall l, (nap_patience (nap_drop (A := A) (Li := Li) l d) <= nap_patience d)%nat);
  nap_supervise_law (l : list (RegisteredControlSession A)) g (owner : Li) (d : D) : Forall ready_session l ->
    exists res kept gone g' owner' d', nap_supervise l g (owner, d) = Some (res, kept, gone, g', (owner', d')) /\
      nap_network (D := D) (A := A) owner' = nap_network (D := D) (A := A) owner /\ (nap_patience d' <= nap_patience d)%nat /\
      match res with
      | Ok _ => retention (nap_network (D := D) (A := A) owner) l kept gone
      | Err _ => kept = [] /\ session_ids <$> gone = session_ids <$> l /\ Forall closed_session gone
      end;
  nap_poll_law network g (owner : Li) (d : D) :
    exists r g' owner' d', nap_poll (A := A) network g (owner, d) = Some (r, g', (owner', d')) /\
      nap_network (D := D) (A := A) owner' = nap_network (D := D) (A := A) owner /\ (nap_patience d' <= nap_patience d)%nat /\
      match r with
      | Ok (Some s) => network = nap_network (D := D) (A := A) owner /\ session_network s = network /\ ready_session s
      | _ => True
      end;
}.

(** ** Facts *)

(** The clock cannot grant a lifetime: it is the base plus the whole
    milliseconds since the admission, or nothing. *)
Lemma session_clock_exact admitted now ms :
  session_clock_ms admitted now = Some ms <->
  admitted <= now /\ ms = (now - admitted) / NANOS_PER_MILLI + ACTIVE_CLOCK_BASE_MS /\ u_ok 64 ms = true.
Proof.
  unfold session_clock_ms, checked_add, u_ok, ACTIVE_CLOCK_BASE_MS, NANOS_PER_MILLI.
  destruct (Z.ltb_spec now admitted); [split; [done|lia]|].
  assert (0 <= (now - admitted) / 1000000) by (apply Z.div_pos; lia).
  generalize dependent ((now - admitted) / 1000000). intros e He.
  destruct (Z.leb_spec 0 e); [|lia]. cbn [andb].
  destruct (Z.leb_spec e (u_max 64)); [destruct (Z.leb_spec (e + 3) (u_max 64))|]; (split; [intros [= <-] || discriminate|]);
    try (split; [done|]; split; [done|]; apply andb_true_iff; split; lia).
  - by intros (_ & -> & _).
  - intros (_ & -> & [_ Hu]%andb_true_iff). lia.
  - intros (_ & -> & [_ Hu]%andb_true_iff). lia.
Qed.

Lemma worker_deadline_active : worker_deadline = entered ConnectionDeadline.Active 3.
Proof. reflexivity. Qed.

Section facts.
Context {D A Li : Type} `{LawfulNap D A Li}.

Abbreviation session := (RegisteredControlSession A).
Abbreviation worker := (Worker (D := D) (A := A) (Li := Li)).
Abbreviation patience := (nap_patience (D := D) (A := A) (Li := Li)).

Definition of_network (n : NetworkId) (r : session) : Prop := session_network r = n.

(** The worker between two iterations. *)
Record worker_ok (x : worker) : Prop := {
  ok_count : (length (wk_sessions x) <= MAX_OWNED_SESSIONS)%nat;
  ok_ready : Forall ready_session (wk_sessions x);
  ok_network : match wk_listener x with
    | Some l => Forall (of_network (nap_network (D := D) (A := A) l)) (wk_sessions x)
    | None => wk_sessions x = []
    end;
  ok_clocks : Forall (fun r => is_Some (wk_registered_at x !! rs_session_id r) /\ is_Some (wk_heartbeat_sent_at x !! rs_session_id r))
    (wk_sessions x);
  ok_times id : is_Some (wk_registered_at x !! id) \/ is_Some (wk_heartbeat_sent_at x !! id) ->
    exists r, r ∈ wk_sessions x /\ rs_session_id r = id;
  ok_dropped : Forall closed_session (wk_dropped x);
}.

(** Every session the worker has owned. *)
Definition roster (x : worker) : list (PeerSessionKey * bytes 16) := session_ids <$> (wk_sessions x ++ wk_dropped x).

Lemma roster_moves (kept gone l dropped : list session) :
  session_ids <$> (kept ++ gone) ≡ₚ session_ids <$> l ->
  session_ids <$> (kept ++ dropped ++ gone) ≡ₚ session_ids <$> (l ++ dropped).
Proof. rewrite !fmap_app. intros Hp. rewrite <- Hp. solve_Permutation. Qed.

(** What depends only on who the sessions are. *)
Lemma Forall_ids (P : PeerSessionKey * bytes 16 -> Prop) (kept l : list session) :
  (forall i, i ∈ session_ids <$> kept -> i ∈ session_ids <$> l) ->
  Forall (fun r => P (session_ids r)) l -> Forall (fun r => P (session_ids r)) kept.
Proof.
  rewrite !Forall_forall. intros Hin Hl r Hr. destruct (proj1 (list_elem_of_fmap _ _ _) (Hin _ (list_elem_of_fmap_2 _ _ _ Hr))) as (r0 & -> & Hr0).
  by apply Hl.
Qed.

Lemma clear_spec (x : worker) :
  Forall closed_session (wk_dropped x) ->
  wk_listener (clear x) = wk_listener x /\ wk_daemon (clear x) = wk_daemon x /\ wk_sessions (clear x) = [] /\
  wk_registered_at (clear x) = ∅ /\ wk_heartbeat_sent_at (clear x) = ∅ /\ Forall closed_session (wk_dropped (clear x)) /\
  roster (clear x) ≡ₚ roster x.
Proof.
  intros Hd. unfold clear. destruct (drop_sessions (wk_sessions x) (wk_registry x)) as [gone g] eqn:Hdrop.
  apply drop_sessions_spec in Hdrop as [Hids Hclosed]. cbn. split_and!; [done..| |].
  - by apply Forall_app.
  - unfold roster. cbn. rewrite !fmap_app, Hids. solve_Permutation.
Qed.

(** A worker without sessions. *)
Definition vacant (x : worker) : Prop :=
  wk_sessions x = [] /\ wk_registered_at x = ∅ /\ wk_heartbeat_sent_at x = ∅ /\ Forall closed_session (wk_dropped x).
Lemma vacant_ok (x : worker) : vacant x -> worker_ok x.
Proof.
  intros (Hs & Hr & Hb & Hd). split; rewrite ?Hs, ?Hr, ?Hb; try done.
  - cbn. lia.
  - by destruct (wk_listener x).
  - intros id [[? Hx]|[? Hx]]; by rewrite lookup_empty in Hx.
Qed.

(** [x'] follows [x] with the same sessions, and no more patience. *)
Definition follows (x x' : worker) : Prop := roster x' ≡ₚ roster x /\ (patience (wk_daemon x') <= patience (wk_daemon x))%nat.
#[local] Instance follows_trans : Transitive follows.
Proof. intros x y z [R1 P1] [R2 P2]. split; [by rewrite R2|lia]. Qed.
#[local] Instance follows_refl : Reflexive follows.
Proof. by split. Qed.

Lemma clear_follows (x : worker) : Forall closed_session (wk_dropped x) -> follows x (clear x) /\ vacant (clear x).
Proof. intros (_ & Hdm & Hs & Hr & Hb & Hc & Hro)%clear_spec. split; [split; [done|by rewrite Hdm]|done]. Qed.

Lemma daemon_follows (d : D) (x : worker) : (patience d <= patience (wk_daemon x))%nat -> follows x (with_daemon d x).
Proof. by split. Qed.

Lemma parked_follows t (x : worker) : follows x (parked t x).
Proof. apply daemon_follows, nap_calm. Qed.

Lemma stop_follows (x : worker) : let '(stop, x') := stop_now x in
  follows x x' /\ x' = with_daemon (wk_daemon x') x /\ (stop = false -> (patience (wk_daemon x') < patience (wk_daemon x))%nat).
Proof.
  unfold stop_now. destruct (nap_stop_law (A := A) (Li := Li) (wk_daemon x)) as [Hp Hf].
  destruct (nap_stop_requested (wk_daemon x)) as [stop d]. split; [by apply daemon_follows|]. by split.
Qed.

Lemma drop_owner_follows (x : worker) : follows x (drop_owner x).
Proof. split; [done|]. unfold drop_owner. cbn. destruct (wk_listener x) as [l|]; [|done]. apply nap_calm. Qed.

Lemma bind_follows (x : worker) : Forall closed_session (wk_dropped x) ->
  let '(flow, x') := bind_listener x in follows x x' /\ vacant x' /\ (flow = Proceed -> wk_listener x' <> None).
Proof.
  intros Hd. unfold bind_listener. destruct (clear_follows x Hd) as [Hf Hvac]. set (c := clear x) in *. clearbody c.
  pose proof (nap_calm (A := A) (Li := Li) (wk_daemon c)) as (_ & _ & Hcur & _).
  destruct (nap_current (wk_daemon c)) as [saved d1]. cbn [snd] in Hcur.
  assert (follows x (with_daemon d1 c)) as Hf1 by (etrans; [exact Hf|by apply daemon_follows]).
  assert (vacant (with_daemon d1 c)) as He1 by exact Hvac.
  set (c1 := with_daemon d1 c) in *. clearbody c1. clear Hcur Hf Hvac.
  assert (forall y, follows x y -> vacant y -> follows x (parked REBIND_INTERVAL y) /\ vacant (parked REBIND_INTERVAL y) /\
    (Continue = Proceed -> wk_listener (parked REBIND_INTERVAL y) <> None)) as Hpark.
  { intros y Hy Hey. split; [etrans; [exact Hy|apply parked_follows]|]. done. }
  destruct saved as [[network|]|e]; [|by apply Hpark|by apply Hpark].
  pose proof (stop_follows c1) as Hs. destruct (stop_now c1) as [stop c2]. destruct Hs as (Hs & Hc2 & _).
  assert (vacant c2) as He2 by (by rewrite Hc2). assert (follows x c2) as Hf2 by (by etrans). destruct stop; [done|].
  pose proof (nap_calm (A := A) (Li := Li) (wk_daemon c2)) as (_ & _ & _ & Hb & _).
  destruct (nap_bind (wk_daemon c2)) as [bound d3]. cbn [snd] in Hb.
  assert (follows x (with_daemon d3 c2)) as Hf3 by (etrans; [exact Hf2|by apply daemon_follows]).
  assert (vacant (with_daemon d3 c2)) as He3 by exact He2.
  set (c3 := with_daemon d3 c2) in *. clearbody c3. pose proof (stop_follows c3) as Hs4. destruct (stop_now c3) as [stop c4].
  destruct Hs4 as (Hs4 & Hc4 & _). assert (vacant c4) as He4 by (by rewrite Hc4). assert (follows x c4) as Hf4 by (by etrans).
  assert (forall l d, (patience d <= patience (wk_daemon c4))%nat ->
    follows x (with_daemon (nap_drop (A := A) l d) c4) /\ vacant (with_daemon (nap_drop (A := A) l d) c4)) as Hdrop.
  { intros l d Hp. split; [|exact He4]. etrans; [exact Hf4|]. apply daemon_follows. etrans; [apply nap_calm|exact Hp]. }
  destruct stop.
  { destruct bound as [[l|]|e]; [|done..]. by destruct (Hdrop l (wk_daemon c4)). }
  destruct bound as [[l|]|e]; [|by apply Hpark..].
  pose proof (nap_calm (A := A) (Li := Li) (wk_daemon c4)) as (_ & _ & Hcur & _).
  destruct (nap_current (wk_daemon c4)) as [saved d5]. cbn [snd] in Hcur. case_bool_decide; [|by apply Hpark; apply Hdrop].
  split; [|done]. etrans; [exact Hf4|]. by split.
Qed.

(** *** Serving *)

Lemma owned_op {X : Type} (m : io A ControlSessionError X) over recheck (r : session) g :
  checks recheck -> (exists x a, m (rs_session r) = Some (x, a) /\ os_ready a) ->
  exists x r' g', supervised m over recheck (r, g) = Some (x, (r', g')) /\ ready_session r' /\ session_ids r' = session_ids r.
Proof.
  intros Hc (x0 & a & Hm & Ha). destruct (supervised_spec m over recheck r g Hc) as (x & r' & g' & Hrun & Hk & Hid & Hres);
    [by exists x0, a|].
  exists x, r', g'. split; [done|]. unfold session_ids. rewrite Hk, Hid. split; [|done]. unfold ready_session.
  destruct x as [v|e]; [|apply Hres]. destruct Hres as (_ & Hres). destruct (over v).
  - destruct Hres as (a' & _ & Hl & _). apply Hl.
  - destruct Hres as (Hm' & _). rewrite Hm in Hm'. by injection Hm' as _ <-.
Qed.

Definition has_time (m : gmap (bytes 16) Z) (r : session) : Prop := is_Some (m !! rs_session_id r).

(** What serving one session gives: whether it is kept, and only its heartbeat
    time is renewed. *)
Definition slot_outcome (r : session) (d : D) (beats : gmap (bytes 16) Z) (keep : bool) (r' : session) (d' : D)
    (beats' : gmap (bytes 16) Z) : Prop :=
  ready_session r' /\ session_ids r' = session_ids r /\ (patience d' <= patience d)%nat /\
  (forall id, is_Some (beats' !! id) <-> is_Some (beats !! id)) /\ (keep = true -> has_time beats r).

Lemma now_calm_nap (d : D) : (patience (nap_now (A := A) (Li := Li) d).2 <= patience d)%nat.
Proof. apply nap_calm. Qed.

Lemma heartbeat_if_due_spec (r : session) g d beats : ready_session r ->
  exists keep r' g' d' beats', heartbeat_if_due (Li := Li) r g d beats = Some (keep, r', g', d', beats') /\ slot_outcome r d beats keep r' d' beats'.
Proof.
  intros Hr. unfold heartbeat_if_due. pose proof (now_calm_nap d) as Hp. destruct (nap_now d) as [t d1]. cbn [snd] in Hp.
  destruct (beats !! rs_session_id r) as [last|] eqn:Hlast; [|eexists _, _, _, _, _; split; [reflexivity|by split]].
  assert (has_time beats r) as Htime by (by exists last).
  destruct (heartbeat_due last t); cbn [negb]; [|eexists _, _, _, _, _; split; [reflexivity|by split]].
  destruct (nap_instant_add t HEARTBEAT_WRITE_BUDGET) as [deadline|]; [|eexists _, _, _, _, _; split; [reflexivity|by split]].
  destruct (owned_op (os_heartbeat deadline) (fun _ => false) ensure_active_registration r g ensure_active_checks)
    as (x & r' & g' & Hx & Hr' & Hid); [destruct (heartbeat_law (rs_session r) deadline Hr) as (x & a & Hx & Ha); by exists x, a|].
  unfold registered_heartbeat. rewrite Hx. destruct x as [u|e]; [|eexists _, _, _, _, _; split; [reflexivity|by split]].
  pose proof (now_calm_nap d1) as Hp1. destruct (nap_now d1) as [t1 d2]. cbn [snd] in Hp1.
  eexists _, _, _, _, _. split; [reflexivity|]. split; [done|]. split; [done|]. split; [lia|]. split; [|done].
  intros id. injection Hid as _ Hid. rewrite Hid. destruct (decide (id = rs_session_id r)) as [->|Hne].
  - rewrite lookup_insert_eq, Hlast. split; by eexists.
  - by rewrite lookup_insert_ne.
Qed.

Lemma answer_goodbye_spec (r : session) g d beats : ready_session r ->
  exists r' g' d', answer_goodbye (Li := Li) r g d beats = Some (false, r', g', d', beats) /\ slot_outcome r d beats false r' d' beats.
Proof.
  intros Hr. unfold answer_goodbye. pose proof (now_calm_nap d) as Hp. destruct (nap_now d) as [t d1]. cbn [snd] in Hp.
  destruct (nap_instant_add t GOODBYE_WRITE_BUDGET) as [deadline|]; [|eexists _, _, _; split; [reflexivity|by split]].
  destruct (owned_op (os_goodbye deadline) (fun _ => false) ensure_current_registration r g ensure_current_checks)
    as (x & r' & g' & Hx & Hr' & Hid); [destruct (goodbye_law (rs_session r) deadline Hr) as (x & a & Hx & Ha); by exists x, a|].
  unfold registered_goodbye. rewrite Hx. eexists _, _, _. split; [reflexivity|by split].
Qed.

Lemma slot_carries (r r1 r2 : session) d d1 d2 beats keep beats' :
  session_ids r1 = session_ids r -> (patience d1 <= patience d)%nat -> slot_outcome r1 d1 beats keep r2 d2 beats' ->
  slot_outcome r d beats keep r2 d2 beats'.
Proof.
  intros Hid Hp (Hr & Hid2 & Hp2 & Hb & Hk). split; [done|]. split; [congruence|]. split; [lia|]. split; [done|].
  intros Hkeep. specialize (Hk Hkeep). unfold has_time in *. injection Hid as _ Hid. by rewrite Hid in Hk.
Qed.

Lemma serve_session_spec admissions (r : session) g d beats : ready_session r ->
  exists keep r' g' d' beats', serve_session (Li := Li) admissions r g d beats = Some (keep, r', g', d', beats') /\
    slot_outcome r d beats keep r' d' beats' /\ (keep = true -> has_time admissions r).
Proof.
  intros Hr. unfold serve_session. destruct (nap_stop_law (A := A) (Li := Li) d) as [Hp _].
  destruct (nap_stop_requested d) as [stop d1]. cbn [fst snd] in Hp.
  destruct stop; [eexists _, _, _, _, _; split; [reflexivity|by split]|].
  destruct (admissions !! rs_session_id r) as [admitted|] eqn:Hadm; [|eexists _, _, _, _, _; split; [reflexivity|by split]].
  assert (has_time admissions r) as Htime by (by exists admitted).
  pose proof (now_calm_nap d1) as Hp1. destruct (nap_now d1) as [t d2]. cbn [snd] in Hp1.
  destruct (session_clock_ms admitted t) as [now_ms|].
  2:{ eexists _, _, _, _, _. split; [reflexivity|]. split; [|done]. split; [done|]. split; [done|]. split; [lia|done]. }
  destruct (owned_op (os_receive now_ms SESSION_READ_SLICE) read_over ensure_active_registration r g ensure_active_checks)
    as (x & r1 & g1 & Hx & Hr1 & Hid); [destruct (receive_law (rs_session r) now_ms SESSION_READ_SLICE Hr) as (x & a & Hx & Ha); by exists x, a|].
  unfold registered_receive. rewrite Hx.
  assert (exists keep r' g' d' beats', heartbeat_if_due (Li := Li) r1 g1 d2 beats = Some (keep, r', g', d', beats') /\
    slot_outcome r d beats keep r' d' beats' /\ (keep = true -> has_time admissions r)) as Hbeat.
  { destruct (heartbeat_if_due_spec r1 g1 d2 beats Hr1) as (keep & r' & g' & d' & beats' & Hrun & Hout).
    exists keep, r', g', d', beats'. split; [done|]. split; [|done]. eapply slot_carries; [exact Hid| |exact Hout]. lia. }
  assert (exists keep r' g' d' beats', Some (false, r1, g1, d2, beats) = Some (keep, r', g', d', beats') /\
    slot_outcome r d beats keep r' d' beats' /\ (keep = true -> has_time admissions r)) as Hgone.
  { eexists _, _, _, _, _. split; [reflexivity|]. split; [|done]. split; [done|]. split; [done|]. split; [lia|done]. }
  destruct x as [[frames| |]|e]; [|exact Hbeat|exact Hgone|exact Hgone]. destruct (says_goodbye frames); [|exact Hbeat].
  destruct (answer_goodbye_spec r1 g1 d2 beats Hr1) as (r' & g' & d' & Hrun & Hout).
  exists false, r', g', d', beats. split; [exact Hrun|]. split; [|done]. eapply slot_carries; [exact Hid| |exact Hout]. lia.
Qed.

Lemma serve_sessions_spec admissions : forall (l : list session) g d beats, Forall ready_session l ->
  exists kept gone g' d' beats', serve_sessions (Li := Li) admissions l g d beats = Some (kept, gone, g', d', beats') /\
    (patience d' <= patience d)%nat /\ session_ids <$> (kept ++ gone) ≡ₚ session_ids <$> l /\ (length kept <= length l)%nat /\
    Forall ready_session kept /\ Forall closed_session gone /\
    Forall (fun r => has_time admissions r /\ has_time beats r) kept /\ (forall id, is_Some (beats' !! id) <-> is_Some (beats !! id)).
Proof.
  induction l as [|r l IH]; intros g d beats Hl; cbn [serve_sessions].
  { exists [], [], g, d, beats. by split_and!. }
  apply Forall_cons in Hl as [Hr Hl].
  destruct (serve_session_spec admissions r g d beats Hr) as (keep & r1 & g1 & d1 & beats1 & -> & (Hr1 & Hid & Hp & Hb & Hk) & Hka).
  assert (forall (kept : list session), Forall (fun r => has_time admissions r /\ has_time beats1 r) kept ->
    Forall (fun r => has_time admissions r /\ has_time beats r) kept) as Hold.
  { intros kept Hkept. eapply Forall_impl; [exact Hkept|]. cbn. intros x [Hx1 Hx2]. split; [done|]. by apply Hb. }
  destruct keep.
  - destruct (IH g1 d1 beats1 Hl) as (kept & gone & g2 & d2 & beats2 & -> & Hp2 & Hperm & Hlen & Hrk & Hcg & Htk & Hb2).
    exists (r1 :: kept), gone, g2, d2, beats2. split; [done|]. split; [lia|]. cbn [fmap list_fmap app length]. split.
    { rewrite Hid. by apply Permutation_cons. }
    split; [lia|]. split; [by constructor|]. split; [done|]. split; [|intros id; by rewrite Hb2].
    constructor; [|by apply Hold]. unfold has_time in *. injection Hid as _ ->. split; [by apply Hka|by apply Hk].
  - destruct (cancel (r1, g1)) as [r2 g2] eqn:Hc. destruct (cancel_closes _ _ _ _ Hc) as (Hid2 & (Ht & Hs & _) & _).
    destruct (IH g2 d1 beats1 Hl) as (kept & gone & g3 & d3 & beats3 & -> & Hp3 & Hperm & Hlen & Hrk & Hcg & Htk & Hb3).
    exists kept, (r2 :: gone), g3, d3, beats3. split; [done|]. split; [lia|]. split.
    { rewrite fmap_app in *. cbn [fmap list_fmap]. rewrite Hid2, Hid, <- Permutation_middle. by apply Permutation_cons. }
    split; [cbn; lia|]. split; [done|]. split; [by constructor|]. split; [by apply Hold|]. intros id. by rewrite Hb3.
Qed.

(** *** One iteration *)

(** [worker_ok] without the times that have no session. *)
Definition unpruned (x : worker) : Prop :=
  (length (wk_sessions x) <= MAX_OWNED_SESSIONS)%nat /\ Forall ready_session (wk_sessions x) /\
  match wk_listener x with
  | Some l => Forall (of_network (nap_network (D := D) (A := A) l)) (wk_sessions x)
  | None => wk_sessions x = []
  end /\
  Forall (fun r => has_time (wk_registered_at x) r /\ has_time (wk_heartbeat_sent_at x) r) (wk_sessions x) /\
  Forall closed_session (wk_dropped x).

Lemma ok_unpruned (x : worker) : worker_ok x -> unpruned x.
Proof. by intros [? ? ? ? _ ?]. Qed.

Lemma retain_times_Some (l : list session) m id :
  is_Some (retain_times l m !! id) <-> is_Some (m !! id) /\ exists r, r ∈ l /\ rs_session_id r = id.
Proof.
  unfold retain_times. split.
  - intros [v Hv]. apply map_lookup_filter_Some in Hv as [Hv Hex]. cbn [fst] in Hex. split; [by exists v|].
    apply existsb_exists in Hex as (r & Hin & Hid). exists r. by rewrite list_elem_of_In, <- (bool_decide_eq_true (rs_session_id r = id)).
  - intros [[v Hv] (r & Hin & Hid)]. exists v. apply map_lookup_filter_Some. split; [done|]. apply existsb_exists. exists r.
    split; [by apply list_elem_of_In|]. by apply bool_decide_eq_true.
Qed.

Lemma prune_ok (x : worker) : unpruned x -> worker_ok (prune x).
Proof.
  intros (Hc & Hr & Hn & Ht & Hd). split; cbn; try done.
  - apply Forall_forall. intros r Hin. rewrite Forall_forall in Ht. destruct (Ht r Hin) as [H1' H2'].
    split; (apply retain_times_Some; split; [done|by exists r]).
  - intros id [Hx|Hx]; by apply retain_times_Some in Hx as [_ Hx].
Qed.
Lemma prune_follows (x : worker) : follows x (prune x).
Proof. by split. Qed.

Lemma serve_ok (x : worker) : worker_ok x ->
  exists x', serve x = Some x' /\ worker_ok x' /\ follows x x' /\ wk_listener x' = wk_listener x.
Proof.
  intros [Hc Hr Hn Ht _ Hd]. unfold serve.
  destruct (serve_sessions_spec (wk_registered_at x) (wk_sessions x) (wk_registry x) (wk_daemon x) (wk_heartbeat_sent_at x) Hr)
    as (kept & gone & g & d & beats & -> & Hp & Hperm & Hlen & Hrk & Hcg & Htk & Hb).
  eexists. split; [reflexivity|]. split; [|split; [|done]].
  - apply prune_ok. split; [cbn; lia|]. cbn. split; [done|]. split; [|split; [|by apply Forall_app]].
    + assert (forall i, i ∈ session_ids <$> kept -> i ∈ session_ids <$> wk_sessions x) as Hsub.
      { intros i Hi. rewrite <- Hperm, fmap_app. by apply elem_of_app; left. }
      destruct (wk_listener x) as [l|].
      * by apply (Forall_ids (fun i => k_network i.1 = nap_network (D := D) (A := A) l) _ _ Hsub).
      * rewrite Hn in *. cbn in Hlen. by destruct kept; [|cbn in Hlen; lia].
    + eapply Forall_impl; [exact Htk|]. intros r [Ha Hbt]. split; [done|]. by apply Hb.
  - split; [|done]. unfold roster. cbn. by apply roster_moves.
Qed.

(** One more session at most, and no more patience. *)
Definition grows (x x' : worker) : Prop := (patience (wk_daemon x') <= patience (wk_daemon x))%nat /\
  exists new, (length new <= 1)%nat /\ roster x' ≡ₚ new ++ roster x.
Lemma follows_grows (x y z : worker) : follows x y -> grows y z -> grows x z.
Proof. intros [R P] [P' (new & Hn & R')]. split; [lia|]. exists new. split; [done|]. by rewrite R', R. Qed.
Lemma grows_follows (x y z : worker) : grows x y -> follows y z -> grows x z.
Proof. intros [P' (new & Hn & R')] [R P]. split; [lia|]. exists new. split; [done|]. by rewrite R, R'. Qed.
Lemma follows_grow (x y : worker) : follows x y -> grows x y.
Proof. intros [R P]. split; [done|]. exists []. split; [cbn; lia|done]. Qed.

Lemma admitted_ok (x : worker) owner (r : session) g t d : worker_ok x -> (length (wk_sessions x) < MAX_OWNED_SESSIONS)%nat ->
  Forall (of_network (nap_network (D := D) (A := A) owner)) (wk_sessions x) -> ready_session r ->
  session_network r = nap_network (D := D) (A := A) owner ->
  worker_ok (mkWorker (Some owner) (wk_sessions x ++ [r]) (<[rs_session_id r := t]> (wk_registered_at x))
    (<[rs_session_id r := t]> (wk_heartbeat_sent_at x)) g d (wk_dropped x)).
Proof.
  intros [Hc Hr _ Ht Htimes Hd] Hlen Hn Hready Hnr. split; cbn.
  - rewrite length_app. cbn. lia.
  - apply Forall_app. split; [done|]. by constructor.
  - apply Forall_app. split; [done|]. by constructor.
  - apply Forall_app. split.
    + eapply Forall_impl; [exact Ht|]. cbn. intros r0 [H1' H2']. split; apply lookup_insert_is_Some'; by right.
    + constructor; [|done]. split; apply lookup_insert_is_Some'; by left.
  - intros id Hx. assert (rs_session_id r = id \/ (is_Some (wk_registered_at x !! id) \/ is_Some (wk_heartbeat_sent_at x !! id))) as [Hid|Ho].
    { destruct Hx as [Hx|Hx]; apply lookup_insert_is_Some' in Hx as [Hx|Hx]; tauto. }
    + exists r. split; [|done]. apply elem_of_app. right. by apply list_elem_of_singleton.
    + destruct (Htimes id Ho) as (r0 & Hin & Hid). exists r0. split; [|done]. apply elem_of_app. by left.
  - done.
Qed.

Lemma admit_next_ok (owner : Li) (x : worker) : worker_ok x -> wk_listener x = Some owner ->
  exists x', admit_next owner x = Some x' /\ worker_ok x' /\ grows x x'.
Proof.
  intros Hok Hl. unfold admit_next. destruct (Nat.ltb_spec (length (wk_sessions x)) MAX_OWNED_SESSIONS) as [Hlt|]; cbn [negb].
  2:{ exists x. split; [done|]. split; [done|]. by apply follows_grow. }
  pose proof (nap_calm (A := A) (Li := Li) (wk_daemon x)) as (_ & _ & Hcur & _).
  destruct (nap_current (wk_daemon x)) as [expected d]. cbn [snd] in Hcur.
  assert (follows x (with_daemon d x)) as Hf by (by apply daemon_follows).
  assert (follows x (drop_owner (clear (with_daemon d x))) /\ worker_ok (drop_owner (clear (with_daemon d x)))) as [Hfd Hokd].
  { destruct (clear_follows (with_daemon d x) (ok_dropped x Hok)) as [Hcf Hv].
    split; [etrans; [exact Hf|]; etrans; [exact Hcf|apply drop_owner_follows]|]. apply vacant_ok. exact Hv. }
  destruct expected as [[network|]|e]; [|eexists; split; [reflexivity|]; split; [done|by apply follows_grow]..].
  destruct (nap_poll_law network (wk_registry x) owner d) as (r & g & owner' & d1 & -> & Hnet & Hp & Hres).
  pose proof (ok_network x Hok) as Hn. rewrite Hl in Hn.
  assert (worker_ok (mkWorker (Some owner') (wk_sessions x) (wk_registered_at x) (wk_heartbeat_sent_at x) g d1 (wk_dropped x)) /\
    grows x (mkWorker (Some owner') (wk_sessions x) (wk_registered_at x) (wk_heartbeat_sent_at x) g d1 (wk_dropped x))) as Hsame.
  { split; [|apply follows_grow; split; [done|cbn; lia]]. destruct Hok as [Hc Hr _ Ht Htimes Hd]. split; cbn; try done. by rewrite Hnet. }
  destruct r as [[registered|]|e]; [|eexists; split; [reflexivity|exact Hsame]..].
  destruct Hres as (-> & Hsn & Hready). pose proof (now_calm_nap d1) as Hp1. destruct (nap_now d1) as [t d2]. cbn [snd] in Hp1.
  eexists. split; [reflexivity|]. split; [apply admitted_ok; rewrite ?Hnet; done|].
  split; [cbn; lia|]. exists [session_ids registered]. split; [done|]. unfold roster. cbn.
  rewrite !fmap_app, <- app_assoc. symmetry. apply Permutation_middle.
Qed.

Lemma revalidated_ready (r0 r : session) : ready_session r0 -> revalidated r0 r -> ready_session r.
Proof.
  intros Hr [_ Hv]. destruct (revalidate_law (rs_session r0) Hr) as (x & a & Hx & Ha). rewrite Hv in Hx. by injection Hx as _ <-.
Qed.

Lemma supervised_unpruned (x : worker) owner owner' kept gone g d : worker_ok x -> wk_listener x = Some owner ->
  nap_network (D := D) (A := A) owner' = nap_network (D := D) (A := A) owner ->
  retention (nap_network (D := D) (A := A) owner) (wk_sessions x) kept gone ->
  unpruned (mkWorker (Some owner') kept (wk_registered_at x) (wk_heartbeat_sent_at x) g d (wk_dropped x ++ gone)).
Proof.
  intros [Hc Hr _ Ht _ Hd] Hl Hnet (Hperm & _ & Hk & Hg). split; cbn.
  { apply Permutation_length in Hperm. rewrite !length_fmap, length_app in Hperm. lia. }
  split.
  { eapply Forall_impl; [exact Hk|]. intros r (_ & r0 & Hin & Hv). rewrite Forall_forall in Hr. by eapply revalidated_ready; [apply Hr|]. }
  split; [eapply Forall_impl; [exact Hk|]; intros r [Hn _]; by rewrite Hnet|]. split; [|by apply Forall_app].
  apply (Forall_ids (fun i => is_Some (wk_registered_at x !! i.2) /\ is_Some (wk_heartbeat_sent_at x !! i.2)) _ (wk_sessions x)); [|exact Ht].
  intros i Hi. rewrite <- Hperm, fmap_app. by apply elem_of_app; left.
Qed.

(** The worker goes on as it should, or leaves the loop. *)
Definition goes_on (x : worker) (flow : Flow) (x' : worker) : Prop :=
  grows x x' /\ Forall closed_session (wk_dropped x') /\ (flow = Break \/ worker_ok x').

Lemma stop_unpruned (x : worker) : unpruned x -> let '(_, x') := stop_now x in unpruned x' /\ wk_listener x' = wk_listener x.
Proof. intros Hu. pose proof (stop_follows x) as Hs. destruct (stop_now x) as [stop x']. destruct Hs as (_ & -> & _). done. Qed.
Lemma stop_ok (x : worker) : worker_ok x -> let '(_, x') := stop_now x in worker_ok x' /\ wk_listener x' = wk_listener x.
Proof.
  intros [? ? ? ? ? ?]. pose proof (stop_follows x) as Hs. destruct (stop_now x) as [stop x']. destruct Hs as (_ & -> & _).
  split; [|done]. by split.
Qed.

Lemma with_owner_spec (owner : Li) (x : worker) : worker_ok x -> wk_listener x = Some owner ->
  exists flow x', with_owner owner x = Some (flow, x') /\ goes_on x flow x'.
Proof.
  intros Hok Hl. unfold with_owner.
  destruct (nap_supervise_law (wk_sessions x) (wk_registry x) owner (wk_daemon x) (ok_ready x Hok))
    as (res & kept & gone & g & owner' & d & -> & Hnet & Hp & Hres).
  set (x1 := mkWorker (Some owner') kept (wk_registered_at x) (wk_heartbeat_sent_at x) g d (wk_dropped x ++ gone)).
  destruct res as [k|e].
  2:{ destruct Hres as (-> & Hids & Hclosed).
      assert (Forall closed_session (wk_dropped x1)) as Hd1 by (apply Forall_app; split; [apply Hok|done]).
      assert (follows x x1) as Hf1 by (split; [|done]; apply (roster_moves [] gone); cbn [app]; by rewrite Hids).
      destruct (clear_follows x1 Hd1) as [Hfc Hv].
      eexists _, _. split; [reflexivity|]. split; [apply follows_grow; etrans; [exact Hf1|]; etrans; [exact Hfc|]; etrans; [apply drop_owner_follows|apply parked_follows]|].
      split; [apply Hv|]. right. apply vacant_ok. exact Hv. }
  pose proof (supervised_unpruned x owner owner' kept gone g d Hok Hl Hnet Hres) as Hu. fold x1 in Hu.
  assert (follows x x1) as Hf1 by (split; [|done]; apply roster_moves, Hres). assert (wk_listener x1 = Some owner') as Hl1 by done.
  clearbody x1. pose proof (stop_follows x1) as Hs. pose proof (stop_unpruned x1 Hu) as Hsu. destruct (stop_now x1) as [stop x2].
  destruct Hs as (Hf2 & _ & _), Hsu as [Hu2 Hl2]. assert (follows x x2) as Hf02 by (by etrans).
  destruct stop; [eexists _, _; split; [reflexivity|]; split; [by apply follows_grow|]; split; [apply Hu2|by left]|].
  destruct (serve_ok (prune x2) (prune_ok x2 Hu2)) as (x3 & -> & Hok3 & Hf3 & Hl3).
  assert (follows x x3) as Hf03 by (etrans; [exact Hf02|]; etrans; [apply prune_follows|exact Hf3]).
  pose proof (stop_follows x3) as Hs4. pose proof (stop_ok x3 Hok3) as Hs4k. destruct (stop_now x3) as [stop x4].
  destruct Hs4 as (Hf4 & _ & _), Hs4k as [Hok4 Hl4]. assert (follows x x4) as Hf04 by (by etrans).
  destruct stop; [eexists _, _; split; [reflexivity|]; split; [by apply follows_grow|]; split; [apply Hok4|by left]|].
  destruct (admit_next_ok owner' x4 Hok4) as (x5 & -> & Hok5 & Hg5); [rewrite Hl4, Hl3; cbn; by rewrite Hl2|].
  eexists _, _. split; [reflexivity|]. split.
  { eapply follows_grows; [exact Hf04|]. eapply grows_follows; [exact Hg5|apply parked_follows]. }
  split; [apply Hok5|]. right. destruct Hok5. by split.
Qed.

Lemma worker_iteration_spec (x : worker) : worker_ok x -> exists flow x', worker_iteration x = Some (flow, x') /\ goes_on x flow x'.
Proof.
  intros Hok. unfold worker_iteration. destruct (wk_listener x) as [owner|] eqn:Hl; [by apply with_owner_spec|].
  pose proof (bind_follows x (ok_dropped x Hok)) as Hb. destruct (bind_listener x) as [flow x1]. destruct Hb as (Hf & Hv & Hpro).
  assert (goes_on x flow x1) as Hg by (split; [by apply follows_grow|]; split; [apply Hv|]; right; by apply vacant_ok).
  destruct flow; [|by eexists _, _..]. destruct (wk_listener x1) as [owner|] eqn:Hl1; [|by specialize (Hpro eq_refl)].
  destruct (with_owner_spec owner x1 (vacant_ok x1 Hv) Hl1) as (flow & x2 & Hrun & Hgr & Hd & Hor).
  exists flow, x2. split; [done|]. split; [by eapply follows_grows|]. by split.
Qed.

(** *** The loop *)

(** The states at the head of the loop. *)
Inductive reaches (x0 : worker) : worker -> Prop :=
| reaches_start : reaches x0 x0
| reaches_next x x1 flow x' : reaches x0 x -> stop_now x = (false, x1) -> worker_iteration x1 = Some (flow, x') -> flow <> Break ->
    reaches x0 x'.

Lemma reaches_ok (x0 x : worker) : worker_ok x0 -> reaches x0 x -> worker_ok x.
Proof.
  intros Hx0 Hx. induction Hx as [|x x1 flow x' _ IH Hs Hit Hne]; [done|]. pose proof (stop_ok x IH) as Hok. rewrite Hs in Hok.
  destruct Hok as [Hok _]. destruct (worker_iteration_spec x1 Hok) as (flow1 & x2 & Hit' & _ & _ & Hor).
  rewrite Hit in Hit'. injection Hit' as <- <-. by destruct Hor.
Qed.

(** Everything the worker owned is closed, and it owns nothing. *)
Definition released (x x' : worker) : Prop :=
  wk_listener x' = None /\ wk_sessions x' = [] /\ wk_registered_at x' = ∅ /\ wk_heartbeat_sent_at x' = ∅ /\
  Forall closed_session (wk_dropped x') /\ exists new, session_ids <$> wk_dropped x' ≡ₚ new ++ roster x.

Lemma finish_releases (x y : worker) : Forall closed_session (wk_dropped y) ->
  (exists new, roster y ≡ₚ new ++ roster x) -> released x (finish y).
Proof.
  intros Hd (new & Hro). destruct (clear_spec y Hd) as (_ & _ & Hs & Hr & Hb & Hc & Hroc). unfold finish, drop_owner, released. cbn.
  split; [done|]. split; [done|]. split; [done|]. split; [done|]. split; [done|]. exists new. unfold roster in Hroc at 1. rewrite Hs in Hroc. cbn in Hroc. by rewrite Hroc.
Qed.

Lemma run_worker_releases : forall n (x : worker), worker_ok x -> (patience (wk_daemon x) < n)%nat ->
  exists x', run_worker n x = Some x' /\ released x x'.
Proof.
  induction n as [|n IH]; intros x Hok Hn; [lia|]. cbn [run_worker].
  pose proof (stop_follows x) as Hs. pose proof (stop_ok x Hok) as Hk. destruct (stop_now x) as [stop x1].
  destruct Hs as ([Hro Hp] & _ & Hdec), Hk as [Hok1 _]. destruct stop.
  { eexists. split; [reflexivity|]. apply finish_releases; [apply Hok1|]. by exists []. }
  specialize (Hdec eq_refl). destruct (worker_iteration_spec x1 Hok1) as (flow & x2 & -> & [Hp2 (new & _ & Hro2)] & Hd2 & Hor).
  assert (exists new, roster x2 ≡ₚ new ++ roster x) as Hgrown by (exists new; by rewrite Hro2, Hro).
  assert (flow <> Break -> exists x', run_worker n x2 = Some x' /\ released x x') as Hnext.
  { intros Hne. destruct Hor as [|Hok2]; [done|]. destruct (IH x2 Hok2) as (x' & Hrun & Hl & Hs & Hr & Hb & Hc & new' & Hro'); [lia|].
    exists x'. split; [done|]. do 5 (split; [done|]). exists (new' ++ new). by rewrite Hro', Hro2, Hro, app_assoc. }
  destruct flow; [by apply Hnext..|]. eexists. split; [reflexivity|]. by apply finish_releases.
Qed.

(** C32. The worker never loses track of a session.  At the head of its loop, in
    every state it reaches, it owns at most thirty-two sessions, all of its
    listener's network and none without a listener, each with its two clocks, and
    no clock without a session; every session it dropped is closed.  From there
    it ends, given more steps than the stop flag is read as unset: then it owns no
    listener, no session and no clock, and each session it has ever owned was
    closed. *)
Theorem control_worker_accounts (g : SharedRegistry) (d : D) (x : worker) (Hreach : reaches (worker_new g d) x) :
  worker_ok x /\ forall n, (patience (wk_daemon x) < n)%nat -> exists x', run_worker n x = Some x' /\ released x x'.
Proof.
  assert (worker_ok x) as Hok by (apply (reaches_ok _ _ (vacant_ok (worker_new g d) ltac:(done)) Hreach)).
  split; [done|]. intros n Hn. by apply run_worker_releases.
Qed.
End facts.

(** ** The daemon implements the interface *)

(** The worker's thread: the stop flag, parking and the clock. *)
Class WorkerThread (H : Type) := {
  thread_stop_requested : H -> bool * H;
  thread_park : Z -> H -> H;
  thread_now : H -> Z * H;
  thread_instant_add : Z -> Z -> option Z;
}.
Class LawfulThread (H : Type) `{WorkerThread H} := {
  thread_patience : H -> nat;
  thread_stop_law (h : H) : (thread_patience (thread_stop_requested h).2 <= thread_patience h)%nat /\
    ((thread_stop_requested h).1 = false -> (thread_patience (thread_stop_requested h).2 < thread_patience h)%nat);
  thread_calm (h : H) : (forall t, (thread_patience (thread_park t h) <= thread_patience h)%nat) /\
    (thread_patience (thread_now h).2 <= thread_patience h)%nat;
}.

Section daemon.
Context {K T S : Type} `{X509} `{RawSocket K} `{TlsStream T} `{TlsStack K T} `{TrustStores S} (pin_store : bool).
Context {M R G L W Th : Type} `{RegistryStore M} `{ControlRuntime R L} `{ListenerWorld W L K} `{WorkerThread Th}.
Context (config : DaemonConfig) (local : LocalControlTlsIdentity) (software_version : list Z) (capabilities : NodeCapabilities).
Variable to_vec : ControlEnvelope -> option (list Z).
Variable from_slice : list Z -> option ControlEnvelope.
Variable fuel : nat.
Variables between during : S -> S.

(** The network operations with the sockets, the trust stores, the thread. *)
Record WorkerDaemon := mkDaemon { wd_operations : SingleStar M R G * W; wd_trust : S; wd_thread : Th }.

Abbreviation session := (RegisteredControlSession (ActiveControlSession T * S)).
Abbreviation owner := (ObservedControlListener L).

#[local] Instance worker_owned : OwnedSession (ActiveControlSession T * S) := active_owned pin_store to_vec from_slice fuel during.

Definition set_thread (h : Th) (d : WorkerDaemon) : WorkerDaemon := mkDaemon (wd_operations d) (wd_trust d) h.
Definition set_operations (o : SingleStar M R G * W) (d : WorkerDaemon) : WorkerDaemon := mkDaemon o (wd_trust d) (wd_thread d).

(** An operation of the daemon. *)
Definition on_operations {X : Type} (m : stres (SingleStar M R G) CoreError X) : stres WorkerDaemon CoreError X := fun d =>
  let (x, s) := m (wd_operations d).1 in (x, set_operations (s, (wd_operations d).2) d).

Definition supervise_in_daemon (l : list session) (g : SharedRegistry) (od : owner * WorkerDaemon) :
    option (CoreResult nat * list session * list session * SharedRegistry * (owner * WorkerDaemon)) :=
  match supervise_registered_from_durable_network_operations config l g (od.1, wd_operations od.2) with
  | None => None
  | Some (res, kept, gone, g, (o, ops)) => Some (res, kept, gone, g, (o, set_operations ops od.2))
  end.

Definition poll_in_daemon (network : NetworkId) (g : SharedRegistry) (od : owner * WorkerDaemon) :
    option (CoreResult (option session) * SharedRegistry * (owner * WorkerDaemon)) :=
  let (t, h) := thread_now (wd_thread od.2) in
  match poll_registered_from_durable_network_operations (K := K) (T := T) pin_store config to_vec from_slice fuel between during local
      (control_setup software_version network capabilities t) (wd_trust od.2) g (od.1, wd_operations od.2) with
  | None => None
  | Some (r, s, g, (o, ops)) => Some (r, g, (o, mkDaemon ops s h))
  end.

#[local] Instance daemon_nap : NapOperations WorkerDaemon (ActiveControlSession T * S) owner := {
  nap_stop_requested d := let (x, h) := thread_stop_requested (wd_thread d) in (x, set_thread h d);
  nap_park t d := set_thread (thread_park t (wd_thread d)) d;
  nap_now d := let (t, h) := thread_now (wd_thread d) in (t, set_thread h d);
  nap_instant_add := thread_instant_add;
  nap_current := on_operations load_current;
  nap_bind := on_operations (bind_guarded_control_listener config);
  nap_network := ol_network;
  nap_supervise := supervise_in_daemon;
  nap_poll := poll_in_daemon;
  nap_drop o d := match ol_listener o with
    | Some l => set_operations ((wd_operations d).1, drop_listener l (wd_operations d).2) d
    | None => d
    end;
}.
End daemon.
Arguments WorkerDaemon S M R G W Th : clear implicits.

Section daemon_facts.
Context {K T S : Type} `{X509} `{LawfulTlsStack K T} `{LawfulTrustStores S} (pin_store : bool).
Context {M B G L W Th : Type} `{RegistryStore M} `{HostBackends B} `{TcpHost B L} `{ListenerWorld W L K} `{LawfulThread Th}.
Context (config : DaemonConfig) (local : LocalControlTlsIdentity) (software_version : list Z) (capabilities : NodeCapabilities).
Variable to_vec : ControlEnvelope -> option (list Z).
Variable from_slice : list Z -> option ControlEnvelope.
Variable fuel : nat.
Variables between during : S -> S.

#[local] Instance facts_owned : OwnedSession (ActiveControlSession T * S) := active_owned pin_store to_vec from_slice fuel during.
#[local] Instance facts_lawful : LawfulSession (ActiveControlSession T * S) := active_lawful pin_store to_vec from_slice fuel during.
#[local] Instance facts_nap : NapOperations (WorkerDaemon S M (LinuxStarHostRuntime B) G W Th) (ActiveControlSession T * S) (ObservedControlListener L) :=
  daemon_nap pin_store config local software_version capabilities to_vec from_slice fuel between during.

(** The sockets that are accepted are not interrupted more often than the fuel
    allows for. *)
Definition calm_arrivals : Prop := forall (l : L) (w : W) (socket : K), (tcp_accept l w).1 = Ok socket ->
  (session_fuel (T := T) local socket < fuel)%nat.

Lemma daemon_supervise_law (l : list (RegisteredControlSession (ActiveControlSession T * S))) g (o : ObservedControlListener L)
    (d : WorkerDaemon S M (LinuxStarHostRuntime B) G W Th) : Forall ready_session l ->
  exists res kept gone g' o' d', nap_supervise l g (o, d) = Some (res, kept, gone, g', (o', d')) /\
    ol_network o' = ol_network o /\ wd_thread d' = wd_thread d /\
    match res with
    | Ok _ => retention (ol_network o) l kept gone
    | Err _ => kept = [] /\ session_ids <$> gone = session_ids <$> l /\ Forall closed_session gone
    end.
Proof.
  intros Hr. cbn [nap_supervise facts_nap daemon_nap]. unfold supervise_in_daemon, supervise_registered_from_durable_network_operations.
  cbn [fst snd].
  destruct (supervise_registered_spec (durable_observation config (ol_network o)) l g o (wd_operations d) Hr)
    as (res & kept & gone & g' & o' & w' & Hrun & Hn & _ & Hres).
  unfold worker_owned, facts_owned in *. rewrite Hrun. eexists _, _, _, _, _, _. split; [reflexivity|]. split; [done|]. split; [done|].
  destruct res as [k|e]; [apply Hres|]. destruct Hres as (_ & ? & ? & ? & _). done.
Qed.

Lemma daemon_poll_law network g (o : ObservedControlListener L) (d : WorkerDaemon S M (LinuxStarHostRuntime B) G W Th) : calm_arrivals ->
  exists r g' o' d', nap_poll (A := ActiveControlSession T * S) network g (o, d) = Some (r, g', (o', d')) /\
    ol_network o' = ol_network o /\ wd_thread d' = (thread_now (wd_thread d)).2 /\
    match r with
    | Ok (Some s) => network = ol_network o /\ session_network s = network /\ ready_session s
    | _ => True
    end.
Proof.
  intros Hcalm. cbn [nap_poll facts_nap daemon_nap]. unfold poll_in_daemon. cbn [fst snd].
  destruct (thread_now (wd_thread d)) as [t h]. destruct (wd_operations d) as [ss w] eqn:Hops.
  destruct (inbound_tick_outcome pin_store config to_vec from_slice fuel between during local
    (control_setup software_version network capabilities t) (wd_trust d) g o ss w) as (r & s' & g' & o' & ss' & w' & Hrun & Hn & _ & Hother & Hout).
  { intros socket Hs. destruct (poll_from_durable_network_operations config (o, (ss, w))) as [polled [o1 [d1 w1]]] eqn:Hpoll.
    cbn [fst] in Hs. subst polled. apply (durable_poll_owned (M := M)) in Hpoll as (_ & l & d0 & w2 & w3 & _ & _ & Hacc & _).
    eapply Hcalm. by apply (f_equal fst) in Hacc. }
  rewrite Hrun. eexists _, _, _, _. split; [reflexivity|]. split; [done|]. split; [done|].
  destruct r as [[reg|]|e]; [|done..]. destruct Hout as (Hnet & _ & Hkey & _ & _ & l & socket & d1 & d2 & w1 & _ & _ & Hacc & _ & _ & approved & s1 & Hv).
  cbn [su_network control_setup] in *. split; [done|]. split; [unfold session_network; by rewrite Hkey|].
  unfold ready_session. destruct (rs_session reg) as [a s2] eqn:Hreg. cbn [fst] in Hv. eapply (verified_ready (K := K) to_vec from_slice fuel local _ approved socket s1 a); [|exact Hv].
  eapply Hcalm. by apply (f_equal fst) in Hacc.
Qed.

Lemma daemon_lawful (Hcalm : calm_arrivals) :
  LawfulNap (WorkerDaemon S M (LinuxStarHostRuntime B) G W Th) (ActiveControlSession T * S) (ObservedControlListener L).
Proof.
  refine {| nap_patience := fun d => thread_patience (wd_thread d) |}.
  - intros d. cbn. destruct (thread_stop_law (wd_thread d)) as [Hp Hf]. by destruct (thread_stop_requested (wd_thread d)).
  - intros d. cbn. unfold on_operations. destruct (thread_calm (wd_thread d)) as [Hpark Hnow]. destruct (thread_now (wd_thread d)).
    destruct (load_current (wd_operations d).1), (bind_guarded_control_listener config (wd_operations d).1). split_and!; try done.
    intros o. by destruct (ol_listener o).
  - intros l g o d Hr. destruct (daemon_supervise_law l g o d Hr) as (res & kept & gone & g' & o' & d' & Hrun & Hn & Ht & Hres).
    exists res, kept, gone, g', o', d'. rewrite Ht. by split_and!.
  - intros network g o d. destruct (daemon_poll_law network g o d Hcalm) as (r & g' & o' & d' & Hrun & Hn & Ht & Hres).
    exists r, g', o', d'. rewrite Ht. destruct (thread_calm (wd_thread d)) as [_ Hnow]. by split_and!.
Defined.
End daemon_facts.

(** ** Example: a peer is admitted, then the daemon stops *)

#[local] Existing Instances pipe_kernel disk_stores disk_lawful demo_x509 pipe_stream pipe_lawful pipe_tls pipe_lawful_tls pipe_raw pipe_lawful_raw
  demo_stack demo_lawful_stack demo_backends demo_lawful_backends reliable_store demo_generator.

(** Listeners are bound to the address that is planned for network 1. *)
#[local] Instance worker_tcp : TcpHost DemoBackends nat := {
  tcp_bind _ b := (Ok 0%nat, b);
  local_addr _ _ := Ok (SockV4 (mkSocketAddrV4 0x0ac90101 CONTROL_TCP_PORT));
  set_nonblocking _ b := (Ok (), b);
  close_listener _ b := b;
}.

(** The clock, and how often the stop flag is still read as unset. *)
Record DemoThread := mkThread { dt_clock : Z; dt_reads : nat }.
#[local] Instance demo_thread : WorkerThread DemoThread := {
  thread_stop_requested h := match dt_reads h with O => (true, h) | Datatypes.S n => (false, mkThread (dt_clock h) n) end;
  thread_park t h := mkThread (dt_clock h + t) (dt_reads h);
  thread_now h := (dt_clock h, h);
  thread_instant_add t d := Some (t + d);
}.
#[local] Instance demo_lawful_thread : LawfulThread DemoThread.
Proof. refine {| thread_patience := dt_reads |}; [|done]. intros [c [|n]]; cbn; (split; [lia|]); [done|lia]. Defined.

#[local] Instance demo_nap_owned : OwnedSession (ActiveControlSession pipe * disk) :=
  active_owned true (table_to_vec demo_table) (table_from_slice demo_table) demo_inbound_fuel id.
#[local] Instance demo_nap_lawful : LawfulSession (ActiveControlSession pipe * disk) :=
  active_lawful true (table_to_vec demo_table) (table_from_slice demo_table) demo_inbound_fuel id.
Abbreviation demo_worker_daemon :=
  (WorkerDaemon disk MembershipRegistry (LinuxStarHostRuntime DemoBackends) (list NetworkId) PipeKernel DemoThread).
#[local] Instance demo_nap : NapOperations demo_worker_daemon (ActiveControlSession pipe * disk) (ObservedControlListener nat) :=
  daemon_nap (K := pipe) true demo_config demo_inbound_local [49] caps_default (table_to_vec demo_table) (table_from_slice demo_table)
    demo_inbound_fuel id id.
#[local] Instance demo_nap_law : LawfulNap demo_worker_daemon (ActiveControlSession pipe * disk) (ObservedControlListener nat).
Proof.
  unshelve eapply (daemon_lawful (K := pipe)); [exact demo_lawful_thread|]. intros l w socket _. apply Nat.ltb_lt. vm_compute. reflexivity.
Defined.

Definition demo_worker_start : demo_worker_daemon := mkDaemon (demo_host, mkPipeKernel [demo_inbound_socket]) demo_inbound_disk (mkThread 0 12).

Lemma control_worker_accounts_witness :
  exists x', run_worker 13 (worker_new (mkShared (mkLock registry_new false) []) demo_worker_start) = Some x' /\
    released (worker_new (mkShared (mkLock registry_new false) []) demo_worker_start) x' /\
    session_ids <$> wk_dropped x' = [(mkKey (fill_id 1) (fill_id 3), exported_session_id demo_alice)].
Proof.
  destruct (control_worker_accounts (mkShared (mkLock registry_new false) []) demo_worker_start _ (reaches_start _)) as [_ Hrun].
  destruct (Hrun 13%nat) as (x' & Hx & Hrel); [vm_compute; repeat constructor|].
  exists x'. split; [exact Hx|]. split; [exact Hrel|].
  apply (inj Some). transitivity (option_map (fun x => session_ids <$> wk_dropped x)
    (run_worker 13 (worker_new (mkShared (mkLock registry_new false) []) demo_worker_start))); [rewrite Hx; reflexivity|].
  vm_compute. reflexivity.
Defined.
