(* ===== verification/LocalApi.v ===== *)
(** The local API: versions, commands, responses and who may issue what, of
    [crates/blueroute-protocol/src/lib.rs] and [apps/daemon/src/authorization.rs].

    PolicyKit and the message header it is asked about are behind [PolicyKit]. *)

From S2P Require Import Prelude Order Ident Capability Routes Topology.

(** ** Versions *)

Record ApiVersion := mkVersion { major : Z; minor : Z }.
#[global] Instance ApiVersion_eq_dec : EqDecision ApiVersion.
Proof. solve_decision. Defined.

Definition API_VERSION_CURRENT : ApiVersion := mkVersion 1 1.

Inductive ApiCompatibility := Exact | Compatible | Incompatible.
#[global] Instance ApiCompatibility_eq_dec : EqDecision ApiCompatibility.
Proof. solve_decision. Defined.

Definition compatibility_with_server (v server : ApiVersion) : ApiCompatibility :=
  if negb (major v =? major server)%Z || (minor server <? minor v)%Z then Incompatible
  else if (minor v =? minor server)%Z then Exact else Compatible.

Definition is_compatible_with_server (v server : ApiVersion) : bool :=
  negb (bool_decide (compatibility_with_server v server = Incompatible)).

(** ** Data *)

Record NetworkSummary := mkNetworkSummary { ns_id : NetworkId; ns_name : DisplayName; ns_member_count : Z }.
Record NodeSummary := mkNodeSummary { no_id : NodeId; no_name : DisplayName; no_reachability : Reachability }.

Record DaemonStatus := mkStatus {
  st_api_version : ApiVersion;
  st_local_node : option NodeId;
  st_current_network : option NetworkId;
  st_health : HealthLevel;
  st_capabilities : NodeCapabilities;
}.

Record DiagnosticAdapter := mkDiagnosticAdapter {
  da_id : list Z; da_powered : bool; da_address : option (list Z); da_driver : option (list Z);
}.
#[global] Instance DiagnosticAdapter_eq_dec : EqDecision DiagnosticAdapter.
Proof. solve_decision. Defined.

Record SystemDiagnosticMetadata := mkSystemDiagnostics {
  sd_daemon_version : list Z;
  sd_platform : string;
  sd_kernel_release : option (list Z);
  sd_bluez_version : option (list Z);
  sd_network_backend_version : option (list Z);
  sd_adapters : list DiagnosticAdapter;
}.
#[global] Instance SystemDiagnosticMetadata_eq_dec : EqDecision SystemDiagnosticMetadata.
Proof. solve_decision. Defined.

Record DiagnosticInterface := mkDiagnosticInterface { di_name : list Z; di_addresses : list (list Z) }.
Record DiagnosticFailure := mkFailure { df_timestamp_unix_ms : Z; df_operation : string; df_failure_class : string }.

Record DiagnosticTopologyLink := mkTopologyLink {
  tl_id : list Z; tl_left : NodeId; tl_right : NodeId; tl_state : LinkState; tl_health : LinkHealth;
}.
Record DiagnosticTopology := mkDiagnosticTopology { dt_nodes : list NodeSummary; dt_links : list DiagnosticTopologyLink }.

Record DiagnosticSnapshot := mkSnapshot {
  dg_api_version : ApiVersion;
  dg_health : HealthLevel;
  dg_current_network : option NetworkId;
  dg_visible_nodes : Z;
  dg_capabilities : NodeCapabilities;
  dg_local_control_tls_spki_sha256 : option (list Z);
  dg_system : option SystemDiagnosticMetadata;
  dg_observed_peers : option (list NodeSummary);
  dg_interfaces : option (list DiagnosticInterface);
  dg_routes : option (list Route);
  dg_topology : option DiagnosticTopology;
  dg_recent_errors : list DiagnosticFailure;
}.

(** ** Commands and responses *)

Inductive Command :=
| GetStatus | GetCapabilities | ListNetworks
| CreateNetwork (name : DisplayName) | JoinNetwork (network : NetworkId) | LeaveNetwork
| ListNodes | GetNode (node : NodeId) | SetDeviceName (name : DisplayName)
| StartDiscovery | StopDiscovery
| TrustPeer (node : NodeId) | ForgetPeer (node : NodeId)
| GetDiagnostics | SetInternetSharing (enabled : bool).

Inductive Response :=
| Ack
| RespStatus (s : DaemonStatus)
| RespCapabilities (c : NodeCapabilities)
| RespNetworks (l : list NetworkSummary)
| RespNodes (l : list NodeSummary)
| RespNode (n : option NodeSummary)
| RespDiagnostics (d : DiagnosticSnapshot).

(** ** Authorization *)

Definition MODIFY_ACTION_ID : string := "org.blueroute.modify".
Definition INTERNET_SHARING_ACTION_ID : string := "org.blueroute.internet-sharing".

Inductive CommandAuthorization := ReadOnly | PolicyKitAction (action_id : string).

Definition command_authorization (c : Command) : CommandAuthorization :=
  match c with
  | GetStatus | GetCapabilities | ListNetworks | ListNodes | GetNode _ | GetDiagnostics => ReadOnly
  | CreateNetwork _ | JoinNetwork _ | LeaveNetwork | SetDeviceName _ | StartDiscovery | StopDiscovery
  | TrustPeer _ | ForgetPeer _ => PolicyKitAction MODIFY_ACTION_ID
  | SetInternetSharing _ => PolicyKitAction INTERNET_SHARING_ACTION_ID
  end.

Definition command_operation (c : Command) : string :=
  match c with
  | GetStatus => "get_status"
  | GetCapabilities => "get_capabilities"
  | ListNetworks => "list_networks"
  | CreateNetwork _ => "create_network"
  | JoinNetwork _ => "join_network"
  | LeaveNetwork => "leave_network"
  | ListNodes => "list_nodes"
  | GetNode _ => "get_node"
  | SetDeviceName _ => "set_device_name"
  | StartDiscovery => "start_discovery"
  | StopDiscovery => "stop_discovery"
  | TrustPeer _ => "trust_peer"
  | ForgetPeer _ => "forget_peer"
  | GetDiagnostics => "get_diagnostics"
  | SetInternetSharing _ => "set_internet_sharing"
  end.

(** [zbus::fdo::Error]; [OtherError] is any further one. *)
Inductive FdoError :=
| AccessDenied (m : string) | InvalidArgs (m : string) | NotSupported (m : string) | FdoFailed (m : string) | OtherError (m : string).

Abbreviation FdoResult := (result FdoError).

(** The connection to the authority and its answer for a bus name; an error is any
    failure of the bus. *)
Class PolicyKit (P : Type) := {
  policykit_proxy : stres P string ();
  check_authorization : list Z -> string -> stres P string bool;
}.

Section authorize.
Context {P : Type} `{PolicyKit P}.

Definition authorization_service_failure : FdoError :=
  AccessDenied "authorization unavailable; refusing privileged BlueRoute operation {}".

(** [sender] is what the header of the message says. *)
Definition authorize_command (sender : option (list Z)) (c : Command) : stres P FdoError () :=
  match command_authorization c with
  | ReadOnly => st_ret ()
  | PolicyKitAction action_id =>
    match sender with
    | None => st_fail (AccessDenied "BlueRoute cannot authorize a privileged request without a D-Bus sender")
    | Some sender =>
      let! _ := st_map_err (fun _ => authorization_service_failure) policykit_proxy in
      let! granted := st_map_err (fun _ => authorization_service_failure) (check_authorization sender action_id) in
      if granted : bool then st_ret () else st_fail (AccessDenied "authorization denied for BlueRoute operation {}")
    end
  end.
End authorize.

(** ** Facts *)

(** A client is served exactly when its major version is the server's and its
    minor version is not newer. *)
Lemma compatible_exact (v server : ApiVersion) :
  is_compatible_with_server v server = true <-> major v = major server /\ (minor v <= minor server)%Z.
Proof.
  unfold is_compatible_with_server, compatibility_with_server. destruct (Z.eqb_spec (major v) (major server)); cbn [negb orb].
  - destruct (Z.ltb_spec (minor server) (minor v)); [split; [done|lia]|]. destruct (_ =? _)%Z; (split; [done|reflexivity]).
  - split; [done|]. by intros [].
Qed.

(** Only a reading command passes without a question; any other passes exactly
    when there is a sender, the authority can be reached, and it grants this
    sender the command's action. *)
Definition granted {P : Type} `{PolicyKit P} (sender : option (list Z)) (action_id : string) (p p' : P) : Prop :=
  exists name p1, sender = Some name /\ policykit_proxy p = (Ok (), p1) /\ check_authorization name action_id p1 = (Ok true, p').

Lemma authorize_exact {P : Type} `{PolicyKit P} sender c (p p' : P) :
  authorize_command sender c p = (Ok (), p') <->
  match command_authorization c with
  | ReadOnly => p' = p
  | PolicyKitAction action_id => granted sender action_id p p'
  end.
Proof.
  unfold authorize_command, granted. destruct (command_authorization c) as [|action_id]; [split; [by intros [= ->]|by intros ->]|].
  destruct sender as [name|]; [|split; [done|]; by intros (? & ? & [=] & _)].
  unfold st_bind, st_map_err. split.
  - destruct (policykit_proxy p) as [[[]|e] p1] eqn:Hp; [|done].
    destruct (check_authorization name action_id p1) as [[[]|e] p2] eqn:Hc; [|done..]. intros [= <-]. by exists name, p1.
  - intros (name' & p1 & [= <-] & -> & ->). done.
Qed.

(** A refusal is an access error. *)
Lemma authorize_denies {P : Type} `{PolicyKit P} sender c (p p' : P) e :
  authorize_command sender c p = (Err e, p') -> exists m, e = AccessDenied m.
Proof.
  unfold authorize_command. destruct (command_authorization c) as [|action_id]; [done|].
  destruct sender as [name|]; [|intros [= <- _]; by eexists]. unfold st_bind, st_map_err.
  destruct (policykit_proxy p) as [[[]|e'] p1]; [|intros [= <- _]; by eexists].
  destruct (check_authorization name action_id p1) as [[[]|e'] p2]; intros [=]; subst; by eexists.
Qed.
