(* ===== verification/DaemonService.v ===== *)
(** The D-Bus service of the daemon: [apps/daemon/src/lib.rs].

    The three traits of operations, the clock and PolicyKit act on one world; the
    JSON codec is a pair of functions.  The request log is left out.  A request is
    authorized, claims the mutation flag when it is privileged, performs its
    command, and publishes the network it leaves the daemon in. *)

From stdpp Require Import gmap.
From S2P Require Import Prelude Order Ident Capability Routes Topology PeerPins LocalApi.

(** ** Errors *)

Definition fdo_error_class (e : FdoError) : string :=
  match e with
  | AccessDenied _ => "authorization_denied"
  | InvalidArgs _ => "invalid_argument"
  | NotSupported _ => "unsupported"
  | FdoFailed _ => "operation_failed"
  | OtherError _ => "dbus_error"
  end.

(** The formatted message is its parts. *)
Definition core_error_to_dbus (e : CoreError) : FdoError :=
  match kind e with
  | InvalidInput => InvalidArgs (message e)
  | AuthenticationFailed => AccessDenied (message e)
  | CapabilityUnavailable | MissingAdapter | AdapterDisabled | UnsupportedRuntime => NotSupported (message e)
  | _ => FdoFailed match diagnostic e with Some d => message e ++ " (" ++ d ++ ")" | None => message e end
  end.

(** ** What the service calls *)

Class ServiceOperations (N : Type) := {
  list_networks : stres N CoreError (list NetworkSummary);
  diagnostic_interfaces : stres N CoreError (option (list DiagnosticInterface));
  ops_create_network : DisplayName -> stres N CoreError NetworkId;
  ops_leave_network : stres N CoreError ();
  start_discovery : stres N CoreError ();
  stop_discovery : stres N CoreError ();
  ops_trust_peer : NodeId -> stres N CoreError ();
  ops_forget_peer : NodeId -> stres N CoreError ();
  ops_join_network : NetworkId -> stres N CoreError ();
  (** Milliseconds since the epoch, at most [u64::MAX]. *)
  unix_time_ms : N -> Z * N;
}.

(** ** The service *)

Record DaemonService := mkService {
  sv_status : DaemonStatus;
  sv_has_network : bool;
  sv_has_trust : bool;
  sv_has_join : bool;
  sv_mutation_in_progress : bool;
  sv_system_diagnostics : option SystemDiagnosticMetadata;
  sv_local_control_tls_fingerprint : option SpkiSha256;
  sv_recent_errors : list DiagnosticFailure;
}.

Definition service_new (local_node : NodeId) (health : HealthLevel) (capabilities : NodeCapabilities) : DaemonService :=
  mkService (mkStatus API_VERSION_CURRENT (Some local_node) None health capabilities) false false false false None None [].

Definition set_status (st : DaemonStatus) (s : DaemonService) : DaemonService :=
  mkService st (sv_has_network s) (sv_has_trust s) (sv_has_join s) (sv_mutation_in_progress s) (sv_system_diagnostics s)
    (sv_local_control_tls_fingerprint s) (sv_recent_errors s).
Definition set_mutating (b : bool) (s : DaemonService) : DaemonService :=
  mkService (sv_status s) (sv_has_network s) (sv_has_trust s) (sv_has_join s) b (sv_system_diagnostics s)
    (sv_local_control_tls_fingerprint s) (sv_recent_errors s).
Definition set_errors (l : list DiagnosticFailure) (s : DaemonService) : DaemonService :=
  mkService (sv_status s) (sv_has_network s) (sv_has_trust s) (sv_has_join s) (sv_mutation_in_progress s) (sv_system_diagnostics s)
    (sv_local_control_tls_fingerprint s) l.

Definition update_current_network (network : option NetworkId) (s : DaemonService) : DaemonService :=
  let st := sv_status s in
  set_status (mkStatus (st_api_version st) (st_local_node st) network (st_health st) (st_capabilities st)) s.

(** Whether anything was new. *)
Definition update_runtime_observation (health : HealthLevel) (capabilities : NodeCapabilities)
    (system : option SystemDiagnosticMetadata) (s : DaemonService) : bool * DaemonService :=
  let st := sv_status s in
  let changed := negb (bool_decide (st_health st = health)) || negb (bool_decide (st_capabilities st = capabilities))
    || negb (bool_decide (sv_system_diagnostics s = system)) in
  (changed, mkService (mkStatus (st_api_version st) (st_local_node st) (st_current_network st) health capabilities)
     (sv_has_network s) (sv_has_trust s) (sv_has_join s) (sv_mutation_in_progress s) system
     (sv_local_control_tls_fingerprint s) (sv_recent_errors s)).

Definition update_runtime_health (observed : HealthLevel) (s : DaemonService) : bool * DaemonService :=
  let st := sv_status s in
  (negb (bool_decide (st_health st = observed)),
   set_status (mkStatus (st_api_version st) (st_local_node st) (st_current_network st) observed (st_capabilities st)) s).

(** [Local node]; a name that is refused is an error of the request. *)
Definition LOCAL_NODE_NAME : list Z := [76; 111; 99; 97; 108; 32; 110; 111; 100; 101]%Z.

Definition local_node_summary (s : DaemonService) : FdoResult (option NodeSummary) :=
  match st_local_node (sv_status s) with
  | None => Ok None
  | Some node =>
    name ← map_err core_error_to_dbus (display_name_new LOCAL_NODE_NAME);
    Ok (Some (mkNodeSummary node name Local))
  end.

Definition diagnostics_snapshot (s : DaemonService) : DiagnosticSnapshot :=
  let st := sv_status s in
  mkSnapshot (st_api_version st) (st_health st) (st_current_network st)
    (if bool_decide (is_Some (st_local_node st)) then 1 else 0)%Z (st_capabilities st)
    (to_canonical_hex <$> sv_local_control_tls_fingerprint s) (sv_system_diagnostics s) None None None None (sv_recent_errors s).

Definition with_interfaces (l : option (list DiagnosticInterface)) (d : DiagnosticSnapshot) : DiagnosticSnapshot :=
  mkSnapshot (dg_api_version d) (dg_health d) (dg_current_network d) (dg_visible_nodes d) (dg_capabilities d)
    (dg_local_control_tls_spki_sha256 d) (dg_system d) (dg_observed_peers d) l (dg_routes d) (dg_topology d) (dg_recent_errors d).

Definition ensure_not_local_node (node : NodeId) (s : DaemonService) : FdoResult () :=
  guard_err (bool_decide (st_local_node (sv_status s) = Some node))
    (InvalidArgs "the local BlueRoute node cannot be approved as its own peer") (Ok ()).

Definition MAX_RECENT_ERRORS : nat := 16.

(** The oldest entry goes when there are more than sixteen. *)
Definition push_failure (f : DiagnosticFailure) (l : list DiagnosticFailure) : list DiagnosticFailure :=
  let l := l ++ [f] in if (MAX_RECENT_ERRORS <? length l)%nat then drop 1 l else l.

(** ** Requests *)

(** What a command that was performed leads to: a response, or the network the
    daemon is in now, published before the acknowledgement. *)
Inductive Effect := Respond (r : Response) | Publish (network : option NetworkId).

Section requests.
Context {N : Type} `{ServiceOperations N} `{PolicyKit N}.
Variable decode_command : list Z -> option Command.
Variable encode_response : Response -> option (list Z).

Abbreviation op A := (stres (DaemonService * N) FdoError A).

Definition no_network_operations : FdoError :=
  NotSupported "network lifecycle operations are unavailable in this daemon instance".
Definition no_trust_operations : FdoError := NotSupported "peer trust operations are unavailable in this daemon instance".
Definition no_join_operations : FdoError := NotSupported "join-network operations are unavailable in this daemon instance".

(** The operations, when the daemon has them. *)
Definition provided {A : Type} (there : bool) (missing : FdoError) (m : stres N CoreError A) : stres N FdoError A :=
  let! _ := st_lift (guard_err (negb there) missing (Ok ())) in st_map_err core_error_to_dbus m.

(** The body of a command, up to the status it publishes. *)
Definition operate (c : Command) (s : DaemonService) : stres N FdoError Effect :=
  let network {A} (m : stres N CoreError A) := provided (sv_has_network s) no_network_operations m in
  let trust {A} (node : NodeId) (m : stres N CoreError A) :=
    let! _ := st_lift (ensure_not_local_node node s) in provided (sv_has_trust s) no_trust_operations m in
  match c with
  | GetStatus => st_ret (Respond (RespStatus (sv_status s)))
  | GetCapabilities => st_ret (Respond (RespCapabilities (st_capabilities (sv_status s))))
  | ListNetworks => let! l := network list_networks in st_ret (Respond (RespNetworks l))
  | GetDiagnostics =>
    if sv_has_network s then
      let! interfaces := st_map_err core_error_to_dbus diagnostic_interfaces in
      st_ret (Respond (RespDiagnostics (with_interfaces interfaces (diagnostics_snapshot s))))
    else st_ret (Respond (RespDiagnostics (diagnostics_snapshot s)))
  | ListNodes => let! local := st_lift (local_node_summary s) in st_ret (Respond (RespNodes (match local with Some e => [e] | None => [] end)))
  | GetNode node =>
    let! local := st_lift (local_node_summary s) in
    st_ret (Respond (RespNode (e ← local; if bool_decide (no_id e = node) then Some e else None)))
  | CreateNetwork name => let! created := network (ops_create_network name) in st_ret (Publish (Some created))
  | JoinNetwork joined => let! _ := provided (sv_has_join s) no_join_operations (ops_join_network joined) in st_ret (Publish (Some joined))
  | LeaveNetwork => let! _ := network ops_leave_network in st_ret (Publish None)
  | TrustPeer node => let! _ := trust node (ops_trust_peer node) in st_ret (Respond Ack)
  | ForgetPeer node => let! _ := trust node (ops_forget_peer node) in st_ret (Respond Ack)
  | StartDiscovery => let! _ := network start_discovery in st_ret (Respond Ack)
  | StopDiscovery => let! _ := network stop_discovery in st_ret (Respond Ack)
  | SetDeviceName _ | SetInternetSharing _ => st_fail (NotSupported "command is not implemented by the current daemon")
  end.

Definition encode (r : Response) : FdoResult (list Z) :=
  ok_or (encode_response r) (FdoFailed "BlueRoute failed to encode its local API response").

(** The end of a command: the status, then the answer. *)
Definition publish (e : Effect) (s : DaemonService) : FdoResult (list Z) * DaemonService :=
  match e with
  | Respond r => (encode r, s)
  | Publish network => (encode Ack, update_current_network network s)
  end.

Definition perform (c : Command) : op (list Z) := fun '(s, n) =>
  match operate c s n with
  | (Err e, n) => (Err e, (s, n))
  | (Ok effect, n) => let (r, s) := publish effect s in (r, (s, n))
  end.

Definition is_privileged (c : Command) : bool := match command_authorization c with PolicyKitAction _ => true | ReadOnly => false end.

Definition mutation_busy : FdoError := FdoFailed "another BlueRoute mutation is already in progress; retry the request".

(** [MutationGuard]: claimed by a privileged command, and dropped on every path. *)
Definition claim_mutation (c : Command) (s : DaemonService) : FdoResult DaemonService :=
  if is_privileged c then guard_err (sv_mutation_in_progress s) mutation_busy (Ok (set_mutating true s)) else Ok s.
Definition release_mutation (c : Command) (s : DaemonService) : DaemonService := if is_privileged c then set_mutating false s else s.

Definition authorized (sender : option (list Z)) (c : Command) : op () := fun '(s, n) =>
  let (r, n) := authorize_command sender c n in (r, (s, n)).

(** The [async] block of [request]. *)
Definition execute_command (sender : option (list Z)) (c : Command) : op (list Z) :=
  let! _ := authorized sender c in fun '(s, n) =>
  match claim_mutation c s with
  | Err e => (Err e, (s, n))
  | Ok s => let '(r, (s, n)) := perform c (s, n) in (r, (release_mutation c s, n))
  end.

Definition record_recent_failure (c : Command) (e : FdoError) : DaemonService * N -> DaemonService * N := fun '(s, n) =>
  let (t, n) := unix_time_ms n in
  (set_errors (push_failure (mkFailure t (command_operation c) (fdo_error_class e)) (sv_recent_errors s)) s, n).

Definition malformed_command : FdoError := InvalidArgs "malformed BlueRoute command payload".

Definition request (payload : list Z) (sender : option (list Z)) : op (list Z) := fun sn =>
  match decode_command payload with
  | None => (Err malformed_command, sn)
  | Some c =>
    match execute_command sender c sn with
    | (Ok text, sn) => (Ok text, sn)
    | (Err e, sn) => (Err e, record_recent_failure c e sn)
    end
  end.
End requests.

(** ** One request *)

Lemma push_failure_bound f l : (length l <= MAX_RECENT_ERRORS)%nat -> (length (push_failure f l) <= MAX_RECENT_ERRORS)%nat.
Proof.
  unfold push_failure, MAX_RECENT_ERRORS. intros Hl. destruct (Nat.ltb_spec 16 (length (l ++ [f]))); [|done].
  rewrite length_drop, length_app. cbn. lia.
Qed.
Lemma push_failure_last f l : last (push_failure f l) = Some f.
Proof.
  unfold push_failure, MAX_RECENT_ERRORS. destruct (Nat.ltb_spec 16 (length (l ++ [f]))) as [Hl|]; [|apply last_snoc].
  destruct l as [|x l]; [rewrite length_app in Hl; cbn in Hl; lia|]. apply last_snoc.
Qed.

Section facts.
Context {N : Type} `{ServiceOperations N} `{PolicyKit N}.
Variable decode_command : list Z -> option Command.
Variable encode_response : Response -> option (list Z).

Lemma operate_flag c b s : operate (N := N) c (set_mutating b s) = operate c s.
Proof. done. Qed.

(** Only a privileged command publishes a network. *)
Lemma operate_publishes c s (n n' : N) network : operate c s n = (Ok (Publish network), n') -> is_privileged c = true.
Proof.
  destruct c; try done; cbn [operate].
  - intros (l & n1 & _ & [=])%st_bind_Ok.
  - intros (l & n1 & _ & [=])%st_bind_Ok.
  - intros (l & n1 & _ & [=])%st_bind_Ok.
  - destruct (sv_has_network s); [|done]. intros (l & n1 & _ & [=])%st_bind_Ok.
Qed.

(** What executing a command comes to: a refusal by the authority; a refusal
    because another mutation runs; or the command itself. *)
Definition executed (sender : option (list Z)) (c : Command) (s : DaemonService) (n : N) (r : FdoResult (list Z))
    (s' : DaemonService) (n' : N) : Prop :=
  (exists e, authorize_command sender c n = (Err e, n') /\ r = Err e /\ s' = s) \/
  exists n1, authorize_command sender c n = (Ok (), n1) /\
    (is_privileged c = true /\ sv_mutation_in_progress s = true /\ r = Err mutation_busy /\ s' = s /\ n' = n1 \/
     (is_privileged c = true -> sv_mutation_in_progress s = false) /\ exists x, operate c s n1 = (x, n') /\
       match x with Err e => r = Err e /\ s' = s | Ok effect => (r, s') = publish encode_response effect s end).

Lemma publish_flag effect b s r s' : publish encode_response effect (set_mutating b s) = (r, s') ->
  publish encode_response effect s = (r, set_mutating (sv_mutation_in_progress s) s').
Proof. destruct effect; cbn; intros [= <- <-]; by destruct s. Qed.

Lemma set_mutating_same (s : DaemonService) : set_mutating (sv_mutation_in_progress s) s = s.
Proof. by destruct s. Qed.

Lemma set_mutating_back b b' (s : DaemonService) : sv_mutation_in_progress s = b -> set_mutating b (set_mutating b' s) = s.
Proof. intros <-. by destruct s. Qed.

Lemma execute_spec sender c s (n : N) r s' n' :
  execute_command encode_response sender c (s, n) = (r, (s', n')) -> executed sender c s n r s' n'.
Proof.
  unfold execute_command, st_bind, authorized. destruct (authorize_command sender c n) as [[[]|e] n1] eqn:Ha.
  2:{ intros [= <- <- <-]. left. by exists e. }
  intros Hrun. right. exists n1. split; [done|]. unfold claim_mutation, release_mutation, perform in Hrun.
  destruct (is_privileged c) eqn:Hp.
  - destruct (sv_mutation_in_progress s) eqn:Hm; cbn [guard_err] in Hrun; [by injection Hrun as <- <- <-; left|]. right. split; [done|].
    rewrite operate_flag in Hrun. destruct (operate c s n1) as [[effect|e] n2].
    + destruct (publish encode_response effect (set_mutating true s)) as [r1 s1] eqn:Hpub. injection Hrun as <- <- <-.
      exists (Ok effect). split; [done|]. apply publish_flag in Hpub. by rewrite Hpub, Hm.
    + injection Hrun as <- <- <-. exists (Err e). split; [done|]. split; [done|]. by apply set_mutating_back.
  - right. split; [done|]. destruct (operate c s n1) as [[effect|e] n2].
    + destruct (publish encode_response effect s) as [r1 s1] eqn:Hpub. injection Hrun as <- <- <-. by exists (Ok effect).
    + injection Hrun as <- <- <-. by exists (Err e).
Qed.

(** Of the service, a request changes the current network and the list of
    failures only. *)
Definition only_network (s s' : DaemonService) : Prop := exists network, s' = update_current_network network s.
Lemma update_same (s : DaemonService) : update_current_network (st_current_network (sv_status s)) s = s.
Proof. by destruct s as [[]]. Qed.
Lemma publish_only effect s r s' : publish encode_response effect s = (r, s') ->
  s' = update_current_network match effect with Publish network => network | Respond _ => st_current_network (sv_status s) end s.
Proof. destruct effect; cbn; intros [= _ <-]; [by rewrite update_same|done]. Qed.

(** What a request may have done, by how far it came. *)
Definition request_allowed (sender : option (list Z)) (c : Command) (s : DaemonService) (n : N) (r : FdoResult (list Z))
    (s1 : DaemonService) (n1 : N) : Prop :=
  match command_authorization c with
  | ReadOnly => s1 = s
  | PolicyKitAction action_id =>
      (s1 = s /\ is_ok r = false /\ n1 = (authorize_command sender c n).2) \/
      sv_mutation_in_progress s = false /\ exists n2 x, granted sender action_id n n2 /\ operate c s n2 = (x, n1) /\
        s1 = match x with Ok (Publish network) => update_current_network network s | _ => s end /\
        (is_ok r = true -> is_ok x = true)
  end.

Lemma executed_allowed sender c s (n : N) r s1 n1 : executed sender c s n r s1 n1 -> request_allowed sender c s n r s1 n1.
Proof.
  unfold request_allowed, executed, is_privileged. pose proof (fun m m' => authorize_exact sender c m m') as Hexact.
  destruct (command_authorization c) as [|action_id] eqn:Hc; intros [(e & Ha & -> & ->)|(n2 & Ha & Hcase)]; try done.
  - destruct Hcase as [(? & _)|(_ & x & Hop & Hx)]; [done|]. destruct x as [effect|e]; [|apply Hx].
    destruct effect as [resp|network]; [by injection Hx as _ ->|]. apply operate_publishes in Hop. unfold is_privileged in Hop. by rewrite Hc in Hop.
  - left. by rewrite Ha.
  - destruct Hcase as [(_ & _ & -> & -> & ->)|(Hm & x & Hop & Hx)]; [left; by rewrite Ha|]. right. split; [by apply Hm|].
    exists n2, x. split; [by apply Hexact|]. split; [done|]. destruct x as [effect|e]; [|by destruct Hx as [-> ->]].
    split; [|done]. symmetry in Hx. apply publish_only in Hx. rewrite Hx. destruct effect; [apply update_same|done].
Qed.

(** C34. A request is gated.  A malformed one changes nothing.  A reading command
    changes nothing of the service.  A privileged command does anything beyond
    asking the authority only when the authority granted its sender the command's
    own action and no other mutation was running, and then at most publishes the
    network its operation ended in.  The mutation flag is as before on every path,
    an answer records no failure, a failure is recorded last with its command and
    class, and no more than sixteen are kept. *)
Theorem request_gated (payload : list Z) (sender : option (list Z)) (s : DaemonService) (n : N) r s' n'
    (Hbound : (length (sv_recent_errors s) <= MAX_RECENT_ERRORS)%nat) :
  request decode_command encode_response payload sender (s, n) = (r, (s', n')) ->
  sv_mutation_in_progress s' = sv_mutation_in_progress s /\ (length (sv_recent_errors s') <= MAX_RECENT_ERRORS)%nat /\
  match decode_command payload with
  | None => r = Err malformed_command /\ s' = s /\ n' = n
  | Some c => exists s1 n1, request_allowed sender c s n r s1 n1 /\
      match r with
      | Ok _ => s' = s1 /\ n' = n1
      | Err e => exists t, unix_time_ms n1 = (t, n') /\ s' = set_errors (sv_recent_errors s') s1 /\
          last (sv_recent_errors s') = Some (mkFailure t (command_operation c) (fdo_error_class e))
      end
  end.
Proof.
  unfold request. destruct (decode_command payload) as [c|]; [|by intros [= <- <- <-]].
  destruct (execute_command encode_response sender c (s, n)) as [x [s1 n1]] eqn:Hex. apply execute_spec in Hex.
  assert (only_network s s1) as [network Hs1].
  { destruct Hex as [(e & _ & _ & ->)|(n2 & _ & [(_ & _ & _ & -> & _)|(_ & y & _ & Hy)])];
      [by eexists; symmetry; apply update_same..|].
    destruct y as [effect|e]; [symmetry in Hy; apply publish_only in Hy; by eexists|]. destruct Hy as [_ ->]. by eexists; symmetry; apply update_same. }
  apply executed_allowed in Hex. destruct x as [text|e].
  - intros [= <- <- <-]. split; [by rewrite Hs1|]. split; [by rewrite Hs1|]. by exists s1, n1.
  - unfold record_recent_failure. destruct (unix_time_ms n1) as [t n2] eqn:Ht. intros [= <- <- <-]. cbn [sv_mutation_in_progress set_errors sv_recent_errors].
    split; [by rewrite Hs1|]. split; [rewrite Hs1; by apply push_failure_bound|]. exists s1, n1. split; [done|]. exists t. split; [done|]. split; [done|].
    apply push_failure_last.
Qed.
End facts.

(** ** Requests side by side

    The handlers run on the worker threads of the runtime.  Between the steps of
    one, those of any other may happen, the observers update the status, and
    anything may happen to the world; the step of an operation is what it did to
    the world when it returned. *)

Inductive Phase :=
| Received
| Authorized
| Granted
| Performed (x : FdoResult Effect)
| Published (r : FdoResult (list Z))
| Ended (r : FdoResult (list Z)).

Record Flight := mkFlight { fl_sender : option (list Z); fl_command : Command; fl_phase : Phase }.
Definition at_phase (f : Flight) (p : Phase) : Flight := mkFlight (fl_sender f) (fl_command f) p.

(** [sys_last] is not of the code: the network the last operation that succeeded
    in creating, joining or leaving one ended in. *)
Record System (N : Type) := mkSystem {
  sys_service : DaemonService;
  sys_world : N;
  sys_flights : gmap nat Flight;
  sys_last : option NetworkId;
}.
Arguments mkSystem {N} _ _ _ _.
Arguments sys_service {N} _.
Arguments sys_world {N} _.
Arguments sys_flights {N} _.
Arguments sys_last {N} _.

Definition network_after (x : FdoResult Effect) (o : option NetworkId) : option NetworkId :=
  match x with Ok (Publish network) => network | _ => o end.

Section interleaved.
Context {N : Type} `{ServiceOperations N} `{PolicyKit N}.
Variable encode_response : Response -> option (list Z).

Inductive step : System N -> System N -> Prop :=
| step_arrive s n fl last i sender c (Hi : fl !! i = None) :
    step (mkSystem s n fl last) (mkSystem s n (<[i := mkFlight sender c Received]> fl) last)
| step_authorize s n fl last i f r n' (Hi : fl !! i = Some f) (Hp : fl_phase f = Received)
    (Ha : authorize_command (fl_sender f) (fl_command f) n = (r, n')) :
    step (mkSystem s n fl last)
      (mkSystem s n' (<[i := at_phase f match r with Ok _ => Authorized | Err e => Ended (Err e) end]> fl) last)
| step_claim s n fl last i f s' (Hi : fl !! i = Some f) (Hp : fl_phase f = Authorized)
    (Hc : claim_mutation (fl_command f) s = Ok s') :
    step (mkSystem s n fl last) (mkSystem s' n (<[i := at_phase f Granted]> fl) last)
| step_busy s n fl last i f e (Hi : fl !! i = Some f) (Hp : fl_phase f = Authorized)
    (Hc : claim_mutation (fl_command f) s = Err e) :
    step (mkSystem s n fl last) (mkSystem s n (<[i := at_phase f (Ended (Err e))]> fl) last)
| step_operate s n fl last i f x n' (Hi : fl !! i = Some f) (Hp : fl_phase f = Granted)
    (Ho : operate (fl_command f) s n = (x, n')) :
    step (mkSystem s n fl last) (mkSystem s n' (<[i := at_phase f (Performed x)]> fl) (network_after x last))
| step_publish s n fl last i f effect r s' (Hi : fl !! i = Some f) (Hp : fl_phase f = Performed (Ok effect))
    (He : publish encode_response effect s = (r, s')) :
    step (mkSystem s n fl last) (mkSystem s' n (<[i := at_phase f (Published r)]> fl) last)
| step_failed s n fl last i f e (Hi : fl !! i = Some f) (Hp : fl_phase f = Performed (Err e)) :
    step (mkSystem s n fl last) (mkSystem s n (<[i := at_phase f (Published (Err e))]> fl) last)
| step_release s n fl last i f r (Hi : fl !! i = Some f) (Hp : fl_phase f = Published r) :
    step (mkSystem s n fl last) (mkSystem (release_mutation (fl_command f) s) n (<[i := at_phase f (Ended r)]> fl) last)
| step_answer s n fl last i f text (Hi : fl !! i = Some f) (Hp : fl_phase f = Ended (Ok text)) :
    step (mkSystem s n fl last) (mkSystem s n (delete i fl) last)
| step_record s n fl last i f e s' n' (Hi : fl !! i = Some f) (Hp : fl_phase f = Ended (Err e))
    (Hr : record_recent_failure (fl_command f) e (s, n) = (s', n')) :
    step (mkSystem s n fl last) (mkSystem s' n' (delete i fl) last)
| step_observe s n fl last health capabilities system :
    step (mkSystem s n fl last) (mkSystem (update_runtime_observation health capabilities system s).2 n fl last)
| step_observe_health s n fl last health :
    step (mkSystem s n fl last) (mkSystem (update_runtime_health health s).2 n fl last)
| step_world s n fl last n' : step (mkSystem s n fl last) (mkSystem s n' fl last).

(** The flight holds the mutation flag. *)
Definition holding (f : Flight) : bool :=
  is_privileged (fl_command f) && match fl_phase f with Granted | Performed _ | Published _ => true | _ => false end.
(** The network the flight is about to publish. *)
Definition pending (f : Flight) : option (option NetworkId) :=
  match fl_phase f with Performed (Ok (Publish network)) => Some network | _ => None end.

Definition holds_at (fl : gmap nat Flight) (i : nat) : bool := if fl !! i is Some f then holding f else false.
Definition pending_at (fl : gmap nat Flight) (i : nat) : option (option NetworkId) := fl !! i ≫= pending.

(** The flag is held by one flight or by none; the network in the status is the
    last one, unless the holder is about to publish it. *)
Definition lawful_by (h : option nat) (σ : System N) : Prop :=
  sv_mutation_in_progress (sys_service σ) = bool_decide (is_Some h) /\
  (forall i, holds_at (sys_flights σ) i = true <-> h = Some i) /\
  (forall i o, pending_at (sys_flights σ) i = Some o -> o = sys_last σ /\ h = Some i) /\
  ((forall i, pending_at (sys_flights σ) i = None) -> st_current_network (sv_status (sys_service σ)) = sys_last σ) /\
  (length (sv_recent_errors (sys_service σ)) <= MAX_RECENT_ERRORS)%nat.
Definition lawful (σ : System N) : Prop := exists h, lawful_by h σ.

(** A service as it starts. *)
Definition initial (σ : System N) : Prop :=
  sv_mutation_in_progress (sys_service σ) = false /\ sys_flights σ = ∅ /\
  sys_last σ = st_current_network (sv_status (sys_service σ)) /\ sv_recent_errors (sys_service σ) = [].

Lemma initial_lawful σ : initial σ -> lawful σ.
Proof.
  intros (Hf & Hfl & Hl & He). exists None. unfold lawful_by, holds_at, pending_at. rewrite Hf, Hfl, Hl, He.
  split; [done|]. setoid_rewrite lookup_empty. split; [done|]. split; [done|]. split; [done|]. cbn. lia.
Qed.
Lemma holds_insert fl i g j : holds_at (<[i := g]> fl) j = if decide (i = j) then holding g else holds_at fl j.
Proof. unfold holds_at. destruct (decide (i = j)) as [->|Hij]; [by rewrite lookup_insert_eq|by rewrite lookup_insert_ne]. Qed.
Lemma pending_insert fl i g j : pending_at (<[i := g]> fl) j = if decide (i = j) then pending g else pending_at fl j.
Proof. unfold pending_at. destruct (decide (i = j)) as [->|Hij]; [by rewrite lookup_insert_eq|by rewrite lookup_insert_ne]. Qed.
Lemma holds_delete fl i j : holds_at (delete i fl) j = if decide (i = j) then false else holds_at fl j.
Proof. unfold holds_at. destruct (decide (i = j)) as [->|Hij]; [by rewrite lookup_delete_eq|by rewrite lookup_delete_ne]. Qed.
Lemma pending_delete fl i j : pending_at (delete i fl) j = if decide (i = j) then None else pending_at fl j.
Proof. unfold pending_at. destruct (decide (i = j)) as [->|Hij]; [by rewrite lookup_delete_eq|by rewrite lookup_delete_ne]. Qed.
Lemma holds_lookup fl i f : fl !! i = Some f -> holds_at fl i = holding f.
Proof. unfold holds_at. by intros ->. Qed.
Lemma pending_lookup fl i f : fl !! i = Some f -> pending_at fl i = pending f.
Proof. unfold pending_at. by intros ->. Qed.

(** A step that leaves the holder, what is pending and the network alone. *)
Lemma lawful_quiet h s s' (n n' : N) fl fl' last :
  lawful_by h (mkSystem s n fl last) -> sv_mutation_in_progress s' = sv_mutation_in_progress s ->
  st_current_network (sv_status s') = st_current_network (sv_status s) -> (length (sv_recent_errors s') <= MAX_RECENT_ERRORS)%nat ->
  (forall j, holds_at fl' j = holds_at fl j /\ pending_at fl' j = pending_at fl j) -> lawful_by h (mkSystem s' n' fl' last).
Proof.
  intros (Hf & Hh & Hp & Hc & He) Hf' Hc' He' Hfl. cbn in *. split; [by rewrite <- Hf, <- Hf'|]. split; [intros i; cbn; by rewrite (proj1 (Hfl i))|].
  split; [intros i o; cbn; rewrite (proj2 (Hfl i)); by apply Hp|]. split; [|done]. cbn. intros Hnone. rewrite Hc'. apply Hc. intros i. by rewrite <- (proj2 (Hfl i)).
Qed.
Lemma lawful_moved h s s' (n n' : N) fl last i f g :
  lawful_by h (mkSystem s n fl last) -> fl !! i = Some f -> holding g = holding f -> pending g = pending f ->
  sv_mutation_in_progress s' = sv_mutation_in_progress s -> st_current_network (sv_status s') = st_current_network (sv_status s) ->
  (length (sv_recent_errors s') <= MAX_RECENT_ERRORS)%nat -> lawful_by h (mkSystem s' n' (<[i := g]> fl) last).
Proof.
  intros Hl Hi Hg Hg' Hf Hc He. apply (lawful_quiet _ _ _ _ _ _ _ _ Hl); [done..|]. intros j. rewrite holds_insert, pending_insert.
  destruct (decide (i = j)) as [<-|]; [|done]. by rewrite (holds_lookup _ _ _ Hi), (pending_lookup _ _ _ Hi).
Qed.
Lemma lawful_done h s s' (n n' : N) fl last i f :
  lawful_by h (mkSystem s n fl last) -> fl !! i = Some f -> holding f = false -> pending f = None ->
  sv_mutation_in_progress s' = sv_mutation_in_progress s -> st_current_network (sv_status s') = st_current_network (sv_status s) ->
  (length (sv_recent_errors s') <= MAX_RECENT_ERRORS)%nat -> lawful_by h (mkSystem s' n' (delete i fl) last).
Proof.
  intros Hl Hi Hg Hg' Hf Hc He. apply (lawful_quiet _ _ _ _ _ _ _ _ Hl); [done..|]. intros j. rewrite holds_delete, pending_delete.
  destruct (decide (i = j)) as [<-|]; [|done]. by rewrite (holds_lookup _ _ _ Hi), (pending_lookup _ _ _ Hi).
Qed.

(** The flag is taken, used and given back. *)
Lemma lawful_claims h s (n : N) fl last i f : lawful_by h (mkSystem s n fl last) -> fl !! i = Some f ->
  is_privileged (fl_command f) = true -> pending f = None -> sv_mutation_in_progress s = false ->
  lawful_by (Some i) (mkSystem (set_mutating true s) n (<[i := at_phase f Granted]> fl) last).
Proof.
  intros (Hf & Hh & Hp & Hc & He) Hi Hpriv Hpend Hfree. cbn in *. assert (h = None) as -> by (destruct h; [by rewrite Hfree, bool_decide_eq_true_2 in Hf|done]).
  split; [done|]. split; [|split; [|split; [|done]]]; cbn.
  - intros j. rewrite holds_insert. destruct (decide (i = j)) as [<-|Hij]; [unfold holding; cbn; by rewrite Hpriv|].
    rewrite Hh. split; [done|]. intros [= ->]. done.
  - intros j o. rewrite pending_insert. destruct (decide (i = j)) as [<-|Hij]; [done|]. by intros [_ [=]]%Hp.
  - intros Hnone. apply Hc. intros j. specialize (Hnone j). rewrite pending_insert in Hnone. destruct (decide (i = j)) as [<-|]; [|done].
    by rewrite (pending_lookup _ _ _ Hi).
Qed.
Lemma lawful_operates h s (n n' : N) fl last i f network : lawful_by h (mkSystem s n fl last) -> fl !! i = Some f ->
  holding f = true -> pending f = None ->
  lawful_by h (mkSystem s n' (<[i := at_phase f (Performed (Ok (Publish network)))]> fl) network).
Proof.
  intros (Hf & Hh & Hp & Hc & He) Hi Hhold Hpend. cbn in *. assert (h = Some i) as -> by (apply Hh; by rewrite (holds_lookup _ _ _ Hi)).
  split; [done|]. split; [|split; [|split; [|done]]]; cbn.
  - intros j. rewrite holds_insert, <- Hh. destruct (decide (i = j)) as [<-|Hij]; [|done]. rewrite (holds_lookup _ _ _ Hi), Hhold.
    unfold holding in *. cbn. destruct (is_privileged (fl_command f)); done.
  - intros j o. rewrite pending_insert. destruct (decide (i = j)) as [<-|Hij]; [by intros [= <-]|]. intros [_ [= ->]]%Hp. done.
  - intros Hnone. specialize (Hnone i). rewrite pending_insert, decide_True in Hnone by done. done.
Qed.
Lemma lawful_publishes h s (n : N) fl last i f network r : lawful_by h (mkSystem s n fl last) -> fl !! i = Some f ->
  fl_phase f = Performed (Ok (Publish network)) ->
  lawful_by h (mkSystem (update_current_network network s) n (<[i := at_phase f (Published r)]> fl) last).
Proof.
  intros (Hf & Hh & Hp & Hc & He) Hi Hph. cbn in *.
  assert (pending_at fl i = Some network) as [<- ->]%Hp by (rewrite (pending_lookup _ _ _ Hi); unfold pending; by rewrite Hph).
  split; [done|]. split; [|split; [|split; [|done]]]; cbn; [| |done].
  - intros j. rewrite holds_insert, <- Hh. destruct (decide (i = j)) as [<-|Hij]; [|done]. rewrite (holds_lookup _ _ _ Hi).
    unfold holding. cbn. by rewrite Hph.
  - intros j o. rewrite pending_insert. destruct (decide (i = j)) as [<-|Hij]; [done|]. intros [_ [= ->]]%Hp. done.
Qed.
Lemma lawful_releases h s (n : N) fl last i f r : lawful_by h (mkSystem s n fl last) -> fl !! i = Some f ->
  holding f = true -> pending f = None -> lawful_by None (mkSystem (set_mutating false s) n (<[i := at_phase f (Ended r)]> fl) last).
Proof.
  intros (Hf & Hh & Hp & Hc & He) Hi Hhold Hpend. cbn in *. assert (h = Some i) as -> by (apply Hh; by rewrite (holds_lookup _ _ _ Hi)).
  split; [done|]. split; [|split; [|split; [|done]]]; cbn.
  - intros j. rewrite holds_insert. destruct (decide (i = j)) as [<-|Hij]; [unfold holding; cbn; by rewrite andb_false_r|].
    rewrite Hh. split; [|done]. intros [= ->]. done.
  - intros j o. rewrite pending_insert. destruct (decide (i = j)) as [<-|Hij]; [done|]. intros [_ [= ->]]%Hp. done.
  - intros Hnone. apply Hc. intros j. specialize (Hnone j). rewrite pending_insert in Hnone. destruct (decide (i = j)) as [<-|]; [|done].
    by rewrite (pending_lookup _ _ _ Hi).
Qed.
Lemma failure_recorded c e s (n : N) s' n' : record_recent_failure c e (s, n) = (s', n') ->
  exists t, s' = set_errors (push_failure (mkFailure t (command_operation c) (fdo_error_class e)) (sv_recent_errors s)) s.
Proof. unfold record_recent_failure. destruct (unix_time_ms n) as [t m]. intros [= <- _]. by exists t. Qed.

Lemma step_lawful σ σ' : step σ σ' -> lawful σ -> lawful σ'.
Proof.
  destruct 1; intros [h Hl]; pose proof Hl as (_ & _ & _ & _ & Hb); cbn in Hb;
    try (assert (holding f = is_privileged (fl_command f) && match fl_phase f with Granted | Performed _ | Published _ => true | _ => false end) as Hhold by done;
         assert (pending f = match fl_phase f with Performed (Ok (Publish network)) => Some network | _ => None end) as Hpend by done;
         rewrite Hp in Hhold, Hpend; cbn in Hpend; rewrite ?andb_false_r, ?andb_true_r in Hhold).
  - exists h. apply (lawful_quiet _ _ _ _ _ _ _ _ Hl); [done..|]. intros j. rewrite holds_insert, pending_insert.
    destruct (decide (i = j)) as [<-|]; [|done]. unfold holds_at, pending_at, holding. rewrite Hi. cbn. by rewrite andb_false_r.
  - exists h. apply (lawful_moved _ _ _ _ _ _ _ _ _ _ Hl Hi); [|by rewrite Hpend; destruct r|done..].
    rewrite Hhold. unfold holding. destruct r; cbn; apply andb_false_r.
  - unfold claim_mutation in Hc. destruct (is_privileged (fl_command f)) eqn:Hpriv.
    + destruct (sv_mutation_in_progress s) eqn:Hm; [done|]. injection Hc as <-. exists (Some i). by apply (lawful_claims h).
    + injection Hc as <-. exists h. apply (lawful_moved _ _ _ _ _ _ _ _ _ _ Hl Hi); [|done..]. rewrite Hhold. unfold holding. cbn. by rewrite Hpriv.
  - exists h. apply (lawful_moved _ _ _ _ _ _ _ _ _ _ Hl Hi); [|done..]. rewrite Hhold. unfold holding. cbn. apply andb_false_r.
  - exists h. destruct x as [[resp|network]|e]; cbn [network_after].
    2:{ apply operate_publishes in Ho. apply (lawful_operates _ _ _ _ _ _ _ _ _ Hl Hi); [|done]. by rewrite Hhold. }
    all: apply (lawful_moved _ _ _ _ _ _ _ _ _ _ Hl Hi); [|done..]; rewrite Hhold; unfold holding; cbn; by rewrite andb_true_r.
  - exists h. destruct effect as [resp|network]; injection He as <- <-; [|by apply lawful_publishes].
    apply (lawful_moved _ _ _ _ _ _ _ _ _ _ Hl Hi); [|done..]. rewrite Hhold. unfold holding. cbn. by rewrite andb_true_r.
  - exists h. apply (lawful_moved _ _ _ _ _ _ _ _ _ _ Hl Hi); [|done..]. rewrite Hhold. unfold holding. cbn. by rewrite andb_true_r.
  - unfold release_mutation. destruct (is_privileged (fl_command f)) eqn:Hpriv.
    + exists None. by apply (lawful_releases h).
    + exists h. apply (lawful_moved _ _ _ _ _ _ _ _ _ _ Hl Hi); [|done..]. rewrite Hhold. unfold holding. cbn. by rewrite Hpriv.
  - exists h. by apply (lawful_done _ _ _ _ _ _ _ _ _ Hl Hi).
  - exists h. apply failure_recorded in Hr as [t ->]. apply (lawful_done _ _ _ _ _ _ _ _ _ Hl Hi); [done..|]. by apply push_failure_bound.
  - exists h. by apply (lawful_quiet _ _ _ _ _ _ _ _ Hl).
  - exists h. by apply (lawful_quiet _ _ _ _ _ _ _ _ Hl).
  - exists h. by apply (lawful_quiet _ _ _ _ _ _ _ _ Hl).
Qed.

Lemma steps_lawful σ σ' : rtc step σ σ' -> lawful σ -> lawful σ'.
Proof. induction 1; [done|]. eauto using step_lawful. Qed.

(** C33. However requests interleave with each other, with the observers and with
    the world, at most one privileged request is between its claim and the end of
    its guard; the flag is set exactly then; a request about to publish a network
    is that one, and the network is the one the last operation that succeeded
    ended in; so whenever no mutation is in progress the status names that
    network.  No more than sixteen failures are kept. *)
Theorem requests_serialized (σ0 σ : System N) (Hinit : initial σ0) (Hrun : rtc step σ0 σ) :
  (forall i j, holds_at (sys_flights σ) i = true -> holds_at (sys_flights σ) j = true -> i = j) /\
  (sv_mutation_in_progress (sys_service σ) = true <-> exists i, holds_at (sys_flights σ) i = true) /\
  (forall i f network, sys_flights σ !! i = Some f -> fl_phase f = Performed (Ok (Publish network)) ->
     holds_at (sys_flights σ) i = true /\ network = sys_last σ) /\
  (sv_mutation_in_progress (sys_service σ) = false -> st_current_network (sv_status (sys_service σ)) = sys_last σ) /\
  (length (sv_recent_errors (sys_service σ)) <= MAX_RECENT_ERRORS)%nat.
Proof.
  destruct (steps_lawful _ _ Hrun (initial_lawful _ Hinit)) as (h & Hf & Hh & Hp & Hc & He).
  split; [intros i j Hi%Hh Hj%Hh; congruence|]. split; [|split; [|split; [|done]]].
  - rewrite Hf, bool_decide_eq_true. unfold is_Some. by setoid_rewrite Hh.
  - intros i f network Hi Hph. rewrite Hh. assert (pending_at (sys_flights σ) i = Some network) as [-> ->]%Hp; [|done].
    rewrite (pending_lookup _ _ _ Hi). unfold pending. by rewrite Hph.
  - intros Hfree. apply Hc. intros i. destruct (pending_at (sys_flights σ) i) eqn:Hi; [|done]. apply Hp in Hi as [_ ->].
    by rewrite Hfree, bool_decide_eq_true_2 in Hf.
Qed.
(** ** A request on its own is a run of the steps *)

Lemma run_ends s (n : N) fl last i f r s' n' : fl !! i = None -> fl_phase f = Ended r ->
  (match r with Ok _ => (s, n) | Err e => record_recent_failure (fl_command f) e (s, n) end) = (s', n') ->
  rtc step (mkSystem s n (<[i := f]> fl) last) (mkSystem s' n' fl last).
Proof.
  intros Hi Hp Hr. assert (delete i (<[i := f]> fl) = fl) as Hd by (by apply delete_insert_id).
  apply rtc_once. rewrite <- Hd at 2. destruct r as [text|e].
  - injection Hr as <- <-. eapply step_answer; [apply lookup_insert_eq|done].
  - eapply step_record; [apply lookup_insert_eq|done|done].
Qed.

Lemma run_step s s1 s' (n n1 n' : N) fl fl' last1 last last' i f g :
  step (mkSystem s n (<[i := f]> fl) last) (mkSystem s1 n1 (<[i := g]> (<[i := f]> fl)) last1) ->
  rtc step (mkSystem s1 n1 (<[i := g]> fl) last1) (mkSystem s' n' fl' last') ->
  rtc step (mkSystem s n (<[i := f]> fl) last) (mkSystem s' n' fl' last').
Proof. intros Hs Hr. eapply rtc_l; [exact Hs|]. by rewrite insert_insert_eq. Qed.

Lemma perform_run s (n : N) fl last i f r s1 n1 : fl !! i = None -> fl_phase f = Granted ->
  perform encode_response (fl_command f) (s, n) = (r, (s1, n1)) ->
  exists last', rtc step (mkSystem s n (<[i := f]> fl) last)
    (mkSystem (release_mutation (fl_command f) s1) n1 (<[i := at_phase f (Ended r)]> fl) last').
Proof.
  intros Hi Hp. unfold perform. destruct (operate (fl_command f) s n) as [x n2] eqn:Ho. intros Hr. exists (network_after x last).
  eapply run_step; [eapply step_operate; [apply lookup_insert_eq|done|exact Ho]|].
  assert (rtc step (mkSystem s n2 (<[i := at_phase f (Performed x)]> fl) (network_after x last))
    (mkSystem s1 n1 (<[i := at_phase f (Published r)]> fl) (network_after x last))) as Hmid.
  { destruct x as [effect|e].
    - destruct (publish encode_response effect s) as [r' s2] eqn:He. injection Hr as <- <- <-.
      eapply run_step; [eapply step_publish; [apply lookup_insert_eq|done|exact He]|]. done.
    - injection Hr as <- <- <-. eapply run_step; [eapply step_failed; [apply lookup_insert_eq|done]|]. done. }
  etransitivity; [exact Hmid|]. eapply run_step; [eapply step_release; [apply lookup_insert_eq|done]|]. done.
Qed.

Lemma request_run decode_command payload sender c s (n : N) r s' n' fl last i :
  decode_command payload = Some c -> fl !! i = None ->
  request decode_command encode_response payload sender (s, n) = (r, (s', n')) ->
  exists last', rtc step (mkSystem s n fl last) (mkSystem s' n' fl last').
Proof.
  intros Hd Hi. unfold request, execute_command, st_bind, authorized. rewrite Hd. intros Hr.
  enough (exists last', rtc step (mkSystem s n (<[i := mkFlight sender c Received]> fl) last) (mkSystem s' n' fl last')) as [last' Hrun].
  { exists last'. eapply rtc_l; [by apply step_arrive|exact Hrun]. }
  destruct (authorize_command sender c n) as [[[]|e] n1] eqn:Ha.
  2:{ exists last. eapply run_step; [eapply step_authorize; [apply lookup_insert_eq|done|exact Ha]|].
      injection Hr as _ Hr. by eapply (run_ends _ _ _ _ _ _ (Err e)). }
  destruct (claim_mutation c s) as [s1|e] eqn:Hc.
  2:{ exists last. eapply run_step; [eapply step_authorize; [apply lookup_insert_eq|done|exact Ha]|].
      eapply run_step; [eapply step_busy; [apply lookup_insert_eq|done|exact Hc]|].
      injection Hr as _ Hr. by eapply (run_ends _ _ _ _ _ _ (Err e)). }
  destruct (perform encode_response c (s1, n1)) as [x [s2 n2]] eqn:Hx.
  destruct (perform_run s1 n1 fl last i (mkFlight sender c Granted) x s2 n2 Hi eq_refl Hx) as [last' Hrun]. exists last'.
  eapply run_step; [eapply step_authorize; [apply lookup_insert_eq|done|exact Ha]|].
  eapply run_step; [eapply step_claim; [apply lookup_insert_eq|done|exact Hc]|].
  etransitivity; [exact Hrun|]. eapply (run_ends _ _ _ _ _ _ x); [done..|]. destruct x; [by injection Hr as _ <- <-|by injection Hr as _ Hr].
Qed.
End interleaved.

(** A daemon whose world counts operations, and whose authority grants the sender
    [1] the modifying action. *)
Module demo.
Definition ops : ServiceOperations nat := {|
  list_networks := fun n => (Ok [], n);
  diagnostic_interfaces := fun n => (Ok None, n);
  ops_create_network := fun _ n => (Ok (fill_id 7%Z), S n);
  ops_leave_network := fun n => (Ok (), S n);
  start_discovery := fun n => (Ok (), n);
  stop_discovery := fun n => (Ok (), n);
  ops_trust_peer := fun _ n => (Ok (), S n);
  ops_forget_peer := fun _ n => (Ok (), S n);
  ops_join_network := fun _ n => (Ok (), S n);
  unix_time_ms := fun n => (5%Z, n);
|}.
Definition authority : PolicyKit nat := {|
  policykit_proxy := fun n => (Ok (), n);
  check_authorization := fun name action n => (Ok (bool_decide (name = [1%Z]) && bool_decide (action = MODIFY_ACTION_ID)), n);
|}.
#[local] Existing Instances ops authority.

Definition service : DaemonService :=
  mkService (mkStatus API_VERSION_CURRENT None None Healthy caps_default) true false true false None None [].
Definition decode (l : list Z) : option Command :=
  match l with [1%Z] => Some (JoinNetwork (fill_id 3%Z)) | [2%Z] => Some LeaveNetwork | _ => None end.
Definition ask (payload sender : list Z) :=
  request decode (fun _ => Some []) payload (Some sender) (service, 0%nat).
End demo.

#[local] Existing Instances demo.ops demo.authority.
Lemma request_gated_witness : exists r s' n', demo.ask [1%Z] [1%Z] = (r, (s', n')) /\
  is_ok r = true /\ st_current_network (sv_status s') = Some (fill_id 3%Z) /\ sv_mutation_in_progress s' = false.
Proof.
  exists (Ok []), (update_current_network (Some (fill_id 3%Z)) demo.service), 1%nat. assert (length (sv_recent_errors demo.service) <= MAX_RECENT_ERRORS)%nat as Hb by (apply Nat.le_0_l).
  split; [reflexivity|]. split; [reflexivity|]. split; [reflexivity|].
  refine (proj1 (request_gated demo.decode (fun _ => Some []) [1%Z] (Some [1%Z]) demo.service 0%nat (Ok []) _ 1%nat Hb _)). reflexivity.
Defined.

(** One request has joined and is about to say so; a second has arrived. *)
Definition demo_start : System nat := mkSystem demo.service 0%nat ∅ None.
Definition demo_between : System nat :=
  mkSystem (set_mutating true demo.service) 1%nat
    (<[2%nat := mkFlight (Some [1%Z]) LeaveNetwork Received]>
      {[1%nat := mkFlight (Some [1%Z]) (JoinNetwork (fill_id 3%Z)) (Performed (Ok (Publish (Some (fill_id 3%Z)))))]}) (Some (fill_id 3%Z)).

Lemma demo_run : rtc (step (fun _ => Some [])) demo_start demo_between.
Proof.
  eapply rtc_l; [by apply (step_arrive _ _ _ _ _ 1%nat (Some [1%Z]) (JoinNetwork (fill_id 3%Z)))|].
  eapply rtc_l; [by eapply (step_authorize _ _ _ _ _ 1%nat)|].
  eapply rtc_l; [by eapply (step_claim _ _ _ _ _ 1%nat)|].
  eapply rtc_l; [by eapply (step_operate _ _ _ _ _ 1%nat)|].
  eapply rtc_l; [by apply (step_arrive _ _ _ _ _ 2%nat (Some [1%Z]) LeaveNetwork)|]. apply rtc_refl.
Qed.

Lemma requests_serialized_witness :
  sv_mutation_in_progress (sys_service demo_between) = true <-> exists i, holds_at (sys_flights demo_between) i = true.
Proof.
  refine (proj1 (proj2 (requests_serialized (fun _ => Some []) demo_start demo_between _ demo_run))).
  by repeat split.
Defined.
