(* ===== verification/NapServer.v ===== *)
(** The NAP server of [crates/blueroute-linux/src/pan.rs]: its ownership record and
    the calls that register and withdraw it.

    The system bus, [/sys/class/net] and the timer act on one world, behind
    [SystemBus].  The lock of the record is never poisoned.  A name of a D-Bus
    constant is its text. *)

From stdpp Require Import gmap.
From S2P Require Import Prelude Order Ident StateText Routes LinuxRoutes StarHost JoinNetwork.

(** ** The system bus *)

Definition BLUEZ_SERVICE : string := "org.bluez".
Definition ADAPTER_INTERFACE : string := "org.bluez.Adapter1".
Definition NETWORK_SERVER_INTERFACE : string := "org.bluez.NetworkServer1".
Definition LOCAL_NAP_ROLE : list Z := code_points "nap".
Definition NAP_EVENT_POLL_INTERVAL : Z := 250.

(** [zbus::Error]: the name of a method error, its detail, and what the error prints
    as. *)
Inductive BusError := MethodError (name : string) (detail : option string) (text : string) | BusFailure (text : string).
Definition bus_text (e : BusError) : string := match e with MethodError _ _ t | BusFailure t => t end.
Definition method_error_name (e : BusError) : option string := match e with MethodError name _ _ => Some name | BusFailure _ => None end.

Inductive FsError := FsNotFound (text : string) | FsOther (text : string).
Definition fs_text (e : FsError) : string := match e with FsNotFound t | FsOther t => t end.

(** A [Proxy]: the bus name it addresses, the object and the interface. *)
Record Proxy := mkProxy { px_destination : list Z; px_path : list Z; px_interface : string }.

Class SystemBus (W : Type) := {
  dbus_proxy_new : stres W BusError ();
  name_has_owner : string -> stres W BusError bool;
  get_name_owner : string -> stres W BusError (list Z);
  proxy_new : Proxy -> stres W BusError ();
  get_bool : Proxy -> string -> stres W BusError bool;
  get_text : Proxy -> string -> stres W BusError (list Z);
  (** The text in the body of the reply, or why it holds none. *)
  call_method : Proxy -> string -> list (list Z) -> stres W BusError (result string (list Z));
  is_dir : list Z -> W -> bool;
  (** The names that are UTF-8; an entry that cannot be read is an error. *)
  read_dir : list Z -> stres W FsError (list (result FsError (option (list Z))));
  read_to_string : list Z -> stres W FsError (list Z);
  (** Milliseconds. *)
  timer_after : Z -> W -> W;
}.

Definition pan_error (k : ErrorKind) (m text : string) : CoreError := core_error_with_diagnostic k m text.

Definition sys_class_net (name : list Z) (rest : string) : list Z := code_points "/sys/class/net/" ++ name ++ code_points rest.

Definition valid_linux_interface_name (name : list Z) : bool :=
  negb (bool_decide (name = [])) && (length (utf8_encode name) <=? 15)%nat
  && negb (bool_decide (name = code_points ".")) && negb (bool_decide (name = code_points ".."))
  && negb (bool_decide (47%Z ∈ name)) && negb (bool_decide (0%Z ∈ name)).

Definition eq_ignore_ascii_case (a b : list Z) : bool := bool_decide (ascii_lower <$> a = ascii_lower <$> b).

Definition uevent_reports_bluetooth (content : list Z) : bool :=
  existsb (fun line => eq_ignore_ascii_case (trim line) (code_points "DEVTYPE=bluetooth")) (lines content).

Inductive NapEvent := ClientAttached (a : PanAttachment) | ClientDetached (a : PanAttachment).

Definition nap_client_attachment (interface : NetworkInterfaceHandle) : PanAttachment := mkAttachment Nap interface None.

Definition queue_nap_client_changes (previous current : gset NetworkInterfaceHandle) (pending : list NapEvent) : list NapEvent :=
  pending ++ ((fun i => ClientDetached (nap_client_attachment i)) <$> iter_set (previous ∖ current))
    ++ ((fun i => ClientAttached (nap_client_attachment i)) <$> iter_set (current ∖ previous)).

(** ** Errors of the bus *)

Definition nap_register_method_error (name : string) : ErrorKind * string :=
  if bool_decide (name = "org.bluez.Error.AlreadyExists") then (InvalidState, "a Bluetooth NAP server is already registered on this adapter")
  else if bool_decide (name = "org.bluez.Error.NotReady") then (AdapterDisabled, "Bluetooth adapter is not ready to provide a NAP")
  else if bool_decide (name = "org.bluez.Error.InvalidArguments") then (ProtocolError, "BlueZ rejected the NAP registration arguments")
  else if bool_decide (name ∈ ["org.bluez.Error.NotAuthorized"; "org.freedesktop.DBus.Error.AccessDenied"]) then
    (CapabilityUnavailable, "Bluetooth NAP registration is not authorized on this system")
  else if bool_decide (name ∈ ["org.freedesktop.DBus.Error.ServiceUnknown"; "org.freedesktop.DBus.Error.NameHasNoOwner"]) then
    (BluezUnavailable, "BlueZ restarted or became unavailable during NAP registration")
  else if bool_decide (name ∈ ["org.freedesktop.DBus.Error.UnknownMethod"; "org.freedesktop.DBus.Error.UnknownInterface";
      "org.bluez.Error.NotSupported"; "org.bluez.Error.NotAvailable"]) then
    (CapabilityUnavailable, "BlueZ does not provide the NAP server capability on this adapter")
  else (PanFailure, "Bluetooth NAP registration failed").

Definition nap_register_error (e : BusError) : CoreError :=
  let (k, m) := match method_error_name e with
    | Some name => nap_register_method_error name
    | None => (BluezUnavailable, "Bluetooth NAP registration failed because BlueZ is unavailable")
    end in pan_error k m (bus_text e).

Definition nap_unregister_error (e : BusError) : CoreError :=
  let k := match method_error_name e with
    | Some name => if bool_decide (name ∈ ["org.freedesktop.DBus.Error.UnknownMethod"; "org.freedesktop.DBus.Error.UnknownInterface";
        "org.bluez.Error.NotSupported"; "org.bluez.Error.NotAvailable"]) then CapabilityUnavailable else PanFailure
    | None => BluezUnavailable
    end in pan_error k "failed to stop the Bluetooth NAP server" (bus_text e).

Definition nap_unregister_is_already_absent (e : BusError) : bool :=
  match method_error_name e with
  | Some name => bool_decide (name ∈ ["org.bluez.Error.DoesNotExist"; "org.freedesktop.DBus.Error.UnknownObject";
      "org.freedesktop.DBus.Error.UnknownInterface"; "org.freedesktop.DBus.Error.UnknownMethod";
      "org.freedesktop.DBus.Error.ServiceUnknown"; "org.freedesktop.DBus.Error.NameHasNoOwner"])
  | None => false
  end.

Definition dbus_object_is_absent (e : BusError) : bool :=
  match method_error_name e with
  | Some name => bool_decide (name ∈ ["org.bluez.Error.DoesNotExist"; "org.freedesktop.DBus.Error.UnknownObject";
      "org.freedesktop.DBus.Error.UnknownInterface"])
  | None => false
  end.

(** ** The record of what was registered *)

Record NapRegistration := mkRegistration { nr_bridge : NetworkInterfaceHandle; nr_bluez_owner : list Z }.
#[global] Instance NapRegistration_eq_dec : EqDecision NapRegistration.
Proof. solve_decision. Defined.

Inductive NapLifecycleState := Registering (r : NapRegistration) | NapActive (r : NapRegistration) | Stopping (r : NapRegistration).
#[global] Instance NapLifecycleState_eq_dec : EqDecision NapLifecycleState.
Proof. solve_decision. Defined.

Abbreviation NapControl := (gmap AdapterHandle NapLifecycleState).

Definition nap_different_bridge : CoreError := core_error InvalidState "Bluetooth NAP is already active on a different bridge".
Definition nap_in_progress : CoreError := core_error InvalidState "another Bluetooth NAP lifecycle operation is already in progress".
Definition nap_state_changed : CoreError := core_error Internal "Bluetooth NAP ownership state changed during registration".

(** [None]: the adapter is now registering. *)
Definition begin_nap_registration (adapter : AdapterHandle) (requested : NapRegistration) (control : NapControl) :
    CoreResult (option NapRegistration * NapControl) :=
  let same (existing : NapRegistration) := bool_decide (nr_bluez_owner existing = nr_bluez_owner requested) in
  let begun := Ok (None, <[adapter := Registering requested]> control) in
  match control !! adapter with
  | Some (NapActive existing) =>
    if same existing then
      if bool_decide (nr_bridge existing = nr_bridge requested) then Ok (Some existing, control) else Err nap_different_bridge
    else begun
  | Some (Registering existing) | Some (Stopping existing) => if same existing then Err nap_in_progress else begun
  | None => begun
  end.

Definition activate_nap_registration (adapter : AdapterHandle) (registration : NapRegistration) (control : NapControl) :
    CoreResult NapControl :=
  if bool_decide (control !! adapter = Some (Registering registration)) then Ok (<[adapter := NapActive registration]> control)
  else Err nap_state_changed.

(** [None]: there is nothing to unregister. *)
Definition begin_nap_stop (adapter : AdapterHandle) (current_owner : option (list Z)) (control : NapControl) :
    CoreResult (option NapRegistration * NapControl) :=
  match control !! adapter with
  | None => Ok (None, control)
  | Some (NapActive registration) =>
    if bool_decide (current_owner = Some (nr_bluez_owner registration)) then
      Ok (Some registration, <[adapter := Stopping registration]> control)
    else Ok (None, delete adapter control)
  | Some (Registering _) | Some (Stopping _) => Err nap_in_progress
  end.

Definition restore_nap_registration (adapter : AdapterHandle) (registration : NapRegistration) (control : NapControl) : NapControl :=
  <[adapter := NapActive registration]> control.

Definition clear_nap_registration (adapter : AdapterHandle) (control : NapControl) : NapControl := delete adapter control.

Definition nap_registration_is_active (adapter : AdapterHandle) (bridge : NetworkInterfaceHandle) (owner : list Z) (control : NapControl) : bool :=
  bool_decide (control !! adapter = Some (NapActive (mkRegistration bridge owner))).

Definition ensure_owned_nap_registration (adapter : AdapterHandle) (bridge : NetworkInterfaceHandle) (owner : list Z) (control : NapControl) :
    CoreResult () :=
  guard_err (negb (nap_registration_is_active adapter bridge owner control))
    (core_error InvalidState "NAP event subscription requires an active NAP owned by this backend") (Ok ()).

(** ** The operations *)

Section operations.
Context {W : Type} `{SystemBus W}.

Definition bus {A : Type} (k : ErrorKind) (m : string) (x : stres W BusError A) : stres W CoreError A :=
  st_map_err (fun e => pan_error k m (bus_text e)) x.
Definition file {A : Type} (k : ErrorKind) (m : string) (x : stres W FsError A) : stres W CoreError A :=
  st_map_err (fun e => pan_error k m (fs_text e)) x.

Definition current_bluez_owner : stres W CoreError (option (list Z)) :=
  let! _ := bus BluezUnavailable "failed to create a system D-Bus service proxy for Bluetooth NAP ownership" dbus_proxy_new in
  let! has_owner := bus BluezUnavailable "failed to query BlueZ service availability for Bluetooth NAP ownership" (name_has_owner BLUEZ_SERVICE) in
  if has_owner : bool then
    let! owner := bus BluezUnavailable "failed to identify the current BlueZ service instance" (get_name_owner BLUEZ_SERVICE) in
    st_ret (Some owner)
  else st_ret None.

Definition POWERED_PROPERTY : string := "Powered".
Definition ensure_adapter_powered (adapter : AdapterHandle) : stres W CoreError () :=
  let proxy := mkProxy (code_points BLUEZ_SERVICE) (adapter_str adapter) ADAPTER_INTERFACE in
  let! _ := bus BluezUnavailable "failed to access the Bluetooth adapter for NAP registration" (proxy_new proxy) in
  let! powered := st_map_err
    (fun e => pan_error (if dbus_object_is_absent e then MissingAdapter else BluezUnavailable)
      "failed to read Bluetooth adapter power state" (bus_text e)) (get_bool proxy POWERED_PROPERTY) in
  if powered : bool then st_ret () else st_fail (core_error AdapterDisabled "Bluetooth adapter is powered off").

(** The proxy of the BlueZ instance that owns the registration. *)
Definition network_server (adapter : AdapterHandle) (owner : list Z) : Proxy := mkProxy owner (adapter_str adapter) NETWORK_SERVER_INTERFACE.
Definition network_server_proxy (adapter : AdapterHandle) (owner : list Z) : stres W CoreError Proxy :=
  let! _ := bus BluezUnavailable "failed to create the BlueZ NAP server proxy" (proxy_new (network_server adapter owner)) in
  st_ret (network_server adapter owner).

Definition validate_nap_bridge (bridge : NetworkInterfaceHandle) : stres W CoreError () := fun w =>
  let name := as_str bridge in
  (guard_err (negb (valid_linux_interface_name name)) (core_error InvalidInput "NAP bridge is not a valid Linux interface name")
   (guard_err (negb (is_dir (sys_class_net name "") w)) (core_error InvalidInput "NAP bridge does not exist")
    (guard_err (negb (is_dir (sys_class_net name "/bridge") w)) (core_error InvalidInput "NAP interface is not a Linux bridge") (Ok ()))), w).

Definition validate_nap_service_attachment (attachment : PanAttachment) : stres W CoreError () :=
  let! _ := st_lift (guard_err (negb (bool_decide (pa_role attachment = Nap)))
    (core_error InvalidInput "NAP event subscription requires a NAP attachment")
    (guard_err (bool_decide (is_Some (pa_peer attachment)))
      (core_error InvalidInput "NAP service attachment must not identify a remote peer") (Ok ()))) in
  validate_nap_bridge (pa_interface attachment).

Definition nap_service_attachment (bridge : NetworkInterfaceHandle) : stres W CoreError PanAttachment :=
  let! _ := validate_nap_bridge bridge in st_ret (mkAttachment Nap bridge None).

Definition network_interface_is_bluetooth (name : list Z) : stres W CoreError bool :=
  let! content := file PanFailure "failed to identify a NAP bridge member" (read_to_string (sys_class_net name "/uevent")) in
  st_ret (uevent_reports_bluetooth content).

Fixpoint collect_clients (entries : list (result FsError (option (list Z)))) (clients : gset NetworkInterfaceHandle) :
    stres W CoreError (gset NetworkInterfaceHandle) :=
  match entries with
  | [] => st_ret clients
  | Err e :: _ => st_fail (pan_error PanFailure "failed to inspect a NAP bridge member" (fs_text e))
  | Ok None :: entries => collect_clients entries clients
  | Ok (Some name) :: entries =>
    let! bluetooth := network_interface_is_bluetooth name in
    if bluetooth : bool then
      let! handle := st_lift (interface_new name) in collect_clients entries ({[handle]} ∪ clients)
    else collect_clients entries clients
  end.

Definition nap_client_interfaces (bridge : NetworkInterfaceHandle) : stres W CoreError (gset NetworkInterfaceHandle) :=
  let! _ := validate_nap_bridge bridge in
  let! entries := file PanFailure "failed to inspect NAP bridge client interfaces" (read_dir (sys_class_net (as_str bridge) "/brif")) in
  collect_clients entries ∅.

(** Both parts of the state of an operation. *)
Definition on_bus {A : Type} (m : stres W CoreError A) : stres (NapControl * W) CoreError A := fun '(c, w) =>
  let (r, w) := m w in (r, (c, w)).
Definition on_control {A : Type} (f : NapControl -> CoreResult (A * NapControl)) : stres (NapControl * W) CoreError A := fun '(c, w) =>
  match f c with Ok (a, c) => (Ok a, (c, w)) | Err e => (Err e, (c, w)) end.

Definition NETWORK_REGISTER : string := "Register".
Definition NETWORK_UNREGISTER : string := "Unregister".
Definition bluez_absent : CoreError := core_error BluezUnavailable "BlueZ is not available on the system D-Bus".
Definition rollback_failed : CoreError :=
  core_error Internal "registered the Bluetooth NAP but failed to record or fully roll back its ownership state".

(** The call to BlueZ, and what its answer makes of the record. *)
Definition register_nap (adapter : AdapterHandle) (registration : NapRegistration) : stres (NapControl * W) CoreError PanAttachment := fun '(c, w) =>
  match network_server_proxy adapter (nr_bluez_owner registration) w with
  | (Err e, w) => (Err e, (clear_nap_registration adapter c, w))
  | (Ok proxy, w) =>
    match call_method proxy NETWORK_REGISTER [LOCAL_NAP_ROLE; as_str (nr_bridge registration)] w with
    | (Err e, w) => (Err (nap_register_error e), (clear_nap_registration adapter c, w))
    | (Ok _, w) =>
      match activate_nap_registration adapter registration c with
      | Ok c => let (r, w) := nap_service_attachment (nr_bridge registration) w in (r, (c, w))
      | Err e =>
        let (cleanup, w) := call_method proxy NETWORK_UNREGISTER [LOCAL_NAP_ROLE] w in
        (Err (if is_ok cleanup then e else rollback_failed), (clear_nap_registration adapter c, w))
      end
    end
  end.

Definition start_nap (adapter : AdapterHandle) (bridge : NetworkInterfaceHandle) : stres (NapControl * W) CoreError PanAttachment :=
  let! _ := on_bus (validate_nap_bridge bridge) in
  let! _ := on_bus (ensure_adapter_powered adapter) in
  let! owner := on_bus current_bluez_owner in
  let! owner := st_lift (ok_or owner bluez_absent) in
  let registration := mkRegistration bridge owner in
  let! existing := on_control (begin_nap_registration adapter registration) in
  match existing with
  | Some existing => on_bus (nap_service_attachment (nr_bridge existing))
  | None => register_nap adapter registration
  end.

Definition unregister_nap (adapter : AdapterHandle) (registration : NapRegistration) : stres (NapControl * W) CoreError () := fun '(c, w) =>
  match network_server_proxy adapter (nr_bluez_owner registration) w with
  | (Err e, w) => (Err e, (restore_nap_registration adapter registration c, w))
  | (Ok proxy, w) =>
    match call_method proxy NETWORK_UNREGISTER [LOCAL_NAP_ROLE] w with
    | (Ok _, w) => (Ok (), (clear_nap_registration adapter c, w))
    | (Err e, w) =>
      if nap_unregister_is_already_absent e then (Ok (), (clear_nap_registration adapter c, w))
      else (Err (nap_unregister_error e), (restore_nap_registration adapter registration c, w))
    end
  end.

Definition stop_nap (adapter : AdapterHandle) : stres (NapControl * W) CoreError () :=
  let! owner := on_bus current_bluez_owner in
  let! registration := on_control (begin_nap_stop adapter owner) in
  match registration with
  | None => st_ret ()
  | Some registration => unregister_nap adapter registration
  end.

(** ** Events of the clients *)

Record BluezNapSubscription := mkNapSubscription {
  ns_adapter : AdapterHandle;
  ns_bridge : NetworkInterfaceHandle;
  ns_bluez_owner : list Z;
  ns_clients : gset NetworkInterfaceHandle;
  ns_pending : list NapEvent;
}.
Definition set_clients (clients : gset NetworkInterfaceHandle) (pending : list NapEvent) (s : BluezNapSubscription) : BluezNapSubscription :=
  mkNapSubscription (ns_adapter s) (ns_bridge s) (ns_bluez_owner s) clients pending.

Definition subscribe_nap_events (adapter : AdapterHandle) (attachment : PanAttachment) :
    stres (NapControl * W) CoreError BluezNapSubscription :=
  let! _ := on_bus (validate_nap_service_attachment attachment) in
  let! owner := on_bus current_bluez_owner in
  let! owner := st_lift (ok_or owner bluez_absent) in
  let! _ := on_control (fun c => _ ← ensure_owned_nap_registration adapter (pa_interface attachment) owner c; Ok (tt, c)) in
  let! clients := on_bus (nap_client_interfaces (pa_interface attachment)) in
  st_ret (mkNapSubscription adapter (pa_interface attachment) owner clients (queue_nap_client_changes ∅ clients [])).

Definition registration_is_current (s : BluezNapSubscription) : stres (NapControl * W) CoreError bool :=
  let! owner := on_bus current_bluez_owner in
  if bool_decide (owner = Some (ns_bluez_owner s)) then
    on_control (fun c => Ok (nap_registration_is_active (ns_adapter s) (ns_bridge s) (ns_bluez_owner s) c, c))
  else st_ret false.

(** One round of [next_event], before the timer when [first]; [None]: the loop goes on. *)
Definition next_event_round (first : bool) (s : BluezNapSubscription) :
    stres (NapControl * W) CoreError (option (option NapEvent) * BluezNapSubscription) :=
  let! _ := fun '(c, w) => (Ok tt, (c, if first then w else timer_after NAP_EVENT_POLL_INTERVAL w)) in
  let! current := registration_is_current s in
  if negb current then st_ret (Some None, set_clients (ns_clients s) [] s) else
  let! s := if first then st_ret s else
    let! clients := on_bus (nap_client_interfaces (ns_bridge s)) in
    st_ret (set_clients clients (queue_nap_client_changes (ns_clients s) clients (ns_pending s)) s) in
  match ns_pending s with
  | event :: pending => st_ret (Some (Some event), set_clients (ns_clients s) pending s)
  | [] => st_ret (None, s)
  end.
End operations.

(** ** Lifecycles side by side

    A start or a stop gives way to others while it waits for BlueZ.  [served] is
    not of the code: the registrations that an instance of BlueZ, by its bus name,
    acknowledged and has not been acknowledged to have withdrawn. *)

Inductive Attempt :=
| Starting (r : NapRegistration)
| Registered (r : NapRegistration)
| Withdrawing (r : NapRegistration)
| StoppingAt (r : NapRegistration)
| Stopped (r : NapRegistration).

Record NapSystem := mkNapSystem {
  control : NapControl;
  attempts : gmap nat (AdapterHandle * Attempt);
  served : gmap (AdapterHandle * list Z) NetworkInterfaceHandle;
}.

(** The instance of BlueZ on the bus when the step happens is [owner]. *)
Inductive nap_step (owner : option (list Z)) : NapSystem -> NapSystem -> Prop :=
| nap_begin_start c ts sv i a r c' (Hi : ts !! i = None) (Ho : owner = Some (nr_bluez_owner r))
    (Hb : begin_nap_registration a r c = Ok (None, c')) :
    nap_step owner (mkNapSystem c ts sv) (mkNapSystem c' (<[i := (a, Starting r)]> ts) sv)
| nap_register c ts sv i a r (Hi : ts !! i = Some (a, Starting r)) :
    nap_step owner (mkNapSystem c ts sv)
      (mkNapSystem c (<[i := (a, Registered r)]> ts) (<[(a, nr_bluez_owner r) := nr_bridge r]> sv))
| nap_refused c ts sv i a r (Hi : ts !! i = Some (a, Starting r)) :
    nap_step owner (mkNapSystem c ts sv) (mkNapSystem (clear_nap_registration a c) (delete i ts) sv)
| nap_activate c ts sv i a r c' (Hi : ts !! i = Some (a, Registered r)) (Ha : activate_nap_registration a r c = Ok c') :
    nap_step owner (mkNapSystem c ts sv) (mkNapSystem c' (delete i ts) sv)
| nap_changed c ts sv i a r e (Hi : ts !! i = Some (a, Registered r)) (Ha : activate_nap_registration a r c = Err e) :
    nap_step owner (mkNapSystem c ts sv) (mkNapSystem c (<[i := (a, Withdrawing r)]> ts) sv)
| nap_withdraw c ts sv i a r (done : bool) (Hi : ts !! i = Some (a, Withdrawing r)) :
    nap_step owner (mkNapSystem c ts sv)
      (mkNapSystem (clear_nap_registration a c) (delete i ts) (if done then delete (a, nr_bluez_owner r) sv else sv))
| nap_begin_stop c ts sv i a r c' (Hi : ts !! i = None) (Hb : begin_nap_stop a owner c = Ok (Some r, c')) :
    nap_step owner (mkNapSystem c ts sv) (mkNapSystem c' (<[i := (a, StoppingAt r)]> ts) sv)
| nap_nothing c ts sv a c' (Hb : begin_nap_stop a owner c = Ok (None, c')) :
    nap_step owner (mkNapSystem c ts sv) (mkNapSystem c' ts sv)
| nap_unregister c ts sv i a r (Hi : ts !! i = Some (a, StoppingAt r)) :
    nap_step owner (mkNapSystem c ts sv)
      (mkNapSystem c (<[i := (a, Stopped r)]> ts) (delete (a, nr_bluez_owner r) sv))
| nap_restore c ts sv i a r (Hi : ts !! i = Some (a, StoppingAt r)) :
    nap_step owner (mkNapSystem c ts sv) (mkNapSystem (restore_nap_registration a r c) (delete i ts) sv)
| nap_clear c ts sv i a r (Hi : ts !! i = Some (a, Stopped r)) :
    nap_step owner (mkNapSystem c ts sv) (mkNapSystem (clear_nap_registration a c) (delete i ts) sv).

Definition nap_initial : NapSystem := mkNapSystem ∅ ∅ ∅.

(** What the record and BlueZ hold while the attempt is in flight. *)
Definition held_by (p : Attempt) : option NapLifecycleState * option NapRegistration :=
  match p with
  | Starting r => (Some (Registering r), None)
  | Registered r => (Some (Registering r), Some r)
  | Withdrawing r => (None, None)
  | StoppingAt r => (Some (Stopping r), Some r)
  | Stopped r => (Some (Stopping r), None)
  end.
Definition attempt_registration (p : Attempt) : NapRegistration :=
  match p with Starting r | Registered r | Withdrawing r | StoppingAt r | Stopped r => r end.
Definition is_withdrawing (p : Attempt) : bool := match p with Withdrawing _ => true | _ => false end.

(** What one adapter's part of the system is, under the instance [o]. *)
Definition settled (o : list Z) (a : AdapterHandle) (σ : NapSystem) : Prop :=
  served σ !! (a, o) = match control σ !! a with Some (NapActive r) => Some (nr_bridge r) | _ => None end /\
  match control σ !! a with Some (NapActive r) => nr_bluez_owner r = o | None => True | _ => False end.
Definition busy_with (o : list Z) (a : AdapterHandle) (p : Attempt) (σ : NapSystem) : Prop :=
  is_withdrawing p = false /\ nr_bluez_owner (attempt_registration p) = o /\
  control σ !! a = (held_by p).1 /\ served σ !! (a, o) = nr_bridge <$> (held_by p).2.

(** One attempt per adapter; without one the adapter is settled. *)
Definition nap_at (o : list Z) (a : AdapterHandle) (σ : NapSystem) : Prop :=
  (settled o a σ /\ forall i p, attempts σ !! i <> Some (a, p)) \/
  exists i p, attempts σ !! i = Some (a, p) /\ (forall j q, attempts σ !! j = Some (a, q) -> j = i) /\ busy_with o a p σ.

(** *** Another adapter's steps *)

Lemma nap_frame o b c c' ts ts' sv sv' : c' !! b = c !! b -> sv' !! (b, o) = sv !! (b, o) ->
  (forall j p, ts' !! j = Some (b, p) <-> ts !! j = Some (b, p)) -> nap_at o b (mkNapSystem c ts sv) -> nap_at o b (mkNapSystem c' ts' sv').
Proof.
  intros Hc Hs Ht [[Hset Hno]|(i & p & Hi & Hu & Hb)].
  - left. unfold settled in *. cbn in *. rewrite Hc, Hs. split; [done|]. intros i p. rewrite Ht. apply Hno.
  - right. exists i, p. cbn in *. rewrite Ht. split; [done|]. split; [intros j q; rewrite Ht; apply Hu|].
    unfold busy_with in *. cbn in *. by rewrite Hc, Hs.
Qed.

Lemma attempts_insert_other (ts : gmap nat (AdapterHandle * Attempt)) i a b q : a <> b -> (forall p, ts !! i <> Some (b, p)) ->
  forall j p, <[i := (a, q)]> ts !! j = Some (b, p) <-> ts !! j = Some (b, p).
Proof.
  intros Hab Hi j p. destruct (decide (i = j)) as [<-|Hij]; [|by rewrite lookup_insert_ne].
  rewrite lookup_insert_eq. split; [congruence|]. intros Hj. by destruct (Hi p).
Qed.
Lemma attempts_delete_other (ts : gmap nat (AdapterHandle * Attempt)) i b : (forall p, ts !! i <> Some (b, p)) ->
  forall j p, delete i ts !! j = Some (b, p) <-> ts !! j = Some (b, p).
Proof.
  intros Hi j p. destruct (decide (i = j)) as [<-|Hij]; [|by rewrite lookup_delete_ne].
  rewrite lookup_delete_eq. split; [done|]. intros Hj. by destruct (Hi p).
Qed.

(** *** The adapter's own *)

Lemma at_attempt o a σ i p : nap_at o a σ -> attempts σ !! i = Some (a, p) ->
  busy_with o a p σ /\ forall j q, attempts σ !! j = Some (a, q) -> j = i.
Proof.
  intros [[_ Hno]|(k & q & Hk & Hu & Hb)] Hi; [by destruct (Hno i p)|].
  assert (i = k) as -> by eauto. assert (q = p) as -> by congruence. done.
Qed.
Lemma nap_begins o a σ c' sv' i q : (forall j p, attempts σ !! j <> Some (a, p)) ->
  busy_with o a q (mkNapSystem c' (<[i := (a, q)]> (attempts σ)) sv') ->
  nap_at o a (mkNapSystem c' (<[i := (a, q)]> (attempts σ)) sv').
Proof.
  intros Hno Hb. right. exists i, q. cbn. rewrite lookup_insert_eq. split; [done|]. split; [|done]. intros j p.
  destruct (decide (i = j)) as [->|Hij]; [done|]. rewrite lookup_insert_ne by done. intros Hj. by destruct (Hno j p).
Qed.
Lemma nap_moves o a c c' ts sv sv' i p q : nap_at o a (mkNapSystem c ts sv) -> ts !! i = Some (a, p) ->
  (busy_with o a p (mkNapSystem c ts sv) -> busy_with o a q (mkNapSystem c' (<[i := (a, q)]> ts) sv')) ->
  nap_at o a (mkNapSystem c' (<[i := (a, q)]> ts) sv').
Proof.
  intros Hat Hi Hb. destruct (at_attempt _ _ _ _ _ Hat Hi) as [Hbusy Hu]. right. exists i, q. cbn. rewrite lookup_insert_eq.
  split; [done|]. split; [|by apply Hb]. intros j r. destruct (decide (i = j)) as [->|Hij]; [done|]. rewrite lookup_insert_ne by done. apply Hu.
Qed.
Lemma nap_settles o a c c' ts sv sv' i p : nap_at o a (mkNapSystem c ts sv) -> ts !! i = Some (a, p) ->
  (busy_with o a p (mkNapSystem c ts sv) -> settled o a (mkNapSystem c' (delete i ts) sv')) ->
  nap_at o a (mkNapSystem c' (delete i ts) sv').
Proof.
  intros Hat Hi Hs. destruct (at_attempt _ _ _ _ _ Hat Hi) as [Hbusy Hu]. left. split; [by apply Hs|]. cbn. intros j r Hj.
  destruct (decide (i = j)) as [->|Hij]; [by rewrite lookup_delete_eq in Hj|]. rewrite lookup_delete_ne in Hj by done. apply Hij. symmetry. eauto.
Qed.

(** A start begins and a stop begins only on a settled adapter. *)
Lemma begin_start_settled o a r c c' ts sv : nap_at o a (mkNapSystem c ts sv) -> nr_bluez_owner r = o ->
  begin_nap_registration a r c = Ok (None, c') ->
  c' = <[a := Registering r]> c /\ c !! a = None /\ sv !! (a, o) = None /\ forall j p, ts !! j <> Some (a, p).
Proof.
  intros Hat Ho. unfold begin_nap_registration. destruct Hat as [[[Hs Hset] Hno]|(i & p & _ & _ & Hw & Hbo & Hc & _)]; cbn in *.
  - destruct (c !! a) as [[]|]; try done.
    + rewrite (bool_decide_eq_true_2 (nr_bluez_owner r0 = _)) by congruence. by destruct (bool_decide _).
    + intros [= <-]. done.
  - rewrite Hc. destruct p; cbn in *; try done; rewrite bool_decide_eq_true_2 by congruence; done.
Qed.
Lemma begin_stop_settled o a c x c' ts sv : nap_at o a (mkNapSystem c ts sv) -> begin_nap_stop a (Some o) c = Ok (x, c') ->
  (forall j p, ts !! j <> Some (a, p)) /\
  match x with
  | None => c' = c
  | Some r => c' = <[a := Stopping r]> c /\ nr_bluez_owner r = o /\ sv !! (a, o) = Some (nr_bridge r)
  end.
Proof.
  intros Hat. unfold begin_nap_stop. destruct Hat as [[[Hs Hset] Hno]|(i & p & _ & _ & Hw & Hbo & Hc & _)]; cbn in *.
  - destruct (c !! a) as [[]|]; try done; [|by intros [= <- <-]].
    rewrite bool_decide_eq_true_2 by congruence. by intros [= <- <-].
  - rewrite Hc. by destruct p.
Qed.

(** A step is of one adapter. *)
Lemma begin_registration_other a b r x c c' : a <> b -> begin_nap_registration a r c = Ok (x, c') -> c' !! b = c !! b.
Proof.
  intros Hab. unfold begin_nap_registration. destruct (c !! a) as [[e|e|e]|]; repeat case_bool_decide; intros [= <- <-];
    by rewrite ?lookup_insert_ne.
Qed.
Lemma begin_stop_other a b o x c c' : a <> b -> begin_nap_stop a o c = Ok (x, c') -> c' !! b = c !! b.
Proof.
  intros Hab. unfold begin_nap_stop. destruct (c !! a) as [[e|e|e]|]; repeat case_bool_decide; intros [= <- <-];
    by rewrite ?lookup_insert_ne, ?lookup_delete_ne.
Qed.
Lemma activate_other a b r c c' : a <> b -> activate_nap_registration a r c = Ok c' -> c' !! b = c !! b.
Proof. intros Hab. unfold activate_nap_registration. case_bool_decide; intros [= <-]. by rewrite lookup_insert_ne. Qed.

Definition step_adapter (σ σ' : NapSystem) (a : AdapterHandle) : Prop :=
  forall b o, a <> b -> nap_at o b σ -> nap_at o b σ'.

Ltac other_adapter :=
  apply nap_frame; [first [done | by eapply begin_registration_other | by eapply begin_stop_other | by eapply activate_other
                          | by apply lookup_insert_ne | by apply lookup_delete_ne]
                   | first [done | by rewrite lookup_insert_ne by congruence | by rewrite lookup_delete_ne by congruence
                           | by case_match; rewrite ?lookup_delete_ne by congruence]
                   | first [done | by apply attempts_insert_other; [done|congruence] | by apply attempts_delete_other; congruence]].

Ltac own_adapter :=
  unfold busy_with, settled, clear_nap_registration, restore_nap_registration; cbn; intros (_ & <- & Hctl & Hsrv);
  rewrite ?lookup_insert_eq, ?lookup_delete_eq; by rewrite ?Hctl, ?Hsrv.

Lemma nap_step_at o a σ σ' : nap_step (Some o) σ σ' -> nap_at o a σ -> nap_at o a σ'.
Proof.
  intros Hstep Hat. destruct Hstep as [c ts sv i b r c'|c ts sv i b r|c ts sv i b r|c ts sv i b r c'|c ts sv i b r e|c ts sv i b r fin
    |c ts sv i b r c'|c ts sv b c'|c ts sv i b r|c ts sv i b r|c ts sv i b r]; (destruct (decide (b = a)) as [->|Hab]; [|revert Hat; other_adapter]).
  - injection Ho as Ho. destruct (begin_start_settled _ _ _ _ _ _ _ Hat (eq_sym Ho) Hb) as (-> & Hc & Hs & Hno).
    apply (nap_begins o a (mkNapSystem c ts sv)); [done|]. split_and!; try done. apply lookup_insert_eq.
  - eapply nap_moves; [exact Hat|exact Hi|]. own_adapter.
  - eapply nap_settles; [exact Hat|exact Hi|]. own_adapter.
  - eapply nap_settles; [exact Hat|exact Hi|]. unfold activate_nap_registration in Ha. case_bool_decide; [|done]. injection Ha as <-. own_adapter.
  - destruct (at_attempt _ _ _ _ _ Hat Hi) as [(_ & _ & Hc & _) _]. unfold activate_nap_registration in Ha. cbn in Hc.
    by rewrite Hc, bool_decide_eq_true_2 in Ha.
  - by destruct (at_attempt _ _ _ _ _ Hat Hi) as [(? & _) _].
  - destruct (begin_stop_settled _ _ _ _ _ _ _ Hat Hb) as (Hno & -> & Ho & Hs).
    apply (nap_begins o a (mkNapSystem c ts sv)); [done|]. split_and!; try done. apply lookup_insert_eq.
  - by destruct (begin_stop_settled _ _ _ _ _ _ _ Hat Hb) as (_ & ->).
  - eapply nap_moves; [exact Hat|exact Hi|]. own_adapter.
  - eapply nap_settles; [exact Hat|exact Hi|]. own_adapter.
  - eapply nap_settles; [exact Hat|exact Hi|]. own_adapter.
Qed.

Lemma nap_steps_lawful o a σ σ' : rtc (nap_step (Some o)) σ σ' -> nap_at o a σ -> nap_at o a σ'.
Proof. induction 1; eauto using nap_step_at. Qed.
Lemma nap_initial_at o a : nap_at o a nap_initial.
Proof. left. split; [done|]. intros i p. cbn. by rewrite lookup_empty. Qed.

(** C35. However starts and stops of NAP servers interleave while one instance of
    BlueZ is on the bus, an adapter has at most one of them in flight, none ever
    finds its record changed and withdraws, and once none is in flight the record
    of an adapter is a registration, active and of that instance, exactly when
    BlueZ serves it with that bridge, and is empty exactly when BlueZ serves
    nothing.  What BlueZ serves is here what it has acknowledged: the calls it
    answered.  A server it loses by itself, one that somebody else registers, and the
    answers AlreadyExists and DoesNotExist that would tell of these, are outside. *)
Theorem nap_lifecycle_exclusive (o : list Z) (σ : NapSystem) (Hrun : rtc (nap_step (Some o)) nap_initial σ) (a : AdapterHandle) :
  (forall i j p q, attempts σ !! i = Some (a, p) -> attempts σ !! j = Some (a, q) -> i = j) /\
  (forall i r, attempts σ !! i <> Some (a, Withdrawing r)) /\
  ((forall i p, attempts σ !! i <> Some (a, p)) ->
     (forall r, control σ !! a = Some (NapActive r) <-> nr_bluez_owner r = o /\ served σ !! (a, o) = Some (nr_bridge r)) /\
     (control σ !! a = None <-> served σ !! (a, o) = None)).
Proof.
  pose proof (nap_steps_lawful _ a _ _ Hrun (nap_initial_at o a)) as Hat. split; [|split].
  - intros i j p q Hi Hj. destruct (at_attempt _ _ _ _ _ Hat Hi) as [_ Hu]. symmetry. eauto.
  - intros i r Hi. by destruct (at_attempt _ _ _ _ _ Hat Hi) as [(? & _) _].
  - intros Hno. destruct Hat as [[[Hs Hset] _]|(i & p & Hi & _)]; [|by destruct (Hno i p)]. rewrite Hs.
    destruct (control σ !! a) as [[r|r|r]|]; try done; (split; [|done]); intros r'; (split; [by intros [= <-]|]); [|by intros [_ ?]].
    intros [Ho [= Hb]]. destruct r, r'. cbn in *. by subst.
Qed.

(** The operations take these steps. *)
Section runs.
Context {W : Type} `{SystemBus W}.
Variable owner : option (list Z).

Lemma ends_attempt c c' (ts : gmap nat (AdapterHandle * Attempt)) sv sv' i x : ts !! i = None ->
  nap_step owner (mkNapSystem c (<[i := x]> ts) sv) (mkNapSystem c' (delete i (<[i := x]> ts)) sv') ->
  rtc (nap_step owner) (mkNapSystem c (<[i := x]> ts) sv) (mkNapSystem c' ts sv').
Proof. intros Hi Hs. apply rtc_once. by rewrite delete_insert_id in Hs. Qed.
Lemma goes_on c c' c2 (ts ts2 : gmap nat (AdapterHandle * Attempt)) sv sv' sv2 i x y :
  nap_step owner (mkNapSystem c (<[i := x]> ts) sv) (mkNapSystem c' (<[i := y]> (<[i := x]> ts)) sv') ->
  rtc (nap_step owner) (mkNapSystem c' (<[i := y]> ts) sv') (mkNapSystem c2 ts2 sv2) ->
  rtc (nap_step owner) (mkNapSystem c (<[i := x]> ts) sv) (mkNapSystem c2 ts2 sv2).
Proof. intros Hs Hr. eapply rtc_l; [exact Hs|]. by rewrite insert_insert_eq. Qed.

Lemma register_nap_run a r c (w : W) x c' w' ts sv i : ts !! i = None -> register_nap a r (c, w) = (x, (c', w')) ->
  exists sv', rtc (nap_step owner) (mkNapSystem c (<[i := (a, Starting r)]> ts) sv) (mkNapSystem c' ts sv').
Proof.
  intros Hi. unfold register_nap. destruct (network_server_proxy a (nr_bluez_owner r) w) as [[proxy|e] w1];
    [|intros [= _ <- _]; exists sv; apply ends_attempt; [done|by eapply nap_refused, lookup_insert_eq]].
  destruct (call_method proxy _ _ w1) as [[reply|e] w2];
    [|intros [= _ <- _]; exists sv; apply ends_attempt; [done|by eapply nap_refused, lookup_insert_eq]].
  destruct (activate_nap_registration a r c) as [c1|e] eqn:Ha.
  - destruct (nap_service_attachment (nr_bridge r) w2) as [y w3]. intros [= _ <- _]. eexists.
    eapply goes_on; [by eapply nap_register, lookup_insert_eq|]. apply ends_attempt; [done|]. by eapply nap_activate; [apply lookup_insert_eq|].
  - destruct (call_method proxy NETWORK_UNREGISTER _ w2) as [cleanup w3]. intros [= _ <- _]. eexists.
    eapply goes_on; [by eapply nap_register, lookup_insert_eq|]. eapply goes_on; [by eapply nap_changed; [apply lookup_insert_eq|]|].
    apply ends_attempt; [done|]. by eapply (nap_withdraw _ _ _ _ _ _ _ (is_ok cleanup)), lookup_insert_eq.
Qed.

Lemma unregister_nap_run a r c (w : W) x c' w' ts sv i : ts !! i = None -> unregister_nap a r (c, w) = (x, (c', w')) ->
  exists sv', rtc (nap_step owner) (mkNapSystem c (<[i := (a, StoppingAt r)]> ts) sv) (mkNapSystem c' ts sv').
Proof.
  intros Hi. unfold unregister_nap.
  assert (exists sv', rtc (nap_step owner) (mkNapSystem c (<[i := (a, StoppingAt r)]> ts) sv) (mkNapSystem (restore_nap_registration a r c) ts sv')) as Hback
    by (exists sv; apply ends_attempt; [done|by eapply nap_restore, lookup_insert_eq]).
  assert (exists sv', rtc (nap_step owner) (mkNapSystem c (<[i := (a, StoppingAt r)]> ts) sv) (mkNapSystem (clear_nap_registration a c) ts sv')) as Hgone.
  { eexists. eapply goes_on; [by eapply nap_unregister, lookup_insert_eq|]. apply ends_attempt; [done|]. by eapply nap_clear, lookup_insert_eq. }
  destruct (network_server_proxy a (nr_bluez_owner r) w) as [[proxy|e] w1]; [|by intros [= _ <- _]].
  destruct (call_method proxy _ _ w1) as [[reply|e] w2]; [by intros [= _ <- _]|].
  destruct (nap_unregister_is_already_absent e); by intros [= _ <- _].
Qed.
End runs.

(** A start is waiting for one instance of BlueZ when that is replaced, and a
    second start succeeds with the new one: then the first fails. *)
Definition demo_adapter : AdapterHandle := mkAdapterHandle (code_points "/org/bluez/hci0").
Definition demo_bridge : NetworkInterfaceHandle := mkInterface (code_points "br0").
Definition demo_registration (owner : string) : NapRegistration := mkRegistration demo_bridge (code_points owner).
Definition any_owner (σ σ' : NapSystem) : Prop := exists owner, nap_step owner σ σ'.

(** A BlueZ restart during a start leaves a NAP server that is served and not
    recorded: there is a run at the end of which nothing is in flight, the new
    instance of BlueZ serves a bridge on the adapter, and the record of the
    adapter is empty, so that a stop answers that there is nothing to unregister. *)
Theorem nap_restart_forgets : exists σ o, rtc any_owner nap_initial σ /\ attempts σ = ∅ /\
  served σ !! (demo_adapter, o) = Some demo_bridge /\ begin_nap_stop demo_adapter (Some o) (control σ) = Ok (None, control σ).
Proof.
  exists (mkNapSystem ∅ ∅ {[(demo_adapter, code_points ":1.9") := demo_bridge]}), (code_points ":1.9").
  split; [|split; [done|]; split; [apply lookup_insert_eq|done]].
  eapply rtc_l; [exists (Some (code_points ":1.1")); by apply (nap_begin_start _ _ _ _ 1%nat demo_adapter (demo_registration ":1.1"))|].
  eapply rtc_l; [exists (Some (code_points ":1.9")); by apply (nap_begin_start _ _ _ _ 2%nat demo_adapter (demo_registration ":1.9"))|].
  eapply rtc_l; [exists None; by eapply (nap_register _ _ _ _ 2%nat)|].
  eapply rtc_l; [exists None; by eapply (nap_activate _ _ _ _ 2%nat)|].
  eapply rtc_l; [exists None; by eapply (nap_refused _ _ _ _ 1%nat)|]. apply rtc_refl.
Qed.

(** One start has registered its bridge and waits to record it. *)
Definition demo_nap : NapSystem :=
  mkNapSystem {[demo_adapter := Registering (demo_registration ":1.1")]} {[1%nat := (demo_adapter, Registered (demo_registration ":1.1"))]}
    {[(demo_adapter, code_points ":1.1") := demo_bridge]}.
Lemma demo_nap_run : rtc (nap_step (Some (code_points ":1.1"))) nap_initial demo_nap.
Proof.
  eapply rtc_l; [by apply (nap_begin_start _ _ _ _ 1%nat demo_adapter (demo_registration ":1.1"))|].
  eapply rtc_l; [by eapply (nap_register _ _ _ _ 1%nat)|]. apply rtc_refl.
Qed.
Lemma nap_lifecycle_exclusive_witness : served demo_nap !! (demo_adapter, code_points ":1.1") = Some demo_bridge /\
  forall i r, attempts demo_nap !! i <> Some (demo_adapter, Withdrawing r).
Proof. split; [reflexivity|]. exact (proj1 (proj2 (nap_lifecycle_exclusive _ demo_nap demo_nap_run demo_adapter))). Defined.

(** ** The events tell what the bridge has *)

Definition apply_event (clients : gset NetworkInterfaceHandle) (e : NapEvent) : gset NetworkInterfaceHandle :=
  match e with ClientAttached a => {[pa_interface a]} ∪ clients | ClientDetached a => clients ∖ {[pa_interface a]} end.
Definition replay (l : list NapEvent) (clients : gset NetworkInterfaceHandle) : gset NetworkInterfaceHandle := fold_left apply_event l clients.

Lemma replay_detached l clients :
  replay ((fun i => ClientDetached (nap_client_attachment i)) <$> l) clients = clients ∖ list_to_set l.
Proof. unfold replay. revert clients. induction l as [|i l IH]; intros clients; cbn; [set_solver|]. rewrite IH. set_solver. Qed.
Lemma replay_attached l clients :
  replay ((fun i => ClientAttached (nap_client_attachment i)) <$> l) clients = clients ∪ list_to_set l.
Proof. unfold replay. revert clients. induction l as [|i l IH]; intros clients; cbn; [set_solver|]. rewrite IH. set_solver. Qed.
Lemma iter_set_to_set (s : gset NetworkInterfaceHandle) : list_to_set (iter_set s) = s.
Proof. unfold iter_set. rewrite merge_sort_Permutation. apply list_to_set_elements_L. Qed.

(** The changes lead from the previous clients to the current ones. *)
Lemma replay_changes previous current pending clients : replay pending clients = previous ->
  replay (queue_nap_client_changes previous current pending) clients = current.
Proof.
  intros <-. unfold queue_nap_client_changes, replay. rewrite !fold_left_app. fold (replay pending clients).
  change (replay ((fun i => ClientAttached (nap_client_attachment i)) <$> iter_set (current ∖ replay pending clients))
    (replay ((fun i => ClientDetached (nap_client_attachment i)) <$> iter_set (replay pending clients ∖ current)) (replay pending clients)) = current).
  rewrite replay_detached, replay_attached, !iter_set_to_set. apply set_eq. intros i.
  destruct (decide (i ∈ replay pending clients)), (decide (i ∈ current)); set_solver.
Qed.

Section events.
Context {W : Type} `{SystemBus W}.

(** The events told and those pending lead from an empty bridge to the clients. *)
Definition faithful (told : list NapEvent) (s : BluezNapSubscription) : Prop := replay (told ++ ns_pending s) ∅ = ns_clients s.

Lemma subscribe_faithful adapter attachment (cw : NapControl * W) s cw' :
  subscribe_nap_events adapter attachment cw = (Ok s, cw') -> faithful [] s.
Proof.
  intros (? & ? & _ & (? & ? & _ & (? & ? & _ & (? & ? & _ & (clients & ? & _ & [= <- _])%st_bind_Ok)%st_bind_Ok)%st_bind_Ok)%st_bind_Ok)%st_bind_Ok.
  by apply (replay_changes ∅ clients []).
Qed.

(** Until the registration is gone, a round that tells an event keeps this so; so
    does one that tells none. *)
Lemma round_faithful first told s (cw : NapControl * W) x s' cw' : faithful told s -> next_event_round first s cw = (Ok (x, s'), cw') ->
  match x with
  | Some (Some e) => faithful (told ++ [e]) s'
  | None => faithful told s' /\ ns_pending s' = []
  | Some None => ns_pending s' = []
  end.
Proof.
  intros Hf. unfold next_event_round. intros ([] & [c1 w1] & _ & (current & cw2 & _ & Hr)%st_bind_Ok)%st_bind_Ok.
  destruct current; cbn [negb] in Hr; [|by injection Hr as <- <- _]. apply st_bind_Ok in Hr as (s1 & cw3 & Hs1 & Hr).
  assert (faithful told s1) as Hf1.
  { destruct first; [by injection Hs1 as <- _|]. apply st_bind_Ok in Hs1 as (clients & cw4 & _ & [= <- _]).
    unfold faithful in *. cbn. unfold queue_nap_client_changes. rewrite app_assoc. by apply (replay_changes (ns_clients s) clients). }
  destruct (ns_pending s1) as [|e pending] eqn:Hp; injection Hr as <- <- _; [done|].
  unfold faithful in *. cbn. by rewrite <- app_assoc, Hp in *.
Qed.
End events.
