(* ===== verification/PanuLink.v ===== *)
(** The PANU link of [crates/blueroute-linux/src/pan.rs]: connecting to the NAP of a
    peer, finding the kernel's name of the interface, letting go, and noticing a
    loss.

    Further calls on the world of [SystemBus] are behind [PanuBus]: the race of a
    call with a timer, and the stream of BlueZ's signals. *)

From stdpp Require Import gmap.
From S2P Require Import Prelude Order Ident StateText Routes LinuxRoutes StarHost JoinNetwork NapServer.

Definition NETWORK_INTERFACE : string := "org.bluez.Network1".
Definition DEVICE_INTERFACE : string := "org.bluez.Device1".
Definition OBJECT_MANAGER_INTERFACE : string := "org.freedesktop.DBus.ObjectManager".
Definition PROPERTIES_INTERFACE : string := "org.freedesktop.DBus.Properties".
Definition INTERFACES_REMOVED : string := "InterfacesRemoved".
Definition PROPERTIES_CHANGED : string := "PropertiesChanged".
Definition CONNECT_METHOD : string := "Connect".
Definition DISCONNECT_METHOD : string := "Disconnect".
Definition CONNECTED_PROPERTY : string := "Connected".
Definition INTERFACE_PROPERTY : string := "Interface".
Definition ADDRESS_PROPERTY : string := "Address".
Definition REMOTE_NAP_ROLE : list Z := code_points "nap".
Definition PANU_CONNECT_TIMEOUT : Z := 30000.
Definition PANU_INTERFACE_SETTLE_DELAY : Z := 300.

(** A signal: its header, and its body read as either of two types, an error being
    what the reader prints. *)
Record Signal := mkSignal {
  sg_interface : option string;
  sg_member : option string;
  sg_path : option (list Z);
  sg_removed : result string (list Z * list string);
  sg_changed : result string (string * list string * list string);
}.

Class PanuBus (W : Type) := {
  (** [None]: the timer ended first. *)
  call_or_timeout : Proxy -> string -> list (list Z) -> Z -> stres W BusError (option (result string (list Z)));
  signal_stream : stres W BusError ();
  (** [None]: the stream has ended. *)
  next_message : stres W BusError (option Signal);
}.

(** ** Errors *)

Definition connect_is_already_connected (e : BusError) : bool :=
  bool_decide (method_error_name e = Some "org.bluez.Error.AlreadyConnected").

Definition connect_is_in_progress (e : BusError) : bool :=
  match e with
  | MethodError name detail _ =>
    bool_decide (name = "org.bluez.Error.InProgress") ||
    bool_decide (name = "org.bluez.Error.Failed") &&
      match detail with Some m => if String.index 0 "already in progress" m is Some _ then true else false | None => false end
  | BusFailure _ => false
  end.

Definition connect_method_error (name : string) : ErrorKind * string :=
  if bool_decide (name = "org.bluez.Error.ConnectionAttemptFailed") then (PanFailure, "Bluetooth PAN connection attempt failed")
  else if bool_decide (name ∈ ["org.bluez.Error.NotAuthorized"; "org.freedesktop.DBus.Error.AccessDenied"]) then
    (AuthenticationFailed, "Bluetooth PAN connection was not authorized")
  else if bool_decide (name = "org.bluez.Error.NotReady") then (PanFailure, "Bluetooth peer is not ready for a PAN connection")
  else if bool_decide (name ∈ ["org.bluez.Error.DoesNotExist"; "org.freedesktop.DBus.Error.UnknownObject"]) then
    (InvalidState, "Bluetooth peer is no longer available")
  else if bool_decide (name ∈ ["org.freedesktop.DBus.Error.UnknownMethod"; "org.freedesktop.DBus.Error.UnknownInterface";
      "org.bluez.Error.NotSupported"; "org.bluez.Error.NotAvailable"]) then
    (CapabilityUnavailable, "Bluetooth peer does not expose a usable PAN network profile")
  else (PanFailure, "Bluetooth PAN connection failed").

Definition connect_error (e : BusError) : CoreError :=
  let (k, m) := match method_error_name e with
    | Some name => connect_method_error name
    | None => (BluezUnavailable, "Bluetooth PAN connection failed because BlueZ is unavailable")
    end in pan_error k m (bus_text e).

Definition disconnect_error (e : BusError) : CoreError :=
  let k := match method_error_name e with
    | Some name => if bool_decide (name ∈ ["org.freedesktop.DBus.Error.UnknownMethod"; "org.freedesktop.DBus.Error.UnknownInterface";
        "org.bluez.Error.NotSupported"; "org.bluez.Error.NotAvailable"]) then CapabilityUnavailable else PanFailure
    | None => BluezUnavailable
    end in pan_error k "failed to disconnect the Bluetooth PAN link" (bus_text e).

Definition disconnect_is_already_absent (e : BusError) : bool :=
  match method_error_name e with
  | Some name => bool_decide (name ∈ ["org.bluez.Error.NotConnected"; "org.bluez.Error.DoesNotExist"; "org.freedesktop.DBus.Error.UnknownObject"])
  | None => false
  end.

Definition network_interface_is_absent (e : BusError) : bool :=
  match method_error_name e with
  | Some name => bool_decide (name ∈ ["org.bluez.Error.DoesNotExist"; "org.freedesktop.DBus.Error.UnknownObject";
      "org.freedesktop.DBus.Error.UnknownInterface"])
  | None => false
  end.

Definition property_error (property : string) (e : BusError) : CoreError :=
  pan_error ProtocolError ("failed to read Bluetooth PAN " ++ property ++ " state") (bus_text e).

(** ** Names *)

(** [str::rsplit_once], by a separator that is not empty. *)
Fixpoint rsplit_once (sep l : list Z) : option (list Z * list Z) :=
  match l with
  | [] => None
  | c :: l' =>
    match rsplit_once sep l' with
    | Some (before, after) => Some (c :: before, after)
    | None => if bool_decide (take (length sep) l = sep) then Some ([], drop (length sep) l) else None
    end
  end.

Definition peer_adapter_path (peer : PeerHandle) : CoreResult (list Z) :=
  ok_or (split ← rsplit_once (code_points "/dev_") (peer_str peer); if bool_decide (split.1 = []) then None else Some split.1)
    (core_error ProtocolError "Bluetooth peer handle does not identify its adapter").

Definition unresolved_interface : CoreError :=
  core_error PanFailure "Bluetooth PAN interface was renamed but its current Linux name could not be resolved".

(** The reported name when the kernel has it; otherwise the one interface that is
    new, or, when nothing earlier is known, the only one. *)
Definition select_panu_interface_name (reported : list Z) (current : gset (list Z)) (previous : option (gset (list Z))) : CoreResult (list Z) :=
  if bool_decide (reported ∈ current) then Ok reported
  else match elements (current ∖ (default ∅ previous)) with [name] => Ok name | _ => Err unresolved_interface end.

Definition panu_attachment (peer : PeerHandle) (interface : list Z) : CoreResult PanAttachment :=
  guard_err (bool_decide (trim interface = [])) (core_error ProtocolError "BlueZ returned an empty PAN interface name")
  (handle ← interface_new interface; Ok (mkAttachment Panu handle (Some peer))).

Definition validate_panu_attachment (attachment : PanAttachment) : CoreResult () :=
  guard_err (negb (bool_decide (pa_role attachment = Panu))) (core_error InvalidInput "PANU event subscription requires a PANU attachment")
  (guard_err (bool_decide (pa_peer attachment = None)) (core_error InvalidInput "PANU event subscription requires a peer") (Ok ())).

Definition observed_panu_is_same (expected : PanAttachment) (observed : option PanAttachment) : bool := bool_decide (observed = Some expected).

Definition require_matching_panu_observation (expected : PanAttachment) (observed : option PanAttachment) : CoreResult () :=
  _ ← validate_panu_attachment expected;
  match observed with
  | None => Err (core_error PanFailure "PANU link disappeared before outbound control connection")
  | Some current => guard_err (negb (bool_decide (current = expected)))
      (core_error InvalidState "PANU attachment changed before outbound control connection") (Ok ())
  end.

Definition replaced_attachment : CoreError :=
  core_error InvalidState "PANU attachment changed before cleanup; refusing to disconnect a replacement link".
Definition should_disconnect_matching_panu (expected : PanAttachment) (observed : option PanAttachment) : CoreResult bool :=
  _ ← validate_panu_attachment expected;
  match observed with
  | None => Ok false
  | Some current => guard_err (negb (bool_decide (current = expected))) replaced_attachment (Ok true)
  end.

(** Whether a signal may mean the end of the link. *)
Definition properties_change_can_affect_panu_state (interface : string) (changed invalidated : list string) : bool :=
  let properties := if bool_decide (interface = NETWORK_INTERFACE) then Some [CONNECTED_PROPERTY; INTERFACE_PROPERTY]
    else if bool_decide (interface = DEVICE_INTERFACE) then Some [CONNECTED_PROPERTY] else None in
  match properties with
  | Some properties => existsb (fun property => bool_decide (property ∈ changed) || bool_decide (property ∈ invalidated)) properties
  | None => false
  end.

Definition panu_loss_trigger (message : Signal) (peer : PeerHandle) : CoreResult bool :=
  if bool_decide (sg_interface message = Some OBJECT_MANAGER_INTERFACE) && bool_decide (sg_member message = Some INTERFACES_REMOVED) then
    removed ← map_err (pan_error ProtocolError "failed to decode a Bluetooth PAN InterfacesRemoved signal") (sg_removed message);
    let '(path, interfaces) := removed in
    Ok (bool_decide (path = peer_str peer) && existsb (fun name => bool_decide (name ∈ [NETWORK_INTERFACE; DEVICE_INTERFACE])) interfaces)
  else if negb (bool_decide (sg_interface message = Some PROPERTIES_INTERFACE)) || negb (bool_decide (sg_member message = Some PROPERTIES_CHANGED))
      || negb (bool_decide (sg_path message = Some (peer_str peer))) then Ok false
  else
    change ← map_err (pan_error ProtocolError "failed to decode a Bluetooth PAN PropertiesChanged signal") (sg_changed message);
    let '(interface, changed, invalidated) := change in
    Ok (properties_change_can_affect_panu_state interface changed invalidated).

(** ** The operations *)

Section operations.
Context {W : Type} `{SystemBus W} `{PanuBus W}.

Definition network_profile (peer : PeerHandle) : Proxy := mkProxy (code_points BLUEZ_SERVICE) (peer_str peer) NETWORK_INTERFACE.
Definition network_proxy (peer : PeerHandle) : stres W CoreError Proxy :=
  let! _ := bus PanFailure "failed to access the Bluetooth PAN network profile" (proxy_new (network_profile peer)) in
  st_ret (network_profile peer).

Definition local_adapter_address_for_peer (peer : PeerHandle) : stres W CoreError (list Z) :=
  let! path := st_lift (peer_adapter_path peer) in
  let proxy := mkProxy (code_points BLUEZ_SERVICE) path ADAPTER_INTERFACE in
  let! _ := bus BluezUnavailable "failed to access the Bluetooth adapter for PAN interface resolution" (proxy_new proxy) in
  st_map_err (property_error ADDRESS_PROPERTY) (get_text proxy ADDRESS_PROPERTY).

Fixpoint collect_interfaces (address : list Z) (entries : list (result FsError (option (list Z)))) (interfaces : gset (list Z)) :
    stres W CoreError (gset (list Z)) :=
  match entries with
  | [] => st_ret interfaces
  | Err e :: _ => st_fail (pan_error PanFailure "failed to inspect a Linux network interface for the Bluetooth PAN link" (fs_text e))
  | Ok None :: entries => collect_interfaces address entries interfaces
  | Ok (Some name) :: entries => fun w =>
    match read_to_string (sys_class_net name "/address") w with
    | (Err (FsNotFound _), w) => collect_interfaces address entries interfaces w
    | (Err (FsOther text), w) =>
        (Err (pan_error PanFailure "failed to read a Linux network-interface address for PAN resolution" text), w)
    | (Ok value, w) =>
        collect_interfaces address entries (if eq_ignore_ascii_case (trim value) address then {[name]} ∪ interfaces else interfaces) w
    end
  end.

Definition kernel_interfaces_with_address (address : list Z) : stres W CoreError (gset (list Z)) :=
  let! entries := file PanFailure "failed to inspect Linux network interfaces for the Bluetooth PAN link" (read_dir (code_points "/sys/class/net")) in
  collect_interfaces address entries ∅.

Definition current_panu_attachment (peer : PeerHandle) : stres W CoreError (option PanAttachment) :=
  let! proxy := network_proxy peer in
  let! connected := fun w => match get_bool proxy CONNECTED_PROPERTY w with
    | (Ok connected, w) => (Ok connected, w)
    | (Err e, w) => ((if network_interface_is_absent e then Ok false else Err (property_error CONNECTED_PROPERTY e)), w)
    end in
  if negb connected then st_ret None else
  let! interface := st_map_err (property_error INTERFACE_PROPERTY) (get_text proxy INTERFACE_PROPERTY) in
  let! local_address := local_adapter_address_for_peer peer in
  let! current := kernel_interfaces_with_address local_address in
  let! name := st_lift (select_panu_interface_name interface current None) in
  let! attachment := st_lift (panu_attachment peer name) in
  st_ret (Some attachment).

Definition abort_pending_panu_connect (peer : PeerHandle) : stres W CoreError () :=
  let! proxy := network_proxy peer in fun w =>
  match call_method proxy DISCONNECT_METHOD [] w with
  | (Ok _, w) => (Ok (), w)
  | (Err e, w) => ((if disconnect_is_already_absent e then Ok () else Err (disconnect_error e)), w)
  end.

Definition connect_timed_out (cleanup : option CoreError) : CoreError :=
  match cleanup with
  | None => core_error PanFailure "Bluetooth PAN connection timed out and was cancelled"
  | Some cleanup => core_error_with_diagnostic PanFailure "Bluetooth PAN connection timed out and cleanup failed"
      (default (message cleanup) (diagnostic cleanup))
  end.

(** A call that failed while no link can be observed. *)
Definition connect_failure (e : BusError) : CoreError :=
  if connect_is_in_progress e then
    pan_error InvalidState "another Bluetooth PAN connection attempt is already in progress" (bus_text e)
  else if connect_is_already_connected e then
    core_error ProtocolError "BlueZ reported an existing PAN connection without an active interface"
  else connect_error e.

(** Once BlueZ has answered: after a while for udev, the kernel's name. *)
Definition resolve_connected (peer : PeerHandle) (local_address : list Z) (previous : gset (list Z)) (reply : result string (list Z)) :
    stres W CoreError PanAttachment :=
  let! interface := st_lift (map_err (pan_error ProtocolError "BlueZ returned an invalid PAN interface name") reply) in
  let! _ := fun w => (Ok tt, timer_after PANU_INTERFACE_SETTLE_DELAY w) in
  let! current := kernel_interfaces_with_address local_address in
  let! name := st_lift (select_panu_interface_name interface current (Some previous)) in
  st_lift (panu_attachment peer name).

Definition connect_panu (peer : PeerHandle) : stres W CoreError PanAttachment :=
  let! existing := current_panu_attachment peer in
  match existing with
  | Some attachment => st_ret attachment
  | None =>
    let! local_address := local_adapter_address_for_peer peer in
    let! previous := kernel_interfaces_with_address local_address in
    let! proxy := network_proxy peer in fun w =>
    match call_or_timeout proxy CONNECT_METHOD [REMOTE_NAP_ROLE] PANU_CONNECT_TIMEOUT w with
    | (Ok (Some reply), w) => resolve_connected peer local_address previous reply w
    | (Ok None, w) =>
      match abort_pending_panu_connect peer w with
      | (Ok _, w) => (Err (connect_timed_out None), w)
      | (Err cleanup, w) => (Err (connect_timed_out (Some cleanup)), w)
      end
    | (Err e, w) =>
      match current_panu_attachment peer w with
      | (Ok (Some attachment), w) => (Ok attachment, w)
      | (_, w) => (Err (connect_failure e), w)
      end
    end
  end.

Definition disconnect_panu (peer : PeerHandle) : stres W CoreError () :=
  let! observed := current_panu_attachment peer in
  match observed with
  | None => st_ret ()
  | Some _ =>
    let! proxy := network_proxy peer in fun w =>
    match call_method proxy DISCONNECT_METHOD [] w with
    | (Ok _, w) => (Ok (), w)
    | (Err e, w) =>
      if disconnect_is_already_absent e then (Ok (), w)
      else match current_panu_attachment peer w with
        | (Ok None, w) => (Ok (), w)
        | (_, w) => (Err (disconnect_error e), w)
        end
    end
  end.

(** A validated attachment has a peer. *)
Definition validated_peer (attachment : PanAttachment) : CoreResult PeerHandle :=
  _ ← validate_panu_attachment attachment;
  ok_or (pa_peer attachment) (core_error InvalidInput "PANU event subscription requires a peer").

Definition require_matching_panu (expected : PanAttachment) : stres W CoreError () :=
  let! peer := st_lift (validated_peer expected) in
  let! observed := current_panu_attachment peer in
  st_lift (require_matching_panu_observation expected observed).

Definition disconnect_matching_panu (expected : PanAttachment) : stres W CoreError () :=
  let! peer := st_lift (validated_peer expected) in
  let! observed := current_panu_attachment peer in
  let! matches := st_lift (should_disconnect_matching_panu expected observed) in
  if matches : bool then disconnect_panu peer else st_ret ().

(** ** Watching for a loss *)

Definition bluez_signal_stream : stres W CoreError () :=
  bus BluezUnavailable "failed to subscribe to Bluetooth PAN changes" signal_stream.

Record BluezPanuSubscription := mkPanuSubscription { ps_attachment : PanAttachment; ps_pending_loss : bool; ps_finished : bool }.

(** The stream is opened before the link is observed. *)
Definition subscribe_panu_events (attachment : PanAttachment) : stres W CoreError BluezPanuSubscription :=
  let! peer := st_lift (validated_peer attachment) in
  let! _ := bluez_signal_stream in
  let! observed := current_panu_attachment peer in
  st_ret (mkPanuSubscription attachment (negb (observed_panu_is_same attachment observed)) false).

Inductive PanuEvent := Lost (attachment : PanAttachment).

(** One message of the loop; [None]: the loop goes on. *)
Definition panu_message (s : BluezPanuSubscription) (peer : PeerHandle) :
    stres W CoreError (option (option PanuEvent) * BluezPanuSubscription) :=
  let! message := bus BluezUnavailable "failed while receiving Bluetooth PAN link changes" next_message in
  match message with
  | None => st_ret (Some None, s)
  | Some message =>
    let! trigger := st_lift (panu_loss_trigger message peer) in
    if negb trigger then st_ret (None, s) else
    let! observed := current_panu_attachment peer in
    if negb (observed_panu_is_same (ps_attachment s) observed) then
      st_ret (Some (Some (Lost (ps_attachment s))), mkPanuSubscription (ps_attachment s) (ps_pending_loss s) true)
    else st_ret (None, s)
  end.

(** [fuel] messages; the outer [None]: none of them ended the call. *)
Fixpoint panu_messages (fuel : nat) (s : BluezPanuSubscription) (peer : PeerHandle) :
    stres W CoreError (option (option PanuEvent) * BluezPanuSubscription) :=
  match fuel with
  | O => st_ret (None, s)
  | S fuel =>
    let! round := panu_message s peer in
    match round with
    | (Some answer, s) => st_ret (Some answer, s)
    | (None, s) => panu_messages fuel s peer
    end
  end.

Definition next_panu_event (fuel : nat) (s : BluezPanuSubscription) : stres W CoreError (option (option PanuEvent) * BluezPanuSubscription) :=
  if ps_finished s then st_ret (Some None, s)
  else if ps_pending_loss s then st_ret (Some (Some (Lost (ps_attachment s))), mkPanuSubscription (ps_attachment s) false true)
  else let! peer := st_lift (validated_peer (ps_attachment s)) in panu_messages fuel s peer.
End operations.

(** ** Facts *)

Lemma select_exact reported current previous name :
  select_panu_interface_name reported current previous = Ok name <->
  (reported ∈ current /\ name = reported) \/ (~ (reported ∈ current) /\ current ∖ (default ∅ previous) = {[name]}).
Proof.
  unfold select_panu_interface_name. case_bool_decide as Hin; [naive_solver|].
  split.
  - destruct (elements (current ∖ (default ∅ previous))) as [|x [|y l]] eqn:He; try done. intros [= <-]. right. split; [done|].
    rewrite <- (list_to_set_elements_L (current ∖ _)), He. set_solver.
  - intros [[? _]|[_ ->]]; [done|]. by rewrite elements_singleton.
Qed.

(** A handle names its adapter by what stands in front of its last [/dev_]. *)
Lemma rsplit_once_spec sep l before after : sep <> [] -> rsplit_once sep l = Some (before, after) ->
  l = before ++ sep ++ after /\ rsplit_once sep (drop 1 (sep ++ after)) = None.
Proof.
  intros Hsep. revert before after. induction l as [|c l IH]; intros before after; [done|]. cbn.
  destruct (rsplit_once sep l) as [[b a]|] eqn:Hl.
  - intros [= <- <-]. destruct (IH b a eq_refl) as [Heq Hn]. split; [by rewrite Heq at 1|done].
  - case_bool_decide as Ht; [|done]. intros [= <- <-].
    assert (sep ++ drop (length sep) (c :: l) = c :: l) as Heq by (rewrite <- Ht at 1; apply take_drop).
    cbn [app]. by rewrite Heq.
Qed.

Section facts.
Context {W : Type} `{SystemBus W} `{PanuBus W}.

(** *** What a run asks, in the order it asks *)

(** The interfaces of a directory whose address, read one after the other from
    [w] to [w'], is this one; an interface that is gone by then is passed over. *)
Inductive scanned (address : list Z) : list (result FsError (option (list Z))) -> W -> gset (list Z) -> W -> Prop :=
| scanned_end w : scanned address [] w ∅ w
| scanned_unnamed entries w s w' : scanned address entries w s w' -> scanned address (Ok None :: entries) w s w'
| scanned_gone name text entries w w1 s w' :
    read_to_string (sys_class_net name "/address") w = (Err (FsNotFound text), w1) ->
    scanned address entries w1 s w' -> scanned address (Ok (Some name) :: entries) w s w'
| scanned_match name value entries w w1 s w' :
    read_to_string (sys_class_net name "/address") w = (Ok value, w1) -> eq_ignore_ascii_case (trim value) address = true ->
    scanned address entries w1 s w' -> scanned address (Ok (Some name) :: entries) w ({[name]} ∪ s) w'
| scanned_other name value entries w w1 s w' :
    read_to_string (sys_class_net name "/address") w = (Ok value, w1) -> eq_ignore_ascii_case (trim value) address = false ->
    scanned address entries w1 s w' -> scanned address (Ok (Some name) :: entries) w s w'.

Lemma collect_interfaces_scanned address entries : forall acc (w : W) s w',
  collect_interfaces address entries acc w = (Ok s, w') -> exists s0, scanned address entries w s0 w' /\ s = acc ∪ s0.
Proof.
  induction entries as [|[[name|]|e] entries IH]; intros acc w s w'; cbn [collect_interfaces].
  - intros [= <- <-]. exists ∅. split; [constructor|set_solver].
  - destruct (read_to_string _ w) as [[value|[text|text]] w1] eqn:Hr; [| |done].
    + destruct (eq_ignore_ascii_case (trim value) address) eqn:Heq; intros (s0 & Hs & ->)%IH.
      * exists ({[name]} ∪ s0). split; [by eapply scanned_match|set_solver].
      * exists s0. split; [by eapply scanned_other|done].
    + intros (s0 & Hs & ->)%IH. exists s0. split; [by eapply scanned_gone|done].
  - intros (s0 & Hs & ->)%IH. exists s0. split; [by constructor|done].
  - done.
Qed.

(** The kernel's names of the interfaces with this address. *)
Definition kernel_names (address : list Z) (w : W) (s : gset (list Z)) (w' : W) : Prop :=
  exists entries w1, read_dir (code_points "/sys/class/net") w = (Ok entries, w1) /\ scanned address entries w1 s w'.

(** The address BlueZ reports for the adapter the peer's path names. *)
Definition adapter_address (peer : PeerHandle) (w : W) (address : list Z) (w' : W) : Prop :=
  exists path w1, peer_adapter_path peer = Ok path /\
    proxy_new (mkProxy (code_points BLUEZ_SERVICE) path ADAPTER_INTERFACE) w = (Ok (), w1) /\
    get_text (mkProxy (code_points BLUEZ_SERVICE) path ADAPTER_INTERFACE) ADDRESS_PROPERTY w1 = (Ok address, w').

(** The name that is meant: the reported one if the kernel has it, otherwise the
    one interface that was not there before. *)
Definition meant (reported : list Z) (current : gset (list Z)) (previous : option (gset (list Z))) (name : list Z) : Prop :=
  (reported ∈ current /\ name = reported) \/ (~ (reported ∈ current) /\ current ∖ (default ∅ previous) = {[name]}).

Definition attachment_of (peer : PeerHandle) (name : list Z) : PanAttachment := mkAttachment Panu (mkInterface name) (Some peer).

(** BlueZ says that the peer is not connected, or has no such object. *)
Definition no_link (peer : PeerHandle) (w w' : W) : Prop :=
  exists w1 x, proxy_new (network_profile peer) w = (Ok (), w1) /\ get_bool (network_profile peer) CONNECTED_PROPERTY w1 = (x, w') /\
    match x with Ok b => b = false | Err e => network_interface_is_absent e = true end.

(** BlueZ says that the peer is connected, and the kernel has the interface. *)
Definition observed_link (peer : PeerHandle) (w : W) (a : PanAttachment) (w' : W) : Prop :=
  exists w1 w2 reported w3 address w4 current name,
    proxy_new (network_profile peer) w = (Ok (), w1) /\
    get_bool (network_profile peer) CONNECTED_PROPERTY w1 = (Ok true, w2) /\
    get_text (network_profile peer) INTERFACE_PROPERTY w2 = (Ok reported, w3) /\
    adapter_address peer w3 address w4 /\ kernel_names address w4 current w' /\
    meant reported current None name /\ a = attachment_of peer name.

(** What a reported connection comes from: the peer was connected; or it was not,
    and either BlueZ answered the request with a name, which was resolved against
    the interfaces there before the request and after it; or the request failed
    and the peer was seen to be connected all the same. *)
Definition found (peer : PeerHandle) (w : W) (a : PanAttachment) (w' : W) : Prop :=
  observed_link peer w a w' \/
  exists w1 address w2 previous w3 w4 x w5,
    no_link peer w w1 /\ adapter_address peer w1 address w2 /\ kernel_names address w2 previous w3 /\
    proxy_new (network_profile peer) w3 = (Ok (), w4) /\
    call_or_timeout (network_profile peer) CONNECT_METHOD [REMOTE_NAP_ROLE] PANU_CONNECT_TIMEOUT w4 = (x, w5) /\
    match x with
    | Ok (Some (Ok reported)) => exists current name,
        kernel_names address (timer_after PANU_INTERFACE_SETTLE_DELAY w5) current w' /\
        meant reported current (Some previous) name /\ a = attachment_of peer name
    | Err _ => observed_link peer w5 a w'
    | _ => False
    end.

Lemma panu_attachment_spec peer name a : panu_attachment peer name = Ok a -> a = attachment_of peer name.
Proof.
  unfold panu_attachment, interface_new. rewrite guard_err_Ok. intros (_ & Ha). apply result_bind_Ok in Ha as (h & Hh & [= <-]).
  apply guard_err_Ok in Hh as (_ & [= <-]). done.
Qed.

Lemma bus_Ok {A : Type} k m (call : stres W BusError A) (w w' : W) x : bus k m call w = (Ok x, w') -> call w = (Ok x, w').
Proof. unfold bus, st_map_err. destruct (call w) as [[y|e] w1]; [|done]. by intros [= <- <-]. Qed.

Lemma map_err_st_Ok {A E F : Type} (f : E -> F) (call : stres W E A) (w w' : W) x : st_map_err f call w = (Ok x, w') -> call w = (Ok x, w').
Proof. unfold st_map_err. destruct (call w) as [[y|e] w1]; [|done]. by intros [= <- <-]. Qed.

Lemma network_proxy_Ok peer (w w' : W) p : network_proxy peer w = (Ok p, w') ->
  p = network_profile peer /\ proxy_new (network_profile peer) w = (Ok (), w').
Proof. intros ([] & w1 & Hp%bus_Ok & [= <- <-])%st_bind_Ok. done. Qed.

Lemma adapter_address_Ok peer (w w' : W) address : local_adapter_address_for_peer peer w = (Ok address, w') -> adapter_address peer w address w'.
Proof.
  intros (path & w1 & Hp & Hr)%st_bind_Ok. injection Hp as Hp <-. apply st_bind_Ok in Hr as ([] & w2 & Hn%bus_Ok & Hr%map_err_st_Ok).
  by exists path, w2.
Qed.

Lemma kernel_names_Ok address (w w' : W) s : kernel_interfaces_with_address address w = (Ok s, w') -> kernel_names address w s w'.
Proof.
  intros (entries & w1 & Hd & (s0 & Hs & ->)%collect_interfaces_scanned)%st_bind_Ok. exists entries, w1.
  split; [unfold file in Hd; by eapply map_err_st_Ok|]. by rewrite (left_id_L ∅ (∪) s0).
Qed.

Lemma current_observed peer (w : W) a w' : current_panu_attachment peer w = (Ok a, w') ->
  match a with Some a => observed_link peer w a w' | None => no_link peer w w' end.
Proof.
  intros (proxy & w1 & [-> Hp]%network_proxy_Ok & Hr)%st_bind_Ok. apply st_bind_Ok in Hr as (connected & w2 & Hb & Hr).
  destruct (get_bool (network_profile peer) CONNECTED_PROPERTY w1) as [y w2'] eqn:Hget. destruct connected; cbn [negb] in Hr.
  - destruct y as [b|e]; [|by destruct (network_interface_is_absent e)]. injection Hb as -> ->.
    apply st_bind_Ok in Hr as (reported & w3 & Hrep%map_err_st_Ok & Hr). apply st_bind_Ok in Hr as (address & w4 & Hl%adapter_address_Ok & Hr).
    apply st_bind_Ok in Hr as (current & w5 & Hk%kernel_names_Ok & Hr). apply st_bind_Ok in Hr as (name & w6 & Hs & Hr).
    injection Hs as Hs%select_exact <-. apply st_bind_Ok in Hr as (att & w7 & Ha & [= <- <-]). injection Ha as Ha%panu_attachment_spec <-.
    by exists w1, w2, reported, w3, address, w4, current, name.
  - injection Hr as <- <-. exists w1, y. split; [done|]. destruct y as [b|e].
    + injection Hb as -> ->. done.
    + destruct (network_interface_is_absent e) eqn:Ha; [|done]. injection Hb as ->. done.
Qed.

Lemma connect_panu_found peer (w : W) a w' : connect_panu peer w = (Ok a, w') -> found peer w a w'.
Proof.
  intros (existing & w1 & Hc%current_observed & Hr)%st_bind_Ok. destruct existing as [b|]; [injection Hr as <- <-; by left|].
  right. apply st_bind_Ok in Hr as (address & w2 & Hl%adapter_address_Ok & Hr).
  apply st_bind_Ok in Hr as (previous & w3 & Hk%kernel_names_Ok & Hr).
  apply st_bind_Ok in Hr as (proxy & w4 & [-> Hp]%network_proxy_Ok & Hr).
  destruct (call_or_timeout _ _ _ _ w4) as [x w5] eqn:Hcall. exists w1, address, w2, previous, w3, w4, x, w5.
  do 5 (split; [done|]). destruct x as [[reply|]|e].
  - apply st_bind_Ok in Hr as (reported & w6 & Hrep & Hr). unfold st_lift in Hrep. injection Hrep as Hrep ->.
    destruct reply as [name0|text]; [|done]. injection Hrep as ->. apply st_bind_Ok in Hr as ([] & w7 & [= <-] & Hr).
    apply st_bind_Ok in Hr as (current & w8 & Hk2%kernel_names_Ok & Hr). apply st_bind_Ok in Hr as (name & w9 & Hs & Hr).
    injection Hs as Hs%select_exact <-. injection Hr as Ha%panu_attachment_spec <-. by exists current, name.
  - by destruct (abort_pending_panu_connect peer w5) as [[] ?].
  - destruct (current_panu_attachment peer w5) as [[[b|]|e'] w6] eqn:Ho; [|done..]. injection Hr as <- <-.
    by apply current_observed in Ho.
Qed.

(** Why a link is taken to be down: BlueZ says that there is none; or the link that
    was observed was asked to be taken down and BlueZ says that it did, or that
    there is none, or shows none afterwards. *)
Definition link_down (peer : PeerHandle) (w w' : W) : Prop :=
  no_link peer w w' \/
  exists a w1 w2 x w3, observed_link peer w a w1 /\ proxy_new (network_profile peer) w1 = (Ok (), w2) /\
    call_method (network_profile peer) DISCONNECT_METHOD [] w2 = (x, w3) /\
    match x with
    | Ok _ => w' = w3
    | Err e => if disconnect_is_already_absent e then w' = w3 else no_link peer w3 w'
    end.

Lemma disconnect_panu_down peer (w w' : W) : disconnect_panu peer w = (Ok (), w') -> link_down peer w w'.
Proof.
  intros (observed & w1 & Ho%current_observed & Hr)%st_bind_Ok. destruct observed as [a|]; [|injection Hr as <-; by left].
  apply st_bind_Ok in Hr as (proxy & w2 & [-> Hp]%network_proxy_Ok & Hr). right.
  destruct (call_method _ _ _ w2) as [x w3] eqn:Hcall. exists a, w1, w2, x, w3. do 3 (split; [done|]).
  destruct x as [reply|e]; [by injection Hr as <-|]. destruct (disconnect_is_already_absent e); [by injection Hr as <-|].
  destruct (current_panu_attachment peer w3) as [[[b|]|e'] w4] eqn:Hc; try done. injection Hr as <-. by apply current_observed in Hc.
Qed.

Lemma validated_exact expected peer : validated_peer expected = Ok peer <-> pa_role expected = Panu /\ pa_peer expected = Some peer.
Proof.
  unfold validated_peer, validate_panu_attachment. destruct expected as [role i [p|]]; cbn.
  - destruct role; cbn; naive_solver.
  - destruct role; cbn; naive_solver.
Qed.

(** Of an expected attachment, whose peer is this: the link is left alone unless it is
    observed to be exactly the expected one. *)
Lemma disconnect_matching_spec expected peer (w : W) x w' : validated_peer expected = Ok peer -> disconnect_matching_panu expected w = (x, w') ->
  exists observed w1, current_panu_attachment peer w = (observed, w1) /\
    match observed with
    | Ok (Some a) => if bool_decide (a = expected) then disconnect_panu peer w1 = (x, w') else x = Err replaced_attachment /\ w' = w1
    | Ok None => x = Ok () /\ w' = w1
    | Err e => x = Err e /\ w' = w1
    end.
Proof.
  intros Hv. unfold disconnect_matching_panu, st_bind, st_lift. rewrite Hv.
  assert (validate_panu_attachment expected = Ok ()) as Hok.
  { unfold validated_peer in Hv. by destruct (validate_panu_attachment expected) as [[]|]. }
  destruct (current_panu_attachment peer w) as [[[a|]|e] w1] eqn:Ho; intros Hr; (eexists; exists w1; split; [done|]);
    unfold should_disconnect_matching_panu in Hr; rewrite ?Hok in Hr; cbn in Hr.
  - destruct (bool_decide_reflect (a = expected)); cbn in Hr; [by rewrite bool_decide_eq_true_2|].
    rewrite bool_decide_eq_false_2 by done. by injection Hr as <- <-.
  - by injection Hr as <- <-.
  - by injection Hr as <- <-.
Qed.


(** A loss is told once, and only when the link was seen not to be the expected one:
    when the subscription was made, or after a signal. *)
Definition seen_gone (a : PanAttachment) (s : BluezPanuSubscription) : Prop :=
  ps_pending_loss s = true \/ exists peer (w w' : W) observed,
    validated_peer a = Ok peer /\ current_panu_attachment peer w = (Ok observed, w') /\ observed <> Some a.

Lemma panu_message_lost s peer (w : W) a s' w' : validated_peer (ps_attachment s) = Ok peer ->
  panu_message s peer w = (Ok (Some (Some (Lost a)), s'), w') -> a = ps_attachment s /\ ps_finished s' = true /\ seen_gone a s.
Proof.
  intros Hv (message & w1 & _ & Hr)%st_bind_Ok. destruct message as [message|]; [|done].
  apply st_bind_Ok in Hr as (trigger & w2 & _ & Hr). destruct trigger; [|done]. cbn [negb] in Hr.
  apply st_bind_Ok in Hr as (observed & w3 & Ho & Hr). unfold observed_panu_is_same in Hr. case_bool_decide as Hs; [done|].
  injection Hr as <- <- _. split; [done|]. split; [done|]. right. by exists peer, w2, w3, observed.
Qed.
Lemma panu_message_same s peer (w : W) s' w' : panu_message s peer w = (Ok (None, s'), w') -> s' = s.
Proof.
  intros (message & w1 & _ & Hr)%st_bind_Ok. destruct message as [message|]; [|done].
  apply st_bind_Ok in Hr as (trigger & w2 & _ & Hr). destruct trigger; [|by injection Hr]. cbn [negb] in Hr.
  apply st_bind_Ok in Hr as (observed & w3 & Ho & Hr). by destruct (observed_panu_is_same _ _); injection Hr.
Qed.

Lemma next_panu_event_lost fuel s (w : W) a s' w' : next_panu_event fuel s w = (Ok (Some (Some (Lost a)), s'), w') ->
  a = ps_attachment s /\ ps_finished s = false /\ ps_finished s' = true /\ seen_gone a s.
Proof.
  unfold next_panu_event. destruct (ps_finished s); [done|]. destruct (ps_pending_loss s) eqn:Hp.
  { intros [= <- <- _]. split_and!; try done. by left. }
  intros (peer & w1 & Hv & Hr)%st_bind_Ok. injection Hv as Hv ->. enough (a = ps_attachment s /\ ps_finished s' = true /\ seen_gone a s) by tauto.
  revert w1 Hr. induction fuel as [|fuel IH]; intros w1; [done|]. cbn [panu_messages].
  intros ([[answer|] s1] & w2 & Hm & Hr)%st_bind_Ok.
  - injection Hr as -> <- _. by eapply panu_message_lost.
  - apply panu_message_same in Hm as ->. eauto.
Qed.
Lemma finished_silent fuel s (w : W) : ps_finished s = true -> next_panu_event fuel s w = (Ok (Some None, s), w).
Proof. unfold next_panu_event. by intros ->. Qed.

(** A link that is not the expected one when the subscription is made is told first. *)
Lemma subscribe_tells a (w : W) s w' peer observed w1 w2 fuel : validated_peer a = Ok peer ->
  bluez_signal_stream w = (Ok (), w1) -> current_panu_attachment peer w1 = (Ok observed, w2) -> observed <> Some a ->
  subscribe_panu_events a w = (Ok s, w') -> exists s', next_panu_event fuel s w' = (Ok (Some (Some (Lost a)), s'), w').
Proof.
  intros Hv Hs Ho Hne. unfold subscribe_panu_events, st_bind, st_lift. rewrite Hv, Hs, Ho. unfold observed_panu_is_same.
  rewrite bool_decide_eq_false_2 by done. intros [= <- <-]. by eexists.
Qed.
End facts.

(** A world that knows whether the link is up, with one interface, which udev has
    renamed. *)
Module demo.
Definition bluez : SystemBus bool := {|
  dbus_proxy_new := fun w => (Ok (), w);
  name_has_owner _ := fun w => (Ok true, w);
  get_name_owner _ := fun w => (Ok (code_points ":1.1"), w);
  proxy_new _ := fun w => (Ok (), w);
  get_bool _ _ := fun w => (Ok w, w);
  get_text _ property := fun w => (Ok (if bool_decide (property = ADDRESS_PROPERTY) then code_points "AA:BB" else code_points "bnep0"), w);
  call_method _ _ _ := fun _ => (Ok (Ok []), false);
  is_dir _ _ := true;
  read_dir _ := fun w => (Ok (if w : bool then [Ok (Some (code_points "enx0"))] else []), w);
  read_to_string _ := fun w => (Ok (code_points "aa:bb"), w);
  timer_after _ := fun w => w;
|}.
Definition panu : PanuBus bool := {|
  call_or_timeout _ _ _ _ := fun _ => (Ok (Some (Ok (code_points "bnep0"))), true);
  signal_stream := fun w => (Ok (), w);
  next_message := fun w => (Ok None, w);
|}.
Definition peer : PeerHandle := mkPeerHandle (code_points "/org/bluez/hci0/dev_11").
End demo.

#[local] Existing Instances demo.bluez demo.panu.
