(* ===== verification/NmProfile.v ===== *)
(** NetworkManager profiles as the backend writes and reads them: the pure part of
    [crates/blueroute-linux/src/networkmanager.rs].

    The text of an IP address, which the standard library prints and parses, is
    behind [IpText].  A diagnostic that quotes values is left out, as are the errors
    of encoding a D-Bus value: the values written hold no file descriptor. *)

From stdpp Require Import gmap strings.
From S2P Require Import Prelude Order Ident StateText Addressing Routes LinuxRoutes StarHost.

(** [Display] and [FromStr] of [std::net::IpAddr]. *)
Class IpText := {
  ip_to_string : IpAddr -> list Z;
  ip_from_str : list Z -> option IpAddr;
}.
(** What is printed is read back, and is not empty. *)
Class LawfulIpText `{IpText} := {
  ip_text_roundtrip a : ip_ok a -> ip_from_str (ip_to_string a) = Some a;
  ip_text_nonempty a : ip_to_string a <> [];
}.

(** ** Values *)

(** An [OwnedValue]: of the entries of a list of dictionaries, and of a setting. *)
Inductive NmLeaf := LeafString (s : list Z) | LeafU32 (n : Z) | LeafBool (b : bool) | LeafOther (n : Z).
Inductive NmValue := NmLeafValue (l : NmLeaf) | NmUserData (data : gmap string (list Z)) | NmEntries (l : list (gmap string NmLeaf)).
Abbreviation NmGroup := (gmap string NmValue).
Abbreviation NmSettings := (gmap string NmGroup).
Abbreviation NmEntry := (gmap string NmLeaf).

Definition CONNECTION_SETTING : string := "connection".
Definition USER_SETTING : string := "user".
Definition IPV4_SETTING : string := "ipv4".
Definition IPV6_SETTING : string := "ipv6".
Definition USER_DATA_PROPERTY : string := "data".
Definition OWNER_KEY : string := "org.blueroute.owner".
Definition KIND_KEY : string := "org.blueroute.kind".
Definition SCHEMA_KEY : string := "org.blueroute.schema".
Definition OWNERSHIP_SCHEMA : list Z := code_points "1".
Definition KIND_BRIDGE : string := "bridge".
Definition KIND_INTERFACE : string := "interface".
Definition DEVICE_TYPE_BRIDGE : Z := 13.
Definition EVENT_QUEUE_CAPACITY : nat := 256.

Definition owned_string (s : list Z) : NmValue := NmLeafValue (LeafString s).

Definition leaf_string (l : NmLeaf) : option (list Z) := match l with LeafString s => Some s | _ => None end.
Definition leaf_u32 (l : NmLeaf) : option Z := match l with LeafU32 n => Some n | _ => None end.
Definition value_string (v : NmValue) : option (list Z) := match v with NmLeafValue l => leaf_string l | _ => None end.

Definition protocol (m : string) : CoreError := core_error ProtocolError m.
Definition malformed_string : CoreError := protocol "NetworkManager returned a malformed string setting".
Definition malformed_optional : CoreError := protocol "NetworkManager returned a malformed optional string setting".

(** The two functions read a group of settings and an entry alike. *)
Definition setting_string {V : Type} (text : V -> option (list Z)) (settings : gmap string V) (key : string) : CoreResult (list Z) :=
  ok_or (settings !! key ≫= text) malformed_string.
Definition optional_setting_string {V : Type} (text : V -> option (list Z)) (settings : gmap string V) (key : string) :
    CoreResult (option (list Z)) :=
  match settings !! key with
  | None => Ok None
  | Some v => match text v with Some s => Ok (Some s) | None => Err malformed_optional end
  end.

(** ** Ownership *)

Definition invalid_state (m : string) : CoreError := core_error InvalidState m.

Definition profile_owner (settings : NmSettings) : CoreResult (option NetworkId) :=
  match settings !! USER_SETTING ≫= (.!! USER_DATA_PROPERTY) with
  | None => Ok None
  | Some (NmUserData data) =>
    match data !! OWNER_KEY with
    | None => Ok None
    | Some owner =>
      _ ← guard_err (negb (bool_decide (data !! SCHEMA_KEY = Some OWNERSHIP_SCHEMA)))
        (invalid_state "NetworkManager profile has an unsupported BlueRoute ownership schema") (Ok ());
      kind ← ok_or (data !! KIND_KEY) (invalid_state "NetworkManager profile has incomplete BlueRoute ownership metadata");
      _ ← guard_err (negb (bool_decide (kind ∈ [code_points KIND_BRIDGE; code_points KIND_INTERFACE])))
        (invalid_state "NetworkManager profile has an unsupported BlueRoute ownership kind") (Ok ());
      id ← map_err (fun _ => invalid_state "NetworkManager profile has an invalid BlueRoute owner identifier") (id_from_str owner);
      Ok (Some id)
    end
  | Some _ => Err (protocol "NetworkManager returned malformed user connection metadata")
  end.

(** [to_string()[..8]] *)
Definition short_owner (owner : NetworkId) : list Z := take 8 (id_to_string owner).

(** [u8::rotate_left] *)
Definition rotl8 (x n : Z) : Z := Z.lor (Z.land (Z.shiftl x (n mod 8)%Z) 255) (Z.shiftr x (8 - n mod 8))%Z.

(** One byte of the name or the kind, at its index. *)
Definition mix_byte (bytes : list Z) (index : nat) (byte : Z) : list Z :=
  let slot := (index mod 16)%nat in
  let mixed := rotl8 ((byte + rotl8 ((Z.of_nat index mod 256)%Z) (Z.of_nat (slot mod 7))) mod 256)%Z (Z.of_nat (slot mod 5)) in
  let bytes := <[slot := (((default 0%Z (bytes !! slot) * 31) mod 256 + mixed) mod 256)%Z]> bytes in
  let other := ((slot + 7) mod 16)%nat in
  <[other := Z.lxor (default 0%Z (bytes !! other)) (rotl8 mixed 3)]> bytes.

Fixpoint mix_bytes (index : nat) (l bytes : list Z) : list Z :=
  match l with [] => bytes | byte :: l => mix_bytes (S index) l (mix_byte bytes index byte) end.

Definition uuid_version (bytes : list Z) : list Z :=
  let bytes := <[6%nat := (Z.lor (Z.land (default 0%Z (bytes !! 6%nat)) 15) 80)%Z]> bytes in
  <[8%nat := (Z.lor (Z.land (default 0%Z (bytes !! 8%nat)) 63) 128)%Z]> bytes.

Definition HYPHEN : Z := 45.
Definition uuid_text (bytes : list Z) : list Z :=
  let hex a n := encode_hex (take n (drop a bytes)) in
  hex 0%nat 4%nat ++ [HYPHEN] ++ hex 4%nat 2%nat ++ [HYPHEN] ++ hex 6%nat 2%nat ++ [HYPHEN] ++ hex 8%nat 2%nat ++ [HYPHEN] ++ hex 10%nat 6%nat.

Definition profile_uuid_bytes (owner : NetworkId) (interface : NetworkInterfaceHandle) (kind : string) : list Z :=
  uuid_version (mix_bytes 0 (utf8_encode (as_str interface) ++ [255%Z] ++ code_points kind) (bytes_list (as_bytes owner))).
Definition profile_uuid (owner : NetworkId) (interface : NetworkInterfaceHandle) (kind : string) : list Z :=
  uuid_text (profile_uuid_bytes owner interface kind).

Definition connection_type_of (kind : string) : CoreResult string :=
  if bool_decide (kind = KIND_BRIDGE) then Ok KIND_BRIDGE
  else if bool_decide (kind = KIND_INTERFACE) then Ok "generic"
  else Err (core_error Internal "invalid internal NetworkManager profile kind").

Definition disabled_family : NmGroup :=
  <["method" := owned_string (code_points "disabled")]> (<["never-default" := NmLeafValue (LeafBool true)]> ∅).

Definition base_owned_settings (owner : NetworkId) (interface : NetworkInterfaceHandle) (kind : string) : CoreResult NmSettings :=
  connection_type ← connection_type_of kind;
  let connection : NmGroup :=
    <["id" := owned_string (code_points ("blueroute-" ++ kind ++ "-") ++ short_owner owner)]>
    (<["uuid" := owned_string (profile_uuid owner interface kind)]>
    (<["type" := owned_string (code_points connection_type)]>
    (<["interface-name" := owned_string (as_str interface)]>
    (<["autoconnect" := NmLeafValue (LeafBool false)]> ∅)))) in
  let user_data : gmap string (list Z) :=
    <[OWNER_KEY := id_to_string owner]> (<[KIND_KEY := code_points kind]> (<[SCHEMA_KEY := OWNERSHIP_SCHEMA]> ∅)) in
  let settings : NmSettings :=
    <[CONNECTION_SETTING := connection]> (<[USER_SETTING := <[USER_DATA_PROPERTY := NmUserData user_data]> ∅]>
    (<[IPV4_SETTING := disabled_family]> (<[IPV6_SETTING := disabled_family]> ∅))) in
  Ok (if bool_decide (kind = KIND_BRIDGE) then <[KIND_BRIDGE := ∅]> settings else settings).

(** ** Connections and devices *)

Record NetworkConnectionHandle := mkConnectionHandle { connection_str : list Z }.
#[global] Instance NetworkConnectionHandle_eq_dec : EqDecision NetworkConnectionHandle.
Proof. solve_decision. Defined.
#[global] Program Instance NetworkConnectionHandle_countable : Countable NetworkConnectionHandle :=
  inj_countable' connection_str mkConnectionHandle _.
Next Obligation. by intros []. Qed.
Lemma connection_str_inj x y : connection_str x = connection_str y -> x = y.
Proof. destruct x, y; simpl; congruence. Qed.
#[global] Instance NetworkConnectionHandle_ord : RustOrd NetworkConnectionHandle := ord_via connection_str connection_str_inj.

Record NetworkDeviceHandle := mkDeviceHandle { device_str : list Z }.
#[global] Instance NetworkDeviceHandle_eq_dec : EqDecision NetworkDeviceHandle.
Proof. solve_decision. Defined.
#[global] Program Instance NetworkDeviceHandle_countable : Countable NetworkDeviceHandle :=
  inj_countable' device_str mkDeviceHandle _.
Next Obligation. by intros []. Qed.
Lemma device_str_inj x y : device_str x = device_str y -> x = y.
Proof. destruct x, y; simpl; congruence. Qed.
#[global] Instance NetworkDeviceHandle_ord : RustOrd NetworkDeviceHandle := ord_via device_str device_str_inj.

Definition connection_handle_new (value : list Z) : CoreResult NetworkConnectionHandle :=
  guard_err (bool_decide (trim value = [])) (core_error InvalidInput "NetworkConnectionHandle cannot be empty") (Ok (mkConnectionHandle value)).
Definition device_handle_new (value : list Z) : CoreResult NetworkDeviceHandle :=
  guard_err (bool_decide (trim value = [])) (core_error InvalidInput "NetworkDeviceHandle cannot be empty") (Ok (mkDeviceHandle value)).

Record NetworkConnection := mkConnection {
  nc_handle : NetworkConnectionHandle;
  nc_id : list Z;
  nc_uuid : list Z;
  nc_connection_type : list Z;
  nc_interface : option NetworkInterfaceHandle;
  nc_owner : option NetworkId;
}.
#[global] Instance NetworkConnection_eq_dec : EqDecision NetworkConnection.
Proof. solve_decision. Defined.

Record NetworkDevice := mkDevice {
  nd_handle : NetworkDeviceHandle;
  nd_interface : NetworkInterfaceHandle;
  nd_managed : bool;
  nd_device_type : Z;
  nd_state : Z;
  nd_active_connection : option NetworkConnectionHandle;
}.
#[global] Instance NetworkDevice_eq_dec : EqDecision NetworkDevice.
Proof. solve_decision. Defined.

Inductive NetworkStateEvent :=
| ConnectionAdded (c : NetworkConnection) | ConnectionChanged (c : NetworkConnection) | ConnectionRemoved (h : NetworkConnectionHandle)
| DeviceAdded (d : NetworkDevice) | DeviceChanged (d : NetworkDevice) | DeviceRemoved (h : NetworkDeviceHandle).

Definition connection_from_settings (path : list Z) (settings : NmSettings) : CoreResult NetworkConnection :=
  connection ← ok_or (settings !! CONNECTION_SETTING)
    (protocol "NetworkManager returned a connection profile without connection settings");
  id ← setting_string value_string connection "id";
  uuid ← setting_string value_string connection "uuid";
  connection_type ← setting_string value_string connection "type";
  name ← optional_setting_string value_string connection "interface-name";
  interface ← match name with Some name => handle ← interface_new name; Ok (Some handle) | None => Ok None end;
  owner ← profile_owner settings;
  handle ← connection_handle_new path;
  Ok (mkConnection handle id uuid connection_type interface owner).

Definition validate_interface_name (interface : NetworkInterfaceHandle) : CoreResult () :=
  guard_err (15 <? length (utf8_encode (as_str interface)))%nat
    (core_error InvalidInput "Linux network interface names cannot exceed 15 bytes")
  (guard_err (bool_decide (47%Z ∈ as_str interface) || bool_decide (0%Z ∈ as_str interface))
    (core_error InvalidInput "network interface name contains invalid characters") (Ok ())).

(** ** Addresses and routes of a profile *)

(** [Vec::dedup] *)
Fixpoint dedup {A : Type} `{EqDecision A} (l : list A) : list A :=
  match l with
  | x :: (y :: _) as l' => if decide (x = y) then dedup l' else x :: dedup l'
  | _ => l
  end.

(** The entries under a key of a family, if it has them. *)
Definition family_entries (settings : NmSettings) (family key malformed : string) : CoreResult (list NmEntry) :=
  match settings !! family ≫= (.!! key) with
  | None => Ok []
  | Some (NmEntries l) => Ok l
  | Some _ => Err (protocol malformed)
  end.

Definition entry_prefix (missing invalid range : string) (entry : NmEntry) : CoreResult (CoreResult Z) :=
  leaf ← ok_or (entry !! "prefix") (protocol missing);
  n ← ok_or (leaf_u32 leaf) (protocol invalid);
  Ok (guard_err (u_max 8 <? n)%Z (protocol range) (Ok n)).

Abbreviation RouteKey := (IpPrefix * option IpAddr * Z)%type.

Section text.
Context `{IpText}.

(** The address is parsed between the two conversions of the prefix. *)
Definition address_from_entry (entry : NmEntry) : CoreResult IpPrefix :=
  text ← setting_string leaf_string entry "address";
  prefix ← entry_prefix "NetworkManager address-data entry is missing a prefix" "NetworkManager returned an invalid address prefix"
    "NetworkManager returned an out-of-range IP prefix length" entry;
  address ← ok_or (ip_from_str text) (protocol "NetworkManager returned an invalid IP address");
  prefix ← prefix;
  ip_prefix_new address prefix.

Fixpoint collect_result {A B : Type} (f : A -> CoreResult B) (l : list A) : CoreResult (list B) :=
  match l with
  | [] => Ok []
  | x :: l => y ← f x; rest ← collect_result f l; Ok (y :: rest)
  end.

Definition family_addresses (settings : NmSettings) (family : string) : CoreResult (list IpPrefix) :=
  entries ← family_entries settings family "address-data" "NetworkManager returned malformed address-data";
  collect_result address_from_entry entries.

Definition address_prefixes (settings : NmSettings) : CoreResult (list IpPrefix) :=
  v4 ← family_addresses settings IPV4_SETTING;
  v6 ← family_addresses settings IPV6_SETTING;
  Ok (dedup (merge_sort ord_le (v4 ++ v6))).

Definition encode_address (prefix : IpPrefix) : NmEntry :=
  <["address" := LeafString (ip_to_string (address prefix))]> (<["prefix" := LeafU32 (prefix_len prefix)]> ∅).

Definition set_family (prefixes : list IpPrefix) (group : NmGroup) : NmGroup :=
  let group := delete "addresses" group in
  match prefixes with
  | [] => <["never-default" := NmLeafValue (LeafBool true)]>
            (delete "address-data" (<["method" := owned_string (code_points "disabled")]> group))
  | _ => <["address-data" := NmEntries (encode_address <$> prefixes)]>
           (<["never-default" := NmLeafValue (LeafBool true)]> (<["method" := owned_string (code_points "manual")]> group))
  end.

Definition of_family (ipv4 : bool) (prefixes : list IpPrefix) : list IpPrefix := List.filter (fun p => Bool.eqb (is_ipv4 (address p)) ipv4) prefixes.

(** [entry(family).or_default()] *)
Definition alter_group (f : NmGroup -> NmGroup) (family : string) (settings : NmSettings) : NmSettings :=
  <[family := f (default ∅ (settings !! family))]> settings.

Definition set_address_prefixes (prefixes : list IpPrefix) (settings : NmSettings) : NmSettings :=
  alter_group (set_family (of_family false prefixes)) IPV6_SETTING
    (alter_group (set_family (of_family true prefixes)) IPV4_SETTING settings).

Definition validate_linux_route (route : LinuxRoute) : CoreResult () :=
  _ ← validate_interface_name (interface route);
  guard_err match via route with Some v => negb (Bool.eqb (is_ipv4 v) (is_ipv4 (address (lr_destination route)))) | None => false end
    (core_error InvalidInput "route destination and next hop must use the same IP family") (Ok ()).

Definition route_data_entries (settings : NmSettings) (family : string) : CoreResult (list NmEntry) :=
  family_entries settings family "route-data" "NetworkManager returned malformed route-data".

Definition route_key_from_entry (ipv4 : bool) (entry : NmEntry) : CoreResult RouteKey :=
  _ ← guard_err (negb (bool_decide (dom entry ⊆ {["dest"; "prefix"; "next-hop"; "metric"]})))
    (invalid_state "NetworkManager BlueRoute-owned route-data contains unsupported route attributes") (Ok ());
  text ← setting_string leaf_string entry "dest";
  destination ← ok_or (ip_from_str text) (protocol "NetworkManager returned an invalid route destination");
  _ ← guard_err (negb (Bool.eqb (is_ipv4 destination) ipv4))
    (protocol "NetworkManager route-data destination is stored under the wrong IP family") (Ok ());
  prefix ← entry_prefix "NetworkManager route-data entry is missing a prefix" "NetworkManager returned an invalid route prefix"
    "NetworkManager returned an out-of-range route prefix length" entry;
  prefix ← prefix;
  destination ← ip_prefix_new destination prefix;
  hop ← optional_setting_string leaf_string entry "next-hop";
  via ← match hop with
    | None | Some [] => Ok None
    | Some text => a ← ok_or (ip_from_str text) (protocol "NetworkManager returned an invalid route next hop"); Ok (Some a)
    end;
  _ ← guard_err match via with Some a => negb (Bool.eqb (is_ipv4 a) ipv4) | None => false end
    (protocol "NetworkManager route-data next hop uses the wrong IP family") (Ok ());
  metric ← ok_or (entry !! "metric") (invalid_state "BlueRoute-owned NetworkManager route-data entry is missing an explicit metric");
  metric ← ok_or (leaf_u32 metric) (protocol "NetworkManager returned an invalid route metric");
  Ok (destination, via, metric).

Definition encode_route_entry (route : LinuxRoute) : NmEntry :=
  let entry : NmEntry := <["dest" := LeafString (ip_to_string (address (lr_destination route)))]>
    (<["prefix" := LeafU32 (prefix_len (lr_destination route))]> ∅) in
  let entry := match via route with Some v => <["next-hop" := LeafString (ip_to_string v)]> entry | None => entry end in
  <["metric" := LeafU32 (metric route)]> entry.

Definition route_target (route : LinuxRoute) : RouteKey := (lr_destination route, via route, metric route).

Record RouteScan := mkScan { rs_kept : list NmEntry; rs_changed : bool; rs_found : bool }.

(** One entry of the loop. *)
Definition scan_entry (route : LinuxRoute) (present : bool) (entry : NmEntry) (key : RouteKey) (st : RouteScan) : RouteScan :=
  if present && bool_decide (key.1.1 = lr_destination route) then
    if bool_decide (key = route_target route) && negb (rs_found st) then mkScan (rs_kept st ++ [entry]) (rs_changed st) true
    else mkScan (rs_kept st) true (rs_found st)
  else if negb present && bool_decide (key = route_target route) then mkScan (rs_kept st) true (rs_found st)
  else mkScan (rs_kept st ++ [entry]) (rs_changed st) (rs_found st).

Fixpoint scan_entries (route : LinuxRoute) (present ipv4 : bool) (entries : list NmEntry) (st : RouteScan) : CoreResult RouteScan :=
  match entries with
  | [] => Ok st
  | entry :: entries =>
    key ← route_key_from_entry ipv4 entry;
    scan_entries route present ipv4 entries (scan_entry route present entry key st)
  end.

Definition route_family (route : LinuxRoute) : string :=
  if is_ipv4 (address (lr_destination route)) then IPV4_SETTING else IPV6_SETTING.

(** A route is added to a family that is configured by hand only. *)
Definition require_manual (family : string) (settings : NmSettings) : CoreResult () :=
  group ← ok_or (settings !! family)
    (invalid_state "BlueRoute-owned NetworkManager profile is missing IP settings for the route family");
  mode ← setting_string value_string group "method";
  guard_err (negb (bool_decide (mode = code_points "manual")))
    (invalid_state "BlueRoute routes require the target IP family to be configured manually before adding routes") (Ok ()).

Definition write_routes (st : RouteScan) (group : NmGroup) : bool * NmGroup :=
  let changed := rs_changed st || bool_decide (is_Some (group !! "routes")) in
  let group := delete "routes" group in
  (changed, if changed then
      match rs_kept st with [] => delete "route-data" group | kept => <["route-data" := NmEntries kept]> group end
    else group).

(** Whether the settings changed, and the settings. *)
Definition set_route_present (route : LinuxRoute) (present : bool) (settings : NmSettings) : CoreResult (bool * NmSettings) :=
  let family := route_family route in
  _ ← (if present then require_manual family settings else Ok ());
  entries ← route_data_entries settings family;
  st ← scan_entries route present (is_ipv4 (address (lr_destination route))) entries (mkScan [] false false);
  let st := if present && negb (rs_found st) then mkScan (rs_kept st ++ [encode_route_entry route]) true (rs_found st) else st in
  let (changed, group) := write_routes st (default ∅ (settings !! family)) in
  Ok (changed, <[family := group]> settings).

(** The routes of a family of a profile. *)
Definition family_routes (settings : NmSettings) (family : string) (ipv4 : bool) : CoreResult (list RouteKey) :=
  entries ← route_data_entries settings family;
  collect_result (route_key_from_entry ipv4) entries.
End text.

(** ** Events *)

(** A push onto a full queue is refused; what was pushed before stays. *)
Definition push_event (event : NetworkStateEvent) : stres (list NetworkStateEvent) CoreError () := fun pending =>
  if (EVENT_QUEUE_CAPACITY <=? length pending)%nat then
    (Err (core_error Internal "NetworkManager change queue exceeded its bounded capacity"), pending)
  else (Ok (), pending ++ [event]).

Fixpoint push_events (events : list NetworkStateEvent) : stres (list NetworkStateEvent) CoreError () :=
  match events with [] => st_ret () | event :: events => let! _ := push_event event in push_events events end.

(** What a map of handles turned into: what is gone or differs, then what is new. *)
Definition map_changes {K V : Type} `{Countable K} `{RustOrd K} `{EqDecision V} (added changed : V -> NetworkStateEvent)
    (removed : K -> NetworkStateEvent) (previous current : gmap K V) : list NetworkStateEvent :=
  omap (fun '(handle, old) => match current !! handle with
    | None => Some (removed handle)
    | Some new => if bool_decide (old = new) then None else Some (changed new)
    end) (iter_map previous)
  ++ omap (fun '(handle, value) => match previous !! handle with None => Some (added value) | Some _ => None end) (iter_map current).

Definition queue_connection_changes (previous current : gmap NetworkConnectionHandle NetworkConnection) : stres (list NetworkStateEvent) CoreError () :=
  push_events (map_changes ConnectionAdded ConnectionChanged ConnectionRemoved previous current).
Definition queue_device_changes (previous current : gmap NetworkDeviceHandle NetworkDevice) : stres (list NetworkStateEvent) CoreError () :=
  push_events (map_changes DeviceAdded DeviceChanged DeviceRemoved previous current).

(** ** Facts: ownership *)

(** What this backend writes it recognises as its owner's. *)
Lemma base_profile_owner owner interface kind settings :
  base_owned_settings owner interface kind = Ok settings -> profile_owner settings = Ok (Some owner).
Proof.
  unfold base_owned_settings, connection_type_of. intros (t & Ht & Hs)%result_bind_Ok.
  assert (kind = KIND_BRIDGE \/ kind = KIND_INTERFACE) as Hk by (revert Ht; repeat case_bool_decide; auto; done).
  assert (profile_owner settings = (id ← map_err (fun _ => invalid_state "NetworkManager profile has an invalid BlueRoute owner identifier")
    (id_from_str (id_to_string owner)); Ok (Some id))) as ->.
  { unfold profile_owner. injection Hs as <-. destruct Hk as [-> | ->]; reflexivity. }
  assert (id_from_str (id_to_string owner) = Ok owner) as -> by apply id_string_roundtrip. done.
Qed.

(** Writing addresses or routes leaves the rest of a profile alone. *)
Lemma alter_group_other (f : NmGroup -> NmGroup) family other settings : family <> other ->
  alter_group f family settings !! other = settings !! other.
Proof. intros Hne. unfold alter_group. by rewrite lookup_insert_ne. Qed.
Lemma profile_owner_congr (s s' : NmSettings) : s' !! USER_SETTING = s !! USER_SETTING -> profile_owner s' = profile_owner s.
Proof. unfold profile_owner. by intros ->. Qed.

Section facts.
Context `{LawfulIpText}.

Lemma set_addresses_owner prefixes settings : profile_owner (set_address_prefixes prefixes settings) = profile_owner settings.
Proof. apply profile_owner_congr. unfold set_address_prefixes. by rewrite !alter_group_other. Qed.
Lemma set_route_owner route present settings b settings' :
  set_route_present route present settings = Ok (b, settings') -> profile_owner settings' = profile_owner settings.
Proof.
  unfold set_route_present. intros (? & _ & (? & _ & (st & _ & Hs)%result_bind_Ok)%result_bind_Ok)%result_bind_Ok.
  destruct (write_routes _ _) as [c group]. injection Hs as _ <-. apply profile_owner_congr.
  by rewrite lookup_insert_ne by (unfold route_family; by destruct (is_ipv4 _)).
Qed.

(** ** Facts: addresses *)

Definition prefix_ok (p : IpPrefix) : Prop := ip_ok (address p) /\ (0 <= prefix_len p <= max_prefix_len (address p))%Z.

Lemma prefix_decodes p : prefix_ok p -> ip_prefix_new (address p) (prefix_len p) = Ok p.
Proof. intros [_ Hl]. unfold ip_prefix_new. destruct (Z.ltb_spec (max_prefix_len (address p)) (prefix_len p)); [lia|]. by destruct p. Qed.
Lemma max_prefix_u8 a : (max_prefix_len a <= u_max 8)%Z.
Proof. destruct a; cbn; unfold u_max; lia. Qed.

Lemma decode_address p : prefix_ok p -> address_from_entry (encode_address p) = Ok p.
Proof.
  intros Hp. pose proof Hp as [Ha Hl]. pose proof (max_prefix_u8 (address p)). unfold address_from_entry, setting_string, entry_prefix, encode_address.
  simplify_map_eq. cbn. rewrite (ip_text_roundtrip _ Ha). cbn. destruct (Z.ltb_spec (u_max 8) (prefix_len p)); [lia|]. cbn.
  by apply prefix_decodes.
Qed.
Lemma collect_result_map {A B : Type} (f : A -> CoreResult B) (g : B -> A) l :
  Forall (fun x => f (g x) = Ok x) l -> collect_result f (g <$> l) = Ok l.
Proof. induction 1 as [|x l Hx _ IH]; [done|]. cbn. by rewrite Hx; cbn; rewrite IH. Qed.

Lemma family_addresses_set family prefixes settings : Forall prefix_ok prefixes ->
  family_addresses (alter_group (set_family prefixes) family settings) family = Ok prefixes.
Proof.
  intros Hok. unfold family_addresses, family_entries, alter_group. rewrite lookup_insert_eq. cbn.
  destruct prefixes as [|p l]; cbn [set_family].
  - by rewrite lookup_insert_ne, lookup_delete_eq.
  - rewrite lookup_insert_eq. refine (collect_result_map address_from_entry encode_address (p :: l) _). eapply Forall_impl; [exact Hok|]. apply decode_address.
Qed.
Lemma family_addresses_other family other f settings : family <> other ->
  family_addresses (alter_group f family settings) other = family_addresses settings other.
Proof. intros Hne. unfold family_addresses, family_entries. by rewrite alter_group_other. Qed.

Lemma of_family_perm prefixes : of_family true prefixes ++ of_family false prefixes ≡ₚ prefixes.
Proof.
  induction prefixes as [|p l IH]; [done|]. cbn. destruct (is_ipv4 (address p)); cbn.
  - by apply Permutation_cons.
  - rewrite <- Permutation_middle. by apply Permutation_cons.
Qed.
Lemma Forall_of_family (P : IpPrefix -> Prop) b l : Forall P l -> Forall P (of_family b l).
Proof. unfold of_family. rewrite !Forall_forall. intros Hl x [Hx _]%list_elem_of_In%filter_In. apply Hl. by apply list_elem_of_In. Qed.

(** What was written is read back, in order and once each. *)
Lemma addresses_read prefixes settings : Forall prefix_ok prefixes ->
  address_prefixes (set_address_prefixes prefixes settings) =
  Ok (dedup (merge_sort ord_le (of_family true prefixes ++ of_family false prefixes))).
Proof.
  intros Hok. unfold address_prefixes, set_address_prefixes.
  rewrite (family_addresses_other IPV6_SETTING IPV4_SETTING) by done. rewrite !family_addresses_set by (by apply Forall_of_family). done.
Qed.
End facts.

Lemma dedup_cons {A : Type} `{EqDecision A} (y z : A) l :
  dedup (y :: z :: l) = if decide (y = z) then dedup (z :: l) else y :: dedup (z :: l).
Proof. done. Qed.
Lemma elem_of_dedup {A : Type} `{EqDecision A} (l : list A) x : x ∈ dedup l <-> x ∈ l.
Proof.
  induction l as [|y [|z l] IH]; [done|done|]. rewrite dedup_cons. destruct (decide (y = z)) as [->|Hne].
  - rewrite IH. set_solver.
  - rewrite !(elem_of_cons _ x y), IH. done.
Qed.
Lemma dedup_NoDup {A : Type} `{EqDecision A} `{RustOrd A} (l : list A) : StronglySorted ord_le l -> NoDup (dedup l).
Proof.
  induction l as [|y [|z l] IH]; intros Hs; [constructor|by apply NoDup_singleton|]. rewrite dedup_cons.
  apply StronglySorted_inv in Hs as [Hs Hy]. destruct (decide (y = z)) as [->|Hne]; [by apply IH|].
  apply NoDup_cons. split; [|by apply IH]. rewrite elem_of_dedup, elem_of_cons. intros [?|Hin]; [done|].
  apply StronglySorted_inv in Hs as [_ Hz]. rewrite Forall_forall in Hz, Hy. apply Hne. apply (anti_symm ord_le).
  - apply Hy. by left.
  - by apply Hz.
Qed.

(** ** Facts: routes *)

Section routes.
Context `{LawfulIpText}.

Definition route_ok (route : LinuxRoute) : Prop :=
  prefix_ok (lr_destination route) /\
  match via route with Some a => ip_ok a /\ is_ipv4 a = is_ipv4 (address (lr_destination route)) | None => True end.

Lemma decode_route route : route_ok route ->
  route_key_from_entry (is_ipv4 (address (lr_destination route))) (encode_route_entry route) = Ok (route_target route).
Proof.
  intros [Hp Hv]. pose proof Hp as [Ha Hl]. pose proof (max_prefix_u8 (address (lr_destination route))).
  unfold route_key_from_entry, encode_route_entry, route_target, setting_string, optional_setting_string, entry_prefix.
  destruct (via route) as [a|] eqn:Hvia.
  - destruct Hv as [Hv Hf]. rewrite bool_decide_eq_true_2 by (rewrite !dom_insert_L, dom_empty_L; set_solver). cbn.
    simplify_map_eq. cbn. rewrite (ip_text_roundtrip _ Ha). cbn. rewrite Bool.eqb_reflx. cbn.
    destruct (Z.ltb_spec (u_max 8) (prefix_len (lr_destination route))); [lia|]. cbn. rewrite prefix_decodes by done. cbn.
    pose proof (ip_text_nonempty a). destruct (ip_to_string a) eqn:Ht; [done|]. rewrite <- Ht, (ip_text_roundtrip _ Hv). cbn.
    by rewrite Hf, Bool.eqb_reflx.
  - rewrite bool_decide_eq_true_2 by (rewrite !dom_insert_L, dom_empty_L; set_solver). cbn.
    simplify_map_eq. cbn. rewrite (ip_text_roundtrip _ Ha). cbn. rewrite Bool.eqb_reflx. cbn.
    destruct (Z.ltb_spec (u_max 8) (prefix_len (lr_destination route))); [lia|]. cbn. rewrite prefix_decodes by done. done.
Qed.

(** What the loop keeps of the keys. *)
Fixpoint keep (route : LinuxRoute) (present found : bool) (ks : list RouteKey) : list RouteKey :=
  match ks with
  | [] => []
  | k :: ks =>
    if present && bool_decide (k.1.1 = lr_destination route) then
      if bool_decide (k = route_target route) && negb found then k :: keep route present true ks else keep route present found ks
    else if negb present && bool_decide (k = route_target route) then keep route present found ks
    else k :: keep route present found ks
  end.

Lemma collect_app {A B : Type} (f : A -> CoreResult B) l1 l2 x y : collect_result f l1 = Ok x -> collect_result f l2 = Ok y ->
  collect_result f (l1 ++ l2) = Ok (x ++ y).
Proof.
  revert x. induction l1 as [|a l1 IH]; intros x; cbn; [by intros [= <-]|].
  intros (b & -> & (rest & Hr & [= <-])%result_bind_Ok)%result_bind_Ok Hy. cbn. by rewrite (IH rest Hr Hy).
Qed.

Lemma scan_keys route present ipv4 entries st st' ks :
  collect_result (route_key_from_entry ipv4) (rs_kept st) = Ok ks -> scan_entries route present ipv4 entries st = Ok st' ->
  exists es, collect_result (route_key_from_entry ipv4) entries = Ok es /\
    collect_result (route_key_from_entry ipv4) (rs_kept st') = Ok (ks ++ keep route present (rs_found st) es) /\
    rs_found st' = rs_found st || present && bool_decide (route_target route ∈ es) /\
    (rs_changed st' = false -> rs_changed st = false /\ rs_kept st' = rs_kept st ++ entries).
Proof.
  revert st ks. induction entries as [|entry entries IH]; intros st ks Hk.
  - intros [= <-]. exists []. rewrite !app_nil_r. split; [done|]. split; [done|]. rewrite bool_decide_eq_false_2 by set_solver.
    by rewrite andb_false_r, orb_false_r.
  - cbn [scan_entries]. intros (key & Hkey & Hscan)%result_bind_Ok.
    assert (collect_result (route_key_from_entry ipv4) [entry] = Ok [key]) as Hone by (cbn; by rewrite Hkey).
    unfold scan_entry in Hscan.
    destruct (present && bool_decide (key.1.1 = lr_destination route)) eqn:Hdest;
      [destruct (bool_decide (key = route_target route) && negb (rs_found st)) eqn:Hsame
      |destruct (negb present && bool_decide (key = route_target route)) eqn:Hgone].
    + destruct (IH (mkScan (rs_kept st ++ [entry]) (rs_changed st) true) _ (collect_app _ _ _ _ _ Hk Hone) Hscan) as (es & He & Hkept & Hf & Hc). exists (key :: es).
      split; [cbn; by rewrite Hkey; cbn; rewrite He|]. apply andb_true_iff in Hsame as [Hs%bool_decide_eq_true Hn].
      apply andb_true_iff in Hdest as [-> Hd]. cbn [keep]. rewrite Hd. rewrite (bool_decide_eq_true_2 (key = _)) by done. rewrite Hn. cbn [andb rs_found rs_changed rs_kept] in *.
      rewrite <- app_assoc in Hkept. split; [done|]. split; [|intros Hx; destruct (Hc Hx) as [? ->]; by rewrite <- app_assoc].
      rewrite Hf, (bool_decide_eq_true_2 (_ ∈ key :: es)) by (subst; by left). cbn. by rewrite orb_true_r.
    + destruct (IH (mkScan (rs_kept st) true (rs_found st)) _ Hk Hscan) as (es & He & Hkept & Hf & Hc). exists (key :: es). split; [cbn; by rewrite Hkey; cbn; rewrite He|].
      cbn [keep]. rewrite Hdest, Hsame. cbn [rs_found rs_changed rs_kept] in *. split; [done|]. split; [|by intros [? _]%Hc].
      rewrite Hf. destruct (rs_found st); [done|]. cbn. rewrite andb_true_r in Hsame. apply bool_decide_eq_false in Hsame. f_equal.
      apply bool_decide_ext. set_solver.
    + destruct (IH (mkScan (rs_kept st) true (rs_found st)) _ Hk Hscan) as (es & He & Hkept & Hf & Hc). exists (key :: es). split; [cbn; by rewrite Hkey; cbn; rewrite He|].
      cbn [keep]. rewrite Hdest, Hgone. cbn [rs_found rs_changed rs_kept] in *. split; [done|]. split; [|by intros [? _]%Hc].
      rewrite Hf. by apply andb_true_iff in Hgone as [->%negb_true_iff _].
    + destruct (IH (mkScan (rs_kept st ++ [entry]) (rs_changed st) (rs_found st)) _ (collect_app _ _ _ _ _ Hk Hone) Hscan) as (es & He & Hkept & Hf & Hc). exists (key :: es).
      split; [cbn; by rewrite Hkey; cbn; rewrite He|]. cbn [keep]. rewrite Hdest, Hgone. cbn [rs_found rs_changed rs_kept] in *.
      rewrite <- app_assoc in Hkept. split; [done|]. split; [|intros Hx; destruct (Hc Hx) as [? ->]; by rewrite <- app_assoc].
      rewrite Hf. destruct present; [|done]. cbn in *. f_equal. apply bool_decide_ext. apply bool_decide_eq_false in Hdest.
      rewrite elem_of_cons. split; [by right|]. intros [Heq|]; [|done]. by destruct Hdest; rewrite <- Heq.
Qed.

Definition to_destination (d : IpPrefix) (k : RouteKey) : bool := bool_decide (k.1.1 = d).

Lemma keep_absent route found ks : keep route false found ks = List.filter (fun k => negb (bool_decide (k = route_target route))) ks.
Proof. induction ks as [|k ks IH]; [done|]. cbn. by destruct (bool_decide (k = _)); cbn; rewrite IH. Qed.
Lemma keep_elsewhere route found ks :
  List.filter (fun k => negb (to_destination (lr_destination route) k)) (keep route true found ks) =
  List.filter (fun k => negb (to_destination (lr_destination route) k)) ks.
Proof.
  revert found. induction ks as [|k ks IH]; intros found; [done|]. cbn. unfold to_destination in *.
  destruct (bool_decide (k.1.1 = _)) eqn:Hd; [|cbn; by rewrite Hd; cbn; rewrite IH]. destruct (_ && _); cbn; rewrite ?Hd; cbn; apply IH.
Qed.
Lemma keep_there route found ks :
  List.filter (to_destination (lr_destination route)) (keep route true found ks) =
  if negb found && bool_decide (route_target route ∈ ks) then [route_target route] else [].
Proof.
  revert found. induction ks as [|k ks IH]; intros found; cbn; [by rewrite andb_false_r|]. unfold to_destination in *.
  destruct (bool_decide_reflect (k = route_target route)) as [->|Hne].
  - rewrite (bool_decide_eq_true_2 ((route_target route).1.1 = _)) by done. rewrite (bool_decide_eq_true_2 (_ ∈ _)) by (by left).
    destruct found; cbn; [by rewrite IH|]. by rewrite bool_decide_eq_true_2, IH.
  - assert (bool_decide (route_target route ∈ k :: ks) = bool_decide (route_target route ∈ ks)) as -> by (apply bool_decide_ext; set_solver).
    destruct (bool_decide (k.1.1 = _)) eqn:Hd; cbn; [|rewrite Hd]; apply IH.
Qed.

Lemma keep_length route present found ks : (length (keep route present found ks) <= length ks)%nat.
Proof. revert found. induction ks as [|k ks IH]; intros found; cbn; [lia|]. pose proof (IH found). pose proof (IH true). repeat case_match; cbn; lia. Qed.
Lemma keep_app route present found a b :
  keep route present found (a ++ b) = keep route present found a ++ keep route present (found || present && bool_decide (route_target route ∈ a)) b.
Proof.
  revert found. induction a as [|k a IH]; intros found; cbn; [by rewrite andb_false_r, orb_false_r|].
  assert (bool_decide (route_target route ∈ k :: a) = bool_decide (k = route_target route) || bool_decide (route_target route ∈ a)) as ->.
  { rewrite <- bool_decide_or. apply bool_decide_ext. rewrite elem_of_cons. naive_solver. }
  destruct (bool_decide_reflect (k = route_target route)) as [->|Hne]; cbn [orb andb].
  - rewrite (bool_decide_eq_true_2 ((route_target route).1.1 = _)) by done. destruct present, found; cbn; by rewrite IH; cbn; rewrite ?andb_true_r.
  - destruct present; cbn; [destruct (bool_decide (k.1.1 = _)); cbn|]; by rewrite IH.
Qed.
Lemma keep_twice route present found ks : keep route present found (keep route present found ks) = keep route present found ks.
Proof.
  revert found. induction ks as [|k ks IH]; intros found; [done|]. cbn.
  destruct (present && bool_decide (k.1.1 = lr_destination route)) eqn:Hd.
  - destruct (bool_decide (k = route_target route) && negb found) eqn:Hs; [|done]. cbn. by rewrite Hd, Hs, IH.
  - destruct (negb present && bool_decide (k = route_target route)) eqn:Hg; [done|]. cbn. by rewrite Hd, Hg, IH.
Qed.

(** A scan that keeps every key changes nothing. *)
Lemma scan_unchanged route present ipv4 entries es st :
  collect_result (route_key_from_entry ipv4) entries = Ok es -> keep route present (rs_found st) es = es ->
  scan_entries route present ipv4 entries st =
    Ok (mkScan (rs_kept st ++ entries) (rs_changed st) (rs_found st || present && bool_decide (route_target route ∈ es))).
Proof.
  revert es st. induction entries as [|entry entries IH]; intros es st.
  - intros [= <-] _. cbn. rewrite app_nil_r, andb_false_r, orb_false_r. by destruct st.
  - cbn [collect_result]. intros (key & Hkey & (rest & Hrest & [= <-])%result_bind_Ok)%result_bind_Ok Hk. cbn [scan_entries]. rewrite Hkey. cbn.
    pose proof (keep_length route present (rs_found st) rest) as Hlen. cbn [keep] in Hk. unfold scan_entry.
    assert (bool_decide (route_target route ∈ key :: rest) = bool_decide (key = route_target route) || bool_decide (route_target route ∈ rest)) as ->.
    { rewrite <- bool_decide_or. apply bool_decide_ext. rewrite elem_of_cons. naive_solver. }
    destruct (present && bool_decide (key.1.1 = lr_destination route)) eqn:Hd;
      [destruct (bool_decide (key = route_target route) && negb (rs_found st)) eqn:Hs
      |destruct (negb present && bool_decide (key = route_target route)) eqn:Hg];
      try (apply (f_equal length) in Hk; cbn in Hk; lia); injection Hk as Hk;
      (rewrite (IH rest) by done); cbn [rs_kept rs_changed rs_found]; rewrite <- app_assoc; f_equal; f_equal.
    + apply andb_true_iff in Hs as [-> Hf%negb_true_iff]. apply andb_true_iff in Hd as [-> _]. by rewrite Hf.
    + destruct present; [|done]. cbn in *. rewrite (bool_decide_eq_false_2 (key = _)); [done|]. intros ->. by apply bool_decide_eq_false in Hd.
Qed.

Definition group_entries (group : NmGroup) : CoreResult (list NmEntry) :=
  match group !! "route-data" with
  | None => Ok []
  | Some (NmEntries l) => Ok l
  | Some _ => Err (protocol "NetworkManager returned malformed route-data")
  end.
Lemma route_entries_group settings family : route_data_entries settings family = group_entries (default ∅ (settings !! family)).
Proof. unfold route_data_entries, family_entries, group_entries. by destruct (settings !! family). Qed.

Lemma write_routes_spec st group b group' : write_routes st group = (b, group') ->
  (rs_changed st = false -> group_entries group = Ok (rs_kept st)) ->
  group_entries group' = Ok (rs_kept st) /\ group' !! "routes" = None /\ group' !! "method" = group !! "method" /\ (b = false -> group' = group).
Proof.
  unfold write_routes, group_entries. destruct (rs_changed st) eqn:Hc; cbn [orb].
  - intros [= <- <-] _. destruct (rs_kept st); simplify_map_eq; (split; [done|]); split; done.
  - case_bool_decide as Hr; intros [= <- <-] Hg.
    + destruct (rs_kept st) eqn:Hk; simplify_map_eq; (split; [done|]); split; done.
    + specialize (Hg eq_refl). assert (delete "routes" group = group) as ->.
      { apply delete_id. destruct (group !! "routes") eqn:Hx; [|done]. destruct Hr. by eexists. }
      split; [done|]. split; [|done]. destruct (group !! "routes") eqn:Hx; [destruct Hr; by eexists|done].
Qed.

(** The keys after the change. *)
Definition routes_after (route : LinuxRoute) (present : bool) (ks : list RouteKey) : list RouteKey :=
  keep route present false ks ++ if present && negb (bool_decide (route_target route ∈ ks)) then [route_target route] else [].

Lemma routes_after_twice route present ks : keep route present false (routes_after route present ks) = routes_after route present ks.
Proof.
  unfold routes_after. rewrite keep_app, keep_twice. f_equal. destruct present; [|done]. cbn [andb orb].
  destruct (bool_decide_reflect (route_target route ∈ ks)) as [|Hin]; [done|]. cbn.
  rewrite (bool_decide_eq_false_2 (_ ∈ _)); [by rewrite !bool_decide_eq_true_2|].
  intros Hk. assert (route_target route ∈ List.filter (to_destination (lr_destination route)) (keep route true false ks)) as Hf.
  { apply list_elem_of_In, filter_In. split; [by apply list_elem_of_In|]. by apply bool_decide_eq_true. }
  rewrite keep_there, bool_decide_eq_false_2 in Hf by done. by apply elem_of_nil in Hf.
Qed.
Lemma routes_after_has route ks : route_target route ∈ routes_after route true ks.
Proof.
  assert (route_target route ∈ List.filter (to_destination (lr_destination route)) (routes_after route true ks)) as Hf.
  { unfold routes_after. rewrite List.filter_app, keep_there. case_bool_decide; cbn; [by left|]. unfold to_destination. rewrite bool_decide_eq_true_2 by done. by left. }
  apply list_elem_of_In, filter_In in Hf as [Hf _]. by apply list_elem_of_In.
Qed.

Lemma set_route_step route present settings b settings' : route_ok route -> set_route_present route present settings = Ok (b, settings') ->
  let family := route_family route in let ipv4 := is_ipv4 (address (lr_destination route)) in
  exists ks group', family_routes settings family ipv4 = Ok ks /\ settings' = <[family := group']> settings /\
    (exists kept, group_entries group' = Ok kept /\ collect_result (route_key_from_entry ipv4) kept = Ok (routes_after route present ks)) /\
    group' !! "routes" = None /\ group' !! "method" = default ∅ (settings !! family) !! "method" /\
    (b = false -> group' = default ∅ (settings !! family)) /\ (present = true -> require_manual family settings = Ok ()).
Proof.
  intros Hok. unfold set_route_present. intros ([] & Hm & Hr)%result_bind_Ok. apply result_bind_Ok in Hr as (entries & He & Hr).
  apply result_bind_Ok in Hr as (st & Hst & Hr).
  destruct (scan_keys _ _ _ _ (mkScan [] false false) _ [] eq_refl Hst) as (ks & Hks & Hkept & Hfound & Hchg). cbn [rs_found rs_changed rs_kept orb app] in *.
  set (st1 := if present && negb (rs_found st) then _ else st) in Hr.
  destruct (write_routes st1 _) as [c group'] eqn:Hw. injection Hr as <- <-. exists ks, group'.
  assert (collect_result (route_key_from_entry (is_ipv4 (address (lr_destination route)))) (rs_kept st1) = Ok (routes_after route present ks)) as Hst1.
  { unfold st1, routes_after. rewrite Hfound. destruct present; cbn [andb]; [|by rewrite app_nil_r]. case_bool_decide; cbn [negb rs_kept]; [by rewrite app_nil_r|].
    apply (collect_app _ _ _ _ _ Hkept). cbn. by rewrite (decode_route _ Hok). }
  apply write_routes_spec in Hw as (Hg & Hroutes & Hmethod & Hsame).
  2:{ rewrite <- route_entries_group, He. unfold st1. destruct (present && negb (rs_found st)); [done|]. by intros [_ ->]%Hchg. }
  split_and!; try done; [unfold family_routes; by rewrite He|by exists (rs_kept st1)|]. by intros ->.
Qed.

(** Adding or removing a route edits a profile exactly.  The owner is as before,
    and so is every setting outside the family of the route.  Added, the route is
    the one entry of its destination, with every other destination's entries as
    they were; removed, exactly the entries that equal it are gone.  Doing it again
    changes nothing, and reports so. *)
Theorem set_route_present_exact (route : LinuxRoute) (present : bool) (settings : NmSettings) b settings' (Hok : route_ok route) :
  set_route_present route present settings = Ok (b, settings') ->
  let family := route_family route in let ipv4 := is_ipv4 (address (lr_destination route)) in
  profile_owner settings' = profile_owner settings /\
  (forall other, other <> family -> settings' !! other = settings !! other) /\
  (exists ks ks', family_routes settings family ipv4 = Ok ks /\ family_routes settings' family ipv4 = Ok ks' /\
     if present then List.filter (to_destination (lr_destination route)) ks' = [route_target route] /\
         List.filter (fun k => negb (to_destination (lr_destination route) k)) ks' =
         List.filter (fun k => negb (to_destination (lr_destination route) k)) ks
     else ks' = List.filter (fun k => negb (bool_decide (k = route_target route))) ks) /\
  set_route_present route present settings' = Ok (false, settings').
Proof.
  intros Hset family ipv4. split; [by eapply set_route_owner|].
  destruct (set_route_step _ _ _ _ _ Hok Hset) as (ks & group' & Hks & -> & (kept & Hg & Hkept) & Hroutes & Hmethod & _ & Hman). fold family ipv4 in Hks, Hkept, Hmethod, Hman |- *.
  assert (route_data_entries (<[family := group']> settings) family = Ok kept) as Hent by (by rewrite route_entries_group, lookup_insert_eq).
  split; [intros other Hne; by rewrite lookup_insert_ne|]. split.
  - exists ks, (routes_after route present ks). split; [done|]. split; [unfold family_routes; by rewrite Hent|]. unfold routes_after. destruct present.
    + rewrite !List.filter_app, keep_there, keep_elsewhere. case_bool_decide; cbn; [by rewrite app_nil_r|]. unfold to_destination.
      rewrite !bool_decide_eq_true_2 by done. by rewrite app_nil_r.
    + by rewrite app_nil_r, keep_absent.
  - unfold set_route_present. fold family ipv4. rewrite Hent.
    assert ((if present then require_manual family (<[family := group']> settings) else Ok ()) = Ok ()) as ->.
    { destruct present; [|done]. specialize (Hman eq_refl). revert Hman. unfold require_manual, setting_string. rewrite lookup_insert_eq. cbn.
      rewrite Hmethod. by destruct (settings !! family). }
    cbn [mbind result_bind]. rewrite (scan_unchanged _ _ _ _ _ (mkScan [] false false) Hkept (routes_after_twice _ _ _)). cbn [mbind result_bind rs_kept rs_changed rs_found app orb].
    assert (present && negb (present && bool_decide (route_target route ∈ routes_after route present ks)) = false) as ->.
    { destruct present; [|done]. by rewrite bool_decide_eq_true_2 by apply routes_after_has. }
    unfold write_routes. rewrite lookup_insert_eq. change (default ∅ (Some group')) with group'. cbn [rs_changed rs_kept orb].
    rewrite bool_decide_eq_false_2 by (rewrite Hroutes; by intros [? ?]). rewrite (delete_id group') by done. by rewrite insert_insert_eq.
Qed.
End routes.

(** The addresses written are read back, each once; the owner is as before. *)
Lemma addresses_roundtrip `{LawfulIpText} prefixes settings : Forall prefix_ok prefixes ->
  exists l, address_prefixes (set_address_prefixes prefixes settings) = Ok l /\ NoDup l /\ (forall p, p ∈ l <-> p ∈ prefixes) /\
    profile_owner (set_address_prefixes prefixes settings) = profile_owner settings.
Proof.
  intros Hok. eexists. split; [by apply addresses_read|]. split; [|split; [|apply set_addresses_owner]].
  - apply dedup_NoDup, (StronglySorted_merge_sort _).
  - intros p. by rewrite elem_of_dedup, merge_sort_Permutation, of_family_perm.
Qed.

(** ** Facts: the identifier of a profile *)

Definition byte_list (l : list Z) : Prop := length l = 16%nat /\ Forall (fun b => 0 <= b < 256)%Z l.

Lemma land_255 x : (0 <= Z.land x 255 < 256)%Z.
Proof. change 255%Z with (Z.ones 8). rewrite Z.land_ones by lia. apply Z.mod_pos_bound. lia. Qed.
Lemma land_byte x m : (0 <= x < 256)%Z -> (0 <= Z.land x m < 256)%Z.
Proof.
  intros Hx. assert (Z.land x 255 = x) as <- by (change 255%Z with (Z.ones 8); rewrite Z.land_ones by lia; by apply Z.mod_small).
  rewrite <- Z.land_assoc, (Z.land_comm 255), Z.land_assoc. apply land_255.
Qed.
Lemma lor_byte x y : (0 <= x < 256)%Z -> (0 <= y < 256)%Z -> (0 <= Z.lor x y < 256)%Z.
Proof.
  intros Hx Hy. assert (forall z, (0 <= z < 256)%Z <-> Z.land z 255 = z) as Hb.
  { intros z. change 255%Z with (Z.ones 8). rewrite Z.land_ones by lia. split; [by apply Z.mod_small|].
    intros <-. apply Z.mod_pos_bound. lia. }
  apply Hb. rewrite Z.land_lor_distr_l. f_equal; by apply Hb.
Qed.
Lemma lxor_byte x y : (0 <= x < 256)%Z -> (0 <= y < 256)%Z -> (0 <= Z.lxor x y < 256)%Z.
Proof.
  intros Hx Hy. assert (0 <= Z.lxor x y)%Z by (apply Z.lxor_nonneg; lia).
  assert (Z.land (Z.lxor x y) 255 = Z.lxor x y) as <-; [|apply land_255].
  apply Z.bits_inj'. intros n Hn. rewrite Z.land_spec, Z.lxor_spec. change 255%Z with (Z.ones 8).
  destruct (Z.ltb_spec n 8); [rewrite Z.ones_spec_low by lia; apply andb_true_r|].
  rewrite Z.ones_spec_high by lia. rewrite andb_false_r.
  assert (forall z, (0 <= z < 256)%Z -> Z.testbit z n = false) as Hz; [|by rewrite !Hz].
  intros z Hzr. destruct (decide (z = 0%Z)) as [->|]; [apply Z.bits_0|]. apply Z.bits_above_log2; [lia|].
  apply Z.log2_lt_pow2; [lia|]. apply Z.lt_le_trans with (2 ^ 8)%Z; [change (2 ^ 8)%Z with 256%Z; lia|]. apply Z.pow_le_mono_r; lia.
Qed.
Lemma rotl8_byte x n : (0 <= x < 256)%Z -> (0 <= rotl8 x n < 256)%Z.
Proof.
  intros Hx. unfold rotl8. apply lor_byte; [apply land_255|]. rewrite Z.shiftr_div_pow2 by (pose proof (Z.mod_pos_bound n 8); lia).
  assert (1 <= 2 ^ (8 - n mod 8))%Z by (apply (Z.pow_le_mono_r 2 0); pose proof (Z.mod_pos_bound n 8); lia).
  split; [apply Z.div_pos; lia|]. apply Z.le_lt_trans with x; [|lia]. apply Z.div_le_upper_bound; nia.
Qed.

Lemma byte_list_insert l i b : byte_list l -> (0 <= b < 256)%Z -> byte_list (<[i := b]> l).
Proof. intros [Hl Hf] Hb. split; [by rewrite length_insert|]. by apply Forall_insert. Qed.
Lemma byte_list_at l i : byte_list l -> (0 <= default 0%Z (l !! i) < 256)%Z.
Proof. intros [_ Hf]. destruct (l !! i) eqn:Hi; cbn; [|lia]. by eapply Forall_lookup in Hf. Qed.

Lemma mix_byte_bytes l index byte : byte_list l -> byte_list (mix_byte l index byte).
Proof.
  intros Hl. unfold mix_byte. set (mixed := rotl8 _ (Z.of_nat (index mod 16 mod 5))).
  assert (0 <= mixed < 256)%Z as Hm by (apply rotl8_byte, Z.mod_pos_bound; lia).
  assert (byte_list (<[(index mod 16)%nat := (((default 0%Z (l !! (index mod 16)%nat) * 31) mod 256 + mixed) mod 256)%Z]> l)) as H1
    by (apply byte_list_insert; [done|apply Z.mod_pos_bound; lia]).
  apply byte_list_insert; [done|]. apply lxor_byte; [by apply byte_list_at|by apply rotl8_byte].
Qed.
Lemma mix_bytes_bytes index l bytes : byte_list bytes -> byte_list (mix_bytes index l bytes).
Proof. revert index bytes. induction l as [|b l IH]; intros index bytes Hb; [done|]. apply IH, mix_byte_bytes, Hb. Qed.
Lemma profile_uuid_bytes_ok owner interface kind : byte_list (profile_uuid_bytes owner interface kind).
Proof.
  unfold profile_uuid_bytes, uuid_version. set (l := mix_bytes _ _ _).
  assert (byte_list l) as Hl by (apply mix_bytes_bytes; split; [apply bytes_length|apply bytes_range]).
  assert (forall i m v, (0 <= m < 256)%Z -> (0 <= v < 256)%Z -> forall l, byte_list l -> (0 <= Z.lor (Z.land (default 0%Z (l !! i)) m) v < 256)%Z) as Hb.
  { intros i m v Hm Hv l' Hl'. apply lor_byte; [|done]. by apply land_byte, byte_list_at. }
  assert (byte_list (<[6%nat := Z.lor (Z.land (default 0%Z (l !! 6%nat)) 15) 80]> l)) as H1 by (apply byte_list_insert; [done|apply Hb; (done || lia)]).
  apply byte_list_insert; [done|]. apply Hb; (done || lia).
Qed.

(** It has the length and the hyphens of a UUID. *)
Lemma profile_uuid_shape owner interface kind : length (profile_uuid owner interface kind) = 36%nat /\
  forall i, i ∈ [8; 13; 18; 23]%nat -> profile_uuid owner interface kind !! i = Some HYPHEN.
Proof.
  unfold profile_uuid, uuid_text. destruct (profile_uuid_bytes_ok owner interface kind) as [Hl _]. revert Hl. generalize (profile_uuid_bytes owner interface kind).
  intros l Hl. do 16 (destruct l as [|? l]; [done|]). destruct l; [|done]. split; [done|].
  intros i Hi. repeat (apply elem_of_cons in Hi as [->|Hi]; [done|]). by apply elem_of_nil in Hi.
Qed.

(** ** A route on a profile *)

(** The two families apart. *)
Definition demo_text : IpText := {|
  ip_to_string a := match a with V4 n => [52; n]%Z | V6 n => [54; n]%Z end;
  ip_from_str l := match l with [52; n]%Z => Some (V4 n) | [54; n]%Z => Some (V6 n) | _ => None end;
|}.
Lemma demo_lawful_text : @LawfulIpText demo_text.
Proof. split; by intros []. Qed.
#[local] Existing Instances demo_text demo_lawful_text.

Definition demo_route : LinuxRoute :=
  mkLinuxRoute (mkPrefix (V4 0x0a010000) 16) (Some (V4 0x0a000002)) (mkInterface (code_points "br0")) 100 (fill_id 7%Z).
Definition demo_stale_route : LinuxRoute :=
  mkLinuxRoute (mkPrefix (V4 0x0a010000) 16) (Some (V4 0x0a000003)) (mkInterface (code_points "br0")) 100 (fill_id 7%Z).
Definition demo_settings : NmSettings :=
  {[IPV4_SETTING := <["method" := owned_string (code_points "manual")]> {["route-data" := NmEntries [encode_route_entry demo_stale_route]]}]}.

Lemma demo_route_ok : route_ok demo_route.
Proof. unfold route_ok, prefix_ok, u_max. cbn. unfold u_max. lia. Qed.
Lemma set_route_present_exact_witness : exists settings',
  set_route_present demo_route true demo_settings = Ok (true, settings') /\ set_route_present demo_route true settings' = Ok (false, settings').
Proof.
  destruct (set_route_present demo_route true demo_settings) as [[b settings']|e] eqn:Hset; [|by vm_compute in Hset].
  exists settings'. assert (b = true) as -> by (vm_compute in Hset; by injection Hset).
  split; [done|]. exact (proj2 (proj2 (proj2 (set_route_present_exact demo_route true demo_settings true settings' demo_route_ok Hset)))).
Defined.
