(* ===== verification/NmBackend.v ===== *)
(** The NetworkManager backend of [crates/blueroute-linux/src/networkmanager.rs]:
    its calls, the loops that wait for their effect, and the operations on bridges,
    addresses, routes and interfaces.

    The calls of NetworkManager are behind [NetworkManagerBus]. *)

From stdpp Require Import gmap strings.
From S2P Require Import Prelude Order Ident StateText Addressing Routes LinuxRoutes StarHost JoinNetwork LinuxRouteExec NapServer NmProfile.

Definition NM_SERVICE : string := "org.freedesktop.NetworkManager".
Definition NM_PATH : list Z := code_points "/org/freedesktop/NetworkManager".
Definition NM_INTERFACE : string := "org.freedesktop.NetworkManager".
Definition SETTINGS_PATH : list Z := code_points "/org/freedesktop/NetworkManager/Settings".
Definition SETTINGS_INTERFACE : string := "org.freedesktop.NetworkManager.Settings".
Definition SETTINGS_CONNECTION_INTERFACE : string := "org.freedesktop.NetworkManager.Settings.Connection".
Definition NM_DEVICE_INTERFACE : string := "org.freedesktop.NetworkManager.Device".
Definition ACTIVE_CONNECTION_INTERFACE : string := "org.freedesktop.NetworkManager.Connection.Active".
Definition ADD_CONNECTION2_TO_DISK : Z := 0x1.
Definition ADD_CONNECTION2_BLOCK_AUTOCONNECT : Z := 0x20.
Definition UPDATE2_TO_DISK : Z := 0x1.
Definition RECONCILE_INTERVAL : Z := 250.
Definition APPLY_TIMEOUT : Z := 8000.

Abbreviation path := (list Z).

Class NetworkManagerBus (W : Type) := {
  nm_broker : stres W BusError ();
  nm_has_owner : string -> stres W BusError bool;
  (** A proxy for an interface of an object. *)
  nm_proxy : path -> string -> stres W BusError ();
  nm_version : stres W BusError (list Z);
  nm_list_connections : stres W BusError (list path);
  nm_get_settings : path -> stres W BusError NmSettings;
  nm_get_devices : stres W BusError (list path);
  dev_interface : path -> stres W BusError (list Z);
  dev_managed : path -> stres W BusError bool;
  dev_type : path -> stres W BusError Z;
  dev_state : path -> stres W BusError Z;
  dev_active : path -> stres W BusError path;
  active_settings : path -> stres W BusError path;
  nm_add_connection2 : NmSettings -> Z -> stres W BusError path;
  nm_update2 : path -> NmSettings -> Z -> stres W BusError ();
  nm_delete : path -> stres W BusError ();
  nm_activate : path -> path -> path -> stres W BusError path;
  nm_deactivate : path -> stres W BusError ();
  nm_reapply : path -> NmSettings -> stres W BusError ();
  (** Whether a text is an object path. *)
  valid_object_path : path -> bool;
  nm_now : W -> Z;
  nm_timer_after : Z -> W -> W;
}.

Section backend.
Context {W : Type} `{NetworkManagerBus W} `{IpText}.

Abbreviation op A := (stres W CoreError A).

Definition network_error (k : ErrorKind) (m : string) (e : BusError) : CoreError := pan_error k m (bus_text e).
Definition nm {A : Type} (m : string) (x : stres W BusError A) : op A := st_map_err (network_error NetworkBackendUnavailable m) x.

Definition ensure_networkmanager_available : op () :=
  let! _ := nm "failed to access the system D-Bus broker" nm_broker in
  let! owned := nm "failed to query NetworkManager availability" (nm_has_owner NM_SERVICE) in
  if owned : bool then st_ret ()
  else st_fail (core_error NetworkBackendUnavailable "NetworkManager is not available on the system D-Bus").

Definition network_manager_proxy : op () := nm "failed to create the NetworkManager D-Bus proxy" (nm_proxy NM_PATH NM_INTERFACE).
Definition settings_proxy : op () := nm "failed to create the NetworkManager settings proxy" (nm_proxy SETTINGS_PATH SETTINGS_INTERFACE).
Definition settings_connection_proxy (p : path) : op () :=
  nm "failed to access a NetworkManager connection profile" (nm_proxy p SETTINGS_CONNECTION_INTERFACE).
Definition device_proxy (p : path) : op () := nm "failed to access a NetworkManager device" (nm_proxy p NM_DEVICE_INTERFACE).
Definition active_connection_proxy (p : path) : op () :=
  nm "failed to access a NetworkManager active connection" (nm_proxy p ACTIVE_CONNECTION_INTERFACE).

Definition backend_version : op (list Z) :=
  let! _ := network_manager_proxy in nm "failed to read the NetworkManager version" nm_version.

(** ** Reading *)

Definition list_paths (m : string) : op (list path) := let! _ := settings_proxy in nm m nm_list_connections.
Definition enumerate_failed : string := "failed to enumerate NetworkManager connection profiles".

Definition get_settings (p : path) : op NmSettings :=
  let! _ := settings_connection_proxy p in nm "failed to read a NetworkManager connection profile" (nm_get_settings p).

(** [for path in paths], collecting what the body yields. *)
Fixpoint collect {A B : Type} (f : A -> op (list B)) (l : list A) : op (list B) :=
  match l with
  | [] => st_ret []
  | x :: l => let! ys := f x in let! rest := collect f l in st_ret (ys ++ rest)
  end.

Definition read_connection (p : path) : op (list NetworkConnection) :=
  let! settings := get_settings p in let! c := st_lift (connection_from_settings p settings) in st_ret [c].

Definition connection_le (a b : NetworkConnection) : Prop := ord_le (nc_handle a) (nc_handle b).
#[local] Instance connection_le_dec : RelDecision connection_le.
Proof. intros a b. unfold connection_le. apply _. Defined.
Definition device_le (a b : NetworkDevice) : Prop := ord_le (nd_handle a) (nd_handle b).
#[local] Instance device_le_dec : RelDecision device_le.
Proof. intros a b. unfold device_le. apply _. Defined.

Definition list_connections : op (list NetworkConnection) :=
  let! _ := ensure_networkmanager_available in
  let! paths := list_paths enumerate_failed in
  let! l := collect read_connection paths in
  st_ret (merge_sort connection_le l).

Definition ROOT_PATH : path := code_points "/".

Definition read_device (p : path) : op NetworkDevice :=
  let! _ := device_proxy p in
  let! interface := nm "failed to read a NetworkManager device interface" (dev_interface p) in
  let! managed := nm "failed to read NetworkManager device ownership state" (dev_managed p) in
  let! device_type := nm "failed to read a NetworkManager device type" (dev_type p) in
  let! state := nm "failed to read a NetworkManager device state" (dev_state p) in
  let! active_path := nm "failed to read a NetworkManager device active connection" (dev_active p) in
  let! active := if bool_decide (active_path = ROOT_PATH) then st_ret None else
    let! _ := active_connection_proxy active_path in
    let! settings_path := nm "failed to resolve a NetworkManager active connection" (active_settings active_path) in
    let! handle := st_lift (connection_handle_new settings_path) in st_ret (Some handle) in
  let! handle := st_lift (device_handle_new p) in
  let! interface := st_lift (interface_new interface) in
  st_ret (mkDevice handle interface managed device_type state active).

Definition list_devices : op (list NetworkDevice) :=
  let! _ := ensure_networkmanager_available in
  let! _ := network_manager_proxy in
  let! paths := nm "failed to enumerate NetworkManager devices" nm_get_devices in
  let! l := collect (fun p => let! d := read_device p in st_ret [d]) paths in
  st_ret (merge_sort device_le l).

Definition device_by_interface (interface : NetworkInterfaceHandle) : op (option NetworkDevice) :=
  let! devices := list_devices in st_ret (List.find (fun d => bool_decide (nd_interface d = interface)) devices).

Definition connection_snapshot : op (gmap NetworkConnectionHandle NetworkConnection) :=
  let! l := list_connections in st_ret (insert_all ∅ ((fun c => (nc_handle c, c)) <$> l)).
Definition device_snapshot : op (gmap NetworkDeviceHandle NetworkDevice) :=
  let! l := list_devices in st_ret (insert_all ∅ ((fun d => (nd_handle d, d)) <$> l)).

(** A profile with an owner and an interface, if it has both. *)
Definition owned_profile (p : path) (settings : NmSettings) : CoreResult (option (NetworkId * NetworkInterfaceHandle)) :=
  owner ← profile_owner settings;
  match owner with
  | None => Ok None
  | Some owner =>
    c ← connection_from_settings p settings;
    Ok ((fun i => (owner, i)) <$> nc_interface c)
  end.

Definition profile_addresses (p : path) : op (list InterfaceAddress) :=
  let! settings := get_settings p in
  let! owned := st_lift (owned_profile p settings) in
  match owned with
  | None => st_ret []
  | Some (owner, interface) =>
    let! prefixes := st_lift (address_prefixes settings) in
    st_ret ((fun prefix => mkInterfaceAddress interface prefix owner) <$> prefixes)
  end.

Definition address_key (a : InterfaceAddress) : NetworkInterfaceHandle * (NetworkId * IpPrefix) := (ia_interface a, (ia_owner a, ia_prefix a)).
Definition address_le (a b : InterfaceAddress) : Prop := ord_le (address_key a) (address_key b).
#[local] Instance address_le_dec : RelDecision address_le.
Proof. intros a b. unfold address_le. apply _. Defined.

Definition owned_addresses : op (list InterfaceAddress) :=
  let! paths := list_paths enumerate_failed in
  let! l := collect profile_addresses paths in st_ret (merge_sort address_le l).

Definition profile_routes (p : path) : op (list LinuxRoute) :=
  let! settings := get_settings p in
  let! owned := st_lift (owned_profile p settings) in
  match owned with
  | None => st_ret []
  | Some (owner, interface) =>
    let! v4 := st_lift (family_routes settings IPV4_SETTING true) in
    let! v6 := st_lift (family_routes settings IPV6_SETTING false) in
    st_ret ((fun '(destination, via, metric) => mkLinuxRoute destination via interface metric owner) <$> v4 ++ v6)
  end.

Definition route_sort_key (r : LinuxRoute) : NetworkInterfaceHandle * (NetworkId * (IpPrefix * (option IpAddr * Z))) :=
  (interface r, (lr_owner r, (lr_destination r, (via r, metric r)))).
Definition route_sort_le (a b : LinuxRoute) : Prop := ord_le (route_sort_key a) (route_sort_key b).
#[local] Instance route_sort_le_dec : RelDecision route_sort_le.
Proof. intros a b. unfold route_sort_le. apply _. Defined.

Definition owned_routes : op (list LinuxRoute) :=
  let! paths := list_paths "failed to enumerate NetworkManager connection profiles for routes" in
  let! l := collect profile_routes paths in st_ret (dedup (merge_sort route_sort_le l)).

(** ** Profiles of an owner *)

Record OwnedProfile := mkOwnedProfile { op_path : path; op_connection : NetworkConnection; op_settings : NmSettings }.

Definition matching_profile (owner : NetworkId) (interface : NetworkInterfaceHandle) (p : path) : op (list OwnedProfile) :=
  let! settings := get_settings p in
  let! found := st_lift (profile_owner settings) in
  if negb (bool_decide (found = Some owner)) then st_ret [] else
  let! c := st_lift (connection_from_settings p settings) in
  st_ret (if bool_decide (nc_interface c = Some interface) then [mkOwnedProfile p c settings] else []).

Definition matching_profiles (owner : NetworkId) (interface : NetworkInterfaceHandle) : op (list OwnedProfile) :=
  let! paths := list_paths enumerate_failed in collect (matching_profile owner interface) paths.

Definition exactly_one_owned_profile (profiles : list OwnedProfile) : CoreResult (option OwnedProfile) :=
  match profiles with
  | [] => Ok None
  | [profile] => Ok (Some profile)
  | _ => Err (invalid_state "multiple BlueRoute-owned NetworkManager profiles target the same interface")
  end.

(** The two calls as every operation makes them. *)
Definition find_profile (owner : NetworkId) (interface : NetworkInterfaceHandle) : op (option OwnedProfile) :=
  let! profiles := matching_profiles owner interface in st_lift (exactly_one_owned_profile profiles).

Definition reject_foreign_interface_claim (owner : NetworkId) (interface : NetworkInterfaceHandle) : op () :=
  let! connections := list_connections in
  let! _ := st_lift (guard_err
    (existsb (fun c => bool_decide (nc_interface c = Some interface) && negb (bool_decide (nc_owner c = Some owner))) connections)
    (invalid_state "refusing to create a BlueRoute profile for an interface claimed by another NetworkManager profile") (Ok ())) in
  let! device := device_by_interface interface in
  st_lift (guard_err match device with Some d => bool_decide (is_Some (nd_active_connection d)) | None => false end
    (invalid_state "refusing to take over an already-active foreign NetworkManager interface") (Ok ())).

Definition reject_foreign_active_connection (device : NetworkDevice) (owner : NetworkId) : op () :=
  match nd_active_connection device with
  | None => st_ret ()
  | Some active =>
    let! settings := get_settings (connection_str active) in
    let! found := st_lift (profile_owner settings) in
    if bool_decide (found = Some owner) then st_ret ()
    else st_fail (invalid_state "refusing to replace an active NetworkManager connection not owned by this BlueRoute network")
  end.

(** ** Writing *)

Definition add_owned_profile (owner : NetworkId) (interface : NetworkInterfaceHandle) (kind : string) : op path :=
  let! settings := st_lift (base_owned_settings owner interface kind) in
  let! _ := settings_proxy in
  nm "failed to create a BlueRoute-owned NetworkManager profile"
    (nm_add_connection2 settings (Z.lor ADD_CONNECTION2_TO_DISK ADD_CONNECTION2_BLOCK_AUTOCONNECT)).

Definition update_profile (p : path) (settings : NmSettings) : op () :=
  let! _ := settings_connection_proxy p in
  nm "failed to update a BlueRoute-owned NetworkManager profile" (nm_update2 p settings UPDATE2_TO_DISK).

Definition object_path (p : path) : CoreResult path :=
  guard_err (negb (valid_object_path p)) (core_error Internal "invalid NetworkManager object path in BlueRoute state") (Ok p).

Definition is_active (p : path) (device : NetworkDevice) : bool := bool_decide (connection_str <$> nd_active_connection device = Some p).

Definition activate_profile (p : path) (interface : NetworkInterfaceHandle) : op () :=
  let! device := device_by_interface interface in
  match device with
  | Some device =>
    if is_active p device then st_ret ()
    else if bool_decide (is_Some (nd_active_connection device)) then
      st_fail (invalid_state "refusing to replace an active NetworkManager connection while activating BlueRoute state")
    else
      let! connection_path := st_lift (object_path p) in
      let! device_path := st_lift (object_path (device_str (nd_handle device))) in
      let! root := st_lift (object_path ROOT_PATH) in
      let! _ := network_manager_proxy in
      let! _ := nm "failed to activate a BlueRoute NetworkManager profile" (nm_activate connection_path device_path root) in
      st_ret ()
  | None =>
    let! connection_path := st_lift (object_path p) in
    let! root := st_lift (object_path ROOT_PATH) in
    let! _ := network_manager_proxy in
    let! _ := nm "failed to activate a BlueRoute virtual NetworkManager profile" (nm_activate connection_path root root) in
    st_ret ()
  end.

Definition reapply_if_active (p : path) (interface : NetworkInterfaceHandle) (settings : NmSettings) : op () :=
  let! device := device_by_interface interface in
  match device with
  | None => st_ret ()
  | Some device =>
    if negb (is_active p device) then st_ret () else
    let! _ := device_proxy (device_str (nd_handle device)) in
    nm "failed to apply updated BlueRoute addressing to an active NetworkManager device" (nm_reapply (device_str (nd_handle device)) settings)
  end.

Definition deactivate_device_connection (device : NetworkDevice) : op () :=
  let! _ := device_proxy (device_str (nd_handle device)) in
  let! active_path := nm "failed to resolve a BlueRoute active connection for cleanup" (dev_active (device_str (nd_handle device))) in
  if bool_decide (active_path = ROOT_PATH) then st_ret () else
  let! _ := network_manager_proxy in
  nm "failed to deactivate a BlueRoute-owned NetworkManager connection" (nm_deactivate active_path).

(** ** Waiting *)

(** Rounds of a wait: one at once, and one after each interval up to the timeout. *)
Definition WAIT_ROUNDS : nat := 34.

Fixpoint wait_rounds (rounds : nat) (deadline : Z) (check : op bool) (late : CoreError) : op () :=
  match rounds with
  | O => st_fail late
  | S rounds =>
    let! done := check in
    if done : bool then st_ret () else fun w =>
    if (deadline <=? nm_now w)%Z then (Err late, w) else wait_rounds rounds deadline check late (nm_timer_after RECONCILE_INTERVAL w)
  end.

Definition wait_until (check : op bool) (late : string) : op () := fun w =>
  wait_rounds WAIT_ROUNDS (nm_now w + APPLY_TIMEOUT) check (core_error NetworkBackendUnavailable late) w.

Definition wait_for_profile_active (p : path) (interface : NetworkInterfaceHandle) : op () :=
  wait_until (let! device := device_by_interface interface in st_ret (if device is Some d then is_active p d else false))
    "NetworkManager did not activate the BlueRoute profile before the timeout".
Definition wait_for_profile_absent (p : path) : op () :=
  wait_until (let! profiles := list_connections in st_ret (forallb (fun c => negb (bool_decide (connection_str (nc_handle c) = p))) profiles))
    "NetworkManager did not remove the BlueRoute profile before the timeout".
Definition wait_for_address (a : InterfaceAddress) (present : bool) : op () :=
  wait_until (let! current := owned_addresses in st_ret (Bool.eqb (bool_decide (a ∈ current)) present))
    (if present then "NetworkManager did not record the BlueRoute address before the timeout"
     else "NetworkManager did not remove the BlueRoute address before the timeout").
Definition wait_for_route (r : LinuxRoute) (present : bool) : op () :=
  wait_until (let! current := owned_routes in st_ret (Bool.eqb (bool_decide (r ∈ current)) present))
    (if present then "NetworkManager did not record the BlueRoute route before the timeout"
     else "NetworkManager did not remove the BlueRoute route before the timeout").

(** ** The operations *)

Definition ensure_bridge (owner : NetworkId) (bridge : NetworkInterfaceHandle) : op NetworkConnection :=
  let! _ := st_lift (validate_interface_name bridge) in
  let! profile := find_profile owner bridge in
  let! p := match profile with
    | Some profile =>
      let! _ := st_lift (guard_err (negb (bool_decide (nc_connection_type (op_connection profile) = code_points KIND_BRIDGE)))
        (invalid_state "BlueRoute owns a non-bridge profile for the requested bridge interface") (Ok ())) in
      st_ret (op_path profile)
    | None => let! _ := reject_foreign_interface_claim owner bridge in add_owned_profile owner bridge KIND_BRIDGE
    end in
  let! _ := activate_profile p bridge in
  let! _ := wait_for_profile_active p bridge in
  let! settings := get_settings p in
  st_lift (connection_from_settings p settings).

(** [profile_owner(&settings)? != Some(owner)] *)
Definition require_owner (owner : NetworkId) (settings : NmSettings) (refusal : string) : CoreResult () :=
  found ← profile_owner settings;
  guard_err (negb (bool_decide (found = Some owner))) (invalid_state refusal) (Ok ()).
Definition refuse_modify : string := "refusing to modify a NetworkManager profile not owned by the requested BlueRoute network".

Definition ensure_address (a : InterfaceAddress) : op () :=
  let! _ := st_lift (validate_interface_name (ia_interface a)) in
  let! profile := find_profile (ia_owner a) (ia_interface a) in
  let! p := match profile with
    | Some profile => st_ret (op_path profile)
    | None =>
      let! device := device_by_interface (ia_interface a) in
      let! device := st_lift (ok_or device
        (core_error InvalidInput "cannot configure an address on an interface NetworkManager does not know")) in
      let! _ := reject_foreign_active_connection device (ia_owner a) in
      add_owned_profile (ia_owner a) (ia_interface a) (if (nd_device_type device =? DEVICE_TYPE_BRIDGE)%Z then KIND_BRIDGE else KIND_INTERFACE)
    end in
  let! settings := get_settings p in
  let! _ := st_lift (require_owner (ia_owner a) settings refuse_modify) in
  let! prefixes := st_lift (address_prefixes settings) in
  let! settings := if bool_decide (ia_prefix a ∈ prefixes) then st_ret settings else
    let settings := set_address_prefixes (merge_sort ord_le (prefixes ++ [ia_prefix a])) settings in
    let! _ := update_profile p settings in st_ret settings in
  let! _ := activate_profile p (ia_interface a) in
  let! _ := reapply_if_active p (ia_interface a) settings in
  wait_for_address a true.

Definition remove_address (a : InterfaceAddress) : op () :=
  let! profile := find_profile (ia_owner a) (ia_interface a) in
  match profile with
  | None => st_ret ()
  | Some profile =>
    let settings := op_settings profile in
    let! _ := st_lift (require_owner (ia_owner a) settings refuse_modify) in
    let! prefixes := st_lift (address_prefixes settings) in
    let rest := List.filter (fun p => negb (bool_decide (p = ia_prefix a))) prefixes in
    if (length rest =? length prefixes)%nat then st_ret () else
    let settings := set_address_prefixes rest settings in
    let! _ := update_profile (op_path profile) settings in
    let! _ := reapply_if_active (op_path profile) (ia_interface a) settings in
    wait_for_address a false
  end.

Definition ensure_route (r : LinuxRoute) : op () :=
  let! _ := st_lift (validate_linux_route r) in
  let! profile := find_profile (lr_owner r) (interface r) in
  let! profile := st_lift (ok_or profile
    (invalid_state "cannot add a route without an existing BlueRoute-owned NetworkManager profile")) in
  let! _ := st_lift (require_owner (lr_owner r) (op_settings profile)
    "refusing to modify routes on a NetworkManager profile not owned by the requested BlueRoute network") in
  let! change := st_lift (set_route_present r true (op_settings profile)) in
  let '(changed, settings) := change in
  let! _ := if changed : bool then update_profile (op_path profile) settings else st_ret () in
  let! _ := activate_profile (op_path profile) (interface r) in
  let! _ := reapply_if_active (op_path profile) (interface r) settings in
  wait_for_route r true.

Definition remove_route (r : LinuxRoute) : op () :=
  let! _ := st_lift (validate_linux_route r) in
  let! profile := find_profile (lr_owner r) (interface r) in
  match profile with
  | None => st_ret ()
  | Some profile =>
    let! _ := st_lift (require_owner (lr_owner r) (op_settings profile)
      "refusing to remove routes from a NetworkManager profile not owned by the requested BlueRoute network") in
    let! change := st_lift (set_route_present r false (op_settings profile)) in
    let '(changed, settings) := change in
    if negb changed then st_ret () else
    let! _ := update_profile (op_path profile) settings in
    let! _ := reapply_if_active (op_path profile) (interface r) settings in
    wait_for_route r false
  end.

Definition remove_owned_interface (owner : NetworkId) (i : NetworkInterfaceHandle) : op () :=
  let! profile := find_profile owner i in
  match profile with
  | None => st_ret ()
  | Some profile =>
    let! _ := st_lift (require_owner owner (op_settings profile)
      "refusing to remove a NetworkManager profile not owned by the requested BlueRoute network") in
    let! device := device_by_interface i in
    let! _ := match device with
      | Some d => if bool_decide (nd_active_connection d = Some (nc_handle (op_connection profile))) then deactivate_device_connection d else st_ret ()
      | None => st_ret ()
      end in
    let! _ := settings_connection_proxy (op_path profile) in
    let! _ := nm "failed to remove a BlueRoute-owned NetworkManager profile" (nm_delete (op_path profile)) in
    wait_for_profile_absent (op_path profile)
  end.

(** ** The subscription *)

Record NetworkManagerSubscription := mkNmSubscription {
  nsub_connections : gmap NetworkConnectionHandle NetworkConnection;
  nsub_devices : gmap NetworkDeviceHandle NetworkDevice;
  nsub_pending : list NetworkStateEvent;
}.

Definition subscribe_network_state : op NetworkManagerSubscription :=
  let! connections := connection_snapshot in
  let! devices := device_snapshot in
  let (r, pending) := push_events ((ConnectionAdded <$> values connections) ++ (DeviceAdded <$> values devices)) [] in
  let! _ := st_lift r in
  st_ret (mkNmSubscription connections devices pending).

(** One round of the loop of [next_event]; an error leaves in the queue what was
    pushed before it. *)
Definition nm_event_round (s : NetworkManagerSubscription) : W -> CoreResult (option NetworkStateEvent) * NetworkManagerSubscription * W := fun w =>
  let w := nm_timer_after RECONCILE_INTERVAL w in
  match (let! connections := connection_snapshot in let! devices := device_snapshot in st_ret (connections, devices)) w with
  | (Err e, w) => (Err e, s, w)
  | (Ok (connections, devices), w) =>
    match (let! _ := queue_connection_changes (nsub_connections s) connections in queue_device_changes (nsub_devices s) devices) (nsub_pending s) with
    | (Err e, pending) => (Err e, mkNmSubscription (nsub_connections s) (nsub_devices s) pending, w)
    | (Ok _, event :: pending) => (Ok (Some event), mkNmSubscription connections devices pending, w)
    | (Ok _, []) => (Ok None, mkNmSubscription connections devices [], w)
    end
  end.

(** [rounds] of the loop; [None]: none of them had an event. *)
Fixpoint nm_event_rounds (rounds : nat) (s : NetworkManagerSubscription) (w : W) :
    CoreResult (option NetworkStateEvent) * NetworkManagerSubscription * W :=
  match rounds with
  | O => (Ok None, s, w)
  | S rounds =>
    match nm_event_round s w with
    | (Ok None, s, w) => nm_event_rounds rounds s w
    | answer => answer
    end
  end.

Definition nm_next_event (rounds : nat) (s : NetworkManagerSubscription) (w : W) :
    CoreResult (option NetworkStateEvent) * NetworkManagerSubscription * W :=
  match nsub_pending s with
  | event :: pending => (Ok (Some event), mkNmSubscription (nsub_connections s) (nsub_devices s) pending, w)
  | [] => nm_event_rounds rounds s w
  end.
End backend.

(** ** What is asked of NetworkManager *)

(** The log is not of the code: what was read of a profile, of a device and of an
    active connection, and what was asked for, whether or not it was done. *)
Inductive NmRequest :=
| NmRead (p : path) (settings : NmSettings)
| NmSawActive (device active : path)
| NmSawProfile (active p : path)
| NmAdded (p : option path) (settings : NmSettings)
| NmUpdated (p : path) (settings : NmSettings)
| NmDeleted (p : path)
| NmActivated (p device : path)
| NmDeactivated (active : path)
| NmReapplied (device : path) (settings : NmSettings).

Definition answer_of {A : Type} (r : result BusError A) : option A := match r with Ok a => Some a | Err _ => None end.

Class LoggedNetworkManager (W : Type) `{NetworkManagerBus W} := {
  nm_log : W -> list NmRequest;
  log_broker w : nm_log (nm_broker w).2 = nm_log w;
  log_has_owner n w : nm_log (nm_has_owner n w).2 = nm_log w;
  log_proxy p i w : nm_log (nm_proxy p i w).2 = nm_log w;
  log_list w : nm_log (nm_list_connections w).2 = nm_log w;
  log_devices w : nm_log (nm_get_devices w).2 = nm_log w;
  log_interface p w : nm_log (dev_interface p w).2 = nm_log w;
  log_managed p w : nm_log (dev_managed p w).2 = nm_log w;
  log_type p w : nm_log (dev_type p w).2 = nm_log w;
  log_state p w : nm_log (dev_state p w).2 = nm_log w;
  log_active d w r w' : dev_active d w = (r, w') ->
    nm_log w' = nm_log w ++ match r with Ok a => [NmSawActive d a] | Err _ => [] end;
  log_active_settings a w r w' : active_settings a w = (r, w') ->
    nm_log w' = nm_log w ++ match r with Ok p => [NmSawProfile a p] | Err _ => [] end;
  log_timer d w : nm_log (nm_timer_after d w) = nm_log w;
  log_read p w r w' : nm_get_settings p w = (r, w') ->
    nm_log w' = nm_log w ++ match r with Ok s => [NmRead p s] | Err _ => [] end;
  log_add s f w r w' : nm_add_connection2 s f w = (r, w') -> nm_log w' = nm_log w ++ [NmAdded (answer_of r) s];
  log_update p s f w : nm_log (nm_update2 p s f w).2 = nm_log w ++ [NmUpdated p s];
  log_delete p w : nm_log (nm_delete p w).2 = nm_log w ++ [NmDeleted p];
  log_activate p d o w : nm_log (nm_activate p d o w).2 = nm_log w ++ [NmActivated p d];
  log_deactivate a w : nm_log (nm_deactivate a w).2 = nm_log w ++ [NmDeactivated a];
  log_reapply d s w : nm_log (nm_reapply d s w).2 = nm_log w ++ [NmReapplied d s];
}.

(** The profile was read, or added, as one of this owner. *)
Definition owned_in (o : NetworkId) (p : path) (l : list NmRequest) : Prop :=
  exists s, profile_owner s = Ok (Some o) /\ (NmRead p s ∈ l \/ NmAdded (Some p) s ∈ l).
(** What was active on the device when it was looked at: nothing, or the profile of
    the active connection it named. *)
Definition shows (device : path) (profile : option path) (l : list NmRequest) : Prop :=
  match profile with
  | None => NmSawActive device ROOT_PATH ∈ l
  | Some p => exists l1 active l2, l = l1 ++ [NmSawActive device active; NmSawProfile active p] ++ l2
  end.
(** What the owner may ask after [l]. *)
Definition may_ask (o : NetworkId) (l : list NmRequest) (e : NmRequest) : Prop :=
  match e with
  | NmRead _ _ | NmSawActive _ _ | NmSawProfile _ _ => True
  | NmAdded _ s => profile_owner s = Ok (Some o)
  | NmUpdated p s => owned_in o p l /\ profile_owner s = Ok (Some o)
  | NmDeleted p => owned_in o p l
  | NmActivated p device => owned_in o p l /\ (device = ROOT_PATH \/ shows device None l)
  | NmReapplied device s => profile_owner s = Ok (Some o) /\ exists p, owned_in o p l /\ shows device (Some p) l
  | NmDeactivated active =>
    active <> ROOT_PATH /\
    exists l' device p, l = l' ++ [NmSawActive device active] /\ owned_in o p l' /\ shows device (Some p) l'
  end.
Inductive rightful (o : NetworkId) : list NmRequest -> Prop :=
| rightful_nil : rightful o []
| rightful_snoc l e : rightful o l -> may_ask o l e -> rightful o (l ++ [e]).

Create HintDb keeps.

(** [m] keeps an invariant of the world. *)
Definition keeps {W E A : Type} (I : W -> Prop) (m : stres W E A) : Prop := forall w, I w -> I (m w).2.

Section keeps.
Context {W : Type} (I : W -> Prop).

Lemma keeps_ret {E A : Type} (a : A) : keeps I (st_ret (E:=E) a).
Proof. by intros w. Qed.
Lemma keeps_fail {E A : Type} (e : E) : keeps I (st_fail (A:=A) e).
Proof. by intros w. Qed.
Lemma keeps_of_lift {E A : Type} (r : result E A) : keeps I (st_lift r).
Proof. by intros w. Qed.
Lemma keeps_map_err {E F A : Type} (f : E -> F) (m : stres W E A) : keeps I m -> keeps I (st_map_err f m).
Proof. intros Hm w Hw. unfold st_map_err. specialize (Hm w Hw). by destruct (m w). Qed.
Lemma keeps_seq {E A B : Type} (m : stres W E A) (k : A -> stres W E B) : keeps I m -> (forall a, keeps I (k a)) -> keeps I (st_bind m k).
Proof. intros Hm Hk w Hw. unfold st_bind. specialize (Hm w Hw). destruct (m w) as [[a|e] w']; [by apply Hk|done]. Qed.
Lemma keeps_post {E A : Type} (J : W -> Prop) (m : stres W E A) w : (forall v, J v -> I v) -> keeps J m -> J w -> st_post I (fun _ v => J v) m w.
Proof. intros HJ Hm Hw. specialize (Hm w Hw). unfold st_post. destruct (m w) as [[a|e] w']; [split|]; auto. Qed.
Lemma keeps_ret_bind {E A B : Type} (a : A) (k : A -> stres W E B) : keeps I (k a) -> keeps I (st_bind (st_ret a) k).
Proof. done. Qed.
Lemma keeps_then_ret {E A B C : Type} (m : stres W E C) (a : A) (k : A -> stres W E B) :
  keeps I m -> keeps I (k a) -> keeps I (st_bind (st_bind m (fun _ => st_ret a)) k).
Proof. intros Hm Hk w Hw. unfold st_bind. specialize (Hm w Hw). destruct (m w) as [[c|e] w']; [by apply Hk|done]. Qed.
Lemma keeps_true {E A : Type} (m : stres W E A) w : keeps I m -> I w -> st_post I (fun _ _ => True) m w.
Proof. intros Hm Hw. specialize (Hm w Hw). unfold st_post. destruct (m w) as [[a|e] w']; [split|]; auto. Qed.
Lemma post_keeps {E A : Type} (Q : A -> W -> Prop) (m : stres W E A) w : st_post I Q m w -> I (m w).2.
Proof. unfold st_post. destruct (m w) as [[a|e] w']; tauto. Qed.
Lemma st_post_True {E A : Type} (m : stres W E A) w : I (m w).2 -> st_post I (fun _ _ => True) m w.
Proof. unfold st_post. by destruct (m w) as [[a|e] w']. Qed.
Lemma st_post_lift {E A : Type} (Q : A -> W -> Prop) (r : result E A) w : I w -> (forall a, r = Ok a -> Q a w) -> st_post I Q (st_lift r) w.
Proof. unfold st_post, st_lift. destruct r; naive_solver. Qed.

(** The calls that only read keep it. *)
Class ReadsKeep `{NetworkManagerBus W} := {
  rk_broker : keeps I nm_broker;
  rk_has_owner n : keeps I (nm_has_owner n);
  rk_proxy p i : keeps I (nm_proxy p i);
  rk_list : keeps I nm_list_connections;
  rk_settings p : keeps I (nm_get_settings p);
  rk_devices : keeps I nm_get_devices;
  rk_interface p : keeps I (dev_interface p);
  rk_managed p : keeps I (dev_managed p);
  rk_type p : keeps I (dev_type p);
  rk_state p : keeps I (dev_state p);
  rk_active p : keeps I (dev_active p);
  rk_active_settings p : keeps I (active_settings p);
  rk_timer d w : I w -> I (nm_timer_after d w);
}.
End keeps.
#[export] Hint Resolve keeps_ret keeps_fail keeps_of_lift keeps_map_err keeps_seq : keeps.
#[export] Hint Resolve rk_broker rk_has_owner rk_proxy rk_list rk_settings rk_devices rk_interface rk_managed rk_type rk_state rk_active rk_active_settings : keeps.

Ltac keeps_auto := repeat first [progress intros | case_match | solve [eauto 3 with keeps nocore] | apply keeps_seq | apply keeps_map_err].

Section reads.
Context {W : Type} `{NetworkManagerBus W} `{IpText} (I : W -> Prop) `{!ReadsKeep I}.

Lemma available_keeps : keeps I ensure_networkmanager_available.
Proof. unfold ensure_networkmanager_available, nm. keeps_auto. Qed.
Lemma proxies_keep p i m : keeps I (nm m (nm_proxy p i)).
Proof. unfold nm. keeps_auto. Qed.
Lemma list_paths_keeps m : keeps I (list_paths m).
Proof. unfold list_paths, settings_proxy, nm. keeps_auto. Qed.
Lemma get_settings_keeps p : keeps I (get_settings p).
Proof. unfold get_settings, settings_connection_proxy, nm. keeps_auto. Qed.
Lemma collect_keeps {A B : Type} (f : A -> stres W CoreError (list B)) l : (forall x, keeps I (f x)) -> keeps I (collect f l).
Proof. intros Hf. induction l as [|x l IH]; cbn [collect]; keeps_auto; auto. Qed.
Lemma list_connections_keeps : keeps I list_connections.
Proof.
  unfold list_connections. apply keeps_seq; [apply available_keeps|intros _]. apply keeps_seq; [apply list_paths_keeps|intros paths].
  apply keeps_seq; [|keeps_auto]. apply collect_keeps. intros p. unfold read_connection. apply keeps_seq; [apply get_settings_keeps|keeps_auto].
Qed.
Lemma read_device_keeps p : keeps I (read_device p).
Proof. unfold read_device, device_proxy, active_connection_proxy, nm. keeps_auto. Qed.
Lemma list_devices_keeps : keeps I list_devices.
Proof.
  unfold list_devices, network_manager_proxy, nm. apply keeps_seq; [apply available_keeps|keeps_auto].
  apply collect_keeps. intros x. apply keeps_seq; [apply read_device_keeps|keeps_auto].
Qed.
Lemma device_by_interface_keeps i : keeps I (device_by_interface i).
Proof. unfold device_by_interface. apply keeps_seq; [apply list_devices_keeps|keeps_auto]. Qed.
Lemma owned_addresses_keeps : keeps I owned_addresses.
Proof.
  unfold owned_addresses. apply keeps_seq; [apply list_paths_keeps|intros paths]. apply keeps_seq; [|keeps_auto].
  apply collect_keeps. intros p. unfold profile_addresses. apply keeps_seq; [apply get_settings_keeps|keeps_auto].
Qed.
Lemma owned_routes_keeps : keeps I owned_routes.
Proof.
  unfold owned_routes. apply keeps_seq; [apply list_paths_keeps|intros paths]. apply keeps_seq; [|keeps_auto].
  apply collect_keeps. intros p. unfold profile_routes. apply keeps_seq; [apply get_settings_keeps|keeps_auto].
Qed.
Lemma wait_until_keeps check late : keeps I check -> keeps I (wait_until check late).
Proof.
  intros Hc w Hw. unfold wait_until. generalize (nm_now w + APPLY_TIMEOUT)%Z. intros deadline. revert w Hw.
  induction WAIT_ROUNDS as [|n IH]; intros w Hw; [done|]. cbn [wait_rounds]. unfold st_bind. specialize (Hc w Hw).
  destruct (check w) as [[[]|e] w1]; [done| |done]. cbn in *. destruct (_ <=? _)%Z; [done|]. apply IH. by apply rk_timer.
Qed.
Lemma matching_keeps o i : keeps I (matching_profiles o i).
Proof.
  unfold matching_profiles. apply keeps_seq; [apply list_paths_keeps|intros paths]. apply collect_keeps. intros p.
  unfold matching_profile. apply keeps_seq; [apply get_settings_keeps|keeps_auto].
Qed.
Lemma reject_claim_keeps o i : keeps I (reject_foreign_interface_claim o i).
Proof.
  unfold reject_foreign_interface_claim. apply keeps_seq; [apply list_connections_keeps|intros l]. apply keeps_seq; [keeps_auto|intros _].
  apply keeps_seq; [apply device_by_interface_keeps|keeps_auto].
Qed.
Lemma reject_active_keeps d o : keeps I (reject_foreign_active_connection d o).
Proof. unfold reject_foreign_active_connection. case_match; [|keeps_auto]. apply keeps_seq; [apply get_settings_keeps|keeps_auto]. Qed.
End reads.

(** ** Every request is rightful *)

Section rightful.
Context {W : Type} `{LoggedNetworkManager W} `{LawfulIpText} (o : NetworkId) (base : list NmRequest).

(** Since [base], what was asked was the owner's to ask, and it is on record that [Q]. *)
Definition holding (Q : list NmRequest -> Prop) (w : W) : Prop := exists l, nm_log w = base ++ l /\ rightful o l /\ Q l.
Definition asked_rightly : W -> Prop := holding (fun _ => True).
(** The profile is known as the owner's. *)
Definition knows (p : path) : W -> Prop := holding (owned_in o p).
(** And the device was looked at. *)
Definition shown (d : NetworkDevice) : list NmRequest -> Prop := shows (device_str (nd_handle d)) (connection_str <$> nd_active_connection d).

(** What is on record stays on record. *)
Class Lasting (Q : list NmRequest -> Prop) := lasting l e : Q l -> Q (l ++ [e]).
#[local] Instance true_lasting : Lasting (fun _ => True).
Proof. done. Qed.
#[local] Instance owned_lasting p : Lasting (owned_in o p).
Proof. intros l e (s & Hs & [Hin|Hin]); exists s; (split; [done|]); [left|right]; apply elem_of_app; by left. Qed.
#[local] Instance shows_lasting d a : Lasting (shows d a).
Proof.
  intros l e. destruct a as [p|]; cbn; [|rewrite elem_of_app; tauto]. intros (l1 & a & l2 & ->). exists l1, a, (l2 ++ [e]). by rewrite <- !app_assoc.
Qed.
#[local] Instance both_lasting Q R : Lasting Q -> Lasting R -> Lasting (fun l => Q l /\ R l).
Proof. intros HQ HR l e [??]. split; [by apply HQ|by apply HR]. Qed.

Lemma holding_weaken Q R w : (forall l, Q l -> R l) -> holding Q w -> holding R w.
Proof. intros HQ (l & Hl & Hr & H'). exists l. eauto. Qed.
Lemma holding_rightly Q w : holding Q w -> asked_rightly w.
Proof. by apply holding_weaken. Qed.
Lemma holding_same Q w w' : nm_log w' = nm_log w -> holding Q w -> holding Q w'.
Proof. unfold holding. by intros ->. Qed.
(** After one more request that was the owner's to make. *)
Lemma holding_next (Q R : list NmRequest -> Prop) w w' e : nm_log w' = nm_log w ++ [e] -> (forall l, Q l -> may_ask o l e) ->
  (forall l, Q l -> R (l ++ [e])) -> holding Q w -> holding R w'.
Proof.
  intros He Hm HR (l & Hl & Hr & HQ). exists (l ++ [e]). rewrite He, Hl, app_assoc. split; [done|]. split; [constructor; auto|]. by apply HR.
Qed.
Lemma holding_more Q `{!Lasting Q} w w' e : nm_log w' = nm_log w ++ [e] -> (forall l, Q l -> may_ask o l e) -> holding Q w -> holding Q w'.
Proof. intros He Hm. apply (holding_next Q Q w w' e He Hm). intros l. by apply lasting. Qed.

(** A read that answers is logged, one that fails is not. *)
Lemma holding_answer {A : Type} Q `{!Lasting Q} (m : stres W BusError A) (f : A -> NmRequest) :
  (forall w r w', m w = (r, w') -> nm_log w' = nm_log w ++ match r with Ok a => [f a] | Err _ => [] end) ->
  (forall l a, may_ask o l (f a)) -> keeps (holding Q) m.
Proof.
  intros Hlog Hm w Hw. destruct (m w) as [[a|e] w'] eqn:Hr; apply Hlog in Hr; cbn.
  - eapply holding_more; [done|exact Hr|intros; apply Hm|done].
  - rewrite app_nil_r in Hr. by eapply holding_same.
Qed.
#[local] Instance holding_reads Q : Lasting Q -> ReadsKeep (holding Q).
Proof.
  intros HQ. split; [..|intros d w; apply holding_same, log_timer]; try (intros; intros w; apply holding_same; solve
    [auto using log_broker, log_has_owner, log_proxy, log_list, log_devices, log_interface, log_managed, log_type, log_state]).
  - intros p. by apply (holding_answer Q _ (NmRead p)); [intros w r w' ->%log_read|].
  - intros d. by apply (holding_answer Q _ (NmSawActive d)); [intros w r w' ->%log_active|].
  - intros a. by apply (holding_answer Q _ (NmSawProfile a)); [intros w r w' ->%log_active_settings|].
Qed.
#[local] Instance asked_reads : ReadsKeep asked_rightly := holding_reads _ _.
#[local] Instance knows_reads p : ReadsKeep (knows p) := holding_reads _ _.

(** What each of the collected items promises, all of them promise at the end. *)
Lemma collect_post {A B : Type} (I : W -> Prop) (P : B -> W -> Prop) (f : A -> stres W CoreError (list B)) l w :
  (forall x w, I w -> st_post I (fun ys w => Forall (fun y => P y w) ys) (f x) w) -> (forall y x, keeps (P y) (f x)) -> I w ->
  st_post I (fun ys w => Forall (fun y => P y w) ys) (collect f l) w.
Proof.
  intros Hf HP. revert w. induction l as [|x l IH]; intros w Hw; [by split|]. cbn [collect]. eapply st_post_bind; [by apply Hf|].
  intros ys w1 Hw1 Hys. cbn in Hys. specialize (IH w1 Hw1).
  assert (Forall (fun y => P y (collect f l w1).2) ys) as Hys'.
  { eapply Forall_impl; [exact Hys|]. intros y Hy. by apply (collect_keeps (P y)). }
  unfold st_post, st_bind in *. destruct (collect f l w1) as [[rest|e] w2]; [|done]. destruct IH as [IH1 IH2]. split; [done|]. by apply Forall_app.
Qed.

(** *** What is seen of a device *)

(** A call whose answer is logged. *)
Lemma nm_answer_post {A : Type} Q `{!Lasting Q} P (m : stres W BusError A) (f : A -> NmRequest) text w :
  (forall w r w', m w = (r, w') -> nm_log w' = nm_log w ++ match r with Ok a => [f a] | Err _ => [] end) ->
  (forall l a, may_ask o l (f a)) -> holding Q w -> holding P w ->
  st_post (holding Q) (fun a w => holding (fun l => exists l', l = l' ++ [f a] /\ P l') w) (nm text m) w.
Proof.
  intros Hlog Hm Hw HP. pose proof (holding_answer Q m f Hlog Hm w Hw) as Hk. unfold st_post, nm, st_map_err.
  destruct (m w) as [[a|e] w'] eqn:Hr; apply Hlog in Hr; [|done]. split; [done|]. eapply holding_next; [exact Hr|auto| |exact HP]. eauto.
Qed.
Lemma saw_active_post Q `{!Lasting Q} P d text w : holding Q w -> holding P w ->
  st_post (holding Q) (fun a w => holding (fun l => exists l', l = l' ++ [NmSawActive d a] /\ P l') w) (nm text (dev_active d)) w.
Proof. apply nm_answer_post; [done| |done]. by intros v r w' ->%log_active. Qed.
Lemma saw_profile_post Q `{!Lasting Q} P a text w : holding Q w -> holding P w ->
  st_post (holding Q) (fun p w => holding (fun l => exists l', l = l' ++ [NmSawProfile a p] /\ P l') w) (nm text (active_settings a)) w.
Proof. apply nm_answer_post; [done| |done]. by intros v r w' ->%log_active_settings. Qed.
Lemma proxy_post p i text I P w : holding I w -> holding P w -> st_post (holding I) (fun _ w => holding P w) (nm text (nm_proxy p i)) w.
Proof.
  unfold st_post, nm, st_map_err. intros HI HP. pose proof (log_proxy p i w) as Hl. destruct (nm_proxy p i w) as [[]]; cbn in Hl; [split|]; by eapply holding_same.
Qed.

(** The device that is read shows what it is said to have active. *)
Lemma read_device_post Q `{!Lasting Q} p w : holding Q w ->
  st_post (holding Q) (fun d w => holding (fun l => Q l /\ shown d l) w) (read_device p) w.
Proof.
  intros Hw. unfold read_device. pose proof (holding_reads Q _) as HR. do 5 (apply (st_post_bind _ (fun _ _ => True));
    [apply keeps_true; [unfold device_proxy, nm; solve [keeps_auto]|done]|clear w Hw; intros ? w Hw _]).
  eapply st_post_bind; [by apply (saw_active_post Q Q)|]. intros active_path w1 Hw1 Ha. cbn in Ha.
  apply (st_post_bind _ (fun active w => holding (fun l => Q l /\ shows p (connection_str <$> active) l) w)).
  - case_bool_decide as Hroot.
    + split; [done|]. eapply holding_weaken, Ha. intros l (l' & -> & HQ). split; [by apply lasting|]. subst active_path. apply elem_of_app. right. by left.
    + eapply st_post_bind; [by apply proxy_post|]. intros [] w2 Hw2 Ha2. cbn in Ha2.
      eapply st_post_bind; [by apply saw_profile_post|]. intros q w3 Hw3 Hq. cbn in Hq.
      apply (st_post_bind _ (fun h w => holding (fun l => Q l /\ shows p (Some (connection_str h)) l) w)); [|by intros h w4 Hw4 Hh].
      apply st_post_lift; [done|]. intros h [_ [= <-]]%guard_err_Ok. cbn. eapply holding_weaken, Hq.
      intros l (l1 & -> & l2 & -> & HQ). split; [by do 2 apply lasting|]. exists l2, active_path, []. by rewrite <- app_assoc.
  - intros active w2 Hw2 Hs. cbn in Hs.
    eapply (st_post_bind _ (fun h w => h = mkDeviceHandle p /\ holding (fun l => Q l /\ shows p (connection_str <$> active) l) w)).
    + apply st_post_lift; [done|]. intros h [_ [= <-]]%guard_err_Ok. done.
    + intros ? w3 Hw3 [-> Hs3]. eapply (st_post_bind _ (fun _ w => holding (fun l => Q l /\ shows p (connection_str <$> active) l) w));
        [by apply st_post_lift|]. by intros i w4 Hw4 Hs4.
Qed.

Lemma list_devices_post Q `{!Lasting Q} w : holding Q w ->
  st_post (holding Q) (fun l w => Forall (fun d => holding (fun l => Q l /\ shown d l) w) l) list_devices w.
Proof.
  intros Hw. unfold list_devices. pose proof (holding_reads Q _) as HR.
  apply (st_post_bind _ (fun _ _ => True)); [by apply keeps_true; [apply available_keeps, _|]|]. intros _ w1 Hw1 _.
  apply (st_post_bind _ (fun _ _ => True)); [by apply keeps_true; [apply proxies_keep, _|]|]. intros _ w2 Hw2 _.
  apply (st_post_bind _ (fun _ _ => True)); [apply keeps_true; [unfold nm; solve [keeps_auto]|done]|]. intros paths w3 Hw3 _.
  eapply st_post_bind.
  - apply (collect_post (holding Q) (fun d w => holding (fun l => Q l /\ shown d l) w)); [| |done].
    + intros p v Hv. eapply st_post_bind; [by apply read_device_post|]. intros d v' Hv' Hd. split; [done|]. by repeat constructor.
    + intros d p. apply (keeps_seq (holding _)); [apply read_device_keeps, _|keeps_auto].
  - intros l w4 Hw4 Hl. split; [done|]. cbn in Hl. by rewrite merge_sort_Permutation.
Qed.
Lemma device_post Q `{!Lasting Q} i w : holding Q w ->
  st_post (holding Q) (fun x w => forall d, x = Some d -> holding (fun l => Q l /\ shown d l) w) (device_by_interface i) w.
Proof.
  intros Hw. unfold device_by_interface. eapply st_post_bind; [by apply list_devices_post|]. intros l w1 Hw1 Hl. split; [done|].
  intros d [Hin _]%find_some. cbn in Hl. rewrite Forall_forall in Hl. by apply Hl, list_elem_of_In.
Qed.
(** What is done after the device was looked at. *)
Lemma after_device {A : Type} p i (k : option NetworkDevice -> stres W CoreError A) : keeps (knows p) (k None) ->
  (forall d w, holding (fun l => owned_in o p l /\ shown d l) w -> knows p (k (Some d) w).2) -> keeps (knows p) (let! d := device_by_interface i in k d).
Proof.
  intros Hnone Hsome w Hw. eapply (post_keeps _ (fun _ _ => True)), st_post_bind; [by apply (device_post (owned_in o p))|]. intros x w1 Hw1 Hx.
  apply st_post_True. destruct x as [d|]; [by apply Hsome, Hx|by apply Hnone].
Qed.

(** *** What is asked *)

Lemma update_keeps p s : profile_owner s = Ok (Some o) -> keeps (knows p) (update_profile p s).
Proof.
  intros Hs. unfold update_profile, nm. apply keeps_seq; [apply proxies_keep, _|intros _]. apply keeps_map_err. intros w.
  by apply holding_more with (e := NmUpdated p s); [apply _|apply log_update|].
Qed.
Lemma activate_call_keeps Q `{!Lasting Q} p d m : (forall l, Q l -> may_ask o l (NmActivated p d)) ->
  keeps (holding Q) (let! _ := network_manager_proxy in let! _ := nm m (nm_activate p d ROOT_PATH) in st_ret ()).
Proof.
  intros HQ. apply keeps_seq; [apply proxies_keep, _|intros _]. apply keeps_seq; [|intros _; apply keeps_ret]. apply keeps_map_err. intros w.
  apply holding_more with (e := NmActivated p d); [apply _|apply log_activate|done].
Qed.
Lemma object_path_same p q : object_path p = Ok q -> q = p.
Proof. unfold object_path. by intros [_ [= <-]]%guard_err_Ok. Qed.
Lemma activate_keeps p i : keeps (knows p) (activate_profile p i).
Proof.
  unfold activate_profile. apply after_device.
  - intros w Hw. unfold st_bind, st_lift. destruct (object_path p) as [q|] eqn:Hq; [|done]. apply object_path_same in Hq as ->.
    destruct (object_path ROOT_PATH) as [root|] eqn:Hr; [|done]. apply object_path_same in Hr as ->.
    apply (activate_call_keeps (owned_in o p)); [|done]. cbn. auto.
  - intros d w Hw. assert (knows p w) as Hk by (by eapply holding_weaken, Hw; intros l []). destruct (is_active p d); [done|].
    case_bool_decide as Ha; [done|]. unfold st_bind, st_lift. destruct (object_path p) as [q|] eqn:Hq; [|done]. apply object_path_same in Hq as ->.
    destruct (object_path (device_str _)) as [device|] eqn:Hd; [|done]. apply object_path_same in Hd as ->.
    destruct (object_path ROOT_PATH) as [root|] eqn:Hr; [|done]. apply object_path_same in Hr as ->.
    apply (holding_weaken (fun l => owned_in o p l /\ shown d l)); [by intros l []|]. apply activate_call_keeps; [apply _| |done].
    intros l [Ho Hs]. unfold shown in Hs. destruct (nd_active_connection d); [by destruct Ha|]. cbn in *. auto.
Qed.
Lemma reapply_keeps p i s : profile_owner s = Ok (Some o) -> keeps (knows p) (reapply_if_active p i s).
Proof.
  intros Hs. unfold reapply_if_active. apply after_device; [apply keeps_ret|]. intros d w Hw.
  assert (knows p w) as Hk by (by eapply holding_weaken, Hw; intros l []). destruct (is_active p d) eqn:Ha; [|done]. cbn [negb].
  apply (holding_weaken (fun l => owned_in o p l /\ shown d l)); [by intros l []|]. revert w Hw Hk. intros w Hw _. revert w Hw.
  apply keeps_seq; [apply proxies_keep, _|intros _]. apply keeps_map_err. intros w.
  apply holding_more with (e := NmReapplied (device_str (nd_handle d)) s); [apply _|apply log_reapply|]. intros l [Ho Hd].
  apply bool_decide_eq_true in Ha. unfold shown in Hd. rewrite Ha in Hd. cbn. eauto.
Qed.
(** The connection taken down is the one that the device, seen with the profile
    active on it, names when it is read again. *)
Lemma deactivate_keeps p d w : connection_str <$> nd_active_connection d = Some p -> holding (fun l => owned_in o p l /\ shown d l) w ->
  knows p (deactivate_device_connection d w).2.
Proof.
  intros Ha Hw. unfold deactivate_device_connection. pose proof (fun w => holding_weaken _ (owned_in o p) w (fun l => @proj1 _ (shown d l))) as Hk.
  eapply (post_keeps _ (fun _ _ => True)), st_post_bind; [by apply proxy_post; [apply Hk|]|]. intros [] w1 Hw1 Hs. cbn in Hs.
  eapply st_post_bind; [by apply (saw_active_post (owned_in o p))|]. intros active w2 Hw2 Hs2. cbn in Hs2.
  apply st_post_True. case_bool_decide as Hroot; [done|]. eapply (post_keeps _ (fun _ _ => True)), st_post_bind; [by apply proxy_post|].
  intros [] w3 Hw3 Hs3. cbn in Hs3. apply st_post_True. unfold nm, st_map_err. pose proof (log_deactivate active w3) as Hl.
  destruct (nm_deactivate active w3) as [r w4]. cbn in *. eapply holding_next; [exact Hl| | |exact Hs3].
  - intros l (l' & -> & Ho & Hd). unfold shown in Hd. rewrite Ha in Hd. cbn. eauto 10.
  - intros l (l' & -> & Ho & _). by do 2 apply owned_lasting.
Qed.
Lemma delete_keeps p m : keeps (knows p) (nm m (nm_delete p)).
Proof. apply keeps_map_err. intros w. by apply holding_more with (e := NmDeleted p); [apply _|apply log_delete|]. Qed.

Lemma add_post i kind w : asked_rightly w -> st_post asked_rightly (fun p w => knows p w) (add_owned_profile o i kind) w.
Proof.
  intros Hw. unfold add_owned_profile. apply (st_post_bind _ (fun s _ => profile_owner s = Ok (Some o))).
  { apply st_post_lift; [done|]. intros s Hs. by apply base_profile_owner in Hs. }
  intros s w1 Hw1 Hs. apply (st_post_bind _ (fun _ _ => True)); [by apply keeps_true; [apply proxies_keep, _|]|].
  intros _ w2 Hw2 _. unfold st_post, nm, st_map_err. destruct (nm_add_connection2 s _ w2) as [[p|e] w3] eqn:Ha; apply log_add in Ha; cbn in *;
    [split|]; (eapply holding_next; [exact Ha|done| |exact Hw2]); [done| |done].
  intros l _. exists s. split; [done|]. right. apply elem_of_app. right. by left.
Qed.

(** *** What is found *)

Definition found_owned (x : OwnedProfile) (w : W) : Prop :=
  knows (op_path x) w /\ profile_owner (op_settings x) = Ok (Some o) /\ connection_str (nc_handle (op_connection x)) = op_path x.

Lemma connection_from_settings_handle p s c : connection_from_settings p s = Ok c -> connection_str (nc_handle c) = p.
Proof.
  unfold connection_from_settings. intros (? & _ & (? & _ & (? & _ & (? & _ & (? & _ & (? & _ & (? & _ &
    (h & [_ [= <-]]%guard_err_Ok & [= <-])%result_bind_Ok)%result_bind_Ok)%result_bind_Ok)%result_bind_Ok)%result_bind_Ok)%result_bind_Ok)%result_bind_Ok)%result_bind_Ok.
  done.
Qed.
Lemma read_knows p w s w' : asked_rightly w -> get_settings p w = (Ok s, w') -> profile_owner s = Ok (Some o) -> knows p w'.
Proof.
  intros Hw Hr Hs. unfold get_settings, settings_connection_proxy, nm in Hr. apply st_bind_Ok in Hr as ([] & w1 & Hp & Hr).
  pose proof (proxies_keep _ p SETTINGS_CONNECTION_INTERFACE "failed to access a NetworkManager connection profile" w Hw) as Hw1.
  unfold nm in Hw1. rewrite Hp in Hw1. unfold st_map_err in Hr. destruct (nm_get_settings p w1) as [[s'|e] w2] eqn:Hg; [|done].
  injection Hr as -> ->. apply log_read in Hg. eapply holding_next; [exact Hg|done| |exact Hw1].
  intros l _. exists s. split; [done|]. left. apply elem_of_app. right. by left.
Qed.
Lemma matching_profile_post i p w : asked_rightly w ->
  st_post asked_rightly (fun l w => Forall (fun x => found_owned x w) l) (matching_profile o i p) w.
Proof.
  intros Hw. unfold matching_profile. apply (st_post_bind _ (fun s w => profile_owner s = Ok (Some o) -> knows p w)).
  { pose proof (get_settings_keeps _ p w Hw) as Hk. unfold st_post. destruct (get_settings p w) as [[s|e] w1] eqn:Hg; [|done]. split; [done|].
    by apply (read_knows p w). }
  intros s w1 Hw1 Hk. apply (st_post_bind _ (fun found w => profile_owner s = Ok found /\ (profile_owner s = Ok (Some o) -> knows p w)));
    [by apply st_post_lift|]. intros found w2 Hw2 [Hf Hk2]. case_bool_decide as Ho; cbn [negb]; [|by split].
  apply (st_post_bind _ (fun c w => connection_str (nc_handle c) = p /\ knows p w)).
  { apply st_post_lift; [done|]. intros c Hc. split; [by eapply connection_from_settings_handle|]. apply Hk2. by rewrite Hf, Ho. }
  intros c w3 Hw3 [Hc Hk3]. split; [done|]. case_bool_decide; repeat constructor; cbn; [done|by rewrite Hf, Ho|done].
Qed.
Lemma matching_post i paths w : asked_rightly w ->
  st_post asked_rightly (fun l w => Forall (fun x => found_owned x w) l) (collect (matching_profile o i) paths) w.
Proof.
  apply (collect_post asked_rightly found_owned); [apply matching_profile_post|]. intros x p v [Hk Hx]. split; [|done].
  unfold matching_profile. apply (keeps_seq (knows (op_path x))); [apply get_settings_keeps, _|keeps_auto|done].
Qed.
Lemma find_post i w : asked_rightly w -> st_post asked_rightly (fun x w => forall profile, x = Some profile -> found_owned profile w) (find_profile o i) w.
Proof.
  intros Hw. unfold find_profile, matching_profiles. apply (st_post_bind _ (fun l w => Forall (fun x => found_owned x w) l)).
  { apply (st_post_bind _ (fun _ _ => True)).
    - by apply keeps_true; [apply list_paths_keeps, _|].
    - intros paths w1 Hw1 _. by apply matching_post. }
  intros l w1 Hw1 Hl. apply st_post_lift; [done|]. intros x Hx profile ->. destruct l as [|y [|z l]]; try done. injection Hx as ->.
  by apply Forall_inv in Hl.
Qed.

(** *** The operations *)

Definition rightly {A : Type} (m : stres W CoreError A) : Prop := forall w, asked_rightly w -> asked_rightly (m w).2.

Lemma after_find {A : Type} i (k : option OwnedProfile -> stres W CoreError A) :
  (forall x w, asked_rightly w -> (forall profile, x = Some profile -> found_owned profile w) -> asked_rightly (k x w).2) ->
  rightly (let! x := find_profile o i in k x).
Proof.
  intros Hk w Hw. eapply (post_keeps _ (fun _ _ => True)), st_post_bind; [by apply find_post|]. intros x w1 Hw1 Hx.
  specialize (Hk x w1 Hw1 Hx). unfold st_post. destruct (k x w1) as [[a|e] w2]; [by split|done].
Qed.
Lemma from_knows {A : Type} p (m : stres W CoreError A) w : keeps (knows p) m -> knows p w -> asked_rightly (m w).2.
Proof. intros Hm Hw. by eapply holding_rightly, Hm. Qed.
Lemma after_lift {A B : Type} (r : CoreResult B) (k : B -> stres W CoreError A) : (forall x, r = Ok x -> rightly (k x)) -> rightly (let! x := st_lift r in k x).
Proof. intros Hk w Hw. unfold st_bind, st_lift. destruct r as [x|e]; [by apply (Hk x)|done]. Qed.
Lemma keeps_after_lift {A B : Type} I (r : CoreResult B) (k : B -> stres W CoreError A) : (forall x, r = Ok x -> keeps I (k x)) -> keeps I (let! x := st_lift r in k x).
Proof. intros Hk w Hw. unfold st_bind, st_lift. destruct r as [x|e]; [by apply (Hk x)|done]. Qed.

Lemma require_owner_ok s m : require_owner o s m = Ok () -> profile_owner s = Ok (Some o).
Proof. unfold require_owner. intros (f & Hf & [Hb _]%guard_err_Ok)%result_bind_Ok. rewrite Hf. by apply negb_false_iff, bool_decide_eq_true in Hb as ->. Qed.

Lemma ensure_bridge_rightly i : rightly (ensure_bridge o i).
Proof.
  apply after_lift. intros [] _. apply after_find. intros x w Hw Hx.
  assert (forall p, keeps (knows p) (let! _ := activate_profile p i in let! _ := wait_for_profile_active p i in
    let! settings := get_settings p in st_lift (connection_from_settings p settings))) as Hrest.
  { intros p. apply keeps_seq; [apply activate_keeps|intros _]. apply keeps_seq; [|intros _; apply keeps_seq; [apply get_settings_keeps, _|keeps_auto]].
    apply wait_until_keeps; [apply _|]. apply keeps_seq; [apply device_by_interface_keeps, _|keeps_auto]. }
  eapply (post_keeps _ (fun _ _ => True)), (st_post_bind _ (fun p w => knows p w)).
  2:{ intros p w1 _ Hp. eapply st_post_True, from_knows; [apply Hrest|done]. }
  destruct x as [profile|].
  - apply (st_post_bind _ (fun _ w => knows (op_path profile) w)); [by apply st_post_lift; [done|]; intros; apply (Hx profile)|]. by intros ? w1 Hw1 Hk.
  - apply (st_post_bind _ (fun _ _ => True)); [by apply keeps_true; [apply reject_claim_keeps, _|]|]. intros ? w1 Hw1 _. by apply add_post.
Qed.

(** The end of an operation on a profile it knows. *)
Lemma apply_wait_keeps p i s (wait : stres W CoreError ()) : profile_owner s = Ok (Some o) -> keeps (knows p) wait ->
  keeps (knows p) (let! _ := reapply_if_active p i s in wait).
Proof. intros Hs Hw. apply keeps_seq; [by apply reapply_keeps|]. by intros _. Qed.
Lemma activate_apply_keeps p i s (wait : stres W CoreError ()) : profile_owner s = Ok (Some o) -> keeps (knows p) wait ->
  keeps (knows p) (let! _ := activate_profile p i in let! _ := reapply_if_active p i s in wait).
Proof. intros Hs Hw. apply keeps_seq; [apply activate_keeps|intros _]. by apply apply_wait_keeps. Qed.
Lemma update_then_keeps p s (k : stres W CoreError ()) : profile_owner s = Ok (Some o) -> keeps (knows p) k ->
  keeps (knows p) (let! _ := update_profile p s in k).
Proof. intros Hs Hk. apply keeps_seq; [by apply update_keeps|]. by intros _. Qed.
Lemma wait_address_keeps p a b : keeps (knows p) (wait_for_address a b).
Proof. unfold wait_for_address. apply wait_until_keeps; [apply _|]. apply keeps_seq; [apply owned_addresses_keeps, _|keeps_auto]. Qed.
Lemma wait_route_keeps p r b : keeps (knows p) (wait_for_route r b).
Proof. unfold wait_for_route. apply wait_until_keeps; [apply _|]. apply keeps_seq; [apply owned_routes_keeps, _|keeps_auto]. Qed.

Lemma address_profile_post a x w : ia_owner a = o -> asked_rightly w -> (forall profile, x = Some profile -> found_owned profile w) ->
  st_post asked_rightly (fun p w => knows p w) match x with
    | Some profile => st_ret (op_path profile)
    | None =>
      let! device := device_by_interface (ia_interface a) in
      let! device := st_lift (ok_or device
        (core_error InvalidInput "cannot configure an address on an interface NetworkManager does not know")) in
      let! _ := reject_foreign_active_connection device (ia_owner a) in
      add_owned_profile (ia_owner a) (ia_interface a) (if (nd_device_type device =? DEVICE_TYPE_BRIDGE)%Z then KIND_BRIDGE else KIND_INTERFACE)
    end w.
Proof.
  intros -> Hw Hx. destruct x as [profile|]; [split; [done|]; by apply Hx|].
  apply (st_post_bind _ (fun _ _ => True)); [by apply keeps_true; [apply device_by_interface_keeps, _|]|]. intros d w1 Hw1 _.
  apply (st_post_bind _ (fun _ _ => True)); [by apply st_post_lift|]. intros d' w2 Hw2 _.
  apply (st_post_bind _ (fun _ _ => True)); [by apply keeps_true; [apply reject_active_keeps, _|]|]. intros ? w3 Hw3 _. by apply add_post.
Qed.

Lemma ensure_address_rightly a : ia_owner a = o -> rightly (ensure_address a).
Proof.
  intros Ho. apply after_lift. intros [] _. rewrite Ho. apply after_find. intros x w Hw Hx. rewrite <- Ho.
  eapply (post_keeps _ (fun _ _ => True)), (st_post_bind _ (fun p w => knows p w)); [by apply address_profile_post|].
  intros p w1 _ Hk. apply st_post_True, (from_knows p); [|done]. apply keeps_seq; [apply get_settings_keeps, _|intros settings].
  apply keeps_after_lift. intros [] Hs. rewrite Ho in Hs. apply require_owner_ok in Hs. apply keeps_after_lift. intros prefixes _.
  case_bool_decide.
  - apply keeps_ret_bind, activate_apply_keeps; [done|apply wait_address_keeps].
  - set (s' := set_address_prefixes _ settings). assert (profile_owner s' = Ok (Some o)) as Hs' by (by rewrite <- Hs; apply set_addresses_owner).
    apply keeps_then_ret; [by apply update_keeps|]. apply activate_apply_keeps; [done|apply wait_address_keeps].
Qed.

(** An operation on the one profile there is. *)
Lemma on_profile i refusal (absent : stres W CoreError ()) (k : OwnedProfile -> stres W CoreError ()) : keeps asked_rightly absent ->
  (forall profile, profile_owner (op_settings profile) = Ok (Some o) -> connection_str (nc_handle (op_connection profile)) = op_path profile ->
    keeps (knows (op_path profile)) (k profile)) ->
  rightly (let! x := find_profile o i in
    match x with None => absent | Some profile => let! _ := st_lift (require_owner o (op_settings profile) refusal) in k profile end).
Proof.
  intros Ha Hk. apply after_find. intros x w Hw Hx. destruct x as [profile|]; [|by apply Ha]. destruct (Hx profile eq_refl) as (Hp & Ho & Hh).
  apply (from_knows (op_path profile)); [|done]. apply keeps_after_lift. intros _ _. by apply Hk.
Qed.

Lemma remove_address_rightly a : ia_owner a = o -> rightly (remove_address a).
Proof.
  intros Ho. unfold remove_address. rewrite Ho. apply on_profile; [apply keeps_ret|]. intros profile Hs _. apply keeps_after_lift. intros prefixes _.
  destruct (_ =? _)%nat; [apply keeps_ret|].
  assert (forall l, profile_owner (set_address_prefixes l (op_settings profile)) = Ok (Some o)) as Hset by (intros l; by rewrite set_addresses_owner).
  apply update_then_keeps; [done|]. apply apply_wait_keeps; [done|apply wait_address_keeps].
Qed.

Lemma ensure_route_rightly r : lr_owner r = o -> rightly (ensure_route r).
Proof.
  intros Ho. apply after_lift. intros [] _. rewrite Ho. apply after_find. intros x w Hw Hx.
  destruct x as [profile|]; [|done]. destruct (Hx profile eq_refl) as (Hp & Hs & _). apply (from_knows (op_path profile)); [|done].
  apply keeps_after_lift. intros y [= <-]. apply keeps_after_lift. intros [] _. apply keeps_after_lift. intros [changed settings] Hset.
  assert (profile_owner settings = Ok (Some o)) as Hs' by (by rewrite <- Hs; eapply set_route_owner).
  apply keeps_seq; [destruct changed; [by apply update_keeps|apply keeps_ret]|intros _]. apply activate_apply_keeps; [done|apply wait_route_keeps].
Qed.

Lemma remove_route_rightly r : lr_owner r = o -> rightly (remove_route r).
Proof.
  intros Ho. apply after_lift. intros [] _. rewrite Ho. apply on_profile; [apply keeps_ret|]. intros profile Hs _.
  apply keeps_after_lift. intros [changed settings] Hset.
  assert (profile_owner settings = Ok (Some o)) as Hs' by (by rewrite <- Hs; eapply set_route_owner).
  destruct (negb changed); [apply keeps_ret|]. apply update_then_keeps; [done|]. apply apply_wait_keeps; [done|apply wait_route_keeps].
Qed.

Lemma remove_interface_rightly i : rightly (remove_owned_interface o i).
Proof.
  apply on_profile; [apply keeps_ret|]. intros profile Hs Hh.
  assert (forall m, keeps (knows (op_path profile)) (let! _ := settings_connection_proxy (op_path profile) in
    let! _ := nm m (nm_delete (op_path profile)) in wait_for_profile_absent (op_path profile))) as Hrest.
  { intros m. apply keeps_seq; [apply proxies_keep, _|intros _]. apply keeps_seq; [apply delete_keeps|intros _].
    apply wait_until_keeps; [apply _|]. apply keeps_seq; [apply list_connections_keeps, _|keeps_auto]. }
  apply after_device; [apply Hrest|]. intros d w Hw. assert (knows (op_path profile) w) as Hk by (by eapply holding_weaken, Hw; intros l []).
  case_bool_decide as Ha; [|by apply Hrest].
  eapply (post_keeps _ (fun _ _ => True)), (st_post_bind _ (fun _ _ => True)); [|intros [] v Hv _; by apply st_post_True, Hrest].
  apply st_post_True, deactivate_keeps; [by rewrite Ha; cbn; rewrite Hh|done].
Qed.
End rightful.

(** The operations that change anything, and who they are for. *)
Inductive NmOperation :=
| EnsureBridge (owner : NetworkId) (bridge : NetworkInterfaceHandle)
| RemoveOwnedInterface (owner : NetworkId) (interface : NetworkInterfaceHandle)
| EnsureAddress (a : InterfaceAddress)
| RemoveAddress (a : InterfaceAddress)
| EnsureRoute (r : LinuxRoute)
| RemoveRoute (r : LinuxRoute).
Definition operation_owner (x : NmOperation) : NetworkId :=
  match x with
  | EnsureBridge o _ | RemoveOwnedInterface o _ => o
  | EnsureAddress a | RemoveAddress a => ia_owner a
  | EnsureRoute r | RemoveRoute r => lr_owner r
  end.
Definition run_operation {W : Type} `{NetworkManagerBus W} `{IpText} (x : NmOperation) : stres W CoreError () :=
  match x with
  | EnsureBridge o bridge => let! _ := ensure_bridge o bridge in st_ret ()
  | RemoveOwnedInterface o i => remove_owned_interface o i
  | EnsureAddress a => ensure_address a
  | RemoveAddress a => remove_address a
  | EnsureRoute r => ensure_route r
  | RemoveRoute r => remove_route r
  end.

(** C37. Whatever NetworkManager answers and whatever else happens on the machine, an
    operation for a network asks only for what is that network's, as far as it has
    seen.  A profile that it changes, deletes or activates is one that it has read
    with this network as its owner, or has added itself; the settings it adds, writes
    or applies name this network as their owner; it activates a profile only on a
    device on which it saw nothing active, or on none, and applies settings only to a
    device on which it saw such a profile active.  It takes an active connection down
    only on such a device too; but which connection that is, is what the device names
    when it is read once more right before, and the code does not compare that again:
    that this last connection is the network's own is not claimed. *)
Theorem nm_requests_rightful {W : Type} `{LoggedNetworkManager W} `{LawfulIpText} (x : NmOperation) (w : W) :
  exists l, nm_log (run_operation x w).2 = nm_log w ++ l /\ rightful (operation_owner x) l.
Proof.
  assert (asked_rightly (operation_owner x) (nm_log w) w) as Hw by (exists []; rewrite app_nil_r; repeat split; constructor).
  enough (asked_rightly (operation_owner x) (nm_log w) (run_operation x w).2) as (l & Hl & Hr & _) by eauto.
  destruct x as [o i|o i|a|a|r|r]; cbn [run_operation operation_owner] in *.
  - apply (keeps_seq (asked_rightly o (nm_log w))); [intros v; apply ensure_bridge_rightly|intros ?; apply keeps_ret|done].
  - by apply remove_interface_rightly.
  - by apply ensure_address_rightly.
  - by apply remove_address_rightly.
  - by apply ensure_route_rightly.
  - by apply remove_route_rightly.
Qed.

(** ** The waits are long enough *)

(** On a clock that never goes back and a timer that does not ring early, more
    rounds than those given would change nothing: a wait ends by success, by an
    error, or because its time is up. *)
Lemma wait_rounds_enough {W : Type} `{NetworkManagerBus W} (check : stres W CoreError bool) late deadline more
    (Hclock : forall w, (nm_now w <= nm_now (check w).2)%Z) (Htimer : forall d w, (nm_now w + d <= nm_now (nm_timer_after d w))%Z) rounds w :
  (1 <= rounds)%nat -> (deadline - nm_now w <= RECONCILE_INTERVAL * (Z.of_nat rounds - 1))%Z ->
  wait_rounds (rounds + more) deadline check late w = wait_rounds rounds deadline check late w.
Proof.
  revert w. induction rounds as [|rounds IH]; intros w Hr Hd; [lia|]. cbn [Nat.add wait_rounds]. unfold st_bind.
  specialize (Hclock w). destruct (check w) as [[[]|e] w1]; [done| |done]. cbn in Hclock. destruct (Z.leb_spec deadline (nm_now w1)); [done|].
  unfold RECONCILE_INTERVAL in *. pose proof (Htimer 250%Z w1). apply IH; lia.
Qed.
Lemma wait_until_enough {W : Type} `{NetworkManagerBus W} (check : stres W CoreError bool) late more
    (Hclock : forall w, (nm_now w <= nm_now (check w).2)%Z) (Htimer : forall d w, (nm_now w + d <= nm_now (nm_timer_after d w))%Z) w :
  wait_until check late w = wait_rounds (WAIT_ROUNDS + more) (nm_now w + APPLY_TIMEOUT) check (core_error NetworkBackendUnavailable late) w.
Proof. unfold wait_until. rewrite wait_rounds_enough; try done; unfold WAIT_ROUNDS, RECONCILE_INTERVAL, APPLY_TIMEOUT; lia. Qed.

(** ** A machine *)

(** Profiles by path, the profile that is active on the one device, a bridge, and
    the log. *)
Record DemoWorld := mkDemoWorld {
  dw_profiles : list (path * NmSettings);
  dw_active : option path;
  dw_now : Z;
  dw_log : list NmRequest;
}.

Module demo.
Definition no_object : BusError := BusFailure "no such object".
Definition log (e : NmRequest) (w : DemoWorld) : DemoWorld := mkDemoWorld (dw_profiles w) (dw_active w) (dw_now w) (dw_log w ++ [e]).
Definition set_profiles (l : list (path * NmSettings)) (w : DemoWorld) : DemoWorld := mkDemoWorld l (dw_active w) (dw_now w) (dw_log w).
Definition set_active (a : option path) (w : DemoWorld) : DemoWorld := mkDemoWorld (dw_profiles w) a (dw_now w) (dw_log w).
Definition settings_at (p : path) (w : DemoWorld) : option NmSettings := snd <$> List.find (fun x => bool_decide (x.1 = p)) (dw_profiles w).
Definition device : path := code_points "/device/1".
Definition connection (n : nat) : path := code_points "/settings/" ++ [48 + Z.of_nat n]%Z.

Definition manager : NetworkManagerBus DemoWorld := {|
  nm_broker := fun w => (Ok (), w);
  nm_has_owner _ := fun w => (Ok true, w);
  nm_proxy _ _ := fun w => (Ok (), w);
  nm_version := fun w => (Ok (code_points "1"), w);
  nm_list_connections := fun w => (Ok (fst <$> dw_profiles w), w);
  nm_get_settings p := fun w => match settings_at p w with Some s => (Ok s, log (NmRead p s) w) | None => (Err no_object, w) end;
  nm_get_devices := fun w => (Ok [device], w);
  dev_interface _ := fun w => (Ok (code_points "br0"), w);
  dev_managed _ := fun w => (Ok true, w);
  dev_type _ := fun w => (Ok DEVICE_TYPE_BRIDGE, w);
  dev_state _ := fun w => (Ok 100%Z, w);
  dev_active d := fun w => let a := default ROOT_PATH (dw_active w) in (Ok a, log (NmSawActive d a) w);
  active_settings p := fun w => (Ok p, log (NmSawProfile p p) w);
  nm_add_connection2 s _ := fun w => let p := connection (length (dw_profiles w)) in
    (Ok p, log (NmAdded (Some p) s) (set_profiles (dw_profiles w ++ [(p, s)]) w));
  nm_update2 p s _ := fun w => (Ok (), log (NmUpdated p s) (set_profiles ((fun x => if bool_decide (x.1 = p) then (p, s) else x) <$> dw_profiles w) w));
  nm_delete p := fun w => (Ok (), log (NmDeleted p) (set_profiles (List.filter (fun x => negb (bool_decide (x.1 = p))) (dw_profiles w)) w));
  nm_activate p d _ := fun w => (Ok p, log (NmActivated p d) (set_active (Some p) w));
  nm_deactivate a := fun w => (Ok (), log (NmDeactivated a) (set_active None w));
  nm_reapply d s := fun w => (Ok (), log (NmReapplied d s) w);
  valid_object_path _ := true;
  nm_now := dw_now;
  nm_timer_after d w := mkDemoWorld (dw_profiles w) (dw_active w) (dw_now w + d) (dw_log w);
|}.
End demo.

#[local] Existing Instances demo.manager demo_text demo_lawful_text.
#[local] Instance demo_logged : LoggedNetworkManager DemoWorld.
Proof.
  unshelve refine {| nm_log := dw_log |}; try done.
  - by intros d w r w' [= <- <-].
  - by intros a w r w' [= <- <-].
  - intros p w r w'. cbn. destruct (demo.settings_at p w); intros [= <- <-]; [done|by rewrite app_nil_r].
  - intros s f w r w'. cbn. intros [= <- <-]. done.
Defined.

Definition demo_address : InterfaceAddress := mkInterfaceAddress (mkInterface (code_points "br0")) (mkPrefix (V4 0x0a000001) 24) (fill_id 7%Z).
Definition demo_world : DemoWorld := mkDemoWorld [] None 0 [].

(** An address was given to a bridge that had no profile: a profile was added and
    activated.  The interface is then removed: its connection is taken down and its
    profile deleted. *)
Definition demo_removal : NmOperation := RemoveOwnedInterface (fill_id 7%Z) (mkInterface (code_points "br0")).
Definition demo_before : DemoWorld := (run_operation (EnsureAddress demo_address) demo_world).2.

Definition takes_away (e : NmRequest) : bool := match e with NmDeactivated _ | NmDeleted _ => true | _ => false end.

Lemma nm_requests_rightful_witness :
  is_ok (run_operation (EnsureAddress demo_address) demo_world).1 = true /\ is_ok (run_operation demo_removal demo_before).1 = true /\
  length (List.filter takes_away (dw_log (run_operation demo_removal demo_before).2)) = 2%nat /\
  exists l, nm_log (run_operation demo_removal demo_before).2 = nm_log demo_before ++ l /\ rightful (fill_id 7%Z) l.
Proof.
  do 3 (split; [vm_compute; reflexivity|]). exact (nm_requests_rightful demo_removal demo_before).
Defined.
