(* ===== verification/RuntimeHealth.v ===== *)
(** What the machine can do, and the daemon's watch on it:
    [crates/blueroute-linux/src/capability_report.rs] and
    [apps/daemon/src/runtime_health.rs].

    The services are behind [HostBackends]; the other things a probe looks at are
    behind [ProbeHost].  In a message a formatted value is a pair of braces. *)

From S2P Require Import Prelude Order Ident Capability StateText Addressing Routes LinuxRoutes StarHost PeerPins LocalApi DaemonService.

Definition BNEP_MODULE_PATH : list Z := code_points "/sys/module/bnep".
Definition BLUETOOTH_SYSFS_PATH : list Z := code_points "/sys/class/bluetooth".
Definition IPV4_FORWARD_PATH : list Z := code_points "/proc/sys/net/ipv4/ip_forward".
Definition KERNEL_RELEASE_PATH : list Z := code_points "/proc/sys/kernel/osrelease".
Definition BLUEZ_NETWORK_SERVER : string := "org.bluez.NetworkServer1".
Definition CONSERVATIVE_ACTIVE_PEER_CEILING : Z := 4.

Inductive SystemSupportLevel := FullySupported | ClientOnly | SupportDegraded | Unsupported.
#[global] Instance SystemSupportLevel_eq_dec : EqDecision SystemSupportLevel.
Proof. solve_decision. Defined.

Inductive CapabilityDiagnosticLevel := DiagInfo | DiagWarning | DiagError.
Record CapabilityDiagnostic := mkDiagnostic { cd_level : CapabilityDiagnosticLevel; cd_component : string; cd_message : string }.
Record BluetoothControllerReport := mkController {
  bc_handle : list Z; bc_powered : bool; bc_address : option (list Z); bc_driver : option (list Z);
}.
Record RuntimePrerequisite := mkPrerequisite { rp_name : string; rp_available : bool; rp_detail : list Z }.
Record RuntimeCapabilities := mkRuntime { rc_bluez_available : bool; rc_network_backend : option NetworkBackend; rc_node : NodeCapabilities }.

Record SystemCapabilityReport := mkReport {
  sr_support : SystemSupportLevel;
  sr_runtime : RuntimeCapabilities;
  sr_bluez_version : option (list Z);
  sr_network_backend_version : option (list Z);
  sr_controllers : list BluetoothControllerReport;
  sr_panu_available : bool;
  sr_nap_available : option bool;
  sr_forwarding_available : bool;
  sr_forwarding_enabled : option bool;
  sr_practical_peer_ceiling : Z;
  sr_configured_peer_ceiling : option Z;
  sr_effective_peer_ceiling : Z;
  sr_kernel_release : option (list Z);
  sr_prerequisites : list RuntimePrerequisite;
  sr_diagnostics : list CapabilityDiagnostic;
}.

Record SupportInputs := mkInputs {
  si_bluez_available : bool;
  si_network_backend_available : bool;
  si_adapter_present : bool;
  si_powered_adapter : bool;
  si_bnep_available : bool;
  si_panu_available : bool;
  si_nap_available : option bool;
  si_forwarding_available : bool;
}.

Definition classify_support (i : SupportInputs) : SystemSupportLevel :=
  if negb (si_bluez_available i) || negb (si_network_backend_available i) || negb (si_adapter_present i) || negb (si_bnep_available i) then Unsupported
  else if negb (si_powered_adapter i) || bool_decide (si_nap_available i = None) then SupportDegraded
  else if si_panu_available i && bool_decide (si_nap_available i = Some false) then ClientOnly
  else if si_panu_available i && bool_decide (si_nap_available i = Some true) && si_forwarding_available i then FullySupported
  else SupportDegraded.

Definition support_message (l : SystemSupportLevel) : string :=
  match l with
  | FullySupported => "system satisfies current BlueRoute PANU, NAP, network-backend, and forwarding prerequisites"
  | ClientOnly => "system can operate as a PANU client but local NAP hosting is unavailable"
  | SupportDegraded => "system has partial BlueRoute support; diagnostics identify the missing or indeterminate capability"
  | Unsupported => "system is missing a required BlueRoute runtime service, Bluetooth adapter, or BNEP prerequisite"
  end.
Definition support_level (l : SystemSupportLevel) : CapabilityDiagnosticLevel :=
  match l with Unsupported => DiagError | SupportDegraded => DiagWarning | ClientOnly | FullySupported => DiagInfo end.

Definition effective_peer_ceiling (configured : option Z) : Z :=
  Z.min (default CONSERVATIVE_ACTIVE_PEER_CEILING configured) CONSERVATIVE_ACTIVE_PEER_CEILING.

Class ProbeHost (W : Type) := {
  (** What [--version] of a candidate prints, when it runs and succeeds. *)
  run_version : list Z -> W -> option (list Z) * W;
  (** The interfaces of every object BlueZ manages. *)
  managed_interfaces : stres W CoreError (list (list string));
  network_manager_version : stres W CoreError (list Z);
  path_exists : list Z -> W -> bool;
  (** The text of a file, when it can be read. *)
  file_text : list Z -> W -> option (list Z);
  (** The last component of what a link points to. *)
  link_file_name : list Z -> W -> option (list Z);
}.

Section probe.
Context {W : Type} `{HostBackends W} `{ProbeHost W}.

Definition non_empty (l : list Z) : option (list Z) := if bool_decide (l = []) then None else Some l.
Definition read_trimmed (p : list Z) (w : W) : option (list Z) := file_text p w ≫= fun text => non_empty (trim text).

Definition BLUETOOTHD_CANDIDATES : list (list Z) :=
  [code_points "/usr/libexec/bluetooth/bluetoothd"; code_points "/usr/lib/bluetooth/bluetoothd"; code_points "/usr/sbin/bluetoothd"; code_points "bluetoothd"].
Fixpoint first_version (candidates : list (list Z)) (w : W) : option (list Z) * W :=
  match candidates with
  | [] => (None, w)
  | candidate :: candidates =>
    let (output, w) := run_version candidate w in
    match output ≫= fun text => non_empty (trim text) with
    | Some version => (Some version, w)
    | None => first_version candidates w
    end
  end.
Definition resolve_bluez_version : W -> option (list Z) * W := first_version BLUETOOTHD_CANDIDATES.

Definition inspect_forwarding (w : W) : bool * option bool :=
  match trim <$> file_text IPV4_FORWARD_PATH w with
  | Some text =>
    if bool_decide (text = code_points "0") then (true, Some false)
    else if bool_decide (text = code_points "1") then (true, Some true)
    else (false, None)
  | None => (false, None)
  end.

Definition SLASH : Z := 47.
Definition controller_report (w : W) (a : BluetoothAdapter) : BluetoothControllerReport :=
  let name := last (split SLASH (adapter_str (handle a))) ≫= non_empty in
  let base (n : list Z) := BLUETOOTH_SYSFS_PATH ++ [SLASH] ++ n in
  mkController (adapter_str (handle a)) (powered a)
    (name ≫= fun n => read_trimmed (base n ++ code_points "/address") w)
    (name ≫= fun n => link_file_name (base n ++ code_points "/device/driver") w).

Definition has_bluez_interface (name : string) : stres W CoreError bool :=
  let! objects := managed_interfaces in st_ret (existsb (existsb (fun i => bool_decide (i = name))) objects).

(** A diagnostic, under a condition. *)
Definition diagnose (b : bool) (l : CapabilityDiagnosticLevel) (component message : string) : list CapabilityDiagnostic :=
  if b then [mkDiagnostic l component message] else [].

(** What was looked at, in order; an [Err] is a failure that became a diagnostic. *)
Record Observation := mkObservation {
  ob_bluez_version : option (list Z);
  ob_bluez : CoreResult ();
  ob_adapters : CoreResult (list BluetoothAdapter);
  ob_controllers : list BluetoothControllerReport;
  ob_bnep : bool;
  ob_server : CoreResult bool;
  ob_network_manager : CoreResult ();
  ob_backend_version : CoreResult (option (list Z));
  ob_forwarding : bool * option bool;
  ob_kernel_release : option (list Z);
  ob_sysfs : bool;
}.

Definition when_ok {A B : Type} (r : CoreResult A) (m : stres W CoreError B) (otherwise : B) : W -> CoreResult B * W := fun w =>
  match r with Ok _ => m w | Err _ => (Ok otherwise, w) end.

Definition look : W -> Observation * W := fun w =>
  let (version, w) := resolve_bluez_version w in
  let (bluez, w) := connect_bluez w in
  let (found, w) := when_ok bluez adapters [] w in
  let controllers := controller_report w <$> match found with Ok l => l | Err _ => [] end in
  let bnep := path_exists BNEP_MODULE_PATH w in
  let (server, w) := when_ok bluez (has_bluez_interface BLUEZ_NETWORK_SERVER) false w in
  let (manager, w) := connect_network_manager w in
  let (backend_version, w) := when_ok manager (let! v := network_manager_version in st_ret (Some v)) None w in
  (mkObservation version bluez found controllers bnep server manager backend_version (inspect_forwarding w) (read_trimmed KERNEL_RELEASE_PATH w)
     (path_exists BLUETOOTH_SYSFS_PATH w), w).
End probe.

(** ** The report *)

Definition ob_adapter_list (ob : Observation) : list BluetoothAdapter := match ob_adapters ob with Ok l => l | Err _ => [] end.
Definition powered_adapter (ob : Observation) : bool := existsb powered (ob_adapter_list ob).
Definition bluez_available (ob : Observation) : bool := is_ok (ob_bluez ob).
Definition manager_available (ob : Observation) : bool := is_ok (ob_network_manager ob).

(** An unanswered question is no answer; without BlueZ the answer is no. *)
Definition nap_available (ob : Observation) : option bool :=
  match ob_server ob with Ok server => Some (server && ob_bnep ob && powered_adapter ob) | Err _ => None end.
Definition panu_available (ob : Observation) : bool := bluez_available ob && powered_adapter ob && ob_bnep ob.
Definition forwarding_available (ob : Observation) : bool := (ob_forwarding ob).1.

Definition support_inputs (ob : Observation) : SupportInputs :=
  mkInputs (bluez_available ob) (manager_available ob) (negb (bool_decide (length (ob_controllers ob) = 0%nat))) (powered_adapter ob) (ob_bnep ob)
    (panu_available ob) (nap_available ob) (forwarding_available ob).

Definition discovered {A : Type} (a : A) : Sourced A := mkSourced a Discovered.

Definition node_capabilities (configured : option Z) (ob : Observation) : NodeCapabilities :=
  mkCaps (Some (discovered (powered_adapter ob))) (Some (discovered (panu_available ob))) (discovered <$> nap_available ob)
    (Some (discovered (forwarding_available ob)))
    (if manager_available ob then Some (discovered NetworkManager) else None)
    (Some (mkSourced (effective_peer_ceiling configured)
      match configured with
      | Some value => if (value <=? CONSERVATIVE_ACTIVE_PEER_CEILING)%Z then Configured else ConservativeDefault
      | None => ConservativeDefault
      end)) None None None None.

Definition report_diagnostics (configured : option Z) (support : SystemSupportLevel) (ob : Observation) : list CapabilityDiagnostic :=
  let none := bool_decide (length (ob_adapter_list ob) = 0%nat) in
  diagnose true (support_level support) "summary" (support_message support)
  ++ diagnose (bool_decide (ob_bluez_version ob = None)) DiagWarning "bluez"
       "BlueZ daemon version could not be determined from known bluetoothd locations or PATH"
  ++ diagnose (negb (bluez_available ob)) DiagError "bluez" "BlueZ system service is unavailable: {}"
  ++ diagnose (negb (is_ok (ob_adapters ob))) DiagError "bluetooth" "Bluetooth adapters could not be enumerated: {}"
  ++ diagnose (none && bluez_available ob) DiagError "bluetooth" "BlueZ is running but no Bluetooth adapter is exposed"
  ++ diagnose (negb none && negb (powered_adapter ob)) DiagWarning "bluetooth" "Bluetooth adapter is present but no adapter is powered"
  ++ diagnose (negb (ob_bnep ob)) DiagError "bluetooth-pan" "Linux BNEP runtime support is not present at /sys/module/bnep"
  ++ diagnose (negb (is_ok (ob_server ob))) DiagWarning "nap" "NAP capability could not be determined from BlueZ managed objects: {}"
  ++ diagnose (bool_decide (nap_available ob = Some false) && bluez_available ob && powered_adapter ob) DiagInfo "nap"
       "local NAP server capability is unavailable; this node may still operate as a PANU client"
  ++ diagnose (panu_available ob) DiagInfo "panu"
       "PANU prerequisites are present; remote peer compatibility is evaluated when connecting"
  ++ diagnose (negb (manager_available ob)) DiagError "network-backend" "NetworkManager system service is unavailable: {}"
  ++ diagnose (negb (is_ok (ob_backend_version ob))) DiagWarning "network-backend" "NetworkManager version could not be queried: {}"
  ++ diagnose (negb (forwarding_available ob)) DiagWarning "forwarding" "kernel IPv4 forwarding control is unavailable or unreadable"
  ++ diagnose (match configured with Some value => CONSERVATIVE_ACTIVE_PEER_CEILING <? value | None => false end)%Z DiagWarning "peer-ceiling"
       "configured active-link ceiling exceeds the conservative runtime ceiling of {}; the effective ceiling is {}".

Definition prerequisites (ob : Observation) : list RuntimePrerequisite :=
  [mkPrerequisite "bluetooth-sysfs" (ob_sysfs ob) BLUETOOTH_SYSFS_PATH;
   mkPrerequisite "bnep" (ob_bnep ob) BNEP_MODULE_PATH;
   mkPrerequisite "ipv4-forwarding-control" (forwarding_available ob) IPV4_FORWARD_PATH;
   mkPrerequisite "bluez-system-service" (bluez_available ob) (code_points "org.bluez");
   mkPrerequisite "networkmanager-system-service" (manager_available ob) (code_points "org.freedesktop.NetworkManager")].

Definition report_of (configured : option Z) (ob : Observation) : SystemCapabilityReport :=
  let support := classify_support (support_inputs ob) in
  mkReport support
    (mkRuntime (bluez_available ob) (if manager_available ob then Some NetworkManager else None) (node_capabilities configured ob))
    (ob_bluez_version ob) (match ob_backend_version ob with Ok v => v | Err _ => None end) (ob_controllers ob) (panu_available ob) (nap_available ob)
    (forwarding_available ob) (ob_forwarding ob).2 CONSERVATIVE_ACTIVE_PEER_CEILING configured (effective_peer_ceiling configured)
    (ob_kernel_release ob) (prerequisites ob) (report_diagnostics configured support ob).

Section report.
Context {W : Type} `{HostBackends W} `{ProbeHost W} (config : DaemonConfig).

(** [SystemCapabilityProbe::report] *)
Definition probe_report : stres W CoreError SystemCapabilityReport :=
  let! _ := st_lift (config_validate config) in fun w =>
  let (ob, w) := look w in (Ok (report_of (max_active_links (topology config)) ob), w).
End report.

(** ** The watch *)

Definition PACKAGE_VERSION : list Z := code_points "0.1.0".
Definition HEALTH_RECHECK_INTERVAL : Z := 15000.

Definition system_diagnostics_from_report (r : SystemCapabilityReport) : SystemDiagnosticMetadata :=
  mkSystemDiagnostics PACKAGE_VERSION "Linux" (sr_kernel_release r) (sr_bluez_version r) (sr_network_backend_version r)
    ((fun c => mkDiagnosticAdapter (bc_handle c) (bc_powered c) (bc_address c) (bc_driver c)) <$> sr_controllers r).

Definition health_for_support (support : option SystemSupportLevel) (startup_reconciled : bool) : HealthLevel :=
  match support with
  | Some Unsupported => HealthError
  | Some SupportDegraded | None => Degraded
  | Some ClientOnly | Some FullySupported => if startup_reconciled then Healthy else Degraded
  end.

(** What a report, or its failure, says of the daemon. *)
Definition observed_state (startup_reconciled : bool) (reported : CoreResult SystemCapabilityReport) :
    HealthLevel * NodeCapabilities * option SystemDiagnosticMetadata :=
  match reported with
  | Ok r => (health_for_support (Some (sr_support r)) startup_reconciled, rc_node (sr_runtime r), Some (system_diagnostics_from_report r))
  | Err _ => (Degraded, caps_default, None)
  end.

(** The stop flag, as it reads at each look, and the timer of the thread. *)
Class MonitorHost (W : Type) := {
  stop_requested : W -> bool * W;
  park_timeout : Z -> W -> W;
}.

Section monitor.
Context {W : Type} `{HostBackends W} `{ProbeHost W} `{MonitorHost W} (config : DaemonConfig) (startup_reconciled : bool).

(** One turn of the loop: whether it goes on. *)
Definition monitor_turn (s : DaemonService) (w : W) : bool * DaemonService * W :=
  let (stop, w) := stop_requested w in
  if stop : bool then (false, s, w) else
  let w := park_timeout HEALTH_RECHECK_INTERVAL w in
  let (stop, w) := stop_requested w in
  if stop : bool then (false, s, w) else
  let (reported, w) := probe_report config w in
  let (stop, w) := stop_requested w in
  if stop : bool then (false, s, w) else
  let '(health, capabilities, system) := observed_state startup_reconciled reported in
  (true, (update_runtime_observation health capabilities system s).2, w).

Fixpoint monitor (turns : nat) (s : DaemonService) (w : W) : bool * DaemonService * W :=
  match turns with
  | O => (true, s, w)
  | S turns => match monitor_turn s w with (true, s, w) => monitor turns s w | ended => ended end
  end.
End monitor.

(** ** Facts *)

Section facts.
Context {W : Type} `{HostBackends W} `{ProbeHost W}.

(** How the parts of an observation hang together. *)
Definition coherent (ob : Observation) : Prop :=
  length (ob_controllers ob) = length (ob_adapter_list ob) /\
  (is_ok (ob_bluez ob) = false -> ob_adapters ob = Ok [] /\ ob_server ob = Ok false) /\
  (is_ok (ob_network_manager ob) = false -> ob_backend_version ob = Ok None).

Lemma look_coherent (w : W) ob w' : look w = (ob, w') -> coherent ob.
Proof.
  unfold look. destruct (resolve_bluez_version w) as [version w1]. destruct (connect_bluez w1) as [bluez w2].
  destruct (when_ok bluez adapters [] w2) as [found w3] eqn:Hf. destruct (when_ok bluez (has_bluez_interface _) false w3) as [server w4] eqn:Hs.
  destruct (connect_network_manager w4) as [manager w5]. destruct (when_ok manager _ None w5) as [version' w6] eqn:Hv. intros [= <- _].
  unfold coherent, ob_adapter_list. cbn. split; [by rewrite length_map|]. unfold when_ok in *. split.
  - destruct bluez; [done|]. by injection Hf as <- <-; injection Hs as <- <-.
  - destruct manager; [done|]. by injection Hv as <- <-.
Qed.

Lemma powered_has_adapter ob : powered_adapter ob = true -> ob_adapter_list ob <> [].
Proof. unfold powered_adapter. by destruct (ob_adapter_list ob). Qed.
Lemma powered_has_bluez ob : coherent ob -> powered_adapter ob = true -> bluez_available ob = true.
Proof.
  intros (_ & Hb & _) Hp%powered_has_adapter. unfold bluez_available. destruct (is_ok (ob_bluez ob)) eqn:Hx; [done|].
  destruct (Hb eq_refl) as [Ha _]. unfold ob_adapter_list in Hp. by rewrite Ha in Hp.
Qed.

(** The level of support, in terms of what was seen. *)
Definition required_present (ob : Observation) : bool :=
  bluez_available ob && manager_available ob && ob_bnep ob && negb (bool_decide (length (ob_adapter_list ob) = 0%nat)).
Definition support_seen (ob : Observation) : SystemSupportLevel :=
  if negb (required_present ob) then Unsupported
  else if powered_adapter ob then
    match ob_server ob with
    | Ok true => if forwarding_available ob then FullySupported else SupportDegraded
    | Ok false => ClientOnly
    | Err _ => SupportDegraded
    end
  else SupportDegraded.

Lemma classify_seen ob : coherent ob -> classify_support (support_inputs ob) = support_seen ob.
Proof.
  intros (Hl & _). unfold classify_support, support_seen, support_inputs, required_present. cbn. rewrite Hl. unfold panu_available, nap_available.
  destruct (bluez_available ob), (manager_available ob), (bool_decide (length (ob_adapter_list ob) = 0%nat)), (ob_bnep ob), (powered_adapter ob); try done;
    destruct (ob_server ob) as [[]|]; try done; cbn; by destruct (forwarding_available ob).
Qed.

(** A report claims what was seen and no more.  The level of support is decided
    by the services, the adapters, the kernel module, the answer about a NAP server
    and the forwarding control.  The node says it can host exactly when BlueZ
    answered that it serves NAPs, the module is there and an adapter is powered, and
    says nothing when BlueZ did not answer; it says it can join exactly when an
    adapter is powered and the module is there; it never offers more links than the
    ceiling or than configured.  The watch publishes that the daemon is healthy only
    on such a report, after its start was reconciled. *)
Theorem capability_report_exact (config : DaemonConfig) (startup_reconciled : bool) (w : W) r w'
    (Hrun : probe_report config w = (Ok r, w')) : exists ob, look w = (ob, w') /\
  sr_support r = support_seen ob /\
  (can_host_pan (rc_node (sr_runtime r)) = Some true <-> ob_server ob = Ok true /\ ob_bnep ob = true /\ powered_adapter ob = true) /\
  (can_host_pan (rc_node (sr_runtime r)) = None <-> is_ok (ob_server ob) = false) /\
  (can_join_pan (rc_node (sr_runtime r)) = Some true <-> ob_bnep ob = true /\ powered_adapter ob = true) /\
  (sr_effective_peer_ceiling r <= CONSERVATIVE_ACTIVE_PEER_CEILING)%Z /\
  (forall n, max_active_links (topology config) = Some n -> (sr_effective_peer_ceiling r <= n)%Z) /\
  ((observed_state startup_reconciled (Ok r)).1.1 = Healthy <->
     startup_reconciled = true /\ required_present ob = true /\ powered_adapter ob = true /\
     (ob_server ob = Ok false \/ ob_server ob = Ok true /\ forwarding_available ob = true)).
Proof.
  unfold probe_report in Hrun. apply st_bind_Ok in Hrun as ([] & w1 & Hv & Hrun). injection Hv as _ ->.
  destruct (look w1) as [ob w2] eqn:Hl. injection Hrun as <- <-. exists ob. pose proof (look_coherent _ _ _ Hl) as Hc. split; [done|].
  pose proof (classify_seen _ Hc) as Hs. pose proof (powered_has_bluez _ Hc) as Hpb. cbn [sr_support report_of sr_effective_peer_ceiling]. split; [done|].
  split; [|split; [|split; [|split; [|split]]]].
  - unfold can_host_pan. cbn. unfold nap_available. destruct (ob_server ob) as [[]|]; cbn; try naive_solver.
    destruct (ob_bnep ob), (powered_adapter ob); naive_solver.
  - unfold can_host_pan. cbn. unfold nap_available. by destruct (ob_server ob).
  - unfold can_join_pan. cbn. unfold panu_available. destruct (powered_adapter ob); [rewrite Hpb by done|]; destruct (ob_bnep ob); cbn; rewrite ?andb_false_r; naive_solver.
  - unfold effective_peer_ceiling. lia.
  - intros n ->. unfold effective_peer_ceiling. cbn. lia.
  - cbn. rewrite Hs. unfold support_seen. destruct (required_present ob), (powered_adapter ob), (ob_server ob) as [[]|], (forwarding_available ob), startup_reconciled; cbn; naive_solver.
Qed.
End facts.

Section watch.
Context {W : Type} `{HostBackends W} `{ProbeHost W} `{MonitorHost W} (config : DaemonConfig) (startup_reconciled : bool).

(** A turn that goes on publishes what was observed, and nothing else of the service;
    the last turn publishes nothing. *)
Lemma monitor_turn_publishes s (w : W) go s' w' : monitor_turn config startup_reconciled s w = (go, s', w') ->
  if go then exists w1 reported w2, probe_report config w1 = (reported, w2) /\
    let '(health, capabilities, system) := observed_state startup_reconciled reported in
    st_health (sv_status s') = health /\ st_capabilities (sv_status s') = capabilities /\ sv_system_diagnostics s' = system /\
    st_current_network (sv_status s') = st_current_network (sv_status s) /\ sv_mutation_in_progress s' = sv_mutation_in_progress s /\
    sv_recent_errors s' = sv_recent_errors s
  else s' = s.
Proof.
  unfold monitor_turn. destruct (stop_requested w) as [[] w1]; [by intros [= <- <- _]|].
  destruct (stop_requested (park_timeout _ w1)) as [[] w2]; [by intros [= <- <- _]|].
  destruct (probe_report config w2) as [reported w3] eqn:Hr. destruct (stop_requested w3) as [[] w4]; [by intros [= <- <- _]|].
  destruct (observed_state startup_reconciled reported) as [[health capabilities] system] eqn:Ho. intros [= <- <- _].
  exists w2, reported, w3. split; [done|]. rewrite Ho. done.
Qed.
End watch.

(** ** A machine that can host *)

Module demo_machine.
Definition probe_host : ProbeHost DemoBackends := {|
  run_version _ := fun w => (Some (code_points "5.66"), w);
  managed_interfaces := fun w => (Ok [[BLUEZ_NETWORK_SERVER]], w);
  network_manager_version := fun w => (Ok (code_points "1.42"), w);
  path_exists _ _ := true;
  file_text p _ := if bool_decide (p = IPV4_FORWARD_PATH) then Some (code_points "1") else None;
  link_file_name _ _ := None;
|}.
End demo_machine.

#[local] Existing Instances StarHost.demo_backends demo_machine.probe_host.

Definition demo_report_config : option DaemonConfig := match config_default with Ok c => Some c | Err _ => None end.

Lemma capability_report_exact_witness : exists config r w', demo_report_config = Some config /\
  probe_report config (demo_backend false) = (Ok r, w') /\ sr_support r = FullySupported /\ (sr_effective_peer_ceiling r <= 4)%Z.
Proof.
  destruct demo_report_config as [config|] eqn:Hc; [|by vm_compute in Hc].
  destruct (probe_report config (demo_backend false)) as [[r|e] w'] eqn:Hrun; [|by injection Hc as <-; vm_compute in Hrun].
  exists config, r, w'. split; [done|]. split; [done|]. split.
  - injection Hc as <-. vm_compute in Hrun. by injection Hrun as <- _.
  - destruct (capability_report_exact config true _ _ _ Hrun) as (ob & _ & _ & _ & _ & _ & Hceil & _). exact Hceil.
Defined.
