(* ===== verification/BluezObjects.v ===== *)
(** The objects of BlueZ, as [crates/blueroute-linux/src/bluez.rs] reads them:
    the adapters and peers among the managed objects, the events told to a
    subscriber, and discovery.

    The object manager and the stream of BlueZ's signals act on the world of
    [SystemBus], behind [BluezObjectBus].  The name of the service is well formed. *)

From stdpp Require Import gmap.
From S2P Require Import Prelude Order Ident StateText Routes LinuxRoutes StarHost JoinNetwork TlsIdentity NapServer PanuLink.

Lemma adapter_str_inj x y : adapter_str x = adapter_str y -> x = y.
Proof. destruct x, y; simpl; congruence. Qed.
#[global] Instance AdapterHandle_ord : RustOrd AdapterHandle := ord_via adapter_str adapter_str_inj.
Lemma peer_str_inj x y : peer_str x = peer_str y -> x = y.
Proof. destruct x, y; simpl; congruence. Qed.
#[global] Instance PeerHandle_ord : RustOrd PeerHandle := ord_via peer_str peer_str_inj.

Definition adapter_handle_new (value : list Z) : CoreResult AdapterHandle :=
  guard_err (bool_decide (trim value = [])) (core_error InvalidInput "AdapterHandle cannot be empty") (Ok (mkAdapterHandle value)).
Definition peer_handle_new (value : list Z) : CoreResult PeerHandle :=
  guard_err (bool_decide (trim value = [])) (core_error InvalidInput "PeerHandle cannot be empty") (Ok (mkPeerHandle value)).

Record DiscoveredPeer := mkDiscoveredPeer {
  dp_handle : PeerHandle;
  dp_display_name : option (list Z);
  dp_paired : bool;
  dp_trusted : bool;
}.

Inductive BluetoothAdapterEvent :=
| AdapterAdded (adapter : BluetoothAdapter)
| AdapterRemoved (handle : AdapterHandle)
| PoweredChanged (handle : AdapterHandle) (powered : bool).

Inductive BluetoothPeerEvent := PeerAdded (peer : DiscoveredPeer) | PeerChanged (peer : DiscoveredPeer) | PeerRemoved (handle : PeerHandle).

(** ** Managed objects *)

(** A value, read as either of two types, an error being what the reader prints. *)
Record OwnedValue := mkOwnedValue { ov_bool : result string bool; ov_str : result string (list Z) }.
Abbreviation Properties := (gmap string OwnedValue).
Abbreviation Interfaces := (gmap string Properties).

(** In the order in which the [HashMap] gives them. *)
Abbreviation ManagedObjects := (list (list Z * Interfaces)).

Definition PAIRED_PROPERTY : string := "Paired".
Definition TRUSTED_PROPERTY : string := "Trusted".
Definition ALIAS_PROPERTY : string := "Alias".
Definition NAME_PROPERTY : string := "Name".

Definition owned_value_to_bool (value : OwnedValue) : CoreResult bool :=
  map_err (core_error_with_diagnostic ProtocolError "BlueZ adapter Powered property is not a boolean") (ov_bool value).

Definition required_peer_bool (properties : Properties) (property : string) : CoreResult bool :=
  value ← ok_or (properties !! property) (core_error ProtocolError ("BlueZ device is missing its " ++ property ++ " property"));
  map_err (core_error_with_diagnostic ProtocolError ("BlueZ device " ++ property ++ " property is not a boolean")) (ov_bool value).

Definition optional_peer_string (properties : Properties) (property : string) : CoreResult (option (list Z)) :=
  match properties !! property with
  | None => Ok None
  | Some value =>
    value ← map_err (core_error_with_diagnostic ProtocolError ("BlueZ device " ++ property ++ " property is not a string")) (ov_str value);
    Ok (if bool_decide (trim value = []) then None else Some value)
  end.

Definition peer_from_properties (path : list Z) (properties : Properties) : CoreResult DiscoveredPeer :=
  paired ← required_peer_bool properties PAIRED_PROPERTY;
  trusted ← required_peer_bool properties TRUSTED_PROPERTY;
  alias ← optional_peer_string properties ALIAS_PROPERTY;
  name ← optional_peer_string properties NAME_PROPERTY;
  handle ← peer_handle_new path;
  Ok (mkDiscoveredPeer handle (if alias is Some _ then alias else name) paired trusted).

(** [str::trim_end_matches('/')]. *)
Fixpoint trim_start_slashes (l : list Z) : list Z :=
  match l with 47%Z :: l' => trim_start_slashes l' | _ => l end.
Definition trim_end_slashes (l : list Z) : list Z := reverse (trim_start_slashes (reverse l)).

Definition is_device_object_path_for_adapter_path (path adapter : list Z) : bool :=
  match strip_prefix (trim_end_slashes adapter ++ [47%Z]) path with
  | None => false
  | Some suffix => bool_decide (take 4 suffix = code_points "dev_") && negb (bool_decide (47%Z ∈ suffix))
  end.
Definition is_device_object_path_for_adapter (path : list Z) (adapter : AdapterHandle) : bool :=
  is_device_object_path_for_adapter_path path (adapter_str adapter).

Definition BLUEZ_OBJECT_PREFIX : list Z := code_points "/org/bluez/".
Definition is_adapter_object_path (path : list Z) : bool :=
  match strip_prefix BLUEZ_OBJECT_PREFIX path with
  | None => false
  | Some suffix => negb (bool_decide (suffix = [])) && negb (bool_decide (47%Z ∈ suffix))
  end.

(** What one object contributes; [None]: the loop goes on. *)
Definition adapter_of_object (object : list Z * Interfaces) : CoreResult (option BluetoothAdapter) :=
  match object.2 !! ADAPTER_INTERFACE with
  | None => Ok None
  | Some properties =>
    value ← ok_or (properties !! POWERED_PROPERTY) (core_error ProtocolError "BlueZ adapter is missing its Powered property");
    powered ← owned_value_to_bool value;
    handle ← adapter_handle_new object.1;
    Ok (Some (mkAdapter handle powered))
  end.
Definition adapter_le (x y : BluetoothAdapter) : Prop := handle x ≤ᵣ handle y.
#[global] Instance adapter_le_dec : RelDecision adapter_le.
Proof. intros x y. unfold adapter_le. apply _. Defined.
Definition adapters_from_managed_objects (objects : ManagedObjects) : CoreResult (list BluetoothAdapter) :=
  found ← try_map adapter_of_object objects; Ok (merge_sort adapter_le (omap id found)).

Definition peer_of_object (adapter : AdapterHandle) (object : list Z * Interfaces) : CoreResult (option DiscoveredPeer) :=
  if negb (is_device_object_path_for_adapter object.1 adapter) then Ok None else
  match object.2 !! DEVICE_INTERFACE with
  | None => Ok None
  | Some properties => peer ← peer_from_properties object.1 properties; Ok (Some peer)
  end.
Definition peer_le (x y : DiscoveredPeer) : Prop := dp_handle x ≤ᵣ dp_handle y.
#[global] Instance peer_le_dec : RelDecision peer_le.
Proof. intros x y. unfold peer_le. apply _. Defined.
Definition peers_from_managed_objects (objects : ManagedObjects) (adapter : AdapterHandle) : CoreResult (list DiscoveredPeer) :=
  found ← try_map (peer_of_object adapter) objects; Ok (merge_sort peer_le (omap id found)).

(** ** Differences of two enumerations *)

(** [collect::<BTreeMap<_, _>>()] *)
Definition adapters_by_handle (l : list BluetoothAdapter) : gmap AdapterHandle BluetoothAdapter :=
  insert_all ∅ ((fun a => (handle a, a)) <$> l).

Definition diff_adapter_snapshots (previous current : list BluetoothAdapter) : list BluetoothAdapterEvent :=
  let previous := adapters_by_handle previous in
  let current := adapters_by_handle current in
  omap (fun '(h, old) => match current !! h with
    | None => Some (AdapterRemoved h)
    | Some new => if negb (Bool.eqb (powered old) (powered new)) then Some (PoweredChanged h (powered new)) else None
    end) (iter_map previous) ++
  omap (fun '(h, adapter) => match previous !! h with None => Some (AdapterAdded adapter) | Some _ => None end) (iter_map current).

(** ** Signals *)

(** A signal, with its body also read as what an added object has. *)
Record BluezSignal := mkBluezSignal { bs_signal : Signal; bs_added : result string (list Z * Interfaces) }.

Class BluezObjectBus (W : Type) := {
  object_manager_new : stres W BusError ();
  get_managed_objects : stres W BusError ManagedObjects;
  match_rule_new : stres W BusError ();
  match_stream : stres W BusError ();
  (** [None]: the stream has ended. *)
  next_signal : stres W BusError (option BluezSignal);
}.

Definition INTERFACES_ADDED : string := "InterfacesAdded".

Definition signal_is (interface member : string) (message : BluezSignal) : bool :=
  bool_decide (sg_interface (bs_signal message) = Some interface) && bool_decide (sg_member (bs_signal message) = Some member).

Definition bluez_error (m text : string) : CoreError := core_error_with_diagnostic BluezUnavailable m text.
Definition added_body (message : BluezSignal) : CoreResult (list Z * Interfaces) :=
  map_err (bluez_error "failed to decode BlueZ InterfacesAdded signal") (bs_added message).
Definition removed_body (message : BluezSignal) : CoreResult (list Z * list string) :=
  map_err (bluez_error "failed to decode BlueZ InterfacesRemoved signal") (sg_removed (bs_signal message)).
Definition changed_body (message : BluezSignal) : CoreResult (string * list string * list string) :=
  map_err (bluez_error "failed to decode BlueZ PropertiesChanged signal") (sg_changed (bs_signal message)).

Definition is_adapter_change_signal (message : BluezSignal) : CoreResult bool :=
  if signal_is OBJECT_MANAGER_INTERFACE INTERFACES_ADDED message then
    added ← added_body message;
    Ok (is_adapter_object_path added.1 && bool_decide (is_Some (added.2 !! ADAPTER_INTERFACE)))
  else if signal_is OBJECT_MANAGER_INTERFACE INTERFACES_REMOVED message then
    removed ← removed_body message;
    Ok (is_adapter_object_path removed.1 && bool_decide (ADAPTER_INTERFACE ∈ removed.2))
  else if signal_is PROPERTIES_INTERFACE PROPERTIES_CHANGED message then
    match sg_path (bs_signal message) with
    | None => Ok false
    | Some path =>
      if negb (is_adapter_object_path path) then Ok false else
      change ← changed_body message;
      let '(interface, changed, invalidated) := change in
      Ok (bool_decide (interface = ADAPTER_INTERFACE) && (bool_decide (POWERED_PROPERTY ∈ changed) || bool_decide (POWERED_PROPERTY ∈ invalidated)))
    end
  else Ok false.

Definition peer_properties_changed (changed invalidated : list string) : bool :=
  existsb (fun property => bool_decide (property ∈ changed) || bool_decide (property ∈ invalidated))
    [ALIAS_PROPERTY; NAME_PROPERTY; PAIRED_PROPERTY; TRUSTED_PROPERTY].

(** ** Discovery errors *)

Definition START_DISCOVERY_METHOD : string := "StartDiscovery".
Definition STOP_DISCOVERY_METHOD : string := "StopDiscovery".

Definition discovery_method_error_kind (name : string) : ErrorKind :=
  if bool_decide (name = "org.bluez.Error.NotReady") then AdapterDisabled
  else if bool_decide (name = "org.bluez.Error.InProgress") then InvalidState
  else if bool_decide (name = "org.bluez.Error.NotAuthorized") then CapabilityUnavailable
  else if bool_decide (name ∈ ["org.bluez.Error.DoesNotExist"; "org.freedesktop.DBus.Error.UnknownObject"]) then MissingAdapter
  else CapabilityUnavailable.

Definition discovery_error (method : string) (e : BusError) : CoreError :=
  let k := match method_error_name e with Some name => discovery_method_error_kind name | None => BluezUnavailable end in
  let operation := if bool_decide (method = START_DISCOVERY_METHOD) then "start Bluetooth discovery" else "stop Bluetooth discovery" in
  core_error_with_diagnostic k ("failed to " ++ operation) (bus_text e).

(** ** The operations *)

Section operations.
Context {W : Type} `{SystemBus W} `{BluezObjectBus W}.

Definition bluez_service_available : stres W CoreError bool :=
  let! _ := bus BluezUnavailable "failed to create a system D-Bus service proxy" dbus_proxy_new in
  bus BluezUnavailable "failed to query BlueZ service availability" (name_has_owner BLUEZ_SERVICE).
Definition ensure_bluez_available : stres W CoreError () :=
  let! available := bluez_service_available in
  if available : bool then st_ret () else st_fail bluez_absent.

Definition managed_objects : stres W CoreError ManagedObjects :=
  let! _ := ensure_bluez_available in
  let! _ := bus BluezUnavailable "failed to create the BlueZ object-manager proxy" object_manager_new in
  bus BluezUnavailable "failed to enumerate BlueZ managed objects" get_managed_objects.

Definition enumerate_adapters : stres W CoreError (list BluetoothAdapter) :=
  let! objects := managed_objects in st_lift (adapters_from_managed_objects objects).

Definition adapter_gone : CoreError := core_error MissingAdapter "Bluetooth adapter is no longer available".
Definition with_handle (adapter : AdapterHandle) (a : BluetoothAdapter) : Prop := handle a = adapter.
#[global] Instance with_handle_dec adapter a : Decision (with_handle adapter a).
Proof. unfold with_handle. apply _. Defined.
Definition ensure_adapter_exists (adapter : AdapterHandle) : stres W CoreError BluetoothAdapter :=
  let! adapters := enumerate_adapters in
  st_lift (ok_or (snd <$> list_find (with_handle adapter) adapters) adapter_gone).

Definition enumerate_peers (adapter : AdapterHandle) : stres W CoreError (list DiscoveredPeer) :=
  let! objects := managed_objects in
  let! adapters := st_lift (adapters_from_managed_objects objects) in
  if negb (existsb (fun a => bool_decide (handle a = adapter)) adapters) then st_fail adapter_gone
  else st_lift (peers_from_managed_objects objects adapter).

Definition has_path (path : list Z) (object : list Z * Interfaces) : Prop := object.1 = path.
#[global] Instance has_path_dec path object : Decision (has_path path object).
Proof. unfold has_path. apply _. Defined.
Definition find_object (path : list Z) (objects : ManagedObjects) : option (list Z * Interfaces) :=
  snd <$> list_find (has_path path) objects.

Definition peer_by_handle (peer : PeerHandle) : stres W CoreError DiscoveredPeer :=
  let! objects := managed_objects in
  st_lift (
    object ← ok_or (find_object (peer_str peer) objects) (core_error InvalidState "Bluetooth peer is no longer available");
    properties ← ok_or (object.2 !! DEVICE_INTERFACE) (core_error InvalidState "Bluetooth peer no longer exposes BlueZ Device1");
    peer_from_properties object.1 properties).

Definition fetch_peer (adapter : AdapterHandle) (path : list Z) : stres W CoreError (option DiscoveredPeer) :=
  let! objects := managed_objects in
  match find_object path objects with
  | None => st_ret None
  | Some object =>
    if negb (is_device_object_path_for_adapter object.1 adapter) then st_ret None else
    match object.2 !! DEVICE_INTERFACE with
    | None => st_ret None
    | Some properties => let! peer := st_lift (peer_from_properties object.1 properties) in st_ret (Some peer)
    end
  end.

Definition call_discovery_method (adapter : AdapterHandle) (method : string) : stres W CoreError () :=
  let! current := ensure_adapter_exists adapter in
  if bool_decide (method = START_DISCOVERY_METHOD) && negb (powered current) then
    st_fail (core_error AdapterDisabled "Bluetooth adapter must be powered before discovery can start")
  else
    let proxy := mkProxy (code_points BLUEZ_SERVICE) (adapter_str (handle current)) ADAPTER_INTERFACE in
    let! _ := st_map_err (discovery_error method) (proxy_new proxy) in
    let! _ := st_map_err (discovery_error method) (call_method proxy method []) in
    st_ret ().
Definition start_discovery (adapter : AdapterHandle) : stres W CoreError () := call_discovery_method adapter START_DISCOVERY_METHOD.
Definition stop_discovery (adapter : AdapterHandle) : stres W CoreError () := call_discovery_method adapter STOP_DISCOVERY_METHOD.

Definition bluez_change_stream : stres W CoreError () :=
  let! _ := bus BluezUnavailable "failed to build the BlueZ signal subscription" match_rule_new in
  bus BluezUnavailable "failed to subscribe to BlueZ changes" match_stream.

(** *** Adapter events *)

Record BluezAdapterSubscription := mkAdapterSubscription { as_snapshot : list BluetoothAdapter; as_pending : list BluetoothAdapterEvent }.

Definition subscribe_adapter_events : stres W CoreError BluezAdapterSubscription :=
  let! _ := ensure_bluez_available in
  let! _ := bluez_change_stream in
  let! snapshot := enumerate_adapters in
  st_ret (mkAdapterSubscription snapshot []).

(** One round of the loop of [next_event]; [None]: it goes on. *)
Definition adapter_event_round : stres (BluezAdapterSubscription * W) CoreError (option (option BluetoothAdapterEvent)) := fun '(s, w) =>
  match as_pending s with
  | event :: pending => (Ok (Some (Some event)), (mkAdapterSubscription (as_snapshot s) pending, w))
  | [] =>
    match bus BluezUnavailable "failed while receiving BlueZ adapter changes" next_signal w with
    | (Err e, w) => (Err e, (s, w))
    | (Ok None, w) => (Ok (Some None), (s, w))
    | (Ok (Some message), w) =>
      match is_adapter_change_signal message with
      | Err e => (Err e, (s, w))
      | Ok false => (Ok None, (s, w))
      | Ok true =>
        match enumerate_adapters w with
        | (Err e, w) => (Err e, (s, w))
        | (Ok next, w) => (Ok None, (mkAdapterSubscription next (diff_adapter_snapshots (as_snapshot s) next), w))
        end
      end
    end
  end.

(** [Ok None]: no event within that many rounds; the rounds end when the world has
    an event or the stream ends. *)
Fixpoint next_adapter_event (fuel : nat) : stres (BluezAdapterSubscription * W) CoreError (option (option BluetoothAdapterEvent)) :=
  match fuel with
  | O => st_ret None
  | S fuel =>
    let! answer := adapter_event_round in
    match answer with Some answer => st_ret (Some answer) | None => next_adapter_event fuel end
  end.

(** *** Peer events *)

Definition subscribe_peer_events (adapter : AdapterHandle) : stres W CoreError AdapterHandle :=
  let! _ := ensure_bluez_available in
  let! _ := bluez_change_stream in
  let! _ := ensure_adapter_exists adapter in
  st_ret adapter.

Definition peer_event_from_signal (adapter : AdapterHandle) (message : BluezSignal) : stres W CoreError (option BluetoothPeerEvent) :=
  if signal_is OBJECT_MANAGER_INTERFACE INTERFACES_ADDED message then
    let! (path, interfaces) := st_lift (added_body message) in
    if negb (is_device_object_path_for_adapter path adapter) then st_ret None else
    match (interfaces : Interfaces) !! DEVICE_INTERFACE with
    | None => st_ret None
    | Some properties => let! peer := st_lift (peer_from_properties path properties) in st_ret (Some (PeerAdded peer))
    end
  else if signal_is OBJECT_MANAGER_INTERFACE INTERFACES_REMOVED message then
    let! (path, interfaces) := st_lift (removed_body message) in
    if negb (is_device_object_path_for_adapter path adapter) || negb (bool_decide (DEVICE_INTERFACE ∈ interfaces)) then st_ret None else
    let! handle := st_lift (peer_handle_new path) in st_ret (Some (PeerRemoved handle))
  else if signal_is PROPERTIES_INTERFACE PROPERTIES_CHANGED message then
    match sg_path (bs_signal message) with
    | None => st_ret None
    | Some path =>
      if negb (is_device_object_path_for_adapter path adapter) then st_ret None else
      let! (interface, changed, invalidated) := st_lift (changed_body message) in
      if negb (bool_decide (interface = DEVICE_INTERFACE)) || negb (peer_properties_changed changed invalidated) then st_ret None else
      let! peer := fetch_peer adapter path in
      st_ret (PeerChanged <$> peer)
    end
  else st_ret None.

Fixpoint next_peer_event (fuel : nat) (adapter : AdapterHandle) : stres W CoreError (option (option BluetoothPeerEvent)) :=
  match fuel with
  | O => st_ret None
  | S fuel =>
    let! message := bus BluezUnavailable "failed while receiving BlueZ peer changes" next_signal in
    match message with
    | None => st_ret (Some None)
    | Some message =>
      let! event := peer_event_from_signal adapter message in
      match event with Some event => st_ret (Some (Some event)) | None => next_peer_event fuel adapter end
    end
  end.
End operations.

(** ** What the events tell *)

(** What a subscriber makes of the events. *)
Definition apply_adapter_event (known : gmap AdapterHandle BluetoothAdapter) (event : BluetoothAdapterEvent) : gmap AdapterHandle BluetoothAdapter :=
  match event with
  | AdapterAdded a => <[handle a := a]> known
  | AdapterRemoved h => delete h known
  | PoweredChanged h p => <[h := mkAdapter h p]> known
  end.
Definition apply_adapter_events (known : gmap AdapterHandle BluetoothAdapter) (events : list BluetoothAdapterEvent) :
  gmap AdapterHandle BluetoothAdapter := foldl apply_adapter_event known events.

Definition event_handle (event : BluetoothAdapterEvent) : AdapterHandle :=
  match event with AdapterAdded a => handle a | AdapterRemoved h | PoweredChanged h _ => h end.
Definition event_entry (event : BluetoothAdapterEvent) : option BluetoothAdapter :=
  match event with AdapterAdded a => Some a | AdapterRemoved _ => None | PoweredChanged h p => Some (mkAdapter h p) end.

Lemma apply_adapter_event_alter known event :
  apply_adapter_event known event = partial_alter (fun _ => event_entry event) (event_handle event) known.
Proof. by destruct event. Qed.

(** Events of different adapters: each adapter is what its event says, or as before. *)
Lemma lookup_apply_events known events h : NoDup (event_handle <$> events) ->
  apply_adapter_events known events !! h =
    match list_find (fun e => event_handle e = h) events with Some (_, e) => event_entry e | None => known !! h end.
Proof.
  unfold apply_adapter_events. revert known. induction events as [|e events IH]; intros known Hnd; [done|].
  apply NoDup_cons in Hnd as [Hin Hnd]. cbn [foldl list_find]. rewrite IH, apply_adapter_event_alter by done. case_decide as He.
  - subst h. rewrite (proj2 (list_find_None _ _)); [by rewrite lookup_partial_alter_eq|].
    apply Forall_forall. intros e' He' Heq. apply Hin. rewrite <- Heq. by apply list_elem_of_fmap_2.
  - destruct (list_find _ events) as [[i e']|]; [done|]. cbn. by rewrite lookup_partial_alter_ne.
Qed.

Lemma adapters_by_handle_keyed l h a : adapters_by_handle l !! h = Some a -> handle a = h.
Proof.
  unfold adapters_by_handle, insert_all. enough (forall acc : gmap AdapterHandle BluetoothAdapter,
    (forall h a, acc !! h = Some a -> handle a = h) ->
    foldl (fun acc kv => <[kv.1 := kv.2]> acc) acc ((fun a => (handle a, a)) <$> l) !! h = Some a -> handle a = h) as Hgen.
  { apply Hgen. intros h' a'. by rewrite lookup_empty. }
  induction l as [|x l IH]; intros acc Hacc; [apply Hacc|]. apply IH. intros h' a'. cbn.
  intros [[<- <-]|[_ Ha]]%lookup_insert_Some; [done | by apply Hacc].
Qed.

Lemma adapters_by_handle_ext l h a b : adapters_by_handle l !! h = Some a -> handle b = h -> powered a = powered b -> a = b.
Proof. intros Ha%adapters_by_handle_keyed Hb Hp. destruct a, b; simpl in *; congruence. Qed.

(** An omap that keeps keys keeps them distinct. *)
Lemma NoDup_omap_keys {A B K : Type} (f : A -> option B) (k : A -> K) (g : B -> K) (l : list A) :
  (forall x y, x ∈ l -> f x = Some y -> g y = k x) -> NoDup (k <$> l) -> NoDup (g <$> omap f l).
Proof.
  induction l as [|x l IH]; intros Hf; [constructor|]. cbn. intros [Hin Hnd]%NoDup_cons.
  assert (NoDup (g <$> omap f l)) as Hrest by (apply IH; [intros; apply Hf; [by right|done]|done]).
  destruct (f x) as [y|] eqn:Hy; [|done]. cbn. apply NoDup_cons; split; [|done].
  rewrite (Hf x y) by (done || by left). contradict Hin. apply list_elem_of_fmap in Hin as (y' & Heq & (x' & Hx' & Hf')%list_elem_of_omap).
  rewrite Heq, (Hf x' y') by (done || by right). by apply list_elem_of_fmap_2.
Qed.

Lemma diff_elem previous current event : event ∈ diff_adapter_snapshots previous current <->
  let p := adapters_by_handle previous in let c := adapters_by_handle current in
  match event with
  | AdapterAdded a => p !! handle a = None /\ c !! handle a = Some a
  | AdapterRemoved h => is_Some (p !! h) /\ c !! h = None
  | PoweredChanged h b => exists old new, p !! h = Some old /\ c !! h = Some new /\ powered old <> powered new /\ b = powered new
  end.
Proof.
  unfold diff_adapter_snapshots. rewrite elem_of_app, !list_elem_of_omap. cbn. split.
  - intros [([h old] & Hin%elem_of_iter_map & He)|([h a] & Hin%elem_of_iter_map & He)].
    + destruct (adapters_by_handle current !! h) as [new|] eqn:Hc; [|by injection He as <-].
      destruct (Bool.eqb _ _) eqn:Hb; [done|]. injection He as <-. exists old, new. split_and!; try done. by apply eqb_false_iff.
    + destruct (adapters_by_handle previous !! h) eqn:Hp; [done|]. injection He as <-.
      by rewrite (adapters_by_handle_keyed _ _ _ Hin).
  - destruct event as [a|h|h b].
    + intros [Hp Hc]. right. exists (handle a, a). split; [by apply elem_of_iter_map|]. by rewrite Hp.
    + intros [[old Hp] Hc]. left. exists (h, old). split; [by apply elem_of_iter_map|]. by rewrite Hc.
    + intros (old & new & Hp & Hc & Hne & ->). left. exists (h, old). split; [by apply elem_of_iter_map|].
      rewrite Hc. by rewrite (proj2 (eqb_false_iff _ _)).
Qed.

Lemma diff_handles_NoDup previous current : NoDup (event_handle <$> diff_adapter_snapshots previous current).
Proof.
  unfold diff_adapter_snapshots. rewrite fmap_app. apply NoDup_app. split_and!.
  - apply (NoDup_omap_keys _ fst); [|apply NoDup_keys]. intros [h old] e _ He.
    destruct (_ !! h) as [new|]; [destruct (negb _); [|done]|]; by injection He as <-.
  - intros h (e & -> & He)%list_elem_of_fmap (e' & Heq & He')%list_elem_of_fmap.
    apply list_elem_of_omap in He as ([h old] & Hin%elem_of_iter_map & He), He' as ([h' a] & Hin'%elem_of_iter_map & He').
    destruct (adapters_by_handle previous !! h') eqn:Hp; [done|]. injection He' as <-. cbn in Heq.
    rewrite (adapters_by_handle_keyed _ _ _ Hin') in Heq.
    destruct (adapters_by_handle current !! h); [destruct (negb _); [|done]|]; injection He as <-; cbn in Heq; congruence.
  - apply (NoDup_omap_keys _ fst); [|apply NoDup_keys]. intros [h a] e Hin%elem_of_iter_map He.
    destruct (adapters_by_handle previous !! h) eqn:Hp; [done|]. injection He as <-. by eapply adapters_by_handle_keyed.
Qed.

Lemma adapter_diff_replays previous current :
  apply_adapter_events (adapters_by_handle previous) (diff_adapter_snapshots previous current) = adapters_by_handle current.
Proof.
  apply map_eq. intros h. rewrite lookup_apply_events by apply diff_handles_NoDup.
  destruct (list_find _ _) as [[i e]|] eqn:Hf.
  - apply list_find_Some in Hf as (Hi & <- & _). apply list_elem_of_lookup_2, diff_elem in Hi. cbn in Hi.
    destruct e as [a|h|h b]; cbn.
    + by destruct Hi as [_ ->].
    + by destruct Hi as [_ ->].
    + destruct Hi as (old & new & _ & Hc & _ & ->). rewrite Hc. f_equal. symmetry. by eapply adapters_by_handle_ext.
  - apply list_find_None in Hf. rewrite Forall_forall in Hf.
    assert (forall e, event_handle e = h -> e ∉ diff_adapter_snapshots previous current) as Hno by (intros e He Hin; by apply (Hf e)).
    destruct (adapters_by_handle previous !! h) as [old|] eqn:Hp, (adapters_by_handle current !! h) as [new|] eqn:Hc; [..|done].
    + f_equal. destruct (decide (powered old = powered new)) as [Heq|Hne].
      * eapply adapters_by_handle_ext; [done | by eapply adapters_by_handle_keyed | done].
      * destruct (Hno (PoweredChanged h (powered new))); [done|]. apply diff_elem. by exists old, new.
    + destruct (Hno (AdapterRemoved h)); [done|]. apply diff_elem. cbn. by rewrite Hp, Hc.
    + pose proof (adapters_by_handle_keyed _ _ _ Hc) as Hk. destruct (Hno (AdapterAdded new)); [done|]. apply diff_elem. cbn. by rewrite Hk.
Qed.

(** ** A subscriber in step *)

Section subscriber.
Context {W : Type} `{SystemBus W} `{BluezObjectBus W}.

(** Calls of [next_event] one after the other, a call that fails being followed by
    the next: the events they answer. *)
Fixpoint poll_adapter_events (calls : list nat) (σ : BluezAdapterSubscription * W) : list BluetoothAdapterEvent * (BluezAdapterSubscription * W) :=
  match calls with
  | [] => ([], σ)
  | fuel :: calls =>
    let (answer, σ) := next_adapter_event fuel σ in
    let (events, σ) := poll_adapter_events calls σ in
    (match answer with Ok (Some (Some event)) => event :: events | _ => events end, σ)
  end.

(** What the subscriber knows, once the events still pending are told, is the snapshot. *)
Definition in_step (known : gmap AdapterHandle BluetoothAdapter) (s : BluezAdapterSubscription) : Prop :=
  apply_adapter_events known (as_pending s) = adapters_by_handle (as_snapshot s).
(** The snapshot is the first one, or one that was enumerated. *)
Definition enumerated (first : list BluetoothAdapter) (s : BluezAdapterSubscription) : Prop :=
  as_snapshot s = first \/ exists w w' : W, enumerate_adapters w = (Ok (as_snapshot s), w').

Lemma adapter_round_in_step known first s w r s' w' : adapter_event_round (s, w) = (r, (s', w')) ->
  in_step known s -> enumerated first s ->
  in_step (match r with Ok (Some (Some e)) => apply_adapter_event known e | _ => known end) s' /\ enumerated first s'.
Proof.
  unfold in_step, enumerated, adapter_event_round. destruct (as_pending s) as [|e pending] eqn:Hp.
  2:{ intros [= <- <- <-] Hs He. done. }
  destruct (bus _ _ _ w) as [[[message|]|e] w1]; [|by intros [= <- <- <-]; rewrite Hp..].
  destruct (is_adapter_change_signal message) as [[]|e]; [|by intros [= <- <- <-]; rewrite Hp..].
  destruct (enumerate_adapters w1) as [[next|e] w2] eqn:Hen; [|by intros [= <- <- <-]; rewrite Hp].
  intros [= <- <- <-] Hs _. cbn in Hs |- *. rewrite Hs. split; [apply adapter_diff_replays|]. right. eauto.
Qed.

Lemma next_adapter_event_in_step fuel known first s w r s' w' : next_adapter_event fuel (s, w) = (r, (s', w')) ->
  in_step known s -> enumerated first s ->
  in_step (match r with Ok (Some (Some e)) => apply_adapter_event known e | _ => known end) s' /\ enumerated first s'.
Proof.
  revert s w. induction fuel as [|fuel IH]; intros s w; cbn [next_adapter_event]; [by intros [= <- <- <-]|].
  unfold st_bind. destruct (adapter_event_round (s, w)) as [r1 [s1 w1]] eqn:Hr. intros Hn Hs He.
  destruct (adapter_round_in_step known first s w r1 s1 w1 Hr Hs He) as [Hs1 He1].
  destruct r1 as [[answer|]|e]; [by injection Hn as <- <- <- | by eapply IH | by injection Hn as <- <- <-].
Qed.

(** Whatever BlueZ signals and answers, a subscriber that applies every adapter
    event it is told to the adapters it knew has, with the events still pending, the
    adapters of the snapshot; the snapshot is the one taken on subscribing or a later
    enumeration. *)
Theorem adapter_events_replay (calls : list nat) (snapshot : list BluetoothAdapter) (w : W) :
  let (events, σ) := poll_adapter_events calls (mkAdapterSubscription snapshot [], w) in
  in_step (apply_adapter_events (adapters_by_handle snapshot) events) σ.1 /\ enumerated snapshot σ.1.
Proof.
  enough (forall s w known, in_step known s -> enumerated snapshot s ->
    let (events, σ) := poll_adapter_events calls (s, w) in
    in_step (apply_adapter_events known events) σ.1 /\ enumerated snapshot σ.1) as Hgen by (apply Hgen; [done|by left]).
  induction calls as [|fuel calls IH]; intros s w0 known Hs He; [done|]. cbn [poll_adapter_events].
  destruct (next_adapter_event fuel (s, w0)) as [r [s1 w1]] eqn:Hr.
  destruct (next_adapter_event_in_step _ _ _ _ _ _ _ _ Hr Hs He) as [Hs1 He1].
  specialize (IH s1 w1 _ Hs1 He1). destruct (poll_adapter_events calls (s1, w1)) as [events σ].
  by destruct r as [[[e|]|]|e].
Qed.
End subscriber.

(** ** What a listing holds *)

(** Objects that contribute at most one entry each, whose key tells the object. *)
Section listing.
Context {A K : Type} `{RustOrd K} (of_object : list Z * Interfaces -> CoreResult (option A)) (key : A -> K) (of_path : list Z -> K).
Context (le : relation A) `{!RelDecision le} (Hle : forall x y, le x y <-> key x ≤ᵣ key y).
Context (Hpath : forall p q, of_path p = of_path q -> p = q).
Context (Hkey : forall o a, of_object o = Ok (Some a) -> key a = of_path o.1).

Definition listing (objects : ManagedObjects) : CoreResult (list A) :=
  found ← try_map of_object objects; Ok (merge_sort le (omap id found)).

#[local] Instance le_transitive : Transitive le.
Proof. intros x y z. rewrite !Hle. apply ord_le_trans. Qed.
#[local] Instance le_total : Total le.
Proof. intros x y. rewrite !Hle. apply (total ord_le). Qed.

Lemma found_keys_NoDup objects found : NoDup objects.*1 -> try_map of_object objects = Ok found -> NoDup (key <$> omap id found).
Proof.
  intros Hnd Hf%try_map_Ok. induction Hf as [|o r objects found Ho Hf IH]; [constructor|].
  apply NoDup_cons in Hnd as [Hin Hnd]. specialize (IH Hnd). destruct r as [a|]; [|exact IH]. cbn. apply NoDup_cons; split; [|done].
  rewrite (Hkey _ _ Ho). contradict Hin. apply list_elem_of_fmap in Hin as (a' & Ha & (r & Hr & Hid)%list_elem_of_omap).
  apply list_elem_of_lookup_1 in Hr as [i Hi]. destruct (Forall2_lookup_r _ _ _ _ _ Hf Hi) as (o' & Ho' & Hf').
  cbn in Hid. subst r. rewrite (Hkey _ _ Hf') in Ha. apply Hpath in Ha as ->.
  by apply list_elem_of_fmap_2, list_elem_of_lookup_2 with i.
Qed.

Lemma listing_elem objects l a : listing objects = Ok l -> a ∈ l <-> exists o, o ∈ objects /\ of_object o = Ok (Some a).
Proof.
  intros (found & Hf%try_map_Ok & [= <-])%result_bind_Ok. rewrite merge_sort_Permutation, list_elem_of_omap. split.
  - intros (r & [i Hi]%list_elem_of_lookup_1 & Hid). cbn in Hid. subst r.
    destruct (Forall2_lookup_r _ _ _ _ _ Hf Hi) as (o & Ho & Hr). exists o. split; [by eapply list_elem_of_lookup_2 | done].
  - intros (o & [i Hi]%list_elem_of_lookup_1 & Ho). destruct (Forall2_lookup_l _ _ _ _ _ Hf Hi) as (r & Hr & Heq).
    exists r. split; [by eapply list_elem_of_lookup_2 | unfold id in *; cbn in Heq; congruence].
Qed.

Lemma listing_keys_NoDup objects l : NoDup objects.*1 -> listing objects = Ok l -> NoDup (key <$> l).
Proof.
  intros Hnd (found & Hf & [= <-])%result_bind_Ok. rewrite merge_sort_Permutation. by eapply found_keys_NoDup.
Qed.

(** The order of the objects does not matter. *)
Lemma listing_perm objects objects' l : NoDup objects.*1 -> objects ≡ₚ objects' -> listing objects = Ok l -> listing objects' = Ok l.
Proof.
  intros Hnd Hperm Hl. pose proof (listing_keys_NoDup _ _ Hnd Hl) as Hk. unfold listing in *.
  apply result_bind_Ok in Hl as (found & Hf%try_map_Ok & [= <-]).
  destruct (Permutation_Forall2 Hperm Hf) as (found' & Hperm' & Hf').
  apply try_map_Ok in Hf'. rewrite Hf'. cbn. f_equal.
  apply (StronglySorted_unique_strong le).
  - intros x y Hx Hy H1%Hle H2%Hle.
    assert (key x = key y) as Heq by (by apply (anti_symm ord_le)).
    rewrite merge_sort_Permutation, <- Hperm' in Hx. rewrite merge_sort_Permutation in Hy, Hk.
    apply list_elem_of_lookup_1 in Hx as [i Hi], Hy as [j Hj].
    assert (i = j) as ->; [|congruence]. eapply (NoDup_lookup _ i j _ Hk); rewrite list_lookup_fmap.
    + by rewrite Hi.
    + by rewrite Hj, Heq.
  - apply (StronglySorted_merge_sort _).
  - apply (StronglySorted_merge_sort _).
  - by rewrite !merge_sort_Permutation, Hperm'.
Qed.

Lemma listing_sorted objects l : listing objects = Ok l -> StronglySorted le l.
Proof. intros (found & Hf & [= <-])%result_bind_Ok. apply (StronglySorted_merge_sort _). Qed.
End listing.

Lemma peer_handle_new_path path h : peer_handle_new path = Ok h -> h = mkPeerHandle path.
Proof. unfold peer_handle_new. by intros [_ [= <-]]%guard_err_Ok. Qed.
Lemma peer_of_object_handle adapter o p : peer_of_object adapter o = Ok (Some p) -> dp_handle p = mkPeerHandle o.1.
Proof.
  unfold peer_of_object. destruct (negb _); [done|]. destruct (o.2 !! _) as [properties|]; [|done].
  intros (p' & Hp & [= ->])%result_bind_Ok. unfold peer_from_properties in Hp.
  repeat apply result_bind_Ok in Hp as (? & ? & Hp). injection Hp as <-. by apply peer_handle_new_path.
Qed.
Lemma adapter_of_object_handle o a : adapter_of_object o = Ok (Some a) -> handle a = mkAdapterHandle o.1.
Proof.
  unfold adapter_of_object. destruct (o.2 !! _) as [properties|]; [|done].
  intros (v & _ & (b & _ & (h & Hh & [= <-])%result_bind_Ok)%result_bind_Ok)%result_bind_Ok.
  unfold adapter_handle_new in Hh. by apply guard_err_Ok in Hh as [_ [= <-]].
Qed.

Theorem adapters_listed_exact (objects : ManagedObjects) (l : list BluetoothAdapter) (Hnd : NoDup objects.*1)
    (Hl : adapters_from_managed_objects objects = Ok l) :
  NoDup (handle <$> l) /\ StronglySorted adapter_le l /\
  (forall a, a ∈ l <-> exists o, o ∈ objects /\ adapter_of_object o = Ok (Some a)) /\
  (forall objects', objects ≡ₚ objects' -> adapters_from_managed_objects objects' = Ok l).
Proof.
  assert (forall p q, mkAdapterHandle p = mkAdapterHandle q -> p = q) as Hpath by congruence. split_and!.
  - by apply (listing_keys_NoDup adapter_of_object handle mkAdapterHandle adapter_le Hpath adapter_of_object_handle objects).
  - by apply (listing_sorted adapter_of_object handle adapter_le (fun _ _ => iff_refl _) objects).
  - intros a. by apply (listing_elem adapter_of_object adapter_le).
  - intros objects' Hperm.
    by apply (listing_perm adapter_of_object handle mkAdapterHandle adapter_le (fun _ _ => iff_refl _) Hpath adapter_of_object_handle objects).
Qed.

(** The peers listed for an adapter are one for each object of BlueZ whose path
    is a device directly under that adapter's and that has the device interface, read
    from its properties and sorted by handle; the order in which BlueZ gives the
    objects does not matter. *)
Theorem peers_listed_exact (objects : ManagedObjects) (adapter : AdapterHandle) (l : list DiscoveredPeer) (Hnd : NoDup objects.*1)
    (Hl : peers_from_managed_objects objects adapter = Ok l) :
  NoDup (dp_handle <$> l) /\ StronglySorted peer_le l /\
  (forall p, p ∈ l <-> exists path interfaces properties, (path, interfaces) ∈ objects /\
    is_device_object_path_for_adapter path adapter = true /\ (interfaces : Interfaces) !! DEVICE_INTERFACE = Some properties /\
    peer_from_properties path properties = Ok p) /\
  (forall objects', objects ≡ₚ objects' -> peers_from_managed_objects objects' adapter = Ok l).
Proof.
  assert (forall p q, mkPeerHandle p = mkPeerHandle q -> p = q) as Hpath by congruence. split_and!.
  - by apply (listing_keys_NoDup (peer_of_object adapter) dp_handle mkPeerHandle peer_le Hpath (peer_of_object_handle adapter) objects).
  - by apply (listing_sorted (peer_of_object adapter) dp_handle peer_le (fun _ _ => iff_refl _) objects).
  - intros p. rewrite (listing_elem (peer_of_object adapter) peer_le objects l p Hl). unfold peer_of_object. split.
    + intros ([path interfaces] & Hin & Ho). cbn in Ho. destruct (is_device_object_path_for_adapter path adapter) eqn:Hd; [|done].
      cbn in Ho. destruct (interfaces !! DEVICE_INTERFACE) as [properties|] eqn:Hi; [|done].
      apply result_bind_Ok in Ho as (p' & Hp & [= ->]). by exists path, interfaces, properties.
    + intros (path & interfaces & properties & Hin & Hd & Hi & Hp). exists (path, interfaces). split; [done|].
      cbn. by rewrite Hd, Hi, Hp.
  - intros objects' Hperm.
    by apply (listing_perm (peer_of_object adapter) dp_handle mkPeerHandle peer_le (fun _ _ => iff_refl _) Hpath (peer_of_object_handle adapter) objects).
Qed.

(** Two devices of one adapter, out of order, one of another, and the adapter itself. *)
Module objects_demo.
Definition yes : OwnedValue := mkOwnedValue (Ok true) (Err "incorrect type").
Definition text (s : string) : OwnedValue := mkOwnedValue (Err "incorrect type") (Ok (code_points s)).
Definition device (alias : string) : Interfaces :=
  {[DEVICE_INTERFACE := <[PAIRED_PROPERTY := yes]> (<[TRUSTED_PROPERTY := yes]> {[ALIAS_PROPERTY := text alias]})]}.
Definition objects : ManagedObjects :=
  [(code_points "/org/bluez/hci0/dev_22", device "two"); (code_points "/org/bluez/hci1/dev_33", device "three");
   (code_points "/org/bluez/hci0/dev_11", device "  "); (code_points "/org/bluez/hci0", {[ADAPTER_INTERFACE := {[POWERED_PROPERTY := yes]}]})].
Definition hci0 : AdapterHandle := mkAdapterHandle (code_points "/org/bluez/hci0").
Definition listed : list DiscoveredPeer :=
  [mkDiscoveredPeer (mkPeerHandle (code_points "/org/bluez/hci0/dev_11")) None true true;
   mkDiscoveredPeer (mkPeerHandle (code_points "/org/bluez/hci0/dev_22")) (Some (code_points "two")) true true].
End objects_demo.

Lemma peers_listed_exact_witness :
  NoDup objects_demo.objects.*1 /\ peers_from_managed_objects objects_demo.objects objects_demo.hci0 = Ok objects_demo.listed /\
  peers_from_managed_objects (reverse objects_demo.objects) objects_demo.hci0 = Ok objects_demo.listed.
Proof.
  assert (NoDup objects_demo.objects.*1) as Hnd by (apply (bool_decide_unpack _); vm_compute; exact I).
  assert (peers_from_managed_objects objects_demo.objects objects_demo.hci0 = Ok objects_demo.listed) as Hl by (vm_compute; reflexivity).
  split_and!; [exact Hnd | exact Hl |].
  destruct (peers_listed_exact objects_demo.objects objects_demo.hci0 objects_demo.listed Hnd Hl) as (_ & _ & _ & Hperm).
  apply Hperm. symmetry. apply reverse_Permutation.
Defined.
