(* ===== verification/BluezPairing.v ===== *)
(** Pairing, of [crates/blueroute-linux/src/bluez.rs]: who may be paired when, the
    agent that answers BlueZ, the window for incoming pairings, and trust.

    Further calls on the world of [SystemBus] are behind [PairingBus].  The lock of
    the record is never poisoned; the path of the agent is well formed. *)

From stdpp Require Import gmap.
From S2P Require Import Prelude Order Ident StateText Routes LinuxRoutes StarHost JoinNetwork TlsIdentity NapServer PanuLink BluezObjects.

(** ** The record *)

Record PairingControl := mkPairingControl { active_peer : option (list Z); incoming_adapter : option (list Z) }.
#[global] Instance PairingControl_eq_dec : EqDecision PairingControl.
Proof. solve_decision. Defined.
Definition pairing_idle : PairingControl := mkPairingControl None None.

Definition already_pairing : CoreError := core_error InvalidState "another Bluetooth pairing operation is already active".
Definition pairing_busy (c : PairingControl) : bool :=
  bool_decide (is_Some (active_peer c)) || bool_decide (is_Some (incoming_adapter c)).

Definition begin_pairing (peer : PeerHandle) (c : PairingControl) : CoreResult PairingControl :=
  guard_err (pairing_busy c) already_pairing (Ok (mkPairingControl (Some (peer_str peer)) (incoming_adapter c))).

(** The drop of a [PairingPermit]. *)
Definition drop_permit (peer : PeerHandle) (c : PairingControl) : PairingControl :=
  if bool_decide (active_peer c = Some (peer_str peer)) then mkPairingControl None (incoming_adapter c) else c.

Definition begin_incoming (adapter : AdapterHandle) (c : PairingControl) : CoreResult PairingControl :=
  guard_err (pairing_busy c) already_pairing (Ok (mkPairingControl (active_peer c) (Some (adapter_str adapter)))).

Definition window_inactive : CoreError :=
  core_error InvalidState "incoming Bluetooth pairing window is not active for this adapter".
Definition end_incoming (adapter : AdapterHandle) (c : PairingControl) : CoreResult PairingControl :=
  guard_err (negb (bool_decide (incoming_adapter c = Some (adapter_str adapter)))) window_inactive
    (Ok (mkPairingControl (active_peer c) None)).

Definition clear_incoming (adapter : AdapterHandle) (c : PairingControl) : PairingControl :=
  if bool_decide (incoming_adapter c = Some (adapter_str adapter)) then mkPairingControl (active_peer c) None else c.

Definition authorizes (device : list Z) (c : PairingControl) : bool :=
  bool_decide (active_peer c = Some device) ||
  match incoming_adapter c with Some adapter => is_device_object_path_for_adapter_path device adapter | None => false end.

(** ** The agent *)

(** [PairingAgentError::Rejected]. *)
Inductive PairingAgentError := Rejected (m : string).

Definition require_authorized (device : list Z) (c : PairingControl) : result PairingAgentError () :=
  if authorizes device c then Ok () else Err (Rejected "BlueRoute did not authorize this pairing request").

(** What BlueZ may call, with the answer's value; none of them changes the record. *)
Inductive AgentRequest : Type -> Type :=
| Release : AgentRequest ()
| RequestPinCode (device : list Z) : AgentRequest (list Z)
| DisplayPinCode (device pin_code : list Z) : AgentRequest ()
| RequestPasskey (device : list Z) : AgentRequest Z
| DisplayPasskey (device : list Z) (passkey entered : Z) : AgentRequest ()
| RequestConfirmation (device : list Z) (passkey : Z) : AgentRequest ()
| RequestAuthorization (device : list Z) : AgentRequest ()
| AuthorizeService (device uuid : list Z) : AgentRequest ()
| Cancel : AgentRequest ().

Definition agent_answer {A : Type} (request : AgentRequest A) (c : PairingControl) : result PairingAgentError A :=
  match request in AgentRequest A return result PairingAgentError A with
  | Release | DisplayPinCode _ _ | DisplayPasskey _ _ _ | Cancel => Ok ()
  | RequestPinCode device =>
    _ ← require_authorized device c; Err (Rejected "BlueRoute NoInputNoOutput pairing cannot provide a PIN code")
  | RequestPasskey device =>
    _ ← require_authorized device c; Err (Rejected "BlueRoute NoInputNoOutput pairing cannot provide a passkey")
  | RequestConfirmation device _ =>
    _ ← require_authorized device c; Err (Rejected "BlueRoute NoInputNoOutput pairing cannot confirm a displayed passkey")
  | RequestAuthorization device | AuthorizeService device _ => require_authorized device c
  end.

(** ** Errors *)

(** [zbus::fdo::Error], of a property that is set. *)
Inductive PropertyError := UnknownObject (text : string) | AccessDenied (text : string) | AuthFailed (text : string) | PropertyFailure (text : string).
Definition property_text (e : PropertyError) : string := match e with UnknownObject t | AccessDenied t | AuthFailed t | PropertyFailure t => t end.

(** [zbus::Error], of [Pair]: [NoAnswer] is [NoReply], [TimedOut] or [Timeout] of the
    bus. *)
Inductive PairError := PairBus (e : BusError) | NoAnswer (text : string).
Definition pair_error_text (e : PairError) : string := match e with PairBus e => bus_text e | NoAnswer t => t end.

Class PairingBus (W : Type) := {
  (** The agent is served at a path. *)
  serve_at : string -> stres W BusError ();
  set_bool : Proxy -> string -> bool -> stres W PropertyError ();
  (** [Pair], raced with a timer; [None]: the timer ended first. *)
  pair_or_timeout : Proxy -> Z -> stres W PairError (option ());
}.

Definition AGENT_MANAGER_INTERFACE : string := "org.bluez.AgentManager1".
Definition BLUEZ_AGENT_MANAGER_PATH : string := "/org/bluez".
Definition REGISTER_AGENT_METHOD : string := "RegisterAgent".
Definition UNREGISTER_AGENT_METHOD : string := "UnregisterAgent".
Definition REQUEST_DEFAULT_AGENT_METHOD : string := "RequestDefaultAgent".
Definition CANCEL_PAIRING_METHOD : string := "CancelPairing".
Definition PAIRING_AGENT_PATH : string := "/org/blueroute/PairingAgent".
Definition PAIRING_AGENT_CAPABILITY : string := "NoInputNoOutput".
Definition PAIRABLE_PROPERTY : string := "Pairable".
Definition DISCOVERABLE_PROPERTY : string := "Discoverable".
Definition PAIRING_TIMEOUT : Z := 60000.

Definition pairing_agent_registration_error (operation text : string) : CoreError :=
  core_error_with_diagnostic CapabilityUnavailable ("failed to " ++ operation) text.

Definition incoming_pairing_property_error (operation : string) (e : PropertyError) : CoreError :=
  let k := match e with
    | UnknownObject _ => MissingAdapter | AccessDenied _ | AuthFailed _ => AuthenticationFailed | PropertyFailure _ => CapabilityUnavailable
    end in core_error_with_diagnostic k ("failed to " ++ operation) (property_text e).

Definition object_is_gone (name : string) : bool :=
  bool_decide (name ∈ ["org.bluez.Error.DoesNotExist"; "org.freedesktop.DBus.Error.UnknownObject"]).
Definition access_is_denied (name : string) : bool :=
  bool_decide (name ∈ ["org.bluez.Error.NotAuthorized"; "org.freedesktop.DBus.Error.AccessDenied"]).

Definition incoming_pairing_error (operation : string) (e : BusError) : CoreError :=
  let k := match method_error_name e with
    | Some name => if object_is_gone name then MissingAdapter else if access_is_denied name then AuthenticationFailed else CapabilityUnavailable
    | None => CapabilityUnavailable
    end in core_error_with_diagnostic k ("failed to " ++ operation) (bus_text e).

Definition pairing_timeout_error : CoreError := core_error PairingFailed "Bluetooth pairing timed out".

Definition pairing_method_error (name : string) : ErrorKind * string :=
  if bool_decide (name = "org.bluez.Error.AuthenticationRejected") then (AuthenticationFailed, "Bluetooth pairing was rejected")
  else if bool_decide (name = "org.bluez.Error.AuthenticationCanceled") then (AuthenticationFailed, "Bluetooth pairing was canceled")
  else if bool_decide (name = "org.bluez.Error.AuthenticationFailed") then (AuthenticationFailed, "Bluetooth authentication failed")
  else if bool_decide (name = "org.bluez.Error.AuthenticationTimeout") then (PairingFailed, "Bluetooth pairing timed out")
  else if bool_decide (name = "org.bluez.Error.ConnectionAttemptFailed") then (PairingFailed, "Bluetooth connection attempt failed")
  else if bool_decide (name = "org.bluez.Error.InvalidArguments") then (InvalidInput, "Bluetooth pairing request is invalid")
  else if bool_decide (name = "org.bluez.Error.InProgress") then (InvalidState, "Bluetooth pairing is already in progress")
  else if object_is_gone name then (InvalidState, "Bluetooth peer is no longer available")
  else (PairingFailed, "Bluetooth pairing failed").

Definition pairing_error (e : PairError) : CoreError :=
  let (k, m) := match e with
    | PairBus e => match method_error_name e with Some name => pairing_method_error name | None => (PairingFailed, "Bluetooth pairing failed") end
    | NoAnswer _ => (PairingFailed, "Bluetooth pairing timed out")
    end in core_error_with_diagnostic k m (pair_error_text e).

Definition trust_property_error (e : PropertyError) : CoreError :=
  let k := match e with UnknownObject _ => InvalidState | _ => AuthenticationFailed end in
  core_error_with_diagnostic k "failed to change Bluetooth trust state" (property_text e).

Definition trust_error (e : BusError) : CoreError :=
  let k := match method_error_name e with
    | Some name => if object_is_gone name then InvalidState else AuthenticationFailed
    | None => AuthenticationFailed
    end in core_error_with_diagnostic k "failed to change Bluetooth trust state" (bus_text e).

(** ** The operations *)

Record IncomingPairingWindow := mkWindow { win_adapter : AdapterHandle; restore_discoverable : bool; restore_pairable : bool }.

Section operations.
Context {W : Type} `{SystemBus W} `{BluezObjectBus W} `{PairingBus W}.

Definition agent_manager : Proxy := mkProxy (code_points BLUEZ_SERVICE) (code_points BLUEZ_AGENT_MANAGER_PATH) AGENT_MANAGER_INTERFACE.
Definition registration (operation : string) {A : Type} (m : stres W BusError A) : stres W CoreError A :=
  st_map_err (fun e => pairing_agent_registration_error operation (bus_text e)) m.

(** A call to the agent manager, where one error name counts as success. *)
Definition agent_manager_call (method operation : string) (arguments : list (list Z)) (accepted : option string) : stres W CoreError () :=
  let! _ := registration "create the BlueZ agent-manager proxy" (proxy_new agent_manager) in fun w =>
  match call_method agent_manager method arguments w with
  | (Ok _, w) => (Ok (), w)
  | (Err e, w) => ((if bool_decide (is_Some accepted) && bool_decide (method_error_name e = accepted) then Ok ()
      else Err (pairing_agent_registration_error operation (bus_text e))), w)
  end.

Definition ensure_pairing_agent : stres W CoreError () :=
  let! _ := registration "serve the BlueRoute pairing agent" (serve_at PAIRING_AGENT_PATH) in
  agent_manager_call REGISTER_AGENT_METHOD "register the BlueRoute pairing agent"
    [code_points PAIRING_AGENT_PATH; code_points PAIRING_AGENT_CAPABILITY] (Some "org.bluez.Error.AlreadyExists").

Definition request_default_pairing_agent : stres W CoreError () :=
  agent_manager_call REQUEST_DEFAULT_AGENT_METHOD "make the BlueRoute pairing agent the default" [code_points PAIRING_AGENT_PATH] None.

Definition unregister_pairing_agent : stres W CoreError () :=
  agent_manager_call UNREGISTER_AGENT_METHOD "unregister the BlueRoute pairing agent" [code_points PAIRING_AGENT_PATH]
    (Some "org.bluez.Error.DoesNotExist").

Definition on_world {A : Type} (m : stres W CoreError A) : stres (PairingControl * W) CoreError A := fun '(c, w) =>
  let (r, w) := m w in (r, (c, w)).
Definition on_pairing (f : PairingControl -> CoreResult PairingControl) : stres (PairingControl * W) CoreError () := fun '(c, w) =>
  match f c with Ok c => (Ok (), (c, w)) | Err e => (Err e, (c, w)) end.

Definition adapter_proxy (adapter : AdapterHandle) : Proxy := mkProxy (code_points BLUEZ_SERVICE) (adapter_str adapter) ADAPTER_INTERFACE.
Definition peer_proxy (peer : PeerHandle) : Proxy := mkProxy (code_points BLUEZ_SERVICE) (peer_str peer) DEVICE_INTERFACE.

(** Once the record says the window is opening; the states to restore were read. *)
Definition open_window (adapter : AdapterHandle) (restore_pairable restore_discoverable : bool) :
    stres (PairingControl * W) CoreError IncomingPairingWindow := fun '(c, w) =>
  match request_default_pairing_agent w with
  | (Err e, w) => (Err e, (clear_incoming adapter c, w))
  | (Ok _, w) =>
    match set_bool (adapter_proxy adapter) PAIRABLE_PROPERTY true w with
    | (Err e, w) =>
      let (_, w) := unregister_pairing_agent w in
      (Err (incoming_pairing_property_error "enable Bluetooth Pairable state" e), (clear_incoming adapter c, w))
    | (Ok _, w) =>
      match set_bool (adapter_proxy adapter) DISCOVERABLE_PROPERTY true w with
      | (Err e, w) =>
        let (_, w) := set_bool (adapter_proxy adapter) PAIRABLE_PROPERTY restore_pairable w in
        let (_, w) := unregister_pairing_agent w in
        (Err (incoming_pairing_property_error "enable Bluetooth Discoverable state" e), (clear_incoming adapter c, w))
      | (Ok _, w) => (Ok (mkWindow adapter restore_discoverable restore_pairable), (c, w))
      end
    end
  end.

Definition begin_incoming_pairing (adapter : AdapterHandle) : stres (PairingControl * W) CoreError IncomingPairingWindow :=
  let! current := on_world (ensure_adapter_exists adapter) in
  if negb (powered current) then
    st_fail (core_error AdapterDisabled "Bluetooth adapter must be powered before incoming pairing can start")
  else
    let proxy := adapter_proxy adapter in
    let! _ := on_world (st_map_err (incoming_pairing_error "create the Bluetooth adapter proxy") (proxy_new proxy)) in
    let! restore_pairable := on_world (st_map_err (incoming_pairing_error "read Bluetooth Pairable state") (get_bool proxy PAIRABLE_PROPERTY)) in
    let! restore_discoverable := on_world (st_map_err (incoming_pairing_error "read Bluetooth Discoverable state") (get_bool proxy DISCOVERABLE_PROPERTY)) in
    let! _ := on_world ensure_pairing_agent in
    let! _ := on_pairing (begin_incoming adapter) in
    open_window adapter restore_pairable restore_discoverable.

(** The first of two errors. *)
Definition first_error (e : option CoreError) (r : CoreResult ()) : option CoreError :=
  match e, r with None, Err e => Some e | _, _ => e end.

Definition restore_adapter (window : IncomingPairingWindow) : W -> option CoreError * W := fun w =>
  let proxy := adapter_proxy (win_adapter window) in
  match proxy_new proxy w with
  | (Err e, w) => (Some (incoming_pairing_error "create the Bluetooth adapter proxy during pairing cleanup" e), w)
  | (Ok _, w) =>
    let (d, w) := st_map_err (incoming_pairing_property_error "restore Bluetooth Discoverable state")
      (set_bool proxy DISCOVERABLE_PROPERTY (restore_discoverable window)) w in
    let (p, w) := st_map_err (incoming_pairing_property_error "restore Bluetooth Pairable state")
      (set_bool proxy PAIRABLE_PROPERTY (restore_pairable window)) w in
    (first_error (first_error None d) p, w)
  end.

Definition end_incoming_pairing (window : IncomingPairingWindow) : stres (PairingControl * W) CoreError () :=
  let! _ := on_pairing (end_incoming (win_adapter window)) in
  on_world (fun w =>
    let (e, w) := restore_adapter window w in
    let (r, w) := unregister_pairing_agent w in
    (match first_error e r with Some e => Err e | None => Ok () end, w)).

(** [Pair], and what its end means, while the permit is held. *)
Definition call_pair (peer : PeerHandle) : stres W CoreError () :=
  let proxy := peer_proxy peer in
  let! _ := st_map_err (fun e => pairing_error (PairBus e)) (proxy_new proxy) in fun w =>
  match pair_or_timeout proxy PAIRING_TIMEOUT w with
  | (Ok (Some _), w) => (Ok (), w)
  | (Ok None, w) => let (_, w) := call_method proxy CANCEL_PAIRING_METHOD [] w in (Err pairing_timeout_error, w)
  | (Err (PairBus e), w) =>
    ((if bool_decide (method_error_name e = Some "org.bluez.Error.AlreadyExists") then Ok () else Err (pairing_error (PairBus e))), w)
  | (Err e, w) => (Err (pairing_error e), w)
  end.

Definition pair_peer (peer : PeerHandle) : stres (PairingControl * W) CoreError () :=
  let! current := on_world (peer_by_handle peer) in
  if dp_paired current then st_ret () else
  let! _ := on_world ensure_pairing_agent in
  let! _ := on_pairing (begin_pairing peer) in fun '(c, w) =>
  let (r, w) := call_pair peer w in (r, (drop_permit peer c, w)).

Definition set_peer_trusted (peer : PeerHandle) (trusted : bool) : stres W CoreError () :=
  let! current := peer_by_handle peer in
  if trusted && negb (dp_paired current) then st_fail (core_error AuthenticationFailed "pair the Bluetooth peer before trusting it")
  else if Bool.eqb (dp_trusted current) trusted then st_ret () else
  let! _ := st_map_err trust_error (proxy_new (peer_proxy peer)) in
  st_map_err trust_property_error (set_bool (peer_proxy peer) TRUSTED_PROPERTY trusted).
End operations.

(** ** Pairings side by side

    A pairing or the opening of a window gives way to others while it waits for BlueZ,
    and may be cancelled there.  A token is what such a caller holds; [Abandoned] is
    not of the code: a window whose opening was cancelled once the record had it, or
    that was dropped without being ended. *)

Inductive PairingToken := Pairing (peer : PeerHandle) | Opening (adapter : AdapterHandle) | Window (adapter : AdapterHandle) | Abandoned (adapter : AdapterHandle).

Record PairingSystem := mkPairingSystem { ps_control : PairingControl; ps_tokens : gmap nat PairingToken }.
Definition pairing_initial : PairingSystem := mkPairingSystem pairing_idle ∅.

Inductive pairing_step : PairingSystem -> PairingSystem -> Prop :=
| pair_begins c ts i peer c' (Hi : ts !! i = None) (Hb : begin_pairing peer c = Ok c') :
    pairing_step (mkPairingSystem c ts) (mkPairingSystem c' (<[i := Pairing peer]> ts))
(** However the pairing ends, its permit is dropped. *)
| pair_ends c ts i peer (Hi : ts !! i = Some (Pairing peer)) :
    pairing_step (mkPairingSystem c ts) (mkPairingSystem (drop_permit peer c) (delete i ts))
| window_opens c ts i adapter c' (Hi : ts !! i = None) (Hb : begin_incoming adapter c = Ok c') :
    pairing_step (mkPairingSystem c ts) (mkPairingSystem c' (<[i := Opening adapter]> ts))
| window_open c ts i adapter (Hi : ts !! i = Some (Opening adapter)) :
    pairing_step (mkPairingSystem c ts) (mkPairingSystem c (<[i := Window adapter]> ts))
| window_refused c ts i adapter (Hi : ts !! i = Some (Opening adapter)) :
    pairing_step (mkPairingSystem c ts) (mkPairingSystem (clear_incoming adapter c) (delete i ts))
| window_abandoned c ts i adapter (Hi : ts !! i = Some (Opening adapter) \/ ts !! i = Some (Window adapter)) :
    pairing_step (mkPairingSystem c ts) (mkPairingSystem c (<[i := Abandoned adapter]> ts))
| window_ends c ts i adapter c' (Hi : ts !! i = Some (Window adapter)) (He : end_incoming adapter c = Ok c') :
    pairing_step (mkPairingSystem c ts) (mkPairingSystem c' (delete i ts))
| window_not_ended c ts i adapter e (Hi : ts !! i = Some (Window adapter)) (He : end_incoming adapter c = Err e) :
    pairing_step (mkPairingSystem c ts) (mkPairingSystem c (delete i ts)).

(** What the record holds for a token. *)
Definition token_control (t : PairingToken) : PairingControl :=
  match t with
  | Pairing peer => mkPairingControl (Some (peer_str peer)) None
  | Opening adapter | Window adapter | Abandoned adapter => mkPairingControl None (Some (adapter_str adapter))
  end.
(** The devices the holder of a token asked for. *)
Definition token_covers (t : PairingToken) (device : list Z) : Prop :=
  match t with
  | Pairing peer => device = peer_str peer
  | Opening adapter | Window adapter | Abandoned adapter => is_device_object_path_for_adapter device adapter = true
  end.

Definition pairing_settled (σ : PairingSystem) : Prop :=
  (ps_control σ = pairing_idle /\ ps_tokens σ = ∅) \/
  exists i t, ps_tokens σ = {[i := t]} /\ ps_control σ = token_control t.

Lemma pairing_busy_false c : pairing_busy c = false <-> c = pairing_idle.
Proof. destruct c as [[] []]; split; intros Hb; try done; by vm_compute in Hb. Qed.

Lemma drop_permit_own peer : drop_permit peer (token_control (Pairing peer)) = pairing_idle.
Proof. unfold drop_permit. by rewrite bool_decide_eq_true_2. Qed.
Lemma clear_incoming_own adapter : clear_incoming adapter (token_control (Opening adapter)) = pairing_idle.
Proof. unfold clear_incoming. by rewrite bool_decide_eq_true_2. Qed.
Lemma end_incoming_own adapter : end_incoming adapter (token_control (Window adapter)) = Ok pairing_idle.
Proof. unfold end_incoming. by rewrite bool_decide_eq_true_2. Qed.

(** With a single token, looking one up tells which it is. *)
Lemma settled_token c ts i t : pairing_settled (mkPairingSystem c ts) -> ts !! i = Some t -> ts = {[i := t]} /\ c = token_control t.
Proof.
  intros [[_ Hts]|(j & t' & Hts & Hc)] Hi; cbn in *; subst ts; [done|]. by apply lookup_singleton_Some in Hi as [<- <-].
Qed.
Lemma settled_idle ts : pairing_settled (mkPairingSystem pairing_idle ts) -> ts = ∅.
Proof. intros [[_ Hts]|(j & t' & _ & Hc)]; [done | by destruct t']. Qed.

Lemma begin_pairing_Ok peer c c' : begin_pairing peer c = Ok c' <-> c = pairing_idle /\ c' = token_control (Pairing peer).
Proof. unfold begin_pairing. rewrite guard_err_Ok, pairing_busy_false. split; [intros [-> [= <-]] | intros [-> ->]]; done. Qed.
Lemma begin_incoming_Ok adapter c c' : begin_incoming adapter c = Ok c' <-> c = pairing_idle /\ c' = token_control (Opening adapter).
Proof. unfold begin_incoming. rewrite guard_err_Ok, pairing_busy_false. split; [intros [-> [= <-]] | intros [-> ->]]; done. Qed.

Lemma pairing_step_settled σ σ' : pairing_step σ σ' -> pairing_settled σ -> pairing_settled σ'.
Proof.
  intros Hstep Hs. destruct Hstep.
  - apply begin_pairing_Ok in Hb as [-> ->]. rewrite (settled_idle _ Hs). right. by exists i, (Pairing peer).
  - destruct (settled_token _ _ _ _ Hs Hi) as [-> ->]. left. by rewrite drop_permit_own, delete_singleton_eq.
  - apply begin_incoming_Ok in Hb as [-> ->]. rewrite (settled_idle _ Hs). right. by exists i, (Opening adapter).
  - destruct (settled_token _ _ _ _ Hs Hi) as [-> ->]. right. exists i, (Window adapter). by rewrite insert_singleton_eq.
  - destruct (settled_token _ _ _ _ Hs Hi) as [-> ->]. left. by rewrite clear_incoming_own, delete_singleton_eq.
  - right. exists i, (Abandoned adapter).
    destruct Hi as [Hi|Hi]; destruct (settled_token _ _ _ _ Hs Hi) as [-> ->]; by rewrite insert_singleton_eq.
  - destruct (settled_token _ _ _ _ Hs Hi) as [-> ->]. rewrite end_incoming_own in He. injection He as <-.
    left. by rewrite delete_singleton_eq.
  - destruct (settled_token _ _ _ _ Hs Hi) as [-> ->]. by rewrite end_incoming_own in He.
Qed.

Lemma pairing_reachable_settled σ : rtc pairing_step pairing_initial σ -> pairing_settled σ.
Proof.
  assert (pairing_settled pairing_initial) as H0 by (by left). revert H0. generalize pairing_initial.
  intros σ0 H0 Hr. induction Hr as [|σ1 σ2 σ3 Hstep Hr IH]; [done|]. apply IH. by eapply pairing_step_settled.
Qed.

Lemma token_authorizes t device : authorizes device (token_control t) = true <-> token_covers t device.
Proof.
  unfold authorizes. destruct t; cbn; rewrite ?orb_false_r, ?bool_decide_eq_true; [split; congruence|..];
    unfold is_device_object_path_for_adapter; tauto.
Qed.

(** The answers of the agent that are no refusal. *)
Lemma agent_answer_authorized {A : Type} (request : AgentRequest A) device c a :
  match request with RequestPinCode d | RequestPasskey d | RequestConfirmation d _ | RequestAuthorization d | AuthorizeService d _ => d = device
    | _ => False end ->
  agent_answer request c = Ok a -> authorizes device c = true.
Proof.
  destruct request; intros Hd; try done; subst; cbn; unfold require_authorized; by destruct (authorizes device c).
Qed.

(** C38. However pairings and windows for incoming pairings interleave, fail or are
    cancelled, there is one at a time; the agent lets BlueZ go on for a device exactly
    when it is the one being paired or a device of the adapter of the window, and never
    gives a PIN, a passkey or a confirmation; a window that is held can be ended, and
    then no device is let on; another pairing can begin exactly when there is none.
    The requests that only display a code are always answered and not spoken of. *)
Theorem pairing_agent_exact (σ : PairingSystem) (Hr : rtc pairing_step pairing_initial σ) :
  (forall i j t u, ps_tokens σ !! i = Some t -> ps_tokens σ !! j = Some u -> i = j) /\
  (forall device uuid,
    (agent_answer (RequestAuthorization device) (ps_control σ) = Ok () <-> exists i t, ps_tokens σ !! i = Some t /\ token_covers t device) /\
    (agent_answer (AuthorizeService device uuid) (ps_control σ) = Ok () <-> exists i t, ps_tokens σ !! i = Some t /\ token_covers t device) /\
    is_ok (agent_answer (RequestPinCode device) (ps_control σ)) = false /\
    is_ok (agent_answer (RequestPasskey device) (ps_control σ)) = false /\
    forall passkey, is_ok (agent_answer (RequestConfirmation device passkey) (ps_control σ)) = false) /\
  (forall i adapter, ps_tokens σ !! i = Some (Window adapter) -> end_incoming adapter (ps_control σ) = Ok pairing_idle) /\
  (forall device, authorizes device pairing_idle = false) /\
  (forall peer, is_ok (begin_pairing peer (ps_control σ)) = true <-> ps_tokens σ = ∅).
Proof.
  pose proof (pairing_reachable_settled σ Hr) as Hs. destruct σ as [c ts]. cbn in *.
  assert (forall device, authorizes device c = true <-> exists i t, ts !! i = Some t /\ token_covers t device) as Ha.
  { intros device. destruct Hs as [[Hc Hts]|(i & t & Hts & Hc)]; cbn in Hc, Hts; subst.
    - split; [done | intros (i & t & Hi & _)]. by rewrite lookup_empty in Hi.
    - rewrite token_authorizes. split; [intros Ht; exists i, t; by rewrite lookup_singleton_eq|].
      intros (j & u & [<- <-]%lookup_singleton_Some & Hu). done. }
  split_and!.
  - intros i j t u Hi Hj. destruct (settled_token _ _ _ _ Hs Hi) as [-> _]. by apply lookup_singleton_Some in Hj as [<- _].
  - intros device uuid. cbn. unfold require_authorized. rewrite <- Ha. destruct (authorizes device c); cbn; split_and!; done.
  - intros i adapter Hi. destruct (settled_token _ _ _ _ Hs Hi) as [_ ->]. apply end_incoming_own.
  - done.
  - intros peer. unfold begin_pairing. destruct Hs as [[Hc Hts]|(i & t & Hts & Hc)]; cbn in Hc, Hts; subst; [done|].
    split; [by destruct t | intros Hts]. by apply map_non_empty_singleton in Hts.
Qed.

(** A window of one adapter, while a pairing is refused. *)
Lemma pairing_agent_exact_witness :
  let hci0 := mkAdapterHandle (code_points "/org/bluez/hci0") in
  let σ := mkPairingSystem (mkPairingControl None (Some (code_points "/org/bluez/hci0"))) {[0 := Window hci0]} in
  rtc pairing_step pairing_initial σ /\ end_incoming hci0 (ps_control σ) = Ok pairing_idle /\
  agent_answer (RequestAuthorization (code_points "/org/bluez/hci0/dev_11")) (ps_control σ) = Ok () /\
  agent_answer (RequestAuthorization (code_points "/org/bluez/hci1/dev_11")) (ps_control σ) = Err (Rejected "BlueRoute did not authorize this pairing request").
Proof.
  intros hci0 σ.
  assert (rtc pairing_step pairing_initial σ) as Hr.
  { apply rtc_l with (mkPairingSystem (mkPairingControl None (Some (code_points "/org/bluez/hci0"))) (<[0 := Opening hci0]> ∅));
      [apply window_opens; reflexivity|].
    apply rtc_l with (mkPairingSystem (mkPairingControl None (Some (code_points "/org/bluez/hci0"))) (<[0 := Window hci0]> (<[0 := Opening hci0]> ∅)));
      [apply window_open; reflexivity|].
    apply rtc_refl. }
  split; [exact Hr|]. destruct (pairing_agent_exact σ Hr) as (_ & _ & He & _).
  split; [exact (He 0 hci0 eq_refl)|]. split; vm_compute; reflexivity.
Defined.

(** ** What the calls leave *)

#[global] Instance Proxy_eq_dec : EqDecision Proxy.
Proof. solve_decision. Defined.

(** What the switches of the objects of BlueZ are in a world: read and set by the
    calls that do so, and kept by the others. *)
Class LawfulPairingBus (W : Type) `{SystemBus W} `{BluezObjectBus W} `{PairingBus W} := {
  switch : W -> Proxy -> string -> bool;
  get_bool_reads p property w : switch (get_bool p property w).2 = switch w;
  get_bool_value p property w b : (get_bool p property w).1 = Ok b -> b = switch w p property;
  set_bool_sets p property b w q property' : (set_bool p property b w).1 = Ok () ->
    switch (set_bool p property b w).2 q property' = if decide (q = p /\ property' = property) then b else switch w q property';
  dbus_proxy_keeps w : switch (dbus_proxy_new w).2 = switch w;
  has_owner_keeps name w : switch (name_has_owner name w).2 = switch w;
  object_manager_keeps w : switch (object_manager_new w).2 = switch w;
  managed_objects_keeps w : switch (get_managed_objects w).2 = switch w;
  proxy_new_keeps p w : switch (proxy_new p w).2 = switch w;
  serve_at_keeps path w : switch (serve_at path w).2 = switch w;
  agent_manager_keeps method arguments w : switch (call_method agent_manager method arguments w).2 = switch w;
}.

Section facts.
Context {W : Type} `{HS : SystemBus W} `{HO : BluezObjectBus W} `{HP : PairingBus W}.

Lemma on_world_Ok {A : Type} (m : stres W CoreError A) c w a c' w' : on_world m (c, w) = (Ok a, (c', w')) <-> c' = c /\ m w = (Ok a, w').
Proof. unfold on_world. destruct (m w) as [r w1]. split; [intros [= -> -> ->] | intros [-> [= -> ->]]]; done. Qed.
Lemma on_world_fst {A : Type} (m : stres W CoreError A) c w : (on_world m (c, w)).2.1 = c.
Proof. unfold on_world. by destruct (m w). Qed.

Lemma on_world_run {A : Type} (m : stres W CoreError A) c w : on_world m (c, w) = ((m w).1, (c, (m w).2)).
Proof. unfold on_world. by destruct (m w). Qed.

(** A step that leaves the record, followed by the rest. *)
Lemma bind_world {A B : Type} (m : stres W CoreError A) (k : A -> stres (PairingControl * W) CoreError B) c w (P : result CoreError B * (PairingControl * W) -> Prop) :
  (forall e w', P (Err e, (c, w'))) -> (forall a w', P (k a (c, w'))) -> P (st_bind (on_world m) k (c, w)).
Proof. intros He Hk. unfold st_bind. rewrite on_world_run. destruct (m w).1; simpl; [apply Hk | apply He]. Qed.

Lemma open_window_control adapter p d w : let c := token_control (Opening adapter) in
  match open_window adapter p d (c, w) with
  | (Ok window, (c', _)) => c' = c /\ window = mkWindow adapter d p
  | (Err _, (c', _)) => c' = pairing_idle
  end.
Proof.
  cbn zeta. unfold open_window. destruct (request_default_pairing_agent w) as [[[]|e] w1]; [|apply clear_incoming_own].
  destruct (set_bool _ _ _ w1) as [[[]|e] w2].
  - destruct (set_bool _ _ _ w2) as [[[]|e] w3]; [done|]. destruct (set_bool _ _ _ w3) as [r w4].
    destruct (unregister_pairing_agent w4). apply clear_incoming_own.
  - destruct (unregister_pairing_agent w2). apply clear_incoming_own.
Qed.

(** The record once a call has ended: a pairing leaves it as it was; a window that is
    opened is the record's, and only from an idle one; ending a window takes it out,
    whatever BlueZ makes of the rest. *)
Theorem pairing_calls_settle (c : PairingControl) (w : W) :
  (forall peer, (pair_peer peer (c, w)).2.1 = c) /\
  (forall adapter, match begin_incoming_pairing adapter (c, w) with
    | (Ok window, (c', _)) => c = pairing_idle /\ c' = token_control (Window adapter) /\ win_adapter window = adapter
    | (Err _, (c', _)) => c' = c
    end) /\
  (forall window, (end_incoming_pairing window (c, w)).2.1 =
    match end_incoming (win_adapter window) c with Ok c' => c' | Err _ => c end).
Proof.
  split_and!.
  - intros peer. unfold pair_peer. apply (bind_world _ _ _ _ (fun x => x.2.1 = c)); [done|]. intros current w1.
    destruct (dp_paired current); [done|]. apply (bind_world _ _ _ _ (fun x => x.2.1 = c)); [done|]. intros _ w2.
    unfold st_bind, on_pairing. destruct (begin_pairing peer c) as [c'|e] eqn:Hb; [|done].
    apply begin_pairing_Ok in Hb as [-> ->]. destruct (call_pair peer w2) as [r w3]. apply drop_permit_own.
  - intros adapter. unfold begin_incoming_pairing.
    set (P := fun x : result CoreError IncomingPairingWindow * (PairingControl * W) => match x with
      | (Ok window, (c', _)) => c = pairing_idle /\ c' = token_control (Window adapter) /\ win_adapter window = adapter
      | (Err _, (c', _)) => c' = c end).
    apply (bind_world _ _ _ _ P); [done|]. intros current w1. destruct (negb (powered current)); [done|].
    apply (bind_world _ _ _ _ P); [done|]. intros _ w2. apply (bind_world _ _ _ _ P); [done|]. intros p w3.
    apply (bind_world _ _ _ _ P); [done|]. intros d w4. apply (bind_world _ _ _ _ P); [done|]. intros _ w5.
    unfold st_bind, on_pairing. destruct (begin_incoming adapter c) as [c'|e] eqn:Hb; [|done].
    apply begin_incoming_Ok in Hb as [-> ->]. pose proof (open_window_control adapter p d w5) as Ho. cbn zeta in Ho.
    destruct (open_window _ _ _ _) as [[window|e] [c' w6]]; [by destruct Ho as [-> ->] | done].
  - intros window. unfold end_incoming_pairing, st_bind, on_pairing. destruct (end_incoming _ c); [|done]. apply on_world_fst.
Qed.
End facts.

Section restoring.
Context {W : Type} `{HS : SystemBus W} `{HO : BluezObjectBus W} `{HP : PairingBus W} `{HL : !LawfulPairingBus W}.

Definition keeps {E A : Type} (m : stres W E A) : Prop := forall w, switch (m w).2 = switch w.

Lemma switches_ret {E A : Type} (a : A) : keeps (st_ret (E:=E) a).
Proof. done. Qed.
Lemma switches_fail {E A : Type} (e : E) : keeps (st_fail (A:=A) e).
Proof. done. Qed.
Lemma switches_lift {E A : Type} (r : result E A) : keeps (st_lift r).
Proof. done. Qed.
Lemma switches_map_err {E F A : Type} (f : E -> F) (m : stres W E A) : keeps m -> keeps (st_map_err f m).
Proof. intros Hm w. unfold st_map_err. specialize (Hm w). by destruct (m w). Qed.
Lemma switches_bind {E A B : Type} (m : stres W E A) (k : A -> stres W E B) : keeps m -> (forall a, keeps (k a)) -> keeps (st_bind m k).
Proof. intros Hm Hk w. unfold st_bind. specialize (Hm w). destruct (m w) as [[a|e] w1]; [|done]. by rewrite Hk. Qed.
Lemma switches_Ok {E A : Type} (m : stres W E A) w r w' : keeps m -> m w = (r, w') -> switch w' = switch w.
Proof. intros Hm He. specialize (Hm w). by rewrite He in Hm. Qed.

Lemma keeps_agent_call method operation arguments accepted : keeps (agent_manager_call method operation arguments accepted).
Proof.
  apply switches_bind; [apply switches_map_err; intros w; apply proxy_new_keeps|]. intros _ w.
  pose proof (agent_manager_keeps method arguments w) as Hk. by destruct (call_method _ _ _ w) as [[] w1].
Qed.

Create HintDb switches.
#[local] Hint Resolve switches_ret switches_fail switches_lift keeps_agent_call : switches.
#[local] Hint Extern 1 (keeps (st_map_err _ _)) => apply switches_map_err : switches.
#[local] Hint Extern 1 (keeps (bus _ _ _)) => apply switches_map_err : switches.
#[local] Hint Extern 2 (keeps (st_bind _ _)) => apply switches_bind; [|intros ?] : switches.
#[local] Hint Extern 3 (keeps _) => intros ?; apply proxy_new_keeps || apply serve_at_keeps || apply dbus_proxy_keeps || apply has_owner_keeps
  || apply object_manager_keeps || apply managed_objects_keeps || apply get_bool_reads : switches.

Lemma keeps_enumerate : keeps enumerate_adapters.
Proof.
  unfold enumerate_adapters, managed_objects, ensure_bluez_available, bluez_service_available.
  apply switches_bind; [|auto with switches]. apply switches_bind; [|auto with switches].
  apply switches_bind; [auto with switches|]. intros []; auto with switches.
Qed.
Lemma keeps_adapter_exists adapter : keeps (ensure_adapter_exists adapter).
Proof. apply switches_bind; [apply keeps_enumerate | auto with switches]. Qed.

(** A switch that was read: the value it has, in a world that keeps them all. *)
Lemma read_switch (f : BusError -> CoreError) p property w b w' : st_map_err f (get_bool p property) w = (Ok b, w') ->
  b = switch w p property /\ switch w' = switch w.
Proof.
  unfold st_map_err. pose proof (get_bool_value p property w) as Hv. pose proof (get_bool_reads p property w) as Hr.
  destruct (get_bool p property w) as [[b'|e] w1]; [|done]. intros [= -> ->]. split; [by apply Hv | done].
Qed.
Lemma set_switch p property b w w' q property' : set_bool p property b w = (Ok (), w') ->
  switch w' q property' = if decide (q = p /\ property' = property) then b else switch w q property'.
Proof. intros Hs. pose proof (set_bool_sets p property b w q property') as Hl. rewrite Hs in Hl. by apply Hl. Qed.

Lemma open_window_switches adapter p d c w window σ : open_window adapter p d (c, w) = (Ok window, σ) ->
  switch σ.2 (adapter_proxy adapter) PAIRABLE_PROPERTY = true /\ switch σ.2 (adapter_proxy adapter) DISCOVERABLE_PROPERTY = true /\
  window = mkWindow adapter d p.
Proof.
  unfold open_window. destruct (request_default_pairing_agent w) as [[u|e] w1]; [|done].
  destruct (set_bool _ PAIRABLE_PROPERTY _ w1) as [[[]|e] w2] eqn:H1; [|by destruct (unregister_pairing_agent w2)].
  destruct (set_bool _ DISCOVERABLE_PROPERTY _ w2) as [[[]|e] w3] eqn:H2.
  - intros [= <- <-]. simpl. rewrite !(set_switch _ _ _ _ _ _ _ H2), (set_switch _ _ _ _ _ _ _ H1).
    rewrite decide_False by (by intros [_ ?]). by rewrite !decide_True.
  - destruct (set_bool _ _ _ w3) as [r w4]. by destruct (unregister_pairing_agent w4).
Qed.

Lemma restore_adapter_switches window w w' : restore_adapter window w = (None, w') ->
  switch w' (adapter_proxy (win_adapter window)) PAIRABLE_PROPERTY = restore_pairable window /\
  switch w' (adapter_proxy (win_adapter window)) DISCOVERABLE_PROPERTY = restore_discoverable window.
Proof.
  unfold restore_adapter, st_map_err. destruct (proxy_new _ w) as [[u|e] w1]; [|done].
  destruct (set_bool _ DISCOVERABLE_PROPERTY _ w1) as [[[]|e] w2] eqn:H1, (set_bool _ PAIRABLE_PROPERTY _ w2) as [[[]|e'] w3] eqn:H2; try done.
  intros [= <-]. rewrite !(set_switch _ _ _ _ _ _ _ H2), !(set_switch _ _ _ _ _ _ _ H1).
  split; [by rewrite decide_True|]. rewrite decide_False by (by intros [_ ?]). by rewrite decide_True.
Qed.

(** C39. A window for incoming pairings, once open, has made the adapter pairable and
    discoverable and is what the agent lets devices on for; ending it without an error,
    whatever happened to the switches in between, gives the adapter back the two it had
    before the window, and no device of it is let on any more. *)
Theorem incoming_window_restores adapter c w window c1 w1 c2 w2 c3 w3
    (Hb : begin_incoming_pairing adapter (c, w) = (Ok window, (c1, w1)))
    (He : end_incoming_pairing window (c2, w2) = (Ok (), (c3, w3))) :
  let proxy := adapter_proxy adapter in
  switch w1 proxy PAIRABLE_PROPERTY = true /\ switch w1 proxy DISCOVERABLE_PROPERTY = true /\
  (forall device, authorizes device c1 = is_device_object_path_for_adapter device adapter) /\
  switch w3 proxy PAIRABLE_PROPERTY = switch w proxy PAIRABLE_PROPERTY /\
  switch w3 proxy DISCOVERABLE_PROPERTY = switch w proxy DISCOVERABLE_PROPERTY /\
  incoming_adapter c2 = Some (adapter_str adapter) /\ incoming_adapter c3 = None.
Proof.
  cbn zeta. pose proof (proj1 (proj2 (pairing_calls_settle c w)) adapter) as Hc. rewrite Hb in Hc. destruct Hc as (-> & -> & Ha).
  unfold begin_incoming_pairing in Hb. apply st_bind_Ok in Hb as (current & [? v0] & [-> H0]%on_world_Ok & Hb).
  destruct (negb (powered current)); [done|].
  apply st_bind_Ok in Hb as (u & [? v1] & [-> H1]%on_world_Ok & Hb).
  apply st_bind_Ok in Hb as (p & [? v2] & [-> [Hp H2]%read_switch]%on_world_Ok & Hb).
  apply st_bind_Ok in Hb as (d & [? v3] & [-> [Hd H3]%read_switch]%on_world_Ok & Hb).
  apply st_bind_Ok in Hb as (u' & [? v4] & [-> _]%on_world_Ok & Hb).
  apply st_bind_Ok in Hb as (u'' & [? v5] & _ & Hb). apply open_window_switches in Hb as (Hp1 & Hd1 & ->).
  apply switches_Ok in H0; [|apply keeps_adapter_exists]. apply switches_Ok in H1; [|auto with switches].
  unfold end_incoming_pairing in He. apply st_bind_Ok in He as (u3 & [? v6] & Hon & He).
  unfold on_pairing, end_incoming in Hon. cbn [win_adapter] in *.
  destruct (bool_decide_reflect (incoming_adapter c2 = Some (adapter_str adapter))) as [Hi|]; [|done]. cbn in Hon. injection Hon as _ <- <-.
  apply on_world_Ok in He as [-> He].
  destruct (restore_adapter (mkWindow adapter d p) w2) as [[e|] v7] eqn:Hr; [by destruct (unregister_pairing_agent v7)|].
  destruct (unregister_pairing_agent v7) as [r v8] eqn:Hu. apply switches_Ok in Hu; [|apply keeps_agent_call].
  apply restore_adapter_switches in Hr as [Hrp Hrd]. destruct r; [|done]. injection He as <-. cbn in Hrp, Hrd, Hp1, Hd1.
  rewrite Hu, Hrp, Hrd, Hp, Hd, H2, H1, H0. split_and!; try done.
Qed.
End restoring.

(** A world of one powered adapter: whether it is pairable, and discoverable. *)
Module pairing_demo.
Definition hci0 : AdapterHandle := objects_demo.hci0.
Definition value (w : bool * bool) (p : Proxy) (property : string) : bool :=
  bool_decide (p = adapter_proxy hci0) && (bool_decide (property = PAIRABLE_PROPERTY) && w.1 || bool_decide (property = DISCOVERABLE_PROPERTY) && w.2).
Definition bluez : SystemBus (bool * bool) := {|
  dbus_proxy_new := fun w => (Ok (), w);
  name_has_owner _ := fun w => (Ok true, w);
  get_name_owner _ := fun w => (Ok (code_points ":1.1"), w);
  proxy_new _ := fun w => (Ok (), w);
  get_bool p property := fun w => (Ok (value w p property), w);
  get_text _ _ := fun w => (Err (BusFailure "no such property"), w);
  call_method _ _ _ := fun w => (Ok (Ok []), w);
  is_dir _ _ := false;
  read_dir _ := fun w => (Ok [], w);
  read_to_string _ := fun w => (Err (FsOther "no such file"), w);
  timer_after _ := fun w => w;
|}.
Definition objects : BluezObjectBus (bool * bool) := {|
  object_manager_new := fun w => (Ok (), w);
  get_managed_objects := fun w => (Ok objects_demo.objects, w);
  match_rule_new := fun w => (Ok (), w);
  match_stream := fun w => (Ok (), w);
  next_signal := fun w => (Ok None, w);
|}.
Definition pairing : PairingBus (bool * bool) := {|
  serve_at _ := fun w => (Ok (), w);
  set_bool p property b := fun w =>
    if bool_decide (p = adapter_proxy hci0) then
      if bool_decide (property = PAIRABLE_PROPERTY) then (Ok (), (b, w.2))
      else if bool_decide (property = DISCOVERABLE_PROPERTY) then (Ok (), (w.1, b)) else (Err (PropertyFailure "read-only"), w)
    else (Err (UnknownObject "no such object"), w);
  pair_or_timeout _ _ := fun w => (Ok None, w);
|}.
End pairing_demo.

#[local] Existing Instances pairing_demo.bluez pairing_demo.objects pairing_demo.pairing.
Lemma demo_set_bool_sets p property b w q property' : (set_bool p property b w).1 = Ok () ->
  pairing_demo.value (set_bool p property b w).2 q property' =
    if decide (q = p /\ property' = property) then b else pairing_demo.value w q property'.
Proof.
  cbn. unfold pairing_demo.value. case_bool_decide as Hp; [|done]. subst p. case_bool_decide as Hm.
  - subst property. intros _. simpl. destruct (decide _) as [[-> ->]|Hne]; [by rewrite !bool_decide_eq_true_2 by done; destruct b|].
    case_bool_decide; [|done]. case_bool_decide; [|done]. subst. by destruct Hne.
  - case_bool_decide as Hd; [|done]. subst property. intros _. simpl. destruct (decide _) as [[-> ->]|Hne]; [by destruct b|].
    case_bool_decide; [|done]. simpl. destruct (bool_decide_reflect (property' = DISCOVERABLE_PROPERTY)); [|done]. subst. by destruct Hne.
Qed.
#[local] Instance demo_lawful : LawfulPairingBus (bool * bool).
Proof.
  refine {| switch := pairing_demo.value |}; try done; [by intros p property w b [= <-] | exact demo_set_bool_sets].
Defined.

(** In between, somebody makes the adapter not discoverable. *)
Lemma incoming_window_restores_witness : exists window,
  begin_incoming_pairing pairing_demo.hci0 (pairing_idle, (false, true)) = (Ok window, (token_control (Window pairing_demo.hci0), (true, true))) /\
  end_incoming_pairing window (token_control (Window pairing_demo.hci0), (true, false)) = (Ok (), (pairing_idle, (false, true))) /\
  pairing_demo.value (false, true) (adapter_proxy pairing_demo.hci0) DISCOVERABLE_PROPERTY = true.
Proof.
  exists (mkWindow pairing_demo.hci0 true false).
  assert (begin_incoming_pairing pairing_demo.hci0 (pairing_idle, (false, true)) =
    (Ok (mkWindow pairing_demo.hci0 true false), (token_control (Window pairing_demo.hci0), (true, true)))) as Hb by (vm_compute; reflexivity).
  assert (end_incoming_pairing (mkWindow pairing_demo.hci0 true false) (token_control (Window pairing_demo.hci0), (true, false)) =
    (Ok (), (pairing_idle, (false, true)))) as He by (vm_compute; reflexivity).
  split_and!; [exact Hb | exact He |].
  exact (proj1 (proj2 (proj2 (proj2 (proj2 (incoming_window_restores _ _ _ _ _ _ _ _ _ _ Hb He)))))).
Defined.
