(* ===== verification/KernelAddress.v ===== *)
(** The address of a PANU interface, in the kernel:
    [crates/blueroute-linux/src/kernel_address.rs].  The messages of [NETLINK_ROUTE]
    as bytes, and the calls that set and take away one address.

    The socket is behind [RouteSocket].  The order of the host's bytes is an argument.
    A formatted diagnostic is its template. *)

From S2P Require Import Prelude Order Ident Addressing Routes LinuxRoutes StarHost NmProfile.

Local Open Scope Z_scope.

Definition NLMSG_ERROR : Z := 2.
Definition NLMSG_DONE : Z := 3.
Definition RTM_NEWADDR : Z := 20.
Definition RTM_DELADDR : Z := 21.
Definition RTM_GETADDR : Z := 22.
Definition NLM_F_REQUEST : Z := 0x0001.
Definition NLM_F_ACK : Z := 0x0004.
Definition NLM_F_ROOT : Z := 0x0100.
Definition NLM_F_MATCH : Z := 0x0200.
Definition NLM_F_EXCL : Z := 0x0200.
Definition NLM_F_CREATE : Z := 0x0400.
Definition NLM_F_DUMP : Z := Z.lor NLM_F_ROOT NLM_F_MATCH.
Definition IFA_ADDRESS : Z := 1.
Definition IFA_LOCAL : Z := 2.
Definition NLA_TYPE_MASK : Z := 0x3fff.
Definition NETLINK_HEADER_LEN : nat := 16.
Definition IFADDR_MESSAGE_LEN : nat := 8.
Definition ATTRIBUTE_HEADER_LEN : nat := 4.
Definition REQUEST_SEQUENCE : Z := 1.
(** [AddressFamily::INET.as_raw()] *)
Definition AF_INET : Z := 2.

(** ** Bytes *)

Fixpoint le_bytes (n : nat) (v : Z) : list Z :=
  match n with O => [] | S n => v mod 256 :: le_bytes n (v / 256) end.
Definition le_value (l : list Z) : Z := foldr (fun b acc => b + 256 * acc) 0 l.

(** An [Ipv4Addr] as its octets, and back. *)
Definition octets (a : Z) : list Z := reverse (le_bytes 4 a).
Definition from_octets (l : list Z) : Z := le_value (reverse l).

(** [&l[a..b]], where the code has looked at the length. *)
Definition slice (a b : nat) (l : list Z) : list Z := take (b - a) (drop a l).

Definition align4 (length : nat) : nat := Z.to_nat (Z.land (Z.of_nat length + 3) (Z.lnot 3)).

Definition protocol_error (diagnostic : string) : CoreError :=
  core_error_with_diagnostic ProtocolError "received malformed rtnetlink data from the kernel" diagnostic.

Record NetlinkMessage := mkNetlinkMessage { nm_length : nat; nm_message_type : Z; nm_sequence : Z; nm_payload : list Z }.
Record Ipv4InterfacePrefix := mkIpv4Prefix { ip4_address : Z; ip4_prefix_len : Z }.
#[global] Instance Ipv4InterfacePrefix_eq_dec : EqDecision Ipv4InterfacePrefix.
Proof. solve_decision. Defined.

Section messages.
(** The host has the most significant byte first. *)
Context (big : bool).

Definition ne_bytes (n : nat) (v : Z) : list Z := if big then reverse (le_bytes n v) else le_bytes n v.
Definition ne_value (l : list Z) : Z := le_value (if big then reverse l else l).

Definition read_u16 (bytes : list Z) : CoreResult Z :=
  guard_err (negb (length bytes =? 2)%nat) (protocol_error "invalid two-byte netlink field") (Ok (ne_value bytes)).
Definition read_u32 (bytes : list Z) : CoreResult Z :=
  guard_err (negb (length bytes =? 4)%nat) (protocol_error "invalid four-byte netlink field") (Ok (ne_value bytes)).

Definition netlink_message (bytes : list Z) : CoreResult NetlinkMessage :=
  guard_err (length bytes <? NETLINK_HEADER_LEN)%nat (protocol_error "truncated netlink header")
  (declared ← read_u32 (slice 0 4 bytes);
   let len := Z.to_nat declared in
   guard_err ((len <? NETLINK_HEADER_LEN)%nat || (length bytes <? len)%nat)
     (protocol_error "invalid netlink message length {length} for {} available bytes")
   (message_type ← read_u16 (slice 4 6 bytes);
    sequence ← read_u32 (slice 8 12 bytes);
    Ok (mkNetlinkMessage len message_type sequence (slice NETLINK_HEADER_LEN len bytes)))).

(** [i32::from_ne_bytes] *)
Definition i32_value (l : list Z) : Z := let u := ne_value l in if 2 ^ 31 <=? u then u - 2 ^ 32 else u.

Definition rejected_by_kernel (kind : ErrorKind) : CoreError :=
  core_error_with_diagnostic kind "kernel rejected a BlueRoute PANU address operation" "errno={errno}".
Definition parse_netlink_ack (payload : list Z) : CoreResult () :=
  guard_err (length payload <? 4)%nat (protocol_error "truncated netlink acknowledgement")
  (let raw_error := i32_value (slice 0 4 payload) in
   if raw_error =? 0 then Ok () else
   let errno := if raw_error =? - 2 ^ 31 then 2 ^ 31 - 1 else - raw_error in
   Err (rejected_by_kernel (if errno =? 17 then InvalidState else NetworkBackendUnavailable))).

(** The attributes after the fixed part: [rest] is [payload[offset..]]; a round takes
    at least four bytes of it, so its length is fuel enough. *)
Fixpoint parse_attributes (fuel : nat) (rest : list Z) (local address : option Z) : CoreResult (option Z * option Z) :=
  match fuel, rest with
  | _, [] | O, _ => Ok (local, address)
  | S fuel, _ =>
    guard_err (length rest <? ATTRIBUTE_HEADER_LEN)%nat (protocol_error "truncated rtnetlink address attribute")
    (declared ← read_u16 (slice 0 2 rest);
     raw_type ← read_u16 (slice 2 4 rest);
     let len := Z.to_nat declared in
     let attribute_type := Z.land raw_type NLA_TYPE_MASK in
     guard_err ((len <? ATTRIBUTE_HEADER_LEN)%nat || (length rest <? len)%nat)
       (protocol_error "invalid rtnetlink address attribute length")
     (let value := slice ATTRIBUTE_HEADER_LEN len rest in
      let parsed := from_octets value in
      let rest := drop (align4 len) rest in
      if (length value =? 4)%nat && (attribute_type =? IFA_LOCAL) then parse_attributes fuel rest (Some parsed) address
      else if (length value =? 4)%nat && (attribute_type =? IFA_ADDRESS) then parse_attributes fuel rest local (Some parsed)
      else parse_attributes fuel rest local address))
  end.

Definition parse_ipv4_address (payload : list Z) (expected_index : Z) : CoreResult (option Ipv4InterfacePrefix) :=
  guard_err (length payload <? IFADDR_MESSAGE_LEN)%nat (protocol_error "truncated rtnetlink address message")
  (if negb (nth 0 payload 0 =? AF_INET) then Ok None else
   let prefix_len := nth 1 payload 0 in
   interface_index ← read_u32 (slice 4 8 payload);
   if negb (interface_index =? expected_index) then Ok None else
   attributes ← parse_attributes (length payload) (drop IFADDR_MESSAGE_LEN payload) None None;
   let '(local, address) := attributes in
   Ok ((fun a => mkIpv4Prefix a prefix_len) <$> (if local is Some _ then local else address))).

Definition push_u16 (buffer : list Z) (value : Z) : list Z := buffer ++ ne_bytes 2 value.
Definition push_u32 (buffer : list Z) (value : Z) : list Z := buffer ++ ne_bytes 4 value.

(** The bytes to the next multiple of four. *)
Definition padding (n : nat) : list Z := replicate ((4 - n mod 4) mod 4)%nat 0.
Definition push_attribute (buffer : list Z) (attribute_type : Z) (value : list Z) : list Z :=
  let buffer := push_u16 buffer (Z.of_nat (ATTRIBUTE_HEADER_LEN + length value) mod 2 ^ 16) in
  let buffer := push_u16 buffer attribute_type ++ value in
  buffer ++ padding (length buffer).

Definition address_dump_request : list Z :=
  let request := push_u32 [] (Z.of_nat (NETLINK_HEADER_LEN + IFADDR_MESSAGE_LEN)) in
  let request := push_u16 (push_u16 request RTM_GETADDR) (Z.lor NLM_F_REQUEST NLM_F_DUMP) in
  let request := push_u32 (push_u32 request REQUEST_SEQUENCE) 0 in
  push_u32 (request ++ [AF_INET; 0; 0; 0]) 0.

(** [request[a..b].copy_from_slice(value)], [value] being [b - a] long. *)
Definition copy_at (a : nat) (value request : list Z) : list Z := take a request ++ value ++ drop (a + length value) request.

Definition address_change_request (message_type flags interface_index : Z) (prefix : Ipv4InterfacePrefix) : list Z :=
  let request := replicate NETLINK_HEADER_LEN 0 ++ [AF_INET; ip4_prefix_len prefix; 0; 0] in
  let request := push_u32 request interface_index in
  let request := push_attribute request IFA_LOCAL (octets (ip4_address prefix)) in
  let request := push_attribute request IFA_ADDRESS (octets (ip4_address prefix)) in
  let request := copy_at 0 (ne_bytes 4 (Z.of_nat (length request) mod 2 ^ 32)) request in
  let request := copy_at 4 (ne_bytes 2 message_type) request in
  let request := copy_at 6 (ne_bytes 2 flags) request in
  let request := copy_at 8 (ne_bytes 4 REQUEST_SEQUENCE) request in
  copy_at 12 (ne_bytes 4 0) request.
End messages.

(** ** The socket *)

Inductive IndexError := NoDevice | IndexFailure (text : string).

Class RouteSocket (W : Type) := {
  open_netlink : stres W string ();
  bind_netlink : stres W string ();
  connect_netlink : stres W string ();
  name_to_index : list Z -> stres W IndexError Z;
  (** How many bytes were sent. *)
  nl_send : list Z -> stres W string nat;
  (** One datagram, at most so long. *)
  nl_recv : Z -> stres W string (list Z);
}.

Record KernelAddressLease := mkKernelLease { kl_address : InterfaceAddress; kl_interface_index : Z }.

Definition backend_unavailable (m diagnostic : string) : CoreError := core_error_with_diagnostic NetworkBackendUnavailable m diagnostic.

Definition ipv4_prefix (prefix : IpPrefix) : CoreResult Ipv4InterfacePrefix :=
  match address prefix with
  | V4 a => guard_err (32 <? prefix_len prefix)
      (core_error InvalidInput "kernel PANU address backend currently accepts only IPv4 prefixes") (Ok (mkIpv4Prefix a (prefix_len prefix)))
  | V6 _ => Err (core_error InvalidInput "kernel PANU address backend currently accepts only IPv4 prefixes")
  end.

Definition ip4_le (p q : Ipv4InterfacePrefix) : Prop := (ip4_address p, ip4_prefix_len p) ≤ᵣ (ip4_address q, ip4_prefix_len q).
#[global] Instance ip4_le_dec : RelDecision ip4_le.
Proof. intros p q. unfold ip4_le. apply _. Defined.

(** [recv] may be called for as long as the kernel sends nothing that answers: [None]
    is a call that has not returned after so many datagrams. *)
Section operations.
Context (big : bool) {W : Type} `{RouteSocket W}.

Definition route_socket : stres W CoreError () :=
  let! _ := st_map_err (backend_unavailable "failed to open a NETLINK_ROUTE socket") open_netlink in
  let! _ := st_map_err (backend_unavailable "failed to bind a NETLINK_ROUTE socket") bind_netlink in
  st_map_err (backend_unavailable "failed to connect a NETLINK_ROUTE socket to the kernel") connect_netlink.

Definition interface_index (interface : NetworkInterfaceHandle) : stres W CoreError Z :=
  st_map_err (fun _ => backend_unavailable "failed to resolve the PANU kernel interface" "interface={} error={error}") (name_to_index (as_str interface)).

Definition send_exact (request : list Z) : stres W CoreError () :=
  let! sent := st_map_err (backend_unavailable "failed to send a NETLINK_ROUTE request") (nl_send request) in
  st_lift (guard_err (negb (sent =? length request)%nat)
    (backend_unavailable "NETLINK_ROUTE request was only partially sent" "sent={sent} expected={}") (Ok ())).

Definition unexpected_sequence : CoreError := protocol_error "unexpected netlink sequence {}; expected {REQUEST_SEQUENCE}".

(** The messages of one datagram: [rest] is [buffer[offset..received]]; a message has
    a byte at least, so its length is fuel enough.  The flag says that the dump is over. *)
Fixpoint dump_messages (fuel : nat) (index : Z) (rest : list Z) (addresses : list Ipv4InterfacePrefix) :
    CoreResult (bool * list Ipv4InterfacePrefix) :=
  match fuel, rest with
  | _, [] | O, _ => Ok (false, addresses)
  | S fuel, _ =>
    message ← netlink_message big rest;
    guard_err (negb (nm_sequence message =? REQUEST_SEQUENCE)) unexpected_sequence
    (let rest := drop (align4 (nm_length message)) rest in
     if nm_message_type message =? NLMSG_DONE then Ok (true, dedup (merge_sort ip4_le addresses))
     else if nm_message_type message =? NLMSG_ERROR then
       _ ← parse_netlink_ack big (nm_payload message); dump_messages fuel index rest addresses
     else if nm_message_type message =? RTM_NEWADDR then
       prefix ← parse_ipv4_address big (nm_payload message) index;
       dump_messages fuel index rest (addresses ++ match prefix with Some p => [p] | None => [] end)
     else dump_messages fuel index rest addresses)
  end.

Fixpoint dump_datagrams (fuel : nat) (index : Z) (addresses : list Ipv4InterfacePrefix) : stres W CoreError (option (list Ipv4InterfacePrefix)) :=
  match fuel with
  | O => st_ret None
  | S fuel =>
    let! received := st_map_err (backend_unavailable "failed to read a NETLINK_ROUTE address response") (nl_recv 65536) in
    let! (over, addresses) := st_lift (dump_messages (length received) index received addresses) in
    if over : bool then st_ret (Some addresses) else dump_datagrams fuel index addresses
  end.

Definition ipv4_addresses (fuel : nat) (index : Z) : stres W CoreError (option (list Ipv4InterfacePrefix)) :=
  let! _ := send_exact (address_dump_request big) in dump_datagrams fuel index [].

(** [Some]: the acknowledgement was in this datagram. *)
Fixpoint ack_messages (fuel : nat) (rest : list Z) : CoreResult (option ()) :=
  match fuel, rest with
  | _, [] | O, _ => Ok None
  | S fuel, _ =>
    message ← netlink_message big rest;
    guard_err (negb (nm_sequence message =? REQUEST_SEQUENCE)) unexpected_sequence
    (if nm_message_type message =? NLMSG_ERROR then _ ← parse_netlink_ack big (nm_payload message); Ok (Some ())
     else ack_messages fuel (drop (align4 (nm_length message)) rest))
  end.

Fixpoint ack_datagrams (fuel : nat) : stres W CoreError (option ()) :=
  match fuel with
  | O => st_ret None
  | S fuel =>
    let! received := st_map_err (backend_unavailable "failed to read a NETLINK_ROUTE address acknowledgement") (nl_recv 16384) in
    let! ack := st_lift (ack_messages (length received) received) in
    match ack with Some _ => st_ret (Some ()) | None => ack_datagrams fuel end
  end.

Definition change_address (fuel : nat) (message_type flags index : Z) (prefix : Ipv4InterfacePrefix) : stres W CoreError (option ()) :=
  let! _ := send_exact (address_change_request big message_type flags index prefix) in ack_datagrams fuel.

(** A call that has returned, followed by the rest. *)
Definition returned {A B : Type} (m : stres W CoreError (option A)) (k : A -> stres W CoreError (option B)) : stres W CoreError (option B) :=
  let! r := m in match r with Some a => k a | None => st_ret None end.

Definition add_flags : Z := Z.lor (Z.lor (Z.lor NLM_F_REQUEST NLM_F_ACK) NLM_F_CREATE) NLM_F_EXCL.
Definition delete_flags : Z := Z.lor NLM_F_REQUEST NLM_F_ACK.

Definition not_converged : CoreError := backend_unavailable
  "kernel PANU address application did not converge to the requested state"
  "interface={} ifindex={} requested={}/{} observed={} cleanup={}".

(** Its clean-up's error is part of the diagnostic only. *)
Definition undo_address (fuel : nat) (index : Z) (requested : Ipv4InterfacePrefix) : stres W CoreError (option KernelAddressLease) := fun w =>
  match change_address fuel RTM_DELADDR delete_flags index requested w with
  | (Ok None, w) => (Ok None, w)
  | (_, w) => (Err not_converged, w)
  end.

Definition ensure_panu_address (fuel : nat) (address : InterfaceAddress) : stres W CoreError (option KernelAddressLease) :=
  let! requested := st_lift (ipv4_prefix (ia_prefix address)) in
  let! _ := route_socket in
  let! index := interface_index (ia_interface address) in
  returned (ipv4_addresses fuel index) (fun existing =>
  if negb (bool_decide (existing = [])) then
    st_fail (core_error_with_diagnostic InvalidState "refusing to configure a PANU interface that already has IPv4 state"
      "interface={} ifindex={} existing={}")
  else
  returned (change_address fuel RTM_NEWADDR add_flags index requested) (fun _ =>
  returned (ipv4_addresses fuel index) (fun applied =>
  if bool_decide (applied = [requested]) then st_ret (Some (mkKernelLease address index))
  else undo_address fuel index requested))).

Definition remove_panu_address (fuel : nat) (lease : KernelAddressLease) : stres W CoreError (option ()) :=
  let! requested := st_lift (ipv4_prefix (ia_prefix (kl_address lease))) in
  let! _ := route_socket in fun w =>
  match name_to_index (as_str (ia_interface (kl_address lease))) w with
  | (Err NoDevice, w) => (Ok (Some ()), w)
  | (Err (IndexFailure _), w) =>
    (Err (backend_unavailable "failed to resolve the PANU interface during address cleanup" "interface={} error={error}"), w)
  | (Ok current_index, w) =>
    (if negb (current_index =? kl_interface_index lease) then st_ret (Some ()) else
     returned (ipv4_addresses fuel current_index) (fun existing =>
     if negb (bool_decide (requested ∈ existing)) then st_ret (Some ()) else
     returned (change_address fuel RTM_DELADDR delete_flags current_index requested) (fun _ =>
     returned (ipv4_addresses fuel current_index) (fun remaining =>
     if bool_decide (requested ∈ remaining) then
       st_fail (backend_unavailable "kernel PANU address removal did not converge" "interface={} ifindex={} address={}/{} remaining={}")
     else st_ret (Some ()))))) w
  end.
End operations.

(** ** Writing and reading *)

Lemma length_le_bytes n v : length (le_bytes n v) = n.
Proof. revert v. induction n as [|n IH]; intros v; simpl; [done | by rewrite IH]. Qed.

Lemma le_value_bytes n v : 0 <= v < 256 ^ Z.of_nat n -> le_value (le_bytes n v) = v.
Proof.
  revert v. induction n as [|n IH]; intros v Hv; [simpl in *; lia|].
  rewrite Nat2Z.inj_succ, Z.pow_succ_r in Hv by lia. cbn [le_bytes le_value foldr]. fold (le_value (le_bytes n (v / 256))).
  rewrite IH; [pose proof (Z.div_mod v 256); lia|].
  split; [apply Z.div_pos; lia | apply Z.div_lt_upper_bound; lia].
Qed.

Lemma le_value_bounds l : Forall (fun b => 0 <= b < 256) l -> 0 <= le_value l < 256 ^ Z.of_nat (length l).
Proof.
  induction 1 as [|b l Hb Hl IH]; [simpl; lia|]. cbn [le_value foldr length]. fold (le_value l).
  rewrite Nat2Z.inj_succ, Z.pow_succ_r by lia. lia.
Qed.

Lemma from_octets_octets a : 0 <= a <= u_max 32 -> from_octets (octets a) = a.
Proof. intros Ha. unfold from_octets, octets. rewrite reverse_involutive. apply le_value_bytes. unfold u_max in Ha. lia. Qed.

Lemma slice_app (a b c : list Z) n m : n = length a -> m = (length a + length b)%nat -> slice n m (a ++ b ++ c) = b.
Proof.
  intros -> ->. unfold slice. rewrite drop_app_length. replace (length a + length b - length a)%nat with (length b) by lia.
  apply take_app_length.
Qed.

Lemma length_slice a b (l : list Z) : (a <= b <= length l)%nat -> length (slice a b l) = (b - a)%nat.
Proof. intros Hab. unfold slice. rewrite length_take, length_drop. lia. Qed.

Lemma align4_spec n : (n <= align4 n < n + 4)%nat /\ (align4 n mod 4 = 0)%nat.
Proof.
  unfold align4. assert (Z.land (Z.of_nat n + 3) (Z.lnot 3) = (Z.of_nat n + 3) / 4 * 4) as ->.
  { change (Z.lnot 3) with (Z.lnot (Z.ones 2)). rewrite <- Z.ldiff_land, Z.ldiff_ones_r, Z.shiftr_div_pow2, Z.shiftl_mul_pow2 by lia. done. }
  pose proof (Z.div_mod (Z.of_nat n + 3) 4). pose proof (Z.mod_pos_bound (Z.of_nat n + 3) 4).
  split; [lia|]. apply Nat2Z.inj. rewrite Nat2Z.inj_mod, Z2Nat.id by lia. by rewrite Z.mod_mul.
Qed.

Lemma list_of_two (l : list Z) : length l = 2%nat -> exists a b, l = [a; b].
Proof. destruct l as [|a [|b [|]]]; try done. by exists a, b. Qed.
Lemma list_of_four (l : list Z) : length l = 4%nat -> exists a b c d, l = [a; b; c; d].
Proof. destruct l as [|a [|b [|c [|d [|]]]]]; try done. by exists a, b, c, d. Qed.
Lemma length_octets a : length (octets a) = 4%nat.
Proof. unfold octets. by rewrite length_reverse, length_le_bytes. Qed.

Section codec.
Context (big : bool).

Lemma length_ne_bytes n v : length (ne_bytes big n v) = n.
Proof. unfold ne_bytes. destruct big; rewrite ?length_reverse; apply length_le_bytes. Qed.
Lemma ne_value_bytes n v : 0 <= v < 256 ^ Z.of_nat n -> ne_value big (ne_bytes big n v) = v.
Proof. unfold ne_value, ne_bytes. destruct big; rewrite ?reverse_involutive; apply le_value_bytes. Qed.
Lemma read_u16_bytes v : 0 <= v < 2 ^ 16 -> read_u16 big (ne_bytes big 2 v) = Ok v.
Proof. intros Hv. unfold read_u16. rewrite length_ne_bytes. simpl. f_equal. by apply ne_value_bytes. Qed.
Lemma read_u32_bytes v : 0 <= v < 2 ^ 32 -> read_u32 big (ne_bytes big 4 v) = Ok v.
Proof. intros Hv. unfold read_u32. rewrite length_ne_bytes. simpl. f_equal. by apply ne_value_bytes. Qed.

(** The layout of a request, field by field. *)
Definition attribute_bytes (attribute_type : Z) (a : Z) : list Z := ne_bytes big 2 8 ++ ne_bytes big 2 attribute_type ++ octets a.
Definition address_bytes (index : Z) (p : Ipv4InterfacePrefix) : list Z :=
  [AF_INET; ip4_prefix_len p; 0; 0] ++ ne_bytes big 4 index ++ attribute_bytes IFA_LOCAL (ip4_address p) ++ attribute_bytes IFA_ADDRESS (ip4_address p).
Lemma address_change_request_layout message_type flags index p :
  address_change_request big message_type flags index p =
    ne_bytes big 4 40 ++ ne_bytes big 2 message_type ++ ne_bytes big 2 flags ++ ne_bytes big 4 REQUEST_SEQUENCE ++ ne_bytes big 4 0 ++
    address_bytes index p.
Proof.
  unfold address_change_request, address_bytes, attribute_bytes, push_attribute, push_u32, push_u16.
  destruct (list_of_two _ (length_ne_bytes 2 message_type)) as (t0 & t1 & ->).
  destruct (list_of_two _ (length_ne_bytes 2 flags)) as (f0 & f1 & ->).
  destruct (list_of_four _ (length_ne_bytes 4 index)) as (i0 & i1 & i2 & i3 & ->).
  destruct (list_of_four _ (length_octets (ip4_address p))) as (a0 & a1 & a2 & a3 & ->).
  destruct big; reflexivity.
Qed.
Lemma address_dump_request_layout : address_dump_request big =
  ne_bytes big 4 24 ++ ne_bytes big 2 RTM_GETADDR ++ ne_bytes big 2 (Z.lor NLM_F_REQUEST NLM_F_DUMP) ++
  ne_bytes big 4 REQUEST_SEQUENCE ++ ne_bytes big 4 0 ++ [AF_INET; 0; 0; 0; 0; 0; 0; 0].
Proof. destruct big; reflexivity. Qed.

(** The fixed part of a message, then its payload, then other messages. *)
Lemma netlink_message_fields len message_type flags sequence pid payload rest :
  Z.of_nat (16 + length payload) = len -> len < 2 ^ 32 -> 0 <= message_type < 2 ^ 16 -> 0 <= sequence < 2 ^ 32 ->
  netlink_message big ((ne_bytes big 4 len ++ ne_bytes big 2 message_type ++ ne_bytes big 2 flags ++ ne_bytes big 4 sequence ++
    ne_bytes big 4 pid ++ payload) ++ rest) = Ok (mkNetlinkMessage (16 + length payload) message_type sequence payload).
Proof.
  intros Hlen Hmax Ht Hs.
  pose proof (read_u32_bytes len) as Rl. pose proof (read_u16_bytes message_type Ht) as Rt. pose proof (read_u32_bytes sequence Hs) as Rs.
  destruct (list_of_four _ (length_ne_bytes 4 len)) as (l0 & l1 & l2 & l3 & El). rewrite El in Rl |- *.
  destruct (list_of_two _ (length_ne_bytes 2 message_type)) as (t0 & t1 & Et). rewrite Et in Rt |- *.
  destruct (list_of_two _ (length_ne_bytes 2 flags)) as (f0 & f1 & ->).
  destruct (list_of_four _ (length_ne_bytes 4 sequence)) as (s0 & s1 & s2 & s3 & Es). rewrite Es in Rs |- *.
  destruct (list_of_four _ (length_ne_bytes 4 pid)) as (p0 & p1 & p2 & p3 & ->).
  unfold netlink_message. unfold slice, NETLINK_HEADER_LEN. cbn [app firstn skipn Nat.sub]. rewrite Rl by lia. cbn [mbind result_bind].
  rewrite Rt, Rs. cbn [mbind result_bind length]. rewrite length_app.
  replace (Z.to_nat len) with (16 + length payload)%nat by lia.
  rewrite (proj2 (Nat.ltb_ge _ 16)), (proj2 (Nat.ltb_ge (16 + length payload) 16)), (proj2 (Nat.ltb_ge _ (16 + length payload))) by lia.
  cbn [guard_err orb]. do 2 f_equal. replace (16 + length payload - 16)%nat with (length payload) by lia.
  apply take_app_length.
Qed.

Definition ip4_ok (p : Ipv4InterfacePrefix) : Prop := 0 <= ip4_address p <= u_max 32 /\ 0 <= ip4_prefix_len p <= u_max 8.

Lemma parse_attribute_bytes fuel attribute_type a rest local address : 0 <= a <= u_max 32 ->
  attribute_type = IFA_LOCAL \/ attribute_type = IFA_ADDRESS ->
  parse_attributes big (S fuel) (attribute_bytes attribute_type a ++ rest) local address =
    if attribute_type =? IFA_LOCAL then parse_attributes big fuel rest (Some a) address else parse_attributes big fuel rest local (Some a).
Proof.
  intros Ha Ht. assert (0 <= attribute_type < 2 ^ 16) as Hr by (destruct Ht as [-> | ->]; unfold IFA_LOCAL, IFA_ADDRESS; lia).
  pose proof (read_u16_bytes 8 ltac:(lia)) as R8. pose proof (read_u16_bytes attribute_type Hr) as Rt. pose proof (from_octets_octets a Ha) as Ho.
  unfold attribute_bytes.
  destruct (list_of_two _ (length_ne_bytes 2 8)) as (l0 & l1 & El). rewrite El in R8 |- *.
  destruct (list_of_two _ (length_ne_bytes 2 attribute_type)) as (t0 & t1 & Et). rewrite Et in Rt |- *.
  destruct (list_of_four _ (length_octets a)) as (o0 & o1 & o2 & o3 & Eo). rewrite Eo in Ho |- *.
  cbn [app parse_attributes length]. unfold slice, ATTRIBUTE_HEADER_LEN. cbn [firstn skipn Nat.sub]. rewrite R8, Rt.
  rewrite (proj2 (Nat.ltb_ge _ 4)) by lia. cbn [guard_err mbind result_bind].
  change (Z.to_nat 8) with 8%nat. rewrite (proj2 (Nat.ltb_ge _ 8)) by lia. cbn [Nat.ltb Nat.leb orb guard_err].
  cbn [firstn skipn Nat.sub length]. change (align4 8) with 8%nat. cbn [skipn]. rewrite !take_0, !drop_0, Ho.
  destruct Ht as [-> | ->]; reflexivity.
Qed.

Lemma parse_address_bytes index index' p : 0 <= index < 2 ^ 32 -> ip4_ok p ->
  parse_ipv4_address big (address_bytes index p) index' = Ok (if index =? index' then Some p else None).
Proof.
  intros Hi [Ha Hp]. unfold parse_ipv4_address. pose proof (read_u32_bytes index Hi) as Ri.
  assert (length (address_bytes index p) = 24%nat) as Hl.
  { unfold address_bytes, attribute_bytes. by rewrite !length_app, !length_ne_bytes, !length_octets. }
  rewrite Hl. cbn [guard_err]. change ((24 <? IFADDR_MESSAGE_LEN)%nat) with false. cbn [guard_err].
  unfold address_bytes. destruct (list_of_four _ (length_ne_bytes 4 index)) as (i0 & i1 & i2 & i3 & Ei). rewrite Ei in Ri |- *.
  unfold slice. cbn [app nth firstn skipn Nat.sub]. rewrite take_0, Ri. cbn [negb mbind result_bind]. change (AF_INET =? AF_INET) with true. cbn [negb].
  destruct (index =? index'); [|done]. cbn [negb]. unfold IFADDR_MESSAGE_LEN. cbn [skipn].
  rewrite <- (app_nil_r (attribute_bytes IFA_ADDRESS _)).
  rewrite drop_0, (parse_attribute_bytes 23) by (done || by left). change (IFA_LOCAL =? IFA_LOCAL) with true. cbv iota.
  rewrite (parse_attribute_bytes 22) by (done || by right). cbn. by destruct p.
Qed.

(** A slice that is in bounds is read. *)
Lemma read_u16_slice a b (l : list Z) : b = (a + 2)%nat -> (b <= length l)%nat -> exists v, read_u16 big (slice a b l) = Ok v.
Proof. intros -> Ha. unfold read_u16. rewrite length_slice by lia. replace (a + 2 - a)%nat with 2%nat by lia. eauto. Qed.
Lemma read_u32_slice a b (l : list Z) : b = (a + 4)%nat -> (b <= length l)%nat -> exists v, read_u32 big (slice a b l) = Ok v.
Proof. intros -> Ha. unfold read_u32. rewrite length_slice by lia. replace (a + 4 - a)%nat with 4%nat by lia. eauto. Qed.

Lemma netlink_message_total bytes : match netlink_message big bytes with
  | Ok m => (NETLINK_HEADER_LEN <= nm_length m <= length bytes)%nat /\ length (nm_payload m) = (nm_length m - NETLINK_HEADER_LEN)%nat
  | Err e => e ∈ [protocol_error "truncated netlink header"; protocol_error "invalid netlink message length {length} for {} available bytes"]
  end.
Proof.
  unfold netlink_message. destruct (Nat.ltb_spec (length bytes) NETLINK_HEADER_LEN) as [|Hl]; cbn [guard_err]; [set_solver|].
  unfold NETLINK_HEADER_LEN in *. destruct (read_u32_slice 0 4 bytes eq_refl ltac:(lia)) as [len ->]. cbn [mbind result_bind].
  destruct (orb _ _) eqn:Hb; cbn [guard_err]; [set_solver|]. apply orb_false_iff in Hb as [H1%Nat.ltb_ge H2%Nat.ltb_ge].
  destruct (read_u16_slice 4 6 bytes eq_refl ltac:(lia)) as [t ->], (read_u32_slice 8 12 bytes eq_refl ltac:(lia)) as [q ->]. cbn [mbind result_bind nm_length nm_payload].
  rewrite length_slice by lia. lia.
Qed.

Lemma parse_attributes_total fuel rest local address : match parse_attributes big fuel rest local address with
  | Ok _ => True
  | Err e => e ∈ [protocol_error "truncated rtnetlink address attribute"; protocol_error "invalid rtnetlink address attribute length"]
  end.
Proof.
  revert rest local address. induction fuel as [|fuel IH]; intros [|b rest] local address; try done. cbn [parse_attributes].
  destruct (Nat.ltb_spec (length (b :: rest)) ATTRIBUTE_HEADER_LEN) as [|Hl]; cbn [guard_err]; [set_solver|].
  unfold ATTRIBUTE_HEADER_LEN in *.
  destruct (read_u16_slice 0 2 (b :: rest) eq_refl ltac:(lia)) as [len ->], (read_u16_slice 2 4 (b :: rest) eq_refl ltac:(lia)) as [t ->]. cbn [mbind result_bind].
  destruct (orb _ _); cbn [guard_err]; [set_solver|]. destruct (andb _ _); [apply IH|]. destruct (andb _ _); apply IH.
Qed.

(** More fuel than bytes changes nothing: the loop has ended. *)
Lemma parse_attributes_fuel fuel fuel' rest local address : (length rest <= fuel)%nat -> (length rest <= fuel')%nat ->
  parse_attributes big fuel rest local address = parse_attributes big fuel' rest local address.
Proof.
  revert fuel' rest local address. induction fuel as [|fuel IH]; intros [|fuel'] [|b rest] local address Hf Hf'; try done; [simpl in *; lia..|].
  cbn [parse_attributes]. destruct (_ <? _)%nat; [done|]. cbn [guard_err].
  destruct (read_u16 big _) as [ty|e]; [|done]. destruct (read_u16 big _) as [len|e]; [|done]. cbn [mbind result_bind]. cbv zeta.
  destruct (Nat.ltb_spec (Z.to_nat len) ATTRIBUTE_HEADER_LEN) as [|Hlen]; [done|]. cbn [orb].
  destruct (_ <? _)%nat; [done|]. cbn [guard_err].
  assert (length (drop (align4 (Z.to_nat len)) (b :: rest)) <= fuel /\ length (drop (align4 (Z.to_nat len)) (b :: rest)) <= fuel')%nat as [H1 H2].
  { rewrite length_drop. pose proof (align4_spec (Z.to_nat len)). unfold ATTRIBUTE_HEADER_LEN in Hlen. simpl in *. lia. }
  rewrite (IH fuel' _ local (Some _)), (IH fuel' _ (Some _) address), (IH fuel' _ local address) by done. done.
Qed.

(** Whatever the order of the host's bytes, a request that is written is read back:
    its header, and the address for the interface it names and for no other; the
    messages behind it do not matter.  On bytes of any kind the reader stays in bounds
    and answers: a message of the length it declares, or one of the errors for a
    message or an attribute that is cut off or declares what is not there. *)
Theorem rtnetlink_roundtrip (message_type flags index : Z) (p : Ipv4InterfacePrefix) (rest : list Z)
    (Ht : 0 <= message_type < 2 ^ 16) (Hi : 0 <= index < 2 ^ 32) (Hp : ip4_ok p) :
  let request := address_change_request big message_type flags index p in
  (exists m, netlink_message big (request ++ rest) = Ok m /\ nm_length m = length request /\ nm_message_type m = message_type /\
    nm_sequence m = REQUEST_SEQUENCE /\
    forall index', parse_ipv4_address big (nm_payload m) index' = Ok (if index =? index' then Some p else None)) /\
  (forall bytes, match netlink_message big bytes with
    | Ok m => (NETLINK_HEADER_LEN <= nm_length m <= length bytes)%nat /\ length (nm_payload m) = (nm_length m - NETLINK_HEADER_LEN)%nat
    | Err e => e ∈ [protocol_error "truncated netlink header"; protocol_error "invalid netlink message length {length} for {} available bytes"]
    end) /\
  (forall payload expected, match parse_ipv4_address big payload expected with
    | Ok _ => True
    | Err e => e ∈ [protocol_error "truncated rtnetlink address message"; protocol_error "truncated rtnetlink address attribute";
        protocol_error "invalid rtnetlink address attribute length"]
    end).
Proof.
  assert (length (address_bytes index p) = 24%nat) as Hl.
  { unfold address_bytes, attribute_bytes. by rewrite !length_app, !length_ne_bytes, !length_octets. }
  cbn zeta. split_and!; [|apply netlink_message_total|].
  - eexists. split.
    { rewrite address_change_request_layout. apply netlink_message_fields; [by rewrite Hl | lia | done | unfold REQUEST_SEQUENCE; lia]. }
    cbn [nm_length nm_message_type nm_sequence nm_payload]. split_and!; try done.
    + rewrite address_change_request_layout, Hl, !length_app, !length_ne_bytes, Hl. done.
    + intros index'. by apply parse_address_bytes.
  - intros payload expected. unfold parse_ipv4_address.
    destruct (Nat.ltb_spec (length payload) IFADDR_MESSAGE_LEN) as [|Hp']; cbn [guard_err]; [set_solver|].
    unfold IFADDR_MESSAGE_LEN in *. destruct (negb _); [done|]. destruct (read_u32_slice 4 8 payload eq_refl ltac:(lia)) as [v ->]. cbn [mbind result_bind].
    destruct (negb _); [done|]. pose proof (parse_attributes_total (length payload) (drop 8 payload) None None) as Ha.
    destruct (parse_attributes _ _ _ _ _) as [[]|e]; [done|]. cbn. set_solver.
Qed.
End codec.

Lemma rtnetlink_roundtrip_witness :
  (0 <= RTM_NEWADDR < 2 ^ 16 /\ 0 <= 42 < 2 ^ 32 /\ ip4_ok (mkIpv4Prefix 180966914 24)) /\
  parse_ipv4_address false (drop 16 (address_change_request false RTM_NEWADDR add_flags 42 (mkIpv4Prefix 180966914 24))) 42 =
    Ok (Some (mkIpv4Prefix 180966914 24)) /\
  exists m, netlink_message true (address_change_request true RTM_NEWADDR add_flags 42 (mkIpv4Prefix 180966914 24) ++ [1; 2; 3]) = Ok m.
Proof.
  assert (0 <= RTM_NEWADDR < 2 ^ 16) as Ht by (unfold RTM_NEWADDR; lia). assert (0 <= 42 < 2 ^ 32) as Hi by lia.
  assert (ip4_ok (mkIpv4Prefix 180966914 24)) as Hp by (unfold ip4_ok, u_max; simpl; lia).
  split_and!; [exact (proj1 Ht) | exact (proj2 Ht) | lia | lia | exact Hp | vm_compute; reflexivity |].
  destruct (rtnetlink_roundtrip true RTM_NEWADDR add_flags 42 (mkIpv4Prefix 180966914 24) [1; 2; 3] Ht Hi Hp) as ((m & Hm & _) & _).
  exists m. exact Hm.
Defined.

(** ** What the kernel is asked *)

(** A socket whose requests are recorded: [sent] is not of the code. *)
Class RecordedSocket (W : Type) `{RouteSocket W} := {
  sent : W -> list (list Z);
  open_sends w : sent (open_netlink w).2 = sent w;
  bind_sends w : sent (bind_netlink w).2 = sent w;
  connect_sends w : sent (connect_netlink w).2 = sent w;
  index_sends name w : sent (name_to_index name w).2 = sent w;
  recv_sends n w : sent (nl_recv n w).2 = sent w;
  send_sends request w : sent (nl_send request w).2 = sent w ++ [request];
}.

Section requests.
Context (big : bool) {W : Type} `{HS : RouteSocket W} `{HR : !RecordedSocket W}.

(** The call sends exactly these requests, whatever it comes to. *)
Definition sends {A : Type} (l : list (list Z)) (m : stres W CoreError A) : Prop := forall w, sent (m w).2 = sent w ++ l.

Lemma sends_map_err {E A : Type} (f : E -> CoreError) (m : stres W E A) w : sent (st_map_err f m w).2 = sent (m w).2.
Proof. unfold st_map_err. by destruct (m w). Qed.
Lemma sends_result {A : Type} (r : result CoreError A) : sends [] (fun w => (r, w)).
Proof. intros w. by rewrite app_nil_r. Qed.
Lemma sends_quiet {E A : Type} (f : E -> CoreError) (m : stres W E A) : (forall w, sent (m w).2 = sent w) -> sends [] (st_map_err f m).
Proof. intros Hm w. by rewrite sends_map_err, Hm, app_nil_r. Qed.
Lemma sends_bind {A B : Type} l (m : stres W CoreError A) (k : A -> stres W CoreError B) :
  sends l m -> (forall a, sends [] (k a)) -> sends l (st_bind m k).
Proof.
  intros Hm Hk w. unfold st_bind. specialize (Hm w). destruct (m w) as [[a|e] w1]; [|done]. by rewrite Hk, app_nil_r.
Qed.

Lemma sends_socket : sends [] (route_socket (W:=W)).
Proof.
  apply sends_bind; [apply sends_quiet, open_sends | intros _]. apply sends_bind; [apply sends_quiet, bind_sends | intros _].
  apply sends_quiet, connect_sends.
Qed.
Lemma sends_exact request : sends [request] (send_exact (W:=W) request).
Proof.
  apply sends_bind; [|intros n; apply sends_result]. intros w. rewrite sends_map_err. apply send_sends.
Qed.
Lemma sends_dump_datagrams fuel index l : sends [] (dump_datagrams (W:=W) big fuel index l).
Proof.
  revert l. induction fuel as [|fuel IH]; intros l; cbn [dump_datagrams]; [apply sends_result|].
  apply sends_bind; [apply sends_quiet, recv_sends | intros received].
  apply sends_bind; [apply sends_result | intros [[] addresses]]; [apply sends_result | apply IH].
Qed.
Lemma sends_addresses fuel index : sends [address_dump_request big] (ipv4_addresses (W:=W) big fuel index).
Proof. apply sends_bind; [apply sends_exact | intros _; apply sends_dump_datagrams]. Qed.
Lemma sends_ack_datagrams fuel : sends [] (ack_datagrams (W:=W) big fuel).
Proof.
  induction fuel as [|fuel IH]; cbn [ack_datagrams]; [apply sends_result|].
  apply sends_bind; [apply sends_quiet, recv_sends | intros received].
  apply sends_bind; [apply sends_result | intros [[]|]]; [apply sends_result | apply IH].
Qed.
Lemma sends_change fuel message_type flags index p :
  sends [address_change_request big message_type flags index p] (change_address (W:=W) big fuel message_type flags index p).
Proof. apply sends_bind; [apply sends_exact | intros _; apply sends_ack_datagrams]. Qed.

Lemma sends_run {A : Type} l (m : stres W CoreError A) w x w' : sends l m -> m w = (x, w') -> sent w' = sent w ++ l.
Proof. intros Hm He. specialize (Hm w). by rewrite He in Hm. Qed.

Definition add_request (index : Z) (p : Ipv4InterfacePrefix) : list Z := address_change_request big RTM_NEWADDR add_flags index p.
Definition delete_request (index : Z) (p : Ipv4InterfacePrefix) : list Z := address_change_request big RTM_DELADDR delete_flags index p.

Abbreviation listing := (ipv4_addresses (W:=W) big).
Abbreviation adding fuel := (change_address (W:=W) big fuel RTM_NEWADDR add_flags).
Abbreviation deleting fuel := (change_address (W:=W) big fuel RTM_DELADDR delete_flags).

(** A call that did not return a value ends the operation: with its error, or, when
    the kernel's datagrams did not come to an end within the fuel, without one. *)
Definition gives_up {A B : Type} (x : CoreResult (option A)) (r : CoreResult (option B)) : Prop :=
  match x with Ok (Some _) => False | Ok None => r = Ok None | Err e => r = Err e end.

Lemma returned_cases {A B : Type} (m : stres W CoreError (option A)) (k : A -> stres W CoreError (option B)) w r w' :
  returned m k w = (r, w') ->
  (exists a w1, m w = (Ok (Some a), w1) /\ k a w1 = (r, w')) \/ (exists x, m w = (x, w') /\ gives_up x r).
Proof.
  unfold returned, st_bind. destruct (m w) as [[[a|]|e] w1]; [by left; eauto|intros [= <- <-]; right..].
  - by exists (Ok None).
  - by exists (Err e).
Qed.

Definition interface_occupied : CoreError := core_error_with_diagnostic InvalidState
  "refusing to configure a PANU interface that already has IPv4 state" "interface={} ifindex={} existing={}".

(** Setting the address [p] on an index from [w], each call in the state the one
    before it left: how it ends, and what was asked for. *)
Inductive address_set (fuel : nat) (a : InterfaceAddress) (index : Z) (p : Ipv4InterfacePrefix) (w : W) :
    CoreResult (option KernelAddressLease) -> W -> list (list Z) -> Prop :=
| set_unlisted x r w1 : listing fuel index w = (x, w1) -> gives_up x r ->
    address_set fuel a index p w r w1 [address_dump_request big]
| set_occupied existing w1 : listing fuel index w = (Ok (Some existing), w1) -> existing <> [] ->
    address_set fuel a index p w (Err interface_occupied) w1 [address_dump_request big]
| set_not_added w1 x r w2 : listing fuel index w = (Ok (Some []), w1) -> adding fuel index p w1 = (x, w2) -> gives_up x r ->
    address_set fuel a index p w r w2 [address_dump_request big; add_request index p]
| set_unseen w1 w2 x r w3 : listing fuel index w = (Ok (Some []), w1) -> adding fuel index p w1 = (Ok (Some ()), w2) ->
    listing fuel index w2 = (x, w3) -> gives_up x r ->
    address_set fuel a index p w r w3 [address_dump_request big; add_request index p; address_dump_request big]
| set_leased w1 w2 w3 : listing fuel index w = (Ok (Some []), w1) -> adding fuel index p w1 = (Ok (Some ()), w2) ->
    listing fuel index w2 = (Ok (Some [p]), w3) ->
    address_set fuel a index p w (Ok (Some (mkKernelLease a index))) w3
      [address_dump_request big; add_request index p; address_dump_request big]
| set_withdrawn w1 w2 applied w3 x w4 : listing fuel index w = (Ok (Some []), w1) -> adding fuel index p w1 = (Ok (Some ()), w2) ->
    listing fuel index w2 = (Ok (Some applied), w3) -> applied <> [p] -> deleting fuel index p w3 = (x, w4) ->
    address_set fuel a index p w (match x with Ok None => Ok None | _ => Err not_converged end) w4
      [address_dump_request big; add_request index p; address_dump_request big; delete_request index p].

Lemma address_set_sends fuel a index p (w w' : W) r k : address_set fuel a index p w r w' k -> sent w' = sent w ++ k.
Proof.
  assert (forall w x w', listing fuel index w = (x, w') -> sent w' = sent w ++ [address_dump_request big]) as L
    by (intros ? ? ?; apply sends_run, sends_addresses).
  assert (forall w x w', adding fuel index p w = (x, w') -> sent w' = sent w ++ [add_request index p]) as A
    by (intros ? ? ?; apply sends_run, sends_change).
  assert (forall w x w', deleting fuel index p w = (x, w') -> sent w' = sent w ++ [delete_request index p]) as D
    by (intros ? ? ?; apply sends_run, sends_change).
  destruct 1 as [? ? ? H1|? ? H1|? ? ? ? H1 H2|? ? ? ? ? H1 H2 H3|? ? ? H1 H2 H3|? ? ? ? ? ? H1 H2 H3 _ H4].
  - apply (L _ _ _ H1).
  - apply (L _ _ _ H1).
  - by rewrite (A _ _ _ H2), (L _ _ _ H1), <- app_assoc.
  - by rewrite (L _ _ _ H3), (A _ _ _ H2), (L _ _ _ H1), <- !app_assoc.
  - by rewrite (L _ _ _ H3), (A _ _ _ H2), (L _ _ _ H1), <- !app_assoc.
  - by rewrite (D _ _ _ H4), (L _ _ _ H3), (A _ _ _ H2), (L _ _ _ H1), <- !app_assoc.
Qed.

(** What a lease comes from. *)
Lemma address_set_lease fuel a index p (w w' : W) lease k : address_set fuel a index p w (Ok (Some lease)) w' k ->
  lease = mkKernelLease a index /\ k = [address_dump_request big; add_request index p; address_dump_request big].
Proof.
  intros Hs. inversion Hs as [x ? ? ? Hx| |? x ? ? ? ? Hx|? ? x ? ? ? ? ? Hx| |? ? ? ? x ? ? ? ? ? ? Hx]; subst; try done;
    destruct x as [[]|]; try done; cbn in Hx; congruence.
Qed.

(** The interface's index, found over a socket that was set up, with nothing sent. *)
Definition index_found (name : list Z) (w : W) (index : Z) (w2 : W) : Prop :=
  exists w1, route_socket w = (Ok (), w1) /\ name_to_index name w1 = (Ok index, w2) /\ sent w2 = sent w.

Lemma socket_quiet (w w1 : W) x : route_socket w = (x, w1) -> sent w1 = sent w.
Proof. intros H1. pose proof (sends_run [] _ _ _ _ sends_socket H1) as Hs. by rewrite app_nil_r in Hs. Qed.

(** C40. Setting the address of a PANU interface asks the kernel for nothing but that.
    Nothing is sent unless the prefix is IPv4, the socket is set up and the
    interface has an index.  Then, on that index, the addresses are listed; only if
    there is none the address is added; after that they are listed again; a lease is
    given exactly when that second listing is the address alone, and when it is
    anything else the withdrawal of the address is sent and the operation fails.  No
    other request is sent, and a call that fails ends the operation with its error. *)
Theorem ensure_panu_address_exact (fuel : nat) (a : InterfaceAddress) (w w' : W) (r : CoreResult (option KernelAddressLease))
    (Hr : ensure_panu_address big fuel a w = (r, w')) :
  (sent w' = sent w /\ exists e, r = Err e) \/
  exists p index w2 k, ipv4_prefix (ia_prefix a) = Ok p /\ index_found (as_str (ia_interface a)) w index w2 /\
    address_set fuel a index p w2 r w' k /\ sent w' = sent w ++ k.
Proof.
  unfold ensure_panu_address in Hr. rewrite st_bind_lift in Hr. destruct (ipv4_prefix (ia_prefix a)) as [p|e] eqn:Hp.
  2:{ injection Hr as <- <-. left. eauto. }
  unfold st_bind in Hr at 1. destruct (route_socket w) as [[[]|e] w1] eqn:H1; pose proof (socket_quiet _ _ _ H1) as Hs1.
  2:{ injection Hr as <- <-. left. eauto. }
  unfold st_bind in Hr at 1. unfold interface_index, st_map_err in Hr. pose proof (index_sends (as_str (ia_interface a)) w1) as Hs2.
  destruct (name_to_index _ w1) as [[index|e] w2] eqn:H2; cbn [map_err snd] in Hr, Hs2.
  2:{ injection Hr as <- <-. left. split; [congruence | eauto]. }
  right. enough (exists k, address_set fuel a index p w2 r w' k) as [k Hk].
  { exists p, index, w2, k. split_and!; [done|exists w1; split_and!; [done..|congruence]|done|].
    rewrite (address_set_sends _ _ _ _ _ _ _ _ Hk). congruence. }
  apply returned_cases in Hr as [(existing & w3 & Ha & Hr)|(x & Ha & Hx)]; [|eexists; by eapply set_unlisted].
  destruct (bool_decide_reflect (existing = [])) as [->|Hne]; cbn [negb] in Hr; [|injection Hr as <- <-; eexists; by eapply set_occupied].
  apply returned_cases in Hr as [([] & w4 & Hc & Hr)|(x & Hc & Hx)]; [|eexists; by eapply set_not_added].
  apply returned_cases in Hr as [(applied & w5 & Hb & Hr)|(x & Hb & Hx)]; [|eexists; by eapply set_unseen].
  destruct (bool_decide_reflect (applied = [p])) as [->|Hne]; [injection Hr as <- <-; eexists; by eapply set_leased|].
  unfold undo_address in Hr. destruct (deleting fuel index p w5) as [x w6] eqn:Hd.
  assert (r = (match x with Ok None => Ok None | _ => Err not_converged end) /\ w' = w6) as [-> ->]
    by (destruct x as [[[]|]|e]; by injection Hr as <- <-).
  eexists. by eapply set_withdrawn.
Qed.

(** Taking the address [p] away, each call in the state the one before it left. *)
Inductive address_unset (fuel : nat) (index : Z) (p : Ipv4InterfacePrefix) (w : W) : CoreResult (option ()) -> W -> list (list Z) -> Prop :=
| unset_unlisted x r w1 : listing fuel index w = (x, w1) -> gives_up x r -> address_unset fuel index p w r w1 [address_dump_request big]
| unset_absent existing w1 : listing fuel index w = (Ok (Some existing), w1) -> p ∉ existing ->
    address_unset fuel index p w (Ok (Some ())) w1 [address_dump_request big]
| unset_refused existing w1 x r w2 : listing fuel index w = (Ok (Some existing), w1) -> p ∈ existing ->
    deleting fuel index p w1 = (x, w2) -> gives_up x r ->
    address_unset fuel index p w r w2 [address_dump_request big; delete_request index p]
| unset_unseen existing w1 w2 x r w3 : listing fuel index w = (Ok (Some existing), w1) -> p ∈ existing ->
    deleting fuel index p w1 = (Ok (Some ()), w2) -> listing fuel index w2 = (x, w3) -> gives_up x r ->
    address_unset fuel index p w r w3 [address_dump_request big; delete_request index p; address_dump_request big]
| unset_checked existing w1 w2 remaining w3 r : listing fuel index w = (Ok (Some existing), w1) -> p ∈ existing ->
    deleting fuel index p w1 = (Ok (Some ()), w2) -> listing fuel index w2 = (Ok (Some remaining), w3) ->
    (p ∉ remaining) /\ r = Ok (Some ()) \/ (p ∈ remaining) /\ (exists e, r = Err e) ->
    address_unset fuel index p w r w3 [address_dump_request big; delete_request index p; address_dump_request big].

(** Taking an address away asks nothing when the interface is gone or is another one by
    now, and nothing but a listing when the address is not there; it succeeds after the
    withdrawal only when the address was listed before and no more after. *)
Theorem remove_panu_address_exact (fuel : nat) (lease : KernelAddressLease) (w w' : W) (r : CoreResult (option ()))
    (Hr : remove_panu_address big fuel lease w = (r, w')) :
  let index := kl_interface_index lease in
  sent w' = sent w \/
  exists p w2 k, ipv4_prefix (ia_prefix (kl_address lease)) = Ok p /\ index_found (as_str (ia_interface (kl_address lease))) w index w2 /\
    address_unset fuel index p w2 r w' k.
Proof.
  cbn zeta. unfold remove_panu_address in Hr. rewrite st_bind_lift in Hr. destruct (ipv4_prefix _) as [p|e] eqn:Hp; [|injection Hr as <- <-; by left].
  unfold st_bind in Hr at 1. destruct (route_socket w) as [[[]|e] w1] eqn:H1; pose proof (socket_quiet _ _ _ H1) as Hs1.
  2:{ injection Hr as <- <-. by left. }
  pose proof (index_sends (as_str (ia_interface (kl_address lease))) w1) as Hs2.
  destruct (name_to_index _ w1) as [[index|[|text]] w2] eqn:H2; cbn in Hs2; [|injection Hr as <- <-; left; congruence..].
  destruct (Z.eqb_spec index (kl_interface_index lease)) as [->|]; [|injection Hr as <- <-; left; congruence]. cbn [negb] in Hr.
  right. set (index := kl_interface_index lease) in *. enough (exists k, address_unset fuel index p w2 r w' k) as [k Hk].
  { exists p, w2, k. split_and!; [done|exists w1; split_and!; [done..|congruence]|done]. }
  apply returned_cases in Hr as [(existing & w3 & Ha & Hr)|(x & Ha & Hx)]; [|eexists; by eapply unset_unlisted].
  destruct (bool_decide_reflect (p ∈ existing)) as [Hin|Hn]; cbn [negb] in Hr; [|injection Hr as <- <-; eexists; by eapply unset_absent].
  apply returned_cases in Hr as [([] & w4 & Hc & Hr)|(x & Hc & Hx)]; [|eexists; by eapply unset_refused].
  apply returned_cases in Hr as [(remaining & w5 & Hb & Hr)|(x & Hb & Hx)]; [|eexists; by eapply unset_unseen].
  assert (w' = w5) as -> by (by destruct (bool_decide (p ∈ remaining)); injection Hr).
  eexists. apply (unset_checked fuel index p w2 existing w3 w4 remaining); [exact Ha|exact Hin|exact Hc|exact Hb|].
  destruct (bool_decide_reflect (p ∈ remaining)); injection Hr as <-; [right; eauto|by left].
Qed.
End requests.

(** A kernel with one interface, whose index is 7: its addresses, the datagrams it has
    to send, and the requests it was sent. *)
Module kernel_demo.
Record Kernel := mkKernel { k_addresses : list Ipv4InterfacePrefix; k_inbox : list (list Z); k_sent : list (list Z) }.
Definition header (len message_type : Z) : list Z := ne_bytes false 4 len ++ ne_bytes false 2 message_type ++ [0; 0] ++ ne_bytes false 4 REQUEST_SEQUENCE ++ [0; 0; 0; 0].
Definition answer (k : Kernel) (request : list Z) : Kernel :=
  let recorded := k_sent k ++ [request] in
  if bool_decide (request = address_dump_request false) then
    mkKernel (k_addresses k)
      [concat ((fun p => address_change_request false RTM_NEWADDR 0 7 p) <$> k_addresses k) ++ header 16 NLMSG_DONE] recorded
  else match netlink_message false request with
  | Ok m => match parse_ipv4_address false (nm_payload m) 7 with
    | Ok (Some p) => mkKernel (if nm_message_type m =? RTM_NEWADDR then p :: k_addresses k else List.filter (fun q => negb (bool_decide (q = p))) (k_addresses k))
        [header 20 NLMSG_ERROR ++ [0; 0; 0; 0]] recorded
    | _ => mkKernel (k_addresses k) [] recorded
    end
  | Err _ => mkKernel (k_addresses k) [] recorded
  end.
Definition socket : RouteSocket Kernel := {|
  open_netlink := fun k => (Ok (), k);
  bind_netlink := fun k => (Ok (), k);
  connect_netlink := fun k => (Ok (), k);
  name_to_index _ := fun k => (Ok 7, k);
  nl_send request := fun k => (Ok (length request), answer k request);
  nl_recv _ := fun k => match k_inbox k with [] => (Err "no data", k) | d :: inbox => (Ok d, mkKernel (k_addresses k) inbox (k_sent k)) end;
|}.
Definition address : InterfaceAddress := mkInterfaceAddress (mkInterface [98; 110]) (mkPrefix (V4 180966914) 24) (fill_id 9).
End kernel_demo.

#[local] Existing Instance kernel_demo.socket.
#[local] Instance kernel_demo_recorded : RecordedSocket kernel_demo.Kernel.
Proof.
  refine {| sent := kernel_demo.k_sent |}; try done.
  - intros n w. cbn. by destruct (kernel_demo.k_inbox w).
  - intros request w. cbn. unfold kernel_demo.answer. destruct (bool_decide _); [done|].
    destruct (netlink_message false request) as [m|e]; [|done]. by destruct (parse_ipv4_address false _ 7) as [[p|]|e].
Defined.

Lemma ensure_panu_address_exact_witness :
  let w := kernel_demo.mkKernel [] [] [] in
  let p := mkIpv4Prefix 180966914 24 in
  exists w' k, ensure_panu_address false 1 kernel_demo.address w = (Ok (Some (mkKernelLease kernel_demo.address 7)), w') /\
    kernel_demo.k_addresses w' = [p] /\ kernel_demo.k_sent w' = k /\
    k = [address_dump_request false; address_change_request false RTM_NEWADDR add_flags 7 p; address_dump_request false].
Proof.
  intros w p. set (w' := (ensure_panu_address false 1 kernel_demo.address w).2).
  assert (ensure_panu_address false 1 kernel_demo.address w = (Ok (Some (mkKernelLease kernel_demo.address 7)), w')) as Hr by (vm_compute; reflexivity).
  exists w', (kernel_demo.k_sent w'). split; [exact Hr|]. split; [vm_compute; reflexivity|]. split; [reflexivity|].
  destruct (ensure_panu_address_exact false 1 kernel_demo.address w w' _ Hr) as [[_ [e He]]|(p' & index & w2 & k & Hp & _ & Hset & Hs)]; [discriminate He|].
  injection Hp as <-. destruct (address_set_lease _ _ _ _ _ _ _ _ _ Hset) as [Hlease Hk].
  injection Hlease as <-. transitivity (sent w ++ k); [exact Hs|]. rewrite Hk. reflexivity.
Defined.
