(* ===== verification/NetworkDiscovery.v ===== *)
(** The advertisement of a hosted network and the networks seen around:
    [crates/blueroute-linux/src/network_discovery.rs].

    The object server that serves the advertisement is behind [AdvertisingBus], on the
    world of [SystemBus].  How the data of a manufacturer is read out of a value, and
    which texts are object paths, are arguments.  The path of the advertisement is well
    formed and its payload is a value of the bus. *)

From stdpp Require Import gmap.
From S2P Require Import Prelude Order Ident StateText Routes LinuxRoutes StarHost JoinNetwork TlsIdentity NmProfile NapServer PanuLink BluezObjects.

Definition LE_ADVERTISING_MANAGER_INTERFACE : string := "org.bluez.LEAdvertisingManager1".
Definition MANUFACTURER_DATA_PROPERTY : string := "ManufacturerData".
Definition REGISTER_ADVERTISEMENT_METHOD : string := "RegisterAdvertisement".
Definition UNREGISTER_ADVERTISEMENT_METHOD : string := "UnregisterAdvertisement".
Definition BLUEROUTE_ADVERTISEMENT_PATH : string := "/org/blueroute/NetworkAdvertisement".
Definition BLUEROUTE_MANUFACTURER_ID : Z := 0xffff.
(** [BR] *)
Definition BLUEROUTE_ADVERTISEMENT_MAGIC : list Z := [66; 82]%Z.
Definition BLUEROUTE_ADVERTISEMENT_VERSION : Z := 1.
Definition BLUEROUTE_ADVERTISEMENT_ROLE_NAP : Z := 1.
Definition BLUEROUTE_ADVERTISEMENT_PAYLOAD_LEN : nat := 20.

(** ** The payload *)

Definition encode_advertisement (network : NetworkId) : list Z :=
  BLUEROUTE_ADVERTISEMENT_MAGIC ++ [BLUEROUTE_ADVERTISEMENT_VERSION; BLUEROUTE_ADVERTISEMENT_ROLE_NAP] ++ bytes_list (as_bytes network).

(** Sixteen bytes are left once the length is known. *)
Definition decode_advertisement (payload : list Z) : option NetworkId :=
  if negb (length payload =? BLUEROUTE_ADVERTISEMENT_PAYLOAD_LEN)%nat || negb (bool_decide (take 2 payload = BLUEROUTE_ADVERTISEMENT_MAGIC))
     || negb (nth 2 payload 0 =? BLUEROUTE_ADVERTISEMENT_VERSION)%Z || (Z.land (nth 3 payload 0) BLUEROUTE_ADVERTISEMENT_ROLE_NAP =? 0)%Z
  then None else from_bytes <$> bytes_of_list ID_BYTES (drop 4 payload).

(** What the object shows: its [ManufacturerData]. *)
Definition advertisement_new (network : NetworkId) : gmap Z (list Z) := {[BLUEROUTE_MANUFACTURER_ID := encode_advertisement network]}.
Definition advertisement_type : string := "peripheral".
Definition advertisement_discoverable : bool := true.

Definition is_discovered_device_path (path : list Z) (adapter : AdapterHandle) : bool :=
  match strip_prefix (trim_end_slashes (adapter_str adapter) ++ code_points "/dev_") path with
  | None => false
  | Some suffix => negb (bool_decide (suffix = [])) && negb (bool_decide (47%Z ∈ suffix))
  end.

Definition advertisement_method_error (method : string) (e : BusError) : CoreError :=
  let k := match method_error_name e with
    | Some name =>
      if bool_decide (name = "org.bluez.Error.NotReady") then AdapterDisabled
      else if bool_decide (name = "org.bluez.Error.AlreadyExists") then InvalidState
      else if bool_decide (name ∈ ["org.bluez.Error.DoesNotExist"; "org.freedesktop.DBus.Error.UnknownObject"]) then MissingAdapter
      else CapabilityUnavailable
    | None => BluezUnavailable
    end in
  let operation := if bool_decide (method = REGISTER_ADVERTISEMENT_METHOD) then "register the BlueRoute discovery advertisement"
    else "unregister the BlueRoute discovery advertisement" in
  core_error_with_diagnostic k ("failed to " ++ operation) (bus_text e).

Class AdvertisingBus (W : Type) := {
  (** Whether the object was added; another may be served at the path. *)
  serve_advertisement : gmap Z (list Z) -> stres W BusError bool;
  remove_advertisement : stres W BusError bool;
}.

Section operations.
Context {W : Type} `{SystemBus W} `{BluezObjectBus W} `{AdvertisingBus W}.
(** [HashMap::<u16, OwnedValue>::try_from] and then [Vec::<u8>::try_from] of each. *)
Context (manufacturer_data : OwnedValue -> option (gmap Z (option (list Z)))).
Context (object_path : list Z -> result string (list Z)).

Definition advertised_network_id (properties : Properties) : option NetworkId :=
  value ← properties !! MANUFACTURER_DATA_PROPERTY;
  manufacturer ← manufacturer_data value;
  payload ← mjoin (manufacturer !! BLUEROUTE_MANUFACTURER_ID);
  decode_advertisement payload.

Definition ensure_adapter_present (adapter : AdapterHandle) : stres W CoreError () :=
  let! _ := ensure_adapter_exists adapter in st_ret ().

Definition ensure_advertising_manager (objects : ManagedObjects) (adapter : AdapterHandle) : stres W CoreError () :=
  let! current := ensure_adapter_exists adapter in
  st_lift (guard_err (negb (powered current))
    (core_error AdapterDisabled "Bluetooth adapter must be powered before BlueRoute discovery advertising can start")
    (path ← map_err (core_error_with_diagnostic MissingAdapter "Bluetooth adapter object path is invalid") (object_path (adapter_str adapter));
     object ← ok_or (find_object path objects) adapter_gone;
     guard_err (negb (bool_decide (is_Some (object.2 !! LE_ADVERTISING_MANAGER_INTERFACE))))
       (core_error CapabilityUnavailable "Bluetooth adapter does not expose BlueZ LE advertising capability") (Ok ()))).

Definition advertising_manager (adapter : AdapterHandle) : Proxy :=
  mkProxy (code_points BLUEZ_SERVICE) (adapter_str adapter) LE_ADVERTISING_MANAGER_INTERFACE.
Definition advertising_manager_proxy (adapter : AdapterHandle) : stres W CoreError Proxy :=
  let! _ := bus CapabilityUnavailable "failed to create the BlueZ LE advertising-manager proxy" (proxy_new (advertising_manager adapter)) in
  st_ret (advertising_manager adapter).

Definition already_advertising : CoreError :=
  core_error InvalidState "a BlueRoute network advertisement is already active on this D-Bus connection".

(** A registration that was refused, and what became of the object. *)
Definition refused_advertisement (e : CoreError) (cleanup : result BusError bool) : CoreError :=
  match cleanup with
  | Ok _ => e
  | Err c => core_error_with_diagnostic (kind e) (message e)
      (default "no registration diagnostic" (diagnostic e) ++ "; failed to remove rejected advertisement object: " ++ bus_text c)
  end.

Definition start_network_advertisement (adapter : AdapterHandle) (network : NetworkId) : stres W CoreError NetworkAdvertisement :=
  let! objects := managed_objects in
  let! _ := ensure_advertising_manager objects adapter in
  let! manager := advertising_manager_proxy adapter in
  let! added := bus Internal "failed to serve the BlueRoute network advertisement" (serve_advertisement (advertisement_new network)) in
  if negb added then st_fail already_advertising else fun w =>
  match call_method manager REGISTER_ADVERTISEMENT_METHOD [code_points BLUEROUTE_ADVERTISEMENT_PATH] w with
  | (Ok _, w) => (Ok (mkAdvertisement adapter network), w)
  | (Err e, w) =>
    let (cleanup, w) := remove_advertisement w in
    (Err (refused_advertisement (advertisement_method_error REGISTER_ADVERTISEMENT_METHOD e) cleanup), w)
  end.

Definition stop_network_advertisement (advertisement : NetworkAdvertisement) : stres W CoreError () :=
  let! manager := advertising_manager_proxy (adv_adapter advertisement) in
  let! _ := fun w => match call_method manager UNREGISTER_ADVERTISEMENT_METHOD [code_points BLUEROUTE_ADVERTISEMENT_PATH] w with
    | (Ok _, w) => (Ok (), w)
    | (Err e, w) => ((if bool_decide (method_error_name e = Some "org.bluez.Error.DoesNotExist") then Ok ()
        else Err (advertisement_method_error UNREGISTER_ADVERTISEMENT_METHOD e)), w)
    end in
  let! _ := bus Internal "failed to remove the BlueRoute network advertisement object" remove_advertisement in
  st_ret ().

(** The network of one object, if it is a device of the adapter that names one. *)
Definition network_of_object (adapter : AdapterHandle) (object : list Z * Interfaces) : option NetworkId :=
  if negb (is_discovered_device_path object.1 adapter) then None else
  properties ← object.2 !! DEVICE_INTERFACE; advertised_network_id properties.

Definition discovered_network_ids (adapter : AdapterHandle) : stres W CoreError (list NetworkId) :=
  let! objects := managed_objects in
  let! _ := ensure_adapter_present adapter in
  st_ret (dedup (merge_sort ord_le (omap (network_of_object adapter) objects))).
End operations.

(** ** The payload is read back *)

Lemma decode_advertisement_Some (payload : list Z) (n : NetworkId) : decode_advertisement payload = Some n <->
  exists flags, Z.land flags BLUEROUTE_ADVERTISEMENT_ROLE_NAP <> 0%Z /\
    payload = BLUEROUTE_ADVERTISEMENT_MAGIC ++ [BLUEROUTE_ADVERTISEMENT_VERSION; flags] ++ bytes_list (as_bytes n).
Proof.
  unfold decode_advertisement, BLUEROUTE_ADVERTISEMENT_PAYLOAD_LEN. split.
  - destruct (orb _ _) eqn:Hb; [done|]. apply orb_false_iff in Hb as [[[Hl Hm]%orb_false_iff Hv]%orb_false_iff Hf].
    apply negb_false_iff in Hl, Hm, Hv. apply Nat.eqb_eq in Hl. apply bool_decide_eq_true in Hm. apply Z.eqb_eq in Hv. apply Z.eqb_neq in Hf.
    destruct payload as [|m0 [|m1 [|v [|flags rest]]]]; try done. cbn in Hm, Hv, Hf. unfold BLUEROUTE_ADVERTISEMENT_MAGIC in Hm. injection Hm as -> ->. subst v.
    unfold drop. intros (b & Hb & Hn)%fmap_Some. exists flags. split; [done|].
    unfold bytes_of_list in Hb. destruct (decide _) as [Hok|]; [|done]. injection Hb as <-. by rewrite Hn.
  - intros (flags & Hf & ->). set (l := _ ++ _). assert (drop 4 l = bytes_list (as_bytes n)) as -> by done.
    rewrite bytes_of_list_Some. assert (length l = 20) as -> by (unfold l; by rewrite !length_app, bytes_length).
    rewrite bool_decide_eq_true_2 by done. change (nth 2 l 0%Z) with BLUEROUTE_ADVERTISEMENT_VERSION. change (nth 3 l 0%Z) with flags.
    rewrite (proj2 (Z.eqb_neq _ 0) Hf). cbn [fmap option_fmap option_map]. by destruct n.
Qed.

(** The payload of a network is read back as it; a payload that is read is that of the
    network but for the other flags. *)
Theorem advertisement_roundtrip (network : NetworkId) :
  decode_advertisement (encode_advertisement network) = Some network /\
  length (encode_advertisement network) = BLUEROUTE_ADVERTISEMENT_PAYLOAD_LEN /\
  forall payload, decode_advertisement payload = Some network -> drop 4 payload = drop 4 (encode_advertisement network).
Proof.
  split_and!.
  - apply decode_advertisement_Some. by exists BLUEROUTE_ADVERTISEMENT_ROLE_NAP.
  - unfold encode_advertisement. by rewrite !length_app, bytes_length.
  - by intros payload (flags & _ & ->)%decode_advertisement_Some.
Qed.

(** ** The networks that are seen *)

(** Each once and in order, whatever the order of the objects: a device that names none,
    or names one badly, is passed over. *)
Theorem discovered_networks_exact (read : OwnedValue -> option (gmap Z (option (list Z)))) (adapter : AdapterHandle) (objects : ManagedObjects) :
  let seen := dedup (merge_sort ord_le (omap (network_of_object read adapter) objects)) in
  NoDup seen /\ forall n, n ∈ seen <-> exists path interfaces properties, (path, interfaces) ∈ objects /\
    is_discovered_device_path path adapter = true /\ (interfaces : Interfaces) !! DEVICE_INTERFACE = Some properties /\
    advertised_network_id read properties = Some n.
Proof.
  cbn zeta. split; [apply dedup_NoDup, (StronglySorted_merge_sort _)|]. intros n.
  rewrite elem_of_dedup, merge_sort_Permutation, list_elem_of_omap. unfold network_of_object. split.
  - intros ([path interfaces] & Hin & Ho). cbn in Ho. destruct (is_discovered_device_path path adapter) eqn:Hd; [|done]. cbn in Ho.
    destruct (interfaces !! DEVICE_INTERFACE) as [properties|] eqn:Hi; [|done]. by exists path, interfaces, properties.
  - intros (path & interfaces & properties & Hin & Hd & Hi & Ha). exists (path, interfaces). split; [done|]. cbn. by rewrite Hd, Hi.
Qed.

(** ** One advertisement at a time *)

(** What the object server serves at the path: added only when nothing is there, gone
    once removed, kept by every other call. *)
Class LawfulAdvertisingBus (W : Type) `{SystemBus W} `{BluezObjectBus W} `{AdvertisingBus W} := {
  served_at : W -> option (gmap Z (list Z));
  serve_serves data w : served_at (serve_advertisement data w).2 =
    match (serve_advertisement data w).1 with Ok true => Some data | _ => served_at w end;
  serve_free data w : (serve_advertisement data w).1 = Ok true -> served_at w = None;
  remove_removes w : served_at (remove_advertisement w).2 = match (remove_advertisement w).1 with Ok _ => None | Err _ => served_at w end;
  dbus_serves w : served_at (dbus_proxy_new w).2 = served_at w;
  owner_serves name w : served_at (name_has_owner name w).2 = served_at w;
  manager_serves w : served_at (object_manager_new w).2 = served_at w;
  objects_serves w : served_at (get_managed_objects w).2 = served_at w;
  proxy_serves p w : served_at (proxy_new p w).2 = served_at w;
  call_serves p method arguments w : served_at (call_method p method arguments w).2 = served_at w;
}.

Section lifecycle.
Context {W : Type} `{HS : SystemBus W} `{HO : BluezObjectBus W} `{HA : AdvertisingBus W} `{HL : !LawfulAdvertisingBus W}.
Context (object_path : list Z -> result string (list Z)).

Definition serves_same {E A : Type} (m : stres W E A) : Prop := forall w, served_at (m w).2 = served_at w.

Lemma same_map_err {E F A : Type} (f : E -> F) (m : stres W E A) : serves_same m -> serves_same (st_map_err f m).
Proof. intros Hm w. unfold st_map_err. specialize (Hm w). by destruct (m w). Qed.
Lemma same_bind {E A B : Type} (m : stres W E A) (k : A -> stres W E B) : serves_same m -> (forall a, serves_same (k a)) -> serves_same (st_bind m k).
Proof. intros Hm Hk w. unfold st_bind. specialize (Hm w). destruct (m w) as [[a|e] w1]; [|done]. by rewrite Hk. Qed.
Lemma same_here {E A : Type} (r : result E A) : serves_same (fun w => (r, w)).
Proof. done. Qed.

Lemma same_objects : serves_same managed_objects.
Proof.
  apply same_bind; [|intros _; apply same_bind; [|intros _]; apply same_map_err; intros w; [apply manager_serves | apply objects_serves]].
  apply same_bind; [|intros []; apply same_here].
  apply same_bind; [|intros _]; apply same_map_err; intros w; [apply dbus_serves | apply owner_serves].
Qed.
Lemma same_adapter_exists adapter : serves_same (ensure_adapter_exists adapter).
Proof. apply same_bind; [|intros l; apply same_here]. apply same_bind; [apply same_objects | intros l; apply same_here]. Qed.
Lemma same_manager objects adapter : serves_same (ensure_advertising_manager object_path objects adapter).
Proof. apply same_bind; [apply same_adapter_exists | intros a; apply same_here]. Qed.
Lemma same_proxy adapter : serves_same (advertising_manager_proxy adapter).
Proof. apply same_bind; [apply same_map_err; intros w; apply proxy_serves | intros _; apply same_here]. Qed.

(** Starting serves the network's data where nothing was served; a start that fails
    leaves what was served, unless the object it added could not be removed again, which
    the error tells; a stop that succeeds leaves nothing served, and one that fails what
    was served. *)
Theorem advertisement_lifecycle (adapter : AdapterHandle) (network : NetworkId) (w : W) :
  (let (r, w') := start_network_advertisement object_path adapter network w in
   match r with
   | Ok d => d = mkAdvertisement adapter network /\ served_at w = None /\ served_at w' = Some (advertisement_new network)
   | Err e => served_at w' = served_at w \/
     served_at w = None /\ served_at w' = Some (advertisement_new network) /\ exists e0 c, e = refused_advertisement e0 (Err c)
   end) /\
  (forall d, let (r, w') := stop_network_advertisement d w in served_at w' = match r with Ok _ => None | Err _ => served_at w end).
Proof.
  split.
  - unfold start_network_advertisement, st_bind.
    pose proof (same_objects w) as H1. destruct (managed_objects w) as [[objects|e] w1]; cbn in H1; [|by left].
    pose proof (same_manager objects adapter w1) as H2. destruct (ensure_advertising_manager _ _ _ w1) as [[u|e] w2]; cbn in H2; [|left; congruence].
    pose proof (same_proxy adapter w2) as H3. destruct (advertising_manager_proxy _ w2) as [[manager|e] w3]; cbn in H3; [|left; congruence].
    unfold bus, st_map_err. pose proof (serve_serves (advertisement_new network) w3) as H4. pose proof (serve_free (advertisement_new network) w3) as H5.
    destruct (serve_advertisement _ w3) as [[[]|e] w4]; cbn in H4, H5 |- *; [|left; congruence..]. specialize (H5 eq_refl).
    pose proof (call_serves manager REGISTER_ADVERTISEMENT_METHOD [code_points BLUEROUTE_ADVERTISEMENT_PATH] w4) as H6.
    destruct (call_method _ _ _ w4) as [[b|e] w5]; cbn in H6; [split_and!; congruence|].
    pose proof (remove_removes w5) as H7. destruct (remove_advertisement w5) as [[b|c] w6]; cbn in H7 |- *; [left; congruence|].
    right. split_and!; [congruence..|]. by exists (advertisement_method_error REGISTER_ADVERTISEMENT_METHOD e), c.
  - intros d. unfold stop_network_advertisement, st_bind.
    pose proof (same_proxy (adv_adapter d) w) as H1. destruct (advertising_manager_proxy _ w) as [[manager|e] w1]; cbn in H1; [|done].
    pose proof (call_serves manager UNREGISTER_ADVERTISEMENT_METHOD [code_points BLUEROUTE_ADVERTISEMENT_PATH] w1) as H2.
    unfold bus, st_map_err. pose proof (fun w2 => remove_removes w2) as H3.
    destruct (call_method _ _ _ w1) as [[b|e] w2]; cbn in H2; [|destruct (bool_decide _); [|cbn; congruence]];
      specialize (H3 w2); destruct (remove_advertisement w2) as [[c|c] w3]; cbn in H3 |- *; congruence.
Qed.
End lifecycle.

(** A bus whose world is what is served. *)
Module advertising_demo.
Abbreviation World := (option (gmap Z (list Z))).
Definition bluez : SystemBus World := {|
  dbus_proxy_new := fun w => (Ok (), w);
  name_has_owner _ := fun w => (Ok true, w);
  get_name_owner _ := fun w => (Ok (code_points ":1.1"), w);
  proxy_new _ := fun w => (Ok (), w);
  get_bool _ _ := fun w => (Ok true, w);
  get_text _ _ := fun w => (Err (BusFailure "no such property"), w);
  call_method _ _ _ := fun w => (Ok (Ok []), w);
  is_dir _ _ := false;
  read_dir _ := fun w => (Ok [], w);
  read_to_string _ := fun w => (Err (FsOther "no such file"), w);
  timer_after _ := fun w => w;
|}.
Definition objects : BluezObjectBus World := {|
  object_manager_new := fun w => (Ok (), w);
  get_managed_objects := fun w => (Ok [(adapter_str objects_demo.hci0,
    <[LE_ADVERTISING_MANAGER_INTERFACE := ∅]> {[ADAPTER_INTERFACE := {[POWERED_PROPERTY := objects_demo.yes]}]})], w);
  match_rule_new := fun w => (Ok (), w);
  match_stream := fun w => (Ok (), w);
  next_signal := fun w => (Ok None, w);
|}.
Definition advertising : AdvertisingBus World := {|
  serve_advertisement data := fun w => match w with Some _ => (Ok false, w) | None => (Ok true, Some data) end;
  remove_advertisement := fun w => match w with Some _ => (Ok true, None) | None => (Ok false, None) end;
|}.
End advertising_demo.

#[local] Existing Instances advertising_demo.bluez advertising_demo.objects advertising_demo.advertising.
#[local] Instance advertising_demo_lawful : LawfulAdvertisingBus advertising_demo.World.
Proof.
  refine {| served_at w := w |}; try done.
  - by intros data [].
  - by intros data [].
  - by intros [].
Defined.

(** The first start serves the network, a second one is refused. *)
Example advertisement_demo : let '(r, w) := start_network_advertisement (fun p => Ok p) objects_demo.hci0 (fill_id 3) None in
  r = Ok (mkAdvertisement objects_demo.hci0 (fill_id 3)) /\
  start_network_advertisement (fun p => Ok p) objects_demo.hci0 (fill_id 4) w = (Err already_advertising, w).
Proof. vm_compute. split; reflexivity. Qed.
