(* ===== verification/Ipv4Observation.v ===== *)
(** The IPv4 prefixes in use on the host, as NetworkManager tells them:
    [crates/blueroute-linux/src/ipv4_observation.rs], over [NetworkManagerBus].

    What it reads besides is behind [Ipv4ObservationBus].  A diagnostic that quotes
    values is left out. *)

From stdpp Require Import gmap.
From S2P Require Import Prelude Order Ident StateText Addressing Routes LinuxRoutes StarHost NmProfile NapServer NmBackend.

Definition IP4_CONFIG_INTERFACE : string := "org.freedesktop.NetworkManager.IP4Config".

Class Ipv4ObservationBus (W : Type) := {
  system_bus : stres W BusError ();
  dev_ip4_config : path -> stres W BusError path;
  config_address_data : path -> stres W BusError (list NmEntry);
  config_route_data : path -> stres W BusError (list NmEntry);
}.

Section observation.
Context {W : Type} `{NetworkManagerBus W} `{Ipv4ObservationBus W} `{IpText}.

Definition observed_ipv4_prefix (entry : NmEntry) (address_key context : string) : CoreResult IpPrefix :=
  text ← setting_string leaf_string entry address_key;
  a ← ok_or (ip_from_str text) (protocol ("NetworkManager returned an invalid " ++ context ++ " address"));
  guard_err (negb (is_ipv4 a)) (protocol ("NetworkManager returned non-IPv4 data in " ++ context))
  (value ← ok_or (entry !! "prefix") (protocol ("NetworkManager " ++ context ++ " entry is missing a prefix"));
   len ← ok_or (leaf_u32 value) (protocol ("NetworkManager returned an invalid " ++ context ++ " prefix"));
   guard_err (u_max 8 <? len)%Z (protocol ("NetworkManager returned an out-of-range " ++ context ++ " prefix"))
   (prefix ← ip_prefix_new a len; normalized_ipv4_prefix prefix)).

Definition observed_entries (interface : option NetworkInterfaceHandle) (address_key context : string) (entries : list NmEntry) :
    CoreResult (list ActiveIpv4Prefix) :=
  try_map (fun entry => prefix ← observed_ipv4_prefix entry address_key context; Ok (mkActivePrefix interface prefix)) entries.

Definition config_prefixes (interface : option NetworkInterfaceHandle) (config : path) : stres W CoreError (list ActiveIpv4Prefix) :=
  let! _ := nm "failed to access a NetworkManager IPv4 configuration" (nm_proxy config IP4_CONFIG_INTERFACE) in
  let! addresses := nm "failed to read NetworkManager active IPv4 address data" (config_address_data config) in
  let! a := st_lift (observed_entries interface "address" "active IPv4 address" addresses) in
  let! routes := nm "failed to read NetworkManager active IPv4 route data" (config_route_data config) in
  let! r := st_lift (observed_entries interface "dest" "active IPv4 route" routes) in
  st_ret (a ++ r).

Definition device_prefixes (device : path) : stres W CoreError (list ActiveIpv4Prefix) :=
  let! _ := nm "failed to access a NetworkManager device for IPv4 conflict detection" (nm_proxy device NM_DEVICE_INTERFACE) in
  let! name := nm "failed to read a NetworkManager device interface name" (dev_interface device) in
  let interface := match interface_new name with Ok i => Some i | Err _ => None end in
  let! config := nm "failed to read a NetworkManager device IPv4 configuration" (dev_ip4_config device) in
  if bool_decide (config = ROOT_PATH) then st_ret [] else config_prefixes interface config.

Definition active_le (x y : ActiveIpv4Prefix) : Prop := (ap_interface x, ap_prefix x) ≤ᵣ (ap_interface y, ap_prefix y).
#[global] Instance active_le_dec : RelDecision active_le.
Proof. intros x y. unfold active_le. apply _. Defined.
#[global] Instance ActiveIpv4Prefix_eq_dec : EqDecision ActiveIpv4Prefix.
Proof. solve_decision. Defined.

Definition active_ipv4_prefixes_with_interfaces : stres W CoreError (list ActiveIpv4Prefix) :=
  let! _ := nm "failed to connect to the system D-Bus for IPv4 conflict observation" system_bus in
  let! _ := ensure_networkmanager_available in
  let! _ := nm "failed to create the NetworkManager proxy for IPv4 conflict observation" (nm_proxy NM_PATH NM_INTERFACE) in
  let! devices := nm "failed to enumerate NetworkManager devices for IPv4 conflict detection" nm_get_devices in
  let! prefixes := collect device_prefixes devices in
  st_ret (dedup (merge_sort active_le prefixes)).

Definition active_ipv4_prefixes : stres W CoreError (list IpPrefix) :=
  let! observed := active_ipv4_prefixes_with_interfaces in
  st_ret (dedup (merge_sort ord_le (ap_prefix <$> observed))).
End observation.

(** ** What is told *)

(** The address and length that NetworkManager gives, without the bits of the host: a
    prefix that is its own normal form. *)
Theorem observed_prefix_normal `{IpText} (entry : NmEntry) key context p
    (Htext : forall t a, ip_from_str t = Some a -> ip_ok a)
    (Hlen : forall n, entry !! "prefix" = Some (LeafU32 n) -> (0 <= n)%Z)
    (Hp : observed_ipv4_prefix entry key context = Ok p) :
  exists text a len, entry !! key = Some (LeafString text) /\ ip_from_str text = Some (V4 a) /\
    entry !! "prefix" = Some (LeafU32 len) /\ (0 <= len <= 32)%Z /\
    p = mkPrefix (V4 (a - a mod 2 ^ (32 - len))) len /\ normalized_ipv4_prefix p = Ok p.
Proof.
  unfold observed_ipv4_prefix, setting_string in Hp.
  apply result_bind_Ok in Hp as (text & Ht%ok_or_Ok & Hp). apply result_bind_Ok in Hp as (x & Hx%ok_or_Ok & Hp).
  apply guard_err_Ok in Hp as [Hv Hp]. destruct x as [a|]; [|done].
  apply result_bind_Ok in Hp as (v & Hl%ok_or_Ok & Hp). apply result_bind_Ok in Hp as (len & Hu%ok_or_Ok & Hp).
  apply guard_err_Ok in Hp as [_ Hp]. apply result_bind_Ok in Hp as (q & Hq & Hn).
  unfold ip_prefix_new in Hq. apply guard_err_Ok in Hq as [Hmax [= <-]]. cbn in Hmax. apply Z.ltb_ge in Hmax.
  destruct v as [|n| |]; try done. injection Hu as ->. pose proof (Hlen _ Hl) as H0.
  destruct (entry !! key) as [[s| | |]|]; try done. cbn in Ht. injection Ht as ->.
  pose proof (Htext _ _ Hx) as Ha. cbn in Ha. rewrite normalized_ok in Hn by lia. injection Hn as <-.
  pose proof (Z.pow_pos_nonneg 2 (32 - len) ltac:(lia) ltac:(lia)) as Hpow.
  pose proof (Z.mod_pos_bound a (2 ^ (32 - len)) Hpow). pose proof (Z.mod_le a (2 ^ (32 - len)) ltac:(lia) Hpow).
  exists text, a, len. split_and!; try done. rewrite normalized_ok by lia.
  do 3 f_equal. by rewrite Zminus_mod_idemp_r, Z.sub_diag, Z.mod_0_l, Z.sub_0_r by lia.
Qed.
