(* ===== verification/StarDiscovery.v ===== *)
(** Listing networks, discovering others and telling of the host's addresses: the rest
    of the operations of [apps/daemon/src/single_star.rs].

    Discovery is over the adapters and advertisements of BluezObjects and
    NetworkDiscovery; the connection to the system bus is behind [SystemConnection].
    A lock is never poisoned. *)

From stdpp Require Import gmap pretty.
From S2P Require Import Prelude Order Ident StateText Addressing Routes LinuxRoutes StarHost Membership PeerPins PeerTrust SingleStar JoinNetwork NmProfile NapServer PanuLink BluezObjects NetworkDiscovery LocalApi.

Class SystemConnection (W : Type) := { connection_system : stres W BusError () }.

(** ** Summaries *)

Definition discovered_network_summary (network : NetworkId) : CoreResult NetworkSummary :=
  name ← display_name_new (code_points "BlueRoute " ++ take 8 (id_to_string network));
  Ok (mkNetworkSummary network name 0).

Definition merge_discovered_networks (networks : gmap NetworkId NetworkSummary) (discovered : list NetworkId) :
    CoreResult (gmap NetworkId NetworkSummary) :=
  try_for_each (fun networks network =>
    match networks !! network with
    | Some _ => Ok networks
    | None => summary ← discovered_network_summary network; Ok (<[network := summary]> networks)
    end) networks discovered.

(** The count of members is a [u32]. *)
Definition membership_summary (m : NetworkMembership) : NetworkSummary :=
  mkNetworkSummary (network_id m) (network_name m)
    ((if bool_decide (m_state m = Member) then 1 else 0)
     + Z.of_nat (length (List.filter member (values (peers m)))) mod 2 ^ 32).
Definition known_networks (registry : MembershipRegistry) : gmap NetworkId NetworkSummary :=
  insert_all ∅ ((fun m => (network_id m, membership_summary m)) <$> values (networks registry)).

(** ** Discovery *)

Record StarDiscovery (W : Type) := mkStarDiscovery { dv_active : option AdapterHandle; dv_transition : bool; dv_world : W }.
#[global] Arguments mkStarDiscovery {W} _ _ _.
#[global] Arguments dv_active {W} _.
#[global] Arguments dv_transition {W} _.
#[global] Arguments dv_world {W} _.

Section discovery.
Context {W : Type} `{SystemBus W} `{BluezObjectBus W} `{SystemConnection W}.

Abbreviation dop A := (stres (StarDiscovery W) CoreError A).

Definition connect_system : stres W CoreError () :=
  let! _ := bus BluezUnavailable "failed to connect to the system D-Bus" connection_system in ensure_bluez_available.

Definition select_powered_discovery_adapter : stres W CoreError AdapterHandle :=
  let! adapters := enumerate_adapters in
  match List.find powered adapters with
  | Some a => st_ret (handle a)
  | None => st_fail (core_error AdapterDisabled "no powered Bluetooth adapter is available for BlueRoute discovery")
  end.

(** [TransitionGuard::claim], and its drop. *)
Definition discovering {A : Type} (m : dop A) : dop A := fun s =>
  if dv_transition s then (Err transition_busy, s) else
  let (x, s') := m (mkStarDiscovery (dv_active s) true (dv_world s)) in
  (x, mkStarDiscovery (dv_active s') false (dv_world s')).

Definition on_bluez {A : Type} (m : stres W CoreError A) : dop A := fun s =>
  let (x, w) := m (dv_world s) in (x, mkStarDiscovery (dv_active s) (dv_transition s) w).
Definition set_active (a : option AdapterHandle) (s : StarDiscovery W) : StarDiscovery W := mkStarDiscovery a (dv_transition s) (dv_world s).

Definition discovery_changed (doing : string) : CoreError :=
  core_error InvalidState ("BlueRoute discovery state changed unexpectedly while " ++ doing ++ " discovery").
Definition discovery_rollback (e : CoreError) (cleanup : CoreResult ()) : CoreError :=
  match cleanup with
  | Ok _ => e
  | Err c => core_error_with_diagnostic (kind e) (message e)
      (default "no discovery diagnostic" (diagnostic e) ++ "; discovery rollback also failed: " ++ message c)
  end.

(** The adapter discovers; the slot is looked at once more. *)
Definition install_discovery (adapter : AdapterHandle) : dop () := fun s =>
  match dv_active s with
  | None => (Ok (), set_active (Some adapter) s)
  | Some _ =>
    let (cleanup, s) := on_bluez (BluezObjects.stop_discovery adapter) s in
    (Err (discovery_rollback (discovery_changed "starting") cleanup), s)
  end.

Definition start_discovery : dop () := discovering (fun s =>
  match dv_active s with
  | Some _ => (Ok (), s)
  | None => (
      let! _ := on_bluez connect_system in
      let! adapter := on_bluez select_powered_discovery_adapter in
      let! _ := on_bluez (BluezObjects.start_discovery adapter) in
      install_discovery adapter) s
  end).

Definition stop_discovery : dop () := discovering (fun s =>
  match dv_active s with
  | None => (Ok (), s)
  | Some adapter => (
      let! _ := on_bluez (BluezObjects.stop_discovery adapter) in fun s =>
      if bool_decide (dv_active s = Some adapter) then (Ok (), set_active None s) else (Err (discovery_changed "stopping"), s)) s
  end).

Context {M : Type} `{RegistryStore M} (manufacturer_data : OwnedValue -> option (gmap Z (option (list Z)))).

Definition list_networks : stres (M * StarDiscovery W) CoreError (list NetworkSummary) := fun '(m, s) =>
  match store_load m with
  | (Err e, m) => (Err e, (m, s))
  | (Ok registry, m) =>
    match dv_active s with
    | None => (Ok (values (known_networks registry)), (m, s))
    | Some adapter =>
      let (discovered, s) := on_bluez (discovered_network_ids manufacturer_data adapter) s in
      (ids ← discovered; networks ← merge_discovered_networks (known_networks registry) ids; Ok (values networks), (m, s))
    end
  end.
End discovery.

(** ** Addresses of the host *)

Section diagnostics.
Context `{IpText}.

Definition prefix_text (p : IpPrefix) : list Z := ip_to_string (address p) ++ [47%Z] ++ code_points (pretty (prefix_len p)).

Definition owned_prefixes (network : NetworkId) (addresses : list InterfaceAddress) : gmap (list Z) (list (list Z)) :=
  foldl (fun interfaces a =>
    if negb (bool_decide (ia_owner a = network)) then interfaces
    else <[as_str (ia_interface a) := default [] (interfaces !! as_str (ia_interface a)) ++ [prefix_text (ia_prefix a)]]> interfaces) ∅ addresses.
Definition owned_interface_diagnostics (network : NetworkId) (addresses : list InterfaceAddress) : list DiagnosticInterface :=
  (fun '(name, l) => mkDiagnosticInterface name (dedup (merge_sort ord_le l))) <$> iter_map (owned_prefixes network addresses).

Context {B : Type} `{HostBackends B}.
Definition host_diagnostic_interfaces : stres (LinuxStarHostRuntime B) CoreError (option (list DiagnosticInterface)) :=
  with_transition (fun r =>
    match rt_active r with
    | None => (Ok None, r)
    | Some active => (let! l := on_world addresses in st_ret (Some (owned_interface_diagnostics (ah_network active) l))) r
    end).
End diagnostics.

(** ** Facts *)

(** A text of printable ASCII that neither begins nor ends with a space is a name as it
    stands. *)
Lemma display_name_ascii (c d : Z) (l : list Z) : (33 <= c <= 126)%Z -> (33 <= d <= 126)%Z -> Forall (fun x => 32 <= x <= 126)%Z l ->
  length l <= 62 -> display_name_new (c :: l ++ [d]) = Ok (mkDisplayName (c :: l ++ [d])).
Proof.
  intros Hc Hd Hl Hlen. assert (forall x, (33 <= x <= 126)%Z -> is_whitespace x = false) as Hw by (intros x Hx; unfold is_whitespace; lia).
  assert (trim (c :: l ++ [d]) = c :: l ++ [d]) as Ht.
  { unfold trim. rewrite (trim_start_id (c :: _)) by (intros ? ? [= <- <-]; by apply Hw).
    rewrite (trim_start_id (reverse _)).
    - apply reverse_involutive.
    - rewrite reverse_cons, reverse_app. intros ? ? [= <- <-]. by apply Hw. }
  apply display_name_new_exact. rewrite Ht. split_and!; [|simpl; rewrite ?length_app; simpl; lia|simpl; rewrite length_app; unfold DISPLAY_MAX_CHARS; simpl; lia|done].
  apply not_true_iff_false. intros (x & Hx & Hu)%existsb_exists. assert (32 <= x <= 126)%Z as Hr.
  { destruct Hx as [<-|[Hin|[<-|[]]]%in_app_iff]; [lia| |lia]. rewrite Forall_forall in Hl. by apply Hl, list_elem_of_In. }
  unfold unsafe_char, is_control in Hu. lia.
Qed.

Lemma encode_hex_range l : Forall (fun b => 0 <= b < 256)%Z l -> Forall (fun c => 48 <= c <= 102)%Z (encode_hex l).
Proof.
  induction 1 as [|b l Hb _ IH]; simpl; [constructor|]. destruct (nibble_split b Hb) as (Hh & Hlo & _).
  constructor; [|constructor; [|done]]; unfold hex_digit; destruct (_ <? _)%Z eqn:Hlt; lia.
Qed.

Lemma discovered_summary_ok (n : NetworkId) : discovered_network_summary n =
  Ok (mkNetworkSummary n (mkDisplayName (code_points "BlueRoute " ++ take 8 (id_to_string n))) 0).
Proof.
  unfold discovered_network_summary. pose proof (encode_hex_range _ (bytes_range (as_bytes n))) as Hr. fold (id_to_string n) in Hr.
  assert (length (id_to_string n) = 32) as Hlen by (unfold id_to_string; by rewrite length_encode_hex, bytes_length).
  assert (Forall (fun c => 48 <= c <= 102)%Z (take 8 (id_to_string n))) as Ht by (by apply Forall_take).
  assert (length (take 8 (id_to_string n)) = 8) as H8 by (rewrite length_take; lia).
  destruct (take 8 (id_to_string n)) as [|d0 [|d1 [|d2 [|d3 [|d4 [|d5 [|d6 [|d7 [|]]]]]]]]]; try done.
  repeat apply Forall_cons in Ht as [? Ht].
  change (code_points "BlueRoute " ++ [d0; d1; d2; d3; d4; d5; d6; d7])
    with (66%Z :: ([108; 117; 101; 82; 111; 117; 116; 101; 32]%Z ++ [d0; d1; d2; d3; d4; d5; d6]) ++ [d7]).
  rewrite display_name_ascii; [done|lia|lia| |simpl; lia]. repeat constructor; lia.
Qed.

(** Discovered networks come in behind the known ones, and never fail to. *)
Lemma merge_discovered_exact (discovered : list NetworkId) (known : gmap NetworkId NetworkSummary) : exists merged,
  merge_discovered_networks known discovered = Ok merged /\
  forall n, merged !! n = match known !! n with
    | Some s => Some s
    | None => if bool_decide (n ∈ discovered) then Some (mkNetworkSummary n (mkDisplayName (code_points "BlueRoute " ++ take 8 (id_to_string n))) 0) else None
    end.
Proof.
  unfold merge_discovered_networks. revert known. induction discovered as [|d l IH]; intros known; cbn [try_for_each].
  { exists known. split; [done|]. intros n. by destruct (known !! n). }
  destruct (known !! d) as [s|] eqn:Hd.
  - cbn [mbind result_bind]. destruct (IH known) as (merged & Hm & Hl). exists merged. split; [done|]. intros n. rewrite Hl.
    destruct (known !! n) as [t|] eqn:Hn; [done|]. assert (n <> d) as Hne by congruence.
    by rewrite (bool_decide_ext (n ∈ d :: l) (n ∈ l)) by set_solver.
  - rewrite discovered_summary_ok. cbn [mbind result_bind]. destruct (IH (<[d := mkNetworkSummary d (mkDisplayName (code_points "BlueRoute " ++ take 8 (id_to_string d))) 0]> known)) as (merged & Hm & Hl).
    exists merged. split; [exact Hm|]. intros n. rewrite Hl. destruct (decide (n = d)) as [->|Hne].
    + by rewrite lookup_insert_eq, Hd, bool_decide_eq_true_2 by (by left).
    + rewrite lookup_insert_ne by done. destruct (known !! n); [done|]. by rewrite (bool_decide_ext (n ∈ d :: l) (n ∈ l)) by set_solver.
Qed.

Section operations.
Context {W : Type} `{HS : SystemBus W} `{HO : BluezObjectBus W} `{HC : SystemConnection W}.

Lemma on_bluez_active {A : Type} (m : stres W CoreError A) s : dv_active (on_bluez m s).2 = dv_active s /\ dv_transition (on_bluez m s).2 = dv_transition s.
Proof. unfold on_bluez. by destruct (m (dv_world s)). Qed.

(** While another start or stop is on its way both are refused and change nothing; when
    none is, none is left.  A start leaves what discovers alone, and else ends with an
    adapter that discovers or as before; a stop ends with none, or as before with an
    error. *)
Theorem discovery_lifecycle (s : StarDiscovery W) :
  (dv_transition s = true -> start_discovery s = (Err transition_busy, s) /\ stop_discovery s = (Err transition_busy, s)) /\
  (dv_transition s = false ->
    (let (r, s') := start_discovery s in dv_transition s' = false /\
      match r with Ok _ => is_Some (dv_active s') /\ (is_Some (dv_active s) -> s' = s) | Err _ => dv_active s' = dv_active s end) /\
    (let (r, s') := stop_discovery s in dv_transition s' = false /\
      match r with Ok _ => dv_active s' = None | Err _ => dv_active s' = dv_active s /\ is_Some (dv_active s) end)).
Proof.
  unfold start_discovery, stop_discovery, discovering. destruct s as [a t w]. cbn [dv_active dv_transition dv_world]. split; [by intros ->|]. intros ->.
  destruct a as [a|]; cbn [dv_active dv_transition dv_world].
  - split; [done|]. unfold st_bind, on_bluez. cbn. destruct (BluezObjects.stop_discovery a w) as [[[]|e] w1]; cbn; [|by split_and!].
    by rewrite bool_decide_eq_true_2.
  - split; [|done]. unfold st_bind, on_bluez. cbn. destruct (connect_system w) as [[[]|e] w1]; cbn; [|done].
    destruct (select_powered_discovery_adapter w1) as [[a|e] w2]; cbn; [|done].
    destruct (BluezObjects.start_discovery a w2) as [[[]|e] w3]; cbn; [|done]. split_and!; [done | by eexists | by intros []].
Qed.
End operations.

(** A listing has every network of the registry, with its members counted, and, while
    the host discovers, every network seen that it does not know, each once and in
    order. *)
Theorem list_networks_exact {W M : Type} `{SystemBus W} `{BluezObjectBus W} `{RegistryStore M} read (m : M) (s : StarDiscovery W) l m' s'
    (Hl : list_networks read (m, s) = (Ok l, (m', s'))) :
  exists registry all ids, (store_load m).1 = Ok registry /\ l = values all /\
    match dv_active s with
    | None => ids = []
    | Some adapter => (discovered_network_ids read adapter (dv_world s)).1 = Ok ids
    end /\
    forall n, all !! n = match known_networks registry !! n with
      | Some x => Some x
      | None => if bool_decide (n ∈ ids) then Some (mkNetworkSummary n (mkDisplayName (code_points "BlueRoute " ++ take 8 (id_to_string n))) 0) else None
      end.
Proof.
  unfold list_networks in Hl. destruct (store_load m) as [[registry|e] m1]; [|done]. destruct (dv_active s) as [adapter|].
  - unfold on_bluez in Hl. destruct (discovered_network_ids read adapter (dv_world s)) as [[ids|e] w1] eqn:Hd; [|done].
    destruct (merge_discovered_exact ids (known_networks registry)) as (all & Hm & Ha). cbn in Hl. rewrite Hm in Hl. injection Hl as <- _ _.
    by exists registry, all, ids.
  - injection Hl as <- _ _. exists registry, (known_networks registry), []. split_and!; try done. intros n. by destruct (known_networks registry !! n).
Qed.

Section interfaces.
Context `{IpText}.

(** The texts of the addresses of one interface that the network owns, in order. *)
Definition owned_texts (network : NetworkId) (name : list Z) (l : list InterfaceAddress) : list (list Z) :=
  omap (fun a => if bool_decide (ia_owner a = network) && bool_decide (as_str (ia_interface a) = name) then Some (prefix_text (ia_prefix a)) else None) l.

Lemma owned_prefixes_lookup network l name : owned_prefixes network l !! name =
  match owned_texts network name l with [] => None | texts => Some texts end.
Proof.
  unfold owned_prefixes. induction l as [|a l IH] using rev_ind; [apply lookup_empty|].
  rewrite foldl_app. cbn [foldl]. unfold owned_texts. rewrite omap_app. fold (owned_texts network name l). cbn [omap list_omap].
  destruct (bool_decide_reflect (ia_owner a = network)); cbn [negb andb]; [|by rewrite app_nil_r].
  destruct (bool_decide_reflect (as_str (ia_interface a) = name)) as [<-|Hne].
  - rewrite lookup_insert_eq, IH. by destruct (owned_texts network _ l).
  - rewrite lookup_insert_ne, app_nil_r by done. exact IH.
Qed.

(** What is told of the host's interfaces: of each interface with an address of the
    network, once, those addresses and no others. *)
Theorem interface_diagnostics_exact (network : NetworkId) (l : list InterfaceAddress) :
  NoDup (di_name <$> owned_interface_diagnostics network l) /\
  (forall d, d ∈ owned_interface_diagnostics network l -> di_addresses d <> [] /\ NoDup (di_addresses d)) /\
  (forall name text, (exists d, d ∈ owned_interface_diagnostics network l /\ di_name d = name /\ text ∈ di_addresses d) <->
    exists a, a ∈ l /\ ia_owner a = network /\ as_str (ia_interface a) = name /\ text = prefix_text (ia_prefix a)).
Proof.
  assert (forall d, d ∈ owned_interface_diagnostics network l <->
    exists texts, owned_texts network (di_name d) l = texts /\ texts <> [] /\ di_addresses d = dedup (merge_sort ord_le texts)) as Hd.
  { intros d. unfold owned_interface_diagnostics. rewrite list_elem_of_fmap. split.
    - intros ([name texts] & -> & Hin%elem_of_iter_map). rewrite owned_prefixes_lookup in Hin. cbn.
      destruct (owned_texts network name l) eqn:He; [done|]. injection Hin as <-. by exists (l0 :: l1).
    - intros (texts & Ht & Hne & Ha). exists (di_name d, texts). split; [destruct d; cbn in *; by rewrite Ha|].
      apply elem_of_iter_map. rewrite owned_prefixes_lookup, Ht. by destruct texts. }
  split_and!.
  - unfold owned_interface_diagnostics. rewrite <- list_fmap_compose. rewrite (list_fmap_ext _ fst) by (by intros ? [] _). apply NoDup_keys.
  - intros d (texts & _ & Hne & ->)%Hd. split; [|apply dedup_NoDup, (StronglySorted_merge_sort _)].
    destruct texts as [|t texts]; [done|]. intros Hnil. assert (t ∈ dedup (merge_sort ord_le (t :: texts))) as Hin.
    { rewrite elem_of_dedup, merge_sort_Permutation. by left. } rewrite Hnil in Hin. by apply not_elem_of_nil in Hin.
  - intros name text. split.
    + intros (d & (texts & Ht & _ & Ha)%Hd & <- & Hin). rewrite Ha, elem_of_dedup, merge_sort_Permutation, <- Ht in Hin.
      apply list_elem_of_omap in Hin as (a & Hal & Hif). exists a.
      destruct (bool_decide_reflect (ia_owner a = network)), (bool_decide_reflect (as_str (ia_interface a) = di_name d)); try done.
      by injection Hif as <-.
    + intros (a & Hal & Ho & Hn & ->). assert (prefix_text (ia_prefix a) ∈ owned_texts network name l) as Hin.
      { apply list_elem_of_omap. exists a. split; [done|]. by rewrite !bool_decide_eq_true_2. }
      exists (mkDiagnosticInterface name (dedup (merge_sort ord_le (owned_texts network name l)))). split_and!; [|done|].
      * apply Hd. exists (owned_texts network name l). split_and!; try done. intros Hnil. rewrite Hnil in Hin. by apply not_elem_of_nil in Hin.
      * cbn. by rewrite elem_of_dedup, merge_sort_Permutation.
Qed.
End interfaces.
